(* ===== verification/_CoqProject ===== *)
-Q . S2P
Prelude.v
NetAddress.v
CaptureTypes.v
FlowTable.v
FlowTableInvariant.v
FlowTableSteps.v
FlowTableTheorems.v
NatInterface.v
FlowTableExamples.v
PacketRewrite.v
PacketRewriteTheorems.v
Stateful.v
ConnectionReset.v
ConnectionResetTheorems.v
UdpFragment.v
UdpFragmentTheorems.v
UdpReassembly.v
Text.v
Socks5Codec.v
Socks5CodecTheorems.v
Socks5AuthTheorems.v
Socks5Examples.v
PacketFilters.v
PacketFiltersTheorems.v
WireDiff.v
StreamTransformer.v
StreamTransformerTheorems.v
Lease.v
LeaseTheorems.v
Location.v
LocationTheorems.v
CaptureModel.v
MetadataBudget.v
BodyStore.v
BodyStoreSpec.v
BodyOwnership.v
RecordingState.v
RecordingBudget.v
Recording.v
RecordingInvariant.v
RecordingWorld.v
RecordingCleanup.v
RecordingReplace.v
RecordingMethods.v
RecordingStorage.v
RecordingSpools.v
RecordingSteps.v
RecordingTheorems.v
RecordingBounds.v
RecordingExamples.v
SessionCapture.v
SessionRegistry.v
SessionRegistryInvariant.v
SessionRegistryTheorems.v
UdpSpoolModel.v
UdpSpool.v
UdpSpoolFrames.v
UdpSpoolSteps.v
UdpSpoolInvariant.v
UdpSpoolReader.v
UdpSpoolWriter.v
UdpSpoolRecovery.v
UdpSpoolTheorems.v
UdpSpoolDrain.v
UdpQueue.v
UdpCoordination.v
UdpPersist.v
UdpConsumer.v
UdpPersistTheorems.v
UdpConsumerTheorems.v
UdpSpoolExamples.v
SocksProjection.v
SocksProjectionTheorems.v
StreamTraces.v
StreamRecording.v
SocksProjectionExamples.v
MessageDraft.v
Breakpoints.v
BreakpointInvariant.v
BreakpointTheorems.v
