(* ===== verification/Prelude.v ===== *)
(** * A verification of the SprakCapture server

    SprakCapture captures the traffic of selected processes and accounts.  Its
    server ([src/Server], Rust) has these parts:

    - process capture ([Backend/ProcessCapture]): a packet driver hands every TCP
      and UDP packet to the server; a table of captured flows decides which packets
      are redirected to the local proxy, a rewriter changes their addresses, and
      fragmented UDP datagrams are put together for the recorder;
    - the SOCKS5 server ([Backend/Socks5]) that other devices connect to, and the
      registry of its sessions with the traffic they carried;
    - the plugin host ([Backend/PluginHost]) with byte-pattern packet filters and
      plugins that transform streams;
    - the recording session ([Backend/Capture]) that keeps captured transactions in
      memory and their bodies on disk, within limits;
    - the recording of UDP datagrams ([Backend/src/udpRecording.rs]): a disk queue
      between the packet threads and the recording session, which survives restarts;
    - the account service ([AccountService]), which leases connections to accounts
      and bills their usage;
    - location rules ([Backend/Location]) that select requests by protocol, host,
      port, path and query;
    - the HTTP proxy ([Backend/HttpProxy]), whose tools act on the messages that pass;
      the breakpoints suspend a message until somebody has edited and released it;
    - a control API and user interfaces.

    ** What is modelled, and where

    Each component has a file with its data and operations, named after the
    source, one or more files of theorems, and a file of examples that evaluates
    the definitions on concrete inputs and instantiates the theorems.

    - [Prelude], [Stateful], [NetAddress], [Text]: what the code uses of
      Rust and its standard library.  Integers are [Z] with their bounds and
      saturation written out; a byte is a [Z] from 0 to 255; [outcome] is the result
      of fallible code, with [Panic] for an index out of range, an overflow or a
      failed [expect]; [stateful] adds a state that survives errors.  [IpAddr] is an
      address with its bits; [parse_ip] follows the standard parser.
    - [CaptureTypes]: the configuration and event types of [lib.rs].
    - [FlowTable]: [flowTable.rs].  [FlowState] is the record under the lock, with
      the outbound and reflected indexes, the keys of each endpoint, retired UDP
      generations, bindings and fragment decisions; each method is a function on
      it.  [associateUdpOutboundAt] takes the lock several times, and what the
      other threads do in between is a function given to it.  [FlowTableInvariant]
      holds the invariant, [FlowTableSteps] the step relation of the methods and its
      reachable states, [FlowTableTheorems] the properties and [NatInterface] the
      type class of what the rewriter relies on.
    - [PacketRewrite], [PacketRewriteTheorems]: [packetRewrite.rs], IPv4 and IPv6
      parsing and the TCP rewrite that consults the flow table.
    - [ConnectionReset], [ConnectionResetTheorems]: [connectionReset.rs], which ends
      the connections that selected processes had before the capture: the tables of
      the system, the IPv6 connections that wait for a packet of theirs, and the
      resets built from it.  Its critical sections are steps of a transition system.
    - [UdpFragment], [UdpFragmentTheorems], [UdpReassembly]: [udpFragment.rs], the
      assembler with its budgets.
    - [Socks5Codec], [Socks5CodecTheorems], [Socks5AuthTheorems]: [address.rs],
      [protocol.rs], [error.rs] and [config.rs] of the SOCKS5 server.  A [Stream] is
      the bytes to come, how it ends after them, and the bytes written so far.
    - [SessionCapture], [SessionRegistry] and their theorems: [model.rs] and
      [registry.rs] of the SOCKS5 server.  A step of the registry is a critical
      section of a method, so that methods interleave; buffers are counted by who
      refers to them.
    - [PacketFilters], [PacketFiltersTheorems]: [packetFilters.rs].
    - [StreamTransformer], [StreamTransformerTheorems]: [streamTransformer.rs].
    - [WireDiff]: [deriveWireByteModifications] of [extensionDataPlane.rs].
    - [CaptureModel], [MetadataBudget]: the data of a recorded
      transaction, the entity a partial response belongs to, and what metadata
      costs in memory ([model.rs], [responseEntity.rs], [metadataBudget.rs]).
    - [BodyStore], [BodyStoreSpec], [BodyOwnership]: [bodyStore.rs] on a disk of
      directory entries, inodes and open files that may refuse any operation, and
      which file belongs to whom.
    - [RecordingState], [RecordingBudget], [Recording]: [recordingSession.rs].  The
      other [Recording] files hold its invariant ([RecordingInvariant]), the effect
      of evictions and of each method, the worlds a session reaches
      ([RecordingWorld], [RecordingSteps]) and the properties
      ([RecordingTheorems], [RecordingBounds]).
    - [UdpSpoolModel], [UdpSpool]: the disk queue of [udpRecording.rs]: frames,
      segments, cursors, opening the queue after a restart, appending, reading,
      acknowledging and retiring segments.  [UdpSpoolSteps] has the writer and the
      reader thread in steps of one critical section or disk operation, services and
      control processes that stop or die, and the log that all this is to implement;
      [UdpSpoolFrames], [UdpSpoolInvariant], [UdpSpoolReader], [UdpSpoolWriter] and
      [UdpSpoolRecovery] relate the two: names and frames, the representation and the
      disk operations, and each side; [UdpSpoolTheorems] and [UdpSpoolDrain] have the properties.
      [UdpSpoolExamples] has a concrete printer and parser, and concrete runs.
    - [UdpQueue]: the bounded queue in front of it ([QueuedUdpDatagramSink]) with the
      writer thread.
    - [UdpCoordination]: [UdpRecordingCoordination], the barrier behind which a clear
      hides older datagrams.
    - [UdpPersist], [UdpPersistTheorems]: [persistUdpDatagram], which turns a datagram
      into a transaction of the recording session, and how addresses are printed.
    - [UdpConsumer], [UdpConsumerTheorems]: the consumer task of [startUdpRecording]
      between queue, barrier and session, with the start and stop of services and
      [clearRecording] of [controlApi.rs].  The session is behind the type class
      [DatagramRecording]; [UdpPersistTheorems] has its instance.
    - [SocksProjection]: [socksTransactionProjection.rs] and the forwarder of session
      events of [controlApi/runtimeEventControl.rs], which turn the sessions of the
      registry into transactions.  The recording is behind the type class
      [TransactionStore]; what relays and other tasks do between the calls of a
      projection is a function of the [Moment].  [SocksProjectionTheorems] observes
      the calls through a recording with a journal; [StreamTraces] shows what the
      buffers of a snapshot hold while relays fill them, and [StreamRecording] puts
      registry, projector and recording session together.
    - [Lease], [LeaseTheorems]: [lease.rs], with [applyUsage] of [store.rs] and
      [synchronizeLeases] of [service.rs] around it.
    - [Location], [LocationTheorems]: [matcher.rs] and [model.rs].
    - [MessageDraft]: [messageDraft.rs], the draft of a message that goes to the control
      API and comes back, with the parts of [pipeline.rs] and [target.rs] it uses.
    - [Breakpoints]: [breakpoints.rs] and [locationScope.rs].  A step is what a hook of the
      pipeline or a call of the control API does up to the next lock, send, notification
      or poll; the oneshot channels between them have a sender, a receiver and a value.
      [BreakpointInvariant] gives each channel a ghost status that the steps move;
      [BreakpointTheorems] has the properties and runs.

    ** What the theorems show

    - Flow table: all indexes agree in every reachable state; the NAT mapping is
      injective and inverted by the reflected index; insertion, removal, hand-over
      of UDP ports between sockets, fragment decisions and process attribution
      behave as intended, also when a CLOSE races with the association of a packet.
    - Rewriter: total on all bytes; changes addresses and ports only; a redirected
      packet goes to the proxy, and an unfragmented reply to it is restored to the original
      endpoints as long as the table knows the flow and no address is IPv4-mapped.
    - Reassembly: counters are exact and within budget in every state, and giving up
      hands out exactly the packets they count; no datagram
      that may matter is evicted; fragments pushed in any order give the datagram.
    - SOCKS5: addresses and UDP frames round-trip; the stream reader agrees with the
      slice decoder; authentication is sound and complete.
    - Sessions: the captured bytes are counted exactly and stay within the budget
      under every interleaving; what was cleared stays silent; traffic of active sessions
      is recorded once and in order.
    - Filters and plugins: compiled filters compute the reference semantics; the
      stream session is safe for any plugin and independent of how the stream is cut
      for a plugin that decides on prefixes; recorded differences are reversible.
    - Recording: order, index, the total of body bytes and its limits agree with the
      transactions, and every file belongs to exactly one body or is queued for deletion,
      in every reachable world; every method returns;
      pending transactions survive evictions and finish once; a stored body and a
      leased body are read back; queries and eviction plans are exact.
    - UDP queue: all runs of the threads, with refused disk operations, torn frames
      and restarts, implement a log that appends at its end and consumes in order
      from its front; each append has the effect its result tells; closing drains;
      nothing that was taken over is lost; a clear hides, for good, what its process and
      the generations known to it had captured; the consumer settles every frame in order
      and makes no transaction of one twice; a recorded datagram is recorded whole.
    - SOCKS sessions on record: each session has at most one transaction, which is
      touched while the session is active and ended once, whatever is repeated or
      replayed; the byte counts of a snapshot are boundaries of recorded packets; a
      closed session leaves a finished transaction with exactly the bytes counted.
    - Resets: a connection is reset only if it was found in the table of a selected
      process shortly before; the two resets are what its packet asks for; the tables
      of the system are read within their buffers.
    - Accounts: usage is billed exactly once across failures and retries; limits are
      respected.
    - Locations: the wildcard matcher decides glob matching, and rules decide what
      their five parts say.
    - Breakpoints: whatever hooks, calls, timeouts and cancelled tasks interleave, every
      suspended message is answered once, by the call that took it or by its timeout, and
      every wait ends; a draft is applied as a whole or refused, and one that nobody
      edited changes nothing if the body was read and the header values are visible text.
    - Some theorems and examples state where the code departs from what it means:
      [interface_overwrites_sibling], [star_in_candidate_not_matched],
      [mapped_address_corrupted], [packets_underbilled],
      [closed_session_still_records], [clear_before_service_hides_nothing],
      [empty_datagram_refused], [stale_key_loses_datagram],
      [closed_session_recorded_twice], [continue_crosses_phases],
      [switched_off_and_suspended], [latin1_header_refused], [long_messages_refused]
      and [unread_body_emptied].

    ** Fuel

    Loops that are not structural take a number of rounds, and running out is
    [Panic]; since the theorems exclude [Panic], the bounds are proved enough.  The
    walks over IPv6 extension headers advance by at least eight bytes each round
    and get the length of the packet; the port search makes the 65535 rounds of its
    own loop; eviction removes a group each round and gets the number of groups; the
    stream session consumes a byte each round and gets the buffered length; the
    pattern search advances in the packet; the wildcard matcher gets a bound from
    the measure of its backtracking; the scans of a segment advance by a frame each
    round and get the length of the file; the table of the system is read again as
    often as it answers that the buffer is too small; the cleanup queue of the recording session
    shrinks each round.

    ** Parameters

    The plugin of a stream session, the verifier of an external authentication, the
    resolver of domain names, the digest of a synchronization request, Unicode
    lower-casing, the iteration order of a [HashMap] (any permutation of it), session
    and transaction identifiers and all clock readings; the sizes of Rust's types and
    how its vectors grow ([Layout]); what the operating system answers to a disk
    operation, the structures of its TCP tables ([WindowsTcp]) and what it answers to
    their calls ([TableCall]); the capacities of formatted strings and collected
    vectors in a projection; the JSON printer and parser, which invert each other, and the order in
    which a directory is listed ([SpoolEnvironment]);
    the header map, methods, URIs and status codes of the crate [http] and the Base64 of
    its crate ([HttpCrate], with what is documented of them in [HttpLaws]).

    ** What is not modelled

    Threads, sockets and the packet driver ([windows*.rs], the SOCKS5 server loops),
    the HTTP proxy around its breakpoints (forwarding and TLS interception on asynchronous
    third-party types, and its other tools), SQL storage and password hashing, the control API, dynamic
    loading of plugins, front ends and the Android client: input and output, or code
    of third parties around the components above.  Checksums are computed by the
    driver. *)


From stdpp Require Export base numbers list gmap strings sorting fin_maps.
From Stdlib Require Export ZArith Lia.

#[global] Open Scope Z_scope.
#[global] Arguments Z.shiftr : simpl never.
#[global] Arguments Z.shiftl : simpl never.
#[global] Arguments Z.land : simpl never.
#[global] Arguments Z.lor : simpl never.
#[global] Arguments Z.lxor : simpl never.
#[global] Arguments Z.to_nat : simpl never.

Create Rewrite HintDb net.
Create HintDb capture.

(** [case_if H]: case analysis on the condition of the outermost conditional
    of the goal, remembered as [H]. *)
Ltac case_if H :=
  match goal with |- context [if ?b then _ else _] => destruct b eqn:H end.

(** [case_let x y]: names the components of the pair a [let '(x, y) := p] of
    the goal destructs. *)
Ltac case_let x y :=
  match goal with |- context [match ?p with (_, _) => _ end] => destruct p as [x y] end.

(** ** Outcomes of Rust functions

    [Ok]/[Err] are the constructors of [Result]; [Panic] is the third way a
    Rust function can end: an out-of-range index, a failed [expect] or an
    [unreachable!]. *)
Inductive outcome (E A : Type) : Type :=
| Ok (a : A)
| Err (e : E)
| Panic.
Arguments Ok {E A} a.
Arguments Err {E A} e.
Arguments Panic {E A}.

#[export] Instance outcome_ret {E} : MRet (outcome E) := fun A a => Ok a.
#[export] Instance outcome_bind {E} : MBind (outcome E) := fun A B k m =>
  match m with Ok a => k a | Err e => Err e | Panic => Panic end.

(** [ok_or]: the [Option::ok_or] adapter of the standard library. *)
Definition ok_or {E A} (o : option A) (e : E) : outcome E A :=
  match o with Some a => Ok a | None => Err e end.

(** [check b e]: the guard [if !b { return Err(e) }]. *)
Definition check {E} (b : bool) (e : E) : outcome E unit :=
  if b then Ok tt else Err e.

(** [map_err]: the [Result::map_err] adapter. *)
Definition map_err {E F A} (f : E → F) (m : outcome E A) : outcome F A :=
  match m with Ok a => Ok a | Err e => Err (f e) | Panic => Panic end.

(** [expect o]: [Option::expect], which panics on [None]. *)
Definition expect {E A} (o : option A) : outcome E A :=
  match o with Some a => Ok a | None => Panic end.

(** [Satisfies m P Q]: [m] does not panic, its value satisfies [P] and its
    error satisfies [Q].  It is the weakest precondition of the error monad
    and the form in which every panic-freedom theorem is proved. *)
Definition Satisfies {E A} (m : outcome E A) (P : A → Prop) (Q : E → Prop) : Prop :=
  match m with Ok a => P a | Err e => Q e | Panic => False end.

(** A computation that never panics. *)
Definition no_panic {E A} (m : outcome E A) : Prop :=
  Satisfies m (λ _, True) (λ _, True).

Section satisfies.
Context {E : Type}.

Lemma satisfies_bind {A B} (m : outcome E A) (k : A → outcome E B) P Q :
  Satisfies m (λ a, Satisfies (k a) P Q) Q → Satisfies (m ≫= k) P Q.
Proof. by destruct m. Qed.

Lemma satisfies_ret {A} (a : A) (P : A → Prop) (Q : E → Prop) :
  P a → Satisfies (Ok a) P Q.
Proof. done. Qed.

Lemma satisfies_err {A} (e : E) (P : A → Prop) (Q : E → Prop) :
  Q e → Satisfies (Err e) P Q.
Proof. done. Qed.

Lemma satisfies_mono {A} (m : outcome E A) (P P' : A → Prop) (Q Q' : E → Prop) :
  (∀ a, P a → P' a) → (∀ e, Q e → Q' e) → Satisfies m P Q → Satisfies m P' Q'.
Proof. destruct m; naive_solver. Qed.

Lemma satisfies_check (b : bool) (e : E) (P : unit → Prop) (Q : E → Prop) :
  (b = true → P tt) → (b = false → Q e) → Satisfies (check b e) P Q.
Proof. destruct b; naive_solver. Qed.

Lemma satisfies_ok_or {A} (o : option A) (e : E) (P : A → Prop) (Q : E → Prop) :
  (∀ a, o = Some a → P a) → (o = None → Q e) → Satisfies (ok_or o e) P Q.
Proof. destruct o; naive_solver. Qed.

Lemma satisfies_expect {A} (o : option A) (P : A → Prop) (Q : E → Prop) :
  (∃ a, o = Some a ∧ P a) → Satisfies (expect o) P Q.
Proof. by intros (a & -> & ?). Qed.

Lemma satisfies_ok_elim {A} (m : outcome E A) P Q a :
  Satisfies m P Q → m = Ok a → P a.
Proof. by intros H ->. Qed.

Lemma satisfies_panic_elim {A} (m : outcome E A) P Q :
  Satisfies m P Q → m ≠ Panic.
Proof. by intros H ->. Qed.
End satisfies.

Lemma satisfies_map_err {E F A} (f : E → F) (m : outcome E A) P Q :
  Satisfies m P (λ e, Q (f e)) → Satisfies (map_err f m) P Q.
Proof. by destruct m. Qed.

Lemma bind_Ok_inv {E A B} (m : outcome E A) (k : A → outcome E B) b :
  m ≫= k = Ok b → ∃ a, m = Ok a ∧ k a = Ok b.
Proof. destruct m; naive_solver. Qed.

Lemma check_Ok_inv {E} (b : bool) (e : E) u : check b e = Ok u → b = true.
Proof. by destruct b. Qed.

(** ** Machine integers

    Unsigned integers are values of [Z]; the code's widths are the predicates
    below.  [usize] is 64 bits wide (the program ships for 64-bit Windows). *)
Definition u8_max : Z := 255.
Definition u16_max : Z := 65535.
Definition u32_max : Z := 4294967295.
Definition u64_max : Z := 18446744073709551615.
Definition usize_max : Z := u64_max.
Definition i64_max : Z := 9223372036854775807.
Definition i64_min : Z := -9223372036854775808.

Definition is_u8 (z : Z) : Prop := 0 ≤ z ≤ u8_max.
Definition is_u16 (z : Z) : Prop := 0 ≤ z ≤ u16_max.
Definition is_u32 (z : Z) : Prop := 0 ≤ z ≤ u32_max.
Definition is_u64 (z : Z) : Prop := 0 ≤ z ≤ u64_max.

(** [checked_add], [saturating_add] and [saturating_sub] of [usize]/[u64]. *)
Definition checked_add (a b : Z) : option Z :=
  if a + b <=? usize_max then Some (a + b) else None.
Definition saturating_add (a b : Z) : Z := Z.min (a + b) u64_max.
Definition saturating_sub (a b : Z) : Z := Z.max (a - b) 0.
Definition saturating_mul (a b : Z) : Z := Z.min (a * b) u64_max.

(** ** Byte strings and slices *)
Abbreviation bytes_ok := (Forall is_u8).

(** [len l] is [l.len()] as a [usize]. *)
Definition len {A} (l : list A) : Z := Z.of_nat (length l).

(** [get l i] is [l.get(i)]; [idx l i] is [l[i]], which panics out of range. *)
Definition get {A} (l : list A) (i : Z) : option A :=
  if i <? 0 then None else l !! Z.to_nat i.
Definition idx {E A} (l : list A) (i : Z) : outcome E A := expect (get l i).

(** [slice l a b] is the content of [l[a..b]]; [get_range] is [l.get(a..b)]
    and [sub_slice] the panicking [l[a..b]]. *)
Definition slice {A} (l : list A) (a b : Z) : list A :=
  take (Z.to_nat (b - a)) (drop (Z.to_nat a) l).
Definition in_range {A} (l : list A) (a b : Z) : bool :=
  (0 <=? a) && (a <=? b) && (b <=? len l).
Definition get_range {A} (l : list A) (a b : Z) : option (list A) :=
  if in_range l a b then Some (slice l a b) else None.
Definition sub_slice {E A} (l : list A) (a b : Z) : outcome E (list A) :=
  expect (get_range l a b).

(** [splice l off new]: the bytes of [l] with [new] written from [off] on;
    [write_slice] is [l[off..off + new.len()].copy_from_slice(new)]. *)
Definition splice {A} (l : list A) (off : Z) (new : list A) : list A :=
  take (Z.to_nat off) l ++ new ++ drop (Z.to_nat (off + len new)) l.
Definition write_slice {E A} (l : list A) (off : Z) (new : list A) : outcome E (list A) :=
  if in_range l off (off + len new) then Ok (splice l off new) else Panic.

(** Big-endian integers: [uN::from_be_bytes] and [uN::to_be_bytes]. *)
Definition be_value (l : list Z) : Z := foldl (λ acc b, acc * 256 + b) 0 l.
Fixpoint be_bytes (n : nat) (v : Z) : list Z :=
  match n with
  | O => []
  | S n => be_bytes n (v / 256) ++ [v mod 256]
  end.
#[global] Arguments be_value : simpl never.
#[global] Arguments slice : simpl never.
#[global] Arguments splice : simpl never.
#[global] Arguments len : simpl never.
#[global] Arguments get : simpl never.

(** ** Iterator adapters of the standard library *)

(** [Iterator::find_map]. *)
Fixpoint find_map {A B} (f : A → option B) (l : list A) : option B :=
  match l with
  | [] => None
  | x :: l => match f x with Some y => Some y | None => find_map f l end
  end.

(** [Iterator::find]. *)
Fixpoint find_first {A} (f : A → bool) (l : list A) : option A :=
  match l with
  | [] => None
  | x :: l => if f x then Some x else find_first f l
  end.

(** [iter_mut().find(p)] followed by an assignment through the reference. *)
Fixpoint update_first {A} (p : A → bool) (f : A → A) (l : list A) : list A :=
  match l with
  | [] => []
  | x :: l => if p x then f x :: l else x :: update_first p f l
  end.

(** [Iterator::min_by_key]: the first of the smallest elements. *)
Definition min_by {A} (lt : A → A → bool) (l : list A) : option A :=
  match l with
  | [] => None
  | x :: l => Some (foldl (λ acc y, if lt y acc then y else acc) x l)
  end.

(** [Vec::dedup]: drops an element equal to its predecessor. *)
Fixpoint dedup {A} `{EqDecision A} (l : list A) : list A :=
  match l with
  | [] => []
  | x :: l' =>
      match l' with
      | [] => [x]
      | y :: _ => if decide (x = y) then dedup l' else x :: dedup l'
      end
  end.

(** ** Lemmas on slices *)
Section slices.
Context {A : Type}.
Implicit Types (l new : list A) (a b i off : Z).

Lemma len_nonneg l : 0 ≤ len l.
Proof. unfold len. lia. Qed.

Lemma len_nil : len (@nil A) = 0.
Proof. done. Qed.

Lemma len_cons (x : A) l : len (x :: l) = len l + 1.
Proof. unfold len. simpl. lia. Qed.

Lemma len_app l1 l2 : len (l1 ++ l2) = len l1 + len l2.
Proof. unfold len. rewrite length_app. lia. Qed.

Lemma len_nil_inv l : len l = 0 → l = [].
Proof. unfold len. destruct l; simpl; [done|lia]. Qed.

Lemma in_range_spec l a b :
  in_range l a b = true ↔ 0 ≤ a ∧ a ≤ b ∧ b ≤ len l.
Proof. unfold in_range. rewrite !andb_true_iff, !Z.leb_le. tauto. Qed.

Lemma get_Some_range l i x : get l i = Some x → 0 ≤ i < len l.
Proof.
  unfold get, len. case_match eqn:Hi; [done|].
  intros Hx%lookup_lt_Some. apply Z.ltb_ge in Hi. lia.
Qed.

Lemma get_is_Some l i : 0 ≤ i < len l → is_Some (get l i).
Proof.
  unfold get, len. intros ?. rewrite (proj2 (Z.ltb_ge i 0)) by lia.
  apply lookup_lt_is_Some. lia.
Qed.

Lemma get_None l i : len l ≤ i → get l i = None.
Proof.
  unfold get, len. intros ?. case_match; [done|].
  apply lookup_ge_None. lia.
Qed.

Lemma get_lookup l i : 0 ≤ i → get l i = l !! Z.to_nat i.
Proof. unfold get. intros. by rewrite (proj2 (Z.ltb_ge i 0)) by lia. Qed.

Lemma get_elem_of l i x : get l i = Some x → x ∈ l.
Proof.
  intros Hx. pose proof (get_Some_range _ _ _ Hx).
  rewrite get_lookup in Hx by lia. by eapply list_elem_of_lookup_2.
Qed.

Lemma len_slice l a b : 0 ≤ a → a ≤ b → b ≤ len l → len (slice l a b) = b - a.
Proof.
  unfold len, slice. intros. rewrite length_take, length_drop. lia.
Qed.

Lemma slice_full l : slice l 0 (len l) = l.
Proof.
  unfold slice, len. rewrite Z.sub_0_r, Nat2Z.id.
  change (Z.to_nat 0) with 0%nat. by rewrite drop_0, firstn_all.
Qed.

Lemma slice_app_2 l1 l2 : slice (l1 ++ l2) (len l1) (len l1 + len l2) = l2.
Proof.
  unfold slice, len. rewrite Nat2Z.id, drop_app_length.
  rewrite take_ge; [done|lia].
Qed.

Lemma get_slice l a b i :
  0 ≤ a → 0 ≤ i < b - a → get (slice l a b) i = get l (a + i).
Proof.
  intros. unfold slice. rewrite !get_lookup by lia.
  rewrite lookup_take_lt by lia. rewrite lookup_drop. f_equal. lia.
Qed.

Lemma get_ext l1 l2 : (∀ i, 0 ≤ i → get l1 i = get l2 i) → l1 = l2.
Proof.
  intros H. apply list_eq. intros i.
  specialize (H (Z.of_nat i) ltac:(lia)).
  by rewrite !get_lookup, Nat2Z.id in H by lia.
Qed.

Lemma slice_slice l a b c d :
  0 ≤ a → 0 ≤ c → c ≤ d → d ≤ b - a → slice (slice l a b) c d = slice l (a + c) (a + d).
Proof.
  intros. apply get_ext. intros i Hi. destruct (decide (i < d - c)).
  - rewrite !get_slice by lia. f_equal. lia.
  - rewrite !get_None; [done|..]; unfold slice, len; rewrite length_take; lia.
Qed.

Lemma forall_slice (P : A → Prop) l a b : Forall P l → Forall P (slice l a b).
Proof. intros. unfold slice. by apply Forall_take, Forall_drop. Qed.

Lemma len_splice l off new :
  0 ≤ off → off + len new ≤ len l → len (splice l off new) = len l.
Proof.
  unfold splice, len. intros. rewrite !length_app, length_take, length_drop. lia.
Qed.

Lemma get_splice_in l off new i :
  0 ≤ off → off + len new ≤ len l → off ≤ i < off + len new →
  get (splice l off new) i = get new (i - off).
Proof.
  unfold splice, len. intros. rewrite !get_lookup by lia.
  rewrite lookup_app_r by (rewrite length_take; lia).
  rewrite lookup_app_l by (rewrite length_take; lia).
  rewrite length_take. f_equal. lia.
Qed.

Lemma get_splice_out l off new i :
  0 ≤ off → off + len new ≤ len l → (i < off ∨ off + len new ≤ i) →
  get (splice l off new) i = get l i.
Proof.
  unfold splice, len. intros ?? [?|?].
  - unfold get. case_match eqn:Hi; [done|]. apply Z.ltb_ge in Hi.
    rewrite lookup_app_l by (rewrite length_take; lia).
    by rewrite lookup_take_lt by lia.
  - rewrite !get_lookup by lia.
    rewrite lookup_app_r by (rewrite length_take; lia).
    rewrite lookup_app_r by (rewrite length_take; lia).
    rewrite length_take, lookup_drop. f_equal. lia.
Qed.

Lemma slice_ext l1 l2 a b :
  0 ≤ a → (∀ i, a ≤ i < b → get l1 i = get l2 i) → slice l1 a b = slice l2 a b.
Proof.
  intros Ha H. apply get_ext. intros i Hi.
  destruct (decide (i < b - a)).
  - rewrite !get_slice by lia. apply H. lia.
  - rewrite !get_None; [done|..]; unfold slice, len;
      rewrite length_take; lia.
Qed.

Lemma slice_splice_same l off new :
  0 ≤ off → off + len new ≤ len l → slice (splice l off new) off (off + len new) = new.
Proof.
  intros. pose proof (len_nonneg new).
  apply get_ext. intros i Hi. destruct (decide (i < len new)).
  - rewrite get_slice, get_splice_in by lia. f_equal. lia.
  - rewrite !get_None; [done|lia|].
    rewrite len_slice by (rewrite ?len_splice; lia). lia.
Qed.

Lemma slice_splice_other l off new a b :
  0 ≤ off → off + len new ≤ len l → 0 ≤ a → (b ≤ off ∨ off + len new ≤ a) →
  slice (splice l off new) a b = slice l a b.
Proof.
  intros ??? Hd. apply slice_ext; [done|]. intros i Hi.
  apply get_splice_out; lia.
Qed.
End slices.

Lemma forall_splice {A} (P : A → Prop) l off new :
  Forall P l → Forall P new → Forall P (splice l off new).
Proof.
  intros. unfold splice. rewrite !Forall_app. auto using Forall_take, Forall_drop.
Qed.

(** ** Weakest preconditions of the panicking accesses *)
Section accesses.
Context {E A : Type}.
Implicit Types (l : list A) (Q : E → Prop).

Lemma satisfies_idx l i (P : A → Prop) Q :
  0 ≤ i < len l → (∀ x, get l i = Some x → P x) → Satisfies (idx l i) P Q.
Proof.
  intros Hi HP. apply satisfies_expect.
  destruct (get_is_Some l i Hi) as [x Hx]. eauto.
Qed.

Lemma satisfies_sub_slice l a b (P : list A → Prop) Q :
  0 ≤ a → a ≤ b → b ≤ len l → P (slice l a b) → Satisfies (sub_slice l a b) P Q.
Proof.
  intros. apply satisfies_expect. exists (slice l a b). split; [|done].
  unfold get_range. by rewrite (proj2 (in_range_spec l a b)).
Qed.

Lemma satisfies_write_slice l off new (P : list A → Prop) Q :
  0 ≤ off → off + len new ≤ len l → P (splice l off new) →
  Satisfies (write_slice l off new) P Q.
Proof.
  intros. unfold write_slice. pose proof (len_nonneg new).
  rewrite (proj2 (in_range_spec l off (off + len new))) by lia. done.
Qed.

Lemma get_range_Some l a b s :
  get_range l a b = Some s → s = slice l a b ∧ 0 ≤ a ∧ a ≤ b ∧ b ≤ len l.
Proof.
  unfold get_range. destruct (in_range l a b) eqn:Hr; [|done].
  apply in_range_spec in Hr. by intros [= <-].
Qed.

Lemma write_slice_eq l off new :
  0 ≤ off → off + len new ≤ len l → write_slice (E:=E) l off new = Ok (splice l off new).
Proof.
  intros. unfold write_slice. pose proof (len_nonneg new).
  by rewrite (proj2 (in_range_spec l off (off + len new))) by lia.
Qed.

Lemma idx_eq l i x : get l i = Some x → idx (E:=E) l i = Ok x.
Proof. unfold idx. by intros ->. Qed.

Lemma sub_slice_eq l a b :
  0 ≤ a → a ≤ b → b ≤ len l → sub_slice (E:=E) l a b = Ok (slice l a b).
Proof.
  intros. unfold sub_slice, get_range.
  by rewrite (proj2 (in_range_spec l a b)).
Qed.
End accesses.

(** ** Appending and cutting *)
Lemma get_app_l {A} (l1 l2 : list A) i : 0 ≤ i < len l1 → get (l1 ++ l2) i = get l1 i.
Proof.
  intros Hi. rewrite !get_lookup by lia. apply lookup_app_l. unfold len in Hi. lia.
Qed.

Lemma get_app_r {A} (l1 l2 : list A) i : 0 ≤ i → get (l1 ++ l2) (len l1 + i) = get l2 i.
Proof.
  intros Hi. pose proof (len_nonneg l1). rewrite !get_lookup by lia.
  rewrite lookup_app_r by (unfold len; lia). f_equal. unfold len. lia.
Qed.

Lemma slice_cons {A} (input : list A) a b x :
  get input a = Some x → 0 ≤ a → a + 1 ≤ b → b ≤ len input → slice input a b = x :: slice input (a + 1) b.
Proof.
  intros Hx Ha Hab Hb. apply get_ext. intros i Hi. destruct (decide (i = 0)) as [->|Hne].
  - rewrite get_slice by lia. by rewrite Z.add_0_r, Hx.
  - destruct (decide (i < b - a)).
    + rewrite get_slice by lia.
      assert (get (x :: slice input (a + 1) b) i = get (slice input (a + 1) b) (i - 1)) as ->.
      { rewrite !get_lookup by lia. replace (Z.to_nat i) with (S (Z.to_nat (i - 1))) by lia. done. }
      rewrite get_slice by lia. f_equal. lia.
    + rewrite !get_None; [done|rewrite len_cons|]; rewrite len_slice by lia; lia.
Qed.

Lemma slice_split {A} (input : list A) a m b :
  0 ≤ a → a ≤ m → m ≤ b → b ≤ len input → slice input a b = slice input a m ++ slice input m b.
Proof.
  intros. apply get_ext. intros i Hi. destruct (decide (i < m - a)).
  - rewrite get_app_l by (rewrite len_slice; lia). rewrite !get_slice by lia. done.
  - replace i with (len (slice input a m) + (i - (m - a))) at 2 by (rewrite len_slice by lia; lia).
    rewrite get_app_r by lia. destruct (decide (i < b - a)).
    + rewrite !get_slice by lia. f_equal. lia.
    + rewrite !get_None; [done|rewrite len_slice by lia; lia..].
Qed.

Lemma slice_nil_at {A} (l : list A) a : slice l a a = [].
Proof. unfold slice. by rewrite Z.sub_diag. Qed.

Lemma slice_to_end {A} (l : list A) a : 0 ≤ a → slice l a (len l) = drop (Z.to_nat a) l.
Proof.
  intros Ha. unfold slice. apply take_ge. rewrite length_drop. unfold len. lia.
Qed.

Lemma slice_snoc {A} (l : list A) a b x :
  0 ≤ a ≤ b → get l b = Some x → slice l a (b + 1) = slice l a b ++ [x].
Proof.
  intros Ha Hx. rewrite get_lookup in Hx by lia. unfold slice.
  replace (Z.to_nat (b + 1 - a)) with (S (Z.to_nat (b - a))) by lia.
  apply take_S_r. rewrite lookup_drop. rewrite <-Hx. f_equal. lia.
Qed.

Lemma slice_app_1 {A} (l1 l2 : list A) : slice (l1 ++ l2) 0 (len l1) = l1.
Proof. unfold slice, len. rewrite Z.sub_0_r, Nat2Z.id. apply take_app_length. Qed.

Lemma get_byte l i x : bytes_ok l → get l i = Some x → 0 ≤ x ≤ 255.
Proof. intros Hl Hx%get_elem_of. rewrite Forall_forall in Hl. by apply Hl. Qed.

(** [wp] walks through a computation of the error monad: guards become
    hypotheses, accesses become range obligations (tried with [lia]). *)
Ltac wp_step :=
  lazymatch goal with
  | |- Satisfies (mbind _ _) _ _ => apply satisfies_bind
  | |- Satisfies (Ok _) _ _ => apply satisfies_ret
  | |- Satisfies (Err _) _ _ => apply satisfies_err
  | |- Satisfies (check ?b _) _ _ =>
      apply satisfies_check; [let H := fresh "Hg" in intros H; try_bool H|intros _]
  | |- Satisfies (idx ?l ?i) _ _ =>
      apply satisfies_idx; [try lia|let x := fresh "x" in let H := fresh "Hx" in intros x H]
  | |- Satisfies (sub_slice _ _ _) _ _ => apply satisfies_sub_slice; [try lia..|]
  | |- Satisfies (ok_or _ _) _ _ =>
      apply satisfies_ok_or; [let x := fresh "x" in let H := fresh "Hx" in intros x H|intros _]
  end
with try_bool H :=
  rewrite ?andb_true_iff, ?negb_true_iff, ?Z.leb_le, ?Z.ltb_lt, ?Z.eqb_eq, ?Z.eqb_neq,
    ?Z.leb_gt, ?Z.ltb_ge in H.
Ltac wp := repeat wp_step.

(** ** Big-endian integers *)
Lemma be_value_snoc l b : be_value (l ++ [b]) = be_value l * 256 + b.
Proof. unfold be_value. by rewrite foldl_app. Qed.

Lemma be_value_app l1 l2 :
  be_value (l1 ++ l2) = be_value l1 * 256 ^ len l2 + be_value l2.
Proof.
  induction l2 as [|b l2 IH] using rev_ind.
  - rewrite app_nil_r. unfold len. simpl. change (256 ^ 0) with 1. change (be_value []) with 0. lia.
  - rewrite app_assoc, !be_value_snoc, IH, len_app.
    rewrite Z.pow_add_r by (unfold len; lia).
    change (256 ^ len [b]) with 256. lia.
Qed.

Lemma len_be_bytes n v : len (be_bytes n v) = Z.of_nat n.
Proof.
  revert v. induction n as [|n IH]; intros v; [done|].
  cbn [be_bytes]. rewrite len_app, IH. unfold len. simpl. lia.
Qed.

Lemma be_bytes_ok n v : bytes_ok (be_bytes n v).
Proof.
  revert v. induction n as [|n IH]; intros v; cbn [be_bytes]; [constructor|].
  apply Forall_app. split; [done|]. repeat constructor;
    unfold u8_max; pose proof (Z.mod_pos_bound v 256); lia.
Qed.

Lemma be_value_bytes n v : 0 ≤ v < 256 ^ Z.of_nat n → be_value (be_bytes n v) = v.
Proof.
  revert v. induction n as [|n IH]; intros v Hv.
  - change (256 ^ Z.of_nat 0) with 1 in Hv. change (be_value (be_bytes 0 v)) with 0. lia.
  - cbn [be_bytes]. rewrite be_value_snoc, IH.
    + pose proof (Z.div_mod v 256). lia.
    + rewrite Nat2Z.inj_succ, Z.pow_succ_r in Hv by lia.
      split; [apply Z.div_pos; lia|]. apply Z.div_lt_upper_bound; lia.
Qed.

Lemma be_bytes_value l n : bytes_ok l → length l = n → be_bytes n (be_value l) = l.
Proof.
  revert n. induction l as [|b l IH] using rev_ind; intros n Hl Hn.
  - by subst.
  - rewrite length_app in Hn. simpl in Hn.
    destruct n as [|n]; [lia|]. apply Forall_app in Hl as [Hl Hb].
    inversion_clear Hb as [|?? Hb' _]. unfold is_u8, u8_max in Hb'.
    cbn [be_bytes]. rewrite be_value_snoc.
    rewrite Z.div_add_l, Z.div_small, Z.add_0_r by lia.
    rewrite IH by (done || lia). f_equal.
    rewrite Z.add_comm, Z.mod_add, Z.mod_small by lia. done.
Qed.

Lemma be_value_bound l : bytes_ok l → 0 ≤ be_value l < 256 ^ len l.
Proof.
  induction l as [|b l IH] using rev_ind; intros Hl.
  - done.
  - apply Forall_app in Hl as [Hl Hb]. inversion_clear Hb as [|?? Hb' _].
    unfold is_u8, u8_max in Hb'. specialize (IH Hl).
    rewrite be_value_snoc, len_app, Z.pow_add_r by (apply len_nonneg).
    change (256 ^ len [b]) with 256. lia.
Qed.

#[global] Arguments be_bytes : simpl never.
