(* ===== verification/NetAddress.v ===== *)
(** * Network addresses

    The [std::net] types the data plane uses ([IpAddr], [SocketAddr]) and the
    one function the program adds to them, [normalizeIpAddress] of
    [ProcessCapture/src/lib.rs].  An address is the unsigned integer of its
    octets: 32 bits for IPv4, 128 bits for IPv6. *)

From S2P Require Import Prelude.

(** ** [IpAddr] *)
Inductive IpAddr : Type :=
| V4 (address : Z)
| V6 (address : Z).

#[export] Instance IpAddr_eq_dec : EqDecision IpAddr.
Proof. solve_decision. Defined.

#[export] Instance IpAddr_countable : Countable IpAddr.
Proof.
  refine (inj_countable' (λ a, match a with V4 z => inl z | V6 z => inr z end)
    (λ s, match s with inl z => V4 z | inr z => V6 z end) _).
  by intros [].
Defined.

#[export] Instance IpAddr_inhabited : Inhabited IpAddr := populate (V4 0).

Definition ipv4_bits : Z := 4294967296.
Definition ipv6_bits : Z := 340282366920938463463374607431768211456.

(** The values the Rust types can hold. *)
Definition ip_ok (a : IpAddr) : Prop :=
  match a with
  | V4 z => 0 ≤ z < ipv4_bits
  | V6 z => 0 ≤ z < ipv6_bits
  end.

Definition is_ipv4 (a : IpAddr) : bool := match a with V4 _ => true | V6 _ => false end.

Definition UNSPECIFIED_V4 : IpAddr := V4 0.
Definition UNSPECIFIED_V6 : IpAddr := V6 0.
Definition LOCALHOST_V4 : IpAddr := V4 2130706433. (* 127.0.0.1 *)
Definition LOCALHOST_V6 : IpAddr := V6 1.          (* ::1 *)

Definition is_unspecified (a : IpAddr) : bool :=
  match a with V4 z => z =? 0 | V6 z => z =? 0 end.

(** 127.0.0.0/8 for IPv4, exactly [::1] for IPv6. *)
Definition is_loopback (a : IpAddr) : bool :=
  match a with V4 z => Z.shiftr z 24 =? 127 | V6 z => z =? 1 end.

(** [Ipv6Addr::to_ipv4_mapped]: the 32 low bits of [::ffff:0:0/96]. *)
Definition to_ipv4_mapped (z : Z) : option Z :=
  if Z.shiftr z 32 =? 65535 then Some (Z.land z 4294967295) else None.

(** [Ipv6Addr::is_unicast_link_local]: fe80::/10. *)
Definition is_unicast_link_local (z : Z) : bool :=
  Z.land (Z.shiftr z 112) 65472 =? 65152.

(** Octets in network order. *)
Definition octets (a : IpAddr) : list Z :=
  match a with V4 z => be_bytes 4 z | V6 z => be_bytes 16 z end.

(** The derived order: every IPv4 address is below every IPv6 address. *)
Definition ip_ltb (a b : IpAddr) : bool :=
  match a, b with
  | V4 x, V4 y => x <? y
  | V4 _, V6 _ => true
  | V6 _, V4 _ => false
  | V6 x, V6 y => x <? y
  end.

(** IPv4-mapped IPv6 addresses and their IPv4 address use one key. *)
Definition normalizeIpAddress (a : IpAddr) : IpAddr :=
  match a with
  | V6 z => match to_ipv4_mapped z with Some v => V4 v | None => V6 z end
  | V4 z => V4 z
  end.

(** The wildcard address of the family of [a]. *)
Definition wildcardOf (a : IpAddr) : IpAddr :=
  if is_ipv4 a then UNSPECIFIED_V4 else UNSPECIFIED_V6.

(** ** [SocketAddr] *)
Inductive SocketAddr : Type :=
| SocketAddrV4 (ip port : Z)
| SocketAddrV6 (ip port flowinfo scope_id : Z).

#[export] Instance SocketAddr_eq_dec : EqDecision SocketAddr.
Proof. solve_decision. Defined.

#[export] Instance SocketAddr_countable : Countable SocketAddr.
Proof.
  refine (inj_countable'
    (λ a, match a with
          | SocketAddrV4 i p => inl (i, p)
          | SocketAddrV6 i p f s => inr (i, p, f, s)
          end)
    (λ s, match s with
          | inl (i, p) => SocketAddrV4 i p
          | inr (i, p, f, s) => SocketAddrV6 i p f s
          end) _).
  by intros [].
Defined.

(** [SocketAddr::new]: flow information and scope start at zero. *)
Definition SocketAddr_new (ip : IpAddr) (port : Z) : SocketAddr :=
  match ip with
  | V4 z => SocketAddrV4 z port
  | V6 z => SocketAddrV6 z port 0 0
  end.

Definition sock_ip (a : SocketAddr) : IpAddr :=
  match a with SocketAddrV4 z _ => V4 z | SocketAddrV6 z _ _ _ => V6 z end.
Definition sock_port (a : SocketAddr) : Z :=
  match a with SocketAddrV4 _ p => p | SocketAddrV6 _ p _ _ => p end.

(** ** Facts *)
Lemma sock_new_ip ip port : sock_ip (SocketAddr_new ip port) = ip.
Proof. by destruct ip. Qed.
Lemma sock_new_port ip port : sock_port (SocketAddr_new ip port) = port.
Proof. by destruct ip. Qed.

Lemma to_ipv4_mapped_bound z v : to_ipv4_mapped z = Some v → 0 ≤ v < ipv4_bits.
Proof.
  unfold to_ipv4_mapped. case_match; [|done]. intros [= <-].
  pose proof (Z.land_ones z 32 ltac:(lia)) as Hl.
  replace (Z.ones 32) with 4294967295 in Hl by reflexivity. rewrite Hl.
  apply (Z.mod_pos_bound z (2 ^ 32)). lia.
Qed.

Lemma normalize_ok a : ip_ok a → ip_ok (normalizeIpAddress a).
Proof.
  intros H. destruct a as [z|z]; [exact H|]. cbn [normalizeIpAddress].
  destruct (to_ipv4_mapped z) eqn:Hm; [|exact H]. by apply (to_ipv4_mapped_bound z).
Qed.

(** A normalized address is a fixed point. *)
Lemma normalize_idempotent a :
  normalizeIpAddress (normalizeIpAddress a) = normalizeIpAddress a.
Proof.
  destruct a as [z|z]; [reflexivity|]. cbn [normalizeIpAddress].
  destruct (to_ipv4_mapped z) eqn:Hm; cbn [normalizeIpAddress]; [reflexivity|].
  by rewrite Hm.
Qed.

Lemma normalize_v4 z : normalizeIpAddress (V4 z) = V4 z.
Proof. done. Qed.

Lemma len_octets a : len (octets a) = if is_ipv4 a then 4 else 16.
Proof. destruct a; simpl; by rewrite len_be_bytes. Qed.

Lemma octets_ok a : bytes_ok (octets a).
Proof. destruct a; apply be_bytes_ok. Qed.

Lemma octets_v4_value z : 0 ≤ z < ipv4_bits → be_value (octets (V4 z)) = z.
Proof. intros H. apply be_value_bytes. exact H. Qed.
Lemma octets_v6_value z : 0 ≤ z < ipv6_bits → be_value (octets (V6 z)) = z.
Proof. intros H. apply be_value_bytes. exact H. Qed.

Lemma wildcardOf_unspecified a : is_unspecified (wildcardOf a) = true.
Proof. unfold wildcardOf. by destruct (is_ipv4 a). Qed.

#[export] Hint Rewrite sock_new_ip sock_new_port len_octets : net.
