(* ===== verification/CaptureTypes.v ===== *)
(** * Types of the process-capture crate

    [Server/Backend/ProcessCapture/src/lib.rs]: the capture configuration and
    its validation, and the UDP events exchanged between the capture threads,
    the packet data plane and the recorder. *)

From S2P Require Import Prelude NetAddress.

Record ProcessCaptureConfiguration := {
  pc_enabled : bool;
  pc_processIds : gset Z;
  pc_proxyPort : Z;
  pc_proxyAddress : IpAddr
}.

Definition defaultProxyAddress : IpAddr := LOCALHOST_V4.

Definition ProcessCaptureConfiguration_default : ProcessCaptureConfiguration :=
  {| pc_enabled := false; pc_processIds := ∅; pc_proxyPort := 1080;
     pc_proxyAddress := defaultProxyAddress |}.

(** The errors of [ProcessCaptureError] the modelled code returns. *)
Inductive ProcessCaptureError :=
| InvalidProcessId
| InvalidProxyPort
| ProxyProcessSelected (processId : Z)
| InvalidConnectionTable (ipv6 : bool)
| ResetConnection (ipv6 : bool) (processId status : Z)
| EnumerateConnections (ipv6 : bool) (status : Z).

Definition validate (proxyProcessId : Z) (c : ProcessCaptureConfiguration)
    : outcome ProcessCaptureError unit :=
  _ ← check (negb (pc_proxyPort c =? 0)) InvalidProxyPort;
  _ ← check (bool_decide (0 ∉ pc_processIds c)) InvalidProcessId;
  check (bool_decide (proxyProcessId ∉ pc_processIds c)) (ProxyProcessSelected proxyProcessId).

Inductive UdpDatagramDirection := Up | Down.
#[export] Instance UdpDatagramDirection_eq_dec : EqDecision UdpDatagramDirection.
Proof. solve_decision. Defined.

Record UdpDatagramModification := {
  um_offsetBytes : Z;
  um_originalBytes : list Z;
  um_modifiedBytes : list Z
}.

Record UdpDatagramEvent := {
  ue_processId : Z;
  ue_clientAddress : SocketAddr;
  ue_targetAddress : SocketAddr;
  ue_direction : UdpDatagramDirection;
  ue_payload : list Z;
  ue_capturedAtMilliseconds : Z;
  ue_modifications : list UdpDatagramModification
}.

Inductive UdpDatagramDecision :=
| Forward (payload : list Z) (modifications : list UdpDatagramModification)
| Drop
| Close.
