(* ===== verification/FlowTable.v ===== *)
(** * The captured-flow table

    Model of [Server/Backend/ProcessCapture/src/flowTable.rs]: the NAT-like
    index that ties a process to its TCP and UDP five-tuples, allocates the
    reflected source ports, remembers closed UDP generations and the decisions
    taken for IP fragments.

    [FlowState] is the struct of the same name; every [HashMap] is a [gmap].
    A method of [CaptureFlowTable] runs inside one critical section of the
    write lock and is a function on the state; [associateUdpOutboundAt], which
    takes the lock several times, receives the actions of the other threads
    between its critical sections as an argument.  [Instant] values and QPC
    counters are integers and every clock reading is an argument. *)

From S2P Require Import Prelude NetAddress.

Definition tcpProtocol : Z := 6.
Definition udpProtocol : Z := 17.
Definition firstReflectedPort : Z := 49152.
(** [Instant]s and [Duration]s are counted in milliseconds. *)
Definition fragmentDecisionLifetime : Z := 30000.
Definition maximumFragmentDecisions : Z := 4096.

Abbreviation Instant := Z (only parsing).

(** ** Data *)
Record CaptureFlow := {
  cf_processId : Z;
  cf_endpointId : Z;
  cf_localAddress : IpAddr;
  cf_localPort : Z;
  cf_remoteAddress : IpAddr;
  cf_remotePort : Z;
  cf_protocol : Z
}.

Record UdpAssociationRequest := {
  ua_localAddress : IpAddr;
  ua_localPort : Z;
  ua_remoteAddress : IpAddr;
  ua_remotePort : Z;
  ua_configuredProxyAddress : IpAddr;
  ua_proxyPort : Z;
  ua_capturedAtCounter : option Z
}.

Record OriginalTarget := {
  ot_processId : Z;
  ot_address : SocketAddr
}.

Record OutboundKey := {
  ob_localAddress : IpAddr;
  ob_localPort : Z;
  ob_remoteAddress : IpAddr;
  ob_remotePort : Z;
  ob_protocol : Z
}.

Record ReflectedKey := {
  rf_localAddress : IpAddr;
  rf_localPort : Z;
  rf_remoteAddress : IpAddr;
  rf_protocol : Z
}.

Record UdpBindingKey := {
  ub_localAddress : IpAddr;
  ub_localPort : Z
}.

Record FragmentKey := {
  fk_sourceAddress : IpAddr;
  fk_destinationAddress : IpAddr;
  fk_identification : Z;
  fk_protocol : Z;
  fk_outbound : bool
}.

Inductive FragmentAction :=
| Allow
| Block (endpointId : Z) (target : OriginalTarget).

Inductive FragmentRecordResult := Recorded | EndpointGone.

Inductive FragmentLookup :=
| LookupAllow
| LookupBlock (target : OriginalTarget)
| LookupUnknown.

Record FragmentDecision := {
  fd_action : FragmentAction;
  fd_expiresAt : Instant
}.

Record NetworkInterface := {
  ni_interfaceIndex : Z;
  ni_subinterfaceIndex : Z
}.

Record RewriteTarget := {
  rt_endpointId : Z;
  rt_original : OriginalTarget;
  rt_originalLocalAddress : IpAddr;
  rt_proxyAddress : IpAddr;
  rt_originalLocalPort : Z;
  rt_reflectedPort : Z;
  rt_originalInterface : option NetworkInterface
}.

Record TrackedTarget := {
  tt_endpointId : Z;
  tt_rewrite : RewriteTarget;
  tt_activeFromCounter : option Z
}.

Record RetiredUdpTarget := {
  ru_rewrite : RewriteTarget;
  ru_activeFromCounter : option Z;
  ru_retiredAt : Instant;
  ru_retiredAtCounter : option Z
}.

(** ** Decidable equality and countability of the keys *)
#[export] Instance OriginalTarget_eq_dec : EqDecision OriginalTarget.
Proof. solve_decision. Defined.
#[export] Instance NetworkInterface_eq_dec : EqDecision NetworkInterface.
Proof. solve_decision. Defined.
#[export] Instance RewriteTarget_eq_dec : EqDecision RewriteTarget.
Proof. solve_decision. Defined.
#[export] Instance OutboundKey_eq_dec : EqDecision OutboundKey.
Proof. solve_decision. Defined.
#[export] Instance ReflectedKey_eq_dec : EqDecision ReflectedKey.
Proof. solve_decision. Defined.
#[export] Instance UdpBindingKey_eq_dec : EqDecision UdpBindingKey.
Proof. solve_decision. Defined.
#[export] Instance FragmentKey_eq_dec : EqDecision FragmentKey.
Proof. solve_decision. Defined.

#[export] Instance OutboundKey_countable : Countable OutboundKey.
Proof.
  refine (inj_countable' (λ k, (ob_localAddress k, ob_localPort k, ob_remoteAddress k,
                                ob_remotePort k, ob_protocol k))
    (λ '(a, b, c, d, e), Build_OutboundKey a b c d e) _).
  by intros [].
Defined.
#[export] Instance ReflectedKey_countable : Countable ReflectedKey.
Proof.
  refine (inj_countable' (λ k, (rf_localAddress k, rf_localPort k, rf_remoteAddress k,
                                rf_protocol k))
    (λ '(a, b, c, d), Build_ReflectedKey a b c d) _).
  by intros [].
Defined.
#[export] Instance UdpBindingKey_countable : Countable UdpBindingKey.
Proof.
  refine (inj_countable' (λ k, (ub_localAddress k, ub_localPort k))
    (λ '(a, b), Build_UdpBindingKey a b) _).
  by intros [].
Defined.
#[export] Instance FragmentKey_countable : Countable FragmentKey.
Proof.
  refine (inj_countable' (λ k, (fk_sourceAddress k, fk_destinationAddress k,
                                fk_identification k, fk_protocol k, fk_outbound k))
    (λ '(a, b, c, d, e), Build_FragmentKey a b c d e) _).
  by intros [].
Defined.

(** ** State *)
Record FlowState := {
  fs_outbound : gmap OutboundKey TrackedTarget;
  fs_retiredUdpOutbound : gmap OutboundKey (list RetiredUdpTarget);
  fs_reflected : gmap ReflectedKey RewriteTarget;
  fs_endpointKeys : gmap Z (list (OutboundKey * ReflectedKey));
  fs_udpBindings : gmap UdpBindingKey (gmap Z Z);
  fs_udpBindingKeys : gmap Z UdpBindingKey;
  fs_fragmentDecisions : gmap FragmentKey FragmentDecision;
  fs_nextReflectedPort : Z
}.

Definition FlowState_default : FlowState := {|
  fs_outbound := ∅;
  fs_retiredUdpOutbound := ∅;
  fs_reflected := ∅;
  fs_endpointKeys := ∅;
  fs_udpBindings := ∅;
  fs_udpBindingKeys := ∅;
  fs_fragmentDecisions := ∅;
  fs_nextReflectedPort := firstReflectedPort
|}.

(** Assignments to one field. *)
Definition set_outbound (m : gmap OutboundKey TrackedTarget) (s : FlowState) : FlowState :=
  Build_FlowState m (fs_retiredUdpOutbound s) (fs_reflected s) (fs_endpointKeys s)
    (fs_udpBindings s) (fs_udpBindingKeys s) (fs_fragmentDecisions s) (fs_nextReflectedPort s).
Definition set_retired (m : gmap OutboundKey (list RetiredUdpTarget)) (s : FlowState) : FlowState :=
  Build_FlowState (fs_outbound s) m (fs_reflected s) (fs_endpointKeys s)
    (fs_udpBindings s) (fs_udpBindingKeys s) (fs_fragmentDecisions s) (fs_nextReflectedPort s).
Definition set_reflected (m : gmap ReflectedKey RewriteTarget) (s : FlowState) : FlowState :=
  Build_FlowState (fs_outbound s) (fs_retiredUdpOutbound s) m (fs_endpointKeys s)
    (fs_udpBindings s) (fs_udpBindingKeys s) (fs_fragmentDecisions s) (fs_nextReflectedPort s).
Definition set_endpointKeys (m : gmap Z (list (OutboundKey * ReflectedKey))) (s : FlowState) :=
  Build_FlowState (fs_outbound s) (fs_retiredUdpOutbound s) (fs_reflected s) m
    (fs_udpBindings s) (fs_udpBindingKeys s) (fs_fragmentDecisions s) (fs_nextReflectedPort s).
Definition set_udpBindings (m : gmap UdpBindingKey (gmap Z Z)) (s : FlowState) : FlowState :=
  Build_FlowState (fs_outbound s) (fs_retiredUdpOutbound s) (fs_reflected s) (fs_endpointKeys s)
    m (fs_udpBindingKeys s) (fs_fragmentDecisions s) (fs_nextReflectedPort s).
Definition set_udpBindingKeys (m : gmap Z UdpBindingKey) (s : FlowState) : FlowState :=
  Build_FlowState (fs_outbound s) (fs_retiredUdpOutbound s) (fs_reflected s) (fs_endpointKeys s)
    (fs_udpBindings s) m (fs_fragmentDecisions s) (fs_nextReflectedPort s).
Definition set_fragmentDecisions (m : gmap FragmentKey FragmentDecision) (s : FlowState) :=
  Build_FlowState (fs_outbound s) (fs_retiredUdpOutbound s) (fs_reflected s) (fs_endpointKeys s)
    (fs_udpBindings s) (fs_udpBindingKeys s) m (fs_nextReflectedPort s).
Definition set_nextReflectedPort (p : Z) (s : FlowState) : FlowState :=
  Build_FlowState (fs_outbound s) (fs_retiredUdpOutbound s) (fs_reflected s) (fs_endpointKeys s)
    (fs_udpBindings s) (fs_udpBindingKeys s) (fs_fragmentDecisions s) p.

(** The bounded wake-up channel of [setAssociationNotifier]: [try_send] adds
    one unit message unless the channel is full or its receiver is gone. *)
Record Notifier := {
  nt_capacity : Z;
  nt_pending : Z;
  nt_connected : bool
}.

Definition try_send (n : Notifier) : Notifier :=
  if nt_connected n && (nt_pending n <? nt_capacity n)
  then {| nt_capacity := nt_capacity n; nt_pending := nt_pending n + 1;
          nt_connected := nt_connected n |}
  else n.

Record CaptureFlowTable := {
  ft_state : FlowState;
  ft_associationNotifier : option Notifier
}.

Definition CaptureFlowTable_default : CaptureFlowTable :=
  {| ft_state := FlowState_default; ft_associationNotifier := None |}.

Definition set_state (s : FlowState) (t : CaptureFlowTable) : CaptureFlowTable :=
  {| ft_state := s; ft_associationNotifier := ft_associationNotifier t |}.

(** ** Construction of flows *)

(** [CaptureFlow::transport]. *)
Definition transport (processId endpointId : Z) (localAddress : IpAddr) (localPort : Z)
    (remoteAddress : IpAddr) (remotePort protocol : Z) : option CaptureFlow :=
  let localAddress := normalizeIpAddress localAddress in
  let remoteAddress := normalizeIpAddress remoteAddress in
  if (localPort =? 0) || (remotePort =? 0) || is_loopback remoteAddress
     || negb (eqb (is_ipv4 localAddress) (is_ipv4 remoteAddress))
  then None
  else Some {| cf_processId := processId; cf_endpointId := endpointId;
               cf_localAddress := localAddress; cf_localPort := localPort;
               cf_remoteAddress := remoteAddress; cf_remotePort := remotePort;
               cf_protocol := protocol |}.

Definition CaptureFlow_tcp (processId endpointId : Z) (localAddress : IpAddr) (localPort : Z)
    (remoteAddress : IpAddr) (remotePort : Z) : option CaptureFlow :=
  transport processId endpointId localAddress localPort remoteAddress remotePort tcpProtocol.

Definition CaptureFlow_udp (processId endpointId : Z) (localAddress : IpAddr) (localPort : Z)
    (remoteAddress : IpAddr) (remotePort : Z) : option CaptureFlow :=
  transport processId endpointId localAddress localPort remoteAddress remotePort udpProtocol.

Definition outboundKeyOf (flow : CaptureFlow) : OutboundKey :=
  {| ob_localAddress := cf_localAddress flow; ob_localPort := cf_localPort flow;
     ob_remoteAddress := cf_remoteAddress flow; ob_remotePort := cf_remotePort flow;
     ob_protocol := cf_protocol flow |}.

(** ** Helpers that run with the write lock held *)

Definition resolveProxyAddress (originalLocalAddress configuredProxyAddress : IpAddr)
    : option IpAddr :=
  let configuredProxyAddress := normalizeIpAddress configuredProxyAddress in
  if is_unspecified configuredProxyAddress then
    Some (if is_ipv4 originalLocalAddress then LOCALHOST_V4 else LOCALHOST_V6)
  else if eqb (is_ipv4 configuredProxyAddress) (is_ipv4 originalLocalAddress)
  then Some configuredProxyAddress
  else None.

Definition withIpv6Scope (target : OriginalTarget) (interfaceIndex : Z) : OriginalTarget :=
  let address :=
    match ot_address target with
    | SocketAddrV6 ip port flowinfo scope_id =>
        if is_unicast_link_local ip && (scope_id =? 0)
        then SocketAddrV6 ip port flowinfo interfaceIndex
        else SocketAddrV6 ip port flowinfo scope_id
    | address => address
    end in
  {| ot_processId := ot_processId target; ot_address := address |}.

Definition removeUdpBindingLocked (endpointId : Z) (s : FlowState) : FlowState :=
  match fs_udpBindingKeys s !! endpointId with
  | None => s
  | Some bindingKey =>
      let s := set_udpBindingKeys (delete endpointId (fs_udpBindingKeys s)) s in
      match fs_udpBindings s !! bindingKey with
      | None => s
      | Some bindings =>
          let bindings := delete endpointId bindings in
          if decide (bindings = ∅)
          then set_udpBindings (delete bindingKey (fs_udpBindings s)) s
          else set_udpBindings (<[bindingKey := bindings]> (fs_udpBindings s)) s
      end
  end.

(** One iteration of the loop over the keys of a removed endpoint. *)
Definition removeKeyPair (now : Instant) (retiredAtCounter : option Z)
    (s : FlowState) (keys : OutboundKey * ReflectedKey) : FlowState :=
  let '(outboundKey, reflectedKey) := keys in
  let s :=
    match fs_outbound s !! outboundKey with
    | None => s
    | Some tracked =>
        let s := set_outbound (delete outboundKey (fs_outbound s)) s in
        if ob_protocol outboundKey =? udpProtocol then
          set_retired
            (<[outboundKey :=
                 default [] (fs_retiredUdpOutbound s !! outboundKey) ++
                 [{| ru_rewrite := tt_rewrite tracked;
                     ru_activeFromCounter := tt_activeFromCounter tracked;
                     ru_retiredAt := now;
                     ru_retiredAtCounter := retiredAtCounter |}]]>
               (fs_retiredUdpOutbound s)) s
        else s
    end in
  set_reflected (delete reflectedKey (fs_reflected s)) s.

(** The predicate of the last [retain] of [removeEndpointLocked]. *)
Definition keepsDecision (endpointId : Z) (decision : FragmentDecision) : bool :=
  match fd_action decision with
  | Block decisionEndpointId _ => negb (decisionEndpointId =? endpointId)
  | Allow => true
  end.

Definition removeEndpointLocked (now : Instant) (endpointId : Z) (retiredAtCounter : option Z)
    (s : FlowState) : FlowState :=
  let s :=
    match fs_endpointKeys s !! endpointId with
    | None => s
    | Some keys =>
        foldl (removeKeyPair now retiredAtCounter)
          (set_endpointKeys (delete endpointId (fs_endpointKeys s)) s) keys
    end in
  let s := removeUdpBindingLocked endpointId s in
  set_fragmentDecisions
    (filter (λ '(_, decision), keepsDecision endpointId decision = true)
       (fs_fragmentDecisions s)) s.

Definition pruneFragmentState (now : Instant) (s : FlowState) : FlowState :=
  set_fragmentDecisions
    (filter (λ '(_, decision), now < fd_expiresAt decision) (fs_fragmentDecisions s)) s.

(** The body of the allocation loop, [attempts] iterations left. *)
Fixpoint allocateLoop (attempts : nat) (localAddress remoteAddress : IpAddr)
    (proxyPort protocol : Z) (s : FlowState) : FlowState * option Z :=
  match attempts with
  | O => (s, None)
  | S attempts =>
      let candidate := fs_nextReflectedPort s in
      let s := set_nextReflectedPort (if candidate =? u16_max then 1 else candidate + 1) s in
      let key := {| rf_localAddress := localAddress; rf_localPort := candidate;
                    rf_remoteAddress := remoteAddress; rf_protocol := protocol |} in
      if negb (candidate =? proxyPort) && bool_decide (fs_reflected s !! key = None)
      then (s, Some candidate)
      else allocateLoop attempts localAddress remoteAddress proxyPort protocol s
  end.

Definition allocateReflectedPort (localAddress remoteAddress : IpAddr) (proxyPort protocol : Z)
    (s : FlowState) : FlowState * option Z :=
  allocateLoop (Z.to_nat u16_max) localAddress remoteAddress proxyPort protocol s.

(** ** Methods of [CaptureFlowTable] *)

Definition newRewrite (flow : CaptureFlow) (proxyAddress : IpAddr) (reflectedPort : Z)
    : RewriteTarget :=
  {| rt_endpointId := cf_endpointId flow;
     rt_original :=
       {| ot_processId := cf_processId flow;
          ot_address := SocketAddr_new (cf_remoteAddress flow) (cf_remotePort flow) |};
     rt_originalLocalAddress := cf_localAddress flow;
     rt_proxyAddress := proxyAddress;
     rt_originalLocalPort := cf_localPort flow;
     rt_reflectedPort := reflectedPort;
     rt_originalInterface := None |}.

Definition reflectedKeyOf (proxyAddress : IpAddr) (reflectedPort protocol : Z) : ReflectedKey :=
  {| rf_localAddress := proxyAddress; rf_localPort := reflectedPort;
     rf_remoteAddress := proxyAddress; rf_protocol := protocol |}.

(** The three insertions that register a flow. *)
Definition registerFlow (flow : CaptureFlow) (proxyAddress : IpAddr) (reflectedPort : Z)
    (activeFromCounter : option Z) (s : FlowState) : FlowState :=
  let outboundKey := outboundKeyOf flow in
  let reflectedKey := reflectedKeyOf proxyAddress reflectedPort (cf_protocol flow) in
  let rewrite := newRewrite flow proxyAddress reflectedPort in
  let s := set_outbound
    (<[outboundKey := {| tt_endpointId := cf_endpointId flow; tt_rewrite := rewrite;
                         tt_activeFromCounter := activeFromCounter |}]> (fs_outbound s)) s in
  let s := set_reflected (<[reflectedKey := rewrite]> (fs_reflected s)) s in
  set_endpointKeys
    (<[cf_endpointId flow :=
         default [] (fs_endpointKeys s !! cf_endpointId flow) ++ [(outboundKey, reflectedKey)]]>
       (fs_endpointKeys s)) s.

(** The last part of the critical section: allocate a port, then register. *)
Definition allocateAndRegister (flow : CaptureFlow) (proxyAddress : IpAddr) (proxyPort : Z)
    (activeFromCounter : option Z) (s : FlowState) : FlowState * bool :=
  match allocateReflectedPort proxyAddress proxyAddress proxyPort (cf_protocol flow) s with
  | (s, None) => (s, false)
  | (s, Some reflectedPort) =>
      (registerFlow flow proxyAddress reflectedPort activeFromCounter s, true)
  end.

(** The critical section of [insertAt]; [now1] and [now2] are the clock
    readings of its two [removeEndpointLocked] calls. *)
Definition insertLocked (now1 now2 : Instant) (flow : CaptureFlow) (proxyAddress : IpAddr)
    (proxyPort : Z) (activeFromCounter : option Z) (s : FlowState) : FlowState * bool :=
  let outboundKey := outboundKeyOf flow in
  let s := if cf_protocol flow =? tcpProtocol
           then removeEndpointLocked now1 (cf_endpointId flow) None s else s in
  match fs_outbound s !! outboundKey with
  | Some previous =>
      if tt_endpointId previous =? cf_endpointId flow then (s, false)
      else allocateAndRegister flow proxyAddress proxyPort activeFromCounter
             (removeEndpointLocked now2 (tt_endpointId previous)
                (if cf_protocol flow =? udpProtocol then activeFromCounter else None) s)
  | None => allocateAndRegister flow proxyAddress proxyPort activeFromCounter s
  end.

Definition insertAt (now1 now2 : Instant) (flow : CaptureFlow) (configuredProxyAddress : IpAddr)
    (proxyPort : Z) (activeFromCounter : option Z) (t : CaptureFlowTable)
    : CaptureFlowTable * bool :=
  match resolveProxyAddress (cf_localAddress flow) configuredProxyAddress with
  | None => (t, false)
  | Some proxyAddress =>
      match insertLocked now1 now2 flow proxyAddress proxyPort activeFromCounter (ft_state t) with
      | (s, false) => (set_state s t, false)
      | (s, true) =>
          ({| ft_state := s; ft_associationNotifier := try_send <$> ft_associationNotifier t |},
           true)
      end
  end.

Definition insertFlow (now1 now2 : Instant) (flow : CaptureFlow) (configuredProxyAddress : IpAddr)
    (proxyPort : Z) (t : CaptureFlowTable) : CaptureFlowTable * bool :=
  insertAt now1 now2 flow configuredProxyAddress proxyPort None t.

Definition setAssociationNotifier (notifier : option Notifier) (t : CaptureFlowTable)
    : CaptureFlowTable :=
  {| ft_state := ft_state t; ft_associationNotifier := notifier |}.

Definition removeEndpoint (now : Instant) (endpointId : Z) (s : FlowState) : FlowState :=
  removeEndpointLocked now endpointId None s.

(** [clock i] is the clock reading of iteration [i]. *)
Definition removeEndpointsAt (clock : nat → Instant) (endpointIds : list Z) (eventTimestamp : Z)
    (s : FlowState) : FlowState :=
  foldl (λ s '(i, endpointId), removeEndpointLocked (clock i) endpointId (Some eventTimestamp) s)
    s (imap pair endpointIds).

(** The common tail of [registerUdpBinding] and [replaceUdpOwnerBindings]. *)
Definition bindUdp (processId endpointId : Z) (key : UdpBindingKey) (s : FlowState) : FlowState :=
  let s := removeUdpBindingLocked endpointId s in
  let s := set_udpBindings
    (<[key := <[endpointId := processId]> (default ∅ (fs_udpBindings s !! key))]>
       (fs_udpBindings s)) s in
  set_udpBindingKeys (<[endpointId := key]> (fs_udpBindingKeys s)) s.

Definition registerUdpBinding (processId endpointId : Z) (localAddress : IpAddr) (localPort : Z)
    (s : FlowState) : FlowState * bool :=
  let localAddress := normalizeIpAddress localAddress in
  if (localPort =? 0) || is_loopback localAddress then (s, false)
  else (bindUdp processId endpointId
          {| ub_localAddress := localAddress; ub_localPort := localPort |} s, true).

Definition addOwnerBinding (s : FlowState) (addition : Z * Z * IpAddr * Z) : FlowState :=
  let '(processId, endpointId, localAddress, localPort) := addition in
  let localAddress := normalizeIpAddress localAddress in
  if (localPort =? 0) || is_loopback localAddress then s
  else bindUdp processId endpointId
         {| ub_localAddress := localAddress; ub_localPort := localPort |} s.

Definition replaceUdpOwnerBindings (clock : nat → Instant) (removedEndpointIds : list Z)
    (additions : list (Z * Z * IpAddr * Z)) (s : FlowState) : FlowState :=
  let s := foldl (λ s '(i, endpointId), removeEndpointLocked (clock i) endpointId None s)
             s (imap pair removedEndpointIds) in
  foldl addOwnerBinding s additions.

(** *** Lookups *)

Definition outboundKey (protocol : Z) (localAddress : IpAddr) (localPort : Z)
    (remoteAddress : IpAddr) (remotePort : Z) : OutboundKey :=
  {| ob_localAddress := normalizeIpAddress localAddress; ob_localPort := localPort;
     ob_remoteAddress := normalizeIpAddress remoteAddress; ob_remotePort := remotePort;
     ob_protocol := protocol |}.

Definition withLocalAddress (a : IpAddr) (k : OutboundKey) : OutboundKey :=
  {| ob_localAddress := a; ob_localPort := ob_localPort k;
     ob_remoteAddress := ob_remoteAddress k; ob_remotePort := ob_remotePort k;
     ob_protocol := ob_protocol k |}.

Definition setOriginalLocalAddress (a : IpAddr) (r : RewriteTarget) : RewriteTarget :=
  {| rt_endpointId := rt_endpointId r; rt_original := rt_original r;
     rt_originalLocalAddress := a; rt_proxyAddress := rt_proxyAddress r;
     rt_originalLocalPort := rt_originalLocalPort r; rt_reflectedPort := rt_reflectedPort r;
     rt_originalInterface := rt_originalInterface r |}.

(** The promotion of a flow registered with a wildcard local address, once its
    reflected key is known. *)
Definition promote (key wildcardKey : OutboundKey) (tracked : TrackedTarget)
    (reflectedKey : ReflectedKey) (s : FlowState) : FlowState :=
  let s := set_outbound (delete wildcardKey (fs_outbound s)) s in
  let s := set_reflected (<[reflectedKey := tt_rewrite tracked]> (fs_reflected s)) s in
  let s := set_outbound (<[key := tracked]> (fs_outbound s)) s in
  match fs_endpointKeys s !! tt_endpointId tracked with
  | None => s
  | Some keys =>
      set_endpointKeys
        (<[tt_endpointId tracked :=
             update_first (λ '(k, _), bool_decide (k = wildcardKey)) (λ '(_, r), (key, r)) keys]>
           (fs_endpointKeys s)) s
  end.

Definition outboundTransportTarget (protocol : Z) (localAddress : IpAddr) (localPort : Z)
    (remoteAddress : IpAddr) (remotePort : Z) (s : FlowState)
    : FlowState * option RewriteTarget :=
  let key := outboundKey protocol localAddress localPort remoteAddress remotePort in
  match fs_outbound s !! key with
  | Some tracked => (s, Some (tt_rewrite tracked))
  | None =>
      let wildcardKey := withLocalAddress (wildcardOf (ob_localAddress key)) key in
      match fs_outbound s !! wildcardKey with
      | None => (s, None)
      | Some tracked =>
          match fs_endpointKeys s !! tt_endpointId tracked with
          | None => (s, None)
          | Some keys =>
              match find_map (λ '(k, r), if bool_decide (k = wildcardKey)
                                         then Some r else None) keys with
              | None => (s, None)
              | Some reflectedKey =>
                  let tracked :=
                    {| tt_endpointId := tt_endpointId tracked;
                       tt_rewrite :=
                         setOriginalLocalAddress (ob_localAddress key) (tt_rewrite tracked);
                       tt_activeFromCounter := tt_activeFromCounter tracked |} in
                  (promote key wildcardKey tracked reflectedKey s, Some (tt_rewrite tracked))
              end
          end
      end
  end.

Definition outboundTarget (localAddress : IpAddr) (localPort : Z) (remoteAddress : IpAddr)
    (remotePort : Z) (s : FlowState) : FlowState * option RewriteTarget :=
  outboundTransportTarget tcpProtocol localAddress localPort remoteAddress remotePort s.

(** [activeFromCounter.is_none_or(|activeFrom| capturedAtCounter >= activeFrom)]. *)
Definition activeAt (activeFromCounter : option Z) (capturedAtCounter : Z) : bool :=
  match activeFromCounter with None => true | Some activeFrom => activeFrom <=? capturedAtCounter end.

(** The QPC interval test of a retired version. *)
Definition retiredCovers (capturedAt : Instant) (capturedAtCounter : Z) (r : RetiredUdpTarget)
    : bool :=
  activeAt (ru_activeFromCounter r) capturedAtCounter &&
  match ru_retiredAtCounter r with
  | None => capturedAt <=? ru_retiredAt r
  | Some retiredAt => capturedAtCounter <? retiredAt
  end.

Definition udpTargetAt (localAddress : IpAddr) (localPort : Z) (remoteAddress : IpAddr)
    (remotePort : Z) (capturedAt : Instant) (capturedAtCounter : Z) (s : FlowState)
    : option RewriteTarget :=
  let key := outboundKey udpProtocol localAddress localPort remoteAddress remotePort in
  let retired :=
    versions ← fs_retiredUdpOutbound s !! key;
    ru_rewrite <$> find_first (retiredCovers capturedAt capturedAtCounter) (reverse versions) in
  match fs_outbound s !! key with
  | Some current =>
      if activeAt (tt_activeFromCounter current) capturedAtCounter
      then Some (tt_rewrite current) else retired
  | None => retired
  end.

(** The predicate of the inner [retain] of [advanceUdpObservationWatermark]. *)
Definition survivesWatermark (processedCounter : Z) (r : RetiredUdpTarget) : Prop :=
  match ru_retiredAtCounter r with None => True | Some retiredAt => processedCounter ≤ retiredAt end.
#[export] Instance survivesWatermark_dec w r : Decision (survivesWatermark w r).
Proof. unfold survivesWatermark. case_match; apply _. Defined.

Definition advanceUdpObservationWatermark (processedCounter : Z) (s : FlowState) : FlowState :=
  set_retired
    (omap (λ versions,
             let versions := filter (survivesWatermark processedCounter) versions in
             if decide (versions = []) then None else Some versions)
       (fs_retiredUdpOutbound s)) s.

Definition reflectedTransportTarget (protocol : Z) (localAddress : IpAddr) (localPort : Z)
    (remoteAddress : IpAddr) (s : FlowState) : option RewriteTarget :=
  fs_reflected s !!
    {| rf_localAddress := normalizeIpAddress localAddress; rf_localPort := localPort;
       rf_remoteAddress := normalizeIpAddress remoteAddress; rf_protocol := protocol |}.

Definition reflectedTarget (localAddress : IpAddr) (localPort : Z) (remoteAddress : IpAddr)
    (s : FlowState) : option RewriteTarget :=
  reflectedTransportTarget tcpProtocol localAddress localPort remoteAddress s.

Definition originalTargetForPeer (localAddress : IpAddr) (peer : SocketAddr) (s : FlowState)
    : option OriginalTarget :=
  rt_original <$> reflectedTarget localAddress (sock_port peer) (sock_ip peer) s.

Definition inboundTransportTarget (protocol : Z) (remoteAddress : IpAddr) (remotePort : Z)
    (localAddress : IpAddr) (localPort : Z) (s : FlowState) : option RewriteTarget :=
  tt_rewrite <$>
    fs_outbound s !! outboundKey protocol localAddress localPort remoteAddress remotePort.

Definition flowCount (s : FlowState) : Z := Z.of_nat (size (fs_outbound s)).
Definition isEmpty (s : FlowState) : bool := flowCount s =? 0.
Definition clear (s : FlowState) : FlowState := FlowState_default.

(** *** Attribution of connectionless UDP *)

(** [sort_unstable] on [(u64, u32)] pairs. *)
Definition pair_le (a b : Z * Z) : Prop := a.1 < b.1 ∨ (a.1 = b.1 ∧ a.2 ≤ b.2).
#[export] Instance pair_le_dec a b : Decision (pair_le a b).
Proof. unfold pair_le. apply _. Defined.

(** The block that selects the candidate endpoint of a local address. *)
Definition bindingCandidate (localAddress : IpAddr) (localPort : Z) (s : FlowState)
    : option (Z * Z) :=
  let at_ a := fs_udpBindings s !! {| ub_localAddress := a; ub_localPort := localPort |} in
  let entries (o : option (gmap Z Z)) := default [] (map_to_list <$> o) in
  let candidates := entries (at_ localAddress) ++ entries (at_ (wildcardOf localAddress)) in
  let candidates := dedup (merge_sort pair_le candidates) in
  match candidates with
  | [] => None
  | first :: _ =>
      if forallb (λ c, c.2 =? first.2) candidates then Some first else None
  end.

(** Lookup used before and after the insertion: by the capture counter when
    the packet carries one, by the current table otherwise. *)
Definition udpLookup (now : Instant) (capturedAtCounter : option Z) (localAddress : IpAddr)
    (localPort : Z) (remoteAddress : IpAddr) (remotePort : Z) (s : FlowState)
    : FlowState * option RewriteTarget :=
  match capturedAtCounter with
  | None => outboundTransportTarget udpProtocol localAddress localPort remoteAddress remotePort s
  | Some counter =>
      (s, udpTargetAt localAddress localPort remoteAddress remotePort now counter s)
  end.

(** [env i] is what the other threads do to the table before the [i]-th
    critical section of this thread; [clock i] are this thread's clock readings. *)
Definition associateUdpOutboundAt (clock : nat → Instant)
    (env : nat → CaptureFlowTable → CaptureFlowTable)
    (request : UdpAssociationRequest) (t : CaptureFlowTable)
    : CaptureFlowTable * option RewriteTarget :=
  let counter := ua_capturedAtCounter request in
  match udpLookup (clock 0%nat) counter (ua_localAddress request) (ua_localPort request)
          (ua_remoteAddress request) (ua_remotePort request) (ft_state t) with
  | (s, Some target) => (set_state s t, Some target)
  | (s, None) =>
      let localAddress := normalizeIpAddress (ua_localAddress request) in
      let remoteAddress := normalizeIpAddress (ua_remoteAddress request) in
      let t := env 1%nat (set_state s t) in
      match bindingCandidate localAddress (ua_localPort request) (ft_state t) with
      | None => (t, None)
      | Some (endpointId, processId) =>
          match CaptureFlow_udp processId endpointId localAddress (ua_localPort request)
                  remoteAddress (ua_remotePort request) with
          | None => (t, None)
          | Some flow =>
              let t := env 2%nat t in
              let '(t, _) := insertAt (clock 1%nat) (clock 2%nat) flow
                               (ua_configuredProxyAddress request) (ua_proxyPort request)
                               counter t in
              let t := env 3%nat t in
              let '(s, target) :=
                udpLookup (clock 3%nat) counter localAddress (ua_localPort request)
                  remoteAddress (ua_remotePort request) (ft_state t) in
              let t := env 4%nat (set_state s t) in
              let bindingStillActive :=
                bool_decide (is_Some (fs_udpBindingKeys (ft_state t) !! endpointId)) in
              if bindingStillActive then (t, target)
              else
                let t := env 5%nat t in
                (set_state (removeEndpoint (clock 4%nat) endpointId (ft_state t)) t, target)
          end
      end
  end.

(** *** Process selection *)

Definition retainProcessIds (clock : nat → Instant) (selectedProcessIds : gset Z)
    (s : FlowState) : FlowState :=
  let removedEndpointIds :=
    tt_endpointId <$>
      filter (λ target, ot_processId (rt_original (tt_rewrite target)) ∉ selectedProcessIds)
        (snd <$> map_to_list (fs_outbound s)) in
  let s := foldl (λ s '(i, endpointId), removeEndpointLocked (clock i) endpointId None s)
             s (imap pair removedEndpointIds) in
  let removedBindingEndpointIds :=
    fst <$>
      filter (λ b, b.2 ∉ selectedProcessIds)
        (mjoin ((λ b, map_to_list b.2) <$> map_to_list (fs_udpBindings s))) in
  foldl (λ s endpointId, removeUdpBindingLocked endpointId s) s removedBindingEndpointIds.

(** *** Fragment decisions *)

(** The derived lexicographic order of [FragmentKey], below [expiresAt]. *)
Definition fragmentKey_ltb (a b : FragmentKey) : bool :=
  ip_ltb (fk_sourceAddress a) (fk_sourceAddress b) ||
  bool_decide (fk_sourceAddress a = fk_sourceAddress b) &&
  (ip_ltb (fk_destinationAddress a) (fk_destinationAddress b) ||
   bool_decide (fk_destinationAddress a = fk_destinationAddress b) &&
   ((fk_identification a <? fk_identification b) ||
    (fk_identification a =? fk_identification b) &&
    ((fk_protocol a <? fk_protocol b) ||
     (fk_protocol a =? fk_protocol b) && (negb (fk_outbound a) && fk_outbound b)))).

Definition evictsBefore (a b : FragmentKey * FragmentDecision) : bool :=
  (fd_expiresAt a.2 <? fd_expiresAt b.2) ||
  (fd_expiresAt a.2 =? fd_expiresAt b.2) && fragmentKey_ltb a.1 b.1.

Definition isBlock (a : FragmentAction) : bool :=
  match a with Block _ _ => true | Allow => false end.

(** Makes room for a new key when the table is full. *)
Definition evictForKey (key : FragmentKey)
    (m : gmap FragmentKey FragmentDecision) : gmap FragmentKey FragmentDecision :=
  if (maximumFragmentDecisions <=? Z.of_nat (size m)) && bool_decide (m !! key = None)
  then match min_by evictsBefore (map_to_list m) with
       | Some (evictionKey, _) => delete evictionKey m
       | None => m
       end
  else m.

Definition recordFragmentDecisionAt (key : FragmentKey) (action : FragmentAction) (now : Instant)
    (s : FlowState) : FlowState * FragmentRecordResult :=
  let s := pruneFragmentState now s in
  let endpointGone :=
    match action with
    | Block endpointId _ => bool_decide (fs_endpointKeys s !! endpointId = None)
    | Allow => false
    end in
  if endpointGone then (s, EndpointGone)
  else if negb (isBlock action) &&
          match fs_fragmentDecisions s !! key with
          | Some entry => isBlock (fd_action entry)
          | None => false
          end
  then (s, Recorded)
  else
    (set_fragmentDecisions
       (<[key := {| fd_action := action; fd_expiresAt := now + fragmentDecisionLifetime |}]>
          (evictForKey key (fs_fragmentDecisions s))) s, Recorded).

Definition fragmentLookupAt (key : FragmentKey) (now : Instant) (s : FlowState)
    : FlowState * FragmentLookup :=
  let s := pruneFragmentState now s in
  (s, match fd_action <$> fs_fragmentDecisions s !! key with
      | Some Allow => LookupAllow
      | Some (Block _ target) => LookupBlock target
      | None => LookupUnknown
      end).

(** *** Interface of the first redirected packet *)

Definition setInterface (i : NetworkInterface) (original : OriginalTarget) (r : RewriteTarget)
    : RewriteTarget :=
  {| rt_endpointId := rt_endpointId r; rt_original := original;
     rt_originalLocalAddress := rt_originalLocalAddress r;
     rt_proxyAddress := rt_proxyAddress r;
     rt_originalLocalPort := rt_originalLocalPort r; rt_reflectedPort := rt_reflectedPort r;
     rt_originalInterface := Some i |}.

Definition setTrackedInterface (i : NetworkInterface) (original : OriginalTarget)
    (t : TrackedTarget) : TrackedTarget :=
  {| tt_endpointId := tt_endpointId t;
     tt_rewrite := setInterface i original (tt_rewrite t);
     tt_activeFromCounter := tt_activeFromCounter t |}.

Definition setTransportReflectedInterface (protocol : Z) (proxyAddress : IpAddr)
    (reflectedPort : Z) (remoteAddress : IpAddr) (originalInterface : NetworkInterface)
    (s : FlowState) : FlowState * bool :=
  let key := {| rf_localAddress := normalizeIpAddress proxyAddress; rf_localPort := reflectedPort;
                rf_remoteAddress := normalizeIpAddress remoteAddress; rf_protocol := protocol |} in
  match fs_reflected s !! key with
  | None => (s, false)
  | Some existing =>
      let endpointId := rt_endpointId existing in
      let scopedOriginal :=
        withIpv6Scope (rt_original existing) (ni_interfaceIndex originalInterface) in
      let s := set_reflected
        (alter (setInterface originalInterface scopedOriginal) key (fs_reflected s)) s in
      let outboundKeys := fst <$> default [] (fs_endpointKeys s !! endpointId) in
      (foldl (λ s k, set_outbound
                (alter (setTrackedInterface originalInterface scopedOriginal) k (fs_outbound s)) s)
         s outboundKeys, true)
  end.

Definition setReflectedInterface (proxyAddress : IpAddr) (reflectedPort : Z)
    (remoteAddress : IpAddr) (originalInterface : NetworkInterface) (s : FlowState)
    : FlowState * bool :=
  setTransportReflectedInterface tcpProtocol proxyAddress reflectedPort remoteAddress
    originalInterface s.
