(* ===== verification/FlowTableInvariant.v ===== *)
(** * Invariants of the captured-flow table

    The indexes of [FlowTable] are kept consistent by every method: the
    outbound index, the reflected index and the per-endpoint key lists describe
    the same set of flows, and each flow's reflected tuple is its own. *)

From S2P Require Import Prelude NetAddress FlowTable.

(** ** The invariant *)

(** Entry [t] of the outbound index under [k], with reflected key [r]. *)
Record Coherent (k : OutboundKey) (r : ReflectedKey) (t : TrackedTarget) : Prop := {
  co_endpoint : rt_endpointId (tt_rewrite t) = tt_endpointId t;
  co_localAddress : rt_originalLocalAddress (tt_rewrite t) = ob_localAddress k;
  co_localPort : rt_originalLocalPort (tt_rewrite t) = ob_localPort k;
  co_remoteAddress : sock_ip (ot_address (rt_original (tt_rewrite t))) = ob_remoteAddress k;
  co_remotePort : sock_port (ot_address (rt_original (tt_rewrite t))) = ob_remotePort k;
  co_reflected : r = reflectedKeyOf (rt_proxyAddress (tt_rewrite t))
                       (rt_reflectedPort (tt_rewrite t)) (ob_protocol k);
  co_family : is_ipv4 (ob_remoteAddress k) = is_ipv4 (ob_localAddress k);
  co_proxyFamily : is_ipv4 (rt_proxyAddress (tt_rewrite t)) = is_ipv4 (ob_localAddress k);
  co_proxyNormal : normalizeIpAddress (rt_proxyAddress (tt_rewrite t))
                   = rt_proxyAddress (tt_rewrite t);
  co_port : 1 ≤ rt_reflectedPort (tt_rewrite t) ≤ u16_max
}.

(** The pair [(k, r)] is registered for endpoint [e]. *)
Definition Registered (s : FlowState) (e : Z) (k : OutboundKey) (r : ReflectedKey) : Prop :=
  ∃ keys, fs_endpointKeys s !! e = Some keys ∧ (k, r) ∈ keys.

Record IndexInv (s : FlowState) : Prop := {
  ii_lists : ∀ e keys, fs_endpointKeys s !! e = Some keys → keys ≠ [] ∧ NoDup keys.*1;
  ii_registered : ∀ e k r, Registered s e k r →
    ∃ t, fs_outbound s !! k = Some t ∧ tt_endpointId t = e ∧ Coherent k r t ∧
         fs_reflected s !! r = Some (tt_rewrite t);
  ii_outbound : ∀ k t, fs_outbound s !! k = Some t → ∃ r, Registered s (tt_endpointId t) k r;
  ii_reflected : ∀ r rw, fs_reflected s !! r = Some rw → ∃ k, Registered s (rt_endpointId rw) k r;
  ii_tcpSingle : ∀ e keys k r, fs_endpointKeys s !! e = Some keys → (k, r) ∈ keys →
    ob_protocol k = tcpProtocol → keys = [(k, r)]
}.

(** UDP bindings and their reverse index are inverse to each other. *)
Record BindingInv (s : FlowState) : Prop := {
  bi_key : ∀ e k, fs_udpBindingKeys s !! e = Some k →
    ∃ m pid, fs_udpBindings s !! k = Some m ∧ m !! e = Some pid;
  bi_binding : ∀ k m, fs_udpBindings s !! k = Some m →
    m ≠ ∅ ∧ ∀ e pid, m !! e = Some pid → fs_udpBindingKeys s !! e = Some k
}.

(** Blocking decisions belong to live endpoints, and the table is bounded. *)
Record FragmentInv (s : FlowState) : Prop := {
  fi_live : ∀ k d e target, fs_fragmentDecisions s !! k = Some d →
    fd_action d = Block e target → is_Some (fs_endpointKeys s !! e);
  fi_bound : Z.of_nat (size (fs_fragmentDecisions s)) ≤ maximumFragmentDecisions
}.

Record FlowInv (s : FlowState) : Prop := {
  fv_index : IndexInv s;
  fv_binding : BindingInv s;
  fv_fragment : FragmentInv s;
  fv_port : 1 ≤ fs_nextReflectedPort s ≤ u16_max
}.

(** ** Removal of an endpoint, field by field *)
Section remove_pairs.
Context (now : Instant) (counter : option Z).

Lemma removePairs_frame s keys :
  let s' := foldl (removeKeyPair now counter) s keys in
  fs_endpointKeys s' = fs_endpointKeys s ∧ fs_udpBindings s' = fs_udpBindings s ∧
  fs_udpBindingKeys s' = fs_udpBindingKeys s ∧
  fs_fragmentDecisions s' = fs_fragmentDecisions s ∧
  fs_nextReflectedPort s' = fs_nextReflectedPort s.
Proof.
  revert s. induction keys as [|[k r] keys IH]; intros s; [done|].
  cbn [foldl]. destruct (IH (removeKeyPair now counter s (k, r))) as (->&->&->&->&->).
  unfold removeKeyPair. by repeat case_match.
Qed.

Lemma removeKeyPair_outbound s k r k' :
  fs_outbound (removeKeyPair now counter s (k, r)) !! k' =
  if decide (k = k') then None else fs_outbound s !! k'.
Proof.
  unfold removeKeyPair. destruct (fs_outbound s !! k) eqn:Hk; cbn.
  - case_match; cbn; rewrite lookup_delete; by repeat case_decide.
  - case_decide; by subst.
Qed.

Lemma removeKeyPair_reflected s k r r' :
  fs_reflected (removeKeyPair now counter s (k, r)) !! r' =
  if decide (r = r') then None else fs_reflected s !! r'.
Proof.
  unfold removeKeyPair. repeat case_match; cbn; rewrite lookup_delete; by case_decide.
Qed.

Lemma removePairs_outbound s keys k :
  fs_outbound (foldl (removeKeyPair now counter) s keys) !! k =
  if decide (k ∈ keys.*1) then None else fs_outbound s !! k.
Proof.
  revert s. induction keys as [|[k' r] keys IH]; intros s; cbn [foldl fmap list_fmap].
  { case_decide as H; [by apply elem_of_nil in H|done]. }
  rewrite IH, removeKeyPair_outbound.
  repeat case_decide; set_solver.
Qed.

Lemma removePairs_reflected s keys r :
  fs_reflected (foldl (removeKeyPair now counter) s keys) !! r =
  if decide (r ∈ keys.*2) then None else fs_reflected s !! r.
Proof.
  revert s. induction keys as [|[k r'] keys IH]; intros s; cbn [foldl fmap list_fmap].
  { case_decide as H; [by apply elem_of_nil in H|done]. }
  rewrite IH, removeKeyPair_reflected.
  repeat case_decide; set_solver.
Qed.
End remove_pairs.

Section remove_binding.
Context (e : Z).

Lemma removeBinding_frame s :
  let s' := removeUdpBindingLocked e s in
  fs_outbound s' = fs_outbound s ∧ fs_retiredUdpOutbound s' = fs_retiredUdpOutbound s ∧
  fs_reflected s' = fs_reflected s ∧ fs_endpointKeys s' = fs_endpointKeys s ∧
  fs_fragmentDecisions s' = fs_fragmentDecisions s ∧
  fs_nextReflectedPort s' = fs_nextReflectedPort s.
Proof. unfold removeUdpBindingLocked. repeat case_match; cbn; auto 10. Qed.

Lemma removeBinding_ext s1 s2 :
  fs_udpBindings s1 = fs_udpBindings s2 → fs_udpBindingKeys s1 = fs_udpBindingKeys s2 →
  fs_udpBindings (removeUdpBindingLocked e s1) = fs_udpBindings (removeUdpBindingLocked e s2) ∧
  fs_udpBindingKeys (removeUdpBindingLocked e s1) = fs_udpBindingKeys (removeUdpBindingLocked e s2).
Proof.
  intros H1 H2. unfold removeUdpBindingLocked. rewrite H2.
  destruct (fs_udpBindingKeys s2 !! e); [|done]. cbn. rewrite H1.
  destruct (fs_udpBindings s2 !! u); cbn; [|by rewrite ?H1, ?H2].
  case_decide; cbn; by rewrite ?H1, ?H2.
Qed.

Lemma removeBinding_keys s e' :
  fs_udpBindingKeys (removeUdpBindingLocked e s) !! e' =
  if decide (e = e') then None else fs_udpBindingKeys s !! e'.
Proof.
  unfold removeUdpBindingLocked. destruct (fs_udpBindingKeys s !! e) eqn:He.
  - repeat case_match; cbn; rewrite lookup_delete; by case_decide.
  - case_decide; by subst.
Qed.

(** The bindings under [k] lose exactly endpoint [e]. *)
Lemma removeBinding_bindings s k e' :
  BindingInv s →
  (fs_udpBindings (removeUdpBindingLocked e s) !! k ≫= (.!! e')) =
  if decide (e = e') then None else fs_udpBindings s !! k ≫= (.!! e').
Proof.
  intros [Hk Hb]. unfold removeUdpBindingLocked.
  destruct (fs_udpBindingKeys s !! e) as [bk|] eqn:He.
  - destruct (Hk _ _ He) as (m & pid & Hm & Hpid). cbn. rewrite Hm.
    case_decide as Hempty; cbn.
    + rewrite lookup_delete. case_decide as Hbk; subst.
      * cbn. case_decide; [done|]. rewrite Hm. cbn.
        apply (f_equal (.!! e')) in Hempty. cbn in Hempty.
        by rewrite lookup_delete_ne, lookup_empty in Hempty.
      * case_decide; [|done]. subst. destruct (fs_udpBindings s !! k) as [m'|] eqn:Hm'; [|done].
        cbn. destruct (m' !! e') eqn:Hm'e; [|done].
        apply (Hb _ _ Hm') in Hm'e. congruence.
    + rewrite lookup_insert. case_decide; subst; cbn.
      * rewrite Hm. cbn. rewrite lookup_delete. by case_decide.
      * case_decide; [|done]. subst. destruct (fs_udpBindings s !! k) as [m'|] eqn:Hm'; [|done].
        cbn. destruct (m' !! e') eqn:Hm'e; [|done].
        apply (Hb _ _ Hm') in Hm'e. congruence.
  - case_decide; [|done]. subst.
    destruct (fs_udpBindings s !! k) as [m'|] eqn:Hm'; [|done]. cbn.
    destruct (m' !! e') eqn:Hm'e; [|done]. apply (Hb _ _ Hm') in Hm'e. congruence.
Qed.

Lemma removeBinding_nonempty s k m :
  BindingInv s → fs_udpBindings (removeUdpBindingLocked e s) !! k = Some m → m ≠ ∅.
Proof.
  intros [Hk Hb]. unfold removeUdpBindingLocked.
  repeat case_match; cbn; rewrite ?lookup_delete, ?lookup_insert;
    repeat case_decide; naive_solver.
Qed.
End remove_binding.

Section remove_endpoint.
Context (now : Instant) (counter : option Z) (e : Z).
Implicit Types (s : FlowState) (k : OutboundKey) (r : ReflectedKey).

Definition pairsOf (s : FlowState) (e : Z) : list (OutboundKey * ReflectedKey) :=
  default [] (fs_endpointKeys s !! e).

Lemma elem_pairsOf s e' k r : (k, r) ∈ pairsOf s e' ↔ Registered s e' k r.
Proof.
  unfold pairsOf, Registered. destruct (fs_endpointKeys s !! e') eqn:He; cbn.
  - naive_solver.
  - split; [by intros ?%elem_of_nil|]. naive_solver.
Qed.

(** [removeEndpointLocked] up to its last two statements. *)
Definition removeIndexes s : FlowState :=
  foldl (removeKeyPair now counter)
    (set_endpointKeys (delete e (fs_endpointKeys s)) s) (pairsOf s e).

Lemma removeEndpoint_unfold s :
  removeEndpointLocked now e counter s =
  let s1 := removeUdpBindingLocked e (removeIndexes s) in
  set_fragmentDecisions
    (filter (λ '(_, d), keepsDecision e d = true) (fs_fragmentDecisions s1)) s1.
Proof.
  unfold removeEndpointLocked, removeIndexes, pairsOf.
  destruct (fs_endpointKeys s !! e) eqn:He; cbn; [done|].
  rewrite delete_id by done. by destruct s.
Qed.

Lemma removeIndexes_frame s :
  fs_udpBindings (removeIndexes s) = fs_udpBindings s ∧
  fs_udpBindingKeys (removeIndexes s) = fs_udpBindingKeys s ∧
  fs_fragmentDecisions (removeIndexes s) = fs_fragmentDecisions s ∧
  fs_nextReflectedPort (removeIndexes s) = fs_nextReflectedPort s.
Proof.
  unfold removeIndexes.
  destruct (removePairs_frame now counter
    (set_endpointKeys (delete e (fs_endpointKeys s)) s) (pairsOf s e)) as (_&->&->&->&->).
  done.
Qed.

Lemma remove_endpointKeys s :
  fs_endpointKeys (removeEndpointLocked now e counter s) = delete e (fs_endpointKeys s).
Proof.
  rewrite removeEndpoint_unfold. cbn.
  destruct (removeBinding_frame e (removeIndexes s)) as (_&_&_&->&_).
  unfold removeIndexes.
  by destruct (removePairs_frame now counter
    (set_endpointKeys (delete e (fs_endpointKeys s)) s) (pairsOf s e)) as (->&_).
Qed.

Lemma remove_nextPort s :
  fs_nextReflectedPort (removeEndpointLocked now e counter s) = fs_nextReflectedPort s.
Proof.
  rewrite removeEndpoint_unfold. cbn.
  destruct (removeBinding_frame e (removeIndexes s)) as (_&_&_&_&_&->).
  apply removeIndexes_frame.
Qed.

Lemma remove_outbound s k :
  fs_outbound (removeEndpointLocked now e counter s) !! k =
  if decide (k ∈ (pairsOf s e).*1) then None else fs_outbound s !! k.
Proof.
  rewrite removeEndpoint_unfold. cbn.
  destruct (removeBinding_frame e (removeIndexes s)) as (->&_).
  unfold removeIndexes. by rewrite removePairs_outbound.
Qed.

Lemma remove_reflected s r :
  fs_reflected (removeEndpointLocked now e counter s) !! r =
  if decide (r ∈ (pairsOf s e).*2) then None else fs_reflected s !! r.
Proof.
  rewrite removeEndpoint_unfold. cbn.
  destruct (removeBinding_frame e (removeIndexes s)) as (_&_&->&_).
  unfold removeIndexes. by rewrite removePairs_reflected.
Qed.

Lemma remove_fragments s :
  fs_fragmentDecisions (removeEndpointLocked now e counter s) =
  filter (λ '(_, d), keepsDecision e d = true) (fs_fragmentDecisions s).
Proof.
  rewrite removeEndpoint_unfold. cbn.
  destruct (removeBinding_frame e (removeIndexes s)) as (_&_&_&_&->&_).
  by destruct (removeIndexes_frame s) as (_&_&->&_).
Qed.

Lemma remove_bindings s :
  fs_udpBindings (removeEndpointLocked now e counter s) =
    fs_udpBindings (removeUdpBindingLocked e s) ∧
  fs_udpBindingKeys (removeEndpointLocked now e counter s) =
    fs_udpBindingKeys (removeUdpBindingLocked e s).
Proof.
  rewrite removeEndpoint_unfold. cbn. apply removeBinding_ext; apply removeIndexes_frame.
Qed.

Lemma remove_registered s e' k r :
  Registered (removeEndpointLocked now e counter s) e' k r ↔ e' ≠ e ∧ Registered s e' k r.
Proof.
  unfold Registered. rewrite remove_endpointKeys. setoid_rewrite lookup_delete_Some.
  naive_solver.
Qed.
End remove_endpoint.

(** ** Consequences of the index invariant *)
Section index_facts.
Context {s : FlowState} (HI : IndexInv s).

Lemma registered_endpoint_unique e e' k r r' :
  Registered s e k r → Registered s e' k r' → e = e' ∧ r = r'.
Proof using HI.
  intros (t & Ht & He & Hc & _)%(ii_registered s HI)
         (t' & Ht' & He' & Hc' & _)%(ii_registered s HI).
  assert (t = t') as <- by congruence. split; [congruence|].
  rewrite (co_reflected _ _ _ Hc), (co_reflected _ _ _ Hc'). done.
Qed.

(** A reflected key determines the flow it reflects. *)
Lemma registered_key_unique e e' k k' r :
  Registered s e k r → Registered s e' k' r → e = e' ∧ k = k'.
Proof using HI.
  intros (t & Ht & He & Hc & Hr)%(ii_registered s HI)
         (t' & Ht' & He' & Hc' & Hr')%(ii_registered s HI).
  assert (tt_rewrite t = tt_rewrite t') as Hrw by congruence.
  destruct Hc as [A1 A2 A3 A4 A5 A6 _ _ _], Hc' as [B1 B2 B3 B4 B5 B6 _ _ _].
  rewrite Hrw in *. split; [congruence|].
  destruct k, k'; cbn in *. simplify_eq. done.
Qed.
End index_facts.

Lemma remove_index_inv now c e s : IndexInv s → IndexInv (removeEndpointLocked now e c s).
Proof.
  intros HI. constructor.
  - intros e' keys. rewrite remove_endpointKeys, lookup_delete_Some.
    intros [_ H]. by apply (ii_lists s HI e').
  - intros e' k r [Hne HR]%remove_registered.
    destruct (ii_registered s HI _ _ _ HR) as (t & Hk & Ht & Hc & Hr).
    exists t. rewrite remove_outbound, remove_reflected.
    rewrite !decide_False; [done|..].
    + intros ([k' r'] & -> & Hin%elem_pairsOf)%list_elem_of_fmap. cbn in HR.
      by destruct (registered_key_unique HI _ _ _ _ _ HR Hin).
    + intros ([k' r'] & -> & Hin%elem_pairsOf)%list_elem_of_fmap. cbn in HR.
      by destruct (registered_endpoint_unique HI _ _ _ _ _ HR Hin).
  - intros k t. rewrite remove_outbound. case_decide as Hin; [done|]. intros Hk.
    destruct (ii_outbound s HI _ _ Hk) as [r HR]. exists r.
    rewrite remove_registered. split; [|done]. intros Heq. apply Hin.
    apply list_elem_of_fmap. exists (k, r). rewrite elem_pairsOf, <-Heq. done.
  - intros r rw. rewrite remove_reflected. case_decide as Hin; [done|]. intros Hr.
    destruct (ii_reflected s HI _ _ Hr) as [k HR]. exists k.
    rewrite remove_registered. split; [|done]. intros Heq. apply Hin.
    apply list_elem_of_fmap. exists (k, r). rewrite elem_pairsOf, <-Heq. done.
  - intros e' keys k r. rewrite remove_endpointKeys, lookup_delete_Some.
    intros [_ H]. by apply (ii_tcpSingle s HI e').
Qed.

(** ** Bindings *)

(** [bound s k e] is the process bound to endpoint [e] under [k]. *)
Definition bound (s : FlowState) (k : UdpBindingKey) (e : Z) : option Z :=
  fs_udpBindings s !! k ≫= (.!! e).

Lemma binding_inv_alt s :
  BindingInv s ↔
  (∀ e k, fs_udpBindingKeys s !! e = Some k ↔ is_Some (bound s k e)) ∧
  (∀ k m, fs_udpBindings s !! k = Some m → m ≠ ∅).
Proof.
  unfold bound. split.
  - intros [Hk Hb]. split; [|naive_solver]. intros e k. split.
    + intros (m & pid & Hm & Hp)%Hk. rewrite Hm. cbn. eauto.
    + intros [pid Hp]. destruct (fs_udpBindings s !! k) as [m|] eqn:Hm; [|done].
      by eapply (Hb _ _ Hm).
  - intros [Hk Hn]. constructor.
    + intros e k [pid Hp]%Hk. destruct (fs_udpBindings s !! k) as [m|]; [|done]. eauto.
    + intros k m Hm. split; [by eapply Hn|]. intros e pid Hp. apply Hk. rewrite Hm. cbn. eauto.
Qed.

Lemma removeBinding_inv e s : BindingInv s → BindingInv (removeUdpBindingLocked e s).
Proof.
  intros HB. pose proof (proj1 (binding_inv_alt s) HB) as [Hk _].
  apply binding_inv_alt. split; [|intros k m; by eapply removeBinding_nonempty].
  intros e' k. unfold bound. rewrite removeBinding_keys, removeBinding_bindings by done.
  case_decide; [|apply Hk]. split; [done|]. by intros [? ?].
Qed.

Lemma binding_inv_ext s1 s2 :
  fs_udpBindings s1 = fs_udpBindings s2 → fs_udpBindingKeys s1 = fs_udpBindingKeys s2 →
  BindingInv s1 → BindingInv s2.
Proof. intros H1 H2 [A B]. constructor; rewrite <-?H1, <-?H2; done. Qed.

Lemma remove_binding_inv now c e s : BindingInv s → BindingInv (removeEndpointLocked now e c s).
Proof.
  intros HB. destruct (remove_bindings now c e s) as [H1 H2].
  by apply (binding_inv_ext (removeUdpBindingLocked e s)), removeBinding_inv.
Qed.

Lemma bindUdp_inv pid e key s : BindingInv s → BindingInv (bindUdp pid e key s).
Proof.
  intros HB%(removeBinding_inv e). unfold bindUdp.
  pose proof (removeBinding_keys e s e) as He. rewrite decide_True in He by done.
  revert HB He. generalize (removeUdpBindingLocked e s). clear s. intros s HB He.
  destruct HB as [Hk Hb]. constructor; cbn.
  - intros e' k. rewrite lookup_insert. case_decide as Hee.
    + intros [= <-]. subst. rewrite lookup_insert_eq. do 2 eexists. split; [done|].
      by rewrite lookup_insert_eq.
    + intros (m & p & Hm & Hp)%Hk. destruct (decide (k = key)) as [->|].
      * rewrite lookup_insert_eq, Hm. cbn. do 2 eexists. split; [done|].
        by rewrite lookup_insert_ne.
      * rewrite lookup_insert_ne by done. eauto.
  - intros k m. rewrite lookup_insert. case_decide as Hkk.
    + intros [= <-]. subst. split; [apply insert_non_empty|].
      intros e' p. rewrite !lookup_insert. case_decide; [done|].
      destruct (fs_udpBindings s !! k) as [m|] eqn:Hm; cbn; [|by rewrite lookup_empty].
      by apply (Hb _ _ Hm).
    + intros Hm. destruct (Hb _ _ Hm) as [? H]. split; [done|].
      intros e' p Hp. rewrite lookup_insert_ne; [by eapply H|].
      intros <-. apply H in Hp. congruence.
Qed.

(** ** Fragment decisions *)

Lemma remove_fragment_inv now c e s :
  FragmentInv s → FragmentInv (removeEndpointLocked now e c s).
Proof.
  intros [Hl Hb]. constructor.
  - intros k d e' target. rewrite remove_fragments, remove_endpointKeys, map_lookup_filter_Some.
    intros [Hd Hkeep] Ha. unfold keepsDecision in Hkeep. rewrite Ha in Hkeep.
    apply negb_true_iff, Z.eqb_neq in Hkeep.
    rewrite lookup_delete_ne by congruence. by eapply Hl.
  - rewrite remove_fragments.
    pose proof (map_size_filter (λ '(_, d), keepsDecision e d = true) (fs_fragmentDecisions s)).
    lia.
Qed.

Lemma remove_flow_inv now c e s : FlowInv s → FlowInv (removeEndpointLocked now e c s).
Proof.
  intros [HI HB HF HP]. constructor;
    [by apply remove_index_inv|by apply remove_binding_inv|by apply remove_fragment_inv|].
  by rewrite remove_nextPort.
Qed.

(** Fields outside the fragment table decide the rest of the invariant. *)
Lemma fragment_flow_inv s m :
  FlowInv s → FragmentInv (set_fragmentDecisions m s) → FlowInv (set_fragmentDecisions m s).
Proof. intros [[] [] _ ?] HF. constructor; [constructor|constructor|..]; done. Qed.

Lemma filter_fragment_inv s (P : FragmentKey * FragmentDecision → Prop) `{!∀ x, Decision (P x)} :
  FragmentInv s → FragmentInv (set_fragmentDecisions (filter P (fs_fragmentDecisions s)) s).
Proof.
  intros [Hl Hb]. constructor; cbn.
  - intros k d e target [Hd _]%map_lookup_filter_Some. by eapply Hl.
  - pose proof (map_size_filter P (fs_fragmentDecisions s)). lia.
Qed.

Lemma prune_flow_inv now s : FlowInv s → FlowInv (pruneFragmentState now s).
Proof. intros H. apply fragment_flow_inv; [done|]. apply filter_fragment_inv, H. Qed.

Lemma min_by_elem {A} (lt : A → A → bool) l x : min_by lt l = Some x → x ∈ l.
Proof.
  destruct l as [|y l]; [done|]. cbn. intros [= <-].
  revert y. induction l as [|z l IH]; intros y; cbn; [set_solver|].
  destruct (lt z y); [specialize (IH z)|specialize (IH y)]; set_solver.
Qed.

Lemma evictForKey_lookup key m k d :
  evictForKey key m !! k = Some d → m !! k = Some d.
Proof.
  unfold evictForKey. case_match; [|done]. case_match; [|done].
  destruct p as [ek ed]. by intros [_ ?]%lookup_delete_Some.
Qed.

Lemma evictForKey_size_le key m : (size (evictForKey key m) ≤ size m)%nat.
Proof.
  apply map_subseteq_size, map_subseteq_spec. intros k d. apply evictForKey_lookup.
Qed.

Lemma evictForKey_size key m :
  Z.of_nat (size m) ≤ maximumFragmentDecisions →
  evictForKey key m !! key = None →
  Z.of_nat (size (evictForKey key m)) < maximumFragmentDecisions.
Proof.
  intros Hle. unfold evictForKey. case_match eqn:Hfull.
  - apply andb_true_iff in Hfull as [Hfull _]. apply Z.leb_le in Hfull.
    destruct (min_by _ _) as [[ek ed]|] eqn:Hmin.
    + apply min_by_elem, elem_of_map_to_list in Hmin.
      intros _. rewrite map_size_delete_Some by eauto.
      assert (size m ≠ 0%nat) by (intros ?%map_size_empty_inv; by subst). lia.
    + destruct (map_to_list m) eqn:Hm; [|done].
      apply map_to_list_empty_iff in Hm. subst. rewrite map_size_empty in Hfull.
      unfold maximumFragmentDecisions in *. lia.
  - apply andb_false_iff in Hfull as [Hfull|Hfull].
    + apply Z.leb_gt in Hfull. done.
    + apply bool_decide_eq_false in Hfull. done.
Qed.

Lemma record_flow_inv key action now s :
  FlowInv s → FlowInv (recordFragmentDecisionAt key action now s).1.
Proof.
  intros H%(prune_flow_inv now). unfold recordFragmentDecisionAt.
  revert H. generalize (pruneFragmentState now s). clear s. intros s H.
  case_if Hgone; [done|]. case_if Hkeep; [done|]. cbn.
  apply fragment_flow_inv; [done|]. destruct H as [_ _ [Hl Hb] _]. constructor; cbn.
  - intros k d e target. rewrite lookup_insert. case_decide as Hkk.
    + intros [= <-]. cbn. intros ->. apply bool_decide_eq_false in Hgone.
      by apply not_eq_None_Some in Hgone.
    + intros Hd%evictForKey_lookup. by eapply Hl.
  - destruct (evictForKey key (fs_fragmentDecisions s) !! key) eqn:Hkey.
    + rewrite map_size_insert_Some by eauto.
      pose proof (evictForKey_size_le key (fs_fragmentDecisions s)). lia.
    + rewrite map_size_insert_None by done.
      pose proof (evictForKey_size key (fs_fragmentDecisions s) Hb Hkey). lia.
Qed.

(** ** Port allocation *)

(** The port the loop tries after [p]. *)
Definition nextPort (p : Z) : Z := if p =? u16_max then 1 else p + 1.

Section allocation.
Context (localAddress remoteAddress : IpAddr) (proxyPort protocol : Z).

Definition portKey (port : Z) : ReflectedKey :=
  {| rf_localAddress := localAddress; rf_localPort := port;
     rf_remoteAddress := remoteAddress; rf_protocol := protocol |}.

(** A port the loop accepts. *)
Definition usablePort (s : FlowState) (port : Z) : Prop :=
  port ≠ proxyPort ∧ fs_reflected s !! portKey port = None.

Lemma nextPort_range p : 1 ≤ p ≤ u16_max → 1 ≤ nextPort p ≤ u16_max.
Proof. unfold nextPort, u16_max. case_match eqn:Hp; lia. Qed.

Lemma allocateLoop_spec n s s' res :
  allocateLoop n localAddress remoteAddress proxyPort protocol s = (s', res) →
  1 ≤ fs_nextReflectedPort s ≤ u16_max →
  (∃ p, s' = set_nextReflectedPort p s ∧ 1 ≤ p ≤ u16_max) ∧
  match res with
  | Some port => 1 ≤ port ≤ u16_max ∧ usablePort s port
  | None => ∀ i, (i < n)%nat → ¬ usablePort s (Nat.iter i nextPort (fs_nextReflectedPort s))
  end.
Proof.
  revert s. induction n as [|n IH]; intros s; cbn [allocateLoop]; intros Heq Hp.
  { injection Heq as <- <-. split; [|intros; lia].
    exists (fs_nextReflectedPort s). by destruct s. }
  pose proof (nextPort_range _ Hp) as Hnext. fold (nextPort (fs_nextReflectedPort s)) in Heq.
  fold (portKey (fs_nextReflectedPort s)) in Heq. cbn [fs_reflected set_nextReflectedPort] in Heq.
  destruct (negb _ && _) eqn:Hok.
  - injection Heq as <- <-. apply andb_true_iff in Hok as [H1 H2].
    apply negb_true_iff, Z.eqb_neq in H1. apply bool_decide_eq_true in H2.
    split; [by eexists; split; [reflexivity|]|]. by split.
  - apply IH in Heq as [(p & -> & Hpr) Hres]; [|done]. split; [by exists p|].
    destruct res as [port|]; [done|].
    intros [|i] Hi.
    + intros [H1 H2]. apply andb_false_iff in Hok as [Hok|Hok].
      * apply negb_false_iff, Z.eqb_eq in Hok. done.
      * apply bool_decide_eq_false in Hok. done.
    + rewrite Nat.iter_succ_r. apply (Hres i). lia.
Qed.

(** Starting anywhere, [u16::MAX] steps visit every port. *)
Lemma iter_nextPort p i :
  1 ≤ p ≤ u16_max → Z.of_nat i < u16_max →
  Nat.iter i nextPort p = (p - 1 + Z.of_nat i) mod u16_max + 1.
Proof.
  intros Hp. induction i as [|i IH]; intros Hi.
  - cbn. rewrite Z.add_0_r, Z.mod_small by lia. lia.
  - rewrite Nat.iter_succ, IH by lia. unfold nextPort. unfold u16_max in *.
    pose proof (Z.mod_pos_bound (p - 1 + Z.of_nat i) 65535).
    replace (p - 1 + Z.of_nat (S i)) with ((p - 1 + Z.of_nat i) + 1) by lia.
    pose proof (Z.div_mod (p - 1 + Z.of_nat i) 65535).
    case_match eqn:Hc.
    + apply Z.eqb_eq in Hc. symmetry. apply Z.add_move_r. cbn.
      symmetry. apply (Z.mod_unique_pos _ _ ((p - 1 + Z.of_nat i) / 65535 + 1)); lia.
    + apply Z.eqb_neq in Hc. f_equal.
      apply (Z.mod_unique_pos _ _ ((p - 1 + Z.of_nat i) / 65535)); lia.
Qed.

Lemma nextPort_covers p q :
  1 ≤ p ≤ u16_max → 1 ≤ q ≤ u16_max →
  ∃ i, (i < Z.to_nat u16_max)%nat ∧ Nat.iter i nextPort p = q.
Proof.
  intros Hp Hq. exists (Z.to_nat ((q - p) mod u16_max)).
  pose proof (Z.mod_pos_bound (q - p) u16_max) as Hb. unfold u16_max in *.
  split; [lia|]. rewrite iter_nextPort by (unfold u16_max; lia).
  rewrite Z2Nat.id by lia. unfold u16_max.
  rewrite Z.add_mod_idemp_r by lia. replace (p - 1 + (q - p)) with (q - 1) by lia.
  rewrite Z.mod_small by lia. lia.
Qed.

Lemma allocate_spec s s' res :
  allocateReflectedPort localAddress remoteAddress proxyPort protocol s = (s', res) →
  1 ≤ fs_nextReflectedPort s ≤ u16_max →
  (∃ p, s' = set_nextReflectedPort p s ∧ 1 ≤ p ≤ u16_max) ∧
  match res with
  | Some port => 1 ≤ port ≤ u16_max ∧ usablePort s port
  | None => ∀ port, 1 ≤ port ≤ u16_max → ¬ usablePort s port
  end.
Proof.
  unfold allocateReflectedPort. intros Heq Hp.
  destruct (allocateLoop_spec _ _ _ _ Heq Hp) as [Hs Hres]. split; [done|].
  destruct res as [port|]; [done|]. intros port Hport.
  destruct (nextPort_covers _ _ Hp Hport) as (i & Hi & <-). by apply Hres.
Qed.
End allocation.

(** ** Registration of a flow *)

(** Flows reach the table through [CaptureFlow::tcp] and [CaptureFlow::udp]. *)
Definition flowOk (flow : CaptureFlow) : Prop :=
  is_ipv4 (cf_remoteAddress flow) = is_ipv4 (cf_localAddress flow) ∧
  normalizeIpAddress (cf_localAddress flow) = cf_localAddress flow ∧
  normalizeIpAddress (cf_remoteAddress flow) = cf_remoteAddress flow.

Lemma transport_ok pid e la lp ra rp proto flow :
  transport pid e la lp ra rp proto = Some flow → flowOk flow ∧ cf_protocol flow = proto ∧
  cf_endpointId flow = e ∧ cf_processId flow = pid ∧
  outboundKeyOf flow = outboundKey proto la lp ra rp.
Proof.
  unfold transport. case_if H; [done|]. intros [= <-]. unfold flowOk. cbn.
  rewrite !normalize_idempotent. apply orb_false_iff in H as [_ H].
  apply negb_false_iff, eqb_prop in H. done.
Qed.

(** Every socket (endpoint) speaks one transport protocol, [proto e]. *)
Definition ProtocolInv (proto : Z → Z) (s : FlowState) : Prop :=
  ∀ e k r, Registered s e k r → ob_protocol k = proto e.

Lemma resolveProxy_family la conf p :
  resolveProxyAddress la conf = Some p →
  is_ipv4 p = is_ipv4 la ∧ normalizeIpAddress p = p.
Proof.
  unfold resolveProxyAddress. case_if Hu.
  - intros [= <-]. destruct (is_ipv4 la); split; reflexivity.
  - case_if Hf; [|done]. intros [= <-]. apply eqb_prop in Hf.
    split; [done|apply normalize_idempotent].
Qed.

Section register.
Context (flow : CaptureFlow) (proxyAddress : IpAddr) (port : Z) (active : option Z).
Let k0 := outboundKeyOf flow.
Let r0 := reflectedKeyOf proxyAddress port (cf_protocol flow).
Let e0 := cf_endpointId flow.
Let t0 := {| tt_endpointId := e0; tt_rewrite := newRewrite flow proxyAddress port;
             tt_activeFromCounter := active |}.

Lemma register_registered s e k r :
  Registered (registerFlow flow proxyAddress port active s) e k r ↔
  (e = e0 ∧ k = k0 ∧ r = r0) ∨ Registered s e k r.
Proof.
  rewrite <-!elem_pairsOf. unfold pairsOf, registerFlow. cbn. rewrite lookup_insert.
  fold e0 k0 r0. case_decide; subst; cbn; [|naive_solver].
  rewrite elem_of_app, list_elem_of_singleton. naive_solver.
Qed.

Lemma register_coherent :
  flowOk flow → is_ipv4 proxyAddress = is_ipv4 (cf_localAddress flow) →
  normalizeIpAddress proxyAddress = proxyAddress → 1 ≤ port ≤ u16_max → Coherent k0 r0 t0.
Proof.
  intros [Hf _] Hp Hn Hport. constructor; cbn; autorewrite with net; done.
Qed.

Lemma register_index_inv s :
  IndexInv s → flowOk flow → is_ipv4 proxyAddress = is_ipv4 (cf_localAddress flow) →
  normalizeIpAddress proxyAddress = proxyAddress → 1 ≤ port ≤ u16_max →
  fs_outbound s !! k0 = None → fs_reflected s !! r0 = None →
  (if cf_protocol flow =? tcpProtocol then fs_endpointKeys s !! e0 = None
   else ∀ k r, Registered s e0 k r → ob_protocol k ≠ tcpProtocol) →
  IndexInv (registerFlow flow proxyAddress port active s).
Proof.
  intros HI Hflow Hfam Hnorm Hport Hk Hr Hsingle.
  assert (∀ e k r, Registered s e k r → k ≠ k0 ∧ r ≠ r0) as Hfresh.
  { intros e k r HR. destruct (ii_registered s HI _ _ _ HR) as (t & H1 & _ & _ & H2).
    split; intros ->; congruence. }
  constructor.
  - intros e keys. cbn. rewrite lookup_insert. fold e0 k0 r0. case_decide as He; subst.
    + intros [= <-]. split; [by destruct (default [] _)|].
      rewrite fmap_app, NoDup_app. cbn. split; [|split].
      * destruct (fs_endpointKeys s !! e0) eqn:Hl; cbn; [|constructor].
        by apply (ii_lists s HI e0).
      * intros k ([k' r'] & -> & Hin)%list_elem_of_fmap.
        apply (elem_pairsOf s e0), Hfresh in Hin. cbn.
        rewrite list_elem_of_singleton. by destruct Hin.
      * apply NoDup_singleton.
    + apply (ii_lists s HI e).
  - intros e k r HR%register_registered. cbn. fold k0 r0 e0 t0.
    destruct HR as [(-> & -> & ->)|HR].
    + exists t0. rewrite !lookup_insert_eq. split; [done|split; [done|]].
      split; [by apply register_coherent|done].
    + destruct (Hfresh _ _ _ HR). rewrite !lookup_insert_ne by done.
      by apply (ii_registered s HI).
  - intros k t. setoid_rewrite register_registered. cbn. fold k0 r0 e0 t0.
    rewrite lookup_insert. case_decide; [intros [= <-]; subst; cbn; eauto|].
    intros Ht. destruct (ii_outbound s HI _ _ Ht). eauto.
  - intros r rw. setoid_rewrite register_registered. cbn. fold k0 r0 e0 t0.
    rewrite lookup_insert. case_decide; [intros [= <-]; subst; cbn; eauto|].
    intros Ht. destruct (ii_reflected s HI _ _ Ht). eauto.
  - intros e keys k r. cbn. rewrite lookup_insert. fold e0 k0 r0. case_decide as He; subst.
    + intros [= <-] Hin Hproto. destruct (Z.eqb_spec (cf_protocol flow) tcpProtocol) as [Heq|Hne].
      * rewrite Hsingle in *. cbn in *. by apply list_elem_of_singleton in Hin as ->.
      * apply elem_of_app in Hin as [Hin|Hin].
        -- by apply (elem_pairsOf s e0), Hsingle in Hin.
        -- apply list_elem_of_singleton in Hin as [= -> ->]. by destruct Hne.
    + apply (ii_tcpSingle s HI e).
Qed.
End register.

(** ** [insertAt] *)
Lemma remove_key_gone now c s k t :
  IndexInv s → fs_outbound s !! k = Some t →
  fs_outbound (removeEndpointLocked now (tt_endpointId t) c s) !! k = None.
Proof.
  intros HI Ht. rewrite remove_outbound. rewrite decide_True; [done|].
  destruct (ii_outbound s HI _ _ Ht) as [r HR]. apply list_elem_of_fmap.
  exists (k, r). by rewrite elem_pairsOf.
Qed.

Lemma register_flow_inv flow p port active s :
  FlowInv s → IndexInv (registerFlow flow p port active s) →
  FlowInv (registerFlow flow p port active s).
Proof.
  intros [_ [] [Hl Hb] ?] HI. constructor; [done|constructor; done| |done].
  constructor; [|done]. cbn. intros k d e target Hd Ha. rewrite lookup_insert.
  case_decide; eauto.
Qed.

Lemma setPort_flow_inv p s :
  FlowInv s → 1 ≤ p ≤ u16_max → FlowInv (set_nextReflectedPort p s).
Proof. intros [[] [] [] _] Hp. constructor; [constructor|constructor|constructor|]; done. Qed.

Lemma remove_protocol_inv proto now c e s :
  ProtocolInv proto s → ProtocolInv proto (removeEndpointLocked now e c s).
Proof. intros H e' k r [_ HR]%remove_registered. by apply H in HR. Qed.

Section insert.
Context (proto : Z → Z) (flow : CaptureFlow) (proxyAddress : IpAddr) (proxyPort : Z)
  (active : option Z).
Hypothesis Hflow : flowOk flow.
Hypothesis Hproto : cf_protocol flow = proto (cf_endpointId flow).
Hypothesis Hfam : is_ipv4 proxyAddress = is_ipv4 (cf_localAddress flow).
Hypothesis Hnorm : normalizeIpAddress proxyAddress = proxyAddress.

(** The allocation and the three insertions, once the keys are free. *)
Lemma allocate_register_inv s :
  FlowInv s → ProtocolInv proto s → fs_outbound s !! outboundKeyOf flow = None →
  (cf_protocol flow = tcpProtocol → fs_endpointKeys s !! cf_endpointId flow = None) →
  let s' := (allocateAndRegister flow proxyAddress proxyPort active s).1 in
  FlowInv s' ∧ ProtocolInv proto s'.
Proof using Hflow Hproto Hfam Hnorm.
  intros HF HP Hk Htcp. unfold allocateAndRegister.
  destruct (allocateReflectedPort _ _ _ _ _) as [s1 res] eqn:Halloc.
  destruct (allocate_spec _ _ _ _ _ _ _ Halloc (fv_port s HF)) as [(p & -> & Hp) Hres].
  pose proof (setPort_flow_inv p s HF Hp) as HF1.
  assert (ProtocolInv proto (set_nextReflectedPort p s)) as HP1 by exact HP.
  destruct res as [port|]; [|done]. cbn.
  destruct Hres as [Hport [_ Hfree]]. split.
  - apply register_flow_inv; [done|]. apply register_index_inv; try done; [apply HF1|].
    case_if Ht; [by apply Htcp, Z.eqb_eq|]. apply Z.eqb_neq in Ht.
    intros k r HR%HP1. congruence.
  - intros e k r [(-> & -> & ->)|HR]%register_registered; [done|]. by apply HP1 in HR.
Qed.

Lemma insertLocked_inv now1 now2 s :
  FlowInv s → ProtocolInv proto s →
  let s' := (insertLocked now1 now2 flow proxyAddress proxyPort active s).1 in
  FlowInv s' ∧ ProtocolInv proto s'.
Proof using Hflow Hproto Hfam Hnorm.
  intros HF HP. unfold insertLocked.
  set (s1 := if cf_protocol flow =? tcpProtocol then _ else s).
  assert (FlowInv s1 ∧ ProtocolInv proto s1) as [HF1 HP1].
  { subst s1. case_if H; auto using remove_flow_inv, remove_protocol_inv. }
  assert (cf_protocol flow = tcpProtocol → fs_endpointKeys s1 !! cf_endpointId flow = None) as Htcp.
  { subst s1. intros ->. rewrite Z.eqb_refl, remove_endpointKeys. apply lookup_delete_eq. }
  clearbody s1. clear HF HP s.
  destruct (fs_outbound s1 !! outboundKeyOf flow) as [prev|] eqn:Hk.
  - case_if Hsame; [done|].
    apply allocate_register_inv; auto using remove_flow_inv, remove_protocol_inv.
    + apply remove_key_gone; [apply HF1|done].
    + intros H%Htcp. rewrite remove_endpointKeys.
      destruct (decide (tt_endpointId prev = cf_endpointId flow)) as [->|];
        [apply lookup_delete_eq|by rewrite lookup_delete_ne].
  - by apply allocate_register_inv.
Qed.
End insert.

Lemma insertAt_inv proto now1 now2 flow conf proxyPort active t :
  flowOk flow → cf_protocol flow = proto (cf_endpointId flow) →
  FlowInv (ft_state t) → ProtocolInv proto (ft_state t) →
  let t' := (insertAt now1 now2 flow conf proxyPort active t).1 in
  FlowInv (ft_state t') ∧ ProtocolInv proto (ft_state t').
Proof.
  intros Hflow Hproto HF HP. unfold insertAt.
  destruct (resolveProxyAddress _ _) as [p|] eqn:Hp; [|done].
  apply resolveProxy_family in Hp as [Hfam Hnorm].
  pose proof (insertLocked_inv proto flow p proxyPort active Hflow Hproto Hfam Hnorm
                now1 now2 _ HF HP) as H.
  destruct (insertLocked _ _ _ _ _ _ _) as [s b]. by destruct b.
Qed.

(** ** Promotion of wildcard flows *)
Section rename_key.
Context (key wk : OutboundKey).
Let rename := update_first (λ '(k, _), bool_decide (k = wk)) (λ '(_, r), (key, r) : OutboundKey * ReflectedKey).

Lemma rename_elem keys r0 k r :
  NoDup keys.*1 → (wk, r0) ∈ keys →
  (k, r) ∈ rename keys ↔ (k = key ∧ r = r0) ∨ ((k, r) ∈ keys ∧ k ≠ wk).
Proof.
  induction keys as [|[k' r'] keys IH]; intros Hnd Hin; [by apply elem_of_nil in Hin|].
  cbn in Hnd. apply NoDup_cons in Hnd as [Hnin Hnd]. cbn.
  case_bool_decide as Hk; subst.
  - assert (r' = r0) as ->.
    { apply elem_of_cons in Hin as [[= ->]|Hin]; [done|]. destruct Hnin.
      apply list_elem_of_fmap. by exists (wk, r0). }
    rewrite !elem_of_cons. split.
    + intros [[= -> ->]|Hin']; [by left|]. right. split; [by right|].
      intros ->. apply Hnin, list_elem_of_fmap. by exists (wk, r).
    + intros [[-> ->]|[[[= -> ->]|?] ?]]; [by left|done|by right].
  - apply elem_of_cons in Hin as [[= ->]|Hin]; [done|].
    rewrite !elem_of_cons, IH by done. naive_solver.
Qed.

Lemma rename_nodup keys :
  NoDup keys.*1 → key ∉ keys.*1 → NoDup (rename keys).*1.
Proof.
  induction keys as [|[k' r'] keys IH]; intros Hnd Hin; [constructor|].
  cbn in *. apply NoDup_cons in Hnd as [Hnin Hnd]. apply not_elem_of_cons in Hin as [Hne Hin].
  case_bool_decide as Hk; cbn; apply NoDup_cons; [done|]. split; [|by apply IH].
  intros ([k r] & -> & Hel)%list_elem_of_fmap. cbn in Hnin.
  assert (∀ l, (k, r) ∈ rename l → k = key ∨ k ∈ l.*1) as Hsub.
  { clear. induction l as [|[k1 r1] l IH]; cbn; [set_solver|].
    case_bool_decide; rewrite !elem_of_cons; [|naive_solver].
    intros [[= -> ->]|Hin]; [by left|]. right. right.
    apply list_elem_of_fmap. by exists (k, r). }
  apply Hsub in Hel as [->|]; done.
Qed.

Lemma rename_nonempty keys : keys ≠ [] → rename keys ≠ [].
Proof. destruct keys as [|[]]; [done|]. cbn. by case_bool_decide. Qed.
End rename_key.

Lemma find_map_key keys wk r :
  find_map (λ '(k, r), if bool_decide (k = wk) then Some r else None) keys = Some r →
  ((wk, r) : OutboundKey * ReflectedKey) ∈ keys.
Proof.
  induction keys as [|[k' r'] keys IH]; cbn; [done|].
  case_bool_decide; subst; [intros [= ->]; by left|]. intros ?%IH. by right.
Qed.

Section promotion.
Context (s : FlowState) (key : OutboundKey) (tracked : TrackedTarget) (r : ReflectedKey).
Let wk := withLocalAddress (wildcardOf (ob_localAddress key)) key.
Let tracked' := {| tt_endpointId := tt_endpointId tracked;
  tt_rewrite := setOriginalLocalAddress (ob_localAddress key) (tt_rewrite tracked);
  tt_activeFromCounter := tt_activeFromCounter tracked |}.
Hypothesis HI : IndexInv s.
Hypothesis Hkey : fs_outbound s !! key = None.
Hypothesis Hwk : fs_outbound s !! wk = Some tracked.
Hypothesis HR : Registered s (tt_endpointId tracked) wk r.
Let s' := promote key wk tracked' r s.

Lemma promote_fields keys :
  fs_endpointKeys s !! tt_endpointId tracked = Some keys →
  fs_outbound s' = <[key := tracked']> (delete wk (fs_outbound s)) ∧
  fs_reflected s' = <[r := tt_rewrite tracked']> (fs_reflected s) ∧
  fs_endpointKeys s' =
    <[tt_endpointId tracked :=
        update_first (λ '(k, _), bool_decide (k = wk)) (λ '(_, r), (key, r)) keys]>
      (fs_endpointKeys s).
Proof using. intros Hk. unfold s', promote. cbn. by rewrite Hk. Qed.

Lemma promote_registered e k r' :
  Registered s' e k r' ↔
  (e = tt_endpointId tracked ∧ k = key ∧ r' = r) ∨ (Registered s e k r' ∧ k ≠ wk).
Proof using HI HR.
  destruct HR as (keys & Hkeys & Hin). destruct (promote_fields keys Hkeys) as (_ & _ & He).
  destruct (ii_lists s HI _ _ Hkeys) as [_ Hnd].
  rewrite <-!elem_pairsOf. unfold pairsOf. rewrite He, lookup_insert.
  case_decide as Heq; subst.
  - rewrite Hkeys. cbn. rewrite (rename_elem key wk keys r) by done. naive_solver.
  - split; [|naive_solver]. intros Hel. right. split; [done|]. intros ->.
    apply (elem_pairsOf s) in Hel.
    apply Heq. symmetry. apply (registered_endpoint_unique HI _ _ _ _ _ Hel HR).
Qed.

Lemma promote_index_inv : IndexInv s'.
Proof using HI Hkey Hwk HR.
  destruct HR as (keys & Hkeys & Hin).
  destruct (promote_fields keys Hkeys) as (Ho & Hr & He).
  assert (wk ≠ key) as Hne by congruence.
  destruct (ii_registered s HI _ _ _ HR) as (t0 & Ht0 & _ & Hco & Hrefl).
  assert (t0 = tracked) as -> by congruence.
  assert (Coherent key r tracked') as Hco'.
  { destruct Hco; constructor; cbn in *; try done.
    - rewrite co_family0. unfold wildcardOf. by destruct (is_ipv4 (ob_localAddress key)).
    - rewrite co_proxyFamily0. unfold wildcardOf. by destruct (is_ipv4 (ob_localAddress key)). }
  constructor.
  - intros e keys'. rewrite He, lookup_insert. case_decide; [|apply (ii_lists s HI)].
    intros [= <-]. destruct (ii_lists s HI _ _ Hkeys) as [Hn Hnd].
    split; [by apply rename_nonempty|]. apply rename_nodup; [done|].
    intros ([k1 r1] & -> & Hel)%list_elem_of_fmap. cbn in Hkey.
    destruct (ii_registered s HI (tt_endpointId tracked) k1 r1) as (t1 & Ht1 & _);
      [by exists keys|]. congruence.
  - intros e k r' [(-> & -> & ->)|[Hreg Hk]]%promote_registered.
    + exists tracked'. rewrite Ho, Hr, !lookup_insert_eq. done.
    + destruct (ii_registered s HI _ _ _ Hreg) as (t & H1 & H2 & H3 & H4).
      exists t. assert (r' ≠ r) by (intros ->; by destruct (registered_key_unique HI _ _ _ _ _ Hreg HR)).
      rewrite Ho, Hr, !lookup_insert_ne by congruence. by rewrite lookup_delete_ne by done.
  - intros k t. rewrite Ho, lookup_insert. setoid_rewrite promote_registered.
    case_decide as Hk; [intros [= <-]; subst; cbn; eauto|].
    rewrite lookup_delete_Some. intros [Hk' Ht].
    destruct (ii_outbound s HI _ _ Ht) as [r' ?]. eauto.
  - intros r' rw. rewrite Hr, lookup_insert. setoid_rewrite promote_registered.
    case_decide as Hk.
    + intros [= <-]. subst. exists key. left. split; [|done]. by destruct Hco'.
    + intros Hrw. destruct (ii_reflected s HI _ _ Hrw) as [k Hreg]. exists k. right.
      split; [done|]. intros ->. apply Hk.
      by destruct (registered_endpoint_unique HI _ _ _ _ _ Hreg HR).
  - intros e keys' k r'. rewrite He, lookup_insert. case_decide; [|apply (ii_tcpSingle s HI)].
    intros [= <-] Hel Hproto. destruct (ii_lists s HI _ _ Hkeys) as [_ Hnd].
    apply (rename_elem key wk keys r) in Hel; [|done|done].
    assert (keys = [(wk, r)]) as ->.
    { destruct Hel as [[-> ->]|[Hel _]]; [by apply (ii_tcpSingle s HI _ _ _ _ Hkeys)|].
      pose proof (ii_tcpSingle s HI _ _ _ _ Hkeys Hel Hproto) as ->.
      by apply list_elem_of_singleton in Hin as ->. }
    cbn in *. rewrite bool_decide_true in * by done.
    destruct Hel as [[-> ->]|[[= -> ->]%list_elem_of_singleton ?]]; done.
Qed.

Lemma promote_flow_inv : FlowInv s → FlowInv s'.
Proof using HI Hkey Hwk HR.
  intros [_ HB HF HP]. pose proof promote_index_inv as HI'.
  destruct HR as (keys & Hkeys & _). destruct (promote_fields keys Hkeys) as (_ & _ & He).
  assert (fs_udpBindings s' = fs_udpBindings s ∧ fs_udpBindingKeys s' = fs_udpBindingKeys s ∧
    fs_fragmentDecisions s' = fs_fragmentDecisions s ∧
    fs_nextReflectedPort s' = fs_nextReflectedPort s) as (E1 & E2 & E3 & E4).
  { unfold s', promote. by case_match. }
  constructor; [done|by apply (binding_inv_ext s)| |by rewrite E4].
  destruct HF as [Hl Hb]. constructor; rewrite ?E3; [|done].
  intros k d e target Hd Ha. rewrite He, lookup_insert. case_decide; eauto.
Qed.
End promotion.

Lemma outboundTransport_inv proto p la lp ra rp s :
  FlowInv s → ProtocolInv proto s →
  let s' := (outboundTransportTarget p la lp ra rp s).1 in FlowInv s' ∧ ProtocolInv proto s'.
Proof.
  intros HF HP. unfold outboundTransportTarget.
  set (key := outboundKey p la lp ra rp).
  destruct (fs_outbound s !! key) eqn:Hkey; [done|].
  destruct (fs_outbound s !! withLocalAddress _ key) as [tr|] eqn:Hwk; [|done].
  destruct (fs_endpointKeys s !! tt_endpointId tr) as [keys|] eqn:Hkeys; [|done].
  destruct (find_map _ keys) as [r|] eqn:Hfind; [|done]. cbn [fst].
  assert (Registered s (tt_endpointId tr)
            (withLocalAddress (wildcardOf (ob_localAddress key)) key) r) as HR.
  { exists keys. split; [done|]. by apply find_map_key. }
  split; [apply promote_flow_inv; by try apply HF|].
  intros e k r' [(-> & -> & ->)|[Hreg _]]%promote_registered; [|by apply HP in Hreg|by apply HF|done].
  apply HP in HR. done.
Qed.
