(* ===== verification/FlowTableSteps.v ===== *)
(** * Reachable states of the captured-flow table

    One step per method of [CaptureFlowTable]; [associateUdpOutboundAt] is a
    sequence of steps interleaved with those of the other threads.  Every
    reachable state satisfies the invariant of [FlowTableInvariant]. *)

From S2P Require Import Prelude NetAddress FlowTable FlowTableInvariant.

(** ** The remaining methods preserve the invariant *)

(** Endpoints with a binding are UDP sockets. *)
Definition BoundUdp (proto : Z → Z) (s : FlowState) : Prop :=
  ∀ e k, fs_udpBindingKeys s !! e = Some k → proto e = udpProtocol.

Record TableInv (proto : Z → Z) (s : FlowState) : Prop := {
  ti_flow : FlowInv s;
  ti_protocol : ProtocolInv proto s;
  ti_bound : BoundUdp proto s
}.

Lemma default_registered e k r : ¬ Registered FlowState_default e k r.
Proof. intros (keys & H & _). cbn in H. by apply lookup_empty_Some in H. Qed.

Lemma default_inv proto : TableInv proto FlowState_default.
Proof.
  constructor; [constructor; [constructor..|]|..].
  - intros e keys H. cbn in H. by apply lookup_empty_Some in H.
  - by intros e k r H%default_registered.
  - intros k t H. cbn in H. by apply lookup_empty_Some in H.
  - intros r rw H. cbn in H. by apply lookup_empty_Some in H.
  - intros e keys k r H. cbn in H. by apply lookup_empty_Some in H.
  - intros e k H. cbn in H. by apply lookup_empty_Some in H.
  - intros k m H. cbn in H. by apply lookup_empty_Some in H.
  - intros k d e target H. cbn in H. by apply lookup_empty_Some in H.
  - cbn. rewrite map_size_empty. unfold maximumFragmentDecisions. lia.
  - cbn. unfold firstReflectedPort, u16_max. lia.
  - by intros e k r H%default_registered.
  - intros e k H. cbn in H. by apply lookup_empty_Some in H.
Qed.

Lemma fold_inv {A} (P : FlowState → Prop) (f : FlowState → A → FlowState) l s :
  (∀ s x, P s → P (f s x)) → P s → P (foldl f s l).
Proof. intros Hf. revert s. induction l; intros s Hs; cbn; auto. Qed.

Section preservation.
Context (proto : Z → Z).
Implicit Types s : FlowState.
Abbreviation Inv := (TableInv proto).

Lemma remove_inv now e c s : Inv s → Inv (removeEndpointLocked now e c s).
Proof.
  intros [HF HP HB]. constructor; [by apply remove_flow_inv|by apply remove_protocol_inv|].
  intros e' k. destruct (remove_bindings now c e s) as [_ ->].
  rewrite removeBinding_keys. case_decide; [done|]. apply HB.
Qed.

Lemma bindings_inv s s' :
  fs_outbound s' = fs_outbound s → fs_reflected s' = fs_reflected s →
  fs_endpointKeys s' = fs_endpointKeys s → fs_fragmentDecisions s' = fs_fragmentDecisions s →
  fs_nextReflectedPort s' = fs_nextReflectedPort s →
  Inv s → BindingInv s' → BoundUdp proto s' → Inv s'.
Proof.
  intros E1 E2 E3 E4 E5 [[[] _ [] ?] HP _] HB HU.
  destruct s, s'. cbn in E1, E2, E3, E4, E5. subst.
  constructor; [|exact HP|done]. constructor; [constructor| |constructor|]; done.
Qed.

Lemma removeUdpBinding_inv e s : Inv s → Inv (removeUdpBindingLocked e s).
Proof.
  intros H. destruct (removeBinding_frame e s) as (?&?&?&?&?&?).
  apply (bindings_inv s); try done.
  - apply removeBinding_inv, H.
  - intros e' k. rewrite removeBinding_keys. case_decide; [done|]. apply H.
Qed.

Lemma bindUdp_table_inv pid e key s :
  proto e = udpProtocol → Inv s → Inv (bindUdp pid e key s).
Proof.
  intros He H. destruct (removeBinding_frame e s) as (?&?&?&?&?&?).
  apply (bindings_inv s); try done.
  - apply bindUdp_inv, H.
  - intros e' k. cbn. rewrite lookup_insert. case_decide; [congruence|].
    rewrite removeBinding_keys.
    case_decide; [done|]. apply H.
Qed.

Lemma registerBinding_inv pid e la lp s :
  proto e = udpProtocol → Inv s → Inv (registerUdpBinding pid e la lp s).1.
Proof.
  intros. unfold registerUdpBinding. case_if H'; [done|]. by apply bindUdp_table_inv.
Qed.

Lemma replaceBindings_inv clock removed additions s :
  Forall (λ a : Z * Z * IpAddr * Z, proto a.1.1.2 = udpProtocol) additions →
  Inv s → Inv (replaceUdpOwnerBindings clock removed additions s).
Proof.
  intros Hadd Hs. unfold replaceUdpOwnerBindings.
  assert (∀ s, Inv s → Inv (foldl addOwnerBinding s additions)) as Hfold.
  { clear s Hs. induction Hadd as [|[[[pid e] la] lp] l Ha _ IH]; intros s Hs; [done|].
    cbn [foldl]. apply IH. unfold addOwnerBinding. case_if Hg; [done|]. by apply bindUdp_table_inv. }
  apply Hfold, fold_inv; [|done]. intros ? []. apply remove_inv.
Qed.

Lemma removeEndpointsAt_inv clock es ts s : Inv s → Inv (removeEndpointsAt clock es ts s).
Proof. apply fold_inv. intros ? []. apply remove_inv. Qed.

Lemma retain_inv clock pids s : Inv s → Inv (retainProcessIds clock pids s).
Proof.
  intros Hs. unfold retainProcessIds. apply fold_inv.
  - intros. by apply removeUdpBinding_inv.
  - apply fold_inv; [|done]. intros ? []. apply remove_inv.
Qed.

Lemma watermark_inv w s : Inv s → Inv (advanceUdpObservationWatermark w s).
Proof.
  intros [[[] [] [] ?] HP HB]. constructor; [|exact HP|exact HB].
  constructor; [constructor|constructor|constructor|]; done.
Qed.

Lemma fragments_inv s s' :
  (∃ m, s' = set_fragmentDecisions m s) → FlowInv s' → Inv s → Inv s'.
Proof. intros [m ->] HF [_ HP HB]. by constructor. Qed.

Lemma record_inv key action now s :
  Inv s → Inv (recordFragmentDecisionAt key action now s).1.
Proof.
  intros H. apply (fragments_inv s); [|apply record_flow_inv, H|done].
  unfold recordFragmentDecisionAt. repeat case_match; by eexists.
Qed.

Lemma lookup_inv key now s : Inv s → Inv (fragmentLookupAt key now s).1.
Proof.
  intros H. apply (fragments_inv s); [by eexists|apply prune_flow_inv, H|done].
Qed.

Lemma transportTarget_inv p la lp ra rp s :
  Inv s → Inv (outboundTransportTarget p la lp ra rp s).1.
Proof.
  intros [HF HP HB]. destruct (outboundTransport_inv proto p la lp ra rp s HF HP).
  constructor; [done..|]. unfold outboundTransportTarget.
  repeat case_match; try done; unfold promote; by case_match.
Qed.

(** *** Insertion *)
Lemma insertLocked_bindings now1 now2 flow p port active s e k :
  fs_udpBindingKeys (insertLocked now1 now2 flow p port active s).1 !! e = Some k →
  fs_udpBindingKeys s !! e = Some k.
Proof.
  assert (∀ n e' c s, fs_udpBindingKeys (removeEndpointLocked n e' c s) !! e = Some k →
            fs_udpBindingKeys s !! e = Some k) as Hrem.
  { intros n e' c s'. destruct (remove_bindings n c e' s') as [_ ->].
    rewrite removeBinding_keys. by case_decide. }
  assert (∀ n l r p q s, fs_udpBindingKeys (allocateLoop n l r p q s).1 = fs_udpBindingKeys s) as Hloop.
  { clear. induction n as [|n IH]; intros; [done|]. cbn [allocateLoop]. case_if H; [done|]. by rewrite IH. }
  assert (∀ s, fs_udpBindingKeys (allocateAndRegister flow p port active s).1 = fs_udpBindingKeys s) as Hreg.
  { intros s'. unfold allocateAndRegister, allocateReflectedPort.
    pose proof (Hloop (Z.to_nat u16_max) p p port (cf_protocol flow) s') as Hl.
    destruct (allocateLoop _ _ _ _ _ _) as [s1 [q|]]; exact Hl. }
  unfold insertLocked. intros H.
  assert (fs_udpBindingKeys (if cf_protocol flow =? tcpProtocol
    then removeEndpointLocked now1 (cf_endpointId flow) None s else s) !! e = Some k) as H'.
  { repeat case_match; rewrite ?Hreg in H; eauto. }
  case_match; eauto.
Qed.

Lemma insertAt_table_inv now1 now2 flow conf port active t :
  flowOk flow → cf_protocol flow = proto (cf_endpointId flow) →
  Inv (ft_state t) → Inv (ft_state (insertAt now1 now2 flow conf port active t).1).
Proof.
  intros Hflow Hproto [HF HP HB].
  destruct (insertAt_inv proto now1 now2 flow conf port active t Hflow Hproto HF HP).
  constructor; [done..|]. unfold insertAt. case_match; [|done].
  intros e k. intros Hk. apply (HB e k).
  pose proof (insertLocked_bindings now1 now2 flow i port active (ft_state t) e k) as Hins.
  destruct (insertLocked _ _ _ _ _ _ _) as [s b]. by destruct b; apply Hins.
Qed.

(** *** Interface of the first redirected packet *)
Lemma interface_coherent k r t i :
  Coherent k r t →
  Coherent k r (setTrackedInterface i (withIpv6Scope (rt_original (tt_rewrite t)) (ni_interfaceIndex i)) t).
Proof.
  intros []; constructor; cbn in *; try done.
  - destruct (ot_address (rt_original (tt_rewrite t))); [done|]. by case_match.
  - destruct (ot_address (rt_original (tt_rewrite t))); [done|]. by case_match.
Qed.

(** The two updates of [setReflectedInterface], on the one flow it concerns. *)
Lemma setInterface_shape pa port ra i s t k r :
  let key := {| rf_localAddress := normalizeIpAddress pa; rf_localPort := port;
                rf_remoteAddress := normalizeIpAddress ra; rf_protocol := tcpProtocol |} in
  IndexInv s → key = r → fs_outbound s !! k = Some t →
  fs_endpointKeys s !! tt_endpointId t = Some [(k, r)] → fs_reflected s !! r = Some (tt_rewrite t) →
  rt_endpointId (tt_rewrite t) = tt_endpointId t →
  let t' := setTrackedInterface i
    (withIpv6Scope (rt_original (tt_rewrite t)) (ni_interfaceIndex i)) t in
  setReflectedInterface pa port ra i s =
    (set_outbound (<[k := t']> (fs_outbound s))
       (set_reflected (<[r := tt_rewrite t']> (fs_reflected s)) s), true).
Proof.
  intros key HI <- Hk He Hr Hend t'. unfold setReflectedInterface, setTransportReflectedInterface.
  fold key. rewrite Hr. cbn. rewrite Hend, He. cbn. do 2 f_equal.
  - f_equal. apply map_eq. intros k'. rewrite lookup_insert. case_decide; subst.
    + by rewrite lookup_alter_eq, Hk.
    + by rewrite lookup_alter_ne.
  - f_equal. apply map_eq. intros k'. rewrite lookup_insert. case_decide; subst.
    + by rewrite lookup_alter_eq, Hr.
    + by rewrite lookup_alter_ne.
Qed.

Lemma interface_inv pa port ra i s : Inv s → Inv (setReflectedInterface pa port ra i s).1.
Proof.
  intros [HF HP HB]. pose proof (fv_index s HF) as HI.
  set (key := {| rf_localAddress := normalizeIpAddress pa; rf_localPort := port;
                 rf_remoteAddress := normalizeIpAddress ra; rf_protocol := tcpProtocol |}).
  destruct (fs_reflected s !! key) as [rw|] eqn:Hr.
  2: { unfold setReflectedInterface, setTransportReflectedInterface. fold key. by rewrite Hr. }
  destruct (ii_reflected s HI _ _ Hr) as [k HR].
  destruct (ii_registered s HI _ _ _ HR) as (t & Hk & Ht & Hc & Hr').
  rewrite Hr in Hr'. injection Hr' as ->.
  assert (ob_protocol k = tcpProtocol) as Htcp.
  { pose proof (f_equal rf_protocol (co_reflected _ _ _ Hc)). done. }
  destruct HR as (keys & Hkeys & Hin).
  pose proof (ii_tcpSingle s HI _ _ _ _ Hkeys Hin Htcp) as ->. rewrite <-Ht in Hkeys at 1.
  rewrite Ht in Hkeys.
  rewrite (setInterface_shape pa port ra i s t k key); try done; [|by rewrite Ht].
  cbn [fst]. pose proof (interface_coherent k key t i Hc) as Hc'.
  set (t' := setTrackedInterface i _ t) in *.
  constructor; [|exact HP|exact HB].
  destruct HF as [_ [] [] ?]. constructor; [|constructor; done|constructor; done|done].
  constructor; cbn.
  - apply (ii_lists s HI).
  - intros e k' r' HR'. change (Registered s e k' r') in HR'.
    destruct (ii_registered s HI _ _ _ HR') as (t1 & H1 & H2 & H3 & H4).
    assert (Registered s (tt_endpointId t) k key) as HR by (eexists; split; [by rewrite Ht|done]).
    rewrite !lookup_insert. destruct (decide (k = k')) as [<-|Hne].
    + assert (t1 = t) as -> by congruence.
      destruct (registered_endpoint_unique HI _ _ _ _ _ HR HR') as [He ->].
      exists t'. rewrite decide_True by done. done.
    + exists t1. rewrite decide_False; [done|]. intros <-.
      by destruct (registered_key_unique HI _ _ _ _ _ HR HR').
  - intros k' t1. rewrite lookup_insert. case_decide; subst.
    + intros [= <-]. exists key. eexists. split; [|done]. cbn. by rewrite Ht.
    + apply (ii_outbound s HI).
  - intros r' rw. rewrite lookup_insert. case_decide; subst.
    + intros [= <-]. exists k. eexists. split; [|done]. done.
    + apply (ii_reflected s HI).
  - apply (ii_tcpSingle s HI).
Qed.
End preservation.

(** ** The step relation *)
Section steps.
Context (proto : Z → Z).

Inductive FlowStep : CaptureFlowTable → CaptureFlowTable → Prop :=
| StepInsert now1 now2 pid e la lp ra rp flow conf port active t :
    transport pid e la lp ra rp (proto e) = Some flow →
    FlowStep t (insertAt now1 now2 flow conf port active t).1
| StepNotifier notifier t : FlowStep t (setAssociationNotifier notifier t)
| StepRemove now e t : FlowStep t (set_state (removeEndpoint now e (ft_state t)) t)
| StepRemoveAt clock es ts t :
    FlowStep t (set_state (removeEndpointsAt clock es ts (ft_state t)) t)
| StepBind pid e la lp t :
    proto e = udpProtocol →
    FlowStep t (set_state (registerUdpBinding pid e la lp (ft_state t)).1 t)
| StepReplace clock removed additions t :
    Forall (λ a : Z * Z * IpAddr * Z, proto a.1.1.2 = udpProtocol) additions →
    FlowStep t (set_state (replaceUdpOwnerBindings clock removed additions (ft_state t)) t)
| StepOutbound p la lp ra rp t :
    FlowStep t (set_state (outboundTransportTarget p la lp ra rp (ft_state t)).1 t)
| StepWatermark w t :
    FlowStep t (set_state (advanceUdpObservationWatermark w (ft_state t)) t)
| StepClear t : FlowStep t (set_state (clear (ft_state t)) t)
| StepRetain clock pids t :
    FlowStep t (set_state (retainProcessIds clock pids (ft_state t)) t)
| StepRecord key action now t :
    FlowStep t (set_state (recordFragmentDecisionAt key action now (ft_state t)).1 t)
| StepFragment key now t :
    FlowStep t (set_state (fragmentLookupAt key now (ft_state t)).1 t)
| StepInterface pa port ra i t :
    FlowStep t (set_state (setReflectedInterface pa port ra i (ft_state t)).1 t).

Definition reachable (t : CaptureFlowTable) : Prop := rtc FlowStep CaptureFlowTable_default t.

Lemma step_inv t t' : FlowStep t t' → TableInv proto (ft_state t) → TableInv proto (ft_state t').
Proof.
  intros Hstep Hs. destruct Hstep; cbn [ft_state set_state setAssociationNotifier];
    eauto using remove_inv, removeEndpointsAt_inv, registerBinding_inv, replaceBindings_inv,
      transportTarget_inv, watermark_inv, default_inv, retain_inv, record_inv, lookup_inv,
      interface_inv.
  destruct (transport_ok _ _ _ _ _ _ _ _ H) as (Hok & Hp & He & _).
  apply insertAt_table_inv; [done|congruence|done].
Qed.

Lemma steps_inv t t' :
  rtc FlowStep t t' → TableInv proto (ft_state t) → TableInv proto (ft_state t').
Proof. induction 1; eauto using step_inv. Qed.

Lemma reachable_inv t : reachable t → TableInv proto (ft_state t).
Proof. intros H. apply (steps_inv _ _ H), default_inv. Qed.
End steps.
#[export] Hint Resolve reachable_inv : capture.
