(* ===== verification/FlowTableTheorems.v ===== *)
(** * Correctness of the captured-flow table

    Properties of the reachable states of [FlowTable]: the NAT mapping is
    injective and invertible, port allocation is complete, removal and process
    selection leave nothing behind, UDP generations are chosen by capture
    counter, fragment decisions keep their precedence, and the unlocked windows
    of the UDP association do not leak flows. *)

From S2P Require Import Prelude NetAddress FlowTable FlowTableInvariant FlowTableSteps.

(** ** The NAT mapping *)
Section nat.
Context {proto : Z → Z} {s : FlowState} (HT : TableInv proto s).

Lemma outbound_coherent k t :
  fs_outbound s !! k = Some t →
  ∃ r, Registered s (tt_endpointId t) k r ∧ Coherent k r t ∧ fs_reflected s !! r = Some (tt_rewrite t).
Proof using HT.
  intros Hk. pose proof (fv_index s (ti_flow _ _ HT)) as HI.
  destruct (ii_outbound s HI _ _ Hk) as [r HR]. exists r.
  destruct (ii_registered s HI _ _ _ HR) as (t' & Hk' & _ & Hc & Hr).
  assert (t' = t) as -> by congruence. done.
Qed.

Lemma outbound_reflected k t :
  fs_outbound s !! k = Some t →
  reflectedTransportTarget (ob_protocol k) (rt_proxyAddress (tt_rewrite t))
    (rt_reflectedPort (tt_rewrite t)) (rt_proxyAddress (tt_rewrite t)) s = Some (tt_rewrite t).
Proof using HT.
  intros (r & _ & Hc & Hr)%outbound_coherent. unfold reflectedTransportTarget.
  rewrite (co_proxyNormal _ _ _ Hc). rewrite <-Hr, (co_reflected _ _ _ Hc). done.
Qed.
End nat.

(** The result of a successful lookup is the entry of the table it leaves. *)
Lemma outboundTransport_entry p la lp ra rp s s' rw :
  outboundTransportTarget p la lp ra rp s = (s', Some rw) →
  ∃ t, fs_outbound s' !! outboundKey p la lp ra rp = Some t ∧ tt_rewrite t = rw.
Proof.
  unfold outboundTransportTarget. set (key := outboundKey p la lp ra rp).
  repeat case_match; intros; simplify_eq; [eauto|].
  unfold promote. case_match; cbn; rewrite lookup_insert_eq; eauto.
Qed.

(** C1: The invariant of every reachable table.  Whatever sequence of methods
    runs, the outbound index, the reflected index and the per-endpoint key lists
    describe the same flows, bindings and their reverse index are inverse to each
    other, blocking fragment decisions belong to live endpoints, at most 4096
    decisions are kept and the next reflected port is a valid port. *)
Theorem flow_table_invariant proto t : reachable proto t → FlowInv (ft_state t).
Proof. intros H. apply (ti_flow proto), reachable_inv, H. Qed.

(** The NAT mapping is injective.  Two flows of one protocol that reflect to
    the same proxy address and port are the same flow. *)
Theorem flow_nat_injective proto t k1 k2 t1 t2 :
  reachable proto t →
  fs_outbound (ft_state t) !! k1 = Some t1 → fs_outbound (ft_state t) !! k2 = Some t2 →
  ob_protocol k1 = ob_protocol k2 →
  rt_proxyAddress (tt_rewrite t1) = rt_proxyAddress (tt_rewrite t2) →
  rt_reflectedPort (tt_rewrite t1) = rt_reflectedPort (tt_rewrite t2) →
  k1 = k2.
Proof.
  intros HT%reachable_inv H1 H2 Hp Ha Hport.
  destruct (outbound_coherent HT _ _ H1) as (r1 & R1 & C1 & _).
  destruct (outbound_coherent HT _ _ H2) as (r2 & R2 & C2 & _).
  assert (r1 = r2) as <-.
  { rewrite (co_reflected _ _ _ C1), (co_reflected _ _ _ C2). congruence. }
  by destruct (registered_key_unique (fv_index _ (ti_flow _ _ HT)) _ _ _ _ _ R1 R2).
Qed.

(** C24: The redirection is inverted by the reflected index.  When an outgoing
    packet's five-tuple resolves to a rewrite (promoting a wildcard flow if need
    be), the rewrite names exactly that five-tuple, and in the table left behind
    the reflected tuple of the rewrite leads back to the same rewrite. *)
Theorem flow_nat_roundtrip proto t p la lp ra rp s' rw :
  reachable proto t →
  outboundTransportTarget p la lp ra rp (ft_state t) = (s', Some rw) →
  reflectedTransportTarget p (rt_proxyAddress rw) (rt_reflectedPort rw) (rt_proxyAddress rw) s'
    = Some rw ∧
  rt_originalLocalAddress rw = normalizeIpAddress la ∧ rt_originalLocalPort rw = lp ∧
  sock_ip (ot_address (rt_original rw)) = normalizeIpAddress ra ∧
  sock_port (ot_address (rt_original rw)) = rp ∧
  is_ipv4 (rt_proxyAddress rw) = is_ipv4 (normalizeIpAddress la) ∧
  1 ≤ rt_reflectedPort rw ≤ u16_max.
Proof.
  intros HT%reachable_inv Heq.
  pose proof (transportTarget_inv proto p la lp ra rp _ HT) as HT'. rewrite Heq in HT'. cbn in HT'.
  destruct (outboundTransport_entry _ _ _ _ _ _ _ _ Heq) as (tr & Hk & <-).
  split; [exact (outbound_reflected HT' _ _ Hk)|].
  destruct (outbound_coherent HT' _ _ Hk) as (r & _ & [] & _). done.
Qed.

(** ** Insertion *)
Lemma insertLocked_true now1 now2 flow p port active s s' :
  1 ≤ fs_nextReflectedPort s ≤ u16_max →
  insertLocked now1 now2 flow p port active s = (s', true) →
  ∃ q s0, s' = registerFlow flow p q active s0 ∧ 1 ≤ q ≤ u16_max ∧ q ≠ port.
Proof.
  intros Hp. unfold insertLocked.
  set (s1 := if cf_protocol flow =? tcpProtocol then _ else s).
  assert (1 ≤ fs_nextReflectedPort s1 ≤ u16_max) as Hp1.
  { subst s1. case_match; rewrite ?remove_nextPort; done. }
  assert (∀ s2, 1 ≤ fs_nextReflectedPort s2 ≤ u16_max →
    allocateAndRegister flow p port active s2 = (s', true) →
    ∃ q s0, s' = registerFlow flow p q active s0 ∧ 1 ≤ q ≤ u16_max ∧ q ≠ port) as Halloc.
  { intros s2 Hp2. unfold allocateAndRegister.
    destruct (allocateReflectedPort _ _ _ _ _) as [s3 [q|]] eqn:Ha; [|done].
    destruct (allocate_spec _ _ _ _ _ _ _ Ha Hp2) as [_ [Hq [Hne _]]].
    intros [= <-]. eauto 10. }
  repeat case_match; try done; apply Halloc; rewrite ?remove_nextPort; done.
Qed.

(** The entry [insertAt] leaves when it reports success. *)
Lemma insertAt_true now1 now2 flow conf port active t t' :
  1 ≤ fs_nextReflectedPort (ft_state t) ≤ u16_max →
  insertAt now1 now2 flow conf port active t = (t', true) →
  ∃ p q, resolveProxyAddress (cf_localAddress flow) conf = Some p ∧ q ≠ port ∧
    fs_outbound (ft_state t') !! outboundKeyOf flow =
      Some {| tt_endpointId := cf_endpointId flow; tt_rewrite := newRewrite flow p q;
              tt_activeFromCounter := active |}.
Proof.
  intros Hp. unfold insertAt. destruct (resolveProxyAddress _ _) as [p|]; [|done].
  destruct (insertLocked _ _ _ _ _ _ _) as [s [|]] eqn:Hins; [|done]. intros [= <-].
  destruct (insertLocked_true _ _ _ _ _ _ _ _ Hp Hins) as (q & s0 & -> & Hq & Hne).
  exists p, q. split; [done|]. split; [done|]. cbn. apply lookup_insert_eq.
Qed.

(** Insertion then lookup.  After a successful insertion the flow's own
    five-tuple resolves to its process and its remote endpoint, and the proxy
    that accepts the redirected TCP connection recovers the original target
    from the peer address it sees; the reflected port is never the proxy's own
    listening port. *)
Theorem insert_then_lookup proto t now1 now2 pid e la lp ra rp flow conf port active t' :
  reachable proto t →
  transport pid e la lp ra rp (proto e) = Some flow →
  insertAt now1 now2 flow conf port active t = (t', true) →
  let original := {| ot_processId := pid;
                     ot_address := SocketAddr_new (normalizeIpAddress ra) rp |} in
  ∃ rw, outboundTransportTarget (proto e) la lp ra rp (ft_state t') = (ft_state t', Some rw) ∧
    rt_original rw = original ∧ rt_endpointId rw = e ∧ rt_reflectedPort rw ≠ port ∧
    (proto e = tcpProtocol →
     originalTargetForPeer (rt_proxyAddress rw)
       (SocketAddr_new (rt_proxyAddress rw) (rt_reflectedPort rw)) (ft_state t') = Some original).
Proof.
  intros HT%reachable_inv Htr Hins original.
  destruct (transport_ok _ _ _ _ _ _ _ _ Htr) as (Hok & Hp & He & Hpid & Hkey).
  pose proof (insertAt_table_inv proto now1 now2 flow conf port active t Hok
                ltac:(congruence) HT) as HT'. rewrite Hins in HT'. cbn in HT'.
  destruct (insertAt_true _ _ _ _ _ _ _ _ (fv_port _ (ti_flow _ _ HT)) Hins)
    as (p & q & Hres & Hq & Hout).
  exists (newRewrite flow p q). unfold outboundTransportTarget. rewrite <-Hkey, Hout. cbn.
  assert (rt_original (newRewrite flow p q) = original) as Horig.
  { unfold newRewrite, original. cbn. rewrite Hpid.
    pose proof (f_equal ob_remoteAddress Hkey) as Hra. pose proof (f_equal ob_remotePort Hkey) as Hrp.
    cbn in Hra, Hrp. by rewrite Hra, Hrp. }
  repeat split; try done. intros Htcp.
  unfold originalTargetForPeer, reflectedTarget. autorewrite with net.
  pose proof (outbound_reflected HT' _ _ Hout) as Hrefl. cbn in Hrefl.
  rewrite Hp, Htcp in Hrefl. cbn in *. rewrite Hrefl. cbn. by rewrite <-Horig.
Qed.

(** The reasons for which [insertAt] reports failure. *)
Definition portsExhausted (flow : CaptureFlow) (p : IpAddr) (port : Z) (s : FlowState) : Prop :=
  ∀ q, 1 ≤ q ≤ u16_max →
    q = port ∨ is_Some (fs_reflected s !! reflectedKeyOf p q (cf_protocol flow)).

Lemma allocateAndRegister_false flow p port active s s' :
  1 ≤ fs_nextReflectedPort s ≤ u16_max →
  allocateAndRegister flow p port active s = (s', false) →
  fs_reflected s' = fs_reflected s ∧ portsExhausted flow p port s'.
Proof.
  intros Hp. unfold allocateAndRegister.
  destruct (allocateReflectedPort _ _ _ _ _) as [s1 [q|]] eqn:Ha; [done|]. intros [= <-].
  destruct (allocate_spec _ _ _ _ _ _ _ Ha Hp) as [(n & -> & _) Hfull]. split; [done|].
  intros q Hq. destruct (decide (q = port)) as [|Hne]; [by left|]. right.
  destruct (fs_reflected s !! reflectedKeyOf p q (cf_protocol flow)) eqn:Hr; cbn; rewrite Hr; [eauto|].
  by destruct (Hfull q Hq).
Qed.

(** A refused insertion has a reason.  Insertion fails only when the
    configured proxy address is of the other family, when this very UDP flow is
    already registered for the endpoint, or when every port from 1 to 65535 is
    the proxy's own or already reflects another flow; the wrap-around search
    misses no free port. *)
Theorem insert_refused_reason proto t now1 now2 flow conf port active t' :
  reachable proto t →
  insertAt now1 now2 flow conf port active t = (t', false) →
  resolveProxyAddress (cf_localAddress flow) conf = None ∨
  (cf_protocol flow ≠ tcpProtocol ∧
   ∃ tr, fs_outbound (ft_state t) !! outboundKeyOf flow = Some tr ∧
         tt_endpointId tr = cf_endpointId flow) ∨
  ∃ p, resolveProxyAddress (cf_localAddress flow) conf = Some p ∧
       portsExhausted flow p port (ft_state t').
Proof.
  intros HT%reachable_inv. pose proof (fv_port _ (ti_flow _ _ HT)) as Hp.
  unfold insertAt. intros Heq. destruct (resolveProxyAddress _ _) as [p|]; [|by left]. right.
  destruct (insertLocked _ _ _ _ _ _ _) as [s [|]] eqn:Hins; [done|]. injection Heq as <-.
  revert Hins. unfold insertLocked. case_if Htcp.
  - set (s1 := removeEndpointLocked now1 (cf_endpointId flow) None (ft_state t)).
    assert (∀ prev, fs_outbound s1 !! outboundKeyOf flow = Some prev →
              tt_endpointId prev ≠ cf_endpointId flow) as Hne.
    { intros prev Hprev He.
      pose proof (remove_inv proto now1 (cf_endpointId flow) None _ HT) as HT'.
      destruct (outbound_coherent HT' _ _ Hprev) as (r & HR & _).
      apply remove_registered in HR as [Hne _]. done. }
    assert (1 ≤ fs_nextReflectedPort s1 ≤ u16_max) as Hp1 by (unfold s1; by rewrite remove_nextPort).
    destruct (fs_outbound s1 !! outboundKeyOf flow) as [prev|] eqn:Hprev.
    + case_if Hsame; [apply Z.eqb_eq in Hsame; by destruct (Hne prev eq_refl)|].
      intros Hins. right. exists p. split; [done|].
      by apply allocateAndRegister_false in Hins as [_ ?]; [|rewrite remove_nextPort].
    + intros Hins. right. exists p. split; [done|].
      by apply allocateAndRegister_false in Hins as [_ ?].
  - apply Z.eqb_neq in Htcp.
    destruct (fs_outbound (ft_state t) !! outboundKeyOf flow) as [prev|] eqn:Hprev.
    + case_if Hsame; [apply Z.eqb_eq in Hsame; eauto 10|].
      intros Hins. right. exists p. split; [done|].
      by apply allocateAndRegister_false in Hins as [_ ?]; [|rewrite remove_nextPort].
    + intros Hins. right. exists p. split; [done|].
      by apply allocateAndRegister_false in Hins as [_ ?].
Qed.

(** ** Removal *)

(** [Mentions s e]: some index of [s] refers to endpoint [e]. *)
Definition Mentions (s : FlowState) (e : Z) : Prop :=
  (∃ k t, fs_outbound s !! k = Some t ∧ tt_endpointId t = e) ∨
  (∃ r rw, fs_reflected s !! r = Some rw ∧ rt_endpointId rw = e) ∨
  is_Some (fs_endpointKeys s !! e) ∨ is_Some (fs_udpBindingKeys s !! e) ∨
  (∃ k m, fs_udpBindings s !! k = Some m ∧ is_Some (m !! e)) ∨
  (∃ k d target, fs_fragmentDecisions s !! k = Some d ∧ fd_action d = Block e target).

(** Without key list and binding, no index mentions the endpoint. *)
Lemma not_mentioned s e :
  FlowInv s → fs_endpointKeys s !! e = None → fs_udpBindingKeys s !! e = None → ¬ Mentions s e.
Proof.
  intros [HI [HB1 HB2] [HF _] _] He Hb
    [(k & t & Hk & <-)|[(r & rw & Hr & <-)|[[? H]|[[? H]|[(k & m & Hm & [pid Hp])|(k & d & tg & Hd & Ha)]]]]].
  - destruct (ii_outbound s HI _ _ Hk) as (? & ? & H & _). congruence.
  - destruct (ii_reflected s HI _ _ Hr) as (? & ? & H & _). congruence.
  - congruence.
  - congruence.
  - apply (HB2 _ _ Hm) in Hp. congruence.
  - destruct (HF _ _ _ _ Hd Ha). congruence.
Qed.

(** Removing an endpoint removes all of it and nothing else.  Afterwards no
    index mentions the endpoint, and the outbound and reflected entries of every
    other endpoint are what they were. *)
Theorem remove_endpoint_complete proto t now e :
  reachable proto t →
  let s := ft_state t in let s' := removeEndpoint now e s in
  ¬ Mentions s' e ∧
  (∀ k tr, tt_endpointId tr ≠ e →
     fs_outbound s' !! k = Some tr ↔ fs_outbound s !! k = Some tr) ∧
  (∀ r rw, rt_endpointId rw ≠ e →
     fs_reflected s' !! r = Some rw ↔ fs_reflected s !! r = Some rw).
Proof.
  intros HT%reachable_inv s s'. pose proof (fv_index s (ti_flow _ _ HT)) as HI.
  pose proof (remove_inv proto now e None s HT) as HT'. unfold s', removeEndpoint. split.
  - apply not_mentioned; [apply HT'|by rewrite remove_endpointKeys, lookup_delete_eq|].
    destruct (remove_bindings now None e s) as [_ ->].
    by rewrite removeBinding_keys, decide_True.
  - split.
    + intros k tr Hne. rewrite remove_outbound. case_decide as Hin; [|done].
      split; [done|]. intros Hk. apply list_elem_of_fmap in Hin as ([k' r] & -> & Hin%elem_pairsOf).
      destruct (ii_registered s HI _ _ _ Hin) as (t1 & H1 & H2 & _). cbn in Hk. congruence.
    + intros r rw Hne. rewrite remove_reflected. case_decide as Hin; [|done].
      split; [done|]. intros Hr. apply list_elem_of_fmap in Hin as ([k r'] & -> & Hin%elem_pairsOf).
      destruct (ii_registered s HI _ _ _ Hin) as (t1 & _ & H2 & [Hc _ _ _ _ _ _ _ _ _] & H1).
      cbn in Hr. congruence.
Qed.

(** ** Process selection *)
Section retain.
Context (clock : nat → Instant) (pids : gset Z).

Lemma foldl_remove_outbound (es : list (nat * Z)) s k t :
  FlowInv s →
  let s' := foldl (λ s '(i, e), removeEndpointLocked (clock i) e None s) s es in
  FlowInv s' ∧ (fs_outbound s' !! k = Some t ↔
                fs_outbound s !! k = Some t ∧ tt_endpointId t ∉ es.*2).
Proof.
  revert s. induction es as [|[i e] es IH]; intros s HF.
  - cbn. split; [done|]. set_solver.
  - cbn [foldl]. pose proof (remove_flow_inv (clock i) None e s HF) as HF1.
    destruct (IH _ HF1) as [HF2 Hiff]. split; [done|]. rewrite Hiff, fmap_cons. cbn [snd].
    rewrite remove_outbound, not_elem_of_cons. case_decide as Hin.
    + apply list_elem_of_fmap in Hin as ([k' r] & -> & HR%elem_pairsOf). cbn.
      destruct (ii_registered s (fv_index s HF) _ _ _ HR) as (t' & Ht' & He & _).
      split; [by intros [? _]|]. intros (Ht & Hne & _). congruence.
    + split; [|tauto]. intros [Ht Hnin]. split; [done|]. split; [|done]. intros He. apply Hin.
      destruct (ii_outbound s (fv_index s HF) _ _ Ht) as [r HR].
      apply list_elem_of_fmap. exists (k, r). by rewrite elem_pairsOf, <-He.
Qed.

Lemma foldl_removeBinding (es : list Z) s k e :
  BindingInv s →
  let s' := foldl (λ s e, removeUdpBindingLocked e s) s es in
  BindingInv s' ∧ fs_outbound s' = fs_outbound s ∧
  bound s' k e = if decide (e ∈ es) then None else bound s k e.
Proof.
  revert s. induction es as [|e1 es IH]; intros s HB.
  - cbn. case_decide as H; [by apply elem_of_nil in H|done].
  - cbn [foldl]. destruct (IH _ (removeBinding_inv e1 s HB)) as (HB' & Ho & Hb).
    destruct (removeBinding_frame e1 s) as (Ho1 & _). rewrite Ho1 in Ho.
    split; [done|]. split; [done|]. rewrite Hb. unfold bound.
    rewrite removeBinding_bindings by done.
    repeat case_decide; set_solver.
Qed.

Lemma imap_pair_snd {A} (l : list A) : (imap pair l).*2 = l.
Proof. rewrite fmap_imap. apply list_eq. intros i. rewrite list_lookup_imap. by destruct (l !! i). Qed.

Lemma retain_outbound s k t :
  FlowInv s →
  (fs_outbound (retainProcessIds clock pids s) !! k = Some t ↔
   fs_outbound s !! k = Some t ∧
   ∀ k' t', fs_outbound s !! k' = Some t' → tt_endpointId t' = tt_endpointId t →
            ot_processId (rt_original (tt_rewrite t')) ∈ pids).
Proof.
  intros HF. unfold retainProcessIds.
  set (es := tt_endpointId <$> _). destruct (foldl_remove_outbound (imap pair es) s k t HF) as [HF1 Hiff].
  set (s1 := foldl _ s (imap pair es)) in *. set (bs := fst <$> _).
  destruct (foldl_removeBinding bs s1 {| ub_localAddress := V4 0; ub_localPort := 0 |} 0
              (fv_binding _ HF1)) as (_ & -> & _).
  rewrite Hiff, imap_pair_snd. unfold es.
  assert (∀ e, e ∈ es ↔ ∃ k' t', fs_outbound s !! k' = Some t' ∧ tt_endpointId t' = e ∧
            ot_processId (rt_original (tt_rewrite t')) ∉ pids) as Hes.
  { intros e. unfold es. rewrite list_elem_of_fmap. split.
    - intros (t' & -> & [Hp ([k' t1] & -> & Hin)%list_elem_of_fmap]%list_elem_of_filter).
      apply elem_of_map_to_list in Hin. eauto.
    - intros (k' & t' & Hk' & <- & Hp). exists t'. split; [done|].
      apply list_elem_of_filter. split; [done|]. apply list_elem_of_fmap.
      exists (k', t'). split; [done|]. by apply elem_of_map_to_list. }
  fold es. rewrite Hes. split.
  - intros [Hk Hn]. split; [done|]. intros k' t' Hk' He.
    destruct (decide (ot_processId (rt_original (tt_rewrite t')) ∈ pids)); [done|].
    destruct Hn. eauto.
  - intros [Hk Hall]. split; [done|]. intros (k' & t' & Hk' & He & Hn). eauto.
Qed.

Lemma retain_bound s k e pid :
  FlowInv s → bound (retainProcessIds clock pids s) k e = Some pid → pid ∈ pids.
Proof.
  intros HF. unfold retainProcessIds.
  set (es := tt_endpointId <$> _).
  assert (FlowInv (foldl (λ s '(i, e), removeEndpointLocked (clock i) e None s) s (imap pair es))) as HF1.
  { apply fold_inv; [|done]. intros ? []. apply remove_flow_inv. }
  set (s1 := foldl _ s (imap pair es)) in *. set (bs := fst <$> _).
  destruct (foldl_removeBinding bs s1 k e (fv_binding _ HF1)) as (_ & _ & ->).
  case_decide as Hin; [done|]. intros Hb. destruct (decide (pid ∈ pids)) as [|Hn]; [done|].
  destruct Hin. unfold bs. unfold bound in Hb.
  destruct (fs_udpBindings s1 !! k) as [m|] eqn:Hm; [|done]. cbn in Hb.
  apply list_elem_of_fmap. exists (e, pid). split; [done|].
  apply list_elem_of_filter. split; [done|]. apply list_elem_of_join.
  exists (map_to_list m). split; [by apply elem_of_map_to_list|].
  apply list_elem_of_fmap. exists (k, m). split; [done|]. by apply elem_of_map_to_list.
Qed.
End retain.

(** Process selection.  After [retainProcessIds] a flow is in the table
    exactly when it was there and every flow of its endpoint belongs to a selected
    process; no reflected entry and no UDP binding of a process outside the
    selection is left. *)
Theorem retain_selected_only proto t clock pids :
  reachable proto t →
  let s := ft_state t in let s' := retainProcessIds clock pids s in
  (∀ k tr, fs_outbound s' !! k = Some tr ↔
     fs_outbound s !! k = Some tr ∧
     ∀ k' tr', fs_outbound s !! k' = Some tr' → tt_endpointId tr' = tt_endpointId tr →
               ot_processId (rt_original (tt_rewrite tr')) ∈ pids) ∧
  (∀ r rw, fs_reflected s' !! r = Some rw → ot_processId (rt_original rw) ∈ pids) ∧
  (∀ k m e pid, fs_udpBindings s' !! k = Some m → m !! e = Some pid → pid ∈ pids).
Proof.
  intros HT%reachable_inv s s'. pose proof (ti_flow _ _ HT) as HF.
  split; [|split].
  - intros. by apply retain_outbound.
  - intros r rw Hr. pose proof (retain_inv proto clock pids s HT) as HT'. fold s' in HT'.
    destruct (ii_reflected _ (fv_index _ (ti_flow _ _ HT')) _ _ Hr) as [k HR].
    destruct (ii_registered _ (fv_index _ (ti_flow _ _ HT')) _ _ _ HR) as (tr & Hk & _ & _ & Hr').
    rewrite Hr in Hr'. injection Hr' as ->. unfold s' in Hk.
    apply retain_outbound in Hk as [Hk Hall]; [|done]. by eapply Hall.
  - intros k m e pid Hm Hp. apply (retain_bound clock pids s k e pid HF).
    unfold bound. fold s'. rewrite Hm. done.
Qed.

(** ** Generations of a UDP five-tuple *)

Lemma find_first_app {A} (f : A → bool) l1 l2 :
  find_first f (l1 ++ l2) =
  match find_first f l1 with Some x => Some x | None => find_first f l2 end.
Proof. induction l1 as [|x l1 IH]; cbn; [done|]. by destruct (f x). Qed.

Lemma find_first_filter {A} (f : A → bool) (P : A → Prop) `{!∀ x, Decision (P x)} l :
  (∀ x, f x = true → P x) → find_first f (filter P l) = find_first f l.
Proof.
  intros HP. induction l as [|x l IH]; [done|].
  rewrite filter_cons. case_decide as Hx; cbn [find_first]; rewrite IH; [done|].
  destruct (f x) eqn:Hf; [|done]. by destruct Hx; apply HP.
Qed.

Lemma removeKeyPair_retired_udp now c s k r tr :
  fs_outbound s !! k = Some tr → ob_protocol k = udpProtocol →
  fs_retiredUdpOutbound (removeKeyPair now c s (k, r)) !! k =
  Some (default [] (fs_retiredUdpOutbound s !! k) ++
        [{| ru_rewrite := tt_rewrite tr; ru_activeFromCounter := tt_activeFromCounter tr;
            ru_retiredAt := now; ru_retiredAtCounter := c |}]).
Proof.
  intros Hk Hp. unfold removeKeyPair. rewrite Hk, Hp, Z.eqb_refl. cbn. apply lookup_insert_eq.
Qed.

Lemma removeKeyPair_retired_ne now c s k k' r :
  k ≠ k' → fs_retiredUdpOutbound (removeKeyPair now c s (k', r)) !! k = fs_retiredUdpOutbound s !! k.
Proof.
  intros Hne. unfold removeKeyPair. repeat case_match; cbn; rewrite ?lookup_insert_ne; done.
Qed.

Lemma removePairs_retired now c s keys k tr :
  NoDup keys.*1 → k ∈ keys.*1 → fs_outbound s !! k = Some tr → ob_protocol k = udpProtocol →
  fs_retiredUdpOutbound (foldl (removeKeyPair now c) s keys) !! k =
  Some (default [] (fs_retiredUdpOutbound s !! k) ++
        [{| ru_rewrite := tt_rewrite tr; ru_activeFromCounter := tt_activeFromCounter tr;
            ru_retiredAt := now; ru_retiredAtCounter := c |}]).
Proof.
  assert (∀ keys s, k ∉ keys.*1 →
    fs_retiredUdpOutbound (foldl (removeKeyPair now c) s keys) !! k = fs_retiredUdpOutbound s !! k) as Hframe.
  { clear. induction keys as [|[k' r] keys IH]; intros s Hnin; [done|].
    rewrite fmap_cons, not_elem_of_cons in Hnin. destruct Hnin as [Hne Hnin].
    cbn [foldl]. rewrite IH by done. by apply removeKeyPair_retired_ne. }
  revert s. induction keys as [|[k' r] keys IH]; intros s Hnd Hin Hk Hp; [by apply elem_of_nil in Hin|].
  rewrite fmap_cons in Hnd, Hin. cbn [fst] in Hnd, Hin. apply NoDup_cons in Hnd as [Hnin Hnd].
  cbn [foldl]. destruct (decide (k = k')) as [<-|Hne].
  - rewrite Hframe by done. by apply removeKeyPair_retired_udp.
  - apply elem_of_cons in Hin as [?|Hin]; [done|].
    rewrite IH; try done.
    + by rewrite removeKeyPair_retired_ne.
    + rewrite removeKeyPair_outbound. by rewrite decide_False.
Qed.

(** Removing the owner of a UDP five-tuple appends its generation. *)
Lemma remove_retires now c s k tr :
  FlowInv s → fs_outbound s !! k = Some tr → ob_protocol k = udpProtocol →
  fs_retiredUdpOutbound (removeEndpointLocked now (tt_endpointId tr) c s) !! k =
  Some (default [] (fs_retiredUdpOutbound s !! k) ++
        [{| ru_rewrite := tt_rewrite tr; ru_activeFromCounter := tt_activeFromCounter tr;
            ru_retiredAt := now; ru_retiredAtCounter := c |}]).
Proof.
  intros HF Hk Hp. rewrite removeEndpoint_unfold. cbn.
  destruct (removeBinding_frame (tt_endpointId tr) (removeIndexes now c (tt_endpointId tr) s)) as (_ & -> & _).
  destruct (ii_outbound s (fv_index s HF) _ _ Hk) as (r & keys & He & Hin).
  unfold removeIndexes, pairsOf. rewrite He. cbn [default].
  apply (removePairs_retired now c (set_endpointKeys _ s)); try done.
  - by apply (ii_lists s (fv_index s HF) _ _ He).
  - apply list_elem_of_fmap. by exists (k, r).
Qed.

Lemma allocateLoop_retired n l r p q s :
  fs_retiredUdpOutbound (allocateLoop n l r p q s).1 = fs_retiredUdpOutbound s.
Proof.
  revert s. induction n as [|n IH]; intros s; [done|]. cbn [allocateLoop]. case_if H; [done|]. by rewrite IH.
Qed.

Lemma allocateAndRegister_retired flow p port active s :
  fs_retiredUdpOutbound (allocateAndRegister flow p port active s).1 = fs_retiredUdpOutbound s.
Proof.
  unfold allocateAndRegister, allocateReflectedPort.
  pose proof (allocateLoop_retired (Z.to_nat u16_max) p p port (cf_protocol flow) s) as Hl.
  destruct (allocateLoop _ _ _ _ _ _) as [s1 [q|]]; exact Hl.
Qed.

(** Hand-over of a UDP five-tuple between two sockets.  When a new socket
    takes over a five-tuple at QPC counter [c], packets captured at or after [c]
    are attributed to the new socket, and packets captured before [c], but not
    before the previous socket was active, still to the previous one. *)
Theorem udp_generation_handover proto t now1 now2 pid e la lp ra rp flow conf port c t' prev :
  reachable proto t →
  transport pid e la lp ra rp udpProtocol = Some flow → proto e = udpProtocol →
  fs_outbound (ft_state t) !! outboundKey udpProtocol la lp ra rp = Some prev →
  tt_endpointId prev ≠ e →
  insertAt now1 now2 flow conf port (Some c) t = (t', true) →
  ∀ capturedAt counter,
    (c ≤ counter → ∃ rw, udpTargetAt la lp ra rp capturedAt counter (ft_state t') = Some rw ∧
       rt_endpointId rw = e ∧ ot_processId (rt_original rw) = pid) ∧
    (counter < c → activeAt (tt_activeFromCounter prev) counter = true →
       udpTargetAt la lp ra rp capturedAt counter (ft_state t') = Some (tt_rewrite prev)).
Proof.
  intros HT%reachable_inv Htr Hproto Hprev Hne Hins capturedAt counter.
  pose proof (ti_flow _ _ HT) as HF.
  destruct (transport_ok _ _ _ _ _ _ _ _ Htr) as (Hok & Hp & He & Hpid & Hkey).
  destruct (insertAt_true _ _ _ _ _ _ _ _ (fv_port _ HF) Hins) as (p & q & Hres & Hq & Hout).
  assert (fs_retiredUdpOutbound (ft_state t') !! outboundKey udpProtocol la lp ra rp =
    Some (default [] (fs_retiredUdpOutbound (ft_state t) !! outboundKey udpProtocol la lp ra rp) ++
        [{| ru_rewrite := tt_rewrite prev; ru_activeFromCounter := tt_activeFromCounter prev;
            ru_retiredAt := now2; ru_retiredAtCounter := Some c |}])) as Hret.
  { revert Hins. unfold insertAt. rewrite Hres. unfold insertLocked.
    rewrite Hp, Hkey. change (udpProtocol =? tcpProtocol) with false. cbn [negb].
    rewrite Hprev, He. rewrite (proj2 (Z.eqb_neq _ _) Hne). change (udpProtocol =? udpProtocol) with true.
    match goal with |- context [allocateAndRegister ?f ?p ?q ?a ?s] =>
      pose proof (allocateAndRegister_retired f p q a s) as Hr;
      destruct (allocateAndRegister f p q a s) as [s1 [|]] end; [|done].
    intros [= <-]. cbn in *. rewrite Hr. by apply remove_retires. }
  unfold udpTargetAt. rewrite <-Hkey, Hout, Hkey, Hret. cbn [tt_activeFromCounter activeAt tt_rewrite].
  split.
  - intros Hc. rewrite (proj2 (Z.leb_le _ _) Hc). eexists. split; [done|].
    unfold newRewrite. cbn. by rewrite He, Hpid.
  - intros Hc Hact. rewrite (proj2 (Z.leb_gt _ _) Hc). cbn.
    rewrite reverse_app. cbn. unfold retiredCovers at 1. cbn.
    rewrite Hact, (proj2 (Z.ltb_lt _ _) Hc). done.
Qed.

(** Collecting retired generations is invisible.  Advancing the observation
    watermark to [w] does not change the attribution of any packet captured at or
    after [w], and every generation it keeps ended at or after [w] or has an
    unknown end. *)
Theorem watermark_preserves_lookup w la lp ra rp capturedAt counter s :
  w ≤ counter →
  udpTargetAt la lp ra rp capturedAt counter (advanceUdpObservationWatermark w s) =
    udpTargetAt la lp ra rp capturedAt counter s ∧
  ∀ k versions r, fs_retiredUdpOutbound (advanceUdpObservationWatermark w s) !! k = Some versions →
    r ∈ versions → versions ≠ [] ∧ survivesWatermark w r.
Proof.
  intros Hw. split.
  - unfold udpTargetAt. cbn. rewrite lookup_omap.
    assert (∀ versions, find_first (retiredCovers capturedAt counter)
              (reverse (filter (survivesWatermark w) versions)) =
            find_first (retiredCovers capturedAt counter) (reverse versions)) as Hfind.
    { intros versions.
      assert (∀ r, retiredCovers capturedAt counter r = true → survivesWatermark w r) as Hs.
      { intros r. unfold retiredCovers, survivesWatermark.
        destruct (ru_retiredAtCounter r) as [x|]; [|done].
        intros [_ Hx%Z.ltb_lt]%andb_true_iff. lia. }
      rewrite <-(find_first_filter _ (survivesWatermark w) (reverse versions)) by done.
      f_equal. clear. induction versions as [|v versions IH]; [done|].
      rewrite reverse_cons, filter_app, <-IH, filter_cons. case_decide as Hv.
      - rewrite reverse_cons. f_equal. by rewrite filter_cons, decide_True.
      - rewrite filter_cons, decide_False by done. by rewrite app_nil_r. }
    destruct (fs_retiredUdpOutbound s !! _) as [versions|]; cbn; [|done].
    rewrite <-(Hfind versions). case_decide as Hnil; cbn; [by rewrite Hnil|done].
  - intros k versions r. cbn. rewrite lookup_omap.
    destruct (fs_retiredUdpOutbound s !! k) as [vs|]; cbn; [|done].
    case_decide as Hnil; [done|]. intros [= <-] Hin. split; [done|].
    by apply list_elem_of_filter in Hin as [? _].
Qed.

(** ** Fragment decisions *)

Lemma prune_lookup now s k :
  fs_fragmentDecisions (pruneFragmentState now s) !! k =
  match fs_fragmentDecisions s !! k with
  | Some d => if now <? fd_expiresAt d then Some d else None
  | None => None
  end.
Proof.
  cbn. rewrite map_lookup_filter. destruct (fs_fragmentDecisions s !! k) as [d|]; cbn; [|done].
  case_guard; case_match eqn:Hb; try done; [apply Z.ltb_ge in Hb|apply Z.ltb_lt in Hb]; lia.
Qed.

Definition lookupOf (a : FragmentAction) : FragmentLookup :=
  match a with Allow => LookupAllow | Block _ target => LookupBlock target end.

(** The decision of a first fragment governs the rest of its datagram.
    After a decision is recorded at [now], a lookup of its key less than thirty
    seconds later returns it, unless the key was and stays blocked, in which case
    the block is returned as long as it has not expired; after thirty seconds the
    decision is unknown.  A blocking decision is refused exactly when its endpoint
    is gone. *)
Theorem fragment_record_lookup key action now later s :
  let '(s', result) := recordFragmentDecisionAt key action now s in
  let known := (fragmentLookupAt key later s').2 in
  match result with
  | EndpointGone => ∃ e target, action = Block e target ∧ fs_endpointKeys s !! e = None
  | Recorded =>
      match action, fs_fragmentDecisions (pruneFragmentState now s) !! key with
      | Allow, Some {| fd_action := Block _ target; fd_expiresAt := until |} =>
          known = if later <? until then LookupBlock target else LookupUnknown
      | _, _ =>
          known = if later <? now + fragmentDecisionLifetime
                  then lookupOf action else LookupUnknown
      end
  end.
Proof.
  unfold recordFragmentDecisionAt.
  change (fs_endpointKeys (pruneFragmentState now s)) with (fs_endpointKeys s).
  assert (∀ m, (fragmentLookupAt key later
      (set_fragmentDecisions (<[key := {| fd_action := action;
         fd_expiresAt := now + fragmentDecisionLifetime |}]> m) (pruneFragmentState now s))).2
      = if later <? now + fragmentDecisionLifetime then lookupOf action else LookupUnknown) as Hnew.
  { intros m. unfold fragmentLookupAt. cbn [snd]. rewrite prune_lookup.
    cbn [fs_fragmentDecisions set_fragmentDecisions]. rewrite lookup_insert_eq. cbn [fd_expiresAt].
    case_if Hl; [|done]. by destruct action. }
  destruct action as [|e target]; cbn [isBlock negb andb].
  - destruct (fs_fragmentDecisions (pruneFragmentState now s) !! key) as [[[|e' target'] until]|] eqn:Hk;
      cbn [fd_action isBlock]; try apply Hnew.
    unfold fragmentLookupAt. cbn [snd]. rewrite prune_lookup, Hk. cbn [fd_expiresAt].
    case_if Hl; done.
  - case_bool_decide as Hgone; [eauto|]. apply Hnew.
Qed.

(** ** Attribution of connectionless UDP *)

Lemma elem_of_dedup {A} `{EqDecision A} (l : list A) x : x ∈ dedup l ↔ x ∈ l.
Proof.
  induction l as [|y l IH]; [done|]. destruct l as [|z l]; [done|].
  cbn [dedup]. case_decide as Hyz; subst.
  - rewrite IH. set_solver.
  - rewrite elem_of_cons, IH. set_solver.
Qed.

Lemma dedup_head {A} `{EqDecision A} (l : list A) : head (dedup l) = head l.
Proof.
  induction l as [|y l IH]; [done|]. destruct l as [|z l]; [done|].
  cbn [dedup]. case_decide as Hyz; [|done]. subst. exact IH.
Qed.

#[export] Instance pair_le_total : Total pair_le.
Proof. intros [a b] [c d]. unfold pair_le. cbn. lia. Qed.
#[export] Instance pair_le_trans : Transitive pair_le.
Proof. intros [a b] [c d] [e f]. unfold pair_le. cbn. lia. Qed.

(** [BoundAt s a port e pid]: endpoint [e] of process [pid] is bound to [port]
    on address [a] or on the wildcard address of its family. *)
Definition BoundAt (s : FlowState) (a : IpAddr) (port e pid : Z) : Prop :=
  bound s {| ub_localAddress := a; ub_localPort := port |} e = Some pid ∨
  bound s {| ub_localAddress := wildcardOf a; ub_localPort := port |} e = Some pid.

Lemma bound_entries s k e pid :
  bound s k e = Some pid ↔ (e, pid) ∈ default [] (map_to_list <$> fs_udpBindings s !! k).
Proof.
  unfold bound. destruct (fs_udpBindings s !! k) as [m|]; cbn; [by rewrite elem_of_map_to_list|].
  by rewrite elem_of_nil.
Qed.

Lemma candidates_elem s a port e pid :
  (e, pid) ∈ dedup (merge_sort pair_le
     (default [] (map_to_list <$> fs_udpBindings s !! {| ub_localAddress := a; ub_localPort := port |}) ++
      default [] (map_to_list <$>
        fs_udpBindings s !! {| ub_localAddress := wildcardOf a; ub_localPort := port |})))
  ↔ BoundAt s a port e pid.
Proof.
  rewrite elem_of_dedup, merge_sort_Permutation, elem_of_app, <-!bound_entries. done.
Qed.

Lemma candidate_bound s a port e pid :
  bindingCandidate a port s = Some (e, pid) → BoundAt s a port e pid.
Proof.
  unfold bindingCandidate. pose proof (candidates_elem s a port e pid) as Hel.
  destruct (dedup _) as [|c l]; [done|]. case_if Hall; [|done].
  intros [= ->]. apply Hel. by left.
Qed.

(** Attribution never guesses.  The candidate of a local address and port
    is the lowest-numbered endpoint bound there, exactly or through the wildcard
    address; it exists exactly when something is bound there and all sockets bound
    there belong to one process. *)
Theorem attribution_unambiguous s a port :
  match bindingCandidate a port s with
  | Some (e, pid) => BoundAt s a port e pid ∧
      ∀ e' pid', BoundAt s a port e' pid' → pid' = pid ∧ e ≤ e'
  | None => (∀ e pid, ¬ BoundAt s a port e pid) ∨
      ∃ e pid e' pid', BoundAt s a port e pid ∧ BoundAt s a port e' pid' ∧ pid ≠ pid'
  end.
Proof.
  unfold bindingCandidate. pose proof (candidates_elem s a port) as Hel.
  set (raw := _ ++ _) in *.
  pose proof (dedup_head (merge_sort pair_le raw)) as Hhead.
  pose proof (StronglySorted_merge_sort pair_le raw) as Hsort.
  assert (∀ x, x ∈ merge_sort pair_le raw ↔ x ∈ dedup (merge_sort pair_le raw)) as Hsame
    by (intros; by rewrite elem_of_dedup).
  destruct (dedup (merge_sort pair_le raw)) as [|[e pid] l] eqn:Hl.
  { left. intros e pid H%Hel. by apply elem_of_nil in H. }
  destruct (forallb _ _) eqn:Hall.
  - split; [apply Hel; by left|]. intros e' pid' Hin%Hel.
    rewrite forallb_forall in Hall. split.
    + apply Z.eqb_eq, (Hall (e', pid')). by apply list_elem_of_In.
    + apply Hsame in Hin. destruct (merge_sort pair_le raw) as [|x ms]; [done|].
      injection Hhead as <-. inversion_clear Hsort as [|?? _ Hlow].
      apply elem_of_cons in Hin as [[= -> ->]|Hin]; [lia|].
      rewrite Forall_forall in Hlow. specialize (Hlow _ Hin). unfold pair_le in Hlow. cbn in Hlow. lia.
  - right. apply not_true_iff_false in Hall. rewrite forallb_forall in Hall.
    destruct (decide (Exists (λ c : Z * Z, c.2 ≠ pid) ((e, pid) :: l))) as [Hex|Hnex].
    + apply Exists_exists in Hex as ([e' pid'] & Hin & Hne). cbn in Hne.
      exists e, pid, e', pid'. split; [apply Hel; by left|]. split; [by apply Hel|done].
    + destruct Hall. intros c Hin%list_elem_of_In. apply Z.eqb_eq.
      destruct (decide (c.2 = pid)) as [|Hne]; [done|]. destruct Hnex. apply Exists_exists. eauto.
Qed.

Section associate.
Context (proto : Z → Z) (clock : nat → Instant) (env : nat → CaptureFlowTable → CaptureFlowTable).
Hypothesis Henv : ∀ i t, rtc (FlowStep proto) t (env i t).

Lemma udpLookup_steps now c la lp ra rp t :
  rtc (FlowStep proto) t (set_state (udpLookup now c la lp ra rp (ft_state t)).1 t).
Proof.
  unfold udpLookup. destruct c as [c|]; cbn [fst].
  - destruct t. apply rtc_refl.
  - apply rtc_once. constructor.
Qed.

Lemma candidate_udp s a port e pid :
  TableInv proto s → bindingCandidate a port s = Some (e, pid) → proto e = udpProtocol.
Proof.
  intros HT HB%candidate_bound.
  destruct (proj1 (binding_inv_alt s) (fv_binding s (ti_flow _ _ HT))) as [Hk _].
  destruct HB as [HB|HB]; eapply (ti_bound _ _ HT), Hk; rewrite HB; eauto.
Qed.

(** The whole association is a sequence of atomic steps. *)
Lemma associate_steps request t :
  TableInv proto (ft_state t) →
  rtc (FlowStep proto) t (associateUdpOutboundAt clock env request t).1.
Proof using Henv.
  intros HT. unfold associateUdpOutboundAt.
  match goal with |- context [udpLookup ?n ?c ?la ?lp ?ra ?rp (ft_state t)] =>
    pose proof (udpLookup_steps n c la lp ra rp t) as H0;
    destruct (udpLookup n c la lp ra rp (ft_state t)) as [s0 [target|]] end; [done|].
  cbn [fst] in H0. set (t0 := set_state s0 t) in *. clearbody t0. cbn zeta.
  pose proof (Henv 1 t0) as H1. set (t1 := env 1 t0) in *. clearbody t1.
  assert (rtc (FlowStep proto) t t1) as Ht1 by (by etrans). clear H0 H1.
  destruct (bindingCandidate _ _ _) as [[e pid]|] eqn:Hc; [|done].
  pose proof (candidate_udp _ _ _ _ _ (steps_inv proto _ _ Ht1 HT) Hc) as Hudp.
  destruct (CaptureFlow_udp _ _ _ _ _ _) as [flow|] eqn:Hflow; [|done].
  pose proof (Henv 2 t1) as H2. set (t2 := env 2 t1) in *. clearbody t2.
  assert (∀ n1 n2 c p a, rtc (FlowStep proto) t2 (insertAt n1 n2 flow c p a t2).1) as H3.
  { intros. apply rtc_once. eapply StepInsert. rewrite Hudp. exact Hflow. }
  match goal with |- context [insertAt ?a ?b ?c ?d ?e ?f t2] =>
    specialize (H3 a b d e f); destruct (insertAt a b c d e f t2) as [t3 ?] end. cbn [fst] in H3.
  pose proof (Henv 3 t3) as H4. set (t4 := env 3 t3) in *. clearbody t4.
  match goal with |- context [udpLookup ?n ?c ?la ?lp ?ra ?rp (ft_state t4)] =>
    pose proof (udpLookup_steps n c la lp ra rp t4) as H5;
    destruct (udpLookup n c la lp ra rp (ft_state t4)) as [s4 target] end. cbn [fst] in H5.
  pose proof (Henv 4 (set_state s4 t4)) as H6.
  set (t5 := env 4 (set_state s4 t4)) in *.
  assert (rtc (FlowStep proto) t t5) as Ht5 by (repeat (etrans; [eassumption|]); apply rtc_refl).
  case_if Hb; [done|]. cbn [fst].
  etrans; [exact Ht5|]. etrans; [apply (Henv 5)|]. apply rtc_once, StepRemove.
Qed.
End associate.

(** The association of a UDP first packet is linearised by the lock.
    Between its critical sections the other threads may run any methods; the
    table it leaves is still reachable, so every invariant holds there too. *)
Theorem associate_reachable proto clock env request t :
  (∀ i t, rtc (FlowStep proto) t (env i t)) →
  reachable proto t → reachable proto (associateUdpOutboundAt clock env request t).1.
Proof.
  intros Henv Ht. unfold reachable. etrans; [exact Ht|].
  apply associate_steps; [done|]. by apply reachable_inv.
Qed.

(** A CLOSE that races with the association leaks no flow.  Suppose the
    first lookup missed and the candidate was endpoint [e].  When the association
    returns a target, either [e] still has its binding at the last check, or no
    index of the final table mentions [e]. *)
Theorem associate_close_race proto clock env request t t1 target e pid t' :
  (∀ i t, rtc (FlowStep proto) t (env i t)) →
  reachable proto t →
  udpLookup (clock 0%nat) (ua_capturedAtCounter request) (ua_localAddress request)
    (ua_localPort request) (ua_remoteAddress request) (ua_remotePort request) (ft_state t)
    = (ft_state t1, None) →
  ft_associationNotifier t1 = ft_associationNotifier t →
  bindingCandidate (normalizeIpAddress (ua_localAddress request)) (ua_localPort request)
    (ft_state (env 1%nat t1)) = Some (e, pid) →
  associateUdpOutboundAt clock env request t = (t', Some target) →
  is_Some (fs_udpBindingKeys (ft_state t') !! e) ∨ ¬ Mentions (ft_state t') e.
Proof.
  intros Henv Ht Hlook Hnot Hcand Hassoc.
  assert (TableInv proto (ft_state t')) as HT'.
  { pose proof (associate_steps proto clock env Henv request t (reachable_inv _ _ Ht)) as Hs.
    rewrite Hassoc in Hs. apply (steps_inv _ _ _ Hs), reachable_inv, Ht. }
  revert Hassoc. unfold associateUdpOutboundAt. rewrite Hlook.
  assert (set_state (ft_state t1) t = t1) as -> by (destruct t1; cbn in *; unfold set_state; congruence).
  cbn zeta. rewrite Hcand.
  destruct (CaptureFlow_udp _ _ _ _ _ _) as [flow|]; [|done].
  destruct (insertAt _ _ _ _ _ _ _) as [t3 ?]. cbv beta iota.
  clear Hlook. case_let s4 tg.
  case_if Hb.
  - intros [= <- _]. left. by apply bool_decide_eq_true in Hb.
  - intros [= Heq _]. right. rewrite <-Heq in HT' |- *. cbn [ft_state set_state] in HT' |- *.
    apply not_mentioned; [apply HT'|..]; unfold removeEndpoint.
    + by rewrite remove_endpointKeys, lookup_delete_eq.
    + destruct (remove_bindings (clock 4%nat) None e (ft_state (env 5%nat (env 4%nat
        (set_state s4 (env 3%nat t3)))))) as [_ ->].
      by rewrite removeBinding_keys, decide_True.
Qed.
