(* ===== verification/NatInterface.v ===== *)
(** * What the rewriter relies on in the flow table

    The packet rewriter asks the flow table two questions: where a client's packet
    goes, and whom a packet of the proxy belongs to.  [NatTable] states what the
    answers promise, for an invariant that the table keeps to itself; the rewriter's
    theorems are proved against it, and the captured-flow table implements it. *)

From S2P Require Import Prelude NetAddress FlowTable FlowTableInvariant FlowTableSteps FlowTableTheorems.

(** A redirection of the five-tuple of a client's packet: the proxy address is of
    the client's family, the port is a port, and the tuple is remembered. *)
Record Redirects (la : IpAddr) (lp : Z) (ra : IpAddr) (rp : Z) (target : RewriteTarget) : Prop := {
  rd_family : is_ipv4 (rt_proxyAddress target) = is_ipv4 (normalizeIpAddress la);
  rd_remoteFamily : is_ipv4 (normalizeIpAddress ra) = is_ipv4 (normalizeIpAddress la);
  rd_port : 1 ≤ rt_reflectedPort target ≤ u16_max;
  rd_remoteAddress : sock_ip (ot_address (rt_original target)) = normalizeIpAddress ra;
  rd_remotePort : sock_port (ot_address (rt_original target)) = rp;
  rd_localAddress : rt_originalLocalAddress target = normalizeIpAddress la;
  rd_localPort : rt_originalLocalPort target = lp;
}.

Class NatTable (Inv : FlowState → Prop) : Prop := {
  (** A resolved packet is redirected, and the reply to its reflected port will be
      restored by the same target. *)
  nat_outbound s la lp ra rp s' target :
    Inv s → outboundTarget la lp ra rp s = (s', Some target) →
    Redirects la lp ra rp target ∧
    reflectedTarget (rt_proxyAddress target) (rt_reflectedPort target)
      (rt_proxyAddress target) s' = Some target;
  (** A reply is restored to addresses of its own family. *)
  nat_reflected s a port b target :
    Inv s → reflectedTarget a port b s = Some target →
    is_ipv4 (sock_ip (ot_address (rt_original target))) = is_ipv4 (normalizeIpAddress a) ∧
    is_ipv4 (rt_originalLocalAddress target) = is_ipv4 (normalizeIpAddress a);
}.

(** The captured-flow table, in every state that satisfies its invariant. *)
#[export] Instance flow_table_nat proto : NatTable (TableInv proto).
Proof.
  split.
  - intros s la lp ra rp s' target HT Hout.
    pose proof (transportTarget_inv proto tcpProtocol la lp ra rp _ HT) as HT'.
    unfold outboundTarget in Hout. rewrite Hout in HT'. cbn in HT'.
    destruct (outboundTransport_entry _ _ _ _ _ _ _ _ Hout) as (tr & Hk & <-).
    destruct (outbound_coherent HT' _ _ Hk) as (r & _ & [] & _).
    split; [|exact (outbound_reflected HT' _ _ Hk)]. by split.
  - intros s a port b target HT Hr. pose proof (fv_index s (ti_flow _ _ HT)) as HI.
    unfold reflectedTarget, reflectedTransportTarget in Hr.
    destruct (ii_reflected s HI _ _ Hr) as [k HR].
    destruct (ii_registered s HI _ _ _ HR) as (tr & Hk & _ & Hc & Hr').
    rewrite Hr in Hr'. injection Hr' as ->.
    pose proof (f_equal rf_localAddress (co_reflected _ _ _ Hc)) as Ha. cbn in Ha.
    destruct Hc. rewrite Ha, co_remoteAddress, co_family, co_localAddress, co_proxyFamily. done.
Qed.
