(* ===== verification/FlowTableExamples.v ===== *)
(** * The captured-flow table on concrete flows

    A browser (process 41) with one TCP connection and a resolver (process 52)
    with a UDP socket; the theorems of [FlowTableTheorems] applied to them, and
    the behaviour of [setTransportReflectedInterface] on a UDP socket with two
    remote endpoints. *)

From S2P Require Import Prelude NetAddress FlowTable FlowTableInvariant FlowTableSteps FlowTableTheorems.

(** Endpoint 1 is the TCP socket, the others are UDP sockets. *)
Definition protoEx (e : Z) : Z := if e =? 1 then tcpProtocol else udpProtocol.

Definition localEx : IpAddr := V4 3232235786.   (* 192.168.1.10 *)
Definition remoteEx : IpAddr := V4 134744072.   (* 8.8.8.8 *)
Definition remoteEx2 : IpAddr := V4 16843009.   (* 1.1.1.1 *)
Definition proxyEx : IpAddr := V4 0.            (* listening on 0.0.0.0 *)

Definition tcpFlowEx : CaptureFlow :=
  {| cf_processId := 41; cf_endpointId := 1; cf_localAddress := localEx; cf_localPort := 50000;
     cf_remoteAddress := remoteEx; cf_remotePort := 443; cf_protocol := tcpProtocol |}.
Definition udpFlowEx (pid e : Z) (remote : IpAddr) : CaptureFlow :=
  {| cf_processId := pid; cf_endpointId := e; cf_localAddress := localEx; cf_localPort := 50001;
     cf_remoteAddress := remote; cf_remotePort := 53; cf_protocol := udpProtocol |}.

Definition tableTcp : CaptureFlowTable :=
  (insertAt 0 0 tcpFlowEx proxyEx 9000 None CaptureFlowTable_default).1.
Definition tableUdp : CaptureFlowTable :=
  (insertAt 0 0 (udpFlowEx 52 2 remoteEx) proxyEx 9000 (Some 100) tableTcp).1.
Definition tableBound : CaptureFlowTable :=
  set_state (registerUdpBinding 52 2 (V4 0) 50001 FlowState_default).1 CaptureFlowTable_default.

Lemma tableTcp_reachable : reachable protoEx tableTcp.
Proof.
  apply rtc_once. apply (StepInsert protoEx 0 0 41 1 localEx 50000 remoteEx 443). reflexivity.
Defined.

Lemma tableUdp_reachable : reachable protoEx tableUdp.
Proof.
  eapply rtc_r; [exact tableTcp_reachable|].
  apply (StepInsert protoEx 0 0 52 2 localEx 50001 remoteEx 53). reflexivity.
Defined.

Lemma tableBound_reachable : reachable protoEx tableBound.
Proof. apply rtc_once. by apply (StepBind protoEx 52 2 (V4 0) 50001). Defined.

(** *** Witnesses *)
Lemma flow_table_invariant_witness : FlowInv (ft_state tableUdp).
Proof. exact (flow_table_invariant protoEx tableUdp tableUdp_reachable). Defined.

Definition keyTcpEx : OutboundKey := outboundKey tcpProtocol localEx 50000 remoteEx 443.
Definition trackedTcpEx : TrackedTarget :=
  {| tt_endpointId := 1; tt_rewrite := newRewrite tcpFlowEx LOCALHOST_V4 49152;
     tt_activeFromCounter := None |}.

Lemma flow_nat_injective_witness : keyTcpEx = keyTcpEx.
Proof.
  apply (flow_nat_injective protoEx tableUdp keyTcpEx keyTcpEx trackedTcpEx trackedTcpEx);
    [exact tableUdp_reachable|vm_compute; reflexivity..].
Defined.

Lemma flow_nat_roundtrip_witness :
  reflectedTransportTarget tcpProtocol LOCALHOST_V4 49152 LOCALHOST_V4 (ft_state tableUdp) =
  Some (newRewrite tcpFlowEx LOCALHOST_V4 49152).
Proof.
  apply (flow_nat_roundtrip protoEx tableUdp tcpProtocol localEx 50000 remoteEx 443
    (ft_state tableUdp) (newRewrite tcpFlowEx LOCALHOST_V4 49152));
    [exact tableUdp_reachable|vm_compute; reflexivity].
Defined.

Lemma insert_then_lookup_witness :
  ∃ rw, outboundTransportTarget tcpProtocol localEx 50000 remoteEx 443 (ft_state tableTcp)
        = (ft_state tableTcp, Some rw) ∧ rt_endpointId rw = 1.
Proof.
  destruct (insert_then_lookup protoEx CaptureFlowTable_default 0 0 41 1 localEx 50000 remoteEx 443
    tcpFlowEx proxyEx 9000 None tableTcp) as (rw & H1 & _ & H2 & _).
  - apply rtc_refl.
  - reflexivity.
  - vm_compute. reflexivity.
  - exists rw. split; [exact H1|exact H2].
Defined.

Lemma insert_refused_reason_witness :
  resolveProxyAddress localEx (V6 5) = None ∨
  (udpProtocol ≠ tcpProtocol ∧
   ∃ tr, fs_outbound (ft_state tableUdp) !! outboundKeyOf (udpFlowEx 52 2 remoteEx) = Some tr ∧
         tt_endpointId tr = 2) ∨
  ∃ p, resolveProxyAddress localEx (V6 5) = Some p ∧
       portsExhausted (udpFlowEx 52 2 remoteEx) p 9000 (ft_state tableUdp).
Proof.
  apply (insert_refused_reason protoEx tableUdp 0 0 (udpFlowEx 52 2 remoteEx) (V6 5) 9000 None tableUdp);
    [exact tableUdp_reachable|vm_compute; reflexivity].
Defined.

Lemma remove_endpoint_complete_witness : ¬ Mentions (removeEndpoint 7 1 (ft_state tableUdp)) 1.
Proof. apply (remove_endpoint_complete protoEx tableUdp 7 1 tableUdp_reachable). Defined.

Lemma retain_selected_only_witness :
  ∀ r rw, fs_reflected (retainProcessIds (λ _, 0) {[ 52 ]} (ft_state tableUdp)) !! r = Some rw →
          ot_processId (rt_original rw) ∈ ({[ 52 ]} : gset Z).
Proof. apply (retain_selected_only protoEx tableUdp (λ _, 0) {[ 52 ]} tableUdp_reachable). Defined.

(** The five-tuple of endpoint 2 passes to endpoint 3 at counter 200. *)
Definition tableHandover : CaptureFlowTable :=
  (insertAt 5 6 (udpFlowEx 53 3 remoteEx) proxyEx 9000 (Some 200) tableUdp).1.

Lemma udp_generation_handover_witness :
  (∃ rw, udpTargetAt localEx 50001 remoteEx 53 9 200 (ft_state tableHandover) = Some rw ∧
     rt_endpointId rw = 3 ∧ ot_processId (rt_original rw) = 53) ∧
  udpTargetAt localEx 50001 remoteEx 53 9 150 (ft_state tableHandover)
    = Some (newRewrite (udpFlowEx 52 2 remoteEx) LOCALHOST_V4 49153).
Proof.
  pose proof (udp_generation_handover protoEx tableUdp 5 6 53 3 localEx 50001 remoteEx 53
    (udpFlowEx 53 3 remoteEx) proxyEx 9000 200 tableHandover
    {| tt_endpointId := 2; tt_rewrite := newRewrite (udpFlowEx 52 2 remoteEx) LOCALHOST_V4 49153;
       tt_activeFromCounter := Some 100 |} tableUdp_reachable eq_refl eq_refl) as H.
  assert (2 ≠ 3) as Hne by lia.
  specialize (H ltac:(vm_compute; reflexivity) Hne ltac:(vm_compute; reflexivity)). split.
  - apply (H 9 200). lia.
  - apply (H 9 150); [lia|reflexivity].
Defined.

Lemma watermark_preserves_lookup_witness :
  udpTargetAt localEx 50001 remoteEx 53 9 190
    (advanceUdpObservationWatermark 180 (ft_state tableHandover)) =
  udpTargetAt localEx 50001 remoteEx 53 9 190 (ft_state tableHandover).
Proof. apply (watermark_preserves_lookup 180). lia. Defined.

Definition requestEx : UdpAssociationRequest :=
  {| ua_localAddress := localEx; ua_localPort := 50001; ua_remoteAddress := remoteEx;
     ua_remotePort := 53; ua_configuredProxyAddress := proxyEx; ua_proxyPort := 9000;
     ua_capturedAtCounter := None |}.

Lemma associate_reachable_witness :
  reachable protoEx (associateUdpOutboundAt (λ _, 0) (λ _ t, t) requestEx tableBound).1.
Proof.
  apply (associate_reachable protoEx); [intros; apply rtc_refl|exact tableBound_reachable].
Defined.

(** The socket is closed between the insertion and the last check. *)
Definition closeEnv (i : nat) (t : CaptureFlowTable) : CaptureFlowTable :=
  match i with 4%nat => set_state (removeEndpoint 3 2 (ft_state t)) t | _ => t end.

Lemma closeEnv_steps i t : rtc (FlowStep protoEx) t (closeEnv i t).
Proof. do 6 (destruct i as [|i]; [first [apply rtc_refl|apply rtc_once, StepRemove]|]). apply rtc_refl. Defined.

Definition closedEx := associateUdpOutboundAt (λ _, 0) closeEnv requestEx tableBound.

Lemma associate_close_race_witness :
  is_Some (fs_udpBindingKeys (ft_state closedEx.1) !! 2) ∨ ¬ Mentions (ft_state closedEx.1) 2.
Proof.
  apply (associate_close_race protoEx (λ _, 0) closeEnv requestEx tableBound tableBound
    (newRewrite (udpFlowEx 52 2 remoteEx) LOCALHOST_V4 49152) 2 52 closedEx.1).
  - exact closeEnv_steps.
  - exact tableBound_reachable.
  - vm_compute. reflexivity.
  - reflexivity.
  - vm_compute. reflexivity.
  - vm_compute. reflexivity.
Defined.

(** *** A UDP socket with two remote endpoints *)

Definition tableTwoRemotes : CaptureFlowTable :=
  (insertAt 0 0 (udpFlowEx 52 2 remoteEx2) proxyEx 9000 (Some 100) tableUdp).1.
Definition interfaceEx : NetworkInterface := {| ni_interfaceIndex := 4; ni_subinterfaceIndex := 0 |}.

(** C14: [setTransportReflectedInterface] stores the original target of the one
    reflected flow in every outbound entry of its endpoint.  For a UDP socket with
    two remote endpoints (which only its TCP wrapper keeps the function from being
    called on) the second flow's outbound entry then names the first remote. *)
Theorem interface_overwrites_sibling :
  let s := ft_state tableTwoRemotes in
  let s' := (setTransportReflectedInterface udpProtocol LOCALHOST_V4 49153 LOCALHOST_V4
               interfaceEx s).1 in
  let original k := ot_address ∘ rt_original ∘ tt_rewrite <$> k in
  original (fs_outbound s !! outboundKey udpProtocol localEx 50001 remoteEx2 53)
    = Some (SocketAddrV4 16843009 53) ∧
  original (fs_outbound s' !! outboundKey udpProtocol localEx 50001 remoteEx2 53)
    = Some (SocketAddrV4 134744072 53).
Proof. vm_compute. done. Qed.
