(* ===== verification/PacketRewrite.v ===== *)
(** * Packet parsing and rewriting

    Model of [Server/Backend/ProcessCapture/src/packetRewrite.rs].  A packet is
    the list of its bytes; every index and slice of the code is an access that
    panics out of range.  The extension-header loops run on fuel and panic when
    it runs out, so that the absence of panics includes termination.

    [rewriteTcpPacket] takes the lock of the flow table several times; [env i]
    is what the other threads do to the table before its [i]-th critical
    section, [clock] gives its clock readings. *)

From S2P Require Import Prelude NetAddress CaptureTypes FlowTable.

Inductive PacketDirection :=
| Bypass
| ObservedUp (target : OriginalTarget)
| ObservedDown (target : OriginalTarget)
| Blocked (target : OriginalTarget)
| Redirected (original : OriginalTarget) (proxyAddress : IpAddr) (reflectedPort : Z)
| Restored (original : OriginalTarget) (interface : option NetworkInterface).

Inductive PacketRewriteError :=
| TruncatedIpHeader
| UnsupportedIpVersion (version : Z)
| NotTcp
| NotUdp
| InvalidIpv6Extension
| TruncatedTcpHeader
| TruncatedUdpHeader
| InvalidPacketLength
| UnsupportedUdpJumbogram.

Abbreviation result := (outcome PacketRewriteError) (only parsing).

Record ObservedUdpPacket := {
  op_sourceAddress : IpAddr;
  op_destinationAddress : IpAddr;
  op_sourcePort : Z;
  op_destinationPort : Z;
  op_payloadOffset : Z;
  op_payloadEnd : Z
}.

Record ParsedTcpPacket := {
  pt_sourceAddress : IpAddr;
  pt_destinationAddress : IpAddr;
  pt_sourceAddressOffset : Z;
  pt_destinationAddressOffset : Z;
  pt_tcpOffset : Z;
  pt_fragmentKey : option FragmentKey
}.

Inductive ParsedPacket :=
| Tcp (parsed : ParsedTcpPacket)
| LaterFragment (key : FragmentKey).

(** [u16::from_be_bytes([packet[offset], packet[offset + 1]])]. *)
Definition readU16 (packet : list Z) (offset : Z) : result Z :=
  high ← idx packet offset;
  low ← idx packet (offset + 1);
  Ok (high * 256 + low).

Definition readPort (packet : list Z) (offset : Z) : result Z := readU16 packet offset.

(** [Ipv4Addr::new(packet[o], .., packet[o + 3])] and [Ipv6Addr::from] of the
    sixteen bytes from [o]. *)
Definition readIpv4 (packet : list Z) (offset : Z) : result IpAddr :=
  bytes ← sub_slice packet offset (offset + 4); Ok (V4 (be_value bytes)).
Definition readIpv6 (packet : list Z) (offset : Z) : result IpAddr :=
  bytes ← sub_slice packet offset (offset + 16); Ok (V6 (be_value bytes)).

Definition writePort (packet : list Z) (offset port : Z) : result (list Z) :=
  write_slice packet offset (be_bytes 2 port).

Definition writeIpAddress (packet : list Z) (offset : Z) (address : IpAddr) : result (list Z) :=
  write_slice packet offset (octets address).

Definition ensureExtensionBytes (packet : list Z) (offset length : Z) : result unit :=
  check (match checked_add offset length with
         | Some last => last <=? len packet
         | None => false
         end) InvalidIpv6Extension.

(** The IP version, from the high nibble of the first byte. *)
Definition packetVersion (packet : list Z) : result Z :=
  first ← ok_or (get packet 0) TruncatedIpHeader; Ok (Z.shiftr first 4).

(** The IHL of an IPv4 header, after the two length checks. *)
Definition ipv4HeaderLength (packet : list Z) : result Z :=
  _ ← check (20 <=? len packet) TruncatedIpHeader;
  first ← idx packet 0;
  let headerLength := Z.land first 15 * 4 in
  _ ← check ((20 <=? headerLength) && (headerLength <=? len packet)) TruncatedIpHeader;
  Ok headerLength.

Definition parseIpv4TcpPacket (packet : list Z) (outbound : bool) : result ParsedPacket :=
  headerLength ← ipv4HeaderLength packet;
  protocol ← idx packet 9;
  _ ← check (protocol =? 6) NotTcp;
  fragment ← readU16 packet 6;
  sourceAddress ← readIpv4 packet 12;
  destinationAddress ← readIpv4 packet 16;
  identification ← readU16 packet 4;
  let fragmentKey :=
    {| fk_sourceAddress := sourceAddress; fk_destinationAddress := destinationAddress;
       fk_identification := identification; fk_protocol := protocol; fk_outbound := outbound |} in
  if negb (Z.land fragment 8191 =? 0) then Ok (LaterFragment fragmentKey)
  else
    _ ← check (headerLength + 20 <=? len packet) TruncatedTcpHeader;
    Ok (Tcp {| pt_sourceAddress := sourceAddress; pt_destinationAddress := destinationAddress;
               pt_sourceAddressOffset := 12; pt_destinationAddressOffset := 16;
               pt_tcpOffset := headerLength;
               pt_fragmentKey :=
                 if negb (Z.land fragment 8192 =? 0) then Some fragmentKey else None |}).

(** The loop over the IPv6 extension headers in front of a TCP header. *)
Inductive HeaderWalk :=
| WalkTcp (offset : Z) (fragmentKey : option FragmentKey)
| WalkLater (key : FragmentKey).

Fixpoint ipv6TcpLoop (fuel : nat) (packet : list Z) (sourceAddress destinationAddress : IpAddr)
    (outbound : bool) (nextHeader offset : Z) (fragmentKey : option FragmentKey)
    : result HeaderWalk :=
  match fuel with
  | O => Panic
  | S fuel =>
      if nextHeader =? 6 then Ok (WalkTcp offset fragmentKey)
      else
        let continue nextHeader offset fragmentKey :=
          _ ← check (offset <=? len packet) InvalidIpv6Extension;
          ipv6TcpLoop fuel packet sourceAddress destinationAddress outbound nextHeader offset
            fragmentKey in
        if (nextHeader =? 0) || (nextHeader =? 43) || (nextHeader =? 60) then
          _ ← ensureExtensionBytes packet offset 2;
          next ← idx packet offset;
          extension ← idx packet (offset + 1);
          continue next (offset + (extension + 1) * 8) fragmentKey
        else if nextHeader =? 44 then
          _ ← ensureExtensionBytes packet offset 8;
          fragment ← readU16 packet (offset + 2);
          identification ← sub_slice packet (offset + 4) (offset + 8);
          protocol ← idx packet offset;
          let key :=
            {| fk_sourceAddress := sourceAddress; fk_destinationAddress := destinationAddress;
               fk_identification := be_value identification; fk_protocol := protocol;
               fk_outbound := outbound |} in
          if negb (Z.land fragment 65528 =? 0) then Ok (WalkLater key)
          else continue protocol (offset + 8)
                 (if negb (Z.land fragment 1 =? 0) then Some key else None)
        else if nextHeader =? 51 then
          _ ← ensureExtensionBytes packet offset 2;
          next ← idx packet offset;
          extension ← idx packet (offset + 1);
          continue next (offset + (extension + 2) * 4) fragmentKey
        else Err NotTcp
  end.

Definition parseIpv6TcpPacket (packet : list Z) (outbound : bool) : result ParsedPacket :=
  _ ← check (40 <=? len packet) TruncatedIpHeader;
  nextHeader ← idx packet 6;
  sourceAddress ← readIpv6 packet 8;
  destinationAddress ← readIpv6 packet 24;
  walk ← ipv6TcpLoop (length packet) packet sourceAddress destinationAddress outbound
           nextHeader 40 None;
  match walk with
  | WalkLater key => Ok (LaterFragment key)
  | WalkTcp offset fragmentKey =>
      _ ← check (offset + 20 <=? len packet) TruncatedTcpHeader;
      Ok (Tcp {| pt_sourceAddress := sourceAddress; pt_destinationAddress := destinationAddress;
                 pt_sourceAddressOffset := 8; pt_destinationAddressOffset := 24;
                 pt_tcpOffset := offset; pt_fragmentKey := fragmentKey |})
  end.

Definition parsePacket (packet : list Z) (outbound : bool) : result ParsedPacket :=
  version ← packetVersion packet;
  if version =? 4 then parseIpv4TcpPacket packet outbound
  else if version =? 6 then parseIpv6TcpPacket packet outbound
  else Err (UnsupportedIpVersion version).

(** [isTcpStartPacket] answers a [bool]; the last index can still panic. *)
Definition isTcpStartPacket (packet : list Z) : outcome Empty_set bool :=
  match parsePacket packet true with
  | Ok (Tcp parsed) =>
      flags ← idx packet (pt_tcpOffset parsed + 13);
      Ok (negb (Z.land flags 2 =? 0) && (Z.land flags 16 =? 0))
  | Ok (LaterFragment _) | Err _ => Ok false
  | Panic => Panic
  end.

(** ** Rewriting *)

Definition rewriteAddresses (packet : list Z) (parsed : ParsedTcpPacket)
    (source destination : IpAddr) (sourcePort destinationPort : Z) : result (list Z) :=
  packet ← writeIpAddress packet (pt_sourceAddressOffset parsed) source;
  packet ← writeIpAddress packet (pt_destinationAddressOffset parsed) destination;
  packet ← writePort packet (pt_tcpOffset parsed) sourcePort;
  writePort packet (pt_tcpOffset parsed + 2) destinationPort.

Definition rewriteTcpPacket (clock : nat → Instant) (env : nat → FlowState → FlowState)
    (packet : list Z) (outbound : bool) (proxyPort : Z) (s : FlowState)
    : result (list Z * FlowState * PacketDirection) :=
  if negb outbound then Ok (packet, s, Bypass)
  else
    parsed ← parsePacket packet outbound;
    match parsed with
    | LaterFragment key =>
        let '(s, found) := fragmentLookupAt key (clock 0%nat) s in
        Ok (packet, s, match found with
                       | LookupBlock target => Blocked target
                       | LookupAllow | LookupUnknown => Bypass
                       end)
    | Tcp parsed =>
        sourcePort ← readPort packet (pt_tcpOffset parsed);
        destinationPort ← readPort packet (pt_tcpOffset parsed + 2);
        let reflected :=
          if sourcePort =? proxyPort
          then reflectedTarget (pt_sourceAddress parsed) destinationPort
                 (pt_destinationAddress parsed) s
          else None in
        match reflected with
        | Some target =>
            match pt_fragmentKey parsed with
            | Some fragmentKey =>
                let '(s, _) := recordFragmentDecisionAt fragmentKey
                  (Block (rt_endpointId target) (rt_original target)) (clock 1%nat) (env 1%nat s) in
                Ok (packet, s, Blocked (rt_original target))
            | None =>
                packet ← rewriteAddresses packet parsed
                  (sock_ip (ot_address (rt_original target))) (rt_originalLocalAddress target)
                  (sock_port (ot_address (rt_original target))) (rt_originalLocalPort target);
                Ok (packet, s, Restored (rt_original target) (rt_originalInterface target))
            end
        | None =>
            let '(s, found) := outboundTarget (pt_sourceAddress parsed) sourcePort
              (pt_destinationAddress parsed) destinationPort (env 2%nat s) in
            match found with
            | None =>
                match pt_fragmentKey parsed with
                | Some fragmentKey =>
                    let '(s, _) := recordFragmentDecisionAt fragmentKey Allow
                                     (clock 3%nat) (env 3%nat s) in
                    Ok (packet, s, Bypass)
                | None => Ok (packet, s, Bypass)
                end
            | Some target =>
                match pt_fragmentKey parsed with
                | Some fragmentKey =>
                    let '(s, _) := recordFragmentDecisionAt fragmentKey
                      (Block (rt_endpointId target) (rt_original target)) (clock 4%nat)
                      (env 4%nat s) in
                    Ok (packet, s, Blocked (rt_original target))
                | None =>
                    packet ← rewriteAddresses packet parsed (rt_proxyAddress target)
                      (rt_proxyAddress target) (rt_reflectedPort target) proxyPort;
                    Ok (packet, s, Redirected (rt_original target) (rt_proxyAddress target)
                                     (rt_reflectedPort target))
                end
            end
        end
    end.

(** ** UDP *)

(** The loop over the IPv6 extension headers in front of a UDP header; [None]
    is the early [return Ok(None)] for a fragment header. *)
Fixpoint ipv6UdpLoop (fuel : nat) (packet : list Z) (ipEnd nextHeader offset : Z)
    : result (option Z) :=
  match fuel with
  | O => Panic
  | S fuel =>
      if nextHeader =? udpProtocol then Ok (Some offset)
      else
        let continue nextHeader offset :=
          _ ← check (offset <=? ipEnd) InvalidIpv6Extension;
          ipv6UdpLoop fuel packet ipEnd nextHeader offset in
        if (nextHeader =? 0) || (nextHeader =? 43) || (nextHeader =? 60) then
          _ ← ensureExtensionBytes packet offset 2;
          next ← idx packet offset;
          extension ← idx packet (offset + 1);
          continue next (offset + (extension + 1) * 8)
        else if nextHeader =? 51 then
          _ ← ensureExtensionBytes packet offset 2;
          next ← idx packet offset;
          extension ← idx packet (offset + 1);
          continue next (offset + (extension + 2) * 4)
        else if nextHeader =? 44 then Ok None
        else Err NotUdp
  end.

(** The header part of [parseUdpPacket]: addresses, UDP offset and IP end. *)
Definition parseUdpHeaders (packet : list Z) : result (option (IpAddr * IpAddr * Z * Z)) :=
  version ← packetVersion packet;
  if version =? 4 then
    headerLength ← ipv4HeaderLength packet;
    protocol ← idx packet 9;
    _ ← check (protocol =? udpProtocol) NotUdp;
    totalLength ← readU16 packet 2;
    _ ← check ((headerLength + 8 <=? totalLength) && (totalLength <=? len packet))
          InvalidPacketLength;
    fragment ← readU16 packet 6;
    if negb (Z.land fragment 16383 =? 0) then Ok None
    else
      source ← readIpv4 packet 12;
      destination ← readIpv4 packet 16;
      Ok (Some (source, destination, headerLength, totalLength))
  else if version =? 6 then
    _ ← check (40 <=? len packet) TruncatedIpHeader;
    payloadLength ← readU16 packet 4;
    _ ← check (negb (payloadLength =? 0)) UnsupportedUdpJumbogram;
    ipEnd ← ok_or (last ← checked_add 40 payloadLength;
                   if last <=? len packet then Some last else None) InvalidPacketLength;
    nextHeader ← idx packet 6;
    walk ← ipv6UdpLoop (length packet) packet ipEnd nextHeader 40;
    match walk with
    | None => Ok None
    | Some offset =>
        source ← readIpv6 packet 8;
        destination ← readIpv6 packet 24;
        Ok (Some (source, destination, offset, ipEnd))
    end
  else Err (UnsupportedIpVersion version).

Definition parseUdpPacket (packet : list Z) : result (option ObservedUdpPacket) :=
  headers ← parseUdpHeaders packet;
  match headers with
  | None => Ok None
  | Some (sourceAddress, destinationAddress, udpOffset, ipEnd) =>
      _ ← check (udpOffset + 8 <=? ipEnd) TruncatedUdpHeader;
      udpLength ← readU16 packet (udpOffset + 4);
      _ ← check ((8 <=? udpLength) &&
                 match checked_add udpOffset udpLength with
                 | Some last => last <=? ipEnd
                 | None => false
                 end) InvalidPacketLength;
      sourcePort ← readPort packet udpOffset;
      destinationPort ← readPort packet (udpOffset + 2);
      Ok (Some {| op_sourceAddress := sourceAddress; op_destinationAddress := destinationAddress;
                  op_sourcePort := sourcePort; op_destinationPort := destinationPort;
                  op_payloadOffset := udpOffset + 8; op_payloadEnd := udpOffset + udpLength |})
  end.

Definition parseObservedUdpPacket (packet : list Z) : result (option ObservedUdpPacket) :=
  parseUdpPacket packet.

(** The event handed to the recorder; [None] when the packet does not parse. *)
Definition udpDatagramEvent (packet : list Z) (target : OriginalTarget)
    (direction : UdpDatagramDirection) (capturedAtMilliseconds : Z)
    : outcome Empty_set (option UdpDatagramEvent) :=
  match parseUdpPacket packet with
  | Ok (Some parsed) =>
      let clientAddress :=
        match direction with
        | Up => SocketAddr_new (op_sourceAddress parsed) (op_sourcePort parsed)
        | Down => SocketAddr_new (op_destinationAddress parsed) (op_destinationPort parsed)
        end in
      payload ← sub_slice packet (op_payloadOffset parsed) (op_payloadEnd parsed);
      Ok (Some {| ue_processId := ot_processId target; ue_clientAddress := clientAddress;
                  ue_targetAddress := ot_address target; ue_direction := direction;
                  ue_payload := payload; ue_capturedAtMilliseconds := capturedAtMilliseconds;
                  ue_modifications := [] |})
  | Ok None | Err _ => Ok None
  | Panic => Panic
  end.
