(* ===== verification/PacketRewriteTheorems.v ===== *)
(** * Correctness of packet parsing and rewriting

    No input makes the parsers panic or loop, a packet that is not redirected is
    not touched, and a reply of the proxy is turned back into a packet of the
    original connection. *)

From S2P Require Import Prelude NetAddress CaptureTypes FlowTable FlowTableInvariant FlowTableSteps FlowTableTheorems NatInterface FlowTableExamples PacketRewrite.

(** ** Facts on the readers *)
Section readers.
Context {packet : list Z} (Hp : bytes_ok packet).

Lemma satisfies_readU16 off (P : Z → Prop) Q :
  0 ≤ off → off + 2 ≤ len packet → (∀ v, 0 ≤ v ≤ u16_max → P v) →
  Satisfies (readU16 packet off) P Q.
Proof using Hp.
  intros. unfold readU16. wp. apply H1.
  apply (get_byte _ _ _ Hp) in Hx, Hx0. unfold u16_max. lia.
Qed.

Lemma satisfies_headerLength (P : Z → Prop) :
  (∀ h, 20 ≤ h ≤ 60 → h ≤ len packet → P h) →
  Satisfies (ipv4HeaderLength packet) P (λ _, True).
Proof using Hp.
  intros HP. unfold ipv4HeaderLength. wp; try done. apply HP; [|lia].
  split; [lia|]. change 15 with (Z.ones 4). rewrite Z.land_ones by lia.
  pose proof (Z.mod_pos_bound x (2 ^ 4)). lia.
Qed.

Lemma satisfies_ensure off n (P : unit → Prop) :
  (off + n ≤ len packet → P tt) → Satisfies (ensureExtensionBytes packet off n) P (λ _, True).
Proof using.
  intros HP. unfold ensureExtensionBytes. apply satisfies_check; [|done].
  unfold checked_add. destruct (_ <=? usize_max); [|done]. intros H0%Z.leb_le. auto.
Qed.
End readers.

(** ** The parsers neither panic nor run out of fuel *)

(** What a parsed TCP packet promises to the code that rewrites it. *)
Record WellParsed (packet : list Z) (t : ParsedTcpPacket) : Prop := {
  wp_offsets : (pt_sourceAddressOffset t = 12 ∧ pt_destinationAddressOffset t = 16 ∧
                pt_sourceAddress t = V4 (be_value (slice packet 12 16)) ∧
                pt_destinationAddress t = V4 (be_value (slice packet 16 20))) ∨
               (pt_sourceAddressOffset t = 8 ∧ pt_destinationAddressOffset t = 24 ∧
                pt_sourceAddress t = V6 (be_value (slice packet 8 24)) ∧
                pt_destinationAddress t = V6 (be_value (slice packet 24 40)) ∧
                40 ≤ pt_tcpOffset t);
  wp_tcp : 20 ≤ pt_tcpOffset t;
  wp_len : pt_tcpOffset t + 20 ≤ len packet
}.

Section parsers.
Context {packet : list Z} (Hp : bytes_ok packet).

Lemma parseIpv4_spec outbound :
  Satisfies (parseIpv4TcpPacket packet outbound)
    (λ p, match p with Tcp t => WellParsed packet t | LaterFragment _ => True end) (λ _, True).
Proof using Hp.
  unfold parseIpv4TcpPacket. apply satisfies_bind, satisfies_headerLength; [done|].
  intros h Hh Hlen. wp; [|done].
  apply satisfies_readU16; [done|lia|lia|]. intros fragment _. unfold readIpv4. wp.
  apply satisfies_readU16; [done|lia|lia|]. intros ident _.
  case_if Hlater; wp; [done| |done].
  constructor; cbn; [by left|lia|lia].
Qed.

Lemma ipv6TcpLoop_spec src dst outbound fuel next off fk :
  40 ≤ off ≤ len packet → len packet - off < 8 * Z.of_nat fuel →
  Satisfies (ipv6TcpLoop fuel packet src dst outbound next off fk)
    (λ w, match w with WalkTcp o _ => 40 ≤ o ≤ len packet | WalkLater _ => True end) (λ _, True).
Proof using Hp.
  revert next off fk. induction fuel as [|fuel IH]; intros next off fk Hoff Hfuel.
  { lia. }
  cbn [ipv6TcpLoop]. case_if H6; [by wp|]. cbn zeta.
  case_if Hopt; [|case_if H44; [|case_if H51; [|by wp]]].
  - apply satisfies_bind, satisfies_ensure. intros Hr. wp; [|done].
    apply (get_byte _ _ _ Hp) in Hx0. apply IH; lia.
  - apply satisfies_bind, satisfies_ensure. intros Hr. wp.
    apply satisfies_readU16; [done|lia|lia|]. intros fragment _. wp.
    case_if Hlater; wp; [done| |done]. apply IH; lia.
  - apply satisfies_bind, satisfies_ensure. intros Hr. wp; [|done].
    apply (get_byte _ _ _ Hp) in Hx0. apply IH; lia.
Qed.

Lemma parseIpv6_spec outbound :
  Satisfies (parseIpv6TcpPacket packet outbound)
    (λ p, match p with Tcp t => WellParsed packet t | LaterFragment _ => True end) (λ _, True).
Proof using Hp.
  unfold parseIpv6TcpPacket. wp; [|done]. unfold readIpv6. wp.
  eapply satisfies_mono; [..|apply ipv6TcpLoop_spec]; [|done|lia|unfold len in *; lia].
  intros [o fk|key] Hw; wp; [|done|done]. constructor; cbn; [right; repeat split; lia || done|lia|lia].
Qed.

Lemma parsePacket_spec outbound :
  Satisfies (parsePacket packet outbound)
    (λ p, match p with Tcp t => WellParsed packet t | LaterFragment _ => True end) (λ _, True).
Proof using Hp.
  unfold parsePacket, packetVersion. wp; [|done].
  case_if H4; [apply parseIpv4_spec|]. case_if H6; [apply parseIpv6_spec|by wp].
Qed.

Lemma parsePacket_wellParsed outbound t :
  parsePacket packet outbound = Ok (Tcp t) → WellParsed packet t.
Proof using Hp. intros Heq. pose proof (parsePacket_spec outbound) as H. by rewrite Heq in H. Qed.

(** *** UDP *)
Lemma ipv6UdpLoop_spec ipEnd fuel next off :
  40 ≤ off ≤ ipEnd → ipEnd ≤ len packet → ipEnd - off < 8 * Z.of_nat fuel →
  Satisfies (ipv6UdpLoop fuel packet ipEnd next off)
    (λ w, match w with Some o => 40 ≤ o ≤ ipEnd | None => True end) (λ _, True).
Proof using Hp.
  revert next off. induction fuel as [|fuel IH]; intros next off Hoff Hend Hfuel; [lia|].
  cbn [ipv6UdpLoop]. case_if H17; [by wp|]. cbn zeta.
  case_if Hopt; [|case_if H51; [|case_if H44; by wp]].
  - apply satisfies_bind, satisfies_ensure. intros Hr. wp; [|done].
    apply (get_byte _ _ _ Hp) in Hx0. apply IH; lia.
  - apply satisfies_bind, satisfies_ensure. intros Hr. wp; [|done].
    apply (get_byte _ _ _ Hp) in Hx0. apply IH; lia.
Qed.

Lemma parseUdpHeaders_spec :
  Satisfies (parseUdpHeaders packet)
    (λ r, match r with
          | Some (_, _, udpOffset, ipEnd) => 20 ≤ udpOffset ∧ ipEnd ≤ len packet
          | None => True
          end) (λ _, True).
Proof using Hp.
  unfold parseUdpHeaders, packetVersion. wp; [|done]. case_if H4; [|case_if H6].
  - apply satisfies_bind, satisfies_headerLength; [done|]. intros h Hh Hlen. wp; [|done].
    apply satisfies_readU16; [done|lia|lia|]. intros total Ht. wp; [|done].
    apply satisfies_readU16; [done|lia|lia|]. intros fragment _.
    case_if Hf; [by wp|]. unfold readIpv4. wp. lia.
  - wp; [|done]. apply satisfies_readU16; [done|lia|lia|]. intros plen Hplen. wp; [|done|done].
    assert (40 ≤ x0 ≤ len packet) as Hend.
    { unfold checked_add in Hx0. destruct (_ <=? usize_max); [|done]. cbn in Hx0.
      destruct (_ <=? len packet) eqn:Hle; [|done].
      apply Z.leb_le in Hle. simplify_eq. lia. }
    eapply satisfies_mono; [..|apply ipv6UdpLoop_spec]; [|done|lia|lia|unfold len in *; lia].
    intros [o|] Hw; [|by wp]. unfold readIpv6. wp. lia.
  - by wp.
Qed.

Lemma parseUdp_spec :
  Satisfies (parseUdpPacket packet)
    (λ r, match r with
          | Some o => 28 ≤ op_payloadOffset o ∧ op_payloadOffset o ≤ op_payloadEnd o ∧
                      op_payloadEnd o ≤ len packet ∧
                      0 ≤ op_sourcePort o ≤ u16_max ∧ 0 ≤ op_destinationPort o ≤ u16_max
          | None => True
          end) (λ _, True).
Proof using Hp.
  unfold parseUdpPacket. apply satisfies_bind.
  eapply satisfies_mono; [..|apply parseUdpHeaders_spec]; [|done].
  intros [[[[src dst] udp] ipEnd]|] Hh; [|by wp]. wp; [|done].
  apply satisfies_readU16; [done|lia|lia|]. intros ulen Hu. wp; [|done].
  destruct Hg0 as [H8 Hend]. assert (udp + ulen ≤ ipEnd) as Hin.
  { unfold checked_add in Hend. destruct (_ <=? usize_max); [|done]. by apply Z.leb_le in Hend. }
  apply satisfies_readU16; [done|lia|lia|]. intros sp Hsp. wp.
  apply satisfies_readU16; [done|lia|lia|]. intros dp Hdp. wp. cbn. lia.
Qed.
End parsers.

(** ** The four writes of a rewrite *)

(** Width of the address fields of a parsed packet. *)
Definition addressWidth (t : ParsedTcpPacket) : Z :=
  pt_destinationAddressOffset t - pt_sourceAddressOffset t.

(** The bytes a rewrite of [t] may change. *)
Definition rewrittenByte (t : ParsedTcpPacket) (i : Z) : Prop :=
  pt_sourceAddressOffset t ≤ i < pt_destinationAddressOffset t + addressWidth t ∨
  pt_tcpOffset t ≤ i < pt_tcpOffset t + 4.

(** Same family as the packet. *)
Definition fits (t : ParsedTcpPacket) (a : IpAddr) : Prop := len (octets a) = addressWidth t.

Section writes.
Context {packet : list Z} {t : ParsedTcpPacket} (Hp : bytes_ok packet) (Hw : WellParsed packet t).

Lemma writePort_spec l off port (P : list Z → Prop) Q :
  0 ≤ off → off + 2 ≤ len l → P (splice l off (be_bytes 2 port)) →
  Satisfies (writePort l off port) P Q.
Proof.
  intros. unfold writePort. apply satisfies_write_slice; [done| |done].
  rewrite len_be_bytes. lia.
Qed.

(** Whatever addresses are written, no write is out of range. *)
Lemma rewriteAddresses_spec src dst sp dp :
  Satisfies (rewriteAddresses packet t src dst sp dp)
    (λ l, len l = len packet ∧ bytes_ok l ∧
          l = splice (splice (splice (splice packet (pt_sourceAddressOffset t) (octets src))
                (pt_destinationAddressOffset t) (octets dst)) (pt_tcpOffset t) (be_bytes 2 sp))
                (pt_tcpOffset t + 2) (be_bytes 2 dp)) (λ _, False).
Proof using Hp Hw.
  destruct Hw as [Ho Ht Hl].
  assert (len (octets src) ≤ 16 ∧ len (octets dst) ≤ 16) as [Hs Hd].
  { rewrite !len_octets. repeat case_match; lia. }
  unfold rewriteAddresses, writeIpAddress.
  apply satisfies_bind, satisfies_write_slice; [lia|lia|].
  assert (len (splice packet (pt_sourceAddressOffset t) (octets src)) = len packet) as E1
    by (apply len_splice; lia).
  apply satisfies_bind, satisfies_write_slice; [lia|lia|].
  set (l1 := splice packet _ _) in *.
  assert (len (splice l1 (pt_destinationAddressOffset t) (octets dst)) = len packet) as E2
    by (rewrite len_splice; lia).
  set (l2 := splice l1 _ _) in *.
  apply satisfies_bind, writePort_spec; [lia|lia|].
  assert (len (splice l2 (pt_tcpOffset t) (be_bytes 2 sp)) = len packet) as E3
    by (rewrite len_splice; rewrite ?len_be_bytes; lia).
  set (l3 := splice l2 _ _) in *.
  apply writePort_spec; [lia|lia|]. split; [rewrite len_splice; rewrite ?len_be_bytes; lia|].
  split; [|done].
  subst l3 l2 l1. auto 10 using forall_splice, octets_ok, be_bytes_ok.
Qed.

(** What the four writes leave, for addresses of the packet's own family. *)
Lemma rewriteAddresses_fields src dst sp dp l :
  fits t src → fits t dst → rewriteAddresses packet t src dst sp dp = Ok l →
  len l = len packet ∧ bytes_ok l ∧
  slice l (pt_sourceAddressOffset t) (pt_destinationAddressOffset t) = octets src ∧
  slice l (pt_destinationAddressOffset t) (pt_destinationAddressOffset t + addressWidth t) = octets dst ∧
  slice l (pt_tcpOffset t) (pt_tcpOffset t + 2) = be_bytes 2 sp ∧
  slice l (pt_tcpOffset t + 2) (pt_tcpOffset t + 4) = be_bytes 2 dp ∧
  ∀ i, ¬ rewrittenByte t i → get l i = get packet i.
Proof using Hp Hw.
  intros Hs Hd Heq. pose proof (rewriteAddresses_spec src dst sp dp) as Hspec.
  rewrite Heq in Hspec. destruct Hspec as (Hlen & Hb & ->). clear Heq.
  unfold fits in Hs, Hd. split; [done|]. split; [done|].
  assert (len (be_bytes 2 sp) = 2 ∧ len (be_bytes 2 dp) = 2) as [Lsp Ldp] by (by rewrite !len_be_bytes).
  assert (0 ≤ pt_sourceAddressOffset t ∧ 0 < addressWidth t ∧
    pt_destinationAddressOffset t = pt_sourceAddressOffset t + addressWidth t ∧
    pt_destinationAddressOffset t + addressWidth t ≤ pt_tcpOffset t ∧
    pt_tcpOffset t + 20 ≤ len packet) as (G1 & G2 & G3 & G4 & G5).
  { unfold addressWidth. destruct Hw as [Ho Ht Hl]. lia. }
  set (l1 := splice packet _ _). assert (len l1 = len packet) as E1 by (apply len_splice; lia).
  set (l2 := splice l1 _ _). assert (len l2 = len packet) as E2 by (unfold l2; rewrite len_splice; lia).
  set (l3 := splice l2 _ _). assert (len l3 = len packet) as E3 by (unfold l3; rewrite len_splice; lia).
  split; [|split; [|split; [|split]]].
  - rewrite slice_splice_other by lia. unfold l3. rewrite slice_splice_other by lia.
    unfold l2. rewrite slice_splice_other by lia. unfold l1.
    replace (pt_destinationAddressOffset t) with (pt_sourceAddressOffset t + len (octets src)) by lia.
    apply slice_splice_same; lia.
  - rewrite slice_splice_other by lia. unfold l3. rewrite slice_splice_other by lia.
    unfold l2. rewrite <-Hd. apply slice_splice_same; lia.
  - rewrite slice_splice_other by lia. unfold l3. rewrite <-Lsp. apply slice_splice_same; lia.
  - replace (pt_tcpOffset t + 4) with (pt_tcpOffset t + 2 + len (be_bytes 2 dp)) by lia.
    apply slice_splice_same; lia.
  - unfold rewrittenByte. intros i Hi. rewrite get_splice_out by lia. unfold l3.
    rewrite get_splice_out by lia. unfold l2. rewrite get_splice_out by lia.
    unfold l1. apply get_splice_out; lia.
Qed.
End writes.

(** ** A rewritten packet parses as before, with the new addresses *)
Lemma idx_ext {E A} (l1 l2 : list A) i : get l1 i = get l2 i → idx (E:=E) l1 i = idx l2 i.
Proof. unfold idx. by intros ->. Qed.

Lemma sub_slice_ext {E A} (l1 l2 : list A) a b :
  len l1 = len l2 → (∀ i, a ≤ i < b → get l1 i = get l2 i) →
  sub_slice (E:=E) l1 a b = sub_slice l2 a b.
Proof.
  intros Hl Hg. unfold sub_slice, get_range, in_range. rewrite Hl.
  destruct (_ && _) eqn:Hr; [|done]. apply andb_true_iff in Hr as [[Ha _]%andb_true_iff _].
  apply Z.leb_le in Ha. do 2 f_equal. by apply slice_ext.
Qed.

Lemma readU16_ext l1 l2 off :
  get l1 off = get l2 off → get l1 (off + 1) = get l2 (off + 1) → readU16 l1 off = readU16 l2 off.
Proof. intros H1 H2. unfold readU16. by rewrite (idx_ext _ _ _ H1), (idx_ext _ _ _ H2). Qed.

Lemma readU16_slice l off : len (slice l off (off + 2)) = 2 → 0 ≤ off → off + 2 ≤ len l →
  readU16 l off = Ok (be_value (slice l off (off + 2))).
Proof.
  intros Hlen Hoff Hl. unfold readU16.
  destruct (get_is_Some l off ltac:(lia)) as [x Hx].
  destruct (get_is_Some l (off + 1) ltac:(lia)) as [y Hy].
  rewrite (idx_eq _ _ _ Hx). cbn. rewrite (idx_eq _ _ _ Hy). cbn. f_equal.
  assert (slice l off (off + 2) = [x; y]) as ->; [|done].
  apply get_ext. intros i Hi. destruct (decide (i < 2)) as [Hlt|].
  - rewrite get_slice by lia. assert (i = 0 ∨ i = 1) as [-> | ->] by lia.
    + by rewrite Z.add_0_r, Hx.
    + by rewrite Hy.
  - rewrite !get_None; [done|unfold len; cbn; lia|lia].
Qed.

(** [inv_bind H] peels the binds off a computation that ended in [Ok]. *)
Ltac inv_bind H :=
  repeat (let x := fresh "v" in let Hx := fresh "Hv" in
    apply bind_Ok_inv in H as (x & Hx & H)).

Lemma readU16_inv l off v :
  readU16 l off = Ok v → is_Some (get l off) ∧ is_Some (get l (off + 1)).
Proof.
  unfold readU16, idx. destruct (get l off); cbn; [|done]. destruct (get l (off + 1)); cbn; [eauto|done].
Qed.

Section reparse.
Context {p l : list Z} (Hp : bytes_ok p) (Hlen : len l = len p).

Lemma ensure_ext off n : ensureExtensionBytes l off n = ensureExtensionBytes p off n.
Proof using Hlen. unfold ensureExtensionBytes. by rewrite Hlen. Qed.

Lemma ipv6TcpLoop_mono src dst ob fuel next off fk o fk' :
  ipv6TcpLoop fuel p src dst ob next off fk = Ok (WalkTcp o fk') → off ≤ o.
Proof using Hp.
  revert next off fk. induction fuel as [|fuel IH]; intros next off fk; cbn [ipv6TcpLoop]; [done|].
  case_if H6; [by intros [= <- _]|]. cbn zeta.
  case_if Hopt; [|case_if H44; [|case_if H51; [|done]]]; intros H; inv_bind H.
  - apply IH in H. unfold idx in Hv1. destruct (get p (off + 1)) eqn:Hg; [|done].
    apply (get_byte _ _ _ Hp) in Hg. injection Hv1 as ->. lia.
  - destruct (negb _); [done|]. inv_bind H. apply IH in H. lia.
  - apply IH in H. unfold idx in Hv1. destruct (get p (off + 1)) eqn:Hg; [|done].
    apply (get_byte _ _ _ Hp) in Hg. injection Hv1 as ->. lia.
Qed.

(** The walk reads only extension headers, which a rewrite leaves alone. *)
Lemma ipv6TcpLoop_reparse src dst src' dst' ob fuel next off fk fk2 o fk' :
  ipv6TcpLoop fuel p src dst ob next off fk = Ok (WalkTcp o fk') →
  (∀ i, off ≤ i < o → get l i = get p i) → (fk = None ↔ fk2 = None) →
  ∃ fk2', ipv6TcpLoop fuel l src' dst' ob next off fk2 = Ok (WalkTcp o fk2') ∧
          (fk' = None ↔ fk2' = None).
Proof using Hp Hlen.
  revert next off fk fk2.
  induction fuel as [|fuel IH]; intros next off fk fk2; cbn [ipv6TcpLoop]; [done|].
  case_if H6; [intros [= <- <-]; eauto|]. cbn zeta. rewrite !ensure_ext, Hlen.
  case_if Hopt; [|case_if H44; [|case_if H51; [|done]]]; intros H Hext Hfk; inv_bind H.
  - pose proof (ipv6TcpLoop_mono _ _ _ _ _ _ _ _ _ H) as Hm. unfold idx in Hv1.
    destruct (get p (off + 1)) eqn:Hg; [|done].
    pose proof (get_byte _ _ _ Hp Hg). injection Hv1 as ->.
    rewrite Hv; cbn. rewrite (idx_ext l p off) by (apply Hext; lia). rewrite Hv0. cbn.
    rewrite (idx_ext l p (off + 1)) by (apply Hext; lia). unfold idx. rewrite Hg. cbn. rewrite Hv2. cbn.
    apply (IH _ _ fk); [done|intros; apply Hext; lia|done].
  - destruct (negb _) eqn:Hlater in H; [done|]. inv_bind H.
    pose proof (ipv6TcpLoop_mono _ _ _ _ _ _ _ _ _ H) as Hm.
    rewrite Hv; cbn. rewrite (readU16_ext l p) by (apply Hext; lia). rewrite Hv0. cbn.
    rewrite (sub_slice_ext l p) by (done || intros; apply Hext; lia). rewrite Hv1. cbn.
    rewrite (idx_ext l p off) by (apply Hext; lia). rewrite Hv2. cbn. rewrite Hlater, Hv3. cbn.
    apply (IH _ _ _ _ H); [intros; apply Hext; lia|]. case_if Hmf; naive_solver.
  - pose proof (ipv6TcpLoop_mono _ _ _ _ _ _ _ _ _ H) as Hm. unfold idx in Hv1.
    destruct (get p (off + 1)) eqn:Hg; [|done].
    pose proof (get_byte _ _ _ Hp Hg). injection Hv1 as ->.
    rewrite Hv; cbn. rewrite (idx_ext l p off) by (apply Hext; lia). rewrite Hv0. cbn.
    rewrite (idx_ext l p (off + 1)) by (apply Hext; lia). unfold idx. rewrite Hg. cbn. rewrite Hv2. cbn.
    apply (IH _ _ fk); [done|intros; apply Hext; lia|done].
Qed.
End reparse.

Lemma octets_value a : ip_ok a → (if is_ipv4 a then V4 else V6) (be_value (octets a)) = a.
Proof.
  destruct a; cbn [is_ipv4 ip_ok]; intros H; f_equal.
  - by apply octets_v4_value.
  - by apply octets_v6_value.
Qed.

Lemma reparse_ipv4 p l ob t src dst :
  bytes_ok p → len l = len p →
  parseIpv4TcpPacket p ob = Ok (Tcp t) → pt_fragmentKey t = None →
  (∀ i, ¬ (12 ≤ i < 20 ∨ pt_tcpOffset t ≤ i < pt_tcpOffset t + 4) → get l i = get p i) →
  slice l 12 16 = octets (V4 src) → slice l 16 20 = octets (V4 dst) →
  ip_ok (V4 src) → ip_ok (V4 dst) →
  parseIpv4TcpPacket l ob = Ok (Tcp {| pt_sourceAddress := V4 src; pt_destinationAddress := V4 dst;
    pt_sourceAddressOffset := 12; pt_destinationAddressOffset := 16;
    pt_tcpOffset := pt_tcpOffset t; pt_fragmentKey := None |}).
Proof.
  intros Hp Hlen Hparse Hnone Hext Hs Hd Hsrc Hdst.
  pose proof (satisfies_ok_elim _ _ _ _ (parseIpv4_spec Hp ob) Hparse) as [_ Htcp Hl]. cbn in Htcp, Hl.
  revert Hparse. unfold parseIpv4TcpPacket, readIpv4.
  assert (ipv4HeaderLength l = ipv4HeaderLength p) as ->.
  { unfold ipv4HeaderLength. by rewrite Hlen, (idx_ext l p 0) by (apply Hext; lia). }
  rewrite (idx_ext l p 9) by (apply Hext; lia).
  rewrite (readU16_ext l p 6), (readU16_ext l p 4) by (apply Hext; lia). rewrite Hlen.
  intros H. inv_bind H.
  rewrite Hv. cbn. rewrite Hv0. cbn. rewrite Hv1. cbn. rewrite Hv2. cbn.
  rewrite !sub_slice_eq by lia. cbn. rewrite Hv5. cbn.
  destruct (negb (Z.land v2 8191 =? 0)); [done|]. inv_bind H. rewrite Hv6. cbn.
  injection H as <-. cbn [pt_fragmentKey pt_tcpOffset] in *. destruct (negb (Z.land v2 8192 =? 0)); [done|].
  change (12 + 4) with 16. change (16 + 4) with 20.
  rewrite Hs, Hd. do 3 f_equal; f_equal; [exact (octets_v4_value src Hsrc)|exact (octets_v4_value dst Hdst)].
Qed.

Lemma reparse_ipv6 p l ob t src dst :
  bytes_ok p → len l = len p →
  parseIpv6TcpPacket p ob = Ok (Tcp t) → pt_fragmentKey t = None →
  (∀ i, ¬ (8 ≤ i < 40 ∨ pt_tcpOffset t ≤ i < pt_tcpOffset t + 4) → get l i = get p i) →
  slice l 8 24 = octets (V6 src) → slice l 24 40 = octets (V6 dst) →
  ip_ok (V6 src) → ip_ok (V6 dst) →
  parseIpv6TcpPacket l ob = Ok (Tcp {| pt_sourceAddress := V6 src; pt_destinationAddress := V6 dst;
    pt_sourceAddressOffset := 8; pt_destinationAddressOffset := 24;
    pt_tcpOffset := pt_tcpOffset t; pt_fragmentKey := None |}).
Proof.
  intros Hp Hlen Hparse Hnone Hext Hs Hd Hsrc Hdst.
  pose proof (satisfies_ok_elim _ _ _ _ (parseIpv6_spec Hp ob) Hparse) as [_ Htcp Hl]. cbn in Htcp, Hl.
  revert Hparse. unfold parseIpv6TcpPacket, readIpv6.
  assert (length l = length p) as -> by (unfold len in Hlen; lia).
  rewrite Hlen. intros H. inv_bind H.
  rewrite Hv. cbn. apply check_Ok_inv, Z.leb_le in Hv.
  destruct v3 as [o fk|]; [|done]. inv_bind H. injection H as <-. cbn [pt_fragmentKey pt_tcpOffset] in *.
  rewrite (idx_ext l p 6) by (apply Hext; lia). rewrite Hv0. cbn.
  rewrite !sub_slice_eq by lia. cbn.
  change (8 + 16) with 24. change (24 + 16) with 40.
  rewrite Hs, Hd, octets_v6_value, octets_v6_value by done.
  destruct (ipv6TcpLoop_reparse Hp Hlen _ _ (V6 src) (V6 dst) _ _ _ _ _ None _ _ Hv3) as (fk2 & -> & Hfk);
    [intros; apply Hext; lia|done|].
  cbn. rewrite Hv4. cbn. rewrite (proj1 Hfk Hnone). done.
Qed.

(** ** Facts on a parsed packet *)
Section parsed.
Context {p : list Z} {t : ParsedTcpPacket} {ob : bool}.
Hypothesis Hp : bytes_ok p.
Hypothesis Ht : parsePacket p ob = Ok (Tcp t).

Lemma parsed_wellParsed : WellParsed p t.
Proof using Hp Ht. by apply (parsePacket_wellParsed Hp ob). Qed.

Lemma slice_value_ok a n : 0 ≤ a → 0 ≤ n → a + n ≤ len p → 0 ≤ be_value (slice p a (a + n)) < 256 ^ n.
Proof using Hp.
  intros. pose proof (be_value_bound (slice p a (a + n)) (forall_slice _ _ _ _ Hp)) as Hb.
  rewrite len_slice in Hb by lia. by replace (a + n - a) with n in Hb by lia.
Qed.

Lemma parsed_ip_ok : ip_ok (pt_sourceAddress t) ∧ ip_ok (pt_destinationAddress t).
Proof using Hp Ht.
  destruct parsed_wellParsed as [[(_ & _ & -> & ->)|(_ & _ & -> & -> & _)] H1 H2]; cbn [ip_ok].
  - split; [apply (slice_value_ok 12 4)|apply (slice_value_ok 16 4)]; lia.
  - split; [apply (slice_value_ok 8 16)|apply (slice_value_ok 24 16)]; lia.
Qed.

(** The addresses of the packet's family are those that fit its fields. *)
Lemma fits_family a :
  is_ipv4 a = is_ipv4 (pt_sourceAddress t) → fits t a.
Proof using Hp Ht.
  unfold fits, addressWidth. rewrite len_octets. intros ->.
  destruct parsed_wellParsed as [[(-> & -> & -> & _)|(-> & -> & -> & _ & _)] _ _]; done.
Qed.

Lemma parsed_same_family : is_ipv4 (pt_destinationAddress t) = is_ipv4 (pt_sourceAddress t).
Proof using Hp Ht.
  by destruct parsed_wellParsed as [[(_ & _ & -> & ->)|(_ & _ & -> & -> & _)] _ _].
Qed.

Lemma parsed_shape :
  (parseIpv4TcpPacket p ob = Ok (Tcp t) ∧ packetVersion p = Ok 4) ∨
  (parseIpv6TcpPacket p ob = Ok (Tcp t) ∧ packetVersion p = Ok 6).
Proof using Ht.
  revert Ht. unfold parsePacket. destruct (packetVersion p) as [v| |]; cbn; [|done..].
  case_if H4; [apply Z.eqb_eq in H4 as ->; by left|].
  case_if H6; [apply Z.eqb_eq in H6 as ->; by right|done].
Qed.

Lemma tcpPort_read l off port :
  0 ≤ port ≤ u16_max → 0 ≤ off → off + 2 ≤ len l →
  slice l off (off + 2) = be_bytes 2 port → readPort l off = Ok port.
Proof.
  intros Hport Hoff Hl Hs. unfold readPort. rewrite readU16_slice by (rewrite ?Hs, ?len_be_bytes; done || lia).
  rewrite Hs. f_equal. apply be_value_bytes. unfold u16_max in Hport. lia.
Qed.

(** After a rewrite the packet has the new source and destination. *)
Lemma rewritten_parse src dst sp dp l :
  pt_fragmentKey t = None →
  is_ipv4 src = is_ipv4 (pt_sourceAddress t) → is_ipv4 dst = is_ipv4 (pt_sourceAddress t) →
  ip_ok src → ip_ok dst → 0 ≤ sp ≤ u16_max → 0 ≤ dp ≤ u16_max →
  rewriteAddresses p t src dst sp dp = Ok l →
  ∃ t', parsePacket l ob = Ok (Tcp t') ∧ pt_fragmentKey t' = None ∧
    pt_sourceAddress t' = src ∧ pt_destinationAddress t' = dst ∧ pt_tcpOffset t' = pt_tcpOffset t ∧
    readPort l (pt_tcpOffset t') = Ok sp ∧ readPort l (pt_tcpOffset t' + 2) = Ok dp.
Proof using Hp Ht.
  intros Hnone Hfs Hfd Hos Hod Hsp Hdp Hrw.
  pose proof parsed_wellParsed as Hw.
  destruct (rewriteAddresses_fields Hp Hw _ _ _ _ _ (fits_family src Hfs) (fits_family dst Hfd) Hrw)
    as (Hlen & Hb & Hs & Hd & Hpa & Hpb & Hext).
  pose proof (wp_tcp _ _ Hw) as Htcp. pose proof (wp_len _ _ Hw) as Hl.
  assert (readPort l (pt_tcpOffset t) = Ok sp) as R1 by (apply tcpPort_read; done || lia).
  assert (readPort l (pt_tcpOffset t + 2) = Ok dp) as R2.
  { apply tcpPort_read; [done|lia|lia|]. by replace (pt_tcpOffset t + 2 + 2) with (pt_tcpOffset t + 4) by lia. }
  assert (get l 0 = get p 0) as H0.
  { apply Hext. unfold rewrittenByte, addressWidth. destruct Hw as [Ho _ _]. lia. }
  assert (packetVersion l = packetVersion p) as Hver by (unfold packetVersion; by rewrite H0).
  destruct parsed_shape as [[Hparse Hv]|[Hparse Hv]].
  - pose proof (satisfies_ok_elim _ _ _ _ (parseIpv4_spec Hp ob) Hparse) as Hw4.
    destruct (wp_offsets _ _ Hw) as [(E1 & E2 & E3 & E4)|(E1 & E2 & E3 & E4 & E5)].
    2: { exfalso. revert Hparse. unfold parseIpv4TcpPacket. intros H. inv_bind H.
         destruct (negb _) in H; [done|]. inv_bind H. injection H as <-. done. }
    rewrite E3 in Hfs, Hfd. destruct src as [src|], dst as [dst|]; [|done..].
    unfold rewrittenByte, addressWidth in *. rewrite E1, E2 in *.
    change (16 + (16 - 12)) with 20 in *.
    assert (parsePacket l ob = Ok (Tcp {| pt_sourceAddress := V4 src;
      pt_destinationAddress := V4 dst; pt_sourceAddressOffset := 12;
      pt_destinationAddressOffset := 16; pt_tcpOffset := pt_tcpOffset t;
      pt_fragmentKey := None |})) as Hl'.
    { unfold parsePacket. rewrite Hver, Hv. cbn.
      apply (reparse_ipv4 p l ob t src dst Hp Hlen Hparse Hnone); done. }
    eexists. split; [exact Hl'|]. cbn. auto 10.
  - destruct (wp_offsets _ _ Hw) as [(E1 & E2 & E3 & E4)|(E1 & E2 & E3 & E4 & E5)].
    { exfalso. revert Hparse. unfold parseIpv6TcpPacket. intros H. inv_bind H.
      destruct v3; [|done]. inv_bind H. injection H as <-. done. }
    rewrite E3 in Hfs, Hfd. destruct src as [|src], dst as [|dst]; [done..|].
    unfold rewrittenByte, addressWidth in *. rewrite E1, E2 in *.
    change (24 + (24 - 8)) with 40 in *.
    assert (parsePacket l ob = Ok (Tcp {| pt_sourceAddress := V6 src;
      pt_destinationAddress := V6 dst; pt_sourceAddressOffset := 8;
      pt_destinationAddressOffset := 24; pt_tcpOffset := pt_tcpOffset t;
      pt_fragmentKey := None |})) as Hl'.
    { unfold parsePacket. rewrite Hver, Hv. cbn.
      apply (reparse_ipv6 p l ob t src dst Hp Hlen Hparse Hnone); done. }
    eexists. split; [exact Hl'|]. cbn. auto 10.
Qed.
End parsed.

(** ** Theorems *)

(** Rewriting is total.  For every sequence of bytes, every table and every
    interleaving, [rewriteTcpPacket] ends without panic, and the packet it leaves
    has the same length. *)
Theorem rewrite_total clock env p outbound proxyPort s :
  bytes_ok p →
  Satisfies (rewriteTcpPacket clock env p outbound proxyPort s)
    (λ '(p', _, _), len p' = len p ∧ bytes_ok p') (λ _, True).
Proof.
  intros Hp. unfold rewriteTcpPacket. case_if Hob; [by wp|].
  apply satisfies_bind. eapply satisfies_mono; [..|apply (parsePacket_spec Hp)]; [|done].
  intros [t|key] Hw; [|by wp].
  pose proof (wp_tcp _ _ Hw). pose proof (wp_len _ _ Hw).
  apply satisfies_bind, satisfies_readU16; [done|lia|lia|]. intros sp Hsp.
  apply satisfies_bind, satisfies_readU16; [done|lia|lia|]. intros dp Hdp.
  assert (∀ src dst a b (s : FlowState) (d : PacketDirection), Satisfies (l ← rewriteAddresses p t src dst a b; Ok (l, s, d))
    (λ '(p', _, _), len p' = len p ∧ bytes_ok p') (λ _, True)) as Hrw.
  { intros. apply satisfies_bind. eapply satisfies_mono; [..|apply (rewriteAddresses_spec Hp Hw)].
    - intros l (? & ? & _). by wp.
    - done. }
  repeat case_match; try apply Hrw; by wp.
Qed.

(** The packet a call leaves, on each branch. *)
Lemma rewrite_cases clock env p proxyPort s p' s' d :
  rewriteTcpPacket clock env p true proxyPort s = Ok (p', s', d) →
  (p' = p ∧ (d = Bypass ∨ ∃ target, d = Blocked target)) ∨
  ∃ t sp dp, parsePacket p true = Ok (Tcp t) ∧ pt_fragmentKey t = None ∧
    readPort p (pt_tcpOffset t) = Ok sp ∧ readPort p (pt_tcpOffset t + 2) = Ok dp ∧
    ((∃ target, sp = proxyPort ∧ s' = s ∧
        reflectedTarget (pt_sourceAddress t) dp (pt_destinationAddress t) s = Some target ∧
        d = Restored (rt_original target) (rt_originalInterface target) ∧
        rewriteAddresses p t (sock_ip (ot_address (rt_original target)))
          (rt_originalLocalAddress target) (sock_port (ot_address (rt_original target)))
          (rt_originalLocalPort target) = Ok p') ∨
     (∃ target, outboundTarget (pt_sourceAddress t) sp (pt_destinationAddress t) dp (env 2%nat s)
          = (s', Some target) ∧
        d = Redirected (rt_original target) (rt_proxyAddress target) (rt_reflectedPort target) ∧
        rewriteAddresses p t (rt_proxyAddress target) (rt_proxyAddress target)
          (rt_reflectedPort target) proxyPort = Ok p')).
Proof.
  unfold rewriteTcpPacket. cbn [negb].
  destruct (parsePacket p true) as [[t|key]| |] eqn:Ht; cbn [mbind outcome_bind]; [|..|done|done].
  2: { destruct (fragmentLookupAt _ _ _) as [s1 []]; intros [= <- <- <-]; left; eauto. }
  destruct (readPort p (pt_tcpOffset t)) as [sp| |] eqn:Hsp; cbn [mbind outcome_bind]; [|done..].
  destruct (readPort p (pt_tcpOffset t + 2)) as [dp| |] eqn:Hdp; cbn [mbind outcome_bind]; [|done..].
  destruct (if sp =? proxyPort then _ else None) as [target|] eqn:Hrefl.
  - destruct (pt_fragmentKey t) eqn:Hfk.
    { case_let s1 r1. intros [= <- <- <-]. left. eauto. }
    intros H. inv_bind H. injection H as <- <- <-. right. exists t, sp, dp.
    do 4 (split; [done|]). left. exists target.
    destruct (sp =? proxyPort) eqn:Heq; [|done]. apply Z.eqb_eq in Heq. done.
  - destruct (outboundTarget _ _ _ _ _) as [s1 [target|]] eqn:Hout.
    + destruct (pt_fragmentKey t) eqn:Hfk.
      { case_let s2 r2. intros [= <- <- <-]. left. eauto. }
      intros H. inv_bind H. injection H as <- <- <-. right. exists t, sp, dp.
      do 4 (split; [done|]). right. by exists target.
    + destruct (pt_fragmentKey t) eqn:Hfk.
      * case_let s2 r2. intros [= <- <- <-]. left. eauto.
      * intros [= <- <- <-]. left. eauto.
Qed.

(** A packet whose addresses are not IPv4 addresses written as IPv6. *)
Definition unmapped (t : ParsedTcpPacket) : Prop :=
  normalizeIpAddress (pt_sourceAddress t) = pt_sourceAddress t ∧
  normalizeIpAddress (pt_destinationAddress t) = pt_destinationAddress t.

(** A port read from a packet is a 16-bit value. *)
Lemma readPort_range {p} (Hp : bytes_ok p) off v : readPort p off = Ok v → 0 ≤ v ≤ u16_max.
Proof.
  unfold readPort, readU16, idx.
  destruct (get p off) eqn:G1; [|done]. cbn. destruct (get p (off + 1)) eqn:G2; [|done]. cbn.
  intros [= <-]. apply (get_byte _ _ _ Hp) in G1, G2. unfold u16_max. lia.
Qed.

(** *** Against the interface of the flow table *)

Section Nat.
Context {Inv : FlowState → Prop} `{!NatTable Inv}.

Lemma frame_nat clock env p proxyPort s p' s' d :
  bytes_ok p → Inv s → (∀ i s, Inv s → Inv (env i s)) →
  rewriteTcpPacket clock env p true proxyPort s = Ok (p', s', d) →
  (p' = p ∧ (d = Bypass ∨ ∃ target, d = Blocked target)) ∨
  ∃ t, parsePacket p true = Ok (Tcp t) ∧ pt_fragmentKey t = None ∧
    (unmapped t → ∀ i, ¬ rewrittenByte t i → get p' i = get p i).
Proof.
  intros Hp HT Henv [H|(t & sp & dp & Ht & Hfk & _ & _ & Hcase)]%rewrite_cases; [by left|].
  right. exists t. split; [done|]. split; [done|]. intros [Hus Hud].
  destruct Hcase as [(target & _ & _ & Hr & _ & Hw)|(target & Ho & _ & Hw)].
  - destruct (nat_reflected _ _ _ _ _ HT Hr) as [F1 F2]. rewrite Hus in F1, F2.
    apply (rewriteAddresses_fields Hp (parsed_wellParsed Hp Ht) _ _ _ _ _
             (fits_family Hp Ht _ F1) (fits_family Hp Ht _ F2) Hw).
  - destruct (nat_outbound _ _ _ _ _ _ _ (Henv _ _ HT) Ho) as [Hrd _].
    pose proof (rd_family _ _ _ _ _ Hrd) as F. rewrite Hus in F.
    apply (rewriteAddresses_fields Hp (parsed_wellParsed Hp Ht) _ _ _ _ _
             (fits_family Hp Ht _ F) (fits_family Hp Ht _ F) Hw).
Qed.

(** A redirecting call asked the table about the packet's own five-tuple. *)
Lemma redirected_nat clock env p proxyPort s p' s' original proxyAddress reflectedPort t sp dp :
  bytes_ok p → Inv s → (∀ i s, Inv s → Inv (env i s)) →
  parsePacket p true = Ok (Tcp t) → unmapped t →
  readPort p (pt_tcpOffset t) = Ok sp → readPort p (pt_tcpOffset t + 2) = Ok dp →
  rewriteTcpPacket clock env p true proxyPort s
    = Ok (p', s', Redirected original proxyAddress reflectedPort) →
  ∃ target, original = rt_original target ∧ proxyAddress = rt_proxyAddress target ∧
    reflectedPort = rt_reflectedPort target ∧ pt_fragmentKey t = None ∧
    Redirects (pt_sourceAddress t) sp (pt_destinationAddress t) dp target ∧
    reflectedTarget proxyAddress reflectedPort proxyAddress s' = Some target ∧
    rewriteAddresses p t proxyAddress proxyAddress reflectedPort proxyPort = Ok p'.
Proof.
  intros Hp HT Henv Ht Hun Hsp Hdp Hrw.
  apply rewrite_cases in Hrw as [[_ [?|[? ?]]]|(t0 & sp0 & dp0 & Ht0 & Hfk & Hsp0 & Hdp0 & Hcase)];
    try done.
  rewrite Ht in Ht0. injection Ht0 as <-. rewrite Hsp in Hsp0. rewrite Hdp in Hdp0.
  injection Hsp0 as <-. injection Hdp0 as <-.
  destruct Hcase as [(target & _ & _ & _ & ? & _)|(target & Ho & [= -> -> ->] & Hw)]; [done|].
  destruct (nat_outbound _ _ _ _ _ _ _ (Henv _ _ HT) Ho) as [Hrd Hrefl].
  exists target. by split_and!.
Qed.

Lemma proxy_nat clock env p proxyPort s p' s' original proxyAddress reflectedPort t :
  bytes_ok p → Inv s → (∀ i s, Inv s → Inv (env i s)) →
  parsePacket p true = Ok (Tcp t) → unmapped t → ip_ok proxyAddress → 0 ≤ proxyPort ≤ u16_max →
  rewriteTcpPacket clock env p true proxyPort s
    = Ok (p', s', Redirected original proxyAddress reflectedPort) →
  ∃ t', parsePacket p' true = Ok (Tcp t') ∧
    pt_sourceAddress t' = proxyAddress ∧ pt_destinationAddress t' = proxyAddress ∧
    readPort p' (pt_tcpOffset t') = Ok reflectedPort ∧
    readPort p' (pt_tcpOffset t' + 2) = Ok proxyPort.
Proof.
  intros Hp HT Henv Ht Hun Hip Hport Hrw.
  pose proof Hrw as [[_ [?|[? ?]]]|(t0 & sp & dp & Ht0 & _ & Hsp & Hdp & _)]%rewrite_cases; try done.
  rewrite Ht in Ht0. injection Ht0 as <-.
  destruct (redirected_nat _ _ _ _ _ _ _ _ _ _ _ _ _ Hp HT Henv Ht Hun Hsp Hdp Hrw)
    as (target & _ & -> & -> & Hfk & [F _ Hrp _ _ _ _] & _ & Hw).
  destruct Hun as [Hus _]. rewrite Hus in F.
  assert (0 ≤ rt_reflectedPort target ≤ u16_max) as Hrp0 by lia.
  destruct (rewritten_parse Hp Ht _ _ _ _ _ Hfk F F Hip Hip Hrp0 Hport Hw)
    as (t' & H1 & _ & H2 & H3 & _ & H4 & H5). eauto 10.
Qed.

Lemma restore_nat clock env clock' env' p q proxyPort s p' s' s2
    original proxyAddress reflectedPort t u sp dp :
  bytes_ok p → bytes_ok q → Inv s → (∀ i s, Inv s → Inv (env i s)) →
  parsePacket p true = Ok (Tcp t) → unmapped t →
  readPort p (pt_tcpOffset t) = Ok sp → readPort p (pt_tcpOffset t + 2) = Ok dp →
  rewriteTcpPacket clock env p true proxyPort s
    = Ok (p', s', Redirected original proxyAddress reflectedPort) →
  parsePacket q true = Ok (Tcp u) → pt_fragmentKey u = None →
  pt_sourceAddress u = proxyAddress → pt_destinationAddress u = proxyAddress →
  readPort q (pt_tcpOffset u) = Ok proxyPort → readPort q (pt_tcpOffset u + 2) = Ok reflectedPort →
  reflectedTarget proxyAddress reflectedPort proxyAddress s2
    = reflectedTarget proxyAddress reflectedPort proxyAddress s' →
  ∃ q' u' interface,
    rewriteTcpPacket clock' env' q true proxyPort s2 = Ok (q', s2, Restored original interface) ∧
    parsePacket q' true = Ok (Tcp u') ∧
    pt_sourceAddress u' = pt_destinationAddress t ∧ pt_destinationAddress u' = pt_sourceAddress t ∧
    readPort q' (pt_tcpOffset u') = Ok dp ∧ readPort q' (pt_tcpOffset u' + 2) = Ok sp.
Proof.
  intros Hp Hq HT Henv Ht Hun Hsp Hdp Hrw Hu Hufk Hsrc Hdst Hqs Hqd Hkept.
  destruct (redirected_nat _ _ _ _ _ _ _ _ _ _ _ _ _ Hp HT Henv Ht Hun Hsp Hdp Hrw)
    as (target & -> & -> & -> & _ & [F1 F2 _ R1 R2 L1 L2] & Hrefl & _).
  destruct Hun as [Hus Hud]. rewrite Hus in F1, F2, L1. rewrite Hud in F2, R1.
  destruct (parsed_ip_ok Hp Ht) as [I1 I2].
  destruct (rewriteAddresses q u (pt_destinationAddress t) (pt_sourceAddress t) dp sp)
    as [q'| |] eqn:Hw;
    [|by pose proof (rewriteAddresses_spec Hq (parsed_wellParsed Hq Hu) (pt_destinationAddress t)
        (pt_sourceAddress t) dp sp) as Hs; rewrite Hw in Hs..].
  assert (is_ipv4 (pt_sourceAddress t) = is_ipv4 (pt_sourceAddress u)) as Hfam by congruence.
  assert (is_ipv4 (pt_destinationAddress t) = is_ipv4 (pt_sourceAddress u)) as Hfam2 by congruence.
  destruct (rewritten_parse Hq Hu _ _ _ _ _ Hufk Hfam2 Hfam I2 I1
    (readPort_range Hp _ _ Hdp) (readPort_range Hp _ _ Hsp) Hw) as (u' & H1 & _ & H2 & H3 & _ & H4 & H5).
  exists q', u', (rt_originalInterface target). split; [|done].
  unfold rewriteTcpPacket. cbn [negb]. rewrite Hu. cbn [mbind outcome_bind].
  rewrite Hqs. cbn [mbind outcome_bind]. rewrite Hqd. cbn [mbind outcome_bind].
  rewrite Z.eqb_refl, Hsrc, Hdst, Hkept, Hrefl, Hufk, R1, R2, L1, L2, Hw. done.
Qed.
End Nat.

(** What is not redirected is not touched, and what is redirected changes
    only in its addresses and ports.  A call that answers Bypass or Blocked leaves
    the packet as it was; one that redirects or restores is never given a fragment
    and, for a packet whose addresses are not IPv4-mapped, changes bytes of the two
    address fields and of the two ports only. *)
Theorem rewrite_frame proto clock env p proxyPort s p' s' d :
  bytes_ok p → TableInv proto s → (∀ i s, TableInv proto s → TableInv proto (env i s)) →
  rewriteTcpPacket clock env p true proxyPort s = Ok (p', s', d) →
  (p' = p ∧ (d = Bypass ∨ ∃ target, d = Blocked target)) ∨
  ∃ t, parsePacket p true = Ok (Tcp t) ∧ pt_fragmentKey t = None ∧
    (unmapped t → ∀ i, ¬ rewrittenByte t i → get p' i = get p i).
Proof. exact (frame_nat (Inv := TableInv proto) _ _ _ _ _ _ _ _). Qed.

(** The redirection as the proxy sees it.  A redirected packet goes from the
    proxy's own address and the reflected port to the proxy's listening port. *)
Theorem redirect_to_proxy proto clock env p proxyPort s p' s' original proxyAddress reflectedPort t :
  bytes_ok p → TableInv proto s → (∀ i s, TableInv proto s → TableInv proto (env i s)) →
  parsePacket p true = Ok (Tcp t) → unmapped t → ip_ok proxyAddress → 0 ≤ proxyPort ≤ u16_max →
  rewriteTcpPacket clock env p true proxyPort s
    = Ok (p', s', Redirected original proxyAddress reflectedPort) →
  ∃ t', parsePacket p' true = Ok (Tcp t') ∧
    pt_sourceAddress t' = proxyAddress ∧ pt_destinationAddress t' = proxyAddress ∧
    readPort p' (pt_tcpOffset t') = Ok reflectedPort ∧
    readPort p' (pt_tcpOffset t' + 2) = Ok proxyPort.
Proof. exact (proxy_nat (Inv := TableInv proto) _ _ _ _ _ _ _ _ _ _ _). Qed.

(** C8: Redirection and restoration are inverse, for packets without IPv4-mapped addresses.
    Let such a packet of a captured connection be redirected, and let the proxy reply,
    in a packet that is no fragment, from its listening port to the reflected port.  As
    long as the table still answers for this port what it answered after the redirection,
    the reply is restored: it goes from the remote endpoint the client addressed to the
    address and port the client sent from, and the table stays as it is. *)
Theorem redirect_then_restore proto clock env clock' env' p q proxyPort s p' s' s2
    original proxyAddress reflectedPort t u sp dp :
  bytes_ok p → bytes_ok q → TableInv proto s →
  (∀ i s, TableInv proto s → TableInv proto (env i s)) →
  parsePacket p true = Ok (Tcp t) → unmapped t →
  readPort p (pt_tcpOffset t) = Ok sp → readPort p (pt_tcpOffset t + 2) = Ok dp →
  rewriteTcpPacket clock env p true proxyPort s
    = Ok (p', s', Redirected original proxyAddress reflectedPort) →
  parsePacket q true = Ok (Tcp u) → pt_fragmentKey u = None →
  pt_sourceAddress u = proxyAddress → pt_destinationAddress u = proxyAddress →
  readPort q (pt_tcpOffset u) = Ok proxyPort → readPort q (pt_tcpOffset u + 2) = Ok reflectedPort →
  reflectedTarget proxyAddress reflectedPort proxyAddress s2
    = reflectedTarget proxyAddress reflectedPort proxyAddress s' →
  ∃ q' u' interface,
    rewriteTcpPacket clock' env' q true proxyPort s2 = Ok (q', s2, Restored original interface) ∧
    parsePacket q' true = Ok (Tcp u') ∧
    pt_sourceAddress u' = pt_destinationAddress t ∧ pt_destinationAddress u' = pt_sourceAddress t ∧
    readPort q' (pt_tcpOffset u') = Ok dp ∧ readPort q' (pt_tcpOffset u' + 2) = Ok sp.
Proof. exact (restore_nat (Inv := TableInv proto) _ _ _ _ _ _ _ _ _ _ _ _ _ _ _ _ _ _). Qed.

(** A UDP event carries exactly the datagram.  For every sequence of bytes
    the event construction ends without panic; when it yields an event, the packet
    parsed, the ports are 16-bit values, the event's payload is the part of the
    packet after the UDP header up to the UDP length (never beyond the packet), and
    process and target are those of the flow table. *)
Theorem udp_event_total p target direction ms :
  bytes_ok p →
  Satisfies (udpDatagramEvent p target direction ms)
    (λ r, match r with
          | None => ∀ o, parseUdpPacket p ≠ Ok (Some o)
          | Some e => ∃ o, parseUdpPacket p = Ok (Some o) ∧
              28 ≤ op_payloadOffset o ≤ op_payloadEnd o ∧ op_payloadEnd o ≤ len p ∧
              ue_payload e = slice p (op_payloadOffset o) (op_payloadEnd o) ∧
              sock_port (ue_clientAddress e) =
                match direction with Up => op_sourcePort o | Down => op_destinationPort o end ∧
              0 ≤ sock_port (ue_clientAddress e) ≤ u16_max ∧
              ue_processId e = ot_processId target ∧ ue_targetAddress e = ot_address target
          end) (λ _, False).
Proof.
  intros Hp. unfold udpDatagramEvent. pose proof (parseUdp_spec Hp) as Hspec.
  destruct (parseUdpPacket p) as [[o|]|e|]; [| by wp..|done]. cbn in Hspec.
  destruct Hspec as (H1 & H2 & H3 & H4 & H5). wp. exists o.
  split; [done|]. split; [lia|]. split; [lia|]. split; [done|].
  destruct direction; cbn; rewrite sock_new_port; done.
Qed.

(** Recognising the first SYN is total: no packet makes it panic. *)
Theorem tcp_start_total p :
  bytes_ok p → Satisfies (isTcpStartPacket p) (λ _, True) (λ _, False).
Proof.
  intros Hp. unfold isTcpStartPacket. pose proof (parsePacket_spec Hp true) as Hspec.
  destruct (parsePacket p true) as [[t|]|e|]; [|by wp..|done].
  pose proof (wp_tcp _ _ Hspec). pose proof (wp_len _ _ Hspec). by wp.
Qed.

(** * Packet rewriting on concrete packets

    The theorems of [PacketRewriteTheorems] on a SYN of the browser's connection
    of [FlowTableExamples], and an IPv6 packet with IPv4-mapped addresses. *)

(** An IPv4 TCP header without options. *)
Definition ipv4Packet (source destination : IpAddr) (sourcePort destinationPort : Z) : list Z :=
  [69; 0] ++ be_bytes 2 40 ++ [0; 0; 0; 0; 64; 6; 0; 0] ++ octets source ++ octets destination ++
  be_bytes 2 sourcePort ++ be_bytes 2 destinationPort ++
  [0; 0; 0; 1; 0; 0; 0; 0; 80; 2; 255; 255; 0; 0; 0; 0].

Definition synEx : list Z := ipv4Packet localEx remoteEx 50000 443.
Definition replyEx : list Z := ipv4Packet LOCALHOST_V4 LOCALHOST_V4 9000 49152.

Lemma ipv4Packet_ok a b sp dp : bytes_ok (ipv4Packet a b sp dp).
Proof.
  unfold ipv4Packet. rewrite !Forall_app. repeat split; try apply be_bytes_ok; try apply octets_ok;
    repeat constructor; unfold u8_max; lia.
Defined.

Definition redirectedEx : list Z := ipv4Packet LOCALHOST_V4 LOCALHOST_V4 49152 9000.
Definition stateEx : FlowState := ft_state tableTcp.
Definition originalEx : OriginalTarget :=
  {| ot_processId := 41; ot_address := SocketAddrV4 134744072 443 |}.
Definition parsedSynEx : ParsedTcpPacket :=
  {| pt_sourceAddress := localEx; pt_destinationAddress := remoteEx; pt_sourceAddressOffset := 12;
     pt_destinationAddressOffset := 16; pt_tcpOffset := 20; pt_fragmentKey := None |}.
Definition parsedReplyEx : ParsedTcpPacket :=
  {| pt_sourceAddress := LOCALHOST_V4; pt_destinationAddress := LOCALHOST_V4;
     pt_sourceAddressOffset := 12; pt_destinationAddressOffset := 16; pt_tcpOffset := 20;
     pt_fragmentKey := None |}.

Lemma stateEx_inv : TableInv protoEx stateEx.
Proof. apply reachable_inv, tableTcp_reachable. Defined.

Lemma rewrite_total_witness :
  Satisfies (rewriteTcpPacket (λ _, 0) (λ _ s, s) synEx true 9000 stateEx)
    (λ '(p', _, _), len p' = len synEx ∧ bytes_ok p') (λ _, True).
Proof. apply rewrite_total, ipv4Packet_ok. Defined.

Lemma rewrite_frame_witness :
  ∃ t, parsePacket synEx true = Ok (Tcp t) ∧ pt_fragmentKey t = None ∧
    (unmapped t → ∀ i, ¬ rewrittenByte t i → get redirectedEx i = get synEx i).
Proof.
  destruct (rewrite_frame protoEx (λ _, 0) (λ _ s, s) synEx 9000 stateEx redirectedEx stateEx
    (Redirected originalEx LOCALHOST_V4 49152)) as [[_ [?|[? ?]]]|H].
  - apply ipv4Packet_ok.
  - exact stateEx_inv.
  - intros; assumption.
  - vm_compute. reflexivity.
  - discriminate.
  - discriminate.
  - exact H.
Defined.

Lemma redirect_to_proxy_witness :
  ∃ t', parsePacket redirectedEx true = Ok (Tcp t') ∧
    pt_sourceAddress t' = LOCALHOST_V4 ∧ pt_destinationAddress t' = LOCALHOST_V4 ∧
    readPort redirectedEx (pt_tcpOffset t') = Ok 49152 ∧
    readPort redirectedEx (pt_tcpOffset t' + 2) = Ok 9000.
Proof.
  apply (redirect_to_proxy protoEx (λ _, 0) (λ _ s, s) synEx 9000 stateEx redirectedEx stateEx
    originalEx LOCALHOST_V4 49152 parsedSynEx).
  - apply ipv4Packet_ok.
  - exact stateEx_inv.
  - intros; assumption.
  - vm_compute. reflexivity.
  - split; reflexivity.
  - cbn. unfold ipv4_bits. lia.
  - unfold u16_max. lia.
  - vm_compute. reflexivity.
Defined.

(** Another flow was captured before the reply comes. *)
Lemma redirect_then_restore_witness :
  ∃ q' u' interface,
    rewriteTcpPacket (λ _, 0) (λ _ s, s) replyEx true 9000 (ft_state tableUdp)
      = Ok (q', ft_state tableUdp, Restored originalEx interface) ∧
    parsePacket q' true = Ok (Tcp u') ∧
    pt_sourceAddress u' = remoteEx ∧ pt_destinationAddress u' = localEx ∧
    readPort q' (pt_tcpOffset u') = Ok 443 ∧ readPort q' (pt_tcpOffset u' + 2) = Ok 50000.
Proof.
  apply (redirect_then_restore protoEx (λ _, 0) (λ _ s, s) (λ _, 0) (λ _ s, s) synEx replyEx 9000
    stateEx redirectedEx stateEx (ft_state tableUdp) originalEx LOCALHOST_V4 49152 parsedSynEx parsedReplyEx 50000 443);
    try (vm_compute; reflexivity).
  - apply ipv4Packet_ok.
  - apply ipv4Packet_ok.
  - exact stateEx_inv.
  - intros; assumption.
  - split; reflexivity.
Defined.

(** A DNS query: UDP from 192.168.1.10:50001 to 8.8.8.8:53 with two bytes. *)
Definition udpEx : list Z :=
  [69; 0] ++ be_bytes 2 30 ++ [0; 0; 0; 0; 64; 17; 0; 0] ++ octets localEx ++ octets remoteEx ++
  be_bytes 2 50001 ++ be_bytes 2 53 ++ be_bytes 2 10 ++ [0; 0; 7; 9].

Lemma udpEx_ok : bytes_ok udpEx.
Proof.
  unfold udpEx. rewrite !Forall_app. repeat split; try apply be_bytes_ok; try apply octets_ok;
    repeat constructor; unfold u8_max; lia.
Defined.

Lemma udp_event_total_witness : no_panic (udpDatagramEvent udpEx originalEx Up 5).
Proof.
  pose proof (udp_event_total udpEx originalEx Up 5 udpEx_ok) as H. unfold no_panic.
  eapply satisfies_mono; [..|exact H]; done.
Defined.

(** The payload of the query. *)
Lemma udpEx_payload :
  match udpDatagramEvent udpEx originalEx Up 5 with
  | Ok (Some e) => ue_payload e = [7; 9]
  | _ => False
  end.
Proof. vm_compute. reflexivity. Qed.

Lemma tcp_start_total_witness : isTcpStartPacket synEx ≠ Panic.
Proof.
  apply (satisfies_panic_elim _ (λ _, True) (λ _, False)). apply tcp_start_total, ipv4Packet_ok.
Defined.

(** *** IPv4-mapped addresses in an IPv6 packet *)

(** The browser's five-tuple, written as IPv4-mapped IPv6 addresses. *)
Definition mappedSynEx : list Z :=
  [96; 0; 0; 0; 0; 20; 6; 64] ++
  octets (V6 281473913979146) ++ octets (V6 281470816487432) ++
  be_bytes 2 50000 ++ be_bytes 2 443 ++ [0; 0; 0; 1; 0; 0; 0; 0; 80; 2; 255; 255; 0; 0; 0; 0].

(** An IPv6 packet whose addresses are IPv4-mapped matches the IPv4 flow,
    and the redirection then writes the four octets of the IPv4 proxy address into
    the sixteen-byte address fields: the packet keeps twelve old octets of each
    field and is addressed to 7f00:1::ffff:... instead of the proxy. *)
Theorem mapped_address_corrupted :
  ∃ p' s', rewriteTcpPacket (λ _, 0) (λ _ s, s) mappedSynEx true 9000 stateEx
      = Ok (p', s', Redirected originalEx LOCALHOST_V4 49152) ∧
    slice p' 24 40 = [127; 0; 0; 1; 0; 0; 0; 0; 0; 0; 255; 255; 8; 8; 8; 8] ∧
    normalizeIpAddress (V6 (be_value (slice p' 24 40))) ≠ LOCALHOST_V4.
Proof.
  eexists _, _. split; [vm_compute; reflexivity|]. split; [vm_compute; reflexivity|].
  vm_compute. discriminate.
Qed.
