(* ===== verification/Stateful.v ===== *)
(** * Stateful computations and ordered maps

    Methods with [&mut self] that return a [Result]: a state transformer whose
    state survives an error, with its weakest precondition [Runs].  [BTreeMap]s
    that are iterated in key order are association lists kept sorted. *)

From S2P Require Import Prelude.

Definition stateful (S E A : Type) : Type := S → S * outcome E A.

#[export] Instance stateful_ret {S E} : MRet (stateful S E) := fun A a s => (s, Ok a).
#[export] Instance stateful_bind {S E} : MBind (stateful S E) := fun A B k m s =>
  match m s with
  | (s, Ok a) => k a s
  | (s, Err e) => (s, Err e)
  | (s, Panic) => (s, Panic)
  end.

Definition gets {S E A} (f : S → A) : stateful S E A := λ s, (s, Ok (f s)).
Definition modify {S E} (f : S → S) : stateful S E unit := λ s, (f s, Ok tt).
Definition lift {S E A} (m : outcome E A) : stateful S E A := λ s, (s, m).
Definition fail {S E A} (e : E) : stateful S E A := λ s, (s, Err e).

(** [Runs m s P Q]: from [s], [m] does not panic, a value and the state it leaves
    satisfy [P], an error and the state it leaves satisfy [Q]. *)
Definition Runs {S E A} (m : stateful S E A) (s : S) (P : A → S → Prop) (Q : E → S → Prop) : Prop :=
  match m s with (s', Ok a) => P a s' | (s', Err e) => Q e s' | (_, Panic) => False end.

Section runs.
Context {S E : Type}.
Implicit Types s : S.

Lemma runs_bind {A B} (m : stateful S E A) (k : A → stateful S E B) s P Q :
  Runs m s (λ a s', Runs (k a) s' P Q) Q → Runs (m ≫= k) s P Q.
Proof. unfold Runs, mbind, stateful_bind. by destruct (m s) as [? []]. Qed.

Lemma runs_ret {A} (a : A) s (P : A → S → Prop) (Q : E → S → Prop) :
  P a s → Runs (mret a) s P Q.
Proof. done. Qed.

Lemma runs_gets {A} (f : S → A) s (P : A → S → Prop) (Q : E → S → Prop) :
  P (f s) s → Runs (gets f) s P Q.
Proof. done. Qed.

Lemma runs_modify (f : S → S) s (P : unit → S → Prop) (Q : E → S → Prop) :
  P tt (f s) → Runs (modify f) s P Q.
Proof. done. Qed.

Lemma runs_fail {A} (e : E) s (P : A → S → Prop) (Q : E → S → Prop) :
  Q e s → Runs (fail e) s P Q.
Proof. done. Qed.

Lemma runs_lift {A} (m : outcome E A) s (P : A → S → Prop) (Q : E → S → Prop) :
  Satisfies m (λ a, P a s) (λ e, Q e s) → Runs (lift m) s P Q.
Proof. unfold Runs, lift. by destruct m. Qed.

Lemma runs_mono {A} (m : stateful S E A) s (P P' : A → S → Prop) (Q Q' : E → S → Prop) :
  (∀ a s', P a s' → P' a s') → (∀ e s', Q e s' → Q' e s') → Runs m s P Q → Runs m s P' Q'.
Proof. unfold Runs. destruct (m s) as [? []]; naive_solver. Qed.

Lemma runs_and {A} (m : stateful S E A) s P Q P' Q' :
  Runs m s P Q → Runs m s P' Q' → Runs m s (λ a s', P a s' ∧ P' a s') (λ e s', Q e s' ∧ Q' e s').
Proof. unfold Runs. by destruct (m s) as [? []]. Qed.

(** A step, what it answered and what follows. *)
Lemma runs_seq {A B} (m : stateful S E A) (k : A → stateful S E B) s P Q' Q R :
  Runs m s P Q' → (∀ e s', Q' e s' → Q e s') →
  (∀ a s', m s = (s', Ok a) → P a s' → Runs (k a) s' R Q) → Runs (m ≫= k) s R Q.
Proof.
  unfold Runs, mbind, stateful_bind. destruct (m s) as [s' [a|e|]]; [|by eauto|done]. intros Hp _ Hk. by apply Hk.
Qed.
End runs.

(** ** [BTreeMap] with integer keys *)
Section btree.
Context {V : Type}.
Implicit Types m : list (Z * V).

Fixpoint bt_get (k : Z) (m : list (Z * V)) : option V :=
  match m with
  | [] => None
  | (k', v) :: m => if k =? k' then Some v else if k <? k' then None else bt_get k m
  end.

Fixpoint bt_insert (k : Z) (v : V) (m : list (Z * V)) : list (Z * V) :=
  match m with
  | [] => [(k, v)]
  | (k', v') :: m =>
      if k =? k' then (k, v) :: m
      else if k <? k' then (k, v) :: (k', v') :: m
      else (k', v') :: bt_insert k v m
  end.

(** Keys in increasing order. *)
Definition bt_sorted m : Prop := StronglySorted Z.lt m.*1.

Lemma bt_get_elem k v m : bt_sorted m → bt_get k m = Some v ↔ (k, v) ∈ m.
Proof.
  unfold bt_sorted. induction m as [|[k' v'] m IH]; cbn.
  - split; [done|]. by intros ?%elem_of_nil.
  - intros Hs. inversion_clear Hs as [|?? Hs' Hall]. rewrite elem_of_cons.
    rewrite Forall_forall in Hall. case_if Heq; [|case_if Hlt].
    + apply Z.eqb_eq in Heq as ->. split; [intros [= ->]; by left|].
      intros [[= ->]|Hin]; [done|]. exfalso.
      apply (list_elem_of_fmap_2 fst) in Hin. apply Hall in Hin. cbn in Hin. lia.
    + apply Z.ltb_lt in Hlt. split; [done|]. intros [[= -> ->]|Hin]; [lia|].
      apply (list_elem_of_fmap_2 fst) in Hin. apply Hall in Hin. cbn in Hin. lia.
    + apply Z.eqb_neq in Heq. rewrite IH by done. naive_solver.
Qed.

Lemma bt_insert_elem k v m k' v' :
  (k', v') ∈ bt_insert k v m → (k', v') = (k, v) ∨ (k', v') ∈ m.
Proof.
  induction m as [|[k1 v1] m IH]; cbn; [set_solver|].
  case_if H1; [set_solver|]. case_if H2; [set_solver|]. set_solver.
Qed.

Lemma bt_insert_sorted k v m : bt_sorted m → bt_sorted (bt_insert k v m).
Proof.
  unfold bt_sorted. induction m as [|[k1 v1] m IH]; cbn; intros Hs.
  { repeat constructor. }
  inversion_clear Hs as [|?? Hs' Hall]. case_if H1; [|case_if H2]; cbn.
  - apply Z.eqb_eq in H1 as ->. by constructor.
  - apply Z.ltb_lt in H2. constructor; [by constructor|]. constructor; [done|].
    eapply Forall_impl; [exact Hall|]. cbn. lia.
  - apply Z.eqb_neq in H1. apply Z.ltb_ge in H2. constructor; [by apply IH|].
    apply Forall_forall. intros x ([k' v'] & -> & Hin)%list_elem_of_fmap. cbn.
    apply bt_insert_elem in Hin as [[= -> ->]|Hin]; [lia|].
    rewrite Forall_forall in Hall. apply Hall, list_elem_of_fmap. by exists (k', v').
Qed.

Lemma bt_insert_perm k v m :
  bt_sorted m → bt_get k m = None → bt_insert k v m ≡ₚ (k, v) :: m.
Proof.
  unfold bt_sorted. induction m as [|[k1 v1] m IH]; cbn; intros Hs; [done|].
  inversion_clear Hs as [|?? Hs' Hall]. case_if H1; [done|]. case_if H2; [done|].
  intros Hnone. rewrite IH by done. apply Permutation_swap.
Qed.
End btree.

(** ** Totals over a map *)
Section totals.
Context {K : Type} `{Countable K} {V : Type} (f : V → Z).
Implicit Types m : gmap K V.

Definition total (m : gmap K V) : Z := map_fold (λ _ v acc, f v + acc) 0 m.

Lemma total_empty : total ∅ = 0.
Proof. apply map_fold_empty. Qed.

Lemma total_insert_None m k v : m !! k = None → total (<[k := v]> m) = f v + total m.
Proof.
  intros Hk. unfold total. rewrite map_fold_insert_L; [done| |done].
  intros. lia.
Qed.

Lemma total_delete_Some m k v : m !! k = Some v → total (delete k m) = total m - f v.
Proof.
  intros Hk. rewrite <-(insert_delete_id m k v Hk) at 2.
  rewrite total_insert_None by apply lookup_delete_eq. lia.
Qed.

Lemma total_delete m k : total (delete k m) = total m - from_option f 0 (m !! k).
Proof.
  destruct (m !! k) eqn:Hk; cbn; [by apply total_delete_Some|]. rewrite delete_id by done. lia.
Qed.

Lemma total_insert m k v : total (<[k := v]> m) = f v + total m - from_option f 0 (m !! k).
Proof.
  rewrite <-insert_delete_eq, total_insert_None by apply lookup_delete_eq.
  rewrite total_delete. lia.
Qed.

Lemma total_nonneg m : (∀ k v, m !! k = Some v → 0 ≤ f v) → 0 ≤ total m.
Proof.
  induction m as [|k v m Hk IH] using map_ind; intros Hf; [by rewrite total_empty|].
  rewrite total_insert_None by done. pose proof (Hf k v (lookup_insert_eq _ _ _)).
  assert (0 ≤ total m); [|lia]. apply IH. intros k' v' Hk'. apply (Hf k').
  rewrite lookup_insert_ne; congruence.
Qed.

Lemma total_lookup_le m k v :
  (∀ k v, m !! k = Some v → 0 ≤ f v) → m !! k = Some v → f v ≤ total m.
Proof.
  intros Hf Hk. pose proof (total_delete_Some m k v Hk).
  assert (0 ≤ total (delete k m)); [|lia].
  apply total_nonneg. intros k' v' [_ ?]%lookup_delete_Some. eauto.
Qed.
End totals.

Lemma total_fmap_le {K} `{Countable K} {V W} (f : V → Z) (g : W → Z) (h : V → W) (m : gmap K V) :
  (∀ v, g (h v) ≤ f v) → total g (h <$> m) ≤ total f m.
Proof.
  intros Hle. induction m as [|k v m Hk IH] using map_ind.
  - by rewrite fmap_empty, !total_empty.
  - rewrite fmap_insert, !total_insert_None by (done || by rewrite lookup_fmap, Hk).
    specialize (Hle v). lia.
Qed.

(** ** Sums *)
Definition sum_by {A} (f : A → Z) (l : list A) : Z := foldr (λ x acc, f x + acc) 0 l.

Lemma sum_by_app {A} (f : A → Z) l1 l2 : sum_by f (l1 ++ l2) = sum_by f l1 + sum_by f l2.
Proof. unfold sum_by. induction l1 as [|x l1 IH]; cbn; [lia|]. rewrite IH. lia. Qed.

Lemma sum_by_perm {A} (f : A → Z) l1 l2 : l1 ≡ₚ l2 → sum_by f l1 = sum_by f l2.
Proof. unfold sum_by. induction 1; cbn; lia. Qed.

#[export] Instance sum_by_proper {A} (f : A → Z) : Proper ((≡ₚ) ==> (=)) (sum_by f).
Proof. intros l1 l2. apply sum_by_perm. Qed.

Lemma sum_by_nonneg {A} (f : A → Z) l : (∀ x, x ∈ l → 0 ≤ f x) → 0 ≤ sum_by f l.
Proof.
  unfold sum_by. induction l as [|x l IH]; cbn; intros Hf; [lia|].
  pose proof (Hf x ltac:(by left)). assert (0 ≤ foldr (λ x acc, f x + acc) 0 l); [|lia].
  apply IH. intros y Hy. apply Hf. by right.
Qed.

Lemma total_removed {K} `{Countable K} {V} (f : V → Z) (m m' : gmap K V) ids :
  NoDup ids → (∀ k, m' !! k = if decide (k ∈ ids) then None else m !! k) →
  total f m = sum_by f (omap (λ k, m !! k) ids) + total f m'.
Proof.
  intros Hnd. revert m m'. induction Hnd as [|k ids Hk Hnd IH]; intros m m' Hm'.
  - assert (m' = m) as ->; [|cbn; lia]. apply map_eq. intros k. rewrite Hm'. by rewrite decide_False by set_solver.
  - pose proof (total_delete f m k). rewrite (IH (delete k m) m') in H0.
    + cbn.
      assert (omap (λ x, delete k m !! x) ids = omap (λ x, m !! x) ids) as Heq.
      { clear -Hk. induction ids as [|x ids IH]; [done|]. cbn. rewrite lookup_delete_ne by set_solver.
        destruct (m !! x); rewrite IH; set_solver. }
      rewrite Heq in H0. unfold sum_by in *. destruct (m !! k); cbn in *; lia.
    + intros k'. rewrite Hm'. destruct (decide (k' = k)) as [->|Hne].
      * rewrite decide_True by (by left). case_decide; [done|]. by rewrite lookup_delete_eq.
      * rewrite lookup_delete_ne by done. repeat case_decide; set_solver.
Qed.

Lemma total_map_to_list {K} `{Countable K} {V} (f : V → Z) (m : gmap K V) :
  total f m = sum_by f (map_to_list m).*2.
Proof.
  induction m as [|k v m Hk IH] using map_ind.
  - by rewrite map_to_list_empty, total_empty.
  - rewrite total_insert_None by done. rewrite (sum_by_perm f _ (v :: (map_to_list m).*2)).
    + cbn. by rewrite IH.
    + by rewrite map_to_list_insert.
Qed.

Lemma sum_by_bind {A B} (f : B → Z) (g : A → list B) l :
  sum_by f (l ≫= g) = sum_by (λ a, sum_by f (g a)) l.
Proof. induction l as [|a l IH]; [done|]. cbn [mbind list_bind]. rewrite sum_by_app, IH. done. Qed.

Lemma filter_all {A} (P : A → Prop) `{∀ x, Decision (P x)} (l : list A) :
  Forall P l → filter P l = l.
Proof. induction 1 as [|x l Hx _ IH]; [done|]. by rewrite filter_cons_True, IH. Qed.

Lemma total_subseteq {K} `{Countable K} {V} (f : V → Z) (m m' : gmap K V) :
  (∀ k v, m !! k = Some v → 0 ≤ f v) → m' ⊆ m → total f m' ≤ total f m.
Proof.
  revert m. induction m' as [|k v m' Hk IH] using map_ind; intros m Hf Hsub.
  - rewrite total_empty. apply total_nonneg. eauto.
  - assert (Hm : m !! k = Some v) by (eapply lookup_weaken, Hsub; apply lookup_insert_eq).
    rewrite total_insert_None by done. pose proof (total_delete_Some f m k v Hm).
    assert (total f m' ≤ total f (delete k m)); [|lia]. apply IH.
    { intros j w [_ ?]%lookup_delete_Some. eauto. }
    apply map_subseteq_spec. intros j w Hj. rewrite lookup_delete_ne by congruence.
    eapply lookup_weaken, Hsub. rewrite lookup_insert_ne; congruence.
Qed.
