(* ===== verification/ConnectionReset.v ===== *)
(** * Resetting connections older than the capture

    Model of [Server/Backend/ProcessCapture/src/connectionReset.rs].  The connections of
    the selected processes are read from the tables of Windows; those over IPv4 are
    deleted at once, those over IPv6 are kept until a packet of theirs gives the sequence
    numbers for a pair of resets.

    The structures of the Windows interface are the class [WindowsTcp]; a call of the
    system is a function of its arguments.  [pendingIpv6Connections] is locked once per
    access: [env i] is what other threads do to it before the [i]-th critical section. *)

From S2P Require Import Prelude NetAddress CaptureTypes FlowTable.

Definition noError : Z := 0.
Definition errorInsufficientBuffer : Z := 122.
Definition errorInvalidParameter : Z := 87.
Definition errorNotFound : Z := 1168.
Definition tcpProtocolNumber : Z := 6.
Definition tcpResetFlag : Z := 4.
Definition tcpAcknowledgementFlag : Z := 16.
Definition ipv6HeaderBytes : Z := 40.
Definition tcpHeaderBytes : Z := 20.
Definition ipv6ResetLifetime : Z := 30000.

(** ** The tables of the system *)
(** [MIB_TCPROW_OWNER_PID] and [MIB_TCP6ROW_OWNER_PID]; addresses as they lie in memory. *)
Record Ipv4OwnerRow := {
  r4_state : Z;
  r4_localAddr : Z;
  r4_localPort : Z;
  r4_remoteAddr : Z;
  r4_remotePort : Z;
  r4_owningPid : Z
}.
Record Ipv6OwnerRow := {
  r6_localAddr : list Z;
  r6_localScopeId : Z;
  r6_localPort : Z;
  r6_remoteAddr : list Z;
  r6_remoteScopeId : Z;
  r6_remotePort : Z;
  r6_state : Z;
  r6_owningPid : Z
}.

(** The states of the interface, and how its rows lie in a table of 32-bit words. *)
Class WindowsTcp := {
  MIB_TCP_STATE_CLOSED : Z;
  MIB_TCP_STATE_LISTEN : Z;
  MIB_TCP_STATE_DELETE_TCB : Z;
  ipv4RowWords : Z;
  ipv6RowWords : Z;
  ipv4Row : list Z → Ipv4OwnerRow;
  ipv6Row : list Z → Ipv6OwnerRow
}.

(** [GetExtendedTcpTable] with the size and the content of the buffer it is given: the
    status, the size it wants and the buffer. *)
Definition TableCall : Type := Z → list Z → Z * Z * list Z.

(** [MIB_TCPROW_LH], the argument of [SetTcpEntry]. *)
Record DeleteRow := {
  dr_state : Z;
  dr_localAddr : Z;
  dr_localPort : Z;
  dr_remoteAddr : Z;
  dr_remotePort : Z
}.

(** [u32::to_ne_bytes] on a little-endian machine, and [u16::from_be] there. *)
Definition to_ne_bytes (v : Z) : list Z := reverse (be_bytes 4 v).
Definition ipv4FromWord (v : Z) : IpAddr := V4 (be_value (to_ne_bytes v)).
Definition ownerTablePort (port : Z) : Z := be_value (reverse (be_bytes 2 (port mod 65536))).

(** ** Pending connections *)
Record Ipv6Connection := {
  ic_localAddress : Z;
  ic_localPort : Z;
  ic_remoteAddress : Z;
  ic_remotePort : Z
}.
#[export] Instance Ipv6Connection_eq_dec : EqDecision Ipv6Connection.
Proof. solve_decision. Defined.
#[export] Instance Ipv6Connection_countable : Countable Ipv6Connection.
Proof.
  refine (inj_countable'
    (λ c, (ic_localAddress c, ic_localPort c, ic_remoteAddress c, ic_remotePort c))
    (λ '(la, lp, ra, rp),
       {| ic_localAddress := la; ic_localPort := lp; ic_remoteAddress := ra; ic_remotePort := rp |}) _).
  by intros [].
Defined.

(** [ConnectionResetState]: the deadlines of the connections that wait. *)
Abbreviation Pending := (gmap Ipv6Connection Instant) (only parsing).

Record ConnectionResetSummary := {
  rs_resetIpv4Connections : Z;
  rs_pendingIpv6Connections : Z
}.

Record Ipv6ResetPackets := {
  rp_forward : list Z;
  rp_reverse : list Z;
  rp_connection : Ipv6Connection;
  rp_deadline : Instant
}.

Definition pruneExpiredConnections (pending : Pending) (now : Instant) : Pending :=
  filter (λ '(_, deadline), now < deadline) pending.

(** [ConnectionResetState::clear] and [ConnectionResetState::pruneExpired]. *)
Definition clearResets (pending : Pending) : Pending := ∅.
Definition pruneExpiredResets (now : Instant) (pending : Pending) : Pending * Z :=
  let pending := pruneExpiredConnections pending now in
  (pending, Z.of_nat (size pending)).

(** [Ipv6ResetPackets::restoreAfterFailure], the critical section and the method. *)
Definition restorePending (packets : Ipv6ResetPackets) (now : Instant) (pending : Pending) : Pending :=
  let pending := pruneExpiredConnections pending now in
  match pending !! rp_connection packets with
  | Some deadline => <[rp_connection packets := Z.max deadline (rp_deadline packets)]> pending
  | None => <[rp_connection packets := rp_deadline packets]> pending
  end.
Definition restoreAfterFailure (packets : Ipv6ResetPackets) (now : Instant)
    (env : Pending → Pending) (pending : Pending) : Pending :=
  if rp_deadline packets <=? now then pending else restorePending packets now (env pending).

(** ** Packets *)
Record ParsedIpv6TcpPacket := {
  p6_sourceAddress : Z;
  p6_destinationAddress : Z;
  p6_sourcePort : Z;
  p6_destinationPort : Z;
  p6_sequenceNumber : Z;
  p6_acknowledgementNumber : Z
}.

Record Ipv6ResetSpecification := {
  is_sourceAddress : Z;
  is_destinationAddress : Z;
  is_sourcePort : Z;
  is_destinationPort : Z;
  is_sequenceNumber : Z
}.

(** Fallible code that answers [None]. *)
Abbreviation maybe := (outcome unit) (only parsing).
Definition orNone {A} (o : option A) : maybe A := ok_or o tt.

(** The loop over the extension headers: where the TCP header is. *)
Fixpoint extensionLoop (fuel : nat) (packet : list Z) (nextHeader offset : Z) : maybe Z :=
  match fuel with
  | O => Panic
  | S fuel =>
      if nextHeader =? tcpProtocolNumber then Ok offset
      else if (nextHeader =? 0) || (nextHeader =? 43) || (nextHeader =? 60) then
        header ← orNone (get_range packet offset (offset + 2));
        nextHeader ← idx header 0;
        length ← idx header 1;
        offset ← orNone (checked_add offset ((length + 1) * 8));
        extensionLoop fuel packet nextHeader offset
      else if nextHeader =? 51 then
        header ← orNone (get_range packet offset (offset + 2));
        nextHeader ← idx header 0;
        length ← idx header 1;
        offset ← orNone (checked_add offset ((length + 2) * 4));
        extensionLoop fuel packet nextHeader offset
      else Err tt
  end.

Definition parseIpv6TcpPacket (packet : list Z) : maybe ParsedIpv6TcpPacket :=
  _ ← check (ipv6HeaderBytes <=? len packet) tt;
  first ← idx packet 0;
  _ ← check (Z.shiftr first 4 =? 6) tt;
  sourceAddress ← sub_slice packet 8 24;
  destinationAddress ← sub_slice packet 24 40;
  nextHeader ← idx packet 6;
  offset ← extensionLoop (length packet) packet nextHeader ipv6HeaderBytes;
  tcp ← orNone (get_range packet offset (offset + tcpHeaderBytes));
  flags ← idx tcp 13;
  if (Z.land flags tcpAcknowledgementFlag =? 0) || negb (Z.land flags tcpResetFlag =? 0) then Err tt
  else
    sourcePort ← sub_slice tcp 0 2;
    destinationPort ← sub_slice tcp 2 4;
    sequenceNumber ← sub_slice tcp 4 8;
    acknowledgementNumber ← sub_slice tcp 8 12;
    Ok {| p6_sourceAddress := be_value sourceAddress; p6_destinationAddress := be_value destinationAddress;
          p6_sourcePort := be_value sourcePort; p6_destinationPort := be_value destinationPort;
          p6_sequenceNumber := be_value sequenceNumber;
          p6_acknowledgementNumber := be_value acknowledgementNumber |}.

Definition buildIpv6ResetPacket (specification : Ipv6ResetSpecification) : maybe (list Z) :=
  let packet := replicate (Z.to_nat (ipv6HeaderBytes + tcpHeaderBytes)) 0 in
  packet ← write_slice packet 0 [96];
  packet ← write_slice packet 4 (be_bytes 2 tcpHeaderBytes);
  packet ← write_slice packet 6 [tcpProtocolNumber];
  packet ← write_slice packet 7 [64];
  packet ← write_slice packet 8 (be_bytes 16 (is_sourceAddress specification));
  packet ← write_slice packet 24 (be_bytes 16 (is_destinationAddress specification));
  packet ← write_slice packet 40 (be_bytes 2 (is_sourcePort specification));
  packet ← write_slice packet 42 (be_bytes 2 (is_destinationPort specification));
  packet ← write_slice packet 44 (be_bytes 4 (is_sequenceNumber specification));
  packet ← write_slice packet 52 [80];
  write_slice packet 53 [tcpResetFlag].

(** The connection of a packet: its local end is the source of an outbound one. *)
Definition connectionOf (parsed : ParsedIpv6TcpPacket) (outbound : bool) : Ipv6Connection :=
  if outbound then
    {| ic_localAddress := p6_sourceAddress parsed; ic_localPort := p6_sourcePort parsed;
       ic_remoteAddress := p6_destinationAddress parsed; ic_remotePort := p6_destinationPort parsed |}
  else
    {| ic_localAddress := p6_destinationAddress parsed; ic_localPort := p6_destinationPort parsed;
       ic_remoteAddress := p6_sourceAddress parsed; ic_remotePort := p6_sourcePort parsed |}.

Definition forwardReset (parsed : ParsedIpv6TcpPacket) : Ipv6ResetSpecification :=
  {| is_sourceAddress := p6_sourceAddress parsed; is_destinationAddress := p6_destinationAddress parsed;
     is_sourcePort := p6_sourcePort parsed; is_destinationPort := p6_destinationPort parsed;
     is_sequenceNumber := p6_sequenceNumber parsed |}.
Definition reverseReset (parsed : ParsedIpv6TcpPacket) : Ipv6ResetSpecification :=
  {| is_sourceAddress := p6_destinationAddress parsed; is_destinationAddress := p6_sourceAddress parsed;
     is_sourcePort := p6_destinationPort parsed; is_destinationPort := p6_sourcePort parsed;
     is_sequenceNumber := p6_acknowledgementNumber parsed |}.

(** The second critical section of [takeIpv6ResetPackets]. *)
Definition takePending (parsed : ParsedIpv6TcpPacket) (outbound : bool) (pending : Pending)
    : Pending * maybe Ipv6ResetPackets :=
  let connection := connectionOf parsed outbound in
  match pending !! connection with
  | None => (pending, Err tt)
  | Some deadline =>
      (delete connection pending,
       forward ← buildIpv6ResetPacket (forwardReset parsed);
       reverse ← buildIpv6ResetPacket (reverseReset parsed);
       Ok {| rp_forward := forward; rp_reverse := reverse; rp_connection := connection;
             rp_deadline := deadline |})
  end.

Definition takeIpv6ResetPackets (clock : nat → Instant) (env : nat → Pending → Pending)
    (packet : list Z) (outbound : bool) (pending : Pending) : Pending * maybe Ipv6ResetPackets :=
  match parseIpv6TcpPacket packet with
  | Ok parsed =>
      let '(pending, _) := pruneExpiredResets (clock 0%nat) (env 0%nat pending) in
      takePending parsed outbound (env 1%nat pending)
  | Err e => (pending, Err e)
  | Panic => (pending, Panic)
  end.

(** ** Reading the tables *)
Section windows.
Context `{WindowsTcp}.

Definition isResettableState (state : Z) : bool :=
  negb (state =? MIB_TCP_STATE_LISTEN) && negb (state =? MIB_TCP_STATE_CLOSED)
  && negb (state =? MIB_TCP_STATE_DELETE_TCB).

Definition shouldResetIpv4Connection (row : Ipv4OwnerRow) (selectedProcessIds : gset Z) : bool :=
  let localAddress := ipv4FromWord (r4_localAddr row) in
  let remoteAddress := ipv4FromWord (r4_remoteAddr row) in
  bool_decide (r4_owningPid row ∈ selectedProcessIds) && negb (r4_remoteAddr row =? 0)
  && negb (is_loopback localAddress) && negb (is_loopback remoteAddress)
  && isResettableState (r4_state row).

Definition shouldQueueIpv6Connection (row : Ipv6OwnerRow) (selectedProcessIds : gset Z) : bool :=
  let localAddress := V6 (be_value (r6_localAddr row)) in
  let remoteAddress := V6 (be_value (r6_remoteAddr row)) in
  bool_decide (r6_owningPid row ∈ selectedProcessIds)
  && negb (bool_decide (r6_remoteAddr row = replicate 16 0))
  && negb (is_loopback localAddress) && negb (is_loopback remoteAddress)
  && (r6_localScopeId row =? 0) && (r6_remoteScopeId row =? 0)
  && isResettableState (r6_state row).

Definition ipv6ConnectionFromOwnerRow (row : Ipv6OwnerRow) : Ipv6Connection :=
  {| ic_localAddress := be_value (r6_localAddr row); ic_localPort := ownerTablePort (r6_localPort row);
     ic_remoteAddress := be_value (r6_remoteAddr row); ic_remotePort := ownerTablePort (r6_remotePort row) |}.

(** [usize::div_ceil]. *)
Definition div_ceil (a b : Z) : Z := (a + b - 1) / b.

(** The loop of [readOwnerPidConnectionTable]; it has no answer while the system goes on
    asking for a larger buffer. *)
Fixpoint tableLoop (calls : list TableCall) (ipv6 : bool) (rowBytes requiredBytes : Z)
    : option (outcome ProcessCaptureError (list Z * Z)) :=
  match calls with
  | [] => None
  | call :: calls =>
      let tableWords := replicate (Z.to_nat (Z.max (div_ceil requiredBytes 4) 1)) 0 in
      let '(status, requiredBytes, tableWords) := call requiredBytes tableWords in
      if status =? errorInsufficientBuffer then tableLoop calls ipv6 rowBytes requiredBytes
      else Some
        (if negb (status =? noError) then Err (EnumerateConnections ipv6 status)
         else
           entryCount ← idx tableWords 0;
           let availableRows := saturating_sub requiredBytes 4 / rowBytes in
           if availableRows <? entryCount then Err (InvalidConnectionTable ipv6)
           else Ok (tableWords, entryCount))
  end.

Definition readOwnerPidConnectionTable (calls : list TableCall) (ipv6 : bool) (rowBytes : Z)
    : option (outcome ProcessCaptureError (list Z * Z)) :=
  match calls with
  | [] => None
  | call :: calls =>
      let '(initialStatus, requiredBytes, _) := call 0 [] in
      if negb (initialStatus =? errorInsufficientBuffer) && negb (initialStatus =? noError) then
        Some (Err (EnumerateConnections ipv6 initialStatus))
      else tableLoop calls ipv6 rowBytes requiredBytes
  end.

(** [copyOwnerRows]: a read outside of the buffer would be undefined behaviour; it is
    [Panic] here. *)
Definition copyOwnerRows {Row} (rowWords : Z) (row : list Z → Row) (tableWords : list Z) (entryCount : Z)
    : outcome ProcessCaptureError (list Row) :=
  mapM (λ index,
    words ← sub_slice tableWords (1 + index * rowWords) (1 + (index + 1) * rowWords); Ok (row words))
    (seqZ 0 entryCount).

Definition readRows {Row} (rowWords : Z) (row : list Z → Row) (calls : list TableCall) (ipv6 : bool)
    : option (outcome ProcessCaptureError (list Row)) :=
  table ← readOwnerPidConnectionTable calls ipv6 (4 * rowWords);
  Some ('(tableWords, entryCount) ← table; copyOwnerRows rowWords row tableWords entryCount).
Definition readIpv4OwnerPidConnections (calls : list TableCall)
    : option (outcome ProcessCaptureError (list Ipv4OwnerRow)) :=
  readRows ipv4RowWords ipv4Row calls false.
Definition readIpv6OwnerPidConnections (calls : list TableCall)
    : option (outcome ProcessCaptureError (list Ipv6OwnerRow)) :=
  readRows ipv6RowWords ipv6Row calls true.

(** ** Resetting *)
Definition deleteRowOf (row : Ipv4OwnerRow) : DeleteRow :=
  {| dr_state := MIB_TCP_STATE_DELETE_TCB; dr_localAddr := r4_localAddr row; dr_localPort := r4_localPort row;
     dr_remoteAddr := r4_remoteAddr row; dr_remotePort := r4_remotePort row |}.

(** The loop of [resetIpv4Connections]; [deleted] are the calls of [SetTcpEntry] so far,
    and [setTcpEntry i] answers the [i]-th. *)
Fixpoint deleteRows (setTcpEntry : nat → DeleteRow → Z) (rows : list Ipv4OwnerRow) (deleted : list DeleteRow)
    (resetIpv4Connections : Z) : list DeleteRow * outcome ProcessCaptureError Z :=
  match rows with
  | [] => (deleted, Ok resetIpv4Connections)
  | row :: rows =>
      let status := setTcpEntry (length deleted) (deleteRowOf row) in
      let deleted := deleted ++ [deleteRowOf row] in
      if status =? noError then deleteRows setTcpEntry rows deleted (resetIpv4Connections + 1)
      else if negb (status =? errorInvalidParameter) && negb (status =? errorNotFound) then
        (deleted, Err (ResetConnection false (r4_owningPid row) status))
      else deleteRows setTcpEntry rows deleted resetIpv4Connections
  end.

Definition resetIpv4Connections (calls : list TableCall) (setTcpEntry : nat → DeleteRow → Z)
    (selectedProcessIds : gset Z) : option (list DeleteRow * outcome ProcessCaptureError Z) :=
  rows ← readIpv4OwnerPidConnections calls;
  Some
    match rows with
    | Ok rows =>
        deleteRows setTcpEntry (filter (λ row, shouldResetIpv4Connection row selectedProcessIds = true) rows) [] 0
    | Err e => ([], Err e)
    | Panic => ([], Panic)
    end.

(** The second critical section of [queueIpv6Connections]. *)
Definition queuePending (rows : list Ipv6OwnerRow) (selectedProcessIds : gset Z) (now : Instant)
    (pending : Pending) : Pending * Z :=
  let deadline := now + ipv6ResetLifetime in
  let pending :=
    foldl (λ pending connection, <[connection := deadline]> pending) pending
      (ipv6ConnectionFromOwnerRow <$> filter (λ row, shouldQueueIpv6Connection row selectedProcessIds = true) rows) in
  (pending, Z.of_nat (size pending)).

Definition queueIpv6Connections (clock : nat → Instant) (env : nat → Pending → Pending)
    (rows : list Ipv6OwnerRow) (selectedProcessIds : gset Z) (pending : Pending) : Pending * Z :=
  let '(pending, _) := pruneExpiredResets (clock 0%nat) (env 0%nat pending) in
  queuePending rows selectedProcessIds (clock 1%nat) (env 1%nat pending).

(** [resetExistingConnections], with the rows of [SetTcpEntry] it asked to delete. *)
Definition resetExistingConnections (calls4 calls6 : list TableCall) (setTcpEntry : nat → DeleteRow → Z)
    (clock : nat → Instant) (env : nat → Pending → Pending) (selectedProcessIds : gset Z) (pending : Pending)
    : option (list DeleteRow * Pending * outcome ProcessCaptureError ConnectionResetSummary) :=
  '(deleted, reset) ← resetIpv4Connections calls4 setTcpEntry selectedProcessIds;
  match reset with
  | Ok resetIpv4Connections =>
      rows ← readIpv6OwnerPidConnections calls6;
      Some
        match rows with
        | Ok rows =>
            let '(pending, pendingIpv6Connections) :=
              queueIpv6Connections clock env rows selectedProcessIds pending in
            (deleted, pending,
             Ok {| rs_resetIpv4Connections := resetIpv4Connections;
                   rs_pendingIpv6Connections := pendingIpv6Connections |})
        | Err e => (deleted, pending, Err e)
        | Panic => (deleted, pending, Panic)
        end
  | Err e => Some (deleted, pending, Err e)
  | Panic => Some (deleted, pending, Panic)
  end.
End windows.
