(* ===== verification/ConnectionResetTheorems.v ===== *)
(** * Connections are reset for a reason

    The tables of the system are read within their buffers; a pair of resets is what the
    packet of a pending connection asks for, and nothing more; and a connection is reset
    only after it was found in the table of a selected process. *)

From S2P Require Import Prelude NetAddress CaptureTypes FlowTable PacketRewrite PacketRewriteTheorems Stateful ConnectionReset.

(** ** Segments *)
(** The extension headers from [offset] on, the first of kind [nextHeader], lead to a TCP
    header at [o]. *)
Inductive TcpAt (packet : list Z) : Z → Z → Z → Prop :=
| tcp_here o : TcpAt packet tcpProtocolNumber o o
| tcp_after_extension kind next length offset o :
    kind = 0 ∨ kind = 43 ∨ kind = 60 →
    get packet offset = Some next → get packet (offset + 1) = Some length →
    TcpAt packet next (offset + (length + 1) * 8) o → TcpAt packet kind offset o
| tcp_after_authentication next length offset o :
    get packet offset = Some next → get packet (offset + 1) = Some length →
    TcpAt packet next (offset + (length + 2) * 4) o → TcpAt packet 51 offset o.

Definition segmentAt (packet : list Z) (o : Z) : ParsedIpv6TcpPacket :=
  {| p6_sourceAddress := be_value (slice packet 8 24); p6_destinationAddress := be_value (slice packet 24 40);
     p6_sourcePort := be_value (slice packet o (o + 2)); p6_destinationPort := be_value (slice packet (o + 2) (o + 4));
     p6_sequenceNumber := be_value (slice packet (o + 4) (o + 8));
     p6_acknowledgementNumber := be_value (slice packet (o + 8) (o + 12)) |}.

(** A whole IPv6 segment that acknowledges and does not reset, without a fragment header. *)
Record AnswerableAt (packet : list Z) (o : Z) : Prop := {
  an_version : ∃ first, get packet 0 = Some first ∧ Z.shiftr first 4 = 6;
  an_header : ∃ next, get packet 6 = Some next ∧ TcpAt packet next 40 o;
  an_length : 40 ≤ o ∧ o + 20 ≤ len packet;
  an_flags : ∃ flags, get packet (o + 13) = Some flags ∧ Z.testbit flags 4 = true ∧ Z.testbit flags 2 = false;
}.

Lemma land_bit x n : 0 ≤ n → (Z.land x (2 ^ n) =? 0) = negb (Z.testbit x n).
Proof.
  intros Hn. destruct (Z.testbit x n) eqn:Hb; cbn [negb].
  - apply Z.eqb_neq. intros Hz. assert (Z.testbit (Z.land x (2 ^ n)) n = true) as Hs.
    { by rewrite Z.land_spec, Hb, Z.pow2_bits_true. }
    by rewrite Hz, Z.bits_0 in Hs.
  - apply Z.eqb_eq, Z.bits_inj'. intros m Hm. rewrite Z.land_spec, Z.bits_0.
    destruct (decide (n = m)) as [->|Hne]; [by rewrite Hb|]. by rewrite Z.pow2_bits_false, andb_false_r by lia.
Qed.

Section packet.
Context (packet : list Z) (packet_ok : bytes_ok packet).

Lemma get_slice_eq a b i : 0 ≤ a → 0 ≤ i < b - a → get (slice packet a b) i = get packet (a + i).
Proof. apply get_slice. Qed.

Lemma tcp_at_ext kind offset o :
  TcpAt packet kind offset o → kind = tcpProtocolNumber ∧ o = offset ∨
  ∃ next length step, get packet offset = Some next ∧ get packet (offset + 1) = Some length ∧
    TcpAt packet next (offset + step) o ∧
    ((kind = 0 ∨ kind = 43 ∨ kind = 60) ∧ step = (length + 1) * 8 ∨ kind = 51 ∧ step = (length + 2) * 4).
Proof. intros []; [by left|right..]; eauto 10. Qed.

(** An extension header is read when it lies in the packet. *)
Lemma extension_spec offset (step : Z → Z) (k : Z → Z → outcome unit Z) (P : Z → Prop) (Q : unit → Prop) :
  len packet ≤ i64_max → 0 ≤ offset → (∀ length, 0 ≤ length ≤ 255 → 0 ≤ step length ≤ 3000) →
  (∀ next length, get packet offset = Some next → get packet (offset + 1) = Some length → 0 ≤ length ≤ 255 →
     offset + 2 ≤ len packet → Satisfies (k next (offset + step length)) P Q) →
  (get packet (offset + 1) = None → Q tt) →
  Satisfies (header ← orNone (get_range packet offset (offset + 2));
             next ← idx header 0; length ← idx header 1;
             offset ← orNone (checked_add offset (step length)); k next offset) P Q.
Proof using packet_ok.
  intros Hmax Ho Hstep Hk Hn. apply satisfies_bind, satisfies_ok_or.
  - intros header (-> & _ & _ & Hl)%get_range_Some. pose proof (len_slice packet offset (offset + 2) Ho ltac:(lia) Hl) as Hlen.
    wp; [lia..|]. rewrite get_slice in Hx, Hx0 by lia. rewrite Z.add_0_r in Hx.
    pose proof (get_byte _ _ _ packet_ok Hx0) as Hb. specialize (Hstep x0 Hb).
    unfold checked_add, orNone. rewrite (proj2 (Z.leb_le _ _)).
    { by apply Hk. }
    unfold i64_max, usize_max, u64_max in *. lia.
  - unfold get_range. intros Hr. apply Hn, get_None. destruct (in_range packet offset (offset + 2)) eqn:Hin; [done|].
    destruct (decide (offset + 2 ≤ len packet)); [|lia].
    assert (in_range packet offset (offset + 2) = true) by (apply in_range_spec; lia). congruence.
Qed.

Lemma extensionLoop_spec fuel next offset :
  len packet ≤ i64_max → 0 ≤ offset → len packet - offset + 8 ≤ 8 * Z.of_nat fuel → (0 < fuel)%nat →
  Satisfies (extensionLoop fuel packet next offset)
    (λ o, TcpAt packet next offset o ∧ offset ≤ o) (λ _, ∀ o, ¬ TcpAt packet next offset o).
Proof using packet_ok.
  intros Hmax. revert next offset. induction fuel as [|fuel IH]; intros next offset Hoff Hfuel Hpos; [lia|].
  cbn [extensionLoop]. case_if Ht; [apply Z.eqb_eq in Ht as ->; apply satisfies_ret; split; [constructor|lia]|].
  apply Z.eqb_neq in Ht.
  assert (Hrange : get packet (offset + 1) = None → ∀ o, ¬ TcpAt packet next offset o).
  { by intros Hn o [[? _]|(? & ? & ? & _ & Hs & _)]%tcp_at_ext; [|rewrite Hn in Hs]. }
  case_if Hext; [|case_if Ha].
  - apply (extension_spec offset (λ length, (length + 1) * 8)); [done|done|intros; lia| |exact Hrange].
    intros kind length Hk Hl Hb Hin. eapply satisfies_mono; [..|apply IH; lia].
    + intros o [Htcp Ho]. split; [|lia]. eapply tcp_after_extension; [|done..].
      apply orb_true_iff in Hext as [[?%Z.eqb_eq|?%Z.eqb_eq]%orb_true_iff|?%Z.eqb_eq]; auto.
    + intros [] Hno o [[? _]|(k' & l' & step & Hk' & Hl' & Htcp & [[_ ->]|[-> _]])]%tcp_at_ext; [done| |done].
      simplify_eq. by eapply Hno.
  - apply Z.eqb_eq in Ha as ->. apply (extension_spec offset (λ length, (length + 2) * 4)); [done|done|intros; lia| |exact Hrange].
    intros kind length Hk Hl Hb Hin. eapply satisfies_mono; [..|apply IH; lia].
    + intros o [Htcp Ho]. split; [|lia]. by eapply tcp_after_authentication.
    + intros [] Hno o [[? _]|(k' & l' & step & Hk' & Hl' & Htcp & [[? _]|[_ ->]])]%tcp_at_ext; [done|naive_solver|].
      simplify_eq. by eapply Hno.
  - intros o [[? _]|(k' & l' & step & _ & _ & _ & [[Hor _]|[-> _]])]%tcp_at_ext; [done| |done].
    apply orb_false_iff in Hext as [[?%Z.eqb_neq ?%Z.eqb_neq]%orb_false_iff ?%Z.eqb_neq]. naive_solver.
Qed.
End packet.

Lemma tcp_at_unique packet kind offset o o' : TcpAt packet kind offset o → TcpAt packet kind offset o' → o = o'.
Proof.
  induction 1 as [o|kind next length offset o Hk Hn Hl _ IH|next length offset o Hn Hl _ IH];
    intros [[Hk' ?]|(next' & length' & step & Hn' & Hl' & Htcp & Hs)]%tcp_at_ext; unfold tcpProtocolNumber in *; naive_solver lia.
Qed.

Lemma satisfies_guard {E A} (b : bool) (e : E) (k : unit → outcome E A) P (Q : E → Prop) :
  (b = true → Satisfies (k tt) P Q) → (b = false → Q e) → Satisfies (check b e ≫= k) P Q.
Proof. by destruct b; cbn; auto. Qed.

Lemma get_range_None {A} (l : list A) a b : get_range l a b = None → 0 ≤ a ≤ b → len l < b.
Proof.
  unfold get_range. intros Hr Hab. destruct (in_range l a b) eqn:Hin; [done|].
  destruct (decide (b ≤ len l)); [|lia]. assert (in_range l a b = true) by (apply in_range_spec; lia). congruence.
Qed.

(** The parser decides which packets are answerable, and reads them. *)
Lemma parse_spec packet :
  bytes_ok packet → len packet ≤ i64_max →
  Satisfies (ConnectionReset.parseIpv6TcpPacket packet)
    (λ parsed, ∃ o, AnswerableAt packet o ∧ parsed = segmentAt packet o) (λ _, ∀ o, ¬ AnswerableAt packet o).
Proof.
  intros Hok Hmax. unfold ConnectionReset.parseIpv6TcpPacket, ipv6HeaderBytes.
  apply satisfies_guard; [intros Hl%Z.leb_le|intros Hl%Z.leb_gt o [_ _ [? ?] _]; lia].
  apply satisfies_bind, satisfies_idx; [lia|]. intros first Hfirst.
  apply satisfies_guard; [intros Hv%Z.eqb_eq|intros Hv%Z.eqb_neq o [(? & ? & ?) _ _ _]; congruence].
  wp. unfold tcpHeaderBytes. rename x into next, Hx into Hnext.
  eapply satisfies_mono; [..|apply (extensionLoop_spec packet Hok); [done|lia|unfold len in *; lia|unfold len in *; lia]].
  2: { intros [] Hno o [_ (next' & Hn & Htcp) _ _]. simplify_eq. by eapply Hno. }
  cbn beta. intros o [Htcp Ho].
  assert (Hunique : ∀ o', AnswerableAt packet o' → o' = o).
  { intros o' [_ (next' & Hn & Htcp') _ _]. simplify_eq. by eapply tcp_at_unique. }
  apply satisfies_bind, satisfies_ok_or.
  2: { intros Hr%get_range_None o' Ha; [|lia]. destruct (an_length _ _ Ha). rewrite (Hunique o' Ha) in *. lia. }
  intros tcp (-> & _ & _ & Hin)%get_range_Some. assert (Hlen : len (slice packet o (o + 20)) = 20) by (rewrite len_slice; lia).
  wp. rewrite get_slice in Hx by lia. unfold tcpAcknowledgementFlag, tcpResetFlag.
  pose proof (land_bit x 4 ltac:(lia)) as Hbit4. pose proof (land_bit x 2 ltac:(lia)) as Hbit2.
  change (2 ^ 4) with 16 in Hbit4. change (2 ^ 2) with 4 in Hbit2. rewrite Hbit4, Hbit2, negb_involutive.
  case_if Hflags.
  - apply satisfies_err. intros o' Ha. pose proof (Hunique o' Ha) as ->. destruct (an_flags _ _ Ha) as (flags & Hf & Hack & Hrst).
    simplify_eq. by rewrite Hack, Hrst in Hflags.
  - apply orb_false_iff in Hflags as [Hack%negb_false_iff Hrst]. wp.
    exists o. split; [by split; eauto|]. unfold segmentAt. f_equal; rewrite slice_slice by lia; do 2 f_equal; lia.
Qed.

(** ** Agreement with the rewriter *)
Lemma ensure_within packet offset n :
  len packet ≤ i64_max → offset + n ≤ len packet → ensureExtensionBytes packet offset n = Ok tt.
Proof.
  intros Hmax Hin. unfold ensureExtensionBytes, checked_add.
  rewrite (proj2 (Z.leb_le _ usize_max)), (proj2 (Z.leb_le _ (len packet))); [done|lia|].
  unfold i64_max, usize_max, u64_max in *. lia.
Qed.

(** The walk of the rewriter finds the same TCP header, and no fragment. *)
Lemma tcp_at_walk packet src dst outbound kind offset o :
  bytes_ok packet → len packet ≤ i64_max → TcpAt packet kind offset o → o + 20 ≤ len packet →
  offset ≤ o ∧ ∀ fuel, o - offset < 8 * Z.of_nat fuel →
    ipv6TcpLoop fuel packet src dst outbound kind offset None = Ok (WalkTcp o None).
Proof.
  intros Hok Hmax Htcp Hin. induction Htcp as [o|kind next length offset o Hk Hn Hl Htcp IH|next length offset o Hn Hl Htcp IH].
  { split; [lia|]. intros [|fuel] Hfuel; [lia|done]. }
  all: pose proof (get_byte _ _ _ Hok Hl) as Hb; destruct (IH Hin) as [Hle Hwalk]; split; [lia|];
    intros [|fuel] Hfuel; [lia|]; cbn [ipv6TcpLoop].
  - assert ((kind =? 6) = false) as -> by naive_solver.
    assert ((kind =? 0) || (kind =? 43) || (kind =? 60) = true) as -> by naive_solver.
    rewrite ensure_within, (idx_eq _ _ _ Hn), (idx_eq _ _ _ Hl) by lia. cbn [mbind outcome_bind].
    rewrite (proj2 (Z.leb_le _ (len packet))) by lia. cbn [check mbind outcome_bind]. apply Hwalk. lia.
  - change (51 =? 6) with false. change ((51 =? 0) || (51 =? 43) || (51 =? 60)) with false. cbn iota.
    change (51 =? 44) with false. change (51 =? 51) with true. cbn iota.
    rewrite ensure_within, (idx_eq _ _ _ Hn), (idx_eq _ _ _ Hl) by lia. cbn [mbind outcome_bind].
    rewrite (proj2 (Z.leb_le _ (len packet))) by lia. cbn [check mbind outcome_bind]. apply Hwalk. lia.
Qed.

(** The rewriter reads an answerable packet as this segment. *)
Definition ReadAs (packet : list Z) (o src dst sp dp : Z) : Prop :=
  ∀ outbound, ∃ t, parsePacket packet outbound = Ok (Tcp t) ∧ pt_fragmentKey t = None ∧ pt_tcpOffset t = o ∧
    pt_sourceAddress t = V6 src ∧ pt_destinationAddress t = V6 dst ∧
    readPort packet o = Ok sp ∧ readPort packet (o + 2) = Ok dp.

Lemma answerable_read packet o :
  bytes_ok packet → len packet ≤ i64_max → AnswerableAt packet o →
  let parsed := segmentAt packet o in
  ReadAs packet o (p6_sourceAddress parsed) (p6_destinationAddress parsed) (p6_sourcePort parsed)
    (p6_destinationPort parsed).
Proof.
  intros Hok Hmax [(first & Hf & Hv) (next & Hn & Htcp) [Hlo Hin] _] parsed outbound. subst parsed. eexists. split.
  - unfold parsePacket, packetVersion. rewrite Hf. cbn [ok_or mbind outcome_bind]. rewrite Hv.
    change (6 =? 4) with false. change (6 =? 6) with true. cbn iota.
    unfold PacketRewrite.parseIpv6TcpPacket, readIpv6. rewrite (proj2 (Z.leb_le _ _)) by lia.
    rewrite (idx_eq _ _ _ Hn), !sub_slice_eq by lia. cbn [check mbind outcome_bind].
    destruct (tcp_at_walk packet (V6 (be_value (slice packet 8 (8 + 16)))) (V6 (be_value (slice packet 24 (24 + 16)))) outbound _ _ _ Hok Hmax Htcp Hin)
      as [_ Hwalk].
    rewrite Hwalk by (unfold len in *; lia). cbn [mbind outcome_bind].
    rewrite (proj2 (Z.leb_le _ _)) by lia. cbn [check mbind outcome_bind]. done.
  - cbn [pt_fragmentKey pt_tcpOffset pt_sourceAddress pt_destinationAddress]. split_and!; [done..| |].
    + unfold readPort. rewrite readU16_slice; [done|rewrite len_slice; lia|lia..].
    + unfold readPort. rewrite readU16_slice; [cbn; do 3 f_equal; lia|rewrite len_slice; lia|lia..].
Qed.

(** ** Resets *)
(** A packet of a bare segment with nothing but the reset flag and this sequence number. *)
Record ResetSegment (packet : list Z) (src dst sp dp seq : Z) : Prop := {
  rg_length : len packet = 60;
  rg_read : ReadAs packet 40 src dst sp dp;
  rg_sequence : be_value (slice packet 44 48) = seq;
  rg_flags : get packet 53 = Some tcpResetFlag;
  rg_checks : get packet 6 = Some tcpProtocolNumber ∧ slice packet 4 6 = be_bytes 2 tcpHeaderBytes ∧
    get packet 52 = Some 80;
}.

Definition resetBytes (src dst sp dp seq : list Z) : list Z :=
  [96; 0; 0; 0; 0; 20; 6; 64] ++ src ++ dst ++ sp ++ dp ++ seq ++ [0; 0; 0; 0; 80; 4; 0; 0; 0; 0; 0; 0].

Lemma build_bytes s :
  buildIpv6ResetPacket s =
  Ok (resetBytes (be_bytes 16 (is_sourceAddress s)) (be_bytes 16 (is_destinationAddress s))
        (be_bytes 2 (is_sourcePort s)) (be_bytes 2 (is_destinationPort s)) (be_bytes 4 (is_sequenceNumber s))).
Proof.
  unfold buildIpv6ResetPacket.
  generalize (len_be_bytes 16 (is_sourceAddress s)), (len_be_bytes 16 (is_destinationAddress s)),
    (len_be_bytes 2 (is_sourcePort s)), (len_be_bytes 2 (is_destinationPort s)), (len_be_bytes 4 (is_sequenceNumber s)).
  generalize (be_bytes 16 (is_sourceAddress s)), (be_bytes 16 (is_destinationAddress s)),
    (be_bytes 2 (is_sourcePort s)), (be_bytes 2 (is_destinationPort s)), (be_bytes 4 (is_sequenceNumber s)).
  unfold len. intros src dst sp dp seq Hsrc%Nat2Z.inj Hdst%Nat2Z.inj Hsp%Nat2Z.inj Hdp%Nat2Z.inj Hseq%Nat2Z.inj.
  do 17 (destruct src as [|? src]; try discriminate Hsrc). do 17 (destruct dst as [|? dst]; try discriminate Hdst).
  do 3 (destruct sp as [|? sp]; try discriminate Hsp). do 3 (destruct dp as [|? dp]; try discriminate Hdp).
  do 5 (destruct seq as [|? seq]; try discriminate Hseq).
  reflexivity.
Qed.

Lemma reset_bytes_segment src dst sp dp seq :
  len src = Z.of_nat 16 → len dst = Z.of_nat 16 → len sp = Z.of_nat 2 → len dp = Z.of_nat 2 → len seq = Z.of_nat 4 →
  ResetSegment (resetBytes src dst sp dp seq) (be_value src) (be_value dst) (be_value sp) (be_value dp) (be_value seq).
Proof.
  unfold len. intros Hsrc%Nat2Z.inj Hdst%Nat2Z.inj Hsp%Nat2Z.inj Hdp%Nat2Z.inj Hseq%Nat2Z.inj.
  do 17 (destruct src as [|? src]; try discriminate Hsrc). do 17 (destruct dst as [|? dst]; try discriminate Hdst).
  do 3 (destruct sp as [|? sp]; try discriminate Hsp). do 3 (destruct dp as [|? dp]; try discriminate Hdp).
  do 5 (destruct seq as [|? seq]; try discriminate Hseq).
  split; [reflexivity| |reflexivity|reflexivity|by split_and!].
  intros outbound. eexists. split; [reflexivity|]. cbn [pt_fragmentKey pt_tcpOffset pt_sourceAddress pt_destinationAddress].
  split_and!; reflexivity.
Qed.

(** A reset is not answered by another. *)
Lemma reset_not_answerable src dst sp dp seq packet o :
  ResetSegment packet src dst sp dp seq → ¬ AnswerableAt packet o.
Proof.
  intros [_ _ _ Hflags [Hnext _]] [_ (next & Hn & Htcp) _ (flags & Hf & Hack & _)]. rewrite Hnext in Hn. injection Hn as <-.
  apply tcp_at_ext in Htcp as [[_ ->]|(? & ? & ? & _ & _ & _ & [[Hk _]|[Hk _]])]; [|unfold tcpProtocolNumber in *; naive_solver..].
  change (40 + 13) with 53 in Hf. rewrite Hflags in Hf. injection Hf as <-. done.
Qed.

(** The fields of a segment fit into those of a reset. *)
Definition fieldsOk (s : Ipv6ResetSpecification) : Prop :=
  0 ≤ is_sourceAddress s < ipv6_bits ∧ 0 ≤ is_destinationAddress s < ipv6_bits ∧
  is_u16 (is_sourcePort s) ∧ is_u16 (is_destinationPort s) ∧ is_u32 (is_sequenceNumber s).

Lemma build_spec s :
  fieldsOk s →
  ∃ packet, buildIpv6ResetPacket s = Ok packet ∧
    ResetSegment packet (is_sourceAddress s) (is_destinationAddress s) (is_sourcePort s) (is_destinationPort s)
      (is_sequenceNumber s).
Proof.
  intros (Hsrc & Hdst & Hsp & Hdp & Hseq). eexists. split; [apply build_bytes|].
  pose proof (reset_bytes_segment (be_bytes 16 (is_sourceAddress s)) (be_bytes 16 (is_destinationAddress s))
    (be_bytes 2 (is_sourcePort s)) (be_bytes 2 (is_destinationPort s)) (be_bytes 4 (is_sequenceNumber s))
    (len_be_bytes _ _) (len_be_bytes _ _) (len_be_bytes _ _) (len_be_bytes _ _) (len_be_bytes _ _)) as Hr.
  unfold is_u16, is_u32, u16_max, u32_max, ipv6_bits in *. rewrite !be_value_bytes in Hr by (cbn; lia). exact Hr.
Qed.

Lemma segment_fields packet o :
  bytes_ok packet → AnswerableAt packet o →
  fieldsOk (forwardReset (segmentAt packet o)) ∧ fieldsOk (reverseReset (segmentAt packet o)).
Proof.
  intros Hok [_ _ [Hlo Hin] _].
  assert (Hv : ∀ a n, 0 ≤ a → 0 ≤ n → a + n ≤ len packet → 0 ≤ be_value (slice packet a (a + n)) < 256 ^ n).
  { intros a n Ha Hn Hl. pose proof (be_value_bound (slice packet a (a + n)) (forall_slice _ _ _ _ Hok)) as Hb.
    by rewrite len_slice, Z.add_simpl_l in Hb by lia. }
  pose proof (Hv 8 16 ltac:(lia) ltac:(lia) ltac:(lia)). pose proof (Hv 24 16 ltac:(lia) ltac:(lia) ltac:(lia)).
  pose proof (Hv o 2 ltac:(lia) ltac:(lia) ltac:(lia)). pose proof (Hv (o + 2) 2 ltac:(lia) ltac:(lia) ltac:(lia)).
  pose proof (Hv (o + 4) 4 ltac:(lia) ltac:(lia) ltac:(lia)). pose proof (Hv (o + 8) 4 ltac:(lia) ltac:(lia) ltac:(lia)).
  unfold fieldsOk, is_u16, is_u32, u16_max, u32_max, ipv6_bits. cbn [forwardReset reverseReset segmentAt is_sourceAddress
    is_destinationAddress is_sourcePort is_destinationPort is_sequenceNumber p6_sourceAddress p6_destinationAddress
    p6_sourcePort p6_destinationPort p6_sequenceNumber p6_acknowledgementNumber].
  replace (o + 2 + 2) with (o + 4) in * by lia. replace (o + 4 + 4) with (o + 8) in * by lia.
  replace (o + 8 + 4) with (o + 12) in * by lia.
  change (8 + 16) with 24 in *. change (24 + 16) with 40 in *. change (256 ^ 2) with 65536 in *. change (256 ^ 4) with 4294967296 in *.
  change (256 ^ 16) with 340282366920938463463374607431768211456 in *. lia.
Qed.

(** *** Taking resets *)
(** Both ends of the connection of the segment at [o] get a reset with the number they expect. *)
Record ResetPair (packet : list Z) (outbound : bool) (o : Z) (packets : Ipv6ResetPackets) : Prop := {
  rr_connection : rp_connection packets = connectionOf (segmentAt packet o) outbound;
  rr_forward :
    let s := segmentAt packet o in
    ResetSegment (rp_forward packets) (p6_sourceAddress s) (p6_destinationAddress s) (p6_sourcePort s)
      (p6_destinationPort s) (p6_sequenceNumber s);
  rr_reverse :
    let s := segmentAt packet o in
    ResetSegment (rp_reverse packets) (p6_destinationAddress s) (p6_sourceAddress s) (p6_destinationPort s)
      (p6_sourcePort s) (p6_acknowledgementNumber s);
}.

(** C25: On any bytes and whatever other threads do, taking resets ends without panic.  It
    takes them exactly when the packet is a whole IPv6 TCP segment that acknowledges and
    does not reset, and its connection, read from the local end, is pending; then it
    removes this one entry, the rewriter reads the packet as the same segment, and the two
    resets are bare segments to either end with the sequence numbers the packet gives.
    They are not answered by further resets. *)
Theorem resets_taken clock env packet outbound pending :
  bytes_ok packet → len packet ≤ i64_max →
  let middle := env 1%nat (pruneExpiredConnections (env 0%nat pending) (clock 0%nat)) in
  match takeIpv6ResetPackets clock env packet outbound pending with
  | (pending', Ok packets) =>
      ∃ o, AnswerableAt packet o ∧ ResetPair packet outbound o packets ∧
        (let s := segmentAt packet o in
         ReadAs packet o (p6_sourceAddress s) (p6_destinationAddress s) (p6_sourcePort s) (p6_destinationPort s)) ∧
        middle !! rp_connection packets = Some (rp_deadline packets) ∧
        pending' = delete (rp_connection packets) middle ∧
        ∀ o', ¬ AnswerableAt (rp_forward packets) o' ∧ ¬ AnswerableAt (rp_reverse packets) o'
  | (pending', Err _) =>
      (pending' = pending ∧ ∀ o, ¬ AnswerableAt packet o) ∨
      (pending' = middle ∧ ∃ o, AnswerableAt packet o ∧ middle !! connectionOf (segmentAt packet o) outbound = None)
  | (_, Panic) => False
  end.
Proof.
  intros Hok Hmax middle. unfold takeIpv6ResetPackets. pose proof (parse_spec packet Hok Hmax) as Hp.
  destruct (ConnectionReset.parseIpv6TcpPacket packet) as [parsed|[]|]; [|by left|done].
  destruct Hp as (o & Ho & ->). cbn [pruneExpiredResets]. unfold takePending. fold middle. cbv zeta.
  destruct (middle !! _) as [deadline|] eqn:Hd; [|by eauto 10].
  destruct (segment_fields packet o Hok Ho) as [Hf Hr].
  destruct (build_spec _ Hf) as (forward & -> & Hforward). destruct (build_spec _ Hr) as (reverse & -> & Hreverse).
  cbn [mbind outcome_bind]. exists o. split_and!; try done; [by apply answerable_read|].
  cbn [rp_forward rp_reverse]. intros o'. split; by eapply reset_not_answerable.
Qed.

(** ** Why a connection is reset *)
Section windows.
Context `{WindowsTcp}.

(** What happened since the capture started. *)
Inductive ResetEvent :=
| Registered (row : Ipv6OwnerRow) (selectedProcessIds : gset Z) (now : Instant)
| Taken (connection : Ipv6Connection)
| Restored (connection : Ipv6Connection).

Record Resets := {
  re_pending : gmap Ipv6Connection Instant;
  re_inFlight : list Ipv6ResetPackets;
  re_history : list ResetEvent
}.
Definition newResets : Resets := {| re_pending := ∅; re_inFlight := []; re_history := [] |}.

Definition queued (rows : list Ipv6OwnerRow) (selectedProcessIds : gset Z) : list Ipv6OwnerRow :=
  filter (λ row, shouldQueueIpv6Connection row selectedProcessIds = true) rows.

(** The critical sections of all threads.  The capture is started and stopped without
    workers, so that no resets are under way when everything is cleared. *)
Inductive ResetStep (s : Resets) : Resets → Prop :=
| step_prune now :
    ResetStep s {| re_pending := (pruneExpiredResets now (re_pending s)).1; re_inFlight := re_inFlight s;
                   re_history := re_history s |}
| step_queue rows selectedProcessIds now :
    ResetStep s {| re_pending := (queuePending rows selectedProcessIds now (re_pending s)).1;
                   re_inFlight := re_inFlight s;
                   re_history := re_history s ++
                     ((λ row, Registered row selectedProcessIds now) <$> queued rows selectedProcessIds) |}
| step_take parsed outbound pending packets :
    takePending parsed outbound (re_pending s) = (pending, Ok packets) →
    ResetStep s {| re_pending := pending; re_inFlight := re_inFlight s ++ [packets];
                   re_history := re_history s ++ [Taken (rp_connection packets)] |}
| step_sent i :
    ResetStep s {| re_pending := re_pending s; re_inFlight := delete i (re_inFlight s); re_history := re_history s |}
| step_restore i packets now :
    re_inFlight s !! i = Some packets →
    ResetStep s {| re_pending := restorePending packets now (re_pending s); re_inFlight := delete i (re_inFlight s);
                   re_history := re_history s ++ [Restored (rp_connection packets)] |}
| step_clear :
    re_inFlight s = [] →
    ResetStep s {| re_pending := clearResets (re_pending s); re_inFlight := []; re_history := [] |}.

(** The connection with this deadline was found in the table of a selected process. *)
Definition Found (history : list ResetEvent) (c : Ipv6Connection) (deadline : Instant) : Prop :=
  ∃ row selectedProcessIds now,
    Registered row selectedProcessIds now ∈ history ∧ shouldQueueIpv6Connection row selectedProcessIds = true ∧
    ipv6ConnectionFromOwnerRow row = c ∧ deadline = now + ipv6ResetLifetime.

Definition granted (c : Ipv6Connection) (e : ResetEvent) : Z :=
  match e with
  | Registered row _ _ => if decide (ipv6ConnectionFromOwnerRow row = c) then 1 else 0
  | Restored c' => if decide (c' = c) then 1 else 0
  | Taken _ => 0
  end.
Definition spent (c : Ipv6Connection) (e : ResetEvent) : Z :=
  match e with Taken c' => if decide (c' = c) then 1 else 0 | _ => 0 end.

Record Justified (s : Resets) : Prop := {
  ju_pending c deadline : re_pending s !! c = Some deadline → Found (re_history s) c deadline;
  ju_inFlight packets :
    packets ∈ re_inFlight s → Found (re_history s) (rp_connection packets) (rp_deadline packets);
  ju_counts c :
    sum_by (spent c) (re_history s) + (if decide (is_Some (re_pending s !! c)) then 1 else 0) ≤
    sum_by (granted c) (re_history s);
}.

Lemma found_more history more c deadline : Found history c deadline → Found (history ++ more) c deadline.
Proof. intros (row & sel & now & ? & ? & ? & ?). exists row, sel, now. split_and!; [apply elem_of_app; by left|done..]. Qed.

Lemma unexpired_lookup pending now c deadline :
  pruneExpiredConnections pending now !! c = Some deadline ↔ pending !! c = Some deadline ∧ now < deadline.
Proof. unfold pruneExpiredConnections. by rewrite map_lookup_filter_Some. Qed.

Lemma queue_lookup rows sel now pending c :
  (queuePending rows sel now pending).1 !! c =
    if decide (c ∈ ipv6ConnectionFromOwnerRow <$> queued rows sel) then Some (now + ipv6ResetLifetime) else pending !! c.
Proof.
  unfold queuePending. cbn [fst]. fold (queued rows sel).
  generalize (ipv6ConnectionFromOwnerRow <$> queued rows sel) as cs. intros cs. revert pending.
  induction cs as [|c' cs IH]; intros pending; cbn [foldl]; [done|]. rewrite IH.
  destruct (decide (c ∈ cs)); [by rewrite decide_True by set_solver|].
  destruct (decide (c = c')) as [->|Hne]; [rewrite decide_True by set_solver; apply lookup_insert_eq|].
  rewrite decide_False by set_solver. by apply lookup_insert_ne.
Qed.

Lemma take_inv parsed outbound pending pending' packets :
  takePending parsed outbound pending = (pending', Ok packets) →
  pending !! rp_connection packets = Some (rp_deadline packets) ∧ pending' = delete (rp_connection packets) pending.
Proof.
  unfold takePending. cbv zeta. destruct (pending !! _) as [deadline|] eqn:Hd; [|done].
  intros Heq. apply pair_eq in Heq as [<- Heq]. inv_bind Heq. injection Heq as <-. done.
Qed.

Lemma granted_nonneg c e : 0 ≤ granted c e.
Proof. destruct e; cbn; [case_decide; lia|lia|case_decide; lia]. Qed.

Lemma queued_granted c rows sel now :
  c ∈ ipv6ConnectionFromOwnerRow <$> queued rows sel →
  1 ≤ sum_by (granted c) ((λ row, Registered row sel now) <$> queued rows sel).
Proof.
  intros (row & -> & Hrow)%list_elem_of_fmap. apply list_elem_of_split in Hrow as (l1 & l2 & ->).
  rewrite fmap_app, sum_by_app, fmap_cons. change (sum_by ?f (?x :: ?l)) with (f x + sum_by f l). cbn [granted].
  rewrite decide_True by done. pose proof (sum_by_nonneg (granted (ipv6ConnectionFromOwnerRow row))) as Hpos.
  pose proof (Hpos ((λ row, Registered row sel now) <$> l1) (λ e _, granted_nonneg _ e)).
  pose proof (Hpos ((λ row, Registered row sel now) <$> l2) (λ e _, granted_nonneg _ e)). lia.
Qed.

Lemma step_justified s s' : ResetStep s s' → Justified s → Justified s'.
Proof.
  intros Hstep [Hp Hf Hc]. destruct Hstep as [now|rows sel now|parsed outbound pending packets Ht|i|i packets now Hi|Hn].
  - split; cbn [re_pending re_inFlight re_history pruneExpiredResets fst]; [|done|].
    + intros c d [Hd _]%unexpired_lookup. auto.
    + intros c. specialize (Hc c). destruct (decide (is_Some (pruneExpiredConnections _ _ !! c))) as [[d [Hd _]%unexpired_lookup]|];
        [|case_decide; lia]. by rewrite decide_True in Hc by eauto.
  - split; cbn [re_pending re_inFlight re_history].
    + intros c d. rewrite queue_lookup. case_decide as Hin; [|intros Hd; by apply found_more, Hp]. intros [= <-].
      apply list_elem_of_fmap in Hin as (row & -> & Hrow). pose proof Hrow as [Hs _]%list_elem_of_filter.
      exists row, sel, now. split_and!; [|done..]. apply elem_of_app. right. apply list_elem_of_fmap. eauto.
    + intros packets Hin. by apply found_more, Hf.
    + intros c. specialize (Hc c). rewrite !sum_by_app, queue_lookup.
      assert (Hspent : sum_by (spent c) ((λ row, Registered row sel now) <$> queued rows sel) = 0).
      { unfold sum_by. induction (queued rows sel); cbn; [done|lia]. }
      destruct (decide (c ∈ _)) as [Hin|Hin].
      * pose proof (queued_granted _ _ _ now Hin). rewrite decide_True by done. case_decide; lia.
      * pose proof (sum_by_nonneg (granted c) ((λ row, Registered row sel now) <$> queued rows sel) (λ e _, granted_nonneg c e)). lia.
  - apply take_inv in Ht as [Hd ->]. split; cbn [re_pending re_inFlight re_history].
    + intros c d [_ Hd']%lookup_delete_Some. by apply found_more, Hp.
    + intros packets' [Hin| ->%list_elem_of_singleton]%elem_of_app; apply found_more; [by apply Hf|by apply Hp].
    + intros c. specialize (Hc c). rewrite !sum_by_app. unfold sum_by at 2 4. cbn [foldr spent granted].
      destruct (decide (rp_connection packets = c)) as [<-|Hne].
      * rewrite Hd, decide_True in Hc by done. rewrite lookup_delete_eq, decide_False by (by intros []). lia.
      * rewrite lookup_delete_ne by done. lia.
  - split; cbn [re_pending re_inFlight re_history]; [done| |done]. intros packets Hin. apply Hf.
    eapply elem_of_sublist; [exact Hin|apply sublist_delete].
  - pose proof (Hf packets (list_elem_of_lookup_2 _ _ _ Hi)) as Hfound.
    assert (Hlookup : ∀ c d, restorePending packets now (re_pending s) !! c = Some d →
      re_pending s !! c = Some d ∨ c = rp_connection packets ∧ d = rp_deadline packets).
    { intros c d. unfold restorePending. cbv zeta.
      destruct (pruneExpiredConnections _ _ !! rp_connection packets) as [d0|] eqn:Hd0.
      - intros [[<- <-]|[_ Hd]]%lookup_insert_Some; [|left; by apply unexpired_lookup in Hd as [? _]].
        destruct (Z.max_spec d0 (rp_deadline packets)) as [[_ ->]|[_ ->]]; [by right|left; by apply unexpired_lookup in Hd0 as [? _]].
      - intros [[<- <-]|[_ Hd]]%lookup_insert_Some; [by right|left; by apply unexpired_lookup in Hd as [? _]]. }
    split; cbn [re_pending re_inFlight re_history].
    + intros c d [Hd|[-> ->]]%Hlookup; apply found_more; auto.
    + intros packets' Hin. apply found_more, Hf. eapply elem_of_sublist; [exact Hin|apply sublist_delete].
    + intros c. specialize (Hc c). rewrite !sum_by_app. unfold sum_by at 2 4. cbn [foldr spent granted].
      destruct (decide (rp_connection packets = c)) as [<-|Hne]; [repeat case_decide; lia|].
      destruct (decide (is_Some (restorePending packets now (re_pending s) !! c))) as [[d [Hd|[? _]]%Hlookup]|]; [|done|].
      * rewrite decide_True in Hc by done. lia.
      * case_decide; lia.
  - split; cbn; unfold clearResets; [by intros c d|by intros p ?%elem_of_nil|]. intros c. rewrite lookup_empty, decide_False by (by intros []).
    unfold sum_by. cbn. lia.
Qed.

Lemma steps_justified s s' : rtc ResetStep s s' → Justified s → Justified s'.
Proof. induction 1; eauto using step_justified. Qed.

Lemma new_justified : Justified newResets.
Proof.
  split; cbn; [by intros c d|by intros p ?%elem_of_nil|]. intros c. rewrite lookup_empty, decide_False by (by intros []).
  unfold sum_by. cbn. lia.
Qed.

(** C26: Whatever the threads do after the capture has started: when no other thread comes
    between its sections, a packet is answered with resets only if its connection was found
    in the table of a selected process less than thirty seconds before; and at any time a
    connection was reset no more often than it was found or a failed reset was put back. *)
Theorem resets_justified s :
  rtc ResetStep newResets s →
  (∀ clock packet outbound pending packets,
     takeIpv6ResetPackets clock (λ _ p, p) packet outbound (re_pending s) = (pending, Ok packets) →
     ∃ row selectedProcessIds now,
       Registered row selectedProcessIds now ∈ re_history s ∧
       shouldQueueIpv6Connection row selectedProcessIds = true ∧
       ipv6ConnectionFromOwnerRow row = rp_connection packets ∧
       clock 0%nat < rp_deadline packets ∧ rp_deadline packets = now + ipv6ResetLifetime) ∧
  ∀ c, sum_by (spent c) (re_history s) ≤ sum_by (granted c) (re_history s).
Proof.
  intros Hr. pose proof (steps_justified _ _ Hr new_justified) as [Hp _ Hc]. split.
  - intros clock packet outbound pending packets. unfold takeIpv6ResetPackets.
    destruct (ConnectionReset.parseIpv6TcpPacket packet) as [parsed|e|]; [|done..]. cbn [pruneExpiredResets].
    intros [[Hd Hlt]%unexpired_lookup _]%take_inv. destruct (Hp _ _ Hd) as (row & sel & now & ? & ? & ? & ?). eauto 10.
  - intros c. specialize (Hc c). case_decide; lia.
Qed.

(** ** Existing connections *)
(** What the system documents of [GetExtendedTcpTable]: it keeps to the buffer it is given,
    and when it succeeds the table fits into it. *)
Definition CallOk (call : TableCall) : Prop :=
  ∀ size buffer, Forall is_u32 buffer → let '(status, size', buffer') := call size buffer in
    length buffer' = length buffer ∧ Forall is_u32 buffer' ∧ (status = noError → size' ≤ 4 * len buffer').

(** The errors of the enumeration of a family. *)
Definition EnumerationError (ipv6 : bool) (e : ProcessCaptureError) : Prop :=
  e = InvalidConnectionTable ipv6 ∨ ∃ status, e = EnumerateConnections ipv6 status ∧ status ≠ noError.

Lemma table_spec calls ipv6 rowWords size result :
  0 < rowWords → Forall CallOk calls → tableLoop calls ipv6 (4 * rowWords) size = Some result →
  Satisfies result (λ '(words, count), get words 0 = Some count ∧ 0 ≤ count ∧ 1 + count * rowWords ≤ len words)
    (EnumerationError ipv6).
Proof.
  intros Hrow Hall. revert size. induction Hall as [|call calls Hcall _ IH]; intros size; [done|].
  cbn [tableLoop]. set (buffer := replicate _ 0). specialize (Hcall size buffer).
  assert (Hzero : Forall is_u32 buffer) by (apply Forall_replicate; unfold is_u32, u32_max; lia). specialize (Hcall Hzero).
  destruct (call size buffer) as [[status size'] words]. destruct Hcall as (Hlen & Hu32 & Hfits).
  case_if Hmore; [apply IH|]. intros [= <-]. case_if Hst.
  { apply satisfies_err. right. exists status. split; [done|]. by apply negb_true_iff, Z.eqb_neq in Hst. }
  apply negb_false_iff, Z.eqb_eq in Hst. specialize (Hfits Hst).
  assert (Hpos : 0 < len words).
  { unfold len. rewrite Hlen. subst buffer. rewrite length_replicate. lia. }
  wp. pose proof (get_elem_of _ _ _ Hx) as Hin. rewrite Forall_forall in Hu32. specialize (Hu32 _ Hin). unfold is_u32 in Hu32.
  cbv zeta. case_if Hrows; [apply satisfies_err; by left|]. apply Z.ltb_ge in Hrows.
  apply satisfies_ret. split_and!; [done|lia|]. unfold saturating_sub in Hrows.
  pose proof (Z.mul_div_le (Z.max (size' - 4) 0) (4 * rowWords) ltac:(lia)). nia.
Qed.

Lemma mapM_Ok {E A B} (f : A → outcome E B) (g : A → B) l :
  Forall (λ x, f x = Ok (g x)) l → mapM f l = Ok (g <$> l).
Proof. induction 1 as [|x l Hx _ IH]; [done|].
  change (f x ≫= (λ y, mapM f l ≫= λ k, Ok (y :: k)) = Ok (g x :: (g <$> l))). by rewrite Hx, IH. Qed.

Definition rowAt {Row} (rowWords : Z) (row : list Z → Row) (words : list Z) (i : Z) : Row :=
  row (slice words (1 + i * rowWords) (1 + (i + 1) * rowWords)).

(** The rows are those of the table, and no word outside of the buffer is read. *)
Lemma rows_spec {Row} (row : list Z → Row) calls ipv6 rowWords result :
  0 < rowWords → Forall CallOk calls → readRows rowWords row calls ipv6 = Some result →
  Satisfies result
    (λ rows, ∃ words count, get words 0 = Some count ∧ 1 + count * rowWords ≤ len words ∧
       rows = rowAt rowWords row words <$> seqZ 0 count)
    (EnumerationError ipv6).
Proof.
  intros Hrow Hall. unfold readRows, readOwnerPidConnectionTable. destruct Hall as [|call calls _ Hall]; [done|].
  destruct (call 0 []) as [[status size] buffer]. case_if Hst.
  { intros [= <-]. apply satisfies_err. right. exists status. split; [done|]. intros ->. done. }
  destruct (tableLoop calls ipv6 (4 * rowWords) size) as [table|] eqn:Ht; [|done]. intros [= <-].
  apply satisfies_bind. eapply satisfies_mono; [| |by eapply table_spec]; [|done].
  intros [words count] (Hget & Hpos & Hfits). unfold copyOwnerRows.
  rewrite (mapM_Ok _ (rowAt rowWords row words)); [apply satisfies_ret; eauto 10|].
  apply Forall_forall. intros i [Hi Hlt]%elem_of_seqZ. rewrite sub_slice_eq by nia. done.
Qed.

Definition accepted (status : Z) : Prop :=
  status = noError ∨ status = errorInvalidParameter ∨ status = errorNotFound.

Section existing.
Context (setTcpEntry : nat → DeleteRow → Z).

Definition succeeded (i : nat) (d : DeleteRow) : Z := if setTcpEntry i d =? noError then 1 else 0.

(** What a run of the loop over [rows] adds to the calls and the count before it. *)
Definition Deletes (rows : list Ipv4OwnerRow) (deleted : list DeleteRow) (count : Z)
    (run : list DeleteRow * outcome ProcessCaptureError Z) : Prop :=
  ∃ front rest, rows = front ++ rest ∧ run.1 = deleted ++ (deleteRowOf <$> front) ∧
    Satisfies run.2
      (λ n, rest = [] ∧
         (∀ i d, (deleteRowOf <$> front) !! i = Some d → accepted (setTcpEntry (length deleted + i) d)) ∧
         n = count + sum_by id (imap (λ i, succeeded (length deleted + i)) (deleteRowOf <$> front)))
      (λ e, ∃ before row status, front = before ++ [row] ∧ e = ResetConnection false (r4_owningPid row) status ∧
         status = setTcpEntry (length deleted + length before) (deleteRowOf row) ∧ ¬ accepted status).

Lemma deletes_more row rows deleted count n run :
  let status := setTcpEntry (length deleted) (deleteRowOf row) in
  accepted status → n = (if status =? noError then 1 else 0) →
  Deletes rows (deleted ++ [deleteRowOf row]) (count + n) run → Deletes (row :: rows) deleted count run.
Proof.
  intros status Hacc Hn (front & rest & -> & Hrun & Hres).
  assert (Hlen : ∀ i, (length (deleted ++ [deleteRowOf row]) + i = length deleted + S i)%nat).
  { intros. rewrite length_app. cbn. lia. }
  exists (row :: front), rest. split_and!; [done|by rewrite Hrun, <-app_assoc|]. eapply satisfies_mono, Hres; cbn beta.
  - intros m (-> & Hall & ->). split_and!; [done| |].
    + intros [|i] d'; cbn; [intros [= <-]; by rewrite Nat.add_0_r|]. rewrite <-Hlen. apply Hall.
    + cbn [fmap list_fmap imap]. change (sum_by id (?x :: ?l)) with (x + sum_by id l). unfold succeeded at 2.
      rewrite Nat.add_0_r. fold status. rewrite <-Z.add_assoc, <-Hn. do 2 f_equal.
      f_equal. apply imap_ext. intros i x _. unfold compose. by rewrite Hlen.
  - intros e (before & row' & st & -> & -> & -> & Hna). exists (row :: before), row'. eexists.
    split_and!; [done|done| |exact Hna]. cbn [length]. by rewrite Hlen.
Qed.

Lemma delete_spec rows deleted count : Deletes rows deleted count (deleteRows setTcpEntry rows deleted count).
Proof.
  revert deleted count. induction rows as [|row rows IH]; intros deleted count; cbn [deleteRows].
  { exists [], []. split_and!; [done|by rewrite app_nil_r|]. apply satisfies_ret. split_and!; [done|done|]. cbn. lia. }
  cbv zeta. set (status := setTcpEntry _ _). case_if Hok.
  { apply (deletes_more _ _ _ _ 1); [left; by apply Z.eqb_eq|fold status; by rewrite Hok|apply IH]. }
  case_if Hbad.
  - exists [row], rows. split_and!; [done|done|]. apply satisfies_err. exists [], row, status.
    split_and!; [done|done|subst status; cbn; by rewrite Nat.add_0_r|].
    apply andb_true_iff in Hbad as [?%negb_true_iff%Z.eqb_neq ?%negb_true_iff%Z.eqb_neq]. apply Z.eqb_neq in Hok.
    unfold accepted. naive_solver.
  - apply (deletes_more _ _ _ _ 0); [|fold status; by rewrite Hok|rewrite Z.add_0_r; apply IH].
    apply andb_false_iff in Hbad as [?%negb_false_iff%Z.eqb_eq|?%negb_false_iff%Z.eqb_eq]; unfold accepted; auto.
Qed.
End existing.

(** C27: Under what the system documents, resetting the connections of the selected processes
    reads the two tables within their buffers and does not panic.  When it succeeds, exactly
    the resettable IPv4 connections of these processes were given to the system, in the order
    of the table, and counted when deleted, and the IPv6 ones are pending for thirty seconds
    more; an error is one of the system, the IPv6 connections are then as before, and nothing
    was deleted but a front of the same list. *)
Theorem existing_connections_reset calls4 calls6 setTcpEntry clock env selectedProcessIds pending deleted pending' result :
  0 < ipv4RowWords → 0 < ipv6RowWords → Forall CallOk calls4 → Forall CallOk calls6 →
  resetExistingConnections calls4 calls6 setTcpEntry clock env selectedProcessIds pending =
    Some (deleted, pending', result) →
  let wanted rows := deleteRowOf <$> filter (λ row, shouldResetIpv4Connection row selectedProcessIds = true) rows in
  let middle := env 1%nat (pruneExpiredConnections (env 0%nat pending) (clock 0%nat)) in
  Satisfies result
    (λ summary, ∃ rows4 rows6,
       readIpv4OwnerPidConnections calls4 = Some (Ok rows4) ∧ readIpv6OwnerPidConnections calls6 = Some (Ok rows6) ∧
       deleted = wanted rows4 ∧ (∀ i d, deleted !! i = Some d → accepted (setTcpEntry i d)) ∧
       rs_resetIpv4Connections summary = sum_by id (imap (succeeded setTcpEntry) deleted) ∧
       rs_pendingIpv6Connections summary = Z.of_nat (size pending') ∧
       ∀ c, pending' !! c =
         if decide (c ∈ ipv6ConnectionFromOwnerRow <$> queued rows6 selectedProcessIds)
         then Some (clock 1%nat + ipv6ResetLifetime) else middle !! c)
    (λ e, pending' = pending ∧
       (deleted = [] ∨ ∃ rows4, readIpv4OwnerPidConnections calls4 = Some (Ok rows4) ∧ deleted `prefix_of` wanted rows4) ∧
       (EnumerationError false e ∨ EnumerationError true e ∨
        ∃ processId status, e = ResetConnection false processId status ∧ ¬ accepted status)).
Proof.
  intros H4 H6 Hc4 Hc6 Hrun wanted middle. unfold resetExistingConnections, resetIpv4Connections in Hrun.
  destruct (readIpv4OwnerPidConnections calls4) as [rows4|] eqn:Hr4; [|done].
  pose proof (rows_spec ipv4Row calls4 false ipv4RowWords rows4 H4 Hc4 Hr4) as Hs4. cbn [mbind option_bind] in Hrun.
  destruct rows4 as [rows4|e|]; [|by injection Hrun as <- <- <-; apply satisfies_err; auto|done].
  destruct (delete_spec setTcpEntry (filter (λ row, shouldResetIpv4Connection row selectedProcessIds = true) rows4) [] 0)
    as (front & rest & Hrows & Hdel & Hres).
  destruct (deleteRows _ _ _ _) as [deleted' [n|e|]]; cbn [fst snd] in Hdel, Hres; [| |done].
  2: { injection Hrun as <- <- <-. apply satisfies_err. split_and!; [done| |].
       - right. exists rows4. split; [done|]. unfold wanted. rewrite Hrows, Hdel, fmap_app. by eexists.
       - destruct Hres as (before & row & status & _ & -> & _ & Hna). eauto 10. }
  destruct Hres as (-> & Hacc & ->). rewrite app_nil_r in Hrows. cbn [app] in Hdel. subst deleted'.
  assert (Hwanted : deleteRowOf <$> front = wanted rows4) by (unfold wanted; by rewrite Hrows).
  destruct (readIpv6OwnerPidConnections calls6) as [rows6|] eqn:Hr6; [|done].
  pose proof (rows_spec ipv6Row calls6 true ipv6RowWords rows6 H6 Hc6 Hr6) as Hs6. cbn [mbind option_bind] in Hrun.
  destruct rows6 as [rows6|e|]; [| |done].
  2: { injection Hrun as <- <- <-. apply satisfies_err. split_and!; [done| |auto].
       right. exists rows4. split; [done|]. by rewrite Hwanted. }
  unfold queueIpv6Connections in Hrun. cbn [pruneExpiredResets] in Hrun. fold middle in Hrun.
  destruct (queuePending rows6 selectedProcessIds (clock 1%nat) middle) as [p k] eqn:Hq.
  injection Hrun as <- <- <-. apply satisfies_ret. exists rows4, rows6. split_and!; try done.
  - unfold queuePending in Hq. by injection Hq as <- <-.
  - intros c. rewrite <-(queue_lookup rows6 selectedProcessIds (clock 1%nat) middle c). by rewrite Hq.
Qed.
End windows.

(** * Connections on concrete inputs *)
(** The rows as the headers of Windows declare them. *)
Definition wordsBytes (words : list Z) : list Z := words ≫= to_ne_bytes.

#[export] Instance windowsEx : WindowsTcp :=
  {| MIB_TCP_STATE_CLOSED := 1; MIB_TCP_STATE_LISTEN := 2; MIB_TCP_STATE_DELETE_TCB := 12;
     ipv4RowWords := 6; ipv6RowWords := 14;
     ipv4Row words := let w i := nth i words 0 in
       {| r4_state := w 0%nat; r4_localAddr := w 1%nat; r4_localPort := w 2%nat; r4_remoteAddr := w 3%nat;
          r4_remotePort := w 4%nat; r4_owningPid := w 5%nat |};
     ipv6Row words := let w i := nth i words 0 in
       {| r6_localAddr := wordsBytes (take 4 words); r6_localScopeId := w 4%nat; r6_localPort := w 5%nat;
          r6_remoteAddr := wordsBytes (take 4 (drop 6 words)); r6_remoteScopeId := w 10%nat;
          r6_remotePort := w 11%nat; r6_state := w 12%nat; r6_owningPid := w 13%nat |} |}.

(** Process 7 has an IPv4 and an IPv6 connection and one of loopback; 9 is not selected. *)
Definition selectedEx : gset Z := {[7]}.
Definition words4 : list Z :=
  [3; 5; 33620234 (* 10.1.1.2 *); 20480; 16843018 (* 10.1.1.1 *); 47873; 7;
   5; 16777343 (* 127.0.0.1 *); 20480; 16777343; 47873; 7;
   5; 33620234; 20736; 16843018; 47873; 9].
Definition words6 : list Z :=
  [1; 288 (* 2001:.. *); 0; 0; 16777216; 0; 20480; 288; 0; 0; 33554432; 0; 47873; 5; 7].

(** The size is asked for first; then the table is copied. *)
Definition callsEx (words : list Z) : list TableCall :=
  [λ _ buffer, (errorInsufficientBuffer, 4 * len words, buffer);
   λ size buffer,
     if len words <=? len buffer
     then (noError, 4 * len words, words ++ replicate (length buffer - length words) 0)
     else (errorInsufficientBuffer, 4 * len words, replicate (length buffer) 0)].

Lemma callsEx_ok words : Forall is_u32 words → Forall CallOk (callsEx words).
Proof.
  intros Hwords. assert (Hzero : ∀ n, Forall is_u32 (replicate n 0)).
  { intros n. apply Forall_replicate. unfold is_u32, u32_max. lia. }
  apply Forall_cons. split.
  { intros size buffer Hb. by cbn. }
  apply Forall_singleton. intros size buffer Hb. cbn. case_if Hfits.
  - apply Z.leb_le in Hfits. unfold len in *. split_and!.
    + rewrite length_app, length_replicate. lia.
    + by apply Forall_app.
    + intros _. rewrite length_app. lia.
  - split_and!; [by rewrite length_replicate|done|done].
Qed.

(** The system does not know the second connection any more. *)
Definition setTcpEntryEx (i : nat) (d : DeleteRow) : Z := if (i =? 0)%nat then noError else errorNotFound.

Definition existingEx : option (list DeleteRow * gmap Ipv6Connection Instant * outcome ProcessCaptureError ConnectionResetSummary) :=
  resetExistingConnections (callsEx words4) (callsEx words6) setTcpEntryEx (λ _, 5000) (λ _ p, p) selectedEx ∅.
Definition pendingEx : gmap Ipv6Connection Instant := match existingEx with Some (_, p, _) => p | None => ∅ end.
Definition connectionEx : Ipv6Connection :=
  {| ic_localAddress := 42540488161975842760550356425300246529; ic_localPort := 80;
     ic_remoteAddress := 42540488161975842760550356425300246530; ic_remotePort := 443 |}.

Example existingEx_runs :
  match existingEx with
  | Some (deleted, pending, result) => (dr_remoteAddr <$> deleted, map_to_list pending, result)
  | None => ([], [], Panic)
  end = ([16843018], [(connectionEx, 35000)], Ok {| rs_resetIpv4Connections := 1; rs_pendingIpv6Connections := 1 |}).
Proof. by vm_compute. Qed.

Definition summaryEx : ConnectionResetSummary := {| rs_resetIpv4Connections := 1; rs_pendingIpv6Connections := 1 |}.

Definition deletedEx : list DeleteRow := match existingEx with Some (deleted, _, _) => deleted | None => [] end.

Lemma existingEx_eq : existingEx = Some (deletedEx, pendingEx, Ok summaryEx).
Proof.
  pose proof existingEx_runs as Hr. unfold deletedEx, pendingEx. destruct existingEx as [[[d p] r]|]; [|done].
  by apply pair_eq in Hr as [_ ->].
Qed.

Lemma wordsEx_ok : Forall is_u32 words4 ∧ Forall is_u32 words6.
Proof. split; [unfold words4|unfold words6]; unfold is_u32, u32_max; repeat (apply Forall_cons_2; [lia|]); constructor. Qed.

Lemma existing_connections_reset_witness :
  ∃ rows4 rows6,
    readIpv4OwnerPidConnections (callsEx words4) = Some (Ok rows4) ∧
    readIpv6OwnerPidConnections (callsEx words6) = Some (Ok rows6) ∧
    deletedEx = (deleteRowOf <$> filter (λ row, shouldResetIpv4Connection row selectedEx = true) rows4) ∧
    (∀ i d, deletedEx !! i = Some d → accepted (setTcpEntryEx i d)) ∧
    rs_resetIpv4Connections summaryEx = sum_by id (imap (succeeded setTcpEntryEx) deletedEx) ∧
    rs_pendingIpv6Connections summaryEx = Z.of_nat (size pendingEx) ∧
    ∀ c, pendingEx !! c =
      if decide (c ∈ ipv6ConnectionFromOwnerRow <$> queued rows6 selectedEx) then Some (5000 + ipv6ResetLifetime)
      else pruneExpiredConnections ∅ 5000 !! c.
Proof.
  exact (existing_connections_reset (callsEx words4) (callsEx words6) setTcpEntryEx (λ _, 5000) (λ _ p, p)
    selectedEx ∅ deletedEx pendingEx (Ok summaryEx) eq_refl eq_refl (callsEx_ok _ (proj1 wordsEx_ok))
    (callsEx_ok _ (proj2 wordsEx_ok)) existingEx_eq).
Defined.

(** A packet of the connection: its sequence number is 1000 and it acknowledges 2000. *)
Definition addressEx (last : Z) : list Z := [32; 1] ++ replicate 13 0 ++ [last].
Definition packetEx : list Z :=
  [96; 0; 0; 0; 0; 20; 6; 64] ++ addressEx 1 ++ addressEx 2 ++ [0; 80; 1; 187] ++ be_bytes 4 1000 ++ be_bytes 4 2000 ++
  [80; 16; 0; 0; 0; 0; 0; 0].

Lemma packetEx_ok : bytes_ok packetEx.
Proof. repeat (apply Forall_cons_2; [split; vm_compute; discriminate|]). exact (Forall_nil_2 _). Qed.

Definition resetEx : gmap Ipv6Connection Instant * outcome unit Ipv6ResetPackets :=
  takeIpv6ResetPackets (λ _, 6000) (λ _ p, p) packetEx true pendingEx.
Definition packetsEx : Ipv6ResetPackets :=
  match resetEx.2 with
  | Ok packets => packets
  | _ => {| rp_forward := []; rp_reverse := []; rp_connection := connectionEx; rp_deadline := 0 |}
  end.

Lemma resets_taken_witness :
  ∃ o, AnswerableAt packetEx o ∧ ResetPair packetEx true o packetsEx ∧
    (let s := segmentAt packetEx o in
     ReadAs packetEx o (p6_sourceAddress s) (p6_destinationAddress s) (p6_sourcePort s) (p6_destinationPort s)) ∧
    pruneExpiredConnections pendingEx 6000 !! rp_connection packetsEx = Some (rp_deadline packetsEx) ∧
    resetEx.1 = delete (rp_connection packetsEx) (pruneExpiredConnections pendingEx 6000) ∧
    ∀ o', ¬ AnswerableAt (rp_forward packetsEx) o' ∧ ¬ AnswerableAt (rp_reverse packetsEx) o'.
Proof.
  assert (Heq : resetEx = (resetEx.1, Ok packetsEx)) by by vm_compute.
  pose proof (resets_taken (λ _, 6000) (λ _ p, p) packetEx true pendingEx packetEx_ok ltac:(by vm_compute)) as Ht.
  fold resetEx in Ht. rewrite Heq in Ht. exact Ht.
Defined.

Example packetsEx_numbers :
  (slice (rp_forward packetsEx) 44 48, slice (rp_reverse packetsEx) 44 48) = (be_bytes 4 1000, be_bytes 4 2000).
Proof. by vm_compute. Qed.

(** A connection found at 5000, reset at 6000, and put back when the reset could not be sent. *)
Definition rowsEx : list Ipv6OwnerRow :=
  match readIpv6OwnerPidConnections (callsEx words6) with Some (Ok rows) => rows | _ => [] end.
Definition foundEx : Resets :=
  {| re_pending := (queuePending rowsEx selectedEx 5000 ∅).1; re_inFlight := [];
     re_history := (λ row, Registered row selectedEx 5000) <$> queued rowsEx selectedEx |}.

Lemma resets_justified_witness :
  (∀ clock packet outbound pending packets,
     takeIpv6ResetPackets clock (λ _ p, p) packet outbound (re_pending foundEx) = (pending, Ok packets) →
     ∃ row selectedProcessIds now,
       Registered row selectedProcessIds now ∈ re_history foundEx ∧
       shouldQueueIpv6Connection row selectedProcessIds = true ∧
       ipv6ConnectionFromOwnerRow row = rp_connection packets ∧
       clock 0%nat < rp_deadline packets ∧ rp_deadline packets = now + ipv6ResetLifetime) ∧
  ∀ c, sum_by (spent c) (re_history foundEx) ≤ sum_by (granted c) (re_history foundEx).
Proof.
  refine (resets_justified foundEx _). apply rtc_once. exact (step_queue newResets rowsEx selectedEx 5000).
Defined.
