(* ===== verification/UdpFragment.v ===== *)
(** * Reassembly of fragmented UDP datagrams

    Model of [Server/Backend/ProcessCapture/src/udpFragment.rs].  The methods of
    [UdpFragmentAssembler] are stateful computations; the counters are [usize]
    values whose subtractions panic on underflow.  The iteration order of the
    [HashMap] of groups is the parameter [order], of which the development only
    assumes that it enumerates the map.  Error strings are the constructors of
    [FragmentError]; diagnostics on the standard error stream are not modelled. *)

From S2P Require Import Prelude Stateful NetAddress CaptureTypes FlowTable PacketRewrite.

Definition ipv4FragmentLifetime : Z := 60000.
Definition ipv6FragmentLifetime : Z := 60000.
Definition maximumFragmentGroups : Z := 1024.
Definition maximumBufferedFragmentBytes : Z := 67108864.
Definition maximumBufferedFragmentObservations : Z := 8192.
Definition maximumBufferedObservationBytes : Z := 67108864.

Record UdpFragmentKey := {
  uk_sourceAddress : IpAddr;
  uk_destinationAddress : IpAddr;
  uk_identification : Z;
  uk_outbound : bool
}.

#[export] Instance UdpFragmentKey_eq_dec : EqDecision UdpFragmentKey.
Proof. solve_decision. Defined.
#[export] Instance UdpFragmentKey_countable : Countable UdpFragmentKey.
Proof.
  refine (inj_countable' (λ k, (uk_sourceAddress k, uk_destinationAddress k,
                                uk_identification k, uk_outbound k))
    (λ '(a, b, c, d), Build_UdpFragmentKey a b c d) _).
  by intros [].
Defined.

Record UdpFragmentPart := {
  up_key : UdpFragmentKey;
  up_payloadOffset : Z;
  up_moreFragments : bool;
  up_fragmentPayload : list Z;
  up_packetBytes : Z;
  up_sourcePort : option Z;
  up_destinationPort : option Z;
  up_udpHeaderOffset : option Z;
  up_packetPayloadOffset : Z
}.

Inductive UdpPacketFragment :=
| Whole
| Fragment (part : UdpFragmentPart).

Inductive UdpFragmentDisposition :=
| Selected (target : OriginalTarget) (direction : UdpDatagramDirection)
    (clientAddress : SocketAddr) (capturedAtMilliseconds : Z)
| Ignored.

Inductive FragmentError :=
| PacketTooShort | UnsupportedVersion (version : Z) | LengthOutOfBounds | NotUdpFragment
| Jumbogram | ExtensionOutOfBounds | MisalignedFragment | FirstFragmentTooShort
| GroupLimit | OffsetOverflow | ByteLimit | ObservationLimit
| ConflictingOverlap | ConflictingLength | MisplacedDisposition
| MissingHeaderOffset | DatagramTooShort | UdpLengthOutOfBounds
| IncompleteAtFinish (groups : Z) | ExpiredIncomplete.

Definition isSelected (d : option UdpFragmentDisposition) : bool :=
  match d with Some (Selected _ _ _ _) => true | _ => false end.
Definition isIgnored (d : option UdpFragmentDisposition) : bool :=
  match d with Some Ignored => true | _ => false end.

(** ** Parsing *)

Definition ensureBytes (packetEnd offset length : Z) : outcome FragmentError unit :=
  check (match checked_add offset length with
         | Some last => last <=? packetEnd
         | None => false
         end) ExtensionOutOfBounds.

Definition u16At (l : list Z) (offset : Z) : outcome FragmentError Z :=
  high ← idx l offset;
  low ← idx l (offset + 1);
  Ok (high * 256 + low).

Definition fragmentPart (key : UdpFragmentKey) (payloadOffset : Z) (moreFragments : bool)
    (fragmentPayload : list Z) (packetBytes : Z) (udpHeaderOffset : option Z)
    (packetPayloadOffset : Z) : outcome FragmentError UdpPacketFragment :=
  _ ← check (negb moreFragments || (len fragmentPayload mod 8 =? 0)) MisalignedFragment;
  ports ← match udpHeaderOffset with
          | Some udpOffset =>
              _ ← check (udpOffset + 8 <=? len fragmentPayload) FirstFragmentTooShort;
              source ← u16At fragmentPayload udpOffset;
              destination ← u16At fragmentPayload (udpOffset + 2);
              Ok (Some source, Some destination)
          | None => Ok (None, None)
          end;
  Ok (Fragment {| up_key := key; up_payloadOffset := payloadOffset;
                  up_moreFragments := moreFragments; up_fragmentPayload := fragmentPayload;
                  up_packetBytes := packetBytes; up_sourcePort := ports.1;
                  up_destinationPort := ports.2; up_udpHeaderOffset := udpHeaderOffset;
                  up_packetPayloadOffset := packetPayloadOffset |}).

Definition inspectIpv4Fragment (packet : list Z) (outbound : bool)
    : outcome FragmentError UdpPacketFragment :=
  _ ← check (20 <=? len packet) PacketTooShort;
  first ← idx packet 0;
  let headerLength := Z.land first 15 * 4 in
  totalLength ← u16At packet 2;
  _ ← check ((20 <=? headerLength) && (headerLength <=? totalLength) &&
             (totalLength <=? len packet)) LengthOutOfBounds;
  protocol ← idx packet 9;
  _ ← check (protocol =? 17) NotUdpFragment;
  fragment ← u16At packet 6;
  let offset := Z.land fragment 8191 * 8 in
  let moreFragments := negb (Z.land fragment 8192 =? 0) in
  if (offset =? 0) && negb moreFragments then Ok Whole
  else
    source ← sub_slice packet 12 16;
    destination ← sub_slice packet 16 20;
    identification ← u16At packet 4;
    payload ← sub_slice packet headerLength totalLength;
    fragmentPart
      {| uk_sourceAddress := V4 (be_value source); uk_destinationAddress := V4 (be_value destination);
         uk_identification := identification; uk_outbound := outbound |}
      offset moreFragments payload (len packet) (if offset =? 0 then Some 0 else None) headerLength.

(** The loop of [locatePostFragmentUdpHeader]. *)
Fixpoint locateLoop (fuel : nat) (payload : list Z) (nextHeader offset : Z)
    : outcome FragmentError Z :=
  match fuel with
  | O => Panic
  | S fuel =>
      let continue nextHeader offset :=
        _ ← check (offset <=? len payload) ExtensionOutOfBounds;
        locateLoop fuel payload nextHeader offset in
      if nextHeader =? 17 then Ok offset
      else if (nextHeader =? 0) || (nextHeader =? 43) || (nextHeader =? 60) then
        _ ← ensureBytes (len payload) offset 2;
        next ← idx payload offset;
        extension ← idx payload (offset + 1);
        continue next (offset + (extension + 1) * 8)
      else if nextHeader =? 51 then
        _ ← ensureBytes (len payload) offset 2;
        next ← idx payload offset;
        extension ← idx payload (offset + 1);
        continue next (offset + (extension + 2) * 4)
      else Err NotUdpFragment
  end.

Definition locatePostFragmentUdpHeader (payload : list Z) (nextHeader : Z)
    : outcome FragmentError Z :=
  locateLoop (S (length payload)) payload nextHeader 0.

(** The loop of [inspectIpv6Fragment]. *)
Fixpoint inspectIpv6Loop (fuel : nat) (packet : list Z) (sourceAddress destinationAddress : IpAddr)
    (outbound : bool) (packetEnd nextHeader offset : Z) : outcome FragmentError UdpPacketFragment :=
  match fuel with
  | O => Panic
  | S fuel =>
      let continue nextHeader offset :=
        _ ← check (offset <=? packetEnd) ExtensionOutOfBounds;
        inspectIpv6Loop fuel packet sourceAddress destinationAddress outbound packetEnd
          nextHeader offset in
      if nextHeader =? 17 then Ok Whole
      else if (nextHeader =? 0) || (nextHeader =? 43) || (nextHeader =? 60) then
        _ ← ensureBytes packetEnd offset 2;
        next ← idx packet offset;
        extension ← idx packet (offset + 1);
        continue next (offset + (extension + 1) * 8)
      else if nextHeader =? 51 then
        _ ← ensureBytes packetEnd offset 2;
        next ← idx packet offset;
        extension ← idx packet (offset + 1);
        continue next (offset + (extension + 2) * 4)
      else if nextHeader =? 44 then
        _ ← ensureBytes packetEnd offset 8;
        fragment ← u16At packet (offset + 2);
        let payloadOffset := Z.land fragment 65528 in
        fragmentPayload ← sub_slice packet (offset + 8) packetEnd;
        udpHeaderOffset ←
          (if payloadOffset =? 0 then
             following ← idx packet offset;
             located ← locatePostFragmentUdpHeader fragmentPayload following;
             Ok (Some located)
           else Ok None);
        identification ← sub_slice packet (offset + 4) (offset + 8);
        fragmentPart
          {| uk_sourceAddress := sourceAddress; uk_destinationAddress := destinationAddress;
             uk_identification := be_value identification; uk_outbound := outbound |}
          payloadOffset (negb (Z.land fragment 1 =? 0)) fragmentPayload (len packet)
          udpHeaderOffset (offset + 8)
      else Err NotUdpFragment
  end.

Definition inspectIpv6Fragment (packet : list Z) (outbound : bool)
    : outcome FragmentError UdpPacketFragment :=
  _ ← check (40 <=? len packet) PacketTooShort;
  payloadLength ← u16At packet 4;
  _ ← check (negb (payloadLength =? 0)) Jumbogram;
  packetEnd ← ok_or (last ← checked_add 40 payloadLength;
                     if last <=? len packet then Some last else None) LengthOutOfBounds;
  source ← sub_slice packet 8 24;
  destination ← sub_slice packet 24 40;
  nextHeader ← idx packet 6;
  inspectIpv6Loop (length packet) packet (V6 (be_value source)) (V6 (be_value destination)) outbound
    packetEnd nextHeader 40.

Definition inspectUdpFragment (packet : list Z) (outbound : bool)
    : outcome FragmentError UdpPacketFragment :=
  first ← ok_or (get packet 0) PacketTooShort;
  let version := Z.shiftr first 4 in
  if version =? 4 then inspectIpv4Fragment packet outbound
  else if version =? 6 then inspectIpv6Fragment packet outbound
  else Err (UnsupportedVersion version).

Definition fragmentPayloadRange (part : UdpFragmentPart) : Z * Z * Z :=
  (up_payloadOffset part, up_packetPayloadOffset part, len (up_fragmentPayload part)).

Definition fragmentUdpHeaderOffset (part : UdpFragmentPart) : option Z := up_udpHeaderOffset part.

Definition fragmentPayloadPrefix (part : UdpFragmentPart) (prefixLength : Z)
    : option (list Z * IpAddr) :=
  if (up_payloadOffset part =? 0) && (prefixLength <=? len (up_fragmentPayload part))
  then Some (slice (up_fragmentPayload part) 0 prefixLength, uk_sourceAddress (up_key part))
  else None.

Definition firstFragmentTuple (part : UdpFragmentPart) : option (IpAddr * Z * IpAddr * Z) :=
  sourcePort ← up_sourcePort part;
  destinationPort ← up_destinationPort part;
  Some (uk_sourceAddress (up_key part), sourcePort, uk_destinationAddress (up_key part),
        destinationPort).

(** ** The assembler *)
Section assembler.
Context {Observation : Type}.

Record FragmentGroup := {
  fg_pieces : list (Z * list Z);
  fg_finalLength : option Z;
  fg_disposition : option UdpFragmentDisposition;
  fg_udpHeaderOffset : option Z;
  fg_packetCount : Z;
  fg_packetBytes : Z;
  fg_expiresAt : Instant;
  fg_observations : list Observation;
  fg_observationBytes : Z
}.

Record ReassembledUdpDatagram := {
  rd_event : option UdpDatagramEvent;
  rd_packetCount : Z;
  rd_packetBytes : Z;
  rd_observations : list Observation
}.

Record UdpFragmentAssembler := {
  as_groups : gmap UdpFragmentKey FragmentGroup;
  as_faultObservations : list Observation;
  as_bufferedBytes : Z;
  as_bufferedObservations : Z;
  as_bufferedObservationBytes : Z;
  as_fragmentLifetimeOverride : option Z
}.

Definition UdpFragmentAssembler_default : UdpFragmentAssembler :=
  {| as_groups := ∅; as_faultObservations := []; as_bufferedBytes := 0;
     as_bufferedObservations := 0; as_bufferedObservationBytes := 0;
     as_fragmentLifetimeOverride := None |}.

Definition withFragmentLifetime (lifetime : Z) : UdpFragmentAssembler :=
  {| as_groups := ∅; as_faultObservations := []; as_bufferedBytes := 0;
     as_bufferedObservations := 0; as_bufferedObservationBytes := 0;
     as_fragmentLifetimeOverride := Some lifetime |}.

Abbreviation run := (stateful UdpFragmentAssembler FragmentError) (only parsing).

Definition set_groups (m : gmap UdpFragmentKey FragmentGroup) (a : UdpFragmentAssembler) :=
  {| as_groups := m; as_faultObservations := as_faultObservations a;
     as_bufferedBytes := as_bufferedBytes a; as_bufferedObservations := as_bufferedObservations a;
     as_bufferedObservationBytes := as_bufferedObservationBytes a;
     as_fragmentLifetimeOverride := as_fragmentLifetimeOverride a |}.
Definition set_fault (l : list Observation) (a : UdpFragmentAssembler) :=
  {| as_groups := as_groups a; as_faultObservations := l;
     as_bufferedBytes := as_bufferedBytes a; as_bufferedObservations := as_bufferedObservations a;
     as_bufferedObservationBytes := as_bufferedObservationBytes a;
     as_fragmentLifetimeOverride := as_fragmentLifetimeOverride a |}.
Definition set_counters (bytes observations observationBytes : Z) (a : UdpFragmentAssembler) :=
  {| as_groups := as_groups a; as_faultObservations := as_faultObservations a;
     as_bufferedBytes := bytes; as_bufferedObservations := observations;
     as_bufferedObservationBytes := observationBytes;
     as_fragmentLifetimeOverride := as_fragmentLifetimeOverride a |}.

(** [pieces.values().map(Vec::len).sum()]. *)
Definition pieceBytes (pieces : list (Z * list Z)) : Z :=
  foldr (λ p acc, len p.2 + acc) 0 pieces.

(** The three subtractions that give a group's budget back. *)
Definition releaseGroup (g : FragmentGroup) : run unit :=
  a ← gets id;
  let bytes := as_bufferedBytes a - pieceBytes (fg_pieces g) in
  let observations := as_bufferedObservations a - len (fg_observations g) in
  let observationBytes := as_bufferedObservationBytes a - fg_observationBytes g in
  if (0 <=? bytes) && (0 <=? observations) && (0 <=? observationBytes)
  then modify (set_counters bytes observations observationBytes)
  else lift Panic.

Definition removeGroup (key : UdpFragmentKey) : run unit :=
  a ← gets id;
  match as_groups a !! key with
  | None => mret tt
  | Some g =>
      _ ← modify (set_groups (delete key (as_groups a)));
      releaseGroup g
  end.

Definition removeGroups : list UdpFragmentKey → run unit :=
  foldr (λ key rest, _ ← removeGroup key; rest) (mret tt).

Definition fragmentLifetime (key : UdpFragmentKey) (a : UdpFragmentAssembler) : Z :=
  match as_fragmentLifetimeOverride a with
  | Some lifetime => lifetime
  | None => if is_ipv4 (uk_sourceAddress key) then ipv4FragmentLifetime else ipv6FragmentLifetime
  end.

Section order.
Variable order : gmap UdpFragmentKey FragmentGroup → list (UdpFragmentKey * FragmentGroup).

Definition pruneExpired (now : Instant) : run unit :=
  a ← gets id;
  let expired (kg : UdpFragmentKey * FragmentGroup) := fg_expiresAt kg.2 <=? now in
  if existsb (λ kg, expired kg && negb (isIgnored (fg_disposition kg.2))) (order (as_groups a))
  then fail ExpiredIncomplete
  else removeGroups (filter (λ kg, expired kg = true) (order (as_groups a))).*1.

Definition pollExpired (now : Instant) : run unit := pruneExpired now.

Definition evictIgnoredGroup (excludedKey : option UdpFragmentKey) : run bool :=
  a ← gets id;
  match min_by (λ x y, fg_expiresAt x.2 <? fg_expiresAt y.2)
          (filter (λ kg, Some kg.1 ≠ excludedKey ∧ isIgnored (fg_disposition kg.2) = true)
             (order (as_groups a))) with
  | None => mret false
  | Some (key, _) => _ ← removeGroup key; mret true
  end.

(** [while over { if !evict(Some(key)) { .. } }]; the answer is whether to go on. *)
Fixpoint evictWhile (fuel : nat) (over : UdpFragmentAssembler → bool) (key : UdpFragmentKey)
    (ignored : bool) (e : FragmentError) : run bool :=
  match fuel with
  | O => lift Panic
  | S fuel =>
      full ← gets over;
      if full : bool then
        evicted ← evictIgnoredGroup (Some key);
        if evicted : bool then evictWhile fuel over key ignored e
        else if ignored then mret false else fail e
      else mret true
  end.

Fixpoint validateNoConflictingOverlap (pieces : list (Z * list Z)) (offset : Z) (bytes : list Z)
    : bool :=
  match pieces with
  | [] => true
  | (existingOffset, existing) :: pieces =>
      if (offset <? existingOffset + len existing) && (existingOffset <? offset + len bytes)
      then (existingOffset =? offset) && bool_decide (existing = bytes)
      else validateNoConflictingOverlap pieces offset bytes
  end.

(** The scan of [isComplete] over the pieces in key order. *)
Fixpoint contiguousEnd (nextOffset : Z) (pieces : list (Z * list Z)) : option Z :=
  match pieces with
  | [] => Some nextOffset
  | (offset, bytes) :: pieces =>
      if offset =? nextOffset then contiguousEnd (nextOffset + len bytes) pieces else None
  end.

Definition isComplete (g : FragmentGroup) : bool :=
  match fg_finalLength g, fg_disposition g with
  | Some finalLength, Some _ => bool_decide (contiguousEnd 0 (fg_pieces g) = Some finalLength)
  | _, _ => false
  end.

(** [Err] carries the group's observations; the two [expect]s are panics. *)
Definition assembleGroup (g : FragmentGroup)
    : outcome (FragmentError * list Observation) ReassembledUdpDatagram :=
  disposition ← expect (fg_disposition g);
  match disposition with
  | Ignored =>
      Ok {| rd_event := None; rd_packetCount := fg_packetCount g;
            rd_packetBytes := fg_packetBytes g; rd_observations := fg_observations g |}
  | Selected target direction clientAddress capturedAtMilliseconds =>
      _ ← expect (fg_finalLength g);
      let udpBytes := concat (fg_pieces g).*2 in
      udpOffset ← ok_or (fg_udpHeaderOffset g) (MissingHeaderOffset, fg_observations g);
      _ ← check (udpOffset + 8 <=? len udpBytes) (DatagramTooShort, fg_observations g);
      high ← idx udpBytes (udpOffset + 4);
      low ← idx udpBytes (udpOffset + 5);
      let udpLength := high * 256 + low in
      _ ← check ((8 <=? udpLength) && (udpOffset + udpLength <=? len udpBytes))
            (UdpLengthOutOfBounds, fg_observations g);
      payload ← sub_slice udpBytes (udpOffset + 8) (udpOffset + udpLength);
      Ok {| rd_event := Some {| ue_processId := ot_processId target;
                                ue_clientAddress := clientAddress;
                                ue_targetAddress := ot_address target;
                                ue_direction := direction; ue_payload := payload;
                                ue_capturedAtMilliseconds := capturedAtMilliseconds;
                                ue_modifications := [] |};
            rd_packetCount := fg_packetCount g; rd_packetBytes := fg_packetBytes g;
            rd_observations := fg_observations g |}
  end.

Definition emptyGroup (expiresAt : Instant) : FragmentGroup :=
  {| fg_pieces := []; fg_finalLength := None; fg_disposition := None; fg_udpHeaderOffset := None;
     fg_packetCount := 0; fg_packetBytes := 0; fg_expiresAt := expiresAt; fg_observations := [];
     fg_observationBytes := 0 |}.

(** What an accepted part adds to its group. *)
Definition addPart (part : UdpFragmentPart) (disposition : option UdpFragmentDisposition)
    (observation : Observation) (observationBytes newBytes fragmentEnd : Z) (g : FragmentGroup)
    : FragmentGroup :=
  {| fg_pieces := if negb (newBytes =? 0)
                  then bt_insert (up_payloadOffset part) (up_fragmentPayload part) (fg_pieces g)
                  else fg_pieces g;
     fg_finalLength := if negb (up_moreFragments part) then Some fragmentEnd else fg_finalLength g;
     fg_disposition := match disposition with Some d => Some d | None => fg_disposition g end;
     fg_udpHeaderOffset :=
       match disposition with Some _ => up_udpHeaderOffset part | None => fg_udpHeaderOffset g end;
     fg_packetCount := fg_packetCount g + 1;
     fg_packetBytes := fg_packetBytes g + up_packetBytes part;
     fg_expiresAt := fg_expiresAt g;
     fg_observations := fg_observations g ++ [observation];
     fg_observationBytes := fg_observationBytes g + observationBytes |}.

(** From the end of the conflict checks on. *)
Definition acceptPart (now : Instant) (part : UdpFragmentPart)
    (disposition : option UdpFragmentDisposition) (observation : Observation)
    (observationBytes newBytes fragmentEnd : Z) : run (option ReassembledUdpDatagram) :=
  a ← gets id;
  let key := up_key part in
  let g := default (emptyGroup (now + fragmentLifetime key a)) (as_groups a !! key) in
  _ ← modify (set_groups (<[key := g]> (as_groups a)));
  if bool_decide (is_Some disposition) && negb (up_payloadOffset part =? 0)
  then fail MisplacedDisposition
  else
    let g := addPart part disposition observation observationBytes newBytes fragmentEnd g in
    _ ← modify (λ a, set_counters (as_bufferedBytes a + newBytes) (as_bufferedObservations a + 1)
                       (as_bufferedObservationBytes a + observationBytes)
                       (set_groups (<[key := g]> (as_groups a)) a));
    if negb (isComplete g) then mret None
    else
      _ ← modify (λ a, set_groups (delete key (as_groups a)) a);
      _ ← releaseGroup g;
      match assembleGroup g with
      | Ok reassembled => mret (Some reassembled)
      | Err (detail, observations) =>
          _ ← modify (λ a, set_fault (as_faultObservations a ++ observations) a);
          fail detail
      | Panic => lift Panic
      end.

(** The two conflict checks against the group, as it is after the evictions. *)
Definition conflict (part : UdpFragmentPart) (fragmentEnd : Z) (g : FragmentGroup)
    : option FragmentError :=
  if negb (validateNoConflictingOverlap (fg_pieces g) (up_payloadOffset part)
             (up_fragmentPayload part))
  then Some ConflictingOverlap
  else if negb (up_moreFragments part) &&
          match fg_finalLength g with Some length => negb (length =? fragmentEnd) | None => false end
  then Some ConflictingLength
  else None.

(** Bytes the part adds: none for an exact retransmission. *)
Definition newBytesOf (part : UdpFragmentPart) (g : option FragmentGroup) : Z :=
  match g ≫= (λ g, bt_get (up_payloadOffset part) (fg_pieces g)) with
  | Some existing =>
      if decide (existing = up_fragmentPayload part) then 0 else len (up_fragmentPayload part)
  | None => len (up_fragmentPayload part)
  end.

Definition pushWithObservation (clock : nat → Instant) (part : UdpFragmentPart)
    (disposition : option UdpFragmentDisposition) (observation : Observation)
    (observationBytes : Z) : run (option ReassembledUdpDatagram) :=
  _ ← pruneExpired (clock 0%nat);
  group ← gets (λ a, as_groups a !! up_key part);
  let known := group ≫= fg_disposition in
  let selected := isSelected known || isSelected disposition in
  let ignored := isIgnored known || isIgnored disposition in
  full ← gets (λ a, bool_decide (group = None) &&
                    (maximumFragmentGroups <=? Z.of_nat (size (as_groups a))));
  room ← (if full : bool then
            evicted ← evictIgnoredGroup None;
            if evicted : bool then mret true else if ignored then mret false else fail GroupLimit
          else mret true);
  if negb room then mret None
  else
    fragmentEnd ← lift (ok_or (checked_add (up_payloadOffset part)
                                 (len (up_fragmentPayload part))) OffsetOverflow);
    group ← gets (λ a, as_groups a !! up_key part);
    let newBytes := newBytesOf part group in
    fuel ← gets (λ a, S (size (as_groups a)));
    room ← evictWhile fuel
             (λ a, maximumBufferedFragmentBytes <? saturating_add (as_bufferedBytes a) newBytes)
             (up_key part) ignored ByteLimit;
    if negb room then mret None
    else
      fuel ← gets (λ a, S (size (as_groups a)));
      room ← evictWhile fuel
               (λ a, (maximumBufferedFragmentObservations <=? as_bufferedObservations a) ||
                     (maximumBufferedObservationBytes <?
                        saturating_add (as_bufferedObservationBytes a) observationBytes))
               (up_key part) ignored ObservationLimit;
      if negb room then mret None
      else
        group ← gets (λ a, as_groups a !! up_key part);
        match group ≫= conflict part fragmentEnd with
        | Some detail =>
            if selected then fail detail
            else _ ← removeGroup (up_key part); mret None
        | None =>
            acceptPart (clock 1%nat) part disposition observation observationBytes newBytes
              fragmentEnd
        end.

Definition finish (a : UdpFragmentAssembler) : outcome FragmentError unit :=
  let incomplete :=
    len (filter (λ kg, isIgnored (fg_disposition kg.2) = false) (order (as_groups a))) in
  check (incomplete =? 0) (IncompleteAtFinish incomplete).

Definition drainPendingObservations : run (list Observation) :=
  a ← gets id;
  _ ← modify (λ a, set_groups ((λ g,
         {| fg_pieces := fg_pieces g; fg_finalLength := fg_finalLength g;
            fg_disposition := fg_disposition g; fg_udpHeaderOffset := fg_udpHeaderOffset g;
            fg_packetCount := fg_packetCount g; fg_packetBytes := fg_packetBytes g;
            fg_expiresAt := fg_expiresAt g; fg_observations := [];
            fg_observationBytes := fg_observationBytes g |}) <$> as_groups a) (set_fault [] a));
  mret (as_faultObservations a ++ concat ((λ kg, fg_observations kg.2) <$> order (as_groups a))).
End order.
End assembler.
Arguments FragmentGroup : clear implicits.
Arguments ReassembledUdpDatagram : clear implicits.
Arguments UdpFragmentAssembler : clear implicits.

(** [push], for callers that keep no copy of the packets. *)
Definition push
    (order : gmap UdpFragmentKey (FragmentGroup unit) → list (UdpFragmentKey * FragmentGroup unit))
    (clock : nat → Instant) (part : UdpFragmentPart) (disposition : option UdpFragmentDisposition)
    : stateful (UdpFragmentAssembler unit) FragmentError (option (ReassembledUdpDatagram unit)) :=
  pushWithObservation order clock part disposition tt (up_packetBytes part).
