(* ===== verification/UdpFragmentTheorems.v ===== *)
(** * Correctness of the UDP reassembly

    The parsers are total, the memory budgets are exact and respected in every
    state, groups are released completely, and fragments of one datagram are put
    back together in whatever order they arrive. *)

From S2P Require Import Prelude Stateful NetAddress CaptureTypes FlowTable FlowTableInvariant PacketRewrite UdpFragment.

(** ** Parsing *)
Section inspect.
Context {packet : list Z} (Hp : bytes_ok packet).

Lemma satisfies_u16At l off (P : Z → Prop) Q :
  bytes_ok l → 0 ≤ off → off + 2 ≤ len l → (∀ v, 0 ≤ v ≤ u16_max → P v) →
  Satisfies (u16At l off) P Q.
Proof.
  intros Hl ?? HP. unfold u16At. wp. apply HP.
  apply (get_byte _ _ _ Hl) in Hx, Hx0. unfold u16_max. lia.
Qed.

Lemma satisfies_ensureBytes last off n (P : unit → Prop) :
  (off + n ≤ last → P tt) → Satisfies (ensureBytes last off n) P (λ _, True).
Proof.
  intros HP. unfold ensureBytes. apply satisfies_check; [|done].
  unfold checked_add. destruct (_ <=? usize_max); [|done]. intros H0%Z.leb_le. auto.
Qed.

(** What a parsed fragment promises: its payload is the part of the packet it
    names, aligned unless it is the last, and only a first fragment has ports. *)
Definition WellFormedPart (packet : list Z) (f : UdpPacketFragment) : Prop :=
  match f with
  | Whole => True
  | Fragment part =>
      let '(offset, inPacket, size) := fragmentPayloadRange part in
      0 ≤ offset ≤ 65535 ∧ offset mod 8 = 0 ∧ 20 ≤ inPacket ∧ inPacket + size ≤ len packet ∧
      up_fragmentPayload part = slice packet inPacket (inPacket + size) ∧
      (up_moreFragments part = true → size mod 8 = 0) ∧
      (is_Some (firstFragmentTuple part) ↔ offset = 0) ∧
      (∀ h, up_udpHeaderOffset part = Some h → 0 ≤ h ∧ h + 8 ≤ size)
  end.

Lemma fragmentPart_spec key off more a b bytes h :
  0 ≤ off ≤ 65535 → off mod 8 = 0 → 20 ≤ a → a ≤ b → b ≤ len packet →
  (is_Some h ↔ off = 0) → (∀ x, h = Some x → 0 ≤ x) →
  Satisfies (fragmentPart key off more (slice packet a b) bytes h a) (WellFormedPart packet) (λ _, True).
Proof using Hp.
  intros Hoff Hmod Ha Hab Hb Hh Hpos. unfold fragmentPart.
  apply satisfies_bind, satisfies_check; [intros Halign|done].
  assert (more = true → len (slice packet a b) mod 8 = 0) as Hm.
  { intros ->. by apply Z.eqb_eq in Halign. }
  assert (len (slice packet a b) = b - a) as Hlen by (apply len_slice; lia).
  assert (bytes_ok (slice packet a b)) as Hs by (by apply forall_slice).
  destruct h as [x|]; apply satisfies_bind.
  - specialize (Hpos x eq_refl). wp; [|done].
    apply satisfies_u16At; [done|lia|lia|]. intros sp _. wp.
    apply satisfies_u16At; [done|lia|lia|]. intros dp _. wp. cbn.
    rewrite Hlen in *. replace (a + (b - a)) with b by lia.
    assert (off = 0) as Hz by (apply Hh; eauto).
    split; [lia|]. split; [done|]. split; [done|]. split; [lia|]. split; [done|]. split; [done|].
    split; [split; [done|eauto]|]. intros ? [= <-]. lia.
  - wp. cbn. rewrite Hlen in *. replace (a + (b - a)) with b by lia.
    split; [lia|]. split; [done|]. split; [done|]. split; [lia|]. split; [done|]. split; [done|].
    split; [|done]. split; [by intros [? ?]|]. intros Hz. by destruct (proj2 Hh Hz).
Qed.

Lemma land_low_bits x : 0 ≤ x ≤ u16_max → 0 ≤ Z.land x 8191 ≤ 8191.
Proof.
  intros. pose proof (Z.land_ones x 13 ltac:(lia)) as Hl.
  change (Z.ones 13) with 8191 in Hl. change (2 ^ 13) with 8192 in Hl.
  pose proof (Z.mod_pos_bound x 8192 ltac:(lia)). lia.
Qed.

Lemma land_high_bits x : 0 ≤ x ≤ u16_max → 0 ≤ Z.land x 65528 ≤ 65535 ∧ Z.land x 65528 mod 8 = 0.
Proof.
  intros Hx. assert (Z.land x 65528 = Z.land (Z.land x 65535) 65528) as Heq.
  { rewrite <-Z.land_assoc. f_equal. }
  split.
  - split; [apply Z.land_nonneg; lia|].
    assert (Z.land x 65528 = Z.land (Z.land x 65528) 65535) as -> by (by rewrite <-Z.land_assoc).
    pose proof (Z.land_ones (Z.land x 65528) 16 ltac:(lia)) as Hl.
    change (Z.ones 16) with 65535 in Hl. change (2 ^ 16) with 65536 in Hl.
    pose proof (Z.mod_pos_bound (Z.land x 65528) 65536 ltac:(lia)). lia.
  - change 8 with (2 ^ 3) at 1. rewrite <-Z.land_ones by lia.
    rewrite <-Z.land_assoc. change (Z.land 65528 (Z.ones 3)) with 0. apply Z.land_0_r.
Qed.

Lemma locate_spec fuel payload next off :
  bytes_ok payload → 0 ≤ off ≤ len payload → len payload - off < 8 * Z.of_nat fuel →
  Satisfies (locateLoop fuel payload next off) (λ h, 0 ≤ h ≤ len payload) (λ _, True).
Proof.
  intros Hl. revert next off. induction fuel as [|fuel IH]; intros next off Hoff Hfuel; [lia|].
  cbn [locateLoop]. cbn zeta. case_if H17; [by wp|]. case_if Hopt; [|case_if H51; [|by wp]].
  - apply satisfies_bind, satisfies_ensureBytes. intros Hr. wp; [|done].
    apply (get_byte _ _ _ Hl) in Hx0. apply IH; lia.
  - apply satisfies_bind, satisfies_ensureBytes. intros Hr. wp; [|done].
    apply (get_byte _ _ _ Hl) in Hx0. apply IH; lia.
Qed.

Lemma inspectIpv6Loop_spec src dst ob packetEnd fuel next off :
  40 ≤ off ≤ packetEnd → packetEnd ≤ len packet → packetEnd - off < 8 * Z.of_nat fuel →
  Satisfies (inspectIpv6Loop fuel packet src dst ob packetEnd next off)
    (WellFormedPart packet) (λ _, True).
Proof using Hp.
  revert next off. induction fuel as [|fuel IH]; intros next off Hoff Hend Hfuel; [lia|].
  cbn [inspectIpv6Loop]. cbn zeta. case_if H17; [by wp|].
  case_if Hopt; [|case_if H51; [|case_if H44; [|by wp]]].
  - apply satisfies_bind, satisfies_ensureBytes. intros Hr. wp; [|done].
    apply (get_byte _ _ _ Hp) in Hx0. apply IH; lia.
  - apply satisfies_bind, satisfies_ensureBytes. intros Hr. wp; [|done].
    apply (get_byte _ _ _ Hp) in Hx0. apply IH; lia.
  - apply satisfies_bind, satisfies_ensureBytes. intros Hr. wp.
    apply satisfies_u16At; [done|lia|lia|]. intros fragment Hf. wp.
    destruct (land_high_bits fragment Hf) as [Hb Hm].
    apply (satisfies_mono _ (λ h, (is_Some h ↔ Z.land fragment 65528 = 0) ∧
                                  ∀ x, h = Some x → 0 ≤ x) _ (λ _, True)); [|done|].
    + intros h [Hh Hpos]. wp. apply fragmentPart_spec; done || lia.
    + case_if Hz; wp.
      * apply Z.eqb_eq in Hz. unfold locatePostFragmentUdpHeader.
        eapply satisfies_mono; [..|apply locate_spec]; [|done|by apply forall_slice|..].
        -- intros h Hh. cbv beta in Hh. wp. split; [by split; eauto|]. intros ? [= <-]. lia.
        -- pose proof (len_nonneg (slice packet (off + 8) packetEnd)). lia.
        -- unfold len. lia.
      * apply Z.eqb_neq in Hz. split; [|done]. split; [by intros [? ?]|done].
Qed.

Lemma inspect_spec ob :
  Satisfies (inspectUdpFragment packet ob) (WellFormedPart packet) (λ _, True).
Proof using Hp.
  unfold inspectUdpFragment. wp; [|done]. case_if H4; [|case_if H6; [|by wp]].
  - unfold inspectIpv4Fragment. wp; [|done].
    apply satisfies_u16At; [done|lia|lia|]. intros total Ht. wp; [|done|done].
    apply satisfies_u16At; [done|lia|lia|]. intros fragment Hf.
    pose proof (land_low_bits fragment Hf). case_if Hw; [by wp|]. wp.
    apply satisfies_u16At; [done|lia|lia|]. intros ident _. wp.
    apply fragmentPart_spec; try lia.
    + apply Z.mod_mul. lia.
    + case_if Hz; [apply Z.eqb_eq in Hz; split; [done|eauto]|apply Z.eqb_neq in Hz].
      split; [by intros [? ?]|done].
    + intros h. case_if Hz; [|done]. intros [= <-]. lia.
  - unfold inspectIpv6Fragment. wp; [|done].
    apply satisfies_u16At; [done|lia|lia|]. intros plen Hplen. wp; [|done|done].
    assert (40 ≤ x0 ≤ len packet) as Hend.
    { unfold checked_add in Hx0. destruct (_ <=? usize_max); [|done]. cbn in Hx0.
      destruct (_ <=? len packet) eqn:Hle; [|done]. apply Z.leb_le in Hle. simplify_eq. lia. }
    wp. apply inspectIpv6Loop_spec; [lia|lia|]. unfold len in *. lia.
Qed.
End inspect.

(** ** The invariant of the assembler *)

(** Non-empty pieces in increasing order that do not overlap. *)
Fixpoint chain (from : Z) (pieces : list (Z * list Z)) : Prop :=
  match pieces with
  | [] => True
  | (offset, bytes) :: pieces => from ≤ offset ∧ 0 < len bytes ∧ chain (offset + len bytes) pieces
  end.

#[local] Arguments pieceBytes : simpl never.

Section invariant.
Context {Observation : Type}.
Implicit Types (a : UdpFragmentAssembler Observation) (g : FragmentGroup Observation).

Record GroupOk g : Prop := {
  go_pieces : chain 0 (fg_pieces g);
  go_bytes : 0 ≤ fg_observationBytes g;
  go_header : ∀ h, fg_udpHeaderOffset g = Some h → 0 ≤ h
}.

Definition groupBytes g : Z := pieceBytes (fg_pieces g).
Definition groupObservations g : Z := len (fg_observations g).

(** The counters describe the buffered groups, within the fixed budgets. *)
Record AsmInv a : Prop := {
  ai_groups : ∀ k g, as_groups a !! k = Some g → GroupOk g;
  ai_bytes : as_bufferedBytes a = total groupBytes (as_groups a);
  ai_observations : as_bufferedObservations a = total groupObservations (as_groups a);
  ai_observationBytes : as_bufferedObservationBytes a = total fg_observationBytes (as_groups a);
  ai_groupLimit : Z.of_nat (size (as_groups a)) ≤ maximumFragmentGroups;
  ai_byteLimit : as_bufferedBytes a ≤ maximumBufferedFragmentBytes;
  ai_observationLimit : as_bufferedObservations a ≤ maximumBufferedFragmentObservations;
  ai_observationByteLimit : as_bufferedObservationBytes a ≤ maximumBufferedObservationBytes
}.

Lemma pieceBytes_cons p pieces : pieceBytes (p :: pieces) = len p.2 + pieceBytes pieces.
Proof. done. Qed.

Lemma pieceBytes_nonneg pieces : 0 ≤ pieceBytes pieces.
Proof.
  induction pieces as [|p l IH]; [done|]. rewrite pieceBytes_cons. pose proof (len_nonneg p.2). lia.
Qed.

Lemma groupBytes_nonneg g : 0 ≤ groupBytes g.
Proof. apply pieceBytes_nonneg. Qed.
Lemma groupObservations_nonneg g : 0 ≤ groupObservations g.
Proof. apply len_nonneg. Qed.

Lemma default_asm_inv : AsmInv UdpFragmentAssembler_default.
Proof.
  constructor; cbn; rewrite ?total_empty, ?map_size_empty; done.
Qed.

Lemma set_fault_inv l a : AsmInv a → AsmInv (set_fault l a).
Proof.
  intros [H1 H2 H3 H4 H5 H6 H7 H8]. constructor;
    [exact H1|exact H2|exact H3|exact H4|exact H5|exact H6|exact H7|exact H8].
Qed.

(** Deleting a group and releasing its budget. *)
Lemma release_runs a k g :
  AsmInv a → as_groups a !! k = Some g →
  Runs (releaseGroup g) (set_groups (delete k (as_groups a)) a)
    (λ _ a', AsmInv a' ∧ as_groups a' = delete k (as_groups a) ∧
             as_fragmentLifetimeOverride a' = as_fragmentLifetimeOverride a ∧
             as_bufferedBytes a' ≤ as_bufferedBytes a)
    (λ _ _, False).
Proof.
  intros [Hg Hb Ho Hob Hl1 Hl2 Hl3 Hl4] Hk. unfold releaseGroup. apply runs_bind, runs_gets. cbn.
  assert (pieceBytes (fg_pieces g) ≤ total groupBytes (as_groups a)) as B1
    by exact (total_lookup_le groupBytes _ k g (λ _ _ _, groupBytes_nonneg _) Hk).
  assert (len (fg_observations g) ≤ total groupObservations (as_groups a)) as B2
    by exact (total_lookup_le groupObservations _ k g (λ _ _ _, groupObservations_nonneg _) Hk).
  pose proof (total_lookup_le fg_observationBytes _ k g (λ k g H, go_bytes _ (Hg k g H)) Hk) as B3.
  case_if Hc; [|exfalso; lia].
  apply runs_modify. split; [|split; [done|split; [done|]]].
  2: { cbn. pose proof (groupBytes_nonneg g). unfold groupBytes in *. lia. }
  pose proof (go_bytes _ (Hg k g Hk)). pose proof (groupBytes_nonneg g) as N1.
  pose proof (groupObservations_nonneg g) as N2. unfold groupBytes, groupObservations in N1, N2.
  constructor; cbn.
  - intros k' g' [_ H']%lookup_delete_Some. by eapply Hg.
  - rewrite total_delete, Hk. cbn. change (groupBytes g) with (pieceBytes (fg_pieces g)). lia.
  - rewrite total_delete, Hk. cbn. change (groupObservations g) with (len (fg_observations g)). lia.
  - rewrite total_delete, Hk. cbn. lia.
  - rewrite map_size_delete. rewrite Hk. lia.
  - lia.
  - lia.
  - lia.
Qed.

Lemma removeGroup_runs a k :
  AsmInv a →
  Runs (removeGroup k) a
    (λ _ a', AsmInv a' ∧ as_groups a' = delete k (as_groups a) ∧
             as_fragmentLifetimeOverride a' = as_fragmentLifetimeOverride a ∧
             as_bufferedBytes a' ≤ as_bufferedBytes a)
    (λ _ _, False).
Proof.
  intros HA. unfold removeGroup. apply runs_bind, runs_gets. cbn.
  destruct (as_groups a !! k) as [g|] eqn:Hk.
  - apply runs_bind, runs_modify. by apply release_runs.
  - apply runs_ret. rewrite delete_id by done. done.
Qed.

(** [Shrinks a a']: some ignored groups, never that of [key], were dropped. *)
Definition Shrinks (key : option UdpFragmentKey) a a' : Prop :=
  AsmInv a' ∧ as_groups a' ⊆ as_groups a ∧
  (∀ k g, as_groups a !! k = Some g → as_groups a' !! k = None →
     isIgnored (fg_disposition g) = true ∧ Some k ≠ key) ∧
  as_fragmentLifetimeOverride a' = as_fragmentLifetimeOverride a ∧
  as_bufferedBytes a' ≤ as_bufferedBytes a.

Lemma shrinks_refl key a : AsmInv a → Shrinks key a a.
Proof. intros HA. split; [done|]. split; [done|]. split; [congruence|done]. Qed.

Lemma shrinks_trans key a1 a2 a3 : Shrinks key a1 a2 → Shrinks key a2 a3 → Shrinks key a1 a3.
Proof.
  intros (_ & S1 & D1 & L1 & B1) (H3 & S2 & D2 & L2 & B2). split; [done|]. split; [by etrans|].
  split; [|split; [congruence|lia]]. intros k g Hk Hn.
  destruct (as_groups a2 !! k) as [g'|] eqn:Hk2; [|by eapply D1].
  assert (g' = g) as -> by (apply (lookup_weaken _ _ _ _ Hk2) in S1; congruence).
  by eapply D2.
Qed.

Lemma shrinks_remove key a a' k g :
  as_groups a !! k = Some g → isIgnored (fg_disposition g) = true → Some k ≠ key →
  AsmInv a' → as_groups a' = delete k (as_groups a) →
  as_fragmentLifetimeOverride a' = as_fragmentLifetimeOverride a →
  as_bufferedBytes a' ≤ as_bufferedBytes a → Shrinks key a a'.
Proof.
  intros Hk Hi Hne HA Hg Hl Hb. split; [done|]. rewrite Hg. split; [apply delete_subseteq|].
  split; [|done]. intros k' g' Hk' [<-|Hn]%lookup_delete_None; [|congruence].
  assert (g' = g) as -> by congruence. done.
Qed.

Lemma shrinks_lookup key a a' k :
  Shrinks (Some key) a a' → k = key → as_groups a' !! k = as_groups a !! k.
Proof.
  intros (_ & S & D & _) ->. destruct (as_groups a !! key) as [g|] eqn:Hk.
  - destruct (as_groups a' !! key) as [g'|] eqn:Hk'.
    + apply (lookup_weaken _ _ _ _ Hk') in S. congruence.
    + destruct (D _ _ Hk Hk'). done.
  - destruct (as_groups a' !! key) as [g'|] eqn:Hk'; [|done].
    apply (lookup_weaken _ _ _ _ Hk') in S. congruence.
Qed.

Section order.
Context (order : gmap UdpFragmentKey (FragmentGroup Observation) →
                 list (UdpFragmentKey * FragmentGroup Observation)).
Hypothesis order_perm : ∀ m, order m ≡ₚ map_to_list m.

Lemma order_elem m k g : (k, g) ∈ order m ↔ m !! k = Some g.
Proof using order_perm. by rewrite order_perm, elem_of_map_to_list. Qed.

Lemma removeGroups_runs ks a :
  AsmInv a → NoDup ks →
  (∀ k, k ∈ ks → ∃ g, as_groups a !! k = Some g ∧ isIgnored (fg_disposition g) = true) →
  Runs (removeGroups ks) a
    (λ _ a', Shrinks None a a' ∧ ∀ k, as_groups a' !! k = if decide (k ∈ ks) then None
                                                          else as_groups a !! k) (λ _ _, False).
Proof.
  revert a. induction ks as [|k ks IH]; intros a HA Hnd Hks.
  { apply runs_ret. split; [by apply shrinks_refl|]. intros k. case_decide; [set_solver|done]. }
  apply NoDup_cons in Hnd as [Hnin Hnd]. cbn. apply runs_bind.
  eapply runs_mono; [..|by apply removeGroup_runs]; [|done].
  intros _ a1 (HA1 & Hg1 & Hl1 & Hb1). destruct (Hks k ltac:(left)) as (g & Hk & Hi).
  eapply runs_mono; [..|apply IH; [done|done|]]; [|done|].
  - intros _ a2 [HS Hlook]. split; [eapply shrinks_trans; [|exact HS]; by eapply shrinks_remove|].
    intros k'. rewrite Hlook, Hg1. rewrite lookup_delete. repeat case_decide; set_solver.
  - intros k' Hk'. destruct (Hks k' ltac:(by right)) as (g' & ? & ?). exists g'.
    rewrite Hg1, lookup_delete_ne; [done|]. intros ->. done.
Qed.

(** Pruning drops exactly the expired ignored groups, and refuses when a group
    that may belong to a selected process has expired. *)
Lemma pruneExpired_runs now a :
  AsmInv a →
  Runs (pruneExpired order now) a
    (λ _ a', Shrinks None a a' ∧
       (∀ k g, as_groups a' !! k = Some g ↔ as_groups a !! k = Some g ∧ now < fg_expiresAt g))
    (λ e a', e = ExpiredIncomplete ∧ a' = a ∧
       ∃ k g, as_groups a !! k = Some g ∧ fg_expiresAt g ≤ now ∧
              isIgnored (fg_disposition g) = false).
Proof using order_perm.
  intros HA. unfold pruneExpired. apply runs_bind, runs_gets. cbn [id].
  destruct (existsb _ _) eqn:Hex.
  - apply runs_fail. split; [done|]. split; [done|]. apply existsb_exists in Hex as ([k g] & Hin & Hb).
    apply list_elem_of_In, order_elem in Hin. cbn in Hb. apply andb_true_iff in Hb as [Hb Hi].
    apply Z.leb_le in Hb. apply negb_true_iff in Hi. eauto 10.
  - apply not_true_iff_false in Hex. rewrite existsb_exists in Hex.
    set (ks := (filter _ _).*1).
    assert (∀ k, k ∈ ks ↔ ∃ g, as_groups a !! k = Some g ∧ fg_expiresAt g ≤ now) as Hks.
    { intros k. unfold ks. rewrite list_elem_of_fmap. split.
      - intros ([k' g] & -> & [He Hin]%list_elem_of_filter). apply order_elem in Hin.
        cbn in He. apply Z.leb_le in He. cbn. eauto.
      - intros (g & Hk & He). exists (k, g). split; [done|]. apply list_elem_of_filter.
        split; [by apply Z.leb_le|]. by apply order_elem. }
    eapply runs_mono; [..|apply (removeGroups_runs ks a HA)]; [|done|..].
    + intros _ a' [HS Hlook]. split; [done|]. intros k g. rewrite Hlook. case_decide as Hin.
      * apply Hks in Hin as (g' & Hk & He). split; [done|]. intros [Hk' ?]. simplify_eq. lia.
      * split; [|by intros [? _]]. intros Hk. split; [done|].
        destruct (decide (now < fg_expiresAt g)); [done|]. destruct Hin. apply Hks.
        exists g. split; [done|lia].
    + unfold ks. assert (NoDup (order (as_groups a)).*1) as Hnd.
      { rewrite order_perm. apply NoDup_fst_map_to_list. }
      eapply sublist_NoDup; [exact Hnd|]. apply fmap_sublist, sublist_filter.
    + intros k (g & Hk & He)%Hks. exists g. split; [done|].
      destruct (isIgnored (fg_disposition g)) eqn:Hi; [done|]. destruct Hex.
      exists (k, g). split; [apply list_elem_of_In; by apply order_elem|].
      cbn. rewrite Hi. by rewrite (proj2 (Z.leb_le _ _) He).
Qed.

Lemma evict_runs key a :
  AsmInv a →
  Runs (evictIgnoredGroup order key) a
    (λ b a', Shrinks key a a' ∧
       if b : bool then size (as_groups a) = S (size (as_groups a')) else a' = a)
    (λ _ _, False).
Proof using order_perm.
  intros HA. unfold evictIgnoredGroup. apply runs_bind, runs_gets. cbn [id].
  destruct (min_by _ _) as [[k g]|] eqn:Hmin.
  - apply min_by_elem in Hmin.
    apply list_elem_of_filter in Hmin as [[Hne Hi] Hin%order_elem]. cbn in Hne, Hi.
    apply runs_bind. eapply runs_mono; [..|by apply (removeGroup_runs a k)]; [|done].
    intros _ a' (HA' & Hg & Hl & Hb). apply runs_ret. split; [by eapply shrinks_remove|].
    rewrite Hg. rewrite map_size_delete_Some by eauto.
    assert (size (as_groups a) ≠ 0%nat) by (intros Hz%map_size_empty_inv; rewrite Hz in Hin; done). lia.
  - apply runs_ret. split; [by apply shrinks_refl|done].
Qed.

(** The eviction loops end within their fuel, and when they go on the budget
    test they guard no longer holds. *)
Lemma evictWhile_runs fuel over key ignored e a :
  AsmInv a → (size (as_groups a) < fuel)%nat →
  Runs (evictWhile order fuel over key ignored e) a
    (λ b a', Shrinks (Some key) a a' ∧ if b : bool then over a' = false else ignored = true)
    (λ e' a', e' = e ∧ ignored = false ∧ Shrinks (Some key) a a').
Proof using order_perm.
  revert a. induction fuel as [|fuel IH]; intros a HA Hf; [lia|].
  cbn [evictWhile]. apply runs_bind, runs_gets. destruct (over a) eqn:Hover.
  - apply runs_bind. eapply runs_mono; [..|by apply (evict_runs (Some key))]; [|done].
    intros [|] a' [HS Hb].
    + eapply runs_mono; [..|apply IH; [by apply HS|lia]].
      * intros b a2 [HS2 ?]. split; [by eapply shrinks_trans|done].
      * intros e' a2 (? & ? & HS2). split; [done|]. split; [done|]. by eapply shrinks_trans.
    + destruct ignored; [by apply runs_ret|]. by apply runs_fail.
  - apply runs_ret. split; [by apply shrinks_refl|done].
Qed.

(** *** Inserting a piece *)
Lemma chain_mono lo lo' pieces : lo' ≤ lo → chain lo pieces → chain lo' pieces.
Proof. destruct pieces as [|[o b] l]; cbn; [done|]. intros ? (? & ? & ?). split; [lia|done]. Qed.

Lemma chain_bound lo pieces o b : chain lo pieces → (o, b) ∈ pieces → lo ≤ o ∧ 0 < len b.
Proof.
  revert lo. induction pieces as [|[o' b'] l IH]; intros lo; [by intros _ ?%elem_of_nil|].
  cbn. intros (? & ? & Hc) [[= -> ->]|Hin]%elem_of_cons; [done|].
  destruct (IH _ Hc Hin). lia.
Qed.

Lemma chain_sorted lo pieces : chain lo pieces → bt_sorted pieces.
Proof.
  revert lo. induction pieces as [|[o b] l IH]; intros lo; [constructor|].
  cbn. intros (? & ? & Hc). constructor; [by eapply IH|].
  apply Forall_forall. intros x ([o' b'] & -> & Hin)%list_elem_of_fmap. cbn.
  destruct (chain_bound _ _ _ _ Hc Hin). lia.
Qed.

Lemma chain_insert lo pieces off bytes :
  chain lo pieces → lo ≤ off → 0 < len bytes →
  validateNoConflictingOverlap pieces off bytes = true → bt_get off pieces ≠ Some bytes →
  chain lo (bt_insert off bytes pieces) ∧ bt_get off pieces = None ∧
  pieceBytes (bt_insert off bytes pieces) = pieceBytes pieces + len bytes.
Proof.
  revert lo. induction pieces as [|[o b] l IH]; intros lo; cbn [chain bt_insert bt_get].
  { rewrite pieceBytes_cons. change (pieceBytes []) with 0. cbn. repeat split; lia. }
  intros (Ho & Hb & Hc) Hlo Hlen. cbn [validateNoConflictingOverlap].
  destruct (Z.eqb_spec off o) as [->|Hne].
  - rewrite (proj2 (Z.ltb_lt o _)), (proj2 (Z.ltb_lt o (o + len bytes))) by lia. cbn.
    rewrite Z.eqb_refl. cbn. intros ->%bool_decide_eq_true. done.
  - case_if Hov.
    { intros [Heq%Z.eqb_eq _]%andb_true_iff. congruence. }
    destruct (Z.ltb_spec off o).
    + intros _ _. rewrite !pieceBytes_cons. cbn. assert (off + len bytes ≤ o) by lia.
      repeat split; try done; lia.
    + intros Hv Hn. assert (o + len b ≤ off) by lia.
      destruct (IH (o + len b) Hc ltac:(lia) Hlen Hv Hn) as (H1 & H2 & H3).
      rewrite !pieceBytes_cons, H3. cbn. repeat split; try done; lia.
Qed.

(** *** A complete group *)
Lemma contiguous_length lo pieces last :
  contiguousEnd lo pieces = Some last → last = lo + pieceBytes pieces.
Proof.
  revert lo. induction pieces as [|[o b] l IH]; intros lo; cbn;
    [intros [= <-]; unfold pieceBytes; cbn; lia|].
  case_if He; [|done]. intros ->%IH. rewrite pieceBytes_cons. cbn. lia.
Qed.

Lemma pieceBytes_concat pieces : pieceBytes pieces = len (concat pieces.*2).
Proof.
  induction pieces as [|[o b] l IH]; [done|].
  rewrite pieceBytes_cons, fmap_cons. cbn [concat snd]. rewrite len_app. lia.
Qed.

Lemma assemble_spec g :
  isComplete g = true → GroupOk g →
  Satisfies (assembleGroup g)
    (λ d, rd_packetCount d = fg_packetCount g ∧ rd_observations d = fg_observations g ∧
       match fg_disposition g, rd_event d with
       | Some (Selected target direction client ms), Some e =>
           ∃ h high low, let D := concat (fg_pieces g).*2 in
             fg_udpHeaderOffset g = Some h ∧ get D (h + 4) = Some high ∧ get D (h + 5) = Some low ∧
             8 ≤ high * 256 + low ∧ h + (high * 256 + low) ≤ len D ∧
             e = {| ue_processId := ot_processId target; ue_clientAddress := client;
                    ue_targetAddress := ot_address target; ue_direction := direction;
                    ue_payload := slice D (h + 8) (h + (high * 256 + low));
                    ue_capturedAtMilliseconds := ms; ue_modifications := [] |}
       | Some Ignored, None => True
       | _, _ => False
       end)
    (λ e, e.2 = fg_observations g).
Proof.
  intros Hc [_ _ Hh]. unfold isComplete in Hc. unfold assembleGroup.
  destruct (fg_finalLength g) as [final|]; [|done].
  destruct (fg_disposition g) as [[target direction client ms|]|]; [..|done]; cbn [expect mbind outcome_bind].
  2: { by wp. }
  wp; try done; pose proof (Hh _ Hx); try lia.
  cbn. split; [done|]. split; [done|]. exists x, x0, x1. repeat split; try done; lia.
Qed.

(** What a part must satisfy; [inspect_spec] gives it for every parsed part. *)
Record PartOk (part : UdpFragmentPart) : Prop := {
  po_offset : 0 ≤ up_payloadOffset part;
  po_header : ∀ h, up_udpHeaderOffset part = Some h → 0 ≤ h
}.

Lemma newBytes_cases part og :
  newBytesOf part og = len (up_fragmentPayload part) ∧
    (og ≫= λ g : FragmentGroup Observation, bt_get (up_payloadOffset part) (fg_pieces g))
      ≠ Some (up_fragmentPayload part) ∨
  newBytesOf part og = 0 ∧
    (og ≫= λ g : FragmentGroup Observation, bt_get (up_payloadOffset part) (fg_pieces g))
      = Some (up_fragmentPayload part).
Proof.
  unfold newBytesOf. destruct (og ≫= _) as [b|]; [|by left].
  case_decide as Hb; [right; by subst|left]. split; [done|]. congruence.
Qed.

Lemma conflict_None part last g :
  conflict part last g = None →
  validateNoConflictingOverlap (fg_pieces g) (up_payloadOffset part) (up_fragmentPayload part) = true.
Proof. unfold conflict. destruct (validateNoConflictingOverlap _ _ _); done. Qed.

Lemma emptyGroup_ok e : GroupOk (emptyGroup e).
Proof. by constructor. Qed.

(** Adding a conflict-free part keeps a group well-formed and accounts for it. *)
Lemma addPart_ok part disp obs ob last og e :
  let g := default (emptyGroup e) og in
  PartOk part → 0 ≤ ob → GroupOk g → og ≫= conflict part last = None →
  let g' := addPart part disp obs ob (newBytesOf part og) last g in
  GroupOk g' ∧ groupBytes g' = groupBytes g + newBytesOf part og ∧
  groupObservations g' = groupObservations g + 1 ∧
  fg_observationBytes g' = fg_observationBytes g + ob ∧ 0 ≤ newBytesOf part og.
Proof.
  intros g [Hoff Hhd] Hob [Hc Hb Hh] Hconf g'.
  assert (chain 0 (fg_pieces g') ∧ groupBytes g' = groupBytes g + newBytesOf part og ∧
          0 ≤ newBytesOf part og) as (H1 & H2 & H3).
  { unfold g', groupBytes. cbn.
    destruct (newBytes_cases part og) as [[-> Hn]|[-> Hs]]; [|cbn; split; [done|lia]].
    pose proof (len_nonneg (up_fragmentPayload part)).
    destruct (Z.eqb_spec (len (up_fragmentPayload part)) 0) as [Hz|Hz]; cbn; [split; [done|lia]|].
    destruct (chain_insert 0 (fg_pieces g) (up_payloadOffset part) (up_fragmentPayload part))
      as (I1 & _ & I3); [done|lia|lia|..|split; [done|lia]].
    - unfold g. destruct og as [g0|]; [|done]. cbn in *. by eapply conflict_None.
    - unfold g. by destruct og. }
  split; [|split; [done|split; [|split; [done|done]]]].
  - constructor; [done|cbn; lia|]. cbn. destruct disp; [apply Hhd|apply Hh].
  - unfold groupObservations, g'. cbn. rewrite len_app. done.
Qed.


(** Counters and groups after a part was added to its group. *)
Definition stored a key g nb ob : UdpFragmentAssembler Observation :=
  set_counters (as_bufferedBytes a + nb) (as_bufferedObservations a + 1)
    (as_bufferedObservationBytes a + ob) (set_groups (<[key := g]> (as_groups a)) a).

Lemma stored_inv a key e g' nb ob :
  let g := default (emptyGroup e) (as_groups a !! key) in
  AsmInv a → GroupOk g' → groupBytes g' = groupBytes g + nb →
  groupObservations g' = groupObservations g + 1 →
  fg_observationBytes g' = fg_observationBytes g + ob →
  (as_groups a !! key = None → Z.of_nat (size (as_groups a)) < maximumFragmentGroups) →
  as_bufferedBytes a + nb ≤ maximumBufferedFragmentBytes →
  as_bufferedObservations a < maximumBufferedFragmentObservations →
  as_bufferedObservationBytes a + ob ≤ maximumBufferedObservationBytes →
  AsmInv (stored a key g' nb ob).
Proof.
  intros g [Hg Hb Ho Hob Hl1 Hl2 Hl3 Hl4] Hok E1 E2 E3 Hsize Hnb Hobs Hobb.
  assert (∀ f, f (emptyGroup e) = 0 → from_option f 0 (as_groups a !! key) = f g) as Hdef.
  { intros f Hf. unfold g. by destruct (as_groups a !! key). }
  constructor; cbn; try lia.
  - intros k' g1. rewrite lookup_insert. case_decide; [by intros [= <-]|apply Hg].
  - rewrite total_insert, (Hdef groupBytes) by done. lia.
  - rewrite total_insert, (Hdef groupObservations) by done. lia.
  - rewrite total_insert, (Hdef fg_observationBytes) by done. lia.
  - rewrite map_size_insert. destruct (as_groups a !! key) eqn:Hk; cbn; [lia|].
    specialize (Hsize eq_refl). lia.
Qed.

(** The group a part joins, as [acceptPart] sees it. *)
Definition joined (now : Instant) a key : FragmentGroup Observation :=
  default (emptyGroup (now + fragmentLifetime key a)) (as_groups a !! key).

Lemma joined_value (f : FragmentGroup Observation → Z) now a key :
  (∀ e, f (emptyGroup e) = 0) → from_option f 0 (as_groups a !! key) = f (joined now a key).
Proof. intros Hf. unfold joined. destruct (as_groups a !! key); cbn; [done|by rewrite Hf]. Qed.

Lemma acceptPart_runs now part disp obs ob last a :
  let key := up_key part in
  let nb := newBytesOf part (as_groups a !! key) in
  let g' := addPart part disp obs ob nb last (joined now a key) in
  AsmInv a → PartOk part → 0 ≤ ob →
  (as_groups a !! key) ≫= conflict part last = None →
  (as_groups a !! key = None → Z.of_nat (size (as_groups a)) < maximumFragmentGroups) →
  as_bufferedBytes a + nb ≤ maximumBufferedFragmentBytes →
  as_bufferedObservations a < maximumBufferedFragmentObservations →
  as_bufferedObservationBytes a + ob ≤ maximumBufferedObservationBytes →
  Runs (acceptPart now part disp obs ob nb last) a
    (λ r a', AsmInv a' ∧
       match r with
       | None => isComplete g' = false ∧ a' = stored a key g' nb ob
       | Some d => isComplete g' = true ∧ assembleGroup g' = Ok d ∧
                   as_groups a' = delete key (as_groups a)
       end)
    (λ e a', AsmInv a' ∧ ∀ k, k ≠ key → as_groups a' !! k = as_groups a !! k).
Proof.
  intros key nb g' HA Hpart Hob Hconf Hsize Hnb Hobs Hobb.
  assert (GroupOk (joined now a key)) as Hgok.
  { unfold joined. destruct (as_groups a !! key) eqn:Hk; cbn; [by eapply ai_groups|apply emptyGroup_ok]. }
  destruct (addPart_ok part disp obs ob last (as_groups a !! key) (now + fragmentLifetime key a)
              Hpart Hob Hgok Hconf) as (Hok' & E1 & E2 & E3 & Hnb0).
  fold nb (joined now a key) in E1, E2, E3, Hok'. fold g' in E1, E2, E3, Hok'.
  pose proof (stored_inv a key (now + fragmentLifetime key a) g' nb ob HA Hok' E1 E2 E3 Hsize Hnb Hobs Hobb) as HS.
  unfold acceptPart. apply runs_bind, runs_gets. cbn [id]. fold key. fold (joined now a key).
  apply runs_bind, runs_modify. case_if Hmis.
  - apply runs_fail. split; [|intros k Hk; cbn; by rewrite lookup_insert_ne].
    destruct HA. constructor; cbn; [..|assumption|assumption|assumption].
    + intros k' g1. rewrite lookup_insert. case_decide; [by intros [= <-]|eauto].
    + rewrite total_insert, (joined_value groupBytes now) by done. lia.
    + rewrite total_insert, (joined_value groupObservations now) by done. lia.
    + rewrite total_insert, (joined_value fg_observationBytes now) by done. lia.
    + rewrite map_size_insert. destruct (as_groups a !! key) eqn:Hk; cbn; [lia|].
      specialize (Hsize eq_refl). lia.
  - apply runs_bind, runs_modify. cbn [as_groups set_groups]. fold g'.
    assert (set_counters (as_bufferedBytes (set_groups (<[key:=joined now a key]> (as_groups a)) a) + nb)
      (as_bufferedObservations (set_groups (<[key:=joined now a key]> (as_groups a)) a) + 1)
      (as_bufferedObservationBytes (set_groups (<[key:=joined now a key]> (as_groups a)) a) + ob)
      (set_groups (<[key:=g']> (<[key:=joined now a key]> (as_groups a)))
         (set_groups (<[key:=joined now a key]> (as_groups a)) a)) = stored a key g' nb ob) as ->.
    { unfold stored. by rewrite insert_insert_eq. }
    destruct (isComplete g') eqn:Hc; cbn [negb]; [|by apply runs_ret].
    apply runs_bind, runs_modify. apply runs_bind.
    eapply runs_mono; [..|apply (release_runs (stored a key g' nb ob) key g' HS)]; [|done|].
    2: { apply lookup_insert_eq. }
    intros _ a' (HA' & Hg' & _ & _). cbn in Hg'. rewrite delete_insert_eq in Hg'.
    pose proof (assemble_spec g' Hc Hok') as Hasm.
    destruct (assembleGroup g') as [d|[detail os]|]; [| |done].
    + by apply runs_ret.
    + apply runs_bind, runs_modify, runs_fail. split; [by apply set_fault_inv|].
      intros k Hk. cbn. rewrite Hg'. by rewrite lookup_delete_ne.
Qed.

(** [Keeps key a a']: every other group that is not ignored is still there. *)
Definition Keeps (key : UdpFragmentKey) a a' : Prop :=
  ∀ k g, k ≠ key → as_groups a !! k = Some g → isIgnored (fg_disposition g) = false →
         as_groups a' !! k = Some g.

Lemma shrinks_keeps key ok a a' : Shrinks ok a a' → Keeps key a a'.
Proof.
  intros (_ & S & D & _) k g _ Hk Hi. destruct (as_groups a' !! k) as [g'|] eqn:Hk'.
  - apply (lookup_weaken _ _ _ _ Hk') in S. congruence.
  - destruct (D _ _ Hk Hk'). congruence.
Qed.

Lemma keeps_trans key a1 a2 a3 : Keeps key a1 a2 → Keeps key a2 a3 → Keeps key a1 a3.
Proof. unfold Keeps. eauto. Qed.

Lemma keeps_ext key a a' :
  (∀ k, k ≠ key → as_groups a' !! k = as_groups a !! k) → Keeps key a a'.
Proof. intros H k g Hk Hg _. by rewrite H. Qed.

Lemma push_runs clock part disp obs ob a :
  AsmInv a → PartOk part → 0 ≤ ob →
  Runs (pushWithObservation order clock part disp obs ob) a
    (λ _ a', AsmInv a' ∧ Keeps (up_key part) a a') (λ _ a', AsmInv a' ∧ Keeps (up_key part) a a').
Proof using order_perm.
  intros HA Hpart Hob. unfold pushWithObservation. apply runs_bind.
  eapply runs_mono; [..|by apply pruneExpired_runs]; [|intros e a' (_ & -> & _); by split; [|apply keeps_ext]].
  intros _ a1 [HS1 _]. pose proof HS1 as (HA1 & _). pose proof (shrinks_keeps (up_key part) _ _ _ HS1) as K1. apply runs_bind, runs_gets. cbn zeta. apply runs_bind, runs_gets.
  set (ignored := isIgnored _ || _). set (selected := isSelected _ || _).
  apply runs_bind.
  eapply (runs_mono _ _ (λ b a2, AsmInv a2 ∧ Keeps (up_key part) a a2 ∧ (b = true → as_groups a2 !! up_key part = None →
      Z.of_nat (size (as_groups a2)) < maximumFragmentGroups)) _ (λ _ a2, AsmInv a2 ∧ Keeps (up_key part) a a2)); [|done|].
  2: { case_if Hfull.
       - apply andb_true_iff in Hfull as [Hnone Hfull]. apply Z.leb_le in Hfull.
         apply runs_bind. eapply runs_mono; [..|by apply (evict_runs None)]; [|done].
         intros [|] a2 [HS2 Hsz]; pose proof HS2 as (HA2 & _);
           pose proof (keeps_trans _ _ _ _ K1 (shrinks_keeps (up_key part) _ _ _ HS2)) as K2.
         + apply runs_ret. split; [done|]. split; [done|]. intros _ _. pose proof (ai_groupLimit _ HA1). lia.
         + destruct ignored; [apply runs_ret|apply runs_fail]; done.
       - apply runs_ret. split; [done|]. split; [done|]. intros _ Hnone. rewrite bool_decide_true in Hfull by done.
         cbn in Hfull. apply Z.leb_gt in Hfull. done. }
  intros room a2 (HA2 & K2 & Hsize). destruct room; cbn [negb]; [|by apply runs_ret].
  specialize (Hsize eq_refl). apply runs_bind, runs_lift, satisfies_ok_or; [intros last Hlast|by intros _].
  apply runs_bind, runs_gets. cbn zeta. apply runs_bind, runs_gets. apply runs_bind.
  set (nb := newBytesOf part (as_groups a2 !! up_key part)).
  eapply runs_mono; [..|apply (evictWhile_runs (S (size (as_groups a2)))); [done|lia]];
    [|intros e a' (_ & _ & HS); split; [apply HS|by eapply keeps_trans, shrinks_keeps]].
  intros room a3 [HS3 Hroom].
  pose proof (keeps_trans _ _ _ _ K2 (shrinks_keeps (up_key part) _ _ _ HS3)) as K3.
  destruct room; cbn [negb]; [|apply runs_ret; split; [apply HS3|done]].
  apply runs_bind, runs_gets. apply runs_bind.
  eapply runs_mono; [..|apply (evictWhile_runs (S (size (as_groups a3)))); [apply HS3|lia]];
    [|intros e a' (_ & _ & HS); split; [apply HS|by eapply keeps_trans, shrinks_keeps]].
  intros room a4 [HS4 Hroom4].
  pose proof (keeps_trans _ _ _ _ K3 (shrinks_keeps (up_key part) _ _ _ HS4)) as K4.
  destruct room; cbn [negb]; [|apply runs_ret; split; [apply HS4|done]].
  apply runs_bind, runs_gets. pose proof HS4 as (HA4 & _).
  assert (as_groups a4 !! up_key part = as_groups a2 !! up_key part) as Hlook.
  { rewrite (shrinks_lookup _ _ _ _ HS4 eq_refl). apply (shrinks_lookup _ _ _ _ HS3 eq_refl). }
  destruct (_ ≫= conflict part last) as [detail|] eqn:Hconf.
  - destruct selected; [by apply runs_fail|]. apply runs_bind.
    eapply runs_mono; [..|by apply removeGroup_runs]; [|done].
    intros _ a5 (? & Hg5 & _). apply runs_ret. split; [done|]. eapply keeps_trans; [exact K4|].
    apply keeps_ext. intros k Hk. rewrite Hg5. by rewrite lookup_delete_ne.
  - assert (nb = newBytesOf part (as_groups a4 !! up_key part)) as Hnb by (unfold nb; by rewrite Hlook).
    clearbody nb. destruct HS4 as (_ & HS4 & _ & _ & Hb4), HS3 as (_ & HS3 & _).
    assert (as_groups a4 !! up_key part = None →
            Z.of_nat (size (as_groups a4)) < maximumFragmentGroups) as Hs4.
    { rewrite Hlook. intros Hn. specialize (Hsize Hn).
      pose proof (map_subseteq_size _ _ HS4). pose proof (map_subseteq_size _ _ HS3). lia. }
    apply Z.ltb_ge in Hroom. apply orb_false_iff in Hroom4 as [Hr1 Hr2].
    apply Z.leb_gt in Hr1. apply Z.ltb_ge in Hr2. unfold saturating_add in Hroom, Hr2.
    assert (as_bufferedBytes a4 + nb ≤ maximumBufferedFragmentBytes) as Hlim1.
    { assert (maximumBufferedFragmentBytes < u64_max) as Hlt by reflexivity. clear - Hroom Hb4 Hlt. lia. }
    assert (as_bufferedObservationBytes a4 + ob ≤ maximumBufferedObservationBytes) as Hlim2.
    { assert (maximumBufferedObservationBytes < u64_max) as Hlt by reflexivity. clear - Hr2 Hlt. lia. }
    rewrite Hnb in Hlim1 |- *.
    eapply runs_mono; [..|exact (acceptPart_runs (clock 1%nat) part disp obs ob last a4 HA4 Hpart
      Hob Hconf Hs4 Hlim1 Hr1 Hlim2)].
    + intros r a' [HA' Hr]. split; [done|]. eapply keeps_trans; [exact K4|]. apply keeps_ext.
      intros k Hk. destruct r as [d|].
      * destruct Hr as (_ & _ & ->). by rewrite lookup_delete_ne.
      * destruct Hr as (_ & ->). cbn. by rewrite lookup_insert_ne.
    + intros e a' [HA' Hr]. split; [done|]. eapply keeps_trans; [exact K4|]. by apply keeps_ext.
Qed.

Lemma concat_observations (l : list (UdpFragmentKey * FragmentGroup Observation)) :
  len (concat ((λ kg, fg_observations kg.2) <$> l)) = sum_by groupObservations l.*2.
Proof.
  induction l as [|[k g] l IH]; [done|]. rewrite !fmap_cons. cbn [concat snd]. rewrite len_app, IH. done.
Qed.

(** C38: The memory budgets hold in every state of an assembler.  Whatever part arrives,
    and whenever groups expire, pushing and polling neither panic nor loop, keep each of
    the three counters (payload bytes, packets, bytes of packet copies) equal to what the
    groups hold and within its budget (64 MiB, 8192, 64 MiB; at most 1024 groups), errors
    included.  When the assembler is given up, the draining hands out exactly the counted
    packets and those set aside by earlier failures. *)
Theorem push_invariant clock part disp obs ob a :
  AsmInv a → PartOk part → 0 ≤ ob →
  Runs (pushWithObservation order clock part disp obs ob) a
    (λ _ a', AsmInv a') (λ _ a', AsmInv a') ∧
  (∀ now, Runs (pollExpired order now) a (λ _ a', AsmInv a') (λ _ a', AsmInv a')) ∧
  Runs (drainPendingObservations order) a
    (λ observations _, len observations = len (as_faultObservations a) + as_bufferedObservations a)
    (λ _ _, False).
Proof using order_perm.
  intros HA Hpart Hob. split_and!.
  - eapply runs_mono; [..|by apply push_runs]; by intros ? ? [? _].
  - intros now. eapply runs_mono; [..|by apply pruneExpired_runs]; [by intros _ a' [(? & _) _]|].
    by intros e a' (_ & -> & _).
  - apply runs_bind, runs_gets, runs_bind, runs_modify, runs_ret. unfold id.
    rewrite len_app, concat_observations, (ai_observations _ HA), total_map_to_list. f_equal.
    apply sum_by_perm. by rewrite order_perm.
Qed.

(** No datagram that may belong to a selected process is given up silently.
    Pushing a part, whether it succeeds or fails, leaves every other group that has
    not been attributed to an unselected process exactly as it was. *)
Theorem push_keeps_required clock part disp obs ob a :
  AsmInv a → PartOk part → 0 ≤ ob →
  Runs (pushWithObservation order clock part disp obs ob) a
    (λ _ a', ∀ k g, k ≠ up_key part → as_groups a !! k = Some g →
       isIgnored (fg_disposition g) = false → as_groups a' !! k = Some g)
    (λ _ a', ∀ k g, k ≠ up_key part → as_groups a !! k = Some g →
       isIgnored (fg_disposition g) = false → as_groups a' !! k = Some g).
Proof using order_perm.
  intros HA Hpart Hob. eapply runs_mono; [..|by apply push_runs]; by intros ? ? [_ ?].
Qed.

(** The periodic check and the end of the capture report every incomplete
    datagram.  The poll removes exactly the expired ignored groups, or reports when
    any other group has expired; [finish] succeeds exactly when nothing but ignored
    groups is left. *)
Theorem poll_and_finish now a :
  AsmInv a →
  Runs (pollExpired order now) a
    (λ _ a', AsmInv a' ∧ ∀ k g, as_groups a' !! k = Some g ↔
               as_groups a !! k = Some g ∧ now < fg_expiresAt g)
    (λ e a', e = ExpiredIncomplete ∧ a' = a ∧
       ∃ k g, as_groups a !! k = Some g ∧ fg_expiresAt g ≤ now ∧
              isIgnored (fg_disposition g) = false) ∧
  (finish order a = Ok tt ↔
   ∀ k g, as_groups a !! k = Some g → isIgnored (fg_disposition g) = true).
Proof using order_perm.
  intros HA. split.
  - eapply runs_mono; [..|by apply pruneExpired_runs]; [|done]. intros _ a' [(? & _) ?]. done.
  - unfold finish. set (l := filter _ _). split.
    + intros Hok%check_Ok_inv k g Hk. apply Z.eqb_eq, len_nil_inv in Hok.
      destruct (isIgnored (fg_disposition g)) eqn:Hi; [done|].
      assert ((k, g) ∈ l) as Hin; [|by rewrite Hok in Hin; apply elem_of_nil in Hin].
      apply list_elem_of_filter. split; [done|]. by apply order_elem.
    + intros Hall. assert (l = []) as ->; [|done].
      destruct l as [|[k g] l'] eqn:Hl; [done|].
      assert ((k, g) ∈ (k, g) :: l') as Hin by left. rewrite <-Hl in Hin.
      apply list_elem_of_filter in Hin as [Hi Hin%order_elem]. apply Hall in Hin. cbn in Hi. congruence.
Qed.
End order.

(** Inspecting a packet is total, and a fragment it reports is a slice of the
    packet: payload within the packet, offsets multiples of eight, ports exactly on
    the first fragment, the UDP header inside the first fragment. *)
Theorem inspect_total packet ob :
  bytes_ok packet →
  Satisfies (inspectUdpFragment packet ob) (WellFormedPart packet) (λ _, True).
Proof. intros Hp. by apply inspect_spec. Qed.
End invariant.
