(* ===== verification/UdpReassembly.v ===== *)
(** * Reassembly in any order

    The fragments of one datagram, pushed in any order into an empty assembler,
    yield the datagram with the last of them, and leave the assembler empty. *)

From S2P Require Import Prelude NetAddress CaptureTypes FlowTable FlowTableInvariant FlowTableExamples PacketRewrite Stateful UdpFragment UdpFragmentTheorems.

#[local] Arguments pieceBytes : simpl never.

Lemma filter_none {A} (P : A → Prop) `{!∀ x, Decision (P x)} l :
  (∀ x, x ∈ l → ¬ P x) → filter P l = [].
Proof.
  induction l as [|x l IH]; [done|]. intros Hn. rewrite filter_cons, decide_False by (apply Hn; by left).
  apply IH. intros y Hy. apply Hn. by right.
Qed.

(** ** Pushing when nothing is in the way *)
Section accept.
Context {Observation : Type}.
Context (order : gmap UdpFragmentKey (FragmentGroup Observation) →
                 list (UdpFragmentKey * FragmentGroup Observation)).
Hypothesis order_perm : ∀ m, order m ≡ₚ map_to_list m.
Implicit Types a : UdpFragmentAssembler Observation.

Lemma prune_nothing now a :
  (∀ k g, as_groups a !! k = Some g → now < fg_expiresAt g) →
  pruneExpired order now a = (a, Ok tt).
Proof using order_perm.
  intros Hlive. unfold pruneExpired, mbind, stateful_bind, gets. cbn [id].
  assert (∀ kg, kg ∈ order (as_groups a) → (fg_expiresAt kg.2 <=? now) = false) as Hno.
  { intros [k g] Hin%(order_elem order order_perm). apply Hlive in Hin. apply Z.leb_gt. done. }
  destruct (existsb _ _) eqn:Hex.
  { apply existsb_exists in Hex as (kg & Hin%list_elem_of_In & Hb). by rewrite Hno in Hb. }
  assert (filter (λ kg : UdpFragmentKey * FragmentGroup Observation,
    (fg_expiresAt kg.2 <=? now) = true) (order (as_groups a)) = []) as ->; [|done].
  apply filter_none. intros kg Hin. by rewrite (Hno kg Hin).
Qed.

Lemma evictWhile_idle fuel over key ignored e a :
  over a = false → evictWhile order (S fuel) over key ignored e a = (a, Ok true).
Proof. intros Ho. cbn. unfold mbind, stateful_bind, gets. by rewrite Ho. Qed.

(** Within the budgets and without conflict, a push is [acceptPart]. *)
Lemma push_accepts clock part disp obs ob last a :
  let og := as_groups a !! up_key part in
  (∀ k g, as_groups a !! k = Some g → clock 0%nat < fg_expiresAt g) →
  Z.of_nat (size (as_groups a)) < maximumFragmentGroups →
  checked_add (up_payloadOffset part) (len (up_fragmentPayload part)) = Some last →
  saturating_add (as_bufferedBytes a) (newBytesOf part og) ≤ maximumBufferedFragmentBytes →
  as_bufferedObservations a < maximumBufferedFragmentObservations →
  saturating_add (as_bufferedObservationBytes a) ob ≤ maximumBufferedObservationBytes →
  og ≫= conflict part last = None →
  pushWithObservation order clock part disp obs ob a =
  acceptPart (clock 1%nat) part disp obs ob (newBytesOf part og) last a.
Proof using order_perm.
  intros og Hlive Hsize Hlast Hb Ho Hob Hconf. unfold pushWithObservation.
  unfold mbind at 1, stateful_bind at 1. rewrite prune_nothing by done.
  unfold mbind at 1, stateful_bind at 1, gets at 1. cbn zeta.
  unfold mbind at 1, stateful_bind at 1, gets at 1.
  rewrite (proj2 (Z.leb_gt _ _) Hsize), andb_false_r.
  unfold mbind at 1, stateful_bind at 1, mret at 1, stateful_ret at 1. cbn [negb].
  unfold mbind at 1, stateful_bind at 1, lift at 1. rewrite Hlast. cbn [ok_or].
  unfold mbind at 1, stateful_bind at 1, gets at 1. fold og. cbn zeta.
  unfold mbind at 1, stateful_bind at 1, gets at 1.
  unfold mbind at 1, stateful_bind at 1. rewrite evictWhile_idle by exact (proj2 (Z.ltb_ge _ _) Hb). cbn [negb].
  unfold mbind at 1, stateful_bind at 1, gets at 1.
  unfold mbind at 1, stateful_bind at 1.
  rewrite evictWhile_idle by exact (proj2 (orb_false_iff _ _)
    (conj (proj2 (Z.leb_gt _ _) Ho) (proj2 (Z.ltb_ge _ _) Hob))).
  cbn [negb]. unfold mbind at 1, stateful_bind at 1, gets at 1. fold og. by rewrite Hconf.
Qed.

(** What [acceptPart] does to the state, with the part in front of the group. *)
Lemma acceptPart_result now part disp obs ob nb last a :
  let key := up_key part in
  let g' := addPart part disp obs ob nb last (joined now a key) in
  (is_Some disp → up_payloadOffset part = 0) →
  isComplete g' = false →
  acceptPart now part disp obs ob nb last a = (stored a key g' nb ob, Ok None).
Proof.
  intros key g' Hdisp Hc. unfold acceptPart, mbind, stateful_bind, gets, modify. cbn [id].
  fold key. fold (joined now a key). fold g'.
  assert (bool_decide (is_Some disp) && negb (up_payloadOffset part =? 0) = false) as ->.
  { destruct disp as [d|]; [|done]. by rewrite Hdisp by eauto. }
  rewrite Hc. cbn [negb]. unfold mret, stateful_ret, stored. cbn. by rewrite insert_insert_eq.
Qed.
End accept.

(** ** Tilings of a datagram *)
Abbreviation tile := (Z * list Z)%type (only parsing).

Fixpoint tiles (from : Z) (chunks : list (list Z)) : list tile :=
  match chunks with
  | [] => []
  | c :: chunks => (from, c) :: tiles (from + len c) chunks
  end.

Definition sumBy (f : tile → Z) (l : list tile) : Z := foldr (λ p acc, f p + acc) 0 l.

Lemma sumBy_cons f p l : sumBy f (p :: l) = f p + sumBy f l.
Proof. done. Qed.

Lemma sumBy_app f l1 l2 : sumBy f (l1 ++ l2) = sumBy f l1 + sumBy f l2.
Proof. induction l1 as [|p l1 IH]; [done|]. cbn [app]. rewrite !sumBy_cons, IH. lia. Qed.

Lemma sumBy_snoc f l p : sumBy f (l ++ [p]) = sumBy f l + f p.
Proof. rewrite sumBy_app. unfold sumBy at 2. cbn. lia. Qed.

Lemma sumBy_perm f l1 l2 : l1 ≡ₚ l2 → sumBy f l1 = sumBy f l2.
Proof. induction 1; rewrite ?sumBy_cons; lia. Qed.

Lemma sumBy_nonneg f l : (∀ p, 0 ≤ f p) → 0 ≤ sumBy f l.
Proof. intros Hf. induction l as [|p l IH]; [done|]. rewrite sumBy_cons. specialize (Hf p). lia. Qed.

Lemma pieceBytes_sumBy l : pieceBytes l = sumBy (λ p, len p.2) l.
Proof. done. Qed.

Lemma pieceBytes_app l1 l2 : pieceBytes (l1 ++ l2) = pieceBytes l1 + pieceBytes l2.
Proof. apply (sumBy_app (λ p, len p.2)). Qed.

Lemma pieceBytes_positive l : l ≠ [] → (∀ q, q ∈ l → 0 < len q.2) → 0 < pieceBytes l.
Proof.
  destruct l as [|q l]; [done|]. intros _ Hq. rewrite pieceBytes_cons.
  pose proof (pieceBytes_nonneg l). specialize (Hq q ltac:(left)). lia.
Qed.

Section tilings.
Implicit Types chunks : list (list Z).

Lemma tiles_chain from chunks :
  Forall (λ c, 0 < len c) chunks → chain from (tiles from chunks).
Proof.
  intros H. revert from. induction H as [|c chunks Hc _ IH]; intros from; cbn; [done|].
  split; [lia|]. split; [done|]. apply IH.
Qed.

Lemma tiles_contiguous from chunks :
  contiguousEnd from (tiles from chunks) = Some (from + len (concat chunks)).
Proof.
  revert from. induction chunks as [|c chunks IH]; intros from; cbn [tiles contiguousEnd concat].
  - rewrite len_nil, Z.add_0_r. done.
  - rewrite Z.eqb_refl, IH, len_app. f_equal. lia.
Qed.

Lemma tiles_snd from chunks : (tiles from chunks).*2 = chunks.
Proof.
  revert from. induction chunks as [|c chunks IH]; intros from; [done|].
  cbn [tiles]. rewrite fmap_cons, IH. done.
Qed.

Lemma tiles_bounds from chunks o b :
  (o, b) ∈ tiles from chunks → from ≤ o ∧ o + len b ≤ from + len (concat chunks).
Proof.
  revert from. induction chunks as [|c chunks IH]; intros from; [by intros ?%elem_of_nil|].
  cbn [tiles concat]. rewrite len_app. pose proof (len_nonneg c). pose proof (len_nonneg (concat chunks)).
  intros [[= -> ->]|Hin]%elem_of_cons; [lia|]. apply IH in Hin. lia.
Qed.

(** Every tiling has a first and a last tile. *)
Lemma tiles_first chunks :
  chunks ≠ [] → ∃ b, (0, b) ∈ tiles 0 chunks.
Proof. destruct chunks as [|c chunks]; [done|]. intros _. exists c. by left. Qed.

Lemma tiles_last from chunks :
  chunks ≠ [] → ∃ o b, (o, b) ∈ tiles from chunks ∧ o + len b = from + len (concat chunks).
Proof.
  revert from. induction chunks as [|c chunks IH]; intros from; [done|]. intros _.
  destruct chunks as [|c' chunks].
  - exists from, c. split; [by left|]. cbn. by rewrite app_nil_r.
  - destruct (IH (from + len c) ltac:(done)) as (o & b & Hin & Hend).
    exists o, b. split; [by right|]. rewrite Hend.
    change (concat (c :: c' :: chunks)) with (c ++ concat (c' :: chunks)). rewrite len_app. lia.
Qed.

(** Distinct tiles do not overlap. *)
Lemma chain_disjoint lo l o b o' b' :
  chain lo l → (o, b) ∈ l → (o', b') ∈ l → o < o' + len b' → o' < o + len b → (o, b) = (o', b').
Proof.
  revert lo. induction l as [|[o1 b1] l IH]; intros lo; [by intros _ ?%elem_of_nil|].
  cbn [chain]. intros (H1 & H2 & Hc) [[= -> ->]|Hin]%elem_of_cons [[= -> ->]|Hin']%elem_of_cons ??;
    [done|..|by eapply IH].
  - destruct (chain_bound _ _ _ _ Hc Hin'). lia.
  - destruct (chain_bound _ _ _ _ Hc Hin). lia.
Qed.

Lemma validate_disjoint pieces off bytes :
  (∀ o b, (o, b) ∈ pieces → ¬ (off < o + len b ∧ o < off + len bytes)) →
  validateNoConflictingOverlap pieces off bytes = true.
Proof.
  induction pieces as [|[o b] l IH]; intros Hd; cbn; [done|].
  pose proof (Hd o b ltac:(left)). case_if Hov.
  { apply andb_true_iff in Hov as [?%Z.ltb_lt ?%Z.ltb_lt]. tauto. }
  apply IH. intros o' b' Hin. apply Hd. by right.
Qed.

Lemma sorted_perm_eq (l1 l2 : list tile) :
  bt_sorted l1 → bt_sorted l2 → l1 ≡ₚ l2 → l1 = l2.
Proof.
  intros H1 H2. set (R := λ x y : tile, x.1 < y.1).
  assert (∀ l, bt_sorted l → StronglySorted R l) as Halt.
  { unfold bt_sorted. induction l as [|x l IH]; intros Hs; [constructor|].
    rewrite fmap_cons in Hs. inversion_clear Hs as [|?? Hs' Hall]. constructor; [by apply IH|].
    by rewrite Forall_fmap in Hall. }
  apply (StronglySorted_unique_strong R); [|by apply Halt..].
  intros x y _ _ Hxy Hyx. unfold R in *. lia.
Qed.
End tilings.

(** ** One datagram *)
Section datagram.
Context {Observation : Type}.
Context (order : gmap UdpFragmentKey (FragmentGroup Observation) →
                 list (UdpFragmentKey * FragmentGroup Observation)).
Hypothesis order_perm : ∀ m, order m ≡ₚ map_to_list m.

(** The datagram [concat chunks], cut into [chunks]; its UDP header is at [h].
    The fragments arrive between [start] and [finish]. *)
Context (key : UdpFragmentKey) (chunks : list (list Z)) (h high low : Z).
Context (target : OriginalTarget) (direction : UdpDatagramDirection) (client : SocketAddr) (ms : Z).
Context (obs : tile → Observation) (ob pb : tile → Z).
Context (clock : nat → nat → Instant) (start finish : Instant).

Let D := concat chunks.
Let disposition := Selected target direction client ms.

(** The fragment that carries a tile, and what its push is given. *)
Definition tilePart (p : tile) : UdpFragmentPart :=
  {| up_key := key; up_payloadOffset := p.1; up_moreFragments := negb (p.1 + len p.2 =? len D);
     up_fragmentPayload := p.2; up_packetBytes := pb p; up_sourcePort := None;
     up_destinationPort := None; up_udpHeaderOffset := if p.1 =? 0 then Some h else None;
     up_packetPayloadOffset := 20 |}.
Definition tileDisposition (p : tile) : option UdpFragmentDisposition :=
  if p.1 =? 0 then Some disposition else None.

Fixpoint pushAll (i : nat) (ps : list tile) (a : UdpFragmentAssembler Observation)
    : UdpFragmentAssembler Observation *
      list (outcome FragmentError (option (ReassembledUdpDatagram Observation))) :=
  match ps with
  | [] => (a, [])
  | p :: ps =>
      let '(a, r) := pushWithObservation order (clock i) (tilePart p) (tileDisposition p)
                       (obs p) (ob p) a in
      let '(a, rs) := pushAll (S i) ps a in (a, r :: rs)
  end.

Hypothesis chunks_nonempty : Forall (λ c, 0 < len c) chunks.
Hypothesis length_limit : len D ≤ maximumBufferedFragmentBytes.
Hypothesis count_limit : len chunks ≤ maximumBufferedFragmentObservations.
Hypothesis ob_nonneg : ∀ p, 0 ≤ ob p.
Hypothesis ob_limit : sumBy ob (tiles 0 chunks) ≤ maximumBufferedObservationBytes.
Hypothesis clock_window : ∀ i j, start ≤ clock i j ≤ finish.
Hypothesis finish_window : finish < start + 60000.
Hypothesis h_ok : 0 ≤ h.

(** What is known of the group after the tiles [before] have arrived. *)
Record GroupRep (before : list tile) (g : FragmentGroup Observation) : Prop := {
  gr_chain : chain 0 (fg_pieces g);
  gr_pieces : fg_pieces g ≡ₚ before;
  gr_final : (fg_finalLength g = None ∨ fg_finalLength g = Some (len D)) ∧
    ((∃ p, p ∈ before ∧ p.1 + len p.2 = len D) → fg_finalLength g = Some (len D));
  gr_disposition : (∃ p, p ∈ before ∧ p.1 = 0) →
    fg_disposition g = Some disposition ∧ fg_udpHeaderOffset g = Some h;
  gr_count : fg_packetCount g = len before;
  gr_packetBytes : fg_packetBytes g = sumBy pb before;
  gr_observations : fg_observations g = obs <$> before;
  gr_observationBytes : fg_observationBytes g = sumBy ob before
}.

Record StateRep (before : list tile) (a : UdpFragmentAssembler Observation) : Prop := {
  sr_group : ∀ i j, GroupRep before (joined (clock i j) a key);
  sr_other : ∀ k, k ≠ key → as_groups a !! k = None;
  sr_live : ∀ k g, as_groups a !! k = Some g → finish < fg_expiresAt g;
  sr_fault : as_faultObservations a = [];
  sr_override : as_fragmentLifetimeOverride a = None;
  sr_bytes : as_bufferedBytes a = pieceBytes before;
  sr_observations : as_bufferedObservations a = len before;
  sr_observationBytes : as_bufferedObservationBytes a = sumBy ob before
}.

Lemma default_rep : StateRep [] UdpFragmentAssembler_default.
Proof.
  constructor; try done. intros i j. constructor; cbn; try done.
  - split; [by left|]. by intros (p & ?%elem_of_nil & _).
  - by intros (p & ?%elem_of_nil & _).
Qed.

Lemma lifetime_value a : as_fragmentLifetimeOverride a = None →
  fragmentLifetime (Observation := Observation) key a = 60000.
Proof. intros H. unfold fragmentLifetime. rewrite H. by destruct (is_ipv4 _). Qed.

Section step.
Context (before after : list tile) (p : tile) (i : nat) (a : UdpFragmentAssembler Observation).
Hypothesis Hperm : before ++ p :: after ≡ₚ tiles 0 chunks.
Hypothesis Hrep : StateRep before a.

Let og := as_groups a !! key.
Let g := joined (clock i 1%nat) a key.

Lemma tile_in x : x ∈ before ++ p :: after → x ∈ tiles 0 chunks.
Proof. by rewrite Hperm. Qed.

Lemma tile_p : (p.1, p.2) ∈ tiles 0 chunks.
Proof. rewrite <-surjective_pairing. apply tile_in, elem_of_app. right. by left. Qed.

Lemma tiles_nodup : NoDup (before ++ p :: after).
Proof.
  rewrite Hperm. apply (NoDup_fmap_1 fst).
  pose proof (chain_sorted _ _ (tiles_chain 0 chunks chunks_nonempty)) as Hs.
  unfold bt_sorted in Hs. clear - Hs. induction Hs as [|x l _ IH Hall]; constructor; [|done].
  rewrite Forall_forall in Hall. intros Hin. specialize (Hall _ Hin). lia.
Qed.

Lemma piece_disjoint o b : (o, b) ∈ before → ¬ (p.1 < o + len b ∧ o < p.1 + len p.2).
Proof.
  intros Hin [H1 H2].
  pose proof (tiles_chain 0 chunks chunks_nonempty) as Hc.
  assert ((o, b) ∈ tiles 0 chunks) as Hin' by (apply tile_in, elem_of_app; by left).
  pose proof (chain_disjoint _ _ _ _ _ _ Hc tile_p Hin' H1 H2) as Heq.
  rewrite <-surjective_pairing in Heq. pose proof tiles_nodup as Hnd. rewrite Heq in Hnd.
  apply NoDup_app in Hnd as (_ & Hd & _). apply (Hd _ Hin). by left.
Qed.

Lemma group_pieces g0 : og = Some g0 → fg_pieces g0 ≡ₚ before.
Proof.
  intros Hg. pose proof (sr_group _ _ Hrep 0%nat 0%nat) as Hr. unfold joined in Hr. fold og in Hr.
  rewrite Hg in Hr. by destruct Hr.
Qed.

Lemma new_piece : bt_get p.1 (fg_pieces g) = None ∧
  validateNoConflictingOverlap (fg_pieces g) p.1 p.2 = true.
Proof.
  pose proof (sr_group _ _ Hrep i 1%nat) as Hr. fold g in Hr.
  destruct (chain_bound 0 (tiles 0 chunks) p.1 p.2 (tiles_chain 0 _ chunks_nonempty) tile_p) as [_ Hb].
  split.
  - destruct (bt_get p.1 (fg_pieces g)) as [b|] eqn:Hget; [|done]. exfalso.
    apply bt_get_elem in Hget; [|eapply chain_sorted, gr_chain, Hr].
    pose proof (chain_bound _ _ _ _ (gr_chain _ _ Hr) Hget).
    rewrite (gr_pieces _ _ Hr) in Hget. apply (piece_disjoint _ _ Hget). lia.
  - apply validate_disjoint. intros o b Hin. rewrite (gr_pieces _ _ Hr) in Hin.
    exact (piece_disjoint _ _ Hin).
Qed.

Lemma joined_of_og g0 : og = Some g0 → g = g0.
Proof. unfold g, joined, og. by intros ->. Qed.

Lemma new_bytes : newBytesOf (tilePart p) og = len p.2.
Proof.
  destruct (newBytes_cases (tilePart p) og) as [[? _]|[_ Hs]]; [done|]. cbn in Hs.
  destruct og as [g0|] eqn:Hog; [|done]. cbn in Hs. destruct new_piece as [Hn _].
  rewrite (joined_of_og g0) in Hn by done. congruence.
Qed.

Lemma no_conflict : og ≫= conflict (tilePart p) (p.1 + len p.2) = None.
Proof.
  destruct og as [g0|] eqn:Hog; [|done]. cbn. unfold conflict. cbn.
  destruct new_piece as [_ Hv]. rewrite (joined_of_og g0) in Hv by done. rewrite Hv. cbn.
  rewrite negb_involutive. destruct (Z.eqb_spec (p.1 + len p.2) (len D)) as [->|]; [|done]. cbn.
  pose proof (gr_final _ _ (sr_group _ _ Hrep i 1%nat)) as [Hf _]. fold g in Hf.
  rewrite (joined_of_og g0) in Hf by done. destruct Hf as [-> | ->]; [done|]. by rewrite Z.eqb_refl.
Qed.

Let g' := addPart (tilePart p) (tileDisposition p) (obs p) (ob p) (len p.2) (p.1 + len p.2) g.

Lemma piece_positive : 0 < len p.2.
Proof. apply (chain_bound 0 (tiles 0 chunks) p.1 p.2 (tiles_chain 0 _ chunks_nonempty) tile_p). Qed.

Lemma next_rep : GroupRep (before ++ [p]) g'.
Proof.
  pose proof (sr_group _ _ Hrep i 1%nat) as Hr. fold g in Hr. destruct new_piece as [Hn Hv].
  pose proof piece_positive as Hpos. pose proof (tiles_bounds _ _ _ _ tile_p) as [Hlo Hhi].
  assert (fg_pieces g' = bt_insert p.1 p.2 (fg_pieces g)) as Hpieces.
  { unfold g'. cbn. by rewrite (proj2 (Z.eqb_neq _ _)) by lia. }
  destruct (chain_insert 0 (fg_pieces g) p.1 p.2) as (I1 & _ & _);
    [apply Hr|lia|done|done|congruence|].
  constructor.
  - by rewrite Hpieces.
  - rewrite Hpieces, bt_insert_perm by (done || eapply chain_sorted, gr_chain, Hr).
    rewrite <-surjective_pairing, (gr_pieces _ _ Hr). apply Permutation_cons_append.
  - destruct (gr_final _ _ Hr) as [Hf1 Hf2]. unfold g'. cbn. rewrite negb_involutive.
    destruct (Z.eqb_spec (p.1 + len p.2) (len D)) as [->|Hne]; [by split; [right|]|].
    split; [done|]. intros (q & Hin & Hq). apply Hf2.
    apply elem_of_app in Hin as [Hin| ->%list_elem_of_singleton]; [eauto|done].
  - intros (q & Hin & Hq). unfold g', tileDisposition. cbn.
    destruct (Z.eqb_spec p.1 0) as [Hz|Hnz]; [done|].
    apply elem_of_app in Hin as [Hin| ->%list_elem_of_singleton]; [|done].
    apply (gr_disposition _ _ Hr). eauto.
  - unfold g'. cbn. rewrite (gr_count _ _ Hr), len_app. done.
  - unfold g'. cbn. rewrite (gr_packetBytes _ _ Hr), sumBy_snoc. lia.
  - unfold g'. cbn. rewrite (gr_observations _ _ Hr), fmap_app. done.
  - unfold g'. cbn. rewrite (gr_observationBytes _ _ Hr), sumBy_snoc. lia.
Qed.

Lemma len_tiles from cs : len (tiles from cs) = len cs.
Proof.
  revert from. induction cs as [|c cs IH]; intros from; [done|]. cbn [tiles]. by rewrite !len_cons, IH.
Qed.

(** How much of the datagram has arrived. *)
Lemma arrived_bytes : pieceBytes before + len p.2 + pieceBytes after = len D.
Proof.
  assert (pieceBytes (before ++ p :: after) = len D) as H.
  { rewrite (pieceBytes_sumBy (before ++ _)), (sumBy_perm _ _ _ Hperm), <-pieceBytes_sumBy.
    rewrite pieceBytes_concat, tiles_snd. done. }
  rewrite pieceBytes_app, pieceBytes_cons in H. lia.
Qed.

Lemma arrived_count : len before + 1 + len after = len chunks.
Proof.
  pose proof (Permutation_length Hperm) as H.
  pose proof (len_tiles 0 chunks) as Ht. unfold len in *. rewrite length_app in H. cbn in H. lia.
Qed.

Lemma arrived_observationBytes :
  sumBy ob before + ob p + sumBy ob after = sumBy ob (tiles 0 chunks).
Proof. rewrite <-(sumBy_perm ob _ _ Hperm), sumBy_app, sumBy_cons. lia. Qed.

Lemma groups_size : Z.of_nat (size (as_groups a)) ≤ 1.
Proof.
  assert (as_groups a ⊆ {[ key := g ]}) as Hsub.
  { apply map_subseteq_spec. intros k x Hk. destruct (decide (k = key)) as [->|Hne].
    - rewrite lookup_singleton_eq. f_equal. by apply joined_of_og.
    - rewrite (sr_other _ _ Hrep k Hne) in Hk. done. }
  apply map_subseteq_size in Hsub. rewrite map_size_singleton in Hsub. lia.
Qed.

(** The push of [p] goes straight to [acceptPart]. *)
Lemma push_tile :
  pushWithObservation order (clock i) (tilePart p) (tileDisposition p) (obs p) (ob p) a =
  acceptPart (clock i 1%nat) (tilePart p) (tileDisposition p) (obs p) (ob p) (len p.2)
    (p.1 + len p.2) a.
Proof.
  pose proof arrived_bytes as Hb. pose proof arrived_count as Hc.
  pose proof arrived_observationBytes as Ho. pose proof (tiles_bounds _ _ _ _ tile_p) as [Hlo Hhi].
  pose proof (pieceBytes_nonneg before). pose proof (pieceBytes_nonneg after).
  pose proof (sumBy_nonneg ob before ob_nonneg). pose proof (sumBy_nonneg ob after ob_nonneg).
  assert (len D = len (concat chunks)) as HD by done.
  rewrite (push_accepts order order_perm (clock i) (tilePart p) (tileDisposition p) (obs p) (ob p)
    (p.1 + len p.2) a); cbn [up_key tilePart]; fold og.
  - by rewrite new_bytes.
  - intros k x Hk. pose proof (sr_live _ _ Hrep _ _ Hk). pose proof (clock_window i 0%nat). lia.
  - pose proof groups_size. assert (1 < maximumFragmentGroups) by reflexivity. lia.
  - cbn. unfold checked_add.
    assert (maximumBufferedFragmentBytes < usize_max) by reflexivity.
    rewrite (proj2 (Z.leb_le _ _)); [done|]. lia.
  - rewrite new_bytes, (sr_bytes _ _ Hrep). unfold saturating_add. lia.
  - rewrite (sr_observations _ _ Hrep). pose proof (len_nonneg after). lia.
  - rewrite (sr_observationBytes _ _ Hrep). unfold saturating_add. lia.
  - exact no_conflict.
Qed.

Lemma disposition_first : is_Some (tileDisposition p) → up_payloadOffset (tilePart p) = 0.
Proof. unfold tileDisposition. cbn. destruct (Z.eqb_spec p.1 0); [done|]. by intros [? ?]. Qed.

(** Not the last: the part is stored. *)
Lemma push_incomplete :
  after ≠ [] →
  ∃ a', pushWithObservation order (clock i) (tilePart p) (tileDisposition p) (obs p) (ob p) a
          = (a', Ok None) ∧ StateRep (before ++ [p]) a'.
Proof.
  intros Hafter. pose proof next_rep as Hnext. pose proof arrived_bytes as Hb.
  assert (isComplete g' = false) as Hinc.
  { unfold isComplete. destruct (gr_final _ _ Hnext) as [[-> | ->] _]; [done|].
    destruct (fg_disposition g'); [|done]. apply bool_decide_eq_false. intros Hend%contiguous_length.
    rewrite pieceBytes_sumBy, (sumBy_perm _ _ _ (gr_pieces _ _ Hnext)), sumBy_snoc in Hend.
    rewrite <-pieceBytes_sumBy in Hend. cbv beta in Hend.
    assert (0 < pieceBytes after); [|lia]. apply pieceBytes_positive; [done|]. intros q Hq.
    assert ((q.1, q.2) ∈ tiles 0 chunks) as Hin.
    { rewrite <-surjective_pairing. apply tile_in, elem_of_app. right. by right. }
    apply (chain_bound 0 _ _ _ (tiles_chain 0 _ chunks_nonempty) Hin). }
  exists (stored a key g' (len p.2) (ob p)). split.
  - rewrite push_tile. exact (acceptPart_result (clock i 1%nat) (tilePart p) (tileDisposition p)
      (obs p) (ob p) (len p.2) (p.1 + len p.2) a disposition_first Hinc).
  - constructor; cbn.
    + intros i' j'. unfold joined. cbn. rewrite lookup_insert_eq. exact Hnext.
    + intros k Hk. rewrite lookup_insert_ne by done. by apply Hrep.
    + intros k x. rewrite lookup_insert. case_decide; [|apply (sr_live _ _ Hrep)].
      intros [= <-]. unfold g'. cbn. unfold g, joined. fold og.
      destruct og as [g0|] eqn:Hog; cbn; [by apply (sr_live _ _ Hrep key)|].
      rewrite lifetime_value by apply Hrep. pose proof (clock_window i 1%nat). lia.
    + apply Hrep.
    + apply Hrep.
    + rewrite (sr_bytes _ _ Hrep), pieceBytes_app, pieceBytes_cons. change (pieceBytes []) with 0. lia.
    + rewrite (sr_observations _ _ Hrep), len_app. done.
    + rewrite (sr_observationBytes _ _ Hrep), sumBy_snoc. done.
Qed.

Hypothesis Hhigh : get D (h + 4) = Some high.
Hypothesis Hlow : get D (h + 5) = Some low.
Hypothesis Hlength : 8 ≤ high * 256 + low.
Hypothesis Hfit : h + (high * 256 + low) ≤ len D.

(** The datagram that the last part completes. *)
Definition reassembled (arrived : list tile) : ReassembledUdpDatagram Observation :=
  {| rd_event := Some {| ue_processId := ot_processId target; ue_clientAddress := client;
                         ue_targetAddress := ot_address target; ue_direction := direction;
                         ue_payload := slice D (h + 8) (h + (high * 256 + low));
                         ue_capturedAtMilliseconds := ms; ue_modifications := [] |};
     rd_packetCount := len arrived; rd_packetBytes := sumBy pb arrived;
     rd_observations := obs <$> arrived |}.

Lemma push_complete :
  after = [] →
  pushWithObservation order (clock i) (tilePart p) (tileDisposition p) (obs p) (ob p) a
    = (UdpFragmentAssembler_default, Ok (Some (reassembled (before ++ [p])))).
Proof.
  intros Hafter. pose proof next_rep as Hnext. rewrite push_tile.
  assert (before ++ [p] ≡ₚ tiles 0 chunks) as Hall by (by rewrite <-Hperm, Hafter).
  assert (fg_pieces g' = tiles 0 chunks) as Hpieces.
  { apply sorted_perm_eq; [eapply chain_sorted, gr_chain, Hnext| |by rewrite (gr_pieces _ _ Hnext)].
    eapply chain_sorted, tiles_chain, chunks_nonempty. }
  assert (chunks ≠ []) as Hne.
  { intros Hnil. rewrite Hnil in Hall. apply Permutation_length in Hall. rewrite length_app in Hall.
    cbn in Hall. lia. }
  assert (fg_finalLength g' = Some (len D)) as Hfinal.
  { apply Hnext. destruct (tiles_last 0 chunks Hne) as (o & b & Hin & Hend).
    exists (o, b). rewrite Hall. done. }
  assert (fg_disposition g' = Some disposition ∧ fg_udpHeaderOffset g' = Some h) as [Hdisp Hhead].
  { apply Hnext. destruct (tiles_first chunks Hne) as (b & Hin). exists (0, b). by rewrite Hall. }
  assert (isComplete g' = true) as Hcomp.
  { unfold isComplete. rewrite Hfinal, Hdisp, Hpieces. apply bool_decide_eq_true.
    rewrite tiles_contiguous. done. }
  assert (concat (fg_pieces g').*2 = D) as HD by (by rewrite Hpieces, tiles_snd).
  assert (assembleGroup g' = Ok (reassembled (before ++ [p]))) as Hasm.
  { unfold assembleGroup. rewrite Hdisp. cbn [expect mbind outcome_bind disposition].
    rewrite Hfinal, Hhead, HD. cbn [expect mbind outcome_bind ok_or].
    rewrite (proj2 (Z.leb_le (h + 8) (len D))) by lia. cbn [check mbind outcome_bind].
    rewrite (idx_eq _ _ _ Hhigh). cbn [mbind outcome_bind].
    rewrite (idx_eq _ _ _ Hlow). cbn [mbind outcome_bind].
    rewrite (proj2 (Z.leb_le 8 _) Hlength), (proj2 (Z.leb_le _ _) Hfit). cbn [andb check mbind outcome_bind].
    rewrite sub_slice_eq by lia. cbn [mbind outcome_bind]. unfold reassembled.
    by rewrite (gr_count _ _ Hnext), (gr_packetBytes _ _ Hnext), (gr_observations _ _ Hnext). }
  unfold acceptPart, mbind, stateful_bind, gets, modify. cbn [id].
  change (up_key (tilePart p)) with key. fold (joined (clock i 1%nat) a key). fold g. fold g'.
  assert (bool_decide (is_Some (tileDisposition p)) && negb (up_payloadOffset (tilePart p) =? 0) = false) as ->.
  { pose proof disposition_first as Hd. destruct (tileDisposition p) as [d|]; [|done].
    by rewrite Hd by eauto. }
  rewrite Hcomp. cbn [negb]. unfold releaseGroup, mbind, stateful_bind, gets, modify. cbn [id].
  cbn [as_bufferedBytes as_bufferedObservations as_bufferedObservationBytes set_counters set_groups as_groups].
  pose proof arrived_bytes as Hb. rewrite Hafter in Hb. change (pieceBytes []) with 0 in Hb.
  assert (pieceBytes (fg_pieces g') = len D) as E1.
  { rewrite pieceBytes_concat, HD. done. }
  assert (len (fg_observations g') = len before + 1) as E2.
  { rewrite (gr_observations _ _ Hnext). unfold len. rewrite length_fmap, length_app. cbn. lia. }
  rewrite E1, E2, (gr_observationBytes _ _ Hnext), sumBy_snoc.
  rewrite (sr_bytes _ _ Hrep), (sr_observations _ _ Hrep), (sr_observationBytes _ _ Hrep).
  replace (pieceBytes before + len p.2 - len D) with 0 by lia.
  replace (len before + 1 - (len before + 1)) with 0 by lia.
  replace (sumBy ob before + ob p - (sumBy ob before + ob p)) with 0 by lia.
  cbn [Z.leb Z.compare andb]. rewrite Hasm. unfold mret, stateful_ret. f_equal.
  unfold UdpFragmentAssembler_default, set_counters, set_groups. cbn.
  rewrite (sr_fault _ _ Hrep), (sr_override _ _ Hrep). f_equal.
  apply map_eq. intros k. rewrite lookup_empty, lookup_delete. case_decide as Hk; [done|].
  rewrite !lookup_insert_ne by done. apply Hrep. congruence.
Qed.
End step.

Hypothesis Hhigh : get D (h + 4) = Some high.
Hypothesis Hlow : get D (h + 5) = Some low.
Hypothesis Hlength : 8 ≤ high * 256 + low.
Hypothesis Hfit : h + (high * 256 + low) ≤ len D.

Lemma pushAll_from before ps i a :
  ps ≠ [] → before ++ ps ≡ₚ tiles 0 chunks → StateRep before a →
  pushAll i ps a = (UdpFragmentAssembler_default,
    replicate (length ps - 1) (Ok None) ++ [Ok (Some (reassembled (before ++ ps)))]).
Proof.
  revert before i a. induction ps as [|p ps IH]; intros before i a; [done|]. intros _ Hperm Hrep.
  cbn [pushAll]. destruct (decide (ps = [])) as [->|Hps].
  - rewrite (push_complete before [] p i a Hperm Hrep Hhigh Hlow Hlength Hfit eq_refl). done.
  - destruct (push_incomplete before ps p i a Hperm Hrep Hps) as (a' & -> & Hrep').
    rewrite (IH (before ++ [p])); [|done|by rewrite <-app_assoc|done].
    rewrite <-app_assoc. cbn [app length]. destruct ps as [|q ps]; [done|]. cbn [length].
    replace (S (length ps) - 1)%nat with (length ps) by lia.
    by replace (S (S (length ps)) - 1)%nat with (S (length ps)) by lia.
Qed.

(** C5: Reassembly in any order.  Cut a datagram into non-empty fragments and
    push them into an empty assembler in any order, all within the reassembly
    window and within the budgets: every push but the last answers "not yet", the
    last one answers the datagram (its payload as delimited by the UDP length, the
    process of the first fragment, all packet copies in arrival order), and the
    assembler is empty again. *)
Theorem reassembly_any_order ps :
  ps ≠ [] → ps ≡ₚ tiles 0 chunks →
  pushAll 0 ps UdpFragmentAssembler_default = (UdpFragmentAssembler_default,
    replicate (length ps - 1) (Ok None) ++ [Ok (Some (reassembled ps))]).
Proof.
  intros Hne Hperm. by rewrite (pushAll_from [] ps 0%nat UdpFragmentAssembler_default Hne Hperm default_rep).
Qed.
End datagram.

(** * UDP reassembly on a concrete datagram

    A ten-byte UDP datagram (header and two bytes) in two fragments, of which the
    second arrives first. *)

Definition fragmentKeyEx : UdpFragmentKey :=
  {| uk_sourceAddress := localEx; uk_destinationAddress := remoteEx; uk_identification := 7;
     uk_outbound := true |}.

(** The datagram: ports 50001 and 53, length 10, two bytes of payload. *)
Definition chunksEx : list (list Z) := [be_bytes 2 50001 ++ be_bytes 2 53 ++ [0; 10; 0; 0]; [7; 9]].
Definition targetEx : OriginalTarget := {| ot_processId := 52; ot_address := SocketAddrV4 134744072 53 |}.
Definition clientEx : SocketAddr := SocketAddrV4 3232235786 50001.

Definition orderEx : gmap UdpFragmentKey (FragmentGroup unit) →
  list (UdpFragmentKey * FragmentGroup unit) := map_to_list.

Lemma orderEx_perm m : orderEx m ≡ₚ map_to_list m.
Proof. reflexivity. Defined.

Lemma reassembly_any_order_witness :
  (pushAll orderEx fragmentKeyEx chunksEx 0 targetEx Up clientEx 5 (λ _, tt) (λ _, 30) (λ _, 30)
     (λ _ _, 0) 0 [(8, [7; 9]); (0, be_bytes 2 50001 ++ be_bytes 2 53 ++ [0; 10; 0; 0])]
     UdpFragmentAssembler_default).2 =
  [Ok None; Ok (Some (reassembled chunksEx 0 0 10 targetEx Up clientEx 5 (λ _, tt) (λ _, 30)
     [(8, [7; 9]); (0, be_bytes 2 50001 ++ be_bytes 2 53 ++ [0; 10; 0; 0])]))].
Proof.
  rewrite (reassembly_any_order orderEx orderEx_perm fragmentKeyEx chunksEx 0 0 10 targetEx Up clientEx
    5 (λ _, tt) (λ _, 30) (λ _, 30) (λ _ _, 0) 0 0).
  - reflexivity.
  - repeat constructor.
  - vm_compute. discriminate.
  - vm_compute. discriminate.
  - intros. lia.
  - vm_compute. discriminate.
  - intros. lia.
  - lia.
  - lia.
  - vm_compute. reflexivity.
  - vm_compute. reflexivity.
  - lia.
  - vm_compute. discriminate.
  - discriminate.
  - vm_compute. apply perm_swap.
Defined.

(** The payload the witness delivers. *)
Lemma reassembledEx_payload :
  ue_payload <$> rd_event (reassembled chunksEx 0 0 10 targetEx Up clientEx 5 (λ _, tt) (λ _, 30) [])
  = Some [7; 9].
Proof. vm_compute. reflexivity. Qed.

Definition partEx : UdpFragmentPart :=
  tilePart fragmentKeyEx chunksEx 0 (λ _, 30) (8, [7; 9]).

Lemma partEx_ok : PartOk partEx.
Proof. constructor; cbn; [lia|]. discriminate. Defined.

(** An assembler that holds one part, with its packet. *)
Definition holdingEx : UdpFragmentAssembler unit :=
  (pushWithObservation orderEx (λ _, 0) partEx None tt 30 UdpFragmentAssembler_default).1.
Lemma holdingEx_inv : AsmInv holdingEx.
Proof.
  pose proof (push_runs orderEx orderEx_perm (λ _, 0) partEx None tt 30 UdpFragmentAssembler_default
    default_asm_inv partEx_ok ltac:(lia)) as Hr. unfold holdingEx, Runs in *.
  by destruct (pushWithObservation _ _ _ _ _ _ _) as [a' [r|e|]]; [apply Hr|apply Hr|].
Qed.

(** Its packet comes again, and is handed out when the capture ends. *)
Lemma push_invariant_witness :
  as_bufferedObservations holdingEx = 1 ∧
  Runs (pushWithObservation orderEx (λ _, 0) partEx None tt 30) holdingEx
    (λ _ a', AsmInv a') (λ _ a', AsmInv a') ∧
  Runs (drainPendingObservations orderEx) holdingEx (λ observations _, len observations = 1) (λ _ _, False).
Proof.
  destruct (push_invariant orderEx orderEx_perm (λ _, 0) partEx None tt 30 holdingEx holdingEx_inv partEx_ok
    ltac:(lia)) as (Hpush & _ & Hdrain).
  split; [vm_compute; reflexivity|]. split; [exact Hpush|].
  eapply runs_mono; [..|exact Hdrain]; cbn beta; [|by intros _ _ []].
  intros observations _ ->. vm_compute. reflexivity.
Defined.

Lemma push_keeps_required_witness :
  Runs (pushWithObservation orderEx (λ _, 0) partEx None tt 30) UdpFragmentAssembler_default
    (λ _ a', ∀ k g, k ≠ fragmentKeyEx → as_groups UdpFragmentAssembler_default !! k = Some g →
       isIgnored (fg_disposition g) = false → as_groups a' !! k = Some g)
    (λ _ a', ∀ k g, k ≠ fragmentKeyEx → as_groups UdpFragmentAssembler_default !! k = Some g →
       isIgnored (fg_disposition g) = false → as_groups a' !! k = Some g).
Proof.
  apply (push_keeps_required orderEx orderEx_perm (λ _, 0) partEx);
    [apply default_asm_inv|exact partEx_ok|lia].
Defined.

Lemma poll_and_finish_witness : finish orderEx UdpFragmentAssembler_default = Ok tt.
Proof.
  apply (poll_and_finish orderEx orderEx_perm 0 UdpFragmentAssembler_default default_asm_inv).
  intros k g H. cbn in H. by apply lookup_empty_Some in H.
Defined.

(** The second fragment as an IPv4 packet. *)
Definition fragmentPacketEx : list Z :=
  [69; 0; 0; 22; 0; 7; 0; 1; 64; 17; 0; 0] ++ octets localEx ++ octets remoteEx ++ [7; 9].

Lemma inspect_total_witness :
  Satisfies (inspectUdpFragment fragmentPacketEx true) (WellFormedPart fragmentPacketEx) (λ _, True).
Proof.
  apply inspect_total. unfold fragmentPacketEx. rewrite !Forall_app.
  repeat split; try apply octets_ok; repeat constructor; unfold u8_max; lia.
Defined.

Lemma fragmentPacketEx_parsed :
  match inspectUdpFragment fragmentPacketEx true with
  | Ok (Fragment part) => up_key part = fragmentKeyEx ∧ fragmentPayloadRange part = (8, 20, 2)
  | _ => False
  end.
Proof. vm_compute. done. Qed.
