(* ===== verification/Text.v ===== *)
(** * Strings

    The [str] methods the rules of the filters and locations use, on strings as
    lists of [char]s (Unicode scalar values). *)

From S2P Require Import Prelude NetAddress.

Abbreviation chars := (list Z) (only parsing).

(** String literals of the source. *)
Definition lit (s : String.string) : chars :=
  (λ c, Z.of_N (Ascii.N_of_ascii c)) <$> String.list_ascii_of_string s.

(** [char::is_whitespace]: the White_Space property. *)
Definition is_whitespace (c : Z) : bool :=
  ((9 <=? c) && (c <=? 13)) || (c =? 32) || (c =? 133) || (c =? 160) || (c =? 5760) ||
  ((8192 <=? c) && (c <=? 8202)) || (c =? 8232) || (c =? 8233) || (c =? 8239) || (c =? 8287) ||
  (c =? 12288).

(** [u8::is_ascii_whitespace], on a [char]. *)
Definition is_ascii_whitespace (c : Z) : bool :=
  (c =? 32) || (c =? 9) || (c =? 10) || (c =? 12) || (c =? 13).

(** [char::is_control]: general category Cc. *)
Definition is_control (c : Z) : bool :=
  ((0 <=? c) && (c <=? 31)) || ((127 <=? c) && (c <=? 159)).

Definition to_ascii_lowercase_char (c : Z) : Z :=
  if (65 <=? c) && (c <=? 90) then c + 32 else c.
Definition to_ascii_lowercase (s : chars) : chars := to_ascii_lowercase_char <$> s.

(** [str::len]: bytes of the UTF-8 encoding. *)
Definition char_bytes (c : Z) : Z :=
  if c <? 128 then 1 else if c <? 2048 then 2 else if c <? 65536 then 3 else 4.
Fixpoint str_len (s : chars) : Z :=
  match s with [] => 0 | c :: s => char_bytes c + str_len s end.

Definition is_empty (s : chars) : bool := match s with [] => true | _ => false end.
Definition contains_char (c : Z) (s : chars) : bool := existsb (Z.eqb c) s.
Definition str_eqb (s t : chars) : bool := bool_decide (s = t).

Fixpoint trim_start_by (p : Z → bool) (s : chars) : chars :=
  match s with
  | [] => []
  | c :: rest => if p c then trim_start_by p rest else s
  end.
Definition trim_end_by (p : Z → bool) (s : chars) : chars :=
  reverse (trim_start_by p (reverse s)).
Definition trim (s : chars) : chars := trim_end_by is_whitespace (trim_start_by is_whitespace s).
Definition trim_end_matches (c : Z) (s : chars) : chars := trim_end_by (Z.eqb c) s.

Fixpoint strip_prefix (prefix s : chars) : option chars :=
  match prefix, s with
  | [], _ => Some s
  | p :: prefix, c :: s => if p =? c then strip_prefix prefix s else None
  | _ :: _, [] => None
  end.
Definition starts_with (prefix s : chars) : bool := bool_decide (is_Some (strip_prefix prefix s)).
Definition strip_suffix (suffix s : chars) : option chars :=
  reverse <$> strip_prefix (reverse suffix) (reverse s).
Definition ends_with (suffix s : chars) : bool := bool_decide (is_Some (strip_suffix suffix s)).

(** [str::contains] with a string. *)
Fixpoint contains_str (needle s : chars) : bool :=
  starts_with needle s || match s with [] => false | _ :: s => contains_str needle s end.

(** [str::split] by a character: never empty. *)
Fixpoint split (c : Z) (s : chars) : list chars :=
  match s with
  | [] => [[]]
  | x :: s =>
      if x =? c then [] :: split c s
      else match split c s with
           | [] => [[x]]
           | piece :: pieces => (x :: piece) :: pieces
           end
  end.

(** [str::split_once] by a character. *)
Fixpoint split_once (c : Z) (s : chars) : option (chars * chars) :=
  match s with
  | [] => None
  | x :: s =>
      if x =? c then Some ([], s)
      else match split_once c s with Some (a, b) => Some (x :: a, b) | None => None end
  end.

(** The pieces between separators that satisfy [p], the empty ones left out. *)
Fixpoint pieces_by (p : Z → bool) (current : chars) (s : chars) : list chars :=
  match s with
  | [] => if is_empty current then [] else [reverse current]
  | c :: s =>
      if p c then
        (if is_empty current then pieces_by p [] s else reverse current :: pieces_by p [] s)
      else pieces_by p (c :: current) s
  end.
Definition split_ascii_whitespace (s : chars) : list chars := pieces_by is_ascii_whitespace [] s.

(** [char::to_digit]. *)
Definition to_digit (radix c : Z) : option Z :=
  let d := if (48 <=? c) && (c <=? 57) then c - 48
           else if (97 <=? c) && (c <=? 122) then c - 87
           else if (65 <=? c) && (c <=? 90) then c - 55 else 36 in
  if d <? radix then Some d else None.

(** [from_str_radix] of an unsigned type with largest value [max]: an optional
    plus sign, then at least one digit. *)
Fixpoint digits_value (radix max acc : Z) (s : chars) : option Z :=
  match s with
  | [] => Some acc
  | c :: s =>
      d ← to_digit radix c;
      let acc := acc * radix + d in
      if acc <=? max then digits_value radix max acc s else None
  end.
Definition from_str_radix (radix max : Z) (s : chars) : option Z :=
  match s with
  | [] => None
  | [c] => digits_value radix max 0 [c]
  | c :: rest => digits_value radix max 0 (if c =? 43 then rest else s)
  end.

(** [Display] of a [u64]: decimal digits, twenty at most. *)
Fixpoint decimal_digits (fuel : nat) (n : Z) (acc : chars) : chars :=
  match fuel with
  | O => acc
  | S fuel =>
      let acc := 48 + n mod 10 :: acc in
      if n <? 10 then acc else decimal_digits fuel (n / 10) acc
  end.
Definition decimal (n : Z) : chars := decimal_digits 20 n [].

(** ** Facts *)
Lemma reverse_cons_ne (x : Z) s : reverse (x :: s) ≠ [].
Proof. rewrite reverse_cons. by destruct (reverse s). Qed.

Lemma pieces_by_nonempty p current s piece : piece ∈ pieces_by p current s → piece ≠ [].
Proof.
  revert current. induction s as [|c s IH]; intros current; cbn [pieces_by].
  - destruct current as [|x current]; cbn [is_empty]; [set_solver|].
    intros ->%list_elem_of_singleton. apply reverse_cons_ne.
  - destruct (p c); [|apply IH]. destruct current as [|x current]; cbn [is_empty]; [apply IH|].
    intros [->|H]%elem_of_cons; [apply reverse_cons_ne|by eapply IH].
Qed.

Lemma digits_value_bound radix max s acc v :
  1 ≤ radix → 0 ≤ acc ≤ max → digits_value radix max acc s = Some v → 0 ≤ v ≤ max.
Proof.
  intros Hr. revert acc. induction s as [|c s IH]; intros acc Hacc; cbn; [by intros [= <-]|].
  destruct (to_digit radix c) as [d|] eqn:Hd; [|done]. cbn. case_if Hle; [|done].
  apply Z.leb_le in Hle. apply IH. split; [|done]. enough (0 ≤ d) by nia.
  unfold to_digit in Hd.
  repeat match type of Hd with context [if ?b then _ else _] => destruct b eqn:? end; simplify_eq; lia.
Qed.

Lemma from_str_radix_bound radix max s v :
  1 ≤ radix → 0 ≤ max → from_str_radix radix max s = Some v → 0 ≤ v ≤ max.
Proof.
  intros Hr Hm. unfold from_str_radix. destruct s as [|c [|c' s]]; [done|..];
    intros H; eapply digits_value_bound; try exact H; lia.
Qed.

Lemma strip_prefix_Some prefix s rest : strip_prefix prefix s = Some rest ↔ s = prefix ++ rest.
Proof.
  revert s. induction prefix as [|p prefix IH]; intros s; cbn.
  - split; [by intros [= ->]|by intros ->].
  - destruct s as [|c s]; [done|]. destruct (Z.eqb_spec p c) as [->|]; [|naive_solver].
    rewrite IH. naive_solver.
Qed.

Lemma strip_suffix_Some suffix s rest : strip_suffix suffix s = Some rest ↔ s = rest ++ suffix.
Proof.
  unfold strip_suffix. rewrite fmap_Some. setoid_rewrite strip_prefix_Some. split.
  - intros (x & Hs & ->). apply (f_equal reverse) in Hs. rewrite reverse_involutive in Hs.
    by rewrite Hs, reverse_app, reverse_involutive.
  - intros ->. exists (reverse rest). by rewrite reverse_app, reverse_involutive.
Qed.

(** ** Decimal numbers *)
Lemma tenth_lt n P : 0 ≤ n < 10 * P → 10 ≤ n → 0 ≤ n / 10 < P.
Proof. intros Hn H. split; [apply Z.div_pos; lia|]. apply Z.div_lt_upper_bound; lia. Qed.
Lemma decimal_digits_value fuel n acc :
  0 ≤ n < 10 ^ Z.of_nat fuel → (fuel ≠ 0)%nat →
  foldl (λ a c, a * 10 + (c - 48)) 0 (decimal_digits fuel n acc) = foldl (λ a c, a * 10 + (c - 48)) n acc.
Proof.
  revert n acc. induction fuel as [|fuel IH]; intros n acc Hn Hf; [done|].
  cbn [decimal_digits]. case_if Hsmall.
  - apply Z.ltb_lt in Hsmall. cbn. rewrite Z.mod_small by lia. f_equal. lia.
  - apply Z.ltb_ge in Hsmall. rewrite Nat2Z.inj_succ, Z.pow_succ_r in Hn by lia.
    assert (Hpos : (fuel ≠ 0)%nat).
    { intros ->. cbn in Hn. lia. }
    apply tenth_lt in Hn; [|done].
    rewrite IH by done.
    cbn [foldl]. pose proof (Z.div_mod n 10 ltac:(lia)) as Hdiv. f_equal. lia.
Qed.

Lemma decimal_inj m n : is_u64 m → is_u64 n → decimal m = decimal n → m = n.
Proof.
  intros Hm Hn Heq. apply (f_equal (foldl (λ a c, a * 10 + (c - 48)) 0)) in Heq.
  assert (Hmax : u64_max < 10 ^ Z.of_nat 20) by (vm_compute; reflexivity).
  assert (Hval : ∀ k, is_u64 k → foldl (λ a c, a * 10 + (c - 48)) 0 (decimal k) = k).
  { intros k [Hk0 Hk1]. unfold decimal. rewrite decimal_digits_value; [done| |lia].
    split; [exact Hk0|]. eapply Z.le_lt_trans; [exact Hk1|exact Hmax]. }
  by rewrite !Hval in Heq.
Qed.

(** * Parsing addresses

    [str::parse] for [Ipv4Addr], [Ipv6Addr] and [IpAddr], the way the standard
    library's parser works: a reader returns what it read and the rest of the text. *)

Definition reader (A : Type) : Type := chars → option (A * chars).

Definition read_given_char (c : Z) : reader unit := λ s,
  match s with x :: s => if x =? c then Some (tt, s) else None | [] => None end.

(** The digits at the front: their value and their number. *)
Fixpoint read_digits (radix value count : Z) (s : chars) : Z * Z * chars :=
  match s with
  | c :: rest =>
      match to_digit radix c with
      | Some d => read_digits radix (value * radix + d) (count + 1) rest
      | None => (value, count, s)
      end
  | [] => (value, count, s)
  end.

Definition read_number (radix maximum maxDigits : Z) (allowZeroPrefix : bool) : reader Z := λ s,
  let '(value, count, rest) := read_digits radix 0 0 s in
  let leadingZero := starts_with [48] s in
  if (maxDigits <? count) || (count =? 0) || (negb allowZeroPrefix && leadingZero && (1 <? count))
     || (maximum <? value)
  then None else Some (value, rest).

(** [read_separator]: the separator is read in front of all but the first item. *)
Definition read_separator {A} (separator index : Z) (inner : reader A) : reader A := λ s,
  if 0 <? index then '(_, s) ← read_given_char separator s; inner s else inner s.

Fixpoint read_octets (n : nat) (index value : Z) : reader Z := λ s,
  match n with
  | O => Some (value, s)
  | S n =>
      '(octet, s) ← read_separator 46 index (read_number 10 u8_max 3 false) s;
      read_octets n (index + 1) (value * 256 + octet) s
  end.

Definition read_ipv4_addr : reader Z := read_octets 4 0 0.

(** [read_groups] on [n] slots of which [index] are filled: the groups read and
    whether the last two are an embedded IPv4 address. *)
Fixpoint read_groups (n : nat) (index : Z) (s : chars) : list Z * bool * chars :=
  match n with
  | O => ([], false, s)
  | S n =>
      match (if (0 <? Z.of_nat n) then read_separator 58 index read_ipv4_addr s else None) with
      | Some (v4, s) => ([v4 / 65536; v4 mod 65536], true, s)
      | None =>
          match read_separator 58 index (read_number 16 u16_max 4 true) s with
          | Some (g, s) => let '(gs, v4, s) := read_groups n (index + 1) s in (g :: gs, v4, s)
          | None => ([], false, s)
          end
      end
  end.

Definition groups_value (groups : list Z) : Z := fold_left (λ v g, v * 65536 + g) groups 0.

Definition read_ipv6_addr : reader Z := λ s,
  let '(head, headIpv4, s) := read_groups 8 0 s in
  if len head =? 8 then Some (groups_value head, s)
  else if headIpv4 then None
  else
    '(_, s) ← read_given_char 58 s;
    '(_, s) ← read_given_char 58 s;
    let limit := (8 - (length head + 1))%nat in
    let '(tail, _, s) := read_groups limit 0 s in
    Some (groups_value (head ++ replicate (8 - length head - length tail) 0 ++ tail), s).

(** [parse_with]: the whole text must be read. *)
Definition parse_with {A} (r : reader A) (s : chars) : option A :=
  match r s with Some (a, []) => Some a | _ => None end.

Definition parse_ipv4 (s : chars) : option IpAddr :=
  if 15 <? str_len s then None else V4 <$> parse_with read_ipv4_addr s.
Definition parse_ipv6 (s : chars) : option IpAddr := V6 <$> parse_with read_ipv6_addr s.
Definition parse_ip (s : chars) : option IpAddr :=
  parse_with (λ s, match read_ipv4_addr s with
                   | Some (a, s) => Some (V4 a, s)
                   | None => '(a, s) ← read_ipv6_addr s; Some (V6 a, s)
                   end) s.

(** ** What is parsed is an address *)
Lemma read_number_bound radix maximum maxDigits allow s v rest :
  1 ≤ radix → read_number radix maximum maxDigits allow s = Some (v, rest) → 0 ≤ v ≤ maximum.
Proof.
  intros Hr. unfold read_number.
  assert (∀ l value count v c rest, 0 ≤ value → read_digits radix value count l = (v, c, rest) → 0 ≤ v) as Hd.
  { intros l. induction l as [|x l IH]; intros value count v' c r Hv; cbn; [by intros ?; simplify_eq|].
    destruct (to_digit radix x) as [d|] eqn:Ht; [|by intros ?; simplify_eq]. apply IH.
    enough (0 ≤ d) by nia. unfold to_digit in Ht.
    repeat match type of Ht with context [if ?b then _ else _] => destruct b eqn:? end; simplify_eq; lia. }
  destruct (read_digits radix 0 0 s) as [[v' c] r] eqn:He. cbn zeta. case_if Hb; [done|]. intros [= <- <-].
  apply Hd in He; [|lia]. rewrite !orb_false_iff in Hb. destruct Hb as [_ Hb%Z.ltb_ge]. lia.
Qed.

Lemma read_separator_Some {A} sep i (r : reader A) s x :
  read_separator sep i r s = Some x → ∃ s', r s' = Some x.
Proof.
  unfold read_separator. case_if Hi; [|eauto].
  destruct (read_given_char sep s) as [[[] s']|]; [|done]. cbn. eauto.
Qed.

Lemma read_ipv4_bound s v rest : read_ipv4_addr s = Some (v, rest) → 0 ≤ v < 2 ^ 32.
Proof.
  unfold read_ipv4_addr.
  assert (∀ n i value s v rest, 0 ≤ value → read_octets n i value s = Some (v, rest) →
    0 ≤ v < (value + 1) * 256 ^ Z.of_nat n) as Hg.
  { induction n as [|n IH]; intros i value s' v' rest' Hv; cbn [read_octets].
    - intros [= <- ?]. cbn. lia.
    - destruct (read_separator _ _ _ _) as [[octet s2]|] eqn:Ho; [|done]. cbn [mbind option_bind].
      apply read_separator_Some in Ho as [s3 Ho].
      apply read_number_bound in Ho; [|lia]. unfold u8_max in Ho.
      intros Hr. apply IH in Hr; [|lia]. split; [lia|]. eapply Z.lt_le_trans; [apply Hr|].
      replace (256 ^ Z.of_nat (S n)) with (256 * 256 ^ Z.of_nat n)
        by (rewrite Nat2Z.inj_succ, Z.pow_succ_r by lia; done).
      assert (0 < 256 ^ Z.of_nat n) by (apply Z.pow_pos_nonneg; lia). nia. }
  intros Hr. apply Hg in Hr; [|lia]. change (2 ^ 32) with ((0 + 1) * 256 ^ Z.of_nat 4). done.
Qed.

(** "192.168.1.7", "::1", "::ffff:1.2.3.4", and texts that are not addresses. *)
Example parse_ip_examples :
  parse_ip [49; 57; 50; 46; 49; 54; 56; 46; 49; 46; 55] = Some (V4 3232235783) ∧
  parse_ip [58; 58; 49] = Some (V6 1) ∧
  parse_ip [58; 58; 102; 102; 102; 102; 58; 49; 46; 50; 46; 51; 46; 52] = Some (V6 281470698652420) ∧
  parse_ip [49; 46; 50; 46; 51] = None ∧
  parse_ip [48; 49; 46; 50; 46; 51; 46; 52] = None ∧
  parse_ip [58; 58; 58] = None.
Proof. vm_compute. done. Qed.
