(* ===== verification/Socks5Codec.v ===== *)
(** * The SOCKS5 wire protocol

    Model of [Server/Backend/Socks5/src/address.rs], [protocol.rs], [error.rs] and
    the validation of [config.rs].  A [String] is the list of its UTF-8 bytes.  A
    stream is what the peer sends (and whether it then closes or goes silent)
    together with what has been written to it; a read on a silent stream is
    [Pending], which [timeout] turns into the deadline error. *)

From S2P Require Import Prelude NetAddress Stateful Text.

Definition addressTypeIpv4 : Z := 1.
Definition addressTypeDomain : Z := 3.
Definition addressTypeIpv6 : Z := 4.
Definition socksVersion : Z := 5.
Definition usernamePasswordVersion : Z := 1.
Definition methodNoAuth : Z := 0.
Definition methodUsernamePassword : Z := 2.
Definition methodNoAcceptable : Z := 255.
Definition replyGeneralFailure : Z := 1.
Definition replyConnectionNotAllowed : Z := 2.
Definition replyNetworkUnreachable : Z := 3.
Definition replyHostUnreachable : Z := 4.
Definition replyConnectionRefused : Z := 5.
Definition replyTtlExpired : Z := 6.

(** ** Errors *)

(** The [io::ErrorKind]s the code distinguishes. *)
Inductive ErrorKind :=
| BrokenPipe | ConnectionAborted | ConnectionReset | NotConnected | UnexpectedEof | InvalidInput
| ConnectionRefused | HostUnreachable | NetworkUnreachable | TimedOut | PermissionDenied | OtherKind.

(** The texts of [InvalidUdpPacket]. *)
Inductive UdpPacketFault :=
| MissingAddressType | TruncatedIpv4 | TruncatedIpv6 | MissingDomainLength | TruncatedDomain
| TruncatedPort | PacketTooShort | ReservedNotZero | FragmentedPacket.

Inductive Deadline := Negotiation | PluginNegotiation | ExternalNegotiation | CommandRead.

Inductive Socks5Error :=
| Configuration
| Io (kind : ErrorKind)
| Timeout (what : Deadline)
| RelayIdleTimeout
| UnsupportedVersion (version : Z)
| NoAcceptableAuthentication
| AuthenticationFailed
| InvalidReservedByte (value : Z)
| UnsupportedCommand (command : Z)
| UnsupportedAddressType (addressType : Z)
| InvalidDomain
| Resolve
| InvalidUdpPacket (fault : UdpPacketFault)
| InvalidUdpSource
| RemoteConnect
| PluginClosed
| Runtime.

Definition isNormalRelayTermination (e : Socks5Error) : bool :=
  match e with
  | RelayIdleTimeout => true
  | Io BrokenPipe | Io ConnectionAborted | Io ConnectionReset | Io NotConnected
  | Io UnexpectedEof => true
  | _ => false
  end.

Definition mapIoErrorToReply (kind : ErrorKind) : Z :=
  match kind with
  | ConnectionRefused => replyConnectionRefused
  | HostUnreachable => replyHostUnreachable
  | NetworkUnreachable => replyNetworkUnreachable
  | TimedOut => replyTtlExpired
  | PermissionDenied => replyConnectionNotAllowed
  | _ => replyGeneralFailure
  end.

(** ** Strings *)

Definition between (lo x hi : Z) : bool := (lo <=? x) && (x <=? hi).

(** [str::from_utf8]: well-formed UTF-8, by the table of the Unicode standard. *)
Fixpoint utf8_valid (l : list Z) : bool :=
  match l with
  | [] => true
  | b0 :: l =>
      if between 0 b0 127 then utf8_valid l
      else match l with
      | [] => false
      | b1 :: l =>
          if between 194 b0 223 then between 128 b1 191 && utf8_valid l
          else match l with
          | [] => false
          | b2 :: l =>
              if between 224 b0 239 then
                (if b0 =? 224 then between 160 b1 191
                 else if b0 =? 237 then between 128 b1 159 else between 128 b1 191)
                && between 128 b2 191 && utf8_valid l
              else match l with
              | [] => false
              | b3 :: l =>
                  between 240 b0 244 &&
                  (if b0 =? 240 then between 144 b1 191
                   else if b0 =? 244 then between 128 b1 143 else between 128 b1 191)
                  && between 128 b2 191 && between 128 b3 191 && utf8_valid l
              end
          end
      end
  end.

Abbreviation text := (list Z) (only parsing).

(** ** Addresses *)
Inductive TargetHost :=
| Ip (address : IpAddr)
| Domain (domain : text).

Record TargetAddress := { ta_host : TargetHost; ta_port : Z }.

Definition fromSocketAddress (address : SocketAddr) : TargetAddress :=
  {| ta_host := Ip (sock_ip address); ta_port := sock_port address |}.

Definition isUnspecified (a : TargetAddress) : bool :=
  match ta_host a with Ip address => is_unspecified address | Domain _ => false end.

(** [lookup] is the system resolver ([None]: it fails), [addressOverride] the
    injected table of forced addresses. *)
Definition resolveWithOverride (lookup : text → Z → option (list SocketAddr))
    (addressOverride : option (text → option IpAddr)) (a : TargetAddress)
    : outcome Socks5Error (list SocketAddr) :=
  addresses ←
    match ta_host a with
    | Ip address => Ok [SocketAddr_new address (ta_port a)]
    | Domain domain =>
        match addressOverride ≫= (λ resolver, resolver domain) with
        | Some address => Ok [SocketAddr_new address (ta_port a)]
        | None => ok_or (lookup domain (ta_port a)) Resolve
        end
    end;
  match addresses with [] => Err Resolve | _ => Ok addresses end.

Definition encodeTargetAddress (a : TargetAddress) (output : list Z) : outcome Socks5Error (list Z) :=
  output ←
    match ta_host a with
    | Ip (V4 ipv4) => Ok (output ++ [addressTypeIpv4] ++ octets (V4 ipv4))
    | Ip (V6 ipv6) => Ok (output ++ [addressTypeIpv6] ++ octets (V6 ipv6))
    | Domain domain =>
        _ ← check (len domain <=? u8_max) InvalidDomain;
        _ ← check (negb (len domain =? 0)) InvalidDomain;
        Ok (output ++ [addressTypeDomain; len domain] ++ domain)
    end;
  Ok (output ++ be_bytes 2 (ta_port a)).

Definition decodeTargetAddress (input : list Z) (offset : Z)
    : outcome Socks5Error (TargetAddress * Z) :=
  addressType ← ok_or (get input offset) (InvalidUdpPacket MissingAddressType);
  let cursor := offset + 1 in
  '(host, cursor) ←
    (if addressType =? addressTypeIpv4 then
       bytes ← ok_or (get_range input cursor (cursor + 4)) (InvalidUdpPacket TruncatedIpv4);
       Ok (Ip (V4 (be_value bytes)), cursor + 4)
     else if addressType =? addressTypeIpv6 then
       bytes ← ok_or (get_range input cursor (cursor + 16)) (InvalidUdpPacket TruncatedIpv6);
       Ok (Ip (V6 (be_value bytes)), cursor + 16)
     else if addressType =? addressTypeDomain then
       length ← ok_or (get input cursor) (InvalidUdpPacket MissingDomainLength);
       let cursor := cursor + 1 in
       _ ← check (negb (length =? 0)) InvalidDomain;
       bytes ← ok_or (get_range input cursor (cursor + length)) (InvalidUdpPacket TruncatedDomain);
       _ ← check (utf8_valid bytes) InvalidDomain;
       Ok (Domain bytes, cursor + length)
     else Err (UnsupportedAddressType addressType));
  portBytes ← ok_or (get_range input cursor (cursor + 2)) (InvalidUdpPacket TruncatedPort);
  Ok ({| ta_host := host; ta_port := be_value portBytes |}, cursor + 2).

(** ** UDP frames *)
Record UdpPacket := { pk_destination : TargetAddress; pk_payload : list Z }.

Definition decodeUdpPacket (rawPacket : list Z) : outcome Socks5Error UdpPacket :=
  _ ← check (4 <=? len rawPacket) (InvalidUdpPacket PacketTooShort);
  b0 ← idx rawPacket 0;
  b1 ← idx rawPacket 1;
  _ ← check ((b0 =? 0) && (b1 =? 0)) (InvalidUdpPacket ReservedNotZero);
  b2 ← idx rawPacket 2;
  _ ← check (b2 =? 0) (InvalidUdpPacket FragmentedPacket);
  '(destination, payloadOffset) ← decodeTargetAddress rawPacket 3;
  payload ← sub_slice rawPacket payloadOffset (len rawPacket);
  Ok {| pk_destination := destination; pk_payload := payload |}.

Definition encodeUdpPacket (source : SocketAddr) (payload : list Z) : outcome Socks5Error (list Z) :=
  packet ← encodeTargetAddress (fromSocketAddress source) [0; 0; 0];
  Ok (packet ++ payload).

(** ** Streams *)
Inductive Ending := Closed | Silent.

Record Stream := {
  st_incoming : list Z;
  st_ending : Ending;
  st_writable : bool;
  st_written : list Z
}.

(** A computation on the stream ends with an error or waits for ever. *)
Inductive Interrupt := Failed (e : Socks5Error) | Pending.

Abbreviation onStream := (stateful Stream Interrupt) (only parsing).

Definition reject {A} (e : Socks5Error) : onStream A := fail (Failed e).

Definition set_incoming (l : list Z) (s : Stream) : Stream :=
  {| st_incoming := l; st_ending := st_ending s; st_writable := st_writable s;
     st_written := st_written s |}.

(** [read_exact] on a buffer of [n] bytes. *)
Definition read_exact (n : Z) : onStream (list Z) :=
  s ← gets id;
  if n <=? len (st_incoming s) then
    _ ← modify (set_incoming (drop (Z.to_nat n) (st_incoming s)));
    mret (take (Z.to_nat n) (st_incoming s))
  else
    _ ← modify (set_incoming []);
    match st_ending s with
    | Closed => reject (Io UnexpectedEof)
    | Silent => fail Pending
    end.

Definition read_u8 : onStream Z := bytes ← read_exact 1; mret (be_value bytes).
Definition read_u16 : onStream Z := bytes ← read_exact 2; mret (be_value bytes).

(** [write_all] then [flush]; a closed peer answers with a broken pipe. *)
Definition write_all (bytes : list Z) : onStream unit :=
  s ← gets id;
  if st_writable s then
    modify (λ s, {| st_incoming := st_incoming s; st_ending := st_ending s;
                    st_writable := st_writable s; st_written := st_written s ++ bytes |})
  else reject (Io BrokenPipe).

(** [tokio::time::timeout] around a computation. *)
Definition timeout {A} (what : Deadline) (m : onStream A) : onStream A := λ s,
  match m s with
  | (s, Err Pending) => (s, Err (Failed (Timeout what)))
  | r => r
  end.

Definition readTargetAddress : onStream TargetAddress :=
  addressType ← read_u8;
  host ←
    (if addressType =? addressTypeIpv4 then
       octets ← read_exact 4; mret (Ip (V4 (be_value octets)))
     else if addressType =? addressTypeIpv6 then
       octets ← read_exact 16; mret (Ip (V6 (be_value octets)))
     else if addressType =? addressTypeDomain then
       domainLength ← read_u8;
       if domainLength =? 0 then reject InvalidDomain
       else
         domainBytes ← read_exact domainLength;
         if utf8_valid domainBytes then mret (Domain domainBytes) else reject InvalidDomain
     else reject (UnsupportedAddressType addressType));
  port ← read_u16;
  mret {| ta_host := host; ta_port := port |}.

Definition writeTargetAddress (a : TargetAddress) : onStream unit :=
  _ ← match ta_host a with
      | Ip (V4 ipv4) => _ ← write_all [addressTypeIpv4]; write_all (octets (V4 ipv4))
      | Ip (V6 ipv6) => _ ← write_all [addressTypeIpv6]; write_all (octets (V6 ipv6))
      | Domain domain =>
          if u8_max <? len domain then reject (Io InvalidInput)
          else if len domain =? 0 then reject InvalidDomain
          else
            _ ← write_all [addressTypeDomain];
            _ ← write_all [len domain];
            write_all domain
      end;
  write_all (be_bytes 2 (ta_port a)).

(** ** Negotiation *)
Inductive AuthenticationMode := NoAuth | UsernamePassword | Plugin | AccountService.
#[export] Instance AuthenticationMode_eq_dec : EqDecision AuthenticationMode.
Proof. solve_decision. Defined.

(** The loop of [constantTimeEqual] from [index] on, [n] iterations left. *)
Fixpoint differenceLoop (n : nat) (index : Z) (expected actual : list Z) (difference : Z) : Z :=
  match n with
  | O => difference
  | S n =>
      let expectedByte := default 0 (get expected index) in
      let actualByte := default 0 (get actual index) in
      differenceLoop n (index + 1) expected actual
        (Z.lor difference (Z.lxor expectedByte actualByte))
  end.

Definition constantTimeEqual (expected actual : list Z) : bool :=
  differenceLoop (Nat.max (length expected) (length actual)) 0 expected actual
    (Z.lxor (len expected) (len actual)) =? 0.

Definition writeAuthenticationStatus (authenticated : bool) : onStream unit :=
  write_all [usernamePasswordVersion; if authenticated then 0 else 1].

(** Writes the failure status, then fails. *)
Definition refuse {A} (e : Socks5Error) : onStream A :=
  _ ← writeAuthenticationStatus false; reject e.

Definition readUsernamePassword : onStream (text * text) :=
  version ← read_u8;
  if negb (version =? usernamePasswordVersion) then refuse (UnsupportedVersion version)
  else
    usernameLength ← read_u8;
    if usernameLength =? 0 then refuse AuthenticationFailed
    else
      usernameBytes ← read_exact usernameLength;
      passwordLength ← read_u8;
      if passwordLength =? 0 then refuse AuthenticationFailed
      else
        passwordBytes ← read_exact passwordLength;
        if negb (utf8_valid usernameBytes) then refuse AuthenticationFailed
        else if negb (utf8_valid passwordBytes) then refuse AuthenticationFailed
        else mret (usernameBytes, passwordBytes).

Definition authenticateUsernamePassword (users : gmap text text) : onStream text :=
  '(username, password) ← readUsernamePassword;
  let valid := match users !! username with
               | Some expected => constantTimeEqual expected password
               | None => false
               end in
  _ ← writeAuthenticationStatus valid;
  if negb valid then reject AuthenticationFailed else mret username.

(** The greeting: version, method count, methods. *)
Definition readMethods : onStream (list Z) :=
  version ← read_u8;
  if negb (version =? socksVersion) then reject (UnsupportedVersion version)
  else methodCount ← read_u8; read_exact methodCount.

Definition offers (methods : list Z) (method : Z) : bool := bool_decide (method ∈ methods).

Definition selectMethod (mode : AuthenticationMode) (methods : list Z) : Z :=
  match mode with
  | NoAuth => if offers methods methodNoAuth then methodNoAuth else methodNoAcceptable
  | UsernamePassword | Plugin | AccountService =>
      if offers methods methodUsernamePassword then methodUsernamePassword else methodNoAcceptable
  end.

Definition negotiateAuthentication (mode : AuthenticationMode) (users : gmap text text)
    : onStream text :=
  timeout Negotiation (
    methods ← readMethods;
    let selectedMethod := selectMethod mode methods in
    _ ← write_all [socksVersion; selectedMethod];
    if selectedMethod =? methodNoAcceptable then reject NoAcceptableAuthentication
    else if selectedMethod =? methodNoAuth then mret []
    else if bool_decide (mode = Plugin) || bool_decide (mode = AccountService)
    then reject AuthenticationFailed
    else authenticateUsernamePassword users).

(** The body shared by the plugin and the account-service negotiation; the
    verifier is the code that decides. *)
Definition negotiateWith {T} (what : Deadline) (verifier : text → text → option T) : onStream T :=
  timeout what (
    methods ← readMethods;
    let selectedMethod := if offers methods methodUsernamePassword
                          then methodUsernamePassword else methodNoAcceptable in
    _ ← write_all [socksVersion; selectedMethod];
    if selectedMethod =? methodNoAcceptable then reject NoAcceptableAuthentication
    else
      '(username, password) ← readUsernamePassword;
      let authentication := verifier username password in
      _ ← writeAuthenticationStatus (bool_decide (is_Some authentication));
      match authentication with Some t => mret t | None => reject AuthenticationFailed end).

Definition negotiatePluginAuthentication (verifier : text → text → option text) : onStream text :=
  negotiateWith PluginNegotiation verifier.

Definition negotiateExternalAuthentication {T} (verifier : text → text → option T) : onStream T :=
  negotiateWith ExternalNegotiation verifier.

Record SocksRequest := { rq_command : Z; rq_destination : TargetAddress }.

Definition readRequest : onStream SocksRequest :=
  timeout CommandRead (
    version ← read_u8;
    if negb (version =? socksVersion) then reject (UnsupportedVersion version)
    else
      command ← read_u8;
      reserved ← read_u8;
      if negb (reserved =? 0) then reject (InvalidReservedByte reserved)
      else
        destination ← readTargetAddress;
        mret {| rq_command := command; rq_destination := destination |}).

Definition writeReply (replyCode : Z) (boundAddress : SocketAddr) : onStream unit :=
  _ ← write_all [socksVersion; replyCode; 0];
  writeTargetAddress (fromSocketAddress boundAddress).

(** ** Configuration *)
Definition maximumConnections : Z := 16384.
Definition maximumRelayBufferSize : Z := 1048576.
Definition maximumTotalRelayBufferSize : Z := 469762048.
Definition maximumShutdownTimeoutMilliseconds : Z := 30000.
Definition maximumUdpRemoteLimit : Z := 4096.
Definition maximumSessionHistoryLimit : Z := 10000.

Record Socks5Config := {
  sc_listenHost : IpAddr;
  sc_listenPort : Z;
  sc_authenticationMode : AuthenticationMode;
  sc_users : gmap text text;
  sc_maxConnections : Z;
  sc_connectTimeoutMilliseconds : Z;
  sc_bindTimeoutMilliseconds : Z;
  sc_idleTimeoutMilliseconds : Z;
  sc_readTimeoutMilliseconds : Z;
  sc_shutdownTimeoutMilliseconds : Z;
  sc_relayBufferSize : Z;
  sc_udpBindHost : text;
  sc_udpMaxPacketSize : Z;
  sc_udpRemoteLimit : Z;
  sc_sessionHistoryLimit : Z
}.

Definition Socks5Config_default : Socks5Config :=
  {| sc_listenHost := LOCALHOST_V4; sc_listenPort := 1080; sc_authenticationMode := NoAuth;
     sc_users := ∅; sc_maxConnections := 1024; sc_connectTimeoutMilliseconds := 10000;
     sc_bindTimeoutMilliseconds := 30000; sc_idleTimeoutMilliseconds := 300000;
     sc_readTimeoutMilliseconds := 10000; sc_shutdownTimeoutMilliseconds := 5000;
     sc_relayBufferSize := 65536; sc_udpBindHost := []; sc_udpMaxPacketSize := 65507;
     sc_udpRemoteLimit := 1024; sc_sessionHistoryLimit := 500 |}.

Definition checked_mul (a b : Z) : option Z :=
  if a * b <=? usize_max then Some (a * b) else None.

(** Length limits of one account. *)
Definition credentialOk (user : text * text) : bool :=
  negb (len user.1 =? 0) && (len user.1 <=? u8_max) &&
  negb (len user.2 =? 0) && (len user.2 <=? u8_max).

Definition Socks5Config_validate (c : Socks5Config)
    : outcome Socks5Error unit :=
  _ ← check (between 1 (sc_maxConnections c) maximumConnections) Configuration;
  _ ← check (between 1024 (sc_relayBufferSize c) maximumRelayBufferSize) Configuration;
  totalRelayBufferSize ←
    ok_or (size ← checked_mul (sc_maxConnections c) (sc_relayBufferSize c); checked_mul size 2)
      Configuration;
  _ ← check (totalRelayBufferSize <=? maximumTotalRelayBufferSize) Configuration;
  _ ← check (between 512 (sc_udpMaxPacketSize c) 65507) Configuration;
  _ ← check (between 1 (sc_udpRemoteLimit c) maximumUdpRemoteLimit) Configuration;
  _ ← check (sc_sessionHistoryLimit c <=? maximumSessionHistoryLimit) Configuration;
  _ ← (if negb (len (sc_udpBindHost c) =? 0) then
         udpBindHost ← ok_or (parse_ip (sc_udpBindHost c)) Configuration;
         check (eqb (is_ipv4 udpBindHost) (is_ipv4 (sc_listenHost c))) Configuration
       else Ok tt);
  _ ← check (forallb (λ v, negb (v =? 0))
               [sc_connectTimeoutMilliseconds c; sc_bindTimeoutMilliseconds c;
                sc_idleTimeoutMilliseconds c; sc_readTimeoutMilliseconds c]) Configuration;
  _ ← check (between 1 (sc_shutdownTimeoutMilliseconds c) maximumShutdownTimeoutMilliseconds)
        Configuration;
  _ ← check (negb (bool_decide (sc_authenticationMode c = UsernamePassword) &&
                   bool_decide (sc_users c = ∅))) Configuration;
  check (forallb credentialOk (map_to_list (sc_users c))) Configuration.

Definition listenAddress (c : Socks5Config) : SocketAddr :=
  SocketAddr_new (sc_listenHost c) (sc_listenPort c).
