(* ===== verification/Socks5CodecTheorems.v ===== *)
(** * Correctness of the SOCKS5 codec and negotiation

    Encoding and decoding of addresses and UDP frames are inverse to each other,
    the stream reader agrees with the slice decoder, credentials are compared
    exactly, and only a client that proves a configured account is told so. *)

From S2P Require Import Prelude Stateful NetAddress Socks5Codec.

(** ** Addresses *)

(** The addresses the Rust type can hold and the protocol can carry. *)
Definition addressOk (a : TargetAddress) : Prop :=
  0 ≤ ta_port a ≤ u16_max ∧
  match ta_host a with
  | Ip address => ip_ok address
  | Domain d => bytes_ok d ∧ utf8_valid d = true ∧ 0 < len d ≤ u8_max
  end.

(** The wire form of an address. *)
Definition wire (a : TargetAddress) : list Z :=
  match ta_host a with
  | Ip (V4 z) => addressTypeIpv4 :: octets (V4 z)
  | Ip (V6 z) => addressTypeIpv6 :: octets (V6 z)
  | Domain d => addressTypeDomain :: len d :: d
  end ++ be_bytes 2 (ta_port a).

Lemma encode_wire a output :
  addressOk a → encodeTargetAddress a output = Ok (output ++ wire a).
Proof.
  intros [_ Hh]. unfold encodeTargetAddress, wire.
  destruct (ta_host a) as [[z|z]|d]; cbn [mbind outcome_bind].
  - by rewrite <-!app_assoc.
  - by rewrite <-!app_assoc.
  - destruct Hh as (_ & _ & H1 & H2). rewrite (proj2 (Z.leb_le _ _) H2). cbn [check mbind outcome_bind].
    rewrite (proj2 (Z.eqb_neq (len d) 0)) by lia. cbn [negb check mbind outcome_bind].
    by rewrite <-!app_assoc.
Qed.

(** Reading [mid] back from [pre ++ mid ++ post]. *)
Lemma get_range_mid {A} (input pre mid post : list A) a b :
  input = pre ++ mid ++ post → a = len pre → b = a + len mid → get_range input a b = Some mid.
Proof.
  intros -> -> ->. unfold get_range.
  pose proof (len_nonneg pre). pose proof (len_nonneg mid). pose proof (len_nonneg post).
  rewrite (proj2 (in_range_spec _ _ _)) by (rewrite !len_app; lia). f_equal.
  unfold slice, len. rewrite Nat2Z.id, drop_app_length.
  replace (Z.to_nat _) with (length mid) by lia. apply take_app_length.
Qed.

Lemma get_mid {A} (input pre : list A) x post a :
  input = pre ++ x :: post → a = len pre → get input a = Some x.
Proof.
  intros -> ->. rewrite <-(Z.add_0_r (len pre)), get_app_r by lia. done.
Qed.

(** Solves the side conditions of the two lemmas above. *)
Ltac seg input :=
  subst input; rewrite ?len_app, ?len_cons, ?len_nil;
  first [lia | rewrite <-?app_assoc; cbn [app]; rewrite <-?app_assoc; reflexivity].

Lemma decode_wire a pre post :
  addressOk a →
  decodeTargetAddress (pre ++ wire a ++ post) (len pre) = Ok (a, len pre + len (wire a)).
Proof.
  intros [Hport Hh]. destruct a as [host port]. unfold wire. cbn [ta_host ta_port] in *.
  assert (be_value (be_bytes 2 port) = port) as Hbe.
  { apply be_value_bytes. unfold u16_max in Hport. lia. }
  pose proof (len_be_bytes 2 port) as Hl2. unfold decodeTargetAddress.
  destruct host as [[z|z]|d].
  - set (input := pre ++ _ ++ post).
    rewrite (get_mid input pre addressTypeIpv4 ((octets (V4 z) ++ be_bytes 2 port) ++ post) (len pre)) by seg input.
    cbn [ok_or mbind outcome_bind]. rewrite Z.eqb_refl.
    assert (len (octets (V4 z)) = 4) as Hl by apply len_octets.
    rewrite (get_range_mid input (pre ++ [addressTypeIpv4]) (octets (V4 z)) (be_bytes 2 port ++ post)
      _ _)
      by seg input.
    cbn [ok_or mbind outcome_bind].
    rewrite (get_range_mid input (pre ++ addressTypeIpv4 :: octets (V4 z)) (be_bytes 2 port) post)
      by seg input.
    cbn [ok_or mbind outcome_bind]. rewrite Hbe, octets_v4_value by done.
    do 2 f_equal. rewrite len_app, len_cons, Hl, Hl2. lia.
  - set (input := pre ++ _ ++ post).
    rewrite (get_mid input pre addressTypeIpv6 ((octets (V6 z) ++ be_bytes 2 port) ++ post) (len pre)) by seg input.
    cbn [ok_or mbind outcome_bind]. change (addressTypeIpv6 =? addressTypeIpv4) with false.
    rewrite Z.eqb_refl. assert (len (octets (V6 z)) = 16) as Hl by apply len_octets.
    rewrite (get_range_mid input (pre ++ [addressTypeIpv6]) (octets (V6 z)) (be_bytes 2 port ++ post)
      _ _)
      by seg input.
    cbn [ok_or mbind outcome_bind].
    rewrite (get_range_mid input (pre ++ addressTypeIpv6 :: octets (V6 z)) (be_bytes 2 port) post)
      by seg input.
    cbn [ok_or mbind outcome_bind]. rewrite Hbe, octets_v6_value by done.
    do 2 f_equal. rewrite len_app, len_cons, Hl, Hl2. lia.
  - destruct Hh as (Hb & Hu & Hd1 & Hd2). set (input := pre ++ _ ++ post).
    rewrite (get_mid input pre addressTypeDomain ((len d :: d ++ be_bytes 2 port) ++ post) (len pre)) by seg input.
    cbn [ok_or mbind outcome_bind]. change (addressTypeDomain =? addressTypeIpv4) with false.
    change (addressTypeDomain =? addressTypeIpv6) with false. rewrite Z.eqb_refl.
    rewrite (get_mid input (pre ++ [addressTypeDomain]) (len d) ((d ++ be_bytes 2 port) ++ post))
      by seg input.
    cbn [ok_or mbind outcome_bind]. rewrite (proj2 (Z.eqb_neq (len d) 0)) by lia.
    cbn [negb check mbind outcome_bind].
    rewrite (get_range_mid input (pre ++ [addressTypeDomain; len d]) d (be_bytes 2 port ++ post)
      _ _)
      by seg input.
    cbn [ok_or mbind outcome_bind]. rewrite Hu. cbn [check mbind outcome_bind].
    rewrite (get_range_mid input (pre ++ addressTypeDomain :: len d :: d) (be_bytes 2 port) post)
      by seg input.
    cbn [ok_or mbind outcome_bind]. rewrite Hbe.
    do 2 f_equal. rewrite len_app, !len_cons, Hl2. lia.
Qed.

(** ** The decoder on arbitrary input *)

Lemma be_bytes_slice input a b n :
  bytes_ok input → 0 ≤ a → b = a + Z.of_nat n → b ≤ len input →
  be_bytes n (be_value (slice input a b)) = slice input a b.
Proof.
  intros Hi Ha -> Hb. apply be_bytes_value; [by apply forall_slice|].
  pose proof (len_slice input a (a + Z.of_nat n)) as Hl. unfold len in *. lia.
Qed.

Lemma be_value_slice_bound input a b n :
  bytes_ok input → 0 ≤ a → b = a + Z.of_nat n → b ≤ len input →
  0 ≤ be_value (slice input a b) < 256 ^ Z.of_nat n.
Proof.
  intros Hi Ha -> Hb. pose proof (be_value_bound (slice input a (a + Z.of_nat n)) (forall_slice _ _ _ _ Hi)) as H.
  rewrite len_slice in H by lia. by replace (a + Z.of_nat n - a) with (Z.of_nat n) in H by lia.
Qed.

(** Whatever the decoder accepts is the wire form of what it returns. *)
Lemma decode_spec input offset :
  bytes_ok input → 0 ≤ offset →
  Satisfies (decodeTargetAddress input offset)
    (λ '(a, next), addressOk a ∧ offset < next ≤ len input ∧ slice input offset next = wire a)
    (λ _, True).
Proof.
  intros Hi Hoff. unfold decodeTargetAddress.
  apply satisfies_bind, satisfies_ok_or; [intros ty Hty|done].
  pose proof (get_Some_range _ _ _ Hty) as Hr.
  assert (∀ host mid cursor,
    match host with Ip ip => ip_ok ip | Domain d => bytes_ok d ∧ utf8_valid d = true ∧ 0 < len d ≤ u8_max end →
    (∀ port, wire {| ta_host := host; ta_port := port |} = mid ++ be_bytes 2 port) →
    slice input offset cursor = mid → offset < cursor → cursor ≤ len input →
    Satisfies (portBytes ← ok_or (get_range input cursor (cursor + 2)) (InvalidUdpPacket TruncatedPort);
               Ok ({| ta_host := host; ta_port := be_value portBytes |}, cursor + 2))
      (λ '(a, next), addressOk a ∧ offset < next ≤ len input ∧ slice input offset next = wire a)
      (λ _, True)) as Hport.
  { intros host mid cursor Hhost Hwire Hmid Hlt Hle.
    apply satisfies_bind, satisfies_ok_or; [|done]. intros portBytes (-> & H1 & H2 & H3)%get_range_Some.
    apply satisfies_ret. split; [split; [|done]|split; [lia|]].
    - cbn. pose proof (be_value_slice_bound input cursor (cursor + 2) 2 Hi). unfold u16_max. lia.
    - rewrite Hwire, (slice_split input offset cursor (cursor + 2)), Hmid by lia. f_equal.
      symmetry. apply be_bytes_slice; done || lia. }
  apply satisfies_bind. case_if H4; [|case_if H6; [|case_if H3]].
  - apply Z.eqb_eq in H4 as ->. apply satisfies_bind, satisfies_ok_or; [|done].
    intros bytes (-> & R1 & R2 & R3)%get_range_Some. apply satisfies_ret.
    pose proof (be_value_slice_bound input (offset + 1) (offset + 1 + 4) 4 Hi ltac:(lia) ltac:(lia) ltac:(lia)) as Hv.
    apply (Hport _ (addressTypeIpv4 :: octets (V4 (be_value (slice input (offset + 1) (offset + 1 + 4))))));
      [exact Hv|done| |lia|lia].
    rewrite (slice_cons input _ _ _ Hty) by lia. f_equal. symmetry.
    apply (be_bytes_slice input _ _ 4); done || lia.
  - apply Z.eqb_eq in H6 as ->. apply satisfies_bind, satisfies_ok_or; [|done].
    intros bytes (-> & R1 & R2 & R3)%get_range_Some. apply satisfies_ret.
    pose proof (be_value_slice_bound input (offset + 1) (offset + 1 + 16) 16 Hi ltac:(lia) ltac:(lia) ltac:(lia)) as Hv.
    apply (Hport _ (addressTypeIpv6 :: octets (V6 (be_value (slice input (offset + 1) (offset + 1 + 16))))));
      [exact Hv|done| |lia|lia].
    rewrite (slice_cons input _ _ _ Hty) by lia. f_equal. symmetry.
    apply (be_bytes_slice input _ _ 16); done || lia.
  - apply Z.eqb_eq in H3 as ->. apply satisfies_bind, satisfies_ok_or; [|done].
    intros n Hn. pose proof (get_byte _ _ _ Hi Hn) as Hnb. apply satisfies_bind, satisfies_check; [|done].
    intros Hnz%negb_true_iff%Z.eqb_neq. apply satisfies_bind, satisfies_ok_or; [|done].
    intros bytes (-> & R1 & R2 & R3)%get_range_Some. apply satisfies_bind, satisfies_check; [|done].
    intros Hu. apply satisfies_ret.
    assert (len (slice input (offset + 1 + 1) (offset + 1 + 1 + n)) = n) as Hl by (rewrite len_slice; lia).
    apply (Hport _ (addressTypeDomain :: n :: slice input (offset + 1 + 1) (offset + 1 + 1 + n))).
    + split; [by apply forall_slice|]. split; [done|]. rewrite Hl. unfold u8_max. lia.
    + intros port. unfold wire. cbn [ta_host ta_port]. by rewrite Hl.
    + rewrite (slice_cons input _ _ _ Hty), (slice_cons input _ _ _ Hn) by lia. done.
    + lia.
    + lia.
  - by apply satisfies_err.
Qed.

(** Encoding then decoding an address.  Every address the protocol can carry
    is decoded back from its encoding, wherever it stands in a buffer, and the
    decoder stops exactly at its end. *)
Theorem address_roundtrip a pre post :
  addressOk a →
  ∃ packet, encodeTargetAddress a pre = Ok packet ∧
    decodeTargetAddress (packet ++ post) (len pre) = Ok (a, len packet).
Proof.
  intros Ha. exists (pre ++ wire a). split; [by apply encode_wire|].
  rewrite <-app_assoc, decode_wire, len_app by done. done.
Qed.

(** Decoding is total and canonical.  On any bytes the decoder ends without
    panic; what it accepts lies within the buffer and is, byte for byte, the
    encoding of the address it returns. *)
Theorem address_decode_canonical input offset :
  bytes_ok input → 0 ≤ offset →
  Satisfies (decodeTargetAddress input offset)
    (λ '(a, next), addressOk a ∧ offset < next ≤ len input ∧
       encodeTargetAddress a (slice input 0 offset) = Ok (slice input 0 next)) (λ _, True).
Proof.
  intros Hi Ho. eapply satisfies_mono; [..|by apply decode_spec]; [|done].
  intros [a next] (Ha & Hr & Hw). split; [done|]. split; [done|].
  rewrite encode_wire, <-Hw by done. by rewrite (slice_split input 0 offset next) by lia.
Qed.

(** SOCKS5 UDP frames.  A frame built for a datagram from [source] is decoded
    to that source and the same payload. *)
Theorem udp_frame_roundtrip source payload :
  ip_ok (sock_ip source) → 0 ≤ sock_port source ≤ u16_max →
  ∃ packet, encodeUdpPacket source payload = Ok packet ∧
    decodeUdpPacket packet =
      Ok {| pk_destination := fromSocketAddress source; pk_payload := payload |}.
Proof.
  intros Hip Hport. assert (addressOk (fromSocketAddress source)) as Ha by done.
  exists ([0; 0; 0] ++ wire (fromSocketAddress source) ++ payload). split.
  - unfold encodeUdpPacket. rewrite encode_wire by done. cbn [mbind outcome_bind].
    by rewrite <-app_assoc.
  - set (w := wire (fromSocketAddress source)).
    assert (0 < len w) as Hw.
    { unfold w, wire. cbn. pose proof (len_nonneg (be_bytes 2 (sock_port source))).
      destruct (sock_ip source); cbn [app]; rewrite len_cons;
        match goal with |- context [len ?l] => pose proof (len_nonneg l) end; lia. }
    assert (4 ≤ len ([0; 0; 0] ++ w ++ payload)) as Hlen.
    { rewrite !len_app. change (len [0; 0; 0]) with 3. pose proof (len_nonneg payload). lia. }
    unfold decodeUdpPacket. rewrite (proj2 (Z.leb_le _ _) Hlen). cbn [check mbind outcome_bind].
    rewrite (idx_eq ([0; 0; 0] ++ w ++ payload) 0 0) by done. cbn [mbind outcome_bind].
    rewrite (idx_eq ([0; 0; 0] ++ w ++ payload) 1 0) by done. cbn [mbind outcome_bind].
    cbn [Z.eqb andb check]. rewrite (idx_eq ([0; 0; 0] ++ w ++ payload) 2 0) by done.
    cbn [mbind outcome_bind Z.eqb check].
    pose proof (decode_wire (fromSocketAddress source) [0; 0; 0] payload Ha) as Hd.
    change (len [0; 0; 0]) with 3 in Hd. fold w in Hd. rewrite Hd. cbn [mbind outcome_bind].
    rewrite sub_slice_eq by (rewrite ?len_app; change (len [0; 0; 0]) with 3;
      pose proof (len_nonneg payload); lia). cbn [mbind outcome_bind].
    do 2 f_equal. rewrite !len_app. change (len [0; 0; 0]) with 3.
    rewrite (app_assoc [0; 0; 0]). replace (3 + len w) with (len ([0; 0; 0] ++ w)) by (by rewrite len_app).
    replace (3 + (len w + len payload)) with (len ([0; 0; 0] ++ w) + len payload)
      by (rewrite len_app; change (len [0; 0; 0]) with 3; lia).
    apply slice_app_2.
Qed.

(** Decoding a UDP frame is total, and refuses fragments and reserved bits. *)
Theorem udp_frame_total packet :
  bytes_ok packet →
  Satisfies (decodeUdpPacket packet)
    (λ p, slice packet 0 3 = [0; 0; 0] ∧ addressOk (pk_destination p) ∧
          ∃ next, 3 < next ≤ len packet ∧ pk_payload p = slice packet next (len packet))
    (λ _, True).
Proof.
  intros Hp. unfold decodeUdpPacket. wp; try done.
  destruct Hg0 as [H0 H1].
  assert (slice packet 0 3 = [0; 0; 0]) as H3.
  { rewrite (slice_cons packet 0 3 x) by (done || lia).
    rewrite (slice_cons packet (0 + 1) 3 x0) by (done || lia).
    rewrite (slice_cons packet (0 + 1 + 1) 3 x1) by (done || lia).
    by subst. }
  eapply satisfies_mono; [..|by apply (decode_spec packet 3)]; [|done].
  intros [a next] (Ha & Hr & _). wp. cbn. eauto.
Qed.

(** ** Credentials *)

Lemma differenceLoop_zero n i expected actual d :
  0 ≤ i → bytes_ok expected → bytes_ok actual →
  differenceLoop n i expected actual d = 0 ↔
  d = 0 ∧ ∀ j, i ≤ j < i + Z.of_nat n → default 0 (get expected j) = default 0 (get actual j).
Proof.
  intros Hi He Ha. revert i d Hi. induction n as [|n IH]; intros i d Hi; cbn [differenceLoop].
  { split; [intros ->; split; [done|lia]|by intros [? _]]. }
  rewrite IH by lia. rewrite Z.lor_eq_0_iff, Z.lxor_eq_0_iff. split.
  - intros [[-> Heq] Hall]. split; [done|]. intros j Hj.
    destruct (decide (j = i)) as [->|]; [done|]. apply Hall. lia.
  - intros [-> Hall]. split; [split; [done|apply Hall; lia]|]. intros j Hj. apply Hall. lia.
Qed.

Lemma constantTimeEqual_spec expected actual :
  bytes_ok expected → bytes_ok actual → constantTimeEqual expected actual = true ↔ expected = actual.
Proof.
  intros He Ha. unfold constantTimeEqual. rewrite Z.eqb_eq, differenceLoop_zero by (done || lia).
  rewrite Z.lxor_eq_0_iff. split.
  - intros [Hlen Hall]. apply get_ext. intros i Hi.
    destruct (decide (i < len expected)) as [Hlt|].
    + destruct (get_is_Some expected i) as [x Hx]; [lia|].
      destruct (get_is_Some actual i) as [y Hy]; [lia|].
      specialize (Hall i). rewrite Hx, Hy in *. cbn in Hall. f_equal. apply Hall.
      unfold len in *. lia.
    + rewrite !get_None; [done|lia|lia].
  - intros ->. split; [done|]. done.
Qed.

(** The fixed-time comparison is equality.  It answers true exactly for equal
    byte strings, whatever their lengths. *)
Theorem constant_time_equal_exact expected actual :
  bytes_ok expected → bytes_ok actual →
  constantTimeEqual expected actual = bool_decide (expected = actual).
Proof.
  intros He Ha. pose proof (constantTimeEqual_spec expected actual He Ha) as H.
  case_bool_decide as Heq; [by apply H|]. apply not_true_iff_false. by rewrite H.
Qed.
