(* ===== verification/Socks5AuthTheorems.v ===== *)
(** * Correctness of the SOCKS5 negotiation

    The stream reader agrees with the slice decoder; a client is accepted exactly
    when it sends the frames of a configured account, and the success status is
    written only then. *)

From S2P Require Import Prelude NetAddress Stateful Text Socks5Codec Socks5CodecTheorems.

(** The error of a read that finds too few bytes. *)
Definition starved (s : Stream) : Interrupt :=
  match st_ending s with Closed => Failed (Io UnexpectedEof) | Silent => Pending end.

Section reading.
Context (input : list Z) (s : Stream).

(** The stream once [k] bytes of [input] have been consumed. *)
Definition from (k : Z) : Stream := set_incoming (drop (Z.to_nat k) input) s.

Lemma read_exact_at k n :
  0 ≤ k ≤ len input → 0 ≤ n →
  read_exact n (from k) =
  match get_range input k (k + n) with
  | Some bytes => (from (k + n), Ok bytes)
  | None => (set_incoming [] s, Err (starved s))
  end.
Proof.
  intros Hk Hn. unfold read_exact, mbind, stateful_bind, gets, modify. cbn [id].
  unfold get_range. cbn [from st_incoming set_incoming].
  assert (len (drop (Z.to_nat k) input) = len input - k) as Hl.
  { unfold len in *. rewrite length_drop. lia. }
  rewrite Hl. destruct (Z.leb_spec n (len input - k)).
  - rewrite (proj2 (in_range_spec _ _ _)) by lia. unfold mret, stateful_ret, from, slice, set_incoming. cbn.
    rewrite drop_drop. replace (Z.to_nat k + Z.to_nat n)%nat with (Z.to_nat (k + n)) by lia.
    by replace (k + n - k) with n by lia.
  - destruct (in_range input k (k + n)) eqn:Hr; [apply in_range_spec in Hr; lia|].
    unfold starved. cbn. by destruct (st_ending s).
Qed.

Lemma read_u8_at k :
  0 ≤ k ≤ len input →
  read_u8 (from k) =
  match get input k with
  | Some b => (from (k + 1), Ok b)
  | None => (set_incoming [] s, Err (starved s))
  end.
Proof.
  intros Hk. unfold read_u8, mbind, stateful_bind. rewrite read_exact_at by lia.
  destruct (get input k) as [b|] eqn:Hb.
  - pose proof (get_Some_range _ _ _ Hb). unfold get_range.
    rewrite (proj2 (in_range_spec _ _ _)) by lia.
    rewrite (slice_cons input k (k + 1) b) by (done || lia).
    assert (slice input (k + 1) (k + 1) = []) as ->.
    { unfold slice. by replace (k + 1 - (k + 1)) with 0 by lia. }
    unfold mret, stateful_ret. done.
  - unfold get_range. destruct (in_range input k (k + 1)) eqn:Hr; [|done].
    apply in_range_spec in Hr. destruct (get_is_Some input k) as [? ?]; [lia|congruence].
Qed.
End reading.

(** How a decoding error shows on a stream. *)
Definition streamError (s : Stream) (e : Socks5Error) : Interrupt :=
  match e with InvalidUdpPacket _ => starved s | e => Failed e end.

Lemma readTargetAddress_at input s :
  bytes_ok input →
  match decodeTargetAddress input 0 with
  | Ok (a, next) => readTargetAddress (from input s 0) = (from input s next, Ok a)
  | Err e => (readTargetAddress (from input s 0)).2 = Err (streamError s e)
  | Panic => False
  end.
Proof.
  intros Hb.
  unfold readTargetAddress, decodeTargetAddress.
  assert (∀ host k, 0 ≤ k ≤ len input →
    match (portBytes ← ok_or (get_range input k (k + 2)) (InvalidUdpPacket TruncatedPort);
           Ok ({| ta_host := host; ta_port := be_value portBytes |}, k + 2)) with
    | Ok (a, next) => (port ← read_u16; mret {| ta_host := host; ta_port := port |}) (from input s k)
                      = (from input s next, Ok a)
    | Err e => ((port ← read_u16; mret {| ta_host := host; ta_port := port |}) (from input s k)).2
               = Err (streamError s e)
    | Panic => False
    end) as Hport.
  { intros host k Hk. unfold read_u16, mbind, stateful_bind, outcome_bind.
    rewrite read_exact_at by lia. by destruct (get_range input k (k + 2)). }
  pose proof (len_nonneg input). unfold mbind, outcome_bind, stateful_bind.
  rewrite read_u8_at by lia. destruct (get input 0) as [ty|] eqn:Hty; [|done].
  pose proof (get_Some_range _ _ _ Hty) as Hr0. change (0 + 1) with 1.
  cbn [ok_or].
  destruct (ty =? addressTypeIpv4); [|destruct (ty =? addressTypeIpv6); [|destruct (ty =? addressTypeDomain)]].
  - rewrite read_exact_at by lia.
    destruct (get_range input 1 (1 + 4)) as [b|] eqn:Hg; [|done].
    apply get_range_Some in Hg as (_ & _ & _ & Hle). apply (Hport (Ip (V4 (be_value b)))). lia.
  - rewrite read_exact_at by lia.
    destruct (get_range input 1 (1 + 16)) as [b|] eqn:Hg; [|done].
    apply get_range_Some in Hg as (_ & _ & _ & Hle). apply (Hport (Ip (V6 (be_value b)))). lia.
  - rewrite read_u8_at by lia. destruct (get input 1) as [n|] eqn:Hn; [|done].
    pose proof (get_byte _ _ _ Hb Hn). pose proof (get_Some_range _ _ _ Hn).
    cbn [ok_or]. change (1 + 1) with 2. destruct (n =? 0) eqn:Hz; [done|].
    cbn [negb check]. rewrite read_exact_at by lia.
    destruct (get_range input 2 (2 + n)) as [b|] eqn:Hg; [|done].
    apply get_range_Some in Hg as (_ & _ & _ & Hle). cbn [ok_or].
    destruct (utf8_valid b); [|done]. apply (Hport (Domain b)). lia.
  - done.
Qed.

(** The stream reader is the slice decoder.  On a stream that delivers
    [input], reading an address accepts exactly what the slice decoder accepts,
    returns the same address and consumes the same bytes; it refuses with the same
    error, a missing byte showing as end of file or, on a silent stream, as waiting. *)
Theorem stream_reader_equivalent s :
  bytes_ok (st_incoming s) →
  match decodeTargetAddress (st_incoming s) 0 with
  | Ok (a, next) => readTargetAddress s =
      (set_incoming (drop (Z.to_nat next) (st_incoming s)) s, Ok a)
  | Err e => (readTargetAddress s).2 = Err (streamError s e)
  | Panic => False
  end.
Proof.
  intros Hb. pose proof (readTargetAddress_at (st_incoming s) s Hb) as H.
  assert (from (st_incoming s) s 0 = s) as Hs by (by destruct s). by rewrite Hs in H.
Qed.

(** ** What a computation consumes and writes *)

(** From [s] to [s'], the bytes [b] were consumed and the bytes [w] written. *)
Record Trace (s s' : Stream) (b w : list Z) : Prop := {
  tr_read : st_incoming s = b ++ st_incoming s';
  tr_written : st_written s' = st_written s ++ w;
  tr_writable : st_writable s' = st_writable s;
  tr_ending : st_ending s' = st_ending s
}.

Lemma trace_refl s : Trace s s [] [].
Proof. constructor; try done. by rewrite app_nil_r. Qed.

Lemma trace_trans s1 s2 s3 b1 w1 b2 w2 :
  Trace s1 s2 b1 w1 → Trace s2 s3 b2 w2 → Trace s1 s3 (b1 ++ b2) (w1 ++ w2).
Proof.
  intros [A1 A2 A3 A4] [B1 B2 B3 B4]. constructor; [| |congruence..].
  - by rewrite A1, B1, app_assoc.
  - by rewrite B2, A2, app_assoc.
Qed.

(** [Reads s b]: [s'] is [s] after a trace that wrote [w]; the context of the
    proofs below always ends in one trace from the initial stream. *)
Section runs.
Context (s0 : Stream).

Definition Refused (ws : list (list Z)) (e : Interrupt) (s' : Stream) : Prop :=
  ∃ b w, Trace s0 s' b w ∧ w ∈ ws.

Lemma read_exact_runs n s b w (P : list Z → Stream → Prop) ws :
  0 ≤ n → Trace s0 s b w → w ∈ ws →
  (∀ bytes s', Trace s0 s' (b ++ bytes) w → len bytes = n → P bytes s') →
  Runs (read_exact n) s P (Refused ws).
Proof.
  intros Hn Ht Hw HP. unfold read_exact. apply runs_bind, runs_gets. cbn [id].
  assert (∀ l, st_incoming s = l ++ drop (length l) (st_incoming s) →
    Trace s0 (set_incoming (drop (length l) (st_incoming s)) s) (b ++ l) w) as Hset.
  { intros l Hl. rewrite <-(app_nil_r w). apply (trace_trans _ s _ _ _ _ _ Ht).
    constructor; cbn; [done|by rewrite app_nil_r|done|done]. }
  destruct (Z.leb_spec n (len (st_incoming s))).
  - apply runs_bind, runs_modify, runs_ret. apply HP.
    + replace (Z.to_nat n) with (length (take (Z.to_nat n) (st_incoming s))) at 1
        by (rewrite length_take; unfold len in *; lia).
      apply Hset. rewrite length_take, Nat.min_l by (unfold len in *; lia). by rewrite take_drop.
    + unfold len in *. rewrite length_take. lia.
  - apply runs_bind, runs_modify.
    assert (Refused ws Pending (set_incoming [] s)) as Hr.
    { exists (b ++ st_incoming s), w. split; [|done].
      replace (@nil Z) with (drop (length (st_incoming s)) (st_incoming s)) by (by rewrite drop_all).
      apply Hset. by rewrite drop_all, app_nil_r. }
    destruct (st_ending s); apply runs_fail; exact Hr.
Qed.

Lemma read_u8_runs s b w (P : Z → Stream → Prop) ws :
  Trace s0 s b w → w ∈ ws →
  (∀ x s', Trace s0 s' (b ++ [x]) w → P x s') →
  Runs read_u8 s P (Refused ws).
Proof.
  intros Ht Hw HP. unfold read_u8. apply runs_bind.
  apply (read_exact_runs 1 s b w _ ws); [lia|done|done|].
  intros bytes s' Ht' Hl. apply runs_ret.
  destruct bytes as [|x [|y l]]; [done| |unfold len in Hl; cbn in Hl; lia].
  assert (be_value [x] = x) as -> by done. by apply HP.
Qed.

Lemma write_runs bytes s b w (P : unit → Stream → Prop) ws :
  Trace s0 s b w → w ∈ ws →
  (∀ s', Trace s0 s' b (w ++ bytes) → P tt s') →
  Runs (write_all bytes) s P (Refused ws).
Proof.
  intros Ht Hw HP. unfold write_all. apply runs_bind, runs_gets. cbn [id].
  case_if Hwr.
  - apply runs_modify, HP. rewrite <-(app_nil_r b). apply (trace_trans _ s _ _ _ _ _ Ht).
    constructor; cbn; done.
  - apply runs_fail. by exists b, w.
Qed.

Lemma refuse_runs {A} e s b w (P : A → Stream → Prop) ws :
  Trace s0 s b w → w ∈ ws → w ++ [1; 1] ∈ ws → Runs (refuse e) s P (Refused ws).
Proof.
  intros Ht Hw Hw2. unfold refuse, writeAuthenticationStatus. apply runs_bind.
  apply (write_runs _ s b w); [done|done|]. intros s' Ht'. apply runs_fail. by eexists _, _.
Qed.

Lemma readMethods_runs s b w (P : list Z → Stream → Prop) ws :
  bytes_ok (st_incoming s0) → Trace s0 s b w → w ∈ ws →
  (∀ methods s', Trace s0 s' (b ++ socksVersion :: len methods :: methods) w → P methods s') →
  Runs readMethods s P (Refused ws).
Proof.
  intros Hb Ht Hw HP. unfold readMethods. apply runs_bind.
  apply (read_u8_runs s b w); [done|done|]. intros v s1 T1. case_if Hv.
  { apply runs_fail. by eexists _, _. }
  apply negb_false_iff, Z.eqb_eq in Hv as ->. apply runs_bind.
  eapply read_u8_runs; [eassumption|done|]. intros n s2 T2.
  assert (0 ≤ n) as Hn.
  { pose proof (tr_read _ _ _ _ T2) as Hin. rewrite Hin in Hb. rewrite !Forall_app in Hb.
    destruct Hb as [[_ Hn] _]. inversion_clear Hn as [|?? Hx _]. destruct Hx. lia. }
  eapply read_exact_runs; [done|eassumption|done|]. intros methods s3 T3 <-.
  apply HP. by rewrite <-!app_assoc in T3.
Qed.

Lemma readUsernamePassword_runs s b w (P : list Z * list Z → Stream → Prop) ws :
  bytes_ok (st_incoming s0) → Trace s0 s b w → w ∈ ws → w ++ [1; 1] ∈ ws →
  (∀ u p s', Trace s0 s' (b ++ usernamePasswordVersion :: len u :: u ++ len p :: p) w →
     utf8_valid u = true → utf8_valid p = true → len u ≠ 0 → len p ≠ 0 → P (u, p) s') →
  Runs readUsernamePassword s P (Refused ws).
Proof.
  intros Hb Ht Hw Hw2 HP. unfold readUsernamePassword. apply runs_bind.
  assert (∀ x l s', Trace s0 s' (l ++ [x]) w → 0 ≤ x) as Hpos.
  { intros x l s' T. pose proof (tr_read _ _ _ _ T) as Hin. rewrite Hin in Hb. rewrite !Forall_app in Hb.
    destruct Hb as [[_ Hn] _]. inversion_clear Hn as [|?? Hx _]. destruct Hx. lia. }
  apply (read_u8_runs s b w); [done|done|]. intros v s1 T1. case_if Hv; [by eapply refuse_runs|].
  apply negb_false_iff, Z.eqb_eq in Hv as ->. apply runs_bind.
  eapply read_u8_runs; [eassumption|done|]. intros nu s2 T2. case_if Hnu; [by eapply refuse_runs|].
  apply Z.eqb_neq in Hnu. apply runs_bind.
  eapply read_exact_runs; [by eapply Hpos|eassumption|done|]. intros u s3 T3 Hlu. apply runs_bind.
  eapply read_u8_runs; [eassumption|done|]. intros np s4 T4. case_if Hnp; [by eapply refuse_runs|].
  apply Z.eqb_neq in Hnp. apply runs_bind.
  eapply read_exact_runs; [by eapply Hpos|eassumption|done|]. intros p s5 T5 Hlp.
  case_if Hu; [by eapply refuse_runs|]. case_if Hpw; [by eapply refuse_runs|].
  apply runs_ret, HP; [|by apply negb_false_iff..|congruence|congruence].
  subst nu np. rewrite <-!app_assoc in T5. exact T5.
Qed.
End runs.

(** The answers a negotiation may leave on the stream when it fails. *)
Definition refusals : list (list Z) :=
  [[]; [socksVersion; methodNoAcceptable]; [socksVersion; methodNoAuth];
   [socksVersion; methodUsernamePassword];
   [socksVersion; methodUsernamePassword; usernamePasswordVersion; 1]].

Lemma runs_timeout {A} what (m : stateful Stream Interrupt A) s P Q :
  Runs m s P (λ _ s', Q s') →
  Runs (timeout what m) s P (λ e s', e ≠ Pending ∧ Q s').
Proof.
  unfold Runs, timeout. destruct (m s) as [s' [a|[e|]|]]; done.
Qed.

(** C10: Only a configured account is accepted.  When the negotiation succeeds,
    the client has sent a greeting that offers the configured method and, in
    password mode, the exact bytes of a configured username and its password, and
    was answered with that method and the success status.  When it fails, the
    answers on the stream never include the success status. *)
Theorem authentication_sound mode users s :
  bytes_ok (st_incoming s) → (∀ u p, users !! u = Some p → bytes_ok p) →
  Runs (negotiateAuthentication mode users) s
    (λ name s', ∃ methods, let greeting := socksVersion :: len methods :: methods in
       (mode = NoAuth ∧ name = [] ∧ methodNoAuth ∈ methods ∧
        Trace s s' greeting [socksVersion; methodNoAuth]) ∨
       (mode = UsernamePassword ∧ methodUsernamePassword ∈ methods ∧
        ∃ password, users !! name = Some password ∧
          Trace s s' (greeting ++ usernamePasswordVersion :: len name :: name ++
                        len password :: password)
            [socksVersion; methodUsernamePassword; usernamePasswordVersion; 0]))
    (λ e s', e ≠ Pending ∧ ∃ b w, Trace s s' b w ∧ w ∈ refusals).
Proof.
  intros Hb Husers. unfold negotiateAuthentication. apply runs_timeout.
  change (λ (_ : Interrupt) s', ∃ b w, Trace s s' b w ∧ w ∈ refusals) with (Refused s refusals).
  apply runs_bind. apply (readMethods_runs s s [] []); [done|apply trace_refl|by left|].
  intros methods s1 T1. cbn [app] in T1. cbn zeta. apply runs_bind.
  eapply write_runs; [eassumption|by left|]. intros s2 T2. cbn [app] in T2.
  unfold selectMethod, offers in *.
  assert (∀ A (a : A) e w (P : A → Stream → Prop), Trace s s2 (socksVersion :: len methods :: methods) w →
    w ∈ refusals → Runs (reject e) s2 P (Refused s refusals)) as Hrej.
  { intros. apply runs_fail. by eexists _, _. }
  destruct mode; case_bool_decide as Hm.
  - apply runs_ret. exists methods. left. done.
  - apply (Hrej _ [] _ _ _ T2). set_solver.
  - cbn [Z.eqb orb]. change (methodUsernamePassword =? methodNoAcceptable) with false.
    change (methodUsernamePassword =? methodNoAuth) with false.
    rewrite !bool_decide_false by done. cbn [orb]. unfold authenticateUsernamePassword. apply runs_bind.
    eapply readUsernamePassword_runs; [done|eassumption|set_solver|set_solver|].
    intros u p s3 T3 Hu Hpw _ _. cbn zeta.
    set (valid := match users !! u with Some e => constantTimeEqual e p | None => false end).
    apply runs_bind. eapply write_runs; [eassumption|set_solver|].
    intros s4 T4. destruct valid eqn:Hvalid; cbn [negb].
    + apply runs_ret. exists methods. right. split; [done|]. split; [done|]. exists p. unfold valid in Hvalid.
      destruct (users !! u) as [expected|] eqn:Hlook; [|done].
      apply constantTimeEqual_spec in Hvalid as ->; [done|by eapply Husers|].
      pose proof (tr_read _ _ _ _ T3) as Hin. rewrite Hin in Hb. rewrite !Forall_app, !Forall_cons, !Forall_app, !Forall_cons in Hb.
      apply Hb.
    + apply runs_fail. eexists _, _. split; [exact T4|]. set_solver.
  - apply (Hrej _ [] _ _ _ T2). set_solver.
  - apply (Hrej _ [] _ _ _ T2). set_solver.
  - apply (Hrej _ [] _ _ _ T2). set_solver.
  - apply (Hrej _ [] _ _ _ T2). set_solver.
  - apply (Hrej _ [] _ _ _ T2). set_solver.
Qed.

(** An external verifier decides alone.  The plugin and the account-service
    negotiation succeed with [t] only when the verifier returned [t] for exactly the
    username and password the client sent; otherwise the success status was never
    written. *)
Theorem external_authentication_sound {T} what (verifier : list Z → list Z → option T) s :
  bytes_ok (st_incoming s) →
  Runs (negotiateWith what verifier) s
    (λ t s', ∃ methods name password, methodUsernamePassword ∈ methods ∧
       verifier name password = Some t ∧ utf8_valid name = true ∧ utf8_valid password = true ∧
       Trace s s' ((socksVersion :: len methods :: methods) ++
                   usernamePasswordVersion :: len name :: name ++ len password :: password)
         [socksVersion; methodUsernamePassword; usernamePasswordVersion; 0])
    (λ e s', e ≠ Pending ∧ ∃ b w, Trace s s' b w ∧ w ∈ refusals).
Proof.
  intros Hb. unfold negotiateWith. apply runs_timeout.
  change (λ (_ : Interrupt) s', ∃ b w, Trace s s' b w ∧ w ∈ refusals) with (Refused s refusals).
  apply runs_bind. apply (readMethods_runs s s [] []); [done|apply trace_refl|by left|].
  intros methods s1 T1. cbn [app] in T1. cbn zeta. apply runs_bind.
  eapply write_runs; [eassumption|by left|]. intros s2 T2. cbn [app] in T2.
  unfold offers in *. case_bool_decide as Hm.
  - change (methodUsernamePassword =? methodNoAcceptable) with false. apply runs_bind.
    eapply readUsernamePassword_runs; [done|eassumption|set_solver|set_solver|].
    intros u p s3 T3 Hu Hpw _ _. apply runs_bind.
    eapply write_runs; [eassumption|set_solver|]. intros s4 T4.
    destruct (verifier u p) as [t|] eqn:Hv.
    + apply runs_ret. by exists methods, u, p.
    + apply runs_fail. eexists _, _. split; [exact T4|]. cbn. set_solver.
  - apply runs_fail. eexists _, _. split; [exact T2|]. set_solver.
Qed.

(** ** Configuration *)

(** What validation leaves true of a configuration. *)
Record Validated (c : Socks5Config) : Prop := {
  va_connections : 1 ≤ sc_maxConnections c ≤ maximumConnections;
  va_relay_memory : 2 * (sc_maxConnections c * sc_relayBufferSize c) ≤ maximumTotalRelayBufferSize;
  va_datagram : 512 ≤ sc_udpMaxPacketSize c ≤ 65507;
  va_accounts : sc_authenticationMode c = UsernamePassword → sc_users c ≠ ∅;
  va_credentials u p : sc_users c !! u = Some p → 1 ≤ len u ≤ u8_max ∧ 1 ≤ len p ≤ u8_max;
  va_family ip : sc_udpBindHost c ≠ [] → parse_ip (sc_udpBindHost c) = Some ip →
    is_ipv4 ip = is_ipv4 (sc_listenHost c)
}.

Lemma checked_mul_Some a b n : checked_mul a b = Some n → n = a * b ∧ n ≤ usize_max.
Proof. unfold checked_mul. case_if H; [|done]. apply Z.leb_le in H. by intros [= <-]. Qed.

Lemma between_true lo x hi : between lo x hi = true → lo ≤ x ≤ hi.
Proof. unfold between. rewrite andb_true_iff, !Z.leb_le. done. Qed.

Lemma validate_facts c : Socks5Config_validate c = Ok tt → Validated c.
Proof.
  unfold Socks5Config_validate. intros H.
  apply bind_Ok_inv in H as (? & H1%check_Ok_inv%between_true & H).
  apply bind_Ok_inv in H as (? & H2%check_Ok_inv%between_true & H).
  apply bind_Ok_inv in H as (n & H3 & H).
  apply bind_Ok_inv in H as (? & H4%check_Ok_inv%Z.leb_le & H).
  apply bind_Ok_inv in H as (? & H5%check_Ok_inv%between_true & H).
  apply bind_Ok_inv in H as (? & _ & H). apply bind_Ok_inv in H as (? & _ & H).
  apply bind_Ok_inv in H as (? & H6 & H). apply bind_Ok_inv in H as (? & _ & H).
  apply bind_Ok_inv in H as (? & _ & H).
  apply bind_Ok_inv in H as (? & H7%check_Ok_inv & H8%check_Ok_inv).
  constructor; [done| |done| | |].
  - destruct (checked_mul _ _) as [m|] eqn:Hm; [|done]. apply checked_mul_Some in Hm as [-> _].
    cbn in H3. destruct (checked_mul _ 2) as [m|] eqn:Hm; [|done].
    apply checked_mul_Some in Hm as [-> _]. injection H3 as <-. lia.
  - intros Hm Hu. by rewrite !bool_decide_true in H7.
  - intros u p Hlook%elem_of_map_to_list. rewrite forallb_forall in H8.
    apply list_elem_of_In, H8 in Hlook. unfold credentialOk in Hlook. cbn in Hlook.
    rewrite !andb_true_iff, !negb_true_iff, !Z.eqb_neq, !Z.leb_le in Hlook.
    pose proof (len_nonneg u). pose proof (len_nonneg p). lia.
  - intros ip Hne Hparse. rewrite Hparse in H6. destruct (negb (len (sc_udpBindHost c) =? 0)) eqn:Hl.
    + by apply check_Ok_inv, eqb_prop in H6.
    + apply negb_false_iff, Z.eqb_eq, len_nil_inv in Hl. done.
Qed.

(** A validated configuration is safe to run.  Both relay buffers of all
    connections together stay within the memory limit (the products computed
    without overflow), every account fits the one-byte lengths of the login frame
    and is not empty, password mode has an account, datagrams fit UDP, and the
    relay is bound in the listener's address family. *)
Theorem validated_configuration c :
  Socks5Config_validate c = Ok tt → Validated c.
Proof. apply validate_facts. Qed.

(** ** Completeness *)
Section completeness.
Context (ending : Ending) (written : list Z).

(** A writable stream on which [l] is still to be read. *)
Definition open_stream (l w : list Z) : Stream :=
  {| st_incoming := l; st_ending := ending; st_writable := true; st_written := w |}.

Lemma read_exact_app l r w : read_exact (len l) (open_stream (l ++ r) w) = (open_stream r w, Ok l).
Proof.
  unfold read_exact, mbind, stateful_bind, gets, modify. cbn [id open_stream st_incoming].
  rewrite len_app. pose proof (len_nonneg r).
  rewrite (proj2 (Z.leb_le _ _)) by lia.
  unfold len. rewrite Nat2Z.id. rewrite drop_app_length, take_app_length. done.
Qed.

Lemma read_u8_cons x r w : read_u8 (open_stream (x :: r) w) = (open_stream r w, Ok x).
Proof.
  unfold read_u8, mbind, stateful_bind. change (x :: r) with ([x] ++ r). change 1 with (len [x]).
  rewrite read_exact_app.
  unfold mret, stateful_ret. by assert (be_value [x] = x) as -> by done.
Qed.

Lemma write_all_open l r w : write_all l (open_stream r w) = (open_stream r (w ++ l), Ok tt).
Proof. done. Qed.

Lemma readMethods_complete methods r w :
  readMethods (open_stream (socksVersion :: len methods :: methods ++ r) w)
  = (open_stream r w, Ok methods).
Proof.
  unfold readMethods, mbind, stateful_bind. rewrite read_u8_cons, Z.eqb_refl. cbn [negb].
  by rewrite read_u8_cons, read_exact_app.
Qed.

Lemma readUsernamePassword_complete u p r w :
  utf8_valid u = true → utf8_valid p = true → len u ≠ 0 → len p ≠ 0 →
  readUsernamePassword
    (open_stream (usernamePasswordVersion :: len u :: u ++ len p :: p ++ r) w)
  = (open_stream r w, Ok (u, p)).
Proof.
  intros Hu Hp Hlu Hlp. unfold readUsernamePassword, mbind, stateful_bind.
  rewrite read_u8_cons, Z.eqb_refl. cbn [negb].
  rewrite read_u8_cons, (proj2 (Z.eqb_neq _ _) Hlu), read_exact_app.
  rewrite read_u8_cons, (proj2 (Z.eqb_neq _ _) Hlp), read_exact_app.
  by rewrite Hu, Hp.
Qed.

(** C39: Every configured account can log in.  Under a validated configuration
    whose texts are well-formed UTF-8, a client that offers the password method
    and sends the account's username and password is accepted under that name,
    answered with the method and the success status, and nothing of what it sends
    next is consumed. *)
Theorem authentication_complete c methods name password rest :
  Socks5Config_validate c = Ok tt →
  sc_authenticationMode c = UsernamePassword →
  sc_users c !! name = Some password →
  utf8_valid name = true → utf8_valid password = true → bytes_ok password →
  methodUsernamePassword ∈ methods →
  negotiateAuthentication (sc_authenticationMode c) (sc_users c)
    (open_stream (socksVersion :: len methods :: methods ++
       usernamePasswordVersion :: len name :: name ++ len password :: password ++ rest) written)
  = (open_stream rest (written ++ [socksVersion; methodUsernamePassword;
                                   usernamePasswordVersion; 0]), Ok name).
Proof.
  intros Hval Hmode Hlook Hu Hp Hbytes Hm.
  assert (len name ≠ 0 ∧ len password ≠ 0) as [Hlu Hlp].
  { apply validate_facts in Hval. pose proof (va_credentials _ Hval _ _ Hlook). lia. }
  rewrite Hmode. unfold negotiateAuthentication, timeout, mbind, stateful_bind.
  rewrite readMethods_complete. unfold selectMethod, offers.
  rewrite bool_decide_true, write_all_open by done.
  change (methodUsernamePassword =? methodNoAcceptable) with false.
  change (methodUsernamePassword =? methodNoAuth) with false.
  rewrite !bool_decide_false by done. cbn [orb].
  unfold authenticateUsernamePassword, mbind, stateful_bind.
  rewrite readUsernamePassword_complete, Hlook by done.
  rewrite (proj2 (constantTimeEqual_spec _ _ Hbytes Hbytes)) by done.
  unfold writeAuthenticationStatus. rewrite write_all_open, <-app_assoc. done.
Qed.
End completeness.
