(* ===== verification/Socks5Examples.v ===== *)
(** * SOCKS5 on concrete streams

    A client that logs in as the only configured account, and the frames of the
    address codec, on which the theorems are applied. *)

From S2P Require Import Prelude Stateful NetAddress Socks5Codec Socks5CodecTheorems Socks5AuthTheorems.

Ltac bytes :=
  repeat (apply Forall_cons_2; [split; vm_compute; discriminate|]); exact (Forall_nil_2 _).

(** "a.io":443 *)
Definition addressEx : TargetAddress := {| ta_host := Domain [97; 46; 105; 111]; ta_port := 443 |}.
Definition wireEx : list Z := [3; 4; 97; 46; 105; 111; 1; 187].

Lemma address_roundtrip_witness :
  ∃ packet, encodeTargetAddress addressEx [5; 1; 0] = Ok packet ∧
    decodeTargetAddress (packet ++ [9]) (len [5; 1; 0]) = Ok (addressEx, len packet).
Proof.
  apply address_roundtrip.
  split; [vm_compute; split; discriminate|]. split; [bytes|]. split; [reflexivity|].
  vm_compute. split; [reflexivity|discriminate].
Defined.

Lemma address_decode_canonical_witness :
  Satisfies (decodeTargetAddress wireEx 0)
    (λ '(a, next), addressOk a ∧ 0 < next ≤ len wireEx ∧
       encodeTargetAddress a (slice wireEx 0 0) = Ok (slice wireEx 0 next)) (λ _, True).
Proof. apply address_decode_canonical; [bytes|lia]. Defined.

Definition sourceEx : SocketAddr := SocketAddrV4 134744072 53.

Lemma udp_frame_roundtrip_witness :
  ∃ packet, encodeUdpPacket sourceEx [1; 2; 3] = Ok packet ∧
    decodeUdpPacket packet =
      Ok {| pk_destination := fromSocketAddress sourceEx; pk_payload := [1; 2; 3] |}.
Proof. apply udp_frame_roundtrip; vm_compute; split; (reflexivity || discriminate). Defined.

Lemma udp_frame_total_witness :
  Satisfies (decodeUdpPacket ([0; 0; 0] ++ wireEx ++ [7]))
    (λ p, slice ([0; 0; 0] ++ wireEx ++ [7]) 0 3 = [0; 0; 0] ∧ addressOk (pk_destination p) ∧
          ∃ next, 3 < next ≤ len ([0; 0; 0] ++ wireEx ++ [7]) ∧
                  pk_payload p = slice ([0; 0; 0] ++ wireEx ++ [7]) next (len ([0; 0; 0] ++ wireEx ++ [7])))
    (λ _, True).
Proof. apply udp_frame_total. bytes. Defined.

Lemma constant_time_equal_exact_witness :
  constantTimeEqual [1; 2] [1; 2; 0] = bool_decide ([1; 2] = [1; 2; 0]).
Proof. apply constant_time_equal_exact; bytes. Defined.

(** ** A login *)
Definition nameEx : list Z := [98; 111; 98].
Definition passwordEx : list Z := [112; 119].
Definition usersEx : gmap (list Z) (list Z) := {[ nameEx := passwordEx ]}.
Definition loginEx : list Z :=
  socksVersion :: 2 :: [0; 2] ++
  usernamePasswordVersion :: 3 :: nameEx ++ 2 :: passwordEx ++ wireEx.
Definition loginStreamEx : Stream := open_stream Closed loginEx [].

Definition configEx : Socks5Config :=
  {| sc_listenHost := LOCALHOST_V4; sc_listenPort := 1080;
     sc_authenticationMode := UsernamePassword; sc_users := usersEx;
     sc_maxConnections := 1024; sc_connectTimeoutMilliseconds := 10000;
     sc_bindTimeoutMilliseconds := 30000; sc_idleTimeoutMilliseconds := 300000;
     sc_readTimeoutMilliseconds := 10000; sc_shutdownTimeoutMilliseconds := 5000;
     sc_relayBufferSize := 65536; sc_udpBindHost := [48; 46; 48; 46; 48; 46; 48];
     sc_udpMaxPacketSize := 65507; sc_udpRemoteLimit := 1024; sc_sessionHistoryLimit := 500 |}.

Lemma configEx_valid : Socks5Config_validate configEx = Ok tt.
Proof. vm_compute. reflexivity. Defined.

Lemma stream_reader_equivalent_witness :
  readTargetAddress (open_stream Silent (wireEx ++ [1]) []) = (open_stream Silent [1] [], Ok addressEx).
Proof.
  assert (bytes_ok (st_incoming (open_stream Silent (wireEx ++ [1]) []))) as Hb by bytes.
  exact (stream_reader_equivalent (open_stream Silent (wireEx ++ [1]) []) Hb).
Defined.

Lemma authentication_sound_witness :
  Runs (negotiateAuthentication UsernamePassword usersEx) loginStreamEx
    (λ name s', ∃ methods, let greeting := socksVersion :: len methods :: methods in
       (UsernamePassword = NoAuth ∧ name = [] ∧ methodNoAuth ∈ methods ∧
        Trace loginStreamEx s' greeting [socksVersion; methodNoAuth]) ∨
       (UsernamePassword = UsernamePassword ∧ methodUsernamePassword ∈ methods ∧
        ∃ password, usersEx !! name = Some password ∧
          Trace loginStreamEx s' (greeting ++ usernamePasswordVersion :: len name :: name ++
                        len password :: password)
            [socksVersion; methodUsernamePassword; usernamePasswordVersion; 0]))
    (λ e s', e ≠ Pending ∧ ∃ b w, Trace loginStreamEx s' b w ∧ w ∈ refusals).
Proof.
  apply authentication_sound; [bytes|].
  intros u p Hu. unfold usersEx in Hu. apply lookup_singleton_Some in Hu as [_ <-]. bytes.
Defined.

Definition verifierEx (name password : list Z) : option Z :=
  if bool_decide (name = nameEx ∧ password = passwordEx) then Some 7 else None.

Lemma external_authentication_sound_witness :
  Runs (negotiateWith ExternalNegotiation verifierEx) loginStreamEx
    (λ t s', ∃ methods name password, methodUsernamePassword ∈ methods ∧
       verifierEx name password = Some t ∧ utf8_valid name = true ∧ utf8_valid password = true ∧
       Trace loginStreamEx s' ((socksVersion :: len methods :: methods) ++
                   usernamePasswordVersion :: len name :: name ++ len password :: password)
         [socksVersion; methodUsernamePassword; usernamePasswordVersion; 0])
    (λ e s', e ≠ Pending ∧ ∃ b w, Trace loginStreamEx s' b w ∧ w ∈ refusals).
Proof. apply external_authentication_sound. bytes. Defined.

Lemma validated_configuration_witness : Validated configEx.
Proof. apply validated_configuration. exact configEx_valid. Defined.

Lemma authentication_complete_witness :
  negotiateAuthentication UsernamePassword usersEx loginStreamEx
  = (open_stream Closed wireEx ([] ++ [5; 2; 1; 0]), Ok nameEx).
Proof.
  apply (authentication_complete Closed [] configEx [0; 2] nameEx passwordEx wireEx).
  - exact configEx_valid.
  - reflexivity.
  - vm_compute. reflexivity.
  - reflexivity.
  - reflexivity.
  - bytes.
  - right. left.
Defined.
