(* ===== verification/PacketFilters.v ===== *)
(** * Packet filters

    Model of [Server/Backend/PluginHost/src/packetFilters.rs]: ordered rules that
    match the final wire bytes of a connection and rewrite, drop or close.  A
    [Vec<u8>] is a list of bytes, a [String] a list of [char]s.  [usize] arithmetic
    that would overflow, and indices out of range, are panics. *)

From S2P Require Import Prelude Text.

Definition MAXIMUM_RULES : Z := 256.
Definition MAXIMUM_IDENTIFIER_BYTES : Z := 64.
Definition MAXIMUM_NAME_BYTES : Z := 128.
Definition MAXIMUM_HOST_BYTES : Z := 253.
Definition MAXIMUM_PATTERN_TOKENS : Z := 512.
Definition MAXIMUM_PACKET_BYTES : Z := 16 * 1024 * 1024.

(** The data plane's metadata. *)
Inductive TransportKind := Tcp | Udp.
Inductive StreamDirection := ClientToServer | ServerToClient.

Record ConnectionMetadata := {
  cm_transport : TransportKind;
  cm_clientAddress : chars;
  cm_targetHost : chars;
  cm_targetPort : Z
}.

(** ** Rules *)
Inductive PacketFilterTransport := AnyTransport | OnlyTcp | OnlyUdp.
Inductive PacketFilterDirection := AnyDirection | OnlyUp | OnlyDown.
Inductive PacketFilterAction := Modify | Drop | Close.
#[export] Instance PacketFilterAction_eq_dec : EqDecision PacketFilterAction.
Proof. solve_decision. Defined.

Record PacketFilterRule := {
  pf_id : chars;
  pf_name : chars;
  pf_enabled : bool;
  pf_transport : PacketFilterTransport;
  pf_direction : PacketFilterDirection;
  pf_host : chars;
  pf_port : option Z;
  pf_minimumLength : option Z;
  pf_maximumLength : option Z;
  pf_pattern : chars;
  pf_replacement : chars;
  pf_action : PacketFilterAction;
  pf_replaceAll : bool;
  pf_continueMatching : bool
}.

Definition PacketFilterRule_default : PacketFilterRule :=
  {| pf_id := []; pf_name := []; pf_enabled := false; pf_transport := AnyTransport;
     pf_direction := AnyDirection; pf_host := []; pf_port := None; pf_minimumLength := None;
     pf_maximumLength := None; pf_pattern := []; pf_replacement := []; pf_action := Modify;
     pf_replaceAll := false; pf_continueMatching := false |}.

Record PacketFilterConfiguration := {
  pc_enabled : bool;
  pc_rules : list PacketFilterRule
}.

Inductive PacketFilterError :=
| TooManyRules | InvalidIdentifier | DuplicateIdentifier | InvalidName | InvalidHost
| InvalidLength | InvalidPattern | InvalidReplacement.

Inductive PacketFilterResult :=
| Forwarded (bytes : list Z)
| Dropped
| Closed.

(** A byte pattern; [None] is a wildcard. *)
Abbreviation CompiledBytePattern := (list (option Z)) (only parsing).

Record CompiledRule := {
  cr_transport : PacketFilterTransport;
  cr_direction : PacketFilterDirection;
  cr_host : chars;
  cr_port : option Z;
  cr_minimumLength : option Z;
  cr_maximumLength : option Z;
  cr_pattern : option CompiledBytePattern;
  cr_replacement : option CompiledBytePattern;
  cr_action : PacketFilterAction;
  cr_replaceAll : bool;
  cr_continueMatching : bool
}.

Record CompiledConfiguration := {
  cc_source : PacketFilterConfiguration;
  cc_rules : list CompiledRule
}.

Abbreviation filtering := (outcome PacketFilterError) (only parsing).

(** ** Compiling a configuration *)

(** [u8::from_str_radix] of a token, or a wildcard. *)
Definition parseToken (allowWildcard : bool) (token : chars) : outcome unit (option Z) :=
  if allowWildcard && str_eqb token [63; 63] then Ok None
  else if str_len token =? 2 then byte ← ok_or (from_str_radix 16 u8_max token) tt; Ok (Some byte)
  else Err tt.

Fixpoint collect {E A B} (f : A → outcome E B) (l : list A) : outcome E (list B) :=
  match l with
  | [] => Ok []
  | a :: l => b ← f a; bs ← collect f l; Ok (b :: bs)
  end.

Definition parseBytePattern (value : chars) (allowWildcard : bool)
    : outcome unit (option CompiledBytePattern) :=
  let trimmed := trim value in
  if is_empty trimmed then Ok None
  else
    let tokens := split_ascii_whitespace trimmed in
    _ ← check (negb ((len tokens =? 0) || (MAXIMUM_PATTERN_TOKENS <? len tokens))) tt;
    bytes ← collect (parseToken allowWildcard) tokens;
    Ok (Some bytes).

Definition parsePattern (value : chars) : filtering (option CompiledBytePattern) :=
  map_err (λ _, InvalidPattern) (parseBytePattern value true).

(** [Vec::resize] with wildcards, to a length that is not shorter. *)
Definition resizeWildcards (n : Z) (bytes : CompiledBytePattern) : CompiledBytePattern :=
  bytes ++ replicate (Z.to_nat (n - len bytes)) None.

Definition compileBytePatterns (rule : PacketFilterRule)
    : filtering (option CompiledBytePattern * option CompiledBytePattern) :=
  pattern ← parsePattern (pf_pattern rule);
  if bool_decide (pf_action rule ≠ Modify) then
    _ ← check (is_empty (trim (pf_replacement rule))) InvalidReplacement;
    Ok (pattern, None)
  else
    patternBytes ← ok_or pattern InvalidReplacement;
    parsed ← map_err (λ _, InvalidReplacement) (parseBytePattern (pf_replacement rule) true);
    replacement ← ok_or parsed InvalidReplacement;
    let patternBytes := if len patternBytes <? len replacement
                        then resizeWildcards (len replacement) patternBytes else patternBytes in
    Ok (Some patternBytes, Some replacement).

Definition normalizeHost (value : chars) : chars :=
  to_ascii_lowercase (trim_end_matches 46 (trim value)).

Definition validateText (value : chars) (maximumBytes : Z) : bool :=
  let trimmed := trim value in
  negb (is_empty trimmed || (maximumBytes <? str_len trimmed) || existsb is_control trimmed).

Definition starDot : chars := [42; 46].

Definition validateHost (value : chars) : filtering chars :=
  let normalized := normalizeHost value in
  if (MAXIMUM_HOST_BYTES <? str_len normalized)
     || existsb is_control normalized
     || (contains_char 42 normalized && negb (starts_with starDot normalized))
     || (1 <? len (filter (λ c, c = 42) normalized))
     || str_eqb normalized starDot
  then Err InvalidHost else Ok normalized.

Definition lengthInvalid (value : Z) : bool := (value =? 0) || (MAXIMUM_PACKET_BYTES <? value).

Definition validateLengths (minimum maximum : option Z) : filtering unit :=
  check (negb (from_option lengthInvalid false minimum || from_option lengthInvalid false maximum
               || match minimum, maximum with Some a, Some b => b <? a | _, _ => false end))
    InvalidLength.

(** One iteration of the loop of [compileConfiguration]. *)
Definition compileRule (identifiers : list chars) (rule : PacketFilterRule) : filtering CompiledRule :=
  _ ← check (validateText (pf_id rule) MAXIMUM_IDENTIFIER_BYTES) InvalidIdentifier;
  _ ← check (negb (bool_decide (pf_id rule ∈ identifiers))) DuplicateIdentifier;
  _ ← check (validateText (pf_name rule) MAXIMUM_NAME_BYTES) InvalidName;
  host ← validateHost (pf_host rule);
  _ ← validateLengths (pf_minimumLength rule) (pf_maximumLength rule);
  '(pattern, replacement) ← compileBytePatterns rule;
  Ok {| cr_transport := pf_transport rule; cr_direction := pf_direction rule; cr_host := host;
        cr_port := pf_port rule; cr_minimumLength := pf_minimumLength rule;
        cr_maximumLength := pf_maximumLength rule; cr_pattern := pattern;
        cr_replacement := replacement; cr_action := pf_action rule;
        cr_replaceAll := pf_replaceAll rule; cr_continueMatching := pf_continueMatching rule |}.

Fixpoint compileRules (identifiers : list chars) (rules : list PacketFilterRule)
    : filtering (list CompiledRule) :=
  match rules with
  | [] => Ok []
  | rule :: rules =>
      compiled ← compileRule identifiers rule;
      rest ← compileRules (pf_id rule :: identifiers) rules;
      Ok (if pf_enabled rule then compiled :: rest else rest)
  end.

Definition compileConfiguration (configuration : PacketFilterConfiguration)
    : filtering CompiledConfiguration :=
  _ ← check (negb (MAXIMUM_RULES <? len (pc_rules configuration))) TooManyRules;
  rules ← compileRules [] (pc_rules configuration);
  Ok {| cc_source := configuration; cc_rules := rules |}.

(** ** Matching *)
Definition byteMatches (expected : option Z) (actual : Z) : bool :=
  match expected with None => true | Some expected => expected =? actual end.

Definition windowMatches (pattern : CompiledBytePattern) (window : list Z) : bool :=
  forallb (λ '(expected, actual), byteMatches expected actual) (zip pattern window).

(** The loop of [findOffsets] from [offset] on. *)
Fixpoint findLoop (fuel : nat) (pattern : CompiledBytePattern) (bytes : list Z) (replaceAll : bool)
    (offset : Z) : filtering (list Z) :=
  match fuel with
  | O => Panic
  | S fuel =>
      if offset + len pattern <=? len bytes then
        window ← sub_slice bytes offset (offset + len pattern);
        if windowMatches pattern window then
          if replaceAll then
            rest ← findLoop fuel pattern bytes replaceAll (offset + len pattern);
            Ok (offset :: rest)
          else Ok [offset]
        else findLoop fuel pattern bytes replaceAll (offset + 1)
      else Ok []
  end.

Definition findOffsets (pattern : CompiledBytePattern) (bytes : list Z) (replaceAll : bool)
    : filtering (list Z) :=
  if len bytes <? len pattern then Ok []
  else findLoop (S (length bytes)) pattern bytes replaceAll 0.

Definition matchesHost (rule : CompiledRule) (host : chars) : bool :=
  if is_empty (cr_host rule) then true
  else
    let candidate := normalizeHost host in
    match strip_prefix starDot (cr_host rule) with
    | Some suffix =>
        match strip_suffix suffix candidate with
        | Some prefix => ends_with [46] prefix && (1 <? str_len prefix)
        | None => false
        end
    | None => str_eqb candidate (cr_host rule)
    end.

Definition matchesMetadata (rule : CompiledRule) (metadata : ConnectionMetadata)
    (direction : StreamDirection) (length : Z) : bool :=
  let transportMatches :=
    match cr_transport rule, cm_transport metadata with
    | AnyTransport, _ | OnlyTcp, Tcp | OnlyUdp, Udp => true
    | _, _ => false
    end in
  let directionMatches :=
    match cr_direction rule, direction with
    | AnyDirection, _ | OnlyUp, ClientToServer | OnlyDown, ServerToClient => true
    | _, _ => false
    end in
  transportMatches && directionMatches && matchesHost rule (cm_targetHost metadata)
  && from_option (λ port, port =? cm_targetPort metadata) true (cr_port rule)
  && from_option (λ minimum, minimum <=? length) true (cr_minimumLength rule)
  && from_option (λ maximum, length <=? maximum) true (cr_maximumLength rule).

Definition matchingOffsets (rule : CompiledRule) (metadata : ConnectionMetadata)
    (direction : StreamDirection) (bytes : list Z) : filtering (option (list Z)) :=
  if negb (matchesMetadata rule metadata direction (len bytes)) then Ok None
  else match cr_pattern rule with
       | None => Ok (Some [0])
       | Some pattern =>
           offsets ← findOffsets pattern bytes (cr_replaceAll rule);
           Ok (match offsets with [] => None | _ => Some offsets end)
       end.

(** ** Rewriting *)

(** A [usize] result; overflow and underflow panic. *)
Definition usize (n : Z) : filtering Z := if (0 <=? n) && (n <=? usize_max) then Ok n else Panic.

(** The bytes written for one match at [offset], from position [index] on. *)
Fixpoint replaceWindow (replacement : CompiledBytePattern) (bytes : list Z) (offset index : Z)
    : filtering (list Z) :=
  match replacement with
  | [] => Ok []
  | replacementByte :: replacement =>
      kept ← idx bytes (offset + index);
      rest ← replaceWindow replacement bytes offset (index + 1);
      Ok (default kept replacementByte :: rest)
  end.

Fixpoint rebuild (patternLength : Z) (replacement : CompiledBytePattern) (bytes : list Z)
    (sourceOffset : Z) (offsets : list Z) : filtering (list Z) :=
  match offsets with
  | [] => sub_slice bytes sourceOffset (len bytes)
  | offset :: offsets =>
      gap ← sub_slice bytes sourceOffset offset;
      window ← replaceWindow replacement bytes offset 0;
      rest ← rebuild patternLength replacement bytes (offset + patternLength) offsets;
      Ok (gap ++ window ++ rest)
  end.

Definition applyReplacement (rule : CompiledRule) (bytes offsets : list Z) : filtering (list Z) :=
  pattern ← expect (cr_pattern rule);
  replacement ← expect (cr_replacement rule);
  removedBytes ← usize (len pattern * len offsets);
  insertedBytes ← usize (len replacement * len offsets);
  remaining ← usize (len bytes - removedBytes);
  _ ← usize (remaining + insertedBytes);
  rebuild (len pattern) replacement bytes 0 offsets.

Fixpoint processRules (rules : list CompiledRule) (metadata : ConnectionMetadata)
    (direction : StreamDirection) (bytes : list Z) : filtering PacketFilterResult :=
  match rules with
  | [] => Ok (Forwarded bytes)
  | rule :: rules =>
      matches ← matchingOffsets rule metadata direction bytes;
      match matches with
      | None => processRules rules metadata direction bytes
      | Some offsets =>
          match cr_action rule with
          | Modify =>
              bytes ← applyReplacement rule bytes offsets;
              if cr_continueMatching rule then processRules rules metadata direction bytes
              else Ok (Forwarded bytes)
          | Drop => Ok Dropped
          | Close => Ok Closed
          end
      end
  end.

Definition process (compiled : CompiledConfiguration) (metadata : ConnectionMetadata)
    (direction : StreamDirection) (bytes : list Z) : filtering PacketFilterResult :=
  if negb (pc_enabled (cc_source compiled)) then Ok (Forwarded bytes)
  else processRules (cc_rules compiled) metadata direction bytes.

(** [replaceConfiguration] on the current snapshot: the old one stays on failure. *)
Definition replaceConfiguration (current : CompiledConfiguration)
    (configuration : PacketFilterConfiguration)
    : CompiledConfiguration * outcome PacketFilterError unit :=
  match compileConfiguration configuration with
  | Ok compiled => (compiled, Ok tt)
  | Err e => (current, Err e)
  | Panic => (current, Panic)
  end.
