(* ===== verification/PacketFiltersTheorems.v ===== *)
(** * Correctness of the packet filters

    A compiled configuration never panics on a packet, and does to it what the
    reference rewriting below says: one left-to-right pass per rule. *)

From S2P Require Import Prelude Text PacketFilters.

(** ** The reference *)

Definition occursAt (pattern : list (option Z)) (l : list Z) : bool :=
  (len pattern <=? len l) && windowMatches pattern (take (length pattern) l).

(** Some window of [l] matches. *)
Fixpoint occurs (pattern : list (option Z)) (l : list Z) : bool :=
  occursAt pattern l || match l with [] => false | _ :: l => occurs pattern l end.

(** The replacement laid over the bytes it replaces; wildcards keep them. *)
Fixpoint overlay (replacement : list (option Z)) (window : list Z) : list Z :=
  match replacement, window with
  | r :: replacement, w :: window => default w r :: overlay replacement window
  | _, _ => []
  end.

(** One pass over the bytes; [skip] bytes belong to the window replaced last. *)
Fixpoint rewriting (pattern replacement : list (option Z)) (all : bool) (skip : nat) (l : list Z)
    : list Z :=
  match l with
  | [] => []
  | b :: rest =>
      match skip with
      | S skip => rewriting pattern replacement all skip rest
      | O =>
          if occursAt pattern l then
            overlay replacement l ++
            (if all then rewriting pattern replacement all (length pattern - 1) rest
             else drop (length pattern) l)
          else b :: rewriting pattern replacement all 0 rest
      end
  end.

(** What the rules do to a packet. *)
Fixpoint filtered (rules : list CompiledRule) (metadata : ConnectionMetadata)
    (direction : StreamDirection) (bytes : list Z) : PacketFilterResult :=
  match rules with
  | [] => Forwarded bytes
  | rule :: rules =>
      if matchesMetadata rule metadata direction (len bytes)
         && from_option (λ pattern, occurs pattern bytes) true (cr_pattern rule)
      then match cr_action rule with
           | Modify =>
               let bytes := rewriting (default [] (cr_pattern rule)) (default [] (cr_replacement rule))
                              (cr_replaceAll rule) 0 bytes in
               if cr_continueMatching rule then filtered rules metadata direction bytes
               else Forwarded bytes
           | Drop => Dropped
           | Close => Closed
           end
      else filtered rules metadata direction bytes
  end.

(** A compiled rule: patterns are not empty, a modifying rule has both patterns
    and its replacement is not longer than what it replaces. *)
Record RuleOk (rule : CompiledRule) : Prop := {
  ro_pattern p : cr_pattern rule = Some p → p ≠ [];
  ro_modify : cr_action rule = Modify →
    ∃ p r, cr_pattern rule = Some p ∧ cr_replacement rule = Some r ∧ len r ≤ len p
}.

Lemma overlay_length replacement l : len replacement ≤ len l → len (overlay replacement l) = len replacement.
Proof.
  revert l. induction replacement as [|r rs IH]; intros l; [done|].
  destruct l as [|w l]; rewrite ?len_cons; cbn [overlay]; [pose proof (len_nonneg rs); rewrite len_nil; lia|].
  rewrite len_cons. intros H. rewrite IH; lia.
Qed.

(** ** The search loop finds what the pass replaces *)
Section rewriting.
Context (pattern replacement : list (option Z)).
Hypothesis pattern_nonempty : pattern ≠ [].
Hypothesis replacement_fits : len replacement ≤ len pattern.

Abbreviation ref := (rewriting pattern replacement).

Lemma pattern_positive : 0 < len pattern.
Proof using pattern_nonempty.
  pose proof (len_nonneg pattern). destruct (decide (len pattern = 0)) as [H0|]; [|lia].
  by apply len_nil_inv in H0.
Qed.

Lemma ref_skip all k l : ref all k l = ref all 0 (drop k l).
Proof. revert k. induction l as [|b l IH]; intros [|k]; cbn [rewriting drop]; done. Qed.

Lemma ref_short all l : len l < len pattern → ref all 0 l = l.
Proof.
  induction l as [|b l IH]; intros Hl; [done|]. cbn [rewriting].
  unfold occursAt. rewrite (proj2 (Z.leb_gt _ _) Hl). cbn [andb].
  rewrite len_cons in Hl. rewrite IH by lia. done.
Qed.

Lemma ref_match all l : occursAt pattern l = true →
  ref all 0 l = overlay replacement l ++
            (if all then ref all 0 (drop (length pattern) l) else drop (length pattern) l).
Proof using pattern_nonempty.
  intros Ho. destruct l as [|b l].
  { unfold occursAt in Ho. apply andb_prop in Ho as [Ho%Z.leb_le _].
    pose proof pattern_positive. rewrite len_nil in Ho. lia. }
  cbn [rewriting]. rewrite Ho. f_equal. destruct all; [|done]. rewrite ref_skip.
  change (drop (length pattern - 1) l) with (drop (S (length pattern - 1)) (b :: l)).
  pose proof pattern_positive. unfold len in *.
  by replace (S (length pattern - 1)) with (length pattern) by lia.
Qed.

Lemma ref_length all l : len (ref all 0 l) ≤ len l.
Proof using pattern_nonempty replacement_fits.
  remember (length l) as n eqn:Hn. revert l Hn. induction (lt_wf n) as [n _ IH]. intros l ->.
  destruct (occursAt pattern l) eqn:Ho.
  - rewrite ref_match, len_app by done. pose proof pattern_positive.
    unfold occursAt in Ho. apply andb_prop in Ho as [Ho%Z.leb_le _].
    rewrite overlay_length by lia.
    assert (len (drop (length pattern) l) = len l - len pattern) as Hd.
    { unfold len in *. rewrite length_drop. lia. }
    assert (len (if all then ref all 0 (drop (length pattern) l) else drop (length pattern) l)
            ≤ len (drop (length pattern) l)); [|lia].
    destruct all; [|lia]. eapply IH; [|done]. unfold len in *. lia.
  - destruct l as [|b l]; [done|]. cbn [rewriting]. rewrite Ho, !len_cons.
    enough (len (ref all 0 l) ≤ len l) by lia. eapply IH; [|done]. cbn. lia.
Qed.

Lemma replaceWindow_overlay bytes offset rs index :
  0 ≤ offset → 0 ≤ index → offset + index + len rs ≤ len bytes →
  replaceWindow rs bytes offset index
  = Ok (overlay rs (drop (Z.to_nat (offset + index)) bytes)).
Proof.
  intros Ho. revert index. induction rs as [|r rs IH]; intros index Hi Hl; [done|].
  rewrite len_cons in Hl. pose proof (len_nonneg rs). cbn [replaceWindow].
  destruct (get_is_Some bytes (offset + index)) as [b Hb]; [lia|].
  rewrite (idx_eq _ _ _ Hb). cbn [mbind outcome_bind]. rewrite IH by lia. cbn [mbind outcome_bind].
  rewrite get_lookup in Hb by lia. rewrite (drop_S _ _ _ Hb). cbn [overlay].
  by replace (Z.to_nat (offset + (index + 1))) with (S (Z.to_nat (offset + index))) by lia.
Qed.

Lemma window_at (bytes : list Z) offset :
  0 ≤ offset → offset + len pattern ≤ len bytes →
  windowMatches pattern (slice bytes offset (offset + len pattern))
  = occursAt pattern (drop (Z.to_nat offset) bytes).
Proof.
  intros Ho Hl. unfold occursAt, slice.
  assert (len (drop (Z.to_nat offset) bytes) = len bytes - offset) as Hd.
  { unfold len in *. rewrite length_drop. lia. }
  rewrite Hd, (proj2 (Z.leb_le _ _)) by lia. cbn [andb]. do 2 f_equal. unfold len. lia.
Qed.

Lemma occurs_short l : len l < len pattern → occurs pattern l = false.
Proof.
  induction l as [|b l IHl]; intros H; cbn [occurs];
    unfold occursAt; rewrite (proj2 (Z.leb_gt _ _) H); [done|].
  rewrite len_cons in H. cbn [andb orb]. apply IHl. lia.
Qed.

(** The offsets found from [offset] on rebuild what the pass makes of the rest. *)
Lemma find_rebuild all bytes fuel offset :
  0 ≤ offset ≤ len bytes → len bytes - offset < Z.of_nat fuel →
  ∃ offsets, findLoop fuel pattern bytes all offset = Ok offsets ∧
    len pattern * len offsets ≤ len bytes - offset ∧
    (offsets = [] ↔ occurs pattern (drop (Z.to_nat offset) bytes) = false) ∧
    ∀ source, 0 ≤ source ≤ offset →
      rebuild (len pattern) replacement bytes source offsets
      = Ok (slice bytes source offset ++ ref all 0 (drop (Z.to_nat offset) bytes)).
Proof using pattern_nonempty replacement_fits.
  pose proof pattern_positive as Hp. revert offset.
  induction fuel as [|fuel IH]; intros offset Ho Hf; [lia|]. cbn [findLoop].
  assert (len (drop (Z.to_nat offset) bytes) = len bytes - offset) as Hd.
  { unfold len in *. rewrite length_drop. lia. }
  destruct (Z.leb_spec (offset + len pattern) (len bytes)) as [Hle|Hgt].
  - rewrite sub_slice_eq by lia. cbn [mbind outcome_bind]. rewrite window_at by lia.
    destruct (occursAt pattern (drop (Z.to_nat offset) bytes)) eqn:Hocc.
    + assert (occurs pattern (drop (Z.to_nat offset) bytes) = true) as Hoc.
      { destruct (drop (Z.to_nat offset) bytes); cbn [occurs]; by rewrite Hocc. }
      assert (∀ source, 0 ≤ source ≤ offset → sub_slice (E:=PacketFilterError) bytes source offset
        = Ok (slice bytes source offset)) as Hgap by (intros; apply sub_slice_eq; lia).
      assert (replaceWindow replacement bytes offset 0
        = Ok (overlay replacement (drop (Z.to_nat offset) bytes))) as Hwin.
      { rewrite replaceWindow_overlay by lia. by rewrite Z.add_0_r. }
      assert (drop (length pattern) (drop (Z.to_nat offset) bytes)
              = drop (Z.to_nat (offset + len pattern)) bytes) as Hdd.
      { rewrite drop_drop. f_equal. unfold len. lia. }
      destruct all eqn:Hall.
      * destruct (IH (offset + len pattern)) as (offs & -> & Hlen & _ & Hreb); [lia|lia|].
        cbn [mbind outcome_bind]. eexists. split; [done|]. split; [rewrite len_cons; lia|].
        split; [by rewrite Hoc|]. intros source Hs. cbn [rebuild].
        rewrite Hgap, Hwin by done. cbn [mbind outcome_bind]. rewrite Hreb by lia.
        cbn [mbind outcome_bind]. rewrite slice_nil_at. cbn [app].
        pose proof (ref_match all _ Hocc) as Hm. rewrite Hall in Hm. by rewrite Hm, Hdd.
      * eexists. split; [done|]. split; [change (len [offset]) with 1; lia|].
        split; [by rewrite Hoc|]. intros source Hs. cbn [rebuild].
        rewrite Hgap, Hwin by done. cbn [mbind outcome_bind].
        rewrite sub_slice_eq, slice_to_end by lia. cbn [mbind outcome_bind].
        pose proof (ref_match all _ Hocc) as Hm. rewrite Hall in Hm. by rewrite Hm, Hdd.
    + destruct (get_is_Some bytes offset) as [b Hb]; [lia|].
      assert (drop (Z.to_nat offset) bytes = b :: drop (Z.to_nat (offset + 1)) bytes) as Hdrop.
      { rewrite get_lookup in Hb by lia. rewrite (drop_S _ _ _ Hb). do 2 f_equal. lia. }
      destruct (IH (offset + 1)) as (offs & -> & Hlen & Hnil & Hreb); [lia|lia|].
      exists offs. split; [done|]. split; [lia|]. split.
      { rewrite Hnil, Hdrop. cbn [occurs]. by rewrite <-Hdrop, Hocc. }
      intros source Hs. rewrite Hreb, (slice_snoc _ _ _ b), <-app_assoc by (done || lia).
      rewrite Hdrop in *. cbn [rewriting]. by rewrite Hocc.
  - exists []. split; [done|]. split; [rewrite len_nil; lia|]. split.
    { by rewrite occurs_short by lia. }
    intros source Hs. cbn [rebuild]. rewrite sub_slice_eq by lia. rewrite ref_short by lia.
    f_equal. rewrite slice_to_end by lia. unfold slice.
    replace (Z.to_nat offset) with (Z.to_nat source + Z.to_nat (offset - source))%nat by lia.
    rewrite <-drop_drop. by rewrite take_drop.
Qed.

(** The whole search followed by the rebuilding of the packet. *)
Lemma findOffsets_spec all bytes :
  ∃ offsets, findOffsets pattern bytes all = Ok offsets ∧
    len pattern * len offsets ≤ len bytes ∧
    (offsets = [] ↔ occurs pattern bytes = false) ∧
    rebuild (len pattern) replacement bytes 0 offsets = Ok (ref all 0 bytes).
Proof using pattern_nonempty replacement_fits.
  unfold findOffsets. pose proof (len_nonneg bytes).
  destruct (Z.ltb_spec (len bytes) (len pattern)) as [Hs|Hs].
  - exists []. split; [done|]. split; [rewrite len_nil; lia|].
    split; [by rewrite occurs_short|]. cbn [rebuild].
    by rewrite sub_slice_eq, slice_full, ref_short by lia.
  - destruct (find_rebuild all bytes (S (length bytes)) 0) as (offs & H1 & H2 & H3 & H4);
      [lia|unfold len in *; lia|].
    exists offs. split; [done|]. split; [lia|]. split; [done|].
    rewrite H4, slice_nil_at by lia. done.
Qed.
End rewriting.

(** ** Rules *)
Lemma applyReplacement_spec rule bytes p r offsets :
  cr_pattern rule = Some p → cr_replacement rule = Some r → len r ≤ len p →
  len bytes ≤ usize_max → len p * len offsets ≤ len bytes →
  applyReplacement rule bytes offsets = rebuild (len p) r bytes 0 offsets.
Proof.
  intros Hp Hr Hle Hu Hn. unfold applyReplacement. rewrite Hp, Hr. cbn [expect mbind outcome_bind].
  pose proof (len_nonneg p). pose proof (len_nonneg r). pose proof (len_nonneg offsets).
  assert (∀ n, 0 ≤ n ≤ len bytes → usize n = Ok n) as Hus.
  { intros n ?. unfold usize. rewrite (proj2 (Z.leb_le 0 n)), (proj2 (Z.leb_le n usize_max)) by lia. done. }
  assert (len r * len offsets ≤ len p * len offsets) by (apply Z.mul_le_mono_nonneg_r; lia).
  do 4 (rewrite Hus by nia; cbn [mbind outcome_bind]). done.
Qed.

Lemma unmatched : false = true ↔ is_Some (@None (list Z)).
Proof. split; [done|]. by intros [? ?]. Qed.

Lemma matchingOffsets_spec rule metadata direction bytes :
  RuleOk rule →
  ∃ offsets, matchingOffsets rule metadata direction bytes = Ok offsets ∧
    (matchesMetadata rule metadata direction (len bytes)
     && from_option (λ pattern, occurs pattern bytes) true (cr_pattern rule) = true ↔ is_Some offsets) ∧
    ∀ l, offsets = Some l → cr_action rule = Modify → len bytes ≤ usize_max →
      applyReplacement rule bytes l
      = Ok (rewriting (default [] (cr_pattern rule)) (default [] (cr_replacement rule))
              (cr_replaceAll rule) 0 bytes).
Proof.
  intros [Hne Hmod]. unfold matchingOffsets.
  destruct (matchesMetadata rule metadata direction (len bytes)); cbn [negb andb];
    [|exists None; split; [done|]; split; [apply unmatched|done]].
  destruct (cr_pattern rule) as [p|] eqn:Hp.
  - destruct (decide (cr_action rule = Modify)) as [Hm|Hm].
    + destruct (Hmod Hm) as (p' & r & [= <-] & Hr & Hle).
      destruct (findOffsets_spec p r (Hne _ eq_refl) Hle (cr_replaceAll rule) bytes)
        as (offs & -> & Hlen & Hnil & Hreb).
      cbn [mbind outcome_bind from_option default]. eexists. split; [done|]. split.
      * destruct offs; [rewrite (proj1 Hnil eq_refl); apply unmatched|].
        split; [done|]. intros _. apply not_false_iff_true. by rewrite <-Hnil.
      * intros l Hl _ Hu. destruct offs as [|o offs]; [done|]. injection Hl as <-.
        rewrite (applyReplacement_spec _ _ p r) by done. by rewrite Hr.
    + destruct (findOffsets_spec p [] (Hne _ eq_refl) (len_nonneg p) (cr_replaceAll rule) bytes)
        as (offs & -> & _ & Hnil & _).
      cbn [mbind outcome_bind from_option default]. eexists. split; [done|]. split; [|done].
      destruct offs; [rewrite (proj1 Hnil eq_refl); apply unmatched|].
      split; [done|]. intros _. apply not_false_iff_true. by rewrite <-Hnil.
  - exists (Some [0]). split; [done|]. split; [done|].
    intros l _ Hm. destruct (Hmod Hm) as (? & ? & ? & _). done.
Qed.

Lemma processRules_spec rules metadata direction bytes :
  Forall RuleOk rules → len bytes ≤ usize_max →
  processRules rules metadata direction bytes = Ok (filtered rules metadata direction bytes).
Proof.
  intros Hr. revert bytes. induction Hr as [|rule rules Hrule _ IH]; intros bytes Hu; [done|].
  cbn [processRules filtered].
  destruct (matchingOffsets_spec rule metadata direction bytes Hrule) as (offs & -> & Hiff & Happ).
  cbn [mbind outcome_bind]. destruct offs as [offs|].
  - rewrite (proj2 Hiff) by done. destruct (cr_action rule) eqn:Ha; [|done..].
    rewrite (Happ _ eq_refl eq_refl Hu). cbn [mbind outcome_bind].
    destruct (cr_continueMatching rule); [|done]. apply IH.
    destruct (ro_modify _ Hrule Ha) as (p & r & Hp & Hr' & Hle). rewrite Hp, Hr'. cbn [default].
    pose proof (ref_length p r (ro_pattern _ Hrule _ Hp) Hle (cr_replaceAll rule) bytes). cbn. lia.
  - destruct (_ && _) eqn:Hc; [by destruct (proj1 Hiff eq_refl)|]. by apply IH.
Qed.

(** ** Compilation *)
Lemma collect_length {E A B} (f : A → outcome E B) l : Satisfies (collect f l) (λ r, length r = length l) (λ _, True)
  ∨ collect f l = Panic.
Proof.
  induction l as [|a l IH]; [by left|]. cbn [collect]. destruct (f a); [|by left|by right].
  cbn [mbind outcome_bind]. destruct IH as [IH| ->]; [|by right].
  destruct (collect f l); [|by left|by right]. left. cbn in *. by f_equal.
Qed.

Lemma parseToken_no_panic w token : parseToken w token ≠ Panic.
Proof.
  unfold parseToken. case_if H1; [done|]. case_if H2; [|done]. by destruct (from_str_radix _ _ _).
Qed.

Lemma collect_no_panic {E A B} (f : A → outcome E B) l : (∀ a, f a ≠ Panic) → collect f l ≠ Panic.
Proof.
  intros Hf. induction l as [|a l IH]; [done|]. cbn [collect]. specialize (Hf a).
  destruct (f a); [|done..]. cbn [mbind outcome_bind]. by destruct (collect f l).
Qed.

Lemma parseBytePattern_spec value w :
  Satisfies (parseBytePattern value w)
    (λ o, ∀ p, o = Some p → p ≠ [] ∧ len p ≤ MAXIMUM_PATTERN_TOKENS) (λ _, True).
Proof.
  unfold parseBytePattern. case_if H0; [done|]. apply satisfies_bind, satisfies_check; [|done].
  intros Hg. apply negb_true_iff, orb_false_iff in Hg as [Hg1%Z.eqb_neq Hg2%Z.ltb_ge].
  set (tokens := split_ascii_whitespace (trim value)) in *.
  pose proof (collect_no_panic (parseToken w) tokens (parseToken_no_panic w)) as Hnp.
  destruct (collect_length (parseToken w) tokens) as [Hl|]; [|done].
  destruct (collect (parseToken w) tokens) as [l| |]; [|done..]. cbn in *.
  intros p [= <-]. unfold len in *. rewrite Hl. split; [|done]. intros ->. cbn in Hl. lia.
Qed.

Lemma compileBytePatterns_spec rule :
  Satisfies (compileBytePatterns rule)
    (λ '(pattern, replacement), (∀ p, pattern = Some p → p ≠ []) ∧
       (pf_action rule = Modify →
        ∃ p r, pattern = Some p ∧ replacement = Some r ∧ len r ≤ len p)) (λ _, True).
Proof.
  unfold compileBytePatterns, parsePattern. apply satisfies_bind, satisfies_map_err.
  eapply satisfies_mono; [..|apply parseBytePattern_spec]; [|done]. intros pattern Hp.
  case_bool_decide as Ha.
  - apply satisfies_bind, satisfies_check; [|done]. intros _. split; [|done]. intros p Hq. by apply Hp.
  - apply satisfies_bind, satisfies_ok_or; [|done]. intros p ->. destruct (Hp p eq_refl) as [Hne _].
    apply satisfies_bind, satisfies_map_err.
    eapply satisfies_mono; [..|apply parseBytePattern_spec]; [|done]. intros parsed _.
    apply satisfies_bind, satisfies_ok_or; [|done]. intros r ->. cbn zeta. unfold resizeWildcards.
    destruct (Z.ltb_spec (len p) (len r)) as [Hlt|Hge].
    + split; [intros q [= <-]; by destruct p|]. intros _. eexists _, _. split; [done|]. split; [done|].
      rewrite len_app. unfold len in *. rewrite length_replicate. lia.
    + split; [by intros q [= <-]|]. intros _. by eexists _, _.
Qed.

Lemma compileRule_spec identifiers rule :
  Satisfies (compileRule identifiers rule)
    (λ compiled, RuleOk compiled ∧ (pf_id rule ∉ identifiers) ∧ (compileRule [] rule = Ok compiled))
    (λ _, True).
Proof.
  unfold compileRule. apply satisfies_bind, satisfies_check; [|done]. intros ->.
  apply satisfies_bind, satisfies_check; [|done]. intros Hid%negb_true_iff%bool_decide_eq_false.
  apply satisfies_bind, satisfies_check; [|done]. intros ->. apply satisfies_bind.
  destruct (validateHost (pf_host rule)) as [host| |] eqn:Hh; [|done|by unfold validateHost in Hh; case_match].
  apply satisfies_bind. destruct (validateLengths _ _) as [[]| |] eqn:Hl; [|done|by unfold validateLengths, check in Hl; case_match].
  apply satisfies_bind. pose proof (compileBytePatterns_spec rule) as Hp.
  destruct (compileBytePatterns rule) as [[pattern replacement]| |]; [|done..].
  destruct Hp as [Hp Hm]. apply satisfies_ret. split; [by constructor|]. split; [done|].
  by rewrite bool_decide_false by set_solver.
Qed.

(** A rule on its own compiles to the given one. *)
Definition compilesTo (rule : PacketFilterRule) (compiled : CompiledRule) : Prop :=
  compileRule [] rule = Ok compiled.

Lemma compileRules_spec rules : ∀ identifiers,
  Satisfies (compileRules identifiers rules)
    (λ compiled, Forall RuleOk compiled ∧
       Forall2 compilesTo (filter (λ r, pf_enabled r = true) rules) compiled ∧
       NoDup (pf_id <$> rules) ∧ (∀ r, r ∈ rules → pf_id r ∉ identifiers)) (λ _, True).
Proof.
  induction rules as [|rule rules IH]; intros identifiers; cbn [compileRules].
  { apply satisfies_ret. split; [done|]. split; [constructor|]. split; [constructor|set_solver]. }
  apply satisfies_bind. eapply satisfies_mono; [..|apply compileRule_spec]; [|done].
  intros compiled (Hok & Hid & Hact). apply satisfies_bind.
  eapply satisfies_mono; [..|apply IH]; [|done]. intros rest (Hall & Hmap & Hnd & Hfresh).
  apply satisfies_ret. split; [destruct (pf_enabled rule); [by constructor|done]|].
  split; [rewrite filter_cons; destruct (pf_enabled rule) eqn:He; rewrite ?decide_True, ?decide_False by done;
          [by constructor|done]|].
  split.
  - rewrite fmap_cons. apply NoDup_cons. split; [|done].
    intros (r & Heq & Hin)%list_elem_of_fmap. specialize (Hfresh r Hin). set_solver.
  - intros r [->|Hin]%elem_of_cons; [done|]. specialize (Hfresh r Hin). set_solver.
Qed.

Lemma compileConfiguration_spec configuration :
  Satisfies (compileConfiguration configuration)
    (λ compiled, cc_source compiled = configuration ∧ Forall RuleOk (cc_rules compiled) ∧
       len (pc_rules configuration) ≤ MAXIMUM_RULES ∧
       NoDup (pf_id <$> pc_rules configuration) ∧
       Forall2 compilesTo (filter (λ r, pf_enabled r = true) (pc_rules configuration))
         (cc_rules compiled)) (λ _, True).
Proof.
  unfold compileConfiguration. apply satisfies_bind, satisfies_check; [|done].
  intros Hlen%negb_true_iff%Z.ltb_ge. apply satisfies_bind.
  eapply satisfies_mono; [..|apply compileRules_spec]; [|done].
  intros rules (Hok & Hmap & Hnd & _). apply satisfies_ret. done.
Qed.

(** C11: The packet filters do what their rules say.  Compiling any configuration
    ends without panic; the accepted ones have at most 256 rules with distinct
    identifiers, of which the enabled ones are compiled, each on its own, in order;
    and on any packet the compiled rules compute the reference: rules in order, each matching on the connection and on the occurrence of its pattern, a
    modifying rule making one left-to-right pass that replaces non-overlapping
    windows, and the first rule without continuation ending the chain. *)
Theorem packet_filters_refine_reference configuration metadata direction bytes :
  len bytes ≤ usize_max →
  Satisfies (compileConfiguration configuration)
    (λ compiled,
       len (pc_rules configuration) ≤ MAXIMUM_RULES ∧
       NoDup (pf_id <$> pc_rules configuration) ∧
       Forall2 compilesTo (filter (λ r, pf_enabled r = true) (pc_rules configuration))
         (cc_rules compiled) ∧
       process compiled metadata direction bytes
       = Ok (if pc_enabled configuration
             then filtered (cc_rules compiled) metadata direction bytes else Forwarded bytes))
    (λ _, True).
Proof.
  intros Hu. eapply satisfies_mono; [..|apply compileConfiguration_spec]; [|done].
  intros compiled (Hsrc & Hok & Hlen & Hnd & Hmap). do 3 (split; [done|]).
  unfold process. rewrite Hsrc. destruct (pc_enabled configuration); [|done].
  by apply processRules_spec.
Qed.

(** Filtering never lengthens a packet.  Whatever rules are configured, what
    is forwarded is not longer than what was received. *)
Theorem packet_filters_never_grow configuration compiled metadata direction bytes output :
  compileConfiguration configuration = Ok compiled → len bytes ≤ usize_max →
  process compiled metadata direction bytes = Ok (Forwarded output) → len output ≤ len bytes.
Proof.
  intros Hc Hu. pose proof (compileConfiguration_spec configuration) as Hs. rewrite Hc in Hs.
  destruct Hs as (_ & Hok & _). unfold process. case_if He; [by intros [= <-]|].
  rewrite processRules_spec by done. clear Hc He. revert bytes Hu.
  induction Hok as [|rule rules Hrule _ IH]; intros bytes Hu; cbn [filtered]; [by intros [= <-]|].
  case_if Hm; [|by apply IH]. destruct (cr_action rule) eqn:Ha; [|done..].
  destruct (ro_modify _ Hrule Ha) as (p & r & Hp & Hr & Hle). rewrite Hp, Hr. cbn [default].
  pose proof (ref_length p r (ro_pattern _ Hrule _ Hp) Hle (cr_replaceAll rule) bytes) as Hl.
  cbn. destruct (cr_continueMatching rule); [|by intros [= <-]].
  intros Hout. apply IH in Hout; lia.
Qed.
