(* ===== verification/WireDiff.v ===== *)
(** * Differences between the bytes read and the bytes written

    Model of [deriveWireByteModifications] of
    [Server/Backend/PluginHost/src/extensionDataPlane.rs], which the recorder stores
    in place of the original bytes, and the proof that the original can be rebuilt
    from it. *)

From S2P Require Import Prelude.

Record WireByteModification := {
  wm_offsetBytes : Z;
  wm_originalBytes : list Z;
  wm_modifiedBytes : list Z
}.

(** The inner loop: the first offset from [offset] on where the bytes agree. *)
Fixpoint runEnd (fuel : nat) (original modified : list Z) (offset : Z) : outcome unit Z :=
  match fuel with
  | O => Panic
  | S fuel =>
      if offset <? len original then
        a ← idx original offset;
        b ← idx modified offset;
        if negb (a =? b) then runEnd fuel original modified (offset + 1) else Ok offset
      else Ok offset
  end.

(** The loop over bodies of equal length. *)
Fixpoint equalLengthLoop (fuel : nat) (original modified : list Z) (offset : Z)
    : outcome unit (list WireByteModification) :=
  match fuel with
  | O => Panic
  | S fuel =>
      if offset <? len original then
        a ← idx original offset;
        b ← idx modified offset;
        if a =? b then equalLengthLoop fuel original modified (offset + 1)
        else
          let start := offset in
          offset ← runEnd (S (length original)) original modified offset;
          o ← sub_slice original start offset;
          m ← sub_slice modified start offset;
          rest ← equalLengthLoop fuel original modified offset;
          Ok ({| wm_offsetBytes := start; wm_originalBytes := o; wm_modifiedBytes := m |} :: rest)
      else Ok []
  end.

(** [zip], [take_while] of equal pairs, [count]. *)
Fixpoint commonPrefix (l1 l2 : list Z) : Z :=
  match l1, l2 with
  | a :: l1, b :: l2 => if a =? b then 1 + commonPrefix l1 l2 else 0
  | _, _ => 0
  end.

Definition deriveWireByteModifications (original modified : list Z)
    : outcome unit (list WireByteModification) :=
  if bool_decide (original = modified) then Ok []
  else if len original =? len modified then
    equalLengthLoop (S (length original)) original modified 0
  else
    let prefixBytes := commonPrefix original modified in
    let maximumSuffixBytes :=
      Z.min (saturating_sub (len original) prefixBytes) (saturating_sub (len modified) prefixBytes) in
    let suffixBytes :=
      commonPrefix (take (Z.to_nat maximumSuffixBytes) (reverse original))
        (take (Z.to_nat maximumSuffixBytes) (reverse modified)) in
    o ← sub_slice original prefixBytes (len original - suffixBytes);
    m ← sub_slice modified prefixBytes (len modified - suffixBytes);
    Ok [{| wm_offsetBytes := prefixBytes; wm_originalBytes := o; wm_modifiedBytes := m |}].

(** ** Rebuilding the original *)

(** [body] with a modification undone at its offset. *)
Definition undo (m : WireByteModification) (body : list Z) : list Z :=
  slice body 0 (wm_offsetBytes m) ++ wm_originalBytes m ++
  slice body (wm_offsetBytes m + len (wm_modifiedBytes m)) (len body).

(** A recorded change is a real one. *)
Definition changes (m : WireByteModification) : Prop := wm_originalBytes m ≠ wm_modifiedBytes m.

Lemma commonPrefix_spec l1 l2 :
  0 ≤ commonPrefix l1 l2 ≤ Z.min (len l1) (len l2) ∧
  take (Z.to_nat (commonPrefix l1 l2)) l1 = take (Z.to_nat (commonPrefix l1 l2)) l2.
Proof.
  revert l2. induction l1 as [|a l1 IH]; intros l2.
  { cbn. pose proof (len_nonneg l2). change (len []) with 0. split; [lia|done]. }
  pose proof (len_nonneg l1). destruct l2 as [|b l2].
  { cbn [commonPrefix]. rewrite len_cons. change (len []) with 0. split; [lia|done]. }
  pose proof (len_nonneg l2). cbn [commonPrefix]. rewrite !len_cons.
  destruct (Z.eqb_spec a b) as [->|]; [|split; [lia|done]].
  destruct (IH l2) as [Hr Ht]. split; [lia|].
  replace (Z.to_nat (1 + commonPrefix l1 l2)) with (S (Z.to_nat (commonPrefix l1 l2))) by lia.
  cbn. by f_equal.
Qed.

(** The original up to [k], the modified body from there on. *)
Definition hybrid (original modified : list Z) (k : Z) : list Z :=
  slice original 0 k ++ slice modified k (len modified).

Section equal_length.
Context (original modified : list Z).
Hypothesis same_length : len original = len modified.

Abbreviation mixed := (hybrid original modified).

Lemma undo_run start stop :
  0 ≤ start ≤ stop → stop ≤ len original →
  undo {| wm_offsetBytes := start; wm_originalBytes := slice original start stop;
          wm_modifiedBytes := slice modified start stop |} (mixed start) = mixed stop.
Proof using same_length.
  intros H1 H2. unfold undo, hybrid. cbn.
  assert (len (slice original 0 start) = start) as Ho by (rewrite len_slice; lia).
  assert (len (slice modified start stop) = stop - start) as Hm by (rewrite len_slice; lia).
  assert (len (slice modified stop (len modified)) = len modified - stop) as He
    by (rewrite len_slice; lia).
  rewrite (slice_split modified start stop (len modified)) by lia.
  assert (∀ l, slice (slice original 0 start ++ l) 0 start = slice original 0 start) as ->.
  { intros l. pose proof (slice_app_1 (slice original 0 start) l) as Hs. by rewrite Ho in Hs. }
  rewrite (slice_split original 0 start stop), <-app_assoc by lia. do 2 f_equal.
  rewrite app_assoc, !len_app, Ho, Hm, He.
  replace (start + (stop - start)) with (len (slice original 0 start ++ slice modified start stop))
    by (rewrite len_app; lia).
  rewrite <-He. apply slice_app_2.
Qed.

Lemma mixed_step offset b :
  0 ≤ offset → get original offset = Some b → get modified offset = Some b →
  mixed (offset + 1) = mixed offset.
Proof using same_length.
  intros Ho Hb Hm. pose proof (get_Some_range _ _ _ Hb). unfold hybrid.
  rewrite (slice_snoc original 0 offset b) by (done || lia).
  rewrite (slice_cons modified offset (len modified) b) by (done || lia). by rewrite <-app_assoc.
Qed.

Lemma mixed_0 : mixed 0 = modified.
Proof. unfold hybrid. rewrite slice_nil_at. apply slice_full. Qed.

Lemma mixed_end : mixed (len original) = original.
Proof using same_length.
  unfold hybrid. rewrite slice_full, same_length, slice_nil_at. apply app_nil_r.
Qed.

Lemma runEnd_spec fuel offset :
  0 ≤ offset ≤ len original → len original - offset < Z.of_nat fuel →
  Satisfies (runEnd fuel original modified offset) (λ stop, offset ≤ stop ≤ len original ∧
    (get original offset ≠ get modified offset → offset < len original → offset < stop)) (λ _, False).
Proof using same_length.
  revert offset. induction fuel as [|fuel IH]; intros offset Ho Hf; [lia|]. cbn [runEnd].
  destruct (Z.ltb_spec offset (len original)); [|apply satisfies_ret; lia].
  destruct (get_is_Some original offset) as [a Ha]; [lia|].
  destruct (get_is_Some modified offset) as [b Hb]; [lia|].
  rewrite (idx_eq _ _ _ Ha), (idx_eq _ _ _ Hb). cbn [mbind outcome_bind].
  destruct (Z.eqb_spec a b) as [->|Hne]; cbn [negb].
  - apply satisfies_ret. split; [lia|]. by rewrite Ha, Hb.
  - eapply satisfies_mono; [..|apply IH]; [|done|lia|lia]. cbn. lia.
Qed.

Lemma equalLengthLoop_spec fuel offset :
  0 ≤ offset ≤ len original → len original - offset < Z.of_nat fuel →
  Satisfies (equalLengthLoop fuel original modified offset)
    (λ mods, fold_left (λ body m, undo m body) mods (mixed offset) = original ∧ Forall changes mods)
    (λ _, False).
Proof using same_length.
  revert offset. induction fuel as [|fuel IH]; intros offset Ho Hf; [lia|]. cbn [equalLengthLoop].
  destruct (Z.ltb_spec offset (len original)).
  2: { apply satisfies_ret. split; [|done]. cbn. by rewrite <-mixed_end at 2; f_equal; lia. }
  destruct (get_is_Some original offset) as [a Ha]; [lia|].
  destruct (get_is_Some modified offset) as [b Hb]; [lia|].
  rewrite (idx_eq _ _ _ Ha), (idx_eq _ _ _ Hb). cbn [mbind outcome_bind].
  destruct (Z.eqb_spec a b) as [->|Hne].
  { rewrite <-(mixed_step offset b) by (done || lia). apply IH; lia. }
  apply satisfies_bind. eapply satisfies_mono; [..|apply (runEnd_spec (S (length original)))];
    [|done|lia|unfold len in *; lia].
  intros stop [Hstop Hadv]. assert (offset < stop) as Hlt.
  { apply Hadv; [|done]. rewrite Ha, Hb. congruence. }
  rewrite !sub_slice_eq by lia. cbn [mbind outcome_bind]. apply satisfies_bind.
  eapply satisfies_mono; [..|apply IH]; [|done|lia|lia]. intros mods [Hfold Hch].
  apply satisfies_ret. split; [cbn [fold_left]; rewrite undo_run by lia; done|].
  constructor; [|done]. unfold changes. cbn [wm_originalBytes wm_modifiedBytes].
  rewrite (slice_cons original _ _ _ Ha), (slice_cons modified _ _ _ Hb) by lia. congruence.
Qed.
End equal_length.

Lemma take_reverse (l : list Z) k :
  (k ≤ length l)%nat → take k (reverse l) = reverse (drop (length l - k) l).
Proof.
  intros Hk. rewrite <-(take_drop (length l - k) l) at 1. rewrite reverse_app.
  apply take_app_length'. rewrite length_reverse, length_drop. lia.
Qed.

Lemma commonSuffix_spec (l1 l2 : list Z) room :
  0 ≤ room ≤ Z.min (len l1) (len l2) →
  let n := commonPrefix (take (Z.to_nat room) (reverse l1)) (take (Z.to_nat room) (reverse l2)) in
  0 ≤ n ≤ room ∧ slice l1 (len l1 - n) (len l1) = slice l2 (len l2 - n) (len l2).
Proof.
  intros Hr n. destruct (commonPrefix_spec (take (Z.to_nat room) (reverse l1))
    (take (Z.to_nat room) (reverse l2))) as [Hn Heq]. fold n in Hn, Heq.
  assert (∀ l : list Z, 0 ≤ room ≤ len l → len (take (Z.to_nat room) (reverse l)) = room) as Hlen.
  { intros l Hl. unfold len in *. rewrite length_take, length_reverse. lia. }
  rewrite !Hlen in Hn by lia. split; [lia|].
  rewrite !take_take, !Nat.min_l in Heq by lia.
  rewrite !take_reverse in Heq by (unfold len in *; lia).
  apply (f_equal reverse) in Heq. rewrite !reverse_involutive in Heq.
  rewrite !slice_to_end by lia. unfold len.
  replace (Z.to_nat (Z.of_nat (length l1) - n)) with (length l1 - Z.to_nat n)%nat by lia.
  by replace (Z.to_nat (Z.of_nat (length l2) - n)) with (length l2 - Z.to_nat n)%nat by lia.
Qed.

(** What undoing the differences gives. *)
Record Reversible (original modified : list Z) (mods : list WireByteModification) : Prop := {
  rv_original : fold_left (λ body m, undo m body) mods modified = original;
  rv_changes : Forall changes mods;
}.

Lemma derive_reversible original modified :
  Satisfies (deriveWireByteModifications original modified) (Reversible original modified) (λ _, False).
Proof.
  unfold deriveWireByteModifications. case_bool_decide as Heq; [subst; by split|].
  pose proof (len_nonneg original). pose proof (len_nonneg modified).
  destruct (Z.eqb_spec (len original) (len modified)) as [Hl|Hl].
  { pose proof (equalLengthLoop_spec original modified Hl (S (length original)) 0) as Hloop.
    rewrite mixed_0 in Hloop.
    eapply satisfies_mono; [..|apply Hloop]; [by intros mods []; split|done|lia|unfold len; lia]. }
  destruct (commonPrefix_spec original modified) as [Hp Hpre].
  set (prefixBytes := commonPrefix original modified) in *.
  assert (∀ n, prefixBytes ≤ n → saturating_sub n prefixBytes = n - prefixBytes) as Hsat.
  { intros n ?. unfold saturating_sub. lia. }
  rewrite !Hsat by lia.
  set (room := Z.min _ _). set (suffixBytes := commonPrefix (take _ _) _).
  destruct (commonSuffix_spec original modified room) as [Hs Hsuf]; [unfold room; lia|].
  fold suffixBytes in Hs, Hsuf.
  rewrite !sub_slice_eq by lia. cbn [mbind outcome_bind]. apply satisfies_ret. split.
  - cbn [fold_left]. unfold undo. cbn [wm_offsetBytes wm_originalBytes wm_modifiedBytes].
    rewrite len_slice by lia.
    replace (prefixBytes + (len modified - suffixBytes - prefixBytes)) with (len modified - suffixBytes) by lia.
    rewrite <-Hsuf. assert (slice modified 0 prefixBytes = slice original 0 prefixBytes) as ->.
    { unfold slice. by rewrite Z.sub_0_r. }
    rewrite <-!slice_split by lia. apply slice_full.
  - constructor; [|done]. unfold changes. cbn. intros He. apply (f_equal len) in He.
    rewrite !len_slice in He by lia. lia.
Qed.

(** C40: The recorder can rebuild what was read.  Deriving the differences ends
    without panic for any two bodies; undoing them on the body written gives back
    exactly the body read; and every recorded difference is a real one. *)
Theorem wire_modifications_reversible original modified :
  Satisfies (deriveWireByteModifications original modified)
    (λ mods, fold_left (λ body m, undo m body) mods modified = original ∧ Forall changes mods)
    (λ _, False).
Proof. eapply satisfies_mono, derive_reversible; [by intros mods []|done]. Qed.
