(* ===== verification/StreamTransformer.v ===== *)
(** * The stream transformer session

    Model of [Server/Backend/PluginHost/src/streamTransformer.rs]: bytes of a TCP
    stream are buffered per direction and handed to a plugin that cuts them into
    frames; the host validates every decision before it publishes output.

    The plugin is a parameter: a state and a function from its state and the window
    to its next state and an answer, which may be any decision, an error, or no
    answer within the deadline.  The lock of a direction makes [process] on that
    direction one step. *)

From S2P Require Import Prelude Stateful PacketFilters.

Definition MAXIMUM_STREAM_BUFFER_BYTES : Z := 16 * 1024 * 1024.
Definition MAXIMUM_OUTPUT_FRAMES_PER_DECISION : Z := 1024.
Definition MAXIMUM_DECODED_FIELDS_PER_FRAME : Z := 16384.

Section session.
(** [J] is the type of JSON values, [T] the state of the plugin. *)
Context {J T : Type}.

Record DecodedField := {
  df_path : list Z;
  df_valueType : list Z;
  df_value : J;
  df_offset : Z;
  df_length : Z;
  df_editable : bool
}.

Record DecodedFrame := {
  dr_frameType : list Z;
  dr_protocolVersion : option (list Z);
  dr_correlationId : option (list Z);
  dr_fields : list DecodedField;
  dr_annotations : list J
}.

Record StreamOutputFrame := {
  of_wireBytes : list Z;
  of_decoded : option DecodedFrame
}.

Record StreamInput := {
  si_connectionId : Z;
  si_direction : StreamDirection;
  si_bytes : list Z;
  si_endOfStream : bool
}.

(** The plugin's [usize]s are natural numbers. *)
Inductive StreamTransformDecision :=
| NeedMore (minimumAdditionalBytes : N)
| Emit (consumedBytes : N) (outputFrames : list StreamOutputFrame)
| DropBytes (consumedBytes : N) (decoded : option DecodedFrame)
| CloseStream (reason : list Z).

Inductive StreamTransformError := BufferExceeded | Timeout | RuntimeFailed | InvalidDecision | StreamClosed.

(** What a call of the plugin comes to. *)
Inductive Answer :=
| Decided (decision : StreamTransformDecision)
| Failure (e : StreamTransformError)
| Late.

Abbreviation checking := (outcome StreamTransformError) (only parsing).

(** ** Validation *)
Definition validateDecoded (decoded : option DecodedFrame) : checking unit :=
  match decoded with
  | None => Ok tt
  | Some decoded =>
      _ ← check (negb ((len (dr_frameType decoded) =? 0)
                       || (MAXIMUM_DECODED_FIELDS_PER_FRAME <? len (dr_fields decoded)))) InvalidDecision;
      check (negb (existsb (λ field, (len (df_path field) =? 0)
                                      || (usize_max <? df_offset field + df_length field))
                     (dr_fields decoded))) InvalidDecision
  end.

Definition validateConsumed (availableBytes consumedBytes : Z) : checking unit :=
  check (negb ((consumedBytes =? 0) || (availableBytes <? consumedBytes))) InvalidDecision.

(** The [try_fold] over the frames. *)
Fixpoint outputSize (total : Z) (frames : list StreamOutputFrame) : checking Z :=
  match frames with
  | [] => Ok total
  | frame :: frames =>
      _ ← validateDecoded (of_decoded frame);
      _ ← check (total + len (of_wireBytes frame) <=? usize_max) InvalidDecision;
      outputSize (total + len (of_wireBytes frame)) frames
  end.

Definition validateDecision (availableBytes consumedBytes : Z) (outputFrames : list StreamOutputFrame)
    (remainingOutputBytes : Z) : checking unit :=
  _ ← validateConsumed availableBytes consumedBytes;
  _ ← check (negb ((len outputFrames =? 0) || (MAXIMUM_OUTPUT_FRAMES_PER_DECISION <? len outputFrames)))
        InvalidDecision;
  outputBytes ← outputSize 0 outputFrames;
  check (negb (remainingOutputBytes <? outputBytes)) InvalidDecision.

(** ** The session *)
Record DirectionBuffer := {
  db_bytes : list Z;
  db_endOfStream : bool
}.

Definition DirectionBuffer_new : DirectionBuffer := {| db_bytes := []; db_endOfStream := false |}.

Record StreamTransformerSession := {
  ss_connectionId : Z;
  ss_transformer : T;
  ss_up : DirectionBuffer;
  ss_down : DirectionBuffer;
  ss_maximumBufferedBytes : Z;
  ss_maximumOutputBytes : Z;
  ss_closed : bool
}.

Definition StreamTransformerSession_new (connectionId : Z) (transformer : T) (timeout : Z)
    (maximumBufferedBytes maximumOutputBytes : Z) : checking StreamTransformerSession :=
  _ ← check (negb ((timeout =? 0) || (maximumBufferedBytes =? 0)
                   || (MAXIMUM_STREAM_BUFFER_BYTES <? maximumBufferedBytes)
                   || (maximumOutputBytes =? 0))) InvalidDecision;
  Ok {| ss_connectionId := connectionId; ss_transformer := transformer;
        ss_up := DirectionBuffer_new; ss_down := DirectionBuffer_new;
        ss_maximumBufferedBytes := maximumBufferedBytes;
        ss_maximumOutputBytes := maximumOutputBytes; ss_closed := false |}.

Definition directionBuffer (direction : StreamDirection) (s : StreamTransformerSession) : DirectionBuffer :=
  match direction with ClientToServer => ss_up s | ServerToClient => ss_down s end.

Definition set_buffer (direction : StreamDirection) (b : DirectionBuffer) (s : StreamTransformerSession)
    : StreamTransformerSession :=
  {| ss_connectionId := ss_connectionId s; ss_transformer := ss_transformer s;
     ss_up := match direction with ClientToServer => b | ServerToClient => ss_up s end;
     ss_down := match direction with ClientToServer => ss_down s | ServerToClient => b end;
     ss_maximumBufferedBytes := ss_maximumBufferedBytes s;
     ss_maximumOutputBytes := ss_maximumOutputBytes s; ss_closed := ss_closed s |}.

Definition set_transformer (t : T) (s : StreamTransformerSession) : StreamTransformerSession :=
  {| ss_connectionId := ss_connectionId s; ss_transformer := t; ss_up := ss_up s; ss_down := ss_down s;
     ss_maximumBufferedBytes := ss_maximumBufferedBytes s;
     ss_maximumOutputBytes := ss_maximumOutputBytes s; ss_closed := ss_closed s |}.

(** [directionBuffer.bytes.drain(..consumedBytes)]. *)
Definition drain (direction : StreamDirection) (consumedBytes : Z) (s : StreamTransformerSession)
    : StreamTransformerSession :=
  let b := directionBuffer direction s in
  set_buffer direction
    {| db_bytes := drop (Z.to_nat consumedBytes) (db_bytes b); db_endOfStream := db_endOfStream b |} s.

Abbreviation onSession := (stateful StreamTransformerSession StreamTransformError) (only parsing).

(** The plugin: [transform] and [close]. *)
Context (transform : T → StreamInput → T * Answer) (onClose : Z → T → T).

(** [timeout(self.timeout, self.transformer.transform(input)).await]. *)
Definition callTransformer (direction : StreamDirection) : onSession StreamTransformDecision :=
  s ← gets id;
  let b := directionBuffer direction s in
  let '(t, answer) := transform (ss_transformer s)
    {| si_connectionId := ss_connectionId s; si_direction := direction; si_bytes := db_bytes b;
       si_endOfStream := db_endOfStream b |} in
  _ ← modify (set_transformer t);
  match answer with
  | Decided decision => mret decision
  | Failure e => fail e
  | Late => fail Timeout
  end.

Definition frameBytes (frames : list StreamOutputFrame) : Z :=
  foldr (λ f n, len (of_wireBytes f) + n) 0 frames.

(** The loop of [process]; the staged frames are the result. *)
Fixpoint transformLoop (fuel : nat) (direction : StreamDirection)
    (stagedOutput : list StreamOutputFrame) (stagedOutputBytes : Z)
    : onSession (list StreamOutputFrame) :=
  match fuel with
  | O => lift Panic
  | S fuel =>
      let continue stagedOutput stagedOutputBytes :=
        b ← gets (directionBuffer direction);
        if len (db_bytes b) =? 0 then mret stagedOutput
        else transformLoop fuel direction stagedOutput stagedOutputBytes in
      decision ← callTransformer direction;
      s ← gets id;
      let b := directionBuffer direction s in
      match decision with
      | NeedMore minimumAdditionalBytes =>
          if (Z.of_N minimumAdditionalBytes =? 0) || db_endOfStream b
             || (ss_maximumBufferedBytes s <? len (db_bytes b) + Z.of_N minimumAdditionalBytes)
          then fail InvalidDecision
          else mret stagedOutput
      | Emit consumedBytes outputFrames =>
          _ ← lift (validateDecision (len (db_bytes b)) (Z.of_N consumedBytes) outputFrames
                      (saturating_sub (ss_maximumOutputBytes s) stagedOutputBytes));
          let stagedOutputBytes :=
            saturating_add stagedOutputBytes (frameBytes outputFrames) in
          _ ← modify (drain direction (Z.of_N consumedBytes));
          continue (stagedOutput ++ outputFrames) stagedOutputBytes
      | DropBytes consumedBytes decoded =>
          _ ← lift (validateConsumed (len (db_bytes b)) (Z.of_N consumedBytes));
          _ ← lift (validateDecoded decoded);
          _ ← modify (drain direction (Z.of_N consumedBytes));
          continue stagedOutput stagedOutputBytes
      | CloseStream _ => fail StreamClosed
      end
  end.

Definition process (direction : StreamDirection) (bytes : list Z) (endOfStream : bool)
    : onSession (list StreamOutputFrame) :=
  s ← gets id;
  if ss_closed s then fail StreamClosed
  else
    let b := directionBuffer direction s in
    let nextLength := len (db_bytes b) + len bytes in
    if usize_max <? nextLength then fail BufferExceeded
    else if ss_maximumBufferedBytes s <? nextLength then fail BufferExceeded
    else
      _ ← modify (set_buffer direction
                    {| db_bytes := db_bytes b ++ bytes;
                       db_endOfStream := db_endOfStream b || endOfStream |});
      if nextLength =? 0 then mret []
      else
        stagedOutput ← transformLoop (S (Z.to_nat nextLength)) direction [] 0;
        b ← gets (directionBuffer direction);
        if db_endOfStream b && negb (len (db_bytes b) =? 0) then fail InvalidDecision
        else mret stagedOutput.

Definition push (direction : StreamDirection) (bytes : list Z) := process direction bytes false.
Definition finish (direction : StreamDirection) := process direction [] true.

(** The plugin is told once, by the first close. *)
Definition close (s : StreamTransformerSession) : StreamTransformerSession :=
  if ss_closed s then s
  else {| ss_connectionId := ss_connectionId s;
          ss_transformer := onClose (ss_connectionId s) (ss_transformer s);
          ss_up := ss_up s; ss_down := ss_down s;
          ss_maximumBufferedBytes := ss_maximumBufferedBytes s;
          ss_maximumOutputBytes := ss_maximumOutputBytes s; ss_closed := true |}.
End session.
