(* ===== verification/StreamTransformerTheorems.v ===== *)
(** * Correctness of the stream transformer session

    Whatever the plugin answers, a session stays within its budgets, ends every
    call, and publishes exactly the frames of a run of the plugin over the bytes;
    for a plugin that decides on prefixes, how the bytes were cut into reads does
    not matter. *)

From S2P Require Import Prelude Stateful Text PacketFilters PacketFiltersTheorems StreamTransformer.

Section session.
Context {J T : Type} (transform : T → StreamInput → T * Answer (J := J)).
Abbreviation Session := (StreamTransformerSession (T := T)).
Abbreviation Frame := (StreamOutputFrame (J := J)).

(** ** Budgets *)
Record SessionOk (s : Session) : Prop := {
  so_up : len (db_bytes (ss_up s)) ≤ ss_maximumBufferedBytes s;
  so_down : len (db_bytes (ss_down s)) ≤ ss_maximumBufferedBytes s;
  so_buffer : ss_maximumBufferedBytes s ≤ MAXIMUM_STREAM_BUFFER_BYTES;
  so_output : 0 ≤ ss_maximumOutputBytes s ≤ usize_max
}.

(** What [process] on a direction leaves alone. *)
Record Untouched (direction : StreamDirection) (s s' : Session) : Prop := {
  un_id : ss_connectionId s' = ss_connectionId s;
  un_other d : d ≠ direction → directionBuffer d s' = directionBuffer d s;
  un_buffer : ss_maximumBufferedBytes s' = ss_maximumBufferedBytes s;
  un_output : ss_maximumOutputBytes s' = ss_maximumOutputBytes s;
  un_closed : ss_closed s' = ss_closed s
}.

(** ** A run of the plugin *)

(** The frames of a decision are ones the host lets through. *)
Definition framesOk (frames : list Frame) : Prop :=
  1 ≤ len frames ≤ MAXIMUM_OUTPUT_FRAMES_PER_DECISION ∧
  Forall (λ f, validateDecoded (of_decoded f) = Ok tt) frames.

Section run.
Context (connection : Z) (direction : StreamDirection) (eos : bool) (maximum : Z).

Definition window (bytes : list Z) : StreamInput :=
  {| si_connectionId := connection; si_direction := direction; si_bytes := bytes;
     si_endOfStream := eos |}.

(** [Run t w t' w' out]: from the plugin state [t] and the window [w], decisions of
    the plugin emit [out] and leave the window [w'] in the state [t']. *)
Inductive Run : T → list Z → T → list Z → list Frame → Prop :=
| run_done t : Run t [] t [] []
| run_wait t w t' n :
    w ≠ [] → transform t (window w) = (t', Decided (NeedMore n)) →
    n ≠ 0%N → eos = false → len w + Z.of_N n ≤ maximum →
    Run t w t' w []
| run_emit t w t1 n frames t' w' out :
    w ≠ [] → transform t (window w) = (t1, Decided (Emit n frames)) →
    n ≠ 0%N → Z.of_N n ≤ len w → framesOk frames →
    Run t1 (drop (N.to_nat n) w) t' w' out →
    Run t w t' w' (frames ++ out)
| run_drop t w t1 n decoded t' w' out :
    w ≠ [] → transform t (window w) = (t1, Decided (DropBytes n decoded)) →
    n ≠ 0%N → Z.of_N n ≤ len w → validateDecoded decoded = Ok tt →
    Run t1 (drop (N.to_nat n) w) t' w' out →
    Run t w t' w' out.
End run.

(** ** Validation *)
Lemma validateDecoded_total (decoded : option (DecodedFrame (J := J))) :
  Satisfies (validateDecoded decoded) (λ _, True) (λ _, True).
Proof. destruct decoded; [|done]. cbn. by wp. Qed.

Lemma frameBytes_cons (f : Frame) fs : frameBytes (f :: fs) = len (of_wireBytes f) + frameBytes fs.
Proof. done. Qed.

Lemma frameBytes_nonneg (frames : list Frame) : 0 ≤ frameBytes frames.
Proof.
  induction frames as [|f fs IH]; [done|]. rewrite frameBytes_cons.
  pose proof (len_nonneg (of_wireBytes f)). lia.
Qed.

Lemma frameBytes_app (fs gs : list Frame) : frameBytes (fs ++ gs) = frameBytes fs + frameBytes gs.
Proof.
  induction fs as [|f fs IH]; [done|]. rewrite <-app_comm_cons, !frameBytes_cons. lia.
Qed.

Lemma outputSize_spec (frames : list Frame) : ∀ total, 0 ≤ total →
  Satisfies (outputSize total frames)
    (λ n, n = total + frameBytes frames ∧ Forall (λ f, validateDecoded (of_decoded f) = Ok tt) frames)
    (λ _, True).
Proof.
  induction frames as [|f fs IH]; intros total Ht; cbn [outputSize].
  { apply satisfies_ret. split; [change (frameBytes []) with 0; lia|done]. }
  pose proof (validateDecoded_total (of_decoded f)) as Hd. apply satisfies_bind.
  destruct (validateDecoded (of_decoded f)) as [[]| |] eqn:Hv; [|done..].
  apply satisfies_ret, satisfies_bind, satisfies_check; [|done]. intros _.
  pose proof (len_nonneg (of_wireBytes f)).
  eapply satisfies_mono; [..|apply IH]; [|done|lia]. intros n [-> Hall].
  rewrite frameBytes_cons. split; [lia|by constructor].
Qed.

Lemma outputSize_complete (frames : list Frame) : ∀ total, 0 ≤ total →
  Forall (λ f, validateDecoded (of_decoded f) = Ok tt) frames → total + frameBytes frames ≤ usize_max →
  outputSize total frames = Ok (total + frameBytes frames).
Proof.
  induction frames as [|f fs IH]; intros total Ht Hall Hb; cbn [outputSize].
  { f_equal. change (frameBytes []) with 0. lia. }
  rewrite frameBytes_cons in *. inversion_clear Hall as [|?? Hf Hfs]. rewrite Hf. cbn [mbind outcome_bind].
  pose proof (len_nonneg (of_wireBytes f)). pose proof (frameBytes_nonneg fs) as Hfn.
  rewrite (proj2 (Z.leb_le _ _)) by lia. cbn [check mbind outcome_bind].
  rewrite IH by (done || lia). f_equal. lia.
Qed.

Lemma validateConsumed_spec available consumed :
  Satisfies (validateConsumed available consumed) (λ _, consumed ≠ 0 ∧ consumed ≤ available) (λ _, True).
Proof.
  unfold validateConsumed. apply satisfies_check; [|done].
  intros [H1%Z.eqb_neq H2%Z.ltb_ge]%negb_true_iff%orb_false_iff. lia.
Qed.

Lemma validateDecision_spec available consumed (frames : list Frame) remaining :
  Satisfies (validateDecision available consumed frames remaining)
    (λ _, (consumed ≠ 0 ∧ consumed ≤ available) ∧ framesOk frames ∧ frameBytes frames ≤ remaining)
    (λ _, True).
Proof.
  unfold validateDecision. apply satisfies_bind.
  eapply satisfies_mono; [..|apply validateConsumed_spec]; [|done]. intros ? Hc.
  apply satisfies_bind, satisfies_check; [|done].
  intros [H1%Z.eqb_neq H2%Z.ltb_ge]%negb_true_iff%orb_false_iff. apply satisfies_bind.
  eapply satisfies_mono; [..|apply outputSize_spec]; [|done|lia]. intros n [-> Hall].
  apply satisfies_check; [|done]. intros H3%negb_true_iff%Z.ltb_ge.
  pose proof (len_nonneg frames). split; [exact Hc|]. split; [split; [lia|done]|lia].
Qed.

Lemma validateDecision_complete available consumed (frames : list Frame) remaining :
  consumed ≠ 0 → consumed ≤ available → framesOk frames → frameBytes frames ≤ remaining →
  remaining ≤ usize_max →
  validateDecision available consumed frames remaining = Ok tt.
Proof.
  intros H0 H1 [H2 H3] H4 H5. unfold validateDecision, validateConsumed.
  rewrite (proj2 (Z.eqb_neq _ _) H0), (proj2 (Z.ltb_ge _ _) H1). cbn [orb negb check mbind outcome_bind].
  rewrite (proj2 (Z.eqb_neq (len frames) 0)), (proj2 (Z.ltb_ge _ (len frames))) by lia.
  cbn [orb negb check mbind outcome_bind].
  rewrite outputSize_complete by (done || lia). cbn [mbind outcome_bind].
  by rewrite (proj2 (Z.ltb_ge _ _)) by lia.
Qed.

(** ** The loop *)
Section loop.
Context (direction : StreamDirection).
Implicit Types s : Session.

Abbreviation eos s := (db_endOfStream (directionBuffer direction s)).
Abbreviation buffered s := (db_bytes (directionBuffer direction s)).

Lemma untouched_refl s : Untouched direction s s.
Proof. by constructor. Qed.

Lemma untouched_trans s1 s2 s3 :
  Untouched direction s1 s2 → Untouched direction s2 s3 → Untouched direction s1 s3.
Proof.
  intros [A1 A2 A3 A4 A5] [B1 B2 B3 B4 B5]. constructor; try congruence.
  intros d Hd. by rewrite B2, A2.
Qed.

Lemma untouched_set_buffer b (s : Session) : Untouched direction s (set_buffer direction b s).
Proof. constructor; try done. intros d Hd. by destruct d, direction. Qed.

Lemma untouched_set_transformer t (s : Session) : Untouched direction s (set_transformer t s).
Proof. by constructor. Qed.

Lemma buffer_set_buffer b (s : Session) : directionBuffer direction (set_buffer direction b s) = b.
Proof. by destruct direction. Qed.

Lemma buffer_set_transformer t (s : Session) :
  directionBuffer direction (set_transformer t s) = directionBuffer direction s.
Proof. by destruct direction. Qed.

(** The run of the plugin behind a session. *)
Abbreviation RunOf s := (Run (ss_connectionId s) direction (eos s) (ss_maximumBufferedBytes s)).

(** Any call: the window only shrinks, from the front. *)
Definition Shrunk (s s' : Session) : Prop :=
  Untouched direction s s' ∧ eos s' = eos s ∧ ∃ k, buffered s' = drop k (buffered s).

Lemma shrunk_trans s1 s2 s3 : Shrunk s1 s2 → Shrunk s2 s3 → Shrunk s1 s3.
Proof.
  intros (U1 & E1 & k1 & B1) (U2 & E2 & k2 & B2). split; [by eapply untouched_trans|].
  split; [congruence|]. exists (k1 + k2)%nat. by rewrite B2, B1, drop_drop.
Qed.

Lemma shrunk_transformer t (s : Session) : Shrunk s (set_transformer t s).
Proof.
  split; [apply untouched_set_transformer|]. rewrite buffer_set_transformer. split; [done|]. by exists 0%nat.
Qed.

Lemma shrunk_drain n (s : Session) : Shrunk s (drain direction n s).
Proof.
  split; [apply untouched_set_buffer|]. unfold drain. rewrite buffer_set_buffer.
  split; [done|]. by eexists.
Qed.

Lemma buffered_drain n (s : Session) : buffered (drain direction n s) = drop (Z.to_nat n) (buffered s).
Proof. unfold drain. by rewrite buffer_set_buffer. Qed.

(** What the loop promises from [s] with [staged] already staged. *)
Definition LoopPost (s : Session) (staged : list Frame) (frames : list Frame) (s' : Session) : Prop :=
  Shrunk s s' ∧ (eos s = true → buffered s' = []) ∧
  ∃ out, frames = staged ++ out ∧
    RunOf s (ss_transformer s) (buffered s) (ss_transformer s') (buffered s') out ∧
    frameBytes staged + frameBytes out ≤ ss_maximumOutputBytes s.

Lemma callTransformer_runs s (P : StreamTransformDecision → Session → Prop) (Q : StreamTransformError → Session → Prop) :
  (∀ t d, transform (ss_transformer s) (window (ss_connectionId s) direction (eos s) (buffered s))
          = (t, Decided d) → P d (set_transformer t s)) →
  (∀ e t, Q e (set_transformer t s)) →
  Runs (callTransformer transform direction) s P Q.
Proof.
  intros HP HQ. unfold callTransformer. apply runs_bind, runs_gets. cbn [id].
  unfold window in HP. destruct (transform _ _) as [t [d|e|]]; apply runs_bind, runs_modify.
  - apply runs_ret. by apply HP.
  - apply runs_fail, HQ.
  - apply runs_fail, HQ.
Qed.

(** The promise of the loop with [fuel] iterations. *)
Definition LoopSpec (fuel : nat) : Prop := ∀ s (staged : list Frame) n,
  len (buffered s) < Z.of_nat fuel → buffered s ≠ [] → n = frameBytes staged →
  frameBytes staged ≤ ss_maximumOutputBytes s → 0 ≤ ss_maximumOutputBytes s ≤ usize_max →
  Runs (transformLoop transform fuel direction staged n) s (LoopPost s staged) (λ _, Shrunk s).

(** What remains once [k] bytes are consumed and [more] is staged. *)
Lemma loop_continue fuel s t (staged more : list Frame) k :
  LoopSpec fuel → len (buffered s) < Z.of_nat (S fuel) → 0 ≤ ss_maximumOutputBytes s ≤ usize_max →
  k ≠ 0%N → Z.of_N k ≤ len (buffered s) → frameBytes (staged ++ more) ≤ ss_maximumOutputBytes s →
  (∀ t' w' out, RunOf s t (drop (N.to_nat k) (buffered s)) t' w' out →
                RunOf s (ss_transformer s) (buffered s) t' w' (more ++ out)) →
  Runs (b ← gets (directionBuffer direction);
        if len (db_bytes b) =? 0 then mret (staged ++ more)
        else transformLoop transform fuel direction (staged ++ more) (frameBytes (staged ++ more)))
    (drain direction (Z.of_N k) (set_transformer t s)) (LoopPost s staged) (λ _, Shrunk s).
Proof.
  intros IH Hf Hm Hk Hle Hout Hrun. set (s2 := drain direction (Z.of_N k) (set_transformer t s)).
  assert (Shrunk s s2) as S2 by (eapply shrunk_trans; [apply shrunk_transformer|apply shrunk_drain]).
  assert (buffered s2 = drop (N.to_nat k) (buffered s)) as B2.
  { unfold s2. rewrite buffered_drain, buffer_set_transformer. f_equal. lia. }
  apply runs_bind, runs_gets. pose proof S2 as (U2 & E2 & _).
  assert (RunOf s2 = RunOf s) as HR by (by rewrite E2, (un_id _ _ _ U2), (un_buffer _ _ _ U2)).
  assert (ss_transformer s2 = t) as T2 by (by unfold s2, drain; destruct direction).
  destruct (Z.eqb_spec (len (buffered s2)) 0) as [H0|H0].
  - apply runs_ret. apply len_nil_inv in H0. split; [done|].
    split; [done|]. exists more. split; [done|]. rewrite frameBytes_app in Hout. split; [|lia].
    rewrite <-(app_nil_r more). apply Hrun. rewrite <-B2, H0, T2. constructor.
  - eapply runs_mono; [| |apply (IH s2 (staged ++ more))].
    + intros frames s' (S3 & E3 & out & -> & Hr & Hmax). split; [by eapply shrunk_trans|].
      split; [by rewrite <-E2|]. exists (more ++ out). rewrite app_assoc. split; [done|].
      rewrite frameBytes_app, (un_output _ _ _ U2) in Hmax. rewrite frameBytes_app. split; [|lia].
      apply Hrun. by rewrite <-B2, <-T2, <-HR.
    + intros ? s' S3. by eapply shrunk_trans.
    + rewrite B2. unfold len in *. rewrite length_drop. lia.
    + intros Hnil. by rewrite Hnil in H0.
    + done.
    + by rewrite (un_output _ _ _ U2).
    + by rewrite (un_output _ _ _ U2).
Qed.

Lemma transformLoop_runs fuel : LoopSpec fuel.
Proof.
  induction fuel as [|fuel IH]; intros s staged n Hf Hne Hn Hb Hm.
  { pose proof (len_nonneg (buffered s)). lia. }
  cbn [transformLoop]. apply runs_bind, callTransformer_runs; [|intros; apply shrunk_transformer].
  intros t d Ht. apply runs_bind, runs_gets. cbn [id]. rewrite buffer_set_transformer.
  change (ss_maximumOutputBytes (set_transformer t s)) with (ss_maximumOutputBytes s).
  change (ss_maximumBufferedBytes (set_transformer t s)) with (ss_maximumBufferedBytes s).
  assert (Shrunk s (set_transformer t s)) as S1 by apply shrunk_transformer.
  destruct d as [need|k frames|k decoded|reason].
  - case_if Hbad; [by apply runs_fail|]. apply orb_false_iff in Hbad as [Hbad H3%Z.ltb_ge].
    apply orb_false_iff in Hbad as [H1%Z.eqb_neq H2]. apply runs_ret. split; [done|].
    split; [by rewrite H2|]. exists []. rewrite app_nil_r. split; [done|].
    split; [|change (frameBytes []) with 0; lia]. rewrite buffer_set_transformer.
    eapply run_wait; [done|exact Ht|lia|done|done].
  - apply runs_bind, runs_lift. eapply satisfies_mono; [..|apply validateDecision_spec]; [|by intros].
    intros ? ((Hk & Hle) & Hok & Hrem). subst n. unfold saturating_sub in Hrem.
    pose proof (frameBytes_nonneg staged). pose proof (frameBytes_nonneg frames).
    assert (saturating_add (frameBytes staged) (frameBytes frames) = frameBytes (staged ++ frames)) as ->.
    { rewrite frameBytes_app. unfold saturating_add. assert (usize_max = u64_max) by done. lia. }
    apply runs_bind, runs_modify, loop_continue; [done|done|done|lia|done|rewrite frameBytes_app; lia|].
    intros t' w' out Hr. eapply run_emit; [done|exact Ht|lia|done|done|done].
  - apply runs_bind, runs_lift. eapply satisfies_mono; [..|apply validateConsumed_spec]; [|by intros].
    intros ? [Hk Hle]. apply runs_bind, runs_lift. pose proof (validateDecoded_total decoded) as Hd.
    destruct (validateDecoded decoded) as [[]| |] eqn:Hv; [|done..]. apply satisfies_ret.
    pose proof (loop_continue fuel s t staged [] k IH Hf Hm ltac:(lia) Hle) as Hn'.
    rewrite app_nil_r, <-Hn in Hn'. apply runs_bind, runs_modify, Hn'; [lia|].
    intros t' w' out Hr. eapply run_drop; [done|exact Ht|lia|done|done|done].
  - by apply runs_fail.
Qed.

(** ** A call *)

(** What a call on a direction may change. *)
Definition CallPost (bytes : list Z) (endOfStream : bool) (s : Session)
    (frames : list Frame) (s' : Session) : Prop :=
  Untouched direction s s' ∧ SessionOk s' ∧
  eos s' = eos s || endOfStream ∧ (eos s' = true → buffered s' = []) ∧
  Run (ss_connectionId s) direction (eos s') (ss_maximumBufferedBytes s)
    (ss_transformer s) (buffered s ++ bytes) (ss_transformer s') (buffered s') frames ∧
  frameBytes frames ≤ ss_maximumOutputBytes s.

Lemma sessionOk_shrunk s s' : SessionOk s → Shrunk s s' → SessionOk s'.
Proof.
  intros [H1 H2 H3 H4] ([U1 U2 U3 U4 U5] & _ & k & Hk).
  assert (len (buffered s') ≤ len (buffered s)) as Hl.
  { rewrite Hk. unfold len. rewrite length_drop. lia. }
  constructor; rewrite ?U3, ?U4; try done; destruct direction.
  - etrans; [exact Hl|done].
  - specialize (U2 ClientToServer). cbn in U2. by rewrite U2.
  - specialize (U2 ServerToClient). cbn in U2. by rewrite U2.
  - etrans; [exact Hl|done].
Qed.

Lemma sessionOk_set_buffer b s :
  SessionOk s → len (db_bytes b) ≤ ss_maximumBufferedBytes s → SessionOk (set_buffer direction b s).
Proof. intros [H1 H2 H3 H4] Hb. constructor; cbn; try done; by destruct direction. Qed.

Lemma process_runs bytes endOfStream s :
  SessionOk s → Runs (process transform direction bytes endOfStream) s (CallPost bytes endOfStream s)
    (λ e s', Untouched direction s s' ∧ SessionOk s' ∧
       (buffered s' = buffered s ∨ ∃ k, buffered s' = drop k (buffered s ++ bytes))).
Proof.
  intros Hok. pose proof (so_output _ Hok) as Hout. unfold process. apply runs_bind, runs_gets. cbn [id].
  assert (Untouched direction s s ∧ SessionOk s ∧
       (buffered s = buffered s ∨ ∃ k, buffered s = drop k (buffered s ++ bytes))) as Hsame.
  { split; [apply untouched_refl|]. split; [done|by left]. }
  case_if Hc; [by apply runs_fail|]. case_if Hu; [by apply runs_fail|].
  destruct (Z.ltb_spec (ss_maximumBufferedBytes s) (len (buffered s) + len bytes)) as [Hx|Hx];
    [by apply runs_fail|].
  apply runs_bind, runs_modify. set (b := {| db_bytes := _; db_endOfStream := _ |}).
  set (s1 := set_buffer direction b s).
  assert (directionBuffer direction s1 = b) as B1 by apply buffer_set_buffer.
  assert (Untouched direction s s1) as U1 by apply untouched_set_buffer.
  assert (SessionOk s1) as Ok1 by (apply sessionOk_set_buffer; [done|unfold b; cbn; by rewrite len_app]).
  assert (ss_transformer s1 = ss_transformer s) as T1 by done.
  pose proof (len_nonneg (buffered s)). pose proof (len_nonneg bytes).
  destruct (Z.eqb_spec (len (buffered s) + len bytes) 0) as [Hzero|Hzero].
  - apply runs_ret.
    assert (buffered s1 = []) as Hnil by (apply len_nil_inv; rewrite B1; cbn; rewrite len_app; lia).
    assert (buffered s ++ bytes = []) as Hnil2 by (by rewrite B1 in Hnil).
    split; [done|]. split; [done|]. split; [by rewrite B1|]. split; [done|].
    rewrite Hnil, Hnil2, T1. split; [constructor|]. apply Hout.
  - apply runs_bind. eapply runs_mono; [| |apply (transformLoop_runs _ s1 [] 0)].
    + intros frames s' (S2 & Hend & out & -> & Hr & Hmax). pose proof S2 as (U2 & E2 & k & Hk).
      apply runs_bind, runs_gets. destruct (_ && _) eqn:Hbad.
      { apply andb_prop in Hbad as [Hb1 Hb2%negb_true_iff%Z.eqb_neq].
        rewrite Hend in Hb2 by congruence. done. }
      apply runs_ret. split; [by eapply untouched_trans|]. split; [by eapply sessionOk_shrunk|].
      rewrite E2. split; [by rewrite B1|]. split; [done|].
      rewrite B1, (un_id _ _ _ U1), (un_buffer _ _ _ U1), T1 in Hr. rewrite B1. split; [exact Hr|].
      rewrite (un_output _ _ _ U1) in Hmax. change (frameBytes []) with 0 in Hmax. cbn [app]. lia.
    + intros e s' S2. pose proof S2 as (U2 & E2 & k & Hk). split; [by eapply untouched_trans|].
      split; [by eapply sessionOk_shrunk|]. right. exists k. by rewrite Hk, B1.
    + rewrite B1. cbn. rewrite len_app. lia.
    + rewrite B1. cbn. intros Hnil. apply (f_equal len) in Hnil. rewrite len_app, len_nil in Hnil. lia.
    + done.
    + rewrite (un_output _ _ _ U1). apply Hout.
    + by rewrite (un_output _ _ _ U1).
Qed.

(** ** Every run is taken *)

(** The session [s] with the plugin in [t] and the window [w]. *)
Definition at_window (t : T) (w : list Z) s : Session :=
  set_buffer direction {| db_bytes := w; db_endOfStream := eos s |} (set_transformer t s).

Lemma at_window_buffer t w s :
  directionBuffer direction (at_window t w s) = {| db_bytes := w; db_endOfStream := eos s |}.
Proof. apply buffer_set_buffer. Qed.

Lemma at_window_again t w t' w' s : at_window t' w' (at_window t w s) = at_window t' w' s.
Proof. unfold at_window. rewrite buffer_set_buffer. by destruct direction. Qed.

Lemma at_window_same s : at_window (ss_transformer s) (buffered s) s = s.
Proof. unfold at_window. destruct s as [? ? [] [] ? ? ?]. by destruct direction. Qed.

Lemma drain_at_window n t t1 w s :
  drain direction n (set_transformer t1 (at_window t w s)) = at_window t1 (drop (Z.to_nat n) w) s.
Proof. unfold drain, at_window. by destruct direction. Qed.

Lemma callTransformer_at t w s t1 d :
  transform t (window (ss_connectionId s) direction (eos s) w) = (t1, Decided d) →
  callTransformer transform direction (at_window t w s)
  = (set_transformer t1 (at_window t w s), Ok d).
Proof.
  intros Ht. unfold callTransformer, mbind, stateful_bind, gets, modify. cbn [id].
  rewrite at_window_buffer. unfold window in Ht. cbn [db_bytes db_endOfStream].
  change (ss_transformer (at_window t w s)) with t.
  change (ss_connectionId (at_window t w s)) with (ss_connectionId s). by rewrite Ht.
Qed.

(** After a decision that consumed bytes, the loop ends or goes on. *)
Lemma loop_next fuel s t1 n w (staged : list Frame) bytes r :
  (drop n w = [] → r = (at_window t1 [] s, Ok staged)) →
  (drop n w ≠ [] →
   transformLoop transform fuel direction staged bytes (at_window t1 (drop n w) s) = r) →
  (b ← gets (directionBuffer direction);
   if len (db_bytes b) =? 0 then mret staged
   else transformLoop transform fuel direction staged bytes) (at_window t1 (drop n w) s) = r.
Proof.
  intros H1 H2. unfold mbind, stateful_bind, gets. rewrite at_window_buffer. cbn [db_bytes].
  destruct (Z.eqb_spec (len (drop n w)) 0) as [H0|H0].
  - apply len_nil_inv in H0. rewrite H1 by done. by rewrite H0.
  - apply H2. intros Hn. by rewrite Hn in H0.
Qed.

Lemma run_nil_inv c e m t t' w' (out : list Frame) :
  Run c direction e m t [] t' w' out → t' = t ∧ w' = [] ∧ out = [].
Proof. by inversion 1. Qed.

Lemma loop_complete s t w t' w' (out : list Frame) :
  RunOf s t w t' w' out → w ≠ [] → 0 ≤ ss_maximumOutputBytes s ≤ usize_max →
  ∀ fuel staged, len w < Z.of_nat fuel →
    frameBytes staged + frameBytes out ≤ ss_maximumOutputBytes s →
    transformLoop transform fuel direction staged (frameBytes staged) (at_window t w s)
    = (at_window t' w' s, Ok (staged ++ out)).
Proof.
  intros Hrun Hne Hm. induction Hrun as [t|t w t' n Hw Ht Hn He Hle
    |t w t1 n frames t' w' out Hw Ht Hn Hle Hok Hrun IH|t w t1 n decoded t' w' out Hw Ht Hn Hle Hd Hrun IH];
    intros fuel staged Hf Hb; [done|..];
    (destruct fuel as [|fuel]; [pose proof (len_nonneg w); lia|]); cbn [transformLoop];
    unfold mbind at 1, stateful_bind at 1; rewrite (callTransformer_at _ _ _ _ _ Ht);
    unfold mbind at 1, stateful_bind at 1; unfold gets at 1; cbn [id];
    rewrite buffer_set_transformer, at_window_buffer; cbn [db_bytes db_endOfStream].
  - rewrite He, (proj2 (Z.eqb_neq _ _)) by lia. cbn [orb].
    change (ss_maximumBufferedBytes _) with (ss_maximumBufferedBytes s).
    rewrite (proj2 (Z.ltb_ge _ _)), app_nil_r by done.
    unfold mret, stateful_ret, at_window. by destruct direction.
  - change (ss_maximumOutputBytes _) with (ss_maximumOutputBytes s).
    pose proof (frameBytes_nonneg staged). pose proof (frameBytes_nonneg out) as Hon.
    pose proof (frameBytes_nonneg frames). rewrite frameBytes_app in Hb.
    unfold mbind at 1, stateful_bind at 1. unfold lift at 1.
    rewrite validateDecision_complete; [|lia|done|done|unfold saturating_sub; lia|unfold saturating_sub; lia].
    unfold mbind at 1, stateful_bind at 1. unfold modify at 1. rewrite drain_at_window.
    replace (Z.to_nat (Z.of_N n)) with (N.to_nat n) by lia.
    assert (saturating_add (frameBytes staged) (frameBytes frames) = frameBytes (staged ++ frames)) as ->.
    { rewrite frameBytes_app. unfold saturating_add. assert (usize_max = u64_max) by done. lia. }
    rewrite app_assoc. apply loop_next; intros Hd.
    + rewrite Hd in Hrun. apply run_nil_inv in Hrun as (-> & -> & ->). by rewrite app_nil_r.
    + apply IH; [done|unfold len in *; rewrite length_drop; lia|rewrite frameBytes_app; lia].
  - unfold mbind at 1, stateful_bind at 1. unfold lift at 1, validateConsumed.
    rewrite (proj2 (Z.eqb_neq _ _)), (proj2 (Z.ltb_ge _ _)) by lia. cbn [orb negb check].
    unfold mbind at 1, stateful_bind at 1. unfold lift at 1. rewrite Hd.
    unfold mbind at 1, stateful_bind at 1. unfold modify at 1. rewrite drain_at_window.
    replace (Z.to_nat (Z.of_N n)) with (N.to_nat n) by lia.
    apply loop_next; intros Hd'.
    + rewrite Hd' in Hrun. apply run_nil_inv in Hrun as (-> & -> & ->). by rewrite app_nil_r.
    + apply IH; [done|unfold len in *; rewrite length_drop; lia|done].
Qed.

Lemma process_complete bytes endOfStream s t' w' (out : list Frame) :
  SessionOk s → ss_closed s = false → len (buffered s ++ bytes) ≤ ss_maximumBufferedBytes s →
  Run (ss_connectionId s) direction (eos s || endOfStream) (ss_maximumBufferedBytes s)
    (ss_transformer s) (buffered s ++ bytes) t' w' out →
  (eos s || endOfStream = true → w' = []) → frameBytes out ≤ ss_maximumOutputBytes s →
  process transform direction bytes endOfStream s
  = (set_buffer direction {| db_bytes := w'; db_endOfStream := eos s || endOfStream |}
       (set_transformer t' s), Ok out).
Proof.
  intros Hok Hc Hl Hrun Hend Hb. pose proof (so_output _ Hok). pose proof (so_buffer _ Hok) as Hmax.
  assert (MAXIMUM_STREAM_BUFFER_BYTES < usize_max) as Hsize by done.
  unfold process. unfold mbind at 1, stateful_bind at 1. unfold gets at 1. cbn [id]. rewrite Hc, <-len_app.
  rewrite !(proj2 (Z.ltb_ge _ _)) by lia. unfold mbind at 1, stateful_bind at 1. unfold modify at 1.
  set (s1 := set_buffer direction _ s).
  assert (directionBuffer direction s1
          = {| db_bytes := buffered s ++ bytes; db_endOfStream := eos s || endOfStream |}) as B1
    by apply buffer_set_buffer.
  assert (∀ t w, at_window t w s1 = set_buffer direction
            {| db_bytes := w; db_endOfStream := eos s || endOfStream |} (set_transformer t s)) as Hat.
  { intros t w. unfold at_window. rewrite B1. unfold s1. by destruct direction. }
  destruct (Z.eqb_spec (len (buffered s ++ bytes)) 0) as [H0|H0].
  - apply len_nil_inv in H0. rewrite H0 in Hrun. apply run_nil_inv in Hrun as (-> & -> & ->).
    unfold mret, stateful_ret, s1. rewrite H0. by destruct direction.
  - unfold mbind at 1, stateful_bind at 1.
    assert (s1 = at_window (ss_transformer s) (buffered s ++ bytes) s1) as Hs1.
    { rewrite Hat. unfold s1. by destruct direction. }
    rewrite Hs1 at 1.
    assert (0 = frameBytes (@nil Frame)) as Hz by done. rewrite Hz at 1.
    rewrite (loop_complete s1 _ _ t' w' out).
    + rewrite Hat. unfold mbind, stateful_bind, gets. rewrite buffer_set_buffer. cbn [db_bytes db_endOfStream].
      destruct (eos s || endOfStream) eqn:He; [|done]. by rewrite Hend.
    + by rewrite B1.
    + intros Hn. by rewrite Hn in H0.
    + done.
    + lia.
    + change (frameBytes []) with 0. exact Hb.
Qed.
End loop.
(** C37: The session holds whatever the plugin does.  For any plugin, a call ends
    without panic; a successful one publishes exactly the frames of a run of the
    plugin over the buffered and the new bytes, in order and within the output
    budget, and leaves in the buffer the bytes the run left, none at the end of the
    stream; a failed one publishes nothing and only shortens the buffer from the
    front.  The buffers stay within their limit and the other direction is not
    touched. *)
Theorem stream_session_safe direction bytes endOfStream s :
  SessionOk s →
  Runs (process transform direction bytes endOfStream) s
    (CallPost direction bytes endOfStream s)
    (λ _ s', Untouched direction s s' ∧ SessionOk s' ∧
       let before := db_bytes (directionBuffer direction s) in
       let after := db_bytes (directionBuffer direction s') in
       after = before ∨ ∃ k, after = drop k (before ++ bytes)).
Proof. apply process_runs. Qed.

(** ** Framing does not depend on the reads *)

(** A plugin that decides on prefixes: a decision to emit or drop does not change
    when more bytes follow, and waiting leaves its state alone. *)
Record PrefixStable : Prop := {
  ps_more t c d w x t' n frames :
    transform t (window c d false w) = (t', Decided (Emit n frames)) →
    transform t (window c d false (w ++ x)) = (t', Decided (Emit n frames));
  ps_drop t c d w x t' n decoded :
    transform t (window c d false w) = (t', Decided (DropBytes n decoded)) →
    transform t (window c d false (w ++ x)) = (t', Decided (DropBytes n decoded));
  ps_wait t c d w t' n :
    transform t (window c d false w) = (t', Decided (NeedMore n)) → t' = t
}.

Lemma run_append c d m t w t1 w1 out1 x t2 w2 (out2 : list Frame) :
  PrefixStable →
  Run c d false m t w t1 w1 out1 → Run c d false m t1 (w1 ++ x) t2 w2 out2 →
  Run c d false m t (w ++ x) t2 w2 (out1 ++ out2).
Proof.
  intros [Hemit Hdrop Hwait] Hrun Hrun2.
  assert (∀ n (w : list Z), Z.of_N n ≤ len w → drop (N.to_nat n) (w ++ x) = drop (N.to_nat n) w ++ x) as Hd.
  { intros n l Hl. apply drop_app_le. unfold len in Hl. lia. }
  induction Hrun as [t|t w t' n Hw Ht Hn He Hle
    |t w t1 n frames t' w' out Hw Ht Hn Hle Hok Hrun IH|t w t1 n decoded t' w' out Hw Ht Hn Hle Hdec Hrun IH].
  - done.
  - apply Hwait in Ht as ->. done.
  - rewrite <-app_assoc. eapply run_emit; [by destruct w|by apply Hemit|done|rewrite len_app; pose proof (len_nonneg x); lia|done|].
    rewrite Hd by done. by apply IH.
  - eapply run_drop; [by destruct w|by apply Hdrop|done|rewrite len_app; pose proof (len_nonneg x); lia|done|].
    rewrite Hd by done. by apply IH.
Qed.

(** C9: How a stream is cut into reads does not matter.  For a plugin that decides
    on prefixes, pushing two reads one after the other, or their concatenation at
    once, publishes the same frames and leaves the same session, whenever the whole
    fits the budgets. *)
Theorem stream_chunking_irrelevant direction b1 b2 s s1 s2 out1 out2 :
  PrefixStable → SessionOk s → ss_closed s = false →
  db_endOfStream (directionBuffer direction s) = false →
  len (db_bytes (directionBuffer direction s) ++ b1 ++ b2) ≤ ss_maximumBufferedBytes s →
  frameBytes (out1 ++ out2) ≤ ss_maximumOutputBytes s →
  push transform direction b1 s = (s1, Ok out1) → push transform direction b2 s1 = (s2, Ok out2) →
  push transform direction (b1 ++ b2) s = (s2, Ok (out1 ++ out2)).
Proof.
  intros Hst Hok Hc He Hl Hb H1 H2. unfold push in *.
  pose proof (process_runs direction b1 false s Hok) as R1. unfold Runs in R1. rewrite H1 in R1.
  destruct R1 as (U1 & Ok1 & E1 & _ & Run1 & _).
  pose proof (process_runs direction b2 false s1 Ok1) as R2. unfold Runs in R2. rewrite H2 in R2.
  destruct R2 as (U2 & Ok2 & E2 & _ & Run2 & _).
  rewrite He in E1. cbn [orb] in E1. rewrite E1 in E2. cbn [orb] in E2.
  rewrite E1 in Run1. rewrite E2, (un_id _ _ _ U1), (un_buffer _ _ _ U1) in Run2.
  pose proof (run_append _ _ _ _ _ _ _ _ _ _ _ _ Hst Run1 Run2) as Hrun. rewrite <-app_assoc in Hrun.
  rewrite (process_complete direction (b1 ++ b2) false s (ss_transformer s2)
    (db_bytes (directionBuffer direction s2)) (out1 ++ out2)); [|done|done|done|by rewrite He|by rewrite He|done].
  f_equal. pose proof (untouched_trans direction s s1 s2 U1 U2) as [V1 V2 V3 V4 V5]. rewrite He.
  destruct s as [sid st su sd sm so sc], s2 as [sid2 st2 su2 sd2 sm2 so2 sc2]. cbn in *. subst.
  destruct direction; cbn in *.
  - assert (sd2 = sd) as -> by (by apply (V2 ServerToClient)). destruct su2. cbn in *. by subst.
  - assert (su2 = su) as -> by (by apply (V2 ClientToServer)). destruct sd2. cbn in *. by subst.
Qed.
End session.

(** * Filters and stream sessions on concrete traffic

    A rule that replaces [0A ?? 0B] by [FF ??], and a plugin that cuts a stream into
    frames that start with their length, on which the theorems are applied. *)

(** ** Filters *)

(** "0A ?? 0B" is replaced by "FF ??", everywhere. *)
Definition ruleEx : PacketFilterRule :=
  {| pf_id := [97]; pf_name := [98]; pf_enabled := true; pf_transport := OnlyTcp;
     pf_direction := OnlyUp; pf_host := [42; 46; 97; 46; 105; 111]; pf_port := Some 443;
     pf_minimumLength := Some 3; pf_maximumLength := None;
     pf_pattern := [48; 65; 32; 63; 63; 32; 48; 66]; pf_replacement := [70; 70; 32; 63; 63];
     pf_action := Modify; pf_replaceAll := true; pf_continueMatching := true |}.

Definition filtersEx : PacketFilterConfiguration := {| pc_enabled := true; pc_rules := [ruleEx] |}.

Definition compiledEx : CompiledConfiguration :=
  {| cc_source := filtersEx;
     cc_rules :=
       [{| cr_transport := OnlyTcp; cr_direction := OnlyUp; cr_host := [42; 46; 97; 46; 105; 111];
           cr_port := Some 443; cr_minimumLength := Some 3; cr_maximumLength := None;
           cr_pattern := Some [Some 10; None; Some 11]; cr_replacement := Some [Some 255; None];
           cr_action := Modify; cr_replaceAll := true; cr_continueMatching := true |}] |}.

(** A connection to "B.A.io." *)
Definition metadataEx : ConnectionMetadata :=
  {| cm_transport := Tcp; cm_clientAddress := []; cm_targetHost := [66; 46; 65; 46; 105; 111; 46];
     cm_targetPort := 443 |}.

Lemma compiledEx_ok : compileConfiguration filtersEx = Ok compiledEx.
Proof. vm_compute. reflexivity. Qed.

Lemma processEx :
  PacketFilters.process compiledEx metadataEx ClientToServer [1; 10; 7; 11; 10; 8; 11; 10] = Ok (Forwarded [1; 255; 7; 255; 8; 10]).
Proof. vm_compute. reflexivity. Qed.

Lemma packet_filters_refine_reference_witness :
  Satisfies (compileConfiguration filtersEx)
    (λ compiled,
       len (pc_rules filtersEx) ≤ MAXIMUM_RULES ∧
       NoDup (pf_id <$> pc_rules filtersEx) ∧
       Forall2 compilesTo (filter (λ r, pf_enabled r = true) (pc_rules filtersEx)) (cc_rules compiled) ∧
       PacketFilters.process compiled metadataEx ClientToServer [1; 10; 7; 11]
       = Ok (if pc_enabled filtersEx
             then filtered (cc_rules compiled) metadataEx ClientToServer [1; 10; 7; 11]
             else Forwarded [1; 10; 7; 11]))
    (λ _, True).
Proof. apply packet_filters_refine_reference. vm_compute. discriminate. Defined.

Lemma packet_filters_never_grow_witness : len [1; 255; 7; 255; 8; 10] ≤ len [1; 10; 7; 11; 10; 8; 11; 10].
Proof.
  apply (packet_filters_never_grow filtersEx compiledEx metadataEx ClientToServer).
  - exact compiledEx_ok.
  - vm_compute. discriminate.
  - exact processEx.
Defined.

(** ** A framing plugin *)
Definition framesEx (t : unit) (i : StreamInput) : unit * Answer (J := unit) :=
  (t, Decided match si_bytes i with
      | [] => NeedMore 1
      | n :: rest =>
          if n <=? len rest then
            Emit (Z.to_N (n + 1)) [{| of_wireBytes := take (Z.to_nat n) rest; of_decoded := None |}]
          else NeedMore (Z.to_N (n - len rest))
      end).

Lemma framesEx_stable : PrefixStable framesEx.
Proof.
  constructor; unfold framesEx; cbn.
  - intros t c d w x t' n frames. destruct w as [|b w]; cbn; [done|].
    destruct (Z.leb_spec b (len w)) as [Hle|]; [|done]. intros [= <- <- <-].
    rewrite (proj2 (Z.leb_le _ _)) by (rewrite len_app; pose proof (len_nonneg x); lia).
    rewrite take_app_le by (unfold len in Hle; lia). reflexivity.
  - intros t c d w x t' n decoded. destruct w as [|b w]; cbn; [done|].
    by destruct (Z.leb_spec b (len w)).
  - intros t c d w t' n. by intros [= -> _].
Qed.

Definition sessionEx (w : list Z) : StreamTransformerSession (T := unit) :=
  {| ss_connectionId := 9; ss_transformer := tt;
     ss_up := {| db_bytes := w; db_endOfStream := false |}; ss_down := DirectionBuffer_new;
     ss_maximumBufferedBytes := 64; ss_maximumOutputBytes := 64; ss_closed := false |}.

Lemma sessionEx_ok : SessionOk (sessionEx []).
Proof. constructor; vm_compute; try discriminate. split; discriminate. Qed.

Lemma stream_session_safe_witness :
  Runs (StreamTransformer.process framesEx ClientToServer [2; 5; 6; 3; 1] false) (sessionEx [])
    (CallPost framesEx ClientToServer [2; 5; 6; 3; 1] false (sessionEx []))
    (λ _ s', Untouched ClientToServer (sessionEx []) s' ∧ SessionOk s' ∧
       let before := db_bytes (directionBuffer ClientToServer (sessionEx [])) in
       let after := db_bytes (directionBuffer ClientToServer s') in
       after = before ∨ ∃ k, after = drop k (before ++ [2; 5; 6; 3; 1])).
Proof. apply stream_session_safe. exact sessionEx_ok. Defined.

Lemma stream_chunking_irrelevant_witness :
  push framesEx ClientToServer ([2; 5; 6; 3; 1] ++ [2; 3; 0]) (sessionEx [])
  = (sessionEx [], Ok ([{| of_wireBytes := [5; 6]; of_decoded := None |}] ++
                       [{| of_wireBytes := [1; 2; 3]; of_decoded := None |};
                        {| of_wireBytes := []; of_decoded := None |}])).
Proof.
  apply (stream_chunking_irrelevant framesEx ClientToServer _ _ (sessionEx []) (sessionEx [3; 1])).
  - exact framesEx_stable.
  - exact sessionEx_ok.
  - reflexivity.
  - reflexivity.
  - vm_compute. discriminate.
  - vm_compute. discriminate.
  - vm_compute. reflexivity.
  - vm_compute. reflexivity.
Defined.
