(* ===== verification/Lease.v ===== *)
(** * Account leases

    Model of [Server/AccountService/src/lease.rs], of the policy and message types
    of [model.rs] it uses, and of [synchronizeLeases] of [service.rs], which writes
    the usage to the database.  Clock readings and fresh identifiers are arguments;
    each method holds the registry's mutex, so it is one step.  The digest of a
    request is a parameter.  [i64] values are integers
    with saturating arithmetic where the code saturates. *)

From S2P Require Import Prelude NetAddress Stateful Text.

Abbreviation text := (list Z) (only parsing).

Definition leaseHeartbeatTimeoutMilliseconds : Z := 8000.
Definition maximumRememberedBatches : Z := 4096.

(** [i64] saturating subtraction and addition. *)
Definition i64_clamp (x : Z) : Z := Z.max i64_min (Z.min x i64_max).
Definition i64_saturating_sub (a b : Z) : Z := i64_clamp (a - b).
Definition i64_saturating_add (a b : Z) : Z := i64_clamp (a + b).

(** ** Policies and messages *)
Record AccountPolicy := {
  po_maxUploadBytesPerSecond : Z;
  po_maxDownloadBytesPerSecond : Z;
  po_maxConnections : Z;
  po_maxOnlineIps : Z;
  po_expiresAt : Z
}.

Definition disabled (p : AccountPolicy) : bool :=
  (po_maxUploadBytesPerSecond p =? 0) || (po_maxDownloadBytesPerSecond p =? 0)
  || (po_maxConnections p =? 0) || (po_maxOnlineIps p =? 0) || (po_expiresAt p =? 0).

Definition expired (p : AccountPolicy) (serverTime : Z) : bool :=
  (0 <? po_expiresAt p) && (po_expiresAt p <? serverTime).

Record StoredAccount := {
  ac_accountId : text;
  ac_username : text;
  ac_passwordHash : option text;
  ac_passwordSalt : option text;
  ac_policy : AccountPolicy;
  ac_policyRevision : Z;
  ac_remark : option text;
  ac_createdAt : Z;
  ac_updatedAt : Z
}.

Record LeaseAuthenticationRequest := {
  ar_connectionId : text;
  ar_username : text;
  ar_password : text;
  ar_sourceIp : text
}.

Record LeaseProgress := {
  lp_leaseId : text;
  lp_connectionId : text;
  lp_uploadedBytes : Z;
  lp_downloadedBytes : Z;
  lp_final : bool
}.

Record LeaseSynchronizationRequest := {
  lr_serviceInstanceId : text;
  lr_batchId : text;
  lr_leases : list LeaseProgress
}.

Inductive LeaseErrorCode := nonMonotonicUsage | leaseNotFound.

Record LeaseSynchronizationResult := {
  sr_leaseId : text;
  sr_acknowledgedUploadedBytes : Z;
  sr_acknowledgedDownloadedBytes : Z;
  sr_policyRevision : Z;
  sr_maxUploadBytesPerSecond : Z;
  sr_maxDownloadBytesPerSecond : Z;
  sr_revoked : bool;
  sr_errorCode : option LeaseErrorCode
}.

Record LeaseSynchronizationResponse := {
  sp_serviceInstanceId : text;
  sp_batchId : text;
  sp_leases : list LeaseSynchronizationResult
}.

Record UsageIncrement := {
  ui_uploadedBytes : Z;
  ui_downloadedBytes : Z;
  ui_acceptedConnections : Z;
  ui_rejectedAuthentications : Z
}.

Definition UsageIncrement_default : UsageIncrement :=
  {| ui_uploadedBytes := 0; ui_downloadedBytes := 0; ui_acceptedConnections := 0;
     ui_rejectedAuthentications := 0 |}.

Record ConnectionView := {
  cv_leaseId : text;
  cv_accountId : text;
  cv_connectionId : text;
  cv_sourceIp : IpAddr;
  cv_createdAt : Z;
  cv_lastHeartbeatAt : Z;
  cv_uploadedBytes : Z;
  cv_downloadedBytes : Z;
  cv_uploadBytesPerSecond : Z;
  cv_downloadBytesPerSecond : Z;
  cv_revoked : bool
}.

Inductive AccountServiceError :=
| SocksAuthenticationFailed
| Validation
| StateConflict
| Database.

(** ** The registry *)
Record LeaseState := {
  ls_leaseId : text;
  ls_accountId : text;
  ls_connectionId : text;
  ls_sourceIp : IpAddr;
  ls_createdAt : Z;
  ls_lastHeartbeatAt : Z;
  ls_policy : AccountPolicy;
  ls_policyRevision : Z;
  ls_uploadedBytes : Z;
  ls_downloadedBytes : Z;
  ls_uploadBytesPerSecond : Z;
  ls_downloadBytesPerSecond : Z;
  ls_rateObservedAt : Z;
  ls_persistedUploadedBytes : Z;
  ls_persistedDownloadedBytes : Z;
  ls_finalPending : bool;
  ls_revoked : bool
}.

Section registry.
(** [D] is the type of digests. *)
Context {D : Type} `{EqDecision D}.

Record BatchRecord := {
  br_requestDigest : D;
  br_response : LeaseSynchronizationResponse
}.

Record LeaseRegistryState := {
  lg_leases : gmap text LeaseState;
  lg_batches : gmap text BatchRecord;
  lg_batchOrder : list text
}.

Definition LeaseRegistry_new : LeaseRegistryState :=
  {| lg_leases := ∅; lg_batches := ∅; lg_batchOrder := [] |}.

Definition set_leases (leases : gmap text LeaseState) (s : LeaseRegistryState) : LeaseRegistryState :=
  {| lg_leases := leases; lg_batches := lg_batches s; lg_batchOrder := lg_batchOrder s |}.

(** Field updates of one lease. *)
Definition set_flags (revoked finalPending : bool) (l : LeaseState) : LeaseState :=
  {| ls_leaseId := ls_leaseId l; ls_accountId := ls_accountId l; ls_connectionId := ls_connectionId l;
     ls_sourceIp := ls_sourceIp l; ls_createdAt := ls_createdAt l;
     ls_lastHeartbeatAt := ls_lastHeartbeatAt l; ls_policy := ls_policy l;
     ls_policyRevision := ls_policyRevision l; ls_uploadedBytes := ls_uploadedBytes l;
     ls_downloadedBytes := ls_downloadedBytes l; ls_uploadBytesPerSecond := ls_uploadBytesPerSecond l;
     ls_downloadBytesPerSecond := ls_downloadBytesPerSecond l; ls_rateObservedAt := ls_rateObservedAt l;
     ls_persistedUploadedBytes := ls_persistedUploadedBytes l;
     ls_persistedDownloadedBytes := ls_persistedDownloadedBytes l;
     ls_finalPending := finalPending; ls_revoked := revoked |}.

Definition set_policy (policy : AccountPolicy) (revision : Z) (l : LeaseState) : LeaseState :=
  {| ls_leaseId := ls_leaseId l; ls_accountId := ls_accountId l; ls_connectionId := ls_connectionId l;
     ls_sourceIp := ls_sourceIp l; ls_createdAt := ls_createdAt l;
     ls_lastHeartbeatAt := ls_lastHeartbeatAt l; ls_policy := policy;
     ls_policyRevision := revision; ls_uploadedBytes := ls_uploadedBytes l;
     ls_downloadedBytes := ls_downloadedBytes l; ls_uploadBytesPerSecond := ls_uploadBytesPerSecond l;
     ls_downloadBytesPerSecond := ls_downloadBytesPerSecond l; ls_rateObservedAt := ls_rateObservedAt l;
     ls_persistedUploadedBytes := ls_persistedUploadedBytes l;
     ls_persistedDownloadedBytes := ls_persistedDownloadedBytes l;
     ls_finalPending := ls_finalPending l; ls_revoked := ls_revoked l |}.

Definition set_persisted (l : LeaseState) : LeaseState :=
  {| ls_leaseId := ls_leaseId l; ls_accountId := ls_accountId l; ls_connectionId := ls_connectionId l;
     ls_sourceIp := ls_sourceIp l; ls_createdAt := ls_createdAt l;
     ls_lastHeartbeatAt := ls_lastHeartbeatAt l; ls_policy := ls_policy l;
     ls_policyRevision := ls_policyRevision l; ls_uploadedBytes := ls_uploadedBytes l;
     ls_downloadedBytes := ls_downloadedBytes l; ls_uploadBytesPerSecond := ls_uploadBytesPerSecond l;
     ls_downloadBytesPerSecond := ls_downloadBytesPerSecond l; ls_rateObservedAt := ls_rateObservedAt l;
     ls_persistedUploadedBytes := ls_uploadedBytes l;
     ls_persistedDownloadedBytes := ls_downloadedBytes l;
     ls_finalPending := ls_finalPending l; ls_revoked := ls_revoked l |}.

(** ** Expiry *)
Definition timedOut (now : Z) (l : LeaseState) : bool :=
  leaseHeartbeatTimeoutMilliseconds <? i64_saturating_sub now (ls_lastHeartbeatAt l).

(** The closure of [purgeExpiredLeases]: [None] removes the lease. *)
Definition purgeLease (now : Z) (l : LeaseState) : option LeaseState :=
  let late := timedOut now l in
  let l := if late then set_flags true true l else l in
  if negb late || negb (ls_uploadedBytes l =? ls_persistedUploadedBytes l)
     || negb (ls_downloadedBytes l =? ls_persistedDownloadedBytes l)
  then Some l else None.

Definition purgeExpiredLeases (now : Z) (s : LeaseRegistryState) : LeaseRegistryState :=
  set_leases (omap (purgeLease now) (lg_leases s)) s.

(** ** Admission *)

(** [IpAddr::from_str], then the canonical text of the address; two addresses have
    the same text exactly when they are equal, so the address stands for it. *)
Definition normalizeSourceIp (sourceIp : text)
    : outcome AccountServiceError IpAddr :=
  address ← ok_or (parse_ip sourceIp) Validation;
  Ok (match address with
      | V6 ipv6 => match to_ipv4_mapped ipv6 with Some ipv4 => V4 ipv4 | None => V6 ipv6 end
      | V4 ipv4 => V4 ipv4
      end).

Definition isActive (accountId : text) (l : LeaseState) : bool :=
  bool_decide (ls_accountId l = accountId) && negb (ls_revoked l).

(** The account's leases that are not revoked. *)
Definition accountLeases (accountId : text) (s : LeaseRegistryState) : list LeaseState :=
  filter (λ l, isActive accountId l = true) ((map_to_list (lg_leases s)).*2).

Definition onlineIps (leases : list LeaseState) : gset IpAddr := list_to_set (ls_sourceIp <$> leases).

Abbreviation onRegistry := (stateful LeaseRegistryState AccountServiceError) (only parsing).

(** [leaseId] is the fresh UUID, [now] the clock. *)
Definition createLease (now : Z) (leaseId : text)
    (account : StoredAccount) (request : LeaseAuthenticationRequest) : onRegistry text :=
  sourceIp ← lift (normalizeSourceIp (ar_sourceIp request));
  _ ← modify (purgeExpiredLeases now);
  leases ← gets (accountLeases (ac_accountId account));
  let policy := ac_policy account in
  if (0 <? po_maxConnections policy) && (po_maxConnections policy <=? len leases)
  then fail SocksAuthenticationFailed
  else
    let ips := onlineIps leases in
    if negb (bool_decide (sourceIp ∈ ips)) && (0 <? po_maxOnlineIps policy)
       && (po_maxOnlineIps policy <=? Z.of_nat (size ips))
    then fail SocksAuthenticationFailed
    else
      _ ← modify (λ s, set_leases (<[leaseId :=
            {| ls_leaseId := leaseId; ls_accountId := ac_accountId account;
               ls_connectionId := ar_connectionId request; ls_sourceIp := sourceIp;
               ls_createdAt := now; ls_lastHeartbeatAt := now; ls_policy := policy;
               ls_policyRevision := ac_policyRevision account; ls_uploadedBytes := 0;
               ls_downloadedBytes := 0; ls_uploadBytesPerSecond := 0;
               ls_downloadBytesPerSecond := 0; ls_rateObservedAt := now;
               ls_persistedUploadedBytes := 0; ls_persistedDownloadedBytes := 0;
               ls_finalPending := false; ls_revoked := false |}]> (lg_leases s)) s);
      mret leaseId.

(** ** Synchronization *)
Definition bytesPerSecond (bytes elapsedMilliseconds : Z) : Z :=
  if elapsedMilliseconds <=? 0 then 0 else saturating_mul bytes 1000 / elapsedMilliseconds.

Definition missingLeaseResult (leaseId : text) : LeaseSynchronizationResult :=
  {| sr_leaseId := leaseId; sr_acknowledgedUploadedBytes := 0; sr_acknowledgedDownloadedBytes := 0;
     sr_policyRevision := 0; sr_maxUploadBytesPerSecond := 0; sr_maxDownloadBytesPerSecond := 0;
     sr_revoked := true; sr_errorCode := Some leaseNotFound |}.

Definition leaseResult (l : LeaseState) (revoked : bool) (code : option LeaseErrorCode)
    : LeaseSynchronizationResult :=
  {| sr_leaseId := ls_leaseId l; sr_acknowledgedUploadedBytes := ls_uploadedBytes l;
     sr_acknowledgedDownloadedBytes := ls_downloadedBytes l;
     sr_policyRevision := ls_policyRevision l;
     sr_maxUploadBytesPerSecond := po_maxUploadBytesPerSecond (ls_policy l);
     sr_maxDownloadBytesPerSecond := po_maxDownloadBytesPerSecond (ls_policy l);
     sr_revoked := revoked; sr_errorCode := code |}.

(** The lease after monotonic progress was accepted. *)
Definition acceptProgress (now : Z) (progress : LeaseProgress) (l : LeaseState) : LeaseState :=
  let elapsed := i64_saturating_sub now (ls_lastHeartbeatAt l) in
  {| ls_leaseId := ls_leaseId l; ls_accountId := ls_accountId l; ls_connectionId := ls_connectionId l;
     ls_sourceIp := ls_sourceIp l; ls_createdAt := ls_createdAt l; ls_lastHeartbeatAt := now;
     ls_policy := ls_policy l; ls_policyRevision := ls_policyRevision l;
     ls_uploadedBytes := lp_uploadedBytes progress; ls_downloadedBytes := lp_downloadedBytes progress;
     ls_uploadBytesPerSecond :=
       bytesPerSecond (saturating_sub (lp_uploadedBytes progress) (ls_uploadedBytes l)) elapsed;
     ls_downloadBytesPerSecond :=
       bytesPerSecond (saturating_sub (lp_downloadedBytes progress) (ls_downloadedBytes l)) elapsed;
     ls_rateObservedAt := now;
     ls_persistedUploadedBytes := ls_persistedUploadedBytes l;
     ls_persistedDownloadedBytes := ls_persistedDownloadedBytes l;
     ls_finalPending := ls_finalPending l || lp_final progress;
     ls_revoked := ls_revoked l || (disabled (ls_policy l) || expired (ls_policy l) now) |}.

(** One iteration of the loop over the request. *)
Definition synchronizeLease (now : Z) (leases : gmap text LeaseState) (progress : LeaseProgress)
    : gmap text LeaseState * LeaseSynchronizationResult :=
  match leases !! lp_leaseId progress with
  | None => (leases, missingLeaseResult (lp_leaseId progress))
  | Some lease =>
      if negb (bool_decide (ls_connectionId lease = lp_connectionId progress))
      then (leases, missingLeaseResult (lp_leaseId progress))
      else if (lp_uploadedBytes progress <? ls_uploadedBytes lease)
              || (lp_downloadedBytes progress <? ls_downloadedBytes lease)
      then let lease := set_flags true (ls_finalPending lease) lease in
           (<[lp_leaseId progress := lease]> leases, leaseResult lease true (Some nonMonotonicUsage))
      else let lease := acceptProgress now progress lease in
           (<[lp_leaseId progress := lease]> leases, leaseResult lease (ls_revoked lease) None)
  end.

Fixpoint synchronizeAll (now : Z) (leases : gmap text LeaseState) (progress : list LeaseProgress)
    : gmap text LeaseState * list LeaseSynchronizationResult :=
  match progress with
  | [] => (leases, [])
  | p :: progress =>
      let '(leases, result) := synchronizeLease now leases p in
      let '(leases, results) := synchronizeAll now leases progress in
      (leases, result :: results)
  end.

Definition rememberBatch (batchId : text) (requestDigest : D)
    (response : LeaseSynchronizationResponse) (s : LeaseRegistryState) : LeaseRegistryState :=
  let '(batches, order) :=
    if maximumRememberedBatches <=? Z.of_nat (size (lg_batches s)) then
      match lg_batchOrder s with
      | [] => (lg_batches s, [])
      | expiredBatchId :: order => (delete expiredBatchId (lg_batches s), order)
      end
    else (lg_batches s, lg_batchOrder s) in
  {| lg_leases := lg_leases s;
     lg_batches := <[batchId := {| br_requestDigest := requestDigest; br_response := response |}]> batches;
     lg_batchOrder := order ++ [batchId] |}.

(** [uploadedDelta.min(i64::MAX as u64) as i64] added to an account's usage. *)
Definition addUsage (uploadedDelta downloadedDelta : Z) (usage : option UsageIncrement) : UsageIncrement :=
  let u := default UsageIncrement_default usage in
  {| ui_uploadedBytes := i64_saturating_add (ui_uploadedBytes u) (Z.min uploadedDelta i64_max);
     ui_downloadedBytes := i64_saturating_add (ui_downloadedBytes u) (Z.min downloadedDelta i64_max);
     ui_acceptedConnections := ui_acceptedConnections u;
     ui_rejectedAuthentications := ui_rejectedAuthentications u |}.

Definition pendingUsage (s : LeaseRegistryState) : gmap text UsageIncrement :=
  map_fold (λ _ lease usageByAccount,
    let uploadedDelta := saturating_sub (ls_uploadedBytes lease) (ls_persistedUploadedBytes lease) in
    let downloadedDelta :=
      saturating_sub (ls_downloadedBytes lease) (ls_persistedDownloadedBytes lease) in
    if (uploadedDelta =? 0) && (downloadedDelta =? 0) then usageByAccount
    else <[ls_accountId lease :=
             addUsage uploadedDelta downloadedDelta (usageByAccount !! ls_accountId lease)]> usageByAccount)
    ∅ (lg_leases s).

(** [digest] is SHA-256 of the request's JSON. *)
Definition synchronize (digest : LeaseSynchronizationRequest → D) (serviceInstanceId : text) (now : Z)
    (request : LeaseSynchronizationRequest)
    : onRegistry (LeaseSynchronizationResponse * gmap text UsageIncrement) :=
  if negb (bool_decide (lr_serviceInstanceId request = serviceInstanceId)) then fail StateConflict
  else
    s ← gets id;
    match lg_batches s !! lr_batchId request with
    | Some record =>
        if negb (bool_decide (br_requestDigest record = digest request)) then fail StateConflict
        else mret (br_response record, pendingUsage s)
    | None =>
        _ ← modify (purgeExpiredLeases now);
        s ← gets id;
        let '(leases, results) := synchronizeAll now (lg_leases s) (lr_leases request) in
        let response := {| sp_serviceInstanceId := serviceInstanceId;
                           sp_batchId := lr_batchId request; sp_leases := results |} in
        _ ← modify (set_leases leases);
        _ ← modify (rememberBatch (lr_batchId request) (digest request) response);
        s ← gets id;
        mret (response, pendingUsage s)
    end.

Definition confirmUsageCommitted (batchId : text) : onRegistry unit :=
  s ← gets id;
  match lg_batches s !! batchId with
  | None => fail StateConflict
  | Some _ =>
      modify (set_leases (filter (λ '(_, l), ls_finalPending l = false)
                            (set_persisted <$> lg_leases s)))
  end.

(** ** Administration *)
Definition reconcileAccount (account : StoredAccount) (serverTime : Z) (s : LeaseRegistryState)
    : LeaseRegistryState :=
  let policy := ac_policy account in
  let active := accountLeases (ac_accountId account) s in
  let exceedsConnections := (0 <? po_maxConnections policy) && (po_maxConnections policy <? len active) in
  let exceedsIps := (0 <? po_maxOnlineIps policy)
                    && (po_maxOnlineIps policy <? Z.of_nat (size (onlineIps active))) in
  let revokeAll := disabled policy || expired policy serverTime || exceedsConnections || exceedsIps in
  set_leases ((λ l, if bool_decide (ls_accountId l = ac_accountId account)
                    then let l := set_policy policy (ac_policyRevision account) l in
                         set_flags (ls_revoked l || revokeAll) (ls_finalPending l) l
                    else l) <$> lg_leases s) s.

Definition revokeAccount (accountId : text) (s : LeaseRegistryState) : LeaseRegistryState * Z :=
  (set_leases ((λ l, if isActive accountId l then set_flags true (ls_finalPending l) l else l)
                 <$> lg_leases s) s,
   len (accountLeases accountId s)).

Definition removeAccount (accountId : text) (s : LeaseRegistryState) : LeaseRegistryState * Z :=
  let leases := filter (λ '(_, l), ls_accountId l ≠ accountId) (lg_leases s) in
  (set_leases leases s, saturating_sub (Z.of_nat (size (lg_leases s))) (Z.of_nat (size leases))).

Definition accountPresence (now : Z) (accountId : text) (s : LeaseRegistryState)
    : LeaseRegistryState * (Z * Z) :=
  let s := purgeExpiredLeases now s in
  let leases := accountLeases accountId s in
  (s, (len leases, Z.of_nat (size (onlineIps leases)))).

(** ** Views *)
Definition freshRate (rate observedAt now : Z) : Z :=
  if leaseHeartbeatTimeoutMilliseconds <? i64_saturating_sub now observedAt then 0 else rate.

Definition connectionView (now : Z) (l : LeaseState) : ConnectionView :=
  {| cv_leaseId := ls_leaseId l; cv_accountId := ls_accountId l; cv_connectionId := ls_connectionId l;
     cv_sourceIp := ls_sourceIp l; cv_createdAt := ls_createdAt l;
     cv_lastHeartbeatAt := ls_lastHeartbeatAt l; cv_uploadedBytes := ls_uploadedBytes l;
     cv_downloadedBytes := ls_downloadedBytes l;
     cv_uploadBytesPerSecond := freshRate (ls_uploadBytesPerSecond l) (ls_rateObservedAt l) now;
     cv_downloadBytesPerSecond := freshRate (ls_downloadBytesPerSecond l) (ls_rateObservedAt l) now;
     cv_revoked := ls_revoked l |}.

(** Newest first; [sort_by_key] is stable. *)
Definition newer (a b : ConnectionView) : Prop := cv_createdAt b ≤ cv_createdAt a.
#[global] Instance newer_dec : RelDecision newer.
Proof. intros a b. unfold newer. apply _. Defined.

Definition connections (now : Z) (accountId : option text) (s : LeaseRegistryState)
    : LeaseRegistryState * list ConnectionView :=
  let s := purgeExpiredLeases now s in
  let leases := filter (λ l, from_option (λ id, bool_decide (ls_accountId l = id)) true accountId = true)
                  ((map_to_list (lg_leases s)).*2) in
  (s, merge_sort newer (connectionView now <$> leases)).

(** Accounts, addresses, leases, upload and download rate. *)
Definition aggregateOverview (now : Z) (s : LeaseRegistryState)
    : LeaseRegistryState * (Z * Z * Z * Z * Z) :=
  let s := purgeExpiredLeases now s in
  let active := filter (λ l, ls_revoked l = false) ((map_to_list (lg_leases s)).*2) in
  let accounts : gset text := list_to_set (ls_accountId <$> active) in
  let addresses : gset (text * IpAddr) := list_to_set ((λ l, (ls_accountId l, ls_sourceIp l)) <$> active) in
  let rate f := fold_left (λ total l, saturating_add total (freshRate (f l) (ls_rateObservedAt l) now))
                  active 0 in
  (s, (Z.of_nat (size accounts), Z.of_nat (size addresses), len active,
       rate ls_uploadBytesPerSecond, rate ls_downloadBytesPerSecond)).

(** ** The service *)

(** The rows of [usageCounters]; the database is a parameter only in whether its
    transaction commits. *)
Abbreviation Ledger := (gmap text UsageIncrement) (only parsing).

Definition addCounters (row usage : UsageIncrement) : UsageIncrement :=
  {| ui_uploadedBytes := ui_uploadedBytes row + ui_uploadedBytes usage;
     ui_downloadedBytes := ui_downloadedBytes row + ui_downloadedBytes usage;
     ui_acceptedConnections := ui_acceptedConnections row + ui_acceptedConnections usage;
     ui_rejectedAuthentications := ui_rejectedAuthentications row + ui_rejectedAuthentications usage |}.

(** The [UPDATE] of every account of the map that has a row. *)
Definition applyUsage (usage : gmap text UsageIncrement) (ledger : Ledger) : Ledger :=
  map_imap (λ accountId row, Some (from_option (addCounters row) row (usage !! accountId))) ledger.

Record AccountService := {
  as_leases : LeaseRegistryState;
  as_ledger : Ledger
}.

(** [synchronizeLeases] under the account operation lock; [committed] says whether
    the transaction of [applyUsage] commits. *)
Definition synchronizeLeases (digest : LeaseSynchronizationRequest → D) (serviceInstanceId : text)
    (now : Z) (committed : bool) (request : LeaseSynchronizationRequest)
    : stateful AccountService AccountServiceError LeaseSynchronizationResponse := λ w,
  match synchronize digest serviceInstanceId now request (as_leases w) with
  | (s, Err e) => ({| as_leases := s; as_ledger := as_ledger w |}, Err e)
  | (s, Panic) => ({| as_leases := s; as_ledger := as_ledger w |}, Panic)
  | (s, Ok (response, usage)) =>
      if negb committed then ({| as_leases := s; as_ledger := as_ledger w |}, Err Database)
      else
        let ledger := applyUsage usage (as_ledger w) in
        match confirmUsageCommitted (lr_batchId request) s with
        | (s, Ok _) => ({| as_leases := s; as_ledger := ledger |}, Ok response)
        | (s, Err e) => ({| as_leases := s; as_ledger := ledger |}, Err e)
        | (s, Panic) => ({| as_leases := s; as_ledger := ledger |}, Panic)
        end
  end.
End registry.
