(* ===== verification/LeaseTheorems.v ===== *)
(** * Correctness of the account leases

    Usage is billed exactly once, across retries, database failures, expiry and
    administration; a retried batch changes nothing; admission respects the limits
    of the account. *)

From S2P Require Import Prelude NetAddress Stateful Text Lease.

(** ** Sums over finite sets *)
Section sums.
Context {K : Type} `{Countable K}.
Implicit Types (X Y : gset K) (g h : K → Z).

Definition sum X g : Z := foldr (λ k acc, g k + acc) 0 (elements X).

Lemma sum_empty g : sum ∅ g = 0.
Proof. unfold sum. by rewrite elements_empty. Qed.

Lemma sum_insert X k g : k ∉ X → sum ({[k]} ∪ X) g = g k + sum X g.
Proof.
  intros Hk. unfold sum.
  assert (∀ l1 l2, l1 ≡ₚ l2 →
    foldr (λ k acc, g k + acc) 0 l1 = foldr (λ k acc, g k + acc) 0 l2) as Hperm.
  { induction 1; cbn; lia. }
  by rewrite (Hperm _ _ (elements_union_singleton X k Hk)).
Qed.

Lemma sum_ext X g h : (∀ k, k ∈ X → g k = h k) → sum X g = sum X h.
Proof.
  induction X as [|k X Hk IH] using set_ind_L; intros Hgh; [by rewrite !sum_empty|].
  rewrite !sum_insert, IH, Hgh by set_solver. done.
Qed.

Lemma sum_add X g h : sum X (λ k, g k + h k) = sum X g + sum X h.
Proof.
  induction X as [|k X Hk IH] using set_ind_L; [by rewrite !sum_empty|].
  rewrite !sum_insert by done. lia.
Qed.

Lemma sum_zero X g : (∀ k, k ∈ X → g k = 0) → sum X g = 0.
Proof.
  induction X as [|k X Hk IH] using set_ind_L; intros Hg; [by rewrite sum_empty|].
  rewrite sum_insert, IH, Hg by set_solver. done.
Qed.

Lemma sum_padded X Y g : Y ## X → (∀ k, k ∉ X → g k = 0) → sum (Y ∪ X) g = sum X g.
Proof.
  intros Hd Hg. induction Y as [|k Y Hk IH] using set_ind_L; [by rewrite union_empty_l_L|].
  rewrite <-union_assoc_L, sum_insert by set_solver. rewrite IH, Hg by set_solver. done.
Qed.

Lemma sum_superset X Y g : X ⊆ Y → (∀ k, k ∉ X → g k = 0) → sum Y g = sum X g.
Proof.
  intros HX Hg. replace Y with (Y ∖ X ∪ X); [apply sum_padded; set_solver|].
  apply set_eq. intros k. destruct (decide (k ∈ X)); set_solver.
Qed.

Lemma total_sum {V} (f : V → Z) (m : gmap K V) X :
  dom m ⊆ X → total f m = sum X (λ k, from_option f 0 (m !! k)).
Proof.
  intros HX. rewrite (sum_superset (dom m) X).
  2: done. 2: intros k ->%not_elem_of_dom; done.
  clear HX. induction m as [|k v m Hk IH] using map_ind.
  { by rewrite total_empty, dom_empty_L, sum_empty. }
  rewrite total_insert_None, dom_insert_L, sum_insert by (done || by apply not_elem_of_dom).
  rewrite lookup_insert_eq, IH. cbn. f_equal. apply sum_ext. intros k' Hk'.
  rewrite lookup_insert_ne; [done|]. intros ->. by apply elem_of_dom in Hk' as [? ?]; congruence.
Qed.
End sums.

(** ** Billing *)

(** Upload and download are accounted alike. *)
Inductive Side := Uploaded | Downloaded.

Definition amount (side : Side) (l : LeaseState) : Z :=
  match side with Uploaded => ls_uploadedBytes l | Downloaded => ls_downloadedBytes l end.
Definition persisted (side : Side) (l : LeaseState) : Z :=
  match side with Uploaded => ls_persistedUploadedBytes l | Downloaded => ls_persistedDownloadedBytes l end.
Definition counter (side : Side) (u : UsageIncrement) : Z :=
  match side with Uploaded => ui_uploadedBytes u | Downloaded => ui_downloadedBytes u end.

(** What was acknowledged last of a lease, and for which account. *)
Definition snapshot (l : LeaseState) : list Z * (Z * Z) :=
  (ls_accountId l, (ls_uploadedBytes l, ls_downloadedBytes l)).

(** The share of account [a] in what was acknowledged. *)
Definition noted (a : list Z) (side : Side) (x : list Z * (Z * Z)) : Z :=
  if bool_decide (x.1 = a) then match side with Uploaded => x.2.1 | Downloaded => x.2.2 end else 0.

Definition LeaseOk (l : LeaseState) : Prop := ∀ side, 0 ≤ persisted side l ≤ amount side l.
Definition LeasesOk (m : gmap (list Z) LeaseState) : Prop := ∀ k l, m !! k = Some l → LeaseOk l.

(** The part of a lease's usage the account owes that is not yet written. *)
Definition owed (a : list Z) (side : Side) (l : LeaseState) : Z :=
  if bool_decide (ls_accountId l = a) then amount side l - persisted side l else 0.

Section registry.
Context {D : Type} `{EqDecision D}.
Abbreviation Registry := (LeaseRegistryState (D := D)).
Abbreviation Service := (AccountService (D := D)).

Lemma counter_addUsage side du dd o :
  0 ≤ du → 0 ≤ dd → 0 ≤ from_option (counter side) 0 o →
  from_option (counter side) 0 o + match side with Uploaded => du | Downloaded => dd end ≤ i64_max →
  counter side (addUsage du dd o)
  = from_option (counter side) 0 o + match side with Uploaded => du | Downloaded => dd end.
Proof.
  intros Hu Hd Ho Hle. unfold addUsage, i64_saturating_add, i64_clamp.
  assert (i64_min < 0) by done.
  assert (counter side (default UsageIncrement_default o) = from_option (counter side) 0 o) as Hc
    by (by destruct o, side).
  destruct side; cbn [counter ui_uploadedBytes ui_downloadedBytes] in *; lia.
Qed.

(** The usage handed to the database is what the accounts owe. *)
Lemma pendingUsage_spec (s : Registry) a side :
  LeasesOk (lg_leases s) → total (owed a side) (lg_leases s) ≤ i64_max →
  from_option (counter side) 0 (pendingUsage s !! a) = total (owed a side) (lg_leases s).
Proof.
  unfold pendingUsage. generalize (lg_leases s). intros m Hok.
  assert (∀ k l, m !! k = Some l → 0 ≤ owed a side l) as Hpos.
  { intros k l Hl. specialize (Hok k l Hl side). unfold owed. case_bool_decide; lia. }
  revert Hok Hpos.
  apply (map_fold_weak_ind (λ (r : gmap (list Z) UsageIncrement) m, LeasesOk m → (∀ k l, m !! k = Some l → 0 ≤ owed a side l) →
    total (owed a side) m ≤ i64_max →
    from_option (counter side) 0 (r !! a) = total (owed a side) m)).
  { intros _ _ _. by rewrite total_empty, lookup_empty. }
  clear m s. intros k l m r Hk IH Hok Hpos. rewrite total_insert_None by done. intros Hle.
  assert (LeaseOk l) as Hl by (apply (Hok k); apply lookup_insert_eq).
  assert (∀ k' l', m !! k' = Some l' → <[k := l]> m !! k' = Some l') as Hsub.
  { intros k' l' Hk'. rewrite lookup_insert_ne; congruence. }
  pose proof (Hpos k l (lookup_insert_eq _ _ _)) as Hpl.
  assert (0 ≤ total (owed a side) m) as Htot by (apply total_nonneg; eauto).
  specialize (IH ltac:(unfold LeasesOk; eauto) ltac:(eauto) ltac:(lia)).
  pose proof (Hl Uploaded) as Hu. pose proof (Hl Downloaded) as Hd. cbn in Hu, Hd.
  assert (∀ x y, y ≤ x → saturating_sub x y = x - y) as Hsat by (intros; unfold saturating_sub; lia).
  rewrite !Hsat by lia.
  assert (owed a side l = if bool_decide (ls_accountId l = a) then
            match side with Uploaded => ls_uploadedBytes l - ls_persistedUploadedBytes l
                          | Downloaded => ls_downloadedBytes l - ls_persistedDownloadedBytes l end
          else 0) as Howed by (by destruct side).
  destruct (_ && _) eqn:Hz.
  - apply andb_prop in Hz as [H1%Z.eqb_eq H2%Z.eqb_eq]. rewrite IH.
    enough (owed a side l = 0) by lia. rewrite Howed. case_bool_decide; destruct side; lia.
  - case_bool_decide as Ha.
    + subst a. rewrite lookup_insert_eq. cbn [from_option]. rewrite counter_addUsage by lia.
      rewrite IH. lia.
    + rewrite lookup_insert_ne by done. rewrite IH. lia.
Qed.

(** ** How the leases change *)
Abbreviation Leases := (gmap (list Z) LeaseState).

(** The same lease later on: same account, same amounts written, not less acknowledged. *)
Definition Later (l l' : LeaseState) : Prop :=
  ls_accountId l' = ls_accountId l ∧ ∀ side, persisted side l' = persisted side l ∧ amount side l ≤ amount side l'.

(** No lease appears, and one disappears only when all of it is written. *)
Definition Evolves (m m' : Leases) : Prop := ∀ k,
  match m !! k, m' !! k with
  | Some l, Some l' => Later l l'
  | Some l, None => ∀ side, amount side l = persisted side l
  | None, Some _ => False
  | None, None => True
  end.

Lemma later_refl l : Later l l.
Proof. split; [done|]. intros side. lia. Qed.

Lemma later_trans l1 l2 l3 : Later l1 l2 → Later l2 l3 → Later l1 l3.
Proof.
  intros [A1 A2] [B1 B2]. split; [congruence|]. intros side.
  specialize (A2 side). specialize (B2 side). lia.
Qed.

Lemma evolves_refl m : Evolves m m.
Proof. intros k. destruct (m !! k); [apply later_refl|done]. Qed.

Lemma evolves_trans m1 m2 m3 : Evolves m1 m2 → Evolves m2 m3 → LeasesOk m1 → Evolves m1 m3.
Proof.
  intros H1 H2 Hok k. specialize (H1 k). specialize (H2 k). specialize (Hok k).
  destruct (m1 !! k) as [l1|], (m2 !! k) as [l2|], (m3 !! k) as [l3|]; try done.
  - by eapply later_trans.
  - intros side. destruct H1 as [_ H1]. specialize (H1 side). specialize (H2 side).
    specialize (Hok l1 eq_refl side). lia.
Qed.

Lemma evolves_ok m m' : Evolves m m' → LeasesOk m → LeasesOk m'.
Proof.
  intros He Hok k l' Hl' side. specialize (He k). rewrite Hl' in He.
  destruct (m !! k) as [l|] eqn:Hl; [|done]. destruct He as [_ He]. specialize (He side).
  specialize (Hok k l Hl side). lia.
Qed.

Lemma evolves_insert m k l l' : m !! k = Some l → Later l l' → Evolves m (<[k := l']> m).
Proof.
  intros Hl Hlt k'. destruct (decide (k = k')) as [<-|Hne].
  - by rewrite Hl, lookup_insert_eq.
  - rewrite lookup_insert_ne by done. destruct (m !! k'); [apply later_refl|done].
Qed.

Lemma evolves_fmap (f : LeaseState → LeaseState) m : (∀ l, Later l (f l)) → Evolves m (f <$> m).
Proof. intros Hf k. rewrite lookup_fmap. destruct (m !! k); cbn; [apply Hf|done]. Qed.

Lemma later_flags r f l : Later l (set_flags r f l).
Proof. split; [done|]. intros []; cbn; lia. Qed.

Lemma evolves_purge now m : Evolves m (omap (purgeLease now) m).
Proof.
  intros k. rewrite lookup_omap. destruct (m !! k) as [l|]; cbn; [|done].
  unfold purgeLease. destruct (timedOut now l); cbn.
  - destruct (Z.eqb_spec (ls_uploadedBytes l) (ls_persistedUploadedBytes l)); cbn; [|apply later_flags].
    destruct (Z.eqb_spec (ls_downloadedBytes l) (ls_persistedDownloadedBytes l)); cbn; [|apply later_flags].
    by intros [].
  - apply later_refl.
Qed.

Lemma evolves_synchronizeLease now m p : Evolves m (synchronizeLease now m p).1.
Proof.
  unfold synchronizeLease. destruct (m !! lp_leaseId p) as [l|] eqn:Hl; [|apply evolves_refl].
  case_if Hc; [apply evolves_refl|]. case_if Hm; cbn [fst].
  - by eapply evolves_insert, later_flags.
  - apply orb_false_iff in Hm as [H1%Z.ltb_ge H2%Z.ltb_ge].
    eapply evolves_insert; [done|]. split; [done|]. intros []; cbn; lia.
Qed.

Lemma evolves_synchronizeAll now ps : ∀ m, LeasesOk m → Evolves m (synchronizeAll now m ps).1.
Proof.
  induction ps as [|p ps IH]; intros m Hok; cbn [synchronizeAll]; [apply evolves_refl|].
  pose proof (evolves_synchronizeLease now m p) as H1.
  destruct (synchronizeLease now m p) as [m1 r]. cbn in H1.
  specialize (IH m1 (evolves_ok _ _ H1 Hok)). destruct (synchronizeAll now m1 ps) as [m2 rs]. cbn in *.
  by eapply evolves_trans.
Qed.

Lemma evolves_reconcile account time (s : Registry) :
  Evolves (lg_leases s) (lg_leases (reconcileAccount account time s)).
Proof.
  apply evolves_fmap. intros l. case_bool_decide; [|apply later_refl].
  split; [done|]. intros []; cbn; lia.
Qed.

Lemma evolves_revoke a (s : Registry) : Evolves (lg_leases s) (lg_leases (revokeAccount a s).1).
Proof. apply evolves_fmap. intros l. case_if Ha; [apply later_flags|apply later_refl]. Qed.

Lemma evolves_synchronize digest inst now req (s : Registry) :
  LeasesOk (lg_leases s) → Evolves (lg_leases s) (lg_leases (synchronize digest inst now req s).1).
Proof.
  intros Hok. unfold synchronize. case_if Hi; [apply evolves_refl|].
  unfold mbind, stateful_bind, gets, modify. cbn [id].
  destruct (lg_batches s !! lr_batchId req) as [record|].
  { case_if Hd; apply evolves_refl. }
  pose proof (evolves_purge now (lg_leases s)) as Hp.
  set (s1 := purgeExpiredLeases now s). change (omap (purgeLease now) (lg_leases s)) with (lg_leases s1) in Hp.
  pose proof (evolves_synchronizeAll now (lr_leases req) (lg_leases s1) (evolves_ok _ _ Hp Hok)) as Hs.
  destruct (synchronizeAll now (lg_leases s1) (lr_leases req)) as [m rs]. cbn in Hs |- *.
  unfold rememberBatch. destruct (_ : _ * _); cbn. by eapply evolves_trans.
Qed.

(** ** The books *)
Abbreviation History := (gmap (list Z) (list Z * (Z * Z))).

(** What was last acknowledged of every lease, those of [m] included. *)
Definition noting (m : Leases) (h : History) : History := (snapshot <$> m) ∪ h.

(** The part of lease [k]'s usage that the books of account [a] contain. *)
Definition settled (a : list Z) (side : Side) (m : Leases) (h : History) (k : list Z) : Z :=
  match m !! k with
  | Some l => if bool_decide (ls_accountId l = a) then persisted side l else 0
  | None => from_option (noted a side) 0 (h !! k)
  end.

Record Books (base : list Z → Side → Z) (w : Service) (h : History) : Prop := {
  bk_ok : LeasesOk (lg_leases (as_leases w));
  bk_live k l : lg_leases (as_leases w) !! k = Some l → h !! k = Some (snapshot l);
  bk_balance a side row : as_ledger w !! a = Some row →
    counter side row = base a side + sum (dom h) (settled a side (lg_leases (as_leases w)) h)
}.

Lemma noting_live m h k l : m !! k = Some l → noting m h !! k = Some (snapshot l).
Proof. intros Hl. apply lookup_union_Some_l. by rewrite lookup_fmap, Hl. Qed.

Lemma noting_dead m h k : m !! k = None → noting m h !! k = h !! k.
Proof. intros Hl. apply lookup_union_r. by rewrite lookup_fmap, Hl. Qed.

Lemma noting_dom m h : dom h ⊆ dom (noting m h).
Proof. unfold noting. rewrite dom_union_L. set_solver. Qed.

Lemma noted_snapshot a side l :
  noted a side (snapshot l) = if bool_decide (ls_accountId l = a) then amount side l else 0.
Proof. unfold noted, snapshot. cbn. by destruct side. Qed.

(** The settled amounts are what the sum counts: outside the history there is nothing. *)
Lemma settled_outside a side m h k :
  (∀ l, m !! k = Some l → h !! k = Some (snapshot l)) → k ∉ dom h → settled a side m h k = 0.
Proof.
  intros Hlive Hk%not_elem_of_dom. unfold settled. destruct (m !! k) as [l|]; [|by rewrite Hk].
  specialize (Hlive l eq_refl). congruence.
Qed.

Lemma settled_evolves a side m m' h k :
  Evolves m m' → (∀ l, m !! k = Some l → h !! k = Some (snapshot l)) →
  settled a side m' (noting m' h) k = settled a side m h k.
Proof.
  intros He Hlive. specialize (He k). unfold settled.
  destruct (m' !! k) as [l'|] eqn:Hl'.
  - destruct (m !! k) as [l|]; [|done]. destruct He as [-> He]. by rewrite (proj1 (He side)).
  - rewrite noting_dead by done. destruct (m !! k) as [l|]; [|done].
    rewrite (Hlive l) by done. cbn. rewrite noted_snapshot. by rewrite He.
Qed.

(** Any change of the leases that writes nothing keeps the books. *)
Lemma books_evolve base w h s' :
  Books base w h → Evolves (lg_leases (as_leases w)) (lg_leases s') →
  Books base {| as_leases := s'; as_ledger := as_ledger w |} (noting (lg_leases s') h).
Proof.
  intros [Hok Hlive Hbal] He. constructor; cbn.
  - by eapply evolves_ok.
  - intros k l. apply noting_live.
  - intros a side row Hrow. rewrite (Hbal a side row Hrow). f_equal.
    rewrite <-(sum_superset (dom h) (dom (noting (lg_leases s') h)))
      by (apply noting_dom || (intros k; apply settled_outside, Hlive)).
    apply sum_ext. intros k _. symmetry. apply settled_evolves; [done|apply Hlive].
Qed.

(** Committing what is owed. *)
Lemma books_commit base w h usage :
  Books base w h → let m := lg_leases (as_leases w) in
  (∀ a side, from_option (counter side) 0 (usage !! a) = total (owed a side) m) →
  Books base
    {| as_leases := set_leases (filter (λ '(_, l), ls_finalPending l = false) (set_persisted <$> m)) (as_leases w);
       as_ledger := applyUsage usage (as_ledger w) |} h.
Proof.
  intros [Hok Hlive Hbal] m Husage.
  set (m' := filter (λ '(_, l), ls_finalPending l = false) (set_persisted <$> m)).
  assert (∀ k l', m' !! k = Some l' → ∃ l, m !! k = Some l ∧ l' = set_persisted l) as Hkept.
  { intros k l' [Hl' _]%map_lookup_filter_Some. rewrite lookup_fmap, fmap_Some in Hl'.
    destruct Hl' as (l & ? & ?). eauto. }
  constructor; cbn.
  - intros k l' (l & Hl & ->)%Hkept. intros side. specialize (Hok k l Hl side). destruct side; cbn in *; lia.
  - intros k l' (l & Hl & ->)%Hkept. exact (Hlive k l Hl).
  - intros a side row. unfold applyUsage. rewrite map_lookup_imap.
    destruct (as_ledger w !! a) as [row0|] eqn:Hrow0; [|done]. cbn. intros [= <-].
    assert (counter side (from_option (addCounters row0) row0 (usage !! a))
            = counter side row0 + from_option (counter side) 0 (usage !! a)) as ->.
    { destruct (usage !! a); cbn; [by destruct side|lia]. }
    rewrite (Hbal a side row0 Hrow0), Husage, (total_sum _ m (dom h)).
    2: { intros k [l Hl]%elem_of_dom. apply elem_of_dom. rewrite (Hlive k l Hl). done. }
    rewrite <-Z.add_assoc, <-sum_add. f_equal. apply sum_ext. intros k _. unfold settled.
    destruct (m' !! k) as [l'|] eqn:Hl'.
    + apply Hkept in Hl' as (l & Hl & ->). fold m. rewrite Hl. cbn. unfold owed.
      case_bool_decide; destruct side; cbn; lia.
    + fold m. destruct (m !! k) as [l|] eqn:Hl; cbn; [|lia]. unfold m in Hl. rewrite (Hlive k l Hl). cbn.
      rewrite noted_snapshot. unfold owed. case_bool_decide; lia.
Qed.

(** ** Reachable states *)
Section steps.
Context (digest : LeaseSynchronizationRequest → D)
  (instanceId : list Z).

(** One operation of the service, with what it leaves acknowledged.  Counters of one
    synchronization together stay below the largest [i64]. *)
Inductive ServiceStep : Service * History → Service * History → Prop :=
| step_create w h now leaseId account request s' r :
    h !! leaseId = None →
    createLease now leaseId account request (as_leases w) = (s', r) →
    ServiceStep (w, h) ({| as_leases := s'; as_ledger := as_ledger w |}, noting (lg_leases s') h)
| step_synchronize w h now committed request w' r :
    let s1 := (synchronize digest instanceId now request (as_leases w)).1 in
    (∀ a side, total (owed a side) (lg_leases s1) ≤ i64_max) →
    synchronizeLeases digest instanceId now committed request w = (w', r) →
    ServiceStep (w, h) (w', noting (lg_leases s1) h)
| step_reconcile w h account time :
    let s' := reconcileAccount account time (as_leases w) in
    ServiceStep (w, h) ({| as_leases := s'; as_ledger := as_ledger w |}, noting (lg_leases s') h)
| step_revoke w h accountId :
    let s' := (revokeAccount accountId (as_leases w)).1 in
    ServiceStep (w, h) ({| as_leases := s'; as_ledger := as_ledger w |}, noting (lg_leases s') h)
| step_view w h now :
    let s' := purgeExpiredLeases now (as_leases w) in
    ServiceStep (w, h) ({| as_leases := s'; as_ledger := as_ledger w |}, noting (lg_leases s') h)
| step_delete w h accountId :
    let s' := (removeAccount accountId (as_leases w)).1 in
    ServiceStep (w, h) ({| as_leases := s'; as_ledger := delete accountId (as_ledger w) |}, h).

Lemma books_create base w h now leaseId account request s' r :
  Books base w h → h !! leaseId = None →
  createLease now leaseId account request (as_leases w) = (s', r) →
  Books base {| as_leases := s'; as_ledger := as_ledger w |} (noting (lg_leases s') h).
Proof.
  intros Hb Hfresh. unfold createLease, mbind, stateful_bind, lift, modify, gets.
  destruct (normalizeSourceIp _) as [ip|e|].
  2, 3: intros [= <- <-]; apply books_evolve; [done|apply evolves_refl].
  set (s1 := purgeExpiredLeases now (as_leases w)).
  assert (Evolves (lg_leases (as_leases w)) (lg_leases s1)) as He by apply evolves_purge.
  case_if Hc; [intros [= <- <-]; by apply books_evolve|]. cbn zeta.
  case_if Hi; [intros [= <- <-]; by apply books_evolve|].
  unfold mret, stateful_ret. set (new := {| ls_leaseId := leaseId |}). intros [= <- <-].
  pose proof (books_evolve _ _ _ _ Hb He) as [Hok Hlive Hbal]. cbn [as_leases as_ledger] in *.
  destruct Hb as [_ Hlive0 _].
  assert (lg_leases s1 !! leaseId = None) as Hnone.
  { destruct (lg_leases s1 !! leaseId) as [l|] eqn:Hl; [|done]. specialize (He leaseId). rewrite Hl in He.
    destruct (lg_leases (as_leases w) !! leaseId) as [l0|] eqn:Hl0; [|done].
    apply Hlive0 in Hl0. congruence. }
  constructor; cbn.
  - intros k l [[-> <-]|[_ Hl]]%lookup_insert_Some; [by intros []|by eapply Hok].
  - intros k l. apply noting_live.
  - intros a side row Hrow. rewrite (Hbal a side row Hrow). f_equal.
    rewrite <-(sum_superset (dom (noting (lg_leases s1) h)) (dom (noting (<[leaseId := new]> (lg_leases s1)) h))).
    2: { unfold noting. rewrite !dom_union_L, !dom_fmap_L, dom_insert_L. set_solver. }
    2: { intros k. apply settled_outside, Hlive. }
    change (omap (purgeLease now) (lg_leases (as_leases w))) with (lg_leases s1).
    apply sum_ext. intros k _. unfold settled. destruct (decide (k = leaseId)) as [->|Hne].
    + rewrite lookup_insert_eq, Hnone, noting_dead, Hfresh by done. cbn. destruct side; by case_match.
    + rewrite lookup_insert_ne by done. destruct (lg_leases s1 !! k) as [l|] eqn:Hl; [done|].
      by rewrite !noting_dead by (done || by rewrite lookup_insert_ne).
Qed.

Lemma rememberBatch_found batchId d response (s : Registry) :
  lg_batches (rememberBatch batchId d response s) !! batchId
  = Some {| br_requestDigest := d; br_response := response |}.
Proof. unfold rememberBatch. case_let b o. cbn. apply lookup_insert_eq. Qed.

Lemma rememberBatch_leases batchId d response (s : Registry) :
  lg_leases (rememberBatch batchId d response s) = lg_leases s.
Proof. unfold rememberBatch. by case_let b o. Qed.

(** A synchronization hands out what is owed and leaves the batch remembered. *)
Lemma synchronize_Ok now request s s1 response usage :
  synchronize digest instanceId now request s = (s1, Ok (response, usage)) →
  usage = pendingUsage s1 ∧ lr_serviceInstanceId request = instanceId ∧
  lg_batches s1 !! lr_batchId request
  = Some {| br_requestDigest := digest request; br_response := response |}.
Proof.
  unfold synchronize. destruct (bool_decide _) eqn:Hi; cbn [negb]; [|done].
  apply bool_decide_eq_true in Hi. unfold mbind, stateful_bind, gets, modify, mret, stateful_ret. cbn [id].
  destruct (lg_batches s !! lr_batchId request) as [record|] eqn:Hr.
  - destruct (bool_decide (br_requestDigest record = digest request)) eqn:Hd; cbn [negb]; [|done].
    apply bool_decide_eq_true in Hd. intros [= <- <- <-]. split; [done|]. split; [done|].
    rewrite Hr. destruct record. cbn in *. by subst.
  - destruct (synchronizeAll _ _ _) as [m rs]. intros [= <- <- <-]. split; [done|]. split; [done|].
    apply rememberBatch_found.
Qed.

(** It fails only with a conflict. *)
Lemma synchronize_conflict now request (s : Registry) :
  match (synchronize digest instanceId now request s).2 with
  | Ok _ => True
  | Err e => e = StateConflict
  | Panic => False
  end.
Proof.
  unfold synchronize. case_if Hi; [done|].
  unfold mbind, stateful_bind, gets, modify, mret, stateful_ret. cbn [id].
  destruct (lg_batches s !! lr_batchId request); [by case_if Hd|]. by destruct (synchronizeAll _ _ _).
Qed.

Lemma confirm_known batchId (s : Registry) record :
  lg_batches s !! batchId = Some record →
  confirmUsageCommitted batchId s
  = (set_leases (filter (λ '(_, l), ls_finalPending l = false) (set_persisted <$> lg_leases s)) s, Ok tt).
Proof. intros Hb. unfold confirmUsageCommitted, mbind, stateful_bind, gets. cbn [id]. by rewrite Hb. Qed.

Lemma books_synchronize base w h now committed request w' r :
  Books base w h →
  let s1 := (synchronize digest instanceId now request (as_leases w)).1 in
  (∀ a side, total (owed a side) (lg_leases s1) ≤ i64_max) →
  synchronizeLeases digest instanceId now committed request w = (w', r) →
  Books base w' (noting (lg_leases s1) h).
Proof.
  intros Hb s1 Hbound. pose proof (evolves_synchronize digest instanceId now request _ (bk_ok _ _ _ Hb)) as He.
  fold s1 in He. pose proof (books_evolve _ _ _ _ Hb He) as Hb1.
  unfold synchronizeLeases. destruct (synchronize _ _ _ _ _) as [s res] eqn:Hsync.
  subst s1. cbn [fst] in *. destruct res as [[response usage]|e|].
  2, 3: by intros [= <- <-].
  apply synchronize_Ok in Hsync as (-> & _ & Hrec). destruct committed; cbn [negb]; [|by intros [= <- <-]].
  rewrite (confirm_known _ _ _ Hrec). intros [= <- <-].
  apply (books_commit _ _ _ _ Hb1). intros a side. apply pendingUsage_spec; [|apply Hbound].
  exact (bk_ok _ _ _ Hb1).
Qed.

Lemma books_delete base w h accountId :
  Books base w h →
  Books base {| as_leases := (removeAccount accountId (as_leases w)).1;
                as_ledger := delete accountId (as_ledger w) |} h.
Proof.
  intros [Hok Hlive Hbal]. constructor; cbn.
  - intros k l [Hl _]%map_lookup_filter_Some. by eapply Hok.
  - intros k l [Hl _]%map_lookup_filter_Some. by apply Hlive.
  - intros a side row [Hne Hrow]%lookup_delete_Some. rewrite (Hbal a side row Hrow). f_equal.
    apply sum_ext. intros k _. unfold settled.
    destruct (lg_leases (as_leases w) !! k) as [l|] eqn:Hl.
    + destruct (decide (ls_accountId l = accountId)) as [Ha|Ha].
      * rewrite (proj2 (map_lookup_filter_None _ _ _)).
        2: { right. intros l' Hl' Hx. rewrite Hl in Hl'. injection Hl' as <-. done. }
        rewrite (Hlive k l Hl). cbn. rewrite noted_snapshot, !bool_decide_false by congruence. done.
      * rewrite (proj2 (map_lookup_filter_Some _ _ k l)); [done|]. split; [exact Hl|done].
    + rewrite (proj2 (map_lookup_filter_None _ _ _)); [done|]. by left.
Qed.

Lemma books_step base w h w' h' :
  ServiceStep (w, h) (w', h') → Books base w h → Books base w' h'.
Proof.
  intros Hstep Hb. inversion Hstep; subst.
  - by eapply books_create.
  - by eapply books_synchronize.
  - apply books_evolve; [done|apply evolves_reconcile].
  - apply books_evolve; [done|apply evolves_revoke].
  - apply books_evolve; [done|apply evolves_purge].
  - by apply books_delete.
Qed.

(** The state after a restart: no leases, the counters the database holds. *)
Definition restarted (ledger : gmap (list Z) UsageIncrement) : Service :=
  {| as_leases := LeaseRegistry_new; as_ledger := ledger |}.

Definition baseOf (ledger : gmap (list Z) UsageIncrement) (a : list Z) (side : Side) : Z :=
  from_option (counter side) 0 (ledger !! a).

Lemma books_restarted ledger : Books (baseOf ledger) (restarted ledger) ∅.
Proof.
  constructor; cbn.
  - intros k l Hl. by rewrite lookup_empty in Hl.
  - intros k l Hl. by rewrite lookup_empty in Hl.
  - intros a side row Hrow. rewrite dom_empty_L, sum_empty. unfold baseOf. rewrite Hrow. cbn. lia.
Qed.

Lemma books_reachable ledger w h :
  rtc ServiceStep (restarted ledger, ∅) (w, h) → Books (baseOf ledger) w h.
Proof.
  intros Hrtc. remember (restarted ledger, ∅) as x eqn:Hx. remember (w, h) as y eqn:Hy.
  assert (Books (baseOf ledger) x.1 x.2) as Hb by (subst; apply books_restarted).
  enough (Books (baseOf ledger) y.1 y.2) by (by subst). clear Hx Hy.
  induction Hrtc as [|[w1 h1] [w2 h2] y Hstep _ IH]; [done|]. apply IH. by eapply books_step.
Qed.

(** C6: Usage is billed exactly once.  In every state the service reaches from a
    restart, by authentications, synchronizations whose transactions commit or fail,
    retries, expiry, policy changes, revocations and deletions, the counter of an
    account in the database, plus what its live leases still owe, is its counter at
    the restart plus what was last acknowledged of every lease it ever had. *)
Theorem usage_billed_exactly_once ledger w h a side row :
  rtc ServiceStep (restarted ledger, ∅) (w, h) → as_ledger w !! a = Some row →
  counter side row + total (owed a side) (lg_leases (as_leases w))
  = baseOf ledger a side + sum (dom h) (λ k, from_option (noted a side) 0 (h !! k)).
Proof.
  intros [Hok Hlive Hbal]%books_reachable Hrow. rewrite (Hbal a side row Hrow).
  rewrite (total_sum _ _ (dom h)).
  2: { intros k [l Hl]%elem_of_dom. apply elem_of_dom. rewrite (Hlive k l Hl). done. }
  rewrite <-Z.add_assoc, <-sum_add. f_equal. apply sum_ext. intros k _. unfold settled.
  destruct (lg_leases (as_leases w) !! k) as [l|] eqn:Hl; cbn; [|lia].
  rewrite (Hlive k l Hl). cbn. rewrite noted_snapshot. unfold owed. case_bool_decide; lia.
Qed.

(** ** Retries *)
Lemma pendingUsage_written (s : Registry) :
  (∀ k l, lg_leases s !! k = Some l → ∀ side, persisted side l = amount side l) → pendingUsage s = ∅.
Proof.
  intros Hw. unfold pendingUsage. revert Hw. generalize (lg_leases s). intros m Hw. revert Hw.
  apply (map_fold_weak_ind (λ (r : gmap (list Z) UsageIncrement) m,
    (∀ k l, m !! k = Some l → ∀ side, persisted side l = amount side l) → r = ∅)); [done|].
  clear. intros k l m r Hk IH Hw. rewrite IH.
  2: { intros k' l' Hl'. apply (Hw k'). rewrite lookup_insert_ne; congruence. }
  pose proof (Hw k l (lookup_insert_eq _ _ _)) as Hl.
  pose proof (Hl Uploaded) as Hu. pose proof (Hl Downloaded) as Hd. cbn in Hu, Hd.
  unfold saturating_sub. rewrite Hu, Hd, !Z.sub_diag. done.
Qed.

Definition confirmed (m : Leases) : Leases :=
  filter (λ '(_, l), ls_finalPending l = false) (set_persisted <$> m).

Lemma confirmed_lookup m k l' : confirmed m !! k = Some l' →
  ∃ l, m !! k = Some l ∧ l' = set_persisted l ∧ ls_finalPending l = false.
Proof.
  intros [Hl Hf]%map_lookup_filter_Some. rewrite lookup_fmap, fmap_Some in Hl.
  destruct Hl as (l & Hl & ->). eauto.
Qed.

Lemma confirmed_idemp m : confirmed (confirmed m) = confirmed m.
Proof.
  assert (set_persisted <$> confirmed m = confirmed m) as Hp.
  { apply map_eq. intros k. rewrite lookup_fmap. destruct (confirmed m !! k) as [l'|] eqn:Hl; [|done].
    apply confirmed_lookup in Hl as (l & _ & -> & _). done. }
  unfold confirmed at 1. rewrite Hp. apply map_filter_id.
  intros k l' (l & _ & -> & Hf)%confirmed_lookup. done.
Qed.

Lemma applyUsage_empty (ledger : gmap (list Z) UsageIncrement) : applyUsage ∅ ledger = ledger.
Proof.
  apply map_eq. intros a. unfold applyUsage. rewrite map_lookup_imap, lookup_empty.
  by destruct (ledger !! a).
Qed.

(** A synchronization of a batch that is remembered. *)
Lemma synchronize_known now request (s : Registry) response :
  lr_serviceInstanceId request = instanceId →
  lg_batches s !! lr_batchId request
  = Some {| br_requestDigest := digest request; br_response := response |} →
  synchronize digest instanceId now request s = (s, Ok (response, pendingUsage s)).
Proof.
  intros Hi Hr. unfold synchronize. rewrite bool_decide_true by done. cbn [negb].
  unfold mbind, stateful_bind, gets. cbn [id]. rewrite Hr. cbn [br_requestDigest].
  by rewrite bool_decide_true by done.
Qed.

(** Retrying a synchronization is safe.  When the database transaction fails,
    sending the same request again, at any later time, does exactly what the first
    one would have done had it committed; and when it succeeded, sending it again
    returns the same response and changes nothing. *)
Theorem synchronize_retry now now' request w :
  match synchronizeLeases digest instanceId now false request w with
  | (w1, Err Database) =>
      synchronizeLeases digest instanceId now' true request w1
      = synchronizeLeases digest instanceId now true request w
  | _ => True
  end ∧
  match synchronizeLeases digest instanceId now true request w with
  | (w1, Ok response) =>
      synchronizeLeases digest instanceId now' true request w1 = (w1, Ok response)
  | _ => True
  end.
Proof.
  unfold synchronizeLeases at 1 3 4. cbn [negb].
  pose proof (synchronize_conflict now request (as_leases w)) as Hc.
  destruct (synchronize digest instanceId now request (as_leases w)) as [s1 [[response usage]|e|]] eqn:Hs.
  2: by cbn in Hc; subst e. 2: done.
  apply synchronize_Ok in Hs as (-> & Hi & Hr). rewrite (confirm_known _ _ _ Hr). split.
  - unfold synchronizeLeases. cbn [as_leases as_ledger].
    rewrite (synchronize_known _ _ _ _ Hi Hr). cbn [negb]. by rewrite (confirm_known _ _ _ Hr).
  - unfold synchronizeLeases. cbn [as_leases as_ledger]. fold (confirmed (lg_leases s1)).
    set (s2 := set_leases (confirmed (lg_leases s1)) s1).
    rewrite (synchronize_known now' request s2 response Hi Hr). cbn [negb].
    rewrite (confirm_known _ s2 _ Hr). rewrite pendingUsage_written, applyUsage_empty.
    + fold (confirmed (lg_leases s2)). change (lg_leases s2) with (confirmed (lg_leases s1)).
      by rewrite confirmed_idemp.
    + intros k l' (l & _ & -> & _)%confirmed_lookup. by intros [].
Qed.

(** ** Admission *)
Lemma accountLeases_insert a (s : Registry) k l :
  lg_leases s !! k = None → isActive a l = true →
  accountLeases a (set_leases (<[k := l]> (lg_leases s)) s) ≡ₚ l :: accountLeases a s.
Proof.
  intros Hk Ha. unfold accountLeases. cbn [lg_leases set_leases].
  rewrite (map_to_list_insert _ _ _ Hk), fmap_cons. by rewrite filter_cons_True.
Qed.

(** Admission respects the account's limits.  A lease is created only while the
    account has fewer active leases than its limit, and from a new address only
    while it has fewer online addresses than its limit; the new lease is then
    active and belongs to the account.  Authentication fails only for an address
    that does not parse or when one of the limits is reached, and leaves no lease. *)
Theorem admission_respects_limits now leaseId account request (s : Registry) :
  lg_leases s !! leaseId = None →
  let policy := ac_policy account in
  let active := accountLeases (ac_accountId account) (purgeExpiredLeases now s) in
  Runs (createLease now leaseId account request) s
    (λ id s', id = leaseId ∧
       ∃ l, accountLeases (ac_accountId account) s' ≡ₚ l :: active ∧ lg_leases s' !! leaseId = Some l ∧
         (0 < po_maxConnections policy → len (accountLeases (ac_accountId account) s') ≤ po_maxConnections policy) ∧
         (0 < po_maxOnlineIps policy → ls_sourceIp l ∉ onlineIps active →
          Z.of_nat (size (onlineIps (accountLeases (ac_accountId account) s'))) ≤ po_maxOnlineIps policy))
    (λ e s', (e = Validation ∧ s' = s ∧ parse_ip (ar_sourceIp request) = None) ∨
       (e = SocksAuthenticationFailed ∧ s' = purgeExpiredLeases now s ∧
        ((0 < po_maxConnections policy ∧ po_maxConnections policy ≤ len active) ∨
         (0 < po_maxOnlineIps policy ∧ po_maxOnlineIps policy ≤ Z.of_nat (size (onlineIps active)))))).
Proof.
  intros Hfresh policy active. unfold createLease. apply runs_bind, runs_lift.
  unfold normalizeSourceIp. destruct (parse_ip (ar_sourceIp request)) as [address|] eqn:Hparse.
  2: { cbn. by left. }
  cbn [ok_or mbind outcome_bind]. apply satisfies_ret. set (ip := match address with V4 _ => _ | V6 _ => _ end).
  apply runs_bind, runs_modify, runs_bind, runs_gets. fold active policy.
  case_if Hc.
  { apply runs_fail. right. apply andb_prop in Hc as [H1%Z.ltb_lt H2%Z.leb_le]. tauto. }
  case_if Hi.
  { apply runs_fail. right. apply andb_prop in Hi as [[_ H1%Z.ltb_lt]%andb_prop H2%Z.leb_le]. tauto. }
  apply runs_bind, runs_modify, runs_ret. split; [done|]. set (l := {| ls_leaseId := leaseId |}).
  set (s1 := purgeExpiredLeases now s).
  assert (lg_leases s1 !! leaseId = None) as Hnone.
  { unfold s1. cbn. rewrite lookup_omap, Hfresh. done. }
  assert (isActive (ac_accountId account) l = true) as Ha.
  { unfold isActive. cbn. by rewrite bool_decide_true. }
  pose proof (accountLeases_insert (ac_accountId account) s1 leaseId l Hnone Ha) as Hperm.
  change (accountLeases (ac_accountId account) s1) with active in Hperm.
  exists l. split; [exact Hperm|]. split; [apply lookup_insert_eq|]. split.
  - intros Hpos. unfold len. rewrite Hperm. cbn [length].
    apply andb_false_iff in Hc as [H1%Z.ltb_ge|H1%Z.leb_gt]; [lia|]. unfold len in H1. lia.
  - intros Hpos Hnew. unfold onlineIps. rewrite Hperm. cbn [fmap list_fmap list_to_set].
    fold (onlineIps active). rewrite size_union by (by apply disjoint_singleton_l). rewrite size_singleton.
    rewrite bool_decide_false in Hi by done. cbn [negb andb] in Hi.
    apply andb_false_iff in Hi as [H1%Z.ltb_ge|H1%Z.leb_gt]; lia.
Qed.
End steps.
End registry.

(** * Leases of one account

    A lease is created, reports its traffic twice, the first time while the database
    is down, and is closed; the theorems are applied to this history. *)

Definition policyEx : AccountPolicy :=
  {| po_maxUploadBytesPerSecond := -1; po_maxDownloadBytesPerSecond := -1; po_maxConnections := 2;
     po_maxOnlineIps := 1; po_expiresAt := -1 |}.

Definition accountEx : StoredAccount :=
  {| ac_accountId := [1]; ac_username := [98]; ac_passwordHash := None; ac_passwordSalt := None;
     ac_policy := policyEx; ac_policyRevision := 3; ac_remark := None; ac_createdAt := 0;
     ac_updatedAt := 0 |}.

(** A connection from 10.0.0.1. *)
Definition authenticationEx : LeaseAuthenticationRequest :=
  {| ar_connectionId := [7]; ar_username := [98]; ar_password := [112];
     ar_sourceIp := [49; 48; 46; 48; 46; 48; 46; 49] |}.

Definition progressEx (uploaded : Z) (final : bool) : LeaseProgress :=
  {| lp_leaseId := [9]; lp_connectionId := [7]; lp_uploadedBytes := uploaded;
     lp_downloadedBytes := 5; lp_final := final |}.

Definition requestEx (batch uploaded : Z) (final : bool) : LeaseSynchronizationRequest :=
  {| lr_serviceInstanceId := [0]; lr_batchId := [batch]; lr_leases := [progressEx uploaded final] |}.

(** A digest that tells these requests apart. *)
Definition digestEx (r : LeaseSynchronizationRequest) : list Z :=
  lr_batchId r ++ (lp_uploadedBytes <$> lr_leases r).

Definition ledgerEx : gmap (list Z) UsageIncrement := {[ [1] := UsageIncrement_default ]}.

Abbreviation State := (AccountService (D := list Z) * gmap (list Z) (list Z * (Z * Z)))%type.

Definition created : State :=
  let s := (createLease 1000 [9] accountEx authenticationEx LeaseRegistry_new).1 in
  ({| as_leases := s; as_ledger := ledgerEx |}, noting (lg_leases s) ∅).

Definition synchronized (now : Z) (committed : bool) (request : LeaseSynchronizationRequest) (x : State)
    : State :=
  ((synchronizeLeases digestEx [0] now committed request x.1).1,
   noting (lg_leases (synchronize digestEx [0] now request (as_leases x.1)).1) x.2).

Definition lostEx : State := synchronized 2000 false (requestEx 1 40 false) created.
Definition closedEx : State := synchronized 3000 true (requestEx 2 100 true) lostEx.

Lemma synchronized_step now committed request x :
  (∀ a side, total (owed a side) (lg_leases (synchronize digestEx [0] now request (as_leases x.1)).1) ≤ i64_max) →
  ServiceStep digestEx [0] x (synchronized now committed request x).
Proof.
  intros Hb. destruct x as [w h].
  eapply (step_synchronize digestEx [0] w h now committed request); [exact Hb|]. apply surjective_pairing.
Qed.

Lemma single_bound (l : LeaseState) (m : gmap (list Z) LeaseState) :
  m = {[ [9] := l ]} → ls_uploadedBytes l - ls_persistedUploadedBytes l ≤ i64_max →
  ls_downloadedBytes l - ls_persistedDownloadedBytes l ≤ i64_max →
  ∀ a side, total (owed a side) m ≤ i64_max.
Proof.
  intros -> Hu Hd a side. rewrite <-insert_empty, total_insert_None, total_empty by apply lookup_empty.
  unfold owed. case_bool_decide; [|done]. destruct side; cbn; lia.
Qed.

Lemma historyEx : rtc (ServiceStep digestEx [0]) (restarted ledgerEx, ∅) closedEx.
Proof.
  eapply rtc_l; [eapply (step_create digestEx [0] (restarted ledgerEx) ∅ 1000 [9] accountEx authenticationEx);
                 [apply lookup_empty|apply surjective_pairing]|].
  eapply rtc_l; [apply (synchronized_step 2000 false (requestEx 1 40 false))|].
  { eapply single_bound; [vm_compute; reflexivity|vm_compute; discriminate|vm_compute; discriminate]. }
  eapply rtc_l; [apply (synchronized_step 3000 true (requestEx 2 100 true))|apply rtc_refl].
  eapply single_bound; [vm_compute; reflexivity|vm_compute; discriminate|vm_compute; discriminate].
Qed.

(** The database counts 100 uploaded bytes, once. *)
Lemma closedEx_ledger :
  ui_uploadedBytes <$> as_ledger closedEx.1 !! [1] = Some 100 ∧ lg_leases (as_leases closedEx.1) = ∅.
Proof. vm_compute. done. Qed.

Definition rowEx : UsageIncrement :=
  {| ui_uploadedBytes := 100; ui_downloadedBytes := 5; ui_acceptedConnections := 0;
     ui_rejectedAuthentications := 0 |}.

Lemma usage_billed_exactly_once_witness :
  counter Uploaded rowEx + total (owed [1] Uploaded) (lg_leases (as_leases closedEx.1))
  = baseOf ledgerEx [1] Uploaded
    + sum (dom closedEx.2) (λ k, from_option (noted [1] Uploaded) 0 (closedEx.2 !! k)).
Proof.
  apply (usage_billed_exactly_once digestEx [0] ledgerEx closedEx.1 closedEx.2 [1] Uploaded rowEx).
  - rewrite <-surjective_pairing. exact historyEx.
  - vm_compute. reflexivity.
Defined.

Definition registryEx : LeaseRegistryState (D := list Z) := as_leases created.1.

Lemma admission_respects_limits_witness :
  let policy := ac_policy accountEx in
  let active := accountLeases (ac_accountId accountEx) (purgeExpiredLeases 1500 registryEx) in
  Runs (createLease 1500 [8] accountEx authenticationEx) registryEx
    (λ id s', id = [8] ∧
       ∃ l, accountLeases (ac_accountId accountEx) s' ≡ₚ l :: active ∧ lg_leases s' !! [8] = Some l ∧
         (0 < po_maxConnections policy → len (accountLeases (ac_accountId accountEx) s') ≤ po_maxConnections policy) ∧
         (0 < po_maxOnlineIps policy → ls_sourceIp l ∉ onlineIps active →
          Z.of_nat (size (onlineIps (accountLeases (ac_accountId accountEx) s'))) ≤ po_maxOnlineIps policy))
    (λ e s', (e = Validation ∧ s' = registryEx ∧ parse_ip (ar_sourceIp authenticationEx) = None) ∨
       (e = SocksAuthenticationFailed ∧ s' = purgeExpiredLeases 1500 registryEx ∧
        ((0 < po_maxConnections policy ∧ po_maxConnections policy ≤ len active) ∨
         (0 < po_maxOnlineIps policy ∧ po_maxOnlineIps policy ≤ Z.of_nat (size (onlineIps active)))))).
Proof. apply admission_respects_limits. vm_compute. reflexivity. Defined.
