(* ===== verification/Location.v ===== *)
(** * Locations

    Model of [Server/Backend/Location/src/matcher.rs], [model.rs] and [error.rs]:
    the rules that select targets by protocol, host, port, path and query.  Strings
    are lists of [char]s.  [to_lowercase] (the Unicode tables of the standard
    library) is a parameter of the host comparison. *)

From S2P Require Import Prelude NetAddress Text.

Record LocationPattern := {
  lo_protocol : chars;
  lo_host : chars;
  lo_port : chars;
  lo_path : chars;
  lo_query : option chars
}.

Definition LocationPattern_default : LocationPattern :=
  {| lo_protocol := []; lo_host := []; lo_port := []; lo_path := []; lo_query := None |}.

Record ResolvedLocation := {
  rl_protocol : chars;
  rl_host : chars;
  rl_port : Z;
  rl_path : chars;
  rl_query : chars;
  rl_display : chars
}.

Record LocationMatchOptions := {
  mo_caseSensitiveHost : bool;
  mo_normalizePath : bool
}.

Definition LocationMatchOptions_default : LocationMatchOptions :=
  {| mo_caseSensitiveHost := false; mo_normalizePath := true |}.

Inductive LocationError := InvalidProtocol | InvalidHost | InvalidPort | InvalidPath | InvalidCandidate.

Abbreviation locating := (outcome LocationError) (only parsing).

Definition star : Z := 42.
Definition question : Z := 63.
Definition slash : Z := 47.

(** ** Validation *)
Definition supportedProtocols : list chars :=
  [[42]; [104; 116; 116; 112]; [104; 116; 116; 112; 115]; [119; 115]; [119; 115; 115];
   [115; 111; 99; 107; 115]; [116; 99; 112]; [116; 108; 115]; [117; 100; 112]].

Definition validateProtocol (protocol : chars) : locating unit :=
  check (is_empty protocol || bool_decide (to_ascii_lowercase protocol ∈ supportedProtocols)) InvalidProtocol.

Definition containsQuerySyntax (host : chars) : bool :=
  match split_once question host with
  | Some (_, suffix) => contains_char 61 suffix || contains_char 38 suffix
  | None => false
  end.

Definition stripIpv6Brackets (host : chars) : chars :=
  default host (rest ← strip_prefix [91] host; strip_suffix [93] rest).

Definition validateHost (host : chars) : locating unit :=
  if is_empty host || str_eqb host [star] then Ok tt
  else
    _ ← check (negb (existsb is_whitespace host || contains_char slash host
                     || contains_char 35 host || containsQuerySyntax host)) InvalidHost;
    let hasOpeningBracket := starts_with [91] host in
    let hasClosingBracket := ends_with [93] host in
    _ ← check (eqb hasOpeningBracket hasClosingBracket) InvalidHost;
    let normalizedHost := stripIpv6Brackets host in
    _ ← check (negb (is_empty normalizedHost)) InvalidHost;
    _ ← check (negb (hasOpeningBracket && bool_decide (parse_ipv6 normalizedHost = None))) InvalidHost;
    check (negb (contains_char 58 normalizedHost && bool_decide (parse_ip normalizedHost = None))) InvalidHost.

Definition validatePath (path : chars) : locating unit :=
  check (is_empty path || str_eqb path [star] || starts_with [slash] path) InvalidPath.

Definition isErr (m : locating unit) : bool := match m with Err _ => true | _ => false end.

Definition validateCandidate (candidate : ResolvedLocation) : locating unit :=
  check (negb (is_empty (rl_protocol candidate) || is_empty (rl_host candidate)
               || (rl_port candidate =? 0)
               || (negb (is_empty (rl_path candidate)) && negb (starts_with [slash] (rl_path candidate)))
               || str_eqb (rl_protocol candidate) [star]
               || isErr (validateProtocol (rl_protocol candidate))
               || isErr (validateHost (rl_host candidate))
               || contains_char star (rl_host candidate)
               || contains_char question (rl_host candidate))) InvalidCandidate.

(** ** Ports *)
Definition parsePort (value : chars) : locating Z :=
  port ← ok_or (from_str_radix 10 u16_max (trim value)) InvalidPort;
  _ ← check (negb (port =? 0)) InvalidPort;
  Ok port.

(** One segment of the list: a port or a closed range. *)
Definition parseRange (segment : chars) : locating (Z * Z) :=
  let segment := trim segment in
  _ ← check (negb (is_empty segment)) InvalidPort;
  match split 45 segment with
  | first :: rest =>
      start ← parsePort first;
      '(last, more) ← match rest with
                      | value :: more => last ← parsePort value; Ok (last, more)
                      | [] => Ok (start, [])
                      end;
      _ ← check (negb (bool_decide (more ≠ []) || (last <? start))) InvalidPort;
      Ok (start, last)
  | [] => start ← parsePort []; Ok (start, start)
  end.

Fixpoint parseRanges (segments : list chars) : locating (list (Z * Z)) :=
  match segments with
  | [] => Ok []
  | segment :: segments =>
      range ← parseRange segment;
      ranges ← parseRanges segments;
      Ok (range :: ranges)
  end.

Definition parsePortRanges (portExpression : chars) : locating (list (Z * Z)) :=
  let trimmedExpression := trim portExpression in
  if is_empty trimmedExpression || str_eqb trimmedExpression [star] then Ok []
  else parseRanges (split 44 trimmedExpression).

Definition matchesPort (portExpression : chars) (candidate : Z) : locating bool :=
  ranges ← parsePortRanges portExpression;
  Ok (match ranges with
      | [] => true
      | _ => existsb (λ '(start, last), (start <=? candidate) && (candidate <=? last)) ranges
      end).

Definition validateLocationPattern (pattern : LocationPattern) : locating unit :=
  _ ← validateProtocol (lo_protocol pattern);
  _ ← validateHost (lo_host pattern);
  _ ← parsePortRanges (lo_port pattern);
  _ ← validatePath (lo_path pattern);
  Ok tt.

(** ** Wildcards *)

(** The state of the loop: pattern and candidate index, the latest star and the
    candidate index it was last resumed at. *)
Record Cursor := {
  cu_patternIndex : Z;
  cu_candidateIndex : Z;
  cu_latestStar : option Z;
  cu_starCandidateIndex : Z
}.

(** One iteration while the candidate is not exhausted: [None] ends with [false]. *)
Definition advance (pattern candidate : chars) (c : Z) (s : Cursor) : option Cursor :=
  let p := get pattern (cu_patternIndex s) in
  if from_option (λ p, (p =? question) || (p =? c)) false p then
    Some {| cu_patternIndex := cu_patternIndex s + 1; cu_candidateIndex := cu_candidateIndex s + 1;
            cu_latestStar := cu_latestStar s; cu_starCandidateIndex := cu_starCandidateIndex s |}
  else if from_option (λ p, p =? star) false p then
    Some {| cu_patternIndex := cu_patternIndex s + 1; cu_candidateIndex := cu_candidateIndex s;
            cu_latestStar := Some (cu_patternIndex s); cu_starCandidateIndex := cu_candidateIndex s |}
  else
    starIndex ← cu_latestStar s;
    Some {| cu_patternIndex := starIndex + 1; cu_candidateIndex := cu_starCandidateIndex s + 1;
            cu_latestStar := cu_latestStar s; cu_starCandidateIndex := cu_starCandidateIndex s + 1 |}.

Fixpoint skipStars (fuel : nat) (pattern : chars) (patternIndex : Z) : Z :=
  match fuel with
  | O => patternIndex
  | S fuel =>
      if from_option (λ p, p =? star) false (get pattern patternIndex)
      then skipStars fuel pattern (patternIndex + 1) else patternIndex
  end.

Fixpoint wildcardLoop (fuel : nat) (pattern candidate : chars) (s : Cursor) : locating bool :=
  match fuel with
  | O => Panic
  | S fuel =>
      match get candidate (cu_candidateIndex s) with
      | Some c =>
          match advance pattern candidate c s with
          | Some s => wildcardLoop fuel pattern candidate s
          | None => Ok false
          end
      | None => Ok (skipStars (length pattern) pattern (cu_patternIndex s) =? len pattern)
      end
  end.

Definition wildcardMatches (pattern candidate : chars) : locating bool :=
  wildcardLoop ((length candidate + 1) * (length pattern + 2))%nat pattern candidate
    {| cu_patternIndex := 0; cu_candidateIndex := 0; cu_latestStar := None; cu_starCandidateIndex := 0 |}.

(** ** Matching *)
Definition matchesProtocol (pattern candidate : chars) : bool :=
  is_empty pattern || str_eqb pattern [star]
  || str_eqb (to_ascii_lowercase pattern) (to_ascii_lowercase candidate).

Definition hasWildcard (s : chars) : bool := contains_char star s || contains_char question s.

Definition normalizedPath (path : chars) (normalize : bool) : chars :=
  if negb normalize || str_eqb path [slash] then path
  else
    let normalized := trim_end_matches slash path in
    if is_empty normalized then [slash] else normalized.

Definition matchesPath (pattern candidate : chars) (normalizePath : bool) : locating bool :=
  if is_empty pattern || str_eqb pattern [star] then Ok true
  else
    let pattern := normalizedPath pattern normalizePath in
    let candidate := normalizedPath candidate normalizePath in
    if hasWildcard pattern then wildcardMatches pattern candidate
    else Ok (str_eqb candidate pattern
             || from_option (starts_with [slash]) false (strip_prefix pattern candidate)).

Definition matchesQuery (pattern : option chars) (candidate : chars) : locating bool :=
  match pattern with
  | None => Ok true
  | Some pattern =>
      if is_empty pattern || str_eqb pattern [star] then Ok true
      else if hasWildcard pattern then wildcardMatches pattern candidate
      else Ok (contains_str pattern candidate)
  end.

Section location.
Context (to_lowercase : chars → chars).

Definition matchesHost (pattern candidate : chars) (caseSensitive : bool) : locating bool :=
  if is_empty pattern || str_eqb pattern [star] then Ok true
  else
    let pattern := stripIpv6Brackets pattern in
    let candidate := stripIpv6Brackets candidate in
    if caseSensitive then wildcardMatches pattern candidate
    else wildcardMatches (to_lowercase pattern) (to_lowercase candidate).

Definition locationMatches (pattern : LocationPattern) (candidate : ResolvedLocation)
    (options : LocationMatchOptions) : locating bool :=
  _ ← validateLocationPattern pattern;
  _ ← validateCandidate candidate;
  if negb (matchesProtocol (lo_protocol pattern) (rl_protocol candidate)) then Ok false
  else
    host ← matchesHost (lo_host pattern) (rl_host candidate) (mo_caseSensitiveHost options);
    if negb host then Ok false
    else
      port ← matchesPort (lo_port pattern) (rl_port candidate);
      if negb port then Ok false
      else
        path ← matchesPath (lo_path pattern) (rl_path candidate) (mo_normalizePath options);
        if negb path then Ok false
        else matchesQuery (lo_query pattern) (rl_query candidate).
End location.
