(* ===== verification/LocationTheorems.v ===== *)
(** * Correctness of the location matcher

    The backtracking loop decides the declarative reading of wildcards, for
    candidates that contain no star; with one it may not.  Validated rules never
    fail when they are matched. *)

From S2P Require Import Prelude NetAddress Text Location.

(** ** The declarative reading *)

(** A question mark stands for any character, a star for any text. *)
Inductive Glob : list Z → list Z → Prop :=
| glob_nil : Glob [] []
| glob_one p ps c cs : p ≠ star → p = question ∨ p = c → Glob ps cs → Glob (p :: ps) (c :: cs)
| glob_star ps skipped cs : Glob ps cs → Glob (star :: ps) (skipped ++ cs).

Lemma glob_star_inv ps cs : Glob (star :: ps) cs ↔ ∃ k, (k ≤ length cs)%nat ∧ Glob ps (drop k cs).
Proof.
  split.
  - inversion 1 as [|? ? ? ? Hne|? skipped cs' Hg]; subst; [done|].
    exists (length skipped). rewrite drop_app_length, length_app. split; [lia|done].
  - intros (k & _ & Hg). rewrite <-(take_drop k cs). by constructor.
Qed.

Lemma glob_one_inv p ps c cs :
  p ≠ star → Glob (p :: ps) (c :: cs) ↔ (p = question ∨ p = c) ∧ Glob ps cs.
Proof.
  intros Hp. split; [|intros [? ?]; by constructor].
  by inversion 1; subst.
Qed.

Lemma glob_end_inv cs : Glob [] cs ↔ cs = [].
Proof. split; [by inversion 1|intros ->; constructor]. Qed.

Section matching.
Context (pattern candidate : list Z).
Hypothesis no_star : star ∉ candidate.

(** The pattern from [i] on matches the candidate from [j] on. *)
Definition M (i j : Z) : Prop := Glob (drop (Z.to_nat i) pattern) (drop (Z.to_nat j) candidate).

Lemma drop_at (l : list Z) i x :
  0 ≤ i → get l i = Some x → drop (Z.to_nat i) l = x :: drop (Z.to_nat (i + 1)) l.
Proof.
  intros Hi Hx. rewrite get_lookup in Hx by done. rewrite (drop_S _ _ _ Hx).
  by replace (Z.to_nat (i + 1)) with (S (Z.to_nat i)) by lia.
Qed.

Lemma drop_end (l : list Z) i : len l ≤ i → drop (Z.to_nat i) l = [].
Proof. intros Hi. apply drop_ge. unfold len in Hi. lia. Qed.

Lemma M_one i j p c : 0 ≤ i → 0 ≤ j → get pattern i = Some p → get candidate j = Some c → p ≠ star →
  M i j ↔ (p = question ∨ p = c) ∧ M (i + 1) (j + 1).
Proof.
  intros Hi Hj Hp Hc Hne. unfold M. rewrite (drop_at pattern i p), (drop_at candidate j c) by done.
  by apply glob_one_inv.
Qed.

Lemma M_star i j : 0 ≤ i → 0 ≤ j ≤ len candidate → get pattern i = Some star →
  M i j ↔ ∃ k, j ≤ k ≤ len candidate ∧ M (i + 1) k.
Proof.
  intros Hi Hj Hp. unfold M. rewrite (drop_at pattern i star), glob_star_inv by done. split.
  - intros (k & Hk & Hg). exists (j + Z.of_nat k). rewrite length_drop in Hk. unfold len in *.
    split; [lia|]. rewrite drop_drop in Hg. by replace (Z.to_nat (j + Z.of_nat k)) with (Z.to_nat j + k)%nat by lia.
  - intros (k & Hk & Hg). exists (Z.to_nat (k - j)). rewrite length_drop. unfold len in *. split; [lia|].
    rewrite drop_drop. by replace (Z.to_nat j + Z.to_nat (k - j))%nat with (Z.to_nat k) by lia.
Qed.

Lemma M_pattern_end i j : len pattern ≤ i → M i j ↔ drop (Z.to_nat j) candidate = [].
Proof. intros Hi. unfold M. rewrite drop_end by done. apply glob_end_inv. Qed.

(** ** The invariant of the loop *)

(** The pattern between the latest star and the current index has no star and was
    matched against the candidate since the star was resumed. *)
Record StarAt (s : Cursor) (x : Z) : Prop := {
  sa_range : 0 ≤ x < cu_patternIndex s;
  sa_length : cu_candidateIndex s - cu_starCandidateIndex s = cu_patternIndex s - (x + 1);
  sa_literal i p : x < i < cu_patternIndex s → get pattern i = Some p → p ≠ star
}.

Record CursorOk (s : Cursor) : Prop := {
  co_pattern : 0 ≤ cu_patternIndex s ≤ len pattern;
  co_candidate : 0 ≤ cu_starCandidateIndex s ≤ cu_candidateIndex s;
  co_bound : cu_candidateIndex s ≤ len candidate;
  co_star x : cu_latestStar s = Some x → StarAt s x;
  co_answer : M 0 0 ↔ M (cu_patternIndex s) (cu_candidateIndex s) ∨
    ∃ x k, cu_latestStar s = Some x ∧ cu_starCandidateIndex s < k ≤ len candidate ∧ M (x + 1) k
}.

(** A stretch of pattern without stars consumes as much of the candidate. *)
Lemma M_literal i n j :
  0 ≤ i → 0 ≤ j ≤ len candidate → (∀ q p, i ≤ q < i + Z.of_nat n → get pattern q = Some p → p ≠ star) →
  i + Z.of_nat n ≤ len pattern → M i j → j + Z.of_nat n ≤ len candidate ∧ M (i + Z.of_nat n) (j + Z.of_nat n).
Proof.
  revert i j. induction n as [|n IH]; intros i j Hi Hj Hlit Hle HM.
  { rewrite !Z.add_0_r. split; [lia|done]. }
  destruct (get_is_Some pattern i) as [p Hp]; [lia|].
  assert (p ≠ star) as Hne by (apply (Hlit i); [lia|done]).
  destruct (get candidate j) as [c|] eqn:Hc.
  - pose proof (proj1 (M_one i j p c Hi ltac:(lia) Hp Hc Hne) HM) as [_ HM'].
    pose proof (get_Some_range _ _ _ Hc).
    apply IH in HM'; [|lia|lia|intros q p' Hq; apply Hlit; lia|lia].
    replace (i + Z.of_nat (S n)) with (i + 1 + Z.of_nat n) by lia.
    by replace (j + Z.of_nat (S n)) with (j + 1 + Z.of_nat n) by lia.
  - exfalso. assert (len candidate ≤ j) as Hend.
    { destruct (decide (j < len candidate)); [|lia]. destruct (get_is_Some candidate j); [lia|congruence]. }
    unfold M in HM. rewrite (drop_at pattern i p), (drop_end candidate j) in HM by done.
    by inversion HM; subst.
Qed.

(** Resuming the latest star later than it was resumed moves past the current index. *)
Lemma star_later s x k :
  CursorOk s → StarAt s x → cu_starCandidateIndex s < k ≤ len candidate → M (x + 1) k →
  ∃ j, cu_candidateIndex s < j ≤ len candidate ∧ M (cu_patternIndex s) j.
Proof.
  intros [Hp Hc Hb _ _] [Hr Hl Hlit] Hk HM.
  destruct (M_literal (x + 1) (Z.to_nat (cu_patternIndex s - (x + 1))) k) as [H1 H2];
    [lia|lia|intros q p Hq; apply Hlit; lia|lia|done|].
  exists (k + Z.of_nat (Z.to_nat (cu_patternIndex s - (x + 1)))). split; [lia|].
  by replace (x + 1 + Z.of_nat (Z.to_nat (cu_patternIndex s - (x + 1)))) with (cu_patternIndex s) in H2 by lia.
Qed.

(** What is left of the work decreases with every iteration. *)
Definition remaining (s : Cursor) : Z :=
  (len candidate - cu_starCandidateIndex s) * (len pattern + 1) + (len pattern - cu_patternIndex s).

(** A character is matched. *)
Lemma match_one_ok s p c :
  CursorOk s → get pattern (cu_patternIndex s) = Some p → get candidate (cu_candidateIndex s) = Some c →
  p ≠ star → p = question ∨ p = c →
  let s' := {| cu_patternIndex := cu_patternIndex s + 1; cu_candidateIndex := cu_candidateIndex s + 1;
               cu_latestStar := cu_latestStar s; cu_starCandidateIndex := cu_starCandidateIndex s |} in
  CursorOk s' ∧ remaining s' < remaining s.
Proof.
  intros [Hp Hcand Hb Hstar Hans] Hpat Hc Hps Hpc.
  pose proof (get_Some_range _ _ _ Hpat). pose proof (get_Some_range _ _ _ Hc).
  split; [|unfold remaining; cbn; lia]. constructor; cbn; [lia|lia|lia| |].
  - intros x Hx. destruct (Hstar x Hx) as [H1 H2 H3]. constructor; cbn; [lia|lia|].
    intros i q Hi Hq. destruct (decide (i = cu_patternIndex s)) as [->|]; [congruence|].
    apply (H3 i); [lia|done].
  - rewrite Hans, (M_one _ _ p c) by (done || lia). tauto.
Qed.

(** A star is met. *)
Lemma meet_star_ok s c :
  CursorOk s → get pattern (cu_patternIndex s) = Some star → get candidate (cu_candidateIndex s) = Some c →
  let s' := {| cu_patternIndex := cu_patternIndex s + 1; cu_candidateIndex := cu_candidateIndex s;
               cu_latestStar := Some (cu_patternIndex s);
               cu_starCandidateIndex := cu_candidateIndex s |} in
  CursorOk s' ∧ remaining s' < remaining s.
Proof.
  intros Hok Hpat Hc. pose proof Hok as [Hp Hcand Hb Hstar Hans].
  pose proof (get_Some_range _ _ _ Hpat). pose proof (get_Some_range _ _ _ Hc).
  split; [|unfold remaining; cbn; nia]. constructor; cbn; [lia|lia|lia| |].
  { intros x [= <-]. constructor; cbn; [lia|lia|]. intros i q Hi. lia. }
  rewrite Hans. split.
  - intros [HM|(x & k & Hx & Hk & HM)].
    + apply M_star in HM as (k & Hk & HM); [|lia|lia|done].
      destruct (decide (k = cu_candidateIndex s)) as [->|]; [by left|right].
      exists (cu_patternIndex s), k. split; [done|]. split; [lia|done].
    + destruct (star_later s x k Hok (Hstar x Hx) Hk HM) as (j & Hj & HMj).
      apply M_star in HMj as (k' & Hk' & HM'); [|lia|lia|done].
      right. exists (cu_patternIndex s), k'. split; [done|]. split; [lia|done].
  - intros HM. left. apply M_star; [lia|lia|done|].
    destruct HM as [HM|(x & k & [= <-] & Hk & HM)]; eexists; (split; [|exact HM]); lia.
Qed.

(** The latest star is resumed one character later. *)
Lemma resume_ok s x c :
  CursorOk s → cu_latestStar s = Some x → get candidate (cu_candidateIndex s) = Some c →
  ¬ M (cu_patternIndex s) (cu_candidateIndex s) →
  let s' := {| cu_patternIndex := x + 1; cu_candidateIndex := cu_starCandidateIndex s + 1;
               cu_latestStar := Some x; cu_starCandidateIndex := cu_starCandidateIndex s + 1 |} in
  CursorOk s' ∧ remaining s' < remaining s.
Proof.
  intros [Hp Hcand Hb Hstar Hans] Hx Hc Hno. pose proof (get_Some_range _ _ _ Hc).
  destruct (Hstar x Hx) as [H1 H2 H3]. split; [|unfold remaining; cbn; nia].
  constructor; cbn; [lia|lia|lia| |].
  { intros y [= <-]. constructor; cbn; [lia|lia|]. intros i q Hi. lia. }
  rewrite Hans, Hx. split.
  - intros [HM|(y & k & [= <-] & Hk & HM)]; [done|].
    destruct (decide (k = cu_starCandidateIndex s + 1)) as [->|]; [by left|right].
    exists x, k. split; [done|]. split; [lia|done].
  - intros [HM|(y & k & [= <-] & Hk & HM)]; right; eexists x, _; (split; [done|]); (split; [|exact HM]); lia.
Qed.

(** One iteration: it moves on with the invariant kept, or there is no match. *)
Lemma advance_ok s c :
  CursorOk s → get candidate (cu_candidateIndex s) = Some c →
  match advance pattern candidate c s with
  | Some s' => CursorOk s' ∧ remaining s' < remaining s
  | None => ¬ M 0 0
  end.
Proof using no_star.
  intros Hok Hc. pose proof Hok as [Hp Hcand Hb Hstar Hans].
  pose proof (get_Some_range _ _ _ Hc) as Hrange.
  assert (c ≠ star) as Hcs by (intros ->; by apply no_star, (get_elem_of _ _ _ Hc)).
  assert (¬ M (cu_patternIndex s) (cu_candidateIndex s) →
    match (x ← cu_latestStar s;
           Some {| cu_patternIndex := x + 1; cu_candidateIndex := cu_starCandidateIndex s + 1;
                   cu_latestStar := cu_latestStar s;
                   cu_starCandidateIndex := cu_starCandidateIndex s + 1 |}) with
    | Some s' => CursorOk s' ∧ remaining s' < remaining s
    | None => ¬ M 0 0
    end) as Hmiss.
  { intros Hno. destruct (cu_latestStar s) as [x|] eqn:Hx; cbn; [by eapply resume_ok|].
    rewrite Hans. intros [|(x & k & ? & _)]; [done|congruence]. }
  unfold advance. destruct (get pattern (cu_patternIndex s)) as [p|] eqn:Hpat; cbn [from_option].
  - destruct ((p =? question) || (p =? c)) eqn:Hone.
    + assert (p = question ∨ p = c) as Hpc
        by (apply orb_true_iff in Hone as [?%Z.eqb_eq|?%Z.eqb_eq]; tauto).
      apply (match_one_ok s p c); try done. intros ->. destruct Hpc as [|]; [done|congruence].
    + destruct (Z.eqb_spec p star) as [->|Hps]; [by eapply meet_star_ok|]. apply Hmiss. intros HM.
      pose proof (proj1 (M_one (cu_patternIndex s) (cu_candidateIndex s) p c ltac:(lia) ltac:(lia) Hpat Hc Hps) HM) as [Hpc _].
      apply orb_false_iff in Hone as [Ho1%Z.eqb_neq Ho2%Z.eqb_neq]. tauto.
  - apply Hmiss. rewrite M_pattern_end; [rewrite (drop_at _ _ c) by (done || lia); done|].
    destruct (decide (cu_patternIndex s < len pattern)); [|lia].
    destruct (get_is_Some pattern (cu_patternIndex s)); [lia|congruence].
Qed.

(** ** The end of the pattern *)
Lemma skipStars_spec fuel i :
  0 ≤ i ≤ len pattern → len pattern - i ≤ Z.of_nat fuel →
  skipStars fuel pattern i = len pattern ↔ M i (len candidate).
Proof.
  revert i. induction fuel as [|fuel IH]; intros i Hi Hf; cbn [skipStars].
  - assert (i = len pattern) as -> by lia. rewrite M_pattern_end by lia.
    rewrite drop_end by lia. done.
  - destruct (get pattern i) as [p|] eqn:Hp; cbn [from_option].
    + pose proof (get_Some_range _ _ _ Hp). destruct (Z.eqb_spec p star) as [->|Hps].
      * rewrite IH by lia. pose proof (len_nonneg candidate). rewrite (M_star i (len candidate)) by (done || lia). split.
        -- intros HM. exists (len candidate). split; [lia|done].
        -- intros (k & Hk & HM). by replace k with (len candidate) in HM by lia.
      * split; [lia|]. unfold M. rewrite (drop_at pattern i p), (drop_end candidate) by (done || lia).
        by inversion 1.
    + assert (len pattern ≤ i) as Hend.
      { destruct (decide (i < len pattern)); [|lia]. destruct (get_is_Some pattern i); [lia|congruence]. }
      rewrite M_pattern_end by done. rewrite drop_end by lia. split; [done|lia].
Qed.

Lemma wildcardLoop_spec fuel s :
  CursorOk s → remaining s < Z.of_nat fuel →
  ∃ b, wildcardLoop fuel pattern candidate s = Ok b ∧ (b = true ↔ M 0 0).
Proof using no_star.
  revert s. induction fuel as [|fuel IH]; intros s Hok Hf.
  { pose proof Hok as [Hp Hc Hb _ _]. unfold remaining in Hf. pose proof (len_nonneg pattern). nia. }
  cbn [wildcardLoop]. destruct (get candidate (cu_candidateIndex s)) as [c|] eqn:Hc.
  - pose proof (advance_ok s c Hok Hc) as Ha. destruct (advance pattern candidate c s) as [s'|].
    + destruct Ha as [Hok' Hdec]. apply IH; [done|lia].
    + exists false. by split.
  - eexists. split; [done|]. pose proof Hok as [Hp Hcand Hb Hstar Hans].
    assert (cu_candidateIndex s = len candidate) as Hend.
    { destruct (decide (cu_candidateIndex s < len candidate)); [|lia].
      destruct (get_is_Some candidate (cu_candidateIndex s)); [lia|congruence]. }
    rewrite Z.eqb_eq, skipStars_spec by (unfold len in *; lia). rewrite Hans, Hend. split; [by left|].
    intros [|(x & k & Hx & Hk & HM)]; [done|].
    destruct (star_later s x k Hok (Hstar x Hx) Hk HM) as (j & Hj & _). lia.
Qed.
End matching.

Lemma start_ok pattern candidate :
  CursorOk pattern candidate {| cu_patternIndex := 0; cu_candidateIndex := 0; cu_latestStar := None;
                                cu_starCandidateIndex := 0 |}.
Proof.
  pose proof (len_nonneg pattern). pose proof (len_nonneg candidate).
  constructor; cbn; [lia|lia|lia|done|]. split; [by left|]. intros [|(x & k & ? & _)]; done.
Qed.

(** The loop always ends with an answer: its measure does not depend on the text. *)
Lemma wildcardMatches_spec pattern candidate :
  star ∉ candidate →
  ∃ b, wildcardMatches pattern candidate = Ok b ∧ (b = true ↔ Glob pattern candidate).
Proof.
  intros Hns. unfold wildcardMatches.
  change (Glob pattern candidate) with (M pattern candidate 0 0).
  apply wildcardLoop_spec; [done|apply start_ok|].
  unfold remaining. cbn. unfold len. rewrite Nat2Z.inj_mul, !Nat2Z.inj_add. lia.
Qed.

(** C12: Wildcards mean what they say.  On a candidate without a star character the
    backtracking matcher ends, and answers true exactly when the pattern matches
    with a question mark standing for one character and a star for any text. *)
Theorem wildcard_matcher_correct pattern candidate :
  star ∉ candidate →
  ∃ b, wildcardMatches pattern candidate = Ok b ∧ (b = true ↔ Glob pattern candidate).
Proof. apply wildcardMatches_spec. Qed.

(** A star in the candidate is taken for the star of the pattern.  The rule
    path [/a*] covers the path [/a*b] as a wildcard, but the matcher compares the two
    stars as characters, never records the wildcard, and answers no match. *)
Theorem star_in_candidate_not_matched :
  Glob [47; 97; star] [47; 97; star; 98] ∧
  matchesPath [47; 97; star] [47; 97; star; 98] true = Ok false.
Proof.
  split; [|vm_compute; reflexivity].
  repeat (apply glob_one; [done|by right|]). apply (glob_star [] [star; 98] []). constructor.
Qed.

(** ** Ports *)
Lemma parsePort_spec value : Satisfies (parsePort value) (λ p, 1 ≤ p ≤ u16_max) (λ e, e = InvalidPort).
Proof.
  unfold parsePort. apply satisfies_bind, satisfies_ok_or; [|done]. intros p Hp.
  apply from_str_radix_bound in Hp; [|lia|done].
  apply satisfies_bind, satisfies_check; [|done]. intros H0%negb_true_iff%Z.eqb_neq.
  apply satisfies_ret. lia.
Qed.

Definition RangeOk (r : Z * Z) : Prop := 1 ≤ r.1 ≤ r.2 ∧ r.2 ≤ u16_max.

Lemma parseRange_spec segment : Satisfies (parseRange segment) RangeOk (λ e, e = InvalidPort).
Proof.
  unfold parseRange. apply satisfies_bind, satisfies_check; [|done]. intros _.
  destruct (split 45 (trim segment)) as [|first rest].
  - apply satisfies_bind. eapply satisfies_mono; [..|apply parsePort_spec]; [|done].
    intros p [Hp1 Hp2]. apply satisfies_ret. split; cbn [fst snd]; [lia|exact Hp2].
  - apply satisfies_bind. eapply satisfies_mono; [..|apply parsePort_spec]; [|done]. intros start [Hs1 Hs2].
    apply satisfies_bind.
    assert (Satisfies match rest with
                      | value :: more => last ← parsePort value; Ok (last, more)
                      | [] => Ok (start, [])
                      end (λ x, 1 ≤ x.1 ≤ u16_max) (λ e, e = InvalidPort)) as Hlast.
    { destruct rest as [|value more]; [by split|]. apply satisfies_bind.
      eapply satisfies_mono; [..|apply parsePort_spec]; done. }
    eapply satisfies_mono; [..|exact Hlast]; [|done]. intros [last more] [Hl1 Hl2].
    apply satisfies_bind, satisfies_check; [|done].
    intros [_ Hlt%Z.ltb_ge]%negb_true_iff%orb_false_iff. apply satisfies_ret. cbn [fst] in *. split; cbn [fst snd]; [lia|exact Hl2].
Qed.

Lemma parsePortRanges_spec expression :
  Satisfies (parsePortRanges expression) (Forall RangeOk) (λ e, e = InvalidPort).
Proof.
  unfold parsePortRanges. case_if He; [by constructor|]. generalize (split 44 (trim expression)).
  intros segments. induction segments as [|segment segments IH]; cbn [parseRanges]; [by constructor|].
  apply satisfies_bind. eapply satisfies_mono; [..|apply parseRange_spec]; [|done]. intros r Hr.
  apply satisfies_bind. eapply satisfies_mono; [..|exact IH]; [|done]. intros rs Hrs.
  apply satisfies_ret. by constructor.
Qed.

(** ** Termination, whatever the candidate contains *)

(** The indices stay in range, and every iteration moves on. *)
Record CursorRange (pattern candidate : list Z) (s : Cursor) : Prop := {
  cr_pattern : 0 ≤ cu_patternIndex s ≤ len pattern;
  cr_candidate : 0 ≤ cu_starCandidateIndex s ≤ cu_candidateIndex s;
  cr_bound : cu_candidateIndex s ≤ len candidate;
  cr_star x : cu_latestStar s = Some x → 0 ≤ x < len pattern;
}.

Lemma advance_range pattern candidate c s :
  CursorRange pattern candidate s → get candidate (cu_candidateIndex s) = Some c →
  match advance pattern candidate c s with
  | Some s' => CursorRange pattern candidate s' ∧ remaining pattern candidate s' < remaining pattern candidate s
  | None => True
  end.
Proof.
  intros [Hp Hc Hb Hs] Hget. pose proof (get_Some_range _ _ _ Hget). pose proof (len_nonneg pattern).
  assert (Hmiss : match (x ← cu_latestStar s;
           Some {| cu_patternIndex := x + 1; cu_candidateIndex := cu_starCandidateIndex s + 1;
                   cu_latestStar := cu_latestStar s;
                   cu_starCandidateIndex := cu_starCandidateIndex s + 1 |}) with
    | Some s' => CursorRange pattern candidate s' ∧ remaining pattern candidate s' < remaining pattern candidate s
    | None => True
    end).
  { destruct (cu_latestStar s) as [x|] eqn:Hx; [|done]. pose proof (Hs x eq_refl). cbn.
    split; [split; cbn; [lia..|]|unfold remaining; cbn; nia]. intros y [= <-]. lia. }
  unfold advance. destruct (get pattern (cu_patternIndex s)) as [p|] eqn:Hpat; cbn [from_option]; [|done].
  pose proof (get_Some_range _ _ _ Hpat). case_if Hone; [|case_if Hstar; [|done]].
  - split; [split; cbn; [lia..|done]|unfold remaining; cbn; lia].
  - split; [split; cbn; [lia..|]|unfold remaining; cbn; nia]. intros y [= <-]. lia.
Qed.

Lemma wildcardLoop_total pattern candidate fuel s :
  CursorRange pattern candidate s → remaining pattern candidate s < Z.of_nat fuel →
  no_panic (wildcardLoop fuel pattern candidate s).
Proof.
  revert s. induction fuel as [|fuel IH]; intros s Hok Hf.
  { destruct Hok as [Hp Hc Hb _]. unfold remaining in Hf. nia. }
  cbn [wildcardLoop]. destruct (get candidate (cu_candidateIndex s)) as [c|] eqn:Hc; [|done].
  pose proof (advance_range _ _ c s Hok Hc) as Ha. destruct (advance pattern candidate c s) as [s'|]; [|done].
  destruct Ha as [Hok' Hdec]. apply IH; [done|lia].
Qed.

Lemma wildcardMatches_total pattern candidate : no_panic (wildcardMatches pattern candidate).
Proof.
  pose proof (len_nonneg pattern). pose proof (len_nonneg candidate). apply wildcardLoop_total.
  - split; cbn; [lia..|done].
  - unfold remaining. cbn. unfold len. rewrite Nat2Z.inj_mul, !Nat2Z.inj_add. lia.
Qed.

Lemma check_total {E} b (e : E) : no_panic (check b e).
Proof. by destruct b. Qed.

Lemma bind_total {E A B} (m : outcome E A) (k : A → outcome E B) :
  no_panic m → (∀ a, m = Ok a → no_panic (k a)) → no_panic (m ≫= k).
Proof. unfold no_panic. destruct m; cbn; auto. Qed.

Lemma validateHost_total host : no_panic (validateHost host).
Proof.
  unfold validateHost. case_if He; [done|]. repeat (apply bind_total; [apply check_total|intros _ _]).
  apply check_total.
Qed.

Lemma parsePortRanges_total expression : no_panic (parsePortRanges expression).
Proof. eapply satisfies_mono, parsePortRanges_spec; done. Qed.

Lemma validateLocationPattern_total pattern : no_panic (validateLocationPattern pattern).
Proof.
  apply bind_total; [apply check_total|intros _ _]. apply bind_total; [apply validateHost_total|intros _ _].
  apply bind_total; [apply parsePortRanges_total|intros _ _].
  by apply bind_total; [apply check_total|intros _ _].
Qed.

(** Matching a rule ends with an answer or an error, for every rule and every target,
    also one with stars in its path. *)
Theorem location_matching_terminates to_lowercase pattern candidate options :
  no_panic (locationMatches to_lowercase pattern candidate options).
Proof.
  apply bind_total; [apply validateLocationPattern_total|intros _ _].
  apply bind_total; [apply check_total|intros _ _]. case_if Hp; [done|].
  apply bind_total.
  { unfold matchesHost. case_if He; [done|]. case_if Hc; apply wildcardMatches_total. }
  intros host _. case_if Hh; [done|]. apply bind_total.
  { apply bind_total; [apply parsePortRanges_total|done]. }
  intros port _. case_if Ho; [done|]. apply bind_total.
  { unfold matchesPath. case_if He; [done|]. case_if Hw; [apply wildcardMatches_total|done]. }
  intros path _. case_if Ha; [done|]. unfold matchesQuery. destruct (lo_query pattern); [|done].
  case_if He; [done|]. case_if Hw; [apply wildcardMatches_total|done].
Qed.

(** ** Whole rules *)
Section rules.
Context (to_lowercase : list Z → list Z).
(** Lowercasing makes no star out of another character. *)
Hypothesis lowercase_star : ∀ s, star ∉ s → star ∉ to_lowercase s.

(** A rule covers a target: every field does. *)
Definition hostCovers (pattern host : list Z) (caseSensitive : bool) : Prop :=
  pattern = [] ∨ pattern = [star] ∨
  let f := if caseSensitive then id else to_lowercase in
  Glob (f (stripIpv6Brackets pattern)) (f (stripIpv6Brackets host)).

Definition pathCovers (pattern path : list Z) (normalize : bool) : Prop :=
  pattern = [] ∨ pattern = [star] ∨
  let p := normalizedPath pattern normalize in
  let c := normalizedPath path normalize in
  if hasWildcard p then Glob p c else c = p ∨ ∃ rest, c = p ++ slash :: rest.

Definition portCovers (expression : list Z) (port : Z) : Prop :=
  ∃ ranges, parsePortRanges expression = Ok ranges ∧
    (ranges = [] ∨ ∃ r, r ∈ ranges ∧ r.1 ≤ port ≤ r.2).

Lemma str_eqb_spec s t : str_eqb s t = true ↔ s = t.
Proof. apply bool_decide_eq_true. Qed.

Lemma is_empty_spec s : is_empty s = true ↔ s = [].
Proof. by destruct s. Qed.

Lemma contains_char_spec c s : contains_char c s = false ↔ c ∉ s.
Proof.
  unfold contains_char. split.
  - intros H Hin. apply not_true_iff_false in H. apply H, existsb_exists.
    exists c. rewrite <-list_elem_of_In. split; [done|]. apply Z.eqb_refl.
  - intros H. apply not_true_iff_false. rewrite existsb_exists.
    intros (x & Hx & <-%Z.eqb_eq). by apply H, list_elem_of_In.
Qed.

Lemma matchesPort_spec expression port ranges :
  parsePortRanges expression = Ok ranges →
  ∃ b, matchesPort expression port = Ok b ∧ (b = true ↔ portCovers expression port).
Proof.
  intros Hp. unfold matchesPort. rewrite Hp. cbn [mbind outcome_bind]. eexists. split; [done|].
  unfold portCovers. split.
  - intros Hb. exists ranges. split; [done|]. destruct ranges as [|r rs]; [by left|right].
    apply existsb_exists in Hb as ([a b] & Hin & [H1%Z.leb_le H2%Z.leb_le]%andb_prop).
    exists (a, b). by rewrite list_elem_of_In.
  - intros (ranges' & Hp' & Hor). rewrite Hp in Hp'. injection Hp' as <-.
    destruct ranges as [|r rs]; [done|]. destruct Hor as [|(x & Hin & Hx)]; [done|].
    apply existsb_exists. exists x. rewrite <-list_elem_of_In. split; [done|]. destruct x. cbn in Hx.
    rewrite andb_true_iff, !Z.leb_le. done.
Qed.

Definition queryCovers (pattern : option (list Z)) (query : list Z) : Prop :=
  match pattern with
  | None => True
  | Some p => p = [] ∨ p = [star] ∨
      if hasWildcard p then Glob p query else ∃ before after, query = before ++ p ++ after
  end.

Lemma starts_with_spec prefix s : starts_with prefix s = true ↔ ∃ rest, s = prefix ++ rest.
Proof.
  unfold starts_with. rewrite bool_decide_eq_true. split.
  - intros [rest Hr]. exists rest. by apply strip_prefix_Some.
  - intros [rest Hr]. exists rest. by apply strip_prefix_Some.
Qed.

Lemma contains_str_spec needle s :
  contains_str needle s = true ↔ ∃ before after, s = before ++ needle ++ after.
Proof.
  induction s as [|c s IH]; cbn [contains_str]; rewrite orb_true_iff, starts_with_spec.
  - split.
    + intros [[rest Hr]|]; [|done]. by exists [], rest.
    + intros (before & after & Hs). left. exists after. symmetry in Hs.
      apply app_nil in Hs as [-> Hs]. done.
  - rewrite IH. split.
    + intros [[rest Hr]|(before & after & ->)]; [by exists [], rest|by exists (c :: before), after].
    + intros (before & after & Hs). destruct before as [|x before]; [left; by exists after|right].
      cbn in Hs. injection Hs as -> ->. by exists before, after.
Qed.

Lemma strip_star host : star ∉ host → star ∉ stripIpv6Brackets host.
Proof.
  intros Hs. unfold stripIpv6Brackets.
  destruct (strip_prefix [91] host) as [rest|] eqn:H1; [|done]. cbn [mbind option_bind].
  destruct (strip_suffix [93] rest) as [inner|] eqn:H2; [|done]. cbn [default from_option].
  apply strip_prefix_Some in H1 as ->. apply strip_suffix_Some in H2 as ->. set_solver.
Qed.

Lemma trim_start_sub p s c : c ∈ trim_start_by p s → c ∈ s.
Proof. induction s as [|x s IH]; cbn [trim_start_by]; [by intros|]. case_if Hp; set_solver. Qed.

Lemma normalizedPath_star path n : star ∉ path → star ∉ normalizedPath path n.
Proof.
  intros Hs. unfold normalizedPath. case_if Hn; [exact Hs|]. cbn zeta. case_if He.
  { intros Hin%list_elem_of_singleton. discriminate. }
  unfold trim_end_matches, trim_end_by. rewrite elem_of_reverse. intros Hin%trim_start_sub.
  rewrite elem_of_reverse in Hin. done.
Qed.

(** An unrestricted field, or one that is decided by [m]. *)
Lemma field_spec pattern (m : outcome LocationError bool) (P : Prop) :
  (∃ b, m = Ok b ∧ (b = true ↔ P)) →
  ∃ b, (if is_empty pattern || str_eqb pattern [star] then Ok true else m) = Ok b ∧
       (b = true ↔ pattern = [] ∨ pattern = [star] ∨ P).
Proof.
  intros (b & -> & Hb). destruct (is_empty pattern) eqn:He.
  { apply is_empty_spec in He. cbn. exists true. tauto. }
  destruct (str_eqb pattern [star]) eqn:Hs.
  { apply str_eqb_spec in Hs. cbn. exists true. tauto. }
  cbn. exists b. split; [done|]. rewrite Hb.
  assert (pattern ≠ []) by (intros Hx%is_empty_spec; congruence).
  assert (pattern ≠ [star]) by (intros Hx%str_eqb_spec; congruence). tauto.
Qed.

Lemma matchesHost_spec pattern host cs :
  star ∉ host →
  ∃ b, matchesHost to_lowercase pattern host cs = Ok b ∧ (b = true ↔ hostCovers pattern host cs).
Proof using lowercase_star.
  intros Hs. apply strip_star in Hs. unfold matchesHost, hostCovers. apply field_spec. cbn zeta.
  destruct cs; apply wildcardMatches_spec; [done|by apply lowercase_star].
Qed.

Lemma matchesPath_spec pattern path n :
  star ∉ path → ∃ b, matchesPath pattern path n = Ok b ∧ (b = true ↔ pathCovers pattern path n).
Proof.
  intros Hs. unfold matchesPath, pathCovers. apply field_spec. cbn zeta. case_if Hw.
  { by apply wildcardMatches_spec, normalizedPath_star. }
  eexists. split; [done|]. rewrite orb_true_iff, str_eqb_spec.
  destruct (strip_prefix _ _) as [rest|] eqn:Hp; cbn [from_option].
  - apply strip_prefix_Some in Hp. rewrite starts_with_spec, Hp. split.
    + intros [?|[r ->]]; [by left|right; by exists r].
    + intros [?|[r Hr]]; [by left|right]. apply app_inv_head in Hr as ->. by exists r.
  - split; [intros [?|?]; [by left|done]|]. intros [?|[r Hr]]; [by left|].
    apply strip_prefix_Some in Hr. congruence.
Qed.

Lemma matchesQuery_spec pattern query :
  star ∉ query → ∃ b, matchesQuery pattern query = Ok b ∧ (b = true ↔ queryCovers pattern query).
Proof.
  intros Hs. unfold matchesQuery, queryCovers. destruct pattern as [p|]; [|by exists true].
  apply field_spec. case_if Hw; [by apply wildcardMatches_spec|].
  eexists. split; [done|]. apply contains_str_spec.
Qed.

(** A valid rule decides every valid target.  Matching a rule that validates
    against a target that validates never fails, and answers true exactly when the
    rule covers the target in protocol, host (as a wildcard, by default regardless
    of case), port (in a listed range), path (as a wildcard or at a directory
    boundary) and query, for a path and query that contain no star character. *)
Theorem location_rule_correct pattern candidate options :
  validateLocationPattern pattern = Ok tt → validateCandidate candidate = Ok tt →
  star ∉ rl_path candidate → star ∉ rl_query candidate →
  ∃ b, locationMatches to_lowercase pattern candidate options = Ok b ∧
    (b = true ↔
     matchesProtocol (lo_protocol pattern) (rl_protocol candidate) = true ∧
     hostCovers (lo_host pattern) (rl_host candidate) (mo_caseSensitiveHost options) ∧
     portCovers (lo_port pattern) (rl_port candidate) ∧
     pathCovers (lo_path pattern) (rl_path candidate) (mo_normalizePath options) ∧
     queryCovers (lo_query pattern) (rl_query candidate)).
Proof using lowercase_star.
  intros Hv Hc Hpath Hquery. unfold locationMatches. rewrite Hv, Hc. cbn [mbind outcome_bind].
  assert (star ∉ rl_host candidate) as Hhost.
  { apply check_Ok_inv in Hc. rewrite negb_true_iff, !orb_false_iff in Hc.
    apply contains_char_spec. tauto. }
  unfold validateLocationPattern in Hv. apply bind_Ok_inv in Hv as (_ & _ & Hv).
  apply bind_Ok_inv in Hv as (_ & _ & Hv). apply bind_Ok_inv in Hv as (ranges & Hranges & _).
  destruct (matchesProtocol _ _); cbn [negb]; [|exists false; split; [done|]; intuition congruence].
  destruct (matchesHost_spec (lo_host pattern) (rl_host candidate) (mo_caseSensitiveHost options) Hhost)
    as (bh & -> & Hbh). cbn [mbind outcome_bind].
  destruct bh; cbn [negb]; [|exists false; split; [done|]; intuition congruence].
  destruct (matchesPort_spec (lo_port pattern) (rl_port candidate) ranges Hranges) as (bp & -> & Hbp).
  cbn [mbind outcome_bind]. destruct bp; cbn [negb]; [|exists false; split; [done|]; intuition congruence].
  destruct (matchesPath_spec (lo_path pattern) (rl_path candidate) (mo_normalizePath options) Hpath)
    as (ba & -> & Hba). cbn [mbind outcome_bind].
  destruct ba; cbn [negb]; [|exists false; split; [done|]; intuition congruence].
  destruct (matchesQuery_spec (lo_query pattern) (rl_query candidate) Hquery) as (bq & -> & Hbq).
  exists bq. split; [done|]. tauto.
Qed.
End rules.

(** * Locations on a concrete rule *)

(** https://*.a.io:443,8000-8100/v1 *)
Definition patternEx : LocationPattern :=
  {| lo_protocol := [104; 116; 116; 112; 115]; lo_host := [42; 46; 97; 46; 105; 111];
     lo_port := [52; 52; 51; 44; 56; 48; 48; 48; 45; 56; 49; 48; 48]; lo_path := [47; 118; 49];
     lo_query := None |}.

Definition candidateEx : ResolvedLocation :=
  {| rl_protocol := [72; 84; 84; 80; 83]; rl_host := [66; 46; 97; 46; 105; 111]; rl_port := 8080;
     rl_path := [47; 118; 49; 47; 120]; rl_query := []; rl_display := [] |}.

Lemma locationEx :
  locationMatches to_ascii_lowercase patternEx candidateEx LocationMatchOptions_default = Ok true.
Proof. vm_compute. reflexivity. Qed.

Lemma ascii_lowercase_star s : star ∉ s → star ∉ to_ascii_lowercase s.
Proof.
  intros Hs (c & Hc & Hin)%list_elem_of_fmap. unfold to_ascii_lowercase_char in Hc.
  destruct ((65 <=? c) && (c <=? 90)) eqn:Hr; [|congruence].
  apply andb_prop in Hr as [H1%Z.leb_le H2%Z.leb_le]. unfold star in Hc. lia.
Qed.

Lemma wildcard_matcher_correct_witness :
  ∃ b, wildcardMatches [star; 46; 97; star] [98; 46; 97; 99] = Ok b ∧
       (b = true ↔ Glob [star; 46; 97; star] [98; 46; 97; 99]).
Proof. apply wildcard_matcher_correct. by apply (bool_decide_eq_true_1 (star ∉ [98; 46; 97; 99])). Defined.

Lemma location_rule_correct_witness :
  ∃ b, locationMatches to_ascii_lowercase patternEx candidateEx LocationMatchOptions_default = Ok b ∧
    (b = true ↔
     matchesProtocol (lo_protocol patternEx) (rl_protocol candidateEx) = true ∧
     hostCovers to_ascii_lowercase (lo_host patternEx) (rl_host candidateEx) false ∧
     portCovers (lo_port patternEx) (rl_port candidateEx) ∧
     pathCovers (lo_path patternEx) (rl_path candidateEx) true ∧
     queryCovers (lo_query patternEx) (rl_query candidateEx)).
Proof.
  apply (location_rule_correct to_ascii_lowercase ascii_lowercase_star patternEx candidateEx
           LocationMatchOptions_default).
  - vm_compute. reflexivity.
  - vm_compute. reflexivity.
  - by apply (bool_decide_eq_true_1 (star ∉ rl_path candidateEx)).
  - by apply (bool_decide_eq_true_1 (star ∉ rl_query candidateEx)).
Defined.
