(* ===== verification/CaptureModel.v ===== *)
(** * Data of the recording session

    Model of [Server/Backend/Capture/src/model.rs] and [error.rs].  The recording
    session bills every string and vector by its capacity, so an owned [String] is
    its text with the capacity of its allocation, and a [Vec] whose capacity is
    billed is its items with a capacity.  The sizes of types, which the compiler
    chooses, are the fields of [Layout]. *)

From S2P Require Import Prelude NetAddress Text Location.

(** ** Owned strings and vectors *)

(** [String] and [PathBuf]: characters and the capacity of the allocation. *)
Record string := { text : chars; capacity : Z }.

(** What [clone] and [to_owned] give: an allocation of exactly the length. *)
Definition tight (t : chars) : string := {| text := t; capacity := str_len t |}.
Definition clone_string (s : string) : string := tight (text s).

Record vec (A : Type) := { items : list A; vec_capacity : Z }.
#[global] Arguments items {A} v.
#[global] Arguments vec_capacity {A} v.
#[global] Arguments Build_vec {A} items vec_capacity.

Definition vec_of {A} (l : list A) : vec A := {| items := l; vec_capacity := len l |}.

(** ** Sizes of types *)
Class Layout := {
  sizeof_HeaderField : Z;
  sizeof_TransactionSummary : Z;
  sizeof_TransactionRecord : Z;
  sizeof_TransactionError : Z;
  sizeof_StringPair : Z;
  sizeof_StreamPacket : Z;
  sizeof_BodyRef : Z;
  sizeof_EntityKey : Z;
  sizeof_EntityMember : Z;
}.
(** [usize] and [String] on a 64-bit target. *)
Definition sizeof_usize : Z := 8.
Definition sizeof_String : Z := 24.

(** A record holds its summary and two optional body references. *)
Class LayoutOk `{L : Layout} : Prop := {
  layout_nonneg : 0 ≤ sizeof_HeaderField ∧ 0 ≤ sizeof_TransactionSummary ∧
    0 ≤ sizeof_TransactionError ∧ 0 ≤ sizeof_StringPair ∧ 0 ≤ sizeof_StreamPacket ∧
    0 ≤ sizeof_BodyRef ∧ 0 ≤ sizeof_EntityKey ∧ 0 ≤ sizeof_EntityMember;
  layout_record :
    sizeof_TransactionSummary + 2 * sizeof_BodyRef ≤ sizeof_TransactionRecord;
}.

(** ** Recording *)
Inductive RecordingState := Recording | Paused.
#[export] Instance RecordingState_eq_dec : EqDecision RecordingState.
Proof. solve_decision. Defined.

Record RecordingLimits := {
  rm_maxTransactions : Z;
  rm_maxBodyBytes : Z;
  rm_maxTotalBodyBytes : Z
}.
#[export] Instance RecordingLimits_eq_dec : EqDecision RecordingLimits.
Proof. solve_decision. Defined.

Definition RecordingLimits_default : RecordingLimits :=
  {| rm_maxTransactions := 9007199254740991; rm_maxBodyBytes := 9007199254740991;
     rm_maxTotalBodyBytes := 9007199254740991 |}.

Definition isValid (l : RecordingLimits) : bool :=
  (0 <? rm_maxTransactions l) && (0 <? rm_maxBodyBytes l) && (0 <? rm_maxTotalBodyBytes l).

Record RecordingConfiguration := {
  rc_limits : RecordingLimits;
  rc_ignoreLocations : list LocationPattern;
  rc_recordTunnelMetadata : bool;
  rc_memoryBodyThreshold : Z;
  rc_metadataMemoryBudgetBytes : Z;
  rc_spillDirectory : chars
}.

Record RecordingSnapshot := {
  sn_recordingSessionId : string;
  sn_state : RecordingState;
  sn_startedAtMilliseconds : Z;
  sn_transactionCount : Z;
  sn_droppedCount : Z;
  sn_totalBodyBytes : Z;
  sn_totalMetadataBytes : Z;
  sn_metadataMemoryBudgetBytes : Z;
  sn_pendingCleanupCount : Z;
  sn_limits : RecordingLimits;
  sn_ignoreLocations : list LocationPattern;
  sn_recordTunnelMetadata : bool
}.

Record RecordingLimitsUpdate := {
  lu_maxTransactions : option Z;
  lu_maxBodyBytes : option Z;
  lu_maxTotalBodyBytes : option Z
}.

Record RecordingSettingsUpdate := {
  su_state : option RecordingState;
  su_limits : option RecordingLimitsUpdate;
  su_ignoreLocations : option (list LocationPattern);
  su_recordTunnelMetadata : option bool
}.

(** ** Transactions *)
Inductive TransactionProtocol := Http | Https | Ws | Wss | Tunnel | Socks.
#[export] Instance TransactionProtocol_eq_dec : EqDecision TransactionProtocol.
Proof. solve_decision. Defined.

Inductive TransactionStatus := Pending | Complete | Failed | Blocked | Cancelled.
#[export] Instance TransactionStatus_eq_dec : EqDecision TransactionStatus.
Proof. solve_decision. Defined.

Record TransactionTimings := {
  tm_startAtMilliseconds : Z;
  tm_dnsEndAtMilliseconds : option Z;
  tm_connectEndAtMilliseconds : option Z;
  tm_tlsEndAtMilliseconds : option Z;
  tm_requestSentAtMilliseconds : option Z;
  tm_responseStartAtMilliseconds : option Z;
  tm_endAtMilliseconds : option Z
}.

Record TransactionSizes := {
  sz_requestHeaderBytes : Z;
  sz_requestBodyBytes : Z;
  sz_responseHeaderBytes : Z;
  sz_responseBodyBytes : Z
}.
Definition TransactionSizes_default : TransactionSizes :=
  {| sz_requestHeaderBytes := 0; sz_requestBodyBytes := 0; sz_responseHeaderBytes := 0;
     sz_responseBodyBytes := 0 |}.

Record TransactionFlags := {
  tf_mappedLocal : bool;
  tf_mappedRemote : bool;
  tf_rewritten : bool;
  tf_breakpointHit : bool;
  tf_throttled : bool;
  tf_mitmDecrypted : bool;
  tf_bodyTruncated : bool;
  tf_headersTruncated : bool;
  tf_fromCache : bool
}.
Definition TransactionFlags_default : TransactionFlags :=
  {| tf_mappedLocal := false; tf_mappedRemote := false; tf_rewritten := false;
     tf_breakpointHit := false; tf_throttled := false; tf_mitmDecrypted := false;
     tf_bodyTruncated := false; tf_headersTruncated := false; tf_fromCache := false |}.

Record TransactionError := {
  te_code : string;
  te_messageKey : string;
  te_params : list (string * string)
}.

Record TransactionSummary := {
  ts_transactionId : string;
  ts_recordingSessionId : string;
  ts_sequence : Z;
  ts_protocol : TransactionProtocol;
  ts_method : string;
  ts_host : string;
  ts_port : Z;
  ts_path : string;
  ts_query : string;
  ts_urlDisplay : string;
  ts_status : TransactionStatus;
  ts_statusCode : option Z;
  ts_clientAddress : string;
  ts_clientProcessName : option string;
  ts_clientProcessId : option Z;
  ts_contentType : string;
  ts_timings : TransactionTimings;
  ts_sizes : TransactionSizes;
  ts_flags : TransactionFlags;
  ts_error : option TransactionError;
  ts_notes : string;
  ts_tags : vec string;
  ts_appliedTools : vec string
}.

(** [ResolvedLocation] with the capacities of its strings. *)
Record OwnedLocation := {
  ol_protocol : string;
  ol_host : string;
  ol_port : Z;
  ol_path : string;
  ol_query : string;
  ol_display : string
}.
Definition resolved (l : OwnedLocation) : ResolvedLocation :=
  {| rl_protocol := text (ol_protocol l); rl_host := text (ol_host l); rl_port := ol_port l;
     rl_path := text (ol_path l); rl_query := text (ol_query l);
     rl_display := text (ol_display l) |}.

Record BeginTransaction := {
  bt_protocol : TransactionProtocol;
  bt_method : string;
  bt_location : OwnedLocation;
  bt_clientAddress : string;
  bt_clientProcessName : option string;
  bt_clientProcessId : option Z;
  bt_contentType : string;
  bt_startAtMilliseconds : Z
}.

Record TransactionUpdate := {
  tu_method : option string;
  tu_location : option OwnedLocation;
  tu_statusCode : option Z;
  tu_contentType : option string;
  tu_flags : option TransactionFlags
}.

Record TransactionUserUpdate := {
  uu_notes : option string;
  uu_tags : option (vec string);
  uu_appliedTools : option (vec string)
}.

Record TransactionProgressUpdate := {
  pu_requestHeaderBytes : option Z;
  pu_requestBodyBytes : option Z;
  pu_responseHeaderBytes : option Z;
  pu_responseBodyBytes : option Z;
  pu_dnsEndAtMilliseconds : option Z;
  pu_connectEndAtMilliseconds : option Z;
  pu_tlsEndAtMilliseconds : option Z;
  pu_requestSentAtMilliseconds : option Z;
  pu_responseStartAtMilliseconds : option Z
}.

Record TransactionCompletion := {
  tc_statusCode : Z;
  tc_endAtMilliseconds : Z;
  tc_contentType : string
}.

(** ** Messages *)
Inductive MessageSide := Request | Response.
#[export] Instance MessageSide_eq_dec : EqDecision MessageSide.
Proof. solve_decision. Defined.

Definition fileLabel (side : MessageSide) : chars :=
  match side with Request => lit "request" | Response => lit "response" end.

Record HeaderField := { hf_name : string; hf_value : string }.

Record BodyWrite := {
  bw_bytes : list Z;
  bw_originalBytes : Z;
  bw_contentType : string;
  bw_encoding : string
}.

Record BodyHandleMeta := {
  bm_transactionId : string;
  bm_side : MessageSide;
  bm_contentType : string;
  bm_encoding : string;
  bm_storedBytes : Z;
  bm_originalBytes : Z;
  bm_truncated : bool
}.
Definition clone_meta (m : BodyHandleMeta) : BodyHandleMeta :=
  {| bm_transactionId := clone_string (bm_transactionId m); bm_side := bm_side m;
     bm_contentType := clone_string (bm_contentType m);
     bm_encoding := clone_string (bm_encoding m); bm_storedBytes := bm_storedBytes m;
     bm_originalBytes := bm_originalBytes m; bm_truncated := bm_truncated m |}.

Inductive StreamPacketAction := PacketForward | PacketReplace | PacketDrop | PacketClose.

Record StreamPacketModification := {
  pm_offsetBytes : Z;
  pm_originalBytes : vec Z;
  pm_modifiedBytes : vec Z
}.

Record StreamPacket := {
  sp_sequence : Z;
  sp_capturedAtMilliseconds : Z;
  sp_storedOffsetBytes : Z;
  sp_storedBytes : Z;
  sp_originalBytes : Z;
  sp_truncated : bool;
  sp_action : StreamPacketAction;
  sp_modifications : list StreamPacketModification
}.
Definition clone_modification (m : StreamPacketModification) : StreamPacketModification :=
  {| pm_offsetBytes := pm_offsetBytes m; pm_originalBytes := vec_of (items (pm_originalBytes m));
     pm_modifiedBytes := vec_of (items (pm_modifiedBytes m)) |}.
Definition clone_packet (p : StreamPacket) : StreamPacket :=
  {| sp_sequence := sp_sequence p; sp_capturedAtMilliseconds := sp_capturedAtMilliseconds p;
     sp_storedOffsetBytes := sp_storedOffsetBytes p; sp_storedBytes := sp_storedBytes p;
     sp_originalBytes := sp_originalBytes p; sp_truncated := sp_truncated p;
     sp_action := sp_action p; sp_modifications := clone_modification <$> sp_modifications p |}.

Record TransactionDetailRecord := {
  td_transaction : TransactionSummary;
  td_requestHeaders : list HeaderField;
  td_responseHeaders : list HeaderField;
  td_requestBody : option BodyHandleMeta;
  td_responseBody : option BodyHandleMeta;
  td_requestPackets : list StreamPacket;
  td_responsePackets : list StreamPacket
}.

Record ResponseRangeCandidate := {
  cd_transactionId : string;
  cd_sequence : Z;
  cd_start : Z;
  cd_end : Z;
  cd_body : BodyHandleMeta
}.

Record BodyResponse := { br_meta : BodyHandleMeta; br_bytes : list Z }.

Record RecordingPageView := {
  pv_recording : RecordingSnapshot;
  pv_collectionToken : chars;
  pv_total : Z;
  pv_offset : Z;
  pv_transactions : list TransactionSummary
}.

(** ** Errors *)
Inductive IoErrorKind := NotFound | InvalidInput | InvalidData | OtherIo.

Inductive CaptureError :=
| InvalidLimits | InvalidMemoryThreshold | InvalidMetadataMemoryBudget
| MetadataMemoryBudgetExceeded | SessionClosed | TransactionNotFound | TransactionFinished
| CollectionChanged | BodyNotFound | InvalidBodyLength
| Io (kind : IoErrorKind)
| CaptureLocation (error : LocationError).

(** * Entity headers of responses

    Model of [Server/Backend/Capture/src/responseEntity.rs]: which responses prove
    that they are parts of one entity.  A header counts only when it occurs once. *)

Definition eq_ignore_ascii_case (s t : chars) : bool :=
  str_eqb (to_ascii_lowercase s) (to_ascii_lowercase t).

Definition uniqueResponseHeaderValue (headers : list HeaderField) (name : chars) : option chars :=
  match filter (λ h, eq_ignore_ascii_case (text (hf_name h)) name = true) headers with
  | [h] => Some (trim (text (hf_value h)))
  | _ => None
  end.

Definition quote : Z := 34.

Definition strongResponseEntityTag (headers : list HeaderField) : option chars :=
  entityTag ← uniqueResponseHeaderValue headers (lit "etag");
  if starts_with (lit "W/") entityTag || (str_len entityTag <? 2)
     || negb (starts_with [quote] entityTag) || negb (ends_with [quote] entityTag)
     || contains_char quote (take (length entityTag - 2) (drop 1 entityTag))
  then None else Some entityTag.

Definition parse_u64 (s : chars) : option Z := from_str_radix 10 u64_max s.

Definition responseContentRange (headers : list HeaderField) : option (Z * Z * Z) :=
  value ← uniqueResponseHeaderValue headers (lit "content-range");
  '(unit, range) ← split_once 32 value;
  if negb (eq_ignore_ascii_case unit (lit "bytes")) || contains_char 32 range then None
  else
    '(bounds, totalText) ← split_once 47 range;
    '(startText, endText) ← split_once 45 bounds;
    start ← parse_u64 startText;
    end_ ← parse_u64 endText;
    total ← parse_u64 totalText;
    if (start <=? end_) && (end_ <? total) then Some (start, end_, total) else None.

(** An accepted range is a non-empty part of an entity of known length. *)
Lemma responseContentRange_bounds headers start end_ total :
  responseContentRange headers = Some (start, end_, total) →
  0 ≤ start ≤ end_ ∧ end_ < total ≤ u64_max.
Proof.
  unfold responseContentRange. destruct (uniqueResponseHeaderValue _ _) as [value|]; [|done]. cbn.
  destruct (split_once 32 value) as [[unit range]|]; [|done]. cbn.
  case_if Hb; [done|]. destruct (split_once 47 range) as [[bounds tt]|]; [|done]. cbn.
  destruct (split_once 45 bounds) as [[st et]|]; [|done]. cbn.
  destruct (parse_u64 st) as [s|] eqn:Hs; [|done]. cbn.
  destruct (parse_u64 et) as [e|] eqn:He; [|done]. cbn.
  destruct (parse_u64 tt) as [t|] eqn:Ht; [|done]. cbn. case_if Hle; [|done].
  intros [= <- <- <-].
  apply andb_true_iff in Hle as [H1%Z.leb_le H2%Z.ltb_lt].
  apply from_str_radix_bound in Hs, He, Ht; unfold u64_max in *; lia.
Qed.
