(* ===== verification/MetadataBudget.v ===== *)
(** * Metadata of the recording session, bounded and billed

    Model of [Server/Backend/Capture/src/metadataBudget.rs]: the storage a summary
    and its headers are billed for, and the headers that fit a given storage. *)

From S2P Require Import Prelude Text Location CaptureModel.

Section budget.
Context `{Layout}.

Definition maximumTransactionSummaryBytes : Z := 9007199254740991.
Definition minimumMetadataMemoryBudgetBytes : Z := 64 * 1024.
Definition defaultMetadataMemoryBudgetBytes : Z := 9007199254740991.
Definition maximumStoredHeaderSideBytes : Z := 9007199254740991.
Definition maximumHeaderNameBytes : Z := 9007199254740991.
Definition maximumHeaderValueBytes : Z := 9007199254740991.

Definition RecordingConfiguration_default (spillDirectory : chars) : RecordingConfiguration :=
  {| rc_limits := RecordingLimits_default; rc_ignoreLocations := [];
     rc_recordTunnelMetadata := true; rc_memoryBodyThreshold := 256 * 1024;
     rc_metadataMemoryBudgetBytes := defaultMetadataMemoryBudgetBytes;
     rc_spillDirectory := spillDirectory |}.

Record BoundedHeaders := {
  bh_headers : list HeaderField;
  bh_storedBytes : Z;
  bh_truncated : bool
}.

Definition boundBeginTransaction (input : BeginTransaction) : BeginTransaction := input.
Definition boundTransactionUpdate (update : TransactionUpdate) : TransactionUpdate := update.
Definition boundUserUpdate (update : TransactionUserUpdate) : TransactionUserUpdate := update.
Definition boundCompletion (completion : TransactionCompletion) : TransactionCompletion := completion.
Definition boundTransactionError (error : TransactionError) : TransactionError := error.
Definition boundBodyWrite (body : BodyWrite) : BodyWrite := body.

(** The characters taken while they fit [maximumBytes]. *)
Fixpoint takeCharacters (maximumBytes bounded : Z) (s : chars) : chars :=
  match s with
  | [] => []
  | c :: s =>
      if maximumBytes <? saturating_add bounded (char_bytes c) then []
      else c :: takeCharacters maximumBytes (bounded + char_bytes c) s
  end.

Definition boundString (value : string) (maximumBytes : Z) : string * bool :=
  let originalLength := str_len (text value) in
  if originalLength <=? maximumBytes then (value, false)
  else (tight (takeCharacters maximumBytes 0 (text value)), maximumBytes <? originalLength).

Definition headerStorageBytes (headers : list HeaderField) (allocatedSlots : Z) : Z :=
  fold_left (λ total h, saturating_add (saturating_add total (capacity (hf_name h)))
                          (capacity (hf_value h)))
    headers (saturating_mul allocatedSlots sizeof_HeaderField).

Fixpoint boundLoop (maximumBytes originalCount : Z) (headers boundedHeaders : list HeaderField)
    (logicalBytes : Z) (truncated : bool) : list HeaderField * bool :=
  match headers with
  | [] => (boundedHeaders, truncated)
  | header :: headers =>
      let '(name, nameTruncated) := boundString (hf_name header) maximumHeaderNameBytes in
      let '(value, valueTruncated) := boundString (hf_value header) maximumHeaderValueBytes in
      let truncated := truncated || nameTruncated || valueTruncated in
      let fixedBytes := saturating_add sizeof_HeaderField (str_len (text name)) in
      if maximumBytes <? saturating_add logicalBytes fixedBytes then (boundedHeaders, true)
      else
        let remainingValueBytes :=
          saturating_sub (saturating_sub maximumBytes logicalBytes) fixedBytes in
        let '(value, truncated) :=
          if remainingValueBytes <? str_len (text value)
          then ((boundString value remainingValueBytes).1, true) else (value, truncated) in
        let logicalBytes :=
          saturating_add (saturating_add logicalBytes fixedBytes) (str_len (text value)) in
        let boundedHeaders := boundedHeaders ++ [{| hf_name := name; hf_value := value |}] in
        if logicalBytes =? maximumBytes
        then (boundedHeaders, truncated || (len boundedHeaders <? originalCount))
        else boundLoop maximumBytes originalCount headers boundedHeaders logicalBytes truncated
  end.

(** [pop] until the headers fit; the list is in reverse.  [shrink_to_fit] leaves
    as many slots as headers. *)
Fixpoint popLoop (maximumBytes : Z) (reversed : list HeaderField) (truncated : bool) : BoundedHeaders :=
  let headers := reverse reversed in
  let storedBytes := headerStorageBytes headers (len headers) in
  match reversed with
  | [] => {| bh_headers := []; bh_storedBytes := storedBytes; bh_truncated := truncated |}
  | _ :: rest =>
      if maximumBytes <? storedBytes then popLoop maximumBytes rest true
      else {| bh_headers := headers; bh_storedBytes := storedBytes; bh_truncated := truncated |}
  end.

Definition boundHeaders (headers : list HeaderField) (availableBytes : Z) : BoundedHeaders :=
  let maximumBytes := Z.min availableBytes maximumStoredHeaderSideBytes in
  let originalCount := len headers in
  let '(boundedHeaders, truncated) := boundLoop maximumBytes originalCount headers [] 0 false in
  let truncated := truncated || (len boundedHeaders <? originalCount) in
  popLoop maximumBytes (reverse boundedHeaders) truncated.

Definition stringListStorageBytes (values : vec string) : Z :=
  fold_left (λ total value, saturating_add total (capacity value)) (items values)
    (saturating_mul (vec_capacity values) sizeof_String).

Definition errorStorageBytes (total : Z) (error : TransactionError) : Z :=
  fold_left (λ total '(name, value),
      saturating_add (saturating_add (saturating_add total sizeof_StringPair) (capacity name))
        (capacity value)) (te_params error)
    (saturating_add (saturating_add (saturating_add total sizeof_TransactionError)
                       (capacity (te_code error))) (capacity (te_messageKey error))).

Definition summaryStorageBytes (s : TransactionSummary) : Z :=
  let total :=
    fold_left (λ total value, saturating_add total (capacity value))
      [ts_transactionId s; ts_recordingSessionId s; ts_method s; ts_host s; ts_path s; ts_query s;
       ts_urlDisplay s; ts_clientAddress s; ts_contentType s; ts_notes s]
      sizeof_TransactionSummary in
  let total :=
    match ts_clientProcessName s with
    | Some processName => saturating_add total (capacity processName)
    | None => total
    end in
  let total := saturating_add (saturating_add total (stringListStorageBytes (ts_tags s)))
                 (stringListStorageBytes (ts_appliedTools s)) in
  match ts_error s with
  | Some error => errorStorageBytes total error
  | None => total
  end.
End budget.

(** * Headers that fit their storage

    The headers kept for a storage limit are a prefix of those received, each name and
    value cut at most at its end; they fit, and the flag says whether anything is
    missing. *)

(** ** Cutting strings *)
Lemma char_bytes_pos c : 1 ≤ char_bytes c ≤ 4.
Proof. unfold char_bytes. repeat case_match; lia. Qed.

Lemma str_len_nonneg s : 0 ≤ str_len s.
Proof. induction s as [|c s IH]; cbn; [lia|]. pose proof (char_bytes_pos c). lia. Qed.

Lemma saturating_exceeds m x : m < u64_max → (m <? Z.min x u64_max) = (m <? x).
Proof. intros Hm. destruct (Z.ltb_spec m (Z.min x u64_max)), (Z.ltb_spec m x); lia. Qed.

Lemma takeCharacters_spec m bounded s :
  m < u64_max → bounded ≤ m →
  takeCharacters m bounded s `prefix_of` s ∧ bounded + str_len (takeCharacters m bounded s) ≤ m.
Proof.
  intros Hm. revert bounded. induction s as [|c s IH]; intros bounded Hb; cbn; [split; [done|lia]|].
  unfold saturating_add. rewrite saturating_exceeds by done. case_if Hc; [split; [apply prefix_nil|cbn; lia]|].
  apply Z.ltb_ge in Hc. destruct (IH _ Hc) as [Hp Hl]. split; [by apply prefix_cons|cbn; lia].
Qed.

(** Cut at most at the end; [cut] says whether it was. *)
Record Cut (cut : bool) (maximum : Z) (original kept : chars) : Prop := {
  cu_prefix : kept `prefix_of` original;
  cu_fits : str_len kept ≤ maximum;
  cu_flag : cut = false ↔ kept = original;
}.

Lemma boundString_cut value m :
  0 ≤ m → m < u64_max →
  Cut (boundString value m).2 m (text value) (text (boundString value m).1).
Proof.
  intros H0 Hm. unfold boundString. cbv zeta. case_if Hle; [apply Z.leb_le in Hle; by split|].
  cbn. apply Z.leb_gt in Hle. destruct (takeCharacters_spec m 0 (text value)) as [Hp Hl]; [done..|].
  split; [done|lia|]. destruct (Z.ltb_spec m (str_len (text value))); [|lia]. split; [done|].
  intros Heq. rewrite Heq in Hl. lia.
Qed.

Section headers.
Context `{Layout}.

(** ** Headers *)
Definition header_text (h : HeaderField) : chars * chars := (text (hf_name h), text (hf_value h)).
Definition cut_header (kept original : HeaderField) : Prop :=
  text (hf_name kept) `prefix_of` text (hf_name original) ∧
  text (hf_value kept) `prefix_of` text (hf_value original).

(** [kept] is what is left of [headers]; [truncated] says whether something is missing. *)
Record Kept (headers kept : list HeaderField) (truncated : bool) : Prop := {
  ke_cut : Forall2 cut_header kept (take (length kept) headers);
  ke_flag : truncated = false ↔ header_text <$> kept = header_text <$> headers;
}.

Lemma kept_nil headers truncated : (truncated = false ↔ headers = []) → Kept headers [] truncated.
Proof.
  intros Ht. split; [constructor|]. rewrite Ht. split; [by intros ->|]. by destruct headers.
Qed.

Lemma kept_cons header headers h kept cut truncated :
  cut_header h header → (cut = false ↔ header_text h = header_text header) →
  Kept headers kept truncated → Kept (header :: headers) (h :: kept) (cut || truncated).
Proof.
  intros Hc Hcut [Hf Ht]. split; [by constructor|]. cbn [fmap list_fmap].
  rewrite orb_false_iff, Hcut, Ht. split; [intros [-> ->]; done|]. intros Heq.
  by injection Heq as Hn Hv Hk; split; [unfold header_text; congruence|].
Qed.

(** The header the loop keeps, with the room that is left for its value. *)
Lemma cut_value value room :
  0 ≤ room → str_len (text value) < u64_max →
  ∃ b, (if room <? str_len (text value) then ((boundString value room).1, true) else (value, false)) =
    (b.1, b.2) ∧ text b.1 `prefix_of` text value ∧ (b.2 = false ↔ text b.1 = text value).
Proof.
  intros Hroom Hmax. destruct (Z.ltb_spec room (str_len (text value))) as [Hlt|Hge].
  - destruct (boundString_cut value room) as [Hp Hl Hf]; [lia..|].
    exists ((boundString value room).1, true). cbn. split_and!; [done|done|]. split; [done|].
    intros Heq. rewrite Heq in Hl. lia.
  - by exists (value, false).
Qed.

Lemma boundLoop_kept maximum count headers acc logical truncated :
  count = len acc + len headers →
  ∃ kept missing, Kept headers kept missing ∧
    boundLoop maximum count headers acc logical truncated = (acc ++ kept, truncated || missing).
Proof.
  revert acc logical truncated. induction headers as [|header headers IH]; intros acc logical truncated Hc.
  { exists [], false. rewrite app_nil_r, orb_false_r. split; [by apply kept_nil|done]. }
  pose proof (boundString_cut (hf_name header) maximumHeaderNameBytes ltac:(done) ltac:(done)) as Hn.
  pose proof (boundString_cut (hf_value header) maximumHeaderValueBytes ltac:(done) ltac:(done)) as Hv.
  cbn [boundLoop]. destruct (boundString (hf_name header) _) as [name cutName].
  destruct (boundString (hf_value header) _) as [value cutValue]. cbn in Hn, Hv. cbv zeta.
  case_if Hfix.
  { exists [], true. rewrite app_nil_r, orb_true_r. split; [by apply kept_nil|done]. }
  set (room := saturating_sub _ _).
  destruct (cut_value value room) as ([value' cut] & Hval & Hp & Hf).
  { unfold room, saturating_sub. lia. }
  { pose proof (cu_fits _ _ _ _ Hv) as Hl. eapply Z.le_lt_trans; [exact Hl|done]. }
  assert (Hpair : (if room <? str_len (text value) then ((boundString value room).1, true)
      else (value, (truncated || cutName || cutValue))) = (value', truncated || cutName || cutValue || cut)).
  { revert Hval. cbn. case_if Hr; intros [= -> <-]; [by rewrite orb_true_r|by rewrite orb_false_r]. }
  rewrite Hpair. cbn in Hp, Hf. set (logical' := saturating_add _ (str_len _)).
  set (h := {| hf_name := name; hf_value := value' |}).
  assert (Hcut : cut_header h header).
  { split; [apply Hn|]. cbn. by etrans; [|apply Hv]. }
  assert (Hflag : (cutName || cutValue || cut) = false ↔ header_text h = header_text header).
  { unfold header_text. cbn. rewrite !orb_false_iff, (cu_flag _ _ _ _ Hn), (cu_flag _ _ _ _ Hv), Hf.
    split; [by intros [[-> <-] ->]|]. intros [= -> Heq]. rewrite Heq in Hp.
    assert (Hsame : text value = text (hf_value header)).
    { apply (anti_symm prefix); [apply Hv|done]. }
    split_and!; [done|done|congruence]. }
  assert (Hlen : len (acc ++ [h]) = len acc + 1) by (rewrite len_app; done).
  rewrite len_cons in Hc. case_if Hend.
  - exists [h], ((cutName || cutValue || cut) || (len (acc ++ [h]) <? count)). split; [|by rewrite !orb_assoc].
    apply kept_cons; [done..|]. apply kept_nil. rewrite Z.ltb_ge, Hlen. split.
    + intros Hle. apply len_nil_inv. pose proof (len_nonneg headers). lia.
    + intros ->. rewrite len_nil in Hc. lia.
  - destruct (IH (acc ++ [h]) logical' (truncated || cutName || cutValue || cut)) as (kept & missing & Hk & ->);
      [rewrite Hlen; lia|].
    exists (h :: kept), ((cutName || cutValue || cut) || missing). split; [by apply kept_cons|].
    rewrite <-app_assoc. by rewrite !orb_assoc.
Qed.

(** ** Popping *)
Lemma kept_take headers kept truncated j :
  Kept headers kept truncated → (j < length kept)%nat → Kept headers (take j kept) true.
Proof.
  intros [Hc _] Hj. split.
  - rewrite length_take_le by lia. apply (Forall2_take _ _ _ j) in Hc.
    by rewrite take_take, Nat.min_l in Hc by lia.
  - split; [done|]. intros Heq%(f_equal length). rewrite !length_fmap, length_take_le in Heq by lia.
    apply Forall2_length in Hc. rewrite length_take in Hc. lia.
Qed.

Lemma popLoop_kept maximum headers kept truncated :
  0 ≤ maximum → Kept headers kept truncated →
  let b := popLoop maximum (reverse kept) truncated in
  Kept headers (bh_headers b) (bh_truncated b) ∧
  bh_storedBytes b = headerStorageBytes (bh_headers b) (len (bh_headers b)) ∧
  bh_storedBytes b ≤ maximum.
Proof.
  intros H0. revert truncated. induction kept as [|h kept IH] using rev_ind; intros truncated Hk.
  { cbn. split_and!; [done|done|]. unfold headerStorageBytes. cbn. done. }
  rewrite reverse_snoc. cbn [popLoop]. cbv zeta. rewrite reverse_cons, reverse_involutive.
  case_if Hfit.
  - apply IH. rewrite <-(take_app_length kept [h]). apply (kept_take _ _ truncated); [done|].
    rewrite length_app. cbn. lia.
  - apply Z.ltb_ge in Hfit. by split_and!.
Qed.

(** Bounding the headers of a message: what is kept fits the bytes available, is a prefix
    of the fields with names and values cut only at their ends, and the flag says exactly
    whether anything is missing. *)
Theorem bounded_headers_fit headers availableBytes :
  0 ≤ availableBytes →
  let b := boundHeaders headers availableBytes in
  bh_storedBytes b = headerStorageBytes (bh_headers b) (len (bh_headers b)) ∧
  bh_storedBytes b ≤ availableBytes ∧
  Forall2 cut_header (bh_headers b) (take (length (bh_headers b)) headers) ∧
  (bh_truncated b = false ↔ header_text <$> bh_headers b = header_text <$> headers).
Proof.
  intros H0. cbv zeta. unfold boundHeaders. cbv zeta.
  set (maximum := Z.min _ _).
  destruct (boundLoop_kept maximum (len headers) headers [] 0 false) as (kept & missing & Hk & ->); [done|].
  cbn [app orb].
  assert (Hk' : Kept headers kept (missing || (len kept <? len headers))).
  { destruct Hk as [Hc Hf]. split; [done|]. rewrite orb_false_iff, Hf. split; [by intros [? _]|].
    intros Heq. split; [done|]. apply (f_equal length) in Heq. rewrite !length_fmap in Heq.
    apply Z.ltb_ge. unfold len. lia. }
  destruct (popLoop_kept maximum headers kept (missing || (len kept <? len headers))) as (Hkept & Hs & Hl); [|exact Hk'|].
  { unfold maximum, maximumStoredHeaderSideBytes. lia. }
  split_and!; [done| |apply Hkept|apply Hkept].
  unfold maximum in Hl at 2. lia.
Qed.
End headers.
