(* ===== verification/BodyStore.v ===== *)
(** * Storage of message bodies

    Model of [Server/Backend/Capture/src/bodyStore.rs].  Small bodies stay in memory,
    large ones are spilled to files of the session directory, written under a
    temporary name and renamed.  The disk is a directory of names bound to inodes, so
    that an open file outlives the removal of its name.  Whether the operating system
    grants an operation is read from the list [dk_answers] (an empty list grants
    everything).  An asynchronous task that is cancelled while it waits for an
    operation drops what it holds, as an operation that fails does, and is covered by
    a refusal.  [Uuid::new_v4] draws the next element of a sequence. *)

From S2P Require Import Prelude Stateful Text Location CaptureModel.

(** ** What the code takes from its environment *)
Class Environment := {
  (** The [n]-th version 4 UUID, printed. *)
  new_v4 : nat → chars;
  (** What [PathBuf::join] allocates beyond the length of the path. *)
  path_slack : chars → Z;
  (** The element a [HashSet] iterates first. *)
  first_orphan : gset chars → option chars
}.

Class EnvironmentOk `{E : Environment} : Prop := {
  new_v4_length n : length (new_v4 n) = 36%nat;
  new_v4_inj : Inj (=) (=) new_v4;
  path_slack_nonneg path : 0 ≤ path_slack path;
  first_orphan_elem orphans :
    match first_orphan orphans with Some p => p ∈ orphans | None => orphans = ∅ end
}.

(** ** The disk *)
Inductive answer :=
| Granted
  (** A refused write leaves [written] bytes, a refused removal of a directory may
      have removed the files [lost]. *)
| Refused (written : nat) (lost : gset chars).

Record Disk := {
  dk_directory : bool;
  dk_names : gmap chars nat;
  dk_inodes : list (list Z);
  dk_answers : list answer
}.

Definition set_names (names : gmap chars nat) (d : Disk) : Disk :=
  {| dk_directory := dk_directory d; dk_names := names; dk_inodes := dk_inodes d;
     dk_answers := dk_answers d |}.
Definition set_inodes (inodes : list (list Z)) (d : Disk) : Disk :=
  {| dk_directory := dk_directory d; dk_names := dk_names d; dk_inodes := inodes;
     dk_answers := dk_answers d |}.
Definition set_directory (directory : bool) (d : Disk) : Disk :=
  {| dk_directory := directory; dk_names := dk_names d; dk_inodes := dk_inodes d;
     dk_answers := dk_answers d |}.

Abbreviation io := (stateful Disk IoErrorKind) (only parsing).

Definition next_answer : io answer := λ d,
  (match dk_answers d with
   | [] => d
   | _ :: rest => {| dk_directory := dk_directory d; dk_names := dk_names d;
                     dk_inodes := dk_inodes d; dk_answers := rest |}
   end, Ok (default Granted (head (dk_answers d)))).

Definition granted {A} (m : io A) : io A :=
  a ← next_answer;
  match a with Granted => m | Refused _ _ => fail OtherIo end.

(** [OpenOptions::create_new]. *)
Definition create_new (path : chars) : io nat := granted (
  d ← gets id;
  if negb (dk_directory d) then fail NotFound
  else if bool_decide (is_Some (dk_names d !! path)) then fail OtherIo
  else
    let inode := length (dk_inodes d) in
    _ ← modify (λ d, set_inodes (dk_inodes d ++ [[]]) (set_names (<[path := inode]> (dk_names d)) d));
    mret inode).

Definition append_inode (inode : nat) (bytes : list Z) (d : Disk) : Disk :=
  set_inodes (alter (λ content, content ++ bytes) inode (dk_inodes d)) d.

Definition write_all (inode : nat) (bytes : list Z) : io unit :=
  a ← next_answer;
  match a with
  | Granted => modify (append_inode inode bytes)
  | Refused written _ =>
      _ ← modify (append_inode inode (take written bytes));
      fail OtherIo
  end.

Definition sync_all : io unit := granted (mret tt).

Definition rename (from to : chars) : io unit := granted (
  d ← gets id;
  match dk_names d !! from with
  | Some inode => modify (set_names (<[to := inode]> (delete from (dk_names d))))
  | None => fail NotFound
  end).

Definition remove_file (path : chars) : io unit := granted (
  d ← gets id;
  match dk_names d !! path with
  | Some _ => modify (set_names (delete path (dk_names d)))
  | None => fail NotFound
  end).

Definition open_file (path : chars) : io nat := granted (
  d ← gets id;
  match dk_names d !! path with Some inode => mret inode | None => fail NotFound end).

Definition content (inode : nat) (d : Disk) : list Z := default [] (dk_inodes d !! inode).
Definition file_length (inode : nat) : io Z := granted (gets (λ d, len (content inode d))).

(** [seek] and [read_exact] of [count] bytes. *)
Definition read_at (inode : nat) (offset count : Z) : io (list Z) := granted (
  d ← gets id;
  match get_range (content inode d) offset (offset + count) with
  | Some bytes => mret bytes
  | None => fail OtherIo
  end).

Definition read_file (path : chars) : io (list Z) :=
  inode ← open_file path;
  gets (content inode).

Definition remove_dir_all : io unit :=
  a ← next_answer;
  match a with
  | Granted =>
      d ← gets id;
      if dk_directory d then modify (λ d, set_directory false (set_names ∅ d)) else fail NotFound
  | Refused _ lost =>
      _ ← modify (λ d, set_names (filter (λ '(path, _), path ∉ lost) (dk_names d)) d);
      fail OtherIo
  end.

Definition create_dir_all : io unit := granted (modify (set_directory true)).

(** ** The store *)
Inductive BodyStorageKind := MemoryKind | SpillKind.
Inductive BodyStorage := Memory (bytes : list Z) | Spill (path : string).

Record BodyRef := { bf_meta : BodyHandleMeta; bf_storage : BodyStorage }.

Definition clone_body (b : BodyRef) : BodyRef :=
  {| bf_meta := clone_meta (bf_meta b);
     bf_storage := match bf_storage b with
                   | Memory bytes => Memory bytes
                   | Spill path => Spill (clone_string path)
                   end |}.

Definition storageKind (b : BodyRef) : BodyStorageKind :=
  match bf_storage b with Memory _ => MemoryKind | Spill _ => SpillKind end.

Definition metadataStorageBytes (b : BodyRef) : Z :=
  let textBytes := saturating_add
    (saturating_add (capacity (bm_transactionId (bf_meta b))) (capacity (bm_contentType (bf_meta b))))
    (capacity (bm_encoding (bf_meta b))) in
  match bf_storage b with
  | Memory _ => textBytes
  | Spill path => saturating_add textBytes (capacity path)
  end.

Record BodyStore := {
  bs_sessionDirectory : chars;
  bs_memoryThreshold : Z;
  bs_orphanedSpills : gset chars;
  bs_uuids : nat;
  bs_disk : Disk
}.

Definition set_orphans (orphans : gset chars) (s : BodyStore) : BodyStore :=
  {| bs_sessionDirectory := bs_sessionDirectory s; bs_memoryThreshold := bs_memoryThreshold s;
     bs_orphanedSpills := orphans; bs_uuids := bs_uuids s; bs_disk := bs_disk s |}.
Definition set_disk (d : Disk) (s : BodyStore) : BodyStore :=
  {| bs_sessionDirectory := bs_sessionDirectory s; bs_memoryThreshold := bs_memoryThreshold s;
     bs_orphanedSpills := bs_orphanedSpills s; bs_uuids := bs_uuids s; bs_disk := d |}.

Abbreviation onStore := (stateful BodyStore CaptureError) (only parsing).

(** An operation of the file system, its error wrapped. *)
Definition on_disk {A} (f : IoErrorKind → CaptureError) (m : io A) : onStore A := λ s,
  let '(d, r) := m (bs_disk s) in (set_disk d s, map_err f r).

(** [m] with [cleanup] run when it fails: what the drop of a local does. *)
Definition on_error {S E A} (cleanup : stateful S E unit) (m : stateful S E A) : stateful S E A := λ s,
  match m s with
  | (s, Err e) => ((cleanup s).1, Err e)
  | other => other
  end.

(** What a read reports of the disk: a file that is gone is a missing body. *)
Definition readError (kind : IoErrorKind) : CaptureError :=
  match kind with NotFound => BodyNotFound | kind => Io kind end.

(** [remove_file] and [remove_dir_all] where a missing file is as good. *)
Definition tolerant (m : io unit) : io unit := λ d,
  match m d with (d, Err NotFound) => (d, Ok tt) | other => other end.

Section store.
Context `{Environment}.

Definition v4 : onStore chars :=
  s ← gets id;
  _ ← modify (λ s, {| bs_sessionDirectory := bs_sessionDirectory s;
                      bs_memoryThreshold := bs_memoryThreshold s;
                      bs_orphanedSpills := bs_orphanedSpills s; bs_uuids := S (bs_uuids s);
                      bs_disk := bs_disk s |});
  mret (new_v4 (bs_uuids s)).

(** [PathBuf::join] on Windows, of a directory that is no bare drive and a name that
    is relative. *)
Definition separator (directory : chars) : chars :=
  if is_empty directory || ends_with [92] directory || ends_with [47] directory then [] else [92].
Definition join (directory name : chars) : string :=
  let path := directory ++ separator directory ++ name in
  {| text := path; capacity := str_len path + path_slack path |}.

Definition bodyFileName (side : MessageSide) (transactionId uniqueSuffix : chars) : chars :=
  fileLabel side ++ lit "-" ++ transactionId ++ lit "-" ++ uniqueSuffix ++ lit ".body".

(** The drop of a [SpillFileGuard] that still has its path. *)
Definition dropGuard (path : chars) : onStore unit := λ s,
  match remove_file path (bs_disk s) with
  | (d, Ok _) | (d, Err NotFound) => (set_disk d s, Ok tt)
  | (d, _) => (set_orphans ({[path]} ∪ bs_orphanedSpills s) (set_disk d s), Ok tt)
  end.

(** *** Staged bodies and spools *)
Record StagedBody := {
  sb_bodyReference : BodyRef;
  sb_spillGuard : option chars
}.

Definition dropStaged (staged : StagedBody) : onStore unit :=
  match sb_spillGuard staged with Some path => dropGuard path | None => mret tt end.

(** [commit] disarms the guard. *)
Definition commitStaged (staged : StagedBody) : BodyRef := sb_bodyReference staged.

Record BodySpool := {
  bo_file : nat;
  bo_pendingPath : string;
  bo_committedPath : string;
  bo_writtenBytes : Z
}.

Definition dropSpool (spool : BodySpool) : onStore unit := dropGuard (text (bo_pendingPath spool)).

Definition appendSpool (spool : BodySpool) (bytes : list Z) : onStore BodySpool :=
  _ ← on_disk Io (write_all (bo_file spool) bytes);
  mret {| bo_file := bo_file spool; bo_pendingPath := bo_pendingPath spool;
          bo_committedPath := bo_committedPath spool;
          bo_writtenBytes := saturating_add (bo_writtenBytes spool) (len bytes) |}.

(** [BodyStore::stageSpool], which is [BodySpool::stage]. *)
Definition stageSpool (spool : BodySpool) (meta : BodyHandleMeta) : onStore StagedBody :=
  on_error (dropSpool spool) (
    _ ← on_disk Io sync_all;
    _ ← on_disk Io sync_all;
    _ ← on_disk Io (rename (text (bo_pendingPath spool)) (text (bo_committedPath spool)));
    mret {| sb_bodyReference := {| bf_meta := meta;
                                   bf_storage := Spill (clone_string (bo_committedPath spool)) |};
            sb_spillGuard := Some (text (bo_committedPath spool)) |}).

(** *** Operations *)
Definition writeSpillAtomically (pendingPath filePath : chars) (bytes : list Z) : onStore unit :=
  on_error (dropGuard pendingPath) (
    inode ← on_disk Io (create_new pendingPath);
    _ ← on_disk Io (write_all inode bytes);
    _ ← on_disk Io sync_all;
    on_disk Io (rename pendingPath filePath)).

Definition store (transactionId : chars) (side : MessageSide) (bytes : list Z) (meta : BodyHandleMeta)
    : onStore StagedBody :=
  s ← gets id;
  if len bytes <=? bs_memoryThreshold s then
    mret {| sb_bodyReference := {| bf_meta := meta; bf_storage := Memory bytes |};
            sb_spillGuard := None |}
  else
    uniqueSuffix ← v4;
    let filePath := join (bs_sessionDirectory s) (bodyFileName side transactionId uniqueSuffix) in
    let pendingPath :=
      join (bs_sessionDirectory s) (lit ".pending-" ++ uniqueSuffix ++ lit ".body") in
    _ ← writeSpillAtomically (text pendingPath) (text filePath) bytes;
    mret {| sb_bodyReference := {| bf_meta := meta; bf_storage := Spill filePath |};
            sb_spillGuard := Some (text filePath) |}.

Definition createSpool (transactionId : chars) (side : MessageSide) : onStore BodySpool :=
  s ← gets id;
  uniqueSuffix ← v4;
  let committedPath := join (bs_sessionDirectory s) (bodyFileName side transactionId uniqueSuffix) in
  let pendingPath := join (bs_sessionDirectory s) (lit ".stream-" ++ uniqueSuffix ++ lit ".body") in
  on_error (dropGuard (text pendingPath)) (
    inode ← on_disk Io (create_new (text pendingPath));
    mret {| bo_file := inode; bo_pendingPath := pendingPath; bo_committedPath := committedPath;
            bo_writtenBytes := 0 |}).

Definition read (b : BodyRef) : onStore (list Z) :=
  match bf_storage b with
  | Memory bytes => mret bytes
  | Spill path =>
      bytes ← on_disk readError (read_file (text path));
      if negb (len bytes =? bm_storedBytes (bf_meta b)) then fail (Io InvalidData) else mret bytes
  end.

Definition readRange (b : BodyRef) (offset maximumBytes : Z) : onStore (list Z) :=
  let storedBytes := bm_storedBytes (bf_meta b) in
  if storedBytes <? offset then fail (Io InvalidInput)
  else
    let readBytes := Z.min maximumBytes (storedBytes - offset) in
    match bf_storage b with
    | Memory bytes => lift (sub_slice bytes offset (offset + readBytes))
    | Spill path =>
        inode ← on_disk readError (open_file (text path));
        fileBytes ← on_disk Io (file_length inode);
        if negb (fileBytes =? storedBytes) then fail (Io InvalidData)
        else on_disk Io (read_at inode offset readBytes)
    end.

(** *** Leases: an open handle, independent of the name *)
Inductive BodyReadStorage := LeaseMemory (bytes : list Z) | LeaseSpill (inode : nat).
Record BodyReadLease := { le_meta : BodyHandleMeta; le_storage : BodyReadStorage }.

Definition lease (b : BodyRef) : onStore BodyReadLease :=
  match bf_storage b with
  | Memory bytes => mret {| le_meta := clone_meta (bf_meta b); le_storage := LeaseMemory bytes |}
  | Spill path =>
      inode ← on_disk readError (open_file (text path));
      fileBytes ← on_disk Io (file_length inode);
      if negb (fileBytes =? bm_storedBytes (bf_meta b)) then fail (Io InvalidData)
      else mret {| le_meta := clone_meta (bf_meta b); le_storage := LeaseSpill inode |}
  end.

Definition leaseReadRange (l : BodyReadLease) (offset maximumBytes : Z) : onStore (list Z) :=
  let storedBytes := bm_storedBytes (le_meta l) in
  if storedBytes <? offset then fail (Io InvalidInput)
  else
    let readBytes := Z.min maximumBytes (storedBytes - offset) in
    match le_storage l with
    | LeaseMemory bytes => lift (sub_slice bytes offset (offset + readBytes))
    | LeaseSpill inode => on_disk Io (read_at inode offset readBytes)
    end.

(** *** Removal *)
Definition remove (b : BodyRef) : onStore unit :=
  match bf_storage b with
  | Memory _ => mret tt
  | Spill path => on_disk Io (tolerant (remove_file (text path)))
  end.

Fixpoint cleanupLoop (fuel : nat) : onStore unit :=
  match fuel with
  | O => lift Panic
  | S fuel =>
      s ← gets id;
      match first_orphan (bs_orphanedSpills s) with
      | None => mret tt
      | Some path =>
          _ ← on_disk Io (tolerant (remove_file path));
          _ ← modify (λ s, set_orphans (bs_orphanedSpills s ∖ {[path]}) s);
          cleanupLoop fuel
      end
  end.
Definition cleanupOrphanedSpills : onStore unit :=
  n ← gets (λ s, size (bs_orphanedSpills s));
  cleanupLoop (S n).

Definition pendingOrphanCount (s : BodyStore) : Z := Z.of_nat (size (bs_orphanedSpills s)).

Definition clearStore : onStore unit :=
  _ ← on_disk Io (tolerant remove_dir_all);
  _ ← on_disk Io create_dir_all;
  modify (set_orphans ∅).

Definition closeStore : onStore unit :=
  _ ← on_disk Io (tolerant remove_dir_all);
  modify (set_orphans ∅).
End store.
