(* ===== verification/BodyStoreSpec.v ===== *)
(** * What the operations of the body store promise

    Every operation is framed by the names and the open files it may touch: the rest
    of the disk is as before, whatever the operating system grants or refuses.  The
    specifications are stated with [Runs], so none of the operations panics. *)

From S2P Require Import Prelude Stateful Text Location CaptureModel BodyStore.

(** ** The disk *)
(** A directory that does not exist has no files. *)
Definition DirOk (d : Disk) : Prop := dk_directory d = false → dk_names d = ∅.

(** Only answers may differ, and the directory may have been created. *)
Record Same (d d' : Disk) : Prop := {
  sm_names : dk_names d' = dk_names d;
  sm_inodes : dk_inodes d' = dk_inodes d;
  sm_directory : dk_directory d' = false → dk_directory d = false;
}.

(** The names outside [T] and the files outside [I] are as before. *)
Record DiskFrame (T : chars → Prop) (I : nat → Prop) (d d' : Disk) : Prop := {
  df_names : ∀ path, ¬ T path → dk_names d' !! path = dk_names d !! path;
  df_inodes : ∀ i, (i < length (dk_inodes d))%nat → ¬ I i → dk_inodes d' !! i = dk_inodes d !! i;
  df_length : (length (dk_inodes d) ≤ length (dk_inodes d'))%nat;
  df_directory : DirOk d → DirOk d';
}.

#[export] Instance same_refl : Reflexive Same.
Proof. by intros d. Qed.

Lemma same_trans d1 d2 d3 : Same d1 d2 → Same d2 d3 → Same d1 d3.
Proof. intros [] []. split; [congruence..|auto]. Qed.

Lemma frame_same T I d d' : Same d d' → DiskFrame T I d d'.
Proof.
  intros [Hn Hi Hd]. split; intros; rewrite ?Hn, ?Hi; try done.
  intros ?%Hd. rewrite Hn. auto.
Qed.

Lemma frame_trans T I d1 d2 d3 : DiskFrame T I d1 d2 → DiskFrame T I d2 d3 → DiskFrame T I d1 d3.
Proof.
  intros [Hn1 Hi1 Hl1 Hd1] [Hn2 Hi2 Hl2 Hd2]. split; [|intros|lia|auto].
  - intros. by rewrite Hn2, Hn1.
  - rewrite Hi2, Hi1; [done|done..|lia|done].
Qed.

Lemma frame_mono (T T' : chars → Prop) (I I' : nat → Prop) d d' :
  (∀ p, T p → T' p) → (∀ i, I i → I' i) → DiskFrame T I d d' → DiskFrame T' I' d d'.
Proof. intros HT HI [Hn Hi Hl Hd]. split; [|intros|done..]; naive_solver. Qed.

Definition Nowhere {A} (_ : A) : Prop := False.

Lemma granted_runs {A} (m : io A) d (P : A → Disk → Prop) (Q : IoErrorKind → Disk → Prop) :
  (∀ d', Same d d' → dk_directory d' = dk_directory d → Runs m d' P Q) →
  (∀ d', Same d d' → Q OtherIo d') → Runs (granted m) d P Q.
Proof.
  intros Hm HQ. unfold granted. apply runs_bind. unfold Runs at 1, next_answer.
  destruct (dk_answers d) as [|a rest]; cbn.
  - by apply Hm.
  - destruct a as [|w l]; [by apply Hm|]. apply runs_fail. by apply HQ.
Qed.

Lemma create_new_runs path d :
  Runs (create_new path) d
    (λ inode d', inode = length (dk_inodes d) ∧ dk_names d' = <[path := inode]> (dk_names d) ∧
                 dk_inodes d' = dk_inodes d ++ [[]] ∧ dk_directory d' = true ∧
                 dk_names d !! path = None)
    (λ _ d', Same d d').
Proof.
  apply granted_runs; [|done]. intros d1 Hs _. apply runs_bind, runs_gets. unfold id. cbn.
  case_if Hdir; [by apply runs_fail|]. case_bool_decide as Hsome; [by apply runs_fail|].
  apply runs_bind, runs_modify. apply runs_ret. cbn. apply negb_false_iff in Hdir.
  destruct Hs as [Hn Hi _]. rewrite Hn in Hsome. rewrite Hn, Hi.
  split_and!; try done. by apply eq_None_not_Some.
Qed.

Lemma write_all_runs inode bytes d :
  Runs (write_all inode bytes) d
    (λ _ d', dk_names d' = dk_names d ∧ dk_directory d' = dk_directory d ∧
             dk_inodes d' = alter (λ content, content ++ bytes) inode (dk_inodes d))
    (λ _ d', DiskFrame Nowhere (eq inode) d d').
Proof.
  unfold write_all. apply runs_bind. unfold Runs at 1, next_answer.
  destruct (dk_answers d) as [|[|w l] rest]; cbn; [done..|].
  split; cbn; [done| |by rewrite length_alter|done].
  intros i _ Hne. rewrite list_lookup_alter_ne; done.
Qed.

Lemma sync_all_runs d : Runs sync_all d (λ _ d', Same d d') (λ _ d', Same d d').
Proof. apply granted_runs; [|done]. intros. by apply runs_ret. Qed.

Lemma rename_runs from to d :
  Runs (rename from to) d
    (λ _ d', ∃ inode, dk_names d !! from = Some inode ∧ dk_directory d' = dk_directory d ∧
       dk_names d' = <[to := inode]> (delete from (dk_names d)) ∧ dk_inodes d' = dk_inodes d)
    (λ _ d', Same d d').
Proof.
  apply granted_runs; [|done]. intros d1 Hs Hd. apply runs_bind, runs_gets. unfold id. cbn.
  pose proof Hs as [Hn Hi _]. rewrite Hn.
  destruct (dk_names d !! from) as [inode|] eqn:Hf; [|by apply runs_fail].
  apply runs_modify. cbn. eauto 10.
Qed.

Lemma remove_file_runs path d :
  Runs (remove_file path) d
    (λ _ d', dk_names d' = delete path (dk_names d) ∧ dk_inodes d' = dk_inodes d ∧
             dk_directory d' = dk_directory d)
    (λ e d', Same d d' ∧ (e = NotFound → dk_names d !! path = None)).
Proof.
  apply granted_runs; [|done]. intros d1 Hs Hd. apply runs_bind, runs_gets. unfold id. cbn.
  pose proof Hs as [Hn Hi _]. rewrite Hn.
  destruct (dk_names d !! path) as [inode|]; [|by apply runs_fail].
  apply runs_modify. cbn. try rewrite Hn. done.
Qed.

Lemma delete_frame path d d' :
  dk_names d' = delete path (dk_names d) → dk_inodes d' = dk_inodes d →
  (dk_directory d' = false → dk_directory d = false) → DiskFrame (eq path) Nowhere d d'.
Proof.
  intros Hn Hi Hd. split; intros; rewrite ?Hi; try done.
  - rewrite Hn. by apply lookup_delete_ne.
  - intros ?%Hd. rewrite Hn. rewrite H by done. apply delete_empty.
Qed.

Lemma tolerant_remove_runs path d :
  Runs (tolerant (remove_file path)) d
    (λ _ d', DiskFrame (eq path) Nowhere d d' ∧ dk_names d' !! path = None)
    (λ _ d', Same d d').
Proof.
  pose proof (remove_file_runs path d) as H. unfold Runs, tolerant in *.
  destruct (remove_file path d) as [d' [u|e|]]; [| |done].
  - destruct H as (Hn & Hi & Hd). split; [apply delete_frame; congruence|].
    rewrite Hn. apply lookup_delete_eq.
  - destruct H as [Hs He]. destruct e; try done. split; [by apply frame_same|].
    rewrite (sm_names _ _ Hs). auto.
Qed.

Lemma open_file_runs path d :
  Runs (open_file path) d (λ inode d', Same d d' ∧ dk_names d !! path = Some inode)
    (λ _ d', Same d d').
Proof.
  apply granted_runs; [|done]. intros d1 Hs _. apply runs_bind, runs_gets. unfold id. cbn.
  rewrite (sm_names _ _ Hs).
  destruct (dk_names d !! path); [by apply runs_ret|by apply runs_fail].
Qed.

Lemma content_same inode d d' : Same d d' → content inode d' = content inode d.
Proof. intros Hs. unfold content. by rewrite (sm_inodes _ _ Hs). Qed.

Lemma file_length_runs inode d :
  Runs (file_length inode) d (λ n d', Same d d' ∧ n = len (content inode d)) (λ _ d', Same d d').
Proof.
  apply granted_runs; [|done]. intros d1 Hs _. apply runs_gets. by rewrite (content_same _ _ _ Hs).
Qed.

Lemma read_at_runs inode offset count d :
  Runs (read_at inode offset count) d
    (λ bytes d', Same d d' ∧ get_range (content inode d) offset (offset + count) = Some bytes)
    (λ _ d', Same d d').
Proof.
  apply granted_runs; [|done]. intros d1 Hs _. apply runs_bind, runs_gets. unfold id. cbn.
  rewrite (content_same _ _ _ Hs). destruct (get_range _ _ _); [by apply runs_ret|by apply runs_fail].
Qed.

Lemma read_file_runs path d :
  Runs (read_file path) d
    (λ bytes d', Same d d' ∧ ∃ inode, dk_names d !! path = Some inode ∧ bytes = content inode d)
    (λ _ d', Same d d').
Proof.
  unfold read_file. apply runs_bind. eapply runs_mono, open_file_runs; [|done]. cbn.
  intros inode d' [Hs Hn]. split; [done|]. exists inode.
  by rewrite (content_same _ _ _ Hs).
Qed.

Lemma remove_dir_runs d :
  DirOk d →
  Runs (tolerant remove_dir_all) d
    (λ _ d', dk_inodes d' = dk_inodes d ∧ dk_names d' = ∅)
    (λ _ d', dk_inodes d' = dk_inodes d ∧ DirOk d' ∧ dk_names d' ⊆ dk_names d).
Proof.
  unfold DirOk, tolerant, remove_dir_all, Runs, mbind, stateful_bind, next_answer. intros Hd.
  destruct (dk_answers d) as [|[|w l] rest]; cbn; [destruct (dk_directory d) eqn:Hdir; cbn; auto..|].
  split_and!; [done| |apply map_filter_subseteq]. intros ->%Hd. apply map_filter_empty.
Qed.

Lemma create_dir_runs d : Runs create_dir_all d (λ _ d', Same d d') (λ _ d', Same d d').
Proof. apply granted_runs; [|done]. intros d' [Hn Hi Hd] _. by apply runs_modify. Qed.

(** ** The store *)
Section store.
Context `{Environment} {Hok : EnvironmentOk}.

(** [p] is a path made from the [n]-th UUID. *)
Definition tagged (n : nat) (p : chars) : Prop := ∃ stem, p = stem ++ new_v4 n ++ lit ".body".
Definition Issued (b : BodyStore) (p : chars) : Prop := ∃ n, (n < bs_uuids b)%nat ∧ tagged n p.

Lemma tagged_inj n m p : tagged n p → tagged m p → n = m.
Proof.
  intros [stem1 ->] [stem2 Heq].
  apply app_inj_2 in Heq as [_ Heq]; [|rewrite !length_app, !new_v4_length; done].
  apply app_inj_2 in Heq as [Heq _]; [|done]. by apply new_v4_inj in Heq.
Qed.

Lemma fresh_issued n p q b : (bs_uuids b ≤ n)%nat → tagged n p → Issued b q → p ≠ q.
Proof. intros Hn Hp (m & Hm & Hq) <-. pose proof (tagged_inj _ _ _ Hp Hq). lia. Qed.

Lemma issued_mono b b' p : (bs_uuids b ≤ bs_uuids b')%nat → Issued b p → Issued b' p.
Proof. intros Hle (n & Hn & Hp). exists n. split; [lia|done]. Qed.

Lemma tagged_join directory name n :
  (∃ stem, name = stem ++ new_v4 n ++ lit ".body") → tagged n (text (join directory name)).
Proof. intros [stem ->]. exists (directory ++ separator directory ++ stem). cbn. by rewrite <-!app_assoc. Qed.

Lemma tagged_body side transactionId directory n :
  tagged n (text (join directory (bodyFileName side transactionId (new_v4 n)))).
Proof.
  apply tagged_join. unfold bodyFileName.
  exists (fileLabel side ++ lit "-" ++ transactionId ++ lit "-"). by rewrite <-!app_assoc.
Qed.

(** The committed name never coincides with a temporary one. *)
Lemma body_not_dotted side transactionId n directory rest :
  text (join directory (bodyFileName side transactionId n)) ≠ text (join directory (46 :: rest)).
Proof.
  unfold join. cbn [text]. intros Heq%app_inv_head%app_inv_head. destruct side; discriminate Heq.
Qed.

(** What may have changed: the names in [T], the files in [I]; new orphans are names
    in [T]. *)
Record StoreFrame (T : chars → Prop) (I : nat → Prop) (b b' : BodyStore) : Prop := {
  sf_disk : DiskFrame T I (bs_disk b) (bs_disk b');
  sf_directory : bs_sessionDirectory b' = bs_sessionDirectory b;
  sf_threshold : bs_memoryThreshold b' = bs_memoryThreshold b;
  sf_uuids : (bs_uuids b ≤ bs_uuids b')%nat;
  sf_orphans : ∀ p, p ∈ bs_orphanedSpills b' → p ∈ bs_orphanedSpills b ∨ T p;
  sf_kept : ∀ p, p ∈ bs_orphanedSpills b → p ∈ bs_orphanedSpills b' ∨ T p;
}.

(** A name that is unbound or listed for removal. *)
Definition Gone (b : BodyStore) (p : chars) : Prop :=
  dk_names (bs_disk b) !! p = None ∨ p ∈ bs_orphanedSpills b.

Lemma store_frame_refl T I b : StoreFrame T I b b.
Proof. split; [by apply frame_same|done..|auto|auto]. Qed.

Lemma store_frame_trans T I b1 b2 b3 :
  StoreFrame T I b1 b2 → StoreFrame T I b2 b3 → StoreFrame T I b1 b3.
Proof.
  intros [Hd1 Hs1 Ht1 Hu1 Ho1 Hk1] [Hd2 Hs2 Ht2 Hu2 Ho2 Hk2].
  split; [by eapply frame_trans|congruence..|lia| |].
  - intros p [Hp|Hp]%Ho2; auto.
  - intros p [Hp|Hp]%Hk1; auto.
Qed.

Lemma store_frame_mono (T T' : chars → Prop) (I I' : nat → Prop) b b' :
  (∀ p, T p → T' p) → (∀ i, I i → I' i) → StoreFrame T I b b' → StoreFrame T' I' b b'.
Proof.
  intros HT HI [Hd Hs Ht Hu Ho Hk]. split; [by eapply frame_mono|done..| |].
  - intros p [?|?]%Ho; auto.
  - intros p [?|?]%Hk; auto.
Qed.

Lemma set_disk_frame T I b d : DiskFrame T I (bs_disk b) d → StoreFrame T I b (set_disk d b).
Proof. intros Hd. by split; auto. Qed.

Lemma on_disk_runs {A} f (m : io A) b (P : A → BodyStore → Prop) (Q : CaptureError → BodyStore → Prop) :
  Runs m (bs_disk b) (λ a d, P a (set_disk d b)) (λ e d, Q (f e) (set_disk d b)) →
  Runs (on_disk f m) b P Q.
Proof. unfold Runs, on_disk. by destruct (m (bs_disk b)) as [d []]. Qed.

Lemma on_error_runs {S E A} (cleanup : stateful S E unit) (m : stateful S E A) s
    (P : A → S → Prop) (Q : E → S → Prop) :
  Runs m s P (λ e s', Runs cleanup s' (λ _ s'', Q e s'') (λ _ s'', Q e s'')) →
  Runs (on_error cleanup m) s P Q.
Proof.
  unfold Runs, on_error. destruct (m s) as [s' [a|e|]]; [done| |done].
  by destruct (cleanup s') as [s'' []].
Qed.

Lemma set_disk_same b d : Same (bs_disk b) d → StoreFrame Nowhere Nowhere b (set_disk d b).
Proof. intros Hd. by apply set_disk_frame, frame_same. Qed.

Lemma dropGuard_runs p b :
  Runs (dropGuard p) b (λ _ b', StoreFrame (eq p) Nowhere b b' ∧ Gone b' p) (λ _ _, False).
Proof.
  pose proof (remove_file_runs p (bs_disk b)) as Hr. unfold Runs, dropGuard, Gone in *.
  destruct (remove_file p (bs_disk b)) as [d [u|e|]]; [| |done].
  - destruct Hr as (Hn & Hi & Hd). split.
    + apply set_disk_frame, delete_frame; congruence.
    + left. cbn. rewrite Hn. apply lookup_delete_eq.
  - destruct Hr as [Hs He].
    assert (Hsame : StoreFrame (eq p) Nowhere b (set_disk d b)) by by apply set_disk_frame, frame_same.
    destruct e; cbn.
    { split; [done|]. left. rewrite (sm_names _ _ Hs). auto. }
    all: split; [|right; set_solver].
    all: destruct Hsame; split; cbn in *; try done; set_solver.
Qed.

Lemma v4_runs b :
  Runs v4 b (λ id b', id = new_v4 (bs_uuids b) ∧ StoreFrame Nowhere Nowhere b b' ∧
                      bs_uuids b' = S (bs_uuids b) ∧ bs_disk b' = bs_disk b ∧
                      bs_orphanedSpills b' = bs_orphanedSpills b) (λ _ _, False).
Proof.
  apply runs_bind, runs_gets, runs_bind, runs_modify, runs_ret. split_and!; try done.
  split; cbn; auto. by apply frame_same.
Qed.

(** What a body holds on disk. *)
Definition contentOf (b : BodyStore) (body : BodyRef) : option (list Z) :=
  match bf_storage body with
  | Memory bytes => Some bytes
  | Spill path => inode ← dk_names (bs_disk b) !! text path; dk_inodes (bs_disk b) !! inode
  end.

Definition spillPath (body : BodyRef) : option chars :=
  match bf_storage body with Memory _ => None | Spill path => Some (text path) end.

(** The name [p] is bound to a file that holds [bytes] and is not in [I]. *)
Definition Bound (I : nat → Prop) (b : BodyStore) (p : chars) (bytes : list Z) : Prop :=
  ∃ inode, dk_names (bs_disk b) !! p = Some inode ∧ dk_inodes (bs_disk b) !! inode = Some bytes ∧
           ¬ I inode.

Lemma bound_frame T I J b b' p bytes :
  StoreFrame T I b b' → ¬ T p → (∀ i, I i → J i) → Bound J b p bytes → Bound J b' p bytes.
Proof.
  intros Hf HT HI (inode & Hn & Hi & HJ). exists inode. split_and!; [|..|done].
  - by rewrite (df_names _ _ _ _ (sf_disk _ _ _ _ Hf)).
  - rewrite (df_inodes _ _ _ _ (sf_disk _ _ _ _ Hf)); [done|by eapply lookup_lt_Some|auto].
Qed.

Lemma insert_frame path inode d d' :
  dk_names d' = <[path := inode]> (dk_names d) → dk_inodes d' = dk_inodes d ++ [[]] →
  dk_directory d' = true → DiskFrame (eq path) Nowhere d d'.
Proof.
  intros Hn Hi Hd. split.
  - intros p Hp. rewrite Hn. by apply lookup_insert_ne.
  - intros i Hlt _. rewrite Hi. by apply lookup_app_l.
  - rewrite Hi, length_app. lia.
  - intros _. unfold DirOk. congruence.
Qed.

Lemma gone_frame (T : chars → Prop) I b b' p :
  StoreFrame T I b b' → ¬ T p → (p ∈ bs_orphanedSpills b → p ∈ bs_orphanedSpills b') →
  Gone b p → Gone b' p.
Proof.
  intros Hf HT Ho [Hn|Hp]; [left|right; auto].
  by rewrite (df_names _ _ _ _ (sf_disk _ _ _ _ Hf)).
Qed.

(** *** Writing *)
Definition below (n : nat) (i : nat) : Prop := (i < n)%nat.

(** Whatever fails leaves the pending name to the guard. *)
Lemma guarded_runs {A} (m : onStore A) p I b (P : A → BodyStore → Prop) :
  (∀ i, ¬ I i) → Runs m b P (λ _ b', StoreFrame (eq p) I b b') →
  Runs (on_error (dropGuard p) m) b P (λ _ b', StoreFrame (eq p) I b b' ∧ Gone b' p).
Proof.
  intros HI Hm. apply on_error_runs. eapply runs_mono, Hm; [done|]. cbn. intros e b1 Hb1.
  eapply runs_mono, dropGuard_runs; [|done]. intros _ b' [Hf Hg]. split; [|done].
  eapply store_frame_trans; [done|]. by eapply store_frame_mono, Hf.
Qed.

Lemma rename_frame T I from to inode d d' :
  dk_names d !! from = Some inode → dk_directory d' = dk_directory d →
  dk_names d' = <[to := inode]> (delete from (dk_names d)) → dk_inodes d' = dk_inodes d →
  T from → T to → DiskFrame T I d d'.
Proof.
  intros Hfrom Hd Hn Hi HTf HTt. split; intros; rewrite ?Hi; try done.
  - rewrite Hn, lookup_insert_ne, lookup_delete_ne; [done|congruence..].
  - intros Hdir. rewrite Hd in Hdir. rewrite H0 in Hfrom by done. done.
Qed.

(** A renamed file keeps what it holds. *)
Lemma rename_spec from to b :
  from ≠ to →
  Runs (on_disk Io (rename from to)) b
    (λ _ b', StoreFrame (λ p, p = from ∨ p = to) Nowhere b b' ∧
             (∀ I bytes, Bound I b from bytes → Bound I b' to bytes) ∧ Gone b' from ∧
             bs_orphanedSpills b' = bs_orphanedSpills b)
    (λ _ b', StoreFrame (eq from) Nowhere b b').
Proof.
  intros Hne. apply on_disk_runs. eapply runs_mono, rename_runs; cbn.
  - intros _ d (inode & Hn & Hd & Hnames & Hinodes). split_and!; [| |left|done]; cbn.
    + apply set_disk_frame. eapply rename_frame; [done..|by left|by right].
    + intros I bytes (inode' & Hn' & Hi & HI). rewrite Hn in Hn'. injection Hn' as <-.
      exists inode. cbn. rewrite Hnames, Hinodes. split_and!; [apply lookup_insert_eq|done..].
    + rewrite Hnames, lookup_insert_ne by done. apply lookup_delete_eq.
  - intros _ d Hd. by apply set_disk_frame, frame_same.
Qed.

Lemma bound_mono (I J : nat → Prop) b p bytes : (∀ i, J i → I i) → Bound I b p bytes → Bound J b p bytes.
Proof. intros HI (i & Hn & Hi & HJ). exists i. split_and!; [done..|]. auto. Qed.

(** Creating a file and writing [bytes] to it. *)
Lemma write_new_spec p bytes b :
  Runs (inode ← on_disk Io (create_new p); on_disk Io (write_all inode bytes)) b
    (λ _ b', StoreFrame (eq p) Nowhere b b' ∧
             Bound (below (length (dk_inodes (bs_disk b)))) b' p bytes ∧
             bs_orphanedSpills b' = bs_orphanedSpills b)
    (λ _ b', StoreFrame (eq p) Nowhere b b').
Proof.
  apply runs_bind, on_disk_runs. eapply runs_mono, create_new_runs; cbn.
  2: { intros _ d Hd. by apply set_disk_frame, frame_same. }
  intros inode d (Hinode & Hn & Hi & Hd & Hfree).
  pose proof (insert_frame _ _ _ _ Hn Hi Hd) as Hframe.
  apply on_disk_runs. eapply runs_mono, write_all_runs; cbn.
  - intros _ d' (Hn' & Hd' & Hi').
    assert (Hf : DiskFrame (eq p) Nowhere (bs_disk b) d').
    { split; intros; rewrite ?Hn', ?Hi'.
      - by apply Hframe.
      - rewrite list_lookup_alter_ne by lia. by apply Hframe.
      - rewrite length_alter. apply Hframe.
      - intros Hdir. congruence. }
    split_and!; [by apply set_disk_frame in Hf|exists inode; split_and!|done]; cbn.
    + rewrite Hn', Hn. apply lookup_insert_eq.
    + rewrite Hi', Hi. subst inode. rewrite list_lookup_alter_eq, list_lookup_middle by done. done.
    + unfold below. lia.
  - intros _ d' Hf. change (StoreFrame (eq p) Nowhere b (set_disk d' b)).
    apply set_disk_frame. cbn in *. split.
    + intros q Hq. rewrite (df_names _ _ _ _ Hf) by by intros []. by apply Hframe.
    + intros i Hlt Hno. rewrite (df_inodes _ _ _ _ Hf); [by apply Hframe| |lia].
      rewrite Hi, length_app. lia.
    + pose proof (df_length _ _ _ _ Hf). pose proof (df_length _ _ _ _ Hframe). lia.
    + intros Hb. by apply (df_directory _ _ _ _ Hf), Hframe.
Qed.

Lemma same_bound I b d p bytes : Same (bs_disk b) d → Bound I b p bytes → Bound I (set_disk d b) p bytes.
Proof. intros Hs. eapply bound_frame; [by apply set_disk_same|by intros []|by intros i []]. Qed.

Lemma bind_assoc_runs {S E A B C} (m : stateful S E A) (k : A → stateful S E B) (h : B → stateful S E C) s P Q :
  Runs ((m ≫= k) ≫= h) s P Q → Runs (m ≫= λ a, k a ≫= h) s P Q.
Proof. unfold Runs, mbind, stateful_bind. by destruct (m s) as [? []]. Qed.

Lemma writeSpill_runs pending path bytes b :
  pending ≠ path →
  Runs (writeSpillAtomically pending path bytes) b
    (λ _ b', StoreFrame (λ p, p = pending ∨ p = path) Nowhere b b' ∧
             Bound (below (length (dk_inodes (bs_disk b)))) b' path bytes ∧ Gone b' pending ∧
             bs_orphanedSpills b' = bs_orphanedSpills b)
    (λ _ b', StoreFrame (eq pending) Nowhere b b' ∧ Gone b' pending).
Proof.
  intros Hne. apply guarded_runs; [by intros i []|].
  apply bind_assoc_runs, runs_bind. eapply runs_mono, write_new_spec; [|done]. cbn.
  intros _ b1 (Hf1 & Hb1 & Ho1). apply runs_bind, on_disk_runs.
  eapply runs_mono, sync_all_runs; cbn.
  2: { intros _ d Hd. eapply store_frame_trans; [done|]. by apply set_disk_frame, frame_same. }
  intros _ d Hd. eapply runs_mono, rename_spec; [| |done]; cbn.
  - intros _ b2 (Hf2 & Hb2 & Hg2 & Ho2). split_and!; [|by apply Hb2, same_bound|done|congruence].
    eapply store_frame_trans; [|done]. eapply store_frame_trans.
    + eapply store_frame_mono, Hf1; [by left|done].
    + by apply set_disk_frame, frame_same.
  - intros _ b2 Hf2. eapply store_frame_trans; [done|].
    eapply store_frame_trans, Hf2. by apply set_disk_frame, frame_same.
Qed.

(** A body whose bytes are there, in a file outside [I] when it is spilled. *)
Definition Holds (I : nat → Prop) (b : BodyStore) (body : BodyRef) (bytes : list Z) : Prop :=
  match bf_storage body with
  | Memory bytes' => bytes' = bytes
  | Spill path => Bound I b (text path) bytes
  end.

Lemma holds_content I b body bytes : Holds I b body bytes → contentOf b body = Some bytes.
Proof.
  unfold Holds, contentOf. destruct (bf_storage body) as [bytes'|path]; [by intros ->|].
  intros (inode & -> & Hi & _). done.
Qed.

Lemma holds_frame T I J b b' body bytes :
  StoreFrame T I b b' → (∀ p, spillPath body = Some p → ¬ T p) → (∀ i, I i → J i) →
  Holds J b body bytes → Holds J b' body bytes.
Proof.
  unfold Holds, spillPath. intros Hf HT HI. destruct (bf_storage body); [done|].
  eapply bound_frame; eauto.
Qed.

Definition guardOf (body : BodyRef) : option chars := spillPath body.

(** The names [store] and [createSpool] make are those of the next UUID. *)
Lemma store_runs transactionId side bytes meta b :
  Runs (store transactionId side bytes meta) b
    (λ staged b', ∃ T, StoreFrame T Nowhere b b' ∧ (∀ p, T p → tagged (bs_uuids b) p) ∧
       bf_meta (sb_bodyReference staged) = meta ∧
       sb_spillGuard staged = spillPath (sb_bodyReference staged) ∧
       Holds (below (length (dk_inodes (bs_disk b)))) b' (sb_bodyReference staged) bytes ∧
       (∀ p, T p → spillPath (sb_bodyReference staged) = Some p ∨ Gone b' p) ∧
       (∀ p, spillPath (sb_bodyReference staged) = Some p →
          tagged (bs_uuids b) p ∧ (bs_uuids b < bs_uuids b')%nat) ∧
       bs_orphanedSpills b' = bs_orphanedSpills b)
    (λ _ b', ∃ T, StoreFrame T Nowhere b b' ∧
       (∀ p, T p → tagged (bs_uuids b) p ∧ (bs_uuids b < bs_uuids b')%nat ∧ Gone b' p)).
Proof.
  unfold store. apply runs_bind, runs_gets. unfold id. cbv beta. case_if Hsmall.
  { apply runs_ret. exists Nowhere. split_and!; try done. by apply store_frame_refl. }
  apply runs_bind. eapply runs_mono, v4_runs; [|done].
  intros suffix b1 (-> & Hf1 & Hu1 & Hd1 & Ho1). cbv zeta.
  set (filePath := join _ (bodyFileName _ _ _)). set (pendingPath := join _ (lit ".pending-" ++ _)).
  assert (Hpt : tagged (bs_uuids b) (text pendingPath)).
  { apply tagged_join. by exists (lit ".pending-"). }
  assert (Hft : tagged (bs_uuids b) (text filePath)) by apply tagged_body.
  assert (Hne : text pendingPath ≠ text filePath).
  { apply not_eq_sym, body_not_dotted. }
  apply runs_bind. eapply runs_mono, writeSpill_runs; [| |done]; cbv beta.
  - intros _ b2 (Hf2 & Hb2 & Hg2 & Ho2). apply runs_ret.
    exists (λ p, p = text pendingPath ∨ p = text filePath). split_and!; try done.
    + eapply store_frame_trans, Hf2. by eapply store_frame_mono, Hf1.
    + intros p [->| ->]; done.
    + cbn. by rewrite <-Hd1.
    + intros p [->| ->]; [by right|by left].
    + cbn. intros p [= <-]. split; [done|]. pose proof (sf_uuids _ _ _ _ Hf2). lia.
    + congruence.
  - intros e b2 (Hf2 & Hg2). exists (eq (text pendingPath)). split.
    + eapply store_frame_trans, Hf2. by eapply store_frame_mono, Hf1.
    + intros p <-. pose proof (sf_uuids _ _ _ _ Hf2). split_and!; [done|lia|done].
Qed.

Lemma createSpool_runs transactionId side b :
  Runs (createSpool transactionId side) b
    (λ spool b', StoreFrame (eq (text (bo_pendingPath spool))) Nowhere b b' ∧
       tagged (bs_uuids b) (text (bo_pendingPath spool)) ∧
       tagged (bs_uuids b) (text (bo_committedPath spool)) ∧
       text (bo_pendingPath spool) ≠ text (bo_committedPath spool) ∧
       bo_file spool = length (dk_inodes (bs_disk b)) ∧ bo_writtenBytes spool = 0 ∧
       dk_names (bs_disk b') !! text (bo_pendingPath spool) = Some (bo_file spool) ∧
       dk_inodes (bs_disk b') !! bo_file spool = Some [] ∧
       (bs_uuids b < bs_uuids b')%nat ∧ bs_orphanedSpills b' = bs_orphanedSpills b)
    (λ _ b', ∃ T, StoreFrame T Nowhere b b' ∧
       (∀ p, T p → tagged (bs_uuids b) p ∧ (bs_uuids b < bs_uuids b')%nat ∧ Gone b' p)).
Proof.
  unfold createSpool. apply runs_bind, runs_gets. unfold id. cbv beta.
  apply runs_bind. eapply runs_mono, v4_runs; [|done].
  intros suffix b1 (-> & Hf1 & Hu1 & Hd1 & Ho1). cbv zeta.
  set (committedPath := join _ (bodyFileName _ _ _)). set (pendingPath := join _ (lit ".stream-" ++ _)).
  assert (Hpt : tagged (bs_uuids b) (text pendingPath)).
  { apply tagged_join. by exists (lit ".stream-"). }
  assert (Hft : tagged (bs_uuids b) (text committedPath)) by apply tagged_body.
  assert (Hne : text pendingPath ≠ text committedPath).
  { apply not_eq_sym, body_not_dotted. }
  eapply runs_mono, (guarded_runs _ _ Nowhere b1 (λ spool b',
    StoreFrame (eq (text pendingPath)) Nowhere b1 b' ∧
    bo_pendingPath spool = pendingPath ∧ bo_committedPath spool = committedPath ∧
    bo_file spool = length (dk_inodes (bs_disk b)) ∧ bo_writtenBytes spool = 0 ∧
    dk_names (bs_disk b') !! text pendingPath = Some (bo_file spool) ∧
    dk_inodes (bs_disk b') !! bo_file spool = Some [] ∧
    bs_orphanedSpills b' = bs_orphanedSpills b1)); [| |by intros i []|]; cbv beta.
  3: { apply runs_bind, on_disk_runs. rewrite Hd1. eapply runs_mono, create_new_runs; cbn.
       - intros inode d (Hinode & Hn & Hi & Hd & Hfree). subst inode. split_and!; try done.
         + apply set_disk_frame. rewrite Hd1. by eapply insert_frame.
         + rewrite Hn. apply lookup_insert_eq.
         + rewrite Hi. by apply list_lookup_middle.
       - intros _ d Hd. rewrite <-Hd1 in Hd. by apply set_disk_frame, frame_same. }
  - intros spool b2 (Hf2 & -> & -> & Hfile & Hw & Hn & Hi & Ho2).
    pose proof (sf_uuids _ _ _ _ Hf2). split_and!; try done; [|lia|congruence].
    eapply store_frame_trans, Hf2. by eapply store_frame_mono, Hf1.
  - intros e b2 (Hf2 & Hg2). pose proof (sf_uuids _ _ _ _ Hf2). exists (eq (text pendingPath)). split.
    + eapply store_frame_trans, Hf2. by eapply store_frame_mono, Hf1.
    + intros p <-. split_and!; [done|lia|done].
Qed.

Lemma appendSpool_runs spool bytes b :
  Runs (appendSpool spool bytes) b
    (λ spool' b', StoreFrame Nowhere (eq (bo_file spool)) b b' ∧
       bo_file spool' = bo_file spool ∧ bo_pendingPath spool' = bo_pendingPath spool ∧
       bo_committedPath spool' = bo_committedPath spool ∧
       bo_writtenBytes spool' = saturating_add (bo_writtenBytes spool) (len bytes) ∧
       (∀ content, dk_inodes (bs_disk b) !! bo_file spool = Some content →
          dk_inodes (bs_disk b') !! bo_file spool = Some (content ++ bytes)) ∧
       bs_orphanedSpills b' = bs_orphanedSpills b)
    (λ _ b', StoreFrame Nowhere (eq (bo_file spool)) b b').
Proof.
  apply runs_bind, on_disk_runs. eapply runs_mono, write_all_runs; cbn.
  - intros _ d (Hn & Hd & Hi). split_and!; try done.
    + apply set_disk_frame. split; intros; rewrite ?Hn, ?Hi; try done.
      * by apply list_lookup_alter_ne.
      * by rewrite length_alter.
      * intros Hdir. rewrite Hn. apply H0. congruence.
    + intros content Hc. by rewrite Hi, list_lookup_alter_eq, Hc.
  - intros _ d Hf. by apply set_disk_frame.
Qed.

Lemma stageSpool_runs spool meta b :
  text (bo_pendingPath spool) ≠ text (bo_committedPath spool) →
  Runs (stageSpool spool meta) b
    (λ staged b', StoreFrame (λ p, p = text (bo_pendingPath spool) ∨ p = text (bo_committedPath spool))
                    Nowhere b b' ∧
       bf_meta (sb_bodyReference staged) = meta ∧
       sb_spillGuard staged = Some (text (bo_committedPath spool)) ∧
       spillPath (sb_bodyReference staged) = Some (text (bo_committedPath spool)) ∧
       (∀ I bytes, Bound I b (text (bo_pendingPath spool)) bytes →
                   Holds I b' (sb_bodyReference staged) bytes) ∧
       Gone b' (text (bo_pendingPath spool)) ∧ bs_orphanedSpills b' = bs_orphanedSpills b)
    (λ _ b', StoreFrame (eq (text (bo_pendingPath spool))) Nowhere b b' ∧
       Gone b' (text (bo_pendingPath spool))).
Proof.
  intros Hne. apply guarded_runs; [by intros i []|].
  apply runs_bind, on_disk_runs. eapply runs_mono, sync_all_runs; cbn.
  2: { intros _ d Hd. by apply set_disk_frame, frame_same. }
  intros _ d1 Hd1. apply runs_bind, on_disk_runs. eapply runs_mono, sync_all_runs; cbn.
  2: { intros _ d Hd. change (set_disk d (set_disk d1 b)) with (set_disk d b).
       apply set_disk_frame, frame_same. by eapply same_trans. }
  intros _ d2 Hd2. change (set_disk d2 (set_disk d1 b)) with (set_disk d2 b).
  assert (Hsame : Same (bs_disk b) d2) by by eapply same_trans.
  apply runs_bind. eapply runs_mono, rename_spec; [| |done]; cbn.
  - intros _ b' (Hf & Hb & Hg & Ho). split_and!; try done.
    + eapply store_frame_trans, Hf. by apply set_disk_frame, frame_same.
    + intros I bytes Hbound. by apply Hb, same_bound.
  - intros _ b' Hf. eapply store_frame_trans, Hf. by apply set_disk_frame, frame_same.
Qed.

(** *** Reading *)
Lemma set_disk_runs_same b b' : (∃ d, Same (bs_disk b) d ∧ b' = set_disk d b) → StoreFrame Nowhere Nowhere b b'.
Proof. intros (d & Hd & ->). by apply set_disk_same. Qed.

(** A reader changes nothing but the answers it used up. *)
Definition Untouched (b b' : BodyStore) : Prop := ∃ d, Same (bs_disk b) d ∧ b' = set_disk d b.

Lemma bound_content I b p bytes inode :
  Bound I b p bytes → dk_names (bs_disk b) !! p = Some inode →
  content inode (bs_disk b) = bytes ∧ ¬ I inode.
Proof.
  intros (inode' & Hn & Hi & HI) Hn'. rewrite Hn in Hn'. injection Hn' as ->.
  unfold content. by rewrite Hi.
Qed.

Lemma read_runs I body bytes b :
  Holds I b body bytes → len bytes = bm_storedBytes (bf_meta body) →
  Runs (read body) b (λ bytes' b', bytes' = bytes ∧ Untouched b b') (λ _ b', Untouched b b').
Proof.
  unfold Holds, read. intros Hb Hlen. destruct (bf_storage body) as [bytes'|path].
  { apply runs_ret. split; [done|]. exists (bs_disk b). split; [done|]. by destruct b. }
  apply runs_bind, on_disk_runs. eapply runs_mono, read_file_runs; cbn.
  - intros bytes' d (Hd & inode & Hn & ->).
    destruct (bound_content _ _ _ _ _ Hb Hn) as [-> _].
    rewrite Hlen, Z.eqb_refl. apply runs_ret. split; [done|]. by exists d.
  - intros _ d Hd. by exists d.
Qed.

Lemma readRange_runs I body bytes offset maximumBytes b :
  Holds I b body bytes → len bytes = bm_storedBytes (bf_meta body) →
  0 ≤ offset → 0 ≤ maximumBytes →
  Runs (readRange body offset maximumBytes) b
    (λ bytes' b', offset ≤ len bytes ∧
       bytes' = slice bytes offset (offset + Z.min maximumBytes (len bytes - offset)) ∧ Untouched b b')
    (λ _ b', Untouched b b').
Proof.
  unfold Holds, readRange. cbv zeta. intros Hb <- Ho Hm.
  assert (Hself : Untouched b b) by (exists (bs_disk b); split; [done|by destruct b]).
  case_if Hlt; [by apply runs_fail|]. apply Z.ltb_ge in Hlt.
  assert (Hget : get_range bytes offset (offset + Z.min maximumBytes (len bytes - offset)) =
    Some (slice bytes offset (offset + Z.min maximumBytes (len bytes - offset)))).
  { unfold get_range. by rewrite (proj2 (in_range_spec _ _ _)) by lia. }
  destruct (bf_storage body) as [bytes'|path].
  { subst bytes'. apply runs_lift. unfold sub_slice. rewrite Hget. done. }
  apply runs_bind, on_disk_runs. eapply runs_mono, open_file_runs; cbn.
  2: { intros _ d Hd. by exists d. }
  intros inode d [Hd Hn]. destruct (bound_content _ _ _ _ _ Hb Hn) as [Hc _].
  apply runs_bind, on_disk_runs. eapply runs_mono, file_length_runs; cbn.
  2: { intros _ d' Hd'. exists d'. split; [by eapply same_trans|done]. }
  intros n d' [Hd' ->]. rewrite (content_same _ _ _ Hd), Hc, Z.eqb_refl. cbn.
  apply on_disk_runs. eapply runs_mono, read_at_runs; cbn.
  - intros bytes' d'' [Hd'' Hr]. rewrite (content_same _ _ _ Hd'), (content_same _ _ _ Hd), Hc, Hget in Hr.
    injection Hr as <-. split_and!; [done..|]. exists d''. split; [|done].
    by eapply same_trans, same_trans.
  - intros _ d'' Hd''. exists d''. split; [|done]. by eapply same_trans, same_trans.
Qed.

(** A lease reads the bytes it was taken on, whatever became of the name. *)
Definition Leased (I : nat → Prop) (b : BodyStore) (l : BodyReadLease) (bytes : list Z) : Prop :=
  match le_storage l with
  | LeaseMemory bytes' => bytes' = bytes
  | LeaseSpill inode => dk_inodes (bs_disk b) !! inode = Some bytes ∧ ¬ I inode
  end.

Lemma lease_runs I body bytes b :
  Holds I b body bytes → len bytes = bm_storedBytes (bf_meta body) →
  Runs (lease body) b
    (λ l b', Leased I b' l bytes ∧ bm_storedBytes (le_meta l) = len bytes ∧ Untouched b b')
    (λ _ b', Untouched b b').
Proof.
  unfold Holds, lease. intros Hb Hlen. destruct (bf_storage body) as [bytes'|path].
  { apply runs_ret. split_and!; [done..|]. exists (bs_disk b). split; [done|]. by destruct b. }
  apply runs_bind, on_disk_runs. eapply runs_mono, open_file_runs; cbn.
  2: { intros _ d Hd. by exists d. }
  intros inode d [Hd Hn]. destruct (bound_content _ _ _ _ _ Hb Hn) as [Hc _].
  apply runs_bind, on_disk_runs. eapply runs_mono, file_length_runs; cbn.
  2: { intros _ d' Hd'. exists d'. split; [by eapply same_trans|done]. }
  intros n d' [Hd' ->]. rewrite (content_same _ _ _ Hd), Hc, Hlen, Z.eqb_refl. cbn.
  destruct Hb as (inode' & Hn' & Hi & HI). rewrite Hn in Hn'. injection Hn' as <-.
  split_and!; [|done|done|].
  - cbn. by rewrite (sm_inodes _ _ Hd'), (sm_inodes _ _ Hd).
  - exists d'. split; [by eapply same_trans|done].
Qed.

Lemma leaseReadRange_runs I l bytes offset maximumBytes b :
  Leased I b l bytes → bm_storedBytes (le_meta l) = len bytes → 0 ≤ offset → 0 ≤ maximumBytes →
  Runs (leaseReadRange l offset maximumBytes) b
    (λ bytes' b', offset ≤ len bytes ∧
       bytes' = slice bytes offset (offset + Z.min maximumBytes (len bytes - offset)) ∧ Untouched b b')
    (λ _ b', Untouched b b').
Proof.
  unfold Leased, leaseReadRange. cbv zeta. intros Hb -> Ho Hm.
  assert (Hself : Untouched b b) by (exists (bs_disk b); split; [done|by destruct b]).
  case_if Hlt; [by apply runs_fail|]. apply Z.ltb_ge in Hlt.
  assert (Hget : get_range bytes offset (offset + Z.min maximumBytes (len bytes - offset)) =
    Some (slice bytes offset (offset + Z.min maximumBytes (len bytes - offset)))).
  { unfold get_range. by rewrite (proj2 (in_range_spec _ _ _)) by lia. }
  destruct (le_storage l) as [bytes'|inode].
  { subst bytes'. apply runs_lift. unfold sub_slice. rewrite Hget. done. }
  destruct Hb as [Hi _]. apply on_disk_runs. eapply runs_mono, read_at_runs; cbn.
  - intros bytes' d [Hd Hr]. unfold content in Hr. rewrite Hi in Hr. cbn in Hr.
    rewrite Hget in Hr. injection Hr as <-. split_and!; [done..|]. by exists d.
  - intros _ d Hd. by exists d.
Qed.

(** *** Removing *)
Lemma remove_runs body b :
  Runs (remove body) b
    (λ _ b', StoreFrame (λ p, spillPath body = Some p) Nowhere b b' ∧
       (∀ p, spillPath body = Some p → dk_names (bs_disk b') !! p = None) ∧
       bs_orphanedSpills b' = bs_orphanedSpills b)
    (λ _ b', Untouched b b').
Proof.
  unfold remove, spillPath. destruct (bf_storage body) as [bytes|path].
  { apply runs_ret. split_and!; [by apply store_frame_refl|done..]. }
  apply on_disk_runs. eapply runs_mono, tolerant_remove_runs; cbn.
  - intros _ d [Hd Hn]. split_and!; [|by intros p [= <-]|done].
    apply set_disk_frame. by eapply frame_mono, Hd; [intros p ->|].
  - intros _ d Hd. by exists d.
Qed.

Lemma cleanupLoop_runs fuel b :
  (size (bs_orphanedSpills b) < fuel)%nat →
  Runs (cleanupLoop fuel) b
    (λ _ b', StoreFrame (.∈ bs_orphanedSpills b) Nowhere b b' ∧ bs_orphanedSpills b' = ∅ ∧
       ∀ p, p ∈ bs_orphanedSpills b → Gone b' p)
    (λ _ b', StoreFrame (.∈ bs_orphanedSpills b) Nowhere b b' ∧
       ∀ p, p ∈ bs_orphanedSpills b → Gone b' p).
Proof.
  revert b. induction fuel as [|fuel IH]; intros b Hfuel; [lia|].
  cbn [cleanupLoop]. apply runs_bind, runs_gets. unfold id.
  pose proof (first_orphan_elem (bs_orphanedSpills b)) as Hfirst.
  destruct (first_orphan (bs_orphanedSpills b)) as [path|].
  2: { apply runs_ret. split_and!; [by apply store_frame_refl|done|]. rewrite Hfirst. set_solver. }
  apply runs_bind, on_disk_runs. eapply runs_mono, tolerant_remove_runs; cbn.
  - intros _ d [Hd Hn]. apply runs_bind, runs_modify.
    set (b1 := set_orphans _ (set_disk d b)).
    assert (Hf1 : StoreFrame (.∈ bs_orphanedSpills b) Nowhere b b1).
    { split; cbn; try done; [|set_solver|].
      2: { intros p Hp. destruct (decide (p = path)) as [->|]; [right|left]; set_solver. }
      by eapply frame_mono, Hd; [intros p <-|]. }
    assert (Hsize : (size (bs_orphanedSpills b1) < fuel)%nat).
    { cbn. assert (Hsub : {[path]} ⊆ bs_orphanedSpills b) by set_solver.
      pose proof (subseteq_size _ _ Hsub) as Hle. rewrite size_difference by done.
      rewrite size_singleton in *. lia. }
    assert (Hrest : ∀ b', StoreFrame (.∈ bs_orphanedSpills b1) Nowhere b1 b' →
      (∀ p, p ∈ bs_orphanedSpills b1 → Gone b' p) → ∀ p, p ∈ bs_orphanedSpills b → Gone b' p).
    { intros b' Hf2 Hg p Hp. destruct (decide (p = path)) as [->|Hne]; [|apply Hg; set_solver].
      left. rewrite (df_names _ _ _ _ (sf_disk _ _ _ _ Hf2)); [done|]. cbn. set_solver. }
    eapply runs_mono, IH; [| |done]; cbv beta.
    + intros _ b' (Hf2 & Ho2 & Hg2). split_and!; [|done|by apply Hrest].
      eapply store_frame_trans; [done|]. eapply store_frame_mono, Hf2; [set_solver|done].
    + intros _ b' (Hf2 & Hg2). split; [|by apply Hrest].
      eapply store_frame_trans; [done|]. eapply store_frame_mono, Hf2; [set_solver|done].
  - intros _ d Hd. split; [by apply set_disk_frame, frame_same|]. intros p Hp. by right.
Qed.

Lemma cleanup_runs b :
  Runs cleanupOrphanedSpills b
    (λ _ b', StoreFrame (.∈ bs_orphanedSpills b) Nowhere b b' ∧ bs_orphanedSpills b' = ∅ ∧
       ∀ p, p ∈ bs_orphanedSpills b → Gone b' p)
    (λ _ b', StoreFrame (.∈ bs_orphanedSpills b) Nowhere b b' ∧
       ∀ p, p ∈ bs_orphanedSpills b → Gone b' p).
Proof. apply runs_bind, runs_gets, cleanupLoop_runs. lia. Qed.

Definition Everywhere {A} (_ : A) : Prop := True.

(** Emptying the directory touches no file that is open. *)
Lemma emptied_frame (d d' : Disk) :
  dk_inodes d' = dk_inodes d → (DirOk d → DirOk d') → DiskFrame Everywhere Nowhere d d'.
Proof.
  intros Hi Hd. split; [|intros; by rewrite Hi|by rewrite Hi|done].
  intros p Hp. by destruct Hp.
Qed.

Lemma clear_runs b :
  DirOk (bs_disk b) →
  Runs clearStore b
    (λ _ b', StoreFrame Everywhere Nowhere b b' ∧ dk_names (bs_disk b') = ∅ ∧ bs_orphanedSpills b' = ∅)
    (λ _ b', StoreFrame Everywhere Nowhere b b' ∧
       dk_names (bs_disk b') ⊆ dk_names (bs_disk b) ∧ bs_orphanedSpills b' = bs_orphanedSpills b).
Proof.
  intros Hdir. apply runs_bind, on_disk_runs. eapply runs_mono, remove_dir_runs; [| |done]; cbn.
  2: { intros _ d (Hi & Hd & Hn). split_and!; [|done..]. by apply set_disk_frame, emptied_frame. }
  intros _ d [Hi Hn]. apply runs_bind, on_disk_runs. eapply runs_mono, create_dir_runs; cbn.
  - intros _ d' [Hn' Hi' Hd']. rewrite Hn'. split_and!; [|done..].
    split; cbn; auto; [|set_solver|by right]. apply emptied_frame; [congruence|]. intros _ _. congruence.
  - intros _ d' [Hn' Hi' Hd']. rewrite Hn', Hn. split_and!; [|by apply map_empty_subseteq|done].
    apply (set_disk_frame _ _ b), emptied_frame; [congruence|]. intros _ _. congruence.
Qed.

Lemma close_runs b :
  DirOk (bs_disk b) →
  Runs closeStore b
    (λ _ b', StoreFrame Everywhere Nowhere b b' ∧ dk_names (bs_disk b') = ∅ ∧ bs_orphanedSpills b' = ∅)
    (λ _ b', StoreFrame Everywhere Nowhere b b' ∧
       dk_names (bs_disk b') ⊆ dk_names (bs_disk b) ∧ bs_orphanedSpills b' = bs_orphanedSpills b).
Proof.
  intros Hdir. apply runs_bind, on_disk_runs. eapply runs_mono, remove_dir_runs; [| |done]; cbn.
  - intros _ d [Hi Hn]. split_and!; [|done..]. split; cbn; auto; [|set_solver|by right].
    apply emptied_frame; [done|]. intros _ _. done.
  - intros _ d (Hi & Hd & Hn). split_and!; [|done..]. by apply set_disk_frame, emptied_frame.
Qed.
End store.
