(* ===== verification/BodyOwnership.v ===== *)
(** * Who owns which spill file

    Every file of the session directory belongs to exactly one owner: a body of a
    transaction, a body waiting in the cleanup queue, a spool or staged body held by a
    running capture, or the set of orphans.  The bodies of transactions are all there,
    with the length they were recorded with.  Each operation of the store keeps this. *)

From S2P Require Import Prelude Stateful Text Location CaptureModel BodyStore BodyStoreSpec.

(** What a running capture holds outside the session: a spool ([intact] until a write
    fails), or a body that is staged but not yet registered. *)
Inductive Held :=
| HeldSpool (owner : chars) (spool : BodySpool) (intact : bool)
| HeldBody (owner : chars) (body : BodyRef).

Definition heldPaths (h : Held) : list chars :=
  match h with
  | HeldSpool _ spool _ => [text (bo_pendingPath spool); text (bo_committedPath spool)]
  | HeldBody _ body => option_list (spillPath body)
  end.
Definition heldOwner (h : Held) : chars :=
  match h with HeldSpool owner _ _ => owner | HeldBody owner _ => owner end.
Definition heldInodes (h : Held) : list nat :=
  match h with HeldSpool _ spool _ => [bo_file spool] | HeldBody _ _ => [] end.

(** The files that may still grow. *)
Definition opens (hs : list Held) (i : nat) : Prop := i ∈ (hs ≫= heldInodes).

Lemma elem_of_option_list {A} (x : A) o : x ∈ option_list o ↔ o = Some x.
Proof. destruct o; cbn; set_solver. Qed.

Definition spills (bodies : list BodyRef) : list chars := omap spillPath bodies.

Definition owned (live queue : list BodyRef) (hs : list Held) : list chars :=
  spills live ++ spills queue ++ (hs ≫= heldPaths).

(** All the recorded bytes are there. *)
Definition Stored (I : nat → Prop) (b : BodyStore) (body : BodyRef) : Prop :=
  ∃ bytes, Holds I b body bytes ∧ len bytes = bm_storedBytes (bf_meta body).

Section ownership.
Context `{Environment} {Hok : EnvironmentOk}.

Definition HeldOk (alive : chars → Prop) (hs : list Held) (b : BodyStore) (h : Held) : Prop :=
  match h with
  | HeldSpool owner spool intact =>
      dk_names (bs_disk b) !! text (bo_committedPath spool) = None ∧
      (alive owner → dk_names (bs_disk b) !! text (bo_pendingPath spool) = Some (bo_file spool)) ∧
      ∃ content, dk_inodes (bs_disk b) !! bo_file spool = Some content ∧
        (intact = true → bo_writtenBytes spool = len content ∧ len content ≤ i64_max)
  | HeldBody owner body =>
      0 ≤ bm_storedBytes (bf_meta body) ≤ i64_max ∧ (alive owner → Stored (opens hs) b body)
  end.

Record DiskInv (live queue : list BodyRef) (alive : chars → Prop) (hs : list Held) (b : BodyStore) : Prop := {
  di_directory : DirOk (bs_disk b);
  di_nodup : NoDup (owned live queue hs);
  di_issued : ∀ p, p ∈ owned live queue hs → Issued b p;
  di_orphans : ∀ p, p ∈ bs_orphanedSpills b → (p ∉ owned live queue hs) ∧ Issued b p;
  di_no_leak : ∀ p, is_Some (dk_names (bs_disk b) !! p) →
    p ∈ owned live queue hs ∨ p ∈ bs_orphanedSpills b;
  di_live : ∀ body, body ∈ live → Stored (opens hs) b body;
  di_held : ∀ h, h ∈ hs → HeldOk alive hs b h;
  di_inodes : NoDup (hs ≫= heldInodes);
}.

(** ** Frames *)
Lemma stored_frame T I J b b' body :
  StoreFrame T I b b' → (∀ p, spillPath body = Some p → ¬ T p) → (∀ i, I i → J i) →
  Stored J b body → Stored J b' body.
Proof. intros Hf HT HI (bytes & Hb & Hl). exists bytes. split; [by eapply holds_frame|done]. Qed.

Lemma holds_mono (I J : nat → Prop) b body bytes :
  (∀ i, J i → I i) → Holds I b body bytes → Holds J b body bytes.
Proof. unfold Holds. intros HI. destruct (bf_storage body); [done|by apply bound_mono]. Qed.

Lemma stored_mono (I J : nat → Prop) b body : (∀ i, J i → I i) → Stored I b body → Stored J b body.
Proof. intros HI (bytes & Hb & Hl). exists bytes. split; [by eapply holds_mono|done]. Qed.

Lemma inode_frame T b b' i content :
  StoreFrame T Nowhere b b' → dk_inodes (bs_disk b) !! i = Some content →
  dk_inodes (bs_disk b') !! i = Some content.
Proof.
  intros Hf Hi. rewrite (df_inodes _ _ _ _ (sf_disk _ _ _ _ Hf)); [done| |by intros []].
  by eapply lookup_lt_Some.
Qed.

Lemma name_frame T I b b' p :
  StoreFrame T I b b' → ¬ T p → dk_names (bs_disk b') !! p = dk_names (bs_disk b) !! p.
Proof. intros Hf Hp. by apply (df_names _ _ _ _ (sf_disk _ _ _ _ Hf)). Qed.

(** Files that were opened meanwhile are new ones. *)
Lemma stored_opened T (I J : nat → Prop) b b' body :
  StoreFrame T Nowhere b b' → (∀ p, spillPath body = Some p → ¬ T p) →
  (∀ i, J i → (i < length (dk_inodes (bs_disk b)))%nat → I i) →
  Stored I b body → Stored J b' body.
Proof.
  intros Hf HT HJ (bytes & Hholds & Hlen). exists bytes. split; [|done].
  unfold Holds, spillPath in *. destruct (bf_storage body) as [|path]; [done|].
  destruct Hholds as (i & Hn & Hi & HI). exists i. split_and!.
  - erewrite name_frame; [done..|]. by apply HT.
  - by eapply inode_frame.
  - intros Hj. apply HI, HJ; [done|]. by eapply lookup_lt_Some.
Qed.

Lemma held_frame T alive alive' hs hs' b b' h :
  StoreFrame T Nowhere b b' → (∀ p, p ∈ heldPaths h → ¬ T p) → (∀ o, alive' o → alive o) →
  (∀ i, opens hs' i → (i < length (dk_inodes (bs_disk b)))%nat → opens hs i) →
  HeldOk alive hs b h → HeldOk alive' hs' b' h.
Proof.
  intros Hf HT Halive Hop. destruct h as [owner spool intact|owner body]; cbn.
  - intros (Hc & Hp & content & Hi & Hw). split_and!.
    + erewrite name_frame; [done..|]. apply HT. set_solver.
    + intros Ho%Halive. erewrite name_frame; [by apply Hp|done|]. apply HT. set_solver.
    + exists content. split; [by eapply inode_frame|done].
  - intros [Hsize Hb]. split; [done|]. intros Ho%Halive. eapply stored_opened; [done| |done|by apply Hb].
    intros p Hp. apply HT. cbn. rewrite Hp. set_solver.
Qed.

Lemma spills_elem bodies p : p ∈ spills bodies ↔ ∃ body, body ∈ bodies ∧ spillPath body = Some p.
Proof. apply list_elem_of_omap. Qed.

Lemma owned_elem live queue hs p :
  p ∈ owned live queue hs ↔ p ∈ spills live ∨ p ∈ spills queue ∨ (∃ h, h ∈ hs ∧ p ∈ heldPaths h).
Proof.
  unfold owned. rewrite !elem_of_app, list_elem_of_bind. naive_solver.
Qed.

(** Touching names that nobody owns, and that are gone or orphans afterwards. *)
Lemma disk_touch T live queue alive alive' hs b b' :
  DiskInv live queue alive hs b → StoreFrame T Nowhere b b' → (∀ o, alive' o → alive o) →
  (∀ p, T p → (p ∉ owned live queue hs) ∧ Issued b' p ∧ Gone b' p) →
  DiskInv live queue alive' hs b'.
Proof.
  intros [Hd Hnd His Hor Hnl Hli Hhe Hin] Hf Halive HT.
  assert (Hissued : ∀ p, Issued b p → Issued b' p).
  { intros p. apply issued_mono. by eapply sf_uuids. }
  assert (Hout : ∀ p, p ∈ owned live queue hs → ¬ T p) by (intros p Hp Htp; by apply HT in Htp as [? _]).
  split; auto.
  - by eapply df_directory, Hd; eapply sf_disk.
  - intros p [Hp|Hp]%(sf_orphans _ _ _ _ Hf); [|by apply HT in Hp as (? & ? & _)].
    apply Hor in Hp as [? ?]. auto.
  - intros p Hp. destruct (decide (p ∈ bs_orphanedSpills b')) as [|Hno]; [by right|left].
    destruct (decide (dk_names (bs_disk b') !! p = dk_names (bs_disk b) !! p)) as [Heq|Hne].
    + destruct (Hnl p) as [?|Ho]; [by rewrite <-Heq|done|].
      apply (sf_kept _ _ _ _ Hf) in Ho as [Ho|Htp]; [done|].
      apply HT in Htp as (_ & _ & [Hn|]); [|done]. rewrite Hn in Hp. by destruct Hp.
    + exfalso. apply Hne. eapply name_frame; [done|]. intros Htp.
      apply HT in Htp as (_ & _ & [Hn|]); [|done]. rewrite Hn in Hp. by destruct Hp.
  - intros body Hb. eapply stored_frame; [done| |by intros i []|by apply Hli].
    intros p Hp. apply Hout, owned_elem. left. apply spills_elem. eauto.
  - intros h Hh. eapply held_frame; [done| |done|done|by apply Hhe].
    intros p Hp. apply Hout, owned_elem. eauto.
Qed.

(** ** Moving bodies between owners *)
Lemma disk_reorder live live' queue queue' alive alive' hs hs' b :
  DiskInv live queue alive hs b → owned live' queue' hs' ≡ₚ owned live queue hs →
  (∀ body, body ∈ live' → Stored (opens hs') b body) →
  (∀ h, h ∈ hs' → HeldOk alive' hs' b h) → NoDup (hs' ≫= heldInodes) →
  DiskInv live' queue' alive' hs' b.
Proof.
  intros [Hd Hnd His Hor Hnl Hli Hhe Hin] Hperm Hli' Hhe' Hin'. split; auto.
  - by rewrite Hperm.
  - intros p. rewrite Hperm. auto.
  - intros p. rewrite Hperm. auto.
  - intros p. rewrite Hperm. auto.
Qed.

Lemma held_alive (alive alive' : chars → Prop) hs b h :
  (alive' (heldOwner h) → alive (heldOwner h)) → HeldOk alive hs b h → HeldOk alive' hs b h.
Proof.
  intros Halive. destruct h; cbn; [|by intros [? ?]; auto]. intros (? & Hp & ?). split_and!; auto.
Qed.

#[export] Instance spills_perm : Proper ((≡ₚ) ==> (≡ₚ)) spills.
Proof. intros l1 l2 Hl. unfold spills. by apply omap_Permutation. Qed.

Lemma spills_app l1 l2 : spills (l1 ++ l2) = spills l1 ++ spills l2.
Proof. apply omap_app. Qed.

(** Bodies leave the transactions for the cleanup queue, copied or as they are. *)
Lemma disk_retire bodies bodies' live live' queue alive alive' hs b :
  DiskInv live queue alive hs b → live ≡ₚ bodies ++ live' → spills bodies' ≡ₚ spills bodies →
  (∀ o, alive' o → alive o) → DiskInv live' (queue ++ bodies') alive' hs b.
Proof.
  intros Hdi Hperm Heq Halive. eapply disk_reorder; [done|..|by eapply di_inodes].
  - unfold owned. rewrite Hperm, !spills_app, Heq. solve_Permutation.
  - intros body Hb. eapply di_live; [done|]. rewrite Hperm. set_solver.
  - intros h Hh. eapply (held_alive alive), di_held; [by auto|done..].
Qed.

Lemma disk_permute live live' queue alive alive' hs b :
  DiskInv live queue alive hs b → live ≡ₚ live' → (∀ o, alive' o → alive o) →
  DiskInv live' queue alive' hs b.
Proof.
  intros Hdi Hperm Halive. rewrite <-(app_nil_r queue). by eapply (disk_retire [] []).
Qed.

(** A transaction that nothing is held for may begin. *)
Lemma disk_alive live live' queue (alive alive' : chars → Prop) hs b :
  DiskInv live queue alive hs b → live ≡ₚ live' →
  (∀ h, h ∈ hs → alive' (heldOwner h) → alive (heldOwner h)) → DiskInv live' queue alive' hs b.
Proof.
  intros Hdi Hperm Halive. eapply disk_reorder; [done|..|by eapply di_inodes].
  - unfold owned. by rewrite Hperm.
  - intros body Hb. eapply di_live; [done|]. by rewrite Hperm.
  - intros h Hh. eapply (held_alive alive), di_held; [by auto|done..].
Qed.

(** A staged body becomes the body of a live transaction. *)
Lemma disk_register owner body live queue alive hs b :
  DiskInv live queue alive (HeldBody owner body :: hs) b → alive owner →
  DiskInv (body :: live) queue alive hs b.
Proof.
  intros Hdi Ho. eapply disk_reorder; [done|..].
  - unfold owned. cbn. unfold spills. cbn. destruct (spillPath body); cbn; [|done].
    solve_Permutation.
  - intros body' [->|Hb]%elem_of_cons; [|by apply (di_live _ _ _ _ _ Hdi)].
    by apply (di_held _ _ _ _ _ Hdi (HeldBody owner body) ltac:(by left)).
  - intros h Hh. apply (di_held _ _ _ _ _ Hdi h). by right.
  - apply (di_inodes _ _ _ _ _ Hdi).
Qed.

(** ** Operations *)
(** A removed body leaves the queue. *)
Lemma disk_remove body live queue alive hs b b' :
  DiskInv live (body :: queue) alive hs b →
  StoreFrame (λ p, spillPath body = Some p) Nowhere b b' →
  (∀ p, spillPath body = Some p → dk_names (bs_disk b') !! p = None) →
  bs_orphanedSpills b' = bs_orphanedSpills b → DiskInv live queue alive hs b'.
Proof.
  intros [Hd Hnd His Hor Hnl Hli Hhe Hin] Hf Hgone Ho.
  assert (Hperm : owned live (body :: queue) hs ≡ₚ option_list (spillPath body) ++ owned live queue hs).
  { unfold owned, spills. cbn. destruct (spillPath body); [|done]. cbn. solve_Permutation. }
  rewrite Hperm in Hnd. apply NoDup_app in Hnd as (_ & Hdisj & Hnd).
  assert (Hout : ∀ p, p ∈ owned live queue hs → spillPath body ≠ Some p).
  { intros p Hp Hbody. apply (Hdisj p); [|done]. rewrite Hbody. set_solver. }
  assert (Hsub : ∀ p, p ∈ owned live queue hs → p ∈ owned live (body :: queue) hs).
  { intros p. rewrite Hperm, elem_of_app. auto. }
  split; auto.
  - by eapply df_directory, Hd; eapply sf_disk.
  - intros p Hp. eapply issued_mono; [by eapply sf_uuids|]. auto.
  - rewrite Ho. intros p [Hp Hi]%Hor. split; [by auto|]. eapply issued_mono, Hi. by eapply sf_uuids.
  - rewrite Ho. intros p Hp. destruct (decide (spillPath body = Some p)) as [Hb|Hb].
    { rewrite (Hgone _ Hb) in Hp. by destruct Hp. }
    erewrite name_frame in Hp by done. apply Hnl in Hp as [Hp|]; [left|by right].
    rewrite Hperm, elem_of_app in Hp. destruct Hp as [Hp|]; [|done].
    apply elem_of_option_list in Hp. done.
  - intros body' Hb. eapply stored_frame; [done| |by intros i []|by apply Hli].
    intros p Hp. apply Hout, owned_elem. left. apply spills_elem. eauto.
  - intros h Hh. eapply held_frame; [done| |done|done|by apply Hhe].
    intros p Hp. apply Hout, owned_elem. eauto.
Qed.

(** What a capture gives up is gone or an orphan. *)
Lemma disk_drop h live queue alive hs b b' T :
  DiskInv live queue alive (h :: hs) b → StoreFrame T Nowhere b b' →
  (∀ p, T p → p ∈ heldPaths h) → (∀ p, p ∈ heldPaths h → Gone b' p) →
  DiskInv live queue alive hs b'.
Proof.
  intros [Hd Hnd His Hor Hnl Hli Hhe Hin] Hf HT Hgone.
  assert (Hperm : owned live queue (h :: hs) ≡ₚ heldPaths h ++ owned live queue hs).
  { unfold owned. cbn. solve_Permutation. }
  rewrite Hperm in Hnd. apply NoDup_app in Hnd as (_ & Hdisj & Hnd).
  assert (Hout : ∀ p, p ∈ owned live queue hs → ¬ T p).
  { intros p Hp Htp. by apply (Hdisj p); [apply HT|]. }
  assert (Hsub : ∀ p, p ∈ owned live queue hs → p ∈ owned live queue (h :: hs)).
  { intros p. rewrite Hperm, elem_of_app. auto. }
  assert (Hissued : ∀ p, Issued b p → Issued b' p).
  { intros p. apply issued_mono. by eapply sf_uuids. }
  assert (Hopens : ∀ i, opens hs i → opens (h :: hs) i).
  { unfold opens. cbn. intros i. rewrite elem_of_app. auto. }
  split; auto.
  - by eapply df_directory, Hd; eapply sf_disk.
  - intros p [Hp|Hp]%(sf_orphans _ _ _ _ Hf).
    + apply Hor in Hp as [? ?]. auto.
    + apply HT in Hp. split; [by apply Hdisj|]. apply Hissued, His. rewrite Hperm. set_solver.
  - intros p Hp. destruct (decide (p ∈ heldPaths h)) as [Hh|Hh].
    { destruct (Hgone _ Hh) as [Hn|]; [|by right]. rewrite Hn in Hp. by destruct Hp. }
    assert (Htp : ¬ T p) by auto. erewrite name_frame in Hp by done.
    apply Hnl in Hp as [Hp|Hp].
    + rewrite Hperm, elem_of_app in Hp. destruct Hp; [done|by left].
    + apply (sf_kept _ _ _ _ Hf) in Hp as [|]; [by right|done].
  - intros body Hb. eapply stored_mono; [done|]. eapply stored_frame; [done| |by intros i []|by apply Hli].
    intros p Hp. apply Hout, owned_elem. left. apply spills_elem. eauto.
  - intros h' Hh. eapply held_frame; [done| |done|by auto|by apply Hhe; right].
    intros p Hp. apply Hout, owned_elem. eauto.
  - cbn in Hin. by apply NoDup_app in Hin as (_ & _ & ?).
Qed.

Lemma fresh_unowned live queue alive hs b p :
  DiskInv live queue alive hs b → tagged (bs_uuids b) p →
  (p ∉ owned live queue hs) ∧ (p ∉ bs_orphanedSpills b) ∧ dk_names (bs_disk b) !! p = None.
Proof.
  intros Hdi Hp.
  assert (Hfresh : ∀ q, Issued b q → q ≠ p).
  { intros q Hq. symmetry. by eapply fresh_issued. }
  assert (Hno : p ∉ owned live queue hs).
  { intros Hin%(di_issued _ _ _ _ _ Hdi). by apply (Hfresh p). }
  assert (Hor : p ∉ bs_orphanedSpills b).
  { intros [_ Hin]%(di_orphans _ _ _ _ _ Hdi). by apply (Hfresh p). }
  split_and!; [done..|]. apply eq_None_not_Some. intros [?|?]%(di_no_leak _ _ _ _ _ Hdi); done.
Qed.

(** New names, none of which stays. *)
Lemma disk_touch_fresh T live queue alive hs b b' :
  DiskInv live queue alive hs b → StoreFrame T Nowhere b b' →
  (∀ p, T p → tagged (bs_uuids b) p ∧ (bs_uuids b < bs_uuids b')%nat ∧ Gone b' p) →
  DiskInv live queue alive hs b'.
Proof.
  intros Hdi Hf HT. eapply disk_touch; [done..|]. intros p (Htag & Hlt & Hg)%HT.
  split_and!; [by eapply fresh_unowned|exists (bs_uuids b); auto|done].
Qed.

(** A new body. *)
Lemma disk_add T body bytes live queue alive hs b b' :
  DiskInv live queue alive hs b → StoreFrame T Nowhere b b' →
  (∀ p, T p → tagged (bs_uuids b) p) →
  Holds (below (length (dk_inodes (bs_disk b)))) b' body bytes →
  len bytes = bm_storedBytes (bf_meta body) →
  (∀ p, T p → spillPath body = Some p ∨ Gone b' p) →
  (∀ p, spillPath body = Some p → tagged (bs_uuids b) p ∧ (bs_uuids b < bs_uuids b')%nat) →
  bs_orphanedSpills b' = bs_orphanedSpills b →
  DiskInv (body :: live) queue alive hs b'.
Proof.
  intros Hdi Hf Htag Hholds Hlen HT Hbody Ho.
  assert (Hfresh : ∀ p, T p ∨ spillPath body = Some p → (p ∉ owned live queue hs) ∧
            (p ∉ bs_orphanedSpills b) ∧ dk_names (bs_disk b) !! p = None).
  { intros p Hp. eapply fresh_unowned; [done|]. destruct Hp; [by apply Htag|by apply Hbody]. }
  pose proof Hdi as [Hd Hnd His Hor Hnl Hli Hhe Hin].
  assert (Hperm : owned (body :: live) queue hs ≡ₚ option_list (spillPath body) ++ owned live queue hs).
  { unfold owned, spills. cbn. by destruct (spillPath body). }
  assert (Hissued : ∀ p, Issued b p → Issued b' p).
  { intros p. apply issued_mono. by eapply sf_uuids. }
  assert (Hopen : ∀ i, opens hs i → (i < length (dk_inodes (bs_disk b)))%nat).
  { intros i Hi. apply list_elem_of_bind in Hi as (h & Hi & Hh).
    destruct h as [owner spool intact|]; cbn in Hi; [|by apply elem_of_nil in Hi].
    apply list_elem_of_singleton in Hi as ->. apply Hhe in Hh as (_ & _ & content & Hi & _).
    by eapply lookup_lt_Some. }
  split; auto.
  - by eapply df_directory, Hd; eapply sf_disk.
  - rewrite Hperm. apply NoDup_app. split_and!; [destruct (spillPath body); cbn; repeat constructor; set_solver| |done].
    intros p Hp%elem_of_option_list. by apply Hfresh; right.
  - intros p. rewrite Hperm, elem_of_app. intros [Hp%elem_of_option_list|Hp]; [|by auto].
    exists (bs_uuids b). by apply and_comm, Hbody.
  - rewrite Ho. intros p Hp. rewrite Hperm, elem_of_app, elem_of_option_list.
    split; [|by apply Hissued, Hor]. intros [Hb|Hb]; [|by apply Hor in Hp as [? _]].
    destruct (Hfresh p) as (_ & Hno & _); [by right|done].
  - rewrite Ho. intros p Hp. rewrite Hperm, elem_of_app, elem_of_option_list.
    destruct (decide (spillPath body = Some p)) as [|Hb]; [by left; left|].
    destruct (decide (dk_names (bs_disk b) !! p = None)) as [Hn|Hn].
    + (* a name that appeared is a touched one *)
      exfalso. assert (Htp : ¬ T p).
      { intros Htp. destruct (HT _ Htp) as [|[Hg|Hg]]; [done| |].
        - rewrite Hg in Hp. by destruct Hp.
        - rewrite Ho in Hg. destruct (Hfresh p) as (_ & Hno & _); [by left|done]. }
      erewrite name_frame in Hp by done. rewrite Hn in Hp. by destruct Hp.
    + apply not_eq_None_Some in Hn. apply Hnl in Hn as [|]; auto.
  - intros body' [->|Hb]%elem_of_cons.
    + exists bytes. split; [|done]. by eapply holds_mono, Hholds.
    + eapply stored_frame; [done| |by intros i []|by apply Hli].
      intros p Hp Htp. destruct (Hfresh p) as [Hno _]; [by left|]. apply Hno, owned_elem. left. apply spills_elem. eauto.
  - intros h Hh. eapply held_frame; [done| |done|done|by apply Hhe].
    intros p Hp Htp. destruct (Hfresh p) as [Hno _]; [by left|]. apply Hno, owned_elem. eauto.
Qed.

(** Without transactions the directory can be emptied. *)
Lemma disk_clear queue alive alive' hs b b' :
  DiskInv [] queue alive hs b → StoreFrame Everywhere Nowhere b b' → (∀ o, ¬ alive' o) →
  dk_names (bs_disk b') ⊆ dk_names (bs_disk b) →
  bs_orphanedSpills b' = bs_orphanedSpills b ∨
    dk_names (bs_disk b') = ∅ ∧ bs_orphanedSpills b' = ∅ →
  DiskInv [] queue alive' hs b'.
Proof.
  intros [Hd Hnd His Hor Hnl Hli Hhe Hin] Hf Halive Hsub Ho.
  assert (Hissued : ∀ p, Issued b p → Issued b' p).
  { intros p. apply issued_mono. by eapply sf_uuids. }
  split; auto.
  - by eapply df_directory, Hd; eapply sf_disk.
  - intros p Hp. assert (Hp' : p ∈ bs_orphanedSpills b) by (destruct Ho as [<-|[_ Ho]]; set_solver).
    apply Hor in Hp' as [? ?]. auto.
  - intros p Hp. destruct Ho as [->|[Hn _]]; [|rewrite Hn in Hp; by destruct Hp].
    apply Hnl. destruct Hp as [i Hi]. exists i. by eapply lookup_weaken.
  - intros body Hb. by apply elem_of_nil in Hb.
  - intros h Hh. apply Hhe in Hh. destruct h as [owner spool intact|owner body]; cbn in *.
    + destruct Hh as (Hc & _ & content & Hi & Hw). split_and!.
      * apply eq_None_not_Some. intros [i Hs]. eapply lookup_weaken in Hs; [|done]. congruence.
      * intros Hal. by apply Halive in Hal.
      * exists content. split; [by eapply inode_frame|done].
    + destruct Hh as [? _]. split; [done|]. intros Hal. by apply Halive in Hal.
Qed.

(** ** Spools *)
Lemma opens_lt live queue alive hs b i :
  DiskInv live queue alive hs b → opens hs i → (i < length (dk_inodes (bs_disk b)))%nat.
Proof.
  intros Hdi Hi. apply list_elem_of_bind in Hi as (h & Hi & Hh).
  destruct h as [owner spool intact|]; cbn in Hi; [|by apply elem_of_nil in Hi].
  apply list_elem_of_singleton in Hi as ->.
  apply (di_held _ _ _ _ _ Hdi) in Hh as (_ & _ & content & Hi & _). by eapply lookup_lt_Some.
Qed.

Lemma disk_create owner spool live queue alive hs b b' :
  DiskInv live queue alive hs b →
  StoreFrame (eq (text (bo_pendingPath spool))) Nowhere b b' →
  tagged (bs_uuids b) (text (bo_pendingPath spool)) →
  tagged (bs_uuids b) (text (bo_committedPath spool)) →
  text (bo_pendingPath spool) ≠ text (bo_committedPath spool) →
  bo_file spool = length (dk_inodes (bs_disk b)) → bo_writtenBytes spool = 0 →
  dk_names (bs_disk b') !! text (bo_pendingPath spool) = Some (bo_file spool) →
  dk_inodes (bs_disk b') !! bo_file spool = Some [] →
  (bs_uuids b < bs_uuids b')%nat → bs_orphanedSpills b' = bs_orphanedSpills b →
  DiskInv live queue alive (HeldSpool owner spool true :: hs) b'.
Proof.
  intros Hdi Hf Hpt Hct Hne Hfile Hw Hname Hempty Hlt Ho.
  destruct (fresh_unowned _ _ _ _ _ _ Hdi Hpt) as (Hpo & Hpor & Hpn).
  destruct (fresh_unowned _ _ _ _ _ _ Hdi Hct) as (Hco & Hcor & Hcn).
  assert (Hbelow : ∀ i, opens hs i → i ≠ bo_file spool).
  { intros i Hi%(opens_lt _ _ _ _ _ _ Hdi). lia. }
  assert (Hopened : ∀ i, opens (HeldSpool owner spool true :: hs) i →
    (i < length (dk_inodes (bs_disk b)))%nat → opens hs i).
  { unfold opens. cbn. intros i [->|]%elem_of_cons ?; [lia|done]. }
  pose proof Hdi as [Hd Hnd His Hor Hnl Hli Hhe Hin].
  set (P := text (bo_pendingPath spool)) in *. set (C := text (bo_committedPath spool)) in *.
  assert (Hperm : owned live queue (HeldSpool owner spool true :: hs) ≡ₚ P :: C :: owned live queue hs).
  { unfold owned. cbn. fold P C. solve_Permutation. }
  assert (Hissued : ∀ p, Issued b p → Issued b' p).
  { intros p. apply issued_mono. by eapply sf_uuids. }
  assert (Hown : ∀ p, p ∈ owned live queue hs → P ≠ p) by (intros p Hp ->; done).
  split; auto.
  - by eapply df_directory, Hd; eapply sf_disk.
  - rewrite Hperm. repeat constructor; set_solver.
  - intros p. rewrite Hperm, !elem_of_cons. intros [->|[->|Hp]]; [| |by auto]; by exists (bs_uuids b).
  - rewrite Ho. intros p Hp. rewrite Hperm, !elem_of_cons. split; [|by apply Hissued, Hor].
    apply Hor in Hp as Hp'. destruct Hp' as [? _]. naive_solver.
  - rewrite Ho. intros p Hp. rewrite Hperm, !elem_of_cons.
    destruct (decide (P = p)) as [|HP]; [by auto|]. erewrite name_frame in Hp by done.
    apply Hnl in Hp as [|]; auto.
  - intros body Hb. eapply stored_opened; [done| |exact Hopened|by apply Hli].
    intros p Hp. apply Hown, owned_elem. left. apply spills_elem. eauto.
  - intros h [->|Hh]%elem_of_cons.
    + cbn. fold P C. split_and!; [by erewrite name_frame|done|]. exists []. split; [done|].
      intros _. rewrite Hw. by split.
    + eapply held_frame; [done| |done|exact Hopened|by apply Hhe].
      intros p Hp. apply Hown, owned_elem. eauto.
  - cbn. constructor; [|done]. intros Hin'. by apply (Hbelow (bo_file spool)).
Qed.

(** Writing to a spool grows a file that no body is bound to. *)
Lemma disk_write owner spool spool' intact intact' live queue alive hs b b' :
  DiskInv live queue alive (HeldSpool owner spool intact :: hs) b →
  StoreFrame Nowhere (eq (bo_file spool)) b b' →
  bo_file spool' = bo_file spool → bo_pendingPath spool' = bo_pendingPath spool →
  bo_committedPath spool' = bo_committedPath spool →
  (∀ content, dk_inodes (bs_disk b') !! bo_file spool = Some content → intact' = true →
     bo_writtenBytes spool' = len content ∧ len content ≤ i64_max) →
  DiskInv live queue alive (HeldSpool owner spool' intact' :: hs) b'.
Proof.
  intros [Hd Hnd His Hor Hnl Hli Hhe Hin] Hf Hfile Hp Hc Hw.
  assert (Hown : owned live queue (HeldSpool owner spool' intact' :: hs) =
                 owned live queue (HeldSpool owner spool intact :: hs)).
  { unfold owned. cbn. by rewrite Hp, Hc. }
  assert (Hopens : ∀ i, opens (HeldSpool owner spool' intact' :: hs) i ↔
                        opens (HeldSpool owner spool intact :: hs) i).
  { intros i. unfold opens. cbn. by rewrite Hfile. }
  assert (Hnames : ∀ p, dk_names (bs_disk b') !! p = dk_names (bs_disk b) !! p).
  { intros p. eapply name_frame; [done|by intros []]. }
  assert (Horphans : ∀ p, p ∈ bs_orphanedSpills b' ↔ p ∈ bs_orphanedSpills b).
  { intros p. split; [by intros [|[]]%(sf_orphans _ _ _ _ Hf)|by intros [|[]]%(sf_kept _ _ _ _ Hf)]. }
  assert (Hissued : ∀ p, Issued b p → Issued b' p).
  { intros p. apply issued_mono. by eapply sf_uuids. }
  assert (Hstored : ∀ body, Stored (opens (HeldSpool owner spool intact :: hs)) b body →
                            Stored (opens (HeldSpool owner spool' intact' :: hs)) b' body).
  { intros body Hb. eapply stored_mono; [intros i; apply Hopens|].
    eapply stored_frame; [done|by intros p _ []| |done]. intros i <-. unfold opens. cbn. set_solver. }
  assert (Hinode : ∀ i, (i < length (dk_inodes (bs_disk b)))%nat → i ≠ bo_file spool →
                   dk_inodes (bs_disk b') !! i = dk_inodes (bs_disk b) !! i).
  { intros i Hi Hne. apply (df_inodes _ _ _ _ (sf_disk _ _ _ _ Hf)); congruence. }
  cbn in Hin. apply NoDup_cons in Hin as [Hfresh Hin].
  split; rewrite ?Hown; auto.
  - by eapply df_directory, Hd; eapply sf_disk.
  - intros p Hq%Horphans. apply Hor in Hq as [? ?]. auto.
  - intros p. rewrite Hnames, Horphans. auto.
  - intros h [->|Hh]%elem_of_cons.
    + destruct (Hhe (HeldSpool owner spool intact) ltac:(by left)) as (Hcn & Hpn & content & Hi & _).
      cbn. rewrite Hp, Hc, Hfile, !Hnames. split_and!; [done..|].
      apply lookup_lt_Some in Hi. pose proof (df_length _ _ _ _ (sf_disk _ _ _ _ Hf)) as Hlen.
      destruct (lookup_lt_is_Some_2 (dk_inodes (bs_disk b')) (bo_file spool)) as [content' Hi']; [lia|].
      exists content'. auto.
    + pose proof (Hhe h ltac:(by right)) as Hh'. destruct h as [owner2 spool2 intact2|owner2 body]; cbn in *.
      * destruct Hh' as (Hcn & Hpn & content & Hi & Hw2). rewrite !Hnames. split_and!; [done..|].
        exists content. split; [|done]. rewrite Hinode; [done|by eapply lookup_lt_Some|].
        intros Heq. apply Hfresh. rewrite <-Heq. apply list_elem_of_bind.
        exists (HeldSpool owner2 spool2 intact2). split; [by left|done].
      * destruct Hh' as [? ?]. auto.
  - cbn. rewrite Hfile. by constructor.
Qed.

(** Staging a spool turns it into a staged body. *)
Lemma disk_stage owner spool body live queue alive hs b b' :
  DiskInv live queue alive (HeldSpool owner spool true :: hs) b →
  StoreFrame (λ p, p = text (bo_pendingPath spool) ∨ p = text (bo_committedPath spool)) Nowhere b b' →
  spillPath body = Some (text (bo_committedPath spool)) →
  (∀ I bytes, Bound I b (text (bo_pendingPath spool)) bytes → Holds I b' body bytes) →
  Gone b' (text (bo_pendingPath spool)) → bs_orphanedSpills b' = bs_orphanedSpills b →
  bm_storedBytes (bf_meta body) = bo_writtenBytes spool →
  DiskInv live queue alive (HeldBody owner body :: hs) b'.
Proof.
  intros [Hd Hnd His Hor Hnl Hli Hhe Hin] Hf Hbody Hholds Hg Ho Hmeta.
  set (P := text (bo_pendingPath spool)) in *. set (C := text (bo_committedPath spool)) in *.
  assert (Hperm : owned live queue (HeldSpool owner spool true :: hs) ≡ₚ P :: C :: owned live queue hs).
  { unfold owned. cbn. fold P C. solve_Permutation. }
  assert (Hperm' : owned live queue (HeldBody owner body :: hs) ≡ₚ C :: owned live queue hs).
  { unfold owned. cbn. rewrite Hbody. cbn. solve_Permutation. }
  rewrite Hperm in Hnd. apply NoDup_cons in Hnd as [HP Hnd].
  assert (Hissued : ∀ p, Issued b p → Issued b' p).
  { intros p. apply issued_mono. by eapply sf_uuids. }
  assert (Hout : ∀ p, p ∈ owned live queue hs → ¬ (p = P ∨ p = C)).
  { apply NoDup_cons in Hnd as [HC _]. intros p Hp [->| ->]; set_solver. }
  assert (Hopens : ∀ i, opens (HeldBody owner body :: hs) i → opens (HeldSpool owner spool true :: hs) i).
  { unfold opens. cbn. intros i Hi. by right. }
  split; rewrite ?Ho; auto.
  - by eapply df_directory, Hd; eapply sf_disk.
  - by rewrite Hperm'.
  - intros p Hp. apply Hissued, His. rewrite Hperm, elem_of_cons. rewrite Hperm' in Hp. by right.
  - intros p [Hp Hi]%Hor. split; [|by auto]. rewrite Hperm'. rewrite Hperm in Hp. set_solver.
  - intros p Hp. rewrite Hperm'. destruct (decide (p = P)) as [->|HnP].
    { destruct Hg as [Hn|Hg]; [rewrite Hn in Hp; by destruct Hp|right; congruence]. }
    destruct (decide (p = C)) as [->|HnC]; [left; by left|].
    erewrite name_frame in Hp; [|done|naive_solver].
    apply Hnl in Hp as [Hp|]; [left|by right]. rewrite Hperm in Hp. set_solver.
  - intros body' Hb. eapply stored_opened; [done| |by intros i Hi _; apply Hopens|by apply Hli].
    intros p Hp. apply Hout, owned_elem. left. apply spills_elem. eauto.
  - intros h [->|Hh]%elem_of_cons.
    + destruct (Hhe (HeldSpool owner spool true) ltac:(by left)) as (_ & Hpn & content & Hi & Hw).
      destruct (Hw eq_refl) as [Hwritten Hsmall]. pose proof (len_nonneg content).
      cbn. rewrite Hmeta, Hwritten. split; [lia|]. intros Hal. exists content. split.
      * apply Hholds. exists (bo_file spool). split_and!; [by apply Hpn|done|].
        cbn in Hin. by apply NoDup_cons in Hin as [? _].
      * by rewrite Hmeta, Hwritten.
    + eapply held_frame; [done| |done|by intros i Hi _; apply Hopens|by apply Hhe; right].
      intros p Hp. apply Hout, owned_elem. eauto.
  - cbn in *. by apply NoDup_cons in Hin as [_ ?].
Qed.

(** The order in which captures are listed does not matter. *)
Lemma held_perm live queue alive hs hs' b :
  hs ≡ₚ hs' → DiskInv live queue alive hs b → DiskInv live queue alive hs' b.
Proof.
  intros Hperm Hdi.
  assert (Hopens : ∀ i, opens hs' i → opens hs i) by (intros i; unfold opens; by rewrite Hperm).
  eapply disk_reorder; [done|..].
  - unfold owned. by rewrite Hperm.
  - intros body Hb. eapply stored_mono; [done|]. by apply (di_live _ _ _ _ _ Hdi).
  - intros h Hh. rewrite <-Hperm in Hh. apply (di_held _ _ _ _ _ Hdi) in Hh.
    destruct h; cbn in *; [done|]. destruct Hh as [? Hs]. split; [done|].
    intros Ho. eapply stored_mono; [done|]. by apply Hs.
  - rewrite <-Hperm. by eapply di_inodes.
Qed.
End ownership.
