(* ===== verification/RecordingState.v ===== *)
(** * State of the recording session

    Model of the first and last parts of
    [Server/Backend/Capture/src/recordingSession.rs]: the transaction records, the
    state under the session's lock, what each record is billed for, the index of
    partial responses, and the functions that plan evictions and replace summaries
    and packets within the budget. *)

From S2P Require Import Prelude NetAddress Stateful Text Location CaptureModel MetadataBudget BodyStore.

Record TransactionRecord := {
  tr_summary : TransactionSummary;
  tr_summaryStorageBytes : Z;
  tr_requestHeaders : vec HeaderField;
  tr_responseHeaders : vec HeaderField;
  tr_requestBody : option BodyRef;
  tr_responseBody : option BodyRef;
  tr_requestPackets : vec StreamPacket;
  tr_responsePackets : vec StreamPacket;
  tr_requestHeadersTruncated : bool;
  tr_responseHeadersTruncated : bool
}.

Definition set_summary (v : TransactionSummary) (r : TransactionRecord) : TransactionRecord :=
  {| tr_summary := v; tr_summaryStorageBytes := tr_summaryStorageBytes r;
     tr_requestHeaders := tr_requestHeaders r; tr_responseHeaders := tr_responseHeaders r;
     tr_requestBody := tr_requestBody r; tr_responseBody := tr_responseBody r;
     tr_requestPackets := tr_requestPackets r; tr_responsePackets := tr_responsePackets r;
     tr_requestHeadersTruncated := tr_requestHeadersTruncated r;
     tr_responseHeadersTruncated := tr_responseHeadersTruncated r |}.
Definition set_summaryStorageBytes (v : Z) (r : TransactionRecord) : TransactionRecord :=
  {| tr_summary := tr_summary r; tr_summaryStorageBytes := v;
     tr_requestHeaders := tr_requestHeaders r; tr_responseHeaders := tr_responseHeaders r;
     tr_requestBody := tr_requestBody r; tr_responseBody := tr_responseBody r;
     tr_requestPackets := tr_requestPackets r; tr_responsePackets := tr_responsePackets r;
     tr_requestHeadersTruncated := tr_requestHeadersTruncated r;
     tr_responseHeadersTruncated := tr_responseHeadersTruncated r |}.
Definition set_requestHeaders (v : vec HeaderField) (r : TransactionRecord) : TransactionRecord :=
  {| tr_summary := tr_summary r; tr_summaryStorageBytes := tr_summaryStorageBytes r;
     tr_requestHeaders := v; tr_responseHeaders := tr_responseHeaders r;
     tr_requestBody := tr_requestBody r; tr_responseBody := tr_responseBody r;
     tr_requestPackets := tr_requestPackets r; tr_responsePackets := tr_responsePackets r;
     tr_requestHeadersTruncated := tr_requestHeadersTruncated r;
     tr_responseHeadersTruncated := tr_responseHeadersTruncated r |}.
Definition set_responseHeaders (v : vec HeaderField) (r : TransactionRecord) : TransactionRecord :=
  {| tr_summary := tr_summary r; tr_summaryStorageBytes := tr_summaryStorageBytes r;
     tr_requestHeaders := tr_requestHeaders r; tr_responseHeaders := v;
     tr_requestBody := tr_requestBody r; tr_responseBody := tr_responseBody r;
     tr_requestPackets := tr_requestPackets r; tr_responsePackets := tr_responsePackets r;
     tr_requestHeadersTruncated := tr_requestHeadersTruncated r;
     tr_responseHeadersTruncated := tr_responseHeadersTruncated r |}.
Definition set_requestBody (v : option BodyRef) (r : TransactionRecord) : TransactionRecord :=
  {| tr_summary := tr_summary r; tr_summaryStorageBytes := tr_summaryStorageBytes r;
     tr_requestHeaders := tr_requestHeaders r; tr_responseHeaders := tr_responseHeaders r;
     tr_requestBody := v; tr_responseBody := tr_responseBody r;
     tr_requestPackets := tr_requestPackets r; tr_responsePackets := tr_responsePackets r;
     tr_requestHeadersTruncated := tr_requestHeadersTruncated r;
     tr_responseHeadersTruncated := tr_responseHeadersTruncated r |}.
Definition set_responseBody (v : option BodyRef) (r : TransactionRecord) : TransactionRecord :=
  {| tr_summary := tr_summary r; tr_summaryStorageBytes := tr_summaryStorageBytes r;
     tr_requestHeaders := tr_requestHeaders r; tr_responseHeaders := tr_responseHeaders r;
     tr_requestBody := tr_requestBody r; tr_responseBody := v;
     tr_requestPackets := tr_requestPackets r; tr_responsePackets := tr_responsePackets r;
     tr_requestHeadersTruncated := tr_requestHeadersTruncated r;
     tr_responseHeadersTruncated := tr_responseHeadersTruncated r |}.
Definition set_requestPackets (v : vec StreamPacket) (r : TransactionRecord) : TransactionRecord :=
  {| tr_summary := tr_summary r; tr_summaryStorageBytes := tr_summaryStorageBytes r;
     tr_requestHeaders := tr_requestHeaders r; tr_responseHeaders := tr_responseHeaders r;
     tr_requestBody := tr_requestBody r; tr_responseBody := tr_responseBody r;
     tr_requestPackets := v; tr_responsePackets := tr_responsePackets r;
     tr_requestHeadersTruncated := tr_requestHeadersTruncated r;
     tr_responseHeadersTruncated := tr_responseHeadersTruncated r |}.
Definition set_responsePackets (v : vec StreamPacket) (r : TransactionRecord) : TransactionRecord :=
  {| tr_summary := tr_summary r; tr_summaryStorageBytes := tr_summaryStorageBytes r;
     tr_requestHeaders := tr_requestHeaders r; tr_responseHeaders := tr_responseHeaders r;
     tr_requestBody := tr_requestBody r; tr_responseBody := tr_responseBody r;
     tr_requestPackets := tr_requestPackets r; tr_responsePackets := v;
     tr_requestHeadersTruncated := tr_requestHeadersTruncated r;
     tr_responseHeadersTruncated := tr_responseHeadersTruncated r |}.
Definition set_requestHeadersTruncated (v : bool) (r : TransactionRecord) : TransactionRecord :=
  {| tr_summary := tr_summary r; tr_summaryStorageBytes := tr_summaryStorageBytes r;
     tr_requestHeaders := tr_requestHeaders r; tr_responseHeaders := tr_responseHeaders r;
     tr_requestBody := tr_requestBody r; tr_responseBody := tr_responseBody r;
     tr_requestPackets := tr_requestPackets r; tr_responsePackets := tr_responsePackets r;
     tr_requestHeadersTruncated := v;
     tr_responseHeadersTruncated := tr_responseHeadersTruncated r |}.
Definition set_responseHeadersTruncated (v : bool) (r : TransactionRecord) : TransactionRecord :=
  {| tr_summary := tr_summary r; tr_summaryStorageBytes := tr_summaryStorageBytes r;
     tr_requestHeaders := tr_requestHeaders r; tr_responseHeaders := tr_responseHeaders r;
     tr_requestBody := tr_requestBody r; tr_responseBody := tr_responseBody r;
     tr_requestPackets := tr_requestPackets r; tr_responsePackets := tr_responsePackets r;
     tr_requestHeadersTruncated := tr_requestHeadersTruncated r;
     tr_responseHeadersTruncated := v |}.

Record ResponseEntityIndexKey := {
  ek_urlDisplay : chars;
  ek_entityTag : chars;
  ek_totalBytes : Z;
  ek_contentEncoding : chars
}.
#[export] Instance ResponseEntityIndexKey_eq_dec : EqDecision ResponseEntityIndexKey.
Proof. solve_decision. Defined.
#[export] Instance ResponseEntityIndexKey_countable : Countable ResponseEntityIndexKey.
Proof.
  refine (inj_countable'
    (λ k, (ek_urlDisplay k, ek_entityTag k, ek_totalBytes k, ek_contentEncoding k))
    (λ '(u, t, n, e), {| ek_urlDisplay := u; ek_entityTag := t; ek_totalBytes := n;
                         ek_contentEncoding := e |}) _).
  by intros [].
Defined.

Record RecordingStateInner := {
  st_recordingState : RecordingState;
  st_recordingSessionId : string;
  st_startedAtMilliseconds : Z;
  st_nextSequence : Z;
  st_droppedCount : Z;
  st_totalBodyBytes : Z;
  st_totalMetadataBytes : Z;
  st_metadataMemoryBudgetBytes : Z;
  st_collectionVersion : Z;
  st_limits : RecordingLimits;
  st_ignoreLocations : list LocationPattern;
  st_recordTunnelMetadata : bool;
  st_transactions : gmap chars TransactionRecord;
  st_responseEntityIndex : gmap ResponseEntityIndexKey (gset (Z * chars));
  st_order : list chars;
  st_cleanupQueue : list BodyRef;
  st_directoryCleanupPending : bool;
  st_closed : bool
}.

Definition set_recordingState (v : RecordingState) (s : RecordingStateInner) : RecordingStateInner :=
  {| st_recordingState := v; st_recordingSessionId := st_recordingSessionId s;
     st_startedAtMilliseconds := st_startedAtMilliseconds s; st_nextSequence := st_nextSequence s;
     st_droppedCount := st_droppedCount s; st_totalBodyBytes := st_totalBodyBytes s;
     st_totalMetadataBytes := st_totalMetadataBytes s;
     st_metadataMemoryBudgetBytes := st_metadataMemoryBudgetBytes s;
     st_collectionVersion := st_collectionVersion s; st_limits := st_limits s;
     st_ignoreLocations := st_ignoreLocations s;
     st_recordTunnelMetadata := st_recordTunnelMetadata s; st_transactions := st_transactions s;
     st_responseEntityIndex := st_responseEntityIndex s; st_order := st_order s;
     st_cleanupQueue := st_cleanupQueue s;
     st_directoryCleanupPending := st_directoryCleanupPending s; st_closed := st_closed s |}.
Definition set_nextSequence (v : Z) (s : RecordingStateInner) : RecordingStateInner :=
  {| st_recordingState := st_recordingState s; st_recordingSessionId := st_recordingSessionId s;
     st_startedAtMilliseconds := st_startedAtMilliseconds s; st_nextSequence := v;
     st_droppedCount := st_droppedCount s; st_totalBodyBytes := st_totalBodyBytes s;
     st_totalMetadataBytes := st_totalMetadataBytes s;
     st_metadataMemoryBudgetBytes := st_metadataMemoryBudgetBytes s;
     st_collectionVersion := st_collectionVersion s; st_limits := st_limits s;
     st_ignoreLocations := st_ignoreLocations s;
     st_recordTunnelMetadata := st_recordTunnelMetadata s; st_transactions := st_transactions s;
     st_responseEntityIndex := st_responseEntityIndex s; st_order := st_order s;
     st_cleanupQueue := st_cleanupQueue s;
     st_directoryCleanupPending := st_directoryCleanupPending s; st_closed := st_closed s |}.
Definition set_droppedCount (v : Z) (s : RecordingStateInner) : RecordingStateInner :=
  {| st_recordingState := st_recordingState s; st_recordingSessionId := st_recordingSessionId s;
     st_startedAtMilliseconds := st_startedAtMilliseconds s; st_nextSequence := st_nextSequence s;
     st_droppedCount := v; st_totalBodyBytes := st_totalBodyBytes s;
     st_totalMetadataBytes := st_totalMetadataBytes s;
     st_metadataMemoryBudgetBytes := st_metadataMemoryBudgetBytes s;
     st_collectionVersion := st_collectionVersion s; st_limits := st_limits s;
     st_ignoreLocations := st_ignoreLocations s;
     st_recordTunnelMetadata := st_recordTunnelMetadata s; st_transactions := st_transactions s;
     st_responseEntityIndex := st_responseEntityIndex s; st_order := st_order s;
     st_cleanupQueue := st_cleanupQueue s;
     st_directoryCleanupPending := st_directoryCleanupPending s; st_closed := st_closed s |}.
Definition set_totalBodyBytes (v : Z) (s : RecordingStateInner) : RecordingStateInner :=
  {| st_recordingState := st_recordingState s; st_recordingSessionId := st_recordingSessionId s;
     st_startedAtMilliseconds := st_startedAtMilliseconds s; st_nextSequence := st_nextSequence s;
     st_droppedCount := st_droppedCount s; st_totalBodyBytes := v;
     st_totalMetadataBytes := st_totalMetadataBytes s;
     st_metadataMemoryBudgetBytes := st_metadataMemoryBudgetBytes s;
     st_collectionVersion := st_collectionVersion s; st_limits := st_limits s;
     st_ignoreLocations := st_ignoreLocations s;
     st_recordTunnelMetadata := st_recordTunnelMetadata s; st_transactions := st_transactions s;
     st_responseEntityIndex := st_responseEntityIndex s; st_order := st_order s;
     st_cleanupQueue := st_cleanupQueue s;
     st_directoryCleanupPending := st_directoryCleanupPending s; st_closed := st_closed s |}.
Definition set_totalMetadataBytes (v : Z) (s : RecordingStateInner) : RecordingStateInner :=
  {| st_recordingState := st_recordingState s; st_recordingSessionId := st_recordingSessionId s;
     st_startedAtMilliseconds := st_startedAtMilliseconds s; st_nextSequence := st_nextSequence s;
     st_droppedCount := st_droppedCount s; st_totalBodyBytes := st_totalBodyBytes s;
     st_totalMetadataBytes := v; st_metadataMemoryBudgetBytes := st_metadataMemoryBudgetBytes s;
     st_collectionVersion := st_collectionVersion s; st_limits := st_limits s;
     st_ignoreLocations := st_ignoreLocations s;
     st_recordTunnelMetadata := st_recordTunnelMetadata s; st_transactions := st_transactions s;
     st_responseEntityIndex := st_responseEntityIndex s; st_order := st_order s;
     st_cleanupQueue := st_cleanupQueue s;
     st_directoryCleanupPending := st_directoryCleanupPending s; st_closed := st_closed s |}.
Definition set_collectionVersion (v : Z) (s : RecordingStateInner) : RecordingStateInner :=
  {| st_recordingState := st_recordingState s; st_recordingSessionId := st_recordingSessionId s;
     st_startedAtMilliseconds := st_startedAtMilliseconds s; st_nextSequence := st_nextSequence s;
     st_droppedCount := st_droppedCount s; st_totalBodyBytes := st_totalBodyBytes s;
     st_totalMetadataBytes := st_totalMetadataBytes s;
     st_metadataMemoryBudgetBytes := st_metadataMemoryBudgetBytes s; st_collectionVersion := v;
     st_limits := st_limits s; st_ignoreLocations := st_ignoreLocations s;
     st_recordTunnelMetadata := st_recordTunnelMetadata s; st_transactions := st_transactions s;
     st_responseEntityIndex := st_responseEntityIndex s; st_order := st_order s;
     st_cleanupQueue := st_cleanupQueue s;
     st_directoryCleanupPending := st_directoryCleanupPending s; st_closed := st_closed s |}.
Definition set_ignoreLocations (v : list LocationPattern) (s : RecordingStateInner) : RecordingStateInner :=
  {| st_recordingState := st_recordingState s; st_recordingSessionId := st_recordingSessionId s;
     st_startedAtMilliseconds := st_startedAtMilliseconds s; st_nextSequence := st_nextSequence s;
     st_droppedCount := st_droppedCount s; st_totalBodyBytes := st_totalBodyBytes s;
     st_totalMetadataBytes := st_totalMetadataBytes s;
     st_metadataMemoryBudgetBytes := st_metadataMemoryBudgetBytes s;
     st_collectionVersion := st_collectionVersion s; st_limits := st_limits s;
     st_ignoreLocations := v; st_recordTunnelMetadata := st_recordTunnelMetadata s;
     st_transactions := st_transactions s; st_responseEntityIndex := st_responseEntityIndex s;
     st_order := st_order s; st_cleanupQueue := st_cleanupQueue s;
     st_directoryCleanupPending := st_directoryCleanupPending s; st_closed := st_closed s |}.
Definition set_recordTunnelMetadata (v : bool) (s : RecordingStateInner) : RecordingStateInner :=
  {| st_recordingState := st_recordingState s; st_recordingSessionId := st_recordingSessionId s;
     st_startedAtMilliseconds := st_startedAtMilliseconds s; st_nextSequence := st_nextSequence s;
     st_droppedCount := st_droppedCount s; st_totalBodyBytes := st_totalBodyBytes s;
     st_totalMetadataBytes := st_totalMetadataBytes s;
     st_metadataMemoryBudgetBytes := st_metadataMemoryBudgetBytes s;
     st_collectionVersion := st_collectionVersion s; st_limits := st_limits s;
     st_ignoreLocations := st_ignoreLocations s; st_recordTunnelMetadata := v;
     st_transactions := st_transactions s; st_responseEntityIndex := st_responseEntityIndex s;
     st_order := st_order s; st_cleanupQueue := st_cleanupQueue s;
     st_directoryCleanupPending := st_directoryCleanupPending s; st_closed := st_closed s |}.
Definition set_transactions (v : gmap chars TransactionRecord) (s : RecordingStateInner) : RecordingStateInner :=
  {| st_recordingState := st_recordingState s; st_recordingSessionId := st_recordingSessionId s;
     st_startedAtMilliseconds := st_startedAtMilliseconds s; st_nextSequence := st_nextSequence s;
     st_droppedCount := st_droppedCount s; st_totalBodyBytes := st_totalBodyBytes s;
     st_totalMetadataBytes := st_totalMetadataBytes s;
     st_metadataMemoryBudgetBytes := st_metadataMemoryBudgetBytes s;
     st_collectionVersion := st_collectionVersion s; st_limits := st_limits s;
     st_ignoreLocations := st_ignoreLocations s;
     st_recordTunnelMetadata := st_recordTunnelMetadata s; st_transactions := v;
     st_responseEntityIndex := st_responseEntityIndex s; st_order := st_order s;
     st_cleanupQueue := st_cleanupQueue s;
     st_directoryCleanupPending := st_directoryCleanupPending s; st_closed := st_closed s |}.
Definition set_responseEntityIndex (v : gmap ResponseEntityIndexKey (gset (Z * chars))) (s : RecordingStateInner) : RecordingStateInner :=
  {| st_recordingState := st_recordingState s; st_recordingSessionId := st_recordingSessionId s;
     st_startedAtMilliseconds := st_startedAtMilliseconds s; st_nextSequence := st_nextSequence s;
     st_droppedCount := st_droppedCount s; st_totalBodyBytes := st_totalBodyBytes s;
     st_totalMetadataBytes := st_totalMetadataBytes s;
     st_metadataMemoryBudgetBytes := st_metadataMemoryBudgetBytes s;
     st_collectionVersion := st_collectionVersion s; st_limits := st_limits s;
     st_ignoreLocations := st_ignoreLocations s;
     st_recordTunnelMetadata := st_recordTunnelMetadata s; st_transactions := st_transactions s;
     st_responseEntityIndex := v; st_order := st_order s; st_cleanupQueue := st_cleanupQueue s;
     st_directoryCleanupPending := st_directoryCleanupPending s; st_closed := st_closed s |}.
Definition set_order (v : list chars) (s : RecordingStateInner) : RecordingStateInner :=
  {| st_recordingState := st_recordingState s; st_recordingSessionId := st_recordingSessionId s;
     st_startedAtMilliseconds := st_startedAtMilliseconds s; st_nextSequence := st_nextSequence s;
     st_droppedCount := st_droppedCount s; st_totalBodyBytes := st_totalBodyBytes s;
     st_totalMetadataBytes := st_totalMetadataBytes s;
     st_metadataMemoryBudgetBytes := st_metadataMemoryBudgetBytes s;
     st_collectionVersion := st_collectionVersion s; st_limits := st_limits s;
     st_ignoreLocations := st_ignoreLocations s;
     st_recordTunnelMetadata := st_recordTunnelMetadata s; st_transactions := st_transactions s;
     st_responseEntityIndex := st_responseEntityIndex s; st_order := v;
     st_cleanupQueue := st_cleanupQueue s;
     st_directoryCleanupPending := st_directoryCleanupPending s; st_closed := st_closed s |}.
Definition set_cleanupQueue (v : list BodyRef) (s : RecordingStateInner) : RecordingStateInner :=
  {| st_recordingState := st_recordingState s; st_recordingSessionId := st_recordingSessionId s;
     st_startedAtMilliseconds := st_startedAtMilliseconds s; st_nextSequence := st_nextSequence s;
     st_droppedCount := st_droppedCount s; st_totalBodyBytes := st_totalBodyBytes s;
     st_totalMetadataBytes := st_totalMetadataBytes s;
     st_metadataMemoryBudgetBytes := st_metadataMemoryBudgetBytes s;
     st_collectionVersion := st_collectionVersion s; st_limits := st_limits s;
     st_ignoreLocations := st_ignoreLocations s;
     st_recordTunnelMetadata := st_recordTunnelMetadata s; st_transactions := st_transactions s;
     st_responseEntityIndex := st_responseEntityIndex s; st_order := st_order s;
     st_cleanupQueue := v; st_directoryCleanupPending := st_directoryCleanupPending s;
     st_closed := st_closed s |}.
Definition set_directoryCleanupPending (v : bool) (s : RecordingStateInner) : RecordingStateInner :=
  {| st_recordingState := st_recordingState s; st_recordingSessionId := st_recordingSessionId s;
     st_startedAtMilliseconds := st_startedAtMilliseconds s; st_nextSequence := st_nextSequence s;
     st_droppedCount := st_droppedCount s; st_totalBodyBytes := st_totalBodyBytes s;
     st_totalMetadataBytes := st_totalMetadataBytes s;
     st_metadataMemoryBudgetBytes := st_metadataMemoryBudgetBytes s;
     st_collectionVersion := st_collectionVersion s; st_limits := st_limits s;
     st_ignoreLocations := st_ignoreLocations s;
     st_recordTunnelMetadata := st_recordTunnelMetadata s; st_transactions := st_transactions s;
     st_responseEntityIndex := st_responseEntityIndex s; st_order := st_order s;
     st_cleanupQueue := st_cleanupQueue s; st_directoryCleanupPending := v;
     st_closed := st_closed s |}.
Definition set_closed (v : bool) (s : RecordingStateInner) : RecordingStateInner :=
  {| st_recordingState := st_recordingState s; st_recordingSessionId := st_recordingSessionId s;
     st_startedAtMilliseconds := st_startedAtMilliseconds s; st_nextSequence := st_nextSequence s;
     st_droppedCount := st_droppedCount s; st_totalBodyBytes := st_totalBodyBytes s;
     st_totalMetadataBytes := st_totalMetadataBytes s;
     st_metadataMemoryBudgetBytes := st_metadataMemoryBudgetBytes s;
     st_collectionVersion := st_collectionVersion s; st_limits := st_limits s;
     st_ignoreLocations := st_ignoreLocations s;
     st_recordTunnelMetadata := st_recordTunnelMetadata s; st_transactions := st_transactions s;
     st_responseEntityIndex := st_responseEntityIndex s; st_order := st_order s;
     st_cleanupQueue := st_cleanupQueue s;
     st_directoryCleanupPending := st_directoryCleanupPending s; st_closed := v |}.

Definition set_method (v : string) (s : TransactionSummary) : TransactionSummary :=
  {| ts_transactionId := ts_transactionId s; ts_recordingSessionId := ts_recordingSessionId s;
     ts_sequence := ts_sequence s; ts_protocol := ts_protocol s; ts_method := v;
     ts_host := ts_host s; ts_port := ts_port s; ts_path := ts_path s; ts_query := ts_query s;
     ts_urlDisplay := ts_urlDisplay s; ts_status := ts_status s; ts_statusCode := ts_statusCode s;
     ts_clientAddress := ts_clientAddress s; ts_clientProcessName := ts_clientProcessName s;
     ts_clientProcessId := ts_clientProcessId s; ts_contentType := ts_contentType s;
     ts_timings := ts_timings s; ts_sizes := ts_sizes s; ts_flags := ts_flags s;
     ts_error := ts_error s; ts_notes := ts_notes s; ts_tags := ts_tags s;
     ts_appliedTools := ts_appliedTools s |}.
Definition set_host (v : string) (s : TransactionSummary) : TransactionSummary :=
  {| ts_transactionId := ts_transactionId s; ts_recordingSessionId := ts_recordingSessionId s;
     ts_sequence := ts_sequence s; ts_protocol := ts_protocol s; ts_method := ts_method s;
     ts_host := v; ts_port := ts_port s; ts_path := ts_path s; ts_query := ts_query s;
     ts_urlDisplay := ts_urlDisplay s; ts_status := ts_status s; ts_statusCode := ts_statusCode s;
     ts_clientAddress := ts_clientAddress s; ts_clientProcessName := ts_clientProcessName s;
     ts_clientProcessId := ts_clientProcessId s; ts_contentType := ts_contentType s;
     ts_timings := ts_timings s; ts_sizes := ts_sizes s; ts_flags := ts_flags s;
     ts_error := ts_error s; ts_notes := ts_notes s; ts_tags := ts_tags s;
     ts_appliedTools := ts_appliedTools s |}.
Definition set_port (v : Z) (s : TransactionSummary) : TransactionSummary :=
  {| ts_transactionId := ts_transactionId s; ts_recordingSessionId := ts_recordingSessionId s;
     ts_sequence := ts_sequence s; ts_protocol := ts_protocol s; ts_method := ts_method s;
     ts_host := ts_host s; ts_port := v; ts_path := ts_path s; ts_query := ts_query s;
     ts_urlDisplay := ts_urlDisplay s; ts_status := ts_status s; ts_statusCode := ts_statusCode s;
     ts_clientAddress := ts_clientAddress s; ts_clientProcessName := ts_clientProcessName s;
     ts_clientProcessId := ts_clientProcessId s; ts_contentType := ts_contentType s;
     ts_timings := ts_timings s; ts_sizes := ts_sizes s; ts_flags := ts_flags s;
     ts_error := ts_error s; ts_notes := ts_notes s; ts_tags := ts_tags s;
     ts_appliedTools := ts_appliedTools s |}.
Definition set_path (v : string) (s : TransactionSummary) : TransactionSummary :=
  {| ts_transactionId := ts_transactionId s; ts_recordingSessionId := ts_recordingSessionId s;
     ts_sequence := ts_sequence s; ts_protocol := ts_protocol s; ts_method := ts_method s;
     ts_host := ts_host s; ts_port := ts_port s; ts_path := v; ts_query := ts_query s;
     ts_urlDisplay := ts_urlDisplay s; ts_status := ts_status s; ts_statusCode := ts_statusCode s;
     ts_clientAddress := ts_clientAddress s; ts_clientProcessName := ts_clientProcessName s;
     ts_clientProcessId := ts_clientProcessId s; ts_contentType := ts_contentType s;
     ts_timings := ts_timings s; ts_sizes := ts_sizes s; ts_flags := ts_flags s;
     ts_error := ts_error s; ts_notes := ts_notes s; ts_tags := ts_tags s;
     ts_appliedTools := ts_appliedTools s |}.
Definition set_query (v : string) (s : TransactionSummary) : TransactionSummary :=
  {| ts_transactionId := ts_transactionId s; ts_recordingSessionId := ts_recordingSessionId s;
     ts_sequence := ts_sequence s; ts_protocol := ts_protocol s; ts_method := ts_method s;
     ts_host := ts_host s; ts_port := ts_port s; ts_path := ts_path s; ts_query := v;
     ts_urlDisplay := ts_urlDisplay s; ts_status := ts_status s; ts_statusCode := ts_statusCode s;
     ts_clientAddress := ts_clientAddress s; ts_clientProcessName := ts_clientProcessName s;
     ts_clientProcessId := ts_clientProcessId s; ts_contentType := ts_contentType s;
     ts_timings := ts_timings s; ts_sizes := ts_sizes s; ts_flags := ts_flags s;
     ts_error := ts_error s; ts_notes := ts_notes s; ts_tags := ts_tags s;
     ts_appliedTools := ts_appliedTools s |}.
Definition set_urlDisplay (v : string) (s : TransactionSummary) : TransactionSummary :=
  {| ts_transactionId := ts_transactionId s; ts_recordingSessionId := ts_recordingSessionId s;
     ts_sequence := ts_sequence s; ts_protocol := ts_protocol s; ts_method := ts_method s;
     ts_host := ts_host s; ts_port := ts_port s; ts_path := ts_path s; ts_query := ts_query s;
     ts_urlDisplay := v; ts_status := ts_status s; ts_statusCode := ts_statusCode s;
     ts_clientAddress := ts_clientAddress s; ts_clientProcessName := ts_clientProcessName s;
     ts_clientProcessId := ts_clientProcessId s; ts_contentType := ts_contentType s;
     ts_timings := ts_timings s; ts_sizes := ts_sizes s; ts_flags := ts_flags s;
     ts_error := ts_error s; ts_notes := ts_notes s; ts_tags := ts_tags s;
     ts_appliedTools := ts_appliedTools s |}.
Definition set_status (v : TransactionStatus) (s : TransactionSummary) : TransactionSummary :=
  {| ts_transactionId := ts_transactionId s; ts_recordingSessionId := ts_recordingSessionId s;
     ts_sequence := ts_sequence s; ts_protocol := ts_protocol s; ts_method := ts_method s;
     ts_host := ts_host s; ts_port := ts_port s; ts_path := ts_path s; ts_query := ts_query s;
     ts_urlDisplay := ts_urlDisplay s; ts_status := v; ts_statusCode := ts_statusCode s;
     ts_clientAddress := ts_clientAddress s; ts_clientProcessName := ts_clientProcessName s;
     ts_clientProcessId := ts_clientProcessId s; ts_contentType := ts_contentType s;
     ts_timings := ts_timings s; ts_sizes := ts_sizes s; ts_flags := ts_flags s;
     ts_error := ts_error s; ts_notes := ts_notes s; ts_tags := ts_tags s;
     ts_appliedTools := ts_appliedTools s |}.
Definition set_statusCode (v : option Z) (s : TransactionSummary) : TransactionSummary :=
  {| ts_transactionId := ts_transactionId s; ts_recordingSessionId := ts_recordingSessionId s;
     ts_sequence := ts_sequence s; ts_protocol := ts_protocol s; ts_method := ts_method s;
     ts_host := ts_host s; ts_port := ts_port s; ts_path := ts_path s; ts_query := ts_query s;
     ts_urlDisplay := ts_urlDisplay s; ts_status := ts_status s; ts_statusCode := v;
     ts_clientAddress := ts_clientAddress s; ts_clientProcessName := ts_clientProcessName s;
     ts_clientProcessId := ts_clientProcessId s; ts_contentType := ts_contentType s;
     ts_timings := ts_timings s; ts_sizes := ts_sizes s; ts_flags := ts_flags s;
     ts_error := ts_error s; ts_notes := ts_notes s; ts_tags := ts_tags s;
     ts_appliedTools := ts_appliedTools s |}.
Definition set_contentType (v : string) (s : TransactionSummary) : TransactionSummary :=
  {| ts_transactionId := ts_transactionId s; ts_recordingSessionId := ts_recordingSessionId s;
     ts_sequence := ts_sequence s; ts_protocol := ts_protocol s; ts_method := ts_method s;
     ts_host := ts_host s; ts_port := ts_port s; ts_path := ts_path s; ts_query := ts_query s;
     ts_urlDisplay := ts_urlDisplay s; ts_status := ts_status s; ts_statusCode := ts_statusCode s;
     ts_clientAddress := ts_clientAddress s; ts_clientProcessName := ts_clientProcessName s;
     ts_clientProcessId := ts_clientProcessId s; ts_contentType := v; ts_timings := ts_timings s;
     ts_sizes := ts_sizes s; ts_flags := ts_flags s; ts_error := ts_error s;
     ts_notes := ts_notes s; ts_tags := ts_tags s; ts_appliedTools := ts_appliedTools s |}.
Definition set_timings (v : TransactionTimings) (s : TransactionSummary) : TransactionSummary :=
  {| ts_transactionId := ts_transactionId s; ts_recordingSessionId := ts_recordingSessionId s;
     ts_sequence := ts_sequence s; ts_protocol := ts_protocol s; ts_method := ts_method s;
     ts_host := ts_host s; ts_port := ts_port s; ts_path := ts_path s; ts_query := ts_query s;
     ts_urlDisplay := ts_urlDisplay s; ts_status := ts_status s; ts_statusCode := ts_statusCode s;
     ts_clientAddress := ts_clientAddress s; ts_clientProcessName := ts_clientProcessName s;
     ts_clientProcessId := ts_clientProcessId s; ts_contentType := ts_contentType s;
     ts_timings := v; ts_sizes := ts_sizes s; ts_flags := ts_flags s; ts_error := ts_error s;
     ts_notes := ts_notes s; ts_tags := ts_tags s; ts_appliedTools := ts_appliedTools s |}.
Definition set_sizes (v : TransactionSizes) (s : TransactionSummary) : TransactionSummary :=
  {| ts_transactionId := ts_transactionId s; ts_recordingSessionId := ts_recordingSessionId s;
     ts_sequence := ts_sequence s; ts_protocol := ts_protocol s; ts_method := ts_method s;
     ts_host := ts_host s; ts_port := ts_port s; ts_path := ts_path s; ts_query := ts_query s;
     ts_urlDisplay := ts_urlDisplay s; ts_status := ts_status s; ts_statusCode := ts_statusCode s;
     ts_clientAddress := ts_clientAddress s; ts_clientProcessName := ts_clientProcessName s;
     ts_clientProcessId := ts_clientProcessId s; ts_contentType := ts_contentType s;
     ts_timings := ts_timings s; ts_sizes := v; ts_flags := ts_flags s; ts_error := ts_error s;
     ts_notes := ts_notes s; ts_tags := ts_tags s; ts_appliedTools := ts_appliedTools s |}.
Definition set_flags (v : TransactionFlags) (s : TransactionSummary) : TransactionSummary :=
  {| ts_transactionId := ts_transactionId s; ts_recordingSessionId := ts_recordingSessionId s;
     ts_sequence := ts_sequence s; ts_protocol := ts_protocol s; ts_method := ts_method s;
     ts_host := ts_host s; ts_port := ts_port s; ts_path := ts_path s; ts_query := ts_query s;
     ts_urlDisplay := ts_urlDisplay s; ts_status := ts_status s; ts_statusCode := ts_statusCode s;
     ts_clientAddress := ts_clientAddress s; ts_clientProcessName := ts_clientProcessName s;
     ts_clientProcessId := ts_clientProcessId s; ts_contentType := ts_contentType s;
     ts_timings := ts_timings s; ts_sizes := ts_sizes s; ts_flags := v; ts_error := ts_error s;
     ts_notes := ts_notes s; ts_tags := ts_tags s; ts_appliedTools := ts_appliedTools s |}.
Definition set_error (v : option TransactionError) (s : TransactionSummary) : TransactionSummary :=
  {| ts_transactionId := ts_transactionId s; ts_recordingSessionId := ts_recordingSessionId s;
     ts_sequence := ts_sequence s; ts_protocol := ts_protocol s; ts_method := ts_method s;
     ts_host := ts_host s; ts_port := ts_port s; ts_path := ts_path s; ts_query := ts_query s;
     ts_urlDisplay := ts_urlDisplay s; ts_status := ts_status s; ts_statusCode := ts_statusCode s;
     ts_clientAddress := ts_clientAddress s; ts_clientProcessName := ts_clientProcessName s;
     ts_clientProcessId := ts_clientProcessId s; ts_contentType := ts_contentType s;
     ts_timings := ts_timings s; ts_sizes := ts_sizes s; ts_flags := ts_flags s; ts_error := v;
     ts_notes := ts_notes s; ts_tags := ts_tags s; ts_appliedTools := ts_appliedTools s |}.
Definition set_notes (v : string) (s : TransactionSummary) : TransactionSummary :=
  {| ts_transactionId := ts_transactionId s; ts_recordingSessionId := ts_recordingSessionId s;
     ts_sequence := ts_sequence s; ts_protocol := ts_protocol s; ts_method := ts_method s;
     ts_host := ts_host s; ts_port := ts_port s; ts_path := ts_path s; ts_query := ts_query s;
     ts_urlDisplay := ts_urlDisplay s; ts_status := ts_status s; ts_statusCode := ts_statusCode s;
     ts_clientAddress := ts_clientAddress s; ts_clientProcessName := ts_clientProcessName s;
     ts_clientProcessId := ts_clientProcessId s; ts_contentType := ts_contentType s;
     ts_timings := ts_timings s; ts_sizes := ts_sizes s; ts_flags := ts_flags s;
     ts_error := ts_error s; ts_notes := v; ts_tags := ts_tags s;
     ts_appliedTools := ts_appliedTools s |}.
Definition set_tags (v : vec string) (s : TransactionSummary) : TransactionSummary :=
  {| ts_transactionId := ts_transactionId s; ts_recordingSessionId := ts_recordingSessionId s;
     ts_sequence := ts_sequence s; ts_protocol := ts_protocol s; ts_method := ts_method s;
     ts_host := ts_host s; ts_port := ts_port s; ts_path := ts_path s; ts_query := ts_query s;
     ts_urlDisplay := ts_urlDisplay s; ts_status := ts_status s; ts_statusCode := ts_statusCode s;
     ts_clientAddress := ts_clientAddress s; ts_clientProcessName := ts_clientProcessName s;
     ts_clientProcessId := ts_clientProcessId s; ts_contentType := ts_contentType s;
     ts_timings := ts_timings s; ts_sizes := ts_sizes s; ts_flags := ts_flags s;
     ts_error := ts_error s; ts_notes := ts_notes s; ts_tags := v;
     ts_appliedTools := ts_appliedTools s |}.
Definition set_appliedTools (v : vec string) (s : TransactionSummary) : TransactionSummary :=
  {| ts_transactionId := ts_transactionId s; ts_recordingSessionId := ts_recordingSessionId s;
     ts_sequence := ts_sequence s; ts_protocol := ts_protocol s; ts_method := ts_method s;
     ts_host := ts_host s; ts_port := ts_port s; ts_path := ts_path s; ts_query := ts_query s;
     ts_urlDisplay := ts_urlDisplay s; ts_status := ts_status s; ts_statusCode := ts_statusCode s;
     ts_clientAddress := ts_clientAddress s; ts_clientProcessName := ts_clientProcessName s;
     ts_clientProcessId := ts_clientProcessId s; ts_contentType := ts_contentType s;
     ts_timings := ts_timings s; ts_sizes := ts_sizes s; ts_flags := ts_flags s;
     ts_error := ts_error s; ts_notes := ts_notes s; ts_tags := ts_tags s; ts_appliedTools := v |}.

(** ** Copies *)
Definition clone_error (e : TransactionError) : TransactionError :=
  {| te_code := clone_string (te_code e); te_messageKey := clone_string (te_messageKey e);
     te_params := (λ '(name, value), (clone_string name, clone_string value)) <$> te_params e |}.

Definition clone_summary (s : TransactionSummary) : TransactionSummary :=
  {| ts_transactionId := clone_string (ts_transactionId s);
     ts_recordingSessionId := clone_string (ts_recordingSessionId s); ts_sequence := ts_sequence s;
     ts_protocol := ts_protocol s; ts_method := clone_string (ts_method s);
     ts_host := clone_string (ts_host s); ts_port := ts_port s; ts_path := clone_string (ts_path s);
     ts_query := clone_string (ts_query s); ts_urlDisplay := clone_string (ts_urlDisplay s);
     ts_status := ts_status s; ts_statusCode := ts_statusCode s;
     ts_clientAddress := clone_string (ts_clientAddress s);
     ts_clientProcessName := clone_string <$> ts_clientProcessName s;
     ts_clientProcessId := ts_clientProcessId s; ts_contentType := clone_string (ts_contentType s);
     ts_timings := ts_timings s; ts_sizes := ts_sizes s; ts_flags := ts_flags s;
     ts_error := clone_error <$> ts_error s; ts_notes := clone_string (ts_notes s);
     ts_tags := vec_of (clone_string <$> items (ts_tags s));
     ts_appliedTools := vec_of (clone_string <$> items (ts_appliedTools s)) |}.

Definition clone_header (h : HeaderField) : HeaderField :=
  {| hf_name := clone_string (hf_name h); hf_value := clone_string (hf_value h) |}.

Definition clone_record (r : TransactionRecord) : TransactionRecord :=
  {| tr_summary := clone_summary (tr_summary r); tr_summaryStorageBytes := tr_summaryStorageBytes r;
     tr_requestHeaders := vec_of (clone_header <$> items (tr_requestHeaders r));
     tr_responseHeaders := vec_of (clone_header <$> items (tr_responseHeaders r));
     tr_requestBody := clone_body <$> tr_requestBody r;
     tr_responseBody := clone_body <$> tr_responseBody r;
     tr_requestPackets := vec_of (clone_packet <$> items (tr_requestPackets r));
     tr_responsePackets := vec_of (clone_packet <$> items (tr_responsePackets r));
     tr_requestHeadersTruncated := tr_requestHeadersTruncated r;
     tr_responseHeadersTruncated := tr_responseHeadersTruncated r |}.

(** ** Methods of a record *)
Definition record_detail (r : TransactionRecord) : TransactionDetailRecord :=
  {| td_transaction := clone_summary (tr_summary r);
     td_requestHeaders := clone_header <$> items (tr_requestHeaders r);
     td_responseHeaders := clone_header <$> items (tr_responseHeaders r);
     td_requestBody := clone_meta ∘ bf_meta <$> tr_requestBody r;
     td_responseBody := clone_meta ∘ bf_meta <$> tr_responseBody r;
     td_requestPackets := clone_packet <$> items (tr_requestPackets r);
     td_responsePackets := clone_packet <$> items (tr_responsePackets r) |}.

Definition record_body (r : TransactionRecord) (side : MessageSide) : option BodyRef :=
  match side with Request => tr_requestBody r | Response => tr_responseBody r end.

Definition replaceBody (side : MessageSide) (b : BodyRef) (r : TransactionRecord) : TransactionRecord :=
  match side with
  | Request => set_requestBody (Some b) r
  | Response => set_responseBody (Some b) r
  end.

Definition intoBodyReferences (r : TransactionRecord) : list BodyRef :=
  option_list (tr_requestBody r) ++ option_list (tr_responseBody r).

Definition refreshTruncatedFlag (r : TransactionRecord) : TransactionRecord :=
  let f := ts_flags (tr_summary r) in
  set_summary (set_flags
    {| tf_mappedLocal := tf_mappedLocal f; tf_mappedRemote := tf_mappedRemote f;
       tf_rewritten := tf_rewritten f; tf_breakpointHit := tf_breakpointHit f;
       tf_throttled := tf_throttled f; tf_mitmDecrypted := tf_mitmDecrypted f;
       tf_bodyTruncated := existsb (λ b, bm_truncated (bf_meta b)) (intoBodyReferences r);
       tf_headersTruncated := tr_requestHeadersTruncated r || tr_responseHeadersTruncated r;
       tf_fromCache := tf_fromCache f |} (tr_summary r)) r.

Definition isPending (r : TransactionRecord) : bool :=
  bool_decide (ts_status (tr_summary r) = Pending).

(** ** Partial responses *)
Definition rangeOf (start end_ : Z) (b : BodyHandleMeta) : option Z :=
  difference ← (if start <=? end_ then Some (end_ - start) else None);
  rangeBytes ← checked_add difference 1;
  if bm_truncated b || negb (bm_originalBytes b =? rangeBytes) || negb (bm_storedBytes b =? rangeBytes)
  then None else Some rangeBytes.

Definition responseRangeCandidate (r : TransactionRecord) : option ResponseRangeCandidate :=
  let s := tr_summary r in
  if negb (bool_decide (ts_status s = Complete)) || negb (bool_decide (ts_statusCode s = Some 206))
  then None
  else
    '(start, end_, _) ← responseContentRange (items (tr_responseHeaders r));
    body ← bf_meta <$> tr_responseBody r;
    _ ← rangeOf start end_ body;
    Some {| cd_transactionId := clone_string (ts_transactionId s); cd_sequence := ts_sequence s;
            cd_start := start; cd_end := end_; cd_body := clone_meta body |}.

Definition responseEntityEntry (r : TransactionRecord)
    : option (ResponseEntityIndexKey * ResponseRangeCandidate) :=
  candidate ← responseRangeCandidate r;
  entityTag ← strongResponseEntityTag (items (tr_responseHeaders r));
  '(_, _, totalBytes) ← responseContentRange (items (tr_responseHeaders r));
  Some ({| ek_urlDisplay := text (ts_urlDisplay (tr_summary r)); ek_entityTag := entityTag;
           ek_totalBytes := totalBytes;
           ek_contentEncoding := to_ascii_lowercase (text (bm_encoding (cd_body candidate))) |},
        candidate).

Definition memberOf (c : ResponseRangeCandidate) : Z * chars :=
  (cd_sequence c, text (cd_transactionId c)).

Definition insertResponseEntityEntry (transactionId : chars) (s : RecordingStateInner)
    : RecordingStateInner :=
  match st_transactions s !! transactionId ≫= responseEntityEntry with
  | None => s
  | Some (key, candidate) =>
      set_responseEntityIndex
        (<[key := {[memberOf candidate]} ∪ default ∅ (st_responseEntityIndex s !! key)]>
           (st_responseEntityIndex s)) s
  end.

Definition removeResponseEntityEntry (r : TransactionRecord) (s : RecordingStateInner)
    : RecordingStateInner :=
  match responseEntityEntry r with
  | None => s
  | Some (key, candidate) =>
      match st_responseEntityIndex s !! key with
      | None => s
      | Some members =>
          let members := members ∖ {[memberOf candidate]} in
          set_responseEntityIndex
            (if bool_decide (members = ∅) then delete key (st_responseEntityIndex s)
             else <[key := members]> (st_responseEntityIndex s)) s
      end
  end.
