(* ===== verification/RecordingBudget.v ===== *)
(** * Budgets of the recording session

    Model of the functions of [recordingSession.rs] that bill a record, plan which
    finished transactions give way, and replace summaries and packets within the
    budget.  [usize] sums of lengths that are held at once do not overflow and are
    written as plain sums. *)

From S2P Require Import Prelude NetAddress Stateful Text Location CaptureModel MetadataBudget BodyStore RecordingState.

Abbreviation onState := (stateful RecordingStateInner CaptureError) (only parsing).

Section budgets.
Context `{Layout} `{Environment}.

(** ** Billing *)
Definition bodyStoredBytes (b : BodyRef) : Z := bm_storedBytes (bf_meta b).

Definition transactionBodyBytes (r : TransactionRecord) : Z :=
  sum_by bodyStoredBytes (intoBodyReferences r).

Definition responseEntityIndexMetadataBytes (s : TransactionSummary) (responseHeaders : list HeaderField)
    (responseBody : option BodyRef) : Z :=
  if negb (bool_decide (ts_status s = Complete)) || negb (bool_decide (ts_statusCode s = Some 206))
  then 0
  else
    default 0 (
      entityTag ← strongResponseEntityTag responseHeaders;
      '(start, end_, _) ← responseContentRange responseHeaders;
      body ← bf_meta <$> responseBody;
      _ ← rangeOf start end_ body;
      Some (fold_left saturating_add
        [capacity (ts_urlDisplay s); str_len entityTag; capacity (bm_encoding body);
         sizeof_EntityMember; capacity (ts_transactionId s); saturating_mul sizeof_usize 8]
        sizeof_EntityKey)).

Definition packetModificationBytes (total : Z) (p : StreamPacket) : Z :=
  fold_left (λ total change,
      saturating_add (saturating_add total (vec_capacity (pm_originalBytes change)))
        (vec_capacity (pm_modifiedBytes change))) (sp_modifications p) total.

Definition streamPacketStorageBytes (packets : list StreamPacket) (slots : Z) : Z :=
  fold_left packetModificationBytes packets (saturating_mul sizeof_StreamPacket slots).

Definition bodyReferenceMetadataBytes (r : TransactionRecord) : Z :=
  sum_by metadataStorageBytes (intoBodyReferences r).

Definition cleanupBodyReferenceMetadataBytes (b : BodyRef) : Z :=
  saturating_add sizeof_BodyRef (metadataStorageBytes b).

Definition cleanupBodyReferencesMetadataBytes (r : TransactionRecord) : Z :=
  sum_by cleanupBodyReferenceMetadataBytes (intoBodyReferences r).

Definition transactionMetadataBytes (r : TransactionRecord) : Z :=
  let transactionIdBytes :=
    saturating_add sizeof_String (capacity (ts_transactionId (tr_summary r))) in
  let recordFixedBytes := saturating_sub sizeof_TransactionRecord sizeof_TransactionSummary in
  let indexBytes := responseEntityIndexMetadataBytes (tr_summary r) (items (tr_responseHeaders r))
                      (tr_responseBody r) in
  let bodyReferenceBytes : Z := if isPending r then 0 else bodyReferenceMetadataBytes r in
  fold_left saturating_add
    [tr_summaryStorageBytes r; saturating_mul transactionIdBytes 2; saturating_mul sizeof_usize 2;
     indexBytes;
     headerStorageBytes (items (tr_requestHeaders r)) (vec_capacity (tr_requestHeaders r));
     headerStorageBytes (items (tr_responseHeaders r)) (vec_capacity (tr_responseHeaders r));
     streamPacketStorageBytes (items (tr_requestPackets r)) (vec_capacity (tr_requestPackets r));
     streamPacketStorageBytes (items (tr_responsePackets r)) (vec_capacity (tr_responsePackets r));
     bodyReferenceBytes] recordFixedBytes.

(** ** Admission *)
Definition canAdmitTransaction (s : RecordingStateInner) (newTransactionBytes : Z) : bool :=
  (Z.of_nat (size (st_transactions s)) <? rm_maxTransactions (st_limits s)) &&
  (saturating_add (st_totalMetadataBytes s) newTransactionBytes <=? st_metadataMemoryBudgetBytes s).

(** The finished transactions of [order], and what a plan does with each. *)
Definition finishedRecord (s : RecordingStateInner) (transactionId : chars) : option TransactionRecord :=
  r ← st_transactions s !! transactionId;
  if isPending r then None else Some r.

Fixpoint admissionLoop (s : RecordingStateInner) (newTransactionBytes retainedCount retainedMetadataBytes : Z)
    (order : list chars) {struct order} : list chars :=
  match order with
  | [] => []
  | transactionId :: order =>
      if (retainedCount <? rm_maxTransactions (st_limits s)) &&
         (saturating_add retainedMetadataBytes newTransactionBytes <=? st_metadataMemoryBudgetBytes s)
      then []
      else
        match finishedRecord s transactionId with
        | None => admissionLoop s newTransactionBytes retainedCount retainedMetadataBytes order
        | Some r =>
            transactionId ::
              admissionLoop s newTransactionBytes (saturating_sub retainedCount 1)
                (saturating_sub retainedMetadataBytes (transactionMetadataBytes r)) order
        end
  end.
Definition planTransactionAdmissionEvictions (s : RecordingStateInner) (newTransactionBytes : Z)
    : list chars :=
  admissionLoop s newTransactionBytes (Z.of_nat (size (st_transactions s))) (st_totalMetadataBytes s)
    (st_order s).

Fixpoint limitsLoop (s : RecordingStateInner) (retainedCount retainedBodyBytes : Z) (order : list chars)
    {struct order} : list chars :=
  match order with
  | [] => []
  | transactionId :: order =>
      if (retainedCount <=? rm_maxTransactions (st_limits s)) &&
         (retainedBodyBytes <=? rm_maxTotalBodyBytes (st_limits s))
      then []
      else
        match finishedRecord s transactionId with
        | None => limitsLoop s retainedCount retainedBodyBytes order
        | Some r =>
            transactionId ::
              limitsLoop s (saturating_sub retainedCount 1)
                (saturating_sub retainedBodyBytes (transactionBodyBytes r)) order
        end
  end.

Fixpoint bodyBudgetLoop (s : RecordingStateInner) (currentTransactionId : chars) (requiredBytes : Z)
    (order : list chars) {struct order} : list chars :=
  match order with
  | [] => []
  | transactionId :: order =>
      if bool_decide (transactionId = currentTransactionId)
      then bodyBudgetLoop s currentTransactionId requiredBytes order
      else
        match finishedRecord s transactionId with
        | None => bodyBudgetLoop s currentTransactionId requiredBytes order
        | Some r =>
            let requiredBytes := saturating_sub requiredBytes (transactionBodyBytes r) in
            transactionId ::
              (if requiredBytes =? 0 then []
               else bodyBudgetLoop s currentTransactionId requiredBytes order)
        end
  end.
Definition planBodyBudgetEvictions (s : RecordingStateInner) (currentTransactionId : chars)
    (baseTotalBytes desiredBytes : Z) : list chars :=
  let requiredBytes := saturating_sub (saturating_add baseTotalBytes desiredBytes)
                         (rm_maxTotalBodyBytes (st_limits s)) in
  if requiredBytes =? 0 then []
  else bodyBudgetLoop s currentTransactionId requiredBytes (st_order s).

Fixpoint metadataBudgetLoop (s : RecordingStateInner) (currentTransactionId : chars) (requiredBytes : Z)
    (order : list chars) {struct order} : list chars :=
  match order with
  | [] => []
  | transactionId :: order =>
      if requiredBytes =? 0 then []
      else if bool_decide (transactionId = currentTransactionId)
      then metadataBudgetLoop s currentTransactionId requiredBytes order
      else
        match finishedRecord s transactionId with
        | None => metadataBudgetLoop s currentTransactionId requiredBytes order
        | Some r =>
            transactionId ::
              metadataBudgetLoop s currentTransactionId
                (saturating_sub requiredBytes
                   (saturating_sub (transactionMetadataBytes r) (cleanupBodyReferencesMetadataBytes r)))
                order
        end
  end.
Definition planMetadataBudgetEvictions (s : RecordingStateInner) (currentTransactionId : chars)
    (requiredIncrease : Z) : list chars :=
  metadataBudgetLoop s currentTransactionId
    (saturating_sub (saturating_add (st_totalMetadataBytes s) requiredIncrease)
       (st_metadataMemoryBudgetBytes s)) (st_order s).

(** ** Removal *)
Definition markCollectionChanged (s : RecordingStateInner) : RecordingStateInner :=
  set_collectionVersion (saturating_add (st_collectionVersion s) 1) s.

Definition enqueueBodyReferences (bodyReferences : list BodyRef) (s : RecordingStateInner)
    : RecordingStateInner :=
  set_cleanupQueue (st_cleanupQueue s ++ bodyReferences)
    (set_totalMetadataBytes
       (saturating_add (st_totalMetadataBytes s)
          (sum_by cleanupBodyReferenceMetadataBytes bodyReferences)) s).

(** The body of the loop of [removeTransactions]: the state, whether anything was
    removed, and the body references taken over. *)
Definition removeTransaction (acc : RecordingStateInner * bool * list BodyRef) (transactionId : chars)
    : RecordingStateInner * bool * list BodyRef :=
  let '(s, removedAny, removedBodies) := acc in
  match st_transactions s !! transactionId with
  | None => acc
  | Some r =>
      let s := set_transactions (delete transactionId (st_transactions s)) s in
      let s := removeResponseEntityEntry r s in
      let s := set_totalBodyBytes (saturating_sub (st_totalBodyBytes s) (transactionBodyBytes r)) s in
      let s := set_totalMetadataBytes
                 (saturating_sub (st_totalMetadataBytes s) (transactionMetadataBytes r)) s in
      (set_droppedCount (saturating_add (st_droppedCount s) 1) s, true,
       removedBodies ++ intoBodyReferences r)
  end.

Definition removeTransactions (transactionIds : list chars) (s : RecordingStateInner)
    : RecordingStateInner * list BodyRef :=
  match transactionIds with
  | [] => (s, [])
  | _ =>
      let s := set_order (filter (λ identifier, identifier ∉ transactionIds) (st_order s)) s in
      let '(s, removedAny, removedBodies) := fold_left removeTransaction transactionIds (s, false, []) in
      (if removedAny : bool then markCollectionChanged s else s, removedBodies)
  end.

(** [drain_order]: the order in which the drained [HashMap] yields its records. *)
Definition removeAllTransactions
    (drain_order : gmap chars TransactionRecord → list TransactionRecord) (s : RecordingStateInner)
    : RecordingStateInner * list BodyRef :=
  let removedRecords := drain_order (st_transactions s) in
  let s := set_responseEntityIndex ∅ s in
  let s := set_transactions ∅ s in
  let s := set_order [] s in
  let s := set_totalBodyBytes 0 s in
  (set_totalMetadataBytes
     (saturating_sub (st_totalMetadataBytes s) (sum_by transactionMetadataBytes removedRecords)) s,
   removedRecords ≫= intoBodyReferences).

Definition enforceAllLimits (s : RecordingStateInner) : RecordingStateInner * list BodyRef :=
  removeTransactions
    (limitsLoop s (Z.of_nat (size (st_transactions s))) (st_totalBodyBytes s) (st_order s)) s.

(** ** Replacement within the budget *)
Definition ofIds (f : TransactionRecord → Z) (s : RecordingStateInner) (transactionIds : list chars) : Z :=
  sum_by f (omap (λ identifier, st_transactions s !! identifier) transactionIds).

Definition projectedBytes (s : RecordingStateInner) (evictionIds : list chars)
    (oldTransactionBytes newTransactionBytes : Z) : Z :=
  saturating_add
    (saturating_sub (saturating_sub (st_totalMetadataBytes s) oldTransactionBytes)
       (ofIds transactionMetadataBytes s evictionIds)) newTransactionBytes.

(** The part the two replacements share: make room, then let [change] replace the
    record, or leave everything as it was. *)
Definition replaceWithinBudget (transactionId : chars) (oldTransactionBytes newTransactionBytes : Z)
    (change : TransactionRecord → TransactionRecord) : onState (list BodyRef) :=
  s ← gets id;
  let requiredIncrease := saturating_sub newTransactionBytes oldTransactionBytes in
  let evictionIds := planMetadataBudgetEvictions s transactionId requiredIncrease in
  let deferredCleanupBytes := ofIds cleanupBodyReferencesMetadataBytes s evictionIds in
  let projectedVisibleBytes := projectedBytes s evictionIds oldTransactionBytes newTransactionBytes in
  if st_metadataMemoryBudgetBytes s <? saturating_add projectedVisibleBytes deferredCleanupBytes
  then fail MetadataMemoryBudgetExceeded
  else
    let '(s, removedBodies) := removeTransactions evictionIds s in
    match st_transactions s !! transactionId with
    | None => λ _, (s, Err TransactionNotFound)
    | Some r => λ _,
        (set_totalMetadataBytes projectedVisibleBytes
           (set_transactions (<[transactionId := change r]> (st_transactions s)) s), Ok removedBodies)
    end.

Definition set_packets (side : MessageSide) (packets : vec StreamPacket) (r : TransactionRecord)
    : TransactionRecord :=
  match side with
  | Request => set_requestPackets packets r
  | Response => set_responsePackets packets r
  end.

Definition replaceStreamPacketsWithinMetadataBudget (transactionId : chars) (side : MessageSide)
    (packets : vec StreamPacket) : onState (list BodyRef) :=
  s ← gets id;
  match st_transactions s !! transactionId with
  | None => fail TransactionNotFound
  | Some currentRecord =>
      let candidateRecord := set_packets side packets (clone_record currentRecord) in
      replaceWithinBudget transactionId (transactionMetadataBytes currentRecord)
        (transactionMetadataBytes candidateRecord) (set_packets side packets)
  end.

Definition replaceSummaryWithinMetadataBudget (transactionId : chars) (summary : TransactionSummary)
    (summaryBytes : Z) : onState (list BodyRef) :=
  if maximumTransactionSummaryBytes <? summaryBytes then fail MetadataMemoryBudgetExceeded
  else
    s ← gets id;
    match st_transactions s !! transactionId with
    | None => fail TransactionNotFound
    | Some currentRecord =>
        let oldTransactionBytes := transactionMetadataBytes currentRecord in
        let indexBytes summary := responseEntityIndexMetadataBytes summary
                                    (items (tr_responseHeaders currentRecord))
                                    (tr_responseBody currentRecord) in
        let oldBodyReferenceBytes :=
          if isPending currentRecord then 0 else bodyReferenceMetadataBytes currentRecord in
        let newBodyReferenceBytes :=
          if bool_decide (ts_status summary = Pending) then 0
          else bodyReferenceMetadataBytes currentRecord in
        let newTransactionBytes :=
          saturating_add (saturating_add
            (saturating_sub (saturating_sub
               (saturating_sub oldTransactionBytes (tr_summaryStorageBytes currentRecord))
               oldBodyReferenceBytes) (indexBytes (tr_summary currentRecord)))
            summaryBytes) newBodyReferenceBytes in
        let newTransactionBytes := saturating_add newTransactionBytes (indexBytes summary) in
        replaceWithinBudget transactionId oldTransactionBytes newTransactionBytes
          (λ r, set_summaryStorageBytes summaryBytes (set_summary summary r))
    end.

Definition finalizeSummaryWithinLimits (transactionId : chars) (summary : TransactionSummary)
    (summaryBytes : Z) : onState (list BodyRef) :=
  removedBodies ← replaceSummaryWithinMetadataBudget transactionId summary summaryBytes;
  s ← gets id;
  let '(s, more) := enforceAllLimits s in
  _ ← modify (λ _, insertResponseEntityEntry transactionId s);
  mret (removedBodies ++ more).
End budgets.
