(* ===== verification/Recording.v ===== *)
(** * The recording session

    Model of the methods of [RecordingSession] in
    [Server/Backend/Capture/src/recordingSession.rs].  A method holds the write lock
    from beginning to end, across its file operations, and is a computation on the
    session; the few that release the lock in between receive what the other tasks do
    meanwhile as [env].  [notifyChanged] advances the revision of the watch channel.
    A cancelled method stops at a file operation, as if it had been refused. *)

From S2P Require Import Prelude NetAddress Stateful Text Location CaptureModel MetadataBudget BodyStore RecordingState RecordingBudget.

Record RecordingSession := {
  ss_state : RecordingStateInner;
  ss_bodyStore : BodyStore;
  ss_revision : Z
}.

Definition set_inner (v : RecordingStateInner) (s : RecordingSession) : RecordingSession :=
  {| ss_state := v; ss_bodyStore := ss_bodyStore s; ss_revision := ss_revision s |}.
Definition set_bodyStore (v : BodyStore) (s : RecordingSession) : RecordingSession :=
  {| ss_state := ss_state s; ss_bodyStore := v; ss_revision := ss_revision s |}.

Abbreviation onSession := (stateful RecordingSession CaptureError) (only parsing).

Definition on_state {A} (m : onState A) : onSession A := λ s,
  let '(state, r) := m (ss_state s) in (set_inner state s, r).
Definition on_store {A} (m : onStore A) : onSession A := λ s,
  let '(store, r) := m (ss_bodyStore s) in (set_bodyStore store s, r).
Definition with_state {A} (f : RecordingStateInner → A) : onSession A := gets (λ s, f (ss_state s)).
Definition update_state (f : RecordingStateInner → RecordingStateInner) : onSession unit :=
  on_state (modify f).

(** [f] changes the state and yields a result. *)
Definition run_state {A} (f : RecordingStateInner → RecordingStateInner * A) : onSession A :=
  on_state (λ s, let '(s, a) := f s in (s, Ok a)).

(** What other tasks do while the lock is free. *)
Definition elsewhere (env : RecordingSession → RecordingSession) : onSession unit := modify env.

Definition notifyChanged : onSession unit := λ s,
  ({| ss_state := ss_state s; ss_bodyStore := ss_bodyStore s;
      ss_revision := saturating_add (ss_revision s) 1 |}, Ok tt).

Definition currentChangeRevision (s : RecordingSession) : Z := ss_revision s.

Definition ensureOpen : onSession unit :=
  s ← with_state id;
  if st_closed s then fail SessionClosed else mret tt.

Definition pendingRecord (transactionId : chars) : onSession TransactionRecord :=
  s ← with_state id;
  match st_transactions s !! transactionId with
  | None => fail TransactionNotFound
  | Some r => if negb (isPending r) then fail TransactionFinished else mret r
  end.

Definition existingRecord (transactionId : chars) : onSession TransactionRecord :=
  s ← with_state id;
  match st_transactions s !! transactionId with
  | None => fail TransactionNotFound
  | Some r => mret r
  end.

Definition update_record (transactionId : chars) (f : TransactionRecord → TransactionRecord)
    : onSession unit :=
  update_state (λ s, set_transactions (alter f transactionId (st_transactions s)) s).

(** ** Summary updates *)
Definition applyTransactionUpdate (s : TransactionSummary) (u : TransactionUpdate) : TransactionSummary :=
  let s := match tu_method u with Some method => set_method method s | None => s end in
  let s := match tu_location u with
           | Some l => set_urlDisplay (ol_display l) (set_query (ol_query l) (set_path (ol_path l)
                         (set_port (ol_port l) (set_host (ol_host l) s))))
           | None => s
           end in
  let s := match tu_statusCode u with Some c => set_statusCode (Some c) s | None => s end in
  let s := match tu_contentType u with Some c => set_contentType c s | None => s end in
  match tu_flags u with
  | Some f => set_flags
      {| tf_mappedLocal := tf_mappedLocal f; tf_mappedRemote := tf_mappedRemote f;
         tf_rewritten := tf_rewritten f; tf_breakpointHit := tf_breakpointHit f;
         tf_throttled := tf_throttled f; tf_mitmDecrypted := tf_mitmDecrypted f;
         tf_bodyTruncated := tf_bodyTruncated (ts_flags s);
         tf_headersTruncated := tf_headersTruncated (ts_flags s);
         tf_fromCache := tf_fromCache f |} s
  | None => s
  end.

Definition applyUserUpdate (s : TransactionSummary) (u : TransactionUserUpdate) : TransactionSummary :=
  let s := match uu_notes u with Some notes => set_notes notes s | None => s end in
  let s := match uu_tags u with Some tags => set_tags tags s | None => s end in
  match uu_appliedTools u with Some tools => set_appliedTools tools s | None => s end.

Definition applyProgressUpdate (u : TransactionProgressUpdate) (s : TransactionSummary)
    : TransactionSummary :=
  let z := ts_sizes s in
  let t := ts_timings s in
  set_timings
    {| tm_startAtMilliseconds := tm_startAtMilliseconds t;
       tm_dnsEndAtMilliseconds := union (pu_dnsEndAtMilliseconds u) (tm_dnsEndAtMilliseconds t);
       tm_connectEndAtMilliseconds :=
         union (pu_connectEndAtMilliseconds u) (tm_connectEndAtMilliseconds t);
       tm_tlsEndAtMilliseconds := union (pu_tlsEndAtMilliseconds u) (tm_tlsEndAtMilliseconds t);
       tm_requestSentAtMilliseconds :=
         union (pu_requestSentAtMilliseconds u) (tm_requestSentAtMilliseconds t);
       tm_responseStartAtMilliseconds :=
         union (pu_responseStartAtMilliseconds u) (tm_responseStartAtMilliseconds t);
       tm_endAtMilliseconds := tm_endAtMilliseconds t |}
    (set_sizes
      {| sz_requestHeaderBytes := default (sz_requestHeaderBytes z) (pu_requestHeaderBytes u);
         sz_requestBodyBytes := default (sz_requestBodyBytes z) (pu_requestBodyBytes u);
         sz_responseHeaderBytes := default (sz_responseHeaderBytes z) (pu_responseHeaderBytes u);
         sz_responseBodyBytes := default (sz_responseBodyBytes z) (pu_responseBodyBytes u) |} s).

Definition completed (status : TransactionStatus) (c : TransactionCompletion) (s : TransactionSummary)
    : TransactionSummary :=
  let t := ts_timings s in
  set_timings
    {| tm_startAtMilliseconds := tm_startAtMilliseconds t;
       tm_dnsEndAtMilliseconds := tm_dnsEndAtMilliseconds t;
       tm_connectEndAtMilliseconds := tm_connectEndAtMilliseconds t;
       tm_tlsEndAtMilliseconds := tm_tlsEndAtMilliseconds t;
       tm_requestSentAtMilliseconds := tm_requestSentAtMilliseconds t;
       tm_responseStartAtMilliseconds := tm_responseStartAtMilliseconds t;
       tm_endAtMilliseconds := Some (tc_endAtMilliseconds c) |}
    (set_contentType (tc_contentType c)
      (set_statusCode (Some (tc_statusCode c)) (set_status status s))).

Definition failed (status : TransactionStatus) (error : TransactionError) (endAtMilliseconds : Z)
    (s : TransactionSummary) : TransactionSummary :=
  let t := ts_timings s in
  set_timings
    {| tm_startAtMilliseconds := tm_startAtMilliseconds t;
       tm_dnsEndAtMilliseconds := tm_dnsEndAtMilliseconds t;
       tm_connectEndAtMilliseconds := tm_connectEndAtMilliseconds t;
       tm_tlsEndAtMilliseconds := tm_tlsEndAtMilliseconds t;
       tm_requestSentAtMilliseconds := tm_requestSentAtMilliseconds t;
       tm_responseStartAtMilliseconds := tm_responseStartAtMilliseconds t;
       tm_endAtMilliseconds := Some endAtMilliseconds |}
    (set_error (Some error) (set_status status s)).

(** ** Admission by state and location *)
Section recording.
Context `{Layout} `{Environment} (to_lowercase : chars → chars)
  (drain_order : gmap chars TransactionRecord → list TransactionRecord).

Fixpoint ignored (patterns : list LocationPattern) (location : ResolvedLocation)
    : outcome LocationError bool :=
  match patterns with
  | [] => Ok false
  | pattern :: patterns =>
      matched ← locationMatches to_lowercase pattern location LocationMatchOptions_default;
      if matched : bool then Ok true else ignored patterns location
  end.

Definition shouldRecordFromState (s : RecordingStateInner) (location : ResolvedLocation)
    : outcome CaptureError bool :=
  if bool_decide (st_recordingState s = Paused) then Ok false
  else
    skip ← map_err CaptureLocation (ignored (st_ignoreLocations s) location);
    if skip : bool then Ok false
    else map_err CaptureLocation
           (locationMatches to_lowercase LocationPattern_default location LocationMatchOptions_default).

Fixpoint validatePatterns (patterns : list LocationPattern) : outcome CaptureError unit :=
  match patterns with
  | [] => Ok tt
  | pattern :: patterns =>
      _ ← map_err CaptureLocation (validateLocationPattern pattern);
      validatePatterns patterns
  end.

(** ** Cleanup *)
Fixpoint drainLoop (fuel : nat) : onSession unit :=
  match fuel with
  | O => lift Panic
  | S fuel =>
      s ← with_state id;
      match st_cleanupQueue s with
      | [] => mret tt
      | bodyReference :: _ =>
          _ ← on_store (remove (clone_body bodyReference));
          _ ← update_state (λ s, set_totalMetadataBytes
                (saturating_sub (st_totalMetadataBytes s)
                   (cleanupBodyReferenceMetadataBytes bodyReference))
                (set_cleanupQueue (tail (st_cleanupQueue s)) s));
          _ ← notifyChanged;
          drainLoop fuel
      end
  end.

Definition drainCleanupQueueLocked : onSession unit :=
  n ← with_state (λ s, length (st_cleanupQueue s));
  _ ← drainLoop (S n);
  previousOrphanCount ← gets (λ s, pendingOrphanCount (ss_bodyStore s));
  _ ← on_store cleanupOrphanedSpills;
  orphanCount ← gets (λ s, pendingOrphanCount (ss_bodyStore s));
  _ ← (if orphanCount =? previousOrphanCount then mret tt else notifyChanged);
  s ← with_state id;
  if st_directoryCleanupPending s then
    _ ← on_store clearStore;
    _ ← update_state (set_directoryCleanupPending false);
    notifyChanged
  else mret tt.

Definition enqueue (removedBodies : list BodyRef) : onSession unit :=
  update_state (enqueueBodyReferences removedBodies).

(** ** Creation *)
Definition newSession (configuration : RecordingConfiguration) (now : Z) (disk : Disk)
    : outcome CaptureError RecordingSession :=
  _ ← check (isValid (rc_limits configuration)) InvalidLimits;
  _ ← check (negb (rc_memoryBodyThreshold configuration =? 0)) InvalidMemoryThreshold;
  _ ← check (negb (rc_metadataMemoryBudgetBytes configuration <? minimumMetadataMemoryBudgetBytes))
        InvalidMetadataMemoryBudget;
  _ ← validatePatterns (rc_ignoreLocations configuration);
  let recordingSessionId := new_v4 0 in
  let '(disk, created) := create_dir_all disk in
  _ ← map_err Io created;
  Ok {| ss_state :=
          {| st_recordingState := Recording; st_recordingSessionId := tight recordingSessionId;
             st_startedAtMilliseconds := now; st_nextSequence := 1; st_droppedCount := 0;
             st_totalBodyBytes := 0; st_totalMetadataBytes := 0;
             st_metadataMemoryBudgetBytes := rc_metadataMemoryBudgetBytes configuration;
             st_collectionVersion := 0; st_limits := rc_limits configuration;
             st_ignoreLocations := rc_ignoreLocations configuration;
             st_recordTunnelMetadata := rc_recordTunnelMetadata configuration;
             st_transactions := ∅; st_responseEntityIndex := ∅; st_order := [];
             st_cleanupQueue := []; st_directoryCleanupPending := false; st_closed := false |};
        ss_bodyStore :=
          {| bs_sessionDirectory :=
               text (join (rc_spillDirectory configuration) (lit "recording-" ++ recordingSessionId));
             bs_memoryThreshold := rc_memoryBodyThreshold configuration;
             bs_orphanedSpills := ∅; bs_uuids := 1; bs_disk := disk |};
        ss_revision := 0 |}.

(** ** Settings *)
Definition startRecording : onSession unit :=
  _ ← ensureOpen; _ ← update_state (set_recordingState Recording); notifyChanged.

Definition pauseRecording : onSession unit :=
  _ ← ensureOpen; _ ← update_state (set_recordingState Paused); notifyChanged.

Definition setLimits (limits : RecordingLimits) : onSession unit :=
  _ ← ensureOpen;
  s ← with_state id;
  if negb (bool_decide (limits = st_limits s)) then fail InvalidLimits else mret tt.

Definition setIgnoreLocations (patterns : list LocationPattern) : onSession unit :=
  _ ← lift (validatePatterns patterns);
  _ ← ensureOpen; _ ← update_state (set_ignoreLocations patterns); notifyChanged.

Definition setRecordTunnelMetadata (enabled : bool) : onSession unit :=
  _ ← ensureOpen; _ ← update_state (set_recordTunnelMetadata enabled); notifyChanged.

Definition updateSettings (u : RecordingSettingsUpdate) : onSession unit :=
  if bool_decide (is_Some (su_limits u)) then fail InvalidLimits
  else
    _ ← lift (match su_ignoreLocations u with
              | Some patterns => validatePatterns patterns
              | None => Ok tt
              end);
    _ ← ensureOpen;
    _ ← update_state (λ s,
      let s := match su_state u with Some state => set_recordingState state s | None => s end in
      let s := match su_ignoreLocations u with
               | Some patterns => set_ignoreLocations patterns s | None => s end in
      match su_recordTunnelMetadata u with
      | Some enabled => set_recordTunnelMetadata enabled s | None => s end);
    _ ← notifyChanged;
    drainCleanupQueueLocked.

Definition shouldRecord (location : ResolvedLocation) : onSession bool :=
  _ ← ensureOpen;
  s ← with_state id;
  lift (shouldRecordFromState s location).

(** ** Transactions *)
Definition newSummary (transactionId : chars) (s : RecordingStateInner) (input : BeginTransaction)
    : TransactionSummary :=
  {| ts_transactionId := tight transactionId;
     ts_recordingSessionId := clone_string (st_recordingSessionId s);
     ts_sequence := st_nextSequence s; ts_protocol := bt_protocol input;
     ts_method := bt_method input; ts_host := ol_host (bt_location input);
     ts_port := ol_port (bt_location input); ts_path := ol_path (bt_location input);
     ts_query := ol_query (bt_location input); ts_urlDisplay := ol_display (bt_location input);
     ts_status := Pending; ts_statusCode := None; ts_clientAddress := bt_clientAddress input;
     ts_clientProcessName := bt_clientProcessName input;
     ts_clientProcessId := bt_clientProcessId input; ts_contentType := bt_contentType input;
     ts_timings :=
       {| tm_startAtMilliseconds := bt_startAtMilliseconds input; tm_dnsEndAtMilliseconds := None;
          tm_connectEndAtMilliseconds := None; tm_tlsEndAtMilliseconds := None;
          tm_requestSentAtMilliseconds := None; tm_responseStartAtMilliseconds := None;
          tm_endAtMilliseconds := None |};
     ts_sizes := TransactionSizes_default; ts_flags := TransactionFlags_default; ts_error := None;
     ts_notes := tight []; ts_tags := vec_of []; ts_appliedTools := vec_of [] |}.

Definition newRecord (summary : TransactionSummary) : TransactionRecord :=
  {| tr_summary := summary; tr_summaryStorageBytes := summaryStorageBytes summary;
     tr_requestHeaders := vec_of []; tr_responseHeaders := vec_of []; tr_requestBody := None;
     tr_responseBody := None; tr_requestPackets := vec_of []; tr_responsePackets := vec_of [];
     tr_requestHeadersTruncated := false; tr_responseHeadersTruncated := false |}.

Definition isTunnel (protocol : TransactionProtocol) : bool :=
  match protocol with Tunnel | Socks => true | _ => false end.

Definition admitTransaction (transactionId : chars) (record : TransactionRecord) (newTransactionBytes : Z)
    (s : RecordingStateInner) : RecordingStateInner :=
  set_totalMetadataBytes (saturating_add (st_totalMetadataBytes s) newTransactionBytes)
    (set_transactions (<[transactionId := record]> (st_transactions s))
       (set_order (st_order s ++ [transactionId])
          (set_nextSequence (saturating_add (st_nextSequence s) 1) s))).

Definition beginTransaction (input : BeginTransaction) : onSession (option chars) :=
  _ ← ensureOpen;
  _ ← drainCleanupQueueLocked;
  s ← with_state id;
  recorded ← lift (shouldRecordFromState s (resolved (bt_location input)));
  if negb recorded || (isTunnel (bt_protocol input) && negb (st_recordTunnelMetadata s))
  then mret None
  else
    let input := boundBeginTransaction input in
    transactionId ← on_store v4;
    let record := newRecord (newSummary transactionId s input) in
    let newTransactionBytes := transactionMetadataBytes record in
    let evictionIds := planTransactionAdmissionEvictions s newTransactionBytes in
    removedBodies ← run_state (removeTransactions evictionIds);
    _ ← enqueue removedBodies;
    _ ← (match evictionIds with [] => mret tt | _ => notifyChanged end);
    _ ← drainCleanupQueueLocked;
    s ← with_state id;
    if negb (canAdmitTransaction s newTransactionBytes) then
      _ ← update_state (λ s, set_droppedCount (saturating_add (st_droppedCount s) 1) s);
      _ ← notifyChanged;
      mret None
    else
      _ ← update_state (admitTransaction transactionId record newTransactionBytes);
      _ ← notifyChanged;
      mret (Some transactionId).

(** [replace] puts the summary in place; what it evicts is queued for cleanup. *)
Definition replaceAndNotify (replace : onState (list BodyRef)) : onSession unit :=
  removedBodies ← on_state replace;
  _ ← enqueue removedBodies;
  notifyChanged.

Definition update (transactionId : chars) (u : TransactionUpdate) : onSession unit :=
  _ ← ensureOpen;
  r ← pendingRecord transactionId;
  let summary := applyTransactionUpdate (clone_summary (tr_summary r)) (boundTransactionUpdate u) in
  replaceAndNotify
    (replaceSummaryWithinMetadataBudget transactionId summary (summaryStorageBytes summary)).

Definition updateProgress (transactionId : chars) (u : TransactionProgressUpdate) : onSession unit :=
  _ ← ensureOpen;
  _ ← pendingRecord transactionId;
  _ ← update_record transactionId (λ r, set_summary (applyProgressUpdate u (tr_summary r)) r);
  notifyChanged.

Definition updateUserFields (transactionId : chars) (u : TransactionUserUpdate) : onSession unit :=
  _ ← ensureOpen;
  r ← existingRecord transactionId;
  let summary := applyUserUpdate (clone_summary (tr_summary r)) (boundUserUpdate u) in
  replaceAndNotify
    (replaceSummaryWithinMetadataBudget transactionId summary (summaryStorageBytes summary)).

(** The four terminal transitions differ in how the summary changes. *)
Definition finalize (transactionId : chars) (change : TransactionSummary → TransactionSummary)
    : onSession unit :=
  _ ← ensureOpen;
  r ← pendingRecord transactionId;
  let summary := change (clone_summary (tr_summary r)) in
  replaceAndNotify
    (finalizeSummaryWithinLimits transactionId summary (summaryStorageBytes summary)).

Definition commit (transactionId : chars) (completion : TransactionCompletion) : onSession unit :=
  finalize transactionId (completed Complete (boundCompletion completion)).
Definition block (transactionId : chars) (completion : TransactionCompletion) : onSession unit :=
  finalize transactionId (completed Blocked (boundCompletion completion)).
Definition failTransaction (transactionId : chars) (error : TransactionError) (endAtMilliseconds : Z)
    : onSession unit :=
  finalize transactionId (failed Failed (boundTransactionError error) endAtMilliseconds).
Definition cancel (transactionId : chars) (error : TransactionError) (endAtMilliseconds : Z)
    : onSession unit :=
  finalize transactionId (failed Cancelled (boundTransactionError error) endAtMilliseconds).

(** ** Headers, bodies and packets *)
Definition record_headers (r : TransactionRecord) (side : MessageSide) : vec HeaderField :=
  match side with Request => tr_requestHeaders r | Response => tr_responseHeaders r end.

Definition set_headers (side : MessageSide) (bounded : BoundedHeaders) (r : TransactionRecord)
    : TransactionRecord :=
  match side with
  | Request => set_requestHeadersTruncated (bh_truncated bounded)
                 (set_requestHeaders (vec_of (bh_headers bounded)) r)
  | Response => set_responseHeadersTruncated (bh_truncated bounded)
                  (set_responseHeaders (vec_of (bh_headers bounded)) r)
  end.

Definition storeHeaders (transactionId : chars) (side : MessageSide) (headers : list HeaderField)
    : onSession unit :=
  _ ← ensureOpen;
  _ ← drainCleanupQueueLocked;
  r ← pendingRecord transactionId;
  let old := record_headers r side in
  let oldHeaderBytes := headerStorageBytes (items old) (vec_capacity old) in
  let initiallyBounded := boundHeaders headers usize_max in
  let requiredIncrease := saturating_sub (bh_storedBytes initiallyBounded) oldHeaderBytes in
  s ← with_state id;
  let evictionIds := planMetadataBudgetEvictions s transactionId requiredIncrease in
  removedBodies ← run_state (removeTransactions evictionIds);
  _ ← enqueue removedBodies;
  _ ← (match evictionIds with [] => mret tt | _ => notifyChanged end);
  s ← with_state id;
  let availableBytes := saturating_sub (st_metadataMemoryBudgetBytes s)
                          (saturating_sub (st_totalMetadataBytes s) oldHeaderBytes) in
  let bounded :=
    if availableBytes <? bh_storedBytes initiallyBounded then
      let reduced := boundHeaders (bh_headers initiallyBounded) availableBytes in
      {| bh_headers := bh_headers reduced; bh_storedBytes := bh_storedBytes reduced;
         bh_truncated := true |}
    else initiallyBounded in
  _ ← existingRecord transactionId;
  _ ← update_record transactionId (refreshTruncatedFlag ∘ set_headers side bounded);
  _ ← update_state (λ s, set_totalMetadataBytes
        (saturating_add (saturating_sub (st_totalMetadataBytes s) oldHeaderBytes)
           (bh_storedBytes bounded)) s);
  _ ← notifyChanged;
  drainCleanupQueueLocked.

Definition set_bodySize (side : MessageSide) (originalBytes : Z) (s : TransactionSummary)
    : TransactionSummary :=
  let z := ts_sizes s in
  set_sizes
    match side with
    | Request =>
        {| sz_requestHeaderBytes := sz_requestHeaderBytes z; sz_requestBodyBytes := originalBytes;
           sz_responseHeaderBytes := sz_responseHeaderBytes z;
           sz_responseBodyBytes := sz_responseBodyBytes z |}
    | Response =>
        {| sz_requestHeaderBytes := sz_requestHeaderBytes z;
           sz_requestBodyBytes := sz_requestBodyBytes z;
           sz_responseHeaderBytes := sz_responseHeaderBytes z;
           sz_responseBodyBytes := originalBytes |}
    end s.

Definition bindBody (side : MessageSide) (b : BodyRef) (originalBytes : Z) (r : TransactionRecord)
    : TransactionRecord :=
  let r := replaceBody side b r in
  refreshTruncatedFlag (set_summary (set_bodySize side originalBytes (tr_summary r)) r).

Definition storeBody (transactionId : chars) (side : MessageSide) (body : BodyWrite)
    : onSession BodyHandleMeta :=
  let body := boundBodyWrite body in
  if bw_originalBytes body <? len (bw_bytes body) then fail InvalidBodyLength
  else
    _ ← ensureOpen;
    _ ← drainCleanupQueueLocked;
    r ← pendingRecord transactionId;
    let oldBody := clone_body <$> record_body r side in
    let oldBodyBytes := from_option bodyStoredBytes 0 oldBody in
    s ← with_state id;
    let desiredBytes := Z.min (len (bw_bytes body)) (rm_maxBodyBytes (st_limits s)) in
    let baseTotalBytes := saturating_sub (st_totalBodyBytes s) oldBodyBytes in
    let evictionIds := planBodyBudgetEvictions s transactionId baseTotalBytes desiredBytes in
    let freedBytes := ofIds transactionBodyBytes s evictionIds in
    let retainedBytes := saturating_sub baseTotalBytes freedBytes in
    let availableBytes := saturating_sub (rm_maxTotalBodyBytes (st_limits s)) retainedBytes in
    let storedBytes := Z.min desiredBytes availableBytes in
    let meta :=
      {| bm_transactionId := tight transactionId; bm_side := side;
         bm_contentType := bw_contentType body; bm_encoding := bw_encoding body;
         bm_storedBytes := storedBytes; bm_originalBytes := bw_originalBytes body;
         bm_truncated := storedBytes <? bw_originalBytes body |} in
    stored ← lift (sub_slice (bw_bytes body) 0 storedBytes);
    stagedBody ← on_store (store transactionId side stored (clone_meta meta));
    removedBodies ← run_state (removeTransactions evictionIds);
    _ ← (match oldBody with
         | Some _ => update_state (λ s, set_totalBodyBytes
                       (saturating_sub (st_totalBodyBytes s) oldBodyBytes) s)
         | None => mret tt
         end);
    _ ← update_state (λ s, set_totalBodyBytes (saturating_add (st_totalBodyBytes s) storedBytes) s);
    _ ← existingRecord transactionId;
    _ ← update_record transactionId (bindBody side (commitStaged stagedBody) (bw_originalBytes body));
    _ ← enqueue (removedBodies ++ option_list oldBody);
    _ ← notifyChanged;
    _ ← drainCleanupQueueLocked;
    mret meta.

Definition createBodySpool (env : RecordingSession → RecordingSession) (transactionId : chars)
    (side : MessageSide) : onSession BodySpool :=
  _ ← ensureOpen;
  _ ← pendingRecord transactionId;
  _ ← elsewhere env;
  on_store (createSpool transactionId side).

Definition spoolMeta (transactionId : chars) (side : MessageSide) (contentType encoding : chars)
    (bytes : Z) : BodyHandleMeta :=
  {| bm_transactionId := tight transactionId; bm_side := side; bm_contentType := tight contentType;
     bm_encoding := tight encoding; bm_storedBytes := bytes; bm_originalBytes := bytes;
     bm_truncated := false |}.

(** The bodies that are staged but not yet registered are dropped on any error. *)
Definition dropping (staged : StagedBody) {A} (m : onSession A) : onSession A :=
  on_error (on_store (dropStaged staged)) m.

Definition bindSpools (transactionId : chars) (requestBody responseBody : BodyRef)
    (requestBytes responseBytes : Z) (r : TransactionRecord) : TransactionRecord :=
  let r := set_responseBody (Some responseBody) (set_requestBody (Some requestBody) r) in
  refreshTruncatedFlag
    (set_summary (set_bodySize Response responseBytes
                    (set_bodySize Request requestBytes (tr_summary r))) r).

(** The part of [storeBodySpools] under the write lock. *)
Definition registerSpools (transactionId : chars) (request response : StagedBody)
    (requestBytes responseBytes : Z) : onSession unit :=
  _ ← ensureOpen;
  r ← pendingRecord transactionId;
  let oldRequest := clone_body <$> tr_requestBody r in
  let oldResponse := clone_body <$> tr_responseBody r in
  let oldBytes := saturating_add (from_option bodyStoredBytes 0 oldRequest)
                    (from_option bodyStoredBytes 0 oldResponse) in
  let newBytes := saturating_add requestBytes responseBytes in
  s ← with_state id;
  let retainedBytes := saturating_sub (st_totalBodyBytes s) oldBytes in
  if (rm_maxBodyBytes (st_limits s) <? requestBytes) || (rm_maxBodyBytes (st_limits s) <? responseBytes)
     || (saturating_sub (rm_maxTotalBodyBytes (st_limits s)) retainedBytes <? newBytes)
  then fail InvalidLimits
  else
    _ ← update_record transactionId (bindSpools transactionId (commitStaged request)
          (commitStaged response) requestBytes responseBytes);
    _ ← update_state (set_totalBodyBytes (saturating_add retainedBytes newBytes));
    _ ← enqueue (option_list oldRequest ++ option_list oldResponse);
    notifyChanged.

(** The two parts of [storeBodySpools]: the files are committed without the lock,
    then registered and the replaced bodies removed under it. *)
Definition stageSpools (transactionId : chars) (requestSpool responseSpool : BodySpool)
    (requestMeta responseMeta : BodyHandleMeta) : onSession (StagedBody * StagedBody) :=
  request ← on_error (on_store (dropSpool responseSpool))
              (on_store (stageSpool requestSpool (clone_meta requestMeta)));
  response ← dropping request (on_store (stageSpool responseSpool (clone_meta responseMeta)));
  mret (request, response).

Definition registerStaged (transactionId : chars) (request response : StagedBody)
    (requestBytes responseBytes : Z) : onSession unit :=
  _ ← dropping request (dropping response
        (registerSpools transactionId request response requestBytes responseBytes));
  drainCleanupQueueLocked.

Definition storeBodySpools (env : RecordingSession → RecordingSession) (transactionId : chars)
    (requestSpool responseSpool : BodySpool) (contentType encoding : chars)
    : onSession (BodyHandleMeta * BodyHandleMeta) :=
  let requestBytes := bo_writtenBytes requestSpool in
  let responseBytes := bo_writtenBytes responseSpool in
  let requestMeta := spoolMeta transactionId Request contentType encoding requestBytes in
  let responseMeta := spoolMeta transactionId Response contentType encoding responseBytes in
  '(request, response) ← stageSpools transactionId requestSpool responseSpool requestMeta responseMeta;
  _ ← elsewhere env;
  _ ← registerStaged transactionId request response requestBytes responseBytes;
  mret (requestMeta, responseMeta).

Definition packetInvalid (bodyLength : Z) (p : StreamPacket) : bool :=
  (sp_storedBytes p =? 0) || (sp_originalBytes p <? sp_storedBytes p)
  || negb (eqb (sp_truncated p) (sp_storedBytes p <? sp_originalBytes p))
  || from_option (λ end_, bodyLength <? end_) true
       (checked_add (sp_storedOffsetBytes p) (sp_storedBytes p)).

Definition storeStreamPackets (transactionId : chars) (side : MessageSide) (packets : vec StreamPacket)
    : onSession unit :=
  _ ← ensureOpen;
  r ← existingRecord transactionId;
  let bodyLength := from_option bodyStoredBytes 0 (record_body r side) in
  if existsb (packetInvalid bodyLength) (items packets) then fail InvalidBodyLength
  else
    _ ← replaceAndNotify (replaceStreamPacketsWithinMetadataBudget transactionId side packets);
    drainCleanupQueueLocked.

(** ** Clearing and closing *)

Definition clearSession : onSession unit :=
  _ ← ensureOpen;
  removedBodies ← run_state (removeAllTransactions drain_order);
  _ ← update_state markCollectionChanged;
  _ ← update_state (set_directoryCleanupPending true);
  _ ← enqueue removedBodies;
  _ ← notifyChanged;
  drainCleanupQueueLocked.

Definition closeSession : onSession unit :=
  s ← with_state id;
  if st_closed s then mret tt
  else
    removedBodies ← run_state (removeAllTransactions drain_order);
    _ ← update_state markCollectionChanged;
    _ ← enqueue removedBodies;
    _ ← notifyChanged;
    _ ← drainCleanupQueueLocked;
    _ ← on_store closeStore;
    update_state (set_closed true).

Definition cleanupPendingBodies : onSession unit :=
  _ ← ensureOpen;
  _ ← drainCleanupQueueLocked;
  notifyChanged.

(** ** Queries *)
Definition snapshotFromState (s : RecordingStateInner) (pendingOrphans : Z) : RecordingSnapshot :=
  {| sn_recordingSessionId := clone_string (st_recordingSessionId s);
     sn_state := st_recordingState s; sn_startedAtMilliseconds := st_startedAtMilliseconds s;
     sn_transactionCount := Z.of_nat (size (st_transactions s));
     sn_droppedCount := st_droppedCount s; sn_totalBodyBytes := st_totalBodyBytes s;
     sn_totalMetadataBytes := st_totalMetadataBytes s;
     sn_metadataMemoryBudgetBytes := st_metadataMemoryBudgetBytes s;
     sn_pendingCleanupCount := len (st_cleanupQueue s) + pendingOrphans +
       (if st_directoryCleanupPending s then 1 else 0);
     sn_limits := st_limits s; sn_ignoreLocations := st_ignoreLocations s;
     sn_recordTunnelMetadata := st_recordTunnelMetadata s |}.

Definition collectionTokenFromState (s : RecordingStateInner) : chars :=
  text (st_recordingSessionId s) ++ lit ":" ++ decimal (st_collectionVersion s).

Definition snapshot : onSession RecordingSnapshot :=
  _ ← ensureOpen;
  gets (λ s, snapshotFromState (ss_state s) (pendingOrphanCount (ss_bodyStore s))).

Definition summariesOf (s : RecordingStateInner) (identifiers : list chars) : list TransactionSummary :=
  clone_summary ∘ tr_summary <$> omap (λ identifier, st_transactions s !! identifier) identifiers.

Definition pageView (offset : option Z) (limit : Z) (expectedCollectionToken : option chars)
    : onSession RecordingPageView :=
  _ ← ensureOpen;
  s ← with_state id;
  let collectionToken := collectionTokenFromState s in
  if from_option (λ expected, negb (str_eqb expected collectionToken)) false expectedCollectionToken
  then fail CollectionChanged
  else
    let total := len (st_order s) in
    let pageOffset := default (saturating_sub total limit) offset in
    let identifiers := take (Z.to_nat limit) (drop (Z.to_nat (Z.min pageOffset total)) (st_order s)) in
    orphans ← gets (λ s, pendingOrphanCount (ss_bodyStore s));
    mret {| pv_recording := snapshotFromState s orphans; pv_collectionToken := collectionToken;
            pv_total := total; pv_offset := pageOffset;
            pv_transactions := summariesOf s identifiers |}.

Definition listMetadata : onSession (list TransactionSummary) :=
  _ ← ensureOpen;
  with_state (λ s, summariesOf s (st_order s)).

Definition getTransaction (transactionId : chars) : onSession TransactionSummary :=
  _ ← ensureOpen;
  r ← existingRecord transactionId;
  mret (clone_summary (tr_summary r)).

Definition getTransactionDetail (transactionId : chars) : onSession TransactionDetailRecord :=
  _ ← ensureOpen;
  r ← existingRecord transactionId;
  mret (record_detail r).

Definition getHeaders (transactionId : chars) (side : MessageSide) : onSession (list HeaderField) :=
  _ ← ensureOpen;
  r ← existingRecord transactionId;
  mret (clone_header <$> items (record_headers r side)).

(** The members of a [BTreeSet] in its order: by sequence, then by identifier. *)
Fixpoint chars_leb (a b : chars) : bool :=
  match a, b with
  | [], _ => true
  | _ :: _, [] => false
  | x :: a, y :: b => if x <? y then true else if y <? x then false else chars_leb a b
  end.
Definition member_le (a b : Z * chars) : Prop :=
  (if a.1 <? b.1 then true else if b.1 <? a.1 then false else chars_leb a.2 b.2) = true.
#[export] Instance member_le_dec : RelDecision member_le.
Proof. intros a b. unfold member_le. apply _. Defined.

Definition findResponseRangeCandidates (urlDisplay entityTag : chars) (totalBytes : Z)
    (contentEncoding : chars) : onSession (list ResponseRangeCandidate) :=
  _ ← ensureOpen;
  s ← with_state id;
  let key := {| ek_urlDisplay := urlDisplay; ek_entityTag := entityTag; ek_totalBytes := totalBytes;
                ek_contentEncoding := to_ascii_lowercase contentEncoding |} in
  match st_responseEntityIndex s !! key with
  | None => mret []
  | Some members =>
      mret (omap (λ '(_, identifier), st_transactions s !! identifier ≫= responseRangeCandidate)
              (merge_sort member_le (elements members)))
  end.

Definition getBodyRef (transactionId : chars) (side : MessageSide) : onSession BodyRef :=
  _ ← ensureOpen;
  r ← existingRecord transactionId;
  match record_body r side with
  | Some b => mret (clone_body b)
  | None => fail BodyNotFound
  end.

Definition getBodyReadLease (transactionId : chars) (side : MessageSide) : onSession BodyReadLease :=
  b ← getBodyRef transactionId side;
  on_store (lease b).

Fixpoint leasesOf (transactionIds : list chars) (side : MessageSide) : onSession (list BodyReadLease) :=
  match transactionIds with
  | [] => mret []
  | transactionId :: transactionIds =>
      r ← existingRecord transactionId;
      match record_body r side with
      | None => fail BodyNotFound
      | Some b =>
          l ← on_store (lease b);
          rest ← leasesOf transactionIds side;
          mret (l :: rest)
      end
  end.
Definition getBodyReadLeases (transactionIds : list chars) (side : MessageSide)
    : onSession (list BodyReadLease) :=
  _ ← ensureOpen;
  leasesOf transactionIds side.

Definition getBody (env : RecordingSession → RecordingSession) (transactionId : chars)
    (side : MessageSide) : onSession BodyResponse :=
  b ← getBodyRef transactionId side;
  _ ← elsewhere env;
  bytes ← on_store (read b);
  mret {| br_meta := clone_meta (bf_meta b); br_bytes := bytes |}.

Definition getBodyChunk (env : RecordingSession → RecordingSession) (transactionId : chars)
    (side : MessageSide) (offset maximumBytes : Z) : onSession BodyResponse :=
  b ← getBodyRef transactionId side;
  _ ← elsewhere env;
  bytes ← on_store (readRange b offset maximumBytes);
  mret {| br_meta := clone_meta (bf_meta b); br_bytes := bytes |}.

Definition getBodyStorageKind (transactionId : chars) (side : MessageSide) : onSession BodyStorageKind :=
  b ← getBodyRef transactionId side;
  mret (storageKind b).
End recording.
