(* ===== verification/RecordingInvariant.v ===== *)
(** * Invariant of the recording session's state

    What holds of the state under the lock whenever no method runs: the records, the
    order, the totals and the index of partial responses describe the same
    transactions, and every limit is kept.  Each pure function of [RecordingState] and
    [RecordingBudget] preserves it. *)

From S2P Require Import Prelude NetAddress Stateful Text Location CaptureModel MetadataBudget BodyStore RecordingState RecordingBudget Recording.

(** ** Records *)
Abbreviation status r := (ts_status (tr_summary r)).
Abbreviation sequence r := (ts_sequence (tr_summary r)).

Record RecordOk (id : chars) (r : TransactionRecord) : Prop := {
  ro_key : text (ts_transactionId (tr_summary r)) = id;
  ro_bodies : ∀ b, b ∈ intoBodyReferences r → 0 ≤ bodyStoredBytes b;
  ro_truncated : tf_bodyTruncated (ts_flags (tr_summary r)) =
    existsb (λ b, bm_truncated (bf_meta b)) (intoBodyReferences r);
}.

Lemma record_bodies_nonneg id r : RecordOk id r → 0 ≤ transactionBodyBytes r.
Proof. intros [_ H _]. by apply sum_by_nonneg. Qed.

(** ** The index of partial responses *)
Definition entryKey (r : TransactionRecord) : option ResponseEntityIndexKey :=
  fst <$> responseEntityEntry r.

Definition Indexed (s : RecordingStateInner) (key : ResponseEntityIndexKey) (member : Z * chars) : Prop :=
  ∃ members, st_responseEntityIndex s !! key = Some members ∧ member ∈ members.

(** The index lists exactly the records that hold a complete partial response. *)
Record IndexOk (s : RecordingStateInner) : Prop := {
  io_members : ∀ key member, Indexed s key member ↔
    ∃ id r, st_transactions s !! id = Some r ∧ entryKey r = Some key ∧ member = (sequence r, id);
  io_nonempty : ∀ key members, st_responseEntityIndex s !! key = Some members → members ≠ ∅;
}.

Lemma entity_member r key c :
  responseEntityEntry r = Some (key, c) →
  memberOf c = (sequence r, text (ts_transactionId (tr_summary r))).
Proof.
  unfold responseEntityEntry, responseRangeCandidate. cbv zeta. case_if Hs; [done|].
  destruct (responseContentRange _) as [[[a b] t]|]; [|done]. cbn.
  destruct (tr_responseBody r) as [body|]; [|done]. cbn.
  destruct (rangeOf _ _ _); [|done]. cbn.
  destruct (strongResponseEntityTag _); [|done]. cbn. by intros [= _ <-].
Qed.

Lemma pending_no_entry r : isPending r = true → entryKey r = None.
Proof.
  unfold isPending, entryKey, responseEntityEntry, responseRangeCandidate. cbv zeta.
  intros ->%bool_decide_eq_true. done.
Qed.

Lemma indexed_insert s key members key' member :
  Indexed (set_responseEntityIndex (<[key := members]> (st_responseEntityIndex s)) s) key' member ↔
  (key' = key ∧ member ∈ members) ∨ (key' ≠ key ∧ Indexed s key' member).
Proof.
  unfold Indexed. cbn. destruct (decide (key' = key)) as [->|Hne].
  - rewrite lookup_insert_eq. naive_solver.
  - rewrite lookup_insert_ne by done. naive_solver.
Qed.

Lemma indexed_delete s key key' member :
  Indexed (set_responseEntityIndex (delete key (st_responseEntityIndex s)) s) key' member ↔
  key' ≠ key ∧ Indexed s key' member.
Proof.
  unfold Indexed. cbn. destruct (decide (key' = key)) as [->|Hne].
  - rewrite lookup_delete_eq. naive_solver.
  - rewrite lookup_delete_ne by done. naive_solver.
Qed.

Lemma insertEntry_frame id s :
  ∃ i, insertResponseEntityEntry id s = set_responseEntityIndex i s.
Proof.
  unfold insertResponseEntityEntry. destruct (_ ≫= _) as [[key c]|]; [eauto|].
  exists (st_responseEntityIndex s). by destruct s.
Qed.

Lemma removeEntry_frame r s :
  ∃ i, removeResponseEntityEntry r s = set_responseEntityIndex i s.
Proof.
  unfold removeResponseEntityEntry. destruct (responseEntityEntry r) as [[key c]|].
  - destruct (_ !! key); [eauto|]. exists (st_responseEntityIndex s). by destruct s.
  - exists (st_responseEntityIndex s). by destruct s.
Qed.

Lemma insertEntry_indexed id r s key member :
  st_transactions s !! id = Some r → text (ts_transactionId (tr_summary r)) = id →
  Indexed (insertResponseEntityEntry id s) key member ↔
  Indexed s key member ∨ (entryKey r = Some key ∧ member = (sequence r, id)).
Proof.
  intros Hr Hid. unfold insertResponseEntityEntry, entryKey. rewrite Hr. cbn.
  destruct (responseEntityEntry r) as [[key' c']|] eqn:He; cbn; [|naive_solver].
  pose proof (entity_member _ _ _ He) as Hmember. rewrite Hid in Hmember.
  rewrite Hmember, indexed_insert.
  destruct (decide (key = key')) as [->|Hne]; [|naive_solver].
  unfold Indexed. destruct (st_responseEntityIndex s !! key') as [members|] eqn:Hk; cbn; set_solver.
Qed.

Lemma removeEntry_indexed r s key member :
  Indexed (removeResponseEntityEntry r s) key member ↔
  Indexed s key member ∧
  ¬ (entryKey r = Some key ∧ member = (sequence r, text (ts_transactionId (tr_summary r)))).
Proof.
  unfold removeResponseEntityEntry, entryKey.
  destruct (responseEntityEntry r) as [[key' c']|] eqn:He; cbn; [|naive_solver].
  pose proof (entity_member _ _ _ He) as Hmember. rewrite <-Hmember. clear Hmember He.
  destruct (st_responseEntityIndex s !! key') as [members|] eqn:Hk.
  - destruct (decide (key = key')) as [->|Hne].
    + case_bool_decide as Hempty.
      * rewrite indexed_delete. unfold Indexed. rewrite Hk. set_solver.
      * rewrite indexed_insert. unfold Indexed. rewrite Hk. set_solver.
    + case_bool_decide; rewrite ?indexed_delete, ?indexed_insert; naive_solver.
  - unfold Indexed. naive_solver.
Qed.

Lemma insertEntry_nonempty id s :
  (∀ key members, st_responseEntityIndex s !! key = Some members → members ≠ ∅) →
  ∀ key members, st_responseEntityIndex (insertResponseEntityEntry id s) !! key = Some members →
  members ≠ ∅.
Proof.
  intros Hs key members. unfold insertResponseEntityEntry.
  destruct (_ ≫= _) as [[key' c]|]; [|by apply Hs]. cbn.
  rewrite lookup_insert_Some. intros [[_ <-]|[_ Hk]]; [set_solver|by eapply Hs].
Qed.

Lemma removeEntry_nonempty r s :
  (∀ key members, st_responseEntityIndex s !! key = Some members → members ≠ ∅) →
  ∀ key members, st_responseEntityIndex (removeResponseEntityEntry r s) !! key = Some members →
  members ≠ ∅.
Proof.
  intros Hs key members. unfold removeResponseEntityEntry.
  destruct (responseEntityEntry r) as [[key' c]|]; [|by apply Hs].
  destruct (st_responseEntityIndex s !! key') as [members'|]; [|by apply Hs].
  case_bool_decide as Hempty; cbn.
  - rewrite lookup_delete_Some. intros [_ Hk]. by eapply Hs.
  - rewrite lookup_insert_Some. intros [[_ <-]|[_ Hk]]; [done|by eapply Hs].
Qed.

(** ** The invariant *)
Section invariant.
Context `{Layout} `{Environment}.

(** What the records, the body total and the index say of each other; it holds
    also while the order is being rebuilt. *)
Record CoreInv (s : RecordingStateInner) : Prop := {
  ci_records : ∀ id r, st_transactions s !! id = Some r → RecordOk id r;
  ci_bodies : st_totalBodyBytes s = total transactionBodyBytes (st_transactions s);
  ci_index : IndexOk s;
}.

(** The position of [a] before [b]; the counter stays at its maximum. *)
Definition before (a b : Z) : Prop := a < b ∨ (a = u64_max ∧ b = u64_max).

Record StateInv (s : RecordingStateInner) : Prop := {
  si_core : CoreInv s;
  si_nodup : NoDup (st_order s);
  si_order : ∀ id, id ∈ st_order s ↔ is_Some (st_transactions s !! id);
  si_sorted : StronglySorted before ((λ r, sequence r) <$> omap (st_transactions s !!.) (st_order s));
  si_next : ∀ id r, st_transactions s !! id = Some r → before (sequence r) (st_nextSequence s);
  si_next_max : st_nextSequence s ≤ u64_max;
  si_count : Z.of_nat (size (st_transactions s)) ≤ rm_maxTransactions (st_limits s);
  si_total : st_totalBodyBytes s ≤ rm_maxTotalBodyBytes (st_limits s);
  si_limit : rm_maxTotalBodyBytes (st_limits s) ≤ u64_max;
  si_body_limit : 0 ≤ rm_maxBodyBytes (st_limits s);
  si_cleared : st_directoryCleanupPending s = true → st_transactions s = ∅;
}.

Lemma core_ext s s' :
  CoreInv s → st_transactions s' = st_transactions s →
  st_responseEntityIndex s' = st_responseEntityIndex s →
  st_totalBodyBytes s' = st_totalBodyBytes s → CoreInv s'.
Proof.
  intros [Hr Hb [Hm Hn]] Htr Hi Ht. split; [by rewrite Htr|by rewrite Ht, Htr|].
  split; [|by rewrite Hi]. unfold Indexed. by rewrite Hi, Htr.
Qed.

Lemma state_ext s s' :
  StateInv s → st_transactions s' = st_transactions s →
  st_responseEntityIndex s' = st_responseEntityIndex s →
  st_totalBodyBytes s' = st_totalBodyBytes s → st_order s' = st_order s →
  st_nextSequence s' = st_nextSequence s → st_limits s' = st_limits s →
  (st_directoryCleanupPending s' = true → st_directoryCleanupPending s = true) → StateInv s'.
Proof.
  intros [Hc Hnd Ho Hs Hn Hm Hcnt Htot Hlim Hbl Hcl] Htr Hi Ht Hor Hnx Hl Hd.
  split; rewrite ?Htr, ?Hor, ?Ht, ?Hnx, ?Hl; try done; [by eapply core_ext|].
  intros ?%Hd. by apply Hcl.
Qed.

Lemma core_body_nonneg s id r : CoreInv s → st_transactions s !! id = Some r → 0 ≤ transactionBodyBytes r.
Proof. intros Hs Hr. by eapply record_bodies_nonneg, ci_records. Qed.

Lemma core_body_le s id r :
  CoreInv s → st_transactions s !! id = Some r → transactionBodyBytes r ≤ st_totalBodyBytes s.
Proof.
  intros Hs Hr. rewrite (ci_bodies s) by done. eapply total_lookup_le; [|done].
  intros. by eapply core_body_nonneg.
Qed.

Lemma core_total_nonneg s : CoreInv s → 0 ≤ st_totalBodyBytes s.
Proof.
  intros Hs. rewrite (ci_bodies s) by done. apply total_nonneg. intros. by eapply core_body_nonneg.
Qed.

(** The fields that removing and replacing transactions leaves alone. *)
Definition frame (s : RecordingStateInner) :=
  (st_recordingSessionId s, st_nextSequence s, st_limits s, st_metadataMemoryBudgetBytes s,
   st_cleanupQueue s, st_directoryCleanupPending s, st_closed s).

(** All the bodies the records hold. *)
Definition liveBodies (s : RecordingStateInner) : list BodyRef :=
  (map_to_list (st_transactions s)).*2 ≫= intoBodyReferences.

Lemma live_elem s b :
  b ∈ liveBodies s ↔ ∃ id r, st_transactions s !! id = Some r ∧ b ∈ intoBodyReferences r.
Proof.
  unfold liveBodies. rewrite list_elem_of_bind. split.
  - intros (r & Hb & Hr). apply list_elem_of_fmap in Hr as ([id r'] & -> & Hr).
    apply elem_of_map_to_list in Hr. eauto.
  - intros (id & r & Hr & Hb). exists r. split; [done|]. apply list_elem_of_fmap.
    exists (id, r). split; [done|]. by apply elem_of_map_to_list.
Qed.

Lemma live_delete s s' id r :
  st_transactions s !! id = Some r → st_transactions s' = delete id (st_transactions s) →
  liveBodies s ≡ₚ intoBodyReferences r ++ liveBodies s'.
Proof.
  intros Hr Hs'. unfold liveBodies. rewrite Hs'. rewrite <-(insert_delete_id _ _ _ Hr) at 1.
  rewrite map_to_list_insert by apply lookup_delete_eq. done.
Qed.

Lemma live_insert s s' id r r' :
  st_transactions s !! id = Some r → st_transactions s' = <[id := r']> (st_transactions s) →
  ∃ rest, liveBodies s ≡ₚ intoBodyReferences r ++ rest ∧ liveBodies s' ≡ₚ intoBodyReferences r' ++ rest.
Proof.
  intros Hr Hs'. exists (liveBodies (set_transactions (delete id (st_transactions s)) s)).
  split; [by eapply live_delete|]. unfold liveBodies. rewrite Hs', <-insert_delete_eq.
  rewrite map_to_list_insert by apply lookup_delete_eq. done.
Qed.
End invariant.

(** * Evictions of the recording session

    The loops that plan an eviction pick finished transactions in the order they were
    begun and stop as soon as enough is freed; removing the planned transactions keeps
    the invariant of the state and hands over exactly their bodies. *)

Section eviction.
Context `{Layout} `{Environment}.

(** ** Removal *)
(** [s'] is [s] without the transactions [ids], whose bodies are [bodies]. *)
Record Removal (ids : list chars) (s s' : RecordingStateInner) (bodies : list BodyRef) : Prop := {
  rm_core : CoreInv s';
  rm_lookup : ∀ id, st_transactions s' !! id =
    if decide (id ∈ ids) then None else st_transactions s !! id;
  rm_frame : frame s' = frame s;
  rm_bodies : liveBodies s ≡ₚ bodies ++ liveBodies s';
  rm_total : st_totalBodyBytes s = sum_by bodyStoredBytes bodies + st_totalBodyBytes s';
}.

Lemma index_removed s s' id r :
  CoreInv s → st_transactions s !! id = Some r →
  st_transactions s' = delete id (st_transactions s) →
  (∀ key member, Indexed s' key member ↔ Indexed s key member ∧
     ¬ (entryKey r = Some key ∧ member = (sequence r, text (ts_transactionId (tr_summary r))))) →
  (∀ key members, st_responseEntityIndex s' !! key = Some members → members ≠ ∅) →
  IndexOk s'.
Proof.
  intros Hs Hr Htr Hindexed Hempty. split; [|done]. intros key member.
  rewrite (ro_key _ _ (ci_records _ Hs _ _ Hr)) in Hindexed.
  rewrite Hindexed, (io_members _ (ci_index _ Hs)), Htr. split.
  - intros [(id' & r' & Hr' & Hkey & ->) Hnot]. exists id', r'.
    rewrite lookup_delete_ne; [done|]. intros <-. rewrite Hr in Hr'. injection Hr' as ->.
    by apply Hnot.
  - intros (id' & r' & [Hne Hr']%lookup_delete_Some & Hkey & ->). split; [eauto|].
    intros [_ [= _ ->]]. done.
Qed.

Lemma sum_bodies r : sum_by bodyStoredBytes (intoBodyReferences r) = transactionBodyBytes r.
Proof. done. Qed.

Lemma removeTransaction_removal s removedAny removed id :
  CoreInv s →
  ∃ s' removedAny' bodies,
    removeTransaction (s, removedAny, removed) id = (s', removedAny', removed ++ bodies) ∧
    Removal [id] s s' bodies ∧ st_order s' = st_order s ∧
    st_collectionVersion s' = st_collectionVersion s ∧
    (removedAny' = false → removedAny = false ∧ st_transactions s' = st_transactions s).
Proof.
  intros Hs. cbn. destruct (st_transactions s !! id) as [r|] eqn:Hr.
  - set (s1 := set_transactions (delete id (st_transactions s)) s).
    destruct (removeEntry_frame r s1) as [i Hi]. rewrite Hi.
    pose proof (core_body_le _ _ _ Hs Hr).
    eexists _, _, _. split; [done|]. split_and!; try done. split; cbn; [split; cbn| | | |].
    + intros id' r' [_ Hr']%lookup_delete_Some. by apply (ci_records _ Hs).
    + rewrite (total_delete_Some _ _ _ _ Hr), <-(ci_bodies _ Hs). unfold saturating_sub. lia.
    + eapply (index_removed s _ id r Hs Hr); [done| |]; cbn.
      * intros key member. pose proof (removeEntry_indexed r s1 key member) as Hx.
        rewrite Hi in Hx. exact Hx.
      * change i with (st_responseEntityIndex (set_responseEntityIndex i s1)). rewrite <-Hi.
        apply removeEntry_nonempty. apply (io_nonempty _ (ci_index _ Hs)).
    + intros id'. case_decide as Hin; [apply list_elem_of_singleton in Hin as ->; apply lookup_delete_eq|].
      apply lookup_delete_ne. set_solver.
    + done.
    + by apply (live_delete s _ id r).
    + rewrite ?sum_bodies. unfold saturating_sub. lia.
  - exists s, removedAny, []. rewrite app_nil_r. split_and!; try done.
    split; try done. intros id'. case_decide as Hin; [|done]. by apply list_elem_of_singleton in Hin as ->.
Qed.

Lemma removal_refl s : CoreInv s → Removal [] s s [].
Proof. intros Hs. split; try done. Qed.

Lemma removal_trans ids1 ids2 s1 s2 s3 bodies1 bodies2 :
  Removal ids1 s1 s2 bodies1 → Removal ids2 s2 s3 bodies2 →
  Removal (ids1 ++ ids2) s1 s3 (bodies1 ++ bodies2).
Proof.
  intros [_ Hl1 Hf1 Hb1 Ht1] [Hc2 Hl2 Hf2 Hb2 Ht2]. split; [done| |congruence| |].
  - intros id. rewrite Hl2, Hl1. repeat case_decide; set_solver.
  - by rewrite Hb1, Hb2, app_assoc.
  - rewrite Ht1, Ht2, sum_by_app. lia.
Qed.

Lemma removeLoop_removal ids s removedAny removed :
  CoreInv s →
  ∃ s' removedAny' bodies,
    fold_left removeTransaction ids (s, removedAny, removed) = (s', removedAny', removed ++ bodies) ∧
    Removal ids s s' bodies ∧ st_order s' = st_order s ∧
    st_collectionVersion s' = st_collectionVersion s ∧
    (removedAny' = false → removedAny = false ∧ st_transactions s' = st_transactions s).
Proof.
  revert s removedAny removed. induction ids as [|id ids IH]; intros s removedAny removed Hs.
  { exists s, removedAny, []. rewrite app_nil_r. split_and!; [done|by apply removal_refl|done..]. }
  destruct (removeTransaction_removal s removedAny removed id Hs)
    as (s1 & any1 & bodies1 & Heq & Hrm1 & Ho1 & Hv1 & Hany1).
  cbn [fold_left]. rewrite Heq.
  destruct (IH s1 any1 (removed ++ bodies1) (rm_core _ _ _ _ Hrm1))
    as (s2 & any2 & bodies2 & Heq2 & Hrm2 & Ho2 & Hv2 & Hany2).
  exists s2, any2, (bodies1 ++ bodies2). rewrite Heq2, app_assoc. split_and!; [done| |congruence..|].
  - by apply (removal_trans [id] ids s s1 s2).
  - intros [-> Htr2]%Hany2. destruct (Hany1 eq_refl) as [-> Htr1]. split; congruence.
Qed.


Lemma sorted_filter_omap {A B C} (P : A → Prop) `{∀ x, Decision (P x)} (f g : A → option B) (h : B → C)
    (R : C → C → Prop) l :
  (∀ x, f x = if decide (P x) then g x else None) →
  StronglySorted R (h <$> omap g l) → StronglySorted R (h <$> omap f (filter P l)).
Proof.
  intros Hf. induction l as [|x l IH]; [constructor|]. intros Hs. cbn in Hs.
  rewrite filter_cons.
  assert (Hl : StronglySorted R (h <$> omap g l)).
  { destruct (g x); [by apply StronglySorted_inv in Hs as [? _]|done]. }
  case_decide as Hx; [|by apply IH]. cbn. rewrite Hf, decide_True by done.
  destruct (g x) as [y|]; [|by apply IH]. cbn in *.
  apply StronglySorted_inv in Hs as [_ Hall]. constructor; [by apply IH|].
  rewrite Forall_forall in *. intros z Hz. apply Hall. revert Hz.
  rewrite !list_elem_of_fmap. intros (w & -> & Hw). exists w. split; [done|].
  apply list_elem_of_omap in Hw as (v & [Hv Hin]%list_elem_of_filter & Hw).
  apply list_elem_of_omap. exists v. by rewrite Hf, decide_True in Hw by done.
Qed.

Lemma removal_freed ids s s' bodies :
  CoreInv s → Removal ids s s' bodies → st_totalBodyBytes s' ≤ st_totalBodyBytes s.
Proof.
  intros Hc [_ _ _ Hb Ht]. rewrite Ht.
  assert (0 ≤ sum_by bodyStoredBytes bodies); [|lia].
  apply sum_by_nonneg. intros b Hin.
  assert (Hlive : b ∈ liveBodies s) by (rewrite Hb; set_solver).
  apply live_elem in Hlive as (id & r & Hr & Hb'). by eapply ro_bodies, Hb'; apply Hc.
Qed.

Lemma removal_state ids s s' bodies :
  StateInv s → Removal ids s s' bodies → st_order s' = filter (.∉ ids) (st_order s) → StateInv s'.
Proof.
  intros [Hc Hnd Hmem Hsort Hnext Hmax Hcount Htot Hlim Hbl Hclr] Hrm Hord.
  pose proof (removal_freed _ _ _ _ Hc Hrm).
  destruct Hrm as [Hc' Hl Hf _ _]. unfold frame in Hf. injection Hf as _ Hn Hli _ _ Hd _.
  assert (Hsub : st_transactions s' ⊆ st_transactions s).
  { apply map_subseteq_spec. intros id r. rewrite Hl. by case_decide. }
  split; rewrite ?Hn, ?Hli, ?Hord; try done.
  - by apply NoDup_filter.
  - intros id. rewrite list_elem_of_filter, Hmem, Hl. case_decide as Hin; [|tauto].
    split; [by intros [? _]|]. by intros [? ?].
  - eapply sorted_filter_omap; [|exact Hsort]. intros id. rewrite Hl.
    by repeat case_decide.
  - intros id r Hr. eapply Hnext. by eapply lookup_weaken.
  - pose proof (map_subseteq_size _ _ Hsub). lia.
  - lia.
  - rewrite Hd. intros Hd'. apply map_empty. intros id. rewrite Hl. case_decide; [done|].
    by rewrite Hclr.
Qed.

(** Removal keeps the order of what stays, and a version that does not move means
    that nothing was removed. *)
Lemma removeTransactions_removal ids s :
  StateInv s →
  ∃ s' bodies, removeTransactions ids s = (s', bodies) ∧ Removal ids s s' bodies ∧ StateInv s' ∧
    st_order s' = filter (.∉ ids) (st_order s) ∧
    (st_collectionVersion s' = st_collectionVersion s ∧ st_transactions s' = st_transactions s ∨
     st_collectionVersion s' = saturating_add (st_collectionVersion s) 1).
Proof.
  intros Hs. destruct ids as [|id0 ids'].
  { exists s, []. split_and!; try done; [by apply removal_refl, Hs|..|by left].
    symmetry. apply filter_all, Forall_forall. set_solver. }
  set (ids := id0 :: ids'). unfold removeTransactions. fold ids. cbv beta iota.
  set (s0 := set_order (filter (λ id, id ∉ ids) (st_order s)) s).
  destruct (removeLoop_removal ids s0 false []) as (s1 & any & bodies & Heq & Hrm & Ho & Hv & Hany).
  { apply (core_ext s); [apply Hs|done..]. }
  rewrite Heq. cbn [app]. eexists _, _. split; [done|].
  assert (Hrm' : Removal ids s (if any then markCollectionChanged s1 else s1) bodies).
  { destruct Hrm as [Hc Hl Hf Hb Ht]. destruct any; split; try done. by apply (core_ext s1). }
  assert (Ho' : st_order (if any then markCollectionChanged s1 else s1) = filter (.∉ ids) (st_order s))
    by by destruct any.
  split_and!; [done|by eapply removal_state|done|].
  destruct any; [right; cbn; by rewrite Hv|]. destruct (Hany eq_refl) as [_ Htr]. by left.
Qed.
End eviction.
