(* ===== verification/RecordingWorld.v ===== *)
(** * The recording session and its files

    [World] joins the invariant of the state under the lock with the ownership of the
    spill files; [Evolves] says what a method may do to the transactions that are
    already there.  Both are kept by every step of every method, refused or not. *)

From S2P Require Import Prelude NetAddress Stateful Text Location CaptureModel MetadataBudget BodyStore BodyStoreSpec BodyOwnership RecordingState RecordingBudget Recording RecordingInvariant.

(** What a method is entitled to: the transactions it may finish, the bodies it may
    replace, the open files it may write. *)
Record Scope := {
  sc_finish : chars → Prop;
  sc_store : chars → MessageSide → Prop;
  sc_write : nat → Prop
}.
Definition Quiet : Scope :=
  {| sc_finish := Nowhere; sc_store := λ _, Nowhere; sc_write := Nowhere |}.
Definition Finishing (id : chars) : Scope :=
  {| sc_finish := eq id; sc_store := λ _, Nowhere; sc_write := Nowhere |}.
Definition Storing (id : chars) (sides : MessageSide → Prop) : Scope :=
  {| sc_finish := Nowhere; sc_store := λ id' side, id' = id ∧ sides side; sc_write := Nowhere |}.
Definition Clearing : Scope :=
  {| sc_finish := Everywhere; sc_store := λ _, Nowhere; sc_write := Nowhere |}.
Definition Writing (i : nat) : Scope :=
  {| sc_finish := Nowhere; sc_store := λ _, Nowhere; sc_write := eq i |}.

(** What never changes of a transaction, and what does not change once it is finished:
    all but the notes, tags and tools the user edits and the packet list. *)
Definition identity (r : TransactionRecord) :=
  (text (ts_transactionId (tr_summary r)), sequence r, ts_protocol (tr_summary r)).
Definition facts (r : TransactionRecord) :=
  (set_notes (tight []) (set_tags (vec_of []) (set_appliedTools (vec_of []) (clone_summary (tr_summary r)))),
   tr_requestHeaders r, tr_responseHeaders r).

Record Continues (c : Scope) (id : chars) (b b' : BodyStore) (r r' : TransactionRecord) : Prop := {
  co_identity : identity r' = identity r;
  co_facts : isPending r = false → facts r' = facts r;
  co_bodies : ∀ side body, isPending r = false ∨ ¬ sc_store c id side → record_body r side = Some body →
    record_body r' side = Some body ∧ contentOf b' body = contentOf b body;
}.

Section world.
Context `{Layout} `{Environment} {Hok : EnvironmentOk}.

Definition alive (s : RecordingStateInner) (id : chars) : Prop := is_Some (st_transactions s !! id).

Record World (hs : list Held) (s : RecordingSession) : Prop := {
  w_state : StateInv (ss_state s);
  w_version : is_u64 (st_collectionVersion (ss_state s));
  w_ids : ∀ id, alive (ss_state s) id → ∃ n, (n < bs_uuids (ss_bodyStore s))%nat ∧ id = new_v4 n;
  w_owners : ∀ h, h ∈ hs → ∃ n, (n < bs_uuids (ss_bodyStore s))%nat ∧ heldOwner h = new_v4 n;
  w_disk : DiskInv (liveBodies (ss_state s)) (st_cleanupQueue (ss_state s)) (alive (ss_state s)) hs
             (ss_bodyStore s);
}.

Definition fixed (s : RecordingStateInner) :=
  (st_recordingSessionId s, st_limits s, st_metadataMemoryBudgetBytes s).

Record Evolves (c : Scope) (s s' : RecordingSession) : Prop := {
  ev_fixed : fixed (ss_state s') = fixed (ss_state s);
  ev_uuids : (bs_uuids (ss_bodyStore s) ≤ bs_uuids (ss_bodyStore s'))%nat;
  ev_version : st_collectionVersion (ss_state s) ≤ st_collectionVersion (ss_state s');
  ev_order :
    st_collectionVersion (ss_state s') = st_collectionVersion (ss_state s) →
    st_collectionVersion (ss_state s) < u64_max →
    ∃ added, st_order (ss_state s') = st_order (ss_state s) ++ added;
  ev_new : ∀ id, alive (ss_state s') id → alive (ss_state s) id ∨
    ∃ n, (bs_uuids (ss_bodyStore s) ≤ n)%nat ∧ id = new_v4 n;
  ev_pending : ∀ id r, st_transactions (ss_state s) !! id = Some r → isPending r = true →
    ¬ sc_finish c id → ∃ r', st_transactions (ss_state s') !! id = Some r' ∧ isPending r' = true;
  ev_continues : ∀ id r r', st_transactions (ss_state s) !! id = Some r →
    st_transactions (ss_state s') !! id = Some r' →
    Continues c id (ss_bodyStore s) (ss_bodyStore s') r r';
  ev_length : (length (dk_inodes (bs_disk (ss_bodyStore s))) ≤
               length (dk_inodes (bs_disk (ss_bodyStore s'))))%nat;
  ev_files : ∀ i, (i < length (dk_inodes (bs_disk (ss_bodyStore s))))%nat → ¬ sc_write c i →
    dk_inodes (bs_disk (ss_bodyStore s')) !! i = dk_inodes (bs_disk (ss_bodyStore s)) !! i;
}.

Lemma continues_refl c id b r : Continues c id b b r r.
Proof. by split. Qed.

Lemma facts_pending r r' : facts r' = facts r → isPending r' = isPending r.
Proof.
  intros Hf. apply (f_equal (λ f, ts_status f.1.1)) in Hf. cbn in Hf. unfold isPending. by rewrite Hf.
Qed.

Lemma continues_trans c id b1 b2 b3 r1 r2 r3 :
  Continues c id b1 b2 r1 r2 → Continues c id b2 b3 r2 r3 → Continues c id b1 b3 r1 r3.
Proof.
  intros [Hi1 Hf1 Hb1] [Hi2 Hf2 Hb2].
  assert (Hp : isPending r1 = false → isPending r2 = false).
  { intros Hp. by rewrite (facts_pending _ _ (Hf1 Hp)). }
  split; [congruence| |].
  - intros Hr. rewrite Hf2, Hf1; auto.
  - intros side body Hside Hb. destruct (Hb1 _ _ Hside Hb) as [Hb' Hc1].
    destruct (Hb2 side body) as [Hb'' Hc2]; [naive_solver|done|]. split; congruence.
Qed.

Lemma world_evolves_refl c s : Evolves c s s.
Proof.
  split; auto; try done.
  - intros _ _. exists []. by rewrite app_nil_r.
  - intros id r Hr Hp _. eauto.
  - intros id r r' Hr Hr'. assert (r = r') as -> by congruence. apply continues_refl.
Qed.

Lemma world_evolves_trans c hs s1 s2 s3 :
  World hs s1 → Evolves c s1 s2 → Evolves c s2 s3 → Evolves c s1 s3.
Proof.
  intros Hw [Hf1 Hu1 Hv1 Ho1 Hn1 Hp1 Hc1 Hl1 Hi1] [Hf2 Hu2 Hv2 Ho2 Hn2 Hp2 Hc2 Hl2 Hi2].
  split; [congruence|lia|lia| | | | |lia|].
  - intros Hv Hmax. destruct Ho1 as [a1 Ha1]; [lia..|]. destruct Ho2 as [a2 Ha2]; [lia..|].
    exists (a1 ++ a2). by rewrite Ha2, Ha1, app_assoc.
  - intros id [Hid|(n & Hn & ->)]%Hn2.
    + apply Hn1 in Hid as [|(n & Hn & ->)]; eauto.
    + right. exists n. split; [lia|done].
  - intros id r Hr Hp Hno. destruct (Hp1 _ _ Hr Hp Hno) as (r2 & Hr2 & Hp'). eauto.
  - intros id r r' Hr Hr'. destruct (st_transactions (ss_state s2) !! id) as [r2|] eqn:Hr2.
    + eapply continues_trans; eauto.
    + exfalso. destruct (Hn2 id) as [[? ?]|(n & Hn & Hid)]; [by eexists|congruence|].
      destruct (w_ids _ _ Hw id) as (m & Hm & Hid'); [by eexists|].
      rewrite Hid in Hid'. apply new_v4_inj in Hid'. lia.
  - intros i Hi Hno. rewrite Hi2, Hi1; [done|done..|lia|done].
Qed.

(** ** Steps of the store *)
Lemma live_content hs s id r side body T I b :
  World hs s → StoreFrame T I (ss_bodyStore s) b →
  (∀ p, T p → p ∉ spills (liveBodies (ss_state s))) → (∀ i, I i → opens hs i) →
  st_transactions (ss_state s) !! id = Some r → record_body r side = Some body →
  contentOf b body = contentOf (ss_bodyStore s) body.
Proof.
  intros Hw Hf HT HI Hr Hb.
  assert (Hlive : body ∈ liveBodies (ss_state s)).
  { apply live_elem. exists id, r. split; [done|]. unfold intoBodyReferences.
    apply elem_of_app. destruct side; cbn in Hb; [left|right]; by apply elem_of_option_list. }
  destruct (di_live _ _ _ _ _ (w_disk _ _ Hw) _ Hlive) as (bytes & Hholds & _).
  rewrite (holds_content _ _ _ _ Hholds). eapply holds_content, (holds_frame _ _ _ _ b); [done| |done|done].
  intros p Hp Htp. apply (HT _ Htp). apply spills_elem. eauto.
Qed.

Lemma evolves_store c hs s b T I :
  World hs s → StoreFrame T I (ss_bodyStore s) b →
  (∀ p, T p → p ∉ spills (liveBodies (ss_state s))) →
  (∀ i, I i → opens hs i ∧ sc_write c i) → Evolves c s (set_bodyStore b s).
Proof.
  intros Hw Hf HT HI. split; cbn; auto; try done.
  - by eapply sf_uuids.
  - intros _ _. exists []. by rewrite app_nil_r.
  - intros id r Hr Hp _. eauto.
  - intros id r r' Hr Hr'. assert (r = r') as -> by congruence. split; [done..|].
    intros side body _ Hb. split; [done|]. eapply live_content; eauto. intros i Hi. by apply HI.
  - eapply df_length, sf_disk; done.
  - intros i Hi Hno. eapply df_inodes; [by eapply sf_disk|done|]. intros Hx. by apply Hno, HI.
Qed.

(** The session with another store. *)
Lemma world_store hs hs' s b :
  World hs s → (bs_uuids (ss_bodyStore s) ≤ bs_uuids b)%nat →
  (∀ h', h' ∈ hs' → ∃ h, h ∈ hs ∧ heldOwner h' = heldOwner h) →
  DiskInv (liveBodies (ss_state s)) (st_cleanupQueue (ss_state s)) (alive (ss_state s)) hs' b →
  World hs' (set_bodyStore b s).
Proof.
  intros [Hs Hv Hi Hown Hd] Hu Hhs Hd'. split; cbn; auto.
  - intros id (n & Hn & ->)%Hi. exists n. split; [lia|done].
  - intros h' (h & (n & Hn & Heq)%Hown & ->)%Hhs. exists n. split; [lia|done].
Qed.

(** ** Steps of the state *)
Lemma evolves_state c s st :
  fixed st = fixed (ss_state s) →
  st_collectionVersion (ss_state s) ≤ st_collectionVersion st →
  (st_collectionVersion st = st_collectionVersion (ss_state s) →
   st_collectionVersion (ss_state s) < u64_max → ∃ added, st_order st = st_order (ss_state s) ++ added) →
  (∀ id, alive st id → alive (ss_state s) id ∨
     ∃ n, (bs_uuids (ss_bodyStore s) ≤ n)%nat ∧ id = new_v4 n) →
  (∀ id r, st_transactions (ss_state s) !! id = Some r → isPending r = true → ¬ sc_finish c id →
     ∃ r', st_transactions st !! id = Some r' ∧ isPending r' = true) →
  (∀ id r r', st_transactions (ss_state s) !! id = Some r → st_transactions st !! id = Some r' →
     Continues c id (ss_bodyStore s) (ss_bodyStore s) r r') →
  Evolves c s (set_inner st s).
Proof. intros. split; cbn; auto. Qed.

(** A change that leaves the transactions and the order alone. *)
Lemma evolves_quiet c s st :
  fixed st = fixed (ss_state s) →
  st_collectionVersion (ss_state s) ≤ st_collectionVersion st →
  st_transactions st = st_transactions (ss_state s) → st_order st = st_order (ss_state s) →
  Evolves c s (set_inner st s).
Proof.
  intros Hf Hv Htr Ho. apply evolves_state; unfold alive; rewrite ?Htr, ?Ho; auto.
  - intros _ _. exists []. by rewrite app_nil_r.
  - intros id r Hr Hp _. eauto.
  - intros id r r' Hr Hr'. assert (r = r') as -> by congruence. apply continues_refl.
Qed.

Lemma world_quiet hs s st :
  World hs s → st_transactions st = st_transactions (ss_state s) →
  st_responseEntityIndex st = st_responseEntityIndex (ss_state s) →
  st_totalBodyBytes st = st_totalBodyBytes (ss_state s) → st_order st = st_order (ss_state s) →
  st_nextSequence st = st_nextSequence (ss_state s) → st_limits st = st_limits (ss_state s) →
  st_cleanupQueue st = st_cleanupQueue (ss_state s) →
  (st_directoryCleanupPending st = true → st_directoryCleanupPending (ss_state s) = true) →
  is_u64 (st_collectionVersion st) → World hs (set_inner st s).
Proof.
  intros [Hs Hv Hi Hown Hd] Htr Hix Ht Ho Hn Hl Hq Hp Hver. split; cbn; auto.
  - by eapply state_ext.
  - unfold alive. by rewrite Htr.
  - rewrite Hq. eapply disk_permute; [exact Hd| |].
    + unfold liveBodies. by rewrite Htr.
    + unfold alive. by rewrite Htr.
Qed.
End world.
