(* ===== verification/RecordingCleanup.v ===== *)
(** * Cleaning up behind the recording session

    The cleanup queue is emptied body by body and stops at the first file that cannot
    be removed; what was removed is forgotten, what was not stays queued.  Afterwards
    nothing is left that nobody owns. *)

From S2P Require Import Prelude NetAddress Stateful Text Location CaptureModel MetadataBudget BodyStore BodyStoreSpec BodyOwnership RecordingState RecordingBudget Recording RecordingInvariant RecordingWorld.

(** Everything but the cleanup queue and the metadata total. *)
Definition records (s : RecordingStateInner) :=
  (st_transactions s, st_order s, st_responseEntityIndex s, st_totalBodyBytes s, st_nextSequence s,
   st_collectionVersion s, fixed s, st_closed s, st_recordingState s, st_ignoreLocations s,
   st_recordTunnelMetadata s).

Lemma records_transactions s s' : records s = records s' → st_transactions s = st_transactions s'.
Proof. unfold records. by intros [= ? _]. Qed.

Lemma records_sequence s s' : records s = records s' → st_nextSequence s = st_nextSequence s'.
Proof. unfold records. by intros [= _ _ _ _ ? _]. Qed.

Section cleanup.
Context `{Layout} `{Environment} {Hok : EnvironmentOk}.

Record Keeps (hs : list Held) (c : Scope) (s s' : RecordingSession) : Prop := {
  kp_world : World hs s';
  kp_evolves : Evolves c s s';
}.

Lemma keeps_refl hs c s : World hs s → Keeps hs c s s.
Proof. split; [done|apply world_evolves_refl]. Qed.

Lemma store_keeps_trans hs c s1 s2 s3 :
  World hs s1 → Keeps hs c s1 s2 → Keeps hs c s2 s3 → Keeps hs c s1 s3.
Proof. intros Hw [_ He1] [Hw3 He2]. split; [done|by eapply world_evolves_trans]. Qed.

(** A step that is quiet is allowed in every scope. *)
Lemma evolves_mono (c c' : Scope) s s' :
  (∀ id, sc_finish c id → sc_finish c' id) → (∀ id side, sc_store c id side → sc_store c' id side) →
  (∀ i, sc_write c i → sc_write c' i) → Evolves c s s' → Evolves c' s s'.
Proof.
  intros Hfi Hst Hwr [Hf Hu Hv Ho Hn Hp Hc Hl Hi]. split; auto.
  - intros id r Hr Hpe Hno. eapply Hp; eauto.
  - intros id r r' Hr Hr'. destruct (Hc _ _ _ Hr Hr') as [H1 H2 H3]. split; [done..|].
    intros side body Hside. apply H3. naive_solver.
Qed.

Lemma quiet_keeps hs c s s' : Keeps hs Quiet s s' → Keeps hs c s s'.
Proof. intros [Hw He]. split; [done|]. eapply evolves_mono, He; by intros ?. Qed.

(** Sequencing: the two parts keep the world, and so does the whole. *)
Lemma keeps_bind {A B} hs c s (m : onSession A) (k : A → onSession B)
    (P : A → RecordingSession → Prop) (R : B → RecordingSession → Prop) :
  World hs s →
  Runs m s (λ a s1, Keeps hs c s s1 ∧ P a s1) (λ _ s1, Keeps hs c s s1) →
  (∀ a s1, World hs s1 → Evolves c s s1 → P a s1 →
     Runs (k a) s1 (λ b s2, Keeps hs c s1 s2 ∧ R b s2) (λ _ s2, Keeps hs c s1 s2)) →
  Runs (m ≫= k) s (λ b s2, Keeps hs c s s2 ∧ R b s2) (λ _ s2, Keeps hs c s s2).
Proof.
  intros Hw Hm Hk. apply runs_bind. eapply runs_mono, Hm; [|done]. cbv beta.
  intros a s1 [[Hw1 He1] Ha]. eapply runs_mono, Hk; [..|done|done|done]; cbv beta.
  - intros b s2 [[Hw2 He2] Hb]. split; [|done]. split; [done|by eapply world_evolves_trans].
  - intros e s2 [Hw2 He2]. split; [done|by eapply world_evolves_trans].
Qed.

(** ** Reading the state *)
Lemma with_state_runs {A} (f : RecordingStateInner → A) s (P : A → RecordingSession → Prop)
    (Q : CaptureError → RecordingSession → Prop) :
  P (f (ss_state s)) s → Runs (with_state f) s P Q.
Proof. done. Qed.

Lemma ensureOpen_runs s (P : unit → RecordingSession → Prop) (Q : CaptureError → RecordingSession → Prop) :
  (st_closed (ss_state s) = false → P tt s) → Q SessionClosed s → Runs ensureOpen s P Q.
Proof.
  intros HP HQ. apply runs_bind, with_state_runs. unfold id.
  destruct (st_closed (ss_state s)); [by apply runs_fail|by apply runs_ret, HP].
Qed.

Lemma existingRecord_runs id s (P : TransactionRecord → RecordingSession → Prop)
    (Q : CaptureError → RecordingSession → Prop) :
  (∀ r, st_transactions (ss_state s) !! id = Some r → P r s) → Q TransactionNotFound s →
  Runs (existingRecord id) s P Q.
Proof.
  intros HP HQ. apply runs_bind, with_state_runs. unfold Datatypes.id.
  destruct (st_transactions (ss_state s) !! id); [by apply runs_ret, HP|by apply runs_fail].
Qed.

Lemma existingRecord_found id r s (P : TransactionRecord → RecordingSession → Prop)
    (Q : CaptureError → RecordingSession → Prop) :
  st_transactions (ss_state s) !! id = Some r → P r s → Runs (existingRecord id) s P Q.
Proof.
  intros Hr HP. apply runs_bind, with_state_runs. unfold Datatypes.id. rewrite Hr. by apply runs_ret.
Qed.

Lemma pendingRecord_runs id s (P : TransactionRecord → RecordingSession → Prop)
    (Q : CaptureError → RecordingSession → Prop) :
  (∀ r, st_transactions (ss_state s) !! id = Some r → isPending r = true → P r s) →
  (∀ e, Q e s) → Runs (pendingRecord id) s P Q.
Proof.
  intros HP HQ. apply runs_bind, with_state_runs. unfold Datatypes.id.
  destruct (st_transactions (ss_state s) !! id) as [r|] eqn:Hr; [|by apply runs_fail].
  destruct (isPending r) eqn:Hp; cbn; [by apply HP|by apply HQ].
Qed.

Lemma update_runs f s (P : unit → RecordingSession → Prop) (Q : CaptureError → RecordingSession → Prop) :
  P tt (set_inner (f (ss_state s)) s) → Runs (update_state f) s P Q.
Proof. done. Qed.

Lemma on_store_runs {A} (m : onStore A) s (P : A → RecordingSession → Prop)
    (Q : CaptureError → RecordingSession → Prop) :
  Runs m (ss_bodyStore s) (λ a b, P a (set_bodyStore b s)) (λ e b, Q e (set_bodyStore b s)) →
  Runs (on_store m) s P Q.
Proof. unfold Runs, on_store. by destruct (m (ss_bodyStore s)) as [b []]. Qed.

Lemma notify_runs hs c s :
  World hs s →
  Runs notifyChanged s
    (λ _ s', Keeps hs c s s' ∧ ss_state s' = ss_state s ∧ ss_bodyStore s' = ss_bodyStore s)
    (λ _ _, False).
Proof.
  intros [Hs Hv Hi Hown Hd]. cbn. split_and!; [|done..]. split; [by split|].
  destruct (world_evolves_refl c s) as [H1 H2 H3 H4 H5 H6 H7 H8 H9]. by split.
Qed.

(** ** The queue *)
Definition Drained (hs : list Held) (s s' : RecordingSession) : Prop :=
  Keeps hs Quiet s s' ∧ records (ss_state s') = records (ss_state s).

Lemma drained_trans hs s1 s2 s3 :
  World hs s1 → Drained hs s1 s2 → Drained hs s2 s3 → Drained hs s1 s3.
Proof.
  intros Hw [Hk1 Hr1] [Hk2 Hr2]. split; [by eapply store_keeps_trans|congruence].
Qed.

Lemma untouched_frame T I b b' : Untouched b b' → StoreFrame T I b b'.
Proof. intros (d & Hd & ->). by apply set_disk_frame, frame_same. Qed.

Lemma disk_untouched live queue (alive alive' : chars → Prop) hs b b' :
  DiskInv live queue alive hs b → Untouched b b' → (∀ o, alive' o → alive o) →
  DiskInv live queue alive' hs b'.
Proof. intros Hd Hu Ha. eapply (disk_touch Nowhere); [done|by apply untouched_frame|done|by intros p []]. Qed.

Lemma drained_untouched hs s b :
  World hs s → Untouched (ss_bodyStore s) b → Drained hs s (set_bodyStore b s).
Proof.
  intros Hw Hu. split; [|done]. pose proof (untouched_frame Nowhere Nowhere _ _ Hu) as Hf. split.
  - eapply world_store; [done|by eapply sf_uuids|by eauto|]. by eapply disk_untouched; [apply Hw|..].
  - eapply evolves_store; [done..|by intros p []|by intros i []].
Qed.

Lemma world_pop hs s b st body :
  World hs s → st_cleanupQueue (ss_state s) = body :: st_cleanupQueue st →
  records st = records (ss_state s) →
  st_directoryCleanupPending st = st_directoryCleanupPending (ss_state s) →
  StoreFrame (λ p, spillPath body = Some p) Nowhere (ss_bodyStore s) b →
  (∀ p, spillPath body = Some p → dk_names (bs_disk b) !! p = None) →
  bs_orphanedSpills b = bs_orphanedSpills (ss_bodyStore s) →
  Drained hs s (set_inner st (set_bodyStore b s)).
Proof.
  intros Hw Hq Hr Hp Hf Hgone Ho. split; [|done]. pose proof Hr as Hrec.
  unfold records, fixed in Hr. injection Hr as Htr Hor Hix Ht Hn Hv Hid Hlim Hbud Hcl Hst Hig Htun.
  pose proof Hw as [Hs Hver Hi Hown Hd].
  assert (Hlive : liveBodies st = liveBodies (ss_state s)) by (unfold liveBodies; by rewrite Htr).
  split.
  - split; cbn.
    + eapply state_ext; [exact Hs|done..|]. by rewrite Hp.
    + by rewrite Hv.
    + unfold alive. rewrite Htr. intros id (n & Hlt & ->)%Hi. exists n. split; [|done].
      eapply Nat.lt_le_trans; [done|by eapply sf_uuids].
    + intros h (n & Hlt & Heq)%Hown. exists n. split; [|done].
      eapply Nat.lt_le_trans; [done|by eapply sf_uuids].
    + rewrite Hq in Hd. eapply disk_permute; [by eapply disk_remove| |].
      * by rewrite Hlive.
      * unfold alive. by rewrite Htr.
  - eapply (world_evolves_trans _ hs _ (set_bodyStore b s)); [done| |].
    + eapply evolves_store; [done..| |by intros i []].
      intros p Hbody Hin. pose proof (di_nodup _ _ _ _ _ Hd) as Hnd. unfold owned in Hnd.
      rewrite Hq in Hnd. apply NoDup_app in Hnd as (_ & Hdisj & _). apply (Hdisj p Hin).
      apply elem_of_app. left. apply spills_elem. exists body. split; [by left|done].
    + apply evolves_quiet; cbn; [|by rewrite Hv|done..]. unfold fixed. congruence.
Qed.

Lemma drainLoop_runs hs fuel s :
  World hs s → (length (st_cleanupQueue (ss_state s)) < fuel)%nat →
  Runs (drainLoop fuel) s
    (λ _ s', Drained hs s s' ∧ st_cleanupQueue (ss_state s') = [] ∧
       st_directoryCleanupPending (ss_state s') = st_directoryCleanupPending (ss_state s))
    (λ _ s', Drained hs s s').
Proof.
  revert s. induction fuel as [|fuel IH]; intros s Hw Hfuel; [lia|].
  cbn [drainLoop]. apply runs_bind, with_state_runs. unfold id.
  destruct (st_cleanupQueue (ss_state s)) as [|body queue] eqn:Hq.
  { apply runs_ret. split_and!; [|done..]. split; [by apply keeps_refl|done]. }
  apply runs_bind, on_store_runs.
  assert (Hclone : spillPath (clone_body body) = spillPath body).
  { unfold spillPath. cbn. by destruct (bf_storage body). }
  eapply runs_mono, remove_runs; rewrite ?Hclone.
  2: { intros e b Hb. by apply drained_untouched. }
  intros _ b (Hf & Hgone & Ho). apply runs_bind, update_runs.
  match goal with |- Runs _ (set_inner ?st ?s1) _ _ => set (st' := st) end.
  assert (Hd1 : Drained hs s (set_inner st' (set_bodyStore b s))).
  { eapply (world_pop hs s b st' body); cbn; try done. by rewrite Hq. }
  apply runs_bind. eapply runs_mono, (notify_runs hs Quiet); [|done|apply Hd1]. cbn beta.
  intros _ s2 (Hk2 & Hst2 & _).
  assert (Hd2 : Drained hs s s2).
  { eapply drained_trans; [done|exact Hd1|]. split; [done|]. by rewrite Hst2. }
  eapply runs_mono, IH; cbn beta.
  - intros _ s3 (Hd3 & Hq3 & Hp3). split_and!; [by eapply drained_trans|done|].
    rewrite Hp3, Hst2. done.
  - intros _ s3 Hd3. by eapply drained_trans.
  - apply Hk2.
  - rewrite Hst2. cbn. rewrite Hq. cbn in *. lia.
Qed.

Lemma drained_notify hs s0 s (P : RecordingSession → Prop) :
  World hs s0 → Drained hs s0 s →
  (∀ s', Drained hs s0 s' → ss_state s' = ss_state s → ss_bodyStore s' = ss_bodyStore s → P s') →
  Runs notifyChanged s (λ _ s', P s') (λ _ s', P s').
Proof.
  intros Hw Hd HP. pose proof Hd as [[Hw1 _] _].
  eapply runs_mono, (notify_runs hs Quiet); [|done|done]. cbn beta. intros _ s' (Hk & Hst & Hb).
  apply HP; [|done..]. eapply drained_trans; [done|exact Hd|]. split; [done|]. by rewrite Hst.
Qed.

Lemma drained_cleanup hs s b :
  World hs s → StoreFrame (.∈ bs_orphanedSpills (ss_bodyStore s)) Nowhere (ss_bodyStore s) b →
  (∀ p, p ∈ bs_orphanedSpills (ss_bodyStore s) → Gone b p) → Drained hs s (set_bodyStore b s).
Proof.
  intros Hw Hf Hg. split; [|done]. pose proof (w_disk _ _ Hw) as Hd. split.
  - eapply world_store; [done|by eapply sf_uuids|by eauto|]. eapply disk_touch; [done..|].
    intros p Hp. apply (di_orphans _ _ _ _ _ Hd) in Hp as Hp'. destruct Hp' as [Hno Hi].
    split_and!; [done| |by apply Hg]. eapply issued_mono, Hi. by eapply sf_uuids.
  - eapply evolves_store; [done..| |by intros i []].
    intros p Hp Hin. apply (di_orphans _ _ _ _ _ Hd) in Hp as [Hno _]. apply Hno.
    unfold owned. rewrite !elem_of_app. auto.
Qed.

(** Emptying the directory is safe when no transaction is left. *)
Lemma cleared_keeps hs s b :
  World hs s → st_transactions (ss_state s) = ∅ →
  StoreFrame Everywhere Nowhere (ss_bodyStore s) b →
  dk_names (bs_disk b) ⊆ dk_names (bs_disk (ss_bodyStore s)) →
  bs_orphanedSpills b = bs_orphanedSpills (ss_bodyStore s) ∨
    dk_names (bs_disk b) = ∅ ∧ bs_orphanedSpills b = ∅ →
  Drained hs s (set_bodyStore b s).
Proof.
  intros Hw Hempty Hf Hsub Ho. split; [|done].
  assert (Hlive : liveBodies (ss_state s) = []) by (unfold liveBodies; by rewrite Hempty).
  assert (Hdead : ∀ o, ¬ alive (ss_state s) o).
  { intros o [r Hr]. by rewrite Hempty in Hr. }
  split.
  - eapply world_store; [done|by eapply sf_uuids|by eauto|]. pose proof (w_disk _ _ Hw) as Hd.
    rewrite Hlive in *. by eapply disk_clear.
  - eapply evolves_store; [done..| |by intros i []]. intros p _. rewrite Hlive. by intros ?%elem_of_nil.
Qed.

(** Whatever the drain achieves, the records are as they were; when it succeeds the
    queue and the orphans are gone, and so are all files if a clear was pending. *)
Lemma drain_runs hs s :
  World hs s →
  Runs drainCleanupQueueLocked s
    (λ _ s', Drained hs s s' ∧ st_cleanupQueue (ss_state s') = [] ∧
       bs_orphanedSpills (ss_bodyStore s') = ∅ ∧ st_directoryCleanupPending (ss_state s') = false ∧
       (st_directoryCleanupPending (ss_state s) = true →
        dk_names (bs_disk (ss_bodyStore s')) = ∅))
    (λ _ s', Drained hs s s').
Proof.
  intros Hw. apply runs_bind, with_state_runs. apply runs_bind.
  eapply runs_mono, (drainLoop_runs hs); [|done|done|lia]. cbn beta. intros _ s1 (Hd1 & Hq1 & Hp1).
  pose proof Hd1 as [[Hw1 _] _].
  apply runs_bind, runs_gets. apply runs_bind, on_store_runs.
  eapply runs_mono, cleanup_runs; cbn beta.
  2: { intros e b [Hf Hg]. eapply drained_trans; [done..|]. by apply drained_cleanup. }
  intros _ b (Hf & Ho & Hg). set (s2 := set_bodyStore b s1).
  assert (Hd2 : Drained hs s s2) by (eapply drained_trans; [done..|]; by apply drained_cleanup).
  apply runs_bind, runs_gets. apply runs_bind.
  assert (Hnotify : Runs (if pendingOrphanCount (ss_bodyStore s2) =? pendingOrphanCount (ss_bodyStore s1)
      then mret tt else notifyChanged) s2
      (λ _ s3, Drained hs s s3 ∧ ss_state s3 = ss_state s2 ∧ ss_bodyStore s3 = ss_bodyStore s2)
      (λ (_ : CaptureError) s3, Drained hs s s3)).
  { case_if Heq; [by apply runs_ret|]. eapply runs_mono, (drained_notify hs s s2
      (λ s3, Drained hs s s3 ∧ ss_state s3 = ss_state s2 ∧ ss_bodyStore s3 = ss_bodyStore s2));
      naive_solver. }
  eapply runs_mono, Hnotify; [|done]. cbn beta. intros _ s3 (Hd3 & Hst3 & Hb3).
  apply runs_bind, with_state_runs. unfold id. rewrite Hst3. cbn [ss_state s2 set_bodyStore].
  pose proof Hd3 as [[Hw3 _] _]. rewrite Hp1.
  destruct (st_directoryCleanupPending (ss_state s)) eqn:Hpending.
  2: { apply runs_ret. rewrite Hst3, Hb3. cbn. rewrite Hp1. split_and!; done. }
  assert (Hempty : st_transactions (ss_state s3) = ∅).
  { apply (si_cleared _ (w_state _ _ Hw3)). rewrite Hst3. cbn. congruence. }
  apply runs_bind, on_store_runs. eapply runs_mono, clear_runs; cbn beta.
  3: { apply (di_directory _ _ _ _ _ (w_disk _ _ Hw3)). }
  2: { intros e b' (Hf' & Hsub & Ho'). eapply drained_trans; [done|exact Hd3|].
       apply cleared_keeps; auto. }
  intros _ b' (Hf' & Hn' & Ho'). set (s4 := set_bodyStore b' s3).
  assert (Hd4 : Drained hs s s4).
  { eapply drained_trans; [done|exact Hd3|]. apply cleared_keeps; auto. rewrite Hn'.
    apply map_empty_subseteq. }
  apply runs_bind, update_runs. set (s5 := set_inner _ s4). pose proof Hd4 as [[Hw4 _] _].
  assert (Hd5 : Drained hs s s5).
  { eapply drained_trans; [done|exact Hd4|]. split; [split|done].
    - apply world_quiet; try done. apply Hw4.
    - apply evolves_quiet; done. }
  eapply runs_mono, (drained_notify hs s s5 (λ s6, Drained hs s s6 ∧ ss_state s6 = ss_state s5 ∧
    ss_bodyStore s6 = ss_bodyStore s5)); [| |done|done|by auto]; cbn beta.
  - intros _ s6 (Hd6 & Hst6 & Hb6). rewrite Hst6, Hb6. cbn. rewrite Hst3. cbn. done.
  - naive_solver.
Qed.
End cleanup.
