(* ===== verification/RecordingReplace.v ===== *)
(** * Evicting and replacing within the session

    World-level lemmas for the two changes of the records: evicting finished
    transactions and replacing one record by another. *)

From S2P Require Import Prelude NetAddress Stateful Text Location CaptureModel MetadataBudget BodyStore BodyStoreSpec BodyOwnership RecordingState RecordingBudget Recording RecordingInvariant RecordingWorld RecordingCleanup.

Section replace.
Context `{Layout} `{Environment} {Hok : EnvironmentOk}.

(** ** Plans evict finished transactions *)
Definition finished (s : RecordingStateInner) (id : chars) : Prop :=
  ∃ r, st_transactions s !! id = Some r ∧ isPending r = false.

Lemma finishedRecord_spec s id r :
  finishedRecord s id = Some r ↔ st_transactions s !! id = Some r ∧ isPending r = false.
Proof.
  unfold finishedRecord. destruct (st_transactions s !! id) as [r'|]; cbn [mbind option_bind].
  - destruct (isPending r') eqn:Hp; split; [done|by intros [[= <-] ?]; congruence|..].
    + by intros [= <-].
    + by intros [[= ->] _].
  - split; [done|]. by intros [? _].
Qed.

Lemma admission_finished s bytes count metadata order id :
  id ∈ admissionLoop s bytes count metadata order → finished s id.
Proof.
  revert count metadata. induction order as [|x order IH]; cbn; intros count metadata Hid.
  { by apply elem_of_nil in Hid. }
  revert Hid. case_if Hroom; [by intros ?%elem_of_nil|]. intros Hid.
  destruct (finishedRecord s x) as [r|] eqn:Hr; [|by eapply IH].
  apply elem_of_cons in Hid as [->|Hid]; [|by eapply IH].
  apply finishedRecord_spec in Hr. by exists r.
Qed.

Lemma planAdmission_finished s bytes id : id ∈ planTransactionAdmissionEvictions s bytes → finished s id.
Proof. unfold planTransactionAdmissionEvictions. apply admission_finished. Qed.

Lemma limits_finished s count bodies order id : id ∈ limitsLoop s count bodies order → finished s id.
Proof.
  revert count bodies. induction order as [|x order IH]; cbn; intros count bodies Hid.
  { by apply elem_of_nil in Hid. }
  revert Hid. case_if Hroom; [by intros ?%elem_of_nil|]. intros Hid.
  destruct (finishedRecord s x) as [r|] eqn:Hr; [|by eapply IH].
  apply elem_of_cons in Hid as [->|Hid]; [|by eapply IH].
  apply finishedRecord_spec in Hr. by exists r.
Qed.

Lemma bodyBudget_finished s current required order id :
  id ∈ bodyBudgetLoop s current required order → finished s id ∧ id ≠ current.
Proof.
  revert required. induction order as [|x order IH]; cbn; intros required Hid.
  { by apply elem_of_nil in Hid. }
  revert Hid. case_bool_decide as Hcur; [by apply IH|]. intros Hid.
  destruct (finishedRecord s x) as [r|] eqn:Hr; [|by eapply IH].
  apply elem_of_cons in Hid as [->|Hid].
  - split; [|done]. apply finishedRecord_spec in Hr. by exists r.
  - revert Hid. case_if Hz; [by intros ?%elem_of_nil|]. apply IH.
Qed.

Lemma planBody_finished s current base desired id :
  id ∈ planBodyBudgetEvictions s current base desired → finished s id ∧ id ≠ current.
Proof.
  unfold planBodyBudgetEvictions. cbv zeta. case_if Hz; [by intros ?%elem_of_nil|].
  apply bodyBudget_finished.
Qed.

Lemma metadataBudget_finished s current required order id :
  id ∈ metadataBudgetLoop s current required order → finished s id ∧ id ≠ current.
Proof.
  revert required. induction order as [|x order IH]; cbn; intros required Hid.
  { by apply elem_of_nil in Hid. }
  revert Hid. case_if Hz; [by intros ?%elem_of_nil|]. intros Hid.
  revert Hid. case_bool_decide as Hcur; [by apply IH|]. intros Hid.
  destruct (finishedRecord s x) as [r|] eqn:Hr; [|by eapply IH].
  apply elem_of_cons in Hid as [->|Hid]; [|by eapply IH].
  split; [|done]. apply finishedRecord_spec in Hr. by exists r.
Qed.

Lemma planMetadata_finished s current increase id :
  id ∈ planMetadataBudgetEvictions s current increase → finished s id ∧ id ≠ current.
Proof. unfold planMetadataBudgetEvictions. apply metadataBudget_finished. Qed.

(** ** Evicting *)
(** [st] is what evicting [ids] from [s] and queueing their bodies makes of the state. *)
Record Evicted (ids : list chars) (s st : RecordingStateInner) (bodies : list BodyRef) : Prop := {
  et_state : StateInv st;
  et_lookup : ∀ id, st_transactions st !! id = if decide (id ∈ ids) then None else st_transactions s !! id;
  et_order : st_order st = filter (.∉ ids) (st_order s);
  et_version : st_collectionVersion st = st_collectionVersion s ∧ st_transactions st = st_transactions s ∨
    st_collectionVersion st = saturating_add (st_collectionVersion s) 1;
  et_live : liveBodies s ≡ₚ bodies ++ liveBodies st;
  et_queue : st_cleanupQueue st = st_cleanupQueue s;
  et_frame : frame st = frame s;
  et_total : st_totalBodyBytes s = sum_by bodyStoredBytes bodies + st_totalBodyBytes st;
}.

Lemma removeTransactions_evicted ids s :
  StateInv s →
  ∃ st bodies, removeTransactions ids s = (st, bodies) ∧ Evicted ids s st bodies.
Proof.
  intros Hs. destruct (removeTransactions_removal ids s Hs) as (st & bodies & Heq & Hrm & Hst & Ho & Hv).
  exists st, bodies. split; [done|]. destruct Hrm as [_ Hl Hf Hb Ht]. split; try done.
  unfold frame in Hf. by injection Hf.
Qed.

Lemma evicted_evolves c ids s st bodies s0 :
  StateInv s → Evicted ids s st bodies → (∀ id, id ∈ ids → finished s id) →
  ss_state s0 = s → is_u64 (st_collectionVersion s) → Evolves c s0 (set_inner st s0).
Proof.
  intros Hs [Hst Hl Ho Hv _ _ Hf _] Hfin <- Hmax. unfold frame in Hf. injection Hf as Hid Hn Hli Hbu _ _ _.
  apply evolves_state.
  - unfold fixed. congruence.
  - destruct Hv as [[-> _]| ->]; [done|]. unfold is_u64, saturating_add in *. lia.
  - intros Hsame Hlt. exists []. rewrite app_nil_r, Ho. apply filter_all, Forall_forall.
    intros id Hin Hids. destruct Hv as [[_ Htr]|Hv]; [|unfold is_u64, saturating_add in *; lia].
    apply (si_order _ Hs) in Hin as [r Hr]. rewrite <-Htr, Hl, decide_True in Hr by done. done.
  - intros id [r Hr]. rewrite Hl in Hr. case_decide; [done|]. left. by exists r.
  - intros id r Hr Hp _. exists r. split; [|done]. rewrite Hl, decide_False; [done|].
    intros (r' & Hr' & Hp')%Hfin. congruence.
  - intros id r r' Hr Hr'. rewrite Hl in Hr'. case_decide; [done|]. assert (r = r') as -> by congruence.
    apply continues_refl.
Qed.

(** Queueing bodies that left the transactions, with any change of the metadata total. *)
Lemma evicted_world hs ids s st st' bodies :
  World hs s → Evicted ids (ss_state s) st bodies →
  st_cleanupQueue st' = st_cleanupQueue st ++ bodies →
  records st' = records st → st_directoryCleanupPending st' = st_directoryCleanupPending st →
  World hs (set_inner st' s).
Proof.
  intros [Hs Hv Hi Hown Hd] [Hst Hl Ho Hver Hb Hq Hf Ht] Hq' Hr Hp.
  unfold records, fixed in Hr. injection Hr as Htr Hor Hix Htot Hn Hve Hid Hlim Hbud Hcl Hsta Hig Htun.
  assert (Halive : ∀ id, alive st' id → alive (ss_state s) id).
  { unfold alive. intros id. rewrite Htr, Hl. case_decide; [by intros []|done]. }
  split; cbn.
  - eapply state_ext; [exact Hst|done..|]. by rewrite Hp.
  - rewrite Hve. destruct Hver as [[-> _]| ->]; [done|]. unfold is_u64, saturating_add in *. lia.
  - intros id Hid'. apply Hi. by apply Halive.
  - done.
  - rewrite Hq', Hq. eapply disk_retire; [exact Hd| |done|done].
    assert (liveBodies st' = liveBodies st) as -> by (unfold liveBodies; by rewrite Htr). done.
Qed.

(** ** Replacing a record *)
Lemma replaced_sequence (id : chars) (r r' : TransactionRecord) (m : gmap chars TransactionRecord) (order : list chars) :
  m !! id = Some r → sequence r' = sequence r →
  (λ r, sequence r) <$> omap (λ x, <[id := r']> m !! x) order = (λ r, sequence r) <$> omap (m !!.) order.
Proof.
  intros Hr Hseq. induction order as [|x order IH]; [done|]. cbn.
  destruct (decide (x = id)) as [->|Hne].
  - rewrite lookup_insert_eq, Hr. cbn. by rewrite Hseq, IH.
  - rewrite lookup_insert_ne by done. destruct (m !! x); cbn; by rewrite IH.
Qed.

Lemma state_replace s st id r r' :
  StateInv s → st_transactions s !! id = Some r → RecordOk id r' → sequence r' = sequence r →
  st_transactions st = <[id := r']> (st_transactions s) → IndexOk st →
  st_totalBodyBytes st = st_totalBodyBytes s - transactionBodyBytes r + transactionBodyBytes r' →
  st_totalBodyBytes st ≤ rm_maxTotalBodyBytes (st_limits s) →
  st_order st = st_order s → st_nextSequence st = st_nextSequence s → st_limits st = st_limits s →
  st_directoryCleanupPending st = st_directoryCleanupPending s → StateInv st.
Proof.
  intros [[Hc Hb Hix] Hnd Ho Hsort Hn Hmax Hcnt Htot Hlim Hbl Hcl] Hr Hr' Hseq Htr Hix' Ht Hle Hor Hnx Hl Hp.
  split; rewrite ?Hor, ?Hnx, ?Hl, ?Htr; try done.
  - split; rewrite ?Htr; [| |done].
    + intros id' r2. rewrite lookup_insert_Some. intros [[<- <-]|[_ ?]]; [done|by apply Hc].
    + rewrite total_insert, Hr, Ht, Hb. cbn. lia.
  - intros id'. rewrite Ho, lookup_insert_is_Some. destruct (decide (id = id')) as [<-|]; [|naive_solver].
    split; [by left|]. intros _. by exists r.
  - by erewrite replaced_sequence.
  - intros id' r2. rewrite lookup_insert_Some. intros [[<- <-]|[_ ?]]; [|by eapply Hn].
    rewrite Hseq. by eapply Hn.
  - rewrite map_size_insert_Some by done. done.
  - rewrite Hp. intros Hd. rewrite Hcl in Hr by done. done.
Qed.

(** A replacement that the index does not see. *)
Lemma index_replace s st id r r' :
  IndexOk s → st_transactions s !! id = Some r → entryKey r' = entryKey r → sequence r' = sequence r →
  st_transactions st = <[id := r']> (st_transactions s) →
  st_responseEntityIndex st = st_responseEntityIndex s → IndexOk st.
Proof.
  intros [Hm Hne] Hr Hkey Hseq Htr Hix. split; [|by rewrite Hix].
  intros key member. unfold Indexed. rewrite Hix, Htr. etransitivity; [apply (Hm key member)|].
  split; intros (id' & r2 & Hr2 & Hk & ->).
  - destruct (decide (id' = id)) as [->|Hn].
    + exists id, r'. rewrite lookup_insert_eq. assert (r2 = r) as -> by congruence.
      split_and!; congruence.
    + exists id', r2. by rewrite lookup_insert_ne.
  - apply lookup_insert_Some in Hr2 as [[<- <-]|[_ Hr2]]; [|by exists id', r2].
    exists id, r. split_and!; congruence.
Qed.

Lemma alter_insert {V} (f : V → V) (m : gmap chars V) (id : chars) v :
  m !! id = Some v → alter f id m = <[id := f v]> m.
Proof.
  intros Hv. apply map_eq. intros id'. destruct (decide (id' = id)) as [->|Hne].
  - by rewrite lookup_alter_eq, lookup_insert_eq, Hv.
  - by rewrite lookup_alter_ne, lookup_insert_ne.
Qed.

Lemma replace_evolves c s st id r r' :
  st_transactions (ss_state s) !! id = Some r →
  st_transactions st = <[id := r']> (st_transactions (ss_state s)) →
  st_order st = st_order (ss_state s) → st_collectionVersion st = st_collectionVersion (ss_state s) →
  fixed st = fixed (ss_state s) →
  (isPending r = true → ¬ sc_finish c id → isPending r' = true) →
  Continues c id (ss_bodyStore s) (ss_bodyStore s) r r' → Evolves c s (set_inner st s).
Proof.
  intros Hr Htr Ho Hv Hf Hp Hc. apply evolves_state; unfold alive; rewrite ?Htr, ?Ho, ?Hv; auto.
  - done.
  - intros _ _. exists []. by rewrite app_nil_r.
  - intros id'. rewrite lookup_insert_is_Some. intros [->|[_ ?]]; left; [by exists r|done].
  - intros id' r2 Hr2 Hp2 Hno. destruct (decide (id' = id)) as [->|Hne].
    + exists r'. rewrite lookup_insert_eq. assert (r2 = r) as -> by congruence. auto.
    + exists r2. by rewrite lookup_insert_ne.
  - intros id' r2 r3 Hr2. rewrite lookup_insert_Some. intros [[<- <-]|[_ Hr3]].
    + assert (r2 = r) as -> by congruence. done.
    + assert (r2 = r3) as -> by congruence. apply continues_refl.
Qed.

(** Replacing a record whose bodies stay. *)
Lemma replace_world hs s st id r r' :
  World hs s → st_transactions (ss_state s) !! id = Some r → StateInv st →
  st_transactions st = <[id := r']> (st_transactions (ss_state s)) →
  intoBodyReferences r' = intoBodyReferences r →
  st_cleanupQueue st = st_cleanupQueue (ss_state s) →
  st_collectionVersion st = st_collectionVersion (ss_state s) → World hs (set_inner st s).
Proof.
  intros [Hs Hv Hi Hown Hd] Hr Hst Htr Hb Hq Hver.
  assert (Halive : ∀ o, alive st o → alive (ss_state s) o).
  { unfold alive. intros o. rewrite Htr, lookup_insert_is_Some. intros [->|[_ ?]]; [by exists r|done]. }
  split; cbn; [done|by rewrite Hver| |done|].
  - intros o Ho. apply Hi. by apply Halive.
  - rewrite Hq. eapply disk_permute; [exact Hd| |done].
    destruct (live_insert (ss_state s) st id r r' Hr Htr) as (rest & -> & ->). by rewrite Hb.
Qed.
End replace.
