(* ===== verification/RecordingMethods.v ===== *)
(** * The methods of the recording session keep the world

    One lemma per method of [Recording]: from a world, the method does not panic, and
    whether it succeeds or fails, it leaves a world in which every transaction of the
    former one lives on as its scope allows. *)

From S2P Require Import Prelude NetAddress Stateful Text Location CaptureModel MetadataBudget BodyStore BodyStoreSpec BodyOwnership RecordingState RecordingBudget Recording RecordingInvariant RecordingWorld RecordingCleanup RecordingReplace.

Section methods.
Context `{Layout} `{Environment} {Hok : EnvironmentOk}.

(** ** Replacement *)
Lemma replaceWithinBudget_runs id r oldBytes newBytes change s :
  StateInv s → st_transactions s !! id = Some r →
  Runs (replaceWithinBudget id oldBytes newBytes change) s
    (λ bodies st, ∃ ids st1 bytes, Evicted ids s st1 bodies ∧ (∀ x, x ∈ ids → finished s x ∧ x ≠ id) ∧
       st = set_totalMetadataBytes bytes (set_transactions (<[id := change r]> (st_transactions st1)) st1) ∧
       saturating_add bytes (ofIds cleanupBodyReferencesMetadataBytes s ids) ≤ st_metadataMemoryBudgetBytes s ∧
       bytes = projectedBytes s ids oldBytes newBytes)
    (λ e st, st = s ∧ e = MetadataMemoryBudgetExceeded).
Proof.
  intros Hs Hr. apply runs_bind, runs_gets. unfold Datatypes.id. cbv zeta.
  set (ids := planMetadataBudgetEvictions _ _ _).
  assert (Hfin : ∀ x, x ∈ ids → finished s x ∧ x ≠ id) by (intros x; apply metadataBudget_finished).
  case_if Hbudget; [by apply runs_fail|]. apply Z.ltb_ge in Hbudget.
  destruct (removeTransactions_evicted ids s Hs) as (st1 & bodies & -> & Hev).
  rewrite (et_lookup _ _ _ _ Hev), decide_False, Hr by (by intros [_ ?]%Hfin).
  cbn. exists ids, st1. eexists. split_and!; [done..|].  split; done.
Qed.

(** What a replaced record must keep. *)
Record Replaces (c : Scope) (id : chars) (r r' : TransactionRecord) : Prop := {
  rp_ok : RecordOk id r';
  rp_identity : identity r' = identity r;
  rp_request : tr_requestBody r' = tr_requestBody r;
  rp_response : tr_responseBody r' = tr_responseBody r;
  rp_facts : isPending r = false → facts r' = facts r;
  rp_pending : isPending r = true → ¬ sc_finish c id → isPending r' = true;
}.

Lemma replaces_sequence c id r r' : Replaces c id r r' → sequence r' = sequence r.
Proof. intros [_ Hi _ _ _ _]. unfold identity in Hi. by injection Hi. Qed.

Lemma replaces_bodies c id r r' : Replaces c id r r' → intoBodyReferences r' = intoBodyReferences r.
Proof. intros [_ _ Hq Hp _ _]. unfold intoBodyReferences. by rewrite Hq, Hp. Qed.

Lemma replaces_continues c id b r r' : Replaces c id r r' → Continues c id b b r r'.
Proof.
  intros [_ Hi Hq Hp Hf _]. split; [done..|]. intros side body _ Hb. split; [|done].
  destruct side; cbn in *; congruence.
Qed.

Lemma replaced_keeps c hs s ids st1 bodies id r r' st :
  World hs s → Evicted ids (ss_state s) st1 bodies →
  (∀ x, x ∈ ids → finished (ss_state s) x ∧ x ≠ id) →
  st_transactions (ss_state s) !! id = Some r → Replaces c id r r' → IndexOk st →
  st_transactions st = <[id := r']> (st_transactions st1) →
  st_totalBodyBytes st = st_totalBodyBytes st1 → st_order st = st_order st1 →
  st_nextSequence st = st_nextSequence st1 → fixed st = fixed st1 →
  st_collectionVersion st = st_collectionVersion st1 →
  st_directoryCleanupPending st = st_directoryCleanupPending st1 →
  st_cleanupQueue st = st_cleanupQueue st1 ++ bodies → Keeps hs c s (set_inner st s).
Proof.
  intros Hw Hev Hfin Hr Hrep Hix Htr Ht Ho Hn Hf Hv Hp Hq.
  set (sm := set_inner (set_cleanupQueue (st_cleanupQueue st1 ++ bodies) st1) s).
  assert (Hwm : World hs sm) by by eapply evicted_world.
  assert (Hem : Evolves c s sm).
  { eapply (world_evolves_trans c hs s (set_inner st1 s)); [done| |].
    - eapply evicted_evolves; try done; [apply Hw|by intros x [? _]%Hfin|apply Hw].
    - by apply (evolves_quiet c (set_inner st1 s)). }
  assert (Hrm : st_transactions st1 !! id = Some r).
  { rewrite (et_lookup _ _ _ _ Hev), decide_False; [done|]. by intros [_ ?]%Hfin. }
  assert (Hbytes : transactionBodyBytes r' = transactionBodyBytes r).
  { unfold transactionBodyBytes. by rewrite (replaces_bodies _ _ _ _ Hrep). }
  assert (Hlim : st_limits st = st_limits st1) by (unfold fixed in Hf; congruence).
  assert (Hst : StateInv st).
  { eapply (state_replace (ss_state sm) st id r r'); cbn; try done; [apply Hwm|apply Hrep| | |].
    - by eapply replaces_sequence.
    - rewrite Ht, Hbytes. lia.
    - rewrite Ht, <-Hlim. rewrite Hlim. apply (et_state _ _ _ _ Hev). }
  split.
  - change (World hs (set_inner st sm)). eapply replace_world; try done.
    by eapply replaces_bodies.
  - eapply (world_evolves_trans c hs s sm); [done..|].
    change (Evolves c sm (set_inner st sm)). eapply replace_evolves; try done.
    + apply Hrep.
    + by eapply replaces_continues.
Qed.

Lemma enqueue_runs bodies s (P : unit → RecordingSession → Prop) (Q : CaptureError → RecordingSession → Prop) :
  P tt (set_inner (enqueueBodyReferences bodies (ss_state s)) s) → Runs (enqueue bodies) s P Q.
Proof. done. Qed.

Lemma on_state_runs {A} (m : onState A) s (P : A → RecordingSession → Prop)
    (Q : CaptureError → RecordingSession → Prop) :
  Runs m (ss_state s) (λ a st, P a (set_inner st s)) (λ e st, Q e (set_inner st s)) →
  Runs (on_state m) s P Q.
Proof. unfold Runs, on_state. by destruct (m (ss_state s)) as [st []]. Qed.

Lemma set_inner_self s : set_inner (ss_state s) s = s.
Proof. by destruct s. Qed.

Lemma notify_keeps hs c s0 s (R : RecordingSession → Prop) :
  World hs s0 → Keeps hs c s0 s → (∀ s', ss_state s' = ss_state s → ss_bodyStore s' = ss_bodyStore s → R s') →
  Runs notifyChanged s (λ _ s', Keeps hs c s0 s' ∧ R s') (λ _ s', Keeps hs c s0 s').
Proof.
  intros Hw [Hw1 He1] HR. eapply runs_mono, (notify_runs hs c); [|done|done]. cbn beta.
  intros _ s' (Hk & Hst & Hb). split; [|by apply HR]. by eapply store_keeps_trans.
Qed.

(** A replacement the index does not see. *)
Lemma replaceAndNotify_runs c hs s id r change oldBytes newBytes :
  World hs s → st_transactions (ss_state s) !! id = Some r → Replaces c id r (change r) →
  entryKey (change r) = entryKey r →
  Runs (replaceAndNotify (replaceWithinBudget id oldBytes newBytes change)) s
    (λ _ s', Keeps hs c s s' ∧ st_transactions (ss_state s') !! id = Some (change r) ∧
       ∃ ids : list chars, st_order (ss_state s') = filter (.∉ ids) (st_order (ss_state s)))
    (λ _ s', Keeps hs c s s').
Proof.
  intros Hw Hr Hrep Hkey. apply runs_bind, on_state_runs.
  eapply runs_mono, replaceWithinBudget_runs; [| |apply Hw|done]; cbn beta.
  2: { intros e st [-> _]. rewrite set_inner_self. by apply keeps_refl. }
  intros bodies st (ids & st1 & bytes & Hev & Hfin & -> & _ & _). apply runs_bind, enqueue_runs.
  set (st3 := enqueueBodyReferences _ _).
  assert (Hk : Keeps hs c s (set_inner st3 s)).
  { eapply replaced_keeps; try done. 
    eapply (index_replace st1 st3 id r (change r)); [apply (et_state _ _ _ _ Hev)|..]; try done.
    - rewrite (et_lookup _ _ _ _ Hev), decide_False; [done|]. by intros [_ ?]%Hfin.
    - by eapply replaces_sequence. }
  eapply runs_mono, (notify_keeps hs c s (set_inner st3 s)
    (λ s', ss_state s' = st3)); [|done|done|done|done]; cbn beta.
  intros _ s' [Hk' Hst]. rewrite Hst. split_and!; [done| |].
  - cbn. apply lookup_insert_eq.
  - exists ids. cbn. apply (et_order _ _ _ _ Hev).
Qed.

(** ** Copies *)
Lemma clone_string_idem x : clone_string (clone_string x) = clone_string x.
Proof. done. Qed.

Lemma clone_strings_idem (l : list string) : clone_string <$> (clone_string <$> l) = clone_string <$> l.
Proof. rewrite <-list_fmap_compose. by apply list_fmap_ext. Qed.

Lemma clone_option_idem (o : option string) : clone_string <$> (clone_string <$> o) = clone_string <$> o.
Proof. by destruct o. Qed.

Lemma clone_error_idem (o : option TransactionError) : clone_error <$> (clone_error <$> o) = clone_error <$> o.
Proof.
  destruct o as [[code key params]|]; [|done]. unfold clone_error. cbn. do 2 f_equal.
  rewrite <-list_fmap_compose. apply list_fmap_ext. by intros _ [name value] _.
Qed.

Lemma clone_summary_idem t : clone_summary (clone_summary t) = clone_summary t.
Proof.
  destruct t. unfold clone_summary; cbn.
  by rewrite !clone_strings_idem, clone_option_idem, clone_error_idem.
Qed.

(** ** Updates of the summary *)
Definition with_summary (bytes : Z) (t : TransactionSummary) (r : TransactionRecord) : TransactionRecord :=
  set_summaryStorageBytes bytes (set_summary t r).

Lemma updated_identity t u :
  let t' := applyTransactionUpdate t u in
  ts_transactionId t' = ts_transactionId t ∧ ts_sequence t' = ts_sequence t ∧
  ts_protocol t' = ts_protocol t ∧ ts_status t' = ts_status t ∧
  tf_bodyTruncated (ts_flags t') = tf_bodyTruncated (ts_flags t).
Proof. by destruct u as [[] [] [] [] []]. Qed.

Lemma replaces_update c id r u bytes :
  RecordOk id r → isPending r = true →
  Replaces c id r (with_summary bytes (applyTransactionUpdate (clone_summary (tr_summary r)) u) r).
Proof.
  intros [Hk Hb Ht] Hp. unfold with_summary. set (t := clone_summary (tr_summary r)).
  destruct (updated_identity t u) as (Hid & Hseq & Hpr & Hst & Htr). split; try done.
  - split; cbn; [by rewrite Hid|done|by rewrite Htr].
  - unfold identity. cbn. by rewrite Hid, Hseq, Hpr.
  - congruence.
  - intros _ _. unfold isPending in *. cbn. by rewrite Hst.
Qed.

Lemma user_facts t u :
  clone_summary t = t →
  set_notes (tight []) (set_tags (vec_of []) (set_appliedTools (vec_of []) (clone_summary (applyUserUpdate t u)))) =
  set_notes (tight []) (set_tags (vec_of []) (set_appliedTools (vec_of []) t)).
Proof. intros Ht. rewrite <-Ht at 2. by destruct u as [[] [] []]. Qed.

Lemma replaces_user c id r u bytes :
  RecordOk id r →
  Replaces c id r (with_summary bytes (applyUserUpdate (clone_summary (tr_summary r)) u) r).
Proof.
  intros [Hk Hb Ht]. unfold with_summary. split; try done.
  - split; cbn; [|done|]; by destruct u as [[] [] []].
  - unfold identity. cbn. by destruct u as [[] [] []].
  - intros _. unfold facts. cbn. by rewrite user_facts by apply clone_summary_idem.
  - intros Hp _. unfold isPending in *. cbn. by destruct u as [[] [] []].
Qed.

Lemma entity_summary r t bytes :
  ts_status t = status r → ts_statusCode t = ts_statusCode (tr_summary r) →
  text (ts_urlDisplay t) = text (ts_urlDisplay (tr_summary r)) → entryKey (with_summary bytes t r) = entryKey r.
Proof.
  intros Hst Hc Hu. unfold entryKey, responseEntityEntry, responseRangeCandidate. cbn.
  rewrite Hst, Hc, Hu. case_if Hcond; [done|].
  destruct (responseContentRange _) as [[[a b] n]|]; [|done]. cbn.
  destruct (tr_responseBody r) as [body|]; [|done]. cbn. destruct (rangeOf _ _ _); [|done]. cbn.
  by destruct (strongResponseEntityTag _).
Qed.

Lemma replaceSummary_eq id r t bytes s :
  st_transactions s !! id = Some r →
  replaceSummaryWithinMetadataBudget id t bytes s = fail MetadataMemoryBudgetExceeded s ∨
  ∃ oldBytes newBytes, replaceSummaryWithinMetadataBudget id t bytes s =
    replaceWithinBudget id oldBytes newBytes (with_summary bytes t) s.
Proof.
  intros Hr. unfold replaceSummaryWithinMetadataBudget. case_if Hlarge; [by left|right].
  eexists _, _. unfold mbind at 1, stateful_bind at 1. cbn [gets]. unfold gets, Datatypes.id.
  rewrite Hr. reflexivity.
Qed.

Lemma replaceAndNotify_ext m m' s : m (ss_state s) = m' (ss_state s) → replaceAndNotify m s = replaceAndNotify m' s.
Proof. intros Heq. unfold replaceAndNotify, mbind, stateful_bind, on_state. by rewrite Heq. Qed.

Lemma runs_ext {S E A} (m m' : stateful S E A) s (P : A → S → Prop) (Q : E → S → Prop) :
  m s = m' s → Runs m' s P Q → Runs m s P Q.
Proof. unfold Runs. by intros ->. Qed.

Lemma replaceSummary_runs c hs s id r t bytes :
  World hs s → st_transactions (ss_state s) !! id = Some r →
  Replaces c id r (with_summary bytes t r) → entryKey (with_summary bytes t r) = entryKey r →
  Runs (replaceAndNotify (replaceSummaryWithinMetadataBudget id t bytes)) s
    (λ _ s', Keeps hs c s s' ∧ st_transactions (ss_state s') !! id = Some (with_summary bytes t r))
    (λ _ s', Keeps hs c s s').
Proof.
  intros Hw Hr Hrep Hkey. destruct (replaceSummary_eq id r t bytes _ Hr) as [Heq|(old & new & Heq)].
  - eapply runs_ext; [by apply replaceAndNotify_ext|]. apply runs_bind, on_state_runs, runs_fail.
    rewrite set_inner_self. by apply keeps_refl.
  - eapply runs_ext; [by apply replaceAndNotify_ext|].
    eapply runs_mono, (replaceAndNotify_runs c hs s id r); [|done..]. cbn beta. naive_solver.
Qed.

(** [update]: a pending transaction stays pending and keeps its bodies. *)
Lemma update_runs' c hs s id u :
  World hs s → Runs (update id u) s (λ _ s', Keeps hs c s s') (λ _ s', Keeps hs c s s').
Proof.
  intros Hw. apply runs_bind, ensureOpen_runs; [intros _|by apply keeps_refl].
  apply runs_bind, pendingRecord_runs; [|intros _; by apply keeps_refl]. intros r Hr Hp.
  pose proof (ci_records _ (si_core _ (w_state _ _ Hw)) _ _ Hr) as Hrok. cbv zeta.
  pose proof (replaces_update c id r (boundTransactionUpdate u)
    (summaryStorageBytes (applyTransactionUpdate (clone_summary (tr_summary r)) (boundTransactionUpdate u)))
    Hrok Hp) as Hrep.
  eapply runs_mono, (replaceSummary_runs c hs s id r); [|done..|exact Hrep|].
  - by intros _ s' [? _].
  - rewrite !pending_no_entry; [done|done|]. unfold isPending in *. cbn.
    by destruct (updated_identity (clone_summary (tr_summary r)) (boundTransactionUpdate u)) as (_ & _ & _ & -> & _).
Qed.

Lemma updateUserFields_runs c hs s id u :
  World hs s → Runs (updateUserFields id u) s (λ _ s', Keeps hs c s s') (λ _ s', Keeps hs c s s').
Proof.
  intros Hw. apply runs_bind, ensureOpen_runs; [intros _|by apply keeps_refl].
  apply runs_bind, existingRecord_runs; [|by apply keeps_refl]. intros r Hr.
  pose proof (ci_records _ (si_core _ (w_state _ _ Hw)) _ _ Hr) as Hrok. cbv zeta.
  eapply runs_mono, (replaceSummary_runs c hs s id r); [|done..|by apply replaces_user|].
  - by intros _ s' [? _].
  - by destruct (boundUserUpdate u) as [[] [] []]; apply entity_summary.
Qed.

(** A change of one record that neither evicts nor touches bodies. *)
Lemma update_record_runs c hs s id r f :
  World hs s → st_transactions (ss_state s) !! id = Some r → Replaces c id r (f r) →
  entryKey (f r) = entryKey r →
  Keeps hs c s (set_inner (set_transactions (alter f id (st_transactions (ss_state s))) (ss_state s)) s).
Proof.
  intros Hw Hr Hrep Hkey.
  rewrite (alter_insert _ _ _ _ Hr). set (st := set_transactions _ _).
  assert (Hbytes : transactionBodyBytes (f r) = transactionBodyBytes r).
  { unfold transactionBodyBytes. by rewrite (replaces_bodies _ _ _ _ Hrep). }
  pose proof (replaces_sequence _ _ _ _ Hrep) as Hseq.
  assert (Hix : IndexOk st) by (eapply index_replace; try done; apply Hw).
  split.
  - eapply replace_world; try done; [|by eapply replaces_bodies].
    eapply (state_replace (ss_state s) st id r (f r)); try done; [apply Hw|apply Hrep|cbn; lia|cbn; apply Hw].
  - eapply replace_evolves; try done; [apply Hrep|by eapply replaces_continues].
Qed.

Lemma updateProgress_runs c hs s id u :
  World hs s → Runs (updateProgress id u) s (λ _ s', Keeps hs c s s') (λ _ s', Keeps hs c s s').
Proof.
  intros Hw. apply runs_bind, ensureOpen_runs; [intros _|by apply keeps_refl].
  apply runs_bind, pendingRecord_runs; [|intros _; by apply keeps_refl]. intros r Hr Hp.
  pose proof (ci_records _ (si_core _ (w_state _ _ Hw)) _ _ Hr) as [Hk Hb Ht].
  apply runs_bind, update_runs. eapply runs_mono, (notify_keeps hs c s _ (λ _, True)); [|done|done| |done].
  - by intros _ s' [? _].
  - eapply update_record_runs; [done..| |].
    + split; [by split|done|done|done|congruence|done].
    + by rewrite !pending_no_entry.
Qed.

(** ** Finishing *)
(** What the four ways to finish do to the summary. *)
Record Finishes (final : TransactionStatus) (change : TransactionSummary → TransactionSummary) : Prop := {
  fi_status t : ts_status (change t) = final;
  fi_final : final ≠ Pending;
  fi_id t : ts_transactionId (change t) = ts_transactionId t;
  fi_sequence t : ts_sequence (change t) = ts_sequence t;
  fi_protocol t : ts_protocol (change t) = ts_protocol t;
  fi_flags t : ts_flags (change t) = ts_flags t;
}.

Lemma completed_finishes final completion : final ≠ Pending → Finishes final (completed final completion).
Proof. by split. Qed.

Lemma failed_finishes final error endAt : final ≠ Pending → Finishes final (failed final error endAt).
Proof. by split. Qed.

(** Within the limits nothing is evicted. *)
Lemma enforceAllLimits_within s :
  Z.of_nat (size (st_transactions s)) ≤ rm_maxTransactions (st_limits s) →
  st_totalBodyBytes s ≤ rm_maxTotalBodyBytes (st_limits s) → enforceAllLimits s = (s, []).
Proof.
  intros Hc Ht. unfold enforceAllLimits. destruct (st_order s) as [|x order]; [done|]. cbn [limitsLoop].
  by rewrite (proj2 (Z.leb_le _ _) Hc), (proj2 (Z.leb_le _ _) Ht).
Qed.

Lemma index_finished s st id r r' :
  IndexOk s → st_transactions s !! id = Some r → isPending r = true →
  text (ts_transactionId (tr_summary r')) = id →
  st_transactions st = <[id := r']> (st_transactions s) →
  st_responseEntityIndex st = st_responseEntityIndex s →
  IndexOk (insertResponseEntityEntry id st).
Proof.
  intros [Hm Hne] Hr Hp Hid Htr Hix.
  assert (Hr' : st_transactions st !! id = Some r') by (rewrite Htr; apply lookup_insert_eq).
  split; [|apply insertEntry_nonempty; by rewrite Hix].
  intros key member. rewrite (insertEntry_indexed id r') by done.
  destruct (insertEntry_frame id st) as [i ->]. cbn. unfold Indexed. rewrite Hix, Htr.
  fold (Indexed s key member). rewrite (Hm key member). split.
  - intros [(id2 & r2 & Hr2 & Hk & ->)|[Hk ->]].
    + exists id2, r2. rewrite lookup_insert_ne; [done|]. intros <-.
      assert (r2 = r) as -> by congruence. by rewrite pending_no_entry in Hk.
    + exists id, r'. by rewrite lookup_insert_eq.
  - intros (id2 & r2 & Hr2 & Hk & ->).
    apply lookup_insert_Some in Hr2 as [[<- <-]|[_ Hr2]]; [by right|left]. eauto.
Qed.

(** The scope of finishing [id], and the record that results. *)
Lemma finish_replaces id r change final bytes :
  RecordOk id r → Finishes final change → isPending r = true →
  Replaces (Finishing id) id r (with_summary bytes (change (clone_summary (tr_summary r))) r).
Proof.
  intros [Hk Hb Ht] [Hs Hf Hid Hseq Hpr Hfl] Hp. unfold with_summary. split; try done.
  - split; cbn; [by rewrite Hid|done|by rewrite Hfl].
  - unfold identity. cbn. by rewrite Hid, Hseq, Hpr.
  - congruence.
Qed.

Lemma finalizeSummary_runs id r r' t bytes s :
  StateInv s → st_transactions s !! id = Some r → isPending r = true →
  r' = with_summary bytes t r →
  Runs (finalizeSummaryWithinLimits id t bytes) s
    (λ bodies st, ∃ ids st1 n, Evicted ids s st1 bodies ∧ (∀ x, x ∈ ids → finished s x ∧ x ≠ id) ∧
       st = insertResponseEntityEntry id
              (set_totalMetadataBytes n (set_transactions (<[id := r']> (st_transactions st1)) st1)))
    (λ e st, st = s ∧ e = MetadataMemoryBudgetExceeded).
Proof.
  intros Hs Hr Hp ->. apply runs_bind.
  destruct (replaceSummary_eq id r t bytes _ Hr) as [Heq|(old & new & Heq)];
    (eapply runs_ext; [exact Heq|]); [by apply runs_fail|].
  eapply runs_mono, replaceWithinBudget_runs; [|done|done..]. cbn beta.
  intros bodies st (ids & st1 & n & Hev & Hfin & -> & _ & _). apply runs_bind, runs_gets.
  unfold Datatypes.id. pose proof (et_state _ _ _ _ Hev) as Hst1.
  assert (Hr1 : st_transactions st1 !! id = Some r).
  { rewrite (et_lookup _ _ _ _ Hev), decide_False; [done|]. by intros [_ ?]%Hfin. }
  rewrite enforceAllLimits_within; cbn.
  - rewrite app_nil_r. cbn. exists ids, st1, n. done.
  - rewrite map_size_insert_Some by done. apply Hst1.
  - apply Hst1.
Qed.

Lemma finalize_runs hs s id change final :
  World hs s → Finishes final change →
  Runs (finalize id change) s
    (λ _ s', Keeps hs (Finishing id) s s' ∧
       ∃ r r', st_transactions (ss_state s) !! id = Some r ∧ isPending r = true ∧
         st_transactions (ss_state s') !! id = Some r' ∧ status r' = final)
    (λ _ s', Keeps hs (Finishing id) s s').
Proof.
  intros Hw Hfi. apply runs_bind, ensureOpen_runs; [intros _|by apply keeps_refl].
  apply runs_bind, pendingRecord_runs; [|intros _; by apply keeps_refl]. intros r Hr Hp.
  pose proof (ci_records _ (si_core _ (w_state _ _ Hw)) _ _ Hr) as Hrok. cbv zeta.
  set (t := change (clone_summary (tr_summary r))). set (bytes := summaryStorageBytes t).
  pose proof (finish_replaces id r change final bytes Hrok Hfi Hp) as Hrep. fold t in Hrep.
  apply runs_bind, on_state_runs.
  eapply runs_mono, finalizeSummary_runs; [| |apply Hw|done..]; cbn beta.
  2: { intros e st [-> _]. rewrite set_inner_self. by apply keeps_refl. }
  intros bodies st (ids & st1 & n & Hev & Hfin & Hst). apply runs_bind, enqueue_runs.
  assert (Hr1 : st_transactions st1 !! id = Some r).
  { rewrite (et_lookup _ _ _ _ Hev), decide_False; [done|]. by intros [_ ?]%Hfin. }
  set (st2 := set_totalMetadataBytes n _) in Hst. set (st3 := enqueueBodyReferences _ _).
  destruct (insertEntry_frame id st2) as [i Hi].
  assert (Hk : Keeps hs (Finishing id) s (set_inner st3 s)).
  { assert (Hix : IndexOk st).
    { rewrite Hst. eapply (index_finished st1); try done; [apply (et_state _ _ _ _ Hev)|].
      apply (ro_key _ _ (rp_ok _ _ _ _ Hrep)). }
    rewrite Hi in Hst. subst st. eapply replaced_keeps; try done.
    destruct Hix as [Hx Hy]. by split. }
  eapply runs_mono, (notify_keeps hs (Finishing id) s (set_inner st3 s) (λ s', ss_state s' = st3));
    [|done|done|done|done]; cbn beta.
  intros _ s' [Hk' Hst']. split; [done|]. exists r. eexists. split_and!; [done..| |].
  - rewrite Hst'. unfold st3. rewrite Hst, Hi. cbn. apply lookup_insert_eq.
  - apply (fi_status _ _ Hfi).
Qed.

(** A transaction that cannot be finished because it is gone or finished is so, and stays
    as it is. *)
Lemma finalize_discards hs s id change :
  World hs s →
  Runs (finalize id change) s (λ _ _, True)
    (λ e s', e = TransactionNotFound ∨ e = TransactionFinished → s' = s ∧
       ∀ r, st_transactions (ss_state s) !! id = Some r → isPending r = false).
Proof.
  intros Hw. apply runs_bind, ensureOpen_runs; [intros _|by intros [|]].
  unfold pendingRecord. apply runs_bind, runs_bind, with_state_runs. unfold Datatypes.id.
  destruct (st_transactions (ss_state s) !! id) as [r|] eqn:Hr; [|by apply runs_fail].
  destruct (isPending r) eqn:Hp; cbn [negb]; [apply runs_ret|apply runs_fail; intros _; split; [done|congruence]].
  cbv zeta. apply runs_bind, on_state_runs.
  eapply runs_mono, finalizeSummary_runs; [| |apply Hw|done..]; cbn beta; [|by intros e st [_ ->] [|]].
  intros bodies st _. apply runs_bind, enqueue_runs. unfold notifyChanged. done.
Qed.

Lemma progress_discards s id u :
  Runs (updateProgress id u) s (λ _ _, True)
    (λ e s', e = TransactionNotFound ∨ e = TransactionFinished → s' = s ∧
       ∀ r, st_transactions (ss_state s) !! id = Some r → isPending r = false).
Proof.
  apply runs_bind, ensureOpen_runs; [intros _|by intros [|]].
  unfold pendingRecord. apply runs_bind, runs_bind, with_state_runs. unfold Datatypes.id.
  destruct (st_transactions (ss_state s) !! id) as [r|] eqn:Hr; [|by apply runs_fail].
  destruct (isPending r) eqn:Hp; cbn [negb]; [apply runs_ret|apply runs_fail; intros _; split; [done|congruence]].
  apply runs_bind, update_runs. unfold notifyChanged. done.
Qed.
End methods.
