(* ===== verification/RecordingStorage.v ===== *)
(** * The methods that evict, store and clear keep the world

    Beginning a transaction, storing headers, bodies and packets, registering the
    bodies of a capture, clearing and closing. *)

From S2P Require Import Prelude NetAddress Stateful Text Location LocationTheorems CaptureModel MetadataBudget BodyStore BodyStoreSpec BodyOwnership RecordingState RecordingBudget Recording RecordingInvariant RecordingWorld RecordingCleanup RecordingReplace RecordingMethods.

Section storage.
Context `{Layout} `{Environment} {Hok : EnvironmentOk}.

(** ** Evicting in a method *)
Lemma evict_keeps c hs s ids st st' bodies :
  World hs s → Evicted ids (ss_state s) st bodies → (∀ x, x ∈ ids → finished (ss_state s) x) →
  st_cleanupQueue st' = st_cleanupQueue st ++ bodies → records st' = records st →
  st_directoryCleanupPending st' = st_directoryCleanupPending st → Keeps hs c s (set_inner st' s).
Proof.
  intros Hw Hev Hfin Hq Hr Hp. split; [by eapply evicted_world|].
  eapply (world_evolves_trans c hs s (set_inner st s)); [done| |].
  - eapply evicted_evolves; try done; apply Hw.
  - unfold records in Hr. injection Hr as Htr Ho _ _ _ Hv Hi1 Hi2 Hi3 _ _ _ _.
    apply (evolves_quiet c (set_inner st s)); cbn; [|by rewrite Hv|done..].
    unfold fixed. congruence.
Qed.

Lemma run_state_runs {A} (f : RecordingStateInner → RecordingStateInner * A) s
    (P : A → RecordingSession → Prop) (Q : CaptureError → RecordingSession → Prop) :
  P (f (ss_state s)).2 (set_inner (f (ss_state s)).1 s) → Runs (run_state f) s P Q.
Proof. unfold Runs, run_state, on_state. by destruct (f (ss_state s)). Qed.

(** Evicting planned transactions, queueing their bodies and telling the watchers. *)
Definition evict (ids : list chars) : onSession unit :=
  removedBodies ← run_state (removeTransactions ids);
  _ ← enqueue removedBodies;
  match ids with [] => mret tt | _ => notifyChanged end.

Lemma store_evict_runs c hs s ids :
  World hs s → (∀ x, x ∈ ids → finished (ss_state s) x) →
  Runs (evict ids) s
    (λ _ s', Keeps hs c s s' ∧
       (∀ id, st_transactions (ss_state s') !! id =
          if decide (id ∈ ids) then None else st_transactions (ss_state s) !! id) ∧
       frame (set_cleanupQueue [] (ss_state s')) = frame (set_cleanupQueue [] (ss_state s)))
    (λ _ _, False).
Proof.
  intros Hw Hfin. apply runs_bind, run_state_runs.
  destruct (removeTransactions_evicted ids (ss_state s) (w_state _ _ Hw)) as (st & bodies & -> & Hev).
  cbn [fst snd]. apply runs_bind, enqueue_runs. set (st' := enqueueBodyReferences _ _).
  assert (Hk : Keeps hs c s (set_inner st' s)) by by eapply evict_keeps.
  assert (Hpost : ∀ s', ss_state s' = st' →
    (∀ id, st_transactions (ss_state s') !! id =
       if decide (id ∈ ids) then None else st_transactions (ss_state s) !! id) ∧
    frame (set_cleanupQueue [] (ss_state s')) = frame (set_cleanupQueue [] (ss_state s))).
  { intros s' ->. split; [intros id; apply (et_lookup _ _ _ _ Hev)|].
    pose proof (et_frame _ _ _ _ Hev) as Hf. unfold frame in *. cbn. congruence. }
  destruct ids as [|x ids]; [apply runs_ret; by auto|].
  eapply runs_mono, (notify_runs hs c); [|done|apply Hk]. cbn beta. intros _ s' (Hk' & Hst & _).
  split; [by eapply store_keeps_trans|]. apply Hpost. by rewrite Hst.
Qed.

(** A computation regrouped around a part of it. *)
Lemma regroup_runs {A} ids (k : onSession A) s P Q :
  Runs (evict ids ≫= λ _, k) s P Q →
  Runs (removedBodies ← run_state (removeTransactions ids); _ ← enqueue removedBodies;
        _ ← (match ids with [] => mret tt | _ => notifyChanged end); k) s P Q.
Proof.
  unfold evict, Runs, mbind, stateful_bind.
  destruct (run_state (removeTransactions ids) s) as [s1 [bodies|e|]]; [|done..].
  by destruct (enqueue bodies s1) as [s2 [[]|e|]].
Qed.

(** ** Beginning *)
Lemma shouldRecord_total (to_lowercase : chars → chars) s location : no_panic (shouldRecordFromState to_lowercase s location).
Proof.
  unfold shouldRecordFromState. case_bool_decide; [done|].
  assert (Hign : ∀ patterns, no_panic (ignored to_lowercase patterns location)).
  { induction patterns as [|pattern patterns IH]; [done|].
    apply bind_total; [apply location_matching_terminates|]. intros [] _; done. }
  apply bind_total.
  - specialize (Hign (st_ignoreLocations s)). unfold no_panic in *. by destruct (ignored _ _ _).
  - intros [] _; [done|].
    pose proof (location_matching_terminates to_lowercase LocationPattern_default location
      LocationMatchOptions_default) as Hd.
    unfold no_panic in *. by destruct (locationMatches _ _ _ _).
Qed.

Lemma before_next x n : n ≤ u64_max → before x n → before x (saturating_add n 1).
Proof. unfold before, saturating_add. intros Hn [?|[-> ->]]; lia. Qed.

Lemma before_self n : n ≤ u64_max → before n (saturating_add n 1).
Proof. unfold before, saturating_add. lia. Qed.

Lemma sorted_snoc {A} (R : A → A → Prop) l x :
  StronglySorted R l → Forall (λ y, R y x) l → StronglySorted R (l ++ [x]).
Proof.
  induction 1 as [|y l Hl IH Hall]; cbn; intros Hx; [by repeat constructor|].
  inversion_clear Hx. constructor; [by apply IH|]. apply Forall_app. split; [done|by constructor].
Qed.

Lemma omap_fresh {B} (m : gmap chars B) (id : chars) b (order : list chars) :
  id ∉ order → omap (λ x, <[id := b]> m !! x) order = omap (λ x, m !! x) order.
Proof.
  induction order as [|x order IH]; [done|]. intros Hid. cbn.
  rewrite lookup_insert_ne by set_solver. destruct (m !! x); rewrite IH; set_solver.
Qed.

Lemma newRecord_ok id st input : RecordOk id (newRecord (newSummary id st input)).
Proof. split; [done| |done]. by intros b Hb%elem_of_nil. Qed.

(** The state with one more transaction, the youngest. *)
Lemma admit_state st id st0 input bytes :
  StateInv st → st_transactions st !! id = None → st_nextSequence st0 = st_nextSequence st →
  canAdmitTransaction st bytes = true → st_directoryCleanupPending st = false →
  StateInv (admitTransaction id (newRecord (newSummary id st0 input)) bytes st).
Proof.
  intros [[Hc Hb [Hm Hne]] Hnd Ho Hsort Hn Hmax Hcnt Htot Hlim Hbl Hcl] Hfresh Hseq Hadmit Hp.
  set (r := newRecord _). assert (Hrs : sequence r = st_nextSequence st) by done.
  assert (Hnot : id ∉ st_order st) by (rewrite Ho, Hfresh; by intros []).
  apply andb_true_iff in Hadmit as [Hroom _]. apply Z.ltb_lt in Hroom.
  split; cbn -[saturating_add].
  - split; cbn.
    + intros id' r'. rewrite lookup_insert_Some. intros [[<- <-]|[_ ?]]; [apply newRecord_ok|by apply Hc].
    + rewrite total_insert_None by done. rewrite Hb. done.
    + split; [|done]. intros key member. unfold Indexed. cbn. etransitivity; [apply (Hm key member)|].
      split; intros (id' & r' & Hr' & Hk & ->).
      * exists id', r'. rewrite lookup_insert_ne; [done|]. intros <-. congruence.
      * apply lookup_insert_Some in Hr' as [[<- <-]|[_ Hr']]; [by rewrite pending_no_entry in Hk|by exists id', r'].
  - apply NoDup_app. split_and!; [done| |apply NoDup_singleton]. intros x Hx ->%list_elem_of_singleton. done.
  - intros id'. rewrite elem_of_app, list_elem_of_singleton, Ho, lookup_insert_is_Some.
    destruct (decide (id = id')) as [<-|]; [|naive_solver]. split; [by left|by right].
  - rewrite omap_app, fmap_app. rewrite omap_fresh by done. cbn. rewrite lookup_insert_eq. cbn.
    apply sorted_snoc; [done|]. apply Forall_forall. intros x (r' & -> & Hr')%list_elem_of_fmap.
    apply list_elem_of_omap in Hr' as (id' & _ & Hr'). rewrite Hseq. by eapply Hn.
  - intros id' r'. rewrite lookup_insert_Some. intros [[<- <-]|[_ Hr']].
    + rewrite Hrs. by apply before_self.
    + apply before_next; [done|by eapply Hn].
  - unfold is_u64, saturating_add in *. lia.
  - rewrite map_size_insert_None by done. lia.
  - done.
  - done.
  - done.
  - congruence.
Qed.

Lemma admit_keeps c hs s0 s id n st0 input bytes :
  World hs s0 → Keeps hs c s0 s → id = new_v4 n →
  (bs_uuids (ss_bodyStore s0) ≤ n < bs_uuids (ss_bodyStore s))%nat →
  st_transactions (ss_state s) !! id = None → st_nextSequence st0 = st_nextSequence (ss_state s) →
  canAdmitTransaction (ss_state s) bytes = true → st_directoryCleanupPending (ss_state s) = false →
  Keeps hs c s0 (set_inner (admitTransaction id (newRecord (newSummary id st0 input)) bytes (ss_state s)) s).
Proof.
  intros Hw0 [Hw He] Hid Hn Hfresh Hseq Hadmit Hp. set (r := newRecord _).
  set (st := admitTransaction id r bytes (ss_state s)).
  assert (Htr : st_transactions st = <[id := r]> (st_transactions (ss_state s))) by done.
  assert (Halive : ∀ o, alive st o ↔ o = id ∨ alive (ss_state s) o).
  { intros o. unfold alive. rewrite Htr, lookup_insert_is_Some.
    destruct (decide (id = o)); naive_solver. }
  pose proof Hw as [Hs Hv Hi Hown Hd]. destruct He as [Hf Hu Hve Ho Hne Hpe Hco Hl Hfi]. split.
  - split; cbn.
    + by apply admit_state.
    + done.
    + intros o [->|Ho']%Halive; [exists n; split; [lia|done]|by apply Hi].
    + done.
    + eapply disk_alive; [exact Hd| |].
      * unfold liveBodies. rewrite Htr, map_to_list_insert by done. done.
      * intros h Hh [Hid'|?]%Halive; [|done]. exfalso.
        apply (w_owners _ _ Hw0) in Hh as (m & Hm & Heq).
        assert (m = n); [|lia]. apply (new_v4_inj m n). congruence.
  - split; cbn; auto.
    + intros Hsame Hmax. destruct (Ho Hsame Hmax) as [added ->]. exists (added ++ [id]). by rewrite app_assoc.
    + intros o [->|Ho']%Halive; [right; exists n; split; [lia|done]|auto].
    + intros o r' Hr' Hp' Hno. destruct (Hpe _ _ Hr' Hp' Hno) as (r2 & Hr2 & ?). exists r2.
      rewrite lookup_insert_ne; [done|]. intros <-. congruence.
    + intros o r1 r2 Hr1. rewrite lookup_insert_Some. intros [[<- _]|[_ Hr2]]; [|by eapply Hco].
      exfalso. destruct (w_ids _ _ Hw0 id) as (m & Hm & Heq); [by exists r1|].
      assert (m = n); [|lia]. apply (new_v4_inj m n). congruence.
Qed.

(** What a method that counts and tells the watchers does. *)
Lemma quiet_update c hs s st :
  World hs s → records st = records (ss_state s) → st_cleanupQueue st = st_cleanupQueue (ss_state s) →
  st_directoryCleanupPending st = st_directoryCleanupPending (ss_state s) →
  Keeps hs c s (set_inner st s).
Proof.
  intros Hw Hr Hq Hp. unfold records in Hr. injection Hr as Htr Ho Hix Ht Hn Hv H1 H2 H3 _ _ _ _.
  split.
  - apply world_quiet; try done; [congruence|]. rewrite Hv. apply Hw.
  - apply evolves_quiet; try done; [unfold fixed; congruence|by rewrite Hv].
Qed.

Lemma beginTransaction_runs (to_lowercase : chars → chars) hs s input :
  World hs s →
  Runs (beginTransaction to_lowercase input) s
    (λ result s', Keeps hs Quiet s s' ∧
       match result with
       | None => True
       | Some id => ∃ r, st_transactions (ss_state s') !! id = Some r ∧ isPending r = true ∧
           ¬ alive (ss_state s) id ∧ last (st_order (ss_state s')) = Some id ∧
           st_totalMetadataBytes (ss_state s') ≤ st_metadataMemoryBudgetBytes (ss_state s')
       end)
    (λ _ s', Keeps hs Quiet s s').
Proof.
  intros Hw. apply runs_bind, ensureOpen_runs; [intros _|by apply keeps_refl].
  eapply keeps_bind with (P := λ _ s1, records (ss_state s1) = records (ss_state s)); [done|..].
  { eapply runs_mono, drain_runs; [| |done]; cbn beta; [by intros _ s' [[? ?] _]|by intros _ s' [? _]]. }
  intros _ s1 Hw1 He1 Hrec. apply runs_bind, with_state_runs. unfold Datatypes.id at 1.
  apply runs_bind. pose proof (shouldRecord_total to_lowercase (ss_state s1) (resolved (bt_location input))) as Htot.
  unfold Datatypes.id. apply runs_lift. unfold no_panic, Satisfies in *.
  destruct (shouldRecordFromState _ _ _) as [recorded|e|]; [|by apply keeps_refl|done].
  case_if Hskip; [apply runs_ret; split; [by apply keeps_refl|done]|]. cbv zeta.
  apply runs_bind, on_store_runs. eapply runs_mono, v4_runs; [|done]. cbn beta.
  intros id b (-> & Hf & Hu & Hdisk & Hor). set (s2 := set_bodyStore b s1).
  assert (Hk2 : Keeps hs Quiet s1 s2).
  { split; [|by eapply evolves_store; [done..|by intros p []|by intros i []]].
    eapply world_store; [done|by eapply sf_uuids|by eauto|].
    by eapply (disk_touch Nowhere); [apply Hw1|done|done|by intros p []]. }
  set (id := new_v4 (bs_uuids (ss_bodyStore s1))). pose proof Hk2 as [Hw2 He2].
  set (record := newRecord _). set (bytes := transactionMetadataBytes record). clearbody bytes.
  set (ids := planTransactionAdmissionEvictions _ _). apply regroup_runs, runs_bind.
  assert (Hfin : ∀ x, x ∈ ids → finished (ss_state s2) x).
  { intros x Hx. change (ss_state s2) with (ss_state s1). by apply planAdmission_finished in Hx. }
  clearbody ids.
  eapply runs_mono, (store_evict_runs Quiet); [|done|exact Hw2|exact Hfin]. cbn beta.
  intros _ s3 (Hk3 & Hlook & Hframe). pose proof Hk3 as [Hw3 He3].
  assert (Hk13 : Keeps hs Quiet s1 s3) by by eapply store_keeps_trans.
  apply runs_bind. eapply runs_mono, drain_runs; [| |exact Hw3]; cbn beta.
  2: { intros e s4 [Hk4 _]. by eapply store_keeps_trans. }
  intros _ s4 ([Hk4 Hrec4] & _ & _ & Hp4 & _). pose proof Hk4 as [Hw4 He4].
  assert (Hk14 : Keeps hs Quiet s1 s4) by by eapply store_keeps_trans.
  apply runs_bind, with_state_runs. unfold Datatypes.id. case_if Hadmit.
  - apply runs_bind, update_runs, runs_bind.
    eapply runs_mono, (notify_keeps hs Quiet s1 _ (λ _, True)); [|done|done| |done].
    + by intros _ s' [? _].
    + eapply store_keeps_trans; [exact Hw1|exact Hk14|]. by apply quiet_update.
  - apply negb_false_iff in Hadmit. apply runs_bind, update_runs.
    assert (Hdead : ¬ alive (ss_state s1) id).
    { intros (n & Hn & Heq)%(w_ids _ _ Hw1). apply new_v4_inj in Heq. lia. }
    assert (Hfresh : st_transactions (ss_state s4) !! id = None).
    { rewrite (records_transactions _ _ Hrec4), Hlook.
      case_decide; [done|]. by apply eq_None_not_Some. }
    match goal with |- Runs _ (set_inner ?st _) _ _ => set (st' := st) end.
    assert (Hk5 : Keeps hs Quiet s1 (set_inner st' s4)).
    { eapply admit_keeps; try done.
      - pose proof (ev_uuids _ _ _ He3). pose proof (ev_uuids _ _ _ He4). cbn in *. lia.
      - rewrite (records_sequence _ _ Hrec4).
        unfold frame in Hframe. cbn in Hframe. congruence. }
    apply runs_bind. eapply runs_mono, (notify_keeps hs Quiet s1 _ (λ s', ss_state s' = st')); [|done|done|exact Hk5|done].
    cbn beta. intros _ s5 [Hk Hst]. apply runs_ret. split; [done|]. eexists. rewrite Hst. cbn -[saturating_add].
    split_and!; [apply lookup_insert_eq|done| | |].
    + unfold alive. rewrite <-(records_transactions _ _ Hrec). exact Hdead.
    + by rewrite last_snoc.
    + by apply andb_true_iff in Hadmit as [_ ?%Z.leb_le].
Qed.

(** ** Headers *)
Lemma drain_keeps c hs s0 s :
  World hs s0 → Keeps hs c s0 s →
  Runs drainCleanupQueueLocked s (λ _ s', Keeps hs c s0 s') (λ _ s', Keeps hs c s0 s').
Proof.
  intros Hw0 Hk. pose proof Hk as [Hw _].
  eapply runs_mono, drain_runs; [| |exact Hw]; cbn beta.
  - intros _ s' [[Hk' _] _]. eapply store_keeps_trans; [done..|]. by apply quiet_keeps.
  - intros _ s' [Hk' _]. eapply store_keeps_trans; [done..|]. by apply quiet_keeps.
Qed.

(** Draining first, then looking up a pending transaction. *)
Lemma drain_pending {A} c hs s id (k : TransactionRecord → onSession A) (P : A → RecordingSession → Prop) :
  World hs s →
  (∀ r s1, Keeps hs Quiet s s1 → World hs s1 → records (ss_state s1) = records (ss_state s) →
     st_transactions (ss_state s1) !! id = Some r → isPending r = true →
     Runs (k r) s1 (λ a s', Keeps hs c s s' ∧ P a s') (λ _ s', Keeps hs c s s')) →
  Runs (_ ← ensureOpen; _ ← drainCleanupQueueLocked; r ← pendingRecord id; k r) s
    (λ a s', Keeps hs c s s' ∧ P a s') (λ _ s', Keeps hs c s s').
Proof.
  intros Hw Hk. apply runs_bind, ensureOpen_runs; [intros _|by apply keeps_refl].
  apply runs_bind. eapply runs_mono, drain_runs; [| |exact Hw]; cbn beta.
  2: { intros _ s1 [Hk1 _]. by apply quiet_keeps. }
  intros _ s1 ([Hk1 Hrec] & _). pose proof Hk1 as [Hw1 _].
  apply runs_bind, pendingRecord_runs; [|intros _; by apply quiet_keeps].
  intros r Hr Hp. by apply Hk.
Qed.

Lemma headers_replaces c id r side bounded :
  RecordOk id r → isPending r = true → Replaces c id r (refreshTruncatedFlag (set_headers side bounded r)).
Proof.
  intros [Hk Hb Ht] Hp. split; destruct side; try done; try congruence; by split.
Qed.

Lemma storeHeaders_runs c hs s id side headers :
  World hs s →
  Runs (storeHeaders id side headers) s (λ _ s', Keeps hs c s s') (λ _ s', Keeps hs c s s').
Proof.
  intros Hw. eapply runs_mono, (drain_pending c hs s id _ (λ _ _, True)); [by intros _ s' [? _]|done|done|].
  intros r s1 Hk1 Hw1 _ Hr Hp. cbv zeta. apply runs_bind, with_state_runs. unfold Datatypes.id at 1.
  set (old := headerStorageBytes _ _). set (bounded := boundHeaders headers usize_max).
  set (ids := planMetadataBudgetEvictions _ _ _).
  assert (Hfin : ∀ x, x ∈ ids → finished (ss_state s1) x ∧ x ≠ id).
  { intros x Hx. by apply planMetadata_finished in Hx. }
  clearbody ids. apply regroup_runs, runs_bind.
  eapply runs_mono, (store_evict_runs c); [|done|exact Hw1|by intros x [? _]%Hfin]. cbn beta.
  intros _ s2 (Hk2 & Hlook & _). pose proof Hk2 as [Hw2 _].
  assert (Hk12 : Keeps hs c s s2) by (eapply store_keeps_trans; [done|by apply quiet_keeps|done]).
  apply runs_bind, with_state_runs. unfold Datatypes.id.
  assert (Hr2 : st_transactions (ss_state s2) !! id = Some r).
  { rewrite Hlook, decide_False; [done|]. by intros [_ ?]%Hfin. }
  apply runs_bind, existingRecord_runs; [intros _ _|exact Hk12].
  match goal with |- context [set_headers side ?b] => set (bounded' := b) end. clearbody bounded'.
  apply runs_bind, update_runs, runs_bind, update_runs.
  match goal with |- Runs _ (set_inner ?st _) _ _ => set (st' := st) end.
  assert (Hk3 : Keeps hs c s (set_inner st' s2)).
  { eapply store_keeps_trans; [exact Hw|exact Hk12|].
    pose proof (ci_records _ (si_core _ (w_state _ _ Hw2)) _ _ Hr2) as Hrok.
    set (f := refreshTruncatedFlag ∘ set_headers side bounded').
    assert (Hkf : Keeps hs c s2 (set_inner (set_transactions (alter f id (st_transactions (ss_state s2))) (ss_state s2)) s2)).
    { pose proof (headers_replaces c id r side bounded' Hrok Hp) as Hrep.
      eapply update_record_runs; [done|done|exact Hrep|].
      rewrite !pending_no_entry; [done|done|]. by destruct side. }
    eapply store_keeps_trans; [exact Hw2|exact Hkf|]. pose proof Hkf as [Hwf _].
    by apply (quiet_update c hs (set_inner _ s2)). }
  apply runs_bind. eapply runs_mono, (notify_keeps hs c s _ (λ _, True)); [|done|done|exact Hk3|done]. cbn beta.
  intros _ s4 [Hk4 _]. eapply runs_mono, (drain_keeps c hs s); [by intros ? s' ?|done|done|done].
Qed.

(** ** Bodies *)
Lemma bodyBudget_sublist s current required order :
  bodyBudgetLoop s current required order `sublist_of` order.
Proof.
  revert required. induction order as [|x order IH]; cbn; intros required; [done|].
  case_bool_decide; [by apply sublist_cons|]. destruct (finishedRecord s x) as [r|]; [|by apply sublist_cons].
  apply sublist_skip. case_if Hz; [apply sublist_nil_l|apply IH].
Qed.

Lemma planBody_NoDup s current base desired :
  StateInv s → NoDup (planBodyBudgetEvictions s current base desired).
Proof.
  intros Hs. unfold planBodyBudgetEvictions. case_if Hz; [constructor|].
  eapply sublist_NoDup; [|apply bodyBudget_sublist]. apply Hs.
Qed.

Lemma spill_clone b : spillPath (clone_body b) = spillPath b.
Proof. unfold spillPath. cbn. by destruct (bf_storage b). Qed.

Lemma spills_clone o : spills (option_list (clone_body <$> o)) = spills (option_list o).
Proof. destruct o as [b|]; [|done]. unfold spills. cbn. by rewrite spill_clone. Qed.

(** The bodies of a record with one side replaced. *)
Lemma bind_bodies side b n r :
  ∃ other, intoBodyReferences r ≡ₚ option_list (record_body r side) ++ other ∧
    intoBodyReferences (bindBody side b n r) ≡ₚ b :: other.
Proof.
  destruct side; cbn.
  - by exists (option_list (tr_responseBody r)).
  - exists (option_list (tr_requestBody r)). unfold intoBodyReferences. cbn.
    split; [apply Permutation_app_comm|]. by rewrite Permutation_app_comm.
Qed.

Lemma bind_ok side b n id r :
  RecordOk id r → 0 ≤ bodyStoredBytes b → isPending r = true →
  RecordOk id (bindBody side b n r) ∧ isPending (bindBody side b n r) = true ∧
  identity (bindBody side b n r) = identity r ∧ record_body (bindBody side b n r) side = Some b ∧
  (∀ other, other ≠ side → record_body (bindBody side b n r) other = record_body r other) ∧
  transactionBodyBytes (bindBody side b n r) =
    transactionBodyBytes r - from_option bodyStoredBytes 0 (record_body r side) + bodyStoredBytes b.
Proof.
  intros [Hk Hb Ht] Hn Hp. destruct (bind_bodies side b n r) as (other & Hold & Hnew).
  split_and!; try by destruct side.
  - split; [by destruct side| |by destruct side]. intros b'. rewrite Hnew, elem_of_cons.
    intros [->|Hin]; [done|]. apply Hb. rewrite Hold, elem_of_app. by right.
  - by intros [] Hne; destruct side.
  - unfold transactionBodyBytes. rewrite (sum_by_perm _ _ _ Hold), (sum_by_perm _ _ _ Hnew), sum_by_app.
    unfold sum_by. destruct (record_body r side); cbn; lia.
Qed.

(** The state and the store after a staged body has replaced another: [st1] is [s]
    after the evictions, [st] the state that results. *)
Lemma stored_keeps hs s b ids st1 removed id r side body n st T bytes :
  World hs s → st_transactions (ss_state s) !! id = Some r → isPending r = true →
  Evicted ids (ss_state s) st1 removed → (∀ x, x ∈ ids → finished (ss_state s) x ∧ x ≠ id) →
  StoreFrame T Nowhere (ss_bodyStore s) b → (∀ p, T p → tagged (bs_uuids (ss_bodyStore s)) p) →
  Holds (below (length (dk_inodes (bs_disk (ss_bodyStore s))))) b body bytes →
  len bytes = bodyStoredBytes body →
  (∀ p, T p → spillPath body = Some p ∨ Gone b p) →
  (∀ p, spillPath body = Some p →
     tagged (bs_uuids (ss_bodyStore s)) p ∧ (bs_uuids (ss_bodyStore s) < bs_uuids b)%nat) →
  bs_orphanedSpills b = bs_orphanedSpills (ss_bodyStore s) →
  records st = records (set_totalBodyBytes (st_totalBodyBytes st)
    (set_transactions (<[id := bindBody side body n r]> (st_transactions st1)) st1)) →
  st_totalBodyBytes st =
    st_totalBodyBytes st1 - from_option bodyStoredBytes 0 (record_body r side) + bodyStoredBytes body →
  st_totalBodyBytes st ≤ rm_maxTotalBodyBytes (st_limits (ss_state s)) →
  st_directoryCleanupPending st = st_directoryCleanupPending st1 →
  st_cleanupQueue st = st_cleanupQueue st1 ++ removed ++ option_list (clone_body <$> record_body r side) →
  Keeps hs (Storing id (eq side)) s (set_inner st (set_bodyStore b s)).
Proof.
  intros Hw Hr Hp Hev Hfin Hf Htag Hholds Hlen HT Hbody Ho Hrec Htot Hmax Hdir Hq.
  set (r' := bindBody side body n r) in *. set (c := Storing id (eq side)).
  pose proof (ci_records _ (si_core _ (w_state _ _ Hw)) _ _ Hr) as Hrok.
  destruct (bind_ok side body n id r Hrok) as (Hrok' & Hp' & Hid' & Hside & Hother & Hbytes);
    [rewrite <-Hlen; apply len_nonneg|done|]. fold r' in Hrok', Hp', Hid', Hside, Hother, Hbytes.
  unfold records, fixed in Hrec. cbn in Hrec.
  injection Hrec as Htr Hor Hix Hn Hv H1 H2 H3 _ _ _ _.
  assert (Hr1 : st_transactions st1 !! id = Some r).
  { rewrite (et_lookup _ _ _ _ Hev), decide_False; [done|]. by intros [_ ?]%Hfin. }
  pose proof (et_state _ _ _ _ Hev) as Hst1.
  assert (Hlim : st_limits st1 = st_limits (ss_state s)).
  { pose proof (et_frame _ _ _ _ Hev) as Hx. unfold frame in Hx. congruence. }
  assert (Hseq : sequence r' = sequence r) by (unfold identity in Hid'; congruence).
  assert (Hst : StateInv st).
  { eapply (state_replace st1 st id r r'); try done; [|lia|congruence].
    apply (index_replace st1 st id r r'); [apply Hst1|done|by rewrite !pending_no_entry|done..]. }
  set (s1 := set_bodyStore b s). set (s2 := set_inner st1 s1).
  assert (He1 : Evolves c s s1).
  { eapply evolves_store; [done..| |by intros i []]. intros p Hp1%Htag Hin.
    eapply fresh_unowned in Hp1 as [Hno _]; [|apply Hw]. apply Hno. apply owned_elem. by left. }
  assert (He2 : Evolves c s s2).
  { eapply (world_evolves_trans c hs); [done|exact He1|].
    eapply (evicted_evolves c ids (ss_state s)); try done; [apply Hw|by intros x [? _]%Hfin|apply Hw]. }
  split.
  2: { eapply (world_evolves_trans c hs); [done|exact He2|].
       change (Evolves c s2 (set_inner st s2)). eapply replace_evolves; try done.
       - unfold fixed. cbn. congruence.
       - split; [done|congruence|]. intros side' body' [Hx|Hno] Hb; [congruence|]. split; [|done].
         rewrite Hother; [done|]. intros ->. by apply Hno. }
  assert (Halive : ∀ o, alive st o → alive (ss_state s) o).
  { unfold alive. intros o. rewrite Htr, lookup_insert_is_Some. intros [<-|[_ Hx]]; [by exists r|].
    rewrite (et_lookup _ _ _ _ Hev) in Hx. case_decide; [by destruct Hx|done]. }
  pose proof (sf_uuids _ _ _ _ Hf) as Hu. pose proof Hw as [Hs Hver Hi Hown Hd]. split; cbn.
  - done.
  - rewrite Hv. destruct (et_version _ _ _ _ Hev) as [[-> _]| ->]; [done|]. unfold is_u64, saturating_add in *. lia.
  - intros o (m & Hm & ->)%Halive%Hi. exists m. split; [lia|done].
  - intros h (m & Hm & Heq)%Hown. exists m. split; [lia|done].
  - rewrite Hq, (et_queue _ _ _ _ Hev).
    eapply (disk_retire (removed ++ option_list (record_body r side))).
    + eapply (disk_add T body bytes); done.
    + rewrite (et_live _ _ _ _ Hev).
      destruct (live_insert st1 st id r r' Hr1 Htr) as (rest & -> & ->).
      destruct (bind_bodies side body n r) as (other & -> & Hnew). fold r' in Hnew. rewrite Hnew.
      solve_Permutation.
    + by rewrite !spills_app, spills_clone.
    + done.
Qed.

(** What [storeBody] chooses to keep: within the body limit and what the total allows. *)
Lemma body_room s id r side (bytes : list Z) :
  StateInv s → st_transactions s !! id = Some r →
  let old := from_option bodyStoredBytes 0 (clone_body <$> record_body r side) in
  let desired := Z.min (len bytes) (rm_maxBodyBytes (st_limits s)) in
  let base := saturating_sub (st_totalBodyBytes s) old in
  let ids := planBodyBudgetEvictions s id base desired in
  let retained := saturating_sub base (ofIds transactionBodyBytes s ids) in
  let stored := Z.min desired (saturating_sub (rm_maxTotalBodyBytes (st_limits s)) retained) in
  ∀ st1 removed, Evicted ids s st1 removed →
  0 ≤ stored ≤ len bytes ∧ stored ≤ rm_maxBodyBytes (st_limits s) ∧
  saturating_add (saturating_sub (st_totalBodyBytes st1) old) stored =
    st_totalBodyBytes st1 - from_option bodyStoredBytes 0 (record_body r side) + stored ∧
  st_totalBodyBytes st1 - from_option bodyStoredBytes 0 (record_body r side) + stored ≤
    rm_maxTotalBodyBytes (st_limits s).
Proof.
  cbv zeta. intros Hs Hr st1 removed Hev.
  set (ids := planBodyBudgetEvictions _ _ _ _) in *.
  assert (Hold : from_option bodyStoredBytes 0 (clone_body <$> record_body r side) =
                 from_option bodyStoredBytes 0 (record_body r side)) by by destruct (record_body r side).
  rewrite Hold. set (old := from_option _ _ _).
  assert (Hids : ∀ x, x ∈ ids → finished s x ∧ x ≠ id) by (intros x Hx; by apply planBody_finished in Hx).
  assert (Hnd : NoDup ids) by by apply planBody_NoDup.
  pose proof (ci_records _ (si_core _ Hs) _ _ Hr) as Hrok.
  assert (Hbounds : 0 ≤ old ≤ transactionBodyBytes r).
  { unfold old, transactionBodyBytes. pose proof (ro_bodies _ _ Hrok) as Hb. revert Hb.
    unfold intoBodyReferences, sum_by. intros Hb.
    assert (Hq : ∀ b, tr_requestBody r = Some b → 0 ≤ bodyStoredBytes b).
    { intros b Hq. apply Hb. rewrite Hq. set_solver. }
    assert (Hp : ∀ b, tr_responseBody r = Some b → 0 ≤ bodyStoredBytes b).
    { intros b Hp. apply Hb. rewrite Hp. set_solver. }
    destruct side; cbn; destruct (tr_requestBody r) as [q|], (tr_responseBody r) as [p|]; cbn;
      try pose proof (Hq _ eq_refl); try pose proof (Hp _ eq_refl); lia. }
  assert (Hr1 : st_transactions st1 !! id = Some r).
  { rewrite (et_lookup _ _ _ _ Hev), decide_False; [done|]. by intros [_ ?]%Hids. }
  pose proof (core_body_le _ _ _ (si_core _ (et_state _ _ _ _ Hev)) Hr1) as Hle.
  pose proof (total_removed transactionBodyBytes _ _ ids Hnd (et_lookup _ _ _ _ Hev)) as Hfreed.
  rewrite <-(ci_bodies _ (si_core _ Hs)), <-(ci_bodies _ (si_core _ (et_state _ _ _ _ Hev))) in Hfreed.
  fold (ofIds transactionBodyBytes s ids) in Hfreed.
  set (freed := ofIds _ _ _) in *. clearbody freed old ids.
  pose proof (core_total_nonneg _ (si_core _ Hs)). pose proof (si_total _ Hs). pose proof (si_limit _ Hs).
  pose proof (si_body_limit _ Hs). pose proof (len_nonneg bytes).
  assert (st_totalBodyBytes st1 ≤ st_totalBodyBytes s).
  { rewrite (et_total _ _ _ _ Hev). assert (0 ≤ sum_by bodyStoredBytes removed); [|lia].
    apply sum_by_nonneg. intros b Hb.
    assert (Hlive : b ∈ liveBodies s) by (rewrite (et_live _ _ _ _ Hev); set_solver).
    apply live_elem in Hlive as (x & rx & Hrx & Hbx).
    eapply ro_bodies, Hbx. by eapply (ci_records _ (si_core _ Hs)). }
  unfold saturating_sub, saturating_add. lia.
Qed.

(** What is on record after a body was stored. *)
Definition StoredAs (id : chars) (side : MessageSide) (bytes : list Z) (meta : BodyHandleMeta)
    (s : RecordingSession) : Prop :=
  ∃ r b, st_transactions (ss_state s) !! id = Some r ∧ isPending r = true ∧ record_body r side = Some b ∧
    bf_meta b = clone_meta meta ∧
    contentOf (ss_bodyStore s) b = Some (slice bytes 0 (bm_storedBytes meta)) ∧
    0 ≤ bm_storedBytes meta ≤ len bytes ∧ bm_storedBytes meta ≤ rm_maxBodyBytes (st_limits (ss_state s)).

Lemma storeBody_runs hs s id side body :
  World hs s →
  Runs (storeBody id side body) s
    (λ meta s', Keeps hs (Storing id (eq side)) s s' ∧
       bm_truncated meta = (bm_storedBytes meta <? bw_originalBytes body) ∧
       StoredAs id side (bw_bytes body) meta s')
    (λ _ s', Keeps hs (Storing id (eq side)) s s').
Proof.
  intros Hw. unfold storeBody. change (boundBodyWrite body) with body. cbv zeta.
  case_if Hlength; [by apply runs_fail, keeps_refl|].
  eapply (drain_pending (Storing id (eq side)) hs s id); [done|].
  intros r s1 Hk1 Hw1 _ Hr Hp. apply runs_bind, with_state_runs. unfold Datatypes.id.
  destruct (removeTransactions_evicted (planBodyBudgetEvictions (ss_state s1) id
    (saturating_sub (st_totalBodyBytes (ss_state s1))
       (from_option bodyStoredBytes 0 (clone_body <$> record_body r side)))
    (Z.min (len (bw_bytes body)) (rm_maxBodyBytes (st_limits (ss_state s1))))) _ (w_state _ _ Hw1))
    as (st1 & removed & Hremove & Hev).
  destruct (body_room _ id r side (bw_bytes body) (w_state _ _ Hw1) Hr _ _ Hev)
    as (Hstored & Hbody & Htotal & Hmax).
  match goal with |- context [Z.min (Z.min ?a ?b) ?c] => set (stored := Z.min (Z.min a b) c) in * end.
  set (meta := {| bm_transactionId := _ |}).
  set (ids := planBodyBudgetEvictions _ _ _ _) in *.
  assert (Hfin : ∀ x, x ∈ ids → finished (ss_state s1) x ∧ x ≠ id).
  { intros x Hx. by apply planBody_finished in Hx. }
  clearbody stored ids.
  set (bytes := bw_bytes body) in *. clearbody bytes.
  apply runs_bind, runs_lift. unfold sub_slice, get_range.
  rewrite (proj2 (in_range_spec bytes 0 stored)) by lia. cbn [expect Satisfies].
  assert (Hlen : len (slice bytes 0 stored) = stored) by (rewrite len_slice; lia).
  apply runs_bind, on_store_runs. eapply runs_mono, store_runs; cbn beta.
  2: { intros e b (T & Hf & HT). eapply store_keeps_trans; [exact Hw|by apply quiet_keeps|].
       split; [eapply world_store; [done|by eapply sf_uuids|by eauto|]|].
       - eapply disk_touch_fresh; [apply Hw1|done..].
       - eapply evolves_store; [done..| |by intros i []]. intros p (Hp1 & _ & _)%HT Hin.
         eapply fresh_unowned in Hp1 as [Hno _]; [|apply Hw1]. apply Hno, owned_elem. by left. }
  intros staged b (T & Hf & Htag & Hmeta & _ & Hholds & HT & Hspill & Hor).
  set (new := sb_bodyReference staged) in *.
  apply runs_bind, run_state_runs. cbn [ss_state set_bodyStore set_inner]. rewrite Hremove. cbn [fst snd].
  set (old := clone_body <$> record_body r side) in *.
  assert (Hnonneg : 0 ≤ st_totalBodyBytes st1).
  { apply core_total_nonneg, (et_state _ _ _ _ Hev). }
  apply runs_bind.
  assert (Hsub : Runs (match old with
      | Some _ => update_state (λ s, set_totalBodyBytes
                    (saturating_sub (st_totalBodyBytes s) (from_option bodyStoredBytes 0 old)) s)
      | None => mret tt end) (set_inner st1 (set_bodyStore b s1))
      (λ _ s', s' = set_inner (set_totalBodyBytes
         (saturating_sub (st_totalBodyBytes st1) (from_option bodyStoredBytes 0 old)) st1) (set_bodyStore b s1))
      (λ (_ : CaptureError) _, False)).
  { destruct old; [by apply update_runs|]. apply runs_ret. unfold saturating_sub. cbn.
    rewrite Z.sub_0_r, Z.max_l by done. by destruct st1. }
  eapply runs_mono, Hsub; [|done]. cbn beta. intros _ s2 ->.
  apply runs_bind, update_runs. cbn [ss_state set_inner set_totalBodyBytes st_totalBodyBytes].
  rewrite Htotal.
  assert (Hr1 : st_transactions st1 !! id = Some r).
  { rewrite (et_lookup _ _ _ _ Hev), decide_False; [done|]. by intros [_ ?]%Hfin. }
  apply runs_bind. eapply existingRecord_found; [exact Hr1|].
  apply runs_bind, update_runs, runs_bind, enqueue_runs.
  change (commitStaged staged) with new.
  match goal with |- Runs _ (set_inner ?st _) _ _ => set (st' := st) end.
  pose proof (alter_insert (bindBody side new (bw_originalBytes body)) _ _ _ Hr1) as Halter.
  assert (Hnew : bodyStoredBytes new = stored) by (unfold bodyStoredBytes; by rewrite Hmeta).
  assert (Hk2 : Keeps hs (Storing id (eq side)) s1 (set_inner st' (set_bodyStore b s1))).
  { eapply (stored_keeps hs s1 b ids st1 removed id r side new (bw_originalBytes body) st' T
      (slice bytes 0 stored)); try done; cbn; rewrite ?Halter, ?Hnew; try done.
    unfold records, st'. cbn -[bindBody]. by rewrite Halter. }
  assert (Hk : Keeps hs (Storing id (eq side)) s (set_inner st' (set_bodyStore b s1))).
  { eapply store_keeps_trans; [done|by apply quiet_keeps|done]. }
  set (s3 := set_inner st' (set_bodyStore b s1)) in *.
  assert (Hstd : StoredAs id side bytes meta s3).
  { pose proof (ci_records _ (si_core _ (w_state _ _ Hw1)) _ _ Hr) as Hrok.
    destruct (bind_ok side new (bw_originalBytes body) id r Hrok) as (_ & Hpend & _ & Hside & _); [lia|done|].
    exists (bindBody side new (bw_originalBytes body) r), new. cbn.
    split_and!; [|done|done|done| |lia|lia|].
    - rewrite Halter. apply lookup_insert_eq.
    - by eapply holds_content.
    - pose proof (et_frame _ _ _ _ Hev) as Hx. unfold frame in Hx. injection Hx as _ _ -> _ _ _ _. done. }
  apply runs_bind. eapply runs_mono, (notify_keeps hs (Storing id (eq side)) s s3
    (λ s', ss_state s' = st' ∧ ss_bodyStore s' = b)); [|done|done|exact Hk|done]; cbn beta.
  intros _ s4 [Hk4 [Hst4 Hb4]]. apply runs_bind. pose proof Hk4 as [Hw4 _].
  eapply runs_mono, drain_runs; [| |exact Hw4]; cbn beta.
  2: { intros e s5 [Hk5 _]. eapply store_keeps_trans; [done..|]. by apply quiet_keeps. }
  intros _ s5 ([Hk5 Hrec5] & _). apply runs_ret. split_and!; [|done|].
  - eapply store_keeps_trans; [done..|]. by apply quiet_keeps.
  - destruct Hstd as (r' & b' & Hr' & Hpr' & Hb' & Hm & Hc & Hrest).
    assert (Htr : st_transactions (ss_state s5) = st_transactions st').
    { rewrite (records_transactions _ _ Hrec5). by rewrite Hst4. }
    exists r', b'. rewrite Htr. split_and!; try done; try apply Hrest.
    + rewrite <-Hc. cbn. rewrite <-Hb4.
      destruct Hk5 as [_ He5]. eapply (ev_continues _ _ _ He5 id r' r'); [by rewrite Hst4|by rewrite Htr| |done].
      right. by intros [].
    + pose proof (ev_fixed _ _ _ (kp_evolves _ _ _ _ Hk5)) as Hfx. unfold fixed in Hfx.
      injection Hfx as _ -> _. rewrite Hst4. apply Hrest.
Qed.
End storage.
