(* ===== verification/RecordingSpools.v ===== *)
(** * Spools, packets, clearing and closing keep the world

    Registering the two bodies of a capture hands the staged files over to the
    transaction or removes them; clearing and closing give every body up. *)

From S2P Require Import Prelude NetAddress Stateful Text Location LocationTheorems CaptureModel MetadataBudget BodyStore BodyStoreSpec BodyOwnership RecordingState RecordingBudget Recording RecordingInvariant RecordingWorld RecordingCleanup RecordingReplace RecordingMethods RecordingStorage.

Section spools.
Context `{Layout} `{Environment} {Hok : EnvironmentOk}
  (drain_order : gmap chars TransactionRecord → list TransactionRecord).

(** ** Captures outside the lock *)
Lemma world_created hs s owner spool b n :
  World hs s → (n < bs_uuids (ss_bodyStore s))%nat → owner = new_v4 n →
  (bs_uuids (ss_bodyStore s) ≤ bs_uuids b)%nat →
  DiskInv (liveBodies (ss_state s)) (st_cleanupQueue (ss_state s)) (alive (ss_state s))
    (HeldSpool owner spool true :: hs) b →
  World (HeldSpool owner spool true :: hs) (set_bodyStore b s).
Proof.
  intros [Hs Hv Hi Hown Hd] Hn Ho Hu Hd'. split; cbn; auto.
  - intros id (m & Hm & ->)%Hi. exists m. split; [lia|done].
  - intros h [->|(m & Hm & Heq)%Hown]%elem_of_cons; [exists n; split; [lia|done]|].
    exists m. split; [lia|done].
Qed.

(** Every name outside what transactions own may be touched. *)
Lemma evolves_held c hs s b T :
  World hs s → StoreFrame T Nowhere (ss_bodyStore s) b →
  (∀ p, T p → tagged (bs_uuids (ss_bodyStore s)) p ∨ ∃ h, h ∈ hs ∧ p ∈ heldPaths h) →
  Evolves c s (set_bodyStore b s).
Proof.
  intros Hw Hf HT. eapply evolves_store; [done..| |by intros i []]. intros p Hp Hin.
  apply HT in Hp as [Hp|(h & Hh & Hp)].
  - eapply fresh_unowned in Hp as [Hno _]; [|apply Hw]. apply Hno, owned_elem. by left.
  - pose proof (di_nodup _ _ _ _ _ (w_disk _ _ Hw)) as Hnd. unfold owned in Hnd.
    apply NoDup_app in Hnd as (_ & Hdisj & _). apply (Hdisj p Hin). apply elem_of_app. right.
    apply list_elem_of_bind. by exists h.
Qed.

Lemma createSpool_world hs s id side n :
  World hs s → (n < bs_uuids (ss_bodyStore s))%nat → id = new_v4 n →
  Runs (on_store (createSpool id side)) s
    (λ spool s', World (HeldSpool id spool true :: hs) s' ∧ Evolves Quiet s s' ∧
       bo_file spool = length (dk_inodes (bs_disk (ss_bodyStore s))))
    (λ _ s', Keeps hs Quiet s s').
Proof.
  intros Hw Hn Hid. apply on_store_runs. eapply runs_mono, createSpool_runs; cbn beta.
  - intros spool b (Hf & Hpt & Hct & Hne & Hfile & Hwr & Hnm & Hi & Hu & Ho). split_and!; [| |done].
    + eapply world_created; [done|done|done|by apply Nat.lt_le_incl|]. eapply disk_create; try done. apply Hw.
    + eapply evolves_held; [done..|]. intros p <-. by left.
  - intros e b (T & Hf & HT). split.
    + eapply world_store; [done|by eapply sf_uuids|by eauto|]. eapply disk_touch_fresh; [apply Hw|done..].
    + eapply evolves_held; [done..|]. intros p Hp. left. by apply HT.
Qed.

(** Appending: a failed write leaves a spool that can only be dropped. *)
Lemma appendSpool_world hs s id spool bytes :
  World (HeldSpool id spool true :: hs) s →
  (∀ content, dk_inodes (bs_disk (ss_bodyStore s)) !! bo_file spool = Some content →
     len content + len bytes ≤ i64_max) →
  Runs (on_store (appendSpool spool bytes)) s
    (λ spool' s', World (HeldSpool id spool' true :: hs) s' ∧ Evolves (Writing (bo_file spool)) s s' ∧
       ss_state s' = ss_state s ∧ bo_file spool' = bo_file spool)
    (λ _ s', World (HeldSpool id spool false :: hs) s' ∧ Evolves (Writing (bo_file spool)) s s' ∧
       ss_state s' = ss_state s).
Proof.
  intros Hw Hsmall. apply on_store_runs.
  assert (Hev : ∀ b, StoreFrame Nowhere (eq (bo_file spool)) (ss_bodyStore s) b →
    Evolves (Writing (bo_file spool)) s (set_bodyStore b s)).
  { intros b Hf. eapply evolves_store; [done..|by intros p []|]. intros i <-. split; [|done].
    unfold opens. cbn. set_solver. }
  pose proof Hw as [_ _ _ _ Hd].
  destruct (di_held _ _ _ _ _ Hd (HeldSpool id spool true) ltac:(by left)) as (_ & _ & content & Hi & Hwr).
  destruct (Hwr eq_refl) as [Hwritten Hle].
  eapply runs_mono, appendSpool_runs; cbn beta.
  - intros spool' b (Hf & Hfile & Hp & Hc & Hwr' & Hcont & Ho). split_and!; [|by apply Hev|done|done].
    eapply world_store; [done|by eapply sf_uuids| |].
    { intros h [->|Hh]%elem_of_cons; [by eexists; split; [by left|]|exists h; split; [by right|done]]. }
    eapply disk_write; [done..|]. intros content' Hi' _. rewrite (Hcont _ Hi) in Hi'. injection Hi' as <-.
    pose proof (Hsmall _ Hi). pose proof (len_nonneg content). pose proof (len_nonneg bytes).
    rewrite Hwr', Hwritten, len_app. split; [|lia].
    assert (i64_max < u64_max) by done. unfold is_u64, saturating_add in *. lia.
  - intros e b Hf. split_and!; [|by apply Hev|done].
    eapply world_store; [done|by eapply sf_uuids| |].
    { intros h [->|Hh]%elem_of_cons; [by eexists; split; [by left|]|exists h; split; [by right|done]]. }
    eapply (disk_write _ spool spool); done.
Qed.

(** A capture gives a spool or a staged body up. *)
Lemma drop_world hs s h b T :
  World (h :: hs) s → StoreFrame T Nowhere (ss_bodyStore s) b → (∀ p, T p → p ∈ heldPaths h) →
  (∀ p, p ∈ heldPaths h → Gone b p) → World hs (set_bodyStore b s) ∧ Evolves Quiet s (set_bodyStore b s).
Proof.
  intros Hw Hf HT Hg. split.
  - eapply world_store; [done|by eapply sf_uuids| |].
    { intros h' Hh. exists h'. split; [by right|done]. }
    eapply disk_drop; [apply Hw|done..].
  - eapply evolves_held; [done..|]. intros p Hp. right. exists h. split; [by left|by apply HT].
Qed.

Lemma committed_unbound hs s id spool intact :
  World (HeldSpool id spool intact :: hs) s →
  dk_names (bs_disk (ss_bodyStore s)) !! text (bo_committedPath spool) = None ∧
  text (bo_pendingPath spool) ≠ text (bo_committedPath spool).
Proof.
  intros Hw. pose proof (w_disk _ _ Hw) as Hd.
  destruct (di_held _ _ _ _ _ Hd (HeldSpool id spool intact) ltac:(by left)) as (Hc & _).
  split; [done|]. pose proof (di_nodup _ _ _ _ _ Hd) as Hnd. unfold owned in Hnd. cbn in Hnd.
  apply NoDup_app in Hnd as (_ & _ & Hnd). apply NoDup_app in Hnd as (_ & _ & Hnd).
  apply NoDup_cons in Hnd as [Hnot _]. set_solver.
Qed.

(** Only the pending name exists, so dropping it gives the spool up. *)
Lemma drop_pending_world hs s id spool intact b :
  World (HeldSpool id spool intact :: hs) s →
  StoreFrame (eq (text (bo_pendingPath spool))) Nowhere (ss_bodyStore s) b →
  Gone b (text (bo_pendingPath spool)) → World hs (set_bodyStore b s) ∧ Evolves Quiet s (set_bodyStore b s).
Proof.
  intros Hw Hf Hg. destruct (committed_unbound _ _ _ _ _ Hw) as [Hc Hne]. eapply drop_world; [done..| |].
  - intros p <-. cbn. set_solver.
  - intros p [->|[->|Hp]%elem_of_cons]%elem_of_cons; [done| |by apply elem_of_nil in Hp].
    left. by erewrite name_frame.
Qed.

Lemma dropSpool_world hs s id spool intact :
  World (HeldSpool id spool intact :: hs) s →
  Runs (on_store (dropSpool spool)) s
    (λ _ s', World hs s' ∧ Evolves Quiet s s' ∧ ss_state s' = ss_state s) (λ _ _, False).
Proof.
  intros Hw. apply on_store_runs. eapply runs_mono, dropGuard_runs; [|done]. cbn beta.
  intros _ b [Hf Hg]. split_and!; [..|done]; by eapply drop_pending_world.
Qed.

(** A staged body whose guard is dropped. *)
Definition stagedOf (body : BodyRef) : StagedBody :=
  {| sb_bodyReference := body; sb_spillGuard := spillPath body |}.

Lemma dropStaged_world hs s id body :
  World (HeldBody id body :: hs) s →
  Runs (on_store (dropStaged (stagedOf body))) s
    (λ _ s', World hs s' ∧ Evolves Quiet s s' ∧ ss_state s' = ss_state s) (λ _ _, False).
Proof.
  intros Hw. apply on_store_runs. unfold dropStaged. cbn. destruct (spillPath body) as [p|] eqn:Hp.
  - eapply runs_mono, dropGuard_runs; [|done]. cbn beta. intros _ b [Hf Hg].
    assert (World hs (set_bodyStore b s) ∧ Evolves Quiet s (set_bodyStore b s)) as [? ?]; [|done].
    eapply drop_world; [done..| |]; cbn; rewrite Hp; cbn; set_solver.
  - apply runs_ret.
    assert (World hs (set_bodyStore (ss_bodyStore s) s) ∧ Evolves Quiet s (set_bodyStore (ss_bodyStore s) s))
      as [? ?]; [|done].
    eapply (drop_world _ _ _ _ Nowhere); [done|by apply store_frame_refl|by intros p []|].
    cbn. rewrite Hp. by intros p ?%elem_of_nil.
Qed.

(** Staging a spool. *)
Lemma stageSpool_world hs s id spool meta :
  World (HeldSpool id spool true :: hs) s → bm_storedBytes meta = bo_writtenBytes spool →
  Runs (on_store (stageSpool spool meta)) s
    (λ staged s', ∃ body, staged = stagedOf body ∧ bf_meta body = meta ∧
       World (HeldBody id body :: hs) s' ∧ Evolves Quiet s s' ∧ ss_state s' = ss_state s)
    (λ _ s', World hs s' ∧ Evolves Quiet s s' ∧ ss_state s' = ss_state s).
Proof.
  intros Hw Hmeta. destruct (committed_unbound _ _ _ _ _ Hw) as [Hc Hne].
  apply on_store_runs. eapply runs_mono, stageSpool_runs; [| |done]; cbn beta.
  - intros staged b (Hf & Hm & Hg & Hs & Hholds & Hgone & Ho).
    destruct staged as [body guard]. cbn in *. exists body. split_and!; [|done| | |done].
    + unfold stagedOf. congruence.
    + eapply world_store; [done|by eapply sf_uuids| |].
      { intros h [->|Hh]%elem_of_cons; [by eexists; split; [by left|]|exists h; split; [by right|done]]. }
      eapply disk_stage; try done; [apply Hw|]. by rewrite Hm.
    + eapply evolves_held; [done..|]. intros p Hp. right. exists (HeldSpool id spool true).
      split; [by left|]. cbn. destruct Hp as [->| ->]; set_solver.
  - intros e b [Hf Hg]. split_and!; [..|done]; by eapply drop_pending_world.
Qed.

Lemma world_perm hs hs' s : hs ≡ₚ hs' → World hs s → World hs' s.
Proof.
  intros Hperm [Hs Hv Hi Hown Hd]. split; auto.
  - intros h Hh. apply Hown. by rewrite Hperm.
  - by eapply held_perm.
Qed.

(** ** Registering *)
Lemma bindSpools_ok id request response n m r :
  RecordOk id r → isPending r = true → 0 ≤ bodyStoredBytes request → 0 ≤ bodyStoredBytes response →
  let r' := bindSpools id request response n m r in
  RecordOk id r' ∧ isPending r' = true ∧ identity r' = identity r ∧
  intoBodyReferences r' = [request; response].
Proof.
  intros [Hk Hb Ht] Hp Hq Hs. cbn zeta. split_and!; try done. split; [done| |done].
  intros b. change (b ∈ [request; response] → 0 ≤ bodyStoredBytes b).
  rewrite !elem_of_cons, elem_of_nil. by intros [->|[->|[]]].
Qed.

(** The bodies change hands, the old ones are queued. *)
Lemma registered_keeps hs s id r request response n m st :
  World (HeldBody id request :: HeldBody id response :: hs) s →
  st_transactions (ss_state s) !! id = Some r → isPending r = true →
  records st = records (set_totalBodyBytes (st_totalBodyBytes st)
    (set_transactions (<[id := bindSpools id request response n m r]> (st_transactions (ss_state s)))
       (ss_state s))) →
  st_totalBodyBytes st = st_totalBodyBytes (ss_state s) - transactionBodyBytes r +
    (bodyStoredBytes request + bodyStoredBytes response) →
  st_totalBodyBytes st ≤ rm_maxTotalBodyBytes (st_limits (ss_state s)) →
  st_directoryCleanupPending st = st_directoryCleanupPending (ss_state s) →
  st_cleanupQueue st = st_cleanupQueue (ss_state s) ++
    (option_list (clone_body <$> tr_requestBody r) ++ option_list (clone_body <$> tr_responseBody r)) →
  World hs (set_inner st s) ∧ Evolves (Storing id Everywhere) s (set_inner st s).
Proof.
  intros Hw Hr Hp Hrec Htot Hmax Hdir Hq.
  pose proof (w_disk _ _ Hw) as Hd.
  destruct (di_held _ _ _ _ _ Hd (HeldBody id request) ltac:(by left)) as [[Hq0 _] _].
  destruct (di_held _ _ _ _ _ Hd (HeldBody id response) ltac:(right; by left)) as [[Hs0 _] _].
  pose proof (ci_records _ (si_core _ (w_state _ _ Hw)) _ _ Hr) as Hrok.
  destruct (bindSpools_ok id request response n m r Hrok Hp Hq0 Hs0) as (Hrok' & Hp' & Hid & Hbodies).
  set (r' := bindSpools id request response n m r) in *.
  unfold records, fixed in Hrec. cbn in Hrec. injection Hrec as Htr Hor Hix Hn Hv H1 H2 H3 _ _ _ _.
  assert (Hseq : sequence r' = sequence r) by (unfold identity in Hid; congruence).
  assert (Hbytes : transactionBodyBytes r' = bodyStoredBytes request + bodyStoredBytes response).
  { unfold transactionBodyBytes. rewrite Hbodies. cbn. lia. }
  assert (Hst : StateInv st).
  { eapply (state_replace (ss_state s) st id r r'); try done; [apply Hw| |lia].
    apply (index_replace (ss_state s) st id r r'); [apply Hw|done|by rewrite !pending_no_entry|done..]. }
  split.
  - assert (Halive : ∀ o, alive st o → alive (ss_state s) o).
    { unfold alive. intros o. rewrite Htr, lookup_insert_is_Some. intros [<-|[_ ?]]; [by exists r|done]. }
    pose proof Hw as [_ Hver Hi Hown _]. split; cbn; [done|by rewrite Hv|..].
    + intros o Ho. apply Hi. by apply Halive.
    + intros h Hh. apply Hown. by do 2 right.
    + rewrite Hq. destruct (live_insert (ss_state s) st id r r' Hr Htr) as (rest & Hl & Hl').
      eapply (disk_retire (intoBodyReferences r) _ _ _ _ (alive (ss_state s))).
      * apply (disk_register id response); [|by exists r]. apply (disk_register id request); [exact Hd|by exists r].
      * rewrite Hl, Hl', Hbodies. solve_Permutation.
      * unfold intoBodyReferences. by rewrite !spills_app, !spills_clone.
      * done.
  - eapply replace_evolves; try done; [unfold fixed; congruence|].
    split; [done|congruence|]. intros side body [Hx|Hno] Hb; [congruence|].
    by contradict Hno.
Qed.

Lemma registerSpools_runs hs s id request response :
  World (HeldBody id request :: HeldBody id response :: hs) s →
  Runs (registerSpools id (stagedOf request) (stagedOf response) (bodyStoredBytes request) (bodyStoredBytes response)) s
    (λ _ s', World hs s' ∧ Evolves (Storing id Everywhere) s s' ∧
       ∃ r r', st_transactions (ss_state s) !! id = Some r ∧ isPending r = true ∧
         st_transactions (ss_state s') !! id = Some r' ∧
         record_body r' Request = Some request ∧ record_body r' Response = Some response)
    (λ _ s', s' = s).
Proof.
  intros Hw. pose proof (w_disk _ _ Hw) as Hd.
  destruct (di_held _ _ _ _ _ Hd (HeldBody id request) ltac:(by left)) as [[Hq0 Hq1] _].
  destruct (di_held _ _ _ _ _ Hd (HeldBody id response) ltac:(right; by left)) as [[Hs0 Hs1] _].
  apply runs_bind, ensureOpen_runs; [intros _|done].
  apply runs_bind, pendingRecord_runs; [|done]. intros r Hr Hp. cbv zeta.
  apply runs_bind, with_state_runs. unfold Datatypes.id.
  assert (Hold : saturating_add (from_option bodyStoredBytes 0 (clone_body <$> tr_requestBody r))
      (from_option bodyStoredBytes 0 (clone_body <$> tr_responseBody r)) = transactionBodyBytes r).
  { pose proof (core_body_le _ _ _ (si_core _ (w_state _ _ Hw)) Hr) as Hle.
    pose proof (si_total _ (w_state _ _ Hw)). pose proof (si_limit _ (w_state _ _ Hw)).
    unfold transactionBodyBytes, intoBodyReferences, sum_by, saturating_add in *.
    destruct (tr_requestBody r), (tr_responseBody r); cbn in *;
      unfold bodyStoredBytes in *; cbn in *; lia. }
  rewrite Hold.
  pose proof (core_body_le _ _ _ (si_core _ (w_state _ _ Hw)) Hr) as Hle.
  case_if Hfits; [by apply runs_fail|]. apply orb_false_iff in Hfits as [_ Hfits%Z.ltb_ge].
  assert (Hnew : saturating_add (bodyStoredBytes request) (bodyStoredBytes response) =
                 bodyStoredBytes request + bodyStoredBytes response).
  { unfold saturating_add, bodyStoredBytes. assert (2 * i64_max < u64_max) by done. lia. }
  rewrite Hnew in *. unfold saturating_sub in Hfits at 1.
  assert (Hret : saturating_sub (st_totalBodyBytes (ss_state s)) (transactionBodyBytes r) =
                 st_totalBodyBytes (ss_state s) - transactionBodyBytes r).
  { unfold saturating_sub. lia. }
  rewrite Hret in *.
  pose proof (core_body_nonneg _ _ _ (si_core _ (w_state _ _ Hw)) Hr).
  pose proof (si_total _ (w_state _ _ Hw)). pose proof (si_limit _ (w_state _ _ Hw)).
  unfold bodyStoredBytes in Hq0, Hs0 |- *.
  assert (Hsum : saturating_add (st_totalBodyBytes (ss_state s) - transactionBodyBytes r)
      (bm_storedBytes (bf_meta request) + bm_storedBytes (bf_meta response)) =
      st_totalBodyBytes (ss_state s) - transactionBodyBytes r +
      (bm_storedBytes (bf_meta request) + bm_storedBytes (bf_meta response))).
  { unfold saturating_add, bodyStoredBytes in *. lia. }
  rewrite Hsum.
  apply runs_bind, update_runs, runs_bind, update_runs, runs_bind, enqueue_runs.
  match goal with |- Runs _ (set_inner ?st _) _ _ => set (st' := st) end.
  change (commitStaged (stagedOf request)) with request in st'.
  change (commitStaged (stagedOf response)) with response in st'.
  pose proof (alter_insert (bindSpools id request response (bm_storedBytes (bf_meta request))
    (bm_storedBytes (bf_meta response))) _ _ _ Hr) as Halter.
  destruct (registered_keeps hs s id r request response (bm_storedBytes (bf_meta request))
    (bm_storedBytes (bf_meta response)) st' Hw Hr Hp) as [Hw' He']; try done.
  { unfold st', records. cbn -[bindSpools]. by rewrite Halter. }
  { unfold st'. cbn. unfold bodyStoredBytes in *. lia. }
  eapply runs_mono, (notify_runs hs (Storing id Everywhere)); [|done|exact Hw']. cbn beta.
  intros _ s2 ([Hw2 He2] & Hst2 & _). split_and!; [done| |].
  - eapply world_evolves_trans; [exact Hw|exact He'|exact He2].
  - exists r. eexists. split_and!; [done|done| | |]; [rewrite Hst2; unfold st'; cbn -[bindSpools];
      rewrite Halter; apply lookup_insert_eq|done|done].
Qed.

(** A failed registration removes the staged files, a drain that fails does not. *)
Lemma registerStaged_runs hs s id request response :
  World (HeldBody id request :: HeldBody id response :: hs) s →
  Runs (registerStaged id (stagedOf request) (stagedOf response) (bodyStoredBytes request)
          (bodyStoredBytes response)) s
    (λ _ s', World hs s' ∧ Evolves (Storing id Everywhere) s s' ∧
       ∃ r r', st_transactions (ss_state s) !! id = Some r ∧ isPending r = true ∧
         st_transactions (ss_state s') !! id = Some r' ∧
         record_body r' Request = Some request ∧ record_body r' Response = Some response)
    (λ _ s', World hs s' ∧ Evolves (Storing id Everywhere) s s').
Proof.
  intros Hw. set (c := Storing id Everywhere).
  assert (Hquiet : ∀ s1 s2, Evolves Quiet s1 s2 → Evolves c s1 s2).
  { intros s1 s2. by apply evolves_mono; intros ?. }
  apply runs_bind, on_error_runs, on_error_runs.
  eapply runs_mono, registerSpools_runs; [| |exact Hw]; cbn beta.
  - intros _ s1 (Hw1 & He1 & Hpost). destruct Hpost as (r & r' & Hr & Hp & Hr' & Hq & Hs).
    eapply runs_mono, drain_runs; [| |exact Hw1]; cbn beta.
    + intros _ s2 ([[Hw2 He2] Hrec] & _). split_and!; [done|by eapply world_evolves_trans; eauto|].
      exists r, r'. rewrite (records_transactions _ _ Hrec). done.
    + intros _ s2 [[Hw2 He2] _]. split; [done|]. by eapply world_evolves_trans; eauto.
  - intros e s1 ->.
    eapply runs_mono, (dropStaged_world (HeldBody id request :: hs)); [|done|by eapply world_perm, Hw; constructor].
    cbn beta. intros _ s1 (Hw1 & He1 & _).
    eapply runs_mono, dropStaged_world; [|done|exact Hw1]. cbn beta. intros _ s2 (Hw2 & He2 & _).
    split; [done|]. eapply world_evolves_trans; eauto.
Qed.

(** ** Packets *)
Lemma packets_replaces c id r side packets :
  RecordOk id r → Replaces c id r (set_packets side packets r).
Proof. intros [Hk Hb Ht]. destruct side; split; try done; by split. Qed.

Lemma storeStreamPackets_runs c hs s id side packets :
  World hs s →
  Runs (storeStreamPackets id side packets) s (λ _ s', Keeps hs c s s') (λ _ s', Keeps hs c s s').
Proof.
  intros Hw. apply runs_bind, ensureOpen_runs; [intros _|by apply keeps_refl].
  apply runs_bind, existingRecord_runs; [|by apply keeps_refl]. intros r Hr. cbv zeta.
  case_if Hinvalid; [by apply runs_fail, keeps_refl|].
  pose proof (ci_records _ (si_core _ (w_state _ _ Hw)) _ _ Hr) as Hrok.
  assert (Heq : ∃ old new, replaceAndNotify (replaceStreamPacketsWithinMetadataBudget id side packets) s =
    replaceAndNotify (replaceWithinBudget id old new (set_packets side packets)) s).
  { eexists _, _. apply replaceAndNotify_ext. unfold replaceStreamPacketsWithinMetadataBudget.
    unfold mbind at 1, stateful_bind at 1, gets, Datatypes.id. rewrite Hr. reflexivity. }
  destruct Heq as (old & new & Heq). apply runs_bind. eapply runs_ext; [exact Heq|].
  eapply runs_mono, (replaceAndNotify_runs c hs s id r); [|done|done|done|by apply packets_replaces|by destruct side].
  cbn beta. intros _ s1 (Hk1 & _). by eapply drain_keeps.
Qed.

(** ** Clearing and closing *)
(** Every transaction is gone, its bodies are queued. *)
Lemma removed_all_keeps hs s st removed :
  World hs s → (∀ m, drain_order m ≡ₚ (map_to_list m).*2) →
  removeAllTransactions drain_order (ss_state s) = (st, removed) →
  ∀ st', records st' = records (markCollectionChanged st) →
    st_cleanupQueue st' = st_cleanupQueue st ++ removed →
    Keeps hs Clearing s (set_inner st' s).
Proof.
  intros Hw Hdrain [= <- <-] st' Hrec Hq. cbn -[saturating_sub] in Hq.
  unfold records, fixed in Hrec. cbn -[saturating_add] in Hrec.
  injection Hrec as Htr Hor Hix Ht Hn Hv H1 H2 H3 _ _ _ _.
  assert (Hdead : ∀ o, ¬ alive st' o) by (intros o [r Hr]; by rewrite Htr in Hr).
  pose proof Hw as [[_ _ _ _ _ Hmax Hcnt Htot Hlim Hbl _] Hver Hi Hown Hd]. split.
  - split; cbn.
    + split; rewrite ?Htr, ?Hor, ?Hn, ?H2, ?Ht; try done.
      * split; rewrite ?Htr, ?Ht; [done| |]; [by rewrite total_empty|].
        split; unfold Indexed; rewrite Hix, ?Htr; [|done].
        intros key member. split; [by intros (? & ? & _)|by intros (? & ? & ? & _)].
      * constructor.
      * intros id. rewrite lookup_empty. split; [by intros ?%elem_of_nil|by intros [??]].
      * constructor.
      * rewrite map_size_empty. lia.
      * pose proof (core_total_nonneg _ (si_core _ (w_state _ _ Hw))). lia.
    + rewrite Hv. unfold is_u64, saturating_add in *. lia.
    + intros id Hid. by apply Hdead in Hid.
    + done.
    + rewrite Hq. eapply (disk_retire (liveBodies (ss_state s))); [exact Hd| | |by intros o ?%Hdead].
      * unfold liveBodies at 3. rewrite Htr, map_to_list_empty. cbn. by rewrite app_nil_r.
      * apply spills_perm. unfold liveBodies. by rewrite Hdrain.
  - apply evolves_state.
    + unfold fixed. congruence.
    + rewrite Hv. unfold is_u64, saturating_add in *. lia.
    + rewrite Hv. intros Hsame Hlt. unfold is_u64, saturating_add in *. lia.
    + intros o Ho. by apply Hdead in Ho.
    + intros id r _ _ Hno. by contradict Hno.
    + intros id r r' _ Hr'. by rewrite Htr in Hr'.
Qed.

(** An empty session: no transaction, no queued body, no file. *)
Definition Emptied (s : RecordingSession) : Prop :=
  st_transactions (ss_state s) = ∅ ∧ st_order (ss_state s) = [] ∧ st_totalBodyBytes (ss_state s) = 0 ∧
  st_cleanupQueue (ss_state s) = [] ∧ dk_names (bs_disk (ss_bodyStore s)) = ∅ ∧
  bs_orphanedSpills (ss_bodyStore s) = ∅.

Lemma records_all s s' :
  records s = records s' →
  st_transactions s = st_transactions s' ∧ st_order s = st_order s' ∧
  st_totalBodyBytes s = st_totalBodyBytes s' ∧ st_collectionVersion s = st_collectionVersion s'.
Proof. unfold records. by intros [= ? ? _ ? _ ? _ _ _ _ _ _ _]. Qed.

Lemma clear_scope c s s' : (∀ o, sc_finish c o) → Evolves Quiet s s' → Evolves c s s'.
Proof. intros _. by apply evolves_mono; intros ?. Qed.

Lemma clearSession_runs hs s :
  World hs s → (∀ m, drain_order m ≡ₚ (map_to_list m).*2) →
  Runs (clearSession drain_order) s
    (λ _ s', Keeps hs Clearing s s' ∧ Emptied s' ∧ st_directoryCleanupPending (ss_state s') = false)
    (λ _ s', Keeps hs Clearing s s').
Proof.
  intros Hw Hdrain. apply runs_bind, ensureOpen_runs; [intros _|by apply keeps_refl].
  apply runs_bind, run_state_runs. destruct (removeAllTransactions drain_order (ss_state s)) as [st removed] eqn:Hrm.
  cbn [fst snd]. apply runs_bind, update_runs, runs_bind, update_runs, runs_bind, enqueue_runs.
  match goal with |- Runs _ (set_inner ?st _) _ _ => set (st' := st) end.
  assert (Hk : Keeps hs Clearing s (set_inner st' s)) by by eapply removed_all_keeps.
  apply runs_bind. eapply runs_mono, (notify_keeps hs Clearing s (set_inner st' s) (λ s', ss_state s' = st'));
    [|done|done|exact Hk|done]; cbn beta.
  intros _ s1 [Hk1 Hst1]. pose proof Hk1 as [Hw1 _].
  eapply runs_mono, drain_runs; [| |exact Hw1]; cbn beta.
  2: { intros e s2 [Hk2 _]. eapply store_keeps_trans; [done..|]. by apply quiet_keeps. }
  intros _ s2 ([Hk2 Hrec2] & Hq2 & Ho2 & Hp2 & Hn2). split_and!; [|..|done].
  - eapply store_keeps_trans; [done..|]. by apply quiet_keeps.
  - destruct (records_all _ _ Hrec2) as (Htr & Hor & Ht & _). unfold removeAllTransactions in Hrm.
    injection Hrm as <- <-. unfold Emptied. rewrite Htr, Hor, Ht, Hst1.
    split_and!; [done..| |done]. apply Hn2. by rewrite Hst1.
Qed.

Lemma closeSession_runs hs s :
  World hs s → (∀ m, drain_order m ≡ₚ (map_to_list m).*2) →
  Runs (closeSession drain_order) s
    (λ _ s', Keeps hs Clearing s s' ∧ st_closed (ss_state s') = true ∧
       (st_closed (ss_state s) = false → Emptied s'))
    (λ _ s', Keeps hs Clearing s s').
Proof.
  intros Hw Hdrain. apply runs_bind, with_state_runs. unfold Datatypes.id.
  destruct (st_closed (ss_state s)) eqn:Hclosed.
  { apply runs_ret. split_and!; [by apply keeps_refl|done|done]. }
  apply runs_bind, run_state_runs. destruct (removeAllTransactions drain_order (ss_state s)) as [st removed] eqn:Hrm.
  cbn [fst snd]. apply runs_bind, update_runs, runs_bind, enqueue_runs.
  match goal with |- Runs _ (set_inner ?st _) _ _ => set (st' := st) end.
  assert (Hk : Keeps hs Clearing s (set_inner st' s)) by by eapply removed_all_keeps.
  apply runs_bind. eapply runs_mono, (notify_keeps hs Clearing s (set_inner st' s) (λ s', ss_state s' = st'));
    [|done|done|exact Hk|done]; cbn beta.
  intros _ s1 [Hk1 Hst1]. pose proof Hk1 as [Hw1 _].
  apply runs_bind. eapply runs_mono, drain_runs; [| |exact Hw1]; cbn beta.
  2: { intros e s2 [Hk2 _]. eapply store_keeps_trans; [done..|]. by apply quiet_keeps. }
  intros _ s2 ([Hk2 Hrec2] & Hq2 & Ho2 & _).
  assert (Hk12 : Keeps hs Clearing s s2) by (eapply store_keeps_trans; [done..|]; by apply quiet_keeps).
  pose proof Hk12 as [Hw2 _]. destruct (records_all _ _ Hrec2) as (Htr & Hor & Ht & _).
  rewrite Hst1 in Htr, Hor, Ht. unfold removeAllTransactions in Hrm. injection Hrm as <- <-.
  cbn in Htr, Hor, Ht.
  apply runs_bind, on_store_runs. eapply runs_mono, close_runs; [| |apply Hw2]; cbn beta.
  - intros _ b (Hf & Hn & Ho).
    assert (Hk3 : Keeps hs Clearing s (set_bodyStore b s2)).
    { eapply store_keeps_trans; [done..|]. apply quiet_keeps. apply cleared_keeps; auto.
      rewrite Hn. apply map_empty_subseteq. }
    apply update_runs. split_and!; [|done|]; cbn.
    + eapply store_keeps_trans; [done..|]. pose proof Hk3 as [Hw3 _]. split.
      * by apply (world_quiet hs (set_bodyStore b s2)); try done; apply Hw3.
      * by apply (evolves_quiet Clearing (set_bodyStore b s2)).
    + intros _. unfold Emptied. cbn. by rewrite Htr, Hor, Ht, Hq2, Hn, Ho.
  - intros e b (Hf & Hsub & Ho). eapply store_keeps_trans; [done..|]. apply quiet_keeps.
    apply cleared_keeps; auto.
Qed.

(** ** Settings *)
Lemma setting_keeps hs s (f : RecordingStateInner → RecordingStateInner) :
  World hs s → (∀ st, fixed (f st) = fixed st ∧ st_transactions (f st) = st_transactions st ∧
    st_order (f st) = st_order st ∧ st_responseEntityIndex (f st) = st_responseEntityIndex st ∧
    st_totalBodyBytes (f st) = st_totalBodyBytes st ∧ st_nextSequence (f st) = st_nextSequence st ∧
    st_collectionVersion (f st) = st_collectionVersion st ∧ st_cleanupQueue (f st) = st_cleanupQueue st ∧
    st_directoryCleanupPending (f st) = st_directoryCleanupPending st) →
  Keeps hs Quiet s (set_inner (f (ss_state s)) s).
Proof.
  intros Hw Hf. destruct (Hf (ss_state s)) as (Hfx & Htr & Ho & Hix & Ht & Hn & Hv & Hq & Hp). split.
  - apply world_quiet; try done; [unfold fixed in Hfx; congruence|congruence|]. rewrite Hv. apply Hw.
  - apply evolves_quiet; try done. by rewrite Hv.
Qed.

Lemma notify_quiet hs s0 s :
  World hs s0 → Keeps hs Quiet s0 s → Runs notifyChanged s (λ _ s', Keeps hs Quiet s0 s') (λ _ s', Keeps hs Quiet s0 s').
Proof. intros Hw Hk. eapply runs_mono, (notify_keeps hs Quiet s0 s (λ _, True)); [|done..]. by intros _ s' [? _]. Qed.

Lemma validatePatterns_total patterns : no_panic (validatePatterns patterns).
Proof.
  induction patterns as [|pattern patterns IH]; [done|]. cbn. apply bind_total; [|by intros _ _].
  pose proof (validateLocationPattern_total pattern). unfold no_panic in *.
  by destruct (validateLocationPattern pattern).
Qed.

Lemma updateSettings_runs hs s u :
  World hs s → Runs (updateSettings u) s (λ _ s', Keeps hs Quiet s s') (λ _ s', Keeps hs Quiet s s').
Proof.
  intros Hw. unfold updateSettings. case_bool_decide; [by apply runs_fail, keeps_refl|].
  apply runs_bind, runs_lift.
  assert (Hv : no_panic (match su_ignoreLocations u with Some p => validatePatterns p | None => Ok tt end)).
  { destruct (su_ignoreLocations u); [apply validatePatterns_total|done]. }
  unfold no_panic in Hv. destruct (match su_ignoreLocations u with Some _ => _ | None => _ end); cbn;
    [|by apply keeps_refl|done].
  apply runs_bind, ensureOpen_runs; [intros _|by apply keeps_refl].
  apply runs_bind, update_runs. match goal with |- Runs _ (set_inner ?st _) _ _ => set (st' := st) end.
  assert (Hk : Keeps hs Quiet s (set_inner st' s)).
  { apply (setting_keeps hs s (λ s,
      let s := match su_state u with Some state => set_recordingState state s | None => s end in
      let s := match su_ignoreLocations u with Some p => set_ignoreLocations p s | None => s end in
      match su_recordTunnelMetadata u with Some e => set_recordTunnelMetadata e s | None => s end)); [done|].
    intros st. by destruct (su_state u), (su_ignoreLocations u), (su_recordTunnelMetadata u). }
  apply runs_bind. eapply runs_mono, (notify_quiet hs s); [|done|done|exact Hk]. cbn beta.
  intros _ s1 Hk1. by apply drain_keeps.
Qed.

Lemma setting_runs hs s f :
  World hs s → (∀ st, ∃ state patterns tunnel,
    f st = set_recordTunnelMetadata tunnel (set_ignoreLocations patterns (set_recordingState state st))) →
  Runs (_ ← ensureOpen; _ ← update_state f; notifyChanged) s
    (λ _ s', Keeps hs Quiet s s') (λ _ s', Keeps hs Quiet s s').
Proof.
  intros Hw Hf. apply runs_bind, ensureOpen_runs; [intros _|by apply keeps_refl].
  apply runs_bind, update_runs, notify_quiet; [done|]. apply setting_keeps; [done|].
  intros st. by destruct (Hf st) as (state & patterns & tunnel & ->).
Qed.

Lemma cleanupPending_runs hs s :
  World hs s → Runs cleanupPendingBodies s (λ _ s', Keeps hs Quiet s s') (λ _ s', Keeps hs Quiet s s').
Proof.
  intros Hw. apply runs_bind, ensureOpen_runs; [intros _|by apply keeps_refl].
  apply runs_bind. eapply runs_mono, (drain_keeps Quiet hs s); [|done|done|by apply keeps_refl]. cbn beta.
  intros _ s1 Hk1. by apply notify_quiet.
Qed.

Lemma startRecording_runs hs s :
  World hs s → Runs startRecording s (λ _ s', Keeps hs Quiet s s') (λ _ s', Keeps hs Quiet s s').
Proof.
  intros Hw. apply setting_runs; [done|]. intros st.
  exists Recording, (st_ignoreLocations st), (st_recordTunnelMetadata st). by destruct st.
Qed.

Lemma pauseRecording_runs hs s :
  World hs s → Runs pauseRecording s (λ _ s', Keeps hs Quiet s s') (λ _ s', Keeps hs Quiet s s').
Proof.
  intros Hw. apply setting_runs; [done|]. intros st.
  exists Paused, (st_ignoreLocations st), (st_recordTunnelMetadata st). by destruct st.
Qed.

Lemma setRecordTunnelMetadata_runs hs s enabled :
  World hs s →
  Runs (setRecordTunnelMetadata enabled) s (λ _ s', Keeps hs Quiet s s') (λ _ s', Keeps hs Quiet s s').
Proof.
  intros Hw. apply setting_runs; [done|]. intros st.
  exists (st_recordingState st), (st_ignoreLocations st), enabled. by destruct st.
Qed.

Lemma setIgnoreLocations_runs hs s patterns :
  World hs s →
  Runs (setIgnoreLocations patterns) s (λ _ s', Keeps hs Quiet s s') (λ _ s', Keeps hs Quiet s s').
Proof.
  intros Hw. apply runs_bind, runs_lift. pose proof (validatePatterns_total patterns) as Hv.
  unfold no_panic in Hv. destruct (validatePatterns patterns); cbn; [|by apply keeps_refl|done].
  apply setting_runs; [done|]. intros st.
  exists (st_recordingState st), patterns, (st_recordTunnelMetadata st). by destruct st.
Qed.

Lemma setLimits_runs hs s limits :
  World hs s → Runs (setLimits limits) s (λ _ s', Keeps hs Quiet s s') (λ _ s', Keeps hs Quiet s s').
Proof.
  intros Hw. apply runs_bind, ensureOpen_runs; [intros _|by apply keeps_refl].
  apply runs_bind, with_state_runs. case_if Hl; [by apply runs_fail, keeps_refl|by apply runs_ret, keeps_refl].
Qed.
End spools.
