(* ===== verification/RecordingSteps.v ===== *)
(** * The recording session as a transition system

    A world is a session with what the running captures hold.  It moves by a method of
    the session or by a step of a capture; whatever the operating system grants or
    refuses, every reachable world satisfies [World], and every step changes the
    transactions only as its scope allows. *)

From S2P Require Import Prelude NetAddress Stateful Text Location CaptureModel MetadataBudget BodyStore BodyStoreSpec BodyOwnership RecordingState RecordingBudget Recording RecordingInvariant RecordingWorld RecordingCleanup RecordingReplace RecordingMethods RecordingStorage RecordingSpools.

(** The methods that hold the lock throughout. *)
Inductive Call :=
| Begin (input : BeginTransaction)
| Update (id : chars) (u : TransactionUpdate)
| Progress (id : chars) (u : TransactionProgressUpdate)
| UserFields (id : chars) (u : TransactionUserUpdate)
| Commit (id : chars) (completion : TransactionCompletion)
| Block (id : chars) (completion : TransactionCompletion)
| Fails (id : chars) (error : TransactionError) (endAtMilliseconds : Z)
| Cancel (id : chars) (error : TransactionError) (endAtMilliseconds : Z)
| StoreHeaders (id : chars) (side : MessageSide) (headers : list HeaderField)
| StoreBody (id : chars) (side : MessageSide) (body : BodyWrite)
| StorePackets (id : chars) (side : MessageSide) (packets : vec StreamPacket)
| Read (id : chars) (side : MessageSide)
| Start | Pause | Limits (limits : RecordingLimits) | Ignore (patterns : list LocationPattern)
| TunnelMetadata (enabled : bool) | Settings (u : RecordingSettingsUpdate)
| Cleanup | Clear | Close.

(** The queries; [env] is what other tasks do where a query holds no lock. *)
Inductive Query :=
| Snapshot
| ShouldRecord (location : ResolvedLocation)
| Page (offset : option Z) (limit : Z) (expectedCollectionToken : option chars)
| ListMetadata
| Transaction (id : chars)
| TransactionDetail (id : chars)
| Headers (id : chars) (side : MessageSide)
| RangeCandidates (urlDisplay entityTag : chars) (totalBytes : Z) (contentEncoding : chars)
| BodyReference (id : chars) (side : MessageSide)
| Lease (id : chars) (side : MessageSide)
| Leases (ids : list chars) (side : MessageSide)
| Body (env : RecordingSession → RecordingSession) (id : chars) (side : MessageSide)
| BodyChunk (env : RecordingSession → RecordingSession) (id : chars) (side : MessageSide)
    (offset maximumBytes : Z)
| StorageKind (id : chars) (side : MessageSide).

(** The bounds of unsigned arguments. *)
Definition askable (q : Query) : Prop :=
  match q with BodyChunk _ _ _ offset maximumBytes => 0 ≤ offset ∧ 0 ≤ maximumBytes | _ => True end.

Section steps.
Context `{Layout} `{Environment} {Hok : EnvironmentOk} (to_lowercase : chars → chars)
  (drain_order : gmap chars TransactionRecord → list TransactionRecord).

Definition void {A} (m : onSession A) : onSession unit := _ ← m; mret tt.

Definition perform (call : Call) : onSession unit :=
  match call with
  | Begin input => void (beginTransaction to_lowercase input)
  | Update id u => update id u
  | Progress id u => updateProgress id u
  | UserFields id u => updateUserFields id u
  | Commit id completion => commit id completion
  | Block id completion => block id completion
  | Fails id error endAt => failTransaction id error endAt
  | Cancel id error endAt => cancel id error endAt
  | StoreHeaders id side headers => storeHeaders id side headers
  | StoreBody id side body => void (storeBody id side body)
  | StorePackets id side packets => storeStreamPackets id side packets
  | Read id side => void (getBody (λ s, s) id side)
  | Start => startRecording
  | Pause => pauseRecording
  | Limits limits => setLimits limits
  | Ignore patterns => setIgnoreLocations patterns
  | TunnelMetadata enabled => setRecordTunnelMetadata enabled
  | Settings u => updateSettings u
  | Cleanup => cleanupPendingBodies
  | Clear => clearSession drain_order
  | Close => closeSession drain_order
  end.

(** What a call may finish or replace. *)
Definition scopeOf (call : Call) : Scope :=
  match call with
  | Commit id _ | Block id _ | Fails id _ _ | Cancel id _ _ => Finishing id
  | StoreBody id side _ => Storing id (eq side)
  | Clear | Close => Clearing
  | _ => Quiet
  end.

Hypothesis drain_perm : ∀ m, drain_order m ≡ₚ (map_to_list m).*2.

Lemma void_runs {A} (m : onSession A) s (P Q : RecordingSession → Prop) :
  Runs m s (λ _ s', P s') (λ _ s', Q s') → Runs (void m) s (λ _ s', P s') (λ _ s', Q s').
Proof. intros Hm. apply runs_bind. eapply runs_mono, Hm; [|done]. intros a s' Hs. by apply runs_ret. Qed.

(** Reading a body answers with the bytes that are on record. *)
Lemma getBody_runs hs s id side :
  World hs s →
  Runs (getBody (λ s, s) id side) s
    (λ response s', Keeps hs Quiet s s' ∧ ss_state s' = ss_state s ∧
       ∃ r b, st_transactions (ss_state s) !! id = Some r ∧ record_body r side = Some b ∧
         br_meta response = clone_meta (bf_meta b) ∧
         contentOf (ss_bodyStore s) b = Some (br_bytes response))
    (λ _ s', Keeps hs Quiet s s' ∧ ss_state s' = ss_state s).
Proof.
  intros Hw. pose proof (keeps_refl hs Quiet s Hw) as Hrefl. apply runs_bind.
  assert (Href : Runs (getBodyRef id side) s
    (λ b s', s' = s ∧ ∃ r b', st_transactions (ss_state s) !! id = Some r ∧ record_body r side = Some b' ∧
       b = clone_body b') (λ _ s', s' = s)).
  { apply runs_bind, ensureOpen_runs; [intros _|done]. apply runs_bind, existingRecord_runs; [|done].
    intros r Hr. destruct (record_body r side) as [b|] eqn:Hb; [apply runs_ret|by apply runs_fail]. eauto 10. }
  eapply runs_mono, Href; [|by intros _ s' ->]. cbn beta. intros cb s1 [-> (r & b & Hr & Hb & ->)].
  apply runs_bind, runs_modify. apply runs_bind, on_store_runs.
  assert (Hlive : b ∈ liveBodies (ss_state s)).
  { apply live_elem. exists id, r. split; [done|]. apply elem_of_app.
    destruct side; cbn in Hb; [left|right]; by apply elem_of_option_list. }
  destruct (di_live _ _ _ _ _ (w_disk _ _ Hw) _ Hlive) as (bytes & Hholds & Hlen).
  assert (Hholds' : Holds (opens hs) (ss_bodyStore s) (clone_body b) bytes).
  { unfold Holds in *. cbn. by destruct (bf_storage b). }
  eapply runs_mono, read_runs; [| |exact Hholds'|exact Hlen]; cbn beta.
  - intros bytes' b' [-> Hu]. apply runs_ret. split_and!; [by apply drained_untouched|done|].
    exists r, b. split_and!; try done. by eapply holds_content.
  - intros e b' Hu. split; [by apply drained_untouched|done].
Qed.

(** Every call keeps the world within its scope, and none panics. *)
Lemma perform_runs hs s call :
  World hs s →
  Runs (perform call) s (λ _ s', Keeps hs (scopeOf call) s s') (λ _ s', Keeps hs (scopeOf call) s s').
Proof.
  intros Hw. destruct call; cbn [perform scopeOf].
  - apply void_runs. eapply runs_mono, (beginTransaction_runs to_lowercase hs s); [|done..]. by intros ? s' [? _].
  - by apply update_runs'.
  - by apply updateProgress_runs.
  - by apply updateUserFields_runs.
  - eapply runs_mono, (finalize_runs hs s id _ Complete); [by intros ? s' [? _]|done|done|by apply completed_finishes].
  - eapply runs_mono, (finalize_runs hs s id _ Blocked); [by intros ? s' [? _]|done|done|by apply completed_finishes].
  - eapply runs_mono, (finalize_runs hs s id _ Failed); [by intros ? s' [? _]|done|done|by apply failed_finishes].
  - eapply runs_mono, (finalize_runs hs s id _ Cancelled); [by intros ? s' [? _]|done|done|by apply failed_finishes].
  - by apply storeHeaders_runs.
  - apply void_runs. eapply runs_mono, (storeBody_runs hs s); [|done..]. by intros ? s' [? _].
  - by apply storeStreamPackets_runs.
  - apply void_runs. eapply runs_mono, (getBody_runs hs s); [by intros ? s' [? _]|by intros ? s' [? _]|done].
  - by apply startRecording_runs.
  - by apply pauseRecording_runs.
  - by apply setLimits_runs.
  - by apply setIgnoreLocations_runs.
  - by apply setRecordTunnelMetadata_runs.
  - by apply updateSettings_runs.
  - by apply cleanupPending_runs.
  - eapply runs_mono, (clearSession_runs drain_order hs s); [by intros ? s' [? _]|done..].
  - eapply runs_mono, (closeSession_runs drain_order hs s); [by intros ? s' [? _]|done..].
Qed.

(** ** Queries *)
Definition ask (q : Query) : onSession unit :=
  match q with
  | Snapshot => void snapshot
  | ShouldRecord location => void (shouldRecord to_lowercase location)
  | Page offset limit expected => void (pageView offset limit expected)
  | ListMetadata => void listMetadata
  | Transaction id => void (getTransaction id)
  | TransactionDetail id => void (getTransactionDetail id)
  | Headers id side => void (getHeaders id side)
  | RangeCandidates urlDisplay entityTag totalBytes contentEncoding =>
      void (findResponseRangeCandidates urlDisplay entityTag totalBytes contentEncoding)
  | BodyReference id side => void (getBodyRef id side)
  | Lease id side => void (getBodyReadLease id side)
  | Leases ids side => void (getBodyReadLeases ids side)
  | Body env id side => void (getBody env id side)
  | BodyChunk env id side offset maximumBytes => void (getBodyChunk env id side offset maximumBytes)
  | StorageKind id side => void (getBodyStorageKind id side)
  end.

(** [m] returns a value or an error. *)
Definition Returns {A} (m : onSession A) (s : RecordingSession) : Prop := Runs m s (λ _ _, True) (λ _ _, True).

Lemma read_total b store : Runs (read b) store (λ _ _, True) (λ _ _, True).
Proof.
  unfold read. destruct (bf_storage b) as [bytes|path]; [by apply runs_ret|].
  apply runs_bind, on_disk_runs. eapply runs_mono, read_file_runs; [|done]. intros bytes d _. cbn beta.
  case_if Hl; [by apply runs_fail|by apply runs_ret].
Qed.

Lemma lease_total b store : Runs (lease b) store (λ _ _, True) (λ _ _, True).
Proof.
  unfold lease. destruct (bf_storage b) as [bytes|path]; [by apply runs_ret|].
  apply runs_bind, on_disk_runs. eapply runs_mono, open_file_runs; [|done]. intros inode d _. cbn beta.
  apply runs_bind, on_disk_runs. eapply runs_mono, file_length_runs; [|done]. intros n d' _. cbn beta.
  case_if Hl; [by apply runs_fail|by apply runs_ret].
Qed.

Lemma readRange_total b offset maximumBytes store :
  (∀ bytes, bf_storage b = Memory bytes → len bytes = bm_storedBytes (bf_meta b)) →
  0 ≤ offset → 0 ≤ maximumBytes → Runs (readRange b offset maximumBytes) store (λ _ _, True) (λ _ _, True).
Proof.
  intros Hmem Ho Hm. unfold readRange. cbv zeta. case_if Hlt; [by apply runs_fail|]. apply Z.ltb_ge in Hlt.
  destruct (bf_storage b) as [bytes|path].
  - specialize (Hmem _ eq_refl). apply runs_lift, satisfies_sub_slice; [lia..|done].
  - apply runs_bind, on_disk_runs. eapply runs_mono, open_file_runs; [|done]. intros inode d _. cbn beta.
    apply runs_bind, on_disk_runs. eapply runs_mono, file_length_runs; [|done]. intros n d' _. cbn beta.
    case_if Hl; [by apply runs_fail|]. apply on_disk_runs. by eapply runs_mono, read_at_runs.
Qed.

(** A reference that a query takes: a body in memory has the length it says. *)
Lemma getBodyRef_runs hs s id side :
  World hs s →
  Runs (getBodyRef id side) s
    (λ b _, ∀ bytes, bf_storage b = Memory bytes → len bytes = bm_storedBytes (bf_meta b)) (λ _ _, True).
Proof.
  intros Hw. apply runs_bind, ensureOpen_runs; [intros _|done]. apply runs_bind, existingRecord_runs; [|done].
  intros r Hr. destruct (record_body r side) as [b|] eqn:Hb; [apply runs_ret|by apply runs_fail].
  assert (Hlive : b ∈ liveBodies (ss_state s)).
  { apply live_elem. exists id, r. split; [done|]. apply elem_of_app.
    destruct side; cbn in Hb; [left|right]; by apply elem_of_option_list. }
  destruct (di_live _ _ _ _ _ (w_disk _ _ Hw) _ Hlive) as (content & Hholds & Hlen).
  intros bytes. unfold Holds in Hholds. cbn. destruct (bf_storage b); [|done].
  intros [= <-]. by rewrite <-Hlen, Hholds.
Qed.

Lemma leasesOf_total ids side s : Returns (leasesOf ids side) s.
Proof.
  revert s. induction ids as [|id ids IH]; intros s; [done|]. cbn [leasesOf].
  apply runs_bind, existingRecord_runs; [|done]. intros r _.
  destruct (record_body r side) as [b|]; [|by apply runs_fail].
  apply runs_bind, on_store_runs. eapply runs_mono, lease_total; [|done]. intros l store _. cbn beta.
  apply runs_bind. eapply runs_mono, IH; [|done]. intros rest s' _. by apply runs_ret.
Qed.

(** No query panics, whatever other tasks do while it reads. *)
Lemma ask_returns hs s q : World hs s → askable q → Returns (ask q) s.
Proof.
  intros Hw Hq. unfold Returns. destruct q; cbn [ask];
    (apply (void_runs _ _ (λ _, True) (λ _, True)));
    try (apply runs_bind, ensureOpen_runs; [intros _|done]); try done.
  - apply runs_bind, with_state_runs, runs_lift. eapply satisfies_mono, shouldRecord_total; done.
  - apply runs_bind, with_state_runs. cbv zeta. case_if Htoken; [by apply runs_fail|].
    by apply runs_bind, runs_gets, runs_ret.
  - apply runs_bind, existingRecord_runs; [|done]. intros r _. by apply runs_ret.
  - apply runs_bind, existingRecord_runs; [|done]. intros r _. by apply runs_ret.
  - apply runs_bind, existingRecord_runs; [|done]. intros r _. by apply runs_ret.
  - apply runs_bind, with_state_runs. cbv zeta. destruct (_ !! _); by apply runs_ret.
  - apply runs_bind, existingRecord_runs; [|done]. intros r _.
    destruct (record_body r side); [by apply runs_ret|by apply runs_fail].
  - apply runs_bind. eapply runs_mono, getBodyRef_runs; [|done|done]. intros b s' _. cbn beta.
    apply on_store_runs. eapply runs_mono, lease_total; done.
  - apply leasesOf_total.
  - apply runs_bind. eapply runs_mono, getBodyRef_runs; [|done|done]. intros b s' _. cbn beta.
    apply runs_bind, runs_modify, runs_bind, on_store_runs. eapply runs_mono, read_total; [|done].
    intros bytes store _. by apply runs_ret.
  - apply runs_bind. eapply runs_mono, getBodyRef_runs; [|done|done]. intros b s' Hb. cbn beta.
    apply runs_bind, runs_modify, runs_bind, on_store_runs.
    eapply runs_mono, readRange_total; [|done|exact Hb|apply Hq..]. intros bytes store _. by apply runs_ret.
  - apply runs_bind. eapply runs_mono, getBodyRef_runs; [|done|done]. intros b s' _. by apply runs_ret.
Qed.

(** ** Steps *)
Definition world : Type := list Held * RecordingSession.
Definition held : world → list Held := fst.
Definition session : world → RecordingSession := snd.

(** A transaction some method of the session has begun. *)
Definition begun (id : chars) (s : RecordingSession) : Prop :=
  ∃ n, (n < bs_uuids (ss_bodyStore s))%nat ∧ id = new_v4 n.

(** A spool is only staged by the capture that filled it and was told of no failed
    write; the operating system bounds the length of a file. *)
Inductive Step : Scope → world → world → Prop :=
| step_call call hs s :
    Step (scopeOf call) (hs, s) (hs, (perform call s).1)
| step_create id side hs s s' result :
    begun id s → on_store (createSpool id side) s = (s', result) →
    Step Quiet (hs, s) (match result with Ok spool => HeldSpool id spool true :: hs | _ => hs end, s')
| step_append id spool bytes hs hs' s s' result :
    hs ≡ₚ HeldSpool id spool true :: hs' →
    (∀ content, dk_inodes (bs_disk (ss_bodyStore s)) !! bo_file spool = Some content →
       len content + len bytes ≤ i64_max) →
    on_store (appendSpool spool bytes) s = (s', result) →
    Step (Writing (bo_file spool)) (hs, s)
      (match result with Ok spool => HeldSpool id spool true | _ => HeldSpool id spool false end :: hs', s')
| step_stage id spool meta hs hs' s s' result :
    hs ≡ₚ HeldSpool id spool true :: hs' → bm_storedBytes meta = bo_writtenBytes spool →
    on_store (stageSpool spool meta) s = (s', result) →
    Step Quiet (hs, s)
      (match result with Ok staged => HeldBody id (sb_bodyReference staged) :: hs' | _ => hs' end, s')
| step_register id request response hs hs' s :
    hs ≡ₚ HeldBody id request :: HeldBody id response :: hs' →
    Step (Storing id Everywhere) (hs, s)
      (hs', (registerStaged id (stagedOf request) (stagedOf response) (bodyStoredBytes request)
               (bodyStoredBytes response) s).1)
| step_drop_spool id spool intact hs hs' s :
    hs ≡ₚ HeldSpool id spool intact :: hs' →
    Step Quiet (hs, s) (hs', (on_store (dropSpool spool) s).1)
| step_drop_staged id body hs hs' s :
    hs ≡ₚ HeldBody id body :: hs' →
    Step Quiet (hs, s) (hs', (on_store (dropStaged (stagedOf body)) s).1).

(** The steps whose scope is within [c]. *)
Definition within (c' c : Scope) : Prop :=
  (∀ id, sc_finish c' id → sc_finish c id) ∧ (∀ id side, sc_store c' id side → sc_store c id side).
Definition Moves (c : Scope) (w w' : world) : Prop := ∃ c', within c' c ∧ Step c' w w'.
Definition Anything : Scope :=
  {| sc_finish := Everywhere; sc_store := λ _, Everywhere; sc_write := Everywhere |}.

Definition Good (w : world) : Prop := World (held w) (session w).

Lemma runs_final {A} (m : onSession A) s (P : RecordingSession → Prop) :
  Runs m s (λ _ s', P s') (λ _ s', P s') → P (m s).1.
Proof. unfold Runs. by destruct (m s) as [s' []]. Qed.

Lemma runs_result {A} (m : onSession A) s s' result (P : A → RecordingSession → Prop)
    (Q : CaptureError → RecordingSession → Prop) :
  Runs m s P Q → m s = (s', result) →
  match result with Ok a => P a s' | Err e => Q e s' | Panic => False end.
Proof. unfold Runs. intros Hm Heq. by rewrite Heq in Hm. Qed.

(** The files a step may write are open, and what it opens is new. *)
Definition Opens (w w' : world) : Prop :=
  ∀ i, opens (held w') i → opens (held w) i ∨ (length (dk_inodes (bs_disk (ss_bodyStore (session w)))) ≤ i)%nat.

Lemma step_good c w w' :
  Good w → Step c w w' → Good w' ∧ Evolves c (session w) (session w') ∧ Opens w w' ∧
  (∀ i, sc_write c i → opens (held w) i).
Proof.
  unfold Good, Opens. intros Hw Hstep.
  destruct Hstep as [call hs s|id side hs s s' result Hid Hm|id spool bytes hs hs' s s' result Hhs Hsmall Hm
    |id spool meta hs hs' s s' result Hhs Hmeta Hm|id request response hs hs' s Hhs
    |id spool intact hs hs' s Hhs|id body hs hs' s Hhs]; cbn [held session fst snd] in *.
  - assert (Hk : Keeps hs (scopeOf call) s (perform call s).1) by by eapply runs_final, perform_runs.
    destruct Hk as [? ?]. split_and!; [done|done|by left|by destruct call].
  - destruct Hid as (n & Hn & Hid).
    pose proof (runs_result _ _ _ _ _ _ (createSpool_world hs s id side n Hw Hn Hid) Hm) as Hr.
    destruct result as [spool|e|]; [|destruct Hr as [? ?]; split_and!; by auto|done].
    destruct Hr as (Hw' & He' & Hf). split_and!; [done|done| |by intros ? []].
    intros i. unfold opens. cbn. intros [->|?]%elem_of_cons; [right; lia|by left].
  - eapply world_perm in Hw; [|exact Hhs].
    pose proof (runs_result _ _ _ _ _ _ (appendSpool_world hs' s id spool bytes Hw Hsmall) Hm) as Hr.
    assert (Hop : ∀ i, i = bo_file spool ∨ opens hs' i → opens hs i).
    { intros i Hi. unfold opens. rewrite Hhs. cbn. by rewrite elem_of_cons. }
    destruct result as [spool'|e|]; [| |done].
    + destruct Hr as (Hw' & He' & _ & Hf). split_and!; [done|done| |by intros i <-; auto].
      intros i Hi. left. apply Hop. revert Hi. unfold opens. cbn. rewrite elem_of_cons, Hf. done.
    + destruct Hr as (Hw' & He' & _). split_and!; [done|done| |by intros i <-; auto].
      intros i Hi. left. apply Hop. revert Hi. unfold opens. cbn. by rewrite elem_of_cons.
  - eapply world_perm in Hw; [|exact Hhs].
    assert (Hop : ∀ i, opens hs' i → opens hs i).
    { intros i Hi. unfold opens. rewrite Hhs. cbn. apply elem_of_cons. by right. }
    pose proof (runs_result _ _ _ _ _ _ (stageSpool_world hs' s id spool meta Hw Hmeta) Hm) as Hr.
    destruct result as [staged|e|]; [| |done].
    + destruct Hr as (body & -> & _ & Hw' & He' & _). split_and!; [done|done|by auto|by intros ? []].
    + destruct Hr as (Hw' & He' & _). split_and!; [done|done|by auto|by intros ? []].
  - eapply world_perm in Hw; [|exact Hhs].
    set (m := registerStaged id _ _ _ _).
    destruct (runs_final m s (λ s', World hs' s' ∧ Evolves (Storing id Everywhere) s s')) as [Hw' He'].
    { eapply runs_mono, (registerStaged_runs hs' s id request response); [|done|done]. by intros _ s' (? & ? & _). }
 split_and!; [done|done| |by intros ? []].
    intros i Hi. left. unfold opens. by rewrite Hhs.
  - eapply world_perm in Hw; [|exact Hhs].
    destruct (runs_final (on_store (dropSpool spool)) s (λ s', World hs' s' ∧ Evolves Quiet s s')) as [Hw' He'].
    { eapply runs_mono, (dropSpool_world hs' s id spool intact); [|done|done]. by intros _ s' (? & ? & _). }
 split_and!; [done|done| |by intros ? []].
    intros i Hi. left. unfold opens. rewrite Hhs. cbn. apply elem_of_cons. by right.
  - eapply world_perm in Hw; [|exact Hhs].
    destruct (runs_final (on_store (dropStaged (stagedOf body))) s (λ s', World hs' s' ∧ Evolves Quiet s s'))
      as [Hw' He'].
    { eapply runs_mono, (dropStaged_world hs' s id body); [|done|done]. by intros _ s' (? & ? & _). }
 split_and!; [done|done| |by intros ? []].
    intros i Hi. left. unfold opens. by rewrite Hhs.
Qed.

(** Along steps within [c], the sessions evolve within [c]; files that are closed
    never change. *)
Lemma moves_good c w w' :
  Good w → rtc (Moves c) w w' →
  Good w' ∧ Evolves {| sc_finish := sc_finish c; sc_store := sc_store c; sc_write := Everywhere |}
              (session w) (session w').
Proof.
  set (c0 := {| sc_finish := sc_finish c; sc_store := sc_store c; sc_write := Everywhere |}).
  intros Hw Hrtc. induction Hrtc as [w|w w1 w' (c' & [Hfi Hst] & Hstep) _ IH].
  { split; [done|apply world_evolves_refl]. }
  destruct (step_good _ _ _ Hw Hstep) as (Hw1 & He1 & _). destruct (IH Hw1) as [Hw' He'].
  split; [done|]. eapply world_evolves_trans; [exact Hw| |exact He'].
  eapply evolves_mono, He1; [exact Hfi|exact Hst|done].
Qed.

Lemma moves_closed c w w' i content :
  Good w → rtc (Moves c) w w' →
  dk_inodes (bs_disk (ss_bodyStore (session w))) !! i = Some content → ¬ opens (held w) i →
  dk_inodes (bs_disk (ss_bodyStore (session w'))) !! i = Some content.
Proof.
  intros Hw Hrtc. induction Hrtc as [w|w w1 w' (c' & _ & Hstep) _ IH]; [done|]. intros Hi Hclosed.
  destruct (step_good _ _ _ Hw Hstep) as (Hw1 & He1 & Hop & Hwr).
  pose proof (lookup_lt_Some _ _ _ Hi). apply IH; [done| |].
  - rewrite (ev_files _ _ _ He1); [done|done|by auto].
  - intros [|]%Hop; [done|lia].
Qed.
End steps.
