(* ===== verification/RecordingTheorems.v ===== *)
(** * What the recording session promises

    The properties of [Server/Backend/Capture] that its clients rely on, for every
    session reachable from a new one and whatever the operating system refuses. *)

From S2P Require Import Prelude NetAddress Stateful Text Location CaptureModel MetadataBudget BodyStore BodyStoreSpec BodyOwnership RecordingState RecordingBudget Recording RecordingInvariant RecordingWorld RecordingCleanup RecordingReplace RecordingMethods RecordingStorage RecordingSpools RecordingSteps.

Section theorems.
Context `{Layout} `{Environment} {Hok : EnvironmentOk} (to_lowercase : chars → chars)
  (drain_order : gmap chars TransactionRecord → list TransactionRecord)
  (drain_perm : ∀ m, drain_order m ≡ₚ (map_to_list m).*2).

Abbreviation Moves := (RecordingSteps.Moves to_lowercase drain_order).

(** ** Reachable sessions *)
Lemma newSession_good configuration now disk s :
  newSession configuration now disk = Ok s → dk_names disk = ∅ →
  rm_maxTotalBodyBytes (rc_limits configuration) ≤ u64_max → Good ([], s).
Proof using Hok.
  clear drain_perm drain_order. unfold newSession. intros Hs Hnames Hmax.
  apply bind_Ok_inv in Hs as (u1 & Hvalid%check_Ok_inv & Hs).
  apply bind_Ok_inv in Hs as (u2 & _ & Hs). apply bind_Ok_inv in Hs as (u3 & _ & Hs).
  apply bind_Ok_inv in Hs as (u4 & _ & Hs). cbv zeta in Hs.
  pose proof (create_dir_runs disk) as Hcreate. unfold Runs in Hcreate.
  destruct (create_dir_all disk) as [disk' created].
  apply bind_Ok_inv in Hs as (u5 & Hc & [= <-]).
  assert (Hsame : Same disk disk') by by destruct created.
  unfold isValid in Hvalid. rewrite !andb_true_iff, !Z.ltb_lt in Hvalid.
  destruct Hsame as [Hn Hi Hd]. split; cbn; [split; cbn|done|by intros id [r Hr]|by intros h Hh%elem_of_nil|].
  - split; cbn; [done|by rewrite total_empty|]. split; cbn; [|done].
    intros key member. split; [by intros (? & ? & _)|by intros (? & ? & ? & _)].
  - constructor.
  - intros id. rewrite lookup_empty. split; [by intros ?%elem_of_nil|by intros [? ?]].
  - constructor.
  - done.
  - done.
  - rewrite map_size_empty. lia.
  - lia.
  - done.
  - lia.
  - done.
  - split; cbn.
    + intros _. by rewrite Hn.
    + constructor.
    + by intros p Hp%elem_of_nil.
    + intros p Hp. set_solver.
    + intros p. rewrite Hn, Hnames, lookup_empty. by intros [? ?].
    + by intros b Hb%elem_of_nil.
    + by intros h Hh%elem_of_nil.
    + constructor.
Qed.

(** C2: In every world a session reaches from its creation, whatever calls run and whatever
    leases, spools and staged bodies are held: the order lists the transactions once each, by
    increasing sequence number; the total of body bytes is the sum of what the transactions
    store; the index of partial responses lists exactly the complete ones; the numbers of
    transactions and of body bytes are within their limits; and every file on disk belongs to
    exactly one body that is kept, leased, staged or queued for removal, or is an orphaned
    spill that the store remembers to delete.  (Not so the total of metadata bytes: see
    [packets_underbilled].) *)
Theorem recording_invariant configuration now disk s w :
  newSession configuration now disk = Ok s → dk_names disk = ∅ →
  rm_maxTotalBodyBytes (rc_limits configuration) ≤ u64_max →
  rtc (Moves Anything) ([], s) w → Good w.
Proof using drain_perm Hok.
  intros Hs Hn Hm Hrtc. by eapply moves_good, Hrtc; [|eapply newSession_good].
Qed.

(** ** Every method returns *)
(** What other tasks, who hold [hs], do: moves that leave what is [ours] to us. *)
Definition Elsewhere (ours hs : list Held) (env : RecordingSession → RecordingSession) : Prop :=
  ∀ s, Good (ours ++ hs, s) → ∃ hs', rtc (Moves Anything) (ours ++ hs, s) (ours ++ hs', env s).

Lemma elsewhere_world ours env hs s :
  Elsewhere ours hs env → World (ours ++ hs) s → ∃ hs', World (ours ++ hs') (env s).
Proof using drain_perm Hok.
  intros Henv Hw. destruct (Henv s Hw) as [hs' Hrtc]. exists hs'.
  by destruct (moves_good _ _ drain_perm _ (ours ++ hs, s) (ours ++ hs', env s) Hw Hrtc).
Qed.

Lemma createBodySpool_returns env id side s : Returns (createBodySpool env id side) s.
Proof using Hok.
  apply runs_bind, ensureOpen_runs; [intros _|done]. apply runs_bind, pendingRecord_runs; [|done]. intros r _ _.
  apply runs_bind, runs_modify, on_store_runs. by eapply runs_mono, createSpool_runs.
Qed.

(** The two bodies of a capture: staged without the lock, registered under it. *)
Lemma stageSpools_runs hs s id request response contentType encoding :
  World (HeldSpool id request true :: HeldSpool id response true :: hs) s →
  Runs (stageSpools id request response
          (spoolMeta id Request contentType encoding (bo_writtenBytes request))
          (spoolMeta id Response contentType encoding (bo_writtenBytes response))) s
    (λ staged s', ∃ b1 b2, staged = (stagedOf b1, stagedOf b2) ∧
       bodyStoredBytes b1 = bo_writtenBytes request ∧ bodyStoredBytes b2 = bo_writtenBytes response ∧
       World (HeldBody id b1 :: HeldBody id b2 :: hs) s')
    (λ _ _, True).
Proof.
  intros Hw. apply runs_bind, on_error_runs.
  eapply runs_mono, stageSpool_world; [| |exact Hw|done]; cbn beta.
  - intros staged s1 (b1 & -> & Hm1 & Hw1 & _). apply runs_bind, on_error_runs.
    eapply runs_mono, (stageSpool_world (HeldBody id b1 :: hs)); [| | |done]; cbn beta.
    + intros staged s2 (b2 & -> & Hm2 & Hw2 & _). apply runs_ret. exists b1, b2. unfold bodyStoredBytes.
      rewrite Hm1, Hm2. split_and!; [done..|]. eapply world_perm, Hw2. apply perm_swap.
    + intros e s2 (Hw2 & _). eapply runs_mono, (dropStaged_world hs _ id b1); done.
    + eapply world_perm, Hw1. apply perm_swap.
  - intros e s1 (Hw1 & _). eapply runs_mono, dropSpool_world; done.
Qed.

Lemma storeBodySpools_returns env id request response contentType encoding hs s :
  World (HeldSpool id request true :: HeldSpool id response true :: hs) s →
  (∀ b1 b2, Elsewhere [HeldBody id b1; HeldBody id b2] hs env) →
  Returns (storeBodySpools env id request response contentType encoding) s.
Proof using drain_perm Hok.
  intros Hw Henv. apply runs_bind. eapply runs_mono, stageSpools_runs; [|done|exact Hw]. cbn beta.
  intros staged s1 (b1 & b2 & -> & Hn1 & Hn2 & Hw1). apply runs_bind, runs_modify, runs_bind.
  destruct (elsewhere_world _ _ hs s1 (Henv b1 b2) Hw1) as [hs' Hw2].
  rewrite <-Hn1, <-Hn2. eapply runs_mono, (registerStaged_runs hs'); [|done|exact Hw2].
  intros _ s2 _. by apply runs_ret.
Qed.

(** C31: In every good world each method of the session returns a value or an error: the calls
    that hold the lock throughout, the queries, the creation of a spool, and the storing of
    the two spools of a capture, whatever other tasks do where a method holds no lock.  None
    panics, and no loop (evictions, clean-up, reading, registering) runs out of fuel. *)
Theorem recording_calls_return w :
  Good w →
  (∀ call, Returns (perform to_lowercase drain_order call) (session w)) ∧
  (∀ query, askable query → Returns (ask to_lowercase query) (session w)) ∧
  (∀ env id side, Returns (createBodySpool env id side) (session w)) ∧
  (∀ env id request response contentType encoding hs,
     held w ≡ₚ HeldSpool id request true :: HeldSpool id response true :: hs →
     (∀ b1 b2, Elsewhere [HeldBody id b1; HeldBody id b2] hs env) →
     Returns (storeBodySpools env id request response contentType encoding) (session w)).
Proof using drain_perm Hok.
  intros Hw. split_and!.
  - intros call. eapply runs_mono, perform_runs; done.
  - intros query Hq. by eapply ask_returns.
  - intros env id side. apply createBodySpool_returns.
  - intros env id request response contentType encoding hs Hheld Henv.
    eapply storeBodySpools_returns; [|done]. by eapply world_perm, Hw.
Qed.

(** ** Life of a transaction *)
(** C32: A pending transaction stays, pending and under the same identity, until a call
    finishes it or empties the session: no eviction touches it. *)
Theorem pending_transaction_survives c w w' id r :
  Good w → rtc (Moves c) w w' → ¬ sc_finish c id →
  st_transactions (ss_state (session w)) !! id = Some r → isPending r = true →
  ∃ r', st_transactions (ss_state (session w')) !! id = Some r' ∧ isPending r' = true ∧
        identity r' = identity r.
Proof using drain_perm Hok.
  intros Hw Hrtc Hno Hr Hp. destruct (moves_good _ _ drain_perm _ _ _ Hw Hrtc) as [Hw' He].
  destruct (ev_pending _ _ _ He id r Hr Hp Hno) as (r' & Hr' & Hp'). exists r'. split_and!; [done..|].
  apply (co_identity _ _ _ _ _ _ (ev_continues _ _ _ He _ _ _ Hr Hr')).
Qed.

(** C33: While a finished transaction is kept it never becomes pending again; its identity, its
    status, its times and its bodies with their bytes stay what they were. *)
Theorem finished_transaction_fixed w w' id r r' :
  Good w → rtc (Moves Anything) w w' →
  st_transactions (ss_state (session w)) !! id = Some r → isPending r = false →
  st_transactions (ss_state (session w')) !! id = Some r' →
  isPending r' = false ∧ identity r' = identity r ∧ facts r' = facts r ∧
  ∀ side body, record_body r side = Some body →
    record_body r' side = Some body ∧
    contentOf (ss_bodyStore (session w')) body = contentOf (ss_bodyStore (session w)) body.
Proof using drain_perm Hok.
  intros Hw Hrtc Hr Hp Hr'. destruct (moves_good _ _ drain_perm _ _ _ Hw Hrtc) as [Hw' He].
  destruct (ev_continues _ _ _ He _ _ _ Hr Hr') as [Hid Hfacts Hb]. specialize (Hfacts Hp).
  split_and!; [by rewrite (facts_pending _ _ Hfacts)|done|done|]. intros side body. apply Hb. by left.
Qed.

(** The calls that finish a transaction, with the status they give it. *)
Definition finishes (call : Call) : option (chars * TransactionStatus) :=
  match call with
  | Commit id _ => Some (id, Complete)
  | Block id _ => Some (id, Blocked)
  | Fails id _ _ => Some (id, Failed)
  | Cancel id _ _ => Some (id, Cancelled)
  | _ => None
  end.

Lemma finishes_finalize call id final :
  finishes call = Some (id, final) →
  ∃ change, perform to_lowercase drain_order call = finalize id change ∧ Finishes final change.
Proof.
  destruct call; try done; intros [= <- <-]; eexists;
    (split; [reflexivity|]); by (apply completed_finishes || apply failed_finishes).
Qed.

Lemma finalize_again id change s r :
  st_transactions (ss_state s) !! id = Some r → isPending r = false →
  finalize id change s = (s, Err SessionClosed) ∨ finalize id change s = (s, Err TransactionFinished).
Proof.
  intros Hr Hp. unfold finalize, ensureOpen, pendingRecord, with_state, mbind, stateful_bind, gets, Datatypes.id.
  destruct (st_closed (ss_state s)); [by left|right]. cbn. rewrite Hr, Hp. done.
Qed.

(** A finishing call that succeeds found the transaction pending and leaves it with the
    final status of the call; every later finishing call is refused and changes nothing. *)
Theorem transaction_finishes_once w call id final s' :
  Good w → finishes call = Some (id, final) →
  perform to_lowercase drain_order call (session w) = (s', Ok tt) →
  (∃ r, st_transactions (ss_state (session w)) !! id = Some r ∧ isPending r = true) ∧
  (∃ r', st_transactions (ss_state s') !! id = Some r' ∧ status r' = final) ∧
  ∀ call' final', finishes call' = Some (id, final') →
    perform to_lowercase drain_order call' s' = (s', Err SessionClosed) ∨
    perform to_lowercase drain_order call' s' = (s', Err TransactionFinished).
Proof using Hok.
  intros Hw (change & Hperf & Hfi)%finishes_finalize Hc. rewrite Hperf in Hc.
  pose proof (finalize_runs (held w) (session w) id change final Hw Hfi) as Hr.
  unfold Runs in Hr. rewrite Hc in Hr. destruct Hr as (_ & r & r' & Hr & Hp & Hr' & Hst).
  split_and!; [by exists r|by exists r'|]. intros call' final' (change' & -> & _)%finishes_finalize.
  apply (finalize_again _ _ _ r'); [done|]. unfold isPending. rewrite Hst.
  apply bool_decide_eq_false, (fi_final _ _ Hfi).
Qed.

(** ** Bodies *)
(** C30: A body that was stored is read back.  Storing keeps a prefix of the bytes received and
    flags it when it is shorter than the original; until another body is stored for that
    side, reading it — after any calls, releases and removals that leave the transaction in
    place — yields exactly that prefix with its description. *)
Theorem stored_body_reads_back c w w' id side body s1 meta s2 response :
  Good w → storeBody id side body (session w) = (s1, Ok meta) →
  rtc (Moves c) (held w, s1) w' → ¬ sc_store c id side →
  getBody (λ s, s) id side (session w') = (s2, Ok response) →
  br_meta response = clone_meta meta ∧
  br_bytes response = slice (bw_bytes body) 0 (bm_storedBytes meta) ∧
  0 ≤ bm_storedBytes meta ≤ len (bw_bytes body) ∧
  bm_truncated meta = (bm_storedBytes meta <? bw_originalBytes body).
Proof using drain_perm Hok.
  intros Hw Hstore Hrtc Hno Hget.
  pose proof (storeBody_runs (held w) (session w) id side body Hw) as Hr. unfold Runs in Hr.
  rewrite Hstore in Hr. destruct Hr as ([Hw1 _] & Htrunc & (r & b & Hr & _ & Hb & Hm & Hc & Hrange & _)).
  destruct (moves_good _ _ drain_perm c (held w, s1) w' Hw1 Hrtc) as [Hw' He].
  pose proof (getBody_runs (held w') (session w') id side Hw') as Hg. unfold Runs in Hg. rewrite Hget in Hg.
  destruct Hg as (_ & _ & r' & b' & Hr' & Hb' & Hm' & Hc').
  destruct (ev_continues _ _ _ He _ _ _ Hr Hr') as [_ _ Hbodies].
  destruct (Hbodies side b) as [Hb2 Hc2]; [by right|done|].
  rewrite Hb' in Hb2. injection Hb2 as ->. cbn in Hc2. rewrite Hc2, Hc in Hc'. injection Hc' as <-.
  rewrite Hm', Hm. split_and!; try done; lia.
Qed.


(** ** Pages *)
Lemma summaries_ids s ids :
  StateInv s → (∀ id, id ∈ ids → is_Some (st_transactions s !! id)) →
  (λ t, text (ts_transactionId t)) <$> summariesOf s ids = ids.
Proof.
  intros Hs Hids. unfold summariesOf. induction ids as [|id ids IH]; [done|]. cbn.
  destruct (Hids id ltac:(by left)) as [r Hr]. rewrite Hr. cbn.
  rewrite IH by set_solver. f_equal. apply (ro_key _ _ (ci_records _ (si_core _ Hs) _ _ Hr)).
Qed.

(** The identifiers of a page. *)
Definition pageIds (v : RecordingPageView) : list chars :=
  (λ t, text (ts_transactionId t)) <$> pv_transactions v.

Lemma pageView_spec hs s offset limit expected s' v :
  World hs s → pageView offset limit expected s = (s', Ok v) →
  s' = s ∧ (expected = None ∨ expected = Some (pv_collectionToken v)) ∧
  pv_collectionToken v = collectionTokenFromState (ss_state s) ∧
  pv_total v = len (st_order (ss_state s)) ∧
  pv_offset v = default (saturating_sub (len (st_order (ss_state s))) limit) offset ∧
  pageIds v = take (Z.to_nat limit) (drop (Z.to_nat (Z.min (pv_offset v) (pv_total v))) (st_order (ss_state s))).
Proof.
  intros Hw. unfold pageView, ensureOpen, with_state, gets, mbind, stateful_bind, Datatypes.id.
  destruct (st_closed (ss_state s)); [done|].
  cbn -[summariesOf collectionTokenFromState snapshotFromState str_eqb saturating_sub take drop].
  case_if Htoken; [done|].
  intros [= <- <-]. cbn -[saturating_sub]. split_and!; try done.
  - destruct expected as [token|]; [right|by left]. cbn in Htoken.
    apply negb_false_iff in Htoken. f_equal. by apply bool_decide_eq_true in Htoken.
  - unfold pageIds. cbn. rewrite summaries_ids; [done|apply Hw|]. intros id Hid.
    apply elem_of_take in Hid as (i & Hid & _). apply list_elem_of_lookup_2 in Hid.
    apply (si_order _ (w_state _ _ Hw)). rewrite <-(take_drop (Z.to_nat (Z.min
      (default (saturating_sub (len (st_order (ss_state s))) limit) offset) (len (st_order (ss_state s)))))
      (st_order (ss_state s))). apply elem_of_app. by right.
Qed.

(** Paging is stable.  When a page is asked for again, later, under the token the first
    answer carried and is not refused, no transaction has moved or gone: the total has not
    shrunk and the identifiers of the first page are a prefix of those of the second. *)
Theorem page_is_stable c w w' offset limit s1 v1 s2 v2 :
  Good w → pageView offset limit None (session w) = (s1, Ok v1) → rtc (Moves c) w w' →
  pageView (Some (pv_offset v1)) limit (Some (pv_collectionToken v1)) (session w') = (s2, Ok v2) →
  st_collectionVersion (ss_state (session w)) < u64_max →
  pv_total v1 ≤ pv_total v2 ∧
  (pv_offset v1 ≤ pv_total v1 → pageIds v1 `prefix_of` pageIds v2).
Proof using drain_perm Hok.
  intros Hw H1 Hrtc H2 Hmax. destruct (moves_good _ _ drain_perm _ _ _ Hw Hrtc) as [Hw' He].
  destruct (pageView_spec _ _ _ _ _ _ _ Hw H1) as (_ & _ & Htok1 & Htot1 & Hoff1 & Hids1).
  destruct (pageView_spec _ _ _ _ _ _ _ Hw' H2) as (_ & [?|Htok] & Htok2 & Htot2 & Hoff2 & Hids2); [done|].
  injection Htok as Htok. rewrite Htok1, Htok2 in Htok. unfold collectionTokenFromState in Htok.
  pose proof (ev_fixed _ _ _ He) as Hfx. unfold fixed in Hfx. injection Hfx as Hid _ _. rewrite Hid in Htok.
  apply app_inv_head in Htok. injection Htok as Htok.
  apply decimal_inj in Htok; [|apply (w_version _ _ Hw)|apply (w_version _ _ Hw')].
  destruct (ev_order _ _ _ He) as [added Hadded]; [done|done|].
  rewrite Hids1, Hids2, Htot1, Htot2, Hadded, len_app. pose proof (len_nonneg added).
  cbn in Hoff2. rewrite Hoff2. split; [lia|]. intros Hin. rewrite !Z.min_l by lia.
  rewrite drop_app_le by (unfold len in *; lia).
  set (rest := drop _ _). rewrite take_app. apply prefix_app_r. done.
Qed.

(** ** Clearing *)
Theorem clearing_empties w s' :
  Good w → clearSession drain_order (session w) = (s', Ok tt) →
  Good (held w, s') ∧ Emptied s' ∧ pendingOrphanCount (ss_bodyStore s') = 0 ∧
  st_directoryCleanupPending (ss_state s') = false.
Proof using drain_perm Hok.
  intros Hw Hc. pose proof (clearSession_runs drain_order (held w) (session w) Hw drain_perm) as Hr.
  unfold Runs in Hr. rewrite Hc in Hr. destruct Hr as ([Hw' _] & He & Hp). split_and!; try done.
  unfold pendingOrphanCount. destruct He as (_ & _ & _ & _ & _ & ->). done.
Qed.
End theorems.
