(* ===== verification/RecordingBounds.v ===== *)
(** * The metadata budget of the recording session

    A method that replaces a summary, or begins a transaction, succeeds only when the
    metadata it leaves on record, and what the evicted bodies still hold, is within the
    budget. *)

From stdpp Require Import sorting.
From S2P Require Import Prelude NetAddress Stateful Text Location CaptureModel MetadataBudget BodyStore BodyStoreSpec BodyOwnership RecordingState RecordingBudget Recording RecordingInvariant RecordingWorld RecordingCleanup RecordingReplace RecordingMethods RecordingStorage RecordingSpools RecordingSteps.

Section bounds.
Context `{Layout} `{Environment} {Hok : EnvironmentOk}.

(** ** What the evicted bodies are billed *)
Lemma live_cleanup s :
  sum_by cleanupBodyReferenceMetadataBytes (liveBodies s) =
  total cleanupBodyReferencesMetadataBytes (st_transactions s).
Proof. unfold liveBodies. by rewrite sum_by_bind, total_map_to_list. Qed.

Lemma evicted_cleanup s ids st bodies :
  NoDup ids → Evicted ids s st bodies →
  sum_by cleanupBodyReferenceMetadataBytes bodies = ofIds cleanupBodyReferencesMetadataBytes s ids.
Proof.
  intros Hnd Hev. pose proof (live_cleanup s) as Hs. rewrite (sum_by_perm _ _ _ (et_live _ _ _ _ Hev)) in Hs.
  rewrite sum_by_app, live_cleanup in Hs.
  rewrite (total_removed _ _ (st_transactions st) ids Hnd (et_lookup _ _ _ _ Hev)) in Hs.
  unfold ofIds. cbn. lia.
Qed.

Lemma metadataLoop_sublist s current required order :
  metadataBudgetLoop s current required order `sublist_of` order.
Proof.
  revert required. induction order as [|x order IH]; intros required; cbn; [done|].
  case_if Hz; [apply sublist_nil_l|]. case_bool_decide; [by apply sublist_cons|].
  destruct (finishedRecord s x); [by apply sublist_skip|by apply sublist_cons].
Qed.

Lemma planMetadata_NoDup s current increase :
  StateInv s → NoDup (planMetadataBudgetEvictions s current increase).
Proof. intros Hs. eapply sublist_NoDup; [apply (si_nodup _ Hs)|]. apply metadataLoop_sublist. Qed.

(** ** Replacements *)
(** The bodies a replacement hands over fit the budget next to the records. *)
Definition fits (bodies : list BodyRef) (st : RecordingStateInner) : Prop :=
  saturating_add (st_totalMetadataBytes st) (sum_by cleanupBodyReferenceMetadataBytes bodies)
    ≤ st_metadataMemoryBudgetBytes st.

Lemma replaceWithinBudget_fits id r oldBytes newBytes change s :
  StateInv s → st_transactions s !! id = Some r →
  Runs (replaceWithinBudget id oldBytes newBytes change) s
    (λ bodies st, fits bodies st ∧
       ∃ ids st1 bytes, Evicted ids s st1 bodies ∧ (∀ x, x ∈ ids → finished s x ∧ x ≠ id) ∧
         st = set_totalMetadataBytes bytes (set_transactions (<[id := change r]> (st_transactions st1)) st1))
    (λ _ _, True).
Proof.
  intros Hs Hr. apply runs_bind, runs_gets. unfold Datatypes.id. cbv zeta.
  pose proof (planMetadata_NoDup s id (saturating_sub newBytes oldBytes) Hs) as Hnd.
  pose proof (λ x, planMetadata_finished s id (saturating_sub newBytes oldBytes) x) as Hfin.
  set (ids := planMetadataBudgetEvictions _ _ _) in *. case_if Hbudget; [by apply runs_fail|].
  apply Z.ltb_ge in Hbudget. destruct (removeTransactions_evicted ids s Hs) as (st1 & bodies & -> & Hev).
  rewrite (et_lookup _ _ _ _ Hev), decide_False, Hr by (by intros [_ ?]%Hfin). cbn.
  split; [|by exists ids, st1; eauto].
  unfold fits. cbn. rewrite (evicted_cleanup _ _ _ _ Hnd Hev).
  pose proof (et_frame _ _ _ _ Hev) as Hf. unfold frame in Hf. injection Hf as _ _ _ -> _ _ _. done.
Qed.

Lemma replaceSummary_fits id r t bytes s :
  StateInv s → st_transactions s !! id = Some r →
  Runs (replaceSummaryWithinMetadataBudget id t bytes) s (λ bodies st, fits bodies st) (λ _ _, True).
Proof.
  intros Hs Hr. destruct (replaceSummary_eq id r t bytes _ Hr) as [Heq|(old & new & Heq)];
    (eapply runs_ext; [exact Heq|]); [by apply runs_fail|].
  eapply runs_mono, replaceWithinBudget_fits; [|done|done..]. by intros ? ? [? _].
Qed.

Lemma finalizeSummary_fits id r t bytes s :
  StateInv s → st_transactions s !! id = Some r →
  Runs (finalizeSummaryWithinLimits id t bytes) s (λ bodies st, fits bodies st) (λ _ _, True).
Proof.
  intros Hs Hr. apply runs_bind. destruct (replaceSummary_eq id r t bytes _ Hr) as [Heq|(old & new & Heq)];
    (eapply runs_ext; [exact Heq|]); [by apply runs_fail|].
  eapply runs_mono, replaceWithinBudget_fits; [|done|done..]. cbn beta.
  intros bodies st (Hfit & ids & st1 & n & Hev & Hfin & Hst). apply runs_bind, runs_gets.
  unfold Datatypes.id. pose proof (et_state _ _ _ _ Hev) as Hst1.
  assert (Hr1 : st_transactions st1 !! id = Some r).
  { rewrite (et_lookup _ _ _ _ Hev), decide_False; [done|]. by intros [_ ?]%Hfin. }
  rewrite enforceAllLimits_within.
  - rewrite app_nil_r. destruct (insertEntry_frame id st) as [i Hi]. apply runs_bind, runs_modify, runs_ret.
    rewrite Hi. exact Hfit.
  - rewrite Hst. cbn. rewrite map_size_insert_Some by done. apply Hst1.
  - rewrite Hst. apply Hst1.
Qed.

Definition WithinBudget (s : RecordingSession) : Prop :=
  st_totalMetadataBytes (ss_state s) ≤ st_metadataMemoryBudgetBytes (ss_state s).

Lemma replaceAndNotify_fits (m : onState (list BodyRef)) s :
  Runs m (ss_state s) (λ bodies st, fits bodies st) (λ _ _, True) →
  Runs (replaceAndNotify m) s (λ _ s', WithinBudget s') (λ _ _, True).
Proof.
  intros Hm. apply runs_bind, on_state_runs. eapply runs_mono, Hm; [|done]. cbn beta.
  intros bodies st Hfit. apply runs_bind, enqueue_runs. exact Hfit.
Qed.

(** The calls that replace a summary. *)
Definition replacesSummary (call : Call) : bool :=
  match call with
  | Update _ _ | UserFields _ _ | Commit _ _ | Block _ _ | Fails _ _ _ | Cancel _ _ _ => true
  | _ => false
  end.

Lemma finalize_fits hs s id change :
  World hs s → Runs (finalize id change) s (λ _ s', WithinBudget s') (λ _ _, True).
Proof.
  intros Hw. apply runs_bind, ensureOpen_runs; [intros _|done].
  apply runs_bind, pendingRecord_runs; [|done]. intros r Hr Hp. cbv zeta.
  apply replaceAndNotify_fits. apply (finalizeSummary_fits _ r); [apply Hw|done].
Qed.

(** A summary is replaced only when the metadata on record, with what the evicted
    bodies hold until they are cleaned up, is within the budget. *)
Theorem replaced_within_budget (to_lowercase : chars → chars) drain_order w call s' :
  Good w → replacesSummary call = true →
  perform to_lowercase drain_order call (session w) = (s', Ok tt) → WithinBudget s'.
Proof.
  intros Hw Hcall Hp.
  assert (Hr : Runs (perform to_lowercase drain_order call) (session w) (λ _ s', WithinBudget s') (λ _ _, True)).
  { destruct call; try done; cbn [perform]; try (by eapply finalize_fits).
    - apply runs_bind, ensureOpen_runs; [intros _|done]. apply runs_bind, pendingRecord_runs; [|done].
      intros r Hr _. cbv zeta. apply replaceAndNotify_fits, (replaceSummary_fits _ r); [apply Hw|done].
    - apply runs_bind, ensureOpen_runs; [intros _|done]. apply runs_bind, existingRecord_runs; [|done].
      intros r Hr. cbv zeta. apply replaceAndNotify_fits, (replaceSummary_fits _ r); [apply Hw|done]. }
  unfold Runs in Hr. rewrite Hp in Hr. exact Hr.
Qed.

(** What is begun is new, pending, the last of the order, and fits the limits. *)
Theorem begun_is_fresh (to_lowercase : chars → chars) w input id s' :
  Good w → beginTransaction to_lowercase input (session w) = (s', Ok (Some id)) →
  Good (held w, s') ∧ st_transactions (ss_state (session w)) !! id = None ∧
  last (st_order (ss_state s')) = Some id ∧ WithinBudget s' ∧
  ∃ r, st_transactions (ss_state s') !! id = Some r ∧ isPending r = true.
Proof.
  intros Hw Hb. pose proof (beginTransaction_runs to_lowercase (held w) (session w) input Hw) as Hr.
  unfold Runs in Hr. rewrite Hb in Hr. destruct Hr as ([Hw' _] & r & Hr & Hp & Hdead & Hlast & Hbudget).
  split_and!; [done|by apply eq_None_not_Some|done|done|by exists r].
Qed.
End bounds.

(** * Eviction plans of the recording session

    Each of the four planning loops picks, among the finished transactions in the order
    they were begun, the shortest prefix whose removal is enough, or all of them. *)

(** ** Shortest sufficient prefixes *)
(** [p] is the shortest prefix of [l] that is [enough], or [l] when none is. *)
Record Shortest {A} (enough : list A → bool) (l p : list A) : Prop := {
  sh_prefix : p `prefix_of` l;
  sh_enough : enough p = true ∨ p = l;
  sh_least : ∀ q, q `prefix_of` p → q ≠ p → enough q = false;
}.

Lemma shortest_stop {A} (enough : list A → bool) l : enough [] = true → Shortest enough l [].
Proof. split; [apply prefix_nil|by left|]. by intros q ->%prefix_nil_inv. Qed.

Lemma shortest_nil {A} (enough : list A → bool) : Shortest enough [] [].
Proof. split; [done|by right|]. by intros q ->%prefix_nil_inv. Qed.

Lemma shortest_cons {A} (enough : list A → bool) x l p :
  enough [] = false → Shortest (λ p, enough (x :: p)) l p → Shortest enough (x :: l) (x :: p).
Proof.
  intros H0 [Hp He Hl]. split; [by apply prefix_cons|destruct He as [He| ->]; auto|].
  intros [|y q] Hq Hne; [done|]. pose proof (prefix_cons_inv_1 _ _ _ _ Hq) as ->.
  apply Hl; [by eapply prefix_cons_inv_2|congruence].
Qed.

Section plans.
Context `{Layout} `{Environment}.

(** ** What the plans choose from *)
Definition finished (s : RecordingStateInner) (order : list chars) : list chars :=
  filter (λ id, is_Some (finishedRecord s id)) order.
Definition finishedOthers (s : RecordingStateInner) (currentTransactionId : chars) (order : list chars)
    : list chars :=
  filter (λ id, id ≠ currentTransactionId ∧ is_Some (finishedRecord s id)) order.

(** What is left of [start] once the transactions [ids] give back their [weight]. *)
Definition afterRemoving (s : RecordingStateInner) (weight : TransactionRecord → Z) (start : Z)
    (ids : list chars) : Z :=
  fold_left (λ rest id, saturating_sub rest (from_option weight 0 (finishedRecord s id))) ids start.

Definition retainedCount (start : Z) (ids : list chars) : Z :=
  fold_left (λ count _, saturating_sub count 1) ids start.

(** Metadata a removal gives back now: what its bodies hold is billed until they are
    cleaned up. *)
Definition visibleMetadataBytes (r : TransactionRecord) : Z :=
  saturating_sub (transactionMetadataBytes r) (cleanupBodyReferencesMetadataBytes r).

Lemma filter_step {A} (P : A → Prop) `{∀ x, Decision (P x)} x l :
  filter P (x :: l) = if decide (P x) then x :: filter P l else filter P l.
Proof. done. Qed.

Lemma bodyLoop_shortest s current required order :
  required ≠ 0 →
  Shortest (λ p, afterRemoving s transactionBodyBytes required p =? 0) (finishedOthers s current order)
    (bodyBudgetLoop s current required order).
Proof.
  revert required. unfold finishedOthers.
  induction order as [|id order IH]; intros required Hreq; [apply shortest_nil|].
  cbn [bodyBudgetLoop]. rewrite filter_step. case_bool_decide as Hid.
  { rewrite decide_False by tauto. by apply IH. }
  destruct (finishedRecord s id) as [r|] eqn:Hr.
  2: { rewrite decide_False by (intros [_ [? ?]]; congruence). by apply IH. }
  rewrite decide_True by eauto. apply shortest_cons; [by apply Z.eqb_neq|].
  unfold afterRemoving. cbn [fold_left]. rewrite Hr. cbn [from_option]. case_if Hz.
  - by apply shortest_stop.
  - apply Z.eqb_neq in Hz. by apply IH.
Qed.

Lemma metadataLoop_shortest s current required order :
  Shortest (λ p, afterRemoving s visibleMetadataBytes required p =? 0) (finishedOthers s current order)
    (metadataBudgetLoop s current required order).
Proof.
  revert required. unfold finishedOthers.
  induction order as [|id order IH]; intros required; [apply shortest_nil|].
  cbn [metadataBudgetLoop]. case_if Hz; [by apply shortest_stop|]. rewrite filter_step.
  case_bool_decide as Hid.
  { rewrite decide_False by tauto. by apply IH. }
  destruct (finishedRecord s id) as [r|] eqn:Hr.
  2: { rewrite decide_False by (intros [_ [? ?]]; congruence). by apply IH. }
  rewrite decide_True by eauto. apply shortest_cons; [done|].
  unfold afterRemoving. cbn [fold_left]. rewrite Hr. apply IH.
Qed.

Lemma admissionLoop_shortest s new count bytes order :
  Shortest (λ p, (retainedCount count p <? rm_maxTransactions (st_limits s)) &&
      (saturating_add (afterRemoving s transactionMetadataBytes bytes p) new
         <=? st_metadataMemoryBudgetBytes s))
    (finished s order) (admissionLoop s new count bytes order).
Proof.
  revert count bytes. unfold finished.
  induction order as [|id order IH]; intros count bytes; [apply shortest_nil|].
  cbn [admissionLoop]. case_if Hz; [by apply shortest_stop|]. rewrite filter_step.
  destruct (finishedRecord s id) as [r|] eqn:Hr.
  2: { rewrite decide_False by (intros [? ?]; congruence). by apply IH. }
  rewrite decide_True by eauto. apply shortest_cons; [done|].
  unfold afterRemoving, retainedCount. cbn [fold_left]. rewrite Hr. apply IH.
Qed.

Lemma limitsLoop_shortest s count bytes order :
  Shortest (λ p, (retainedCount count p <=? rm_maxTransactions (st_limits s)) &&
      (afterRemoving s transactionBodyBytes bytes p <=? rm_maxTotalBodyBytes (st_limits s)))
    (finished s order) (limitsLoop s count bytes order).
Proof.
  revert count bytes. unfold finished.
  induction order as [|id order IH]; intros count bytes; [apply shortest_nil|].
  cbn [limitsLoop]. case_if Hz; [by apply shortest_stop|]. rewrite filter_step.
  destruct (finishedRecord s id) as [r|] eqn:Hr.
  2: { rewrite decide_False by (intros [? ?]; congruence). by apply IH. }
  rewrite decide_True by eauto. apply shortest_cons; [done|].
  unfold afterRemoving, retainedCount. cbn [fold_left]. rewrite Hr. apply IH.
Qed.

(** Every plan evicts the oldest finished transactions, as few of them as will do: to
    admit a transaction, to store a body, to grow a record, to keep the limits. *)
Theorem plans_are_shortest s current new base desired increase :
  Shortest (λ p, (retainedCount (Z.of_nat (size (st_transactions s))) p <? rm_maxTransactions (st_limits s)) &&
      (saturating_add (afterRemoving s transactionMetadataBytes (st_totalMetadataBytes s) p) new
         <=? st_metadataMemoryBudgetBytes s))
    (finished s (st_order s)) (planTransactionAdmissionEvictions s new) ∧
  Shortest (λ p, afterRemoving s transactionBodyBytes
        (saturating_sub (saturating_add base desired) (rm_maxTotalBodyBytes (st_limits s))) p =? 0)
    (finishedOthers s current (st_order s)) (planBodyBudgetEvictions s current base desired) ∧
  Shortest (λ p, afterRemoving s visibleMetadataBytes
        (saturating_sub (saturating_add (st_totalMetadataBytes s) increase)
           (st_metadataMemoryBudgetBytes s)) p =? 0)
    (finishedOthers s current (st_order s)) (planMetadataBudgetEvictions s current increase) ∧
  ∃ plan, enforceAllLimits s = removeTransactions plan s ∧
    Shortest (λ p, (retainedCount (Z.of_nat (size (st_transactions s))) p <=? rm_maxTransactions (st_limits s)) &&
        (afterRemoving s transactionBodyBytes (st_totalBodyBytes s) p <=? rm_maxTotalBodyBytes (st_limits s)))
      (finished s (st_order s)) plan.
Proof.
  split_and!.
  - apply admissionLoop_shortest.
  - unfold planBodyBudgetEvictions. cbv zeta. case_if Hz; [by apply shortest_stop|].
    apply bodyLoop_shortest. by apply Z.eqb_neq.
  - apply metadataLoop_shortest.
  - eexists. split; [reflexivity|]. apply limitsLoop_shortest.
Qed.
End plans.

(** * Partial responses and body evictions

    The index answers exactly the complete partial responses on record, in the order
    they were begun; the plan that makes room for a body evicts the oldest finished
    transactions, as few of them as will do. *)

(** ** The order of members *)
Lemma chars_leb_refl a : chars_leb a a = true.
Proof. induction a as [|x a IH]; cbn; [done|]. by rewrite Z.ltb_irrefl. Qed.

Lemma chars_leb_total a b : chars_leb a b = true ∨ chars_leb b a = true.
Proof.
  revert b. induction a as [|x a IH]; intros [|y b]; cbn; auto.
  destruct (Z.ltb_spec x y), (Z.ltb_spec y x); auto.
Qed.

Lemma chars_leb_trans a b c : chars_leb a b = true → chars_leb b c = true → chars_leb a c = true.
Proof.
  revert b c. induction a as [|x a IH]; intros [|y b] [|z c]; cbn; try done.
  destruct (Z.ltb_spec x y), (Z.ltb_spec y x), (Z.ltb_spec y z), (Z.ltb_spec z y), (Z.ltb_spec x z),
    (Z.ltb_spec z x); try done; try lia. by apply IH.
Qed.

#[export] Instance member_le_total : Total member_le.
Proof.
  intros [x a] [y b]. unfold member_le. cbn.
  destruct (Z.ltb_spec x y), (Z.ltb_spec y x); auto. apply chars_leb_total.
Qed.

#[export] Instance member_le_trans : Transitive member_le.
Proof.
  intros [x a] [y b] [z c]. unfold member_le. cbn.
  destruct (Z.ltb_spec x y), (Z.ltb_spec y x), (Z.ltb_spec y z), (Z.ltb_spec z y), (Z.ltb_spec x z),
    (Z.ltb_spec z x); try done; try lia. apply chars_leb_trans.
Qed.

Lemma member_le_sequence a b : member_le a b → a.1 ≤ b.1.
Proof.
  unfold member_le. destruct (Z.ltb_spec a.1 b.1); [lia|]. destruct (Z.ltb_spec b.1 a.1); [done|lia].
Qed.

Lemma sorted_fmap_inv {A B} (R : B → B → Prop) (f : A → B) l :
  StronglySorted R (f <$> l) → StronglySorted (λ a b, R (f a) (f b)) l.
Proof.
  induction l as [|a l IH]; cbn; intros Hl; [constructor|].
  apply StronglySorted_inv in Hl as [Hl Hall]. constructor; [by apply IH|]. revert Hall. apply Forall_fmap.
Qed.

Lemma sorted_weaken {A} (R S : A → A → Prop) l :
  (∀ a b, R a b → S a b) → StronglySorted R l → StronglySorted S l.
Proof.
  intros HRS. induction 1 as [|a l Hl IH Hall]; constructor; [done|]. eapply Forall_impl; eauto.
Qed.

Section queries.
Context `{Layout} `{Environment} {Hok : EnvironmentOk}.

(** ** Partial responses *)
Definition entityKey (urlDisplay entityTag : chars) (totalBytes : Z) (contentEncoding : chars)
    : ResponseEntityIndexKey :=
  {| ek_urlDisplay := urlDisplay; ek_entityTag := entityTag; ek_totalBytes := totalBytes;
     ek_contentEncoding := to_ascii_lowercase contentEncoding |}.

Lemma candidate_of_entry r key c : responseEntityEntry r = Some (key, c) → responseRangeCandidate r = Some c.
Proof.
  unfold responseEntityEntry. destruct (responseRangeCandidate r) as [c'|]; [|done]. cbn.
  destruct (strongResponseEntityTag _); [|done]. cbn.
  destruct (responseContentRange _) as [[[? ?] ?]|]; [|done]. cbn. by intros [= _ <-].
Qed.

(** The index of partial responses is exact.  A query by address, entity tag, total length
    and encoding answers each transaction that holds a complete matching partial response
    once, and no other, the one begun first in front, and changes nothing. *)
Theorem range_candidates_exact hs s urlDisplay entityTag totalBytes contentEncoding s' candidates :
  World hs s →
  findResponseRangeCandidates urlDisplay entityTag totalBytes contentEncoding s = (s', Ok candidates) →
  s' = s ∧ StronglySorted (λ a b, cd_sequence a ≤ cd_sequence b) candidates ∧
  NoDup ((λ c, text (cd_transactionId c)) <$> candidates) ∧
  ∀ c, c ∈ candidates ↔ ∃ id r, st_transactions (ss_state s) !! id = Some r ∧
    responseEntityEntry r = Some (entityKey urlDisplay entityTag totalBytes contentEncoding, c).
Proof.
  intros Hw. unfold findResponseRangeCandidates, ensureOpen, with_state, gets, mbind, stateful_bind, Datatypes.id.
  destruct (st_closed (ss_state s)); [done|].
  cbn -[merge_sort omap]. fold (entityKey urlDisplay entityTag totalBytes contentEncoding).
  set (key := entityKey _ _ _ _). pose proof (si_core _ (w_state _ _ Hw)) as [Hrec _ [Hmem Hne]].
  destruct (st_responseEntityIndex (ss_state s) !! key) as [members|] eqn:Hk.
  2: { intros [= <- <-]. split_and!; [done|constructor|constructor|]. intros c.
       split; [by intros ?%elem_of_nil|]. intros (id & r & Hr & He). exfalso.
       assert (Hin : Indexed (ss_state s) key (sequence r, id)).
       { apply Hmem. exists id, r. unfold entryKey. by rewrite He. }
       destruct Hin as (m & Hm & _). congruence. }
  intros [= <- <-].
  match goal with |- context [omap ?g _] => set (f := g) end.
  (* a member stands for the record with its identifier *)
  assert (Hmember : ∀ m, m ∈ members → ∃ r c, st_transactions (ss_state s) !! m.2 = Some r ∧
      responseEntityEntry r = Some (key, c) ∧ f m = Some c ∧ memberOf c = m).
  { intros m Hm. destruct (proj1 (Hmem key m)) as (id & r & Hr & Hek & ->); [by exists members|].
    unfold entryKey in Hek. destruct (responseEntityEntry r) as [[key' c]|] eqn:He; [|done].
    cbn in Hek. injection Hek as ->. exists r, c. cbn. rewrite Hr. cbn.
    rewrite (candidate_of_entry _ _ _ He), (entity_member _ _ _ He), (ro_key _ _ (Hrec _ _ Hr)). done. }
  set (l := merge_sort member_le (elements members)).
  assert (Hl : ∀ m, m ∈ l ↔ m ∈ members).
  { intros m. unfold l. rewrite merge_sort_Permutation. apply elem_of_elements. }
  assert (Hof : memberOf <$> omap f l = l).
  { assert (Hsub : ∀ m, m ∈ l → m ∈ members) by (intros m; apply Hl). clearbody l. clear Hl.
    induction l as [|m l IH]; [done|]. cbn [omap list_omap].
    destruct (Hmember m) as (r & c & _ & _ & Hf & Hc); [apply Hsub; by left|]. rewrite Hf. cbn.
    rewrite Hc, IH; [done|]. intros m' Hm'. apply Hsub. by right. }
  assert (Hnd : NoDup l) by (unfold l; rewrite merge_sort_Permutation; apply NoDup_elements).
  split_and!; [done| | |].
  - apply (sorted_weaken (λ a b, member_le (memberOf a) (memberOf b))).
    { intros a b Hab. apply (member_le_sequence _ _ Hab). }
    apply sorted_fmap_inv. rewrite Hof. unfold l. apply (StronglySorted_merge_sort _).
  - replace ((λ c, text (cd_transactionId c)) <$> omap f l) with (snd <$> l)
      by (rewrite <-Hof at 1; rewrite <-list_fmap_compose; done).
    apply NoDup_fmap_2_strong; [|done]. intros m1 m2 H1%Hl H2%Hl H12.
    destruct (Hmember _ H1) as (r1 & c1 & Hr1 & He1 & _ & <-).
    destruct (Hmember _ H2) as (r2 & c2 & Hr2 & He2 & _ & <-).
    rewrite H12 in Hr1. rewrite Hr1 in Hr2. injection Hr2 as <-. rewrite He1 in He2. congruence.
  - intros c. rewrite list_elem_of_omap. split.
    + intros (m & Hm%Hl & Hf). destruct (Hmember _ Hm) as (r & c' & Hr & He & Hf' & _).
      exists m.2, r. split; [done|]. congruence.
    + intros (id & r & Hr & He).
      assert (Hin : Indexed (ss_state s) key (sequence r, id)).
      { apply Hmem. exists id, r. unfold entryKey. by rewrite He. }
      destruct Hin as (m & Hm & Hin). rewrite Hk in Hm. injection Hm as <-.
      exists (sequence r, id). split; [by apply Hl|].
      destruct (Hmember _ Hin) as (r' & c' & Hr' & He' & Hf' & _). cbn in Hr'. congruence.
Qed.
End queries.
