(* ===== verification/RecordingExamples.v ===== *)
(** * A recording session on concrete inputs *)

From S2P Require Import Prelude NetAddress Stateful Text Location CaptureModel MetadataBudget BodyStore BodyStoreSpec BodyOwnership RecordingState RecordingBudget Recording RecordingInvariant RecordingWorld RecordingCleanup RecordingReplace RecordingMethods RecordingStorage RecordingSpools RecordingSteps RecordingTheorems RecordingBounds.

(** ** An environment *)
#[export] Instance layoutEx : Layout :=
  {| sizeof_HeaderField := 48; sizeof_TransactionSummary := 536; sizeof_TransactionRecord := 1080;
     sizeof_TransactionError := 72; sizeof_StringPair := 48; sizeof_StreamPacket := 80;
     sizeof_BodyRef := 152; sizeof_EntityKey := 80; sizeof_EntityMember := 32 |}.

#[export] Instance environmentEx : Environment :=
  {| new_v4 n := repeat 48 35 ++ [Z.of_nat n]; path_slack _ := 0; first_orphan orphans := head (elements orphans) |}.

#[export] Instance environmentEx_ok : EnvironmentOk.
Proof.
  split; cbn.
  - done.
  - intros m n Heq. cbn in Heq. injection Heq. lia.
  - done.
  - intros orphans. destruct (elements orphans) as [|p l] eqn:He; cbn.
    + by apply leibniz_equiv, elements_empty_iff.
    + apply elem_of_elements. rewrite He. by left.
Qed.

Definition drainEx (m : gmap chars TransactionRecord) : list TransactionRecord := (map_to_list m).*2.

Lemma drainEx_perm m : drainEx m ≡ₚ (map_to_list m).*2.
Proof. done. Qed.

Definition diskEx : Disk := {| dk_directory := true; dk_names := ∅; dk_inodes := []; dk_answers := [] |}.

Definition configurationEx : RecordingConfiguration :=
  {| rc_limits := {| rm_maxTransactions := 2; rm_maxBodyBytes := 8; rm_maxTotalBodyBytes := 12 |};
     rc_ignoreLocations := []; rc_recordTunnelMetadata := true; rc_memoryBodyThreshold := 4;
     rc_metadataMemoryBudgetBytes := 65536; rc_spillDirectory := lit "C:\spool" |}.

(** The value of an outcome that is one. *)
Definition result {E A} (m : outcome E A) : match m with Ok _ => True | _ => False end → A :=
  match m with Ok a => λ _, a | Err _ | Panic => λ absurd, match absurd with end end.

Definition sessionEx : RecordingSession := result (newSession configurationEx 1000 diskEx) I.

Definition inputEx (protocol : TransactionProtocol) : BeginTransaction :=
  {| bt_protocol := protocol; bt_method := tight (lit "GET");
     bt_location := {| ol_protocol := tight (lit "https"); ol_host := tight (lit "a.io"); ol_port := 443;
                       ol_path := tight (lit "/x"); ol_query := tight []; ol_display := tight (lit "https://a.io/x") |};
     bt_clientAddress := tight (lit "10.0.0.1"); bt_clientProcessName := None; bt_clientProcessId := None;
     bt_contentType := tight []; bt_startAtMilliseconds := 1001 |}.

Definition bodyEx : BodyWrite :=
  {| bw_bytes := [1; 2; 3; 4; 5; 6]; bw_originalBytes := 6; bw_contentType := tight (lit "text/plain");
     bw_encoding := tight [] |}.

Abbreviation performEx := (perform to_ascii_lowercase drainEx).

Definition idEx : chars := new_v4 1.

(** [runEx calls s] performs the calls one after the other. *)
Definition runEx (calls : list Call) (s : RecordingSession) : RecordingSession :=
  fold_left (λ s call, (performEx call s).1) calls s.

Definition packetEx : StreamPacket :=
  {| sp_sequence := 1; sp_capturedAtMilliseconds := 1002; sp_storedOffsetBytes := 0; sp_storedBytes := 1;
     sp_originalBytes := 1; sp_truncated := false; sp_action := PacketForward; sp_modifications := [] |}.

Definition unbilledEx : RecordingSession :=
  runEx [Begin (inputEx Http); StoreBody idEx Request bodyEx; StoreBody idEx Response bodyEx;
         StorePackets idEx Request {| items := [packetEx]; vec_capacity := 4 |};
         StorePackets idEx Response {| items := [packetEx]; vec_capacity := 1 |}] sessionEx.

(** The packets of one side are billed on a copy of the record, which has no spare
    capacity; the record keeps the capacity of the other side.  The total on record
    then falls below what the only record holds. *)
Lemma packets_underbilled :
  st_order (ss_state unbilledEx) = [idEx] ∧ st_cleanupQueue (ss_state unbilledEx) = [] ∧
  st_totalMetadataBytes (ss_state unbilledEx) =
    total transactionMetadataBytes (st_transactions (ss_state unbilledEx)) - 3 * sizeof_StreamPacket.
Proof. split_and!; vm_compute; reflexivity. Qed.

(** ** Good worlds *)
Lemma eq_pair {A B} (p : A * B) b : p.2 = b → p = (p.1, b).
Proof. by intros <-; destruct p. Qed.

Lemma ran {S E A} (p : S * outcome E A) (H : match p.2 with Ok _ => True | _ => False end) :
  p = (p.1, Ok (result p.2 H)).
Proof. destruct p as [s [a|e|]]; [done|destruct H|destruct H]. Qed.

Lemma newEx : newSession configurationEx 1000 diskEx = Ok sessionEx.
Proof. done. Qed.

Abbreviation MovesEx := (Moves to_ascii_lowercase drainEx).

Lemma within_self c : within c c.
Proof. split; auto. Qed.

Lemma callEx call hs s : MovesEx (scopeOf call) (hs, s) (hs, (performEx call s).1).
Proof. exists (scopeOf call). split; [apply within_self|constructor]. Qed.

Lemma anythingEx c w w' : MovesEx c w w' → MovesEx Anything w w'.
Proof. intros (c' & _ & Hs). exists c'. split; [by split|done]. Qed.

Lemma runsEx calls hs s : rtc (MovesEx Anything) (hs, s) (hs, runEx calls s).
Proof.
  revert s. induction calls as [|call calls IH]; intros s; [apply rtc_refl|].
  eapply rtc_l; [eapply anythingEx, callEx|apply IH].
Qed.

Lemma goodEx calls : Good ([], runEx calls sessionEx).
Proof.
  eapply (moves_good to_ascii_lowercase drainEx drainEx_perm Anything ([], sessionEx)), runsEx.
  by eapply newSession_good; [exact newEx|..].
Qed.

(** ** Sessions *)
Definition completionEx : TransactionCompletion :=
  {| tc_statusCode := 200; tc_endAtMilliseconds := 1003; tc_contentType := tight (lit "text/plain") |}.

Definition beganEx : RecordingSession := runEx [Begin (inputEx Http)] sessionEx.
Definition finishedEx : RecordingSession :=
  runEx [Begin (inputEx Http); StoreBody idEx Response bodyEx; Commit idEx completionEx] sessionEx.

Definition recordEx (s : RecordingSession) : TransactionRecord :=
  default (newRecord (newSummary idEx (ss_state s) (inputEx Http))) (st_transactions (ss_state s) !! idEx).

Lemma recordEx_lookup s :
  bool_decide (idEx ∈ st_order (ss_state s)) = true → Good ([], s) →
  st_transactions (ss_state s) !! idEx = Some (recordEx s).
Proof.
  intros Hin%bool_decide_eq_true Hs. unfold recordEx.
  apply (si_order _ (w_state _ _ Hs)) in Hin as [r Hr]. change (st_transactions (ss_state s) !! idEx = Some r) in Hr. by rewrite Hr.
Qed.

(** ** Witnesses *)
Lemma recording_invariant_witness : Good ([], finishedEx).
Proof.
  by apply (recording_invariant to_ascii_lowercase drainEx drainEx_perm _ _ _ _ _ newEx eq_refl ltac:(done)), runsEx.
Defined.

(** A session with the two spools of a capture. *)
Definition createdEx (side : MessageSide) (s : RecordingSession) : RecordingSession * BodySpool :=
  let r := on_store (createSpool idEx side) s in
  (r.1, match r.2 with
        | Ok spool => spool
        | _ => {| bo_file := 0; bo_pendingPath := tight []; bo_committedPath := tight []; bo_writtenBytes := 0 |}
        end).
Definition spoolRequestEx : RecordingSession * BodySpool := createdEx Request beganEx.
Definition spoolResponseEx : RecordingSession * BodySpool := createdEx Response spoolRequestEx.1.
Definition spoolingEx : world :=
  ([HeldSpool idEx spoolResponseEx.2 true; HeldSpool idEx spoolRequestEx.2 true], spoolResponseEx.1).

Lemma createdEx_step side hs s :
  match (on_store (createSpool idEx side) s).2 with Ok _ => true | _ => false end = true → (1 < bs_uuids (ss_bodyStore s))%nat →
  MovesEx Anything (hs, s) (HeldSpool idEx (createdEx side s).2 true :: hs, (createdEx side s).1).
Proof.
  intros Hok Hn. eapply anythingEx. exists Quiet. split; [apply within_self|].
  pose proof (step_create to_ascii_lowercase drainEx idEx side hs s _ _
    (ex_intro _ 1%nat (conj Hn eq_refl)) (surjective_pairing _)) as Hstep.
  unfold createdEx. cbn [fst snd]. destruct (on_store (createSpool idEx side) s).2; [exact Hstep|done..].
Qed.

Lemma spoolingEx_good : Good spoolingEx.
Proof.
  refine (proj1 (moves_good to_ascii_lowercase drainEx drainEx_perm Anything ([], beganEx) spoolingEx (goodEx _) _)).
  eapply rtc_l; [apply (createdEx_step Request); [vm_compute; reflexivity|vm_compute; lia]|].
  eapply rtc_once. apply (createdEx_step Response); [vm_compute; reflexivity|vm_compute; lia].
Qed.

(** Every kind of method, the storing while the session is cleared elsewhere. *)
Lemma recording_calls_return_witness :
  Returns (performEx Clear) (session spoolingEx) ∧
  Returns (ask to_ascii_lowercase (BodyChunk (λ s, (performEx Clear s).1) idEx Response 0 4)) (session spoolingEx) ∧
  Returns (createBodySpool (λ s, s) idEx Request) (session spoolingEx) ∧
  Returns (storeBodySpools (λ s, (performEx Clear s).1) idEx spoolRequestEx.2 spoolResponseEx.2
             (lit "text/plain") []) (session spoolingEx).
Proof.
  destruct (recording_calls_return to_ascii_lowercase drainEx drainEx_perm spoolingEx spoolingEx_good)
    as (Hcalls & Hqueries & Hcreate & Hstore).
  split; [apply Hcalls|]. split; [apply Hqueries; split; lia|]. split; [apply Hcreate|].
  apply (Hstore _ _ _ _ _ _ []); [apply perm_swap|]. intros b1 b2 s _. eexists.
  apply rtc_once. eapply anythingEx, callEx.
Defined.

Definition afterEx (call : Call) (s : RecordingSession) : RecordingSession := (performEx call s).1.

Lemma pending_transaction_survives_witness :
  ∃ r', st_transactions (ss_state (session ([], afterEx Cleanup beganEx))) !! idEx = Some r' ∧
    isPending r' = true ∧ identity r' = identity (recordEx beganEx).
Proof.
  refine (pending_transaction_survives to_ascii_lowercase drainEx drainEx_perm Quiet ([], beganEx)
           ([], afterEx Cleanup beganEx) idEx (recordEx beganEx) (goodEx _) _ _ _ _).
  - apply rtc_once, (callEx Cleanup).
  - by intros [].
  - apply recordEx_lookup; [by vm_compute|apply goodEx].
  - by vm_compute.
Defined.

Lemma finished_transaction_fixed_witness :
  isPending (recordEx (afterEx Cleanup finishedEx)) = false ∧
  identity (recordEx (afterEx Cleanup finishedEx)) = identity (recordEx finishedEx) ∧
  facts (recordEx (afterEx Cleanup finishedEx)) = facts (recordEx finishedEx) ∧
  ∀ side body, record_body (recordEx finishedEx) side = Some body →
    record_body (recordEx (afterEx Cleanup finishedEx)) side = Some body ∧
    contentOf (ss_bodyStore (session ([], afterEx Cleanup finishedEx))) body =
    contentOf (ss_bodyStore (session ([], finishedEx))) body.
Proof.
  refine (finished_transaction_fixed to_ascii_lowercase drainEx drainEx_perm ([], finishedEx)
           ([], afterEx Cleanup finishedEx) idEx (recordEx finishedEx)
           (recordEx (afterEx Cleanup finishedEx)) (goodEx _) _ _ _ _).
  - apply rtc_once, (anythingEx (scopeOf Cleanup)), (callEx Cleanup).
  - apply recordEx_lookup; [by vm_compute|apply goodEx].
  - by vm_compute.
  - apply recordEx_lookup; [by vm_compute|].
    apply (goodEx [Begin (inputEx Http); StoreBody idEx Response bodyEx; Commit idEx completionEx; Cleanup]).
Defined.

Lemma transaction_finishes_once_witness :
  (∃ r, st_transactions (ss_state (session ([], beganEx))) !! idEx = Some r ∧ isPending r = true) ∧
  (∃ r', st_transactions (ss_state (afterEx (Commit idEx completionEx) beganEx)) !! idEx = Some r' ∧
         status r' = Complete) ∧
  ∀ call' final', finishes call' = Some (idEx, final') →
    performEx call' (afterEx (Commit idEx completionEx) beganEx) =
      (afterEx (Commit idEx completionEx) beganEx, Err SessionClosed) ∨
    performEx call' (afterEx (Commit idEx completionEx) beganEx) =
      (afterEx (Commit idEx completionEx) beganEx, Err TransactionFinished).
Proof.
  refine (transaction_finishes_once to_ascii_lowercase drainEx ([], beganEx) (Commit idEx completionEx) idEx
    Complete (afterEx (Commit idEx completionEx) beganEx) (goodEx _) eq_refl _).
  refine (eq_pair (performEx (Commit idEx completionEx) (session ([], beganEx))) (Ok tt) _). by vm_compute.
Defined.

(** A body, a run of other calls, and what is read afterwards. *)
Definition metaEx : BodyHandleMeta :=
  {| bm_transactionId := tight idEx; bm_side := Response; bm_contentType := tight (lit "text/plain");
     bm_encoding := tight []; bm_storedBytes := 6; bm_originalBytes := 6; bm_truncated := false |}.

Definition responseEx : BodyResponse := {| br_meta := metaEx; br_bytes := [1; 2; 3; 4; 5; 6] |}.

Definition storedEx : RecordingSession := (storeBody idEx Response bodyEx (session ([], beganEx))).1.

Lemma stored_body_reads_back_witness :
  br_meta responseEx = clone_meta metaEx ∧
  br_bytes responseEx = slice (bw_bytes bodyEx) 0 (bm_storedBytes metaEx) ∧
  0 ≤ bm_storedBytes metaEx ≤ len (bw_bytes bodyEx) ∧
  bm_truncated metaEx = (bm_storedBytes metaEx <? bw_originalBytes bodyEx).
Proof.
  refine (stored_body_reads_back to_ascii_lowercase drainEx drainEx_perm (Finishing idEx) ([], beganEx)
    ([], afterEx (Commit idEx completionEx) storedEx) idEx Response bodyEx storedEx metaEx _ responseEx
    (goodEx _) (eq_pair _ _ _) _ _ (eq_pair _ _ _)).
  - by vm_compute.
  - apply rtc_once, (callEx (Commit idEx completionEx)).
  - by intros [].
  - by vm_compute.
Defined.



Definition pageEx : RecordingSession * outcome CaptureError RecordingPageView :=
  pageView (Some 0) 10 None (session ([], beganEx)).
Definition viewEx : RecordingPageView := result pageEx.2 ltac:(by vm_compute).
Definition laterEx : RecordingSession := afterEx (Begin (inputEx Https)) beganEx.
Definition laterPageEx : RecordingSession * outcome CaptureError RecordingPageView :=
  pageView (Some (pv_offset viewEx)) 10 (Some (pv_collectionToken viewEx)) (session ([], laterEx)).
Definition laterViewEx : RecordingPageView := result laterPageEx.2 ltac:(by vm_compute).

Lemma page_is_stable_witness :
  pv_total viewEx ≤ pv_total laterViewEx ∧
  (pv_offset viewEx ≤ pv_total viewEx → pageIds viewEx `prefix_of` pageIds laterViewEx).
Proof.
  refine (page_is_stable to_ascii_lowercase drainEx drainEx_perm Quiet ([], beganEx) ([], laterEx)
    (Some 0) 10 pageEx.1 viewEx laterPageEx.1 laterViewEx (goodEx _) (ran _ _) _ (ran _ _) _).
  - apply rtc_once, (callEx (Begin (inputEx Https))).
  - by vm_compute.
Defined.

(** The second page has one transaction more. *)
Example pageEx_grows : pv_total viewEx = 1 ∧ pv_total laterViewEx = 2.
Proof. split; by vm_compute. Qed.

Lemma clearing_empties_witness :
  let s' := (clearSession drainEx (session ([], finishedEx))).1 in
  Good ([], s') ∧ Emptied s' ∧ pendingOrphanCount (ss_bodyStore s') = 0 ∧
  st_directoryCleanupPending (ss_state s') = false.
Proof.
  refine (clearing_empties drainEx drainEx_perm ([], finishedEx) _ (goodEx _) (eq_pair _ (Ok tt) _)).
  by vm_compute.
Defined.

Definition headersEx : list HeaderField :=
  [{| hf_name := tight (lit "ETag"); hf_value := tight [34; 97; 34] |};
   {| hf_name := tight (lit "Content-Range"); hf_value := tight (lit "bytes 0-5/10") |}].

Definition partialEx : RecordingSession :=
  runEx [Begin (inputEx Http); StoreHeaders idEx Response headersEx; StoreBody idEx Response bodyEx;
         Commit idEx {| tc_statusCode := 206; tc_endAtMilliseconds := 1003; tc_contentType := tight [] |}] sessionEx.

Definition candidatesEx : RecordingSession * outcome CaptureError (list ResponseRangeCandidate) :=
  findResponseRangeCandidates (lit "https://a.io/x") [34; 97; 34] 10 [] (session ([], partialEx)).
Definition candidateEx : list ResponseRangeCandidate := result candidatesEx.2 ltac:(by vm_compute).

Lemma range_candidates_exact_witness :
  candidatesEx.1 = session ([], partialEx) ∧
  StronglySorted (λ a b, cd_sequence a ≤ cd_sequence b) candidateEx ∧
  NoDup ((λ c, text (cd_transactionId c)) <$> candidateEx) ∧
  ∀ c, c ∈ candidateEx ↔ ∃ id r, st_transactions (ss_state (session ([], partialEx))) !! id = Some r ∧
    responseEntityEntry r = Some (entityKey (lit "https://a.io/x") [34; 97; 34] 10 [], c).
Proof.
  refine (range_candidates_exact [] (session ([], partialEx)) (lit "https://a.io/x") [34; 97; 34] 10 []
    candidatesEx.1 candidateEx (goodEx _) (ran _ _)).
Defined.

(** The query finds the one partial response. *)
Example candidateEx_found :
  (λ c, (text (cd_transactionId c), cd_start c, cd_end c)) <$> candidateEx = [(idEx, 0, 5)].
Proof. by vm_compute. Qed.

Definition begunEx : RecordingSession * outcome CaptureError (option chars) :=
  beginTransaction to_ascii_lowercase (inputEx Http) (session ([], sessionEx)).

Lemma begun_is_fresh_witness :
  Good ([], begunEx.1) ∧ st_transactions (ss_state (session ([], sessionEx))) !! idEx = None ∧
  last (st_order (ss_state begunEx.1)) = Some idEx ∧ WithinBudget begunEx.1 ∧
  ∃ r, st_transactions (ss_state begunEx.1) !! idEx = Some r ∧ isPending r = true.
Proof.
  refine (begun_is_fresh to_ascii_lowercase ([], sessionEx) (inputEx Http) idEx begunEx.1 (goodEx [])
    (eq_pair _ (Ok (Some idEx)) _)).
  by vm_compute.
Defined.

Lemma replaced_within_budget_witness : WithinBudget (afterEx (Commit idEx completionEx) beganEx).
Proof.
  refine (replaced_within_budget to_ascii_lowercase drainEx ([], beganEx) (Commit idEx completionEx) _
    (goodEx _) eq_refl (eq_pair _ (Ok tt) _)).
  by vm_compute.
Defined.

Lemma bounded_headers_fit_witness :
  bh_storedBytes (boundHeaders headersEx 60) = headerStorageBytes (bh_headers (boundHeaders headersEx 60)) (len (bh_headers (boundHeaders headersEx 60))) ∧
  bh_storedBytes (boundHeaders headersEx 60) ≤ 60 ∧
  Forall2 cut_header (bh_headers (boundHeaders headersEx 60))
    (take (length (bh_headers (boundHeaders headersEx 60))) headersEx) ∧
  (bh_truncated (boundHeaders headersEx 60) = false ↔
   header_text <$> bh_headers (boundHeaders headersEx 60) = header_text <$> headersEx).
Proof. by apply (bounded_headers_fit headersEx 60). Defined.

Example headersEx_cut : header_text <$> bh_headers (boundHeaders headersEx 60) = [(lit "ETag", [34; 97; 34])].
Proof. by vm_compute. Qed.
