(* ===== verification/SessionCapture.v ===== *)
(** * Captured streams of a SOCKS session

    Model of the recording part of [Server/Backend/Socks5/src/model.rs]: the buffer a
    direction of a session is mirrored into, in chunks reserved from a budget all
    sessions share, and the index of the packets in it. *)

From S2P Require Import Prelude Stateful WireDiff.

(** ** The budget *)
Record CapturedBytesBudget := {
  bu_maximumBytes : Z;
  bu_usedBytes : Z
}.

Definition set_usedBytes (n : Z) (b : CapturedBytesBudget) : CapturedBytesBudget :=
  {| bu_maximumBytes := bu_maximumBytes b; bu_usedBytes := n |}.

(** The compare-and-swap loop of [reserve], which first loads [usedBytes]; each
    attempt before the last failed and saw one of [seen] instead.  The result is the
    value that is replaced, if any, and the bytes granted. *)
Fixpoint reserveLoop (maximumBytes requestedBytes usedBytes : Z) (seen : list Z) : option Z * Z :=
  let reservedBytes := Z.min requestedBytes (saturating_sub maximumBytes usedBytes) in
  if reservedBytes =? 0 then (None, 0)
  else
    match seen with
    | [] => (Some usedBytes, reservedBytes)
    | currentBytes :: seen => reserveLoop maximumBytes requestedBytes currentBytes seen
    end.

Definition reserve (b : CapturedBytesBudget) (requestedBytes : Z) : CapturedBytesBudget * Z :=
  let '(replaced, reservedBytes) := reserveLoop (bu_maximumBytes b) requestedBytes (bu_usedBytes b) [] in
  match replaced with
  | Some usedBytes => (set_usedBytes (usedBytes + reservedBytes) b, reservedBytes)
  | None => (b, reservedBytes)
  end.

Definition release (b : CapturedBytesBudget) (releasedBytes : Z) : CapturedBytesBudget :=
  set_usedBytes (bu_usedBytes b - releasedBytes) b.

(** ** Buffers *)
Definition capturedBytesChunkSize : Z := 4 * 1024.

Record CapturedBytesChunk := {
  ch_bytes : list Z;
  ch_length : Z
}.

(** [cb_budgeted]: the buffer is bound to the shared budget. *)
Record CapturedBytes := {
  cb_chunks : list CapturedBytesChunk;
  cb_length : Z;
  cb_reservedBytes : Z;
  cb_budgeted : bool
}.

Definition CapturedBytes_withBudget : CapturedBytes :=
  {| cb_chunks := []; cb_length := 0; cb_reservedBytes := 0; cb_budgeted := true |}.
Definition CapturedBytes_default : CapturedBytes :=
  {| cb_chunks := []; cb_length := 0; cb_reservedBytes := 0; cb_budgeted := false |}.

(** What is released when the last reference to the buffer goes. *)
Definition dropBytes (c : CapturedBytes) : Z := if cb_budgeted c then cb_reservedBytes c else 0.

Definition toVec (c : CapturedBytes) : list Z :=
  cb_chunks c ≫= λ chunk, take (Z.to_nat (ch_length chunk)) (ch_bytes chunk).

(** [Box<[u8]>] has no spare capacity: a chunk is full when its length is its size. *)
Definition needsChunk (chunks : list CapturedBytesChunk) : bool :=
  match last chunks with
  | None => true
  | Some chunk => ch_length chunk =? len (ch_bytes chunk)
  end.

(** The part of the loop that makes sure the last chunk has room; [None] breaks the loop. *)
Definition ensureChunk (c : CapturedBytes) (b : CapturedBytesBudget) (streamLimit : Z)
    : option (CapturedBytes * CapturedBytesBudget) :=
  if needsChunk (cb_chunks c) then
    let streamCapacity := saturating_sub streamLimit (cb_reservedBytes c) in
    let requestedCapacity := Z.min capturedBytesChunkSize streamCapacity in
    let '(b, reservedCapacity) := reserve b requestedCapacity in
    if reservedCapacity =? 0 then None
    else Some
      ({| cb_chunks := cb_chunks c ++ [{| ch_bytes := repeat 0 (Z.to_nat reservedCapacity); ch_length := 0 |}];
          cb_length := cb_length c; cb_reservedBytes := cb_reservedBytes c + reservedCapacity;
          cb_budgeted := cb_budgeted c |}, b)
  else Some (c, b).

(** The part of the loop that fills the last chunk. *)
Definition writeChunk (c : CapturedBytes) (payload : list Z) (maximumWriteBytes writtenBytes : Z)
    : outcome unit (CapturedBytes * Z) :=
  chunk ← expect (last (cb_chunks c));
  let writableBytes := Z.min (len (ch_bytes chunk) - ch_length chunk) (maximumWriteBytes - writtenBytes) in
  let chunkEnd := ch_length chunk + writableBytes in
  source ← sub_slice payload writtenBytes (writtenBytes + writableBytes);
  bytes ← write_slice (ch_bytes chunk) (ch_length chunk) source;
  Ok ({| cb_chunks := removelast (cb_chunks c) ++ [{| ch_bytes := bytes; ch_length := chunkEnd |}];
         cb_length := cb_length c + writableBytes; cb_reservedBytes := cb_reservedBytes c;
         cb_budgeted := cb_budgeted c |}, writtenBytes + writableBytes).

(** [others n]: what other threads released just before the [n]-th round. *)
Fixpoint appendLoop (fuel : nat) (others : list Z) (payload : list Z) (streamLimit maximumWriteBytes : Z)
    (c : CapturedBytes) (b : CapturedBytesBudget) (writtenBytes : Z)
    : outcome unit (CapturedBytes * CapturedBytesBudget * Z) :=
  match fuel with
  | O => Panic
  | S fuel =>
      if writtenBytes <? maximumWriteBytes then
        let b := match others with released :: _ => release b released | [] => b end in
        match ensureChunk c b streamLimit with
        | None => Ok (c, b, writtenBytes)
        | Some (c, b) =>
            '(c, writtenBytes) ← writeChunk c payload maximumWriteBytes writtenBytes;
            appendLoop fuel (tail others) payload streamLimit maximumWriteBytes c b writtenBytes
        end
      else Ok (c, b, writtenBytes)
  end.

Definition appendBytes (others : list Z) (payload : list Z) (streamLimit : Z) (c : CapturedBytes)
    (b : CapturedBytesBudget) : outcome unit (CapturedBytes * CapturedBytesBudget * Z) :=
  if negb (cb_budgeted c) then Ok (c, b, 0)
  else
    let maximumWriteBytes := Z.min (len payload) (saturating_sub streamLimit (cb_length c)) in
    appendLoop (S (length payload)) others payload streamLimit maximumWriteBytes c b 0.

(** ** Packets *)
Inductive TrafficDirection := Up | Down.
#[export] Instance TrafficDirection_eq_dec : EqDecision TrafficDirection.
Proof. solve_decision. Defined.

Record CapturedPacket := {
  cp_direction : TrafficDirection;
  cp_sequence : Z;
  cp_capturedAtMilliseconds : Z;
  cp_storedOffsetBytes : Z;
  cp_storedBytes : Z;
  cp_originalBytes : Z;
  cp_modifications : list WireByteModification
}.

Record CapturedPacketStorage := {
  ps_nextUpSequence : Z;
  ps_nextDownSequence : Z;
  ps_packets : list CapturedPacket
}.

Record CapturedPacketWrite := {
  pw_direction : TrafficDirection;
  pw_capturedAtMilliseconds : Z;
  pw_storedOffsetBytes : Z;
  pw_storedBytes : Z;
  pw_originalBytes : Z;
  pw_modifications : list WireByteModification
}.

Definition CapturedPacketList_new : CapturedPacketStorage :=
  {| ps_nextUpSequence := 1; ps_nextDownSequence := 1; ps_packets := [] |}.

Definition nextSequence (direction : TrafficDirection) (s : CapturedPacketStorage) : Z :=
  match direction with Up => ps_nextUpSequence s | Down => ps_nextDownSequence s end.

Definition appendPacket (packet : CapturedPacketWrite) (s : CapturedPacketStorage) : CapturedPacketStorage :=
  if pw_storedBytes packet =? 0 then s
  else
    let sequence := nextSequence (pw_direction packet) s in
    let advanced := saturating_add sequence 1 in
    {| ps_nextUpSequence := match pw_direction packet with Up => advanced | Down => ps_nextUpSequence s end;
       ps_nextDownSequence :=
         match pw_direction packet with Up => ps_nextDownSequence s | Down => advanced end;
       ps_packets := ps_packets s ++
         [{| cp_direction := pw_direction packet; cp_sequence := sequence;
             cp_capturedAtMilliseconds := pw_capturedAtMilliseconds packet;
             cp_storedOffsetBytes := pw_storedOffsetBytes packet;
             cp_storedBytes := pw_storedBytes packet; cp_originalBytes := pw_originalBytes packet;
             cp_modifications := pw_modifications packet |}] |}.

Definition forDirection (direction : TrafficDirection) (s : CapturedPacketStorage) : list CapturedPacket :=
  filter (λ p, cp_direction p = direction) (ps_packets s).

(** * Captured streams keep what they were given

    A buffer holds a prefix of the payloads appended to it, within the limits, and
    stops early only when the shared budget is used up; the packets of a direction
    tile its buffer. *)

(** ** Reservations *)
(** The loop behaves as one atomic reservation at the value its last attempt saw. *)
Lemma reserveLoop_atomic maximumBytes requestedBytes usedBytes seen replaced reservedBytes :
  reserveLoop maximumBytes requestedBytes usedBytes seen = (replaced, reservedBytes) →
  ∃ current, current ∈ usedBytes :: seen ∧
    reservedBytes = Z.min requestedBytes (saturating_sub maximumBytes current) ∧
    (replaced = if reservedBytes =? 0 then None else Some current).
Proof.
  revert usedBytes. induction seen as [|x seen IH]; intros usedBytes; cbn [reserveLoop].
  - case_if Hz; intros [= <- <-]; exists usedBytes.
    + split_and!; [by left| |done]. by apply Z.eqb_eq in Hz.
    + rewrite Hz. split_and!; [by left|done..].
  - case_if Hz.
    + intros [= <- <-]. exists usedBytes. apply Z.eqb_eq in Hz. split_and!; [by left|done..].
    + intros (current & Hin & Hr & Hrep)%IH. exists current. split_and!; [by right|done..].
Qed.

Lemma reserve_spec b requested b' n :
  reserve b requested = (b', n) →
  n = Z.min requested (saturating_sub (bu_maximumBytes b) (bu_usedBytes b)) ∧
  bu_usedBytes b' = bu_usedBytes b + n ∧ bu_maximumBytes b' = bu_maximumBytes b.
Proof.
  unfold reserve. cbn [reserveLoop]. case_if Hz; intros [= <- <-]; cbn; [|done].
  apply Z.eqb_eq in Hz. split_and!; [lia|lia|done].
Qed.

(** ** Buffers *)
Record ChunkOk (chunk : CapturedBytesChunk) : Prop := {
  co_length : 0 ≤ ch_length chunk ≤ len (ch_bytes chunk);
  co_size : 0 < len (ch_bytes chunk);
}.

Definition full (chunk : CapturedBytesChunk) : Prop := ch_length chunk = len (ch_bytes chunk).
Definition chunkSize (chunk : CapturedBytesChunk) : Z := len (ch_bytes chunk).
Definition sizes (chunks : list CapturedBytesChunk) : Z := foldr (λ chunk acc, chunkSize chunk + acc) 0 chunks.

Record BufferOk (c : CapturedBytes) : Prop := {
  bk_chunks : Forall ChunkOk (cb_chunks c);
  bk_full : Forall full (removelast (cb_chunks c));
  bk_length : cb_length c = len (toVec c);
  bk_reserved : cb_reservedBytes c = sizes (cb_chunks c);
  bk_unbudgeted : cb_budgeted c = false → cb_chunks c = [];
}.

Lemma withBudget_ok : BufferOk CapturedBytes_withBudget.
Proof. by split; try constructor. Qed.

Lemma default_ok : BufferOk CapturedBytes_default.
Proof. by split; try constructor. Qed.

Lemma sizes_app l1 l2 : sizes (l1 ++ l2) = sizes l1 + sizes l2.
Proof. unfold sizes. induction l1 as [|x l1 IH]; cbn [app foldr]; lia. Qed.

Definition written (chunks : list CapturedBytesChunk) : list Z :=
  chunks ≫= λ chunk, take (Z.to_nat (ch_length chunk)) (ch_bytes chunk).

Lemma written_app l1 l2 : written (l1 ++ l2) = written l1 ++ written l2.
Proof. apply bind_app. Qed.

Lemma written_one chunk : written [chunk] = take (Z.to_nat (ch_length chunk)) (ch_bytes chunk).
Proof. unfold written. cbn. by rewrite app_nil_r. Qed.

Lemma len_taken chunk : ChunkOk chunk → len (written [chunk]) = ch_length chunk.
Proof. intros [Hl _]. rewrite written_one. unfold len in *. rewrite length_take. lia. Qed.

Lemma written_le chunks : Forall ChunkOk chunks → len (written chunks) ≤ sizes chunks.
Proof.
  induction 1 as [|chunk chunks Hc _ IH]; [done|].
  change (chunk :: chunks) with ([chunk] ++ chunks). rewrite written_app, len_app, sizes_app, len_taken by done.
  destruct Hc as [Hl _]. cbn. unfold chunkSize. lia.
Qed.

Lemma written_full chunks : Forall ChunkOk chunks → Forall full chunks → len (written chunks) = sizes chunks.
Proof.
  induction 1 as [|chunk chunks Hc _ IH]; [done|]. intros [Hf Hfs]%Forall_cons.
  change (chunk :: chunks) with ([chunk] ++ chunks).
  rewrite written_app, len_app, sizes_app, len_taken, IH by done. cbn. unfold full, chunkSize in *. lia.
Qed.

(** All chunks but the last are full; so is the last when a new one is needed. *)
Lemma needsChunk_full c :
  BufferOk c → needsChunk (cb_chunks c) = true → Forall full (cb_chunks c).
Proof.
  intros [_ Hf _ _ _]. unfold needsChunk. destruct (last (cb_chunks c)) as [chunk|] eqn:Hl.
  - apply last_Some in Hl as [l' Hl]. rewrite Hl, removelast_last in *. intros ?%Z.eqb_eq.
    apply Forall_app. split; [done|]. by apply Forall_singleton.
  - apply last_None in Hl. by rewrite Hl.
Qed.

Lemma buffer_length_le c : BufferOk c → 0 ≤ cb_length c ≤ cb_reservedBytes c.
Proof.
  intros Hc. rewrite (bk_length _ Hc), (bk_reserved _ Hc). split; [apply len_nonneg|].
  apply written_le, Hc.
Qed.

(** The last chunk has room. *)
Record Room (c : CapturedBytes) (chunk : CapturedBytesChunk) (chunks : list CapturedBytesChunk) : Prop := {
  rm_chunks : cb_chunks c = chunks ++ [chunk];
  rm_room : ch_length chunk < len (ch_bytes chunk);
}.

Lemma ensureChunk_spec c b streamLimit :
  BufferOk c → cb_budgeted c = true → bu_usedBytes b ≤ bu_maximumBytes b → cb_length c < streamLimit →
  cb_reservedBytes c ≤ streamLimit →
  match ensureChunk c b streamLimit with
  | None => bu_maximumBytes b ≤ bu_usedBytes b
  | Some (c', b') => BufferOk c' ∧ cb_budgeted c' = true ∧ toVec c' = toVec c ∧
      (∃ chunk chunks, Room c' chunk chunks) ∧ bu_maximumBytes b' = bu_maximumBytes b ∧
      bu_usedBytes b' ≤ bu_maximumBytes b' ∧ cb_reservedBytes c' ≤ streamLimit ∧
      cb_reservedBytes c' - cb_reservedBytes c = bu_usedBytes b' - bu_usedBytes b
  end.
Proof.
  intros Hc Hbud Hused Hlen Hres. unfold ensureChunk. case_if Hneed.
  - pose proof (needsChunk_full c Hc Hneed) as Hfull.
    pose proof (written_full _ (bk_chunks _ Hc) Hfull) as Hw.
    assert (Heq : cb_length c = cb_reservedBytes c) by (rewrite (bk_length _ Hc), (bk_reserved _ Hc); done).
    cbv zeta. set (capacity := Z.min capturedBytesChunkSize _).
    assert (Hcap : 0 < capacity ≤ streamLimit - cb_reservedBytes c).
    { unfold capacity, saturating_sub, capturedBytesChunkSize. lia. }
    clearbody capacity. destruct (reserve b capacity) as [b' n] eqn:Hr.
    apply reserve_spec in Hr as (Hn & Hused' & Hmax). unfold saturating_sub in Hn. case_if Hz.
    + apply Z.eqb_eq in Hz. lia.
    + apply Z.eqb_neq in Hz. set (fresh := {| ch_bytes := _; ch_length := 0 |}).
      assert (Hfresh : len (ch_bytes fresh) = n) by (unfold fresh, len; cbn; rewrite repeat_length; lia).
      assert (Hvec : written [fresh] = []) by done.
      assert (Htv : toVec {| cb_chunks := cb_chunks c ++ [fresh]; cb_length := cb_length c;
          cb_reservedBytes := cb_reservedBytes c + n; cb_budgeted := cb_budgeted c |} = toVec c).
      { change (written (cb_chunks c ++ [fresh]) = written (cb_chunks c)). by rewrite written_app, Hvec, app_nil_r. }
      split_and!; [|done|done| |done|lia|cbn; lia|cbn; lia].
      * split; cbn [cb_chunks cb_length cb_reservedBytes cb_budgeted].
        -- apply Forall_app. split; [apply Hc|]. apply Forall_singleton.
           split; rewrite Hfresh; [cbn|]; lia.
        -- by rewrite removelast_last.
        -- rewrite Htv. apply Hc.
        -- rewrite sizes_app, (bk_reserved _ Hc). cbn. unfold chunkSize. rewrite Hfresh. lia.
        -- by rewrite Hbud.
      * exists fresh, (cb_chunks c). split; [done|]. rewrite Hfresh. cbn. lia.
  - split_and!; try done; [|lia]. unfold needsChunk in Hneed.
    destruct (last (cb_chunks c)) as [chunk|] eqn:Hl; [|done]. apply last_Some in Hl as [chunks Hl].
    exists chunk, chunks. split; [done|]. apply Z.eqb_neq in Hneed.
    assert (Hok : ChunkOk chunk).
    { pose proof (bk_chunks _ Hc) as Hall. rewrite Hl in Hall. by apply Forall_app in Hall as [_ [? _]%Forall_cons]. }
    destruct Hok. lia.
Qed.

Lemma take_splice (l : list Z) off new :
  0 ≤ off → off + len new ≤ len l →
  take (Z.to_nat (off + len new)) (splice l off new) = take (Z.to_nat off) l ++ new.
Proof.
  intros Ho Hn. pose proof (len_nonneg new). unfold splice.
  rewrite app_assoc, take_app_length'; [done|]. rewrite length_app, length_take. unfold len in *. lia.
Qed.

Lemma writeChunk_spec c chunk chunks payload maximum done_ :
  BufferOk c → Room c chunk chunks → 0 ≤ done_ < maximum → maximum ≤ len payload →
  Satisfies (writeChunk c payload maximum done_)
    (λ '(c', n), BufferOk c' ∧ done_ < n ≤ maximum ∧ cb_budgeted c' = cb_budgeted c ∧
       cb_reservedBytes c' = cb_reservedBytes c ∧ cb_length c' = cb_length c + (n - done_) ∧
       toVec c' = toVec c ++ slice payload done_ n) (λ _, False).
Proof.
  intros Hc [Hch Hroom] Hd Hm. unfold writeChunk. rewrite Hch, last_snoc, removelast_last.
  pose proof (bk_chunks _ Hc) as Hall. rewrite Hch in Hall. apply Forall_app in Hall as [Hinit [Hok _]%Forall_cons].
  pose proof (bk_full _ Hc) as Hfull. rewrite Hch, removelast_last in Hfull.
  apply satisfies_bind, satisfies_expect. exists chunk. split; [done|]. cbv zeta.
  set (w := Z.min _ _). assert (Hw : 0 < w ≤ len (ch_bytes chunk) - ch_length chunk ∧ done_ + w ≤ maximum).
  { unfold w. lia. }
  clearbody w. destruct Hok as [Hl Hs]. apply satisfies_bind, satisfies_sub_slice; [lia..|].
  assert (Hsrc : len (slice payload done_ (done_ + w)) = w) by (rewrite len_slice; lia).
  set (source := slice _ _ _) in *. apply satisfies_bind, satisfies_write_slice; [lia..|].
  apply satisfies_ret. set (chunk' := {| ch_bytes := _; ch_length := _ |}).
  assert (Hsize : len (ch_bytes chunk') = len (ch_bytes chunk)) by (cbn; rewrite len_splice; lia).
  assert (Hnew : written [chunk'] = written [chunk] ++ source).
  { rewrite !written_one. cbn. rewrite <-Hsrc at 1. apply take_splice; lia. }
  assert (Hvec : written (chunks ++ [chunk']) = toVec c ++ source).
  { change (toVec c) with (written (cb_chunks c)). by rewrite Hch, !written_app, Hnew, app_assoc. }
  split_and!; [|lia|lia|done|done|cbn; lia|exact Hvec].
  split; cbn [cb_chunks cb_length cb_reservedBytes cb_budgeted].
  - apply Forall_app. split; [done|]. apply Forall_singleton. split; [rewrite Hsize; cbn; lia|by rewrite Hsize].
  - by rewrite removelast_last.
  - unfold toVec at 1. cbn. fold (written (chunks ++ [chunk'])). rewrite Hvec, len_app, Hsrc, (bk_length _ Hc). done.
  - rewrite (bk_reserved _ Hc), Hch, !sizes_app. cbn [sizes foldr]. unfold chunkSize. by rewrite Hsize.
  - intros Hb. pose proof (bk_unbudgeted _ Hc Hb) as Hn. rewrite Hn in Hch. by destruct chunks.
Qed.

(** What an append leaves: the buffer [c'] and the budget [b'] when [written] bytes of
    the payload are in, other threads having released the first [k] of [others]. *)
Record Appended (others payload : list Z) (streamLimit : Z) (c : CapturedBytes) (b : CapturedBytesBudget)
    (start maximum : Z) (c' : CapturedBytes) (b' : CapturedBytesBudget) (n : Z) : Prop := {
  ap_ok : BufferOk c';
  ap_budgeted : cb_budgeted c' = cb_budgeted c;
  ap_range : start ≤ n ≤ maximum;
  ap_content : toVec c' = toVec c ++ slice payload start n;
  ap_maximum : bu_maximumBytes b' = bu_maximumBytes b;
  ap_within : bu_usedBytes b' ≤ bu_maximumBytes b';
  ap_stream : cb_reservedBytes c' ≤ streamLimit;
  ap_account : ∃ k, bu_usedBytes b' + foldr Z.add 0 (take k others) =
    bu_usedBytes b + (cb_reservedBytes c' - cb_reservedBytes c);
  ap_stops : n = maximum ∨ bu_maximumBytes b' ≤ bu_usedBytes b';
}.

Lemma appendLoop_spec fuel others payload streamLimit maximum c b done_ :
  BufferOk c → cb_budgeted c = true → bu_usedBytes b ≤ bu_maximumBytes b → Forall (λ r, 0 ≤ r) others →
  0 ≤ done_ ≤ maximum → maximum ≤ len payload → cb_length c + (maximum - done_) ≤ streamLimit →
  cb_reservedBytes c ≤ streamLimit → maximum - done_ < Z.of_nat fuel →
  Satisfies (appendLoop fuel others payload streamLimit maximum c b done_)
    (λ '(c', b', n), Appended others payload streamLimit c b done_ maximum c' b' n) (λ _, False).
Proof.
  revert others c b done_. induction fuel as [|fuel IH]; intros others c b done_ Hc Hbud Hused Hoth Hd Hm Hlen Hres Hfuel.
  { lia. }
  cbn [appendLoop]. case_if Hlt.
  2: { apply Z.ltb_ge in Hlt. apply satisfies_ret. split; try done; [lia| | |left; lia].
       - rewrite (slice_nil_at payload). by rewrite app_nil_r.
       - exists 0%nat. rewrite take_0. cbn [foldr]. lia. }
  apply Z.ltb_lt in Hlt. cbv zeta. set (b1 := match others with [] => b | _ => _ end).
  assert (Hb1 : ∃ r, bu_usedBytes b1 = bu_usedBytes b - r ∧ 0 ≤ r ∧ bu_maximumBytes b1 = bu_maximumBytes b ∧
      r = foldr Z.add 0 (take 1 others)).
  { unfold b1. destruct Hoth as [|r others Hr Hoth]; [exists 0|exists r]; cbn [foldr take]; rewrite ?take_0; cbn; split_and!; try done; lia. }
  clearbody b1. destruct Hb1 as (r & Hu1 & Hr & Hm1 & Hr1).
  pose proof (ensureChunk_spec c b1 streamLimit Hc Hbud ltac:(lia) ltac:(lia) Hres) as Hens.
  destruct (ensureChunk c b1 streamLimit) as [[c2 b2]|].
  2: { apply satisfies_ret. split; try done; [lia| |lia| |by right].
       - by rewrite (slice_nil_at payload), app_nil_r.
       - exists 1%nat. rewrite <-Hr1. lia. }
  destruct Hens as (Hc2 & Hbud2 & Hvec2 & (chunk & chunks & Hroom) & Hmax2 & Hused2 & Hres2 & Hacc2).
  apply satisfies_bind. eapply satisfies_mono, (writeChunk_spec c2 chunk chunks); [|done|done|done|lia|lia].
  cbn beta. intros [c3 n] (Hc3 & Hn & Hbud3 & Hres3 & Hlen3 & Hvec3).
  assert (Hlen2 : cb_length c2 = cb_length c) by (rewrite (bk_length _ Hc2), (bk_length _ Hc), Hvec2; done).
  eapply satisfies_mono, (IH (tail others) c3 b2 n); [|done|done|congruence|done|by destruct Hoth|lia..].
  cbn beta. intros [[c' b'] n'] [Hok Hbu Hra Hco Hma Hwi Hst (k & Hk) Hstop]. split; try done; [congruence|lia| |congruence| ].
  - rewrite Hco, Hvec3, Hvec2, <-app_assoc. f_equal. symmetry. apply slice_split; lia.
  - exists (S k). destruct others as [|o others]; cbn [tail foldr take] in *; rewrite ?take_nil, ?take_0 in *; cbn [foldr] in *; lia.
Qed.

(** An append saves a prefix of the payload: all of it unless the limit of the stream
    or the budget is reached.  The budget is never exceeded, whatever other threads
    release meanwhile, and what it lost is what the buffer holds. *)
Theorem append_spec others payload streamLimit c b :
  BufferOk c → bu_usedBytes b ≤ bu_maximumBytes b → cb_reservedBytes c ≤ streamLimit →
  Forall (λ r, 0 ≤ r) others →
  Satisfies (appendBytes others payload streamLimit c b)
    (λ '(c', b', n), BufferOk c' ∧ 0 ≤ n ≤ len payload ∧ toVec c' = toVec c ++ slice payload 0 n ∧
       bu_maximumBytes b' = bu_maximumBytes b ∧ bu_usedBytes b' ≤ bu_maximumBytes b' ∧
       cb_budgeted c' = cb_budgeted c ∧ cb_reservedBytes c' ≤ streamLimit ∧
       (∃ k, bu_usedBytes b' + foldr Z.add 0 (take k others) =
          bu_usedBytes b + (cb_reservedBytes c' - cb_reservedBytes c)) ∧
       (if cb_budgeted c
        then n = Z.min (len payload) (streamLimit - cb_length c) ∨ bu_maximumBytes b' ≤ bu_usedBytes b'
        else c' = c ∧ n = 0))
    (λ _, False).
Proof.
  intros Hc Hused Hres Hoth. pose proof (buffer_length_le c Hc). pose proof (len_nonneg payload).
  unfold appendBytes. destruct (cb_budgeted c) eqn:Hb; cbn [negb].
  2: { apply satisfies_ret. rewrite (slice_nil_at payload), app_nil_r. split_and!; try done.
       exists 0%nat. rewrite take_0. cbn [foldr]. lia. }
  cbv zeta. unfold saturating_sub.
  eapply satisfies_mono, (appendLoop_spec _ others payload streamLimit); [|done|done|done|done|done|lia|lia|lia|done|].
  - cbn beta. intros [[c' b'] n] [Hok Hbu Hra Hco Hma Hwi Hst Hac Hstop].
    split_and!; try done; [lia|lia|congruence|]. destruct Hstop; [left; lia|by right].
  - unfold len in *. lia.
Qed.

(** ** Packets *)
(** The packets of a direction follow each other without gaps, numbered from one. *)
Definition tile (acc : option (Z * Z)) (p : CapturedPacket) : option (Z * Z) :=
  '(offset, sequence) ← acc;
  if (cp_storedOffsetBytes p =? offset) && (cp_sequence p =? sequence) && (0 <? cp_storedBytes p)
     && (cp_storedBytes p <=? cp_originalBytes p)
  then Some (offset + cp_storedBytes p, saturating_add sequence 1) else None.

Definition Tiled (direction : TrafficDirection) (s : CapturedPacketStorage) (length : Z) : Prop :=
  fold_left tile (forDirection direction s) (Some (0, 1)) = Some (length, nextSequence direction s).

Lemma new_tiled direction : Tiled direction CapturedPacketList_new 0.
Proof. by destruct direction. Qed.

Lemma appendPacket_tiled direction packet s length :
  Tiled direction s length → 0 ≤ pw_storedBytes packet ≤ pw_originalBytes packet →
  (pw_direction packet = direction → pw_storedOffsetBytes packet = length) →
  Tiled direction (appendPacket packet s)
    (if decide (pw_direction packet = direction) then length + pw_storedBytes packet else length).
Proof.
  intros Ht Hs Ho. unfold appendPacket. case_if Hz.
  { apply Z.eqb_eq in Hz. case_decide; [|done]. by rewrite Hz, Z.add_0_r. }
  apply Z.eqb_neq in Hz. unfold Tiled, forDirection in *. cbn [ps_packets]. rewrite filter_app, fold_left_app, Ht.
  case_decide as Hd.
  - rewrite filter_cons_True by done. cbn [filter list_filter fold_left]. unfold tile. cbn.
    rewrite Ho, Hd by done. rewrite !Z.eqb_refl.
    rewrite (proj2 (Z.ltb_lt _ _)) by lia. rewrite (proj2 (Z.leb_le _ _)) by lia. cbn. by destruct direction.
  - rewrite filter_cons_False by done. cbn. by destruct direction, (pw_direction packet).
Qed.

(** The bytes of a packet. *)
Definition stored (bytes : list Z) (p : CapturedPacket) : list Z :=
  slice bytes (cp_storedOffsetBytes p) (cp_storedOffsetBytes p + cp_storedBytes p).

Lemma tile_content bytes ps offset sequence length sequence' :
  0 ≤ offset → fold_left tile ps (Some (offset, sequence)) = Some (length, sequence') →
  offset ≤ length ∧ (length ≤ len bytes →
  (ps ≫= stored bytes) = slice bytes offset length).
Proof.
  revert offset sequence. induction ps as [|p ps IH]; intros offset sequence Ho; cbn [fold_left].
  { intros [= -> _]. split; [done|]. intros _. by rewrite (slice_nil_at bytes). }
  unfold tile at 2. cbn [mbind option_bind]. case_if Hp.
  2: { intros Hn. exfalso. clear -Hn. induction ps; cbn in Hn; [done|auto]. }
  apply andb_true_iff in Hp as [[[Hoff%Z.eqb_eq _]%andb_true_iff Hpos%Z.ltb_lt]%andb_true_iff _].
  intros Hl. destruct (IH (offset + cp_storedBytes p) (saturating_add sequence 1) ltac:(lia) Hl) as [Hle Hcon].
  split; [lia|]. intros Hlen.
  change (stored bytes p ++ (ps ≫= stored bytes) = slice bytes offset length).
  rewrite Hcon by done. unfold stored. rewrite Hoff. symmetry. apply slice_split; lia.
Qed.

(** The bytes of the packets of a direction, put together, are the captured stream. *)
Lemma tiled_content direction s bytes :
  Tiled direction s (len bytes) →
  (forDirection direction s ≫= stored bytes) = bytes.
Proof.
  intros Ht. destruct (tile_content bytes _ _ _ _ _ (Z.le_refl 0) Ht) as [_ Hc].
  rewrite Hc by done. apply slice_full.
Qed.
