(* ===== verification/SessionRegistry.v ===== *)
(** * The registry of SOCKS sessions

    Model of [Server/Backend/Socks5/src/registry.rs] and of the snapshot types of
    [model.rs].  A method runs one critical section after the other: the first is a
    function on the registry that yields the [Action]s the method still has to run;
    between two actions of a method any other thread may run.  The three shared
    objects of a snapshot ([capturedBytesUp], [capturedBytesDown], [capturedPackets])
    are replaced, cloned and dropped together; [sn_capture] is the address of the
    three.  [collect] is what the reference counts do: a capture no snapshot refers to
    goes, and gives its reservation back. *)

From S2P Require Import Prelude Stateful Text WireDiff SessionCapture.

Inductive SessionState :=
| Negotiating | Authenticating | Connecting | Binding | UdpAssociating | Relaying | Closed | Failed.
#[export] Instance SessionState_eq_dec : EqDecision SessionState.
Proof. solve_decision. Defined.

Inductive SessionApplicationProtocol := Undetermined | Tcp | Tls | Udp | Http | Https.

Record SessionSnapshot := {
  sn_sessionId : chars;
  sn_clientAddress : chars;
  sn_username : chars;
  sn_command : chars;
  sn_targetAddress : chars;
  sn_state : SessionState;
  sn_bytesUp : Z;
  sn_bytesDown : Z;
  sn_createdAtMilliseconds : Z;
  sn_updatedAtMilliseconds : Z;
  sn_closedAtMilliseconds : Z;
  sn_errorMessage : chars;
  sn_applicationProtocol : SessionApplicationProtocol;
  sn_captureGeneration : Z;
  sn_capture : nat
}.

Record ServiceMetrics := {
  sm_acceptedConnections : Z;
  sm_activeConnections : Z;
  sm_failedConnections : Z;
  sm_bytesUp : Z;
  sm_bytesDown : Z;
  sm_udpPacketsUp : Z;
  sm_udpPacketsDown : Z;
  sm_droppedUdpPackets : Z
}.
Definition ServiceMetrics_default : ServiceMetrics :=
  {| sm_acceptedConnections := 0; sm_activeConnections := 0; sm_failedConnections := 0; sm_bytesUp := 0;
     sm_bytesDown := 0; sm_udpPacketsUp := 0; sm_udpPacketsDown := 0; sm_droppedUdpPackets := 0 |}.

Record SessionUpdate := {
  up_username : option chars;
  up_command : option chars;
  up_targetAddress : option chars;
  up_applicationProtocol : option SessionApplicationProtocol;
  up_state : SessionState
}.

(** What the shared objects of a snapshot hold. *)
Record SessionCapture := {
  sc_up : CapturedBytes;
  sc_down : CapturedBytes;
  sc_packets : CapturedPacketStorage
}.

Definition capture_withBudget : SessionCapture :=
  {| sc_up := CapturedBytes_withBudget; sc_down := CapturedBytes_withBudget;
     sc_packets := CapturedPacketList_new |}.
Definition capture_default : SessionCapture :=
  {| sc_up := CapturedBytes_default; sc_down := CapturedBytes_default;
     sc_packets := CapturedPacketList_new |}.

Definition captured (direction : TrafficDirection) (c : SessionCapture) : CapturedBytes :=
  match direction with Up => sc_up c | Down => sc_down c end.

Record Registry := {
  rg_sessions : gmap chars SessionSnapshot;
  rg_metrics : ServiceMetrics;
  rg_historyLimit : Z;
  rg_captureGeneration : Z;
  rg_budget : CapturedBytesBudget;
  rg_captures : gmap nat SessionCapture;
  rg_nextCapture : nat;
  rg_uuids : nat
}.

Definition set_sessions (v : gmap chars SessionSnapshot) (r : Registry) : Registry :=
  {| rg_sessions := v; rg_metrics := rg_metrics r; rg_historyLimit := rg_historyLimit r;
     rg_captureGeneration := rg_captureGeneration r; rg_budget := rg_budget r;
     rg_captures := rg_captures r; rg_nextCapture := rg_nextCapture r; rg_uuids := rg_uuids r |}.
Definition set_metrics (v : ServiceMetrics) (r : Registry) : Registry :=
  {| rg_sessions := rg_sessions r; rg_metrics := v; rg_historyLimit := rg_historyLimit r;
     rg_captureGeneration := rg_captureGeneration r; rg_budget := rg_budget r;
     rg_captures := rg_captures r; rg_nextCapture := rg_nextCapture r; rg_uuids := rg_uuids r |}.
Definition set_captureGeneration (v : Z) (r : Registry) : Registry :=
  {| rg_sessions := rg_sessions r; rg_metrics := rg_metrics r; rg_historyLimit := rg_historyLimit r;
     rg_captureGeneration := v; rg_budget := rg_budget r; rg_captures := rg_captures r;
     rg_nextCapture := rg_nextCapture r; rg_uuids := rg_uuids r |}.
Definition set_captures (captures : gmap nat SessionCapture) (budget : CapturedBytesBudget) (r : Registry)
    : Registry :=
  {| rg_sessions := rg_sessions r; rg_metrics := rg_metrics r; rg_historyLimit := rg_historyLimit r;
     rg_captureGeneration := rg_captureGeneration r; rg_budget := budget; rg_captures := captures;
     rg_nextCapture := rg_nextCapture r; rg_uuids := rg_uuids r |}.

(** A new shared capture. *)
Definition allocate (c : SessionCapture) (r : Registry) : nat * Registry :=
  (rg_nextCapture r,
   {| rg_sessions := rg_sessions r; rg_metrics := rg_metrics r; rg_historyLimit := rg_historyLimit r;
      rg_captureGeneration := rg_captureGeneration r; rg_budget := rg_budget r;
      rg_captures := <[rg_nextCapture r := c]> (rg_captures r); rg_nextCapture := S (rg_nextCapture r);
      rg_uuids := rg_uuids r |}).

Definition countUuid (r : Registry) : Registry :=
  {| rg_sessions := rg_sessions r; rg_metrics := rg_metrics r; rg_historyLimit := rg_historyLimit r;
     rg_captureGeneration := rg_captureGeneration r; rg_budget := rg_budget r;
     rg_captures := rg_captures r; rg_nextCapture := rg_nextCapture r; rg_uuids := S (rg_uuids r) |}.

Definition wrapping_add (a b : Z) : Z := (a + b) mod 18446744073709551616.

(** What a method still has to do after a critical section. *)
Inductive Action :=
| CountAccepted
| CountTraffic (direction : TrafficDirection) (byteCount : Z)
| CountClosed (errorMessage : chars)
| Publish (eventType : chars) (snapshot : SessionSnapshot)
| PruneClosed
| CloseSession (sessionId errorMessage : chars).

Definition isEnded (s : SessionSnapshot) : bool :=
  match sn_state s with Closed | Failed => true | _ => false end.

Definition closedBefore (a b : chars * Z) : Prop := a.2 ≤ b.2.
#[export] Instance closedBefore_dec : RelDecision closedBefore.
Proof. intros a b. unfold closedBefore. apply _. Defined.

Definition createdAfter (a b : SessionSnapshot) : Prop :=
  sn_createdAtMilliseconds b ≤ sn_createdAtMilliseconds a.
#[export] Instance createdAfter_dec : RelDecision createdAfter.
Proof. intros a b. unfold createdAfter. apply _. Defined.

Section registry.
Context (new_session_id : nat → chars)
  (iteration : gmap chars SessionSnapshot → list (chars * SessionSnapshot)).

Definition withCaptureBudget (historyLimit maximumCapturedBytes : Z) : Registry :=
  {| rg_sessions := ∅; rg_metrics := ServiceMetrics_default; rg_historyLimit := historyLimit;
     rg_captureGeneration := 0;
     rg_budget := {| bu_maximumBytes := maximumCapturedBytes; bu_usedBytes := 0 |};
     rg_captures := ∅; rg_nextCapture := 0; rg_uuids := 0 |}.

(** ** Methods, up to their first unlock *)
Definition create (clientAddress : chars) (now : Z) (r : Registry) : Registry * list Action :=
  let '(capture, r) := allocate capture_withBudget r in
  let snapshot :=
    {| sn_sessionId := new_session_id (rg_uuids r); sn_clientAddress := clientAddress; sn_username := [];
       sn_command := []; sn_targetAddress := []; sn_state := Negotiating; sn_bytesUp := 0;
       sn_bytesDown := 0; sn_createdAtMilliseconds := now; sn_updatedAtMilliseconds := now;
       sn_closedAtMilliseconds := 0; sn_errorMessage := []; sn_applicationProtocol := Undetermined;
       sn_captureGeneration := rg_captureGeneration r; sn_capture := capture |} in
  let r := countUuid r in
  (set_sessions (<[sn_sessionId snapshot := snapshot]> (rg_sessions r)) r,
   [CountAccepted; Publish (lit "sessionCreated") snapshot]).

Definition updated (u : SessionUpdate) (now : Z) (s : SessionSnapshot) : SessionSnapshot :=
  {| sn_sessionId := sn_sessionId s; sn_clientAddress := sn_clientAddress s;
     sn_username := default (sn_username s) (up_username u);
     sn_command := default (sn_command s) (up_command u);
     sn_targetAddress := default (sn_targetAddress s) (up_targetAddress u); sn_state := up_state u;
     sn_bytesUp := sn_bytesUp s; sn_bytesDown := sn_bytesDown s;
     sn_createdAtMilliseconds := sn_createdAtMilliseconds s; sn_updatedAtMilliseconds := now;
     sn_closedAtMilliseconds := sn_closedAtMilliseconds s; sn_errorMessage := sn_errorMessage s;
     sn_applicationProtocol := default (sn_applicationProtocol s) (up_applicationProtocol u);
     sn_captureGeneration := sn_captureGeneration s; sn_capture := sn_capture s |}.

Definition update (sessionId : chars) (u : SessionUpdate) (now : Z) (r : Registry)
    : Registry * list Action * bool :=
  match rg_sessions r !! sessionId with
  | None => (r, [], false)
  | Some snapshot =>
      let snapshot := updated u now snapshot in
      (set_sessions (<[sessionId := snapshot]> (rg_sessions r)) r,
       [Publish (lit "sessionUpdated") snapshot], true)
  end.

Definition counted (direction : TrafficDirection) (byteCount now : Z) (s : SessionSnapshot)
    : SessionSnapshot :=
  {| sn_sessionId := sn_sessionId s; sn_clientAddress := sn_clientAddress s; sn_username := sn_username s;
     sn_command := sn_command s; sn_targetAddress := sn_targetAddress s; sn_state := sn_state s;
     sn_bytesUp :=
       match direction with Up => saturating_add (sn_bytesUp s) byteCount | Down => sn_bytesUp s end;
     sn_bytesDown :=
       match direction with Up => sn_bytesDown s | Down => saturating_add (sn_bytesDown s) byteCount end;
     sn_createdAtMilliseconds := sn_createdAtMilliseconds s; sn_updatedAtMilliseconds := now;
     sn_closedAtMilliseconds := sn_closedAtMilliseconds s; sn_errorMessage := sn_errorMessage s;
     sn_applicationProtocol := sn_applicationProtocol s;
     sn_captureGeneration := sn_captureGeneration s; sn_capture := sn_capture s |}.

Definition capturedStreamPrefixLimit : Z := usize_max.

(** The captured stream and the packet index of one direction after a payload. *)
Definition record (direction : TrafficDirection) (payload : list Z) (modifications : list WireByteModification)
    (now : Z) (c : SessionCapture) (b : CapturedBytesBudget)
    : outcome unit (SessionCapture * CapturedBytesBudget) :=
  let storedOffsetBytes := cb_length (captured direction c) in
  '(bytes, b, storedBytes) ← appendBytes [] payload capturedStreamPrefixLimit (captured direction c) b;
  let packet :=
    {| pw_direction := direction; pw_capturedAtMilliseconds := now;
       pw_storedOffsetBytes := storedOffsetBytes; pw_storedBytes := storedBytes;
       pw_originalBytes := len payload; pw_modifications := modifications |} in
  Ok ({| sc_up := match direction with Up => bytes | Down => sc_up c end;
         sc_down := match direction with Up => sc_down c | Down => bytes end;
         sc_packets := appendPacket packet (sc_packets c) |}, b).

Definition addModifiedTraffic (sessionId : chars) (direction : TrafficDirection)
    (originalPayload payload : list Z) (now : Z) (r : Registry) : outcome unit (Registry * list Action) :=
  if is_empty payload then Ok (r, [])
  else
    modifications ← deriveWireByteModifications originalPayload payload;
    let byteCount := len payload in
    match rg_sessions r !! sessionId with
    | None => Ok (r, [])
    | Some snapshot =>
        c ← expect (rg_captures r !! sn_capture snapshot);
        '(c, b) ← record direction payload modifications now c (rg_budget r);
        let snapshot := counted direction byteCount now snapshot in
        Ok (set_captures (<[sn_capture snapshot := c]> (rg_captures r)) b
              (set_sessions (<[sessionId := snapshot]> (rg_sessions r)) r),
            [CountTraffic direction byteCount; Publish (lit "sessionTraffic") snapshot])
    end.

Definition addTraffic (sessionId : chars) (direction : TrafficDirection) (payload : list Z) (now : Z)
    (r : Registry) : outcome unit (Registry * list Action) :=
  addModifiedTraffic sessionId direction payload payload now r.

Definition ended (errorMessage : chars) (now : Z) (s : SessionSnapshot) : SessionSnapshot :=
  {| sn_sessionId := sn_sessionId s; sn_clientAddress := sn_clientAddress s; sn_username := sn_username s;
     sn_command := sn_command s; sn_targetAddress := sn_targetAddress s;
     sn_state := if is_empty errorMessage then Closed else Failed;
     sn_bytesUp := sn_bytesUp s; sn_bytesDown := sn_bytesDown s;
     sn_createdAtMilliseconds := sn_createdAtMilliseconds s; sn_updatedAtMilliseconds := now;
     sn_closedAtMilliseconds := now; sn_errorMessage := errorMessage;
     sn_applicationProtocol := sn_applicationProtocol s;
     sn_captureGeneration := sn_captureGeneration s; sn_capture := sn_capture s |}.

Definition close (sessionId errorMessage : chars) (now : Z) (r : Registry) : Registry * list Action :=
  match rg_sessions r !! sessionId with
  | None => (r, [])
  | Some snapshot =>
      let snapshot := ended errorMessage now snapshot in
      (set_sessions (<[sessionId := snapshot]> (rg_sessions r)) r,
       [CountClosed (sn_errorMessage snapshot); Publish (lit "sessionClosed") snapshot; PruneClosed])
  end.

Definition closeActive (errorMessage : chars) (r : Registry) : Registry * list Action :=
  let activeSessionIds := fst <$> filter (λ '(_, s), isEnded s = false) (iteration (rg_sessions r)) in
  (r, (λ sessionId, CloseSession sessionId errorMessage) <$> activeSessionIds).

Definition snapshots (r : Registry) : list SessionSnapshot :=
  merge_sort createdAfter (snd <$> iteration (rg_sessions r)).

(** ** Metrics *)
Definition recordUdpPacket (direction : TrafficDirection) (r : Registry) : Registry :=
  let m := rg_metrics r in
  set_metrics
    {| sm_acceptedConnections := sm_acceptedConnections m; sm_activeConnections := sm_activeConnections m;
       sm_failedConnections := sm_failedConnections m; sm_bytesUp := sm_bytesUp m;
       sm_bytesDown := sm_bytesDown m;
       sm_udpPacketsUp :=
         match direction with Up => wrapping_add (sm_udpPacketsUp m) 1 | Down => sm_udpPacketsUp m end;
       sm_udpPacketsDown :=
         match direction with Up => sm_udpPacketsDown m | Down => wrapping_add (sm_udpPacketsDown m) 1 end;
       sm_droppedUdpPackets := sm_droppedUdpPackets m |} r.

Definition recordDroppedUdpPacket (r : Registry) : Registry :=
  let m := rg_metrics r in
  set_metrics
    {| sm_acceptedConnections := sm_acceptedConnections m; sm_activeConnections := sm_activeConnections m;
       sm_failedConnections := sm_failedConnections m; sm_bytesUp := sm_bytesUp m;
       sm_bytesDown := sm_bytesDown m; sm_udpPacketsUp := sm_udpPacketsUp m;
       sm_udpPacketsDown := sm_udpPacketsDown m;
       sm_droppedUdpPackets := wrapping_add (sm_droppedUdpPackets m) 1 |} r.

Definition countAccepted (m : ServiceMetrics) : ServiceMetrics :=
  {| sm_acceptedConnections := wrapping_add (sm_acceptedConnections m) 1;
     sm_activeConnections := wrapping_add (sm_activeConnections m) 1;
     sm_failedConnections := sm_failedConnections m; sm_bytesUp := sm_bytesUp m;
     sm_bytesDown := sm_bytesDown m; sm_udpPacketsUp := sm_udpPacketsUp m;
     sm_udpPacketsDown := sm_udpPacketsDown m; sm_droppedUdpPackets := sm_droppedUdpPackets m |}.

Definition countTraffic (direction : TrafficDirection) (byteCount : Z) (m : ServiceMetrics) : ServiceMetrics :=
  {| sm_acceptedConnections := sm_acceptedConnections m; sm_activeConnections := sm_activeConnections m;
     sm_failedConnections := sm_failedConnections m;
     sm_bytesUp := match direction with Up => wrapping_add (sm_bytesUp m) byteCount | Down => sm_bytesUp m end;
     sm_bytesDown :=
       match direction with Up => sm_bytesDown m | Down => wrapping_add (sm_bytesDown m) byteCount end;
     sm_udpPacketsUp := sm_udpPacketsUp m; sm_udpPacketsDown := sm_udpPacketsDown m;
     sm_droppedUdpPackets := sm_droppedUdpPackets m |}.

Definition countClosed (errorMessage : chars) (m : ServiceMetrics) : ServiceMetrics :=
  {| sm_acceptedConnections := sm_acceptedConnections m;
     sm_activeConnections := saturating_sub (sm_activeConnections m) 1;
     sm_failedConnections :=
       if is_empty errorMessage then sm_failedConnections m else wrapping_add (sm_failedConnections m) 1;
     sm_bytesUp := sm_bytesUp m; sm_bytesDown := sm_bytesDown m; sm_udpPacketsUp := sm_udpPacketsUp m;
     sm_udpPacketsDown := sm_udpPacketsDown m; sm_droppedUdpPackets := sm_droppedUdpPackets m |}.

(** ** Clearing *)
Definition endedIds (r : Registry) : list (chars * SessionSnapshot) :=
  filter (λ '(_, s), isEnded s = true) (iteration (rg_sessions r)).

Definition removeAll (sessionIds : list chars) (sessions : gmap chars SessionSnapshot)
    : gmap chars SessionSnapshot := foldr delete sessions sessionIds.

Definition clearClosed (r : Registry) : Registry * list chars :=
  let removedIds := fst <$> endedIds r in
  (set_sessions (removeAll removedIds (rg_sessions r)) r, removedIds).

Definition uncaptured (capture : nat) (s : SessionSnapshot) : SessionSnapshot :=
  {| sn_sessionId := sn_sessionId s; sn_clientAddress := sn_clientAddress s; sn_username := sn_username s;
     sn_command := sn_command s; sn_targetAddress := sn_targetAddress s; sn_state := sn_state s;
     sn_bytesUp := sn_bytesUp s; sn_bytesDown := sn_bytesDown s;
     sn_createdAtMilliseconds := sn_createdAtMilliseconds s;
     sn_updatedAtMilliseconds := sn_updatedAtMilliseconds s;
     sn_closedAtMilliseconds := sn_closedAtMilliseconds s; sn_errorMessage := sn_errorMessage s;
     sn_applicationProtocol := sn_applicationProtocol s;
     sn_captureGeneration := sn_captureGeneration s; sn_capture := capture |}.

Definition releaseCapturedBytes (sessionId : chars) (r : Registry) : Registry :=
  match rg_sessions r !! sessionId with
  | None => r
  | Some snapshot =>
      let '(capture, r) := allocate capture_default r in
      set_sessions (<[sessionId := uncaptured capture snapshot]> (rg_sessions r)) r
  end.

Definition clearCapturedBytes (r : Registry) : Registry :=
  let r := set_captureGeneration (wrapping_add (rg_captureGeneration r) 1) r in
  fold_left (λ r sessionId, releaseCapturedBytes sessionId r) (fst <$> iteration (rg_sessions r)) r.

Definition pruneClosed (r : Registry) : Registry :=
  let closed := (λ '(sessionId, s), (sessionId, sn_closedAtMilliseconds s)) <$> endedIds r in
  if len closed <=? rg_historyLimit r then r
  else
    let removeCount := len closed - rg_historyLimit r in
    let removed := take (Z.to_nat removeCount) (merge_sort closedBefore closed) in
    set_sessions (removeAll (fst <$> removed) (rg_sessions r)) r.

(** ** Threads *)
(** The next critical section of a method; a closing reads the clock again. *)
Definition act (action : Action) (now : Z) (r : Registry) : Registry * list Action :=
  match action with
  | CountAccepted => (set_metrics (countAccepted (rg_metrics r)) r, [])
  | CountTraffic direction byteCount => (set_metrics (countTraffic direction byteCount (rg_metrics r)) r, [])
  | CountClosed errorMessage => (set_metrics (countClosed errorMessage (rg_metrics r)) r, [])
  | Publish _ _ => (r, [])
  | PruneClosed => (pruneClosed r, [])
  | CloseSession sessionId errorMessage => close sessionId errorMessage now r
  end.

Inductive Call :=
| Create (clientAddress : chars)
| Update (sessionId : chars) (u : SessionUpdate)
| Traffic (sessionId : chars) (direction : TrafficDirection) (originalPayload payload : list Z)
| Close (sessionId errorMessage : chars)
| CloseActive (errorMessage : chars)
| UdpPacket (direction : TrafficDirection)
| DroppedUdpPacket
| ClearClosed
| ClearCapturedBytes
| ReleaseCapturedBytes (sessionId : chars)
| AdvanceGeneration.

Definition call (c : Call) (now : Z) (r : Registry) : outcome unit (Registry * list Action) :=
  match c with
  | Create clientAddress => Ok (create clientAddress now r)
  | Update sessionId u => let '(r, actions, _) := update sessionId u now r in Ok (r, actions)
  | Traffic sessionId direction originalPayload payload =>
      addModifiedTraffic sessionId direction originalPayload payload now r
  | Close sessionId errorMessage => Ok (close sessionId errorMessage now r)
  | CloseActive errorMessage => Ok (closeActive errorMessage r)
  | UdpPacket direction => Ok (recordUdpPacket direction r, [])
  | DroppedUdpPacket => Ok (recordDroppedUdpPacket r, [])
  | ClearClosed => Ok ((clearClosed r).1, [])
  | ClearCapturedBytes => Ok (clearCapturedBytes r, [])
  | ReleaseCapturedBytes sessionId => Ok (releaseCapturedBytes sessionId r, [])
  | AdvanceGeneration =>
      Ok (set_captureGeneration (wrapping_add (rg_captureGeneration r) 1) r, [])
  end.

(** The registry, the methods that have not returned, and the snapshots that events,
    slow subscribers and projections hold. *)
Record System := {
  sy_registry : Registry;
  sy_threads : list (list Action);
  sy_held : list SessionSnapshot
}.

Definition actionSnapshots (a : Action) : list SessionSnapshot :=
  match a with Publish _ snapshot => [snapshot] | _ => [] end.

Definition live (s : System) : list SessionSnapshot :=
  (map_to_list (rg_sessions (sy_registry s))).*2 ++ sy_held s ++ (sy_threads s ≫= λ t, t ≫= actionSnapshots).

Definition captureBytes (c : SessionCapture) : Z := dropBytes (sc_up c) + dropBytes (sc_down c).

Definition collect (s : System) : System :=
  let r := sy_registry s in
  let used := list_to_set (sn_capture <$> live s) : gset nat in
  let kept := filter (λ '(capture, _), capture ∈ used) (rg_captures r) in
  {| sy_registry :=
       set_captures kept
         (release (rg_budget r) (total captureBytes (rg_captures r) - total captureBytes kept)) r;
     sy_threads := sy_threads s; sy_held := sy_held s |}.

Inductive Transition :=
| Start (c : Call)
  (** The next critical section of thread [i]; a published snapshot is kept when
      somebody is [subscribed]. *)
| Resume (i : nat) (subscribed : bool)
  (** A reader clones a snapshot, or lets one go. *)
| Hold (sessionId : chars)
| Forget (i : nat).

Definition transition (t : Transition) (now : Z) (s : System) : outcome unit System :=
  match t with
  | Start c =>
      '(r, actions) ← call c now (sy_registry s);
      Ok (collect {| sy_registry := r; sy_threads := sy_threads s ++ [actions]; sy_held := sy_held s |})
  | Resume i subscribed =>
      match sy_threads s !! i with
      | Some (action :: rest) =>
          let '(r, actions) := act action now (sy_registry s) in
          let held := if subscribed : bool then actionSnapshots action else [] in
          Ok (collect {| sy_registry := r; sy_threads := <[i := actions ++ rest]> (sy_threads s);
                         sy_held := held ++ sy_held s |})
      | _ => Ok s
      end
  | Hold sessionId =>
      Ok {| sy_registry := sy_registry s; sy_threads := sy_threads s;
            sy_held := option_list (rg_sessions (sy_registry s) !! sessionId) ++ sy_held s |}
  | Forget i =>
      Ok (collect {| sy_registry := sy_registry s; sy_threads := sy_threads s;
                     sy_held := delete i (sy_held s) |})
  end.

Definition initial (historyLimit maximumCapturedBytes : Z) : System :=
  {| sy_registry := withCaptureBudget historyLimit maximumCapturedBytes; sy_threads := []; sy_held := [] |}.

Definition Step (s s' : System) : Prop := ∃ t now, transition t now s = Ok s'.
End registry.
