(* ===== verification/SessionRegistryInvariant.v ===== *)
(** * Invariant of the session registry

    Whatever methods run concurrently: every capture somebody refers to exists, no two
    sessions share one, the budget accounts for exactly the captures in memory, the
    packets of every capture tile its streams, and the history of ended sessions stays
    within its limit but for the closings that have yet to prune. *)

From S2P Require Import Prelude Stateful Text WireDiff SessionCapture SessionRegistry.

Definition endedOne (s : SessionSnapshot) : Z := if isEnded s then 1 else 0.
Definition endedCount (sessions : gmap chars SessionSnapshot) : Z := total endedOne sessions.

Record CaptureOk (c : SessionCapture) : Prop := {
  cp_buffers : ∀ direction, BufferOk (captured direction c);
  cp_reserved : ∀ direction, cb_reservedBytes (captured direction c) ≤ usize_max;
  cp_tiled : ∀ direction, Tiled direction (sc_packets c) (cb_length (captured direction c));
}.

Lemma capture_withBudget_ok : CaptureOk capture_withBudget.
Proof. split; intros []; try done; apply withBudget_ok. Qed.

Lemma capture_default_ok : CaptureOk capture_default.
Proof. split; intros []; try done; apply default_ok. Qed.

Section invariant.
Context (new_session_id : nat → chars) {id_inj : Inj (=) (=) new_session_id}
  (iteration : gmap chars SessionSnapshot → list (chars * SessionSnapshot))
  (iteration_perm : ∀ m, iteration m ≡ₚ map_to_list m).

(** The registry, when [others] are the snapshots other tasks hold and [prunes]
    closings have yet to prune. *)
Record RegistryInv (r : Registry) (others : list SessionSnapshot) (prunes : Z) : Prop := {
  ri_ids : ∀ id x, rg_sessions r !! id = Some x →
    sn_sessionId x = id ∧ ∃ n, (n < rg_uuids r)%nat ∧ id = new_session_id n;
  ri_sessions : ∀ id x, rg_sessions r !! id = Some x → is_Some (rg_captures r !! sn_capture x);
  ri_others : ∀ x, x ∈ others → is_Some (rg_captures r !! sn_capture x);
  ri_fresh : ∀ c, is_Some (rg_captures r !! c) → (c < rg_nextCapture r)%nat;
  ri_own : ∀ id1 id2 x1 x2, rg_sessions r !! id1 = Some x1 → rg_sessions r !! id2 = Some x2 →
    sn_capture x1 = sn_capture x2 → id1 = id2;
  ri_captures : ∀ c v, rg_captures r !! c = Some v → CaptureOk v;
  ri_used : bu_usedBytes (rg_budget r) = total captureBytes (rg_captures r);
  ri_maximum : bu_usedBytes (rg_budget r) ≤ bu_maximumBytes (rg_budget r);
  ri_limit : 0 ≤ rg_historyLimit r;
  ri_history : endedCount (rg_sessions r) ≤ rg_historyLimit r + prunes;
}.

Lemma inv_mono r others others' prunes prunes' :
  RegistryInv r others prunes → (∀ x, x ∈ others' → x ∈ others) → prunes ≤ prunes' →
  RegistryInv r others' prunes'.
Proof. intros [] Ho Hp. split; auto; lia. Qed.

(** Only the sessions, the captures, the budget and the counters matter. *)
Lemma inv_frame r r' others prunes :
  RegistryInv r others prunes → rg_sessions r' = rg_sessions r → rg_captures r' = rg_captures r →
  rg_budget r' = rg_budget r → rg_nextCapture r' = rg_nextCapture r → rg_uuids r' = rg_uuids r →
  rg_historyLimit r' = rg_historyLimit r → RegistryInv r' others prunes.
Proof. intros [] Hs Hc Hb Hn Hu Hl. split; rewrite ?Hs, ?Hc, ?Hb, ?Hn, ?Hu, ?Hl; auto. Qed.

Lemma endedOne_range x : 0 ≤ endedOne x ≤ 1.
Proof. unfold endedOne. destruct (isEnded x); lia. Qed.

(** A session changes but keeps its identifier and its capture. *)
Lemma inv_replace r others prunes id x x' :
  RegistryInv r others prunes → rg_sessions r !! id = Some x → sn_sessionId x' = sn_sessionId x →
  sn_capture x' = sn_capture x →
  RegistryInv (set_sessions (<[id := x']> (rg_sessions r)) r) (x' :: others)
    (prunes + Z.max 0 (endedOne x' - endedOne x)).
Proof.
  intros [Hids Hses Hoth Hfr Hown Hcap Hu Hm Hl Hh] Hx Hid Hc.
  assert (Hsame : ∀ id2 x2, <[id := x']> (rg_sessions r) !! id2 = Some x2 →
      ∃ x1, rg_sessions r !! id2 = Some x1 ∧ sn_sessionId x2 = sn_sessionId x1 ∧ sn_capture x2 = sn_capture x1).
  { intros id2 x2 [[<- <-]|[_ ?]]%lookup_insert_Some; eauto. }
  split; cbn; try done.
  - intros id2 x2 (x1 & H1 & -> & _)%Hsame. by apply Hids.
  - intros id2 x2 (x1 & H1 & _ & ->)%Hsame. eauto.
  - intros y [->|Hy]%elem_of_cons; [rewrite Hc; eauto|auto].
  - intros id1 id2 x1 x2 (y1 & H1 & _ & ->)%Hsame (y2 & H2 & _ & ->)%Hsame. by apply Hown.
  - unfold endedCount in *. rewrite total_insert, Hx. cbn. lia.
Qed.

(** A session is added with a capture of its own. *)
Lemma inv_create r others prunes x c :
  RegistryInv r others prunes → sn_sessionId x = new_session_id (rg_uuids r) → isEnded x = false →
  sn_capture x = rg_nextCapture r → CaptureOk c → captureBytes c = 0 →
  RegistryInv
    (set_sessions (<[sn_sessionId x := x]> (rg_sessions r)) (countUuid (allocate c r).2)) (x :: others) prunes.
Proof.
  intros [Hids Hses Hoth Hfr Hown Hcap Hu Hm Hl Hh] Hid Hend Hc Hok Hz.
  assert (Hnone : rg_captures r !! rg_nextCapture r = None).
  { apply eq_None_not_Some. intros ?%Hfr. lia. }
  assert (Hnew : rg_sessions r !! sn_sessionId x = None).
  { apply eq_None_not_Some. intros [y Hy]. destruct (Hids _ _ Hy) as (_ & n & Hn & Heq).
    rewrite Hid in Heq. apply id_inj in Heq. lia. }
  assert (Hold : ∀ d, is_Some (rg_captures r !! d) → is_Some (<[rg_nextCapture r := c]> (rg_captures r) !! d)).
  { intros d Hd. apply lookup_insert_is_Some. destruct (decide (rg_nextCapture r = d)); auto. }
  assert (Hother : ∀ id y, rg_sessions r !! id = Some y → sn_capture y ≠ rg_nextCapture r).
  { intros id y Hy Heq. apply Hses, Hfr in Hy. lia. }
  split; cbn [rg_sessions rg_captures rg_budget rg_nextCapture rg_uuids rg_historyLimit set_sessions countUuid allocate snd]; try done.
  - intros id y [[<- <-]|[_ Hy]]%lookup_insert_Some; [split; [done|]; exists (rg_uuids r); split; [lia|done]|].
    destruct (Hids _ _ Hy) as (? & n & ? & ?). split; [done|]. exists n. split; [lia|done].
  - intros id y [[<- <-]|[_ Hy]]%lookup_insert_Some; [|eauto]. rewrite Hc, lookup_insert_eq. eauto.
  - intros y [->|Hy]%elem_of_cons; [rewrite Hc, lookup_insert_eq; eauto|eauto].
  - intros d [<-|[_ ?%Hfr]]%lookup_insert_is_Some; lia.
  - intros id1 id2 x1 x2 [[<- <-]|[Hn1 H1]]%lookup_insert_Some [[<- <-]|[Hn2 H2]]%lookup_insert_Some Heq; try done.
    + exfalso. apply (Hother _ _ H2). congruence.
    + exfalso. apply (Hother _ _ H1). congruence.
    + by eapply Hown.
  - intros d v [[<- <-]|[_ ?]]%lookup_insert_Some; [done|eauto].
  - rewrite total_insert_None by done. lia.
  - unfold endedCount in *. rewrite total_insert_None by done. unfold endedOne at 1. rewrite Hend. lia.
Qed.

(** A session gives up its capture for an empty one. *)
Lemma inv_release r others prunes id x :
  RegistryInv r others prunes → rg_sessions r !! id = Some x →
  RegistryInv
    (set_sessions (<[id := uncaptured (rg_nextCapture r) x]> (rg_sessions r)) (allocate capture_default r).2)
    others prunes.
Proof.
  intros [Hids Hses Hoth Hfr Hown Hcap Hu Hm Hl Hh] Hx.
  assert (Hnone : rg_captures r !! rg_nextCapture r = None).
  { apply eq_None_not_Some. intros ?%Hfr. lia. }
  assert (Hold : ∀ d, is_Some (rg_captures r !! d) →
      is_Some (<[rg_nextCapture r := capture_default]> (rg_captures r) !! d)).
  { intros d Hd. apply lookup_insert_is_Some. destruct (decide (rg_nextCapture r = d)); auto. }
  assert (Hother : ∀ id y, rg_sessions r !! id = Some y → sn_capture y ≠ rg_nextCapture r).
  { intros id' y Hy Heq. apply Hses, Hfr in Hy. lia. }
  split; cbn [rg_sessions rg_captures rg_budget rg_nextCapture rg_uuids rg_historyLimit set_sessions allocate snd]; try done.
  - intros id' y [[<- <-]|[_ Hy]]%lookup_insert_Some; [apply (Hids _ _ Hx)|by apply Hids].
  - intros id' y [[<- <-]|[_ Hy]]%lookup_insert_Some; [|eauto]. cbn. rewrite lookup_insert_eq. eauto.
  - eauto.
  - intros d [<-|[_ ?%Hfr]]%lookup_insert_is_Some; lia.
  - intros id1 id2 x1 x2 [[<- <-]|[Hn1 H1]]%lookup_insert_Some [[<- <-]|[Hn2 H2]]%lookup_insert_Some Heq; try done.
    + exfalso. by apply (Hother _ _ H2).
    + exfalso. by apply (Hother _ _ H1).
    + by eapply Hown.
  - intros d v [[<- <-]|[_ ?]]%lookup_insert_Some; [apply capture_default_ok|eauto].
  - rewrite total_insert_None by done. change (captureBytes capture_default) with 0. lia.
  - unfold endedCount in *. rewrite total_insert, Hx. cbn.
    change (endedOne (uncaptured _ x)) with (endedOne x). lia.
Qed.

(** Sessions go. *)
Lemma inv_remove r others prunes prunes' sessions :
  RegistryInv r others prunes → sessions ⊆ rg_sessions r → endedCount sessions ≤ rg_historyLimit r + prunes' →
  RegistryInv (set_sessions sessions r) others prunes'.
Proof.
  intros [Hids Hses Hoth Hfr Hown Hcap Hu Hm Hl Hh] Hsub Hcount.
  assert (Hin : ∀ id x, sessions !! id = Some x → rg_sessions r !! id = Some x).
  { intros id x Hx. by eapply lookup_weaken. }
  split; cbn; eauto.
Qed.
End invariant.

(** * Every step of the registry keeps its invariant *)

(** ** Removals *)
Lemma lookup_removeAll (ids : list chars) (m : gmap chars SessionSnapshot) (id : chars) :
  removeAll ids m !! id = if decide (id ∈ ids) then None else m !! id.
Proof.
  unfold removeAll. induction ids as [|x ids IH]; cbn [foldr]; [by rewrite decide_False by set_solver|].
  rewrite lookup_delete, IH. repeat case_decide; set_solver.
Qed.

Lemma removeAll_subseteq ids m : removeAll ids m ⊆ m.
Proof.
  apply map_subseteq_spec. intros id x. rewrite lookup_removeAll. by case_decide.
Qed.

Lemma endedCount_removeAll ids m : endedCount (removeAll ids m) ≤ endedCount m.
Proof. apply total_subseteq; [intros; apply endedOne_range|apply removeAll_subseteq]. Qed.

Section steps.
Context (new_session_id : nat → chars) {id_inj : Inj (=) (=) new_session_id}
  (iteration : gmap chars SessionSnapshot → list (chars * SessionSnapshot))
  (iteration_perm : ∀ m, iteration m ≡ₚ map_to_list m).

Abbreviation RegistryInv := (RegistryInv new_session_id).

(** ** Snapshots and prunings of actions *)
Definition prunesOf (a : Action) : Z := match a with PruneClosed => 1 | _ => 0 end.
Definition prunes (actions : list Action) : Z := sum_by prunesOf actions.
Definition shown (actions : list Action) : list SessionSnapshot := actions ≫= actionSnapshots.

Lemma prunesOf_nonneg a : 0 ≤ prunesOf a.
Proof. by destruct a. Qed.

(** ** Payloads *)
(** The first [n] bytes of a payload were recorded, and what the budget was then. *)
Record Recorded (direction : TrafficDirection) (payload : list Z) (modifications : list WireByteModification)
    (now : Z) (c c' : SessionCapture) (b' : CapturedBytesBudget) (n : Z) : Prop := {
  rc_count : 0 ≤ n ≤ len payload;
  rc_bytes : toVec (captured direction c') = toVec (captured direction c) ++ slice payload 0 n;
  rc_other : ∀ d, d ≠ direction → captured d c' = captured d c;
  rc_packet : sc_packets c' =
    appendPacket {| pw_direction := direction; pw_capturedAtMilliseconds := now;
                    pw_storedOffsetBytes := cb_length (captured direction c); pw_storedBytes := n;
                    pw_originalBytes := len payload; pw_modifications := modifications |} (sc_packets c);
  rc_budgeted : ∀ d, cb_budgeted (captured d c') = cb_budgeted (captured d c);
  rc_prefix : cb_budgeted (captured direction c) = true →
    n = Z.min (len payload) (usize_max - cb_length (captured direction c)) ∨
    bu_maximumBytes b' ≤ bu_usedBytes b';
  rc_mute : cb_budgeted (captured direction c) = false → n = 0;
}.

Lemma record_ok direction payload modifications now c b :
  CaptureOk c → bu_usedBytes b ≤ bu_maximumBytes b →
  Satisfies (record direction payload modifications now c b)
    (λ '(c', b'), CaptureOk c' ∧ bu_maximumBytes b' = bu_maximumBytes b ∧ bu_usedBytes b' ≤ bu_maximumBytes b' ∧
       bu_usedBytes b' - bu_usedBytes b = captureBytes c' - captureBytes c ∧
       ∃ n, Recorded direction payload modifications now c c' b' n)
    (λ _, False).
Proof.
  intros [Hbuf Hres Htil] Hused. unfold record. cbv zeta. apply satisfies_bind.
  eapply satisfies_mono, (append_spec [] payload capturedStreamPrefixLimit (captured direction c) b);
    [|done|apply Hbuf|done|apply Hres|constructor].
  cbn beta. intros [[bytes b'] n] (Hok & Hn & Hvec & Hmax & Hwithin & Hbud & Hlim & (k & Hacc) & Hstop).
  rewrite take_nil in Hacc. cbn [foldr] in Hacc. apply satisfies_ret.
  set (packet := {| pw_direction := direction |}). set (c' := {| sc_up := _ |}).
  assert (Hsame : captured direction c' = bytes) by by destruct direction.
  assert (Hoth : ∀ d, d ≠ direction → captured d c' = captured d c) by by intros [] ?; destruct direction.
  assert (Hlen : cb_length bytes = cb_length (captured direction c) + n).
  { rewrite (bk_length _ Hok), Hvec, len_app, len_slice, (bk_length _ (Hbuf direction)); lia. }
  assert (Hdrop : dropBytes bytes - dropBytes (captured direction c) =
      cb_reservedBytes bytes - cb_reservedBytes (captured direction c)).
  { unfold dropBytes. rewrite Hbud. destruct (cb_budgeted (captured direction c)); [done|].
    destruct Hstop as [-> _]. lia. }
  split_and!; [|done|done| |].
  - split; intros d.
    + destruct (decide (d = direction)) as [->|Hd]; [by rewrite Hsame|rewrite Hoth by done; apply Hbuf].
    + destruct (decide (d = direction)) as [->|Hd]; [by rewrite Hsame|rewrite Hoth by done; apply Hres].
    + pose proof (appendPacket_tiled d packet (sc_packets c) _ (Htil d)) as Ht.
      change (pw_direction packet) with direction in Ht. change (pw_storedBytes packet) with n in Ht.
      change (sc_packets c') with (appendPacket packet (sc_packets c)).
      destruct (decide (d = direction)) as [->|Hd].
      * rewrite Hsame, Hlen. rewrite decide_True in Ht by done. by apply Ht.
      * rewrite Hoth by done. rewrite decide_False in Ht by done. by apply Ht.
  - unfold captureBytes. destruct direction; cbn in *; lia.
  - exists n. split; try done; [by rewrite Hsame| | |].
    + intros d. destruct (decide (d = direction)) as [->|Hd]; [by rewrite Hsame|by rewrite Hoth].
    + intros Hb. by rewrite Hb in Hstop.
    + intros Hb. rewrite Hb in Hstop. tauto.
Qed.

(** ** Sessions that record nothing any more *)
Definition mute (c : SessionCapture) : Prop := ∀ direction, cb_budgeted (captured direction c) = false.

(** The session, while it is there, records nothing. *)
Definition Silent (id : chars) (r : Registry) : Prop :=
  ∀ x c, rg_sessions r !! id = Some x → rg_captures r !! sn_capture x = Some c → mute c.

(** An identifier that was drawn. *)
Definition drawn (r : Registry) (id : chars) : Prop := ∃ n, (n < rg_uuids r)%nat ∧ id = new_session_id n.

(** The two limits a registry is created with. *)
Definition limits (r : Registry) : Z * Z := (rg_historyLimit r, bu_maximumBytes (rg_budget r)).

(** What a step leaves: identifiers are only drawn, and silence lasts. *)
Record Continues (r r' : Registry) : Prop := {
  cs_uuids : (rg_uuids r ≤ rg_uuids r')%nat;
  cs_limits : limits r' = limits r;
  cs_silent : ∀ id, drawn r id → Silent id r → Silent id r';
}.

Lemma registry_continues_refl r : Continues r r.
Proof. split; auto. Qed.

Lemma drawn_mono r r' id : (rg_uuids r ≤ rg_uuids r')%nat → drawn r id → drawn r' id.
Proof. intros Hle (n & Hn & ->). exists n. split; [lia|done]. Qed.

Lemma registry_continues_trans r1 r2 r3 : Continues r1 r2 → Continues r2 r3 → Continues r1 r3.
Proof.
  intros [Hu1 Hl1 Hs1] [Hu2 Hl2 Hs2]. split; [lia|congruence|]. intros id Hd Hs. apply Hs2; [by eapply drawn_mono|auto].
Qed.

(** Sessions keep their capture or go, and captures that are there do not change. *)
Lemma continues_same r r' :
  (rg_uuids r ≤ rg_uuids r')%nat → limits r' = limits r →
  (∀ id x', drawn r id → rg_sessions r' !! id = Some x' → ∃ x, rg_sessions r !! id = Some x ∧
     (sn_capture x' = sn_capture x ∧ rg_captures r' !! sn_capture x = rg_captures r !! sn_capture x ∨
      ∀ c, rg_captures r' !! sn_capture x' = Some c → mute c)) →
  Continues r r'.
Proof.
  intros Hu Hl Hsame. split; [done..|]. intros id Hd Hs x' c Hx' Hc.
  destruct (Hsame _ _ Hd Hx') as (x & Hx & [[Heq Hcap]|Hmute]); [|by apply Hmute].
  rewrite Heq, Hcap in Hc. by eapply Hs.
Qed.

(** ** Methods *)
Lemma inv_capture r others p k c c' b :
  RegistryInv r others p → rg_captures r !! k = Some c → CaptureOk c' →
  bu_usedBytes b - bu_usedBytes (rg_budget r) = captureBytes c' - captureBytes c →
  bu_usedBytes b ≤ bu_maximumBytes b →
  RegistryInv (set_captures (<[k := c']> (rg_captures r)) b r) others p.
Proof.
  intros [Hids Hses Hoth Hfr Hown Hcap Hu Hm Hl Hh] Hk Hok Hdiff Hmax.
  assert (Hdom : ∀ d, is_Some (<[k := c']> (rg_captures r) !! d) ↔ is_Some (rg_captures r !! d)).
  { intros d. rewrite lookup_insert_is_Some. split; [intros [<-|[_ ?]]; [by exists c|done]|].
    intros ?. destruct (decide (k = d)); auto. }
  split; cbn; try done.
  - intros id x Hx. apply Hdom. eauto.
  - intros x Hx. apply Hdom. eauto.
  - intros d Hd%Hdom. eauto.
  - intros d v [[<- <-]|[_ ?]]%lookup_insert_Some; eauto.
  - rewrite total_insert, Hk. cbn. lia.
Qed.

(** No update ends a session: only [close] does. *)
Definition callOk (c : Call) : Prop :=
  match c with Update _ u => up_state u ≠ Closed ∧ up_state u ≠ Failed | _ => True end.

(** What a critical section leaves. *)
Record After (r : Registry) (others : list SessionSnapshot) (p : Z) (result : Registry * list Action) : Prop := {
  af_inv : RegistryInv result.1 (shown result.2 ++ others) (p + prunes result.2);
  af_continues : Continues r result.1;
}.

Lemma after_none r r' others p :
  RegistryInv r' others p → Continues r r' → After r others p (r', []).
Proof. intros Hi Hc. split; [|done]. cbn. by rewrite Z.add_0_r. Qed.

Lemma create_after r others p clientAddress now :
  RegistryInv r others p → After r others p (create new_session_id clientAddress now r).
Proof.
  intros Hi. unfold create. cbn -[lit]. set (x := {| sn_sessionId := _ |}). split.
  - replace (p + _) with p by (cbn; lia).
    exact (inv_create new_session_id r others p x capture_withBudget Hi eq_refl eq_refl eq_refl
             capture_withBudget_ok eq_refl).
  - apply continues_same; [cbn; lia|done|]. intros id y (n & Hn & ->).
    cbn. intros [[Heq _]|[_ Hy]]%lookup_insert_Some.
    { apply id_inj in Heq. lia. }
    exists y. split; [done|]. left. split; [done|]. rewrite lookup_insert_ne; [done|].
    intros Heq. apply (ri_sessions _ _ _ _ Hi), (ri_fresh _ _ _ _ Hi) in Hy. lia.
Qed.

(** A session replaced by one with the same identifier and capture. *)
Lemma replaced_continues r id x x' :
  rg_sessions r !! id = Some x → sn_capture x' = sn_capture x →
  Continues r (set_sessions (<[id := x']> (rg_sessions r)) r).
Proof.
  intros Hx Hc. apply continues_same; [done..|]. cbn. intros id' y _ [[<- <-]|[_ Hy]]%lookup_insert_Some; eauto.
Qed.

Lemma update_after r others p sessionId u now :
  RegistryInv r others p → up_state u ≠ Closed → up_state u ≠ Failed →
  After r others p (update sessionId u now r).1.
Proof.
  intros Hi H1 H2. unfold update. destruct (rg_sessions r !! sessionId) as [x|] eqn:Hx.
  2: { apply after_none; [done|apply registry_continues_refl]. }
  split; cbn -[lit]; [|by eapply replaced_continues].
  eapply inv_mono; [by apply (inv_replace _ _ _ _ _ x (updated u now x) Hi)|done|].
  pose proof (endedOne_range x). unfold endedOne at 1, isEnded. cbn.
  destruct (up_state u); try done; lia.
Qed.

Lemma close_after r others p sessionId errorMessage now :
  RegistryInv r others p → After r others p (close sessionId errorMessage now r).
Proof.
  intros Hi. unfold close. destruct (rg_sessions r !! sessionId) as [x|] eqn:Hx.
  2: { apply after_none; [done|apply registry_continues_refl]. }
  split; cbn -[lit]; [|by eapply replaced_continues].
  eapply inv_mono; [by apply (inv_replace _ _ _ _ _ x (ended errorMessage now x) Hi)|done|].
  pose proof (endedOne_range x). pose proof (endedOne_range (ended errorMessage now x)). lia.
Qed.

(** What a payload of a session leaves. *)
Record TrafficResult (r : Registry) (sessionId : chars) (direction : TrafficDirection)
    (original payload : list Z) (now : Z) (x : SessionSnapshot) (c : SessionCapture)
    (result : Registry * list Action) (c' : SessionCapture) (b' : CapturedBytesBudget) : Prop := {
  tr_result : result =
    (set_captures (<[sn_capture x := c']> (rg_captures r)) b'
       (set_sessions (<[sessionId := counted direction (len payload) now x]> (rg_sessions r)) r),
     [CountTraffic direction (len payload);
      Publish (lit "sessionTraffic") (counted direction (len payload) now x)]);
  tr_capture : CaptureOk c';
  tr_maximum : bu_maximumBytes b' = bu_maximumBytes (rg_budget r);
  tr_within : bu_usedBytes b' ≤ bu_maximumBytes b';
  tr_used : bu_usedBytes b' - bu_usedBytes (rg_budget r) = captureBytes c' - captureBytes c;
  tr_recorded : ∃ n modifications, Reversible original payload modifications ∧
    Recorded direction payload modifications now c c' b' n;
}.

Lemma traffic_result r others p sessionId direction original payload now x c :
  RegistryInv r others p → is_empty payload = false → rg_sessions r !! sessionId = Some x →
  rg_captures r !! sn_capture x = Some c →
  Satisfies (addModifiedTraffic sessionId direction original payload now r)
    (λ result, ∃ c' b', TrafficResult r sessionId direction original payload now x c result c' b') (λ _, False).
Proof.
  intros Hi Hne Hx Hc. unfold addModifiedTraffic. rewrite Hne.
  apply satisfies_bind. eapply satisfies_mono, derive_reversible; [|done]. cbn beta. intros modifications Hrev.
  cbv zeta. rewrite Hx. apply satisfies_bind, satisfies_expect. exists c. split; [done|].
  apply satisfies_bind. eapply satisfies_mono, (record_ok direction payload modifications now c (rg_budget r));
    [|done|by eapply ri_captures|apply Hi].
  cbn beta. intros [c' b'] (Hok & Hmax & Hwithin & Hacc & n & Hrec). apply satisfies_ret.
  exists c', b'. split; try done. by exists n, modifications.
Qed.

Lemma recorded_after r others p sessionId direction original payload now x c result c' b' :
  RegistryInv r others p → rg_sessions r !! sessionId = Some x → rg_captures r !! sn_capture x = Some c →
  TrafficResult r sessionId direction original payload now x c result c' b' → After r others p result.
Proof.
  intros Hi Hx Hc [-> Hok Hmax Hwithin Hacc (n & modifications & _ & Hrec)].
  pose proof (inv_capture r others p (sn_capture x) c c' b' Hi Hc Hok Hacc Hwithin) as Hi'.
  split; cbn -[lit].
  - eapply inv_mono; [apply (inv_replace _ _ _ _ sessionId x (counted direction (len payload) now x) Hi'); done|done|].
    change (endedOne (counted _ _ _ x)) with (endedOne x). lia.
  - split; [done|by unfold limits; cbn; rewrite Hmax|]. intros id Hd Hs y d Hy Hcd.
    cbn [rg_sessions rg_captures set_captures set_sessions fst] in Hy, Hcd.
    assert (Hmute : sn_capture y = sn_capture x → id = sessionId).
    { intros Heq. apply lookup_insert_Some in Hy as [[-> _]|[_ Hy]]; [done|].
      by apply (ri_own _ _ _ _ Hi _ _ _ _ Hy Hx). }
    apply lookup_insert_Some in Hcd as [[Heq <-]|[Hne Hcd]].
    + rewrite Hmute in Hs by done. pose proof (Hs _ _ Hx Hc) as Hm. intros d.
      by rewrite (rc_budgeted _ _ _ _ _ _ _ _ Hrec).
    + apply lookup_insert_Some in Hy as [[<- <-]|[_ Hy]]; [done|]. by eapply Hs.
Qed.

Lemma traffic_after r others p sessionId direction original payload now :
  RegistryInv r others p →
  Satisfies (addModifiedTraffic sessionId direction original payload now r)
    (λ result, After r others p result) (λ _, False).
Proof.
  intros Hi. destruct (is_empty payload) eqn:Hne.
  { unfold addModifiedTraffic. rewrite Hne. apply satisfies_ret, after_none; [done|apply registry_continues_refl]. }
  destruct (rg_sessions r !! sessionId) as [x|] eqn:Hx.
  - destruct (ri_sessions _ _ _ _ Hi _ _ Hx) as [c Hc].
    eapply satisfies_mono, (traffic_result r others p sessionId direction original payload now x c); [|done..].
    intros result (c' & b' & Hr). by eapply recorded_after.
  - unfold addModifiedTraffic. rewrite Hne. apply satisfies_bind.
    eapply satisfies_mono, derive_reversible; [|done]. cbn beta. intros modifications _. cbv zeta. rewrite Hx.
    apply satisfies_ret, after_none; [done|apply registry_continues_refl].
Qed.

(** ** Clearing *)
Lemma removed_continues r ids : Continues r (set_sessions (removeAll ids (rg_sessions r)) r).
Proof.
  apply continues_same; [done..|]. cbn. intros id x _ Hx. exists x. split; [|by left].
  eapply lookup_weaken; [exact Hx|apply removeAll_subseteq].
Qed.

Lemma clearClosed_after r others p :
  RegistryInv r others p → After r others p ((clearClosed iteration r).1, []).
Proof.
  intros Hi. apply after_none; [|apply removed_continues].
  eapply inv_remove; [exact Hi|apply removeAll_subseteq|].
  pose proof (ri_history _ _ _ _ Hi). pose proof (endedCount_removeAll (fst <$> endedIds iteration r) (rg_sessions r)). lia.
Qed.

Lemma release_after r others p id :
  RegistryInv r others p → RegistryInv (releaseCapturedBytes id r) others p ∧
  Continues r (releaseCapturedBytes id r) ∧ Silent id (releaseCapturedBytes id r).
Proof.
  intros Hi. unfold releaseCapturedBytes. destruct (rg_sessions r !! id) as [x|] eqn:Hx.
  2: { split_and!; [done|apply registry_continues_refl|]. intros y c Hy. congruence. }
  assert (Hmute : mute capture_default) by by intros [].
  split_and!; [by apply (inv_release _ _ _ _ _ x Hi)| |].
  - apply continues_same; [done..|]. cbn. intros id' y _ [[<- <-]|[_ Hy]]%lookup_insert_Some.
    + exists x. split; [done|]. right. cbn. rewrite lookup_insert_eq. by intros c [= <-].
    + exists y. split; [done|]. left. split; [done|]. rewrite lookup_insert_ne; [done|].
      intros Heq. apply (ri_sessions _ _ _ _ Hi), (ri_fresh _ _ _ _ Hi) in Hy. lia.
  - intros y c. cbn. rewrite lookup_insert_eq. intros [= <-]. cbn. rewrite lookup_insert_eq. by intros [= <-].
Qed.

Lemma release_sessions id id' r :
  is_Some (rg_sessions (releaseCapturedBytes id r) !! id') ↔ is_Some (rg_sessions r !! id').
Proof.
  unfold releaseCapturedBytes. destruct (rg_sessions r !! id) as [x|] eqn:Hx; [|done]. cbn.
  rewrite lookup_insert_is_Some. destruct (decide (id = id')) as [<-|]; [rewrite Hx|]; naive_solver.
Qed.

Lemma releases_after (ids : list chars) r others p :
  RegistryInv r others p → (∀ id, id ∈ ids → drawn r id) →
  let r' := fold_left (λ r id, releaseCapturedBytes id r) ids r in
  RegistryInv r' others p ∧ Continues r r' ∧ ∀ id, id ∈ ids → Silent id r'.
Proof.
  revert r. induction ids as [|id ids IH]; intros r Hi Hd.
  { split_and!; [done|apply registry_continues_refl|]. by intros id ?%elem_of_nil. }
  cbn [fold_left]. destruct (release_after r others p id Hi) as (Hi1 & Hc1 & Hs1).
  destruct (IH (releaseCapturedBytes id r)) as (Hi2 & Hc2 & Hs2); [done| |].
  { intros x Hx. eapply drawn_mono; [apply Hc1|]. apply Hd. by right. }
  split_and!; [done|by eapply registry_continues_trans|]. intros x [->|Hx]%elem_of_cons; [|by apply Hs2].
  apply Hc2; [|done]. eapply drawn_mono; [apply Hc1|]. apply Hd. by left.
Qed.

Lemma iteration_elem m id x : (id, x) ∈ iteration m ↔ m !! id = Some x.
Proof using iteration_perm. rewrite iteration_perm. apply elem_of_map_to_list. Qed.

(** After a clearing every session of the registry is silent. *)
Lemma clearCaptured_after r others p :
  RegistryInv r others p →
  After r others p (clearCapturedBytes iteration r, []) ∧
  ∀ id, is_Some (rg_sessions r !! id) → Silent id (clearCapturedBytes iteration r).
Proof using iteration_perm.
  intros Hi. unfold clearCapturedBytes. set (r1 := set_captureGeneration _ r).
  assert (Hi1 : RegistryInv r1 others p) by by eapply inv_frame.
  assert (Hdrawn : ∀ id, id ∈ (iteration (rg_sessions r1)).*1 → drawn r1 id).
  { intros id ([id' x] & -> & Hx%iteration_elem)%list_elem_of_fmap. apply (ri_ids _ _ _ _ Hi1 _ _ Hx). }
  destruct (releases_after _ r1 others p Hi1 Hdrawn) as (Hi2 & Hc2 & Hs2). split.
  - apply after_none; [done|]. eapply registry_continues_trans; [|exact Hc2]. by apply continues_same; eauto.
  - intros id [x Hx]. apply Hs2, list_elem_of_fmap. exists (id, x). split; [done|]. by apply iteration_elem.
Qed.

(** ** Pruning *)
Lemma endedIds_elem r id x :
  (id, x) ∈ endedIds iteration r ↔ rg_sessions r !! id = Some x ∧ isEnded x = true.
Proof using iteration_perm.
  unfold endedIds. rewrite list_elem_of_filter, iteration_elem. tauto.
Qed.

Lemma endedIds_NoDup r : NoDup (endedIds iteration r).*1.
Proof using iteration_perm.
  unfold endedIds. eapply sublist_NoDup; [|apply fmap_sublist, sublist_filter].
  rewrite iteration_perm. apply NoDup_fst_map_to_list.
Qed.

Lemma endedIds_length r : Z.of_nat (length (endedIds iteration r)) = endedCount (rg_sessions r).
Proof using iteration_perm.
  unfold endedCount. rewrite total_map_to_list. unfold endedIds. rewrite <-(iteration_perm (rg_sessions r)).
  induction (iteration (rg_sessions r)) as [|[id x] l IH]; [done|].
  change (sum_by endedOne ((id, x) :: l).*2) with (endedOne x + sum_by endedOne l.*2).
  unfold endedOne at 1. destruct (isEnded x) eqn:He.
  - rewrite filter_cons_True by done. cbn [length]. lia.
  - rewrite filter_cons_False by by rewrite He. lia.
Qed.

Lemma ended_sum (m : gmap chars SessionSnapshot) (ids : list chars) :
  (∀ id, id ∈ ids → ∃ x, m !! id = Some x ∧ isEnded x = true) →
  sum_by endedOne (omap (λ id, m !! id) ids) = len ids.
Proof.
  induction ids as [|id ids IH]; intros Hin; [done|].
  destruct (Hin id ltac:(by left)) as (x & Hx & He).
  assert (omap (λ id, m !! id) (id :: ids) = x :: omap (λ id, m !! id) ids) as -> by (cbn; by rewrite Hx).
  change (sum_by endedOne (x :: ?l)) with (endedOne x + sum_by endedOne l).
  rewrite IH by (intros ??; apply Hin; by right). unfold endedOne. rewrite He. unfold len. cbn [length]. lia.
Qed.

#[export] Instance closedBefore_total : Total closedBefore.
Proof. intros a b. unfold closedBefore. lia. Qed.
#[export] Instance closedBefore_trans : Transitive closedBefore.
Proof. intros a b c. unfold closedBefore. lia. Qed.

(** The ended sessions, oldest first. *)
Definition closedList (r : Registry) : list (chars * Z) :=
  merge_sort closedBefore ((λ '(sessionId, s), (sessionId, sn_closedAtMilliseconds s)) <$> endedIds iteration r).

Lemma closedList_perm r :
  closedList r ≡ₚ (λ '(sessionId, s), (sessionId, sn_closedAtMilliseconds s)) <$> endedIds iteration r.
Proof. apply merge_sort_Permutation. Qed.

Lemma closedList_elem r id at' :
  (id, at') ∈ closedList r ↔
  ∃ x, rg_sessions r !! id = Some x ∧ isEnded x = true ∧ sn_closedAtMilliseconds x = at'.
Proof using iteration_perm.
  rewrite closedList_perm, list_elem_of_fmap. split.
  - intros ([id' x] & [= -> ->] & [Hx He]%endedIds_elem). eauto.
  - intros (x & Hx & He & <-). exists (id, x). split; [done|]. by apply endedIds_elem.
Qed.

Lemma closedList_NoDup r : NoDup (closedList r).*1.
Proof using iteration_perm.
  rewrite closedList_perm, <-list_fmap_compose.
  rewrite (list_fmap_ext _ fst); [apply endedIds_NoDup|]. by intros ? [] ?.
Qed.

Lemma closedList_length r : len (closedList r) = endedCount (rg_sessions r).
Proof using iteration_perm.
  rewrite <-endedIds_length. unfold len. by rewrite closedList_perm, length_fmap.
Qed.

Lemma pruneClosed_unfold r :
  pruneClosed iteration r =
  if endedCount (rg_sessions r) <=? rg_historyLimit r then r
  else set_sessions
    (removeAll (take (Z.to_nat (endedCount (rg_sessions r) - rg_historyLimit r)) (closedList r)).*1 (rg_sessions r)) r.
Proof using iteration_perm.
  unfold pruneClosed. cbv zeta. fold (closedList r).
  replace (len _) with (endedCount (rg_sessions r)); [done|].
  rewrite <-closedList_length. unfold len. by rewrite closedList_perm.
Qed.

Record Pruned (r r' : Registry) : Prop := {
  pr_subset : rg_sessions r' ⊆ rg_sessions r;
  pr_count : endedCount (rg_sessions r') = Z.min (endedCount (rg_sessions r)) (rg_historyLimit r);
  pr_active : ∀ id x, rg_sessions r !! id = Some x → isEnded x = false → rg_sessions r' !! id = Some x;
  pr_oldest : ∀ id x id' x', rg_sessions r !! id = Some x → rg_sessions r' !! id = None →
    rg_sessions r' !! id' = Some x' → isEnded x' = true →
    sn_closedAtMilliseconds x ≤ sn_closedAtMilliseconds x';
}.

(** The oldest of the ended sessions go, down to the limit, and nothing else. *)
Lemma pruneClosed_pruned r : 0 ≤ rg_historyLimit r → Pruned r (pruneClosed iteration r).
Proof using iteration_perm.
  clear dependent new_session_id.
  intros Hl. rewrite pruneClosed_unfold. case_if Hc.
  { apply Z.leb_le in Hc. split; [done|lia|done|]. intros. congruence. }
  apply Z.leb_gt in Hc. set (k := Z.to_nat _).
  assert (Hlen : (k ≤ length (closedList r))%nat).
  { pose proof (closedList_length r) as Hcl. unfold len in Hcl. unfold k. lia. }
  set (ids := (take k (closedList r)).*1).
  assert (Hin : ∀ id, id ∈ ids → ∃ x, rg_sessions r !! id = Some x ∧ isEnded x = true).
  { intros id ([id' at'] & -> & Ht)%list_elem_of_fmap. 
    assert (Hm : (id', at') ∈ closedList r) by by eapply elem_of_take in Ht as (? & ?%list_elem_of_lookup_2 & _).
    apply closedList_elem in Hm as (x & ? & ? & _). eauto. }
  assert (Hnd : NoDup ids).
  { unfold ids. rewrite fmap_take. eapply sublist_NoDup, sublist_take. apply closedList_NoDup. }
  split.
  - apply removeAll_subseteq.
  - cbn. unfold endedCount in *.
    pose proof (total_removed endedOne (rg_sessions r) (removeAll ids (rg_sessions r)) ids Hnd
      (λ id, lookup_removeAll _ _ _)) as Ht.
    rewrite ended_sum in Ht by done.
    assert (Hids : len ids = Z.of_nat k) by (unfold ids, len; rewrite length_fmap, length_take; lia).
    lia.
  - cbn. intros id x Hx He. rewrite lookup_removeAll, decide_False; [done|].
    intros (y & Hy & ?)%Hin. congruence.
  - cbn. intros id x id' x' Hx Hgone. rewrite !lookup_removeAll in *. case_decide as H1; [|congruence].
    case_decide as H2; [done|]. intros Hx' He'.
    assert (Hold : (id, sn_closedAtMilliseconds x) ∈ take k (closedList r)).
    { unfold ids in H1. apply list_elem_of_fmap in H1 as ([j at'] & -> & Ht).
      assert (Hm : (j, at') ∈ closedList r) by by eapply elem_of_take in Ht as (? & ?%list_elem_of_lookup_2 & _).
      apply closedList_elem in Hm as (y & Hy & _ & Hat). cbn in Hx. by simplify_eq. }
    assert (Hnew : (id', sn_closedAtMilliseconds x') ∈ drop k (closedList r)).
    { assert (Hm : (id', sn_closedAtMilliseconds x') ∈ closedList r) by (apply closedList_elem; eauto).
      rewrite <-(take_drop k (closedList r)), elem_of_app in Hm. destruct Hm as [Hm|]; [|done].
      exfalso. apply H2. unfold ids. apply list_elem_of_fmap. by exists (id', sn_closedAtMilliseconds x'). }
    assert (Hs : StronglySorted closedBefore (take k (closedList r) ++ drop k (closedList r))).
    { rewrite take_drop. apply (StronglySorted_merge_sort closedBefore). }
    by apply (StronglySorted_app_1_elem_of closedBefore _ _ _ _ Hs Hold Hnew).
Qed.

End steps.
