(* ===== verification/SessionRegistryTheorems.v ===== *)
(** * What the session registry guarantees while its methods interleave

    The invariant of the whole system — registry, unfinished methods, held snapshots —
    for every interleaving of critical sections, and what follows from it: the memory
    budget, the captured streams, the silence of cleared sessions and the pruning of
    the history. *)

From S2P Require Import Prelude Stateful Text WireDiff SessionCapture SessionRegistry SessionRegistryInvariant.

Lemma sum_by_insert {A} (f : A → Z) (l : list A) i x y :
  l !! i = Some x → sum_by f (<[i := y]> l) = sum_by f l - f x + f y.
Proof.
  intros Hi. rewrite insert_take_drop by by eapply lookup_lt_Some.
  rewrite <-(take_drop_middle l i x Hi) at 3. rewrite !sum_by_app.
  change (sum_by f (?a :: ?l)) with (f a + sum_by f l). lia.
Qed.

Lemma prunes_app l1 l2 : prunes (l1 ++ l2) = prunes l1 + prunes l2.
Proof. apply sum_by_app. Qed.

Lemma shown_app l1 l2 : shown (l1 ++ l2) = shown l1 ++ shown l2.
Proof. apply bind_app. Qed.

Lemma prunes_nonneg l : 0 ≤ prunes l.
Proof. apply sum_by_nonneg. intros a _. apply prunesOf_nonneg. Qed.

Section system.
Context (new_session_id : nat → chars) {id_inj : Inj (=) (=) new_session_id}
  (iteration : gmap chars SessionSnapshot → list (chars * SessionSnapshot))
  (iteration_perm : ∀ m, iteration m ≡ₚ map_to_list m).

Abbreviation RegistryInv := (RegistryInv new_session_id).
Abbreviation After := (After new_session_id).
Abbreviation Continues := (Continues new_session_id).
Abbreviation transition := (transition new_session_id iteration).

(** ** Critical sections *)
Lemma act_after action now r others p :
  RegistryInv r others (prunesOf action + p) → 0 ≤ p → After r others p (act iteration action now r).
Proof using id_inj iteration_perm.
  intros Hi Hp. destruct action; cbn [act prunesOf] in *.
  1-4: apply after_none; [by eapply inv_frame|apply continues_same; eauto].
  - pose proof (pruneClosed_pruned iteration iteration_perm r (ri_limit _ _ _ _ Hi)) as [Hsub Hcount _ _].
    rewrite (pruneClosed_unfold iteration iteration_perm) in *. case_if Hc.
    + apply after_none; [|apply registry_continues_refl]. apply Z.leb_le in Hc.
      destruct Hi. split; auto. lia.
    + apply after_none; [|apply removed_continues]. eapply inv_remove; [exact Hi|exact Hsub|].
      cbn in Hcount |- *. lia.
  - by apply close_after.
Qed.

Lemma call_after c now r others p :
  callOk c → RegistryInv r others p →
  Satisfies (call new_session_id iteration c now r) (λ result, After r others p result) (λ _, False).
Proof using id_inj iteration_perm.
  intros Hok Hi. destruct c; cbn [call].
  - by apply satisfies_ret, create_after.
  - destruct Hok as [H1 H2]. pose proof (update_after _ r others p sessionId u now Hi H1 H2) as Ha.
    by destruct (update sessionId u now r) as [[r' actions] b].
  - by apply traffic_after.
  - by apply satisfies_ret, close_after.
  - apply satisfies_ret. split; [|apply registry_continues_refl]. unfold closeActive. cbv zeta. cbn [fst snd].
    eapply inv_mono; [exact Hi| |].
    + intros x [(a & Ha1 & (id & -> & _)%list_elem_of_fmap)%list_elem_of_bind|Hx]%elem_of_app; [|done].
      by apply elem_of_nil in Ha1.
    + match goal with |- _ ≤ _ + prunes ?l => pose proof (prunes_nonneg l) end. lia.
  - apply satisfies_ret, after_none; [by eapply inv_frame|apply continues_same; eauto].
  - apply satisfies_ret, after_none; [by eapply inv_frame|apply continues_same; eauto].
  - by apply satisfies_ret, clearClosed_after.
  - apply satisfies_ret. by eapply clearCaptured_after.
  - destruct (release_after _ r others p sessionId Hi) as (? & ? & _).
    by apply satisfies_ret, after_none.
  - apply satisfies_ret, after_none; [by eapply inv_frame|apply continues_same; eauto].
Qed.

(** ** Reference counts *)
Definition others (s : System) : list SessionSnapshot := sy_held s ++ (sy_threads s ≫= shown).
Definition pending (s : System) : Z := sum_by prunes (sy_threads s).

Record SystemInv (s : System) : Prop := {
  si_registry : RegistryInv (sy_registry s) (others s) (pending s);
  si_used : ∀ c, is_Some (rg_captures (sy_registry s) !! c) → ∃ x, x ∈ live s ∧ sn_capture x = c;
}.

Lemma live_snapshot_elem s x :
  x ∈ live s ↔ (∃ id, rg_sessions (sy_registry s) !! id = Some x) ∨ x ∈ others s.
Proof.
  unfold live, others. rewrite elem_of_app. apply or_iff_compat_r. rewrite list_elem_of_fmap. split.
  - intros ([id y] & -> & Hy%elem_of_map_to_list). by exists id.
  - intros [id Hx]. exists (id, x). split; [done|]. by apply elem_of_map_to_list.
Qed.

Lemma captureBytes_nonneg c : CaptureOk c → 0 ≤ captureBytes c.
Proof.
  intros [Hb _ _]. pose proof (buffer_length_le _ (Hb Up)). pose proof (buffer_length_le _ (Hb Down)).
  cbn in *. unfold captureBytes, dropBytes. destruct (cb_budgeted (sc_up c)), (cb_budgeted (sc_down c)); lia.
Qed.

Definition held (s : System) : list nat := sn_capture <$> live s.

Lemma held_elem s c : c ∈ held s ↔ ∃ x, x ∈ live s ∧ sn_capture x = c.
Proof. unfold held. rewrite list_elem_of_fmap. naive_solver. Qed.

Lemma collect_lookup s c :
  rg_captures (sy_registry (collect s)) !! c =
  if decide (c ∈ held s) then rg_captures (sy_registry s) !! c else None.
Proof.
  cbn -[live]. rewrite map_lookup_filter. fold (held s).
  destruct (rg_captures (sy_registry s) !! c) as [v|]; cbn; [|by case_decide].
  case_guard as Hg; case_decide as Hd; try done; exfalso; revert Hg; rewrite elem_of_list_to_set; tauto.
Qed.

Lemma collect_kept s c : c ∈ held s →
  rg_captures (sy_registry (collect s)) !! c = rg_captures (sy_registry s) !! c.
Proof. intros Hc. by rewrite collect_lookup, decide_True. Qed.

(** Nothing is released while everything is referred to. *)
Lemma collect_budget s :
  (∀ c, is_Some (rg_captures (sy_registry s) !! c) → c ∈ held s) →
  rg_budget (sy_registry (collect s)) = rg_budget (sy_registry s).
Proof.
  intros Hall. cbn -[live]. rewrite map_filter_id; [|].
  - unfold release, set_usedBytes. rewrite Z.sub_diag, Z.sub_0_r. by destruct (rg_budget _).
  - intros c v Hv. rewrite elem_of_list_to_set. apply Hall. by exists v.
Qed.

(** What [collect] keeps is a well formed system, with everything as it was for
    the sessions. *)
Lemma collect_inv s :
  RegistryInv (sy_registry s) (others s) (pending s) →
  SystemInv (collect s) ∧ Continues (sy_registry s) (sy_registry (collect s)).
Proof.
  intros [Hids Hses Hoth Hfr Hown Hcap Hu Hm Hl Hh].
  assert (Hsub : ∀ c v, rg_captures (sy_registry (collect s)) !! c = Some v →
      c ∈ held s ∧ rg_captures (sy_registry s) !! c = Some v).
  { intros c v. rewrite collect_lookup. by case_decide. }
  assert (Hsession : ∀ id x, rg_sessions (sy_registry s) !! id = Some x → sn_capture x ∈ held s).
  { intros id x Hx. apply held_elem. exists x. split; [|done]. apply live_snapshot_elem. left. by exists id. }
  assert (Hother : ∀ x, x ∈ others s → sn_capture x ∈ held s).
  { intros x Hx. apply held_elem. exists x. split; [|done]. apply live_snapshot_elem. by right. }
  assert (Hle : total captureBytes (rg_captures (sy_registry (collect s))) ≤
                total captureBytes (rg_captures (sy_registry s))).
  { apply total_subseteq; [intros c v Hv; by apply captureBytes_nonneg, (Hcap c)|].
    apply map_subseteq_spec. intros c v Hv. by apply Hsub. }
  split; [split|].
  - split; try done.
    + intros id x Hx. rewrite collect_kept by by eapply Hsession. eauto.
    + intros x Hx. rewrite collect_kept by by apply Hother. eauto.
    + intros c [v Hv%Hsub]. apply Hfr. exists v. tauto.
    + intros c v [_ Hv]%Hsub. eauto.
    + cbn in *. lia.
    + cbn in *. lia.
  - intros c [v [Hc _]%Hsub]. by apply held_elem.
  - apply continues_same; [done..|]. intros id x _ Hx. exists x. split; [done|]. left. split; [done|].
    apply collect_kept. by eapply Hsession.
Qed.

(** ** Transitions *)
Lemma others_elem s x : x ∈ others s ↔ x ∈ sy_held s ∨ ∃ t, t ∈ sy_threads s ∧ x ∈ shown t.
Proof. unfold others. rewrite elem_of_app, list_elem_of_bind. naive_solver. Qed.

(** A thread that starts. *)
Lemma start_inv s r actions :
  After (sy_registry s) (others s) (pending s) (r, actions) →
  RegistryInv r (others {| sy_registry := r; sy_threads := sy_threads s ++ [actions]; sy_held := sy_held s |})
    (pending {| sy_registry := r; sy_threads := sy_threads s ++ [actions]; sy_held := sy_held s |}).
Proof.
  intros [Hi _]. eapply inv_mono; [exact Hi| |].
  - intros x. rewrite others_elem. cbn. rewrite elem_of_app, others_elem.
    intros [?|(t & [?| ->%list_elem_of_singleton]%elem_of_app & ?)]; eauto.
  - unfold pending. cbn [sy_threads snd]. rewrite sum_by_app. cbn. lia.
Qed.

(** A thread that goes on. *)
Lemma resume_inv s i action rest r actions (subscribed : bool) :
  sy_threads s !! i = Some (action :: rest) →
  After (sy_registry s) (others s) (pending s - prunesOf action) (r, actions) →
  let s' := {| sy_registry := r; sy_threads := <[i := actions ++ rest]> (sy_threads s);
               sy_held := (if subscribed then actionSnapshots action else []) ++ sy_held s |} in
  RegistryInv r (others s') (pending s').
Proof.
  intros Ht [Hi _]. eapply inv_mono; [exact Hi| |].
  - intros x. rewrite others_elem. cbn. rewrite !elem_of_app, others_elem.
    assert (Hold : ∀ y, y ∈ shown (action :: rest) → y ∈ shown actions ∨ y ∈ sy_held s ∨
        ∃ t, t ∈ sy_threads s ∧ y ∈ shown t).
    { intros y Hy. right. right. exists (action :: rest). split; [by eapply list_elem_of_lookup_2|done]. }
    change (shown (action :: rest)) with (actionSnapshots action ++ shown rest) in Hold.
    intros [Hx|(t & Hin & Hx)].
    + destruct Hx as [Hx|]; [|eauto]. apply Hold, elem_of_app. left. destruct subscribed; [done|by apply elem_of_nil in Hx].
    + apply list_elem_of_lookup in Hin as [j Hj].
      apply list_lookup_insert_Some in Hj as [(-> & <- & _)|[_ Hj]].
      * rewrite shown_app, elem_of_app in Hx. destruct Hx; [by left|]. apply Hold, elem_of_app. by right.
      * right. right. exists t. split; [by eapply list_elem_of_lookup_2|done].
  - unfold pending. cbn [sy_threads snd]. rewrite (sum_by_insert _ _ _ _ _ Ht), prunes_app.
    change (prunes (action :: rest)) with (prunesOf action + prunes rest). lia.
Qed.

Definition transitionOk (t : Transition) : Prop := match t with Start c => callOk c | _ => True end.

Lemma pending_le s i action rest :
  sy_threads s !! i = Some (action :: rest) → prunesOf action ≤ pending s.
Proof.
  intros Ht. unfold pending. rewrite <-(take_drop_middle _ _ _ Ht), sum_by_app.
  change (sum_by prunes (?a :: ?l)) with (prunes a + sum_by prunes l).
  change (prunes (action :: rest)) with (prunesOf action + prunes rest).
  pose proof (prunes_nonneg rest).
  assert (∀ l, 0 ≤ sum_by prunes l) as Hn by (intros; apply sum_by_nonneg; intros; apply prunes_nonneg).
  pose proof (Hn (take i (sy_threads s))). pose proof (Hn (drop (S i) (sy_threads s))). lia.
Qed.

Lemma transition_keeps t now s :
  transitionOk t → SystemInv s →
  Satisfies (transition t now s)
    (λ s', SystemInv s' ∧ Continues (sy_registry s) (sy_registry s')) (λ _, False).
Proof using id_inj iteration_perm.
  intros Hok [Hi Hlive]. destruct t as [c|i subscribed|id|i]; cbn [transition].
  - apply satisfies_bind. eapply satisfies_mono, call_after; [|done|exact Hok|exact Hi].
    intros [r actions] Ha. apply satisfies_ret.
    destruct (collect_inv {| sy_registry := r; sy_threads := _; sy_held := _ |} (start_inv s r actions Ha)) as [Hi' Hc'].
    split; [done|]. eapply registry_continues_trans; [apply Ha|exact Hc'].
  - destruct (sy_threads s !! i) as [[|action rest]|] eqn:Ht;
      [apply satisfies_ret; split; [done|apply registry_continues_refl]| |
       apply satisfies_ret; split; [done|apply registry_continues_refl]].
    pose proof (pending_le s i action rest Ht).
    pose proof (act_after action now (sy_registry s) (others s) (pending s - prunesOf action)) as Ha.
    destruct (act iteration action now (sy_registry s)) as [r actions].
    assert (Ha' : After (sy_registry s) (others s) (pending s - prunesOf action) (r, actions)).
    { apply Ha; [|lia]. eapply inv_mono; [exact Hi|done|lia]. }
    destruct (collect_inv {| sy_registry := r; sy_threads := _; sy_held := _ |}
      (resume_inv s i action rest r actions subscribed Ht Ha')) as [Hi' Hc'].
    apply satisfies_ret. split; [exact Hi'|]. eapply registry_continues_trans; [apply Ha'|exact Hc'].
  - apply satisfies_ret. set (s' := {| sy_registry := _ |}).
    assert (Hx : ∀ x, x ∈ others s' ↔ rg_sessions (sy_registry s) !! id = Some x ∨ x ∈ others s).
    { intros x. rewrite !others_elem. cbn. rewrite elem_of_app.
      destruct (rg_sessions (sy_registry s) !! id) as [y|]; cbn;
        [rewrite list_elem_of_singleton|rewrite elem_of_nil]; naive_solver. }
    split; [|apply registry_continues_refl]. split.
    + destruct Hi. split; auto. intros x [Hx'|]%Hx; eauto.
    + intros c Hc. destruct (Hlive c Hc) as (x & Hl & Heq). exists x. split; [|done].
      apply live_snapshot_elem in Hl as [|]; apply live_snapshot_elem; [by left|]. right. apply Hx. by right.
  - apply satisfies_ret. set (s' := {| sy_registry := _ |}).
    apply (collect_inv s'). eapply inv_mono; [exact Hi| |done].
    intros x. rewrite !others_elem. cbn. intros [Hx|?]; [|by right]. left.
    eapply elem_of_sublist; [exact Hx|]. apply sublist_delete.
Qed.

(** ** Reachable systems *)
Definition Good (s s' : System) : Prop := ∃ t now, transitionOk t ∧ transition t now s = Ok s'.

Lemma good_keeps s s' :
  Good s s' → SystemInv s → SystemInv s' ∧ Continues (sy_registry s) (sy_registry s').
Proof using id_inj iteration_perm.
  intros (t & now & Hok & Heq) Hi. pose proof (transition_keeps t now s Hok Hi) as Hs. by rewrite Heq in Hs.
Qed.

Lemma goods_keep s s' :
  rtc Good s s' → SystemInv s → SystemInv s' ∧ Continues (sy_registry s) (sy_registry s').
Proof using id_inj iteration_perm.
  induction 1 as [s|s s1 s2 H1 _ IH]; intros Hi; [split; [done|apply registry_continues_refl]|].
  destruct (good_keeps s s1 H1 Hi) as [Hi1 Hc1]. destruct (IH Hi1) as [Hi2 Hc2].
  split; [done|]. by eapply registry_continues_trans.
Qed.

Lemma initial_inv historyLimit maximumCapturedBytes :
  0 ≤ historyLimit → 0 ≤ maximumCapturedBytes → SystemInv (initial historyLimit maximumCapturedBytes).
Proof.
  intros Hh Hm. split; [split|]; cbn; try done.
  - by intros x ?%elem_of_nil.
  - by intros c [].
  - unfold pending, endedCount. rewrite total_empty. cbn. lia.
  - by intros c [].
Qed.

Lemma reachable_system_inv historyLimit maximumCapturedBytes s :
  0 ≤ historyLimit → 0 ≤ maximumCapturedBytes → rtc Good (initial historyLimit maximumCapturedBytes) s →
  SystemInv s ∧ limits (sy_registry s) = (historyLimit, maximumCapturedBytes).
Proof using id_inj iteration_perm.
  intros Hh Hm Hr. destruct (goods_keep _ _ Hr (initial_inv _ _ Hh Hm)) as [Hi Hc].
  split; [done|]. by rewrite (cs_limits _ _ _ Hc).
Qed.

(** What holds of a system at any time. *)
Record Sound (historyLimit maximumCapturedBytes : Z) (s : System) : Prop := {
  (** The budget counts exactly the buffers in memory, each of which somebody holds. *)
  so_used : bu_usedBytes (rg_budget (sy_registry s)) = total captureBytes (rg_captures (sy_registry s));
  so_held : ∀ c, is_Some (rg_captures (sy_registry s) !! c) ↔ ∃ x, x ∈ live s ∧ sn_capture x = c;
  so_bound : 0 ≤ bu_usedBytes (rg_budget (sy_registry s)) ≤ maximumCapturedBytes;
  (** Sessions do not share a capture. *)
  so_own : ∀ id1 id2 x1 x2, rg_sessions (sy_registry s) !! id1 = Some x1 →
    rg_sessions (sy_registry s) !! id2 = Some x2 → sn_capture x1 = sn_capture x2 → id1 = id2;
  (** The packets of a direction, put together, are its stream. *)
  so_streams : ∀ c v direction, rg_captures (sy_registry s) !! c = Some v →
    (forDirection direction (sc_packets v) ≫= stored (toVec (captured direction v))) =
    toVec (captured direction v);
  (** Only closings that have yet to prune exceed the limit of the history. *)
  so_history : endedCount (rg_sessions (sy_registry s)) ≤ historyLimit + pending s;
}.

Lemma invariant_sound historyLimit maximumCapturedBytes s :
  SystemInv s → limits (sy_registry s) = (historyLimit, maximumCapturedBytes) →
  Sound historyLimit maximumCapturedBytes s.
Proof.
  intros [[Hids Hses Hoth Hfr Hown Hcap Hu Hm Hl Hh] Hlive] [= <- <-]. split; try done.
  - intros c. split; [auto|]. intros (x & [[id Hx]|Hx]%live_snapshot_elem & <-); eauto.
  - split; [|done]. rewrite Hu. apply total_nonneg. intros c v Hv. by apply captureBytes_nonneg, (Hcap c).
  - intros c v direction Hv. destruct (Hcap _ _ Hv) as [Hb _ Ht]. apply tiled_content.
    rewrite <-(bk_length _ (Hb direction)). apply Ht.
Qed.

(** C7: Whatever methods run concurrently on a new registry, and whatever snapshots others
    keep: the captured bytes in memory stay within the budget, which counts exactly the
    buffers somebody still refers to; no two sessions share one; packets tile the streams;
    and only closings under way exceed the limit of the history. *)
Theorem registry_invariant historyLimit maximumCapturedBytes s :
  0 ≤ historyLimit → 0 ≤ maximumCapturedBytes → rtc Good (initial historyLimit maximumCapturedBytes) s →
  Sound historyLimit maximumCapturedBytes s.
Proof using id_inj iteration_perm.
  intros Hh Hm Hr. destruct (reachable_system_inv _ _ _ Hh Hm Hr). by apply invariant_sound.
Qed.

(** Every critical section of every method, run on any reachable registry, ends without
    panic and leaves a registry that is sound again. *)
Theorem registry_total historyLimit maximumCapturedBytes s t now :
  0 ≤ historyLimit → 0 ≤ maximumCapturedBytes → rtc Good (initial historyLimit maximumCapturedBytes) s →
  transitionOk t → ∃ s', transition t now s = Ok s' ∧ Sound historyLimit maximumCapturedBytes s'.
Proof using id_inj iteration_perm.
  intros Hh Hm Hr Hok. destruct (reachable_system_inv _ _ _ Hh Hm Hr) as [Hi Hl].
  pose proof (transition_keeps t now s Hok Hi) as Hs. destruct (transition t now s) as [s'| |]; [|done..].
  destruct Hs as [Hi' Hc]. exists s'. split; [done|]. apply invariant_sound; [done|].
  by rewrite (cs_limits _ _ _ Hc).
Qed.

(** ** Cleared sessions *)
Lemma mute_empty c direction :
  CaptureOk c → mute c →
  toVec (captured direction c) = [] ∧ forDirection direction (sc_packets c) = [].
Proof.
  intros [Hb _ Ht] Hm. pose proof (bk_unbudgeted _ (Hb direction) (Hm direction)) as Hch.
  assert (Hv : toVec (captured direction c) = []) by (unfold toVec; by rewrite Hch).
  split; [done|]. specialize (Ht direction). rewrite (bk_length _ (Hb direction)), Hv in Ht. unfold Tiled in Ht.
  destruct (forDirection direction (sc_packets c)) as [|p ps]; [done|]. exfalso.
  cbn [fold_left] in Ht. unfold tile at 2 in Ht. cbn [mbind option_bind] in Ht.
  destruct ((cp_storedOffsetBytes p =? 0) && (cp_sequence p =? 1) && (0 <? cp_storedBytes p)
     && (cp_storedBytes p <=? cp_originalBytes p)) eqn:Hp.
  - apply andb_true_iff in Hp as [[_ Hpos%Z.ltb_lt]%andb_true_iff _].
    destruct (tile_content [] ps (0 + cp_storedBytes p) _ _ _ ltac:(lia) Ht) as [Hle _].
    unfold len in Hle. cbn [length] in Hle. lia.
  - clear -Ht. induction ps; cbn in Ht; [done|auto].
Qed.

(** The sessions of the registry when its captures are cleared hold nothing afterwards,
    whatever is forwarded, updated or closed later: their streams and packets stay empty. *)
Theorem cleared_sessions_silent historyLimit maximumCapturedBytes s s1 s2 now id x :
  0 ≤ historyLimit → 0 ≤ maximumCapturedBytes → rtc Good (initial historyLimit maximumCapturedBytes) s →
  transition (Start ClearCapturedBytes) now s = Ok s1 → rtc Good s1 s2 →
  is_Some (rg_sessions (sy_registry s) !! id) → rg_sessions (sy_registry s2) !! id = Some x →
  ∃ c, rg_captures (sy_registry s2) !! sn_capture x = Some c ∧
    ∀ direction, toVec (captured direction c) = [] ∧ forDirection direction (sc_packets c) = [].
Proof using id_inj iteration_perm.
  intros Hh Hm Hr Ht Hr2 Hid Hx. destruct (reachable_system_inv _ _ _ Hh Hm Hr) as [Hi _].
  pose proof (transition_keeps (Start ClearCapturedBytes) now s I Hi) as Hs1. rewrite Ht in Hs1.
  destruct Hs1 as [Hi1 Hc1]. destruct (goods_keep _ _ Hr2 Hi1) as [Hi2 Hc2].
  assert (Hdrawn : drawn new_session_id (sy_registry s) id).
  { destruct Hid as [y Hy]. apply (ri_ids _ _ _ _ (si_registry _ Hi) _ _ Hy). }
  assert (Hs1 : Silent id (sy_registry s1)).
  { destruct (clearCaptured_after new_session_id iteration iteration_perm (sy_registry s) _ _ (si_registry _ Hi))
      as [Ha Hsil].
    cbn [transition call mbind outcome_bind] in Ht. injection Ht as <-.
    destruct (collect_inv {| sy_registry := _; sy_threads := _; sy_held := _ |}
      (start_inv s (clearCapturedBytes iteration (sy_registry s)) [] Ha)) as [_ Hc].
    apply (cs_silent _ _ _ Hc id); [|by apply Hsil].
    eapply drawn_mono; [apply (cs_uuids _ _ _ (af_continues _ _ _ _ _ Ha))|done]. }
  assert (Hs2 : Silent id (sy_registry s2)).
  { apply (cs_silent _ _ _ Hc2 id); [|done]. eapply drawn_mono; [apply Hc1|done]. }
  destruct (ri_sessions _ _ _ _ (si_registry _ Hi2) _ _ Hx) as [c Hc]. exists c. split; [done|].
  intros direction. apply mute_empty; [by eapply (ri_captures _ _ _ _ (si_registry _ Hi2))|by eapply Hs2].
Qed.

(** ** Traffic *)
(** The registry after a payload refers to everything it referred to. *)
Lemma traffic_collects_nothing s id x x' c' b' actions :
  SystemInv s → rg_sessions (sy_registry s) !! id = Some x → sn_capture x' = sn_capture x →
  let r := set_captures (<[sn_capture x := c']> (rg_captures (sy_registry s))) b'
             (set_sessions (<[id := x']> (rg_sessions (sy_registry s))) (sy_registry s)) in
  let s1 := {| sy_registry := r; sy_threads := sy_threads s ++ [actions]; sy_held := sy_held s |} in
  sn_capture x ∈ held s1 ∧ rg_budget (sy_registry (collect s1)) = b'.
Proof.
  intros [_ Hlive] Hx Hcap r s1.
  assert (Hheld : sn_capture x ∈ held s1).
  { apply held_elem. exists x'. split; [|done]. apply live_snapshot_elem. left. exists id. subst s1 r. cbn.
    by rewrite lookup_insert_eq. }
  split; [done|]. rewrite collect_budget; [done|]. intros d Hd. apply held_elem.
  subst s1 r. cbn in Hd. apply lookup_insert_is_Some in Hd as [<-|[_ Hd]]; [by apply held_elem in Hheld|].
  destruct (Hlive d Hd) as (y & [[id' Hy]|Hy]%live_snapshot_elem & <-).
  - destruct (decide (id = id')) as [<-|Hne'].
    + simplify_eq. by apply held_elem in Hheld.
    + exists y. split; [|done]. apply live_snapshot_elem. left. exists id'. cbn. by rewrite lookup_insert_ne.
  - exists y. split; [|done]. apply live_snapshot_elem. right. apply others_elem.
    apply others_elem in Hy as [Hy|(t & Ht & Hy)]; [by left|].
    right. exists t. split; [|done]. cbn. apply elem_of_app. by left.
Qed.

(** A thread that has nothing to do and a registry as it was: nothing is collected. *)
Lemma idle_collects_nothing s actions :
  SystemInv s → shown actions = [] →
  sy_registry (collect {| sy_registry := sy_registry s; sy_threads := sy_threads s ++ [actions]; sy_held := sy_held s |})
  = sy_registry s.
Proof.
  intros [_ Hlive] Hshown. set (s1 := {| sy_registry := sy_registry s |}).
  assert (Hall : ∀ c, is_Some (rg_captures (sy_registry s1) !! c) → c ∈ held s1).
  { intros c Hc. destruct (Hlive c Hc) as (x & Hx & <-). apply held_elem. exists x. split; [|done].
    apply live_snapshot_elem in Hx. apply live_snapshot_elem. destruct Hx as [Hx|Hx]; [by left|right].
    apply others_elem in Hx. apply others_elem. cbn. destruct Hx as [Hx|(t & Ht & Hx)]; [by left|right].
    exists t. split; [|done]. apply elem_of_app. by left. }
  pose proof (collect_budget s1 Hall) as Hbudget.
  assert (Hcap : rg_captures (sy_registry (collect s1)) = rg_captures (sy_registry s)).
  { apply map_eq. intros c. destruct (rg_captures (sy_registry s) !! c) as [v|] eqn:Hc.
    - rewrite collect_kept; [done|]. apply Hall. by exists v.
    - rewrite collect_lookup. case_decide; done. }
  destruct s as [r threads hs]. unfold collect in *. subst s1. cbn -[live] in Hbudget, Hcap |- *.
  unfold set_captures in *. cbn -[live] in Hbudget, Hcap. rewrite Hbudget, Hcap. by destruct r.
Qed.

(** C36: A payload forwarded for a session that is active: its bytes are counted for its
    direction, and appended to the stream of this direction as one packet with changes from
    which the payload before the plugins is found again; the other direction is untouched.
    Appended are all the bytes (up to the largest length of a buffer, [usize_max]) as long as
    the budget of the registry lasts and then a prefix; none, and no packet, if the captured
    bytes of the session were cleared or released.  An empty payload, or one of a session the
    registry no longer has, changes nothing.  (For a session that has
    ended but is still in the history see [closed_session_still_records].) *)
Theorem traffic_recorded historyLimit maximumCapturedBytes s now id direction original payload :
  0 ≤ historyLimit → 0 ≤ maximumCapturedBytes → rtc Good (initial historyLimit maximumCapturedBytes) s →
  (is_empty payload = true ∨ rg_sessions (sy_registry s) !! id = None →
   ∃ s', transition (Start (Traffic id direction original payload)) now s = Ok s' ∧
     sy_registry s' = sy_registry s ∧ sy_threads s' = sy_threads s ++ [[]]) ∧
  ∀ x, is_empty payload = false → rg_sessions (sy_registry s) !! id = Some x → isEnded x = false →
  ∃ s' c c' n modifications, transition (Start (Traffic id direction original payload)) now s = Ok s' ∧
    rg_sessions (sy_registry s') = <[id := counted direction (len payload) now x]> (rg_sessions (sy_registry s)) ∧
    sy_threads s' = sy_threads s ++ [[CountTraffic direction (len payload);
                      Publish (lit "sessionTraffic") (counted direction (len payload) now x)]] ∧
    rg_captures (sy_registry s) !! sn_capture x = Some c ∧
    rg_captures (sy_registry s') !! sn_capture x = Some c' ∧
    Reversible original payload modifications ∧
    Recorded direction payload modifications now c c' (rg_budget (sy_registry s')) n.
Proof using id_inj iteration_perm.
  intros Hh Hm Hr. destruct (reachable_system_inv _ _ _ Hh Hm Hr) as [Hsys _]. pose proof Hsys as [Hi _].
  split.
  - intros Hignored. cbn [transition call].
    assert (addModifiedTraffic id direction original payload now (sy_registry s) = Ok (sy_registry s, [])) as ->.
    { unfold addModifiedTraffic. destruct (is_empty payload) eqn:He; [done|]. destruct Hignored as [?|Hx]; [done|].
      pose proof (derive_reversible original payload) as Hd.
      destruct (deriveWireByteModifications original payload) as [modifications| |]; [|done..].
      cbn [mbind outcome_bind]. by rewrite Hx. }
    cbn [mbind outcome_bind]. eexists. split; [done|]. split; [by apply idle_collects_nothing|done].
  - intros x Hne Hx _. destruct (ri_sessions _ _ _ _ Hi _ _ Hx) as [c Hc].
    pose proof (traffic_result new_session_id _ _ _ id direction original payload now x c Hi Hne Hx Hc) as Hs.
    cbn [transition call]. destruct (addModifiedTraffic id direction original payload now (sy_registry s))
      as [[r actions]| |]; [|done..]. cbn [mbind outcome_bind].
    destruct Hs as (c' & b' & Htr). pose proof Htr as [Heq _ _ _ _ (n & modifications & Hrev & Hrec)].
    injection Heq as Hr' Ha'. set (s1 := {| sy_registry := r |}).
    destruct (traffic_collects_nothing s id x (counted direction (len payload) now x) c' b' actions) as [Hheld Hsame];
      [done..|]. rewrite <-Hr' in Hheld, Hsame. fold s1 in Hheld, Hsame.
    exists (collect s1), c, c', n, modifications. split_and!; [done|by subst r|by subst actions|done| |done|].
    + rewrite collect_kept by done. subst s1 r. cbn. by rewrite lookup_insert_eq.
    + by rewrite Hsame.
Qed.

(** ** History *)
(** Pruning keeps every active session and removes just as many ended sessions as exceed
    the limit: none of those it removes was closed later than one it keeps. *)
Theorem prune_drops_oldest r :
  0 ≤ rg_historyLimit r →
  let r' := pruneClosed iteration r in
  rg_sessions r' ⊆ rg_sessions r ∧
  endedCount (rg_sessions r') = Z.min (endedCount (rg_sessions r)) (rg_historyLimit r) ∧
  (∀ id x, rg_sessions r !! id = Some x → isEnded x = false → rg_sessions r' !! id = Some x) ∧
  (∀ id x id' x', rg_sessions r !! id = Some x → rg_sessions r' !! id = None →
     rg_sessions r' !! id' = Some x' → isEnded x' = true →
     sn_closedAtMilliseconds x ≤ sn_closedAtMilliseconds x').
Proof using iteration_perm.
  clear dependent new_session_id. intros Hl. by destruct (pruneClosed_pruned iteration iteration_perm r Hl).
Qed.
End system.

(** * Runs of the session registry

    Concrete instances of the parameters, the witnesses of the theorems on the session
    registry, and the run of a closed session that is still recorded. *)

Definition idsEx (n : nat) : chars := [Z.of_nat n].

#[export] Instance idsEx_inj : Inj (=) (=) idsEx.
Proof. intros n m [= ?]. lia. Qed.

Definition iterationEx : gmap chars SessionSnapshot → list (chars * SessionSnapshot) := map_to_list.

Lemma iterationEx_perm m : iterationEx m ≡ₚ map_to_list m.
Proof. done. Qed.

(** One transition after the other, a millisecond apart. *)
Fixpoint runsEx (ts : list Transition) (now : Z) (s : System) : outcome unit System :=
  match ts with
  | [] => Ok s
  | t :: ts => s ← transition idsEx iterationEx t now s; runsEx ts (now + 1) s
  end.

Lemma runsEx_reachable ts now s s' :
  Forall transitionOk ts → runsEx ts now s = Ok s' → rtc (Good idsEx iterationEx) s s'.
Proof.
  intros Hok. revert now s. induction Hok as [|t ts Ht _ IH]; cbn; intros now s; [by intros [= ->]|].
  destruct (transition idsEx iterationEx t now s) as [s1| |] eqn:Heq; [|done..]. cbn. intros Hr.
  eapply rtc_l; [|by eapply IH]. by exists t, now.
Qed.

Definition reachedEx (ts : list Transition) (s : System) : System :=
  match runsEx ts 1000 s with Ok s => s | _ => s end.

Definition startEx : System := initial 1 10000.

(** Two sessions; the first relays a payload a plugin has changed. *)
Definition relayedEx : list Transition :=
  [Start (Create (lit "10.0.0.1:5000")); Start (Create (lit "10.0.0.2:5000")); Resume 0 true; Resume 0 true;
   Start (Traffic (idsEx 0) Up (lit "hallo") (lit "hello"))].

Lemma relayedEx_reachable : rtc (Good idsEx iterationEx) startEx (reachedEx relayedEx startEx).
Proof.
  apply (runsEx_reachable relayedEx 1000); [by repeat constructor|by vm_compute].
Qed.

Lemma registry_invariant_witness : Sound 1 10000 (reachedEx relayedEx startEx).
Proof.
  refine (registry_invariant idsEx iterationEx iterationEx_perm 1 10000 _ _ _ relayedEx_reachable); lia.
Defined.

(** One chunk of the budget is in use. *)
Example relayedEx_used :
  bu_usedBytes (rg_budget (sy_registry (reachedEx relayedEx startEx))) = 4096.
Proof. by vm_compute. Qed.

Lemma registry_total_witness :
  ∃ s', transition idsEx iterationEx (Start (Close (idsEx 0) [])) 1005 (reachedEx relayedEx startEx) = Ok s' ∧
    Sound 1 10000 s'.
Proof.
  refine (registry_total idsEx iterationEx iterationEx_perm 1 10000 _ (Start (Close (idsEx 0) [])) 1005 _ _
    relayedEx_reachable I); lia.
Defined.

Definition snapshotEx (id : chars) (s : System) : option SessionSnapshot := rg_sessions (sy_registry s) !! id.

Definition sessionEx : SessionSnapshot :=
  default (uncaptured 0 {| sn_sessionId := []; sn_clientAddress := []; sn_username := []; sn_command := [];
    sn_targetAddress := []; sn_state := Closed; sn_bytesUp := 0; sn_bytesDown := 0;
    sn_createdAtMilliseconds := 0; sn_updatedAtMilliseconds := 0; sn_closedAtMilliseconds := 0;
    sn_errorMessage := []; sn_applicationProtocol := Undetermined; sn_captureGeneration := 0; sn_capture := 0 |})
    (snapshotEx (idsEx 0) (reachedEx relayedEx startEx)).
Definition captureEx : SessionCapture :=
  default capture_default (rg_captures (sy_registry (reachedEx relayedEx startEx)) !! 0%nat).

Lemma traffic_recorded_witness :
  (∃ s', transition idsEx iterationEx (Start (Traffic (idsEx 9) Down (lit "ok") (lit "okay"))) 1005
      (reachedEx relayedEx startEx) = Ok s' ∧ sy_registry s' = sy_registry (reachedEx relayedEx startEx)) ∧
  ∃ s' c c' n modifications,
    transition idsEx iterationEx (Start (Traffic (idsEx 0) Down (lit "ok") (lit "okay"))) 1005
      (reachedEx relayedEx startEx) = Ok s' ∧
    rg_captures (sy_registry (reachedEx relayedEx startEx)) !! sn_capture sessionEx = Some c ∧
    rg_captures (sy_registry s') !! sn_capture sessionEx = Some c' ∧
    Reversible (lit "ok") (lit "okay") modifications ∧
    Recorded Down (lit "okay") modifications 1005 c c' (rg_budget (sy_registry s')) n.
Proof.
  split.
  - destruct (proj1 (traffic_recorded idsEx iterationEx iterationEx_perm 1 10000 _ 1005 (idsEx 9) Down (lit "ok") (lit "okay")
      ltac:(lia) ltac:(lia) relayedEx_reachable)) as (s' & Ht & Hs & _); [right; by vm_compute|].
    exists s'. split; [exact Ht|exact Hs].
  - destruct (proj2 (traffic_recorded idsEx iterationEx iterationEx_perm 1 10000 _ 1005 (idsEx 0) Down (lit "ok") (lit "okay")
      ltac:(lia) ltac:(lia) relayedEx_reachable) sessionEx) as (s' & c & c' & n & modifications & Ht & _ & _ & Hrest);
      [by vm_compute|by vm_compute|by vm_compute|].
    exists s', c, c', n, modifications. split; [exact Ht|exact Hrest].
Defined.

(** The recorded stream is what was written, and its packet tells what the plugin changed. *)
Example captureEx_content :
  (toVec (sc_up captureEx), (λ p, (cp_storedBytes p, length (cp_modifications p))) <$> forDirection Up (sc_packets captureEx))
  = (lit "hello", [(5, 1%nat)]).
Proof. by vm_compute. Qed.

Definition clearedEx : System := reachedEx [Start ClearCapturedBytes] (reachedEx relayedEx startEx).
Definition afterClearEx : list Transition :=
  [Start (Traffic (idsEx 0) Up (lit "more") (lit "more")); Start (Close (idsEx 0) [])].
Definition closedEx : SessionSnapshot :=
  default sessionEx (snapshotEx (idsEx 0) (reachedEx afterClearEx clearedEx)).

Lemma cleared_sessions_silent_witness :
  ∃ c, rg_captures (sy_registry (reachedEx afterClearEx clearedEx)) !! sn_capture closedEx = Some c ∧
    ∀ direction, toVec (captured direction c) = [] ∧ forDirection direction (sc_packets c) = [].
Proof.
  refine (cleared_sessions_silent idsEx iterationEx iterationEx_perm 1 10000 (reachedEx relayedEx startEx)
    clearedEx (reachedEx afterClearEx clearedEx) 1000 (idsEx 0) closedEx _ _ relayedEx_reachable _ _ _ _);
    [lia|lia|by vm_compute| |by eexists; vm_compute|by vm_compute].
  apply (runsEx_reachable afterClearEx 1000); [by repeat constructor|by vm_compute].
Defined.

(** Both sessions are closed, the first earlier, and neither closing has pruned. *)
Definition bothClosedEx : Registry :=
  sy_registry (reachedEx (relayedEx ++ [Start (Close (idsEx 1) []); Start (Close (idsEx 0) (lit "reset"))]) startEx).

Lemma prune_drops_oldest_witness :
  let r' := pruneClosed iterationEx bothClosedEx in
  rg_sessions r' ⊆ rg_sessions bothClosedEx ∧
  endedCount (rg_sessions r') = Z.min (endedCount (rg_sessions bothClosedEx)) (rg_historyLimit bothClosedEx) ∧
  (∀ id x, rg_sessions bothClosedEx !! id = Some x → isEnded x = false → rg_sessions r' !! id = Some x) ∧
  (∀ id x id' x', rg_sessions bothClosedEx !! id = Some x → rg_sessions r' !! id = None →
     rg_sessions r' !! id' = Some x' → isEnded x' = true →
     sn_closedAtMilliseconds x ≤ sn_closedAtMilliseconds x').
Proof. apply (prune_drops_oldest iterationEx iterationEx_perm bothClosedEx). by vm_compute. Defined.

Example prune_keeps_last :
  (λ id, bool_decide (is_Some (rg_sessions (pruneClosed iterationEx bothClosedEx) !! id))) <$> [idsEx 1; idsEx 0] =
  [false; true].
Proof. by vm_compute. Qed.

(** A session that is closed but still in the history goes on recording and counting: the
    comment of [addModifiedTraffic] says that a payload of an ended session is ignored. *)
Theorem closed_session_still_records :
  (λ s, (sn_state <$> snapshotEx (idsEx 0) s, sn_bytesUp <$> snapshotEx (idsEx 0) s,
         (λ c, toVec (sc_up c)) <$> rg_captures (sy_registry s) !! 0%nat)) <$>
    [reachedEx (relayedEx ++ [Start (Close (idsEx 0) [])]) startEx;
     reachedEx (relayedEx ++ [Start (Close (idsEx 0) []);
       Start (Traffic (idsEx 0) Up (lit "!") (lit "!"))]) startEx] =
  [(Some Closed, Some 5, Some (lit "hello")); (Some Closed, Some 6, Some (lit "hello!"))].
Proof. by vm_compute. Qed.
