(* ===== verification/UdpSpoolModel.v ===== *)
(** * The disk of the UDP recording queue

    Data and disk operations of [Server/Backend/src/udpRecording.rs].  The files of the
    data directory and of its [capture] directory are contents under names; a handle of a
    segment is the name it was opened under, since nothing but the removal of the segment
    ends a name.  Whether the operating system grants an operation is read from
    [kd_answers] (an empty list grants everything); a refused write leaves a prefix.
    What a process that dies in the middle of an operation leaves on the disk is what a
    refusal there leaves.  JSON is a parameter: how a value is printed and parsed. *)

From S2P Require Import Prelude Stateful Text NetAddress CaptureTypes.

(** ** The disk *)
Inductive Directory := DataDirectory | CaptureDirectory.
#[export] Instance Directory_eq_dec : EqDecision Directory.
Proof. solve_decision. Defined.
#[export] Instance Directory_countable : Countable Directory.
Proof.
  refine (inj_countable' (λ d, match d with DataDirectory => true | CaptureDirectory => false end)
            (λ b : bool, if b then DataDirectory else CaptureDirectory) _).
  by intros [].
Defined.

Abbreviation path := (Directory * chars)%type.

Inductive SpoolError :=
| NotFound
| AlreadyExists
| UnexpectedEof
| InvalidInput
| InvalidData
| OtherError
| SpoolClosed
| OverBudget.

Inductive SpoolAnswer := Granted | Refused (written : nat).

Record SpoolDisk := {
  kd_files : gmap path (list Z);
  kd_answers : list SpoolAnswer
}.

Definition set_files (files : gmap path (list Z)) (d : SpoolDisk) : SpoolDisk :=
  {| kd_files := files; kd_answers := kd_answers d |}.

Abbreviation io := (stateful SpoolDisk SpoolError) (only parsing).

Definition next_answer : io SpoolAnswer := λ d,
  ({| kd_files := kd_files d; kd_answers := tail (kd_answers d) |}, Ok (default Granted (head (kd_answers d)))).

Definition granted {A} (m : io A) : io A :=
  a ← next_answer;
  match a with Granted => m | Refused _ => fail OtherError end.

(** [Path::exists], which is taken to tell the truth. *)
Definition exists_path (p : path) : io bool := gets (λ d, bool_decide (is_Some (kd_files d !! p))).

Definition file_content (p : path) : io (list Z) :=
  d ← gets id;
  lift (ok_or (kd_files d !! p) NotFound).

(** [std::fs::read], and what is read through a handle. *)
Definition read_file (p : path) : io (list Z) := granted (file_content p).

(** [OpenOptions] with [create_new], and with [create] and [truncate]. *)
Definition create_new (p : path) : io unit := granted (
  d ← gets id;
  if bool_decide (is_Some (kd_files d !! p)) then fail AlreadyExists
  else modify (λ d, set_files (<[p := []]> (kd_files d)) d)).
Definition create_truncate (p : path) : io unit :=
  granted (modify (λ d, set_files (<[p := []]> (kd_files d)) d)).

(** Bytes written at an offset, within the file or at its end. *)
Definition write_at (offset : Z) (bytes content : list Z) : list Z :=
  take (Z.to_nat offset) content ++ bytes ++ drop (Z.to_nat (offset + len bytes)) content.

Definition put (p : path) (offset : Z) (bytes : list Z) (d : SpoolDisk) : SpoolDisk :=
  set_files (alter (write_at offset bytes) p (kd_files d)) d.

(** [seek] and [write_all]. *)
Definition write_all (p : path) (offset : Z) (bytes : list Z) : io unit :=
  a ← next_answer;
  match a with
  | Granted => modify (put p offset bytes)
  | Refused written => _ ← modify (put p offset (take written bytes)); fail OtherError
  end.

Definition sync_all : io unit := granted (mret tt).

Definition rename (from to : path) : io unit := granted (
  content ← file_content from;
  modify (λ d, set_files (<[to := content]> (delete from (kd_files d))) d)).

Definition remove_file (p : path) : io unit := granted (
  _ ← file_content p;
  modify (λ d, set_files (delete p (kd_files d)) d)).

(** [Path::with_extension], on the last component. *)
Definition with_extension (extension name : chars) : chars :=
  let stem := match split_once 46 (reverse name) with
              | Some (_, stem) => if is_empty stem then name else reverse stem
              | None => name
              end in
  stem ++ lit "." ++ extension.

(** ** Frames *)
Inductive UdpDatagramDirectionWire := WireUp | WireDown.

Record SpoolHeader := {
  hd_sequence : Z;
  hd_recordingProcessGeneration : chars;
  hd_recordingEpoch : Z;
  hd_processId : Z;
  hd_clientAddress : SocketAddr;
  hd_targetAddress : SocketAddr;
  hd_direction : UdpDatagramDirectionWire;
  hd_capturedAtMilliseconds : Z;
  hd_modifications : list UdpDatagramModification
}.

Record PersistedCursor := {
  pc_recordingGeneration : chars;
  pc_segmentId : Z;
  pc_sequence : Z;
  pc_readOffset : Z
}.

Record PersistedRecordingEpochs := {
  pe_clearedEpochs : gmap chars Z;
  pe_sealedGenerations : gset chars
}.

(** A frame, and a frame with the segment that holds it. *)
Abbreviation Frame := (SpoolHeader * list Z)%type.
Abbreviation Logged := (Z * Frame)%type.

(** The JSON printer and parser, and the order in which a directory is listed. *)
Class SpoolEnvironment := {
  header_json : SpoolHeader → list Z;
  parse_header : list Z → option SpoolHeader;
  cursor_json : PersistedCursor → list Z;
  parse_cursor : list Z → option PersistedCursor;
  epochs_json : PersistedRecordingEpochs → list Z;
  parse_epochs : list Z → option PersistedRecordingEpochs;
  read_dir : gmap path (list Z) → Directory → list chars
}.

(** A socket address is printed without the flow information of IPv6. *)
Definition printable (a : SocketAddr) : Prop :=
  match a with SocketAddrV4 _ _ => True | SocketAddrV6 _ _ flowinfo _ => flowinfo = 0 end.

(** What is printed is parsed back, is not empty, and every file is listed once. *)
Class SpoolEnvironmentOk `{E : SpoolEnvironment} : Prop := {
  header_json_parse h :
    printable (hd_clientAddress h) → printable (hd_targetAddress h) → parse_header (header_json h) = Some h;
  header_json_nonempty h : header_json h ≠ [];
  cursor_json_parse c : parse_cursor (cursor_json c) = Some c;
  epochs_json_parse e : parse_epochs (epochs_json e) = Some e;
  read_dir_elem files directory name :
    name ∈ read_dir files directory ↔ is_Some (files !! (directory, name));
  read_dir_NoDup files directory : NoDup (read_dir files directory)
}.

Definition frameLengthBytes : Z := 8.
Definition maximumSpoolBytes : Z := 2 * 1024 * 1024 * 1024.
Definition maximumSegmentBytes : Z := 64 * 1024 * 1024.
Definition maximumHeaderBytes : Z := 1024 * 1024.
Definition maximumPayloadBytes : Z := 65535.

(** [u32::to_le_bytes] and [u32::from_le_bytes]. *)
Definition to_le_bytes (v : Z) : list Z := reverse (be_bytes 4 v).
Definition from_le_bytes (bytes : list Z) : Z := be_value (reverse bytes).

Definition validateFrameLengths (headerLength payloadLength : Z) : outcome SpoolError unit :=
  if (headerLength =? 0) || (maximumHeaderBytes <? headerLength) then Err InvalidData
  else if maximumPayloadBytes <? payloadLength then Err InvalidData
  else Ok tt.

(** [seek] and [read_exact] on a file with this content. *)
Definition read_exact (content : list Z) (offset count : Z) : outcome SpoolError (list Z) :=
  ok_or (get_range content offset (offset + count)) UnexpectedEof.

Definition readU32 (content : list Z) (offset : Z) : outcome SpoolError Z :=
  bytes ← read_exact content offset 4;
  Ok (from_le_bytes bytes).

Definition checked_end (offset headerLength payloadLength : Z) : outcome SpoolError Z :=
  ok_or (a ← checked_add offset frameLengthBytes; b ← checked_add a headerLength; checked_add b payloadLength)
    InvalidData.

(** A frame that is appended. *)
Definition frame (headerBytes payload : list Z) : list Z :=
  to_le_bytes (len headerBytes) ++ to_le_bytes (len payload) ++ headerBytes ++ payload.

Section frames.
Context `{SpoolEnvironment}.

(** The frame at an offset, as [readNext] reads it, and where it ends. *)
Definition readFrame (content : list Z) (offset : Z) : outcome SpoolError (SpoolHeader * list Z * Z) :=
  headerLength ← readU32 content offset;
  payloadLength ← readU32 content (offset + 4);
  _ ← validateFrameLengths headerLength payloadLength;
  headerBytes ← read_exact content (offset + 8) headerLength;
  header ← ok_or (parse_header headerBytes) InvalidData;
  payload ← read_exact content (offset + 8 + headerLength) payloadLength;
  endOffset ← checked_end offset headerLength payloadLength;
  Ok (header, payload, endOffset).

Fixpoint scanLoop (fuel : nat) (content : list Z) (offset nextSequence : Z) (generations : gset chars)
    : outcome SpoolError (Z * Z * gset chars) :=
  match fuel with
  | O => Panic
  | S fuel =>
      if offset <? len content then
        if len content - offset <? frameLengthBytes then Err InvalidData
        else
          headerLength ← readU32 content offset;
          payloadLength ← readU32 content (offset + 4);
          _ ← validateFrameLengths headerLength payloadLength;
          endOffset ← checked_end offset headerLength payloadLength;
          if len content <? endOffset then Err InvalidData
          else
            headerBytes ← read_exact content (offset + 8) headerLength;
            header ← ok_or (parse_header headerBytes) InvalidData;
            let generations :=
              if is_empty (hd_recordingProcessGeneration header) then generations
              else {[hd_recordingProcessGeneration header]} ∪ generations in
            nextSequence ← ok_or (checked_add (hd_sequence header) 1) InvalidData;
            scanLoop fuel content endOffset nextSequence generations
      else Ok (len content, nextSequence, generations)
  end.

Definition scanExistingFrames (content : list Z) : outcome SpoolError (Z * Z * gset chars) :=
  scanLoop (S (length content)) content 0 1 ∅.

Fixpoint boundaryLoop (fuel : nat) (content : list Z) (readOffset offset : Z) (sequence : option Z)
    : outcome SpoolError (Z * option Z) :=
  match fuel with
  | O => Panic
  | S fuel =>
      if offset <? readOffset then
        headerLength ← readU32 content offset;
        payloadLength ← readU32 content (offset + 4);
        _ ← validateFrameLengths headerLength payloadLength;
        endOffset ← checked_end offset headerLength payloadLength;
        if readOffset <? endOffset then Err InvalidData
        else
          headerBytes ← read_exact content (offset + 8) headerLength;
          header ← ok_or (parse_header headerBytes) InvalidData;
          boundaryLoop fuel content readOffset endOffset (Some (hd_sequence header))
      else Ok (offset, sequence)
  end.

Definition validateCursorBoundary (content : list Z) (cursor : PersistedCursor) : outcome SpoolError unit :=
  '(offset, sequence) ← boundaryLoop (S (length content)) content (pc_readOffset cursor) 0 None;
  if negb (offset =? pc_readOffset cursor) || negb (bool_decide (sequence = Some (pc_sequence cursor)))
  then Err InvalidData else Ok tt.
End frames.
