(* ===== verification/UdpSpool.v ===== *)
(** * The disk queue of captured UDP datagrams

    Model of [UdpRecordingSpool] of [Server/Backend/src/udpRecording.rs]: segments of
    frames that one thread appends to and one reader consumes, a cursor file per segment,
    recovery after a restart.  A method runs as the code does under its locks; what the
    writer does between two critical sections of the reader is left to the interleaving of
    [UdpSpoolSteps]. *)

From S2P Require Import Prelude Stateful Text NetAddress CaptureTypes UdpSpoolModel.

Definition spoolFilePrefix : chars := lit "udpCapture-".
Definition spoolFileSuffix : chars := lit ".spool".
Definition legacySpoolFileName : chars := lit "udpCapture.spool".

(** The format [{:020}] of a number. *)
Definition padded (n : Z) : chars := repeat 48 (20 - length (decimal n)) ++ decimal n.

Definition segmentPath (segmentId : Z) : path :=
  (CaptureDirectory, spoolFilePrefix ++ padded segmentId ++ spoolFileSuffix).

Definition cursorPathForSegment (p : path) : path := (p.1, with_extension (lit "ack") p.2).

Record SpoolSegment := {
  sg_id : Z;
  sg_path : path;
  sg_cursorPath : path;
  sg_file : option path;
  sg_length : Z;
  sg_readOffset : Z
}.

Record SpoolState := {
  ks_segments : list SpoolSegment;
  ks_nextSegmentId : Z;
  ks_nextSequence : Z;
  ks_pendingBytes : Z;
  ks_closed : bool;
  ks_retiringSegmentId : option Z;
  ks_retirementBlocked : bool;
  ks_processGenerations : gset chars
}.

Record SegmentRetirement := {
  rt_segmentId : Z;
  rt_path : path;
  rt_cursorPath : path;
  rt_file : path
}.

Record CapturedUdpDatagram := {
  cu_event : UdpDatagramEvent;
  cu_recordingProcessGeneration : chars;
  cu_recordingEpoch : Z
}.

Record SpoolEntry := {
  en_sequence : Z;
  en_event : UdpDatagramEvent;
  en_segmentId : Z;
  en_endOffset : Z;
  en_frameBytes : Z;
  en_recordingProcessGeneration : chars;
  en_recordingEpoch : Z
}.

Record SpoolAcknowledgement := {
  ak_sequence : Z;
  ak_segmentId : Z;
  ak_endOffset : Z;
  ak_frameBytes : Z
}.

Definition acknowledgement (e : SpoolEntry) : SpoolAcknowledgement :=
  {| ak_sequence := en_sequence e; ak_segmentId := en_segmentId e; ak_endOffset := en_endOffset e;
     ak_frameBytes := en_frameBytes e |}.

Definition set_segments (v : list SpoolSegment) (s : SpoolState) : SpoolState :=
  {| ks_segments := v; ks_nextSegmentId := ks_nextSegmentId s; ks_nextSequence := ks_nextSequence s;
     ks_pendingBytes := ks_pendingBytes s; ks_closed := ks_closed s;
     ks_retiringSegmentId := ks_retiringSegmentId s; ks_retirementBlocked := ks_retirementBlocked s;
     ks_processGenerations := ks_processGenerations s |}.
Definition set_nextSegmentId (v : Z) (s : SpoolState) : SpoolState :=
  {| ks_segments := ks_segments s; ks_nextSegmentId := v; ks_nextSequence := ks_nextSequence s;
     ks_pendingBytes := ks_pendingBytes s; ks_closed := ks_closed s;
     ks_retiringSegmentId := ks_retiringSegmentId s; ks_retirementBlocked := ks_retirementBlocked s;
     ks_processGenerations := ks_processGenerations s |}.
Definition set_nextSequence (v : Z) (s : SpoolState) : SpoolState :=
  {| ks_segments := ks_segments s; ks_nextSegmentId := ks_nextSegmentId s; ks_nextSequence := v;
     ks_pendingBytes := ks_pendingBytes s; ks_closed := ks_closed s;
     ks_retiringSegmentId := ks_retiringSegmentId s; ks_retirementBlocked := ks_retirementBlocked s;
     ks_processGenerations := ks_processGenerations s |}.
Definition set_pendingBytes (v : Z) (s : SpoolState) : SpoolState :=
  {| ks_segments := ks_segments s; ks_nextSegmentId := ks_nextSegmentId s; ks_nextSequence := ks_nextSequence s;
     ks_pendingBytes := v; ks_closed := ks_closed s;
     ks_retiringSegmentId := ks_retiringSegmentId s; ks_retirementBlocked := ks_retirementBlocked s;
     ks_processGenerations := ks_processGenerations s |}.
Definition set_closed (v : bool) (s : SpoolState) : SpoolState :=
  {| ks_segments := ks_segments s; ks_nextSegmentId := ks_nextSegmentId s; ks_nextSequence := ks_nextSequence s;
     ks_pendingBytes := ks_pendingBytes s; ks_closed := v;
     ks_retiringSegmentId := ks_retiringSegmentId s; ks_retirementBlocked := ks_retirementBlocked s;
     ks_processGenerations := ks_processGenerations s |}.
Definition set_retirement (segmentId : option Z) (blocked : bool) (s : SpoolState) : SpoolState :=
  {| ks_segments := ks_segments s; ks_nextSegmentId := ks_nextSegmentId s; ks_nextSequence := ks_nextSequence s;
     ks_pendingBytes := ks_pendingBytes s; ks_closed := ks_closed s;
     ks_retiringSegmentId := segmentId; ks_retirementBlocked := blocked;
     ks_processGenerations := ks_processGenerations s |}.
Definition set_processGenerations (v : gset chars) (s : SpoolState) : SpoolState :=
  {| ks_segments := ks_segments s; ks_nextSegmentId := ks_nextSegmentId s; ks_nextSequence := ks_nextSequence s;
     ks_pendingBytes := ks_pendingBytes s; ks_closed := ks_closed s;
     ks_retiringSegmentId := ks_retiringSegmentId s; ks_retirementBlocked := ks_retirementBlocked s;
     ks_processGenerations := v |}.

Definition set_file (file : option path) (g : SpoolSegment) : SpoolSegment :=
  {| sg_id := sg_id g; sg_path := sg_path g; sg_cursorPath := sg_cursorPath g; sg_file := file;
     sg_length := sg_length g; sg_readOffset := sg_readOffset g |}.
Definition set_length (v : Z) (g : SpoolSegment) : SpoolSegment :=
  {| sg_id := sg_id g; sg_path := sg_path g; sg_cursorPath := sg_cursorPath g; sg_file := sg_file g;
     sg_length := v; sg_readOffset := sg_readOffset g |}.
Definition set_readOffset (v : Z) (g : SpoolSegment) : SpoolSegment :=
  {| sg_id := sg_id g; sg_path := sg_path g; sg_cursorPath := sg_cursorPath g; sg_file := sg_file g;
     sg_length := sg_length g; sg_readOffset := v |}.

(** [VecDeque::front_mut] and [back_mut]. *)
Definition update_front (f : SpoolSegment → SpoolSegment) (l : list SpoolSegment) : list SpoolSegment :=
  match l with g :: l => f g :: l | [] => [] end.
Fixpoint update_back (f : SpoolSegment → SpoolSegment) (l : list SpoolSegment) : list SpoolSegment :=
  match l with [] => [] | [g] => [f g] | g :: l => g :: update_back f l end.

(** Where [rename] replaces atomically and the directory is synchronised afterwards. *)
Definition replaceFileAtomically (source destination : path) : io unit :=
  _ ← rename source destination;
  sync_all.

(** The bytes go to a temporary file that replaces the other one. *)
Definition writeReplacing (temporaryPath p : path) (bytes : list Z) : io unit :=
  _ ← create_truncate temporaryPath;
  _ ← write_all temporaryPath 0 bytes;
  _ ← sync_all;
  replaceFileAtomically temporaryPath p.

Section spool.
Context `{SpoolEnvironment}.

(** ** Recovery *)
Definition createSegment (segmentId : Z) : io SpoolSegment :=
  let p := segmentPath segmentId in
  _ ← create_new p;
  mret {| sg_id := segmentId; sg_path := p; sg_cursorPath := cursorPathForSegment p; sg_file := Some p;
          sg_length := 0; sg_readOffset := 0 |}.

Definition segmentNumber (suffix name : chars) : option chars :=
  value ← strip_prefix spoolFilePrefix name;
  strip_suffix suffix value.

Definition smallerSegment (a b : Z * path) : Prop := a.1 ≤ b.1.
#[global] Instance smallerSegment_dec : RelDecision smallerSegment.
Proof. intros a b. unfold smallerSegment. apply _. Defined.

Fixpoint discoverLoop (names : list chars) (segments : list (Z * path))
    : outcome SpoolError (list (Z * path)) :=
  match names with
  | [] => Ok segments
  | name :: names =>
      match segmentNumber spoolFileSuffix name with
      | None => discoverLoop names segments
      | Some number =>
          segmentId ← ok_or (from_str_radix 10 u64_max number) InvalidData;
          discoverLoop names (segments ++ [(segmentId, (CaptureDirectory, name))])
      end
  end.

Definition discoverSegmentPaths : io (list (Z * path)) := granted (
  d ← gets id;
  segments ← lift (discoverLoop (read_dir (kd_files d) CaptureDirectory) []);
  mret (merge_sort smallerSegment segments)).

Definition migrateLegacySpool : io unit :=
  let legacyPath := (CaptureDirectory, legacySpoolFileName) in
  present ← exists_path legacyPath;
  if negb present then mret tt
  else
    segmentPaths ← discoverSegmentPaths;
    content ← read_file legacyPath;
    let legacyLength := len content in
    match segmentPaths with
    | [] => rename legacyPath (segmentPath 1)
    | _ => if legacyLength =? 0 then remove_file legacyPath else fail InvalidData
    end.

(** A listed cursor file: its number, and whether it goes in any case. *)
Definition cursorNumber (name : chars) : option (chars * bool) :=
  match segmentNumber (lit ".ack.next") name with
  | Some number => Some (number, true)
  | None => match segmentNumber (lit ".ack") name with Some number => Some (number, false) | None => None end
  end.

Fixpoint cleanupLoop (liveSegmentIds : list Z) (names : list chars) : io unit :=
  match names with
  | [] => mret tt
  | name :: names =>
      match cursorNumber name with
      | None => cleanupLoop liveSegmentIds names
      | Some (number, alwaysRemove) =>
          segmentId ← lift (ok_or (from_str_radix 10 u64_max number) InvalidData);
          _ ← (if alwaysRemove || negb (bool_decide (segmentId ∈ liveSegmentIds))
               then remove_file (CaptureDirectory, name) else mret tt);
          cleanupLoop liveSegmentIds names
      end
  end.

Definition cleanupInterruptedCursorFiles (segmentPaths : list (Z * path)) : io unit :=
  names ← granted (gets (λ d, read_dir (kd_files d) CaptureDirectory));
  cleanupLoop segmentPaths.*1 names.

Definition loadPersistedCursor (content : list Z) (cursorPath : path) (recordingGeneration : chars)
    (segmentId segmentLength : Z) : io Z :=
  present ← exists_path cursorPath;
  if negb present then mret 0
  else
    bytes ← read_file cursorPath;
    cursor ← lift (ok_or (parse_cursor bytes) InvalidData);
    if negb (bool_decide (pc_recordingGeneration cursor = recordingGeneration))
    then _ ← remove_file cursorPath; mret 0
    else if negb (pc_segmentId cursor =? segmentId) || (pc_readOffset cursor =? 0)
            || (segmentLength <? pc_readOffset cursor)
    then fail InvalidData
    else
      _ ← granted (lift (validateCursorBoundary content cursor));
      mret (pc_readOffset cursor).

Definition removeRecoveredSegment (segmentPath cursorPath : path) : io unit :=
  _ ← remove_file segmentPath;
  present ← exists_path cursorPath;
  if (present : bool) then remove_file cursorPath else mret tt.

(** What the loop of [createWithSegmentRemover] has gathered. *)
Record Recovery := {
  rv_segments : list SpoolSegment;
  rv_pendingBytes : Z;
  rv_nextSequence : Z;
  rv_nextSegmentId : Z;
  rv_processGenerations : gset chars
}.

Definition recoverSegment (recordingGeneration : chars) (segmentId : Z) (p : path) (v : Recovery)
    : io Recovery :=
  content ← read_file p;
  '(length, recoveredNextSequence, segmentGenerations) ← granted (lift (scanExistingFrames content));
  let cursorPath := cursorPathForSegment p in
  readOffset ← loadPersistedCursor content cursorPath recordingGeneration segmentId length;
  pendingBytes ← lift (ok_or (checked_add (rv_pendingBytes v) (length - readOffset)) InvalidData);
  nextSegmentId ← lift (ok_or (checked_add segmentId 1) InvalidData);
  let v := {| rv_segments := rv_segments v; rv_pendingBytes := pendingBytes;
              rv_nextSequence := Z.max (rv_nextSequence v) recoveredNextSequence;
              rv_nextSegmentId := nextSegmentId;
              rv_processGenerations := segmentGenerations ∪ rv_processGenerations v |} in
  if (readOffset =? length) && (0 <? length) then _ ← removeRecoveredSegment p cursorPath; mret v
  else
    mret {| rv_segments := rv_segments v ++
              [{| sg_id := segmentId; sg_path := p; sg_cursorPath := cursorPath; sg_file := Some p;
                  sg_length := length; sg_readOffset := readOffset |}];
            rv_pendingBytes := rv_pendingBytes v; rv_nextSequence := rv_nextSequence v;
            rv_nextSegmentId := rv_nextSegmentId v; rv_processGenerations := rv_processGenerations v |}.

Fixpoint recoverLoop (recordingGeneration : chars) (segmentPaths : list (Z * path)) (v : Recovery)
    : io Recovery :=
  match segmentPaths with
  | [] => mret v
  | (segmentId, p) :: segmentPaths =>
      v ← recoverSegment recordingGeneration segmentId p v;
      recoverLoop recordingGeneration segmentPaths v
  end.

Definition createSpool (recordingGeneration : chars) : io SpoolState :=
  if is_empty recordingGeneration then fail InvalidInput
  else
    _ ← granted (mret tt);
    _ ← migrateLegacySpool;
    segmentPaths ← discoverSegmentPaths;
    _ ← cleanupInterruptedCursorFiles segmentPaths;
    v ← recoverLoop recordingGeneration segmentPaths
          {| rv_segments := []; rv_pendingBytes := 0; rv_nextSequence := 1; rv_nextSegmentId := 1;
             rv_processGenerations := ∅ |};
    '(segments, nextSegmentId) ←
      match rv_segments v with
      | [] =>
          segment ← createSegment (rv_nextSegmentId v);
          nextSegmentId ← lift (ok_or (checked_add (rv_nextSegmentId v) 1) InvalidData);
          mret ([segment], nextSegmentId)
      | _ => mret (rv_segments v, rv_nextSegmentId v)
      end;
    mret {| ks_segments := segments; ks_nextSegmentId := nextSegmentId; ks_nextSequence := rv_nextSequence v;
            ks_pendingBytes := rv_pendingBytes v; ks_closed := false; ks_retiringSegmentId := None;
            ks_retirementBlocked := false; ks_processGenerations := rv_processGenerations v |}.

(** ** The writer *)
Record Spool := {
  sp_state : SpoolState;
  sp_disk : SpoolDisk
}.

Definition onSpool := stateful Spool SpoolError.

Definition on_disk {A} (m : io A) : onSpool A := λ s,
  let '(d, r) := m (sp_disk s) in ({| sp_state := sp_state s; sp_disk := d |}, r).
Definition update_state (f : SpoolState → SpoolState) : onSpool unit :=
  modify (λ s, {| sp_state := f (sp_state s); sp_disk := sp_disk s |}).

Definition directionWire (direction : UdpDatagramDirection) : UdpDatagramDirectionWire :=
  match direction with Up => WireUp | Down => WireDown end.
Definition directionOf (direction : UdpDatagramDirectionWire) : UdpDatagramDirection :=
  match direction with WireUp => Up | WireDown => Down end.

Definition headerOf (sequence : Z) (captured : CapturedUdpDatagram) : SpoolHeader :=
  {| hd_sequence := sequence; hd_recordingProcessGeneration := cu_recordingProcessGeneration captured;
     hd_recordingEpoch := cu_recordingEpoch captured; hd_processId := ue_processId (cu_event captured);
     hd_clientAddress := ue_clientAddress (cu_event captured);
     hd_targetAddress := ue_targetAddress (cu_event captured);
     hd_direction := directionWire (ue_direction (cu_event captured));
     hd_capturedAtMilliseconds := ue_capturedAtMilliseconds (cu_event captured);
     hd_modifications := ue_modifications (cu_event captured) |}.

(** The four writes of a frame. *)
Definition writeFrame (p : path) (offset : Z) (headerBytes payload : list Z) : io unit :=
  _ ← write_all p offset (to_le_bytes (len headerBytes));
  _ ← write_all p (offset + 4) (to_le_bytes (len payload));
  _ ← write_all p (offset + 8) headerBytes;
  write_all p (offset + 8 + len headerBytes) payload.

Definition shouldRotate (frameBytes : Z) (segments : list SpoolSegment) : bool :=
  match last segments with
  | Some segment => (0 <? sg_length segment) && (maximumSegmentBytes <? sg_length segment + frameBytes)
  | None => false
  end.

Definition rotate : onSpool unit :=
  segmentId ← gets (λ s, ks_nextSegmentId (sp_state s));
  nextSegmentId ← lift (ok_or (checked_add segmentId 1) OtherError);
  _ ← update_state (set_nextSegmentId nextSegmentId);
  segment ← on_disk (createSegment segmentId);
  update_state (λ s, set_segments (ks_segments s ++ [segment]) s).

Definition appendCapturedEvent (captured : CapturedUdpDatagram) : onSpool unit :=
  s ← gets sp_state;
  if ks_closed s then fail SpoolClosed
  else
    let sequence := ks_nextSequence s in
    followingSequence ← lift (ok_or (checked_add sequence 1) OtherError);
    let header := headerOf sequence captured in
    _ ← update_state (set_processGenerations ({[hd_recordingProcessGeneration header]} ∪ ks_processGenerations s));
    let headerBytes := header_json header in
    let payload := ue_payload (cu_event captured) in
    _ ← lift (check (len headerBytes <=? u32_max) OtherError);
    _ ← lift (check (len payload <=? u32_max) OtherError);
    _ ← lift (validateFrameLengths (len headerBytes) (len payload));
    let frameBytes := frameLengthBytes + len headerBytes + len payload in
    nextPendingBytes ← lift (ok_or (checked_add (ks_pendingBytes s) frameBytes) OtherError);
    if maximumSpoolBytes <? nextPendingBytes then fail OverBudget
    else
      _ ← (if shouldRotate frameBytes (ks_segments s) then rotate else mret tt);
      s ← gets sp_state;
      segment ← lift (expect (last (ks_segments s)));
      let writeOffset := sg_length segment in
      file ← lift (expect (sg_file segment));
      _ ← on_disk (writeFrame file writeOffset headerBytes payload);
      length ← lift (ok_or (checked_add writeOffset frameBytes) OtherError);
      _ ← update_state (λ s, set_segments (update_back (set_length length) (ks_segments s)) s);
      _ ← update_state (set_pendingBytes nextPendingBytes);
      update_state (set_nextSequence followingSequence).

Definition appendEvent (recordingGeneration : chars) (event : UdpDatagramEvent) : onSpool unit :=
  appendCapturedEvent
    {| cu_event := event; cu_recordingProcessGeneration := recordingGeneration; cu_recordingEpoch := 0 |}.

Definition closeSpool : onSpool unit := update_state (set_closed true).

(** ** The reader *)
Definition beginSegmentRetirement : onSpool SegmentRetirement :=
  s ← gets sp_state;
  if bool_decide (is_Some (ks_retiringSegmentId s)) then fail InvalidData
  else
    match ks_segments s with
    | [] => fail InvalidData
    | segment :: _ =>
        file ← lift (ok_or (sg_file segment) InvalidData);
        _ ← update_state (λ s, set_segments (update_front (set_file None) (ks_segments s)) s);
        _ ← update_state (set_retirement (Some (sg_id segment)) false);
        mret {| rt_segmentId := sg_id segment; rt_path := sg_path segment;
                rt_cursorPath := sg_cursorPath segment; rt_file := file |}
    end.

Definition validateRetiringSegment (s : SpoolState) (segmentId : Z) : outcome SpoolError unit :=
  if negb (bool_decide (ks_retiringSegmentId s = Some segmentId))
     || negb (bool_decide (sg_id <$> head (ks_segments s) = Some segmentId))
  then Err InvalidData else Ok tt.

(** The handle that is put back when the segment could not be removed. *)
Definition retireSegmentFiles (r : SegmentRetirement) : stateful SpoolDisk (SpoolError * path) unit := λ d,
  match granted (mret tt) d with
  | (d, Err e) => (d, Err (e, rt_file r))
  | (d, _) =>
      match remove_file (rt_path r) d with
      | (d, Err e) => (d, Err (e, rt_file r))
      | (d, _) => ((remove_file (rt_cursorPath r) d).1, Ok tt)
      end
  end.

Definition finishSegmentRetirement (segmentId : Z) (result : outcome (SpoolError * path) unit)
    : onSpool unit :=
  match result with
  | Ok _ =>
      s ← gets sp_state;
      _ ← lift (validateRetiringSegment s segmentId);
      _ ← update_state (λ s, set_segments (tail (ks_segments s)) s);
      update_state (set_retirement None false)
  | Err (error, recoveryFile) =>
      s ← gets sp_state;
      _ ← lift (validateRetiringSegment s segmentId);
      _ ← lift (expect (head (ks_segments s)));
      _ ← update_state (λ s, set_segments (update_front (set_file (Some recoveryFile)) (ks_segments s)) s);
      _ ← update_state (set_retirement None true);
      fail error
  | Panic => lift Panic
  end.

(** What [readNext] does under the state lock: wait for the writer, end, retire the
    completed front, or return an entry. *)
Inductive ReadNext :=
| Waits
| Nothing
| RetiresFront
| Reads (entry : SpoolEntry).

Definition entryOf (segmentId readOffset : Z) (r : SpoolHeader * list Z * Z) : SpoolEntry :=
  let '(header, payload, endOffset) := r in
  {| en_sequence := hd_sequence header;
     en_recordingProcessGeneration := hd_recordingProcessGeneration header;
     en_recordingEpoch := hd_recordingEpoch header;
     en_event :=
       {| ue_processId := hd_processId header; ue_clientAddress := hd_clientAddress header;
          ue_targetAddress := hd_targetAddress header; ue_direction := directionOf (hd_direction header);
          ue_payload := payload; ue_capturedAtMilliseconds := hd_capturedAtMilliseconds header;
          ue_modifications := hd_modifications header |};
     en_segmentId := segmentId; en_endOffset := endOffset; en_frameBytes := endOffset - readOffset |}.

Definition readNext : onSpool ReadNext :=
  s ← gets sp_state;
  if bool_decide (is_Some (ks_retiringSegmentId s)) then mret Waits
  else
    match ks_segments s with
    | [] => mret Nothing
    | segment :: _ =>
        if sg_readOffset segment =? sg_length segment then
          if ks_retirementBlocked s then mret Nothing
          else if (len (ks_segments s) =? 1) && negb (ks_closed s) then mret Waits
          else mret RetiresFront
        else
          file ← lift (expect (sg_file segment));
          content ← on_disk (read_file file);
          r ← lift (readFrame content (sg_readOffset segment));
          mret (Reads (entryOf (sg_id segment) (sg_readOffset segment) r))
    end.

(** The critical section of [retireCompletedFront]. *)
Definition retireCompletedFront : onSpool (option SegmentRetirement) :=
  s ← gets sp_state;
  if bool_decide (is_Some (ks_retiringSegmentId s)) then mret None
  else
    match ks_segments s with
    | [] => mret None
    | segment :: _ =>
        if negb (sg_readOffset segment =? sg_length segment)
           || ((len (ks_segments s) =? 1) && negb (ks_closed s))
        then mret None
        else r ← beginSegmentRetirement; mret (Some r)
    end.

Definition outOfOrder (a : SpoolAcknowledgement) (segment : SpoolSegment) : bool :=
  negb (sg_id segment =? ak_segmentId a) || (ak_endOffset a <=? sg_readOffset segment)
  || (sg_length segment <? ak_endOffset a).

(** The three phases of [acknowledge]. *)
Definition acknowledgeCheck (a : SpoolAcknowledgement) : onSpool path :=
  s ← gets sp_state;
  match ks_segments s with
  | [] => fail InvalidData
  | segment :: _ => if outOfOrder a segment then fail InvalidData else mret (sg_cursorPath segment)
  end.

Definition persistCursor (p : path) (cursor : PersistedCursor) : io unit :=
  writeReplacing (p.1, with_extension (lit "ack.next") p.2) p (cursor_json cursor).

Definition cursorOf (recordingGeneration : chars) (a : SpoolAcknowledgement) : PersistedCursor :=
  {| pc_recordingGeneration := recordingGeneration; pc_segmentId := ak_segmentId a;
     pc_sequence := ak_sequence a; pc_readOffset := ak_endOffset a |}.

Definition acknowledgeCommit (a : SpoolAcknowledgement) : onSpool (option SegmentRetirement) :=
  s ← gets sp_state;
  match ks_segments s with
  | [] => fail InvalidData
  | segment :: _ =>
      if outOfOrder a segment then fail InvalidData
      else
        _ ← update_state (λ s, set_segments (update_front (set_readOffset (ak_endOffset a)) (ks_segments s)) s);
        let segmentComplete := ak_endOffset a =? sg_length segment in
        _ ← lift (check (ak_frameBytes a <=? ks_pendingBytes s) InvalidData);
        _ ← update_state (set_pendingBytes (ks_pendingBytes s - ak_frameBytes a));
        if segmentComplete && ((1 <? len (ks_segments s)) || ks_closed s)
        then r ← beginSegmentRetirement; mret (Some r)
        else mret None
  end.
End spool.
