(* ===== verification/UdpSpoolFrames.v ===== *)
(** * File names of the UDP recording queue

    Segment, cursor and temporary cursor files of different numbers have different
    names, and recovery reads the number of a file back from its name. *)

From S2P Require Import Prelude NetAddress CaptureTypes Stateful Text UdpSpoolModel UdpSpool.

Definition digit (c : Z) : Prop := 48 ≤ c ≤ 57.
Definition digits (s : chars) : Prop := Forall digit s.
Definition number (s : chars) (acc : Z) : Z := foldl (λ a c, a * 10 + (c - 48)) acc s.

Lemma number_ge s acc : digits s → 0 ≤ acc → acc ≤ number s acc.
Proof.
  intros Hs. revert acc. induction Hs as [|c s Hc _ IH]; intros acc Hacc; cbn; [lia|].
  unfold digit in Hc. specialize (IH (acc * 10 + (c - 48)) ltac:(lia)). unfold number in IH. lia.
Qed.

Lemma to_digit_digit c : digit c → to_digit 10 c = Some (c - 48).
Proof.
  unfold digit, to_digit. intros Hc. rewrite (proj2 (Z.leb_le 48 c)), (proj2 (Z.leb_le c 57)) by lia.
  cbn [andb]. by rewrite (proj2 (Z.ltb_lt _ _)) by lia.
Qed.

Lemma digits_value_number max s acc :
  digits s → 0 ≤ acc → number s acc ≤ max → digits_value 10 max acc s = Some (number s acc).
Proof.
  intros Hs. revert acc. induction Hs as [|c s Hc Hs IH]; intros acc Hacc Hmax; cbn [digits_value]; [done|].
  rewrite to_digit_digit by done. cbn [mbind option_bind]. unfold digit in Hc.
  change (number (c :: s) acc) with (number s (acc * 10 + (c - 48))) in *.
  pose proof (number_ge s (acc * 10 + (c - 48)) Hs ltac:(lia)).
  rewrite (proj2 (Z.leb_le _ _)) by lia. apply IH; lia.
Qed.

Lemma decimal_digits_digits fuel n acc : 0 ≤ n → digits acc → digits (decimal_digits fuel n acc).
Proof.
  revert n acc. induction fuel as [|fuel IH]; intros n acc Hn Hacc; cbn [decimal_digits]; [done|].
  pose proof (Z.mod_pos_bound n 10 ltac:(lia)).
  assert (digits (48 + n mod 10 :: acc)) by (constructor; [unfold digit; lia|done]).
  case_if Hs; [done|]. apply IH; [|done]. apply Z.div_pos; lia.
Qed.

Lemma decimal_digits_length fuel n acc :
  (length (decimal_digits fuel n acc) ≤ fuel + length acc)%nat.
Proof.
  revert n acc. induction fuel as [|fuel IH]; intros n acc; cbn [decimal_digits]; [lia|].
  case_if Hs; [cbn; lia|]. etransitivity; [apply IH|]. cbn. lia.
Qed.

Lemma decimal_number n : is_u64 n → number (decimal n) 0 = n.
Proof.
  intros [Hn0 Hn1]. unfold decimal, number.
  assert (Hmax : u64_max < 10 ^ Z.of_nat 20) by (vm_compute; reflexivity).
  rewrite decimal_digits_value; [done| |lia]. split; [exact Hn0|]. eapply Z.le_lt_trans; [exact Hn1|exact Hmax].
Qed.

Lemma number_zeros k s : number (repeat 48 k ++ s) 0 = number s 0.
Proof. induction k as [|k IH]; [done|]. exact IH. Qed.

Lemma padded_digits n : 0 ≤ n → digits (padded n).
Proof.
  intros Hn. unfold padded. apply Forall_app. split.
  - apply Forall_forall. intros c Hc%list_elem_of_In%repeat_spec. unfold digit. lia.
  - apply decimal_digits_digits; [done|constructor].
Qed.

Lemma padded_length n : length (padded n) = 20%nat.
Proof.
  unfold padded. rewrite length_app, repeat_length.
  pose proof (decimal_digits_length 20 n []). unfold decimal in *. cbn [length] in *. lia.
Qed.

Lemma padded_number n : is_u64 n → number (padded n) 0 = n.
Proof. intros Hn. unfold padded. rewrite number_zeros. by apply decimal_number. Qed.

(** The number of a padded number. *)
Lemma parse_padded n : is_u64 n → from_str_radix 10 u64_max (padded n) = Some n.
Proof.
  intros Hn. pose proof (padded_digits n (proj1 Hn)) as Hd. pose proof (padded_length n) as Hl.
  assert (Hv : digits_value 10 u64_max 0 (padded n) = Some n).
  { rewrite digits_value_number; rewrite ?padded_number by done; [done|done|lia|apply Hn]. }
  unfold from_str_radix. destruct (padded n) as [|c [|c' s]]; [done|done|].
  apply Forall_cons in Hd as [Hc _]. unfold digit in Hc. rewrite (proj2 (Z.eqb_neq c 43)) by lia. exact Hv.
Qed.

Lemma padded_inj m n : is_u64 m → is_u64 n → padded m = padded n → m = n.
Proof. intros Hm Hn Heq. rewrite <-(padded_number m), <-(padded_number n) by done. by rewrite Heq. Qed.

(** ** Names *)
Definition named (suffix : chars) (n : Z) : chars := spoolFilePrefix ++ padded n ++ suffix.

Definition cursorPath (n : Z) : path := (CaptureDirectory, named (lit ".ack") n).
Definition temporaryPath (n : Z) : path := (CaptureDirectory, named (lit ".ack.next") n).

Lemma segmentPath_named n : segmentPath n = (CaptureDirectory, named spoolFileSuffix n).
Proof. done. Qed.

Lemma named_inj suffix m n : is_u64 m → is_u64 n → named suffix m = named suffix n → m = n.
Proof.
  intros Hm Hn Heq. unfold named in Heq. apply app_inv_head, app_inv_tail in Heq. by apply padded_inj.
Qed.

(** The last character of a suffix tells them apart. *)
Lemma named_last suffix c n : last suffix = Some c → last (named suffix n) = Some c.
Proof. intros Hl. unfold named. by rewrite !last_app, Hl. Qed.

Lemma segmentNumber_named suffix n : segmentNumber suffix (named suffix n) = Some (padded n).
Proof.
  unfold segmentNumber, named. rewrite (proj2 (strip_prefix_Some _ _ (padded n ++ suffix)) eq_refl).
  cbn [mbind option_bind]. by apply strip_suffix_Some.
Qed.

Lemma segmentNumber_other suffix c suffix' c' n :
  last suffix = Some c → last suffix' = Some c' → c ≠ c' → segmentNumber suffix (named suffix' n) = None.
Proof.
  intros Hl Hl' Hne. unfold segmentNumber, named.
  rewrite (proj2 (strip_prefix_Some _ _ (padded n ++ suffix')) eq_refl). cbn [mbind option_bind].
  destruct (strip_suffix suffix (padded n ++ suffix')) as [rest|] eqn:Hs; [|done]. exfalso.
  apply strip_suffix_Some in Hs. apply (f_equal last) in Hs. rewrite !last_app, Hl, Hl' in Hs. congruence.
Qed.

(** The extension of a file without a point in its stem. *)
Lemma split_once_skip (c : Z) s t : Forall (λ x, x ≠ c) s → split_once c (s ++ c :: t) = Some (s, t).
Proof.
  induction 1 as [|x s Hx _ IH]; cbn; [by rewrite Z.eqb_refl|].
  rewrite (proj2 (Z.eqb_neq x c)) by done. by rewrite IH.
Qed.

Lemma with_extension_stem extension stem old :
  Forall (λ x, x ≠ 46) old → stem ≠ [] →
  with_extension extension (stem ++ 46 :: old) = stem ++ 46 :: extension.
Proof.
  intros Hold Hstem. unfold with_extension.
  rewrite reverse_app, reverse_cons, <-app_assoc. cbn [app].
  rewrite split_once_skip by by apply Forall_reverse.
  assert (is_empty (reverse stem) = false) as ->.
  { destruct stem as [|x stem] using rev_ind; [done|]. by rewrite reverse_snoc. }
  by rewrite reverse_involutive.
Qed.

Lemma cursorPath_segment n : cursorPathForSegment (segmentPath n) = cursorPath n.
Proof.
  unfold cursorPathForSegment, cursorPath, named. cbn [fst snd segmentPath].
  change spoolFileSuffix with (46 :: lit "spool"). rewrite app_assoc, with_extension_stem; [by rewrite <-app_assoc|..].
  - by repeat constructor.
  - done.
Qed.

Lemma temporaryPath_cursor n : ((cursorPath n).1, with_extension (lit "ack.next") (cursorPath n).2) = temporaryPath n.
Proof.
  unfold cursorPath, temporaryPath, named. cbn [fst snd].
  change (lit ".ack") with (46 :: lit "ack"). rewrite app_assoc, with_extension_stem; [by rewrite <-app_assoc|..].
  - by repeat constructor.
  - done.
Qed.

Lemma segment_cursor_ne m n : segmentPath m ≠ cursorPath n.
Proof.
  intros Heq. apply (f_equal snd), (f_equal last) in Heq.
  rewrite segmentPath_named in Heq. cbn [snd cursorPath] in Heq.
  rewrite (named_last _ 108), (named_last _ 107) in Heq by done. done.
Qed.
Lemma segment_temporary_ne m n : segmentPath m ≠ temporaryPath n.
Proof.
  intros Heq. apply (f_equal snd), (f_equal last) in Heq.
  rewrite segmentPath_named in Heq. cbn [snd temporaryPath] in Heq.
  rewrite (named_last _ 108), (named_last _ 116) in Heq by done. done.
Qed.
Lemma cursor_temporary_ne m n : cursorPath m ≠ temporaryPath n.
Proof.
  intros Heq. apply (f_equal snd), (f_equal last) in Heq. cbn [snd temporaryPath cursorPath] in Heq.
  rewrite (named_last _ 107), (named_last _ 116) in Heq by done. done.
Qed.

Lemma segmentPath_inj m n : is_u64 m → is_u64 n → segmentPath m = segmentPath n → m = n.
Proof. intros Hm Hn Heq. apply (f_equal snd) in Heq. by apply (named_inj spoolFileSuffix). Qed.
Lemma cursorPath_inj m n : is_u64 m → is_u64 n → cursorPath m = cursorPath n → m = n.
Proof. intros Hm Hn Heq. apply (f_equal snd) in Heq. by apply (named_inj (lit ".ack")). Qed.
Lemma temporaryPath_inj m n : is_u64 m → is_u64 n → temporaryPath m = temporaryPath n → m = n.
Proof. intros Hm Hn Heq. apply (f_equal snd) in Heq. by apply (named_inj (lit ".ack.next")). Qed.

(** * Frames of the UDP recording queue

    A segment is a sequence of frames: what is appended is read back at its offset, a
    scan finds the end of a sequence of frames and refuses a torn one, and a cursor at a
    frame boundary is accepted. *)

Lemma from_to_le_bytes v : 0 ≤ v ≤ u32_max → from_le_bytes (to_le_bytes v) = v.
Proof.
  intros Hv. unfold from_le_bytes, to_le_bytes. rewrite reverse_involutive. apply be_value_bytes.
  change (256 ^ Z.of_nat 4) with (u32_max + 1). lia.
Qed.

Lemma len_to_le_bytes v : len (to_le_bytes v) = 4.
Proof. unfold to_le_bytes, len. rewrite length_reverse. apply (len_be_bytes 4 v). Qed.

Lemma length_to_le_bytes v : length (to_le_bytes v) = 4%nat.
Proof. pose proof (len_to_le_bytes v) as Hl. unfold len in Hl. lia. Qed.

Lemma read_exact_middle pre x post offset count :
  offset = len pre → count = len x → read_exact (pre ++ x ++ post) offset count = Ok x.
Proof.
  intros -> ->. unfold read_exact, get_range. pose proof (len_nonneg pre). pose proof (len_nonneg x).
  pose proof (len_nonneg post).
  rewrite (proj2 (in_range_spec _ _ _)) by (rewrite !len_app; lia).
  unfold slice, len. rewrite Z.add_simpl_l, !Nat2Z.id, drop_app_length, take_app_length. done.
Qed.

Lemma readU32_app pre v post offset :
  offset = len pre → 0 ≤ v ≤ u32_max → readU32 (pre ++ to_le_bytes v ++ post) offset = Ok v.
Proof.
  intros -> Hv. unfold readU32. rewrite read_exact_middle by (done || by rewrite len_to_le_bytes).
  cbn [mbind outcome_bind]. by rewrite from_to_le_bytes.
Qed.

Lemma read_exact_short content offset count :
  0 ≤ count → len content < offset + count → read_exact content offset count = Err UnexpectedEof.
Proof.
  intros Hc Hs. unfold read_exact, get_range. destruct (in_range content offset (offset + count)) eqn:Hr; [|done].
  apply in_range_spec in Hr. lia.
Qed.

Section frames.
Context `{SpoolEnvironment} {Hok : SpoolEnvironmentOk}.

Record FrameOk (f : Frame) : Prop := {
  fo_header : len (header_json f.1) ≤ maximumHeaderBytes;
  fo_payload : len f.2 ≤ maximumPayloadBytes;
  fo_client : printable (hd_clientAddress f.1);
  fo_target : printable (hd_targetAddress f.1);
  fo_sequence : 0 ≤ hd_sequence f.1 < u64_max;
}.

Definition frameOf (f : Frame) : list Z := frame (header_json f.1) f.2.
Definition frameLength (f : Frame) : Z := frameLengthBytes + len (header_json f.1) + len f.2.
Definition bytesOf (fs : list Frame) : list Z := fs ≫= frameOf.

Lemma len_frame f : len (frameOf f) = frameLength f.
Proof. unfold frameOf, frame, frameLength, frameLengthBytes. rewrite !len_app, !len_to_le_bytes. lia. Qed.

Lemma header_nonempty h : 0 < len (header_json h).
Proof.
  pose proof (header_json_nonempty h). destruct (header_json h) as [|x l]; [done|].
  rewrite len_cons. pose proof (len_nonneg l). lia.
Qed.

Lemma frameLength_bound f : FrameOk f → 8 < frameLength f ≤ 1114119.
Proof.
  intros [Hh Hp _ _ _]. pose proof (header_nonempty f.1). pose proof (len_nonneg f.2).
  unfold frameLength, frameLengthBytes, maximumHeaderBytes, maximumPayloadBytes in *. lia.
Qed.

Lemma frameLength_nonneg f : 0 ≤ frameLength f.
Proof.
  pose proof (len_nonneg (header_json f.1)). pose proof (len_nonneg f.2).
  unfold frameLength, frameLengthBytes. lia.
Qed.

Lemma bytesOf_app fs1 fs2 : bytesOf (fs1 ++ fs2) = bytesOf fs1 ++ bytesOf fs2.
Proof. apply bind_app. Qed.

Lemma bytesOf_cons f fs : bytesOf (f :: fs) = frameOf f ++ bytesOf fs.
Proof. done. Qed.

Lemma len_bytesOf fs : len (bytesOf fs) = sum_by frameLength fs.
Proof.
  induction fs as [|f fs IH]; [done|]. rewrite bytesOf_cons, len_app, IH, len_frame. done.
Qed.

(** ** The fields of a frame *)
Lemma validate_ok f : FrameOk f → validateFrameLengths (len (header_json f.1)) (len f.2) = Ok tt.
Proof.
  intros [Hh Hp _ _ _]. unfold validateFrameLengths. pose proof (header_nonempty f.1).
  rewrite (proj2 (Z.eqb_neq _ 0)), (proj2 (Z.ltb_ge _ _)) by lia. cbn [orb].
  by rewrite (proj2 (Z.ltb_ge _ _)) by lia.
Qed.

Lemma checked_end_ok offset f :
  0 ≤ offset → offset + frameLength f ≤ u64_max →
  checked_end offset (len (header_json f.1)) (len f.2) = Ok (offset + frameLength f).
Proof.
  intros Ho Hb. pose proof (len_nonneg (header_json f.1)). pose proof (len_nonneg f.2).
  unfold checked_end, checked_add, frameLength, usize_max in *. cbn [mbind option_bind].
  rewrite (proj2 (Z.leb_le _ _)) by lia. cbn [mbind option_bind].
  rewrite (proj2 (Z.leb_le _ _)) by lia. cbn [mbind option_bind].
  rewrite (proj2 (Z.leb_le _ _)) by lia. cbn. f_equal. lia.
Qed.

(** A frame stands at an offset. *)
Record At (content : list Z) (offset : Z) (f : Frame) : Prop := {
  at_header_length : readU32 content offset = Ok (len (header_json f.1));
  at_payload_length : readU32 content (offset + 4) = Ok (len f.2);
  at_header : read_exact content (offset + 8) (len (header_json f.1)) = Ok (header_json f.1);
  at_payload : read_exact content (offset + 8 + len (header_json f.1)) (len f.2) = Ok f.2;
}.

Lemma at_app pre f post : FrameOk f → At (pre ++ frameOf f ++ post) (len pre) f.
Proof.
  intros [Hh Hp _ _ _]. pose proof (len_nonneg (header_json f.1)). pose proof (len_nonneg f.2).
  unfold maximumHeaderBytes, maximumPayloadBytes in *. unfold frameOf, frame.
  split.
  - rewrite <-!app_assoc. apply readU32_app; [done|unfold u32_max; lia].
  - rewrite <-!app_assoc, (app_assoc pre).
    apply readU32_app; rewrite ?len_app, ?len_to_le_bytes; [done|unfold u32_max; lia].
  - rewrite <-!app_assoc, (app_assoc pre), (app_assoc (pre ++ _)).
    apply read_exact_middle; [|done]. rewrite !len_app, !len_to_le_bytes. lia.
  - rewrite <-!app_assoc, (app_assoc pre), (app_assoc (pre ++ _)), (app_assoc ((pre ++ _) ++ _)).
    apply read_exact_middle; [|done]. rewrite !len_app, !len_to_le_bytes. lia.
Qed.

(** What is appended is read back. *)
Lemma readFrame_at content offset f :
  FrameOk f → At content offset f → 0 ≤ offset → offset + frameLength f ≤ u64_max →
  readFrame content offset = Ok (f.1, f.2, offset + frameLength f).
Proof using Hok.
  intros Hf [H1 H2 H3 H4] Ho Hb. unfold readFrame. rewrite H1. cbn [mbind outcome_bind]. rewrite H2.
  cbn [mbind outcome_bind]. rewrite validate_ok by done. cbn [mbind outcome_bind]. rewrite H3.
  cbn [mbind outcome_bind]. rewrite header_json_parse by apply Hf. cbn [ok_or mbind outcome_bind].
  rewrite H4. cbn [mbind outcome_bind]. rewrite checked_end_ok by done. done.
Qed.

(** ** Scans *)
Definition generationsOf (fs : list Frame) (generations : gset chars) : gset chars :=
  foldl (λ generations f, if is_empty (hd_recordingProcessGeneration f.1) then generations
                          else {[hd_recordingProcessGeneration f.1]} ∪ generations) generations fs.
Definition sequenceAfter (fs : list Frame) (next : Z) : Z := foldl (λ _ f, hd_sequence f.1 + 1) next fs.

(** A scan passes whole frames. *)
Lemma scanLoop_skip fuel pre fs rest next generations :
  Forall FrameOk fs → len (pre ++ bytesOf fs ++ rest) ≤ u64_max →
  scanLoop (length fs + fuel) (pre ++ bytesOf fs ++ rest) (len pre) next generations =
  scanLoop fuel (pre ++ bytesOf fs ++ rest) (len (pre ++ bytesOf fs)) (sequenceAfter fs next)
    (generationsOf fs generations).
Proof using Hok.
  intros Hfs. revert pre next generations. induction Hfs as [|f fs Hf Hfs IH]; intros pre next generations Hmax.
  - by rewrite app_nil_r.
  - cbn [scanLoop length Nat.add] in *. rewrite bytesOf_cons, <-!app_assoc in *.
    pose proof (frameLength_bound f Hf) as Hlen. pose proof (len_nonneg (bytesOf fs)). pose proof (len_nonneg pre).
    pose proof (len_nonneg rest). rewrite !len_app, len_frame in *.
    rewrite (proj2 (Z.ltb_lt _ _)) by lia. rewrite (proj2 (Z.ltb_ge _ _)) by (unfold frameLengthBytes; lia).
    destruct (at_app pre f (bytesOf fs ++ rest) Hf) as [Ha1 Ha2 Ha3 _]. rewrite Ha1. cbn [mbind outcome_bind].
    rewrite Ha2. cbn [mbind outcome_bind]. rewrite validate_ok by done. cbn [mbind outcome_bind].
    rewrite checked_end_ok by lia. cbn [mbind outcome_bind].
    rewrite (proj2 (Z.ltb_ge _ _)) by lia. rewrite Ha3. cbn [mbind outcome_bind].
    rewrite header_json_parse by apply Hf. cbn [ok_or mbind outcome_bind]. cbv zeta.
    pose proof (fo_sequence f Hf) as Hseq. unfold checked_add at 1.
    rewrite (proj2 (Z.leb_le _ _)) by (unfold usize_max; lia). cbn [ok_or mbind outcome_bind].
    rewrite (app_assoc pre). replace (len pre + frameLength f) with (len (pre ++ frameOf f)) by (rewrite len_app, len_frame; lia).
    rewrite IH by (rewrite !len_app, len_frame; lia).
    rewrite <-!app_assoc. f_equal. rewrite !len_app, len_frame. lia.
Qed.

Lemma frames_fuel fs rest :
  Forall FrameOk fs → ∃ fuel, S (length (bytesOf fs ++ rest)) = (length fs + S fuel)%nat.
Proof using Hok.
  intros Hfs. enough (length fs ≤ length (bytesOf fs ++ rest))%nat as Hle.
  { exists (length (bytesOf fs ++ rest) - length fs)%nat. lia. }
  rewrite length_app. induction Hfs as [|f fs Hf _ IH]; [cbn; lia|].
  rewrite bytesOf_cons, length_app. pose proof (frameLength_bound f Hf) as Hb. rewrite <-len_frame in Hb.
  unfold len in Hb. cbn [length]. lia.
Qed.

Lemma scan_frames fs :
  Forall FrameOk fs → len (bytesOf fs) ≤ u64_max →
  scanExistingFrames (bytesOf fs) = Ok (len (bytesOf fs), sequenceAfter fs 1, generationsOf fs ∅).
Proof using Hok.
  intros Hfs Hmax. unfold scanExistingFrames. destruct (frames_fuel fs [] Hfs) as [fuel Hfuel].
  rewrite app_nil_r in Hfuel. rewrite Hfuel.
  pose proof (scanLoop_skip (S fuel) [] fs [] 1 ∅ Hfs) as Hskip. cbn [app] in Hskip. rewrite app_nil_r in Hskip.
  change (len []) with 0 in Hskip. rewrite Hskip by done. cbn [scanLoop]. by rewrite Z.ltb_irrefl.
Qed.

(** A torn frame at the end is refused. *)
Lemma scan_torn fs f k :
  Forall FrameOk fs → FrameOk f → (0 < k < length (frameOf f))%nat →
  len (bytesOf fs) + frameLength f ≤ u64_max →
  scanExistingFrames (bytesOf fs ++ take k (frameOf f)) = Err InvalidData.
Proof using Hok.
  intros Hfs Hf Hk Hmax. unfold scanExistingFrames. destruct (frames_fuel fs (take k (frameOf f)) Hfs) as [fuel ->].
  assert (Hlk : len (take k (frameOf f)) = Z.of_nat k) by (unfold len; rewrite length_take; lia).
  pose proof (len_frame f) as Hlf. pose proof (len_nonneg (bytesOf fs)).
  assert (Hkf : Z.of_nat k < frameLength f) by (unfold len in Hlf; lia).
  pose proof (scanLoop_skip (S fuel) [] fs (take k (frameOf f)) 1 ∅ Hfs) as Hskip. cbn [app] in Hskip.
  change (len []) with 0 in Hskip. rewrite Hskip by (rewrite len_app; lia). clear Hskip.
  cbn [scanLoop]. rewrite len_app, Hlk. rewrite (proj2 (Z.ltb_lt _ _)) by lia.
  case_if Hshort; [done|]. apply Z.ltb_ge in Hshort. unfold frameLengthBytes in Hshort.
  pose proof (len_nonneg (header_json f.1)). pose proof (len_nonneg f.2).
  assert (Htake : ∃ t, take k (frameOf f) = to_le_bytes (len (header_json f.1)) ++ to_le_bytes (len f.2) ++ t).
  { unfold frameOf, frame. rewrite take_app_ge, take_app_ge by (rewrite !length_to_le_bytes; lia). eauto. }
  destruct Htake as [t Ht]. destruct Hf as [Hh Hp Hc1 Hc2 Hc3]. unfold maximumHeaderBytes, maximumPayloadBytes in *.
  rewrite Ht, (readU32_app _ _ _ (len (bytesOf fs))) by (done || unfold u32_max; lia). cbn [mbind outcome_bind].
  rewrite (app_assoc (bytesOf fs)), readU32_app
    by (rewrite ?len_app, ?len_to_le_bytes; unfold u32_max; lia). cbn [mbind outcome_bind].
  rewrite validate_ok by by split. cbn [mbind outcome_bind].
  rewrite checked_end_ok by lia. cbn [mbind outcome_bind].
  by rewrite (proj2 (Z.ltb_lt _ _)) by lia.
Qed.

(** ** Cursors *)
Lemma boundaryLoop_frames fuel pre fs rest sequence :
  Forall FrameOk fs → (length fs < fuel)%nat → len (pre ++ bytesOf fs ++ rest) ≤ u64_max →
  boundaryLoop fuel (pre ++ bytesOf fs ++ rest) (len (pre ++ bytesOf fs)) (len pre) sequence =
  Ok (len (pre ++ bytesOf fs), match last fs with Some f => Some (hd_sequence f.1) | None => sequence end).
Proof using Hok.
  intros Hfs. revert fuel pre sequence.
  induction Hfs as [|f fs Hf Hfs IH]; intros fuel pre sequence Hfuel Hmax.
  - destruct fuel as [|fuel]; [cbn in Hfuel; lia|]. cbn [boundaryLoop bytesOf mbind list_bind last].
    rewrite app_nil_r. by rewrite Z.ltb_irrefl.
  - destruct fuel as [|fuel]; [lia|]. cbn [boundaryLoop length] in *. rewrite bytesOf_cons, <-!app_assoc in *.
    pose proof (frameLength_bound f Hf) as Hlen. pose proof (len_nonneg (bytesOf fs)). pose proof (len_nonneg pre).
    pose proof (len_nonneg rest). rewrite !len_app, len_frame in *.
    rewrite (proj2 (Z.ltb_lt _ _)) by lia.
    destruct (at_app pre f (bytesOf fs ++ rest) Hf) as [Ha1 Ha2 Ha3 _]. rewrite Ha1. cbn [mbind outcome_bind].
    rewrite Ha2. cbn [mbind outcome_bind]. rewrite validate_ok by done. cbn [mbind outcome_bind].
    rewrite checked_end_ok by lia. cbn [mbind outcome_bind].
    rewrite (proj2 (Z.ltb_ge _ _)) by lia. rewrite Ha3. cbn [mbind outcome_bind].
    rewrite header_json_parse by apply Hf. cbn [ok_or mbind outcome_bind].
    specialize (IH fuel (pre ++ frameOf f) (Some (hd_sequence f.1))).
    rewrite <-!app_assoc, !len_app, len_frame in IH.
    rewrite IH by lia. f_equal. f_equal. destruct fs as [|f' fs]; [done|].
    change (last (f :: f' :: fs)) with (last (f' :: fs)). by destruct (last (f' :: fs)) eqn:Hl; [|apply last_None in Hl].
Qed.

Lemma cursor_accepted fs rest f cursor :
  Forall FrameOk fs → last fs = Some f → len (bytesOf fs ++ rest) ≤ u64_max →
  pc_readOffset cursor = len (bytesOf fs) → pc_sequence cursor = hd_sequence f.1 →
  validateCursorBoundary (bytesOf fs ++ rest) cursor = Ok tt.
Proof using Hok.
  intros Hfs Hl Hmax Ho Hs. unfold validateCursorBoundary. rewrite Ho.
  destruct (frames_fuel fs rest Hfs) as [fuel Hfuel].
  pose proof (boundaryLoop_frames (S (length (bytesOf fs ++ rest))) [] fs rest None Hfs) as Hb. cbn [app] in Hb.
  change (len []) with 0 in Hb. rewrite Hb by (done || lia). cbn [mbind outcome_bind].
  rewrite Hl, Hs, Z.eqb_refl. by rewrite bool_decide_true.
Qed.
End frames.
