(* ===== verification/UdpSpoolSteps.v ===== *)
(** * The threads of the UDP recording queue, and the log they implement

    The writer thread ([spawnSpoolWriter]) and the reader thread of [startUdpRecording] in
    steps, one critical section or disk operation each; the control process that dies and
    starts again; and the abstract log that all of it is to implement: frames in the order
    they were captured, and how many of them were consumed. *)

From S2P Require Import Prelude NetAddress CaptureTypes Stateful Text UdpSpoolModel UdpSpool UdpSpoolFrames.

(** Where the reader thread is. *)
Inductive ReaderPc :=
| Reading
| RetireLock
| RetireFiles (r : SegmentRetirement)
| RetireDone (segmentId : Z) (result : outcome (SpoolError * path) unit)
| Delivered (e : SpoolEntry)
| AckCheck (a : SpoolAcknowledgement)
| AckPersist (a : SpoolAcknowledgement) (cursor : path)
| AckCommit (a : SpoolAcknowledgement)
| Ended (fault : option SpoolError).

Record Process := {
  pr_state : SpoolState;
  pr_reader : ReaderPc;
  pr_writer : bool
}.

Section steps.
Context `{SpoolEnvironment}.

(** A critical section of the reader, and where it goes on; an error ends the thread. *)
Definition then_goes {A} (m : onSpool A) (next : A → ReaderPc) (s : Spool) : outcome unit (Spool * ReaderPc) :=
  match m s with
  | (s, Ok a) => Ok (s, next a)
  | (s, Err e) => Ok (s, Ended (Some e))
  | (_, Panic) => Panic
  end.

Definition readerStep (recordingGeneration : chars) (pc : ReaderPc) (s : Spool)
    : outcome unit (Spool * ReaderPc) :=
  match pc with
  | Reading =>
      then_goes readNext (λ r, match r with
                               | Waits => Reading
                               | Nothing => Ended None
                               | RetiresFront => RetireLock
                               | Reads e => Delivered e
                               end) s
  | RetireLock =>
      then_goes retireCompletedFront (λ r, match r with Some r => RetireFiles r | None => Reading end) s
  | RetireFiles r =>
      let '(d, result) := retireSegmentFiles r (sp_disk s) in
      Ok ({| sp_state := sp_state s; sp_disk := d |}, RetireDone (rt_segmentId r) result)
  | RetireDone segmentId result => then_goes (finishSegmentRetirement segmentId result) (λ _, Reading) s
  | Delivered e => Ok (s, Delivered e)
  | AckCheck a => then_goes (acknowledgeCheck a) (AckPersist a) s
  | AckPersist a cursor =>
      then_goes (on_disk (persistCursor cursor (cursorOf recordingGeneration a))) (λ _, AckCommit a) s
  | AckCommit a =>
      then_goes (acknowledgeCommit a) (λ r, match r with Some r => RetireFiles r | None => Reading end) s
  | Ended fault => Ok (s, Ended fault)
  end.

(** [sy_process]: the service that runs, if any; [sy_generation] counts the control
    processes. *)
Record System := {
  sy_disk : SpoolDisk;
  sy_generation : nat;
  sy_process : option Process
}.

Context (process_generation : nat → chars).

Inductive Transition :=
| Append (captured : CapturedUdpDatagram)
| CloseWriter
| ReaderMoves
(** The consumer confirms the entry it was handed, or is gone. *)
| ConsumerAcknowledges
| ConsumerQuits
(** The service stops, or dies; the control process dies. *)
| ServiceEnds
| ProcessEnds
| ServiceStarts
(** What the operating system will grant. *)
| Weather (answers : list SpoolAnswer).

Definition spoolOf (s : System) (p : Process) : Spool := {| sp_state := pr_state p; sp_disk := sy_disk s |}.

Definition running (s : System) (sp : Spool) (pc : ReaderPc) (writer : bool) : System :=
  {| sy_disk := sp_disk sp; sy_generation := sy_generation s;
     sy_process := Some {| pr_state := sp_state sp; pr_reader := pc; pr_writer := writer |} |}.

Definition transition (t : Transition) (s : System) : outcome unit System :=
  match t, sy_process s with
  | Append captured, Some p =>
      if pr_writer p then
        match appendCapturedEvent captured (spoolOf s p) with
        | (sp, Ok _) => Ok (running s sp (pr_reader p) true)
        | (sp, Err _) => Ok (running s sp (pr_reader p) false)
        | (_, Panic) => Panic
        end
      else Ok s
  | CloseWriter, Some p => Ok (running s (closeSpool (spoolOf s p)).1 (pr_reader p) false)
  | ReaderMoves, Some p =>
      '(sp, pc) ← readerStep (process_generation (sy_generation s)) (pr_reader p) (spoolOf s p);
      Ok (running s sp pc (pr_writer p))
  | ConsumerAcknowledges, Some p =>
      match pr_reader p with
      | Delivered e => Ok (running s (spoolOf s p) (AckCheck (acknowledgement e)) (pr_writer p))
      | _ => Ok s
      end
  | ConsumerQuits, Some p =>
      match pr_reader p with
      | Delivered e => Ok (running s (spoolOf s p) (Ended (Some OtherError)) (pr_writer p))
      | _ => Ok s
      end
  | ServiceEnds, _ =>
      Ok {| sy_disk := sy_disk s; sy_generation := sy_generation s; sy_process := None |}
  | ProcessEnds, _ =>
      Ok {| sy_disk := sy_disk s; sy_generation := S (sy_generation s); sy_process := None |}
  | ServiceStarts, None =>
      match createSpool (process_generation (sy_generation s)) (sy_disk s) with
      | (d, Ok state) =>
          Ok (running s {| sp_state := state; sp_disk := d |} Reading true)
      | (d, Err _) => Ok {| sy_disk := d; sy_generation := sy_generation s; sy_process := None |}
      | (_, Panic) => Panic
      end
  | Weather answers, _ =>
      Ok {| sy_disk := {| kd_files := kd_files (sy_disk s); kd_answers := answers |};
            sy_generation := sy_generation s; sy_process := sy_process s |}
  | _, _ => Ok s
  end.

Fixpoint transitions (ts : list Transition) (s : System) : outcome unit System :=
  match ts with [] => Ok s | t :: ts => s ← transition t s; transitions ts s end.

(** A first start on an empty directory. *)
Definition emptySystem (answers : list SpoolAnswer) : System :=
  {| sy_disk := {| kd_files := ∅; kd_answers := answers |}; sy_generation := 0; sy_process := None |}.

(** ** The log *)

Record Log := {
  lg_frames : list Logged;
  lg_consumed : nat
}.

(** The frame an event is captured in. *)
Definition capturedFrame (sequence : Z) (captured : CapturedUdpDatagram) : Frame :=
  (headerOf sequence captured, ue_payload (cu_event captured)).

(** What a transition may do to the log. *)
Inductive LogStep : Transition → Log → Log → Prop :=
| log_same t l : LogStep t l l
| log_append captured segmentId sequence l :
    LogStep (Append captured) l
      {| lg_frames := lg_frames l ++ [(segmentId, capturedFrame sequence captured)]; lg_consumed := lg_consumed l |}
| log_consume l : (lg_consumed l < length (lg_frames l))%nat →
    LogStep ReaderMoves l {| lg_frames := lg_frames l; lg_consumed := S (lg_consumed l) |}
(** All bytes of the last frame reached the disk, though its append failed. *)
| log_settle t f l : t = ServiceEnds ∨ t = ProcessEnds →
    LogStep t l {| lg_frames := lg_frames l ++ [f]; lg_consumed := lg_consumed l |}
(** A new control process consumes again what is still on the disk. *)
| log_replay l k : (k ≤ lg_consumed l)%nat →
    LogStep ProcessEnds l {| lg_frames := lg_frames l; lg_consumed := k |}.

Inductive LogRun : list Transition → Log → Log → Prop :=
| log_done l : LogRun [] l l
| log_go t ts l1 l2 l3 : rtc (LogStep t) l1 l2 → LogRun ts l2 l3 → LogRun (t :: ts) l1 l3.
End steps.
