(* ===== verification/UdpSpoolInvariant.v ===== *)
(** * Invariant of the UDP recording queue

    How the files of the capture directory, the state of the queue and the position of
    the reader represent the log, while a service runs and between two services. *)

From S2P Require Import Prelude NetAddress CaptureTypes Stateful Text UdpSpoolModel UdpSpool UdpSpoolFrames UdpSpoolSteps.

(** The number of a segment and its frames. *)
Abbreviation Segment := (Z * list Frame)%type.

Section invariant.
Context `{SpoolEnvironment} {Hok : SpoolEnvironmentOk} (process_generation : nat → chars).

Implicit Types (segs : list Segment) (torn : list Z) (files : gmap path (list Z)).

(** Bytes of a frame whose append did not succeed; it would have fitted. *)
Definition tornFrame segs torn (f : Frame) (k : nat) : Prop :=
  FrameOk f ∧ torn = take k (frameOf f) ∧
  ∀ front id fs, segs = front ++ [(id, fs)] → len (bytesOf fs) + frameLength f ≤ maximumSegmentBytes.

(** The files of the capture directory: one per segment, the last with what a failed
    append has left, and cursors. *)
Record DirOk files segs torn : Prop := {
  dr_names : ∀ name, is_Some (files !! (CaptureDirectory, name)) → ∃ id, is_u64 id ∧
    (name = named spoolFileSuffix id ∨ name = named (lit ".ack") id ∨ name = named (lit ".ack.next") id);
  dr_segments : ∀ id, is_u64 id → is_Some (files !! segmentPath id) → id ∈ segs.*1;
  dr_files : ∀ front id fs, segs = front ++ [(id, fs)] → files !! segmentPath id = Some (bytesOf fs ++ torn);
  dr_earlier : ∀ front id fs rest, segs = front ++ (id, fs) :: rest → rest ≠ [] →
    files !! segmentPath id = Some (bytesOf fs);
  dr_sorted : StronglySorted Z.lt segs.*1;
  dr_ids : Forall is_u64 segs.*1;
  dr_frames : Forall (λ s : Segment, Forall FrameOk s.2) segs;
  dr_sizes : Forall (λ s : Segment, len (bytesOf s.2) ≤ maximumSegmentBytes) segs;
  dr_torn : torn = [] ∨ ∃ f k, tornFrame segs torn f k;
}.

(** The cursor of a segment stands behind its first [k] frames; a cursor another control
    process has left does not count. *)
Definition cursorAt (n : nat) files (id : Z) (fs : list Frame) (k : nat) : Prop :=
  match files !! cursorPath id with
  | None => k = 0%nat
  | Some content => ∃ c m, content = cursor_json c ∧ pc_recordingGeneration c = process_generation m ∧
      ((m < n)%nat ∧ k = 0%nat ∨
       m = n ∧ ∃ f, last (take k fs) = Some f ∧ (k ≤ length fs)%nat ∧ pc_segmentId c = id ∧
         pc_sequence c = hd_sequence f.1 ∧ pc_readOffset c = len (bytesOf (take k fs)))
  end.

(** Only the first segment is consumed in part. *)
Definition cursorsAt (n : nat) files segs (k : nat) : Prop :=
  match segs with
  | [] => k = 0%nat
  | (id, fs) :: rest => cursorAt n files id fs k ∧ Forall (λ s : Segment, cursorAt n files s.1 s.2 0) rest
  end.

Definition frontLength segs : nat := match segs with (_, fs) :: _ => length fs | [] => 0 end.

(** The log: frames of removed segments first. *)
Definition entriesOf (s : Segment) : list Logged := pair s.1 <$> s.2.

Definition logOf (gone : list Logged) segs (k : nat) : Log :=
  {| lg_frames := gone ++ (segs ≫= entriesOf); lg_consumed := length gone + k |}.

(** Between two services. *)
Record Off (n : nat) files segs torn (k : nat) : Prop := {
  of_dir : DirOk files segs torn;
  of_cursors : cursorsAt n files segs k;
  of_front : (k ≤ frontLength segs)%nat;
  of_torn : torn = [] ∨ ∃ f j, tornFrame segs torn f j ∧ (0 < j < length (frameOf f))%nat;
}.

(** While a service runs: the segments in memory, [j] frames of the first one behind the
    read offset. *)
Definition inMemory (file : option path) (offset : Z) (s : Segment) : SpoolSegment :=
  {| sg_id := s.1; sg_path := segmentPath s.1; sg_cursorPath := cursorPath s.1; sg_file := file;
     sg_length := len (bytesOf s.2); sg_readOffset := offset |}.

Definition opened (offset : Z) (s : Segment) : SpoolSegment := inMemory (Some (segmentPath s.1)) offset s.

Definition retiring (pc : ReaderPc) : bool :=
  match pc with RetireFiles _ | RetireDone _ _ => true | _ => false end.

Definition memory (isRetiring : bool) (j : nat) segs : list SpoolSegment :=
  match segs with
  | [] => []
  | s :: rest =>
      inMemory (if isRetiring then None else Some (segmentPath s.1)) (len (bytesOf (take j s.2))) s
      :: (opened 0 <$> rest)
  end.

(** The segments that have a file. *)
Definition onDisk (pc : ReaderPc) segs : list Segment :=
  match pc with RetireDone _ (Ok _) => tail segs | _ => segs end.

Definition sizes segs : Z := sum_by (λ s : Segment, len (bytesOf s.2)) segs.
Definition readBytes segs (j : nat) : Z := match segs with s :: _ => len (bytesOf (take j s.2)) | [] => 0 end.

Definition retirementOf (id : Z) : SegmentRetirement :=
  {| rt_segmentId := id; rt_path := segmentPath id; rt_cursorPath := cursorPath id; rt_file := segmentPath id |}.

(** The entry of the next frame. *)
Definition entryFor (id : Z) (fs : list Frame) (j : nat) (f : Frame) : SpoolEntry :=
  entryOf id (len (bytesOf (take j fs))) (f.1, f.2, len (bytesOf (take (S j) fs))).

(** The frame the consumer was handed or has confirmed. *)
Definition handed segs (j : nat) (a : SpoolAcknowledgement) : Prop :=
  ∃ id fs rest f, segs = (id, fs) :: rest ∧ fs !! j = Some f ∧ a = acknowledgement (entryFor id fs j f).

(** [k]: the durable position. *)
Definition pcOk segs (j k : nat) (writer blocked : bool) (pc : ReaderPc) : Prop :=
  match pc with
  | Reading | RetireLock => k = j ∧ blocked = false
  | RetireFiles r => k = j ∧ ∃ id fs rest, segs = (id, fs) :: rest ∧ j = length fs ∧ r = retirementOf id ∧
      (rest ≠ [] ∨ writer = false)
  | RetireDone id result => k = j ∧ ∃ fs rest, segs = (id, fs) :: rest ∧ j = length fs ∧
      (rest ≠ [] ∨ writer = false) ∧
      match result with Ok _ => True | Err (_, p) => p = segmentPath id | Panic => False end
  | Delivered e => k = j ∧ blocked = false ∧
      ∃ id fs rest f, segs = (id, fs) :: rest ∧ fs !! j = Some f ∧ e = entryFor id fs j f
  | AckCheck a => k = j ∧ blocked = false ∧ handed segs j a
  | AckPersist a p => k = j ∧ blocked = false ∧ handed segs j a ∧ ∀ id fs rest, segs = (id, fs) :: rest → p = cursorPath id
  | AckCommit a => k = S j ∧ blocked = false ∧ handed segs j a
  | Ended fault => (k = j ∨ k = S j) ∧ (fault = None → segs = [] ∧ writer = false)
  end.

Record Run (n : nat) files (st : SpoolState) (pc : ReaderPc) (writer : bool) segs torn (j k : nat) : Prop := {
  ru_dir : DirOk files (onDisk pc segs) torn;
  ru_segments : ks_segments st = memory (retiring pc) j segs;
  ru_retiring : ks_retiringSegmentId st = if retiring pc then fst <$> head segs else None;
  ru_front : (j ≤ frontLength segs)%nat ∧ (k ≤ frontLength segs)%nat;
  ru_pc : pcOk segs j k writer (ks_retirementBlocked st) pc;
  ru_cursors : match pc with
               | RetireDone _ (Ok _) => Forall (λ s : Segment, cursorAt n files s.1 s.2 0) (tail segs)
               | _ => cursorsAt n files segs k
               end;
  ru_next : is_u64 (ks_nextSegmentId st);
  ru_ids : Forall (λ id, id < ks_nextSegmentId st) segs.*1;
  ru_all : StronglySorted Z.lt segs.*1 ∧ Forall is_u64 segs.*1 ∧
    Forall (λ s : Segment, Forall FrameOk s.2) segs ∧
    Forall (λ s : Segment, len (bytesOf s.2) ≤ maximumSegmentBytes) segs;
  ru_old : ∀ id, is_u64 id → is_Some (files !! cursorPath id) → id < ks_nextSegmentId st;
  ru_pending : ks_pendingBytes st = sizes segs - readBytes segs j;
  ru_sequence : 1 ≤ ks_nextSequence st ≤ u64_max;
  ru_closed : ks_closed st = true → writer = false;
  ru_open : writer = true → segs ≠ [] ∧ torn = [];
}.

Definition Represents (s : System) (l : Log) : Prop :=
  ∃ gone segs torn k, l = logOf gone segs k ∧
    match sy_process s with
    | None => Off (sy_generation s) (kd_files (sy_disk s)) segs torn k
    | Some p => ∃ j, Run (sy_generation s) (kd_files (sy_disk s)) (pr_state p) (pr_reader p) (pr_writer p) segs torn j k
    end.
End invariant.

(** * What the disk operations of the UDP recording queue do

    For every answer of the operating system: what an operation leaves when it succeeds
    and when it fails. *)

Implicit Types (d : SpoolDisk) (files : gmap path (list Z)).

Lemma grantedIo_runs {A} (m : stateful SpoolDisk SpoolError A) d (P : A → SpoolDisk → Prop) (Q : SpoolError → SpoolDisk → Prop) :
  (∀ d', kd_files d' = kd_files d → Runs m d' P Q) → (∀ e d', kd_files d' = kd_files d → Q e d') →
  Runs (granted m) d P Q.
Proof.
  intros Hm He. unfold granted. apply runs_bind. unfold next_answer, Runs.
  destruct (default Granted (head (kd_answers d))); [by apply Hm|by apply He].
Qed.

(** The files are as they were. *)
Definition Kept files (d : SpoolDisk) : Prop := kd_files d = files.

Lemma exists_runs p d (P : bool → SpoolDisk → Prop) Q :
  P (bool_decide (is_Some (kd_files d !! p))) d → Runs (exists_path p) d P Q.
Proof. done. Qed.

Lemma content_runs p d (P : list Z → SpoolDisk → Prop) Q :
  (∀ content, kd_files d !! p = Some content → P content d) → (∀ e, Q e d) → Runs (file_content p) d P Q.
Proof.
  intros HP HQ. unfold file_content. apply runs_bind, runs_gets, runs_lift. cbn [id].
  destruct (kd_files d !! p) as [content|] eqn:Hp; cbn; [by apply HP|apply HQ].
Qed.

Lemma readFile_runs p d (P : list Z → SpoolDisk → Prop) (Q : SpoolError → SpoolDisk → Prop) :
  (∀ content d', kd_files d !! p = Some content → Kept (kd_files d) d' → P content d') →
  (∀ e d', Kept (kd_files d) d' → Q e d') → Runs (read_file p) d P Q.
Proof.
  intros HP HQ. apply grantedIo_runs; [|done]. intros d' Heq. apply content_runs; [|by intros e; apply HQ].
  intros content Hc. apply HP; [by rewrite <-Heq|done].
Qed.

Lemma createFile_runs p d :
  Runs (create_new p) d (λ _ d', kd_files d !! p = None ∧ kd_files d' = <[p := []]> (kd_files d))
    (λ _ d', Kept (kd_files d) d').
Proof.
  apply grantedIo_runs; [|done]. intros d' Heq. apply runs_bind, runs_gets. cbn [id]. case_bool_decide as Hs.
  - by apply runs_fail.
  - apply runs_modify. cbn. rewrite <-Heq. split; [by apply eq_None_not_Some|done].
Qed.

Lemma create_truncate_runs p d :
  Runs (create_truncate p) d (λ _ d', kd_files d' = <[p := []]> (kd_files d)) (λ _ d', Kept (kd_files d) d').
Proof. apply grantedIo_runs; [|done]. intros d' Heq. apply runs_modify. cbn. by rewrite Heq. Qed.

Definition written (p : path) (offset : Z) (bytes : list Z) files : gmap path (list Z) :=
  alter (write_at offset bytes) p files.

Lemma writeAll_runs p offset bytes d :
  Runs (write_all p offset bytes) d (λ _ d', kd_files d' = written p offset bytes (kd_files d))
    (λ _ d', ∃ k, kd_files d' = written p offset (take k bytes) (kd_files d)).
Proof.
  unfold write_all. apply runs_bind. unfold next_answer, Runs at 1.
  destruct (default Granted (head (kd_answers d))) as [|k]; [by apply runs_modify|].
  apply runs_bind, runs_modify, runs_fail. by exists k.
Qed.

Lemma sync_runs d : Runs sync_all d (λ _ d', Kept (kd_files d) d') (λ _ d', Kept (kd_files d) d').
Proof. apply grantedIo_runs; [|done]. intros d' Heq. by apply runs_ret. Qed.

Lemma renameFile_runs from to d :
  Runs (rename from to) d
    (λ _ d', ∃ content, kd_files d !! from = Some content ∧
       kd_files d' = <[to := content]> (delete from (kd_files d)))
    (λ _ d', Kept (kd_files d) d').
Proof.
  apply grantedIo_runs; [|done]. intros d' Heq. apply runs_bind, content_runs; [|done].
  intros content Hc. apply runs_modify. exists content. cbn. by rewrite <-Heq.
Qed.

Lemma removeFile_runs p d :
  Runs (remove_file p) d (λ _ d', is_Some (kd_files d !! p) ∧ kd_files d' = delete p (kd_files d))
    (λ _ d', Kept (kd_files d) d').
Proof.
  apply grantedIo_runs; [|done]. intros d' Heq. apply runs_bind, content_runs; [|done].
  intros content Hc. apply runs_modify. cbn. rewrite <-Heq. by split; [exists content|].
Qed.

(** ** A frame is written *)
Lemma write_at_end content bytes : write_at (len content) bytes content = content ++ bytes.
Proof.
  unfold write_at. pose proof (len_nonneg bytes). unfold len.
  rewrite Nat2Z.id, take_ge by lia. rewrite drop_ge by lia. by rewrite app_nil_r.
Qed.

Lemma written_lookup p offset bytes files content :
  files !! p = Some content → offset = len content →
  written p offset bytes files = <[p := content ++ bytes]> files.
Proof.
  intros Hc ->. unfold written. rewrite <-(insert_id files p content Hc) at 1. rewrite alter_insert_eq.
  by rewrite write_at_end.
Qed.

Section frame.
Context `{SpoolEnvironment}.

Lemma prefix_take {A} (k : nat) (x y z : list A) : ∃ j, x ++ take k y = take j (x ++ y ++ z).
Proof.
  exists (length x + (k `min` length y))%nat. rewrite take_app_add. f_equal.
  rewrite take_app_le by lia. rewrite <-(firstn_all y) at 1. by rewrite take_take.
Qed.

(** A frame is appended whole or, when the writing fails, in part. *)
Lemma writeFrame_runs p content headerBytes payload d :
  kd_files d !! p = Some content →
  Runs (writeFrame p (len content) headerBytes payload) d
    (λ _ d', kd_files d' = <[p := content ++ frame headerBytes payload]> (kd_files d))
    (λ _ d', ∃ k, kd_files d' = <[p := content ++ take k (frame headerBytes payload)]> (kd_files d)).
Proof.
  intros Hc.
  assert (Hstep : ∀ done todo rest d', kd_files d' = <[p := content ++ done]> (kd_files d) →
      frame headerBytes payload = done ++ todo ++ rest →
      Runs (write_all p (len content + len done) todo) d'
        (λ _ d'', kd_files d'' = <[p := content ++ done ++ todo]> (kd_files d))
        (λ _ d'', ∃ k, kd_files d'' = <[p := content ++ take k (frame headerBytes payload)]> (kd_files d))).
  { intros prev todo rest d' Hd' Hframe.
    assert (Hl : kd_files d' !! p = Some (content ++ prev)) by (rewrite Hd'; apply lookup_insert_eq).
    eapply runs_mono, writeAll_runs; cbn beta.
    - intros _ d'' ->. rewrite (written_lookup _ _ _ _ _ Hl) by by rewrite len_app.
      rewrite Hd', insert_insert_eq. by rewrite <-app_assoc.
    - intros _ d'' [k ->]. rewrite (written_lookup _ _ _ _ _ Hl) by by rewrite len_app.
      rewrite Hd', insert_insert_eq, <-app_assoc. destruct (prefix_take k prev todo rest) as [i Hi].
      exists i. by rewrite Hframe, Hi. }
  unfold writeFrame.
  set (a := to_le_bytes (len headerBytes)) in *. set (b := to_le_bytes (len payload)) in *.
  assert (Ha : len a = 4) by apply len_to_le_bytes. assert (Hb : len b = 4) by apply len_to_le_bytes.
  pose proof (Hstep [] a (b ++ headerBytes ++ payload) d) as Hfirst. rewrite Z.add_0_r, app_nil_r in Hfirst.
  apply runs_bind. eapply runs_mono, Hfirst; cbn beta; [|done|by rewrite insert_id|done].
  intros _ d1 Hd1. cbn [app] in Hd1. apply runs_bind.
  replace (len content + 4) with (len content + len a) by lia.
  eapply runs_mono, (Hstep a b (headerBytes ++ payload) d1); cbn beta; [|done|done|done].
  intros _ d2 Hd2. apply runs_bind.
  replace (len content + 8) with (len content + len (a ++ b)) by (rewrite len_app; lia).
  eapply runs_mono, (Hstep (a ++ b) headerBytes payload d2); cbn beta; [|done|done|by rewrite <-app_assoc].
  intros _ d3 Hd3.
  replace (len content + len (a ++ b) + len headerBytes) with (len content + len ((a ++ b) ++ headerBytes))
    by (rewrite !len_app; lia).
  eapply runs_mono, (Hstep ((a ++ b) ++ headerBytes) payload [] d3); cbn beta; [|done|done|].
  - intros _ d4 ->. by rewrite <-!app_assoc.
  - by rewrite app_nil_r, <-!app_assoc.
Qed.

(** ** A file is replaced *)
Lemma writeReplacing_runs temporary p bytes d :
  temporary ≠ p →
  Runs (writeReplacing temporary p bytes) d
    (λ _ d', kd_files d' = delete temporary (<[p := bytes]> (kd_files d)))
    (λ _ d', ∃ t, kd_files d' = partial_alter (λ _, t) temporary (kd_files d) ∨
       kd_files d' = delete temporary (<[p := bytes]> (kd_files d))).
Proof.
  intros Hne. unfold writeReplacing.
  assert (Hsame : ∀ d', Kept (kd_files d) d' → ∃ t, kd_files d' = partial_alter (λ _, t) temporary (kd_files d) ∨
       kd_files d' = delete temporary (<[p := bytes]> (kd_files d))).
  { intros d' ->. exists (kd_files d !! temporary). left. by rewrite partial_alter_self. }
  apply runs_bind. eapply runs_mono, create_truncate_runs; cbn beta; [|intros e; apply Hsame].
  intros _ d1 Hd1.
  assert (Hl1 : kd_files d1 !! temporary = Some []) by (rewrite Hd1; apply lookup_insert_eq).
  apply runs_bind. eapply runs_mono, writeAll_runs; cbn beta.
  2: { intros _ d' [k ->]. rewrite (written_lookup _ _ _ _ _ Hl1) by done. cbn [app].
       rewrite Hd1, insert_insert_eq. by exists (Some (take k bytes)); left. }
  intros _ d2 Hd2. rewrite (written_lookup _ _ _ _ _ Hl1) in Hd2 by done. cbn [app] in Hd2.
  rewrite Hd1, insert_insert_eq in Hd2.
  assert (Hpart : ∀ d', Kept (kd_files d2) d' → ∃ t, kd_files d' = partial_alter (λ _, t) temporary (kd_files d) ∨
       kd_files d' = delete temporary (<[p := bytes]> (kd_files d))).
  { intros d' ->. exists (Some bytes). by left. }
  apply runs_bind. eapply runs_mono, sync_runs; cbn beta; [|intros e; apply Hpart].
  intros _ d3 Hd3. unfold replaceFileAtomically. apply runs_bind.
  eapply runs_mono, renameFile_runs; cbn beta; [|intros e d'; rewrite Hd3; apply Hpart].
  intros _ d4 (content & Hc & Hd4). rewrite Hd3, Hd2, lookup_insert_eq in Hc. injection Hc as <-.
  assert (Hdone : kd_files d4 = delete temporary (<[p := bytes]> (kd_files d))).
  { rewrite Hd4, Hd3, Hd2, delete_insert_eq. by rewrite delete_insert_ne. }
  eapply runs_mono, sync_runs; cbn beta.
  - intros _ d5 Hd5. by rewrite Hd5.
  - intros _ d5 Hd5. exists None. right. by rewrite Hd5.
Qed.

Lemma persistCursor_runs n cursor d :
  Runs (persistCursor (cursorPath n) cursor) d
    (λ _ d', kd_files d' = delete (temporaryPath n) (<[cursorPath n := cursor_json cursor]> (kd_files d)))
    (λ _ d', ∃ t, kd_files d' = partial_alter (λ _, t) (temporaryPath n) (kd_files d) ∨
       kd_files d' = delete (temporaryPath n) (<[cursorPath n := cursor_json cursor]> (kd_files d))).
Proof.
  unfold persistCursor. rewrite temporaryPath_cursor. apply writeReplacing_runs, not_eq_sym, cursor_temporary_ne.
Qed.
End frame.
