(* ===== verification/UdpSpoolReader.v ===== *)
(** * The reader of the UDP recording queue keeps the invariant

    One lemma per position of the reader thread: its step neither panics nor leaves the
    invariant, and does to the log what the position promises. *)

From S2P Require Import Prelude NetAddress CaptureTypes Stateful Text UdpSpoolModel UdpSpool UdpSpoolFrames UdpSpoolSteps UdpSpoolInvariant.

#[local] Opaque segmentPath cursorPath temporaryPath.

Section frames.
Context `{SpoolEnvironment} {Hok : SpoolEnvironmentOk}.
Implicit Types (fs : list Frame).

Lemma bytesOf_take_S fs j f : fs !! j = Some f → bytesOf (take (S j) fs) = bytesOf (take j fs) ++ frameOf f.
Proof. intros Hf. rewrite (take_S_r _ _ f Hf), bytesOf_app. cbn. by rewrite app_nil_r. Qed.

Lemma bytesOf_split fs j f :
  fs !! j = Some f → bytesOf fs = bytesOf (take j fs) ++ frameOf f ++ bytesOf (drop (S j) fs).
Proof. intros Hf. rewrite <-(take_drop_middle fs j f Hf) at 1. by rewrite bytesOf_app, bytesOf_cons. Qed.

Lemma len_take_S fs j f :
  fs !! j = Some f → len (bytesOf (take (S j) fs)) = len (bytesOf (take j fs)) + frameLength f.
Proof. intros Hf. by rewrite (bytesOf_take_S _ _ _ Hf), len_app, len_frame. Qed.

Lemma len_split fs j f :
  fs !! j = Some f →
  len (bytesOf fs) = len (bytesOf (take j fs)) + frameLength f + len (bytesOf (drop (S j) fs)).
Proof. intros Hf. rewrite (bytesOf_split _ _ _ Hf), !len_app, len_frame. lia. Qed.

(** The read offset tells whether all frames were read. *)
Lemma all_read fs j :
  Forall FrameOk fs → (j ≤ length fs)%nat →
  (len (bytesOf (take j fs)) =? len (bytesOf fs)) = bool_decide (j = length fs).
Proof using Hok.
  intros Hfs Hj. case_bool_decide as Heq.
  - subst. rewrite firstn_all. apply Z.eqb_refl.
  - apply Z.eqb_neq. destruct (lookup_lt_is_Some_2 fs j) as [f Hf]; [lia|].
    pose proof (len_split _ _ _ Hf). pose proof (len_nonneg (bytesOf (drop (S j) fs))).
    assert (FrameOk f) by (eapply Forall_lookup_1; done). pose proof (frameLength_bound f ltac:(done)). lia.
Qed.

Implicit Types (segs : list Segment) (torn : list Z) (files : gmap path (list Z)).

(** ** Files *)
Lemma torn_length segs torn : torn = [] ∨ (∃ f k, tornFrame segs torn f k) → len torn ≤ 1114119.
Proof using Hok.
  intros [->|(f & k & Hf & -> & _)]; [unfold len; cbn [length]; lia|]. pose proof (frameLength_bound f Hf). pose proof (len_frame f) as Hl.
  unfold len in *. rewrite length_take. lia.
Qed.

Lemma front_content files id fs rest torn :
  DirOk files ((id, fs) :: rest) torn →
  ∃ t, files !! segmentPath id = Some (bytesOf fs ++ t) ∧ len (bytesOf fs ++ t) ≤ 70000000.
Proof using Hok.
  intros HD. pose proof (torn_length _ _ (dr_torn _ _ _ HD)) as Ht.
  pose proof (dr_sizes _ _ _ HD) as Hs. apply Forall_cons in Hs as [Hs _]. cbn [snd] in Hs.
  unfold maximumSegmentBytes in Hs. destruct rest as [|s rest].
  - exists torn. rewrite (dr_files _ _ _ HD [] id fs) by done. split; [done|]. rewrite len_app. lia.
  - exists []. rewrite (dr_earlier _ _ _ HD [] id fs (s :: rest)), app_nil_r by done. split; [done|lia].
Qed.

(** Nothing but cursors has changed. *)
Lemma dirOk_cursors files files' segs torn :
  DirOk files segs torn → (∀ id, files' !! segmentPath id = files !! segmentPath id) →
  (∀ name, is_Some (files' !! (CaptureDirectory, name)) → is_Some (files !! (CaptureDirectory, name)) ∨
     ∃ id, is_u64 id ∧ (name = named (lit ".ack") id ∨ name = named (lit ".ack.next") id)) →
  DirOk files' segs torn.
Proof.
  intros [D1 D2 D3 D4 D5 D6 D7 D8 D9] Hs Hn. split; try done.
  - intros name [Hf|(id & Hid & Hname)]%Hn; [by apply D1|]. exists id. naive_solver.
  - intros id Hid. rewrite Hs. by apply D2.
  - intros front id fs Heq. rewrite Hs. by eapply D3.
  - intros front id fs rest Heq Hr. rewrite Hs. by eapply D4.
Qed.

Lemma dirOk_tail files files' id fs rest torn :
  DirOk files ((id, fs) :: rest) torn →
  (∀ id', files' !! segmentPath id' = delete (segmentPath id) files !! segmentPath id') →
  (∀ name, is_Some (files' !! (CaptureDirectory, name)) → is_Some (files !! (CaptureDirectory, name))) →
  DirOk files' rest torn.
Proof.
  intros [D1 D2 D3 D4 D5 D6 D7 D8 D9] Hs Hn. cbn [fmap list_fmap fst] in *.
  inversion_clear D5 as [|?? D5' Hlt]. apply Forall_cons in D6 as [Hid D6], D7 as [_ D7], D8 as [_ D8].
  assert (Hne : ∀ id', id' ∈ rest.*1 → segmentPath id ≠ segmentPath id').
  { intros id' Hin Heq. rewrite Forall_forall in Hlt, D6. apply segmentPath_inj in Heq; [|done|by apply D6].
    subst id'. apply Hlt in Hin. lia. }
  assert (Hin : ∀ front id' fs' rest', rest = front ++ (id', fs') :: rest' → id' ∈ rest.*1).
  { intros front id' fs' rest' ->. rewrite fmap_app. set_solver. }
  split; try done.
  - intros name Hf. by apply D1, Hn.
  - intros id' Hid' [x Hx]. rewrite Hs in Hx. apply lookup_delete_Some in Hx as [Hd Hx].
    apply D2, elem_of_cons in Hid' as [->|Hin']; [congruence|done|by exists x].
  - intros front id' fs' Heq. rewrite Hs, lookup_delete_ne by (eapply Hne, Hin, Heq).
    apply (D3 ((id, fs) :: front)). by rewrite Heq.
  - intros front id' fs' rest' Heq Hr. rewrite Hs, lookup_delete_ne by (eapply Hne, Hin, Heq).
    apply (D4 ((id, fs) :: front) id' fs' rest'); [by rewrite Heq|done].
  - destruct D9 as [->|(f & k & Hf & Ht & Hfit)]; [by left|]. right. exists f, k. split_and!; [done|done|].
    intros front id' fs' ->. by apply (Hfit ((id, fs) :: front) id').
Qed.
End frames.

Section reader.
Context `{SpoolEnvironment} {Hok : SpoolEnvironmentOk} (process_generation : nat → chars).
Abbreviation Run := (Run process_generation).
Abbreviation cursorAt := (cursorAt process_generation).
Abbreviation cursorsAt := (cursorsAt process_generation).
Implicit Types (segs : list Segment) (torn : list Z) (files : gmap path (list Z)).

Lemma cursorAt_files n files files' id fs k :
  files' !! cursorPath id = files !! cursorPath id → cursorAt n files id fs k → cursorAt n files' id fs k.
Proof. unfold UdpSpoolInvariant.cursorAt. by intros ->. Qed.

Lemma cursorsAt_files n files files' segs k :
  (∀ id, files' !! cursorPath id = files !! cursorPath id) → cursorsAt n files segs k → cursorsAt n files' segs k.
Proof.
  intros Hf. destruct segs as [|[id fs] rest]; [done|]. intros [Hc Hr]. split; [exact (cursorAt_files n files files' _ _ _ (Hf id) Hc)|].
  eapply Forall_impl; [exact Hr|]. intros s Hs. exact (cursorAt_files n files files' _ _ _ (Hf s.1) Hs).
Qed.

(** ** Steps *)
Lemma onDisk_runs {A} (m : stateful SpoolDisk SpoolError A) s (P : A → Spool → Prop) (Q : SpoolError → Spool → Prop) :
  Runs m (sp_disk s) (λ a d, P a {| sp_state := sp_state s; sp_disk := d |})
    (λ e d, Q e {| sp_state := sp_state s; sp_disk := d |}) →
  Runs (on_disk m) s P Q.
Proof. unfold Runs, on_disk. destruct (m (sp_disk s)) as [d []]; done. Qed.

Lemma updateState_runs f s (P : unit → Spool → Prop) (Q : SpoolError → Spool → Prop) :
  P tt {| sp_state := f (sp_state s); sp_disk := sp_disk s |} → Runs (update_state f) s P Q.
Proof. done. Qed.

(** The step ends in a state that satisfies [P]. *)
Definition Goes (P : Spool → ReaderPc → Prop) (r : outcome unit (Spool * ReaderPc)) : Prop :=
  match r with Ok (s, pc) => P s pc | _ => False end.

Lemma then_goes_runs {A} (m : onSpool A) next s (P : Spool → ReaderPc → Prop) :
  Runs m s (λ a s', P s' (next a)) (λ e s', P s' (Ended (Some e))) → Goes P (then_goes m next s).
Proof. unfold Runs, then_goes. by destruct (m s) as [s' []]. Qed.

Definition Runs_at n (writer : bool) segs torn (j k : nat) (s : Spool) (pc : ReaderPc) : Prop :=
  Run n (kd_files (sp_disk s)) (sp_state s) pc writer segs torn j k.

(** Another position, when no segment is being removed. *)
Lemma run_pc n files st pc pc' writer segs torn j k :
  Run n files st pc writer segs torn j k → retiring pc = false → retiring pc' = false →
  pcOk segs j k writer (ks_retirementBlocked st) pc' → Run n files st pc' writer segs torn j k.
Proof.
  intros [R1 R2 R3 R4 R5 R6 R7 R8 R9 R10 R11 R12 R13 R14] Hpc Hpc' Hok'.
  rewrite Hpc in R2, R3. split; rewrite ?Hpc'; try done; destruct pc; try done; by destruct pc'.
Qed.

Lemma run_ended n files st pc writer segs torn j k e :
  Run n files st pc writer segs torn j k → retiring pc = false → k = j ∨ k = S j →
  Run n files st (Ended (Some e)) writer segs torn j k.
Proof. intros HR Hpc Hk. by eapply run_pc. Qed.

Lemma len_memory b j segs : len (memory b j segs) = len segs.
Proof. destruct segs as [|s rest]; [done|]. unfold memory, len. cbn [length]. by rewrite length_fmap. Qed.

Lemma len_one {A} (x : A) l : (len (x :: l) =? 1) = bool_decide (l = []).
Proof.
  rewrite len_cons. case_bool_decide as Hl; [by subst|]. apply Z.eqb_neq. destruct l; [done|].
  rewrite len_cons. pose proof (len_nonneg l). lia.
Qed.

Lemma entry_offset id fs j f :
  fs !! j = Some f →
  entryOf id (len (bytesOf (take j fs))) (f.1, f.2, len (bytesOf (take j fs)) + frameLength f) = entryFor id fs j f.
Proof. intros Hf. unfold entryFor. by rewrite (len_take_S _ _ _ Hf). Qed.

(** The frame at the read offset is the one the reader returns. *)
Lemma readFrame_next content id fs rest t j f files torn :
  DirOk files ((id, fs) :: rest) torn → content = bytesOf fs ++ t → len content ≤ 70000000 → fs !! j = Some f →
  readFrame content (len (bytesOf (take j fs))) = Ok (f.1, f.2, len (bytesOf (take j fs)) + frameLength f).
Proof using Hok.
  intros HD -> Hlen Hf. pose proof (dr_frames _ _ _ HD) as Hfs. apply Forall_cons in Hfs as [Hfs _]. cbn [snd] in Hfs.
  assert (FrameOk f) by (eapply Forall_lookup_1; done).
  rewrite len_app, (len_split _ _ _ Hf) in Hlen. pose proof (len_nonneg t).
  pose proof (len_nonneg (bytesOf (drop (S j) fs))). pose proof (len_nonneg (bytesOf (take j fs))).
  apply readFrame_at; [done| |done|unfold u64_max; lia].
  rewrite (bytesOf_split _ _ _ Hf), <-!app_assoc. by apply at_app.
Qed.

Lemma step_reading n s writer segs torn j k :
  Runs_at n writer segs torn j k s Reading →
  Goes (Runs_at n writer segs torn j k) (readerStep (process_generation n) Reading s).
Proof using Hok.
  intros HR. apply then_goes_runs. unfold readNext. apply runs_bind, runs_gets.
  pose proof HR as [R1 R2 R3 R4 [-> Hb] R6 R7 R8 [R91 [R92 [R93 R94]]] R10 R11 R12 R13 R14]. cbn [retiring onDisk] in *.
  rewrite R3. cbn [is_Some]. rewrite bool_decide_false by (by intros []). rewrite R2.
  destruct segs as [|[id fs] rest]; cbn [memory].
  { apply runs_ret. eapply run_pc; try done. split; [by left|]. intros _. split; [done|].
    destruct writer; [|done]. by destruct (R14 eq_refl). }
  cbn [inMemory sg_readOffset sg_length sg_file snd fst frontLength] in *. apply Forall_cons in R93 as [Hfs _]. cbn [snd] in Hfs.
  rewrite all_read by (done || lia). case_bool_decide as Hj.
  { rewrite Hb. case_if Hw; apply runs_ret; [done|]. by eapply run_pc. }
  destruct (lookup_lt_is_Some_2 fs j) as [f Hf]; [lia|].
  apply runs_bind, runs_lift. cbn [expect Satisfies]. apply runs_bind, onDisk_runs, readFile_runs.
  2: { intros e d' Hd. unfold Runs_at. cbn [sp_disk sp_state]. rewrite Hd. eapply run_ended; [exact HR|done|by left]. }
  intros content d' Hc Hd. destruct (front_content _ _ _ _ _ R1) as (t & Hc' & Hlen). rewrite Hc in Hc'.
  injection Hc' as ->. rewrite (readFrame_next _ _ _ _ _ _ _ _ _ R1 eq_refl Hlen Hf).
  apply runs_bind, runs_lift. cbn [Satisfies]. apply runs_ret. unfold Runs_at. cbn [sp_disk sp_state]. rewrite Hd.
  eapply run_pc; [exact HR|done|done|]. cbn [pcOk]. split_and!; [done|done|]. exists id, fs, rest, f.
  rewrite entry_offset by done. done.
Qed.

(** ** The first segment is removed *)
Lemma run_retire n files st pc writer id fs rest torn :
  Run n files st pc writer ((id, fs) :: rest) torn (length fs) (length fs) → retiring pc = false →
  rest ≠ [] ∨ writer = false →
  Run n files (set_retirement (Some id) false (set_segments (update_front (set_file None) (ks_segments st)) st))
    (RetireFiles (retirementOf id)) writer ((id, fs) :: rest) torn (length fs) (length fs).
Proof.
  intros [R1 R2 R3 R4 R5 R6 R7 R8 R9 R10 R11 R12 R13 R14] Hpc Hw. rewrite Hpc in R2, R3.
  split; cbn [ks_segments ks_retiringSegmentId ks_retirementBlocked ks_nextSegmentId ks_pendingBytes ks_nextSequence
              ks_closed set_retirement set_segments retiring onDisk]; try done.
  - by destruct pc.
  - by rewrite R2.
  - split; [done|]. by exists id, fs, rest.
  - by destruct pc.
Qed.

Lemma begin_runs n s pc writer id fs rest torn (P : SegmentRetirement → Spool → Prop) Q :
  Runs_at n writer ((id, fs) :: rest) torn (length fs) (length fs) s pc → retiring pc = false →
  rest ≠ [] ∨ writer = false →
  (∀ s', Runs_at n writer ((id, fs) :: rest) torn (length fs) (length fs) s' (RetireFiles (retirementOf id)) →
     P (retirementOf id) s') →
  Runs beginSegmentRetirement s P Q.
Proof.
  intros HR Hpc Hw HP. unfold beginSegmentRetirement. apply runs_bind, runs_gets.
  rewrite (ru_retiring _ _ _ _ _ _ _ _ _ _ HR), Hpc. rewrite bool_decide_false by (by intros []).
  pose proof (ru_segments _ _ _ _ _ _ _ _ _ _ HR) as Hm. rewrite Hpc in Hm. cbn [memory] in Hm.
  rewrite Hm. cbn [sg_file inMemory ok_or]. apply runs_bind, runs_lift. cbn [Satisfies].
  apply runs_bind, updateState_runs, runs_bind, updateState_runs, runs_ret. cbn [sp_state sp_disk].
  apply (HP {| sp_state := _; sp_disk := _ |}). by apply (run_retire n _ _ pc).
Qed.

Lemma step_retireLock n s writer segs torn j k :
  Runs_at n writer segs torn j k s RetireLock →
  Goes (Runs_at n writer segs torn j k) (readerStep (process_generation n) RetireLock s).
Proof using Hok.
  intros HR. apply then_goes_runs. unfold retireCompletedFront. apply runs_bind, runs_gets.
  pose proof HR as [R1 R2 R3 R4 [-> Hb] R6 R7 R8 [R91 [R92 [R93 R94]]] R10 R11 R12 R13 R14]. cbn [retiring onDisk] in *.
  rewrite R3. rewrite bool_decide_false by (by intros []). rewrite R2.
  assert (Hback : Runs_at n writer segs torn j j s Reading) by (by eapply run_pc).
  destruct segs as [|[id fs] rest]; cbn [memory]; [done|].
  cbn [inMemory sg_readOffset sg_length sg_file snd fst frontLength] in *. apply Forall_cons in R93 as [Hfs _]. cbn [snd] in Hfs.
  rewrite all_read by (done || lia). case_bool_decide as Hj; [|done]. subst j. cbn [negb orb].
  rewrite len_one. case_if Hw; [done|]. apply runs_bind.
  eapply begin_runs; [exact HR|done| |].
  - apply andb_false_iff in Hw as [Hw|Hw%negb_false_iff]; [|right; by apply R13]. left. intros ->. done.
  - intros s' Hs'. by apply runs_ret.
Qed.

(** The files of the segment are gone, its cursor perhaps not, or nothing has changed. *)
Lemma retireSegmentFiles_runs id d :
  Runs (retireSegmentFiles (retirementOf id)) d
    (λ _ d', kd_files d' = delete (segmentPath id) (kd_files d) ∨
       kd_files d' = delete (cursorPath id) (delete (segmentPath id) (kd_files d)))
    (λ e d', e.2 = segmentPath id ∧ kd_files d' = kd_files d).
Proof.
  unfold retireSegmentFiles, Runs at 1. cbn [retirementOf rt_path rt_cursorPath rt_file].
  pose proof (grantedIo_runs (mret tt) d (λ _ d', kd_files d' = kd_files d) (λ _ d', kd_files d' = kd_files d)) as Hg.
  unfold Runs in Hg at 2. destruct (granted (mret tt) d) as [d1 [[]|e|]]; [| |exfalso; by apply Hg].
  2: { split; [done|]. by apply Hg. }
  assert (Hd1 : kd_files d1 = kd_files d) by by apply Hg. clear Hg.
  pose proof (removeFile_runs (segmentPath id) d1) as Hr. unfold Runs in Hr.
  destruct (remove_file (segmentPath id) d1) as [d2 [[]|e|]]; [| |done].
  2: { split; [done|]. by rewrite Hr. }
  destruct Hr as [_ Hd2]. pose proof (removeFile_runs (cursorPath id) d2) as Hc. unfold Runs in Hc.
  rewrite <-Hd1, <-Hd2. destruct (remove_file (cursorPath id) d2) as [d3 [[]|e|]]; cbn [fst]; [|by left|done].
  right. apply Hc.
Qed.

Lemma delete_named files id name :
  is_Some (delete (segmentPath id) files !! (CaptureDirectory, name)) → is_Some (files !! (CaptureDirectory, name)).
Proof. intros [x [_ Hx]%lookup_delete_Some]. by exists x. Qed.

(** The removal has left the other files alone. *)
Lemma removed_files files files' id :
  files' = delete (segmentPath id) files ∨ files' = delete (cursorPath id) (delete (segmentPath id) files) →
  (∀ id', files' !! segmentPath id' = delete (segmentPath id) files !! segmentPath id') ∧
  (∀ p, is_Some (files' !! p) → is_Some (files !! p)) ∧
  (∀ id', cursorPath id ≠ cursorPath id' → files' !! cursorPath id' = files !! cursorPath id').
Proof.
  intros [->| ->].
  - split_and!; [done|by intros p [x [_ Hx]%lookup_delete_Some]|].
    intros id' _. apply lookup_delete_ne, segment_cursor_ne.
  - split_and!.
    + intros id'. apply lookup_delete_ne, not_eq_sym, segment_cursor_ne.
    + by intros p [x [_ [_ Hx]%lookup_delete_Some]%lookup_delete_Some].
    + intros id' Hne. rewrite lookup_delete_ne by done. apply lookup_delete_ne, segment_cursor_ne.
Qed.

Lemma later_cursors n files files' id fs rest k :
  StronglySorted Z.lt ((id, fs) :: rest : list Segment).*1 → Forall is_u64 ((id, fs) :: rest : list Segment).*1 →
  (∀ id', cursorPath id ≠ cursorPath id' → files' !! cursorPath id' = files !! cursorPath id') →
  cursorsAt n files ((id, fs) :: rest) k → Forall (λ s : Segment, cursorAt n files' s.1 s.2 0) rest.
Proof.
  intros Hs Hu Hc [_ Hr]. cbn [fmap list_fmap fst] in *. inversion_clear Hs as [|?? _ Hlt].
  apply Forall_cons in Hu as [Hid Hu]. rewrite Forall_forall in Hlt, Hu. rewrite Forall_forall in Hr. apply Forall_forall. intros s Hin.
  assert (Hin' : s.1 ∈ rest.*1) by (by apply list_elem_of_fmap_2).
  refine (cursorAt_files n files files' _ _ _ (Hc _ _) (Hr _ Hin)). intros Heq.
  apply cursorPath_inj in Heq; [|done|by apply Hu]. apply Hlt in Hin'. lia.
Qed.

Lemma step_retireFiles n s writer segs torn j k r :
  Runs_at n writer segs torn j k s (RetireFiles r) →
  Goes (Runs_at n writer segs torn j k) (readerStep (process_generation n) (RetireFiles r) s).
Proof.
  intros [R1 R2 R3 R4 (-> & id & fs & rest & -> & -> & -> & Hw) R6 R7 R8 R9 R10 R11 R12 R13 R14].
  cbn [readerStep]. pose proof (retireSegmentFiles_runs id (sp_disk s)) as Hr. unfold Runs in Hr.
  destruct (retireSegmentFiles (retirementOf id) (sp_disk s)) as [d [[]|[e p]|]]; cbn [Goes]; [| |done].
  - pose proof (removed_files _ _ _ Hr) as (Hf1 & Hf2 & Hf3).
    split; cbn [sp_disk sp_state retiring onDisk] in *; try done.
    + eapply dirOk_tail; [exact R1|done|]. intros name. apply Hf2.
    + split; [done|]. exists fs, rest. by split_and!.
    + destruct R9 as (Hs & Hu & _). by eapply later_cursors.
    + intros id' Hid' Hx. by apply R10, Hf2.
  - destruct Hr as [Hp Hd]. cbn [snd] in Hp. split; cbn [sp_disk sp_state retiring onDisk] in *; rewrite ?Hd; try done.
    split; [done|]. exists fs, rest. by split_and!.
Qed.

Lemma length_entriesOf s : length (entriesOf s) = length s.2.
Proof. apply length_fmap. Qed.

Lemma entries_snoc front id fs f :
  (front ++ [(id, fs ++ [f])]) ≫= entriesOf = ((front ++ [(id, fs)]) ≫= entriesOf) ++ [(id, f)].
Proof. rewrite !bind_app, <-app_assoc. cbn. by rewrite !app_nil_r, fmap_app. Qed.

Lemma logOf_pop gone id fs rest : logOf gone ((id, fs) :: rest) (length fs) = logOf (gone ++ entriesOf (id, fs)) rest 0.
Proof.
  unfold logOf. cbn [mbind list_bind]. rewrite length_app, Nat.add_0_r, app_assoc.
  by rewrite length_entriesOf.
Qed.

Lemma memory_false_0 segs : memory false 0 segs = opened 0 <$> segs.
Proof. by destruct segs. Qed.

Lemma sizes_cons id fs rest : sizes ((id, fs) :: rest) = len (bytesOf fs) + sizes rest.
Proof. done. Qed.

Lemma readBytes_0 segs : readBytes segs 0 = 0.
Proof. by destruct segs as [|[]]. Qed.

(** The removed segment leaves the queue, or its handle goes back and the reader ends. *)
Lemma step_retireDone n s writer segs torn j k id result :
  Runs_at n writer segs torn j k s (RetireDone id result) →
  Goes (λ s' pc', Runs_at n writer segs torn j k s' pc' ∨
          ∃ fs rest, segs = (id, fs) :: rest ∧ k = length fs ∧ Runs_at n writer rest torn 0 0 s' pc')
    (readerStep (process_generation n) (RetireDone id result) s).
Proof.
  intros [R1 R2 R3 R4 (-> & fs & rest & -> & -> & Hw & Hres) R6 R7 R8 [R91 [R92 [R93 R94]]] R10 R11 R12 R13 R14].
  cbn [retiring onDisk head fmap option_fmap option_map fst] in *. apply then_goes_runs.
  assert (Hv : validateRetiringSegment (sp_state s) id = Ok tt).
  { unfold validateRetiringSegment. rewrite R2, R3. cbn [memory head fmap option_fmap option_map inMemory sg_id fst].
    by rewrite !bool_decide_true. }
  destruct result as [[]|[e p]|]; [| |done]; cbn [finishSegmentRetirement]; apply runs_bind, runs_gets; rewrite Hv;
    apply runs_bind, runs_lift; cbn [Satisfies].
  - apply runs_bind, updateState_runs, updateState_runs. cbn [sp_state sp_disk]. right. exists fs, rest.
    split_and!; [done|done|]. cbn [fmap list_fmap fst] in *. apply Forall_cons in R92 as [_ R92], R93 as [_ R93], R94 as [_ R94], R8 as [_ R8].
    inversion_clear R91 as [|?? R91' _].
    split; cbn [sp_disk sp_state retiring onDisk set_retirement set_segments ks_segments ks_retiringSegmentId
                ks_retirementBlocked ks_nextSegmentId ks_pendingBytes ks_nextSequence ks_closed]; try done.
    + rewrite R2. by rewrite memory_false_0.
    + split; lia.
    + destruct rest as [|[id' fs'] rest]; [done|]. cbn [tail] in R6. apply Forall_cons in R6. exact R6.
    + rewrite R11, sizes_cons, readBytes_0. cbn [readBytes snd]. rewrite firstn_all. lia.
    + intros Hwr. destruct Hw as [Hw|Hw]; [|congruence]. split; [done|]. by apply R14.
  - rewrite R2. cbn [memory head expect]. apply runs_bind, runs_lift. cbn [Satisfies].
    apply runs_bind, updateState_runs, runs_bind, updateState_runs, runs_fail. left.
    split; cbn [sp_disk sp_state retiring onDisk set_retirement set_segments ks_segments ks_retiringSegmentId
                ks_retirementBlocked ks_nextSegmentId ks_pendingBytes ks_nextSequence ks_closed]; try done.
    + rewrite R2, Hres. done.
    + by split; [left|].
Qed.

(** ** A frame is acknowledged *)
Lemma in_order p id fs j f :
  FrameOk f → fs !! j = Some f →
  outOfOrder (acknowledgement (entryFor id fs j f)) (inMemory p (len (bytesOf (take j fs))) (id, fs)) = false.
Proof using Hok.
  intros Hf Hj. unfold outOfOrder. cbn [inMemory sg_id fst snd acknowledgement entryFor entryOf ak_segmentId ak_endOffset
    en_segmentId en_endOffset sg_readOffset sg_length]. rewrite Z.eqb_refl. cbn [negb orb].
  pose proof (frameLength_bound f Hf). pose proof (len_nonneg (bytesOf (drop (S j) fs))).
  rewrite (len_take_S _ _ _ Hj). pose proof (len_split _ _ _ Hj).
  rewrite (proj2 (Z.leb_gt _ _)) by lia. cbn [orb]. apply Z.ltb_ge. lia.
Qed.

Lemma handed_frame id fs rest f segs torn files j :
  DirOk files segs torn → segs = (id, fs) :: rest → fs !! j = Some f → FrameOk f.
Proof.
  intros HD -> Hj. pose proof (dr_frames _ _ _ HD) as Hf. apply Forall_cons in Hf as [Hf _].
  by eapply Forall_lookup_1.
Qed.

Lemma step_ackCheck n s writer segs torn j k a :
  Runs_at n writer segs torn j k s (AckCheck a) →
  Goes (Runs_at n writer segs torn j k) (readerStep (process_generation n) (AckCheck a) s).
Proof using Hok.
  intros HR. pose proof (ru_pc _ _ _ _ _ _ _ _ _ _ HR) as (-> & Hb & Hh).
  pose proof Hh as (id & fs & rest & f & -> & Hj & ->).
  pose proof (handed_frame _ _ _ _ _ _ _ _ (ru_dir _ _ _ _ _ _ _ _ _ _ HR) eq_refl Hj) as Hf.
  apply then_goes_runs. unfold acknowledgeCheck. apply runs_bind, runs_gets.
  rewrite (ru_segments _ _ _ _ _ _ _ _ _ _ HR). cbn [retiring memory snd]. rewrite in_order by done.
  apply runs_ret. cbn [inMemory sg_cursorPath fst]. eapply run_pc; [exact HR|done|done|].
  split_and!; [done|done|done|]. by intros id' fs' rest' [= <- <- <-].
Qed.

(** What a replaced cursor leaves alone. *)
Lemma persisted_files files files' id t content :
  files' = partial_alter (λ _, t) (temporaryPath id) files ∨
  files' = delete (temporaryPath id) (<[cursorPath id := content]> files) →
  (∀ id', files' !! segmentPath id' = files !! segmentPath id') ∧
  (∀ id', cursorPath id ≠ cursorPath id' → files' !! cursorPath id' = files !! cursorPath id') ∧
  (∀ p, is_Some (files' !! p) → is_Some (files !! p) ∨ p = cursorPath id ∨ p = temporaryPath id).
Proof.
  intros [->| ->]; split_and!.
  - intros id'. apply lookup_partial_alter_ne, not_eq_sym, segment_temporary_ne.
  - intros id' _. apply lookup_partial_alter_ne, not_eq_sym, cursor_temporary_ne.
  - intros p. destruct (decide (temporaryPath id = p)) as [->|Hne]; [auto|]. rewrite lookup_partial_alter_ne by done. auto.
  - intros id'. rewrite lookup_delete_ne by apply not_eq_sym, segment_temporary_ne.
    apply lookup_insert_ne, not_eq_sym, segment_cursor_ne.
  - intros id' Hne. rewrite lookup_delete_ne by apply not_eq_sym, cursor_temporary_ne. by apply lookup_insert_ne.
  - intros p [x [_ Hx]%lookup_delete_Some]. destruct (decide (cursorPath id = p)) as [->|Hne]; [auto|].
    rewrite lookup_insert_ne in Hx by done. left. by exists x.
Qed.

Lemma dirOk_persisted files files' id t content segs torn :
  DirOk files segs torn → is_u64 id →
  files' = partial_alter (λ _, t) (temporaryPath id) files ∨
  files' = delete (temporaryPath id) (<[cursorPath id := content]> files) →
  DirOk files' segs torn.
Proof.
  intros HD Hid Hf. destruct (persisted_files _ _ _ _ _ Hf) as (Hs & _ & Hn).
  eapply dirOk_cursors; [exact HD|exact Hs|]. intros name [?|[Heq|Heq]]%Hn; [by left|right..]; exists id; split;
    try done; apply (f_equal snd) in Heq; auto.
Qed.

(** The invariant under a written cursor: the position of the reader is [k']. *)
Lemma run_persisted n files files' st pc pc' writer id fs rest torn j k k' t content :
  Run n files st pc writer ((id, fs) :: rest) torn j k → retiring pc = false → retiring pc' = false →
  files' = partial_alter (λ _, t) (temporaryPath id) files ∨
  files' = delete (temporaryPath id) (<[cursorPath id := content]> files) →
  cursorAt n files' id fs k' → (k' ≤ length fs)%nat → pcOk ((id, fs) :: rest) j k' writer (ks_retirementBlocked st) pc' →
  Run n files' st pc' writer ((id, fs) :: rest) torn j k'.
Proof.
  intros [R1 R2 R3 R4 R5 R6 R7 R8 R9 R10 R11 R12 R13 R14] Hpc Hpc' Hf Hcur Hk' Hok'. rewrite Hpc in R2, R3.
  assert (Hdir : onDisk pc ((id, fs) :: rest) = (id, fs) :: rest) by by destruct pc.
  assert (Hdir' : onDisk pc' ((id, fs) :: rest) = (id, fs) :: rest) by by destruct pc'.
  rewrite Hdir in R1. assert (R6' : cursorsAt n files ((id, fs) :: rest) k) by by destruct pc. clear R6.
  destruct R9 as (Hs & Hu & R9). pose proof Hu as Hid. apply Forall_cons in Hid as [Hid _]. cbn [fst] in Hid.
  pose proof (persisted_files _ _ _ _ _ Hf) as (_ & Hc & Hn).
  split; rewrite ?Hpc', ?Hdir'; try done.
  - by eapply dirOk_persisted.
  - split; [apply R4|done].
  - assert (cursorsAt n files' ((id, fs) :: rest) k'); [|by destruct pc']. split; [done|].
    by apply (later_cursors n files files' id fs rest k).
  - intros id' Hid' [Hx|[Hx|Hx]]%Hn; [by apply R10| |by apply cursor_temporary_ne in Hx].
    apply cursorPath_inj in Hx; [|done|done]. subst id'. apply Forall_cons in R8. apply R8.
Qed.

Lemma step_ackPersist n s writer segs torn j k a p :
  Runs_at n writer segs torn j k s (AckPersist a p) →
  Goes (λ s' pc', Runs_at n writer segs torn j k s' pc' ∨
          (k < frontLength segs)%nat ∧ Runs_at n writer segs torn j (S k) s' pc')
    (readerStep (process_generation n) (AckPersist a p) s).
Proof using Hok.
  intros HR. pose proof (ru_pc _ _ _ _ _ _ _ _ _ _ HR) as (-> & Hb & Hh & Hp).
  pose proof Hh as (id & fs & rest & f & -> & Hj & ->). specialize (Hp id fs rest eq_refl) as ->.
  pose proof (lookup_lt_Some _ _ _ Hj) as Hlt. cbn [frontLength].
  apply then_goes_runs, onDisk_runs.
  set (c := cursorOf (process_generation n) (acknowledgement (entryFor id fs j f))).
  assert (Hcur : ∀ files, cursorAt n (delete (temporaryPath id) (<[cursorPath id := cursor_json c]> files)) id fs (S j)).
  { intros files. unfold UdpSpoolInvariant.cursorAt.
    rewrite lookup_delete_ne by apply not_eq_sym, cursor_temporary_ne. rewrite lookup_insert_eq.
    exists c, n. split_and!; [done|done|]. right. split; [done|]. exists f. split_and!; try done; try lia.
    rewrite (take_S_r _ _ _ Hj). by rewrite last_snoc. }
  eapply runs_mono, persistCursor_runs; cbn beta.
  - intros _ d Hd. right. split; [done|]. unfold Runs_at. cbn [sp_disk sp_state]. rewrite Hd.
    eapply (run_persisted n _ _ _ _ _ _ _ _ _ _ _ _ _ None); try done. by right.
  - intros e d (t & [Hd|Hd]); unfold Runs_at; cbn [sp_disk sp_state]; rewrite Hd; [left|right; split; [done|]].
    + eapply (run_persisted n _ _ _ _ _ _ _ _ _ _ _ _ _ t []); try done; [by left| | |].
      * apply (cursorAt_files n (kd_files (sp_disk s))); [apply lookup_partial_alter_ne, not_eq_sym, cursor_temporary_ne|].
        pose proof (ru_cursors _ _ _ _ _ _ _ _ _ _ HR) as Hc. apply Hc.
      * lia.
      * split; [by left|done].
    + eapply (run_persisted n _ _ _ _ _ _ _ _ _ _ _ _ _ None); try done; [by right|]. split; [by right|done].
Qed.

Lemma sizes_nonneg segs : 0 ≤ sizes segs.
Proof. induction segs as [|[id fs] segs IH]; [done|]. rewrite sizes_cons. pose proof (len_nonneg (bytesOf fs)). lia. Qed.

(** The read offset moves behind the frame. *)
Lemma run_committed n files st writer id fs rest torn j f :
  Run n files st (AckCommit (acknowledgement (entryFor id fs j f))) writer ((id, fs) :: rest) torn j (S j) →
  fs !! j = Some f →
  Run n files (set_pendingBytes (ks_pendingBytes st - frameLength f)
    (set_segments (update_front (set_readOffset (len (bytesOf (take (S j) fs)))) (ks_segments st)) st))
    Reading writer ((id, fs) :: rest) torn (S j) (S j).
Proof.
  intros [R1 R2 R3 R4 R5 R6 R7 R8 R9 R10 R11 R12 R13 R14] Hj.
  split; cbn [ks_segments ks_retiringSegmentId ks_retirementBlocked ks_nextSegmentId ks_pendingBytes ks_nextSequence
              ks_closed set_pendingBytes set_segments retiring onDisk] in *; try done.
  - by rewrite R2.
  - split; apply R4.
  - split; [done|apply R5].
  - rewrite R11. cbn [readBytes snd]. rewrite (len_take_S _ _ _ Hj). lia.
Qed.

Lemma step_ackCommit n s writer segs torn j k a :
  Runs_at n writer segs torn j k s (AckCommit a) →
  Goes (Runs_at n writer segs torn k k) (readerStep (process_generation n) (AckCommit a) s).
Proof using Hok.
  intros HR. pose proof (ru_pc _ _ _ _ _ _ _ _ _ _ HR) as (-> & Hb & id & fs & rest & f & -> & Hj & ->).
  pose proof (handed_frame _ _ _ _ _ _ _ _ (ru_dir _ _ _ _ _ _ _ _ _ _ HR) eq_refl Hj) as Hf.
  pose proof (run_committed _ _ _ _ _ _ _ _ _ _ HR Hj) as HR'.
  apply then_goes_runs. unfold acknowledgeCommit. apply runs_bind, runs_gets.
  rewrite (ru_segments _ _ _ _ _ _ _ _ _ _ HR). cbn [retiring memory snd]. rewrite in_order by done.
  apply runs_bind, updateState_runs. cbn [sp_state sp_disk].
  cbn [acknowledgement entryFor entryOf ak_endOffset ak_frameBytes en_endOffset en_frameBytes inMemory sg_length snd].
  rewrite (len_take_S _ _ _ Hj), Z.add_simpl_l, <-(len_take_S _ _ _ Hj).
  assert (Hpend : frameLength f ≤ ks_pendingBytes (sp_state s)).
  { rewrite (ru_pending _ _ _ _ _ _ _ _ _ _ HR). cbn [readBytes snd]. rewrite sizes_cons, (len_split _ _ _ Hj).
    pose proof (sizes_nonneg rest). pose proof (len_nonneg (bytesOf (drop (S j) fs))). lia. }
  apply runs_bind, runs_lift. unfold check. rewrite (proj2 (Z.leb_le _ _)) by done. cbn [Satisfies].
  apply runs_bind, updateState_runs. cbn [sp_state sp_disk].
  pose proof (lookup_lt_Some _ _ _ Hj) as Hlt.
  pose proof (dr_frames _ _ _ (ru_dir _ _ _ _ _ _ _ _ _ _ HR)) as Hfs. apply Forall_cons in Hfs as [Hfs _]. cbn [snd] in Hfs.
  rewrite all_read by (done || lia).
  case_bool_decide as Hall; cbn [andb]; [|apply runs_ret, HR'].
  case_if Hw; [|apply runs_ret, HR']. apply runs_bind.
  refine (begin_runs n _ Reading writer id fs rest torn _ _ _ eq_refl _ _).
  - rewrite <-Hall. exact HR'.
  - apply orb_true_iff in Hw as [Hw|Hw]; [left; by intros ->|right]. by apply (ru_closed _ _ _ _ _ _ _ _ _ _ HR).
  - intros s' Hs'. apply runs_ret. by rewrite Hall.
Qed.

(** ** Any step *)
Lemma reader_step n s writer segs torn j k pc gone :
  Runs_at n writer segs torn j k s pc →
  Goes (λ s' pc', ∃ gone' segs' j' k', Runs_at n writer segs' torn j' k' s' pc' ∧
          (logOf gone' segs' k' = logOf gone segs k ∨
           (lg_consumed (logOf gone segs k) < length (lg_frames (logOf gone segs k)))%nat ∧
           logOf gone' segs' k' = {| lg_frames := lg_frames (logOf gone segs k);
                                     lg_consumed := S (lg_consumed (logOf gone segs k)) |}))
    (readerStep (process_generation n) pc s).
Proof using Hok.
  intros HR.
  assert (Hsame : ∀ j', Goes (Runs_at n writer segs torn j' k) (readerStep (process_generation n) pc s) →
    Goes (λ s' pc', ∃ gone' segs' j' k', Runs_at n writer segs' torn j' k' s' pc' ∧
          (logOf gone' segs' k' = logOf gone segs k ∨
           (lg_consumed (logOf gone segs k) < length (lg_frames (logOf gone segs k)))%nat ∧
           logOf gone' segs' k' = {| lg_frames := lg_frames (logOf gone segs k);
                                     lg_consumed := S (lg_consumed (logOf gone segs k)) |}))
      (readerStep (process_generation n) pc s)).
  { intros j'. destruct (readerStep (process_generation n) pc s) as [[s' pc']|e|]; cbn [Goes]; [|done..].
    intros Hs. exists gone, segs, j', k. auto. }
  destruct pc as [| |r|id result|e|a|a p|a|fault].
  - by apply (Hsame j), step_reading.
  - by apply (Hsame j), step_retireLock.
  - by apply (Hsame j), step_retireFiles.
  - clear Hsame. pose proof (step_retireDone _ _ _ _ _ _ _ _ _ HR) as Hs.
    destruct (readerStep _ _ s) as [[s' pc']|e|]; cbn [Goes] in *; [|done..].
    destruct Hs as [Hs|(fs & rest & -> & -> & Hs)]; [exists gone, segs, j, k; auto|].
    exists (gone ++ entriesOf (id, fs)), rest, 0%nat, 0%nat. split; [done|]. left. by rewrite (logOf_pop _ id).
  - by apply (Hsame j).
  - by apply (Hsame j), step_ackCheck.
  - clear Hsame. pose proof (step_ackPersist _ _ _ _ _ _ _ _ _ HR) as Hs.
    destruct (readerStep _ _ s) as [[s' pc']|e|]; cbn [Goes] in *; [|done..].
    destruct Hs as [Hs|[Hlt Hs]]; [exists gone, segs, j, k; auto|].
    exists gone, segs, j, (S k). split; [done|]. right. unfold logOf. cbn [lg_consumed lg_frames].
    rewrite length_app. split; [|f_equal; lia]. destruct segs as [|[id fs] rest]; cbn [frontLength] in Hlt; [lia|].
    cbn [mbind list_bind]. rewrite length_app, length_entriesOf. cbn [snd]. lia.
  - by apply (Hsame k), (step_ackCommit n s writer segs torn j k a).
  - by apply (Hsame j).
Qed.
End reader.
