(* ===== verification/UdpSpoolWriter.v ===== *)
(** * The writer of the UDP recording queue keeps the invariant

    An append that succeeds adds its frame to the last segment or to a new one; one that
    fails closes the queue and leaves a torn frame at most. *)

From S2P Require Import Prelude NetAddress CaptureTypes Stateful Text UdpSpoolModel UdpSpool UdpSpoolFrames UdpSpoolSteps UdpSpoolInvariant UdpSpoolReader.

#[local] Opaque segmentPath cursorPath temporaryPath.

Lemma update_back_snoc f l x : update_back f (l ++ [x]) = l ++ [f x].
Proof. induction l as [|y l IH]; [done|]. cbn. rewrite IH. by destruct l. Qed.

Section directory.
Context `{SpoolEnvironment} {Hok : SpoolEnvironmentOk}.
Implicit Types (segs front rest : list Segment) (torn : list Z) (files : gmap path (list Z)) (fs : list Frame).

Lemma frameSizes_app segs segs' : sizes (segs ++ segs') = sizes segs + sizes segs'.
Proof. apply sum_by_app. Qed.

(** ** The segments in memory *)
Lemma memory_snoc b j front s :
  front ≠ [] → memory b j (front ++ [s]) = memory b j front ++ [opened 0 s].
Proof. destruct front as [|s0 front]; [done|]. intros _. cbn [memory app]. by rewrite fmap_app. Qed.

Lemma memory_last b j front s :
  (b = true → front ≠ []) → ∃ offset, last (memory b j (front ++ [s])) = Some (opened offset s).
Proof.
  intros Hb. destruct front as [|s0 front].
  - destruct b; [by destruct Hb|]. by exists (len (bytesOf (take j s.2))).
  - exists 0. rewrite memory_snoc by done. apply last_snoc.
Qed.

Lemma memory_grow b j front id fs fs' :
  (front = [] → (j ≤ length fs)%nat) →
  update_back (set_length (len (bytesOf (fs ++ fs')))) (memory b j (front ++ [(id, fs)])) =
  memory b j (front ++ [(id, fs ++ fs')]).
Proof.
  intros Hj. destruct front as [|s0 front].
  - cbn. unfold inMemory. cbn. by rewrite take_app_le by by apply Hj.
  - by rewrite !memory_snoc, update_back_snoc by done.
Qed.

(** ** The directory *)
Lemma lookup_segment_insert files id id' content :
  is_u64 id → is_u64 id' → id ≠ id' → <[segmentPath id := content]> files !! segmentPath id' = files !! segmentPath id'.
Proof. intros Hid Hid' Hne. apply lookup_insert_ne. intros Heq. by apply Hne, segmentPath_inj. Qed.

Lemma sorted_snoc_lt (l : list Z) x y : StronglySorted Z.lt (l ++ [x]) → y ∈ l → y < x.
Proof.
  intros Hs Hy. induction l as [|z l IH]; [by apply elem_of_nil in Hy|]. cbn in Hs. inversion_clear Hs as [|?? Hs' Hall].
  apply elem_of_cons in Hy as [->|Hy]; [|by apply IH]. rewrite Forall_forall in Hall. apply Hall. set_solver.
Qed.

Lemma snoc_inv {A} (l l' : list A) x y : l ++ [x] = l' ++ [y] → l = l' ∧ x = y.
Proof. intros Heq. by apply app_inj_tail in Heq. Qed.

Lemma snoc_split {A} (l l' rest : list A) (x y : A) :
  l ++ [x] = l' ++ y :: rest → rest ≠ [] → ∃ rest' : list A, rest = rest' ++ [x] ∧ l = l' ++ y :: rest'.
Proof.
  intros Heq Hr. destruct rest as [|z rest _] using rev_ind; [done|].
  rewrite app_comm_cons, app_assoc in Heq. apply snoc_inv in Heq as [-> ->]. by exists rest.
Qed.

Lemma dirOk_last files files' front id fs fs' torn0 torn :
  DirOk files (front ++ [(id, fs)]) torn0 → (∀ p, p ≠ segmentPath id → files' !! p = files !! p) →
  files' !! segmentPath id = Some (bytesOf fs' ++ torn) → Forall FrameOk fs' → len (bytesOf fs') ≤ maximumSegmentBytes →
  torn = [] ∨ (∃ f k, tornFrame (front ++ [(id, fs')]) torn f k) →
  DirOk files' (front ++ [(id, fs')]) torn.
Proof.
  intros [D1 D2 D3 D4 D5 D6 D7 D8 D9] Hp Hlast Hfs Hsize Ht. rewrite fmap_app in *. cbn [fmap list_fmap fst] in *.
  apply Forall_app in D6 as [D6 Hid], D7 as [D7 _], D8 as [D8 _]. apply Forall_cons in Hid as [Hid _].
  split; rewrite ?fmap_app; try done.
  - intros name Hx. destruct (decide ((CaptureDirectory, name) = segmentPath id)) as [Heq|Hne].
    + exists id. split; [done|]. left. rewrite segmentPath_named in Heq. by injection Heq as ->.
    + rewrite Hp in Hx by done. by apply D1.
  - intros id' Hid' Hx. destruct (decide (segmentPath id' = segmentPath id)) as [Heq|Hne].
    + apply segmentPath_inj in Heq as ->; [|done|done]. apply elem_of_app. right. by left.
    + rewrite Hp in Hx by done. by apply D2.
  - intros front' id' fs'' Heq. by apply snoc_inv in Heq as [-> [= <- <-]].
  - intros front' id' fs'' rest Heq Hr. apply snoc_split in Heq as (rest' & -> & Heq); [|done].
    assert (Hin : id' ∈ front.*1) by (rewrite Heq, fmap_app; apply elem_of_app; right; by left).
    rewrite Hp.
    + rewrite (D4 front' id' fs'' (rest' ++ [(id, fs)])); [done| |by destruct rest'].
      by rewrite Heq, <-app_assoc.
    + intros Hs. rewrite Forall_forall in D6. apply segmentPath_inj in Hs; [|by apply D6|done].
      pose proof (sorted_snoc_lt _ _ _ D5 Hin). lia.
  - apply Forall_app; split; [done|]. by apply Forall_singleton.
  - apply Forall_app; split; [done|]. by apply Forall_singleton.
  - apply Forall_app; split; [done|]. by apply Forall_singleton.
Qed.

Lemma sorted_ids_snoc (l : list Z) x : StronglySorted Z.lt l → Forall (λ y, y < x) l → StronglySorted Z.lt (l ++ [x]).
Proof.
  induction l as [|y l IH]; intros Hs Hl; cbn; [repeat constructor|].
  inversion_clear Hs as [|?? Hs' Hall]. apply Forall_cons in Hl as [Hy Hl]. constructor; [by apply IH|].
  apply Forall_app. by repeat constructor.
Qed.

Lemma dirOk_rotate files segs id :
  DirOk files segs [] → is_u64 id → Forall (λ id', id' < id) segs.*1 →
  DirOk (<[segmentPath id := []]> files) (segs ++ [(id, [])]) [].
Proof.
  intros [D1 D2 D3 D4 D5 D6 D7 D8 D9] Hid Hlt.
  assert (Hne : ∀ id', id' ∈ segs.*1 → <[segmentPath id := []]> files !! segmentPath id' = files !! segmentPath id').
  { intros id' Hin. rewrite Forall_forall in D6, Hlt. apply lookup_segment_insert; [done|by apply D6|].
    apply Hlt in Hin. lia. }
  split; rewrite ?fmap_app; cbn [fmap list_fmap fst].
  - intros name [x Hx]. apply lookup_insert_Some in Hx as [[Heq _]|[_ Hx]]; [|apply D1; by exists x].
    exists id. split; [done|]. left. rewrite segmentPath_named in Heq. by injection Heq as <-.
  - intros id' Hid' [x Hx]. apply lookup_insert_Some in Hx as [[Heq _]|[_ Hx]].
    + apply segmentPath_inj in Heq as ->; [|done|done]. set_solver.
    + apply elem_of_app. left. apply D2; [done|by exists x].
  - intros front' id' fs' Heq. apply snoc_inv in Heq as [_ [= <- <-]]. apply lookup_insert_eq.
  - intros front' id' fs' rest Heq Hr. apply snoc_split in Heq as (rest' & -> & Heq); [|done].
    rewrite Hne by (rewrite Heq, fmap_app; set_solver). destruct (decide (rest' = [])) as [->|Hr'].
    + rewrite (D3 front' id' fs' Heq). by rewrite app_nil_r.
    + by apply (D4 front' id' fs' rest').
  - by apply sorted_ids_snoc.
  - apply Forall_app; split; [done|]. by apply Forall_singleton.
  - apply Forall_app; split; [done|]. apply Forall_singleton, Forall_nil_2.
  - apply Forall_app; split; [done|]. by apply Forall_singleton.
  - by left.
Qed.
End directory.

Section writer.
Context `{SpoolEnvironment} {Hok : SpoolEnvironmentOk} (process_generation : nat → chars).
Abbreviation Run := (Run process_generation).
Abbreviation cursorAt := (cursorAt process_generation).
Abbreviation cursorsAt := (cursorsAt process_generation).
Implicit Types (segs front rest : list Segment) (torn : list Z) (files : gmap path (list Z)) (fs : list Frame).

(** ** A queue that has grown at its end *)
Definition Extends segs segs' : Prop := ∃ id fs rest fs' rest',
  segs = (id, fs) :: rest ∧ segs' = (id, fs ++ fs') :: rest' ∧ (rest ≠ [] → fs' = [] ∧ rest' ≠ []).

Lemma extends_refl segs : segs ≠ [] → Extends segs segs.
Proof.
  destruct segs as [|[id fs] rest]; [done|]. intros _. exists id, fs, rest, [], rest. rewrite app_nil_r. naive_solver.
Qed.

Lemma extends_grow front id fs fs' : Extends (front ++ [(id, fs)]) (front ++ [(id, fs ++ fs')]).
Proof.
  destruct front as [|[id0 fs0] front]; [by exists id, fs, [], fs', []|].
  exists id0, fs0, (front ++ [(id, fs)]), [], (front ++ [(id, fs ++ fs')]). rewrite app_nil_r.
  split_and!; [done|done|]. intros _. split; [done|]. by destruct front.
Qed.

Lemma extends_rotate segs s : segs ≠ [] → Extends segs (segs ++ [s]).
Proof.
  destruct segs as [|[id fs] rest]; [done|]. intros _. exists id, fs, rest, [], (rest ++ [s]). rewrite app_nil_r.
  split_and!; [done|done|]. intros _. split; [done|]. by destruct rest.
Qed.

Lemma entryFor_app id fs fs' j f : fs !! j = Some f → entryFor id (fs ++ fs') j f = entryFor id fs j f.
Proof. intros Hj%lookup_lt_Some. unfold entryFor. by rewrite !take_app_le by lia. Qed.

Lemma handed_extends segs segs' j a : Extends segs segs' → handed segs j a → handed segs' j a.
Proof.
  intros (id & fs & rest & fs' & rest' & -> & -> & _) (id' & fs'' & rest'' & f & [= <- <- <-] & Hj & ->).
  exists id, (fs ++ fs'), rest', f. split_and!; [done|by apply lookup_app_l_Some|by rewrite entryFor_app].
Qed.

Lemma pcOk_extends segs segs' j k writer b pc :
  Extends segs segs' → pcOk segs j k true b pc → pcOk segs' j k writer b pc.
Proof.
  intros He. pose proof (λ a, handed_extends _ _ j a He) as Hh.
  destruct He as (id & fs & rest & fs' & rest' & -> & -> & Hrest).
  destruct pc as [| |r|i result|e|a|a p|a|fault]; cbn [pcOk]; try done.
  - intros (-> & i & fs'' & rest'' & [= <- <- <-] & -> & -> & Hw). destruct Hw as [Hw|]; [|done].
    destruct (Hrest Hw) as [-> Hr']. split; [done|]. exists id, fs, rest'. rewrite app_nil_r. by split_and!; [..|left].
  - intros (-> & fs'' & rest'' & [= <- <- <-] & -> & Hw & Hres). destruct Hw as [Hw|]; [|done].
    destruct (Hrest Hw) as [-> Hr']. split; [done|]. exists fs, rest'. rewrite app_nil_r. by split_and!; [..|left|].
  - intros (-> & Hb & i & fs'' & rest'' & f & [= <- <- <-] & Hj & ->). split_and!; [done|done|].
    exists id, (fs ++ fs'), rest', f. split_and!; [done|by apply lookup_app_l_Some|by rewrite entryFor_app].
  - intros (? & ? & ?). naive_solver.
  - intros (? & ? & ? & Hp). split_and!; [done|done|by apply Hh|]. intros i fs'' rest'' [= <- <- <-].
    by apply (Hp id fs rest).
  - intros (? & ? & ?). naive_solver.
  - intros [Hk Hf]. split; [done|]. intros ->. by destruct Hf.
Qed.

Lemma cursorAt_grow n files id fs fs' k :
  (k ≤ length fs)%nat → cursorAt n files id fs k → cursorAt n files id (fs ++ fs') k.
Proof.
  intros Hk. unfold UdpSpoolInvariant.cursorAt. destruct (files !! cursorPath id) as [content|]; [|done].
  rewrite take_app_le by done. intros (c & m & Hc & Hm & Hcur). exists c, m. split_and!; [done|done|].
  destruct Hcur as [|(-> & f & Hf & _ & Hcur)]; [by left|right]. split; [done|]. exists f. rewrite length_app.
  split_and!; [done|lia|apply Hcur..].
Qed.

(** The invariant of a queue that has grown. *)
Lemma run_extends n files files' st st' pc writer segs segs' torn j k :
  Run n files st pc true segs [] j k → Extends segs segs' →
  DirOk files' (onDisk pc segs') torn → ks_segments st' = memory (retiring pc) j segs' →
  ks_retiringSegmentId st' = ks_retiringSegmentId st → ks_retirementBlocked st' = ks_retirementBlocked st →
  (∀ id, files' !! cursorPath id = files !! cursorPath id) →
  Forall (λ s : Segment, cursorAt n files s.1 s.2 0) (tail segs) →
  Forall (λ s : Segment, cursorAt n files s.1 s.2 0) (tail segs') →
  is_u64 (ks_nextSegmentId st') ∧ ks_nextSegmentId st ≤ ks_nextSegmentId st' ∧
    Forall (λ id, id < ks_nextSegmentId st') segs'.*1 →
  (StronglySorted Z.lt segs'.*1 ∧ Forall is_u64 segs'.*1 ∧ Forall (λ s : Segment, Forall FrameOk s.2) segs' ∧
    Forall (λ s : Segment, len (bytesOf s.2) ≤ maximumSegmentBytes) segs') →
  ks_pendingBytes st' - sizes segs' = ks_pendingBytes st - sizes segs → 1 ≤ ks_nextSequence st' ≤ u64_max →
  (ks_closed st' = true → writer = false) → (writer = true → torn = []) →
  Run n files' st' pc writer segs' torn j k.
Proof.
  intros [R1 R2 R3 R4 R5 R6 R7 R8 R9 R10 R11 R12 R13 R14] He HD Hmem Hret Hbl Hcf Ht Ht' (Hn1 & Hn2 & Hn3) Hall Hpend Hseq Hcl Hw.
  pose proof He as (id & fs & rest & fs' & rest' & Hs & Hs' & Hrest).
  assert (Hfront : (j ≤ frontLength segs')%nat ∧ (k ≤ frontLength segs')%nat).
  { rewrite Hs in R4. rewrite Hs'. cbn [frontLength] in *. rewrite length_app. lia. }
  assert (Hcur' : Forall (λ s : Segment, cursorAt n files' s.1 s.2 0) (tail segs')).
  { eapply Forall_impl; [exact Ht'|]. intros s Hc. exact (cursorAt_files _ n files files' _ _ _ (Hcf _) Hc). }
  split; try done.
  - rewrite Hret, R3, Hs, Hs'. done.
  - rewrite Hbl. by eapply pcOk_extends.
  - assert (Hcs : cursorsAt n files segs k → cursorsAt n files' segs' k).
    { rewrite Hs, Hs'. intros [Hc _]. split; [|by rewrite Hs' in Hcur'].
      apply (cursorAt_files _ n files files' _ _ _ (Hcf id)), cursorAt_grow; [|done]. rewrite Hs in R4. apply R4. }
    destruct pc as [| |r|i [[]|e|]|e|a|a p|a|fault]; try (by apply Hcs). done.
  - intros i Hi Hx. rewrite Hcf in Hx. specialize (R10 i Hi Hx). lia.
  - rewrite Hs, Hs' in *. cbn [readBytes snd] in *. rewrite take_app_le by apply R4. lia.
  - intros Hwr. split; [by rewrite Hs'|by apply Hw].
Qed.

Abbreviation Runs_at := (Runs_at process_generation).

Lemma run_tail_cursors n files st pc writer segs torn j k :
  Run n files st pc writer segs torn j k → Forall (λ s : Segment, cursorAt n files s.1 s.2 0) (tail segs).
Proof.
  intros HR. pose proof (ru_cursors _ _ _ _ _ _ _ _ _ _ HR) as Hc.
  assert (Hcs : cursorsAt n files segs k → Forall (λ s : Segment, cursorAt n files s.1 s.2 0) (tail segs)).
  { destruct segs as [|[id fs] rest]; [by intros; apply Forall_nil_2|]. by intros [_ Hr]. }
  destruct pc as [| |r|i [[]|e|]|e|a|a p|a|fault]; try (by apply Hcs). done.
Qed.

(** Fields that the invariant does not depend on, and closing. *)
Lemma run_state n files st st' pc writer segs j k :
  Run n files st pc true segs [] j k → ks_segments st' = ks_segments st →
  ks_retiringSegmentId st' = ks_retiringSegmentId st → ks_retirementBlocked st' = ks_retirementBlocked st →
  ks_nextSegmentId st ≤ ks_nextSegmentId st' ≤ u64_max → ks_pendingBytes st' = ks_pendingBytes st →
  ks_nextSequence st' = ks_nextSequence st → (ks_closed st' = true → writer = false) →
  Run n files st' pc writer segs [] j k.
Proof.
  intros HR Hs Hr Hb Hn Hp Hq Hc. pose proof (run_tail_cursors _ _ _ _ _ _ _ _ _ HR) as Ht.
  pose proof HR as [R1 R2 R3 R4 R5 R6 R7 R8 R9 R10 R11 R12 R13 R14]. destruct (R14 eq_refl) as [Hne _].
  apply (run_extends n files files st _ _ _ segs segs); rewrite ?Hs, ?Hr, ?Hb, ?Hp, ?Hq; try done.
  - by apply extends_refl.
  - unfold is_u64 in *. split_and!; [lia|lia|lia|]. eapply Forall_impl; [exact R8|]. cbn. lia.
Qed.

Lemma run_onDisk_snoc n files st pc front s j k :
  Run n files st pc true (front ++ [s]) [] j k → ∃ front', ∀ x, onDisk pc (front ++ [x]) = front' ++ [x].
Proof.
  intros HR. pose proof (ru_pc _ _ _ _ _ _ _ _ _ _ HR) as Hpc.
  destruct pc as [| |r|i [[]|e|]|e|a|a p|a|fault]; try by exists front.
  destruct Hpc as (_ & fs & rest & Hs & _ & [Hr|] & _); [|done].
  destruct front as [|s0 front]; [by injection Hs as _ <-|]. by exists front.
Qed.

Lemma run_retiring_front n files st pc front s j k :
  Run n files st pc true (front ++ [s]) [] j k → retiring pc = true → front ≠ [].
Proof.
  intros HR Hret ->. pose proof (ru_pc _ _ _ _ _ _ _ _ _ _ HR) as Hpc.
  destruct pc as [| |r|i result|e|a|a p|a|fault]; try done.
  - destruct Hpc as (_ & id & fs & rest & Hs & _ & _ & [Hr|]); [|done]. by injection Hs as _ <-.
  - destruct Hpc as (_ & fs & rest & Hs & _ & [Hr|] & _); [|done]. by injection Hs as _ <-.
Qed.

(** ** A new segment *)
Lemma run_rotated n files st pc segs j k :
  let id := ks_nextSegmentId st in
  Run n files st pc true segs [] j k → id + 1 ≤ u64_max →
  Run n (<[segmentPath id := []]> files)
    (set_segments (ks_segments st ++ [opened 0 (id, [])]) (set_nextSegmentId (id + 1) st)) pc true
    (segs ++ [(id, [])]) [] j k.
Proof.
  intros id HR Hn. pose proof (run_tail_cursors _ _ _ _ _ _ _ _ _ HR) as Ht.
  pose proof HR as [R1 R2 R3 R4 R5 R6 R7 R8 (R91 & R92 & R93 & R94) R10 R11 R12 R13 R14].
  destruct (R14 eq_refl) as [Hne _]. fold id in R7, R8, R10.
  assert (Hnone : files !! cursorPath id = None).
  { apply eq_None_not_Some. intros Hx%R10; [lia|done]. }
  assert (Hdir : onDisk pc (segs ++ [(id, [])]) = onDisk pc segs ++ [(id, [])]).
  { destruct pc as [| |r|i [[]|e|]|e|a|a p|a|fault]; try done. by destruct segs. }
  assert (Hsub : Forall (λ id', id' < id) (onDisk pc segs).*1).
  { destruct pc as [| |r|i [[]|e|]|e|a|a p|a|fault]; try done. destruct segs as [|s segs]; [done|].
    apply Forall_cons in R8. apply R8. }
  apply (run_extends n files _ st _ _ _ segs); cbn [ks_segments ks_retiringSegmentId ks_retirementBlocked
    ks_nextSegmentId ks_pendingBytes ks_nextSequence ks_closed set_segments set_nextSegmentId]; try done.
  - by apply extends_rotate.
  - rewrite Hdir. by apply dirOk_rotate.
  - rewrite memory_snoc by done. by rewrite R2.
  - intros id'. apply lookup_insert_ne, segment_cursor_ne.
  - destruct segs as [|s segs]; [done|]. cbn [tail app]. apply Forall_app. split; [exact Ht|].
    apply Forall_singleton. unfold UdpSpoolInvariant.cursorAt. cbn [fst snd]. by rewrite Hnone.
  - fold id. unfold is_u64 in *. split_and!; [lia|lia|lia|]. rewrite fmap_app. apply Forall_app. split.
    + eapply Forall_impl; [exact R8|]. cbn beta. lia.
    + apply Forall_singleton. cbn [fst]. lia.
  - rewrite !fmap_app. split_and!.
    + by apply sorted_ids_snoc.
    + apply Forall_app. split; [done|]. by apply Forall_singleton.
    + apply Forall_app. split; [done|]. apply Forall_singleton, Forall_nil_2.
    + apply Forall_app. split; [done|]. by apply Forall_singleton.
  - rewrite frameSizes_app. change (sizes [(id, [])]) with 0. lia.
Qed.

Lemma rotate_runs n s pc segs j k :
  Runs_at n true segs [] j k s pc →
  Runs rotate s
    (λ _ s', ∃ id, Runs_at n true (segs ++ [(id, [])]) [] j k s' pc ∧
       ks_nextSequence (sp_state s') = ks_nextSequence (sp_state s) ∧
       ks_pendingBytes (sp_state s') = ks_pendingBytes (sp_state s))
    (λ _ s', Runs_at n true segs [] j k s' pc).
Proof.
  intros HR. unfold rotate. apply runs_bind, runs_gets, runs_bind, runs_lift. unfold checked_add.
  pose proof (ru_next _ _ _ _ _ _ _ _ _ _ HR) as Hnext. unfold is_u64 in Hnext.
  case_if Hmax; cbn [ok_or Satisfies]; [|exact HR]. apply Z.leb_le in Hmax. unfold usize_max in Hmax.
  apply runs_bind, updateState_runs, runs_bind, onDisk_runs. cbn [sp_disk sp_state].
  unfold createSegment. apply runs_bind. eapply runs_mono, createFile_runs; cbn beta.
  - intros _ d [_ Hd]. apply runs_ret, updateState_runs. cbn [sp_disk sp_state]. exists (ks_nextSegmentId (sp_state s)).
    split; [|done]. unfold UdpSpoolReader.Runs_at. cbn [sp_disk sp_state]. rewrite Hd, cursorPath_segment.
    by apply run_rotated.
  - intros e d Hd. unfold UdpSpoolReader.Runs_at. cbn [sp_disk sp_state]. rewrite Hd.
    eapply run_state; [exact HR|done..| |done|done|exact (ru_closed _ _ _ _ _ _ _ _ _ _ HR)].
    cbn [ks_nextSegmentId set_nextSegmentId]. lia.
Qed.

(** ** A frame is written *)
Lemma run_front_offset n files st pc segs w torn j k front id fs :
  Run n files st pc w segs torn j k → segs = front ++ [(id, fs)] → front = [] → (j ≤ length fs)%nat.
Proof. intros HR -> ->. apply (ru_front _ _ _ _ _ _ _ _ _ _ HR). Qed.

(** The last segment after the write, with a frame or with a part of it. *)
Lemma run_written n files st st' pc front id fs fs' torn j k writer :
  Run n files st pc true (front ++ [(id, fs)]) [] j k →
  Forall FrameOk fs' → len (bytesOf (fs ++ fs')) ≤ maximumSegmentBytes →
  torn = [] ∨ (∃ f i, ∀ front, tornFrame (front ++ [(id, fs ++ fs')]) torn f i) →
  ks_segments st' = update_back (set_length (len (bytesOf (fs ++ fs')))) (ks_segments st) →
  ks_retiringSegmentId st' = ks_retiringSegmentId st → ks_retirementBlocked st' = ks_retirementBlocked st →
  ks_nextSegmentId st' = ks_nextSegmentId st → ks_pendingBytes st' = ks_pendingBytes st + len (bytesOf fs') →
  1 ≤ ks_nextSequence st' ≤ u64_max → (ks_closed st' = true → writer = false) → (writer = true → torn = []) →
  Run n (<[segmentPath id := bytesOf (fs ++ fs') ++ torn]> files) st' pc writer (front ++ [(id, fs ++ fs')]) torn j k.
Proof.
  intros HR Hfs Hsize Ht Hs Hret Hb Hn Hp Hq Hc Hw.
  pose proof (run_tail_cursors _ _ _ _ _ _ _ _ _ HR) as Htail.
  destruct (run_onDisk_snoc _ _ _ _ _ _ _ _ HR) as [front' Hdir].
  pose proof HR as [R1 R2 R3 R4 R5 R6 R7 R8 (R91 & R92 & R93 & R94) R10 R11 R12 R13 R14].
  rewrite Hdir in R1. rewrite fmap_app in *. cbn [fmap list_fmap fst] in *.
  assert (Hall : Forall FrameOk (fs ++ fs')).
  { apply Forall_app. split; [|done]. apply Forall_app in R93 as [_ R93]. apply Forall_cons in R93 as [R93 _]. exact R93. }
  apply (run_extends n files _ st _ _ _ (front ++ [(id, fs)])); rewrite ?Hn, ?fmap_app; try done.
  - apply extends_grow.
  - rewrite Hdir. eapply dirOk_last; [exact R1| |apply lookup_insert_eq|done..|].
    { intros p Hne. by apply lookup_insert_ne, not_eq_sym. }
    destruct Ht as [Ht|(f & i & Ht)]; [by left|]. right. eauto.
  - rewrite Hs, R2. apply memory_grow. intros Hfr. by apply (run_front_offset _ _ _ _ _ _ _ _ _ _ _ _ HR eq_refl).
  - intros id'. apply lookup_insert_ne, segment_cursor_ne.
  - destruct front as [|s0 front]; [done|]. cbn [tail app] in *. apply Forall_app in Htail as [Htail Hlast].
    apply Forall_app. split; [done|]. apply Forall_cons in Hlast as [Hlast _]. apply Forall_singleton. cbn [fst snd] in *.
    apply cursorAt_grow; [lia|done].
  - split_and!; [done| | |].
    + done.
    + apply Forall_app in R93 as [R93 _]. apply Forall_app. split; [done|]. by apply Forall_singleton.
    + apply Forall_app in R94 as [R94 _]. apply Forall_app. split; [done|]. by apply Forall_singleton.
  - rewrite Hp, !frameSizes_app, !sizes_cons, bytesOf_app, len_app. lia.
Qed.

Lemma bytesOf_single f : bytesOf [f] = frameOf f.
Proof. cbn. apply app_nil_r. Qed.

(** What follows the choice of the segment. *)
Definition appendFrame (headerBytes payload : list Z) (frameBytes nextPendingBytes followingSequence : Z) : onSpool unit :=
  s ← gets sp_state;
  segment ← lift (expect (last (ks_segments s)));
  let writeOffset := sg_length segment in
  file ← lift (expect (sg_file segment));
  _ ← on_disk (writeFrame file writeOffset headerBytes payload);
  length ← lift (ok_or (checked_add writeOffset frameBytes) OtherError);
  _ ← update_state (λ s, set_segments (update_back (set_length length) (ks_segments s)) s);
  _ ← update_state (set_pendingBytes nextPendingBytes);
  update_state (set_nextSequence followingSequence).

(** A queue that was closed by a failed append. *)
Definition Closes n segs j k pc (s : Spool) : Prop :=
  ∃ segs' torn, segs' ≫= entriesOf = segs ≫= entriesOf ∧
    Run n (kd_files (sp_disk s)) (sp_state s) pc false segs' torn j k.

Lemma appendFrame_runs n s pc front id fs j k f next :
  Runs_at n true (front ++ [(id, fs)]) [] j k s pc → FrameOk f →
  len (bytesOf fs) + frameLength f ≤ maximumSegmentBytes → 1 ≤ next ≤ u64_max →
  Runs (appendFrame (header_json f.1) f.2 (frameLength f) (ks_pendingBytes (sp_state s) + frameLength f) next) s
    (λ _ s', Runs_at n true (front ++ [(id, fs ++ [f])]) [] j k s' pc ∧
       ks_pendingBytes (sp_state s') = ks_pendingBytes (sp_state s) + frameLength f)
    (λ _ s', Closes n (front ++ [(id, fs)]) j k pc s').
Proof using Hok.
  intros HR Hf Hfit Hnext. unfold appendFrame. apply runs_bind, runs_gets.
  destruct (run_onDisk_snoc _ _ _ _ _ _ _ _ HR) as [front' Hdir].
  pose proof HR as [R1 R2 _ _ _ _ _ _ _ _ _ _ R13 _]. rewrite Hdir in R1.
  pose proof (dr_files _ _ _ R1 front' id fs eq_refl) as Hcontent. rewrite app_nil_r in Hcontent.
  destruct (memory_last (retiring pc) j front (id, fs)) as [offset Hlast].
  { intros Hret. by apply (run_retiring_front _ _ _ _ _ _ _ _ HR). }
  rewrite R2, Hlast. apply runs_bind, runs_lift. cbn [expect Satisfies opened inMemory sg_length sg_file fst snd].
  apply runs_bind, runs_lift. cbn [Satisfies]. apply runs_bind, onDisk_runs.
  pose proof (len_nonneg (bytesOf fs)). pose proof (len_nonneg (header_json f.1)). pose proof (len_nonneg f.2).
  eapply runs_mono, writeFrame_runs; cbn beta; [| |exact Hcontent].
  - intros _ d Hd. apply runs_bind, runs_lift. unfold checked_add, usize_max.
    rewrite (proj2 (Z.leb_le _ _)) by (unfold maximumSegmentBytes, u64_max in *; lia). cbn [ok_or Satisfies].
    apply runs_bind, updateState_runs, runs_bind, updateState_runs, updateState_runs. unfold UdpSpoolReader.Runs_at.
    cbn [sp_state sp_disk]. rewrite Hd. change (frame (header_json f.1) f.2) with (frameOf f).
    assert (Hb : bytesOf fs ++ frameOf f = bytesOf (fs ++ [f]) ++ []).
    { by rewrite bytesOf_app, bytesOf_single, app_nil_r. }
    assert (Hl : len (bytesOf fs) + frameLength f = len (bytesOf (fs ++ [f]))).
    { by rewrite bytesOf_app, bytesOf_single, len_app, len_frame. }
    split; [|done]. rewrite Hb, Hl. apply (run_written n _ (sp_state s)); try done.
    + by apply Forall_singleton.
    + by rewrite <-Hl.
    + by left.
    + rewrite bytesOf_single, len_frame. done.
  - intros e d [i Hd]. change (frame (header_json f.1) f.2) with (frameOf f) in Hd.
    exists (front ++ [(id, fs)]), (take i (frameOf f)). split; [done|]. cbn [sp_state sp_disk]. rewrite Hd.
    pose proof (run_written n (kd_files (sp_disk s)) (sp_state s) (sp_state s) pc front id fs []
      (take i (frameOf f)) j k false HR) as Hrun. rewrite !app_nil_r in Hrun. apply Hrun; try done.
    + pose proof (frameLength_nonneg f). lia.
    + right. exists f, i. intros front0. split_and!; [done|done|]. intros front1 id' fs' [-> [= <- <-]]%snoc_inv. done.
    + rewrite R2. pose proof (memory_grow (retiring pc) j front id fs []) as Hm. rewrite app_nil_r in Hm. symmetry.
      apply Hm. intros Hfr. by apply (run_front_offset _ _ _ _ _ _ _ _ _ _ _ _ HR eq_refl).
    + change (len (bytesOf [])) with 0. lia.
    + apply (ru_sequence _ _ _ _ _ _ _ _ _ _ HR).
Qed.

(** ** An event is appended *)
Lemma closes_same n s pc segs j k : Runs_at n true segs [] j k s pc → Closes n segs j k pc s.
Proof.
  intros HR. exists segs, []. split; [done|]. eapply run_state; [exact HR|done..| |done|done|done].
  pose proof (ru_next _ _ _ _ _ _ _ _ _ _ HR) as [_ Hn]. lia.
Qed.

Lemma last_segment segs : segs ≠ [] → ∃ front id fs, segs = front ++ [(id, fs)].
Proof. destruct segs as [|[id fs] front _] using rev_ind; [done|]. eauto. Qed.

(** A segment with room for the frame is there, or a new one is made. *)
Lemma room_runs n s pc segs j k bytes :
  Runs_at n true segs [] j k s pc → bytes ≤ maximumSegmentBytes →
  Runs (if shouldRotate bytes (ks_segments (sp_state s)) then rotate else mret tt) s
    (λ _ s', ∃ front id fs, Runs_at n true (front ++ [(id, fs)]) [] j k s' pc ∧
       (front ++ [(id, fs)]) ≫= entriesOf = segs ≫= entriesOf ∧ len (bytesOf fs) + bytes ≤ maximumSegmentBytes ∧
       ks_pendingBytes (sp_state s') = ks_pendingBytes (sp_state s))
    (λ _ s', Closes n segs j k pc s').
Proof.
  intros HR Hb. destruct (ru_open _ _ _ _ _ _ _ _ _ _ HR eq_refl) as [Hne _].
  destruct (last_segment segs Hne) as (front & id & fs & ->).
  destruct (memory_last (retiring pc) j front (id, fs)) as [offset Hlast].
  { intros Hret. by apply (run_retiring_front _ _ _ _ _ _ _ _ HR). }
  case_if Hr.
  - eapply runs_mono, rotate_runs; cbn beta; [| |exact HR].
    + intros _ s' (id' & HR' & _ & Hp). exists (front ++ [(id, fs)]), id', []. split_and!; [done| | |done].
      * by rewrite bind_app, app_nil_r.
      * change (len (bytesOf [])) with 0. lia.
    + intros _ s'. apply closes_same.
  - apply runs_ret. exists front, id, fs. split_and!; [done|done| |done].
    unfold shouldRotate in Hr. rewrite (ru_segments _ _ _ _ _ _ _ _ _ _ HR), Hlast in Hr.
    cbn [opened inMemory sg_length snd] in Hr. apply andb_false_iff in Hr as [Hr|Hr]; apply Z.ltb_ge in Hr; [|done].
    pose proof (len_nonneg (bytesOf fs)). lia.
Qed.

Lemma validate_frame f :
  validateFrameLengths (len (header_json f.1)) (len f.2) = Ok tt → printable (hd_clientAddress f.1) →
  printable (hd_targetAddress f.1) → 0 ≤ hd_sequence f.1 < u64_max → FrameOk f.
Proof.
  unfold validateFrameLengths. case_if H1; [done|]. case_if H2; [done|]. intros _ Hc Ht Hs.
  apply orb_false_iff in H1 as [_ H1]. apply Z.ltb_ge in H1, H2. by split.
Qed.

Lemma append_runs n s pc segs j k captured :
  Runs_at n true segs [] j k s pc → printable (ue_clientAddress (cu_event captured)) →
  printable (ue_targetAddress (cu_event captured)) →
  Runs (appendCapturedEvent captured) s
    (λ _ s', ∃ segs', Runs_at n true segs' [] j k s' pc ∧
       (∃ id, segs' ≫= entriesOf = (segs ≫= entriesOf) ++ [(id, capturedFrame (ks_nextSequence (sp_state s)) captured)]) ∧
       ks_pendingBytes (sp_state s') ≤ maximumSpoolBytes)
    (λ _ s', Closes n segs j k pc s').
Proof using Hok.
  intros HR Hpc Hpt. unfold appendCapturedEvent. apply runs_bind, runs_gets.
  destruct (ks_closed (sp_state s)) eqn:Hopen; [by discriminate (ru_closed _ _ _ _ _ _ _ _ _ _ HR Hopen)|].
  pose proof (ru_sequence _ _ _ _ _ _ _ _ _ _ HR) as Hseq.
  apply runs_bind, runs_lift. unfold checked_add at 1. case_if Hmax; cbn [ok_or Satisfies]; [|by apply closes_same].
  apply Z.leb_le in Hmax. unfold usize_max in Hmax. apply runs_bind, updateState_runs. cbn [sp_state sp_disk].
  set (s1 := {| sp_state := set_processGenerations _ _; sp_disk := _ |}).
  assert (HR1 : Runs_at n true segs [] j k s1 pc).
  { eapply run_state; [exact HR|done..| |done|done|exact (ru_closed _ _ _ _ _ _ _ _ _ _ HR)].
    pose proof (ru_next _ _ _ _ _ _ _ _ _ _ HR) as [_ Hn]. change (ks_nextSegmentId (sp_state s1)) with (ks_nextSegmentId (sp_state s)). lia. }
  pose proof (closes_same _ _ _ _ _ _ HR1) as Hclose. set (f := capturedFrame (ks_nextSequence (sp_state s)) captured).
  change (headerOf (ks_nextSequence (sp_state s)) captured) with f.1. change (ue_payload (cu_event captured)) with f.2.
  apply runs_bind, runs_lift. unfold check. case_if Hh; cbn [Satisfies]; [|exact Hclose].
  apply runs_bind, runs_lift. case_if Hp; cbn [Satisfies]; [|exact Hclose].
  apply runs_bind, runs_lift. destruct (validateFrameLengths _ _) as [[]|e|] eqn:Hv; cbn [Satisfies]; [|exact Hclose|].
  2: { unfold validateFrameLengths in Hv. destruct (_ || _) in Hv; [done|]. by destruct (_ <? _) in Hv. }
  assert (Hf : FrameOk f) by (apply validate_frame; try done; cbn; lia).
  pose proof (frameLength_bound f Hf) as Hlen.
  apply runs_bind, runs_lift. unfold checked_add at 1. case_if Hpend; cbn [ok_or Satisfies]; [|exact Hclose].
  case_if Hover; [by apply runs_fail|].
  change (frameLengthBytes + len (header_json f.1) + len f.2) with (frameLength f).
  apply runs_bind. eapply runs_mono, (room_runs n s1 pc segs j k (frameLength f)); cbn beta; [|done|done|].
  2: { unfold maximumSegmentBytes. lia. }
  intros [] s2 (front & id & fs & HR2 & Hsegs & Hfit & Hp2).
  change (ks_pendingBytes (sp_state s)) with (ks_pendingBytes (sp_state s1)). rewrite <-Hp2.
  eapply runs_mono, (appendFrame_runs n s2 pc front id fs j k f); cbn beta; [| |done|done|done|lia].
  - intros _ s3 [HR3 Hp3]. exists (front ++ [(id, fs ++ [f])]). split; [done|]. split.
    2: { apply Z.ltb_ge in Hover. rewrite Hp3, Hp2. exact Hover. }
    exists id. by rewrite <-Hsegs, entries_snoc.
  - intros _ s3 (segs' & torn & Heq & HR3). exists segs', torn. by rewrite Heq, Hsegs.
Qed.

(** The queue is closed. *)
Lemma run_close n files st pc writer segs torn j k :
  Run n files st pc writer segs torn j k → ∃ torn', Run n files (set_closed true st) pc false segs torn' j k.
Proof.
  intros HR. destruct writer.
  - destruct (ru_open _ _ _ _ _ _ _ _ _ _ HR eq_refl) as [_ ->]. exists [].
    eapply run_state; [exact HR|done..| |done|done|done].
    pose proof (ru_next _ _ _ _ _ _ _ _ _ _ HR) as [_ Hn]. cbn [ks_nextSegmentId set_closed]. lia.
  - exists torn. destruct HR. by split.
Qed.
End writer.
