(* ===== verification/UdpSpoolRecovery.v ===== *)
(** * Recovery of the UDP recording queue

    What [createSpool] finds in the capture directory, and that it resumes the log the
    directory represents; where it fails, the directory represents the same log. *)

From S2P Require Import Prelude NetAddress CaptureTypes Stateful Text UdpSpoolModel UdpSpool UdpSpoolFrames UdpSpoolSteps UdpSpoolInvariant UdpSpoolReader UdpSpoolWriter.

#[local] Opaque segmentPath cursorPath temporaryPath named.

(** ** Names of the capture directory *)
Inductive NamedFile : chars → Prop :=
| named_segment id : is_u64 id → NamedFile (named spoolFileSuffix id)
| named_cursor id : is_u64 id → NamedFile (named (lit ".ack") id)
| named_temporary id : is_u64 id → NamedFile (named (lit ".ack.next") id).

Lemma named_suffix_ne suffix suffix' c c' m n :
  last suffix = Some c → last suffix' = Some c' → c ≠ c' → named suffix m ≠ named suffix' n.
Proof.
  intros Hc Hc' Hne Heq. apply (f_equal last) in Heq. rewrite (named_last _ _ _ Hc), (named_last _ _ _ Hc') in Heq. congruence.
Qed.

Lemma legacy_not_named name : NamedFile name → name ≠ legacySpoolFileName.
Proof. intros Hn Heq. apply (f_equal (lookup 10%nat)) in Heq. by destruct Hn. Qed.

(** The segments among the names. *)
Definition Discovered (names : list chars) (l : list (Z * path)) : Prop :=
  NoDup l ∧ ∀ x, x ∈ l ↔ ∃ id, is_u64 id ∧ named spoolFileSuffix id ∈ names ∧ x = (id, segmentPath id).

Lemma discoverLoop_named names acc :
  NoDup names → Forall NamedFile names →
  ∃ l, discoverLoop names acc = Ok (acc ++ l) ∧ Discovered names l.
Proof.
  intros Hnd Hn. revert acc Hnd. induction Hn as [|name names Hname Hn IH]; intros acc Hnd; cbn [discoverLoop].
  { exists []. rewrite app_nil_r. split; [done|]. split; [constructor|]. intros x. split; [by intros ?%elem_of_nil|].
    by intros (id & _ & ?%elem_of_nil & _). }
  apply NoDup_cons in Hnd as [Hni Hnd].
  assert (Hother : segmentNumber spoolFileSuffix name = None → (∀ id, name ≠ named spoolFileSuffix id) →
    ∃ l, discoverLoop (name :: names) acc = Ok (acc ++ l) ∧ Discovered (name :: names) l).
  { intros Hs Hne. cbn [discoverLoop]. rewrite Hs. destruct (IH acc Hnd) as (l & Hl & Hld & Hlx). exists l.
    split; [done|]. split; [done|]. intros x. rewrite Hlx.
    split; intros (id & Hid & Hin & Hx); exists id; (split; [exact Hid|split; [|exact Hx]]).
    - by apply list_elem_of_further.
    - apply elem_of_cons in Hin as [Hin|Hin]; [by destruct (Hne id)|exact Hin]. }
  destruct Hname as [id Hid|id Hid|id Hid].
  - rewrite segmentNumber_named, parse_padded by done. cbn [ok_or mbind outcome_bind].
    destruct (IH (acc ++ [(id, (CaptureDirectory, named spoolFileSuffix id))]) Hnd) as (l & Hl & Hld & Hlx).
    rewrite <-segmentPath_named in Hl |- *. exists ((id, segmentPath id) :: l). split; [by rewrite Hl, <-app_assoc|]. split.
    + apply NoDup_cons. split; [|done]. intros (id' & _ & Hin & Heq)%Hlx.
      apply (f_equal fst) in Heq. cbn [fst] in Heq. subst id'. by apply Hni.
    + intros x. rewrite elem_of_cons, Hlx. split.
      * intros [->|(id' & Hid' & Hin & ->)]; [exists id|exists id']; split_and!; try done; [by left|by right].
      * intros (id' & Hid' & [Heq|Hin]%elem_of_cons & ->); [left|right; eauto].
        apply named_inj in Heq as ->; done.
  - apply Hother; [by apply (segmentNumber_other _ 108 _ 107)|].
    intros id'. by apply (named_suffix_ne _ _ 107 108).
  - apply Hother; [by apply (segmentNumber_other _ 108 _ 116)|].
    intros id'. by apply (named_suffix_ne _ _ 116 108).
Qed.

#[local] Instance smallerSegment_total : Total smallerSegment.
Proof. intros a b. unfold smallerSegment. lia. Qed.
#[local] Instance smallerSegment_trans : Transitive smallerSegment.
Proof. intros a b c. unfold smallerSegment. lia. Qed.

Section recovery.
Context `{SpoolEnvironment} {Hok : SpoolEnvironmentOk} (process_generation : nat → chars).
Abbreviation Run := (Run process_generation).
Abbreviation Off := (Off process_generation).
Abbreviation cursorAt := (cursorAt process_generation).
Abbreviation cursorsAt := (cursorsAt process_generation).
Implicit Types (segs acc rest : list Segment) (torn : list Z) (files : gmap path (list Z)) (fs : list Frame).

Definition pathsOf segs : list (Z * path) := (λ s : Segment, (s.1, segmentPath s.1)) <$> segs.

Lemma pathsOf_ids segs : (pathsOf segs).*1 = segs.*1.
Proof. unfold pathsOf. by rewrite <-list_fmap_compose. Qed.

Lemma pathsOf_sorted segs : StronglySorted Z.lt segs.*1 → StronglySorted smallerSegment (pathsOf segs) ∧ NoDup (pathsOf segs).
Proof.
  induction segs as [|s segs IH]; intros Hs; [split; constructor|]. cbn in Hs. inversion_clear Hs as [|?? Hs' Hall].
  destruct (IH Hs') as [IH1 IH2]. rewrite Forall_forall in Hall.
  assert (Hlt : ∀ x, x ∈ pathsOf segs → s.1 < x.1).
  { intros x Hx. apply (list_elem_of_fmap_2 fst) in Hx. rewrite pathsOf_ids in Hx. by apply Hall. }
  split.
  - cbn. constructor; [done|]. apply Forall_forall. intros x Hx%Hlt. unfold smallerSegment. cbn. lia.
  - cbn. apply NoDup_cons. split; [|done]. intros Hx%Hlt. cbn in Hx. lia.
Qed.

(** Every name is known, so the segments are found in their order. *)
Lemma dirOk_named files segs torn :
  DirOk files segs torn → Forall NamedFile (read_dir files CaptureDirectory).
Proof using Hok.
  intros HD. apply Forall_forall. intros name Hname%read_dir_elem.
  destruct (dr_names _ _ _ HD name Hname) as (id & Hid & [->|[->| ->]]); by constructor.
Qed.

Lemma discovered_sorted names files segs torn l :
  DirOk files segs torn → names = read_dir files CaptureDirectory → Discovered names l →
  merge_sort smallerSegment l = pathsOf segs.
Proof using Hok.
  intros HD -> [Hnd Hx]. destruct (pathsOf_sorted segs (dr_sorted _ _ _ HD)) as [Hs Hnd'].
  assert (Hmem : ∀ x, x ∈ l ↔ x ∈ pathsOf segs).
  { intros x. rewrite Hx. split.
    - intros (id & Hid & Hin%read_dir_elem & ->). rewrite <-segmentPath_named in Hin.
      apply (dr_segments _ _ _ HD) in Hin; [|done]. apply list_elem_of_fmap in Hin as (s & -> & Hin).
      apply list_elem_of_fmap. by exists s.
    - intros ([id fs] & -> & Hin)%list_elem_of_fmap. exists id. pose proof (dr_ids _ _ _ HD) as Hids.
      split_and!; [| |done].
      + rewrite Forall_forall in Hids. by apply Hids, (list_elem_of_fmap_2 fst _ (id, fs)).
      + apply read_dir_elem. rewrite <-segmentPath_named. apply list_elem_of_split in Hin as (front & rest & Heq).
        destruct (decide (rest = [])) as [->|Hr].
        * rewrite (dr_files _ _ _ HD front id fs Heq). by eexists.
        * rewrite (dr_earlier _ _ _ HD front id fs rest Heq Hr). by eexists. }
  apply (StronglySorted_unique_strong smallerSegment).
  - intros a b Ha Hb Hab Hba. rewrite merge_sort_Permutation in Ha.
    apply Hx in Ha as (id & _ & _ & ->). apply list_elem_of_fmap in Hb as ([id' fs] & -> & _).
    unfold smallerSegment in *. cbn in *. by replace id' with id by lia.
  - by apply StronglySorted_merge_sort; apply _.
  - done.
  - rewrite merge_sort_Permutation. by apply NoDup_Permutation.
Qed.

Lemma discover_runs d segs torn (P : list (Z * path) → SpoolDisk → Prop) (Q : SpoolError → SpoolDisk → Prop) :
  DirOk (kd_files d) segs torn → (∀ d', Kept (kd_files d) d' → P (pathsOf segs) d') →
  (∀ e d', Kept (kd_files d) d' → Q e d') → Runs discoverSegmentPaths d P Q.
Proof using Hok.
  intros HD HP HQ. apply grantedIo_runs; [|done]. intros d' Hd. apply runs_bind, runs_gets. cbn [id].
  destruct (discoverLoop_named (read_dir (kd_files d') CaptureDirectory) []) as (l & Hl & Hdisc).
  { apply read_dir_NoDup. }
  { rewrite Hd. by eapply dirOk_named. }
  rewrite Hl. apply runs_bind, runs_lift. cbn [app Satisfies]. apply runs_ret.
  rewrite (discovered_sorted _ _ _ _ _ HD (f_equal2 read_dir Hd eq_refl) Hdisc). by apply HP.
Qed.

(** ** Cursors without a segment are removed *)
Record Swept (live : list Z) files files' : Prop := {
  sw_segments : ∀ id, files' !! segmentPath id = files !! segmentPath id;
  sw_cursors : ∀ id, id ∈ live → is_u64 id → files' !! cursorPath id = files !! cursorPath id;
  sw_subset : ∀ p x, files' !! p = Some x → files !! p = Some x;
}.

Lemma swept_refl live files : Swept live files files.
Proof. by split. Qed.

Lemma swept_trans live files1 files2 files3 :
  Swept live files1 files2 → Swept live files2 files3 → Swept live files1 files3.
Proof.
  intros [S1 S2 S3] [T1 T2 T3]. split.
  - intros id. by rewrite T1.
  - intros id Hin Hid. by rewrite T2, S2.
  - intros p x Hx. by apply S3, T3.
Qed.

Lemma swept_delete live files p :
  (∀ id, p ≠ segmentPath id) → (∀ id, id ∈ live → is_u64 id → p ≠ cursorPath id) → Swept live files (delete p files).
Proof.
  intros Hs Hc. split.
  - intros id. by apply lookup_delete_ne.
  - intros id Hin Hid. apply lookup_delete_ne. by apply Hc.
  - by intros p' x [_ Hx]%lookup_delete_Some.
Qed.

Lemma off_files n files files' segs torn k :
  Off n files segs torn k → (∀ id, files' !! segmentPath id = files !! segmentPath id) →
  (∀ p x, files' !! p = Some x → files !! p = Some x) → cursorsAt n files' segs k → Off n files' segs torn k.
Proof.
  intros [HD Hc Hf Ht] Hs Hsub Hc'. split; try done. eapply dirOk_cursors; [exact HD|done|].
  intros name [x Hx]. left. exists x. by apply Hsub.
Qed.

Lemma off_swept n files files' segs torn k :
  Off n files segs torn k → Swept segs.*1 files files' → Off n files' segs torn k.
Proof.
  intros Hoff [S1 S2 S3]. eapply off_files; [exact Hoff|done|done|].
  pose proof (of_cursors _ _ _ _ _ _ Hoff) as Hc. pose proof (dr_ids _ _ _ (of_dir _ _ _ _ _ _ Hoff)) as Hu.
  destruct segs as [|[id fs] rest]; [done|]. cbn [fmap list_fmap fst] in *. destruct Hc as [Hc Hr].
  apply Forall_cons in Hu as [Hid Hu]. split.
  - refine (cursorAt_files _ n files files' _ _ _ (S2 id _ Hid) Hc). by left.
  - rewrite Forall_forall in Hu. rewrite Forall_forall in Hr. apply Forall_forall. intros s Hin.
    assert (Hin' : s.1 ∈ rest.*1) by (by apply list_elem_of_fmap_2).
    refine (cursorAt_files _ n files files' _ _ _ (S2 s.1 _ (Hu _ Hin')) (Hr _ Hin)). by right.
Qed.

Lemma cursorPath_named id : (CaptureDirectory, named (lit ".ack") id) = cursorPath id.
Proof. done. Qed.
Lemma temporaryPath_named id : (CaptureDirectory, named (lit ".ack.next") id) = temporaryPath id.
Proof. done. Qed.

Lemma remove_swept live p d (P : unit → SpoolDisk → Prop) :
  (∀ id, p ≠ segmentPath id) → (∀ id, id ∈ live → is_u64 id → p ≠ cursorPath id) →
  (∀ d', Swept live (kd_files d) (kd_files d') → kd_files d' !! p = None → P tt d') →
  Runs (remove_file p) d P (λ _ d', Swept live (kd_files d) (kd_files d')).
Proof.
  intros Hs Hc HP. eapply runs_mono, removeFile_runs; cbn beta.
  - intros [] d' [_ Hd]. apply HP; rewrite Hd; [by apply swept_delete|apply lookup_delete_eq].
  - intros e d' Hd. rewrite Hd. apply swept_refl.
Qed.

Lemma removeLoop_runs live names d :
  Forall NamedFile names →
  Runs (cleanupLoop live names) d
    (λ _ d', Swept live (kd_files d) (kd_files d') ∧
       ∀ id, is_u64 id → named (lit ".ack") id ∈ names → id ∉ live → kd_files d' !! cursorPath id = None)
    (λ _ d', Swept live (kd_files d) (kd_files d')).
Proof.
  intros Hn. revert d. induction Hn as [|name names Hname _ IH]; intros d; cbn [cleanupLoop].
  { apply runs_ret. split; [apply swept_refl|]. by intros id _ ?%elem_of_nil. }
  assert (Hgo : ∀ d', Swept live (kd_files d) (kd_files d') →
    (∀ id, is_u64 id → name = named (lit ".ack") id → id ∉ live → kd_files d' !! cursorPath id = None) →
    Runs (cleanupLoop live names) d'
      (λ _ d', Swept live (kd_files d) (kd_files d') ∧
         ∀ id, is_u64 id → named (lit ".ack") id ∈ name :: names → id ∉ live → kd_files d' !! cursorPath id = None)
      (λ _ d', Swept live (kd_files d) (kd_files d'))).
  { intros d1 Hd1 Hfirst. eapply runs_mono, IH; cbn beta; [|by intros e d2; apply swept_trans].
    intros _ d2 [Hd2 Hrest]. split; [by eapply swept_trans|]. intros id Hid [Heq|Hin]%elem_of_cons Hlive; [|by apply Hrest].
    apply eq_None_not_Some. intros [x Hx%(sw_subset _ _ _ Hd2)]. by rewrite Hfirst in Hx. }
  destruct Hname as [id Hid|id Hid|id Hid]; unfold cursorNumber.
  - rewrite (segmentNumber_other _ 116 _ 108), (segmentNumber_other _ 107 _ 108) by done.
    apply Hgo; [apply swept_refl|]. intros id' _ Heq. by apply (named_suffix_ne _ _ 108 107) in Heq.
  - rewrite (segmentNumber_other _ 116 _ 107), segmentNumber_named by done.
    apply runs_bind, runs_lift. rewrite parse_padded by done. cbn [ok_or Satisfies orb]. apply runs_bind.
    rewrite cursorPath_named. case_bool_decide as Hin; cbn [negb].
    + apply runs_ret, Hgo; [apply swept_refl|]. intros id' Hid' Heq Hlive. by apply named_inj in Heq as ->.
    + apply (remove_swept live); [intros i; apply not_eq_sym, segment_cursor_ne| |].
      * intros i Hi Hiu Heq. by apply cursorPath_inj in Heq as ->.
      * intros d' Hd' Hnone. apply Hgo; [done|]. intros id' Hid' Heq _. by apply named_inj in Heq as ->.
  - rewrite segmentNumber_named.
    apply runs_bind, runs_lift. rewrite parse_padded by done. cbn [ok_or Satisfies orb]. apply runs_bind.
    rewrite temporaryPath_named. apply (remove_swept live); [intros i; apply not_eq_sym, segment_temporary_ne| |].
    + intros i _ _ Heq. by apply (cursor_temporary_ne i id).
    + intros d' Hd' _. apply Hgo; [done|]. intros id' _ Heq. by apply (named_suffix_ne _ _ 116 107) in Heq.
Qed.

(** A cursor that is left belongs to a segment. *)
Definition NoOrphans files (ids : list Z) : Prop :=
  ∀ id, is_u64 id → is_Some (files !! cursorPath id) → id ∈ ids.

Lemma cleanupInterrupted_runs n d segs torn k :
  Off n (kd_files d) segs torn k →
  Runs (cleanupInterruptedCursorFiles (pathsOf segs)) d
    (λ _ d', Off n (kd_files d') segs torn k ∧ NoOrphans (kd_files d') segs.*1)
    (λ _ d', Off n (kd_files d') segs torn k).
Proof using Hok.
  intros Hoff. unfold cleanupInterruptedCursorFiles. rewrite pathsOf_ids.
  apply runs_bind, grantedIo_runs; [|by intros e d' ->]. intros d1 Hd1. apply runs_gets.
  assert (Hnames : Forall NamedFile (read_dir (kd_files d1) CaptureDirectory)).
  { rewrite Hd1. eapply dirOk_named, of_dir, Hoff. }
  eapply runs_mono, removeLoop_runs; cbn beta; [| |exact Hnames]; rewrite Hd1.
  - intros _ d2 [Hsw Hnone]. split; [by eapply off_swept|]. intros id Hid [x Hx].
    destruct (decide (id ∈ segs.*1)) as [|Hnl]; [done|]. rewrite Hnone in Hx; [done|done| |done].
    apply read_dir_elem. rewrite cursorPath_named. exists x. by apply (sw_subset _ _ _ Hsw).
  - intros e d2 Hsw. by eapply off_swept.
Qed.

(** ** One segment is read *)
Lemma sequenceAfter_bound fs next : Forall FrameOk fs → 1 ≤ next ≤ u64_max → 1 ≤ sequenceAfter fs next ≤ u64_max.
Proof.
  intros Hfs. revert next. induction Hfs as [|f fs Hf _ IH]; intros next Hn; [done|].
  apply (IH (hd_sequence f.1 + 1)). pose proof (fo_sequence f Hf). lia.
Qed.

Lemma segment_frames files segs torn acc id fs rest :
  DirOk files segs torn → segs = acc ++ (id, fs) :: rest →
  is_u64 id ∧ Forall FrameOk fs ∧ len (bytesOf fs) ≤ maximumSegmentBytes.
Proof.
  intros HD ->. pose proof (dr_ids _ _ _ HD) as Hu. pose proof (dr_frames _ _ _ HD) as Hf. pose proof (dr_sizes _ _ _ HD) as Hs.
  rewrite fmap_app in Hu. apply Forall_app in Hu as [_ Hu], Hf as [_ Hf], Hs as [_ Hs].
  apply Forall_cons in Hu as [Hu _], Hf as [Hf _], Hs as [Hs _]. done.
Qed.

Lemma scan_segment n files torn k acc id fs rest content :
  Off n files (acc ++ (id, fs) :: rest) torn k → files !! segmentPath id = Some content →
  scanExistingFrames content = Err InvalidData ∨
  content = bytesOf fs ∧ (rest = [] → torn = []) ∧
  scanExistingFrames content = Ok (len (bytesOf fs), sequenceAfter fs 1, generationsOf fs ∅).
Proof using Hok.
  intros Hoff Hc. pose proof (of_dir _ _ _ _ _ _ Hoff) as HD.
  destruct (segment_frames _ _ _ _ _ _ _ HD eq_refl) as (_ & Hfs & Hsize).
  unfold maximumSegmentBytes in Hsize.
  assert (Hscan : scanExistingFrames (bytesOf fs) = Ok (len (bytesOf fs), sequenceAfter fs 1, generationsOf fs ∅)).
  { apply scan_frames; [done|unfold u64_max; lia]. }
  destruct rest as [|s rest].
  - rewrite (dr_files _ _ _ HD acc id fs eq_refl) in Hc. injection Hc as <-.
    destruct (of_torn _ _ _ _ _ _ Hoff) as [->|(f & i & (Hf & -> & Hfit) & Hi)].
    + right. rewrite app_nil_r. done.
    + left. apply scan_torn; [done|done|done|]. specialize (Hfit acc id fs eq_refl). unfold maximumSegmentBytes, u64_max in *. lia.
  - rewrite (dr_earlier _ _ _ HD acc id fs (s :: rest) eq_refl) in Hc by done. injection Hc as <-. right. done.
Qed.

(** The read offset of a segment is where its cursor stands. *)
Lemma loadCursor_runs n d id fs k :
  (∀ m, (m < n)%nat → process_generation m ≠ process_generation n) →
  cursorAt n (kd_files d) id fs k → (k ≤ length fs)%nat → Forall FrameOk fs → len (bytesOf fs) ≤ maximumSegmentBytes →
  Runs (loadPersistedCursor (bytesOf fs) (cursorPath id) (process_generation n) id (len (bytesOf fs))) d
    (λ offset d', offset = len (bytesOf (take k fs)) ∧
       (Kept (kd_files d) d' ∨ k = 0%nat ∧ kd_files d' = delete (cursorPath id) (kd_files d)))
    (λ _ d', Kept (kd_files d) d').
Proof using Hok.
  intros Hinj Hcur Hk Hfs Hsize. unfold maximumSegmentBytes in Hsize. unfold loadPersistedCursor. apply runs_bind, exists_runs.
  unfold UdpSpoolInvariant.cursorAt in Hcur. destruct (kd_files d !! cursorPath id) as [content|] eqn:Hc.
  2: { rewrite bool_decide_false by (by intros []). apply runs_ret. subst k. split; [done|by left]. }
  rewrite bool_decide_true by by eexists. cbn [negb]. destruct Hcur as (c & m & -> & Hgen & Hcur).
  apply runs_bind, readFile_runs; [|done]. intros content d' Hc' Hd. rewrite Hc in Hc'. injection Hc' as <-.
  apply runs_bind, runs_lift. rewrite cursor_json_parse. cbn [ok_or Satisfies]. rewrite Hgen.
  destruct Hcur as [[Hm ->]|(-> & f & Hlast & _ & Hid & Hseq & Hoff)].
  - rewrite bool_decide_false by by apply Hinj. cbn [negb]. apply runs_bind. eapply runs_mono, removeFile_runs; cbn beta.
    + intros _ d'' [_ Hd'']. apply runs_ret. split; [done|]. right. by rewrite Hd'', Hd.
    + intros _ d'' Hd''. by rewrite <-Hd.
  - rewrite bool_decide_true by done. cbn [negb]. rewrite Hid, Z.eqb_refl, Hoff. cbn [negb orb].
    assert (Hsplit : bytesOf fs = bytesOf (take k fs) ++ bytesOf (drop k fs)).
    { by rewrite <-bytesOf_app, take_drop. }
    assert (Hpos : 0 < len (bytesOf (take k fs))).
    { destruct (take k fs) as [|f' l] eqn:Ht; [done|]. rewrite bytesOf_cons, len_app, len_frame.
      pose proof (len_nonneg (bytesOf l)). enough (FrameOk f') as Hf by (pose proof (frameLength_bound f' Hf); lia).
      rewrite <-(take_drop k fs), Ht in Hfs. apply Forall_cons in Hfs. apply Hfs. }
    rewrite (proj2 (Z.eqb_neq _ 0)) by lia. cbn [orb].
    pose proof (f_equal len Hsplit) as Hl. rewrite len_app in Hl. pose proof (len_nonneg (bytesOf (drop k fs))).
    rewrite (proj2 (Z.ltb_ge _ _)) by lia.
    apply runs_bind, grantedIo_runs; [|intros e d'' Hd''; unfold Kept in *; congruence]. intros d'' Hd''. apply runs_lift.
    rewrite Hsplit at 1. rewrite (cursor_accepted _ _ f); [|by apply Forall_take|done| |done|done].
    + cbn [Satisfies]. apply runs_ret. split; [done|]. left. unfold Kept in *. congruence.
    + rewrite len_app. unfold u64_max. lia.
Qed.

(** A cursor of an earlier control process goes. *)
Lemma off_uncursor n files segs torn k acc id fs rest :
  Off n files segs torn k → segs = acc ++ (id, fs) :: rest → (acc = [] → k = 0%nat) →
  Off n (delete (cursorPath id) files) segs torn k.
Proof.
  intros Hoff Hsegs Hk.
  assert (Hother : ∀ id' fs', cursorAt n files id' fs' 0 → cursorAt n (delete (cursorPath id) files) id' fs' 0).
  { intros id' fs' Hc. unfold UdpSpoolInvariant.cursorAt in *.
    destruct (decide (cursorPath id = cursorPath id')) as [->|Hne]; [by rewrite lookup_delete_eq|].
    by rewrite lookup_delete_ne. }
  eapply off_files; [exact Hoff| | |].
  - intros id'. apply lookup_delete_ne, not_eq_sym, segment_cursor_ne.
  - by intros p x [_ Hx]%lookup_delete_Some.
  - pose proof (of_cursors _ _ _ _ _ _ Hoff) as Hc. pose proof (of_dir _ _ _ _ _ _ Hoff) as HD.
    pose proof (dr_sorted _ _ _ HD) as Hs. pose proof (dr_ids _ _ _ HD) as Hu.
    destruct segs as [|[id0 fs0] tl]; [done|]. destruct Hc as [Hc Hr]. split.
    + destruct acc as [|s0 acc]; [by rewrite (Hk eq_refl) in *; apply Hother|].
      apply (cursorAt_files _ n files); [|done]. apply lookup_delete_ne. intros Heq.
      injection Hsegs as _ Htl. subst tl. cbn [fmap list_fmap fst] in *. apply Forall_cons in Hu as [Hid0 Hu].
      assert (Hin : id ∈ (acc ++ (id, fs) :: rest).*1) by (rewrite fmap_app; apply elem_of_app; right; by left).
      rewrite Forall_forall in Hu. apply cursorPath_inj in Heq; [|by apply Hu|done]. subst id0.
      inversion_clear Hs as [|?? _ Hlt]. rewrite Forall_forall in Hlt. apply Hlt in Hin. lia.
    + eapply Forall_impl; [exact Hr|]. intros s Hcs. exact (Hother _ _ Hcs).
Qed.

(** A consumed segment goes, its cursor perhaps later. *)
Lemma off_removed n files files' id fs rest torn k :
  Off n files ((id, fs) :: rest) torn k → (rest = [] → torn = []) →
  files' = delete (segmentPath id) files ∨ files' = delete (cursorPath id) (delete (segmentPath id) files) →
  Off n files' rest torn 0.
Proof.
  intros [HD Hc Hf Ht] Hlast Hfiles. pose proof (removed_files _ _ _ Hfiles) as (Hf1 & Hf2 & Hf3).
  pose proof (later_cursors _ _ _ _ _ _ _ _ (dr_sorted _ _ _ HD) (dr_ids _ _ _ HD) Hf3 Hc) as Hr.
  split.
  - eapply dirOk_tail; [exact HD|done|]. intros name. apply Hf2.
  - destruct rest as [|[id' fs'] rest]; [done|]. by apply Forall_cons in Hr.
  - lia.
  - destruct Ht as [->|(f & i & (Hfr & Htn & Hfit) & Hi)]; [by left|]. right. exists f, i. split; [|done].
    split_and!; [done|done|]. intros front id' fs' ->. by apply (Hfit ((id, fs) :: front) id').
Qed.

Record Recovered n files acc rest torn (k : nat) (v : Recovery) : Prop := {
  re_off : Off n files (acc ++ rest) torn k;
  re_orphans : NoOrphans files (acc ++ rest).*1;
  re_segments : rv_segments v = memory false k acc;
  re_pending : rv_pendingBytes v = sizes acc - readBytes acc k;
  re_sequence : 1 ≤ rv_nextSequence v ≤ u64_max;
  re_next : is_u64 (rv_nextSegmentId v);
  re_ids : Forall (λ id, id < rv_nextSegmentId v) acc.*1;
  re_torn : rest = [] → acc ≠ [] → torn = [];
}.

Lemma removeRecovered_runs n d id fs rest torn k (P : unit → SpoolDisk → Prop) (Q : SpoolError → SpoolDisk → Prop) :
  Off n (kd_files d) ((id, fs) :: rest) torn k → (rest = [] → torn = []) →
  NoOrphans (kd_files d) ((id, fs) :: rest).*1 →
  (∀ d', Off n (kd_files d') rest torn 0 → NoOrphans (kd_files d') rest.*1 → P tt d') →
  (∀ e d', Kept (kd_files d) d' ∨ Off n (kd_files d') rest torn 0 → Q e d') →
  Runs (removeRecoveredSegment (segmentPath id) (cursorPath id)) d P Q.
Proof.
  intros Hoff Hlast Hno HP HQ. unfold removeRecoveredSegment. apply runs_bind.
  assert (Hid : is_u64 id) by (pose proof (dr_ids _ _ _ (of_dir _ _ _ _ _ _ Hoff)) as Hu; by apply Forall_cons in Hu as [Hu _]).
  assert (Hnone : ∀ files', files' !! cursorPath id = None →
    (∀ p, is_Some (files' !! p) → is_Some (kd_files d !! p)) → NoOrphans files' rest.*1).
  { intros files' Hn Hsub id' Hid' Hx. pose proof (Hno id' Hid' (Hsub _ Hx)) as Hin. cbn [fmap list_fmap fst] in Hin.
    apply elem_of_cons in Hin as [->|]; [|done]. rewrite Hn in Hx. by destruct Hx. }
  eapply runs_mono, removeFile_runs; cbn beta; [|intros e d' Hd; apply HQ; by left].
  intros _ d1 [_ Hd1]. apply runs_bind, exists_runs.
  assert (Hoff1 : Off n (kd_files d1) rest torn 0) by (eapply off_removed; [exact Hoff|done|by left]).
  case_bool_decide as Hcur.
  - eapply runs_mono, removeFile_runs; cbn beta.
    + intros [] d2 [_ Hd2]. rewrite Hd1 in Hd2. apply HP.
      * eapply off_removed; [exact Hoff|done|by right].
      * rewrite Hd2. apply Hnone; [apply lookup_delete_eq|].
        by intros p [x [_ [_ Hx]%lookup_delete_Some]%lookup_delete_Some].
    + intros e d2 Hd2. apply HQ. right. by rewrite Hd2.
  - apply runs_ret, HP; [done|]. apply Hnone; [by apply eq_None_not_Some|]. rewrite Hd1.
    by intros p [x [_ Hx]%lookup_delete_Some].
Qed.

(** How much of the next segment was consumed. *)
Definition consumedOf acc (k : nat) : nat := match acc with [] => k | _ => 0 end.

Lemma next_cursor n files acc id fs rest torn k :
  Off n files (acc ++ (id, fs) :: rest) torn k →
  cursorAt n files id fs (consumedOf acc k) ∧ (consumedOf acc k ≤ length fs)%nat.
Proof.
  intros [_ Hc Hf _]. destruct acc as [|[id0 fs0] acc]; cbn [consumedOf app] in *.
  - destruct Hc as [Hc _]. done.
  - destruct Hc as [_ Hr]. apply Forall_app in Hr as [_ Hr]. apply Forall_cons in Hr as [Hr _]. split; [exact Hr|lia].
Qed.

Lemma memory_next acc k id fs :
  memory false k (acc ++ [(id, fs)]) = memory false k acc ++ [opened (len (bytesOf (take (consumedOf acc k) fs))) (id, fs)].
Proof. destruct acc as [|s acc]; [done|]. by apply memory_snoc. Qed.

Lemma pending_next acc k id fs :
  sizes (acc ++ [(id, fs)]) - readBytes (acc ++ [(id, fs)]) k =
  sizes acc - readBytes acc k + (len (bytesOf fs) - len (bytesOf (take (consumedOf acc k) fs))).
Proof.
  rewrite frameSizes_app, sizes_cons. change (sizes []) with 0. destruct acc as [|s acc]; cbn [readBytes app consumedOf snd].
  - change (sizes []) with 0. lia.
  - change (len (bytesOf (take 0 fs))) with 0. lia.
Qed.

(** A segment that was read joins the queue. *)
Lemma recovered_next n files acc id fs rest torn k v pending next nextId gens :
  Recovered n files acc ((id, fs) :: rest) torn k v → (rest = [] → torn = []) → 1 ≤ next ≤ u64_max →
  nextId = id + 1 → is_u64 nextId →
  pending = rv_pendingBytes v + (len (bytesOf fs) - len (bytesOf (take (consumedOf acc k) fs))) →
  Recovered n files (acc ++ [(id, fs)]) rest torn k
    {| rv_segments := rv_segments v ++
         [{| sg_id := id; sg_path := segmentPath id; sg_cursorPath := cursorPath id; sg_file := Some (segmentPath id);
             sg_length := len (bytesOf fs); sg_readOffset := len (bytesOf (take (consumedOf acc k) fs)) |}];
       rv_pendingBytes := pending; rv_nextSequence := next; rv_nextSegmentId := nextId;
       rv_processGenerations := gens |}.
Proof.
  intros [E1 E2 E3 E4 E5 E6 E7 E8] Hlast Hn -> Hid ->.
  split; cbn [rv_segments rv_pendingBytes rv_nextSequence rv_nextSegmentId]; rewrite <-?app_assoc; try done.
  - by rewrite E3, memory_next.
  - by rewrite E4, pending_next.
  - pose proof (dr_sorted _ _ _ (of_dir _ _ _ _ _ _ E1)) as Hs. rewrite fmap_app in *. apply Forall_app. split.
    + apply Forall_forall. intros x Hx. cbn [fmap list_fmap fst] in Hs.
      replace (acc.*1 ++ id :: rest.*1) with ((acc.*1 ++ [id]) ++ rest.*1) in Hs by by rewrite <-app_assoc.
      apply StronglySorted_app_1_l in Hs. pose proof (sorted_snoc_lt _ _ _ Hs Hx). lia.
    + apply Forall_singleton. cbn [fst]. lia.
  - intros Hr _. by apply Hlast.
Qed.

Lemma recoverSegment_runs n d acc id fs rest torn k v :
  (∀ m, (m < n)%nat → process_generation m ≠ process_generation n) →
  Recovered n (kd_files d) acc ((id, fs) :: rest) torn k v →
  Runs (recoverSegment (process_generation n) id (segmentPath id) v) d
    (λ v' d', (rest = [] → torn = []) ∧ (Recovered n (kd_files d') (acc ++ [(id, fs)]) rest torn k v' ∨
       acc = [] ∧ k = length fs ∧ Recovered n (kd_files d') [] rest torn 0 v'))
    (λ _ d', Off n (kd_files d') (acc ++ (id, fs) :: rest) torn k ∨
       acc = [] ∧ k = length fs ∧ Off n (kd_files d') rest torn 0).
Proof using Hok.
  intros Hinj HE. pose proof HE as [E1 E2 E3 E4 E5 E6 E7 E8].
  destruct (segment_frames _ _ _ _ _ _ _ (of_dir _ _ _ _ _ _ E1) eq_refl) as (Hid & Hfs & Hsize).
  destruct (next_cursor _ _ _ _ _ _ _ _ E1) as [Hcur Hk].
  unfold recoverSegment. apply runs_bind, readFile_runs; [|intros e d1 ->; by left].
  intros content d1 Hc Hd1. apply runs_bind, grantedIo_runs; [|intros e d2 ->; left; by rewrite Hd1].
  intros d2 Hd2. assert (Hfiles : kd_files d2 = kd_files d) by by rewrite Hd2. clear Hd1 Hd2 d1.
  apply runs_lift. destruct (scan_segment _ _ _ _ _ _ _ _ _ E1 Hc) as [->|(-> & Hlast & ->)]; cbn [Satisfies].
  { left. by rewrite Hfiles. }
  rewrite cursorPath_segment. apply runs_bind.
  eapply runs_mono, (loadCursor_runs n d2 id fs (consumedOf acc k)); cbn beta; [| |done|by rewrite Hfiles|done..].
  2: { intros e d3 ->. left. by rewrite Hfiles. }
  intros offset d3 [-> Hd3].
  assert (HE3 : Recovered n (kd_files d3) acc ((id, fs) :: rest) torn k v).
  { destruct Hd3 as [->|[H0 ->]]; rewrite Hfiles; [done|]. split; try done.
    - eapply off_uncursor; [exact E1|done|]. intros ->. exact H0.
    - intros id' Hid' [x [_ Hx]%lookup_delete_Some]. apply E2; [done|by exists x]. }
  pose proof (re_off _ _ _ _ _ _ _ HE3) as Hoff3.
  apply runs_bind, runs_lift. unfold checked_add at 1. case_if Hp; cbn [ok_or Satisfies]; [|by left].
  apply runs_bind, runs_lift. unfold checked_add at 1. case_if Hn; cbn [ok_or Satisfies]; [|by left].
  apply Z.leb_le in Hn. unfold usize_max in Hn. cbv zeta.
  assert (Hnext : is_u64 (id + 1)) by (unfold is_u64 in *; lia).
  assert (Hseq : 1 ≤ rv_nextSequence v `max` sequenceAfter fs 1 ≤ u64_max).
  { pose proof (sequenceAfter_bound fs 1 Hfs ltac:(unfold u64_max; lia)). lia. }
  rewrite all_read by done. case_if Hdone; [|apply runs_ret; split; [done|]; left; by apply (recovered_next _ _ _ _ _ _ _ _ v)].
  apply andb_true_iff in Hdone as [Hall%bool_decide_eq_true Hpos%Z.ltb_lt].
  destruct acc as [|s acc]; cbn [consumedOf app] in *.
  2: { destruct fs; [done|discriminate Hall]. }
  apply runs_bind. eapply (removeRecovered_runs n d3 id fs rest torn k);
    [exact Hoff3|done|apply (re_orphans _ _ _ _ _ _ _ HE3)| |].
  - intros d4 Hoff4 Hno4. apply runs_ret. split; [done|]. right. split_and!; [done|done|]. split; cbn [app rv_segments rv_pendingBytes
      rv_nextSequence rv_nextSegmentId]; try done.
    rewrite E4, Hall, firstn_all. change (sizes []) with 0. cbn [readBytes]. lia.
  - intros e d4 [->|Hoff4]; [by left|right; done].
Qed.

(** ** The whole recovery *)
Definition Resumes n (l : Log) (d : SpoolDisk) : Prop :=
  ∃ gone segs torn k, l = logOf gone segs k ∧ Off n (kd_files d) segs torn k.

Lemma recoverLoop_runs n d gone acc rest torn k v :
  (∀ m, (m < n)%nat → process_generation m ≠ process_generation n) →
  Recovered n (kd_files d) acc rest torn k v →
  Runs (recoverLoop (process_generation n) (pathsOf rest) v) d
    (λ v' d', (rest ≠ [] → torn = []) ∧
       ∃ gone' acc' k', Recovered n (kd_files d') acc' [] torn k' v' ∧ logOf gone (acc ++ rest) k = logOf gone' acc' k')
    (λ _ d', Resumes n (logOf gone (acc ++ rest) k) d').
Proof using Hok.
  intros Hinj. revert d gone acc k v. induction rest as [|[id fs] rest IH]; intros d gone acc k v HE.
  { apply runs_ret. split; [done|]. exists gone, acc, k. by rewrite app_nil_r. }
  cbn [recoverLoop pathsOf fmap list_fmap fst]. apply runs_bind.
  eapply runs_mono, recoverSegment_runs; cbn beta; [| |exact Hinj|exact HE].
  - intros v' d' [Hlast HE'].
    assert (Htorn : (rest ≠ [] → torn = []) → (id, fs) :: rest ≠ [] → torn = []).
    { intros Hr _. destruct rest; [by apply Hlast|by apply Hr]. }
    destruct HE' as [HE'|(-> & -> & HE')].
    + rewrite (app_assoc acc [(id, fs)] rest : acc ++ (id, fs) :: rest = _).
      eapply runs_mono, (IH d' gone (acc ++ [(id, fs)]) k v' HE'); [|by intros e d''].
      cbn beta. intros v'' d'' [Ht Hx]. auto.
    + cbn [app]. rewrite (logOf_pop gone id fs rest).
      eapply runs_mono, (IH d' (gone ++ entriesOf (id, fs)) [] _ v' HE'); [|by intros e d''].
      cbn beta. intros v'' d'' [Ht Hx]. auto.
  - intros e d' [Hoff|(-> & -> & Hoff)].
    + by exists gone, (acc ++ (id, fs) :: rest), torn, k.
    + cbn [app]. rewrite (logOf_pop gone id fs rest). by exists (gone ++ entriesOf (id, fs)), rest, torn, 0%nat.
Qed.

(** A recovered queue is a running one. *)
Lemma recovered_run n files segs k v st :
  Recovered n files segs [] [] k v → segs ≠ [] → ks_segments st = rv_segments v →
  ks_nextSegmentId st = rv_nextSegmentId v → ks_nextSequence st = rv_nextSequence v →
  ks_pendingBytes st = rv_pendingBytes v → ks_closed st = false → ks_retiringSegmentId st = None →
  ks_retirementBlocked st = false → Run n files st Reading true segs [] k k.
Proof.
  intros [E1 E2 E3 E4 E5 E6 E7 E8] Hne Hs Hn Hq Hp Hc Hr Hb. rewrite app_nil_r in *.
  pose proof (of_dir _ _ _ _ _ _ E1) as HD. pose proof HD as [D1 D2 D3 D4 D5 D6 D7 D8 D9].
  split; cbn [retiring onDisk]; rewrite ?Hs, ?Hn, ?Hq, ?Hp; try done.
  - split; apply (of_front _ _ _ _ _ _ E1).
  - apply (of_cursors _ _ _ _ _ _ E1).
  - intros id Hid Hx%E2; [|done]. rewrite Forall_forall in E7. by apply E7.
  - congruence.
Qed.

(** Without segments nothing is torn. *)
Lemma dirOk_empty files torn : DirOk files [] torn → DirOk files [] [].
Proof.
  intros [D1 D2 D3 D4 D5 D6 D7 D8 D9]. split; try done; [by intros [|? ?] id fs ?|by left].
Qed.

Lemma dirOk_fresh files id torn :
  DirOk files [] torn → is_u64 id → DirOk (<[segmentPath id := []]> files) [(id, [])] [].
Proof. intros HD%dirOk_empty Hid. by apply (dirOk_rotate _ [] id HD Hid), Forall_nil_2. Qed.

Lemma recovered_fresh n files torn k v id :
  Recovered n files [] [] torn k v → id = rv_nextSegmentId v →
  Off n (<[segmentPath id := []]> files) [(id, [])] [] 0 ∧ NoOrphans (<[segmentPath id := []]> files) [id].
Proof.
  intros [E1 E2 E3 E4 E5 E6 E7 E8] ->. cbn [app] in *. pose proof (of_dir _ _ _ _ _ _ E1) as HD. split.
  - split; [by eapply dirOk_fresh| |cbn; lia|by left]. split; [|apply Forall_nil_2].
    unfold UdpSpoolInvariant.cursorAt. rewrite lookup_insert_ne by apply segment_cursor_ne.
    destruct (files !! cursorPath (rv_nextSegmentId v)) as [x|] eqn:Hx; [|done].
    exfalso. assert (Hin : rv_nextSegmentId v ∈ ([] : list Segment).*1) by (apply E2; [done|by exists x]).
    by apply elem_of_nil in Hin.
  - intros id' Hid' Hx. rewrite lookup_insert_ne in Hx by apply segment_cursor_ne. by apply E2, elem_of_nil in Hx.
Qed.

(** An empty queue starts with a new segment. *)
Lemma fresh_runs n d gone torn k v (P : SpoolState → SpoolDisk → Prop) (Q : SpoolError → SpoolDisk → Prop) :
  Recovered n (kd_files d) [] [] torn k v →
  (∀ st d' segs', Run n (kd_files d') st Reading true segs' [] 0 0 → logOf gone [] k = logOf gone segs' 0 → P st d') →
  (∀ e d', Resumes n (logOf gone [] k) d' → Q e d') →
  Runs ('(segments, nextSegmentId) ←
          (segment ← createSegment (rv_nextSegmentId v);
           nextSegmentId ← lift (ok_or (checked_add (rv_nextSegmentId v) 1) InvalidData);
           mret ([segment], nextSegmentId));
        mret {| ks_segments := segments; ks_nextSegmentId := nextSegmentId; ks_nextSequence := rv_nextSequence v;
                ks_pendingBytes := rv_pendingBytes v; ks_closed := false; ks_retiringSegmentId := None;
                ks_retirementBlocked := false; ks_processGenerations := rv_processGenerations v |}) d P Q.
Proof.
  intros HE HP HQ. pose proof HE as [E1 E2 E3 E4 E5 E6 E7 E8]. apply runs_bind, runs_bind.
  unfold createSegment. apply runs_bind. eapply runs_mono, createFile_runs; cbn beta.
  2: { intros e d1 Hd1. apply HQ. exists gone, [], torn, k. split; [done|]. by rewrite Hd1. }
  intros _ d1 [_ Hd1]. destruct (recovered_fresh _ _ _ _ _ _ HE eq_refl) as [Hfresh Hno].
  assert (Hk : k = 0%nat) by (pose proof (of_front _ _ _ _ _ _ E1) as Hf; cbn in Hf; lia). subst k.
  assert (Hlog : logOf gone [] 0 = logOf gone [(rv_nextSegmentId v, [])] 0) by done.
  apply runs_ret, runs_bind, runs_lift. unfold checked_add. case_if Hmax; cbn [ok_or Satisfies].
  - apply Z.leb_le in Hmax. unfold usize_max in Hmax. apply runs_ret, runs_ret.
    apply (HP _ _ [(rv_nextSegmentId v, [])]); [|done]. rewrite Hd1.
    refine (recovered_run n _ [(rv_nextSegmentId v, [])] 0
      {| rv_segments := [opened 0 (rv_nextSegmentId v, [])]; rv_pendingBytes := rv_pendingBytes v;
         rv_nextSequence := rv_nextSequence v; rv_nextSegmentId := rv_nextSegmentId v + 1;
         rv_processGenerations := rv_processGenerations v |} _ _ _ _ _ _ _ _ _ _); try done.
    + split; cbn [rv_segments rv_pendingBytes rv_nextSequence rv_nextSegmentId app]; try done.
      { unfold is_u64 in *. lia. }
      { apply Forall_singleton. cbn [fst]. lia. }
    + cbn [ks_segments rv_segments]. rewrite cursorPath_segment. done.
  - apply HQ. exists gone, [(rv_nextSegmentId v, [])], [], 0%nat. split; [done|]. by rewrite Hd1.
Qed.

Lemma openSpool_runs n d gone segs torn k :
  (∀ m, (m < n)%nat → process_generation m ≠ process_generation n) →
  Off n (kd_files d) segs torn k →
  Runs (createSpool (process_generation n)) d
    (λ st d', (segs ≠ [] → torn = []) ∧
       ∃ gone' segs' k', Run n (kd_files d') st Reading true segs' [] k' k' ∧ logOf gone segs k = logOf gone' segs' k')
    (λ _ d', Resumes n (logOf gone segs k) d').
Proof using Hok.
  intros Hinj Hoff. unfold createSpool.
  assert (Hsame : ∀ d', Off n (kd_files d') segs torn k → Resumes n (logOf gone segs k) d').
  { intros d' Hd'. by exists gone, segs, torn, k. }
  case_if Hempty; [by apply runs_fail, Hsame|].
  apply runs_bind, grantedIo_runs; [|intros e d' Hd'; apply Hsame; by rewrite Hd'].
  intros d1 Hd1. apply runs_ret. unfold migrateLegacySpool. apply runs_bind, runs_bind, exists_runs.
  rewrite bool_decide_false.
  2: { rewrite Hd1. intros Hx%(proj2 (read_dir_elem _ _ _)). pose proof (dirOk_named _ _ _ (of_dir _ _ _ _ _ _ Hoff)) as Hn.
       rewrite Forall_forall in Hn. by apply Hn, legacy_not_named in Hx. }
  cbn [negb]. apply runs_ret, runs_bind. rewrite <-Hd1 in Hoff.
  eapply discover_runs; [apply (of_dir _ _ _ _ _ _ Hoff)| |intros e d' Hd'; apply Hsame; by rewrite Hd'].
  intros d2 Hd2. rewrite <-Hd2 in Hoff. apply runs_bind.
  eapply runs_mono, (cleanupInterrupted_runs n d2 segs torn k); cbn beta; [|by intros e d'; apply Hsame|exact Hoff].
  intros _ d3 [Hoff3 Hno]. apply runs_bind.
  eapply runs_mono, (recoverLoop_runs n d3 gone [] segs torn k); cbn beta; [| |exact Hinj|].
  3: { split; cbn [rv_segments rv_pendingBytes rv_nextSequence rv_nextSegmentId app]; try done. }
  2: { by intros e d'. }
  intros v d4 (Htorn & gone' & acc & k' & HE & Hlog). cbn [app] in Hlog. rewrite Hlog.
  pose proof HE as [E1 E2 E3 E4 E5 E6 E7 E8]. rewrite E3. destruct acc as [|s acc]; cbn [memory].
  - eapply fresh_runs; [exact HE| |done]. intros st d5 segs' HR Hlog'. split; [done|]. by exists gone', segs', 0%nat.
  - apply runs_bind, runs_ret, runs_ret. split; [done|]. exists gone', (s :: acc), k'. split; [|done].
    specialize (E8 eq_refl ltac:(done)) as ->. eapply recovered_run; [exact HE|done..].
Qed.
End recovery.
