(* ===== verification/UdpSpoolTheorems.v ===== *)
(** * The UDP recording queue is a durable first-in first-out log

    Every transition of the writer, the reader, the consumer, the service and the control
    process, whatever the operating system refuses, refines the log of [UdpSpoolSteps]. *)

From S2P Require Import Prelude NetAddress CaptureTypes Stateful Text UdpSpoolModel UdpSpool UdpSpoolFrames UdpSpoolSteps UdpSpoolInvariant UdpSpoolReader UdpSpoolWriter UdpSpoolRecovery.

#[local] Opaque segmentPath cursorPath temporaryPath named.

Section theorems.
Context `{SpoolEnvironment} {Hok : SpoolEnvironmentOk} (process_generation : nat → chars).
Abbreviation Run := (Run process_generation).
Abbreviation Off := (Off process_generation).
Abbreviation cursorAt := (cursorAt process_generation).
Abbreviation cursorsAt := (cursorsAt process_generation).
Abbreviation Represents := (Represents process_generation).
Implicit Types (segs : list Segment) (torn : list Z) (files : gmap path (list Z)) (fs : list Frame) (l : Log).

(** ** The service ends *)
Lemma cursorsAt_grow n files front id fs fs' k :
  (k ≤ frontLength (front ++ [(id, fs)]))%nat → cursorsAt n files (front ++ [(id, fs)]) k →
  cursorsAt n files (front ++ [(id, fs ++ fs')]) k.
Proof.
  intros Hk. destruct front as [|[id0 fs0] front]; cbn [app].
  - intros [Hc Hr]. split; [by apply cursorAt_grow|done].
  - intros [Hc Hr]. split; [done|]. apply Forall_app in Hr as [Hr Hl]. apply Forall_cons in Hl as [Hl _].
    apply Forall_app. split; [done|]. apply Forall_singleton. cbn [fst snd] in *. apply cursorAt_grow; [lia|exact Hl].
Qed.

Lemma frontLength_grow front id fs fs' :
  (frontLength (front ++ [(id, fs)]) ≤ frontLength (front ++ [(id, fs ++ fs')]))%nat.
Proof. destruct front as [|[id0 fs0] front]; cbn [frontLength app]; [rewrite length_app; lia|done]. Qed.

(** What is left of a failed append is nothing, a torn frame, or a whole one that the next
    recovery finds. *)
Lemma settle n files gone segs torn k :
  DirOk files segs torn → cursorsAt n files segs k → (k ≤ frontLength segs)%nat →
  ∃ segs' torn' extra, Off n files segs' torn' k ∧
    logOf gone segs' k = {| lg_frames := lg_frames (logOf gone segs k) ++ extra; lg_consumed := lg_consumed (logOf gone segs k) |} ∧
    (extra = [] ∨ ∃ x, extra = [x]).
Proof using Hok.
  intros HD Hc Hk.
  assert (Hplain : ∀ torn', DirOk files segs torn' →
      torn' = [] ∨ (∃ f j, tornFrame segs torn' f j ∧ (0 < j < length (frameOf f))%nat) →
    ∃ segs' torn' extra, Off n files segs' torn' k ∧
    logOf gone segs' k = {| lg_frames := lg_frames (logOf gone segs k) ++ extra; lg_consumed := lg_consumed (logOf gone segs k) |} ∧
    (extra = [] ∨ ∃ x, extra = [x])).
  { intros torn' HD' Ht. exists segs, torn', []. split_and!; [done|by rewrite app_nil_r|by left]. }
  destruct (dr_torn _ _ _ HD) as [->|(f & j & Htf)]; [by apply (Hplain []); [|left]|].
  pose proof Htf as (Hf & -> & Hfit). destruct (decide (length (frameOf f) ≤ j)%nat) as [Hwhole|Hpart].
  2: { destruct j as [|j]; [by apply (Hplain []); [|left]|].
       apply (Hplain (take (S j) (frameOf f)) HD). right. exists f, (S j). split; [done|lia]. }
  rewrite take_ge in HD by done.
  destruct (decide (segs = [])) as [->|Hne]; [apply (Hplain []); [by eapply dirOk_empty|by left]|].
  destruct (last_segment segs Hne) as (front & id & fs & ->). specialize (Hfit front id fs eq_refl).
  destruct (segment_frames _ _ _ _ _ _ _ HD eq_refl) as (_ & Hfs & Hsize).
  exists (front ++ [(id, fs ++ [f])]), [], [(id, f)]. split_and!; [| |right; by eexists].
  - split; [|by apply cursorsAt_grow| |by left].
    + eapply dirOk_last; [exact HD|done| | | |by left].
      * rewrite (dr_files _ _ _ HD front id fs eq_refl), bytesOf_app, bytesOf_single, app_nil_r. done.
      * apply Forall_app. split; [done|]. by apply Forall_singleton.
      * rewrite bytesOf_app, bytesOf_single, len_app, len_frame. done.
    + etransitivity; [exact Hk|apply frontLength_grow].
  - unfold logOf. cbn [lg_frames lg_consumed]. by rewrite entries_snoc, app_assoc.
Qed.

Lemma run_ends n files st pc writer gone segs torn j k :
  Run n files st pc writer segs torn j k →
  ∃ gone' segs' torn' k' extra, Off n files segs' torn' k' ∧
    logOf gone' segs' k' = {| lg_frames := lg_frames (logOf gone segs k) ++ extra; lg_consumed := lg_consumed (logOf gone segs k) |} ∧
    (extra = [] ∨ ∃ x, extra = [x]).
Proof using Hok.
  intros HR. pose proof HR as [R1 R2 R3 [_ Rk] R5 R6 R7 R8 R9 R10 R11 R12 R13 R14].
  assert (Hsame : onDisk pc segs = segs → cursorsAt n files segs k →
    ∃ gone' segs' torn' k' extra, Off n files segs' torn' k' ∧
    logOf gone' segs' k' = {| lg_frames := lg_frames (logOf gone segs k) ++ extra; lg_consumed := lg_consumed (logOf gone segs k) |} ∧
    (extra = [] ∨ ∃ x, extra = [x])).
  { intros Hdir Hc. rewrite Hdir in R1. destruct (settle n files gone segs torn k R1 Hc Rk) as (segs' & torn' & extra & Hs).
    by exists gone, segs', torn', k, extra. }
  destruct pc as [| |r|id [[]|e|]|e|a|a p|a|fault]; try (by apply Hsame). clear Hsame.
  destruct R5 as (-> & fs & rest & -> & -> & Hw & _). cbn [onDisk tail] in *.
  destruct (settle n files (gone ++ entriesOf (id, fs)) rest torn 0 R1) as (segs' & torn' & extra & Hs).
  - destruct rest as [|[id' fs'] rest]; [done|]. by apply Forall_cons in R6.
  - lia.
  - rewrite (logOf_pop gone id fs rest). by exists (gone ++ entriesOf (id, fs)), segs', torn', 0%nat, extra.
Qed.

(** A new control process reads the first segment again. *)
Lemma off_next n files segs torn k : Off n files segs torn k → Off (S n) files segs torn 0.
Proof.
  intros [HD Hc Hf Ht].
  assert (Hcur : ∀ id fs k, cursorAt n files id fs k → cursorAt (S n) files id fs 0).
  { intros id fs k'. unfold UdpSpoolInvariant.cursorAt. destruct (files !! cursorPath id); [|done].
    intros (c & m & Hct & Hm & Hcase). exists c, m. split_and!; [done|done|]. left. split; [|done].
    destruct Hcase as [[? _]|[-> _]]; lia. }
  split; [done| |lia|done]. destruct segs as [|[id fs] rest]; [done|]. destruct Hc as [Hc Hr].
  split; [by eapply Hcur|]. eapply Forall_impl; [exact Hr|]. intros s Hs. exact (Hcur _ _ _ Hs).
Qed.

Lemma represents_off s l gone segs torn k :
  l = logOf gone segs k → sy_process s = None → Off (sy_generation s) (kd_files (sy_disk s)) segs torn k → Represents s l.
Proof. intros -> Hp Hoff. exists gone, segs, torn, k. by rewrite Hp. Qed.

Lemma log_extend t l extra :
  t = ServiceEnds ∨ t = ProcessEnds → (extra = [] ∨ ∃ x, extra = [x]) →
  rtc (LogStep t) l {| lg_frames := lg_frames l ++ extra; lg_consumed := lg_consumed l |}.
Proof.
  intros Ht [->|[f ->]].
  - rewrite app_nil_r. destruct l. apply rtc_refl.
  - by apply rtc_once, log_settle.
Qed.

(** ** The refinement, transition by transition *)
Definition Refined (t : Transition) l (r : outcome unit System) : Prop :=
  ∃ s' l', r = Ok s' ∧ rtc (LogStep t) l l' ∧ Represents s' l'.

Lemma refined_same t l s : Represents s l → Refined t l (Ok s).
Proof. intros HR. exists s, l. by split_and!; [|apply rtc_refl|]. Qed.

Lemma refined_running t l s s0 sp pc writer gone segs torn j k :
  s = running s0 sp pc writer → l = logOf gone segs k →
  Run (sy_generation s0) (kd_files (sp_disk sp)) (sp_state sp) pc writer segs torn j k →
  Refined t l (Ok s).
Proof. intros -> -> HR. apply refined_same. exists gone, segs, torn, k. split; [done|]. by exists j. Qed.

(** Addresses that are printed in full. *)
Definition Printable (t : Transition) : Prop :=
  match t with
  | Append captured => printable (ue_clientAddress (cu_event captured)) ∧ printable (ue_targetAddress (cu_event captured))
  | _ => True
  end.

Lemma refines_append captured s p gone segs torn j k :
  Printable (Append captured) → sy_process s = Some p →
  Run (sy_generation s) (kd_files (sy_disk s)) (pr_state p) (pr_reader p) (pr_writer p) segs torn j k →
  Refined (Append captured) (logOf gone segs k) (transition process_generation (Append captured) s).
Proof using Hok.
  intros [Hpc Hpt] Hp HR. cbn [transition]. rewrite Hp. destruct (pr_writer p) eqn:Hw.
  2: { apply refined_same. exists gone, segs, torn, k. rewrite Hp. split; [done|]. exists j. by rewrite Hw. }
  destruct (ru_open _ _ _ _ _ _ _ _ _ _ HR eq_refl) as [_ ->].
  pose proof (append_runs process_generation (sy_generation s) (spoolOf s p) (pr_reader p) segs j k captured HR Hpc Hpt) as Ha.
  unfold Runs in Ha. destruct (appendCapturedEvent captured (spoolOf s p)) as [sp [[]|e|]]; [| |done].
  - destruct Ha as (segs' & HR' & [id Hsegs] & _). do 2 eexists. split_and!; [done| |].
    + apply rtc_once, (log_append captured id (ks_nextSequence (pr_state p))).
    + exists gone, segs', [], k. split; [|by exists j]. unfold logOf. cbn [lg_frames lg_consumed]. f_equal.
      by rewrite Hsegs, app_assoc.
  - destruct Ha as (segs' & torn' & Hsegs & HR').
    eapply (refined_running _ _ _ s _ _ _ gone segs'); [done| |exact HR']. unfold logOf. by rewrite Hsegs.
Qed.

Lemma refines_reader s p gone segs torn j k :
  sy_process s = Some p →
  Run (sy_generation s) (kd_files (sy_disk s)) (pr_state p) (pr_reader p) (pr_writer p) segs torn j k →
  Refined ReaderMoves (logOf gone segs k) (transition process_generation ReaderMoves s).
Proof using Hok.
  intros Hp HR. cbn [transition]. rewrite Hp.
  pose proof (reader_step process_generation (sy_generation s) (spoolOf s p) _ _ _ _ _ _ gone HR) as Hs. unfold Goes in Hs.
  destruct (readerStep _ _ (spoolOf s p)) as [[sp pc]|e|]; [|done..]. cbn [mbind outcome_bind].
  destruct Hs as (gone' & segs' & j' & k' & HR' & Hl). do 2 eexists. split_and!; [done| |].
  2: { exists gone', segs', torn, k'. split; [done|]. by exists j'. }
  destruct Hl as [->|[Hlt ->]]; [apply rtc_refl|]. by apply rtc_once, log_consume.
Qed.

Lemma refines_consumer t s p gone segs torn j k :
  t = ConsumerAcknowledges ∨ t = ConsumerQuits → sy_process s = Some p →
  Run (sy_generation s) (kd_files (sy_disk s)) (pr_state p) (pr_reader p) (pr_writer p) segs torn j k →
  Refined t (logOf gone segs k) (transition process_generation t s).
Proof.
  intros Ht Hp HR.
  assert (Hsame : Represents s (logOf gone segs k)).
  { exists gone, segs, torn, k. rewrite Hp. split; [done|]. by exists j. }
  pose proof (ru_pc _ _ _ _ _ _ _ _ _ _ HR) as Hpc.
  destruct Ht as [-> | ->]; cbn [transition]; rewrite Hp; destruct (pr_reader p) eqn:Hr; try by apply refined_same.
  - destruct Hpc as (-> & Hb & id & fs & rest & f & -> & Hj & ->).
    eapply (refined_running _ _ _ s); [done|done|]. eapply run_pc; [exact HR|done|done|].
    split_and!; [done|done|]. by exists id, fs, rest, f.
  - eapply (refined_running _ _ _ s); [done|done|]. eapply run_ended; [exact HR|done|]. left. apply Hpc.
Qed.

Lemma refines_end t s l gone segs torn k :
  t = ServiceEnds ∨ t = ProcessEnds → l = logOf gone segs k →
  (∃ gone' segs' torn' k' extra, Off (sy_generation s) (kd_files (sy_disk s)) segs' torn' k' ∧
    logOf gone' segs' k' = {| lg_frames := lg_frames l ++ extra; lg_consumed := lg_consumed l |} ∧
    (extra = [] ∨ ∃ x, extra = [x])) →
  Refined t l (transition process_generation t s).
Proof.
  intros Ht -> (gone' & segs' & torn' & k' & extra & Hoff & Hl & Hx).
  pose proof (log_extend t (logOf gone segs k) extra Ht Hx) as Hsteps. rewrite <-Hl in Hsteps.
  destruct Ht as [-> | ->]; cbn [transition]; do 2 eexists; (split_and!; [done| |]).
  - exact Hsteps.
  - by eapply represents_off.
  - eapply rtc_r; [exact Hsteps|]. apply (log_replay _ (length gone')). cbn. lia.
  - eapply (represents_off _ _ gone' segs' torn' 0); [|done|by eapply off_next].
    unfold logOf. cbn [lg_frames]. f_equal. lia.
Qed.

Lemma refines_start s gone segs torn k :
  (∀ m n, process_generation m = process_generation n → m = n) → sy_process s = None →
  Off (sy_generation s) (kd_files (sy_disk s)) segs torn k →
  Refined ServiceStarts (logOf gone segs k) (transition process_generation ServiceStarts s).
Proof using Hok.
  intros Hinj Hp Hoff. cbn [transition]. rewrite Hp.
  pose proof (openSpool_runs process_generation (sy_generation s) (sy_disk s) gone segs torn k) as Hc.
  unfold Runs in Hc. destruct (createSpool _ (sy_disk s)) as [d [st|e|]].
  - destruct Hc as (_ & gone' & segs' & k' & HR & Hl); [|done|].
    { intros m Hm Heq. apply Hinj in Heq. lia. }
    by eapply (refined_running _ _ _ s _ _ _ gone' segs').
  - destruct Hc as (gone' & segs' & torn' & k' & Hl & Hoff'); [|done|].
    { intros m Hm Heq. apply Hinj in Heq. lia. }
    apply refined_same. by apply (represents_off _ _ gone' segs' torn' k').
  - exfalso. apply Hc; [|done]. intros m Hm Heq. apply Hinj in Heq. lia.
Qed.

(** The empty directory. *)
Lemma empty_represents answers :
  Represents (emptySystem answers)
    {| lg_frames := []; lg_consumed := 0 |}.
Proof.
  exists [], [], [], 0%nat. split; [done|]. cbn. split; [|done|done|by left]. split; try done; try by constructor.
  - by intros name [x Hx].
  - by intros id _ [x Hx].
  - intros front id fs Heq. by destruct front.
  - intros front id fs rest Heq. by destruct front.
Qed.

Lemma transition_refined t s l :
  (∀ m n, process_generation m = process_generation n → m = n) → Printable t → Represents s l →
  Refined t l (transition process_generation t s).
Proof using Hok.
  intros Hinj Hpr (gone & segs & torn & k & Hl & Hs).
  assert (HR : Represents s l) by by exists gone, segs, torn, k.
  destruct (sy_process s) as [p|] eqn:Hp.
  - destruct Hs as [j Hs]. subst l. destruct t.
    + by eapply refines_append.
    + cbn [transition]. rewrite Hp. destruct (run_close _ _ _ _ _ _ _ _ _ _ Hs) as [torn' Hs'].
      by eapply (refined_running _ _ _ s _ _ _ gone segs torn').
    + by eapply refines_reader.
    + eapply refines_consumer; eauto.
    + eapply refines_consumer; eauto.
    + eapply (refines_end _ s _ gone segs torn k); [by left|done|]. by eapply run_ends.
    + eapply (refines_end _ s _ gone segs torn k); [by right|done|]. by eapply run_ends.
    + cbn [transition]. rewrite Hp. by apply refined_same.
    + cbn [transition]. apply refined_same. exists gone, segs, torn, k. cbn. rewrite Hp. split; [done|]. by exists j.
  - assert (Hsame : Refined t l (Ok s)) by by apply refined_same. destruct t; cbn [transition]; rewrite ?Hp; try exact Hsame.
    + eapply (refines_end ServiceEnds s _ gone segs torn k); [by left|exact Hl|]. exists gone, segs, torn, k, []. rewrite app_nil_r.
      split_and!; [done|by subst l|by left].
    + eapply (refines_end ProcessEnds s _ gone segs torn k); [by right|exact Hl|]. exists gone, segs, torn, k, []. rewrite app_nil_r.
      split_and!; [done|by subst l|by left].
    + subst l. pose proof (refines_start s gone segs torn k Hinj Hp Hs) as Hst. cbn [transition] in Hst. by rewrite Hp in Hst.
    + apply refined_same. exists gone, segs, torn, k. done.
Qed.

Lemma transitions_refined ts s l :
  (∀ m n, process_generation m = process_generation n → m = n) → Forall Printable ts → Represents s l →
  ∃ s' l', transitions process_generation ts s = Ok s' ∧ LogRun ts l l' ∧ Represents s' l'.
Proof using Hok.
  intros Hinj Hts. revert s l. induction Hts as [|t ts Ht _ IH]; intros s l HR.
  { exists s, l. split_and!; [done|constructor|done]. }
  destruct (transition_refined t s l Hinj Ht HR) as (s1 & l1 & Hs1 & Hl1 & HR1).
  destruct (IH s1 l1 HR1) as (s2 & l2 & Hs2 & Hl2 & HR2). exists s2, l2. cbn [transitions]. rewrite Hs1.
  split_and!; [done| |done]. by econstructor.
Qed.

(** C3: From an empty directory, every run of the writer, the reader and the consumer, of services
    and control processes that stop, die and start again, and of a disk that refuses operations,
    ends without panic and follows a run of the abstract log that the state then represents:
    appends at its end, consumption in order from its front, replay only by a new process. *)
Theorem spool_refines_log answers ts :
  (∀ m n, process_generation m = process_generation n → m = n) → Forall Printable ts →
  ∃ s l, transitions process_generation ts (emptySystem answers) = Ok s ∧
    LogRun ts {| lg_frames := []; lg_consumed := 0 |} l ∧ Represents s l.
Proof using Hok. intros Hinj Hts. apply transitions_refined; [done|done|]. apply empty_represents. Qed.

(** Only an append, or the end of a service or a process, adds a frame. *)
Definition keepsFrames (t : Transition) : bool :=
  match t with Append _ | ServiceEnds | ProcessEnds => false | _ => true end.

Lemma log_frames_kept t l l' : keepsFrames t = true → rtc (LogStep t) l l' → lg_frames l' = lg_frames l.
Proof.
  intros Ht. induction 1 as [|l1 l2 l3 Hs _ IH]; [done|]. rewrite IH. clear IH.
  destruct Hs as [| | |t f l0 [-> | ->]|]; done.
Qed.

(** ** What the consumer is handed *)
Lemma log_next gone segs id fs rest j f :
  segs = (id, fs) :: rest → fs !! j = Some f → lg_frames (logOf gone segs j) !! lg_consumed (logOf gone segs j) = Some (id, f).
Proof.
  intros -> Hj. unfold logOf. cbn [lg_frames lg_consumed mbind list_bind].
  rewrite lookup_app_r by lia. replace (length gone + j - length gone)%nat with j by lia.
  apply lookup_app_l_Some. unfold entriesOf. cbn [fst snd]. by rewrite list_lookup_fmap, Hj.
Qed.

Lemma delivered_entry s l p e :
  Represents s l → sy_process s = Some p → pr_reader p = Delivered e →
  ∃ id f offset, lg_frames l !! lg_consumed l = Some (id, f) ∧ e = entryOf id offset (f.1, f.2, offset + frameLength f).
Proof.
  intros (gone & segs & torn & k & -> & Hs) Hp Hd. rewrite Hp in Hs. destruct Hs as [j HR].
  pose proof (ru_pc _ _ _ _ _ _ _ _ _ _ HR) as Hpc. rewrite Hd in Hpc.
  destruct Hpc as (-> & _ & id & fs & rest & f & Hsegs & Hj & ->).
  exists id, f, (len (bytesOf (take j fs))). split; [by eapply log_next|]. by rewrite entry_offset.
Qed.

Lemma directionOf_wire d : directionOf (directionWire d) = d.
Proof. by destruct d. Qed.

Lemma entryOf_captured id offset endOffset sequence captured :
  let e := entryOf id offset ((capturedFrame sequence captured).1, (capturedFrame sequence captured).2, endOffset) in
  en_segmentId e = id ∧ en_sequence e = sequence ∧ en_event e = cu_event captured ∧
  en_recordingProcessGeneration e = cu_recordingProcessGeneration captured ∧
  en_recordingEpoch e = cu_recordingEpoch captured.
Proof.
  cbn. split_and!; [done|done| |done|done]. rewrite directionOf_wire. by destruct (cu_event captured).
Qed.

(** The entry the consumer is handed is the first frame of the log that is not consumed, with
    the datagram, the epoch, the sequence number and the segment it was captured in. *)
Theorem delivered_is_next s l p e :
  Represents s l → sy_process s = Some p → pr_reader p = Delivered e →
  ∃ segmentId f, lg_frames l !! lg_consumed l = Some (segmentId, f) ∧
    ∀ sequence captured, f = capturedFrame sequence captured →
      en_segmentId e = segmentId ∧ en_sequence e = sequence ∧ en_event e = cu_event captured ∧
      en_recordingProcessGeneration e = cu_recordingProcessGeneration captured ∧
      en_recordingEpoch e = cu_recordingEpoch captured.
Proof.
  intros HR Hp Hd. destruct (delivered_entry s l p e HR Hp Hd) as (id & f & offset & Hf & ->).
  exists id, f. split; [done|]. intros sequence captured ->. apply entryOf_captured.
Qed.

(** A reader that has ended without a fault has seen the queue closed and consumed the whole log. *)
Theorem ended_is_drained s l p :
  Represents s l → sy_process s = Some p → pr_reader p = Ended None →
  pr_writer p = false ∧ lg_consumed l = length (lg_frames l).
Proof.
  intros (gone & segs & torn & k & -> & Hs) Hp Hd. rewrite Hp in Hs. destruct Hs as [j HR].
  pose proof (ru_pc _ _ _ _ _ _ _ _ _ _ HR) as Hpc. pose proof (ru_front _ _ _ _ _ _ _ _ _ _ HR) as [_ Hk].
  rewrite Hd in Hpc. destruct Hpc as [_ Hend]. destruct (Hend eq_refl) as [-> Hw]. split; [done|].
  cbn [frontLength] in Hk. unfold logOf. cbn. rewrite app_nil_r. lia.
Qed.

(** ** Budgets *)
Definition loggedLength (x : Logged) : Z := frameLength x.2.

Lemma sum_entries id fs : sum_by loggedLength (entriesOf (id, fs)) = len (bytesOf fs).
Proof.
  rewrite len_bytesOf. unfold entriesOf. cbn [fst snd]. induction fs as [|f fs IH]; [done|].
  rewrite fmap_cons. unfold sum_by in *. cbn [foldr]. by rewrite IH.
Qed.

Lemma sum_segments segs : sum_by loggedLength (segs ≫= entriesOf) = sizes segs.
Proof.
  induction segs as [|[id fs] rest IH]; [done|]. cbn [mbind list_bind].
  by rewrite sum_by_app, sum_entries, IH, sizes_cons.
Qed.

Lemma unread_bytes segs j :
  (j ≤ frontLength segs)%nat → sizes segs - readBytes segs j = sum_by loggedLength (drop j (segs ≫= entriesOf)).
Proof.
  destruct segs as [|[id fs] rest]; [by destruct j|]. cbn [frontLength readBytes snd]. intros Hj.
  rewrite sizes_cons. cbn [mbind list_bind].
  rewrite drop_app_le, sum_by_app, sum_segments by by rewrite length_entriesOf.
  unfold entriesOf. cbn [fst snd]. rewrite <-fmap_drop. change (pair id <$> drop j fs) with (entriesOf (id, drop j fs)).
  pose proof (f_equal (λ fs, len (bytesOf fs)) (take_drop j fs)) as Hl. cbn beta in Hl.
  rewrite bytesOf_app, len_app in Hl. rewrite sum_entries. lia.
Qed.

(** Between the write of a cursor and the update of the queue the frame is still counted. *)
Definition committing (pc : ReaderPc) : bool :=
  match pc with AckCommit _ | Ended _ => true | _ => false end.

(** Between acknowledgements the pending bytes are exactly the lengths of the frames that are not
    consumed. *)
Theorem pending_is_unread s l p :
  Represents s l → sy_process s = Some p → committing (pr_reader p) = false →
  ks_pendingBytes (pr_state p) = sum_by loggedLength (drop (lg_consumed l) (lg_frames l)).
Proof.
  intros (gone & segs & torn & k & -> & Hs) Hp Hc. rewrite Hp in Hs. destruct Hs as [j HR].
  rewrite (ru_pending _ _ _ _ _ _ _ _ _ _ HR). pose proof (ru_front _ _ _ _ _ _ _ _ _ _ HR) as [Hj _].
  rewrite unread_bytes by done. unfold logOf. cbn [lg_frames lg_consumed].
  assert (k = j) as -> by (pose proof (ru_pc _ _ _ _ _ _ _ _ _ _ HR) as Hpc; destruct (pr_reader p); try done; apply Hpc).
  rewrite drop_app_ge by lia. do 2 f_equal. lia.
Qed.

Lemma memory_sizes b j segs :
  Forall (λ s : Segment, len (bytesOf s.2) ≤ maximumSegmentBytes) segs →
  Forall (λ g, sg_length g ≤ maximumSegmentBytes) (memory b j segs).
Proof.
  destruct segs as [|s rest]; [constructor|]. intros [Hs Hr]%Forall_cons. cbn [memory]. constructor; [done|].
  apply Forall_fmap. eapply Forall_impl; [exact Hr|]. done.
Qed.

Lemma append_represents s l p captured :
  Represents s l → sy_process s = Some p → pr_writer p = true → Printable (Append captured) →
  match appendCapturedEvent captured (spoolOf s p) with
  | (sp, Ok _) =>
      (∃ segmentId, Represents (running s sp (pr_reader p) true)
        {| lg_frames := lg_frames l ++ [(segmentId, capturedFrame (ks_nextSequence (pr_state p)) captured)];
           lg_consumed := lg_consumed l |}) ∧
      ks_pendingBytes (sp_state sp) ≤ maximumSpoolBytes ∧
      Forall (λ g, sg_length g ≤ maximumSegmentBytes) (ks_segments (sp_state sp))
  | (sp, Err _) => Represents (running s sp (pr_reader p) false) l
  | (_, Panic) => False
  end.
Proof using Hok.
  intros (gone & segs & torn & k & -> & Hs) Hp Hw [Hpc Hpt]. rewrite Hp in Hs. destruct Hs as [j HR]. rewrite Hw in HR.
  destruct (ru_open _ _ _ _ _ _ _ _ _ _ HR eq_refl) as [_ ->].
  pose proof (append_runs process_generation (sy_generation s) (spoolOf s p) (pr_reader p) segs j k captured HR Hpc Hpt) as Hr.
  unfold Runs in Hr. destruct (appendCapturedEvent captured (spoolOf s p)) as [sp [[]|e|]]; [| |done].
  - destruct Hr as (segs' & HR' & [id Hsegs] & Hmax). split_and!; [|done|].
    + exists id, gone, segs', [], k. split; [|by exists j]. unfold logOf. cbn [lg_frames lg_consumed]. f_equal.
      by rewrite Hsegs, app_assoc.
    + rewrite (ru_segments _ _ _ _ _ _ _ _ _ _ HR'). apply memory_sizes, (ru_all _ _ _ _ _ _ _ _ _ _ HR').
  - destruct Hr as (segs' & torn' & Hsegs & HR'). exists gone, segs', torn', k.
    split; [unfold logOf; by rewrite Hsegs|by exists j].
Qed.

(** An append that succeeds adds exactly the captured frame at the end of the log, under the next
    sequence number, and leaves the pending bytes and every segment within their limits; one
    that fails, for whatever reason, leaves the log as it was; it never panics. *)
Theorem append_outcome s l p captured :
  Represents s l → sy_process s = Some p → pr_writer p = true → Printable (Append captured) →
  match appendCapturedEvent captured (spoolOf s p) with
  | (sp, Ok _) =>
      (∃ segmentId, Represents (running s sp (pr_reader p) true)
        {| lg_frames := lg_frames l ++ [(segmentId, capturedFrame (ks_nextSequence (pr_state p)) captured)];
           lg_consumed := lg_consumed l |}) ∧
      ks_pendingBytes (sp_state sp) ≤ maximumSpoolBytes ∧
      Forall (λ g, sg_length g ≤ maximumSegmentBytes) (ks_segments (sp_state sp))
  | (sp, Err _) => Represents (running s sp (pr_reader p) false) l
  | (_, Panic) => False
  end.
Proof using Hok. apply append_represents. Qed.

(** ** A torn frame *)
Lemma torn_scan n files segs torn k id content e :
  Off n files segs torn k → is_u64 id → files !! segmentPath id = Some content → scanExistingFrames content = Err e →
  segs ≠ [] ∧ torn ≠ [].
Proof using Hok.
  intros Hoff Hid Hc Hscan. pose proof (of_dir _ _ _ _ _ _ Hoff) as HD.
  pose proof (dr_segments _ _ _ HD id Hid (mk_is_Some _ _ Hc)) as Hin.
  apply list_elem_of_fmap in Hin as ([id' fs] & -> & Hin). cbn [fst] in *.
  apply list_elem_of_split in Hin as (front & rest & ->). split; [by destruct front|]. intros ->.
  destruct (segment_frames _ _ _ _ _ _ _ HD eq_refl) as (_ & Hfs & Hsize).
  assert (content = bytesOf fs) as ->.
  { destruct (decide (rest = [])) as [->|Hr].
    - rewrite (dr_files _ _ _ HD front id' fs eq_refl), app_nil_r in Hc. congruence.
    - rewrite (dr_earlier _ _ _ HD front id' fs rest eq_refl Hr) in Hc. congruence. }
  rewrite scan_frames in Hscan; [done|done|]. unfold maximumSegmentBytes, u64_max in *. lia.
Qed.

(** C23: A service does not start on a segment that does not parse into whole frames, and the log
    stays what it was. *)
Theorem torn_segment_refused s l id content e :
  (∀ m n, process_generation m = process_generation n → m = n) → Represents s l → sy_process s = None → is_u64 id →
  kd_files (sy_disk s) !! segmentPath id = Some content → scanExistingFrames content = Err e →
  ∃ s', transition process_generation ServiceStarts s = Ok s' ∧ sy_process s' = None ∧ Represents s' l.
Proof using Hok.
  intros Hinj (gone & segs & torn & k & -> & Hoff) Hp Hid Hc Hscan. rewrite Hp in Hoff.
  destruct (torn_scan _ _ _ _ _ _ _ _ Hoff Hid Hc Hscan) as [Hsegs Htorn].
  assert (Hne : ∀ m, (m < sy_generation s)%nat → process_generation m ≠ process_generation (sy_generation s)).
  { intros m Hm Heq. apply Hinj in Heq. lia. }
  pose proof (openSpool_runs process_generation _ (sy_disk s) gone segs torn k Hne Hoff) as Hr.
  cbn [transition]. rewrite Hp. unfold Runs in Hr. destruct (createSpool _ (sy_disk s)) as [d' [st|e'|]]; [| |done].
  - destruct Hr as [Ht _]. by destruct Htorn; apply Ht.
  - destruct Hr as (gone' & segs' & torn' & k' & Hl & Hoff'). eexists. split_and!; [done|done|].
    by apply (represents_off _ _ gone' segs' torn' k').
Qed.
End theorems.
