(* ===== verification/UdpSpoolDrain.v ===== *)
(** * The UDP recording queue drains

    Once its writer is closed, a consumer that acknowledges what it is handed sees the
    reader end with every frame consumed, when the operating system refuses nothing. *)

From S2P Require Import Prelude NetAddress CaptureTypes Stateful Text UdpSpoolModel UdpSpool UdpSpoolFrames UdpSpoolSteps UdpSpoolInvariant UdpSpoolReader UdpSpoolWriter UdpSpoolRecovery UdpSpoolTheorems.

#[local] Opaque segmentPath cursorPath temporaryPath named.

(** ** A disk that refuses nothing *)
Definition Granting (d : SpoolDisk) : Prop := kd_answers d = [].

Lemma granting_granted {A} (m : stateful SpoolDisk SpoolError A) d P Q :
  Granting d → Runs m d P Q → Runs (granted m) d P Q.
Proof. destruct d as [files answers]. unfold Granting. cbn. by intros ->. Qed.

Lemma granting_read p d content (P : list Z → SpoolDisk → Prop) Q :
  Granting d → kd_files d !! p = Some content → P content d → Runs (read_file p) d P Q.
Proof.
  intros Hg Hc HP. apply granting_granted; [done|]. unfold file_content. apply runs_bind, runs_gets, runs_lift.
  cbn [id]. by rewrite Hc.
Qed.

Lemma granting_remove p d (P : unit → SpoolDisk → Prop) Q :
  Granting d → is_Some (kd_files d !! p) → (∀ d', Granting d' → P tt d') → Runs (remove_file p) d P Q.
Proof.
  intros Hg [content Hc] HP. apply granting_granted; [done|]. apply runs_bind. unfold file_content.
  apply runs_bind, runs_gets, runs_lift. cbn [id]. rewrite Hc. cbn [ok_or Satisfies]. apply runs_modify. by apply HP.
Qed.

Lemma granting_removed p d : Granting d → Granting (remove_file p d).1.
Proof.
  destruct d as [files answers]. unfold Granting. cbn [kd_answers]. intros ->.
  cbv [remove_file granted mbind stateful_bind next_answer file_content gets lift modify kd_answers kd_files head
    tail default from_option id set_files ok_or].
  by destruct (files !! p).
Qed.

Section drain.
Context `{SpoolEnvironment} {Hok : SpoolEnvironmentOk} (process_generation : nat → chars).
Abbreviation Run := (Run process_generation).
Abbreviation Runs_at := (Runs_at process_generation).
Abbreviation Represents := (Represents process_generation).
Implicit Types (segs : list Segment) (torn : list Z) (files : gmap path (list Z)) (fs : list Frame) (l : Log).

Lemma granting_persist n cursor d (P : unit → SpoolDisk → Prop) Q :
  Granting d → (∀ d', Granting d' → P tt d') → Runs (persistCursor (cursorPath n) cursor) d P Q.
Proof.
  destruct d as [files answers]. unfold Granting. cbn. intros -> HP. unfold persistCursor. rewrite temporaryPath_cursor.
  unfold Runs, writeReplacing, create_truncate, write_all, sync_all, replaceFileAtomically, rename, file_content,
    granted, modify, gets, lift, mret, stateful_ret, mbind, stateful_bind, next_answer, put, set_files.
  cbn [kd_files kd_answers head tail default from_option id]. 
  change (alter ?f ?k ?m) with (written (temporaryPath n) 0 (cursor_json cursor) m).
  rewrite (written_lookup _ _ _ _ []) by (done || apply lookup_insert_eq). cbn [app]. rewrite lookup_insert_eq.
  cbn [ok_or kd_files kd_answers head tail default from_option id]. by apply HP.
Qed.

(** ** Every step but the consumer's makes progress *)
Definition healthy (pc : ReaderPc) : bool :=
  match pc with Ended (Some _) | RetireDone _ (Err _) => false | _ => true end.

Definition frontComplete (st : SpoolState) : bool :=
  match ks_segments st with [] => false | g :: _ => sg_readOffset g =? sg_length g end.

Definition phase (st : SpoolState) (pc : ReaderPc) : Z :=
  match pc with
  | Reading => 6
  | RetireLock => if frontComplete st then 5 else 7
  | Delivered _ => 5
  | RetireFiles _ | AckCheck _ => 4
  | RetireDone _ _ | AckPersist _ _ => 3
  | AckCommit _ => 2
  | Ended _ => 0
  end.

Definition remaining (st : SpoolState) (pc : ReaderPc) : Z :=
  10 * ks_pendingBytes st + 10 * len (ks_segments st) + phase st pc.

Definition waiting (pc : ReaderPc) : bool :=
  match pc with Delivered _ | Ended _ => true | _ => false end.

Definition Progress (s : Spool) (pc : ReaderPc) (s' : Spool) (pc' : ReaderPc) : Prop :=
  Granting (sp_disk s') ∧ ks_closed (sp_state s') = true ∧ healthy pc' = true ∧
  (waiting pc = false → remaining (sp_state s') pc' < remaining (sp_state s) pc).

Lemma progress_reading n s segs torn j k :
  Runs_at n false segs torn j k s Reading → Granting (sp_disk s) → ks_closed (sp_state s) = true →
  Goes (Progress s Reading) (readerStep (process_generation n) Reading s).
Proof using Hok.
  intros HR Hg Hcl. apply then_goes_runs. unfold readNext. apply runs_bind, runs_gets.
  pose proof HR as [R1 R2 R3 R4 [-> Hb] R6 R7 R8 [R91 [R92 [R93 R94]]] R10 R11 R12 R13 R14]. cbn [retiring onDisk] in *.
  rewrite R3. rewrite bool_decide_false by (by intros []).
  assert (Hstay : ∀ pc', healthy pc' = true → phase (sp_state s) pc' < 6 → Progress s Reading s pc').
  { intros pc' Hh Hlt. split_and!; [done|done|done|]. unfold remaining. cbn [phase]. lia. }
  rewrite R2. destruct segs as [|[id fs] rest]; cbn [memory]; [by apply runs_ret, Hstay|].
  cbn [inMemory sg_readOffset sg_length sg_file snd fst frontLength] in *. apply Forall_cons in R93 as [Hfs _]. cbn [snd] in Hfs.
  rewrite all_read by (done || lia). case_bool_decide as Hj.
  { rewrite Hb, Hcl. cbn [negb]. rewrite andb_false_r. apply runs_ret, Hstay; [done|].
    unfold phase, frontComplete. rewrite R2. cbn [memory inMemory sg_readOffset sg_length snd].
    by rewrite all_read, bool_decide_true by (done || lia). }
  destruct (lookup_lt_is_Some_2 fs j) as [f Hf]; [lia|].
  apply runs_bind, runs_lift. cbn [expect Satisfies]. destruct (front_content _ _ _ _ _ R1) as (t & Hc & Hlen).
  apply runs_bind, onDisk_runs, (granting_read _ _ _ _ _ Hg Hc).
  rewrite (readFrame_next _ _ _ _ _ _ _ _ _ R1 eq_refl Hlen Hf). apply runs_bind, runs_lift. cbn [Satisfies].
  apply runs_ret. split_and!; [done|done|done|]. unfold remaining. cbn [phase sp_state]. lia.
Qed.

Lemma progress_begin s bound id fs rest (P : SegmentRetirement → Spool → Prop) Q :
  ks_retiringSegmentId (sp_state s) = None →
  ks_segments (sp_state s) = memory false (length fs) ((id, fs) :: rest) →
  10 * ks_pendingBytes (sp_state s) + 10 * len (ks_segments (sp_state s)) + 4 < bound →
  (∀ r s', sp_disk s' = sp_disk s → ks_closed (sp_state s') = ks_closed (sp_state s) →
     remaining (sp_state s') (RetireFiles r) < bound → P r s') →
  Runs beginSegmentRetirement s P Q.
Proof.
  intros Hr Hs Hlt HP. unfold beginSegmentRetirement. apply runs_bind, runs_gets. rewrite Hr.
  rewrite bool_decide_false by (by intros []). rewrite Hs in Hlt |- *. cbn [memory inMemory sg_file ok_or].
  apply runs_bind, runs_lift. cbn [Satisfies]. apply runs_bind, updateState_runs, runs_bind, updateState_runs, runs_ret.
  apply HP; [done|done|]. unfold remaining. cbn [phase sp_state ks_pendingBytes ks_segments set_retirement set_segments].
  rewrite Hs. cbn [memory update_front] in *. rewrite len_cons in *. lia.
Qed.

Lemma progress_retireLock n s segs torn j k :
  Runs_at n false segs torn j k s RetireLock → Granting (sp_disk s) → ks_closed (sp_state s) = true →
  Goes (Progress s RetireLock) (readerStep (process_generation n) RetireLock s).
Proof using Hok.
  intros HR Hg Hcl. apply then_goes_runs. unfold retireCompletedFront. apply runs_bind, runs_gets.
  pose proof HR as [R1 R2 R3 R4 [-> Hb] R6 R7 R8 [R91 [R92 [R93 R94]]] R10 R11 R12 R13 R14]. cbn [retiring onDisk] in *.
  rewrite R3. rewrite bool_decide_false by (by intros []).
  assert (Hback : frontComplete (sp_state s) = false → Progress s RetireLock s Reading).
  { intros Hf. split_and!; [done|done|done|]. intros _. unfold remaining, phase. rewrite Hf. lia. }
  unfold frontComplete in Hback. rewrite R2 in *. destruct segs as [|[id fs] rest]; cbn [memory] in *; [by apply runs_ret, Hback|].
  cbn [inMemory sg_readOffset sg_length sg_file snd fst frontLength] in *. apply Forall_cons in R93 as [Hfs _]. cbn [snd] in Hfs.
  rewrite all_read in * by (done || lia). case_bool_decide as Hj; [|by apply runs_ret, Hback]. subst j. clear Hback.
  rewrite Hcl. cbn [negb]. rewrite andb_false_r. cbn [negb orb]. apply runs_bind.
  eapply (progress_begin s (remaining (sp_state s) RetireLock)); [done|exact R2| |].
  - unfold remaining, phase, frontComplete. rewrite R2. cbn [memory inMemory sg_readOffset sg_length snd].
    rewrite firstn_all, Z.eqb_refl. lia.
  - intros r s' Hd Hcl' Hlt. apply runs_ret. split_and!; [by unfold Granting; rewrite Hd|by rewrite Hcl'|done|done].
Qed.

Lemma progress_retireFiles n s segs torn j k r :
  Runs_at n false segs torn j k s (RetireFiles r) → Granting (sp_disk s) → ks_closed (sp_state s) = true →
  Goes (Progress s (RetireFiles r)) (readerStep (process_generation n) (RetireFiles r) s).
Proof using Hok.
  intros [R1 R2 R3 R4 (-> & id & fs & rest & -> & -> & -> & Hw) _ _ _ _ _ _ _ _ _] Hg Hcl. cbn [retiring onDisk] in *.
  cbn [readerStep]. unfold retireSegmentFiles.
  pose proof (granting_granted (mret tt) (sp_disk s) (λ _ d', d' = sp_disk s) (λ _ _, False) Hg eq_refl) as Hgr.
  unfold Runs in Hgr. destruct (granted (mret tt) (sp_disk s)) as [d [[]|e|]]; [|done..]. subst d.
  destruct (front_content _ _ _ _ _ R1) as (t & Hc & _). cbn [retirementOf rt_path rt_file rt_cursorPath rt_segmentId].
  pose proof (granting_remove (segmentPath id) (sp_disk s) (λ _ d', Granting d') (λ _ _, False) Hg
    (mk_is_Some _ _ Hc) (λ d' H, H)) as Hrm. unfold Runs in Hrm.
  destruct (remove_file (segmentPath id) (sp_disk s)) as [d [[]|e|]]; [|done..]. cbn [Goes]. split_and!.
  - by apply granting_removed.
  - exact Hcl.
  - done.
  - intros _. unfold remaining. cbn [phase sp_state]. lia.
Qed.

Lemma progress_retireDone n s segs torn j k id :
  Runs_at n false segs torn j k s (RetireDone id (Ok tt)) → Granting (sp_disk s) → ks_closed (sp_state s) = true →
  Goes (Progress s (RetireDone id (Ok tt))) (readerStep (process_generation n) (RetireDone id (Ok tt)) s).
Proof.
  intros [R1 R2 R3 R4 (-> & fs & rest & -> & -> & Hw & _) _ _ _ _ _ _ _ _ _] Hg Hcl. cbn [retiring onDisk] in *.
  apply then_goes_runs. cbn [finishSegmentRetirement]. apply runs_bind, runs_gets, runs_bind, runs_lift.
  unfold validateRetiringSegment. rewrite R2, R3. cbn [memory head fmap option_fmap option_map inMemory sg_id fst].
  rewrite !bool_decide_true by done. cbn [negb orb Satisfies]. apply runs_bind, updateState_runs, updateState_runs.
  split_and!; [done|done|done|]. intros _. unfold remaining. cbn [phase sp_state ks_pendingBytes ks_segments set_retirement set_segments].
  rewrite R2. cbn [memory tail]. rewrite len_cons. lia.
Qed.

Lemma progress_ackCheck n s segs torn j k a :
  Runs_at n false segs torn j k s (AckCheck a) → Granting (sp_disk s) → ks_closed (sp_state s) = true →
  Goes (Progress s (AckCheck a)) (readerStep (process_generation n) (AckCheck a) s).
Proof using Hok.
  intros HR Hg Hcl. pose proof (ru_pc _ _ _ _ _ _ _ _ _ _ HR) as (-> & Hb & id & fs & rest & f & -> & Hj & ->).
  pose proof (handed_frame _ _ _ _ _ _ _ _ (ru_dir _ _ _ _ _ _ _ _ _ _ HR) eq_refl Hj) as Hf.
  apply then_goes_runs. unfold acknowledgeCheck. apply runs_bind, runs_gets.
  rewrite (ru_segments _ _ _ _ _ _ _ _ _ _ HR). cbn [retiring memory snd]. rewrite in_order by done.
  apply runs_ret. split_and!; [done|done|done|]. intros _. unfold remaining. cbn [phase]. lia.
Qed.

Lemma progress_ackPersist n s segs torn j k a p :
  Runs_at n false segs torn j k s (AckPersist a p) → Granting (sp_disk s) → ks_closed (sp_state s) = true →
  Goes (Progress s (AckPersist a p)) (readerStep (process_generation n) (AckPersist a p) s).
Proof.
  intros HR Hg Hcl. pose proof (ru_pc _ _ _ _ _ _ _ _ _ _ HR) as (-> & Hb & (id & fs & rest & f & -> & Hj & ->) & Hp).
  specialize (Hp id fs rest eq_refl) as ->. apply then_goes_runs, onDisk_runs, granting_persist; [done|].
  intros d Hd. split_and!; [done|done|done|]. intros _. unfold remaining. cbn [phase sp_state]. lia.
Qed.

Lemma progress_ackCommit n s segs torn j k a :
  Runs_at n false segs torn j k s (AckCommit a) → Granting (sp_disk s) → ks_closed (sp_state s) = true →
  Goes (Progress s (AckCommit a)) (readerStep (process_generation n) (AckCommit a) s).
Proof using Hok.
  intros HR Hg Hcl. pose proof (ru_pc _ _ _ _ _ _ _ _ _ _ HR) as (-> & Hb & id & fs & rest & f & -> & Hj & ->).
  pose proof (handed_frame _ _ _ _ _ _ _ _ (ru_dir _ _ _ _ _ _ _ _ _ _ HR) eq_refl Hj) as Hf.
  pose proof (run_committed _ _ _ _ _ _ _ _ _ _ _ HR Hj) as HR'. pose proof (frameLength_bound f Hf) as Hlen.
  apply then_goes_runs. unfold acknowledgeCommit. apply runs_bind, runs_gets.
  pose proof (ru_segments _ _ _ _ _ _ _ _ _ _ HR) as Hs. rewrite Hs. cbn [retiring memory snd]. rewrite in_order by done.
  apply runs_bind, updateState_runs. cbn [sp_state sp_disk].
  cbn [acknowledgement entryFor entryOf ak_endOffset ak_frameBytes en_endOffset en_frameBytes inMemory sg_length snd].
  rewrite (len_take_S _ _ _ Hj), Z.add_simpl_l, <-(len_take_S _ _ _ Hj).
  assert (Hpend : frameLength f ≤ ks_pendingBytes (sp_state s)).
  { rewrite (ru_pending _ _ _ _ _ _ _ _ _ _ HR). cbn [readBytes snd]. rewrite sizes_cons, (len_split _ _ _ Hj).
    pose proof (sizes_nonneg rest). pose proof (len_nonneg (bytesOf (drop (S j) fs))). lia. }
  apply runs_bind, runs_lift. unfold check. rewrite (proj2 (Z.leb_le _ _)) by done. cbn [Satisfies].
  apply runs_bind, updateState_runs. cbn [sp_state sp_disk].
  pose proof (lookup_lt_Some _ _ _ Hj) as Hlt. rewrite Hcl, orb_true_r, andb_true_r.
  pose proof (dr_frames _ _ _ (ru_dir _ _ _ _ _ _ _ _ _ _ HR)) as Hfs. apply Forall_cons in Hfs as [Hfs _]. cbn [snd] in Hfs.
  assert (Hcount : len (update_front (set_readOffset (len (bytesOf (take (S j) fs)))) (ks_segments (sp_state s))) =
    len (ks_segments (sp_state s))) by (rewrite Hs; cbn [memory update_front]; by rewrite !len_cons).
  rewrite all_read by (done || lia). case_bool_decide as Hall.
  - apply runs_bind. eapply (progress_begin _ (remaining (sp_state s) (AckCommit (acknowledgement (entryFor id fs j f))))).
    + exact (ru_retiring _ _ _ _ _ _ _ _ _ _ HR').
    + rewrite <-Hall. exact (ru_segments _ _ _ _ _ _ _ _ _ _ HR').
    + unfold remaining. cbn [phase sp_state ks_pendingBytes ks_segments set_pendingBytes set_segments]. lia.
    + intros r s' Hd Hcl' Hrem. apply runs_ret. split_and!; [by unfold Granting; rewrite Hd|by rewrite Hcl'|done|done].
  - apply runs_ret. split_and!; [done|done|done|]. intros _. unfold remaining.
    cbn [phase sp_state ks_pendingBytes ks_segments set_pendingBytes set_segments]. lia.
Qed.

Lemma reader_progress n s segs torn j k pc :
  Runs_at n false segs torn j k s pc → Granting (sp_disk s) → ks_closed (sp_state s) = true → healthy pc = true →
  Goes (Progress s pc) (readerStep (process_generation n) pc s).
Proof using Hok.
  intros HR Hg Hcl Hh. destruct pc as [| |r|id [[]|e|]|e|a|a p|a|fault]; try done.
  - by eapply progress_reading.
  - by eapply progress_retireLock.
  - by eapply progress_retireFiles.
  - by eapply progress_retireDone.
  - by destruct (ru_pc _ _ _ _ _ _ _ _ _ _ HR) as (_ & fs & rest & _ & _ & _ & ?).
  - by eapply progress_ackCheck.
  - by eapply progress_ackPersist.
  - by eapply progress_ackCommit.
Qed.

(** ** Draining *)
(** The reader moves, the consumer acknowledges what it may have been handed. *)
Definition drainRound (s : System) : outcome unit System :=
  s ← transition process_generation ReaderMoves s;
  transition process_generation ConsumerAcknowledges s.

Fixpoint drainRounds (rounds : nat) (s : System) : outcome unit System :=
  match rounds with O => Ok s | S rounds => s ← drainRound s; drainRounds rounds s end.

(** The service is stopping, nothing has failed so far and nothing will. *)
Record Stopping (s : System) (p : Process) : Prop := {
  st_process : sy_process s = Some p;
  st_writer : pr_writer p = false;
  st_closed : ks_closed (pr_state p) = true;
  st_healthy : healthy (pr_reader p) = true;
  st_granting : Granting (sy_disk s);
}.

Definition measure (p : Process) : Z := remaining (pr_state p) (pr_reader p).

Lemma phase_nonneg st pc : 0 ≤ phase st pc ≤ 7.
Proof. destruct pc; cbn; try lia. by destruct (frontComplete st). Qed.

Lemma measure_nonneg s l p : Represents s l → sy_process s = Some p → 0 ≤ measure p.
Proof.
  intros (gone & segs & torn & k & -> & Hs) Hp. rewrite Hp in Hs. destruct Hs as [j HR]. unfold measure, remaining.
  rewrite (ru_pending _ _ _ _ _ _ _ _ _ _ HR). pose proof (ru_front _ _ _ _ _ _ _ _ _ _ HR) as [Hj _].
  rewrite (unread_bytes _ _ Hj). pose proof (phase_nonneg (pr_state p) (pr_reader p)). pose proof (len_nonneg (ks_segments (pr_state p))).
  enough (∀ xs, 0 ≤ sum_by loggedLength xs) as Hn by (specialize (Hn (drop j (segs ≫= entriesOf))); lia).
  intros xs. apply sum_by_nonneg. intros x _. apply frameLength_nonneg.
Qed.

Lemma reader_moves s l p :
  Represents s l → Stopping s p →
  ∃ s' p' l', transition process_generation ReaderMoves s = Ok s' ∧ Represents s' l' ∧ Stopping s' p' ∧
    rtc (LogStep ReaderMoves) l l' ∧ (waiting (pr_reader p) = false → measure p' < measure p) ∧
    (waiting (pr_reader p) = true → p' = p).
Proof using Hok.
  intros (gone & segs & torn & k & -> & Hs) [Hp Hw Hcl Hh Hg]. rewrite Hp in Hs. destruct Hs as [j HR].
  destruct (refines_reader process_generation s p gone segs torn j k Hp HR) as (s' & l' & Hs' & Hl & HR'). rewrite Hs'.
  rewrite Hw in HR. pose proof (reader_progress _ (spoolOf s p) _ _ _ _ _ HR Hg Hcl Hh) as Hpr. cbn [transition] in Hs'.
  rewrite Hp in Hs'. destruct (readerStep _ (pr_reader p) (spoolOf s p)) as [[sp pc]|e|] eqn:Hstep; [|done..].
  cbn [mbind outcome_bind Goes] in *. injection Hs' as <-. destruct Hpr as (Hg' & Hcl' & Hh' & Hlt).
  exists (running s sp pc (pr_writer p)), {| pr_state := sp_state sp; pr_reader := pc; pr_writer := pr_writer p |}, l'.
  split_and!; [done|exact HR'|by split|exact Hl|exact Hlt|].
  intros Hwait. destruct p as [st pc0 w]. cbn in *. destruct pc0; try done; cbn in Hstep; by injection Hstep as <- <-.
Qed.

Lemma consumer_acknowledges s l p :
  Represents s l → Stopping s p →
  ∃ s' p' l', transition process_generation ConsumerAcknowledges s = Ok s' ∧ Represents s' l' ∧ Stopping s' p' ∧
    rtc (LogStep ConsumerAcknowledges) l l' ∧
    match pr_reader p with Delivered _ => measure p' < measure p | _ => p' = p end.
Proof.
  intros (gone & segs & torn & k & -> & Hs) [Hp Hw Hcl Hh Hg]. rewrite Hp in Hs. destruct Hs as [j HR].
  destruct (refines_consumer process_generation ConsumerAcknowledges s p gone segs torn j k ltac:(by left) Hp HR)
    as (s' & l' & Hs' & Hl & HR'). rewrite Hs'. cbn [transition] in Hs'. rewrite Hp in Hs'.
  destruct (pr_reader p) as [| |r|id result|e|a|a cursor|a|fault] eqn:Hr;
    try (injection Hs' as <-; exists s, p, l'; split_and!; [done|done|by split; rewrite ?Hr|done|done]).
  injection Hs' as <-. 
  exists (running s (spoolOf s p) (AckCheck (acknowledgement e)) (pr_writer p)),
    {| pr_state := pr_state p; pr_reader := AckCheck (acknowledgement e); pr_writer := pr_writer p |}, l'.
  split_and!; [done|exact HR'|by split|exact Hl|]. unfold measure, remaining. rewrite Hr. cbn [phase pr_state pr_reader]. lia.
Qed.

Lemma drain_round s l p :
  Represents s l → Stopping s p → pr_reader p ≠ Ended None →
  ∃ s' p' l', drainRound s = Ok s' ∧ Represents s' l' ∧ Stopping s' p' ∧ lg_frames l' = lg_frames l ∧ measure p' < measure p.
Proof using Hok.
  intros HR HS Hne. destruct (reader_moves s l p HR HS) as (s1 & p1 & l1 & Hs1 & HR1 & HS1 & Hl1 & Hlt1 & Heq1).
  destruct (consumer_acknowledges s1 l1 p1 HR1 HS1) as (s2 & p2 & l2 & Hs2 & HR2 & HS2 & Hl2 & Hm2).
  exists s2, p2, l2. unfold drainRound. rewrite Hs1. cbn [mbind outcome_bind]. split_and!; [done|done|done| |].
  - rewrite (log_frames_kept ConsumerAcknowledges _ _ eq_refl Hl2). by apply (log_frames_kept ReaderMoves).
  - assert (Hle : measure p2 ≤ measure p1) by (destruct (pr_reader p1); [..|]; try lia; by subst).
    destruct (waiting (pr_reader p)) eqn:Hwait; [|specialize (Hlt1 eq_refl); lia].
    specialize (Heq1 eq_refl) as ->. destruct HS as [_ _ _ Hh _].
    destruct (pr_reader p) as [| |r|id result|e|a|a cursor|a|[e|]]; done.
Qed.

(** C20: After the writer has closed the queue and while the disk grants every operation, the reader
    and a consumer that confirms what it gets come to an end in finitely many rounds, with every
    frame of the log consumed and no fault. *)
Theorem drain_finishes s l p :
  Represents s l → Stopping s p →
  ∃ rounds s' p' l', drainRounds rounds s = Ok s' ∧ Represents s' l' ∧ sy_process s' = Some p' ∧
    pr_reader p' = Ended None ∧ lg_frames l' = lg_frames l ∧ lg_consumed l' = length (lg_frames l).
Proof using Hok.
  intros HR HS. remember (Z.to_nat (measure p)) as m eqn:Hm. revert s l p HR HS Hm.
  induction m as [m IH] using lt_wf_ind. intros s l p HR HS Hm.
  assert (Hcase : pr_reader p = Ended None ∨ pr_reader p ≠ Ended None).
  { destruct (pr_reader p) as [| | | | | | | |[]]; auto. }
  destruct Hcase as [Hend|Hne].
  - exists 0%nat, s, p, l. split_and!; [done|done|apply HS|done|done|].
    by destruct (ended_is_drained process_generation s l p HR (st_process _ _ HS) Hend).
  - destruct (drain_round s l p HR HS Hne) as (s1 & p1 & l1 & Hs1 & HR1 & HS1 & Hf1 & Hlt).
    pose proof (measure_nonneg s1 l1 p1 HR1 (st_process _ _ HS1)) as Hpos.
    destruct (IH (Z.to_nat (measure p1)) ltac:(lia) s1 l1 p1 HR1 HS1 eq_refl) as (rounds & s' & p' & l' & Hd & Hrest).
    exists (S rounds), s', p', l'. cbn [drainRounds]. rewrite Hs1. cbn [mbind outcome_bind]. rewrite Hf1 in Hrest. by split.
Qed.
End drain.
