(* ===== verification/UdpQueue.v ===== *)
(** * From the capture thread to the disk queue

    Model of [QueuedUdpDatagramSink] and [spawnSpoolWriter] of
    [Server/Backend/src/udpRecording.rs]: the bounded memory queue between the thread that
    observes datagrams and the thread that appends them to the disk queue.  The channel
    holds what was sent and not received; its sender and its receiver are the two threads. *)

From S2P Require Import Prelude NetAddress CaptureTypes Stateful Text UdpSpoolModel UdpSpool UdpSpoolFrames UdpSpoolSteps UdpSpoolInvariant UdpSpoolWriter UdpSpoolTheorems.

Definition captureQueueCapacity : Z := 1024.

Inductive QueueFault :=
| QueueClosed
| QueueFull
| AppendFailed (error : SpoolError)
| EmergencyFailed (error : SpoolError)
| ReadFailed (error : SpoolError)
| ConsumerClosed
| AcknowledgementClosed
| AcknowledgeFailed (error : SpoolError)
| CommitFailed (code : chars) (sequence : Z).

Record CaptureQueueState := {
  cq_sender : bool;
  cq_emergency : option CapturedUdpDatagram;
  cq_retainedAfterFailure : list CapturedUdpDatagram;
  cq_fault : option QueueFault
}.

(** The queue, what its channel holds and whether the receiver is there. *)
Record QueuedUdpDatagramSink := {
  qs_state : CaptureQueueState;
  qs_channel : list CapturedUdpDatagram;
  qs_receiver : bool
}.

Definition newSink : QueuedUdpDatagramSink :=
  {| qs_state := {| cq_sender := true; cq_emergency := None; cq_retainedAfterFailure := []; cq_fault := None |};
     qs_channel := []; qs_receiver := true |}.

Definition set_queue (f : CaptureQueueState → CaptureQueueState) (q : QueuedUdpDatagramSink) : QueuedUdpDatagramSink :=
  {| qs_state := f (qs_state q); qs_channel := qs_channel q; qs_receiver := qs_receiver q |}.
Definition set_channel (channel : list CapturedUdpDatagram) (q : QueuedUdpDatagramSink) : QueuedUdpDatagramSink :=
  {| qs_state := qs_state q; qs_channel := channel; qs_receiver := qs_receiver q |}.
Definition drop_receiver (q : QueuedUdpDatagramSink) : QueuedUdpDatagramSink :=
  {| qs_state := qs_state q; qs_channel := []; qs_receiver := false |}.

(** [Option::get_or_insert]. *)
Definition get_or_insert {A} (o : option A) (a : A) : option A := Some (default a o).

Definition sinkFail (detail : QueueFault) : QueuedUdpDatagramSink → QueuedUdpDatagramSink :=
  set_queue (λ s, {| cq_sender := false; cq_emergency := cq_emergency s;
                     cq_retainedAfterFailure := cq_retainedAfterFailure s;
                     cq_fault := get_or_insert (cq_fault s) detail |}).

Definition sinkClose : QueuedUdpDatagramSink → QueuedUdpDatagramSink :=
  set_queue (λ s, {| cq_sender := false; cq_emergency := cq_emergency s;
                     cq_retainedAfterFailure := cq_retainedAfterFailure s; cq_fault := cq_fault s |}).

Definition takeEmergency (q : QueuedUdpDatagramSink) : QueuedUdpDatagramSink * option CapturedUdpDatagram :=
  (set_queue (λ s, {| cq_sender := cq_sender s; cq_emergency := None;
                      cq_retainedAfterFailure := cq_retainedAfterFailure s; cq_fault := cq_fault s |}) q,
   cq_emergency (qs_state q)).

Definition retainAfterSpoolFailure (current : CapturedUdpDatagram) (detail : QueueFault) (q : QueuedUdpDatagramSink)
    : QueuedUdpDatagramSink :=
  set_channel [] (set_queue (λ s,
    {| cq_sender := false; cq_emergency := None;
       cq_retainedAfterFailure := cq_retainedAfterFailure s ++ [current] ++ qs_channel q ++ option_list (cq_emergency s);
       cq_fault := get_or_insert (cq_fault s) detail |}) q).

(** [append] of the sink; what was captured carries the clear epoch already. *)
Definition sinkAppend (captured : CapturedUdpDatagram) (q : QueuedUdpDatagramSink)
    : QueuedUdpDatagramSink * outcome QueueFault unit :=
  if negb (cq_sender (qs_state q)) then (q, Err (default QueueClosed (cq_fault (qs_state q))))
  else if qs_receiver q && (len (qs_channel q) <? captureQueueCapacity) then (set_channel (qs_channel q ++ [captured]) q, Ok tt)
  else
    (set_queue (λ s, {| cq_sender := false; cq_emergency := Some captured;
                        cq_retainedAfterFailure := cq_retainedAfterFailure s; cq_fault := Some QueueFull |}) q,
     Err QueueFull).

(** The fault and how many captured datagrams did not reach the disk. *)
Definition sinkFault (q : QueuedUdpDatagramSink) : option (QueueFault * nat) :=
  (λ detail, (detail, length (cq_retainedAfterFailure (qs_state q)))) <$> cq_fault (qs_state q).

(** ** The writer thread *)
Inductive WriterPc :=
| WriterReceives
| WriterAppends (captured : CapturedUdpDatagram)
| WriterFails (captured : CapturedUdpDatagram) (detail : QueueFault)
| WriterTakes
| WriterSaves (captured : CapturedUdpDatagram)
| WriterCloses
| WriterGone.

(** The whole pipeline: [pl_offered] and [pl_written] record what the sink took over and
    what the disk queue has confirmed. *)
Record Pipeline := {
  pl_queue : QueuedUdpDatagramSink;
  pl_writer : WriterPc;
  pl_system : System;
  pl_offered : list CapturedUdpDatagram;
  pl_written : list CapturedUdpDatagram
}.

Section pipeline.
Context `{SpoolEnvironment} (process_generation : nat → chars).

Definition moved (q : QueuedUdpDatagramSink) (w : WriterPc) (p : Pipeline) : Pipeline :=
  {| pl_queue := q; pl_writer := w; pl_system := pl_system p; pl_offered := pl_offered p; pl_written := pl_written p |}.

(** An append of the writer, and where it goes on. *)
Definition writerAppends (captured : CapturedUdpDatagram) (next : WriterPc) (fault : SpoolError → QueueFault)
    (p : Pipeline) : outcome unit Pipeline :=
  match sy_process (pl_system p) with
  | None => Ok p
  | Some pr =>
      match appendCapturedEvent captured (spoolOf (pl_system p) pr) with
      | (sp, Ok _) =>
          Ok {| pl_queue := pl_queue p; pl_writer := next; pl_system := running (pl_system p) sp (pr_reader pr) true;
                pl_offered := pl_offered p; pl_written := pl_written p ++ [captured] |}
      | (sp, Err e) =>
          Ok {| pl_queue := pl_queue p; pl_writer := WriterFails captured (fault e);
                pl_system := running (pl_system p) sp (pr_reader pr) false;
                pl_offered := pl_offered p; pl_written := pl_written p |}
      | (_, Panic) => Panic
      end
  end.

Definition on_system (t : Transition) (w : WriterPc) (q : QueuedUdpDatagramSink) (p : Pipeline) : outcome unit Pipeline :=
  s ← transition process_generation t (pl_system p);
  Ok {| pl_queue := q; pl_writer := w; pl_system := s; pl_offered := pl_offered p; pl_written := pl_written p |}.

Definition writerStep (p : Pipeline) : outcome unit Pipeline :=
  let q := pl_queue p in
  match pl_writer p with
  | WriterReceives =>
      match qs_channel q with
      | captured :: channel => Ok (moved (set_channel channel q) (WriterAppends captured) p)
      | [] => if cq_sender (qs_state q) then Ok p else Ok (moved q WriterTakes p)
      end
  | WriterAppends captured => writerAppends captured WriterReceives AppendFailed p
  | WriterFails captured detail => Ok (moved (retainAfterSpoolFailure captured detail q) WriterCloses p)
  | WriterTakes =>
      match takeEmergency q with
      | (q, Some emergency) => Ok (moved q (WriterSaves emergency) p)
      | (q, None) => Ok (moved q WriterCloses p)
      end
  | WriterSaves emergency => writerAppends emergency WriterCloses EmergencyFailed p
  | WriterCloses => on_system CloseWriter WriterGone (drop_receiver q) p
  | WriterGone => Ok p
  end.

Inductive PipelineAction :=
| Offer (captured : CapturedUdpDatagram)
| WriterMoves
| SinkFails (detail : QueueFault)
| SinkCloses
(** The reader, the consumer, and what the operating system grants. *)
| Elsewhere (t : Transition).

Definition pipelineStep (a : PipelineAction) (p : Pipeline) : outcome unit Pipeline :=
  match a with
  | Offer captured =>
      let '(q, r) := sinkAppend captured (pl_queue p) in
      Ok {| pl_queue := q; pl_writer := pl_writer p; pl_system := pl_system p;
            pl_offered := if cq_sender (qs_state (pl_queue p)) then pl_offered p ++ [captured] else pl_offered p;
            pl_written := pl_written p |}
  | WriterMoves => writerStep p
  | SinkFails detail => Ok (moved (sinkFail detail (pl_queue p)) (pl_writer p) p)
  | SinkCloses => Ok (moved (sinkClose (pl_queue p)) (pl_writer p) p)
  | Elsewhere t => on_system t (pl_writer p) (pl_queue p) p
  end.

Fixpoint pipelineRun (actions : list PipelineAction) (p : Pipeline) : outcome unit Pipeline :=
  match actions with [] => Ok p | a :: actions => p ← pipelineStep a p; pipelineRun actions p end.

(** A started service. *)
Definition newPipeline (s : System) : Pipeline :=
  {| pl_queue := newSink; pl_writer := WriterReceives; pl_system := s; pl_offered := []; pl_written := [] |}.
End pipeline.

(** * Nothing the capture thread hands over is lost or reordered

    What the sink took over is, in order, what the disk queue has confirmed followed by
    what memory still holds, through overload, failed appends and shutdown. *)

(** What memory holds, in the order of capture. *)
Definition held (w : WriterPc) : list CapturedUdpDatagram :=
  match w with WriterAppends c | WriterFails c _ | WriterSaves c => [c] | _ => [] end.

Definition stillHeld (p : Pipeline) : list CapturedUdpDatagram :=
  let s := qs_state (pl_queue p) in
  cq_retainedAfterFailure s ++ held (pl_writer p) ++ qs_channel (pl_queue p) ++ option_list (cq_emergency s).

Definition captured_printable (c : CapturedUdpDatagram) : Prop := Printable (Append c).

(** Where the writer is tells what may be in memory. *)
Definition writerOk (w : WriterPc) (q : QueuedUdpDatagramSink) : Prop :=
  let s := qs_state q in
  match w with
  | WriterReceives | WriterAppends _ | WriterFails _ _ => cq_retainedAfterFailure s = []
  | WriterTakes => cq_retainedAfterFailure s = [] ∧ qs_channel q = [] ∧ cq_sender s = false
  | WriterSaves _ => cq_retainedAfterFailure s = [] ∧ qs_channel q = [] ∧ cq_emergency s = None ∧ cq_sender s = false
  | WriterCloses | WriterGone =>
      qs_channel q = [] ∧ cq_emergency s = None ∧ cq_sender s = false ∧
      (cq_retainedAfterFailure s ≠ [] → is_Some (cq_fault s))
  end.

Definition appending (w : WriterPc) : bool :=
  match w with WriterReceives | WriterAppends _ | WriterTakes | WriterSaves _ => true | _ => false end.

Section theorems.
Context `{SpoolEnvironment} {Hok : SpoolEnvironmentOk} (process_generation : nat → chars).
Context (Hinj : ∀ m n, process_generation m = process_generation n → m = n).
Abbreviation Represents := (Represents process_generation).
Implicit Types (l : Log) (p : Pipeline).

(** The frames of the log are those of the datagrams. *)
Definition FramesOf (frames : list Logged) (captured : list CapturedUdpDatagram) : Prop :=
  Forall2 (λ x c, ∃ segmentId sequence, x = (segmentId, capturedFrame sequence c)) frames captured.

Record PipelineOk l0 (p : Pipeline) : Prop := {
  po_kept : pl_offered p = pl_written p ++ stillHeld p;
  po_writer : writerOk (pl_writer p) (pl_queue p);
  po_emergency : cq_sender (qs_state (pl_queue p)) = true → cq_emergency (qs_state (pl_queue p)) = None;
  po_capacity : len (qs_channel (pl_queue p)) ≤ captureQueueCapacity;
  po_printable : Forall captured_printable (stillHeld p);
  po_process : ∃ pr, sy_process (pl_system p) = Some pr ∧ (appending (pl_writer p) = true → pr_writer pr = true);
  po_log : ∃ l frames, Represents (pl_system p) l ∧ lg_frames l = lg_frames l0 ++ frames ∧ FramesOf frames (pl_written p);
}.

(** The queue or the writer moves and takes nothing away. *)
Lemma ok_moved l0 p q w :
  PipelineOk l0 p → stillHeld (moved q w p) = stillHeld p → writerOk w q →
  (cq_sender (qs_state q) = true → cq_emergency (qs_state q) = None) → len (qs_channel q) ≤ captureQueueCapacity →
  (appending w = true → appending (pl_writer p) = true) → PipelineOk l0 (moved q w p).
Proof.
  intros [P1 P2 P3 P4 P5 P6 P7] Hm Hw He Hc Ha. split; rewrite ?Hm; try done.
  destruct P6 as (pr & Hp & Hpr). exists pr. split; [done|]. auto.
Qed.

Lemma ok_offer l0 p captured :
  PipelineOk l0 p → captured_printable captured → ∃ p', pipelineStep process_generation (Offer captured) p = Ok p' ∧ PipelineOk l0 p'.
Proof.
  intros HP Hc. pose proof HP as [P1 P2 P3 P4 P5 P6 P7]. cbn [pipelineStep]. unfold sinkAppend.
  destruct (cq_sender (qs_state (pl_queue p))) eqn:Hs; cbn [negb].
  2: { eexists. split; [done|]. destruct p. exact HP. }
  specialize (P3 eq_refl).
  assert (Hw : ∀ q, cq_retainedAfterFailure (qs_state q) = cq_retainedAfterFailure (qs_state (pl_queue p)) →
      writerOk (pl_writer p) q).
  { intros q Hr. destruct (pl_writer p); cbn [writerOk] in *; rewrite ?Hr; naive_solver congruence. }
  case_if Hroom; (eexists; split; [done|]).
  - apply andb_true_iff in Hroom as [_ Hroom%Z.ltb_lt].
    assert (Hmem : ∀ o, stillHeld {| pl_queue := set_channel (qs_channel (pl_queue p) ++ [captured]) (pl_queue p);
        pl_writer := pl_writer p; pl_system := pl_system p; pl_offered := o; pl_written := pl_written p |} =
      stillHeld p ++ [captured]).
    { intros o. unfold stillHeld. cbn [pl_queue pl_writer set_channel qs_state qs_channel]. rewrite P3. cbn [option_list].
      by rewrite !app_nil_r, <-!app_assoc. }
    split; cbn [pl_queue pl_writer pl_system pl_offered pl_written]; rewrite ?Hmem; try done.
    + by rewrite P1, app_assoc.
    + by apply Hw.
    + cbn [set_channel qs_channel]. rewrite len_app. change (len [captured]) with 1. lia.
    + apply Forall_app. split; [done|]. by apply Forall_singleton.
  - assert (Hmem : ∀ q o, qs_channel q = qs_channel (pl_queue p) → cq_emergency (qs_state q) = Some captured →
        cq_retainedAfterFailure (qs_state q) = cq_retainedAfterFailure (qs_state (pl_queue p)) →
      stillHeld {| pl_queue := q; pl_writer := pl_writer p; pl_system := pl_system p; pl_offered := o; pl_written := pl_written p |} =
      stillHeld p ++ [captured]).
    { intros q o Hch Hem Hret. unfold stillHeld. cbn [pl_queue pl_writer]. rewrite Hch, Hem, Hret, P3. cbn [option_list].
      by rewrite !app_nil_r, <-!app_assoc. }
    split; cbn [pl_queue pl_writer pl_system pl_offered pl_written]; rewrite ?Hmem; try done.
    + by rewrite P1, app_assoc.
    + by apply Hw.
    + apply Forall_app. split; [done|]. by apply Forall_singleton.
Qed.

(** ** The writer *)
Lemma ok_append l0 p captured next fault :
  PipelineOk l0 p → held (pl_writer p) = [captured] → appending (pl_writer p) = true →
  writerOk next (pl_queue p) → held next = [] → cq_retainedAfterFailure (qs_state (pl_queue p)) = [] →
  (∀ d, writerOk (WriterFails captured d) (pl_queue p)) →
  ∃ p', writerAppends captured next fault p = Ok p' ∧ PipelineOk l0 p'.
Proof using Hok.
  intros [P1 P2 P3 P4 P5 (pr & Hp & Hpr) (l & frames & HR & Hl & Hf)] Hh Ha Hnext Hn Hret Hfails.
  specialize (Hpr Ha). unfold stillHeld in P1, P5. rewrite Hret, Hh in P1, P5. cbn [app] in P1, P5.
  apply Forall_cons in P5 as [Hc P5]. unfold writerAppends. rewrite Hp.
  pose proof (append_represents process_generation (pl_system p) l pr captured HR Hp Hpr Hc) as Happ.
  destruct (appendCapturedEvent captured (spoolOf (pl_system p) pr)) as [sp [[]|e|]]; [| |done].
  - destruct Happ as ([id HR'] & _). eexists. split; [done|].
    split; cbn [pl_queue pl_writer pl_system pl_offered pl_written]; try done; unfold stillHeld; cbn [pl_queue pl_writer];
      rewrite ?Hret, ?Hn; cbn [app].
    + by rewrite P1, <-app_assoc.
    + done.
    + eexists. by split.
    + eexists. exists (frames ++ [(id, capturedFrame (ks_nextSequence (pr_state pr)) captured)]).
      split; [exact HR'|]. cbn [lg_frames]. rewrite Hl, app_assoc. split; [done|].
      apply Forall2_app; [done|]. constructor; [|constructor]. by eexists _, _.
  - eexists. split; [done|].
    split; cbn [pl_queue pl_writer pl_system pl_offered pl_written]; try done; unfold stillHeld; cbn [pl_queue pl_writer held];
      rewrite ?Hret; cbn [app].
    + done.
    + by constructor.
    + eexists. by split.
    + exists l, frames. done.
Qed.

(** Another thread of the service. *)
Definition allowedElsewhere (t : Transition) : bool :=
  match t with ReaderMoves | ConsumerAcknowledges | ConsumerQuits | Weather _ => true | _ => false end.

Lemma elsewhere_process t s s' pr :
  allowedElsewhere t = true → transition process_generation t s = Ok s' → sy_process s = Some pr →
  ∃ pr', sy_process s' = Some pr' ∧ pr_writer pr' = pr_writer pr.
Proof.
  intros Ht Hs Hp. destruct t; try done; cbn [transition] in Hs; rewrite ?Hp in Hs.
  - destruct (readerStep _ _ _) as [[sp pc]|e|]; [|done..]. injection Hs as <-. by eexists.
  - destruct (pr_reader pr); injection Hs as <-; eauto.
  - destruct (pr_reader pr); injection Hs as <-; eauto.
  - injection Hs as <-. exists pr. done.
Qed.

Lemma ok_system l0 p t w q :
  PipelineOk l0 p → allowedElsewhere t = true ∨ t = CloseWriter ∧ appending w = false →
  stillHeld (moved q w p) = stillHeld p → writerOk w q →
  (cq_sender (qs_state q) = true → cq_emergency (qs_state q) = None) → len (qs_channel q) ≤ captureQueueCapacity →
  (appending w = true → appending (pl_writer p) = true) →
  ∃ p', on_system process_generation t w q p = Ok p' ∧ PipelineOk l0 p'.
Proof using Hok Hinj.
  intros [P1 P2 P3 P4 P5 (pr & Hp & Hpr) (l & frames & HR & Hl & Hf)] Ht Hm Hw He Hc Ha. unfold on_system.
  assert (Hprint : Printable t) by (destruct Ht as [Ht|[-> _]]; [by destruct t|done]).
  assert (Hkeeps : keepsFrames t = true) by (destruct Ht as [Ht|[-> _]]; [by destruct t|done]).
  destruct (transition_refined process_generation t (pl_system p) l Hinj Hprint HR) as (s' & l' & Hs & Hsteps & HR').
  rewrite Hs. cbn [mbind outcome_bind]. eexists. split; [done|].
  assert (Hmem : ∀ o wr, stillHeld {| pl_queue := q; pl_writer := w; pl_system := s'; pl_offered := o; pl_written := wr |} = stillHeld p)
    by (intros; exact Hm).
  split; cbn [pl_queue pl_writer pl_system pl_offered pl_written]; rewrite ?Hmem; try done.
  - destruct Ht as [Ht|[-> Hna]].
    + destruct (elsewhere_process _ _ _ _ Ht Hs Hp) as (pr' & Hp' & Hw'). exists pr'. rewrite Hw'. auto.
    + cbn [transition] in Hs. rewrite Hp in Hs. injection Hs as <-. eexists. split; [done|]. by rewrite Hna.
  - exists l', frames. split; [done|]. by rewrite (log_frames_kept t _ _ Hkeeps Hsteps).
Qed.

Lemma ok_writer l0 p : PipelineOk l0 p → ∃ p', writerStep process_generation p = Ok p' ∧ PipelineOk l0 p'.
Proof using Hok Hinj.
  intros HP. pose proof HP as [P1 P2 P3 P4 P5 P6 P7]. unfold writerStep. destruct (pl_writer p) as [|c|c d| |c| |] eqn:Hw; cbn [writerOk] in P2.
  - destruct (qs_channel (pl_queue p)) as [|c channel] eqn:Hch.
    + case_if Hs; [by exists p|]. eexists. split; [done|]. apply ok_moved; rewrite ?Hw, ?Hch; try done.
      { unfold stillHeld. by rewrite Hw. }
      by rewrite Hs.
    + eexists. split; [done|]. apply ok_moved; rewrite ?Hw; try done.
      * unfold stillHeld. rewrite Hw. cbn [moved pl_queue pl_writer set_channel qs_state qs_channel held app]. by rewrite Hch.
      * cbn [set_channel qs_channel]. rewrite len_cons in P4. lia.
  - by apply (ok_append l0 p c); rewrite ?Hw.
  - eexists. split; [done|]. apply ok_moved; rewrite ?Hw; try done.
    unfold stillHeld. rewrite Hw. cbn [moved pl_queue pl_writer held app retainAfterSpoolFailure set_channel set_queue
      qs_state qs_channel cq_retainedAfterFailure cq_emergency option_list]. by rewrite P2, app_nil_r.
  - destruct P2 as (Hret & Hch & Hs). unfold takeEmergency.
    destruct (cq_emergency (qs_state (pl_queue p))) as [c|] eqn:He; (eexists; split; [done|]); apply ok_moved; rewrite ?Hw; try done.
    + unfold stillHeld. rewrite Hw, Hch, He, Hret. cbn. by rewrite Hret, Hch.
    + unfold stillHeld. rewrite Hw, Hch, He, Hret. cbn. by rewrite Hret, Hch.
  - destruct P2 as (Hret & Hch & He & Hs). apply (ok_append l0 p c); rewrite ?Hw; try done.
  - destruct P2 as (Hch & He & Hs & Hf). apply ok_system; rewrite ?Hw; try done; [by right|].
    unfold stillHeld. rewrite Hw. cbn. by rewrite Hch.
  - by exists p.
Qed.

(** ** Any run *)
Definition actionOk (a : PipelineAction) : Prop :=
  match a with Offer captured => captured_printable captured | Elsewhere t => allowedElsewhere t = true | _ => True end.

Lemma ok_step l0 a p : PipelineOk l0 p → actionOk a → ∃ p', pipelineStep process_generation a p = Ok p' ∧ PipelineOk l0 p'.
Proof using Hok Hinj.
  intros HP Ha. destruct a as [captured| |detail| |t].
  - by apply ok_offer.
  - by apply ok_writer.
  - eexists. split; [done|]. pose proof (po_writer _ _ HP) as Hw. apply ok_moved; try done; [|apply HP].
    destruct (pl_writer p); cbn in *; naive_solver.
  - eexists. split; [done|]. pose proof (po_writer _ _ HP) as Hw. apply ok_moved; try done; [|apply HP].
    destruct (pl_writer p); cbn in *; naive_solver.
  - apply ok_system; try done; [by left|apply HP..].
Qed.

Lemma ok_run l0 actions p :
  PipelineOk l0 p → Forall actionOk actions → ∃ p', pipelineRun process_generation actions p = Ok p' ∧ PipelineOk l0 p'.
Proof using Hok Hinj.
  intros HP Ha. revert p HP. induction Ha as [|a actions Ha _ IH]; intros p HP; [by exists p|].
  destruct (ok_step l0 a p HP Ha) as (p1 & Hp1 & HP1). destruct (IH p1 HP1) as (p2 & Hp2 & HP2).
  exists p2. cbn [pipelineRun]. by rewrite Hp1.
Qed.

Lemma ok_new l0 s pr : Represents s l0 → sy_process s = Some pr → pr_writer pr = true → PipelineOk l0 (newPipeline s).
Proof.
  intros HR Hp Hw. split; try done.
  - by exists pr.
  - exists l0, []. rewrite app_nil_r. split_and!; [done|done|constructor].
Qed.

(** C18: Whatever the capture thread, the writer, the reader, the consumer and the disk do, the
    datagrams the sink took over are, in order, those the disk queue confirmed followed by those
    memory holds; the confirmed ones stand at the end of the log; the channel stays within its
    capacity; and when the writer has ended without a fault all of them are on the disk. *)
Theorem pipeline_loses_nothing l0 s pr actions :
  Represents s l0 → sy_process s = Some pr → pr_writer pr = true → Forall actionOk actions →
  ∃ p, pipelineRun process_generation actions (newPipeline s) = Ok p ∧
    pl_offered p = pl_written p ++ stillHeld p ∧
    (∃ l frames, Represents (pl_system p) l ∧ lg_frames l = lg_frames l0 ++ frames ∧ FramesOf frames (pl_written p)) ∧
    len (qs_channel (pl_queue p)) ≤ captureQueueCapacity ∧
    (pl_writer p = WriterGone → sinkFault (pl_queue p) = None → pl_written p = pl_offered p).
Proof using Hok Hinj.
  intros HR Hp Hw Ha. destruct (ok_run l0 actions (newPipeline s) (ok_new l0 s pr HR Hp Hw) Ha) as (p & Hrun & [P1 P2 P3 P4 P5 P6 P7]).
  exists p. split_and!; [done|done|done|done|]. intros Hgone Hfault. unfold stillHeld in P1. rewrite Hgone in P1, P2.
  destruct P2 as (Hch & He & _ & Hf). rewrite Hch, He in P1. unfold sinkFault in Hfault.
  destruct (cq_fault (qs_state (pl_queue p))) as [d|] eqn:Hd; [done|].
  destruct (cq_retainedAfterFailure (qs_state (pl_queue p))) as [|c r]; [|by destruct Hf].
  rewrite P1. cbn. by rewrite app_nil_r.
Qed.
End theorems.
