(* ===== verification/UdpCoordination.v ===== *)
(** * Clearing UDP recordings across restarts

    Model of [UdpRecordingCoordination] of [Server/Backend/src/udpRecording.rs]: the epoch
    a datagram is captured in, the persisted barrier behind which a clear hides what was
    captured before, and the key of the one transaction that is committed and not yet
    acknowledged.  An operation runs as a whole: the code takes its locks in one order and
    the clear holds the recording lock of the control process. *)

From S2P Require Import Prelude NetAddress CaptureTypes Stateful Text UdpSpoolModel UdpSpool UdpSpoolInvariant.

Record SpoolIdentity := {
  si_processGeneration : chars;
  si_segmentId : Z;
  si_sequence : Z
}.
#[export] Instance SpoolIdentity_eq_dec : EqDecision SpoolIdentity.
Proof. solve_decision. Defined.

Record UdpRecordingCoordination := {
  uc_processGeneration : chars;
  uc_epoch : Z;
  uc_clearedEpochs : gmap chars Z;
  uc_sealedGenerations : gset chars;
  uc_knownSpoolGenerations : gset chars;
  uc_committedButUnacknowledged : option SpoolIdentity
}.

Definition recordingEpochFileName : chars := lit "udpRecordingEpochs.json".
Definition epochPath : path := (DataDirectory, recordingEpochFileName).
Definition epochTemporaryPath : path := (DataDirectory, with_extension (lit "json.next") recordingEpochFileName).

Definition set_epoch (v : Z) (c : UdpRecordingCoordination) : UdpRecordingCoordination :=
  {| uc_processGeneration := uc_processGeneration c; uc_epoch := v; uc_clearedEpochs := uc_clearedEpochs c;
     uc_sealedGenerations := uc_sealedGenerations c; uc_knownSpoolGenerations := uc_knownSpoolGenerations c;
     uc_committedButUnacknowledged := uc_committedButUnacknowledged c |}.
Definition set_barrier (cleared : gmap chars Z) (sealed : gset chars) (c : UdpRecordingCoordination)
    : UdpRecordingCoordination :=
  {| uc_processGeneration := uc_processGeneration c; uc_epoch := uc_epoch c; uc_clearedEpochs := cleared;
     uc_sealedGenerations := sealed; uc_knownSpoolGenerations := uc_knownSpoolGenerations c;
     uc_committedButUnacknowledged := uc_committedButUnacknowledged c |}.
Definition set_known (v : gset chars) (c : UdpRecordingCoordination) : UdpRecordingCoordination :=
  {| uc_processGeneration := uc_processGeneration c; uc_epoch := uc_epoch c; uc_clearedEpochs := uc_clearedEpochs c;
     uc_sealedGenerations := uc_sealedGenerations c; uc_knownSpoolGenerations := v;
     uc_committedButUnacknowledged := uc_committedButUnacknowledged c |}.
Definition set_committed (v : option SpoolIdentity) (c : UdpRecordingCoordination) : UdpRecordingCoordination :=
  {| uc_processGeneration := uc_processGeneration c; uc_epoch := uc_epoch c; uc_clearedEpochs := uc_clearedEpochs c;
     uc_sealedGenerations := uc_sealedGenerations c; uc_knownSpoolGenerations := uc_knownSpoolGenerations c;
     uc_committedButUnacknowledged := v |}.

Definition newCoordination (processGeneration : chars) : UdpRecordingCoordination :=
  {| uc_processGeneration := processGeneration; uc_epoch := 0; uc_clearedEpochs := ∅; uc_sealedGenerations := ∅;
     uc_knownSpoolGenerations := ∅; uc_committedButUnacknowledged := None |}.

(** [advance], which only tests call: the counter wraps, its result does not. *)
Definition advance (c : UdpRecordingCoordination) : UdpRecordingCoordination * Z :=
  let next := Z.min (uc_epoch c + 1) u64_max in
  (set_barrier (<[uc_processGeneration c := next]> (uc_clearedEpochs c)) (uc_sealedGenerations c)
     (set_epoch ((uc_epoch c + 1) mod (u64_max + 1)) c), next).

Definition registerSpoolGenerations (generations : gset chars) : UdpRecordingCoordination → UdpRecordingCoordination :=
  set_known generations.

Definition shouldPersist (processGeneration : chars) (epoch : Z) (c : UdpRecordingCoordination) : bool :=
  if bool_decide (processGeneration = uc_processGeneration c) then epoch =? uc_epoch c
  else if bool_decide (processGeneration ∈ uc_sealedGenerations c) then false
  else match uc_clearedEpochs c !! processGeneration with Some minimumVisibleEpoch => minimumVisibleEpoch <=? epoch | None => true end.

Definition transactionAlreadyCommitted (identity : SpoolIdentity) (c : UdpRecordingCoordination) : bool :=
  bool_decide (uc_committedButUnacknowledged c = Some identity).

Definition markTransactionCommitted (identity : SpoolIdentity) : UdpRecordingCoordination → UdpRecordingCoordination :=
  set_committed (Some identity).

Definition markSpoolAcknowledged (identity : SpoolIdentity) (c : UdpRecordingCoordination) : UdpRecordingCoordination :=
  if bool_decide (uc_committedButUnacknowledged c = Some identity) then set_committed None c else c.

(** What a datagram is captured in. *)
Definition coordinationSnapshot (c : UdpRecordingCoordination) : chars * Z := (uc_processGeneration c, uc_epoch c).

Section coordination.
Context `{SpoolEnvironment}.

Definition loadCoordination (processGeneration : chars) : io UdpRecordingCoordination :=
  present ← exists_path epochPath;
  persisted ←
    (if present : bool then
       bytes ← read_file epochPath;
       lift (ok_or (parse_epochs bytes) InvalidData)
     else mret {| pe_clearedEpochs := ∅; pe_sealedGenerations := ∅ |});
  mret {| uc_processGeneration := processGeneration; uc_epoch := 0; uc_clearedEpochs := pe_clearedEpochs persisted;
          uc_sealedGenerations := pe_sealedGenerations persisted; uc_knownSpoolGenerations := ∅;
          uc_committedButUnacknowledged := None |}.

Definition persistRecordingEpochs (clearedEpochs : gmap chars Z) (sealedGenerations : gset chars) : io unit :=
  writeReplacing epochTemporaryPath epochPath
    (epochs_json {| pe_clearedEpochs := clearedEpochs; pe_sealedGenerations := sealedGenerations |}).

(** The coordination of a control process and the disk. *)
Abbreviation coordinated := (stateful (UdpRecordingCoordination * SpoolDisk) SpoolError).

Definition on_epochs {A} (m : io A) : coordinated A := λ '(c, d), let '(d, r) := m d in ((c, d), r).
Definition update_coordination (f : UdpRecordingCoordination → UdpRecordingCoordination) : coordinated unit :=
  modify (λ '(c, d), (f c, d)).

(** An error that is handled and passed on. *)
Definition catch {A} (m : coordinated A) (handler : SpoolError → coordinated A) : coordinated A := λ s,
  match m s with (s, Err e) => handler e s | r => r end.

Definition advanceAndPersist : coordinated Z :=
  c ← gets fst;
  next ← lift (ok_or (checked_add (uc_epoch c) 1) OtherError);
  let clearedEpochs := <[uc_processGeneration c := next]> (uc_clearedEpochs c) in
  let sealedGenerations :=
    uc_sealedGenerations c ∪ (uc_knownSpoolGenerations c ∖ {[uc_processGeneration c]}) in
  let previous := match uc_clearedEpochs c !! uc_processGeneration c with
                  | Some previous => <[uc_processGeneration c := previous]> clearedEpochs
                  | None => delete (uc_processGeneration c) clearedEpochs
                  end in
  _ ← update_coordination (set_barrier clearedEpochs sealedGenerations);
  _ ← catch (on_epochs (persistRecordingEpochs clearedEpochs sealedGenerations))
        (λ e, _ ← update_coordination (set_barrier previous (uc_sealedGenerations c)); fail e);
  _ ← update_coordination (set_epoch next);
  mret next.

Definition pruneClearedEpochs (referencedGenerations : gset chars) : coordinated unit :=
  c ← gets fst;
  let clearedEpochs :=
    filter (λ '(generation, _), generation = uc_processGeneration c ∨ generation ∈ referencedGenerations) (uc_clearedEpochs c) in
  let sealedGenerations := filter (λ generation, generation ∈ referencedGenerations) (uc_sealedGenerations c) in
  _ ← update_coordination (set_barrier clearedEpochs sealedGenerations);
  _ ← update_coordination (registerSpoolGenerations referencedGenerations);
  if negb (Nat.eqb (size clearedEpochs) (size (uc_clearedEpochs c)))
     || negb (Nat.eqb (size sealedGenerations) (size (uc_sealedGenerations c)))
  then on_epochs (persistRecordingEpochs clearedEpochs sealedGenerations)
  else mret tt.

(** What [startCoordinatedUdpRecordingGeneration] does with the generations of the spool. *)
Definition publishGenerations (spoolGenerations : gset chars) : coordinated unit :=
  _ ← update_coordination (registerSpoolGenerations spoolGenerations);
  pruneClearedEpochs spoolGenerations.

(** ** Steps *)
Inductive CoordinationStep :=
| Clear
| ServiceBegins (spoolGenerations : gset chars)
| ControlProcessBegins (processGeneration : chars)
| Commits (identity : SpoolIdentity)
| Acknowledges (identity : SpoolIdentity).

(** A control process that cannot load the barrier does not start. *)
Definition coordinationStep (t : CoordinationStep) (s : option UdpRecordingCoordination * SpoolDisk)
    : outcome unit (option UdpRecordingCoordination * SpoolDisk) :=
  match t, s with
  | ControlProcessBegins processGeneration, (_, d) =>
      match loadCoordination processGeneration d with
      | (d, Ok c) => Ok (Some c, d)
      | (d, Err _) => Ok (None, d)
      | (_, Panic) => Panic
      end
  | Clear, (Some c, d) =>
      match advanceAndPersist (c, d) with ((c, d), Panic) => Panic | ((c, d), _) => Ok (Some c, d) end
  | ServiceBegins spoolGenerations, (Some c, d) =>
      match publishGenerations spoolGenerations (c, d) with ((c, d), Panic) => Panic | ((c, d), _) => Ok (Some c, d) end
  | Commits identity, (Some c, d) => Ok (Some (markTransactionCommitted identity c), d)
  | Acknowledges identity, (Some c, d) => Ok (Some (markSpoolAcknowledged identity c), d)
  | _, s => Ok s
  end.

Fixpoint coordinationSteps (ts : list CoordinationStep) (s : option UdpRecordingCoordination * SpoolDisk)
    : outcome unit (option UdpRecordingCoordination * SpoolDisk) :=
  match ts with [] => Ok s | t :: ts => s ← coordinationStep t s; coordinationSteps ts s end.
End coordination.

(** * What a clear hides stays hidden

    The effect of a clear on every branch, and that the datagrams it hides stay hidden
    through later clears, restarts of the service and of the control process. *)

Lemma epoch_paths_ne : epochTemporaryPath ≠ epochPath.
Proof. intros Heq. vm_compute in Heq. discriminate Heq. Qed.

#[local] Opaque epochPath epochTemporaryPath.

(** A barrier hides a generation, or its epochs before one. *)
Definition hides (cleared : gmap chars Z) (sealed : gset chars) (generation : chars) (epoch : Z) : Prop :=
  generation ∈ sealed ∨ ∃ minimum, cleared !! generation = Some minimum ∧ epoch < minimum.

Section theorems.
Context `{SpoolEnvironment} {Hok : SpoolEnvironmentOk}.
Implicit Types (c : UdpRecordingCoordination) (d : SpoolDisk).

(** ** Disk *)
Definition holdsEpochs (d : SpoolDisk) (cleared : gmap chars Z) (sealed : gset chars) : Prop :=
  kd_files d !! epochPath = Some (epochs_json {| pe_clearedEpochs := cleared; pe_sealedGenerations := sealed |}).

Lemma persistEpochs_runs cleared sealed d :
  Runs (persistRecordingEpochs cleared sealed) d
    (λ _ d', holdsEpochs d' cleared sealed)
    (λ _ d', kd_files d' !! epochPath = kd_files d !! epochPath ∨ holdsEpochs d' cleared sealed).
Proof.
  unfold persistRecordingEpochs. eapply runs_mono, writeReplacing_runs, epoch_paths_ne; cbn beta.
  - intros _ d' Hd. unfold holdsEpochs. rewrite Hd, lookup_delete_ne by apply epoch_paths_ne. apply lookup_insert_eq.
  - intros _ d' (t & [Hd|Hd]); rewrite Hd; [left|right].
    + apply lookup_partial_alter_ne, epoch_paths_ne.
    + unfold holdsEpochs. rewrite Hd, lookup_delete_ne by apply epoch_paths_ne. apply lookup_insert_eq.
Qed.

Lemma on_epochs_runs {A} (m : stateful SpoolDisk SpoolError A) c d P Q :
  Runs m d (λ a d', P a (c, d')) (λ e d', Q e (c, d')) → Runs (on_epochs m) (c, d) P Q.
Proof. unfold Runs, on_epochs. by destruct (m d) as [d' []]. Qed.

Lemma update_coordination_runs f c d (P : unit → UdpRecordingCoordination * SpoolDisk → Prop) Q :
  P tt (f c, d) → Runs (update_coordination f) (c, d) P Q.
Proof. done. Qed.

Lemma catch_runs {A} (m : stateful (UdpRecordingCoordination * SpoolDisk) SpoolError A) handler s P Q :
  Runs m s P (λ e s', Runs (handler e) s' P Q) → Runs (catch m handler) s P Q.
Proof. unfold Runs, catch. by destruct (m s) as [s' []]. Qed.

(** ** Clearing *)
Definition clearedBarrier c : gmap chars Z := <[uc_processGeneration c := uc_epoch c + 1]> (uc_clearedEpochs c).
Definition sealedBarrier c : gset chars :=
  uc_sealedGenerations c ∪ (uc_knownSpoolGenerations c ∖ {[uc_processGeneration c]}).

Lemma advance_runs c d :
  Runs advanceAndPersist (c, d)
    (λ next s, next = uc_epoch c + 1 ∧ s.1 = set_epoch next (set_barrier (clearedBarrier c) (sealedBarrier c) c) ∧
       holdsEpochs s.2 (clearedBarrier c) (sealedBarrier c))
    (λ _ s, s.1 = c ∧ (kd_files s.2 !! epochPath = kd_files d !! epochPath ∨ holdsEpochs s.2 (clearedBarrier c) (sealedBarrier c))).
Proof.
  unfold advanceAndPersist. apply runs_bind, runs_gets, runs_bind, runs_lift. cbn [fst]. unfold checked_add.
  case_if Hmax; cbn [ok_or Satisfies]; [|by split; [|left]]. apply runs_bind, update_coordination_runs.
  change (<[uc_processGeneration c := uc_epoch c + 1]> (uc_clearedEpochs c)) with (clearedBarrier c).
  change (uc_sealedGenerations c ∪ uc_knownSpoolGenerations c ∖ {[uc_processGeneration c]}) with (sealedBarrier c).
  apply runs_bind, catch_runs, on_epochs_runs. eapply runs_mono, persistEpochs_runs; cbn beta.
  - intros _ d' Hd. apply runs_bind, update_coordination_runs, runs_ret. done.
  - intros e d' Hd. apply runs_bind, update_coordination_runs, runs_fail. cbn [fst snd]. split; [|done].
    destruct c as [own epoch cleared sealed known committed]. unfold set_barrier, clearedBarrier. cbn. f_equal.
    destruct (cleared !! own) as [previous|] eqn:Hp.
    + rewrite insert_insert_eq. by apply insert_id.
    + by apply delete_insert_id.
Qed.

Lemma shouldPersist_hidden g e c :
  hides (uc_clearedEpochs c) (uc_sealedGenerations c) g e → (g = uc_processGeneration c → e < uc_epoch c) →
  shouldPersist g e c = false.
Proof.
  intros Hh Hown. unfold shouldPersist. case_bool_decide as Hg; [apply Z.eqb_neq; specialize (Hown Hg); lia|].
  case_bool_decide as Hs; [done|]. destruct Hh as [|(m & -> & Hm)]; [done|]. apply Z.leb_gt. lia.
Qed.

(** What was captured before a clear, by this control process or by one whose datagrams
    the disk queue held when the service began. *)
Definition capturedBefore c (g : chars) (e : Z) : Prop :=
  g = uc_processGeneration c ∧ e ≤ uc_epoch c ∨ g ≠ uc_processGeneration c ∧ g ∈ uc_knownSpoolGenerations c.

Lemma hides_before c g e : capturedBefore c g e → hides (clearedBarrier c) (sealedBarrier c) g e.
Proof.
  intros [[-> He]|[Hne Hk]].
  - right. exists (uc_epoch c + 1). split; [apply lookup_insert_eq|lia].
  - left. unfold sealedBarrier. set_solver.
Qed.

Lemma publish_known gens c d :
  let served := (publishGenerations gens (c, d)).1.1 in
  uc_processGeneration served = uc_processGeneration c ∧ uc_epoch served = uc_epoch c ∧
  uc_knownSpoolGenerations served = gens.
Proof.
  unfold publishGenerations, pruneClearedEpochs, on_epochs, update_coordination, modify, gets, mret, stateful_ret,
    mbind, stateful_bind.
  cbn -[filter persistRecordingEpochs size].
  match goal with |- context [if ?b then _ else _] => destruct b end; [|done].
  by destruct (persistRecordingEpochs _ _ d) as [d' [[]|e|]].
Qed.

(** C22: A clear that succeeds starts a later epoch, in which datagrams are captured and shown,
    and writes its barrier to the disk.  It hides every datagram captured until then by this
    control process, and every datagram of the generations that the disk queue held when the
    last service of this process began; datagrams of other generations are as visible as
    before (so before a first service nothing of an earlier process is hidden, see
    [clear_before_service_hides_nothing]).  A clear that fails changes nothing in memory.
    The generations are known as soon as a service publishes them, also when it then fails
    to write the pruned barrier. *)
Theorem clear_barrier c d :
  Runs advanceAndPersist (c, d)
    (λ next s, uc_epoch s.1 = next ∧ uc_epoch c < next ∧ coordinationSnapshot s.1 = (uc_processGeneration c, next) ∧
       shouldPersist (uc_processGeneration c) next s.1 = true ∧
       (∀ g e, capturedBefore c g e → shouldPersist g e s.1 = false) ∧
       (∀ g e, g ≠ uc_processGeneration c → g ∉ uc_knownSpoolGenerations c → shouldPersist g e s.1 = shouldPersist g e c) ∧
       holdsEpochs s.2 (uc_clearedEpochs s.1) (uc_sealedGenerations s.1))
    (λ _ s, s.1 = c) ∧
  ∀ spoolGenerations,
    let served := (publishGenerations spoolGenerations (c, d)).1.1 in
    uc_processGeneration served = uc_processGeneration c ∧ uc_epoch served = uc_epoch c ∧
    uc_knownSpoolGenerations served = spoolGenerations.
Proof.
  split.
  - eapply runs_mono, advance_runs; cbn beta; [|by intros _ s [Hs _]].
    intros next [c' d'] (-> & Hc & Hd). cbn [fst snd] in *. subst c'. split_and!; [done|lia|done| | | |done].
    + unfold shouldPersist. cbn. rewrite bool_decide_true by done. apply Z.eqb_refl.
    + intros g e Hb. apply shouldPersist_hidden; [by apply hides_before|]. cbn. intros ->.
      destruct Hb as [[_ He]|[Hne _]]; [lia|done].
    + intros g e Hne Hk. unfold shouldPersist. cbn [uc_processGeneration set_epoch set_barrier uc_sealedGenerations uc_clearedEpochs].
      rewrite !bool_decide_false by done. unfold clearedBarrier. rewrite lookup_insert_ne by done.
      assert (bool_decide (g ∈ sealedBarrier c) = bool_decide (g ∈ uc_sealedGenerations c)) as ->; [|done].
      apply bool_decide_ext. unfold sealedBarrier. set_solver.
  - intros gens. apply publish_known.
Qed.

(** ** Later steps *)
(** A datagram is hidden in memory and on the disk. *)
Record Hidden (g : chars) (e : Z) (s : option UdpRecordingCoordination * SpoolDisk) : Prop := {
  hi_disk : ∃ cleared sealed, holdsEpochs s.2 cleared sealed ∧ hides cleared sealed g e;
  hi_memory : ∀ c, s.1 = Some c →
    hides (uc_clearedEpochs c) (uc_sealedGenerations c) g e ∧ (g = uc_processGeneration c → e < uc_epoch c);
}.

Lemma holds_same d d' cleared sealed :
  kd_files d' !! epochPath = kd_files d !! epochPath → holdsEpochs d cleared sealed → holdsEpochs d' cleared sealed.
Proof. unfold holdsEpochs. by intros ->. Qed.

Lemma hides_next c g e :
  hides (uc_clearedEpochs c) (uc_sealedGenerations c) g e → (g = uc_processGeneration c → e < uc_epoch c) →
  hides (clearedBarrier c) (sealedBarrier c) g e.
Proof.
  intros [Hs|(m & Hm & He)] Hown; [left; unfold sealedBarrier; set_solver|].
  right. unfold clearedBarrier. destruct (decide (uc_processGeneration c = g)) as [<-|Hne].
  - exists (uc_epoch c + 1). split; [apply lookup_insert_eq|]. specialize (Hown eq_refl). lia.
  - exists m. by rewrite lookup_insert_ne.
Qed.

Lemma hidden_clear g e c d :
  Hidden g e (Some c, d) → ∃ s, coordinationStep Clear (Some c, d) = Ok s ∧ Hidden g e s.
Proof.
  intros [(cleared & sealed & Hd & Hh) Hm]. destruct (Hm c eq_refl) as [Hc Hown]. cbn [coordinationStep].
  pose proof (advance_runs c d) as Hr. unfold Runs in Hr.
  pose proof (hides_next c g e Hc Hown) as Hnext.
  destruct (advanceAndPersist (c, d)) as [[c' d'] [next|err|]]; [| |done]; (eexists; split; [done|]).
  - destruct Hr as (-> & Hc' & Hd'). cbn [fst snd] in *. subst c'. split; [by exists (clearedBarrier c), (sealedBarrier c)|].
    intros c' [= <-]. split; [exact Hnext|]. cbn. intros Hg. specialize (Hown Hg). lia.
  - destruct Hr as [Hc' Hd']. cbn [fst snd] in *. subst c'. split; [|by intros c' [= <-]].
    destruct Hd' as [Hd'|Hd']; [exists cleared, sealed|by exists (clearedBarrier c), (sealedBarrier c)].
    split; [by eapply holds_same|done].
Qed.

Lemma hides_pruned c (references : gset chars) g e :
  g ∈ references → hides (uc_clearedEpochs c) (uc_sealedGenerations c) g e →
  hides (filter (λ '(generation, _), generation = uc_processGeneration c ∨ generation ∈ references) (uc_clearedEpochs c))
    (filter (λ generation, generation ∈ references) (uc_sealedGenerations c)) g e.
Proof.
  intros Hg [Hs|(m & Hm & He)]; [left; by apply elem_of_filter|]. right. exists m. split; [|done].
  apply map_lookup_filter_Some. split; [done|by right].
Qed.

Lemma hidden_service g e c d references :
  Hidden g e (Some c, d) → g ∈ references → ∃ s, coordinationStep (ServiceBegins references) (Some c, d) = Ok s ∧ Hidden g e s.
Proof.
  intros [(cleared & sealed & Hd & Hh) Hm] Hg. destruct (Hm c eq_refl) as [Hc Hown]. cbn [coordinationStep].
  pose proof (hides_pruned c references g e Hg Hc) as Hp.
  enough (Runs (publishGenerations references) (c, d) (λ _ s, Hidden g e (Some s.1, s.2)) (λ _ s, Hidden g e (Some s.1, s.2))) as Hr.
  { unfold Runs in Hr. destruct (publishGenerations references (c, d)) as [[c' d'] [[]|err|]]; [..|done]; by eexists. }
  unfold publishGenerations, pruneClearedEpochs. apply runs_bind, update_coordination_runs.
  apply runs_bind, runs_gets. cbn [fst]. apply runs_bind, update_coordination_runs, runs_bind, update_coordination_runs.
  set (c' := registerSpoolGenerations references (set_barrier _ _ _)).
  assert (Hmem : ∀ c2, Some c' = Some c2 → hides (uc_clearedEpochs c2) (uc_sealedGenerations c2) g e ∧
    (g = uc_processGeneration c2 → e < uc_epoch c2)) by (by intros c2 [= <-]).
  assert (Hold : ∀ d', kd_files d' !! epochPath = kd_files d !! epochPath → Hidden g e (Some c', d')).
  { intros d' Hd'. split; [|exact Hmem]. exists cleared, sealed. split; [by eapply holds_same|done]. }
  assert (Hnew : ∀ d', holdsEpochs d' (uc_clearedEpochs c') (uc_sealedGenerations c') → Hidden g e (Some c', d')).
  { intros d' Hd'. split; [|exact Hmem]. by eexists _, _. }
  case_if Hchanged; [|by apply runs_ret, Hold]. apply on_epochs_runs.
  eapply runs_mono, persistEpochs_runs; cbn beta; [intros _ d'; apply Hnew|].
  intros _ d' [Hd'|Hd']; [by apply Hold|by apply Hnew].
Qed.

Lemma hidden_load g e oc d g' :
  Hidden g e (oc, d) → g' ≠ g → ∃ s, coordinationStep (ControlProcessBegins g') (oc, d) = Ok s ∧ Hidden g e s.
Proof using Hok.
  intros [(cleared & sealed & Hd & Hh) _] Hg. cbn [coordinationStep]. cbn [snd] in Hd.
  enough (Runs (loadCoordination g') d (λ c d', Hidden g e (Some c, d')) (λ _ d', Hidden g e (None, d'))) as Hr.
  { unfold Runs in Hr. destruct (loadCoordination g' d) as [d' [c|err|]]; [..|done]; by eexists. }
  assert (Hnone : ∀ d', Kept (kd_files d) d' → Hidden g e (None, d')).
  { intros d' Hd'. split; [|done]. exists cleared, sealed. split; [|done]. unfold holdsEpochs. cbn [snd]. by rewrite Hd'. }
  unfold loadCoordination. apply runs_bind, exists_runs. rewrite bool_decide_true by (by rewrite Hd; eexists).
  apply runs_bind, runs_bind, readFile_runs; [|by intros err]. intros content d' Hc Hd'. rewrite Hd in Hc. injection Hc as <-.
  apply runs_lift. rewrite epochs_json_parse. cbn [ok_or Satisfies]. apply runs_ret. split.
  - exists cleared, sealed. split; [|done]. unfold holdsEpochs. cbn [snd]. by rewrite Hd'.
  - intros c [= <-]. cbn. split; [done|]. intros ->. done.
Qed.

(** The datagram's generation is still in the queue when a service begins, and no later
    control process takes its name. *)
Definition keepsGeneration (g : chars) (t : CoordinationStep) : Prop :=
  match t with ServiceBegins references => g ∈ references | ControlProcessBegins g' => g' ≠ g | _ => True end.

Lemma hidden_step g e t s : Hidden g e s → keepsGeneration g t → ∃ s', coordinationStep t s = Ok s' ∧ Hidden g e s'.
Proof using Hok.
  destruct s as [[c|] d]; intros HH Ht; destruct t as [|references|g'|identity|identity]; try (by eexists);
    try (by apply hidden_load); [by apply hidden_clear|by apply hidden_service|..].
  - eexists. split; [done|]. destruct HH as [Hd Hm]. split; [done|]. intros c' [= <-]. by apply (Hm c).
  - eexists. split; [done|]. destruct HH as [Hd Hm]. split; [done|]. intros c' [= <-].
    unfold markSpoolAcknowledged. case_bool_decide; by apply (Hm c).
Qed.

Lemma hidden_steps g e ts s :
  Hidden g e s → Forall (keepsGeneration g) ts → ∃ s', coordinationSteps ts s = Ok s' ∧ Hidden g e s'.
Proof using Hok.
  intros HH Hts. revert s HH. induction Hts as [|t ts Ht _ IH]; intros s HH; [by exists s|].
  destruct (hidden_step g e t s HH Ht) as (s1 & Hs1 & HH1). destruct (IH s1 HH1) as (s2 & Hs2 & HH2).
  exists s2. cbn [coordinationSteps]. by rewrite Hs1.
Qed.

(** C21: What a successful clear hides is hidden after any sequence of later clears, restarts of the
    service, restarts of the control process and failed disk operations, as long as the queue
    still refers to its generation when a service begins and no later process takes its name. *)
Theorem cleared_stays_cleared c d c1 d1 next g e ts :
  advanceAndPersist (c, d) = ((c1, d1), Ok next) → capturedBefore c g e → Forall (keepsGeneration g) ts →
  ∃ oc d2, coordinationSteps ts (Some c1, d1) = Ok (oc, d2) ∧ ∀ c2, oc = Some c2 → shouldPersist g e c2 = false.
Proof using Hok.
  intros Ha Hb Hts. pose proof (advance_runs c d) as Hr. unfold Runs in Hr. rewrite Ha in Hr.
  destruct Hr as (-> & Hc1 & Hd1). cbn [fst snd] in *.
  assert (HH : Hidden g e (Some c1, d1)).
  { split; [exists (clearedBarrier c), (sealedBarrier c); split; [done|by apply hides_before]|].
    intros c' [= <-]. subst c1. split; [by apply hides_before|]. cbn. intros ->. destruct Hb as [[_ He]|[Hne _]]; [lia|done]. }
  destruct (hidden_steps g e ts _ HH Hts) as ([oc d2] & Hs & [_ Hm]). exists oc, d2. split; [done|].
  intros c2 Hc2. destruct (Hm c2 Hc2) as [Hh Hown]. by apply shouldPersist_hidden.
Qed.
End theorems.
