(* ===== verification/UdpPersist.v ===== *)
(** * A UDP datagram becomes a transaction

    Model of [persistUdpDatagram], [resolveProcessName] and [recordUdpDatagram] of
    [Server/Backend/src/udpRecording.rs], on the recording session.  Other tasks use the
    session between two of its calls; what they do is an argument. *)

From S2P Require Import Prelude NetAddress CaptureTypes Stateful Text Location CaptureModel MetadataBudget BodyStore RecordingState RecordingBudget Recording.

(** ** [Display] of addresses *)
Definition hex_digit (d : Z) : Z := if d <? 10 then 48 + d else 87 + d.

(** The format [{:x}] of a [u16]. *)
Fixpoint hex_digits (fuel : nat) (n : Z) (acc : chars) : chars :=
  match fuel with
  | O => acc
  | S fuel =>
      let acc := hex_digit (n mod 16) :: acc in
      if n <? 16 then acc else hex_digits fuel (n / 16) acc
  end.
Definition hexadecimal (n : Z) : chars := hex_digits 4 n [].

Fixpoint separated (separator : chars) (parts : list chars) : chars :=
  match parts with
  | [] => []
  | [part] => part
  | part :: parts => part ++ separator ++ separated separator parts
  end.

Definition ipv4_to_string (z : Z) : chars := separated (lit ".") (decimal <$> be_bytes 4 z).

(** The eight groups of an IPv6 address. *)
Definition segments (z : Z) : list Z := (λ i, z / 65536 ^ i mod 65536) <$> [7; 6; 5; 4; 3; 2; 1; 0].

(** A run of zero groups: where it starts and its length. *)
Definition span : Type := nat * nat.

Fixpoint zeroRun (index : nat) (current longest : span) (groups : list Z) : span :=
  match groups with
  | [] => longest
  | group :: groups =>
      if group =? 0 then
        let current := (if Nat.eqb current.2 0 then index else current.1, S current.2) in
        zeroRun (S index) current (if Nat.ltb longest.2 current.2 then current else longest) groups
      else zeroRun (S index) (0%nat, 0%nat) longest groups
  end.

Definition groups_to_string (groups : list Z) : chars := separated (lit ":") (hexadecimal <$> groups).

Definition ipv6_to_string (z : Z) : chars :=
  match to_ipv4_mapped z with
  | Some v4 => lit "::ffff:" ++ ipv4_to_string v4
  | None =>
      let zeroes := zeroRun 0 (0%nat, 0%nat) (0%nat, 0%nat) (segments z) in
      if Nat.ltb 1 zeroes.2 then
        groups_to_string (take zeroes.1 (segments z)) ++ lit "::" ++
        groups_to_string (drop (zeroes.1 + zeroes.2) (segments z))
      else groups_to_string (segments z)
  end.

Definition ip_to_string (ip : IpAddr) : chars :=
  match ip with V4 z => ipv4_to_string z | V6 z => ipv6_to_string z end.

Definition socket_to_string (a : SocketAddr) : chars :=
  match a with
  | SocketAddrV4 ip port => ipv4_to_string ip ++ lit ":" ++ decimal port
  | SocketAddrV6 ip port _ scope =>
      lit "[" ++ ipv6_to_string ip ++ (if scope =? 0 then [] else lit "%" ++ decimal scope) ++ lit "]:" ++ decimal port
  end.

Example ip_to_string_examples :
  ip_to_string (V4 2130706433) = lit "127.0.0.1" ∧ ip_to_string (V6 1) = lit "::1" ∧
  ip_to_string (V6 (2 ^ 127)) = lit "8000::" ∧ ip_to_string (V6 0) = lit "::" ∧
  ip_to_string (V6 (65535 * 2 ^ 32 + 2130706433)) = lit "::ffff:127.0.0.1".
Proof. vm_compute. done. Qed.

(** ** The transaction of a datagram *)
Definition binaryContentType : chars := lit "application/octet-stream".
Definition binaryEncoding : chars := lit "binary".

Definition methodOf (direction : UdpDatagramDirection) : chars :=
  match direction with Up => lit "UDP SEND" | Down => lit "UDP RECEIVE" end.
Definition sideOf (direction : UdpDatagramDirection) : MessageSide :=
  match direction with Up => Request | Down => Response end.

Definition displayHost (ip : IpAddr) : chars :=
  if is_ipv4 ip then ip_to_string ip else lit "[" ++ ip_to_string ip ++ lit "]".

Section persist.
Context `{Layout} `{Environment} (to_lowercase : chars → chars).
(** The capacity the standard library gives a formatted string, and serde a vector. *)
Context (formatted : chars → string) (collected : list Z → vec Z).

Definition udpTransaction (processName : option string) (event : UdpDatagramEvent) : BeginTransaction :=
  let target := ue_targetAddress event in
  {| bt_protocol := Tunnel;
     bt_method := tight (methodOf (ue_direction event));
     bt_location :=
       {| ol_protocol := tight (lit "udp"); ol_host := formatted (ip_to_string (sock_ip target));
          ol_port := sock_port target; ol_path := tight []; ol_query := tight [];
          ol_display := formatted (lit "udp://" ++ displayHost (sock_ip target) ++ lit ":" ++ decimal (sock_port target)) |};
     bt_clientAddress := formatted (socket_to_string (ue_clientAddress event));
     bt_clientProcessName := processName;
     bt_clientProcessId := Some (ue_processId event);
     bt_contentType := tight binaryContentType;
     bt_startAtMilliseconds := ue_capturedAtMilliseconds event |}.

Definition udpBody (event : UdpDatagramEvent) : BodyWrite :=
  {| bw_bytes := ue_payload event; bw_originalBytes := len (ue_payload event);
     bw_contentType := tight binaryContentType; bw_encoding := tight binaryEncoding |}.

Definition udpPacket (event : UdpDatagramEvent) : StreamPacket :=
  {| sp_sequence := 1; sp_capturedAtMilliseconds := ue_capturedAtMilliseconds event; sp_storedOffsetBytes := 0;
     sp_storedBytes := len (ue_payload event); sp_originalBytes := len (ue_payload event); sp_truncated := false;
     sp_action := match ue_modifications event with [] => PacketForward | _ => PacketReplace end;
     sp_modifications :=
       (λ m, {| pm_offsetBytes := um_offsetBytes m; pm_originalBytes := collected (um_originalBytes m);
                pm_modifiedBytes := collected (um_modifiedBytes m) |}) <$> ue_modifications event |}.

Definition udpCompletion (event : UdpDatagramEvent) : TransactionCompletion :=
  {| tc_statusCode := 0; tc_endAtMilliseconds := ue_capturedAtMilliseconds event;
     tc_contentType := tight binaryContentType |}.

(** What the other tasks do after each of the first three calls. *)
Definition persistUdpDatagram (env : nat → RecordingSession → RecordingSession) (processName : option string)
    (event : UdpDatagramEvent) : onSession unit :=
  transactionId ← beginTransaction to_lowercase (udpTransaction processName event);
  match transactionId with
  | None => mret tt
  | Some transactionId =>
      let side := sideOf (ue_direction event) in
      _ ← elsewhere (env 0%nat);
      _ ← storeBody transactionId side (udpBody event);
      _ ← elsewhere (env 1%nat);
      _ ← storeStreamPackets transactionId side (vec_of [udpPacket event]);
      _ ← elsewhere (env 2%nat);
      commit transactionId (udpCompletion event)
  end.

(** The error is written to the log only. *)
Definition recordUdpDatagram (env : nat → RecordingSession → RecordingSession) (processName : option string)
    (event : UdpDatagramEvent) : onSession unit := λ s,
  match persistUdpDatagram env processName event s with
  | (s, Panic) => (s, Panic)
  | (s, _) => (s, Ok tt)
  end.
End persist.

(** ** Names of processes *)
Record CachedProcessIdentity := {
  ci_resolvedAt : Z;
  ci_name : option string
}.

(** One second, in nanoseconds. *)
Definition processIdentityCacheLifetime : Z := 1000000000.

Definition resolveProcessName (resolve : Z → option string) (now : Z) (cache : gmap Z CachedProcessIdentity)
    (processId : Z) : gmap Z CachedProcessIdentity * option string :=
  let look :=
    let name := resolve processId in
    (<[processId := {| ci_resolvedAt := now; ci_name := name |}]> cache, name) in
  match cache !! processId with
  | Some cached =>
      if saturating_sub now (ci_resolvedAt cached) <? processIdentityCacheLifetime then (cache, ci_name cached) else look
  | None => look
  end.
