(* ===== verification/UdpConsumer.v ===== *)
(** * The consumer of the UDP recording queue

    Model of the task that [startUdpRecording] of [Server/Backend/src/udpRecording.rs]
    spawns: it takes the entries the reader hands over, records them once and confirms
    them.  It stands between the disk queue, the clear barrier and the recording session,
    and runs while services of one control process start and stop, other tasks use the
    session and the user clears the recording ([clearRecording] of [controlApi.rs]). *)

From S2P Require Import Prelude NetAddress CaptureTypes Stateful Text CaptureModel UdpSpoolModel UdpSpool UdpSpoolSteps UdpCoordination UdpPersist.

(** What the consumer and the clear need of the recording session. *)
Class DatagramRecording (Session Fault : Type) := {
  recordDatagram : option string → UdpDatagramEvent → stateful Session Fault unit;
  clearRecorded : stateful Session Fault unit
}.

(** Neither panics, and both leave the session sound. *)
Class DatagramRecordingOk {Session Fault} `{R : DatagramRecording Session Fault} (Sound : Session → Prop) : Prop := {
  recordDatagram_runs name event s :
    Sound s → Runs (recordDatagram name event) s (λ _ s', Sound s') (λ _ s', Sound s');
  clearRecorded_runs s : Sound s → Runs clearRecorded s (λ _ s', Sound s') (λ _ s', Sound s')
}.

(** Where the consumer is; [answer] is what came back through the channel of the
    acknowledgement. *)
Inductive ConsumerPc :=
| Receives
| Holds (entry : SpoolEntry)
| Recorded (entry : SpoolEntry)
| Marked (entry : SpoolEntry)
| Awaits (entry : SpoolEntry) (answer : option bool)
| Faulted
| Left.

Definition identityOf (entry : SpoolEntry) : SpoolIdentity :=
  {| si_processGeneration := en_recordingProcessGeneration entry; si_segmentId := en_segmentId entry;
     si_sequence := en_sequence entry |}.

(** What happened to an entry, and to the recording. *)
Inductive Event :=
| Persisted (entry : SpoolEntry)
| Hidden (entry : SpoolEntry)
| Repeated (entry : SpoolEntry)
| Cleared.

Section consumer.
Context `{SpoolEnvironment} (process_generation : nat → chars).
Context {Session Fault : Type} `{DatagramRecording Session Fault}.

Record Recorder := {
  re_system : System;
  re_coordination : UdpRecordingCoordination;
  re_session : Session;
  re_consumer : ConsumerPc;
  re_processNames : gmap Z CachedProcessIdentity
}.

Definition set_system (v : System) (r : Recorder) : Recorder :=
  {| re_system := v; re_coordination := re_coordination r; re_session := re_session r; re_consumer := re_consumer r;
     re_processNames := re_processNames r |}.
Definition set_coordination (v : UdpRecordingCoordination) (r : Recorder) : Recorder :=
  {| re_system := re_system r; re_coordination := v; re_session := re_session r; re_consumer := re_consumer r;
     re_processNames := re_processNames r |}.
Definition set_session (v : Session) (r : Recorder) : Recorder :=
  {| re_system := re_system r; re_coordination := re_coordination r; re_session := v; re_consumer := re_consumer r;
     re_processNames := re_processNames r |}.
Definition set_consumer (v : ConsumerPc) (r : Recorder) : Recorder :=
  {| re_system := re_system r; re_coordination := re_coordination r; re_session := re_session r; re_consumer := v;
     re_processNames := re_processNames r |}.
Definition set_processNames (v : gmap Z CachedProcessIdentity) (r : Recorder) : Recorder :=
  {| re_system := re_system r; re_coordination := re_coordination r; re_session := re_session r;
     re_consumer := re_consumer r; re_processNames := v |}.

Definition readerOf (r : Recorder) : option ReaderPc := pr_reader <$> sy_process (re_system r).

Definition visible (entry : SpoolEntry) (c : UdpRecordingCoordination) : bool :=
  shouldPersist (en_recordingProcessGeneration entry) (en_recordingEpoch entry) c.

(** [entryReceiver.recv()]: the entry, or the end of the reader. *)
Definition receive (r : Recorder) : Recorder :=
  match re_consumer r, readerOf r with
  | Receives, Some (Delivered entry) => set_consumer (Holds entry) r
  | Receives, Some (Ended _) => set_consumer Left r
  | _, _ => r
  end.

(** Under the lock the clear takes as well: the entry becomes a transaction unless it is
    hidden or committed already. *)
Definition persistEntry (now : Z) (resolve : Z → option string) (r : Recorder) : outcome unit (Recorder * list Event) :=
  match re_consumer r with
  | Holds entry =>
      let shouldPersist := visible entry (re_coordination r) in
      let alreadyCommitted := transactionAlreadyCommitted (identityOf entry) (re_coordination r) in
      if shouldPersist && negb alreadyCommitted then
        let '(names, name) := resolveProcessName resolve now (re_processNames r) (ue_processId (en_event entry)) in
        match recordDatagram name (en_event entry) (re_session r) with
        | (s, Ok _) => Ok (set_consumer (Recorded entry) (set_session s (set_processNames names r)), [Persisted entry])
        | (s, Err _) => Ok (set_consumer Faulted (set_session s (set_processNames names r)), [])
        | (_, Panic) => Panic
        end
      else Ok (set_consumer (Recorded entry) r, [if shouldPersist then Repeated entry else Hidden entry])
  | _ => Ok (r, [])
  end.

Definition markEntry (r : Recorder) : Recorder :=
  match re_consumer r with
  | Recorded entry =>
      let c := re_coordination r in
      set_consumer (Marked entry)
        (if visible entry c then set_coordination (markTransactionCommitted (identityOf entry) c) r else r)
  | _ => r
  end.

(** The acknowledgement goes to the reader. *)
Definition sendAcknowledgement (r : Recorder) : outcome unit Recorder :=
  match re_consumer r with
  | Marked entry =>
      s ← transition process_generation ConsumerAcknowledges (re_system r);
      Ok (set_consumer (Awaits entry None) (set_system s r))
  | _ => Ok r
  end.

Definition confirmEntry (r : Recorder) : Recorder :=
  match re_consumer r with
  | Awaits entry (Some true) =>
      set_consumer Receives (set_coordination (markSpoolAcknowledged (identityOf entry) (re_coordination r)) r)
  | Awaits _ (Some false) => set_consumer Left r
  | _ => r
  end.

(** A refused entry ends the consumer, and its channel the reader. *)
Definition quit (r : Recorder) : outcome unit Recorder :=
  match re_consumer r with
  | Faulted =>
      s ← transition process_generation ConsumerQuits (re_system r);
      Ok (set_consumer Left (set_system s r))
  | _ => Ok r
  end.

(** The result of an acknowledgement: the reader goes back to reading, or ends. *)
Definition answered (pc : ReaderPc) (consumer : ConsumerPc) : ConsumerPc :=
  match consumer, pc with
  | Awaits entry None, Reading => Awaits entry (Some true)
  | Awaits entry None, Ended _ => Awaits entry (Some false)
  | _, _ => consumer
  end.

Definition readerMoves (r : Recorder) : outcome unit Recorder :=
  s ← transition process_generation ReaderMoves (re_system r);
  let r := set_system s r in
  Ok (match readerOf r with Some pc => set_consumer (answered pc (re_consumer r)) r | None => r end).

Definition set_disk (d : SpoolDisk) (s : System) : System :=
  {| sy_disk := d; sy_generation := sy_generation s; sy_process := sy_process s |}.

(** [clearRecording]: the barrier first, then the session. *)
Definition clearRecording (r : Recorder) : outcome unit (Recorder * list Event) :=
  match advanceAndPersist (re_coordination r, sy_disk (re_system r)) with
  | ((c, d), Ok _) =>
      let r := set_coordination c (set_system (set_disk d (re_system r)) r) in
      match clearRecorded (re_session r) with
      | (_, Panic) => Panic
      | (s, _) => Ok (set_session s r, [Cleared])
      end
  | ((c, d), Err _) => Ok (set_coordination c (set_system (set_disk d (re_system r)) r), [])
  | (_, Panic) => Panic
  end.

(** [startCoordinatedUdpRecordingGeneration]. *)
Definition startService (r : Recorder) : outcome unit Recorder :=
  match sy_process (re_system r) with
  | Some _ => Ok r
  | None =>
      s ← transition process_generation ServiceStarts (re_system r);
      match sy_process s with
      | None => Ok (set_system s r)
      | Some p =>
          match publishGenerations (ks_processGenerations (pr_state p)) (re_coordination r, sy_disk s) with
          | ((c, d), Ok _) =>
              Ok (set_processNames ∅ (set_consumer Receives (set_coordination c (set_system (set_disk d s) r))))
          | ((c, d), Err _) =>
              s ← transition process_generation ServiceEnds (set_disk d s);
              Ok (set_coordination c (set_system s r))
          | (_, Panic) => Panic
          end
      end
  end.

(** [stopAndDrain] returns when the consumer has joined the reader and the writer. *)
Definition stopService (r : Recorder) : outcome unit Recorder :=
  match re_consumer r, sy_process (re_system r) with
  | Left, Some p =>
      match pr_reader p with
      | Ended _ =>
          if pr_writer p then Ok r
          else s ← transition process_generation ServiceEnds (re_system r); Ok (set_system s r)
      | _ => Ok r
      end
  | _, _ => Ok r
  end.

Inductive RecorderAction :=
| Receive
| Persist (now : Z) (resolve : Z → option string)
| Mark
| Acknowledge
| Confirm
| Quit
| ReaderStep
| ClearRecording
| StartService
| StopService
(** The capture and writer threads, what the operating system grants, and other tasks
    on the session. *)
| Capture (captured : CapturedUdpDatagram)
| StopCapture
| Grants (answers : list SpoolAnswer)
| OtherTask (f : Session → Session).

Definition quietly (m : outcome unit Recorder) : outcome unit (Recorder * list Event) := r ← m; Ok (r, []).
Definition spoolMoves (t : Transition) (r : Recorder) : outcome unit (Recorder * list Event) :=
  s ← transition process_generation t (re_system r); Ok (set_system s r, []).

Definition recorderStep (a : RecorderAction) (r : Recorder) : outcome unit (Recorder * list Event) :=
  match a with
  | Receive => Ok (receive r, [])
  | Persist now resolve => persistEntry now resolve r
  | Mark => Ok (markEntry r, [])
  | Acknowledge => quietly (sendAcknowledgement r)
  | Confirm => Ok (confirmEntry r, [])
  | Quit => quietly (quit r)
  | ReaderStep => quietly (readerMoves r)
  | ClearRecording => clearRecording r
  | StartService => quietly (startService r)
  | StopService => quietly (stopService r)
  | Capture captured => spoolMoves (Append captured) r
  | StopCapture => spoolMoves CloseWriter r
  | Grants answers => spoolMoves (Weather answers) r
  | OtherTask f => Ok (set_session (f (re_session r)) r, [])
  end.

Fixpoint recorderRun (actions : list RecorderAction) (r : Recorder) : outcome unit (Recorder * list Event) :=
  match actions with
  | [] => Ok (r, [])
  | a :: actions =>
      '(r, events) ← recorderStep a r;
      '(r, later) ← recorderRun actions r;
      Ok (r, events ++ later)
  end.
End consumer.
