(* ===== verification/UdpPersistTheorems.v ===== *)
(** * A recorded datagram is recorded whole *)

From S2P Require Import Prelude NetAddress CaptureTypes Stateful Text Location CaptureModel MetadataBudget BodyStore BodyStoreSpec BodyOwnership RecordingState RecordingBudget Recording RecordingInvariant RecordingWorld RecordingCleanup RecordingReplace RecordingMethods RecordingStorage RecordingSpools RecordingSteps UdpPersist UdpConsumer.

Section theorems.
Context `{Layout} `{Environment} {Hok : EnvironmentOk} (to_lowercase : chars → chars).
Context (formatted : chars → string) (collected : list Z → vec Z).
Implicit Types (s : RecordingSession) (event : UdpDatagramEvent).

Abbreviation persist := (persistUdpDatagram to_lowercase formatted collected).

(** Packets are accepted only within the body. *)
Lemma packets_within id side packets s s' :
  storeStreamPackets id side packets s = (s', Ok tt) →
  ∃ r, st_transactions (ss_state s) !! id = Some r ∧
    Forall (λ p, packetInvalid (from_option bodyStoredBytes 0 (record_body r side)) p = false) (items packets).
Proof.
  unfold storeStreamPackets, ensureOpen, existingRecord, with_state. cbn [mbind stateful_bind gets].
  unfold mbind, stateful_bind, gets, Datatypes.id. destruct (st_closed (ss_state s)); cbn [fail mret]; [done|].
  unfold mret, stateful_ret. destruct (st_transactions (ss_state s) !! id) as [r|]; [|done]. cbn [fail].
  case_if Hinvalid; [done|]. intros _. exists r. split; [done|]. apply Forall_forall. intros p Hp.
  destruct (packetInvalid _ p) eqn:Hi; [|done]. rewrite <-Hinvalid. symmetry. apply existsb_exists. exists p.
  split; [by apply list_elem_of_In|done].
Qed.

Lemma empty_packet_invalid bodyLength event : ue_payload event = [] → packetInvalid bodyLength (udpPacket collected event) = true.
Proof. unfold packetInvalid, udpPacket. cbn. by intros ->. Qed.

(** What a packet of the whole payload says about the body. *)
Lemma whole_packet bodyLength event :
  packetInvalid bodyLength (udpPacket collected event) = false → ue_payload event ≠ [] ∧ len (ue_payload event) ≤ bodyLength.
Proof.
  intros Hv. split; [intros He; by rewrite empty_packet_invalid in Hv|].
  unfold packetInvalid, udpPacket in Hv. cbn in Hv. apply orb_false_iff in Hv as [_ Hv].
  unfold checked_add in Hv. destruct (Z.leb _ usize_max); cbn in Hv; [|done]. apply Z.ltb_ge in Hv. lia.
Qed.

(** Another task neither stores into the transaction nor breaks the session. *)
Definition Others (c : Scope) (hs : list Held) (env : nat → RecordingSession → RecordingSession) : Prop :=
  ∀ i s, World hs s → Keeps hs c s (env i s).

(** The transaction a datagram became. *)
Definition RecordedAs (event : UdpDatagramEvent) (s s' : RecordingSession) : Prop :=
  ∃ id r b, ¬ alive (ss_state s) id ∧ st_transactions (ss_state s') !! id = Some r ∧ status r = Complete ∧
    record_body r (sideOf (ue_direction event)) = Some b ∧
    contentOf (ss_bodyStore s') b = Some (ue_payload event) ∧ bm_truncated (bf_meta b) = false.

(** A body that is kept, along what others do. *)
Lemma body_kept c hs s s' id side r r' b :
  Keeps hs c s s' → ¬ sc_store c id side → st_transactions (ss_state s) !! id = Some r →
  st_transactions (ss_state s') !! id = Some r' → record_body r side = Some b →
  record_body r' side = Some b ∧ contentOf (ss_bodyStore s') b = contentOf (ss_bodyStore s) b.
Proof.
  intros [_ He] Hno Hr Hr' Hb. apply (co_bodies _ _ _ _ _ _ (ev_continues _ _ _ He _ _ _ Hr Hr')); [by right|done].
Qed.

(** From the stored body on: the packets are accepted only if it is whole. *)
Lemma finish_recorded c hs env id s0 s event meta :
  let side := sideOf (ue_direction event) in
  Others c hs env → World hs s → ¬ sc_store c id side → ¬ alive (ss_state s0) id →
  bm_truncated meta = (bm_storedBytes meta <? len (ue_payload event)) →
  StoredAs id side (ue_payload event) meta s →
  Runs (_ ← elsewhere (env 1%nat); _ ← storeStreamPackets id side (vec_of [udpPacket collected event]);
        _ ← elsewhere (env 2%nat); commit id (udpCompletion event)) s
    (λ _ s', World hs s' ∧ RecordedAs event s0 s') (λ _ s', World hs s').
Proof.
  intros side Hc Hw Hno Hnew Htr (r & b & Hr & Hp & Hb & Hm & Hct & Hrange & _).
  pose proof (Hc 1%nat s Hw) as Hk1. apply runs_bind, runs_modify. set (s1 := env 1%nat s) in *.
  eapply runs_seq; [apply (storeStreamPackets_runs c hs s1), Hk1|by intros _ s2 [? _]|].
  intros [] s2 Hpackets Hk2. apply packets_within in Hpackets as (r1 & Hr1 & Hv). cbn [vec_of items] in Hv.
  apply Forall_cons in Hv as [Hv _].
  destruct (body_kept _ _ _ _ _ _ _ _ _ Hk1 Hno Hr Hr1 Hb) as [Hb1 _]. rewrite Hb1 in Hv. cbn [from_option] in Hv.
  apply whole_packet in Hv as [_ Hwhole]. unfold bodyStoredBytes in Hwhole. rewrite Hm in Hwhole. cbn in Hwhole.
  pose proof (store_keeps_trans _ _ _ _ _ Hw Hk1 Hk2) as Hk02.
  apply runs_bind, runs_modify. pose proof (Hc 2%nat s2 (kp_world _ _ _ _ Hk2)) as Hk3. set (s3 := env 2%nat s2) in *.
  pose proof (store_keeps_trans _ _ _ _ _ Hw Hk02 Hk3) as Hk03.
  eapply runs_mono, (finalize_runs hs s3 id _ Complete); [| |apply Hk3|by apply completed_finishes]; cbn beta; [|by intros _ s4 [? _]].
  intros [] s4 [Hk4 (r3 & r4 & Hr3 & _ & Hr4 & Hst)]. split; [apply Hk4|].
  destruct (body_kept _ _ _ _ _ _ _ _ _ Hk03 Hno Hr Hr3 Hb) as [Hb3 Hc3].
  destruct (body_kept _ _ _ _ _ _ _ _ _ Hk4 (λ H, H) Hr3 Hr4 Hb3) as [Hb4 Hc4].
  exists id, r4, b. split_and!; [done|done|done|exact Hb4| |].
  - rewrite Hc4, Hc3, Hct. assert (bm_storedBytes meta = len (ue_payload event)) as -> by lia. by rewrite slice_full.
  - rewrite Hm. cbn. rewrite Htr. apply Z.ltb_ge. exact Hwhole.
Qed.

(** A packet of no bytes is refused, so that an empty datagram is never recorded: while the
    session records, persisting it fails. *)
Theorem empty_datagram_fails env processName event s s' :
  ue_payload event = [] → persist env processName event s = (s', Ok tt) →
  beginTransaction to_lowercase (udpTransaction formatted processName event) s = (s', Ok None).
Proof.
  intros Hempty. unfold persistUdpDatagram. unfold mbind, stateful_bind, elsewhere, modify. cbn beta zeta.
  destruct (beginTransaction _ _ s) as [s1 [[id|]|e|]]; [|by intros [= <-]|done..]. cbv zeta iota beta.
  set (side := sideOf _). set (s2 := env 0%nat s1).
  destruct (storeBody id side (udpBody event) s2) as [s3 [meta|e|]]; [|done..].
  destruct (storeStreamPackets id side (vec_of [udpPacket collected event]) (env 1%nat s3)) as [s4 [[]|e|]] eqn:Hp; [|done..].
  apply packets_within in Hp as (r & _ & Hv). cbn [vec_of items] in Hv. apply Forall_cons in Hv as [Hv _].
  by rewrite empty_packet_invalid in Hv.
Qed.

(** C19: When persisting a datagram succeeds, either the session did not take it up, or a
    transaction that did not exist before is complete and its body is exactly the payload, not
    truncated, whatever other tasks did in between without storing into that transaction; in
    every case the session stays sound and nothing panics. *)
Theorem datagram_recorded_whole c hs env processName event s :
  World hs s → Others c hs env →
  (∀ id s1, beginTransaction to_lowercase (udpTransaction formatted processName event) s = (s1, Ok (Some id)) →
     ¬ sc_store c id (sideOf (ue_direction event))) →
  Runs (persist env processName event) s
    (λ _ s', World hs s' ∧
       (beginTransaction to_lowercase (udpTransaction formatted processName event) s = (s', Ok None) ∨ RecordedAs event s s'))
    (λ _ s', World hs s').
Proof.
  intros Hw Hc Hno. unfold persistUdpDatagram.
  eapply runs_seq; [apply (beginTransaction_runs to_lowercase hs s), Hw|by intros _ s1 [? _]|].
  intros [id|] s1 Heq (Hk1 & Hres); [|apply runs_ret; split; [apply Hk1|by left]].
  destruct Hres as (r & Hr & _ & Hnew & _). specialize (Hno id s1 Heq).
  apply runs_bind, runs_modify. pose proof (Hc 0%nat s1 (kp_world _ _ _ _ Hk1)) as Hk2.
  eapply runs_seq; [apply (storeBody_runs hs (env 0%nat s1)), Hk2|by intros _ s3 [? _]|].
  intros meta s3 _ (Hk3 & Htr & Hst). eapply runs_mono, (finish_recorded c hs env id s s3 event meta); try done; cbn beta.
  - intros _ s4 [Hw4 Hrec]. split; [done|by right].
  - apply Hk3.
Qed.

(** ** The recording session as the consumer sees it *)
Lemma persist_sound c hs env processName event s :
  World hs s → Others c hs env → Runs (persist env processName event) s (λ _ s', World hs s') (λ _ s', World hs s').
Proof.
  intros Hw Hc. unfold persistUdpDatagram.
  eapply runs_seq; [apply (beginTransaction_runs to_lowercase hs s), Hw|by intros _ s1 [? _]|].
  intros [id|] s1 _ [Hk1 _]; [|apply runs_ret, Hk1].
  apply runs_bind, runs_modify. pose proof (Hc 0%nat s1 (kp_world _ _ _ _ Hk1)) as Hk2.
  eapply runs_seq; [apply (storeBody_runs hs (env 0%nat s1)), Hk2|by intros _ s3 [? _]|].
  intros meta s3 _ (Hk3 & _). apply runs_bind, runs_modify. pose proof (Hc 1%nat s3 (kp_world _ _ _ _ Hk3)) as Hk4.
  eapply runs_seq; [apply (storeStreamPackets_runs c hs (env 1%nat s3)), Hk4|by intros _ s5 [? _]|].
  intros [] s5 _ Hk5. apply runs_bind, runs_modify. pose proof (Hc 2%nat s5 (kp_world _ _ _ _ Hk5)) as Hk6.
  eapply runs_mono, (finalize_runs hs (env 2%nat s5) id _ Complete); [| |apply Hk6|by apply completed_finishes]; cbn beta.
  - by intros _ s7 [[? _] _].
  - by intros _ s7 [? _].
Qed.

Context (drain_order : gmap chars TransactionRecord → list TransactionRecord)
  (drain_perm : ∀ m, drain_order m ≡ₚ (map_to_list m).*2) (env : nat → RecordingSession → RecordingSession).

#[local] Instance sessionRecording : DatagramRecording RecordingSession CaptureError :=
  {| recordDatagram := persist env; clearRecorded := clearSession drain_order |}.

Lemma sessionRecording_ok c hs : Others c hs env → DatagramRecordingOk (World hs).
Proof using Hok drain_perm.
  intros Hc. split.
  - intros name event s Hw. by eapply persist_sound.
  - intros s Hw. eapply runs_mono, (clearSession_runs drain_order hs s); cbn beta; [by intros _ s' [[? _] _]|by intros _ s' [? _]|done..].
Qed.
End theorems.
