(* ===== verification/UdpConsumerTheorems.v ===== *)
(** * Every datagram is settled once

    The consumer settles the frames of the log in their order, every consumed frame is
    settled, and no frame becomes a transaction twice without a clear in between, whatever
    fails and however often the service restarts in one control process. *)

From S2P Require Import Prelude NetAddress CaptureTypes Stateful Text CaptureModel UdpSpoolModel UdpSpool UdpSpoolFrames UdpSpoolSteps UdpSpoolInvariant UdpSpoolReader UdpSpoolTheorems UdpCoordination UdpPersist UdpConsumer.

(** ** The data directory is not the queue's *)
Definition SameQueue (files files' : gmap path (list Z)) : Prop :=
  ∀ name, files' !! (CaptureDirectory, name) = files !! (CaptureDirectory, name).

Lemma same_segment files files' id : SameQueue files files' → files' !! segmentPath id = files !! segmentPath id.
Proof. intros Hs. exact (Hs _). Qed.
Lemma same_cursor files files' id : SameQueue files files' → files' !! cursorPath id = files !! cursorPath id.
Proof. intros Hs. exact (Hs _). Qed.

#[local] Opaque segmentPath cursorPath temporaryPath named.

Section queue.
Context `{SpoolEnvironment} {Hok : SpoolEnvironmentOk} (process_generation : nat → chars).
Implicit Types (files : gmap path (list Z)).

Lemma dirOk_same files files' segs torn : SameQueue files files' → DirOk files segs torn → DirOk files' segs torn.
Proof.
  intros Hs [D1 D2 D3 D4 D5 D6 D7 D8 D9]. split; try done.
  - intros name. rewrite Hs. apply D1.
  - intros id. rewrite (same_segment _ _ _ Hs). apply D2.
  - intros front id fs Heq. rewrite (same_segment _ _ _ Hs). by apply (D3 front).
  - intros front id fs rest Heq. rewrite (same_segment _ _ _ Hs). by apply (D4 front).
Qed.

Lemma cursorAt_same files files' n id fs k :
  SameQueue files files' → cursorAt process_generation n files id fs k → cursorAt process_generation n files' id fs k.
Proof.
  intros Hs. unfold cursorAt. by rewrite (same_cursor _ _ _ Hs).
Qed.

Lemma cursorsAt_zero files files' n segs :
  SameQueue files files' → Forall (λ s : Segment, cursorAt process_generation n files s.1 s.2 0) segs →
  Forall (λ s : Segment, cursorAt process_generation n files' s.1 s.2 0) segs.
Proof. intros Hs Hc. eapply Forall_impl; [exact Hc|]. intros s Hc'. exact (cursorAt_same files files' n s.1 s.2 0 Hs Hc'). Qed.

Lemma cursorsAt_same files files' n segs k :
  SameQueue files files' → cursorsAt process_generation n files segs k → cursorsAt process_generation n files' segs k.
Proof.
  intros Hs. destruct segs as [|[id fs] rest]; [done|]. intros [Hc Hr].
  split; [exact (cursorAt_same _ _ _ _ _ _ Hs Hc)|exact (cursorsAt_zero _ _ _ _ Hs Hr)].
Qed.

Lemma represents_same s l d :
  SameQueue (kd_files (sy_disk s)) (kd_files d) → Represents process_generation s l → Represents process_generation (set_disk d s) l.
Proof.
  intros Hs (gone & segs & torn & k & Hl & Hr). exists gone, segs, torn, k. split; [done|]. cbn [sy_process set_disk].
  destruct (sy_process s) as [p|].
  - destruct Hr as [j [R1 R2 R3 R4 R5 R6 R7 R8 R9 R10 R11 R12 R13 R14]]. exists j.
    split; [exact (dirOk_same _ _ _ _ Hs R1)|exact R2|exact R3|exact R4|exact R5| |exact R7|exact R8|exact R9| |exact R11|exact R12|exact R13|exact R14].
    + cbn [sy_disk set_disk sy_generation]. destruct (pr_reader p) as [| | |id [r|e|]| | | | |]; first [exact (cursorsAt_same _ _ _ _ _ Hs R6)|exact (cursorsAt_zero _ _ _ _ Hs R6)].
    + intros id Hid Hx. apply R10; [done|]. cbn [sy_disk set_disk] in Hx. by rewrite (same_cursor _ _ _ Hs) in Hx.
  - destruct Hr as [O1 O2 O3 O4]. split; [exact (dirOk_same _ _ _ _ Hs O1)|exact (cursorsAt_same _ _ _ _ _ Hs O2)|exact O3|exact O4].
Qed.
End queue.

(** ** What the reader does *)
Definition endsFaulty (pc : ReaderPc) : Prop := ∃ e, pc = Ended (Some e).

(** Where a step of the reader leads, and whether the log is consumed further. *)
Definition ReaderGoes (pc pc' : ReaderPc) (k k' : nat) : Prop :=
  match pc with
  | Reading => k' = k ∧ match pc' with Reading | RetireLock | Delivered _ | Ended _ => True | _ => False end
  | RetireLock => k' = k ∧ match pc' with Reading | RetireFiles _ | Ended _ => True | _ => False end
  | RetireFiles _ => k' = k ∧ match pc' with RetireDone _ _ => True | _ => False end
  | RetireDone _ _ => k' = k ∧ match pc' with Reading | Ended _ => True | _ => False end
  | Delivered e => k' = k ∧ pc' = Delivered e
  | AckCheck a => k' = k ∧ match pc' with AckPersist _ _ | Ended _ => True | _ => False end
  | AckPersist a _ => match pc' with AckCommit _ => k' = S k | Ended _ => k' = k ∨ k' = S k | _ => False end
  | AckCommit _ => k' = k ∧ match pc' with Reading | RetireFiles _ | Ended _ => True | _ => False end
  | Ended fault => k' = k ∧ pc' = Ended fault
  end.

Definition acknowledging (pc : ReaderPc) : bool := match pc with AckCheck _ | AckPersist _ _ | AckCommit _ => true | _ => false end.

Lemma goes_elsewhere pc pc' k k' :
  ReaderGoes pc pc' k k' → acknowledging pc = false → k' = k ∧ acknowledging pc' = false.
Proof. destruct pc, pc'; naive_solver. Qed.

Section reader.
Context `{SpoolEnvironment} {Hok : SpoolEnvironmentOk} (process_generation : nat → chars).
Abbreviation Represents := (Represents process_generation).
Abbreviation transition := (transition process_generation).

Lemma then_goes_result {A} (m : onSpool A) next s s' pc' :
  then_goes m next s = Ok (s', pc') → (∃ a, pc' = next a) ∨ endsFaulty pc'.
Proof. unfold then_goes, endsFaulty. destruct (m s) as [? [a|e|]]; [| |done]; intros [= _ <-]; eauto. Qed.

Lemma successor g pc s s' pc' k :
  readerStep g pc s = Ok (s', pc') → match pc with AckPersist _ _ => True | _ => ReaderGoes pc pc' k k end.
Proof.
  intros Hs. destruct pc as [| |r|id result|e|a|a p|a|fault]; cbn [readerStep ReaderGoes] in *; try done;
    try (by injection Hs as _ <-);
    try (destruct (retireSegmentFiles r (sp_disk s)) as [d result]; by injection Hs as _ <-);
    apply then_goes_result in Hs as [[x ->]|[err ->]]; try done; by destruct x.
Qed.

Lemma reader_advances s p l :
  Represents s l → sy_process s = Some p →
  ∃ s' p' l', transition ReaderMoves s = Ok s' ∧ sy_process s' = Some p' ∧ pr_writer p' = pr_writer p ∧
    Represents s' l' ∧ lg_frames l' = lg_frames l ∧
    ReaderGoes (pr_reader p) (pr_reader p') (lg_consumed l) (lg_consumed l').
Proof using Hok.
  intros (gone & segs & torn & k & -> & Hs) Hp. rewrite Hp in Hs. destruct Hs as [j HR].
  change (Runs_at process_generation (sy_generation s) (pr_writer p) segs torn j k (spoolOf s p) (pr_reader p)) in HR.
  cbn [UdpSpoolSteps.transition]. rewrite Hp.
  assert (Hfinish : ∀ sp pc gone' segs' j' k', readerStep (process_generation (sy_generation s)) (pr_reader p) (spoolOf s p) = Ok (sp, pc) →
    Runs_at process_generation (sy_generation s) (pr_writer p) segs' torn j' k' sp pc →
    lg_frames (logOf gone' segs' k') = lg_frames (logOf gone segs k) →
    ReaderGoes (pr_reader p) pc (lg_consumed (logOf gone segs k)) (lg_consumed (logOf gone' segs' k')) →
    ∃ s' p' l', (readerStep (process_generation (sy_generation s)) (pr_reader p) (spoolOf s p) ≫=
        (λ '(sp, pc), Ok (running s sp pc (pr_writer p)))) = Ok s' ∧ sy_process s' = Some p' ∧ pr_writer p' = pr_writer p ∧
      Represents s' l' ∧ lg_frames l' = lg_frames (logOf gone segs k) ∧
      ReaderGoes (pr_reader p) (pr_reader p') (lg_consumed (logOf gone segs k)) (lg_consumed l')).
  { intros sp pc gone' segs' j' k' -> HR' Hf Hg. cbn [mbind outcome_bind].
    eexists _, _, (logOf gone' segs' k'). split; [done|]. split; [done|]. split; [done|]. split; [|split; [exact Hf|exact Hg]].
    exists gone', segs', torn, k'. split; [done|]. exists j'. exact HR'. }
  destruct (pr_reader p) as [| |r|id result|e|a|a path|a|fault] eqn:Hpc.
  7: { pose proof (step_ackPersist _ _ _ _ _ _ _ _ _ _ HR) as Hstep.
    destruct (readerStep _ _ (spoolOf s p)) as [[sp pc]|e|] eqn:Hr; cbn [Goes] in Hstep; [|done..].
    assert (Hnext : (∃ a', pc = AckCommit a') ∨ endsFaulty pc).
    { cbn [readerStep] in Hr. apply then_goes_result in Hr as [[? ->]|?]; eauto. }
    destruct Hstep as [HR'|[Hlt HR']].
    - destruct Hnext as [[a' ->]|[err ->]].
      + exfalso. pose proof (ru_pc _ _ _ _ _ _ _ _ _ _ HR) as [Hk _]. pose proof (ru_pc _ _ _ _ _ _ _ _ _ _ HR') as [Hk' _]. lia.
      + refine (Hfinish sp _ gone segs j k eq_refl HR' eq_refl _). by left.
    - refine (Hfinish sp _ gone segs j (S k) eq_refl HR' eq_refl _). unfold logOf. cbn [lg_consumed].
      destruct Hnext as [[a' ->]|[err ->]]; cbn [ReaderGoes]; [lia|right; lia]. }
  all: assert (Hsame : ∀ j', Goes (Runs_at process_generation (sy_generation s) (pr_writer p) segs torn j' k)
      (readerStep (process_generation (sy_generation s)) (pr_reader p) (spoolOf s p)) →
      ∃ s' p' l', (readerStep (process_generation (sy_generation s)) (pr_reader p) (spoolOf s p) ≫=
        (λ '(sp, pc), Ok (running s sp pc (pr_writer p)))) = Ok s' ∧ sy_process s' = Some p' ∧ pr_writer p' = pr_writer p ∧
      Represents s' l' ∧ lg_frames l' = lg_frames (logOf gone segs k) ∧
      ReaderGoes (pr_reader p) (pr_reader p') (lg_consumed (logOf gone segs k)) (lg_consumed l'));
    [rewrite Hpc; intros j' Hstep;
     destruct (readerStep _ _ (spoolOf s p)) as [[sp pc]|e'|] eqn:Hr; cbn [Goes] in Hstep; [|done..];
     refine (Hfinish sp pc gone segs j' k eq_refl Hstep eq_refl _); exact (successor _ _ _ _ _ (lg_consumed (logOf gone segs k)) Hr)|].
  all: rewrite Hpc in Hsame.
  - eapply (Hsame j), step_reading, HR.
  - eapply (Hsame j), step_retireLock, HR.
  - eapply (Hsame j), step_retireFiles, HR.
  - clear Hsame. pose proof (step_retireDone _ _ _ _ _ _ _ _ _ _ HR) as Hstep.
    destruct (readerStep _ _ (spoolOf s p)) as [[sp pc]|e|] eqn:Hr; cbn [Goes] in Hstep; [|done..].
    pose proof (successor _ _ _ _ _ (lg_consumed (logOf gone segs k)) Hr) as Hnext.
    destruct Hstep as [HR'|(fs & rest & -> & -> & HR')]; [exact (Hfinish sp pc gone segs j k eq_refl HR' eq_refl Hnext)|].
    refine (Hfinish sp pc (gone ++ entriesOf (id, fs)) rest 0%nat 0%nat eq_refl HR' _ _);
      rewrite (logOf_pop _ id) in *; [done|exact Hnext].
  - apply (Hsame j). exact HR.
  - eapply (Hsame j), step_ackCheck, HR.
  - eapply (Hsame k), step_ackCommit, HR.
  - apply (Hsame j). exact HR.
Qed.
(** ** What the other threads do *)
Definition readerOfSystem (s : System) : option ReaderPc := pr_reader <$> sy_process s.

Definition keepsPosition (t : Transition) : Prop := match t with ReaderMoves | ProcessEnds => False | _ => True end.

Lemma log_position t l l' :
  keepsPosition t → rtc (LogStep t) l l' →
  lg_consumed l' = lg_consumed l ∧ ∃ extra, lg_frames l' = lg_frames l ++ extra.
Proof.
  intros Ht. induction 1 as [l|l1 l2 l3 Hs _ [Hc [extra Hf]]]; [split; [done|exists []; by rewrite app_nil_r]|].
  rewrite Hc, Hf. destruct Hs as [t l|captured id sequence l|l Hl|t f l Hcase|l k Hk]; try done; cbn [lg_frames lg_consumed] in *.
  - split; [done|by exists extra].
  - split; [done|]. exists ([(id, capturedFrame sequence captured)] ++ extra). by rewrite app_assoc.
  - split; [done|]. exists ([f] ++ extra). by rewrite app_assoc.
Qed.

(** Where a transition of another thread leaves the reader. *)
Definition readerAfter (t : Transition) (pc : option ReaderPc) : option ReaderPc :=
  match t, pc with
  | ConsumerAcknowledges, Some (Delivered e) => Some (AckCheck (acknowledgement e))
  | ConsumerQuits, Some (Delivered e) => Some (Ended (Some OtherError))
  | ServiceEnds, _ => None
  | _, _ => pc
  end.

Definition other (t : Transition) : Prop :=
  match t with Append _ | CloseWriter | ConsumerAcknowledges | ConsumerQuits | ServiceEnds | Weather _ => True | _ => False end.

Lemma other_reader t s s' : other t → transition t s = Ok s' → readerOfSystem s' = readerAfter t (readerOfSystem s).
Proof.
  unfold readerOfSystem. intros Ht Hs. destruct t; try done; cbn [UdpSpoolSteps.transition] in Hs;
    destruct (sy_process s) as [p|] eqn:Hp; try (injection Hs as <-; cbn; by rewrite ?Hp).
  - destruct (pr_writer p); [|injection Hs as <-; by rewrite Hp].
    destruct (appendCapturedEvent captured (spoolOf s p)) as [sp [[]|e|]]; [| |done]; by injection Hs as <-.
  - destruct (pr_reader p) eqn:Hr; injection Hs as <-; cbn; by rewrite ?Hp, ?Hr; cbn; rewrite ?Hr.
  - destruct (pr_reader p) eqn:Hr; injection Hs as <-; cbn; by rewrite ?Hp, ?Hr; cbn; rewrite ?Hr.
Qed.

Lemma other_moves t s l :
  (∀ m n, process_generation m = process_generation n → m = n) → other t → Printable t → Represents s l →
  ∃ s' l' extra, transition t s = Ok s' ∧ Represents s' l' ∧ lg_consumed l' = lg_consumed l ∧
    lg_frames l' = lg_frames l ++ extra ∧ readerOfSystem s' = readerAfter t (readerOfSystem s).
Proof using Hok.
  intros Hinj Ht Hp HR. destruct (transition_refined process_generation t s l Hinj Hp HR) as (s' & l' & Hs & Hl & HR').
  destruct (log_position t l l') as [Hc [extra Hf]]; [by destruct t|done|].
  exists s', l', extra. split_and!; try done. by eapply other_reader.
Qed.

Lemma start_moves s l :
  (∀ m n, process_generation m = process_generation n → m = n) → sy_process s = None → Represents s l →
  ∃ s' l' extra, transition ServiceStarts s = Ok s' ∧ Represents s' l' ∧ lg_consumed l' = lg_consumed l ∧
    lg_frames l' = lg_frames l ++ extra ∧ (sy_process s' = None ∨ readerOfSystem s' = Some Reading).
Proof using Hok.
  intros Hinj Hp HR. destruct (transition_refined process_generation ServiceStarts s l Hinj I HR) as (s' & l' & Hs & Hl & HR').
  destruct (log_position ServiceStarts l l' I Hl) as [Hc [extra Hf]].
  exists s', l', extra. split_and!; try done. cbn [UdpSpoolSteps.transition] in Hs. rewrite Hp in Hs.
  destruct (createSpool _ (sy_disk s)) as [d [st|e|]]; [| |done]; injection Hs as <-; [by right|by left].
Qed.
End reader.

(** ** What the barrier writes *)
Section barrier.
Context `{SpoolEnvironment}.
Implicit Types (c : UdpRecordingCoordination) (d : SpoolDisk).

Lemma persistEpochs_queue cleared sealed d :
  Runs (persistRecordingEpochs cleared sealed) d
    (λ _ d', SameQueue (kd_files d) (kd_files d')) (λ _ d', SameQueue (kd_files d) (kd_files d')).
Proof.
  assert (Hp : ∀ name, epochPath ≠ (CaptureDirectory, name)) by done.
  assert (Ht : ∀ name, epochTemporaryPath ≠ (CaptureDirectory, name)) by done.
  unfold persistRecordingEpochs. eapply runs_mono, writeReplacing_runs, epoch_paths_ne; cbn beta.
  - intros _ d' -> name. by rewrite lookup_delete_ne, lookup_insert_ne.
  - intros _ d' (t & [-> | ->]) name; [by apply lookup_partial_alter_ne|by rewrite lookup_delete_ne, lookup_insert_ne].
Qed.

Lemma advance_queue c d :
  Runs advanceAndPersist (c, d) (λ _ s, SameQueue (kd_files d) (kd_files s.2)) (λ _ s, SameQueue (kd_files d) (kd_files s.2)).
Proof.
  unfold advanceAndPersist. apply runs_bind, runs_gets, runs_bind, runs_lift. cbn [fst].
  destruct (checked_add (uc_epoch c) 1) as [next|]; cbn [ok_or Satisfies]; [|done].
  apply runs_bind, update_coordination_runs, runs_bind, catch_runs, on_epochs_runs.
  eapply runs_mono, persistEpochs_queue; cbn beta.
  - intros _ d' Hd. apply runs_bind, update_coordination_runs, runs_ret. exact Hd.
  - intros e d' Hd. apply runs_bind, update_coordination_runs, runs_fail. exact Hd.
Qed.

Lemma publish_queue generations c d :
  let P (s : UdpRecordingCoordination * SpoolDisk) :=
    SameQueue (kd_files d) (kd_files s.2) ∧ uc_committedButUnacknowledged s.1 = uc_committedButUnacknowledged c in
  Runs (publishGenerations generations) (c, d) (λ _ s, P s) (λ _ s, P s).
Proof.
  intros P. unfold publishGenerations, pruneClearedEpochs.
  apply runs_bind, update_coordination_runs, runs_bind, runs_gets. cbn [fst].
  apply runs_bind, update_coordination_runs, runs_bind, update_coordination_runs.
  case_if Hchanged; [|by apply runs_ret]. apply on_epochs_runs.
  eapply runs_mono, persistEpochs_queue; cbn beta; intros ? d' Hd; by split.
Qed.
End barrier.

(** ** Accounting *)
Definition about (event : Event) : option SpoolEntry :=
  match event with Persisted e | Hidden e | Repeated e => Some e | Cleared => None end.

(** The entry of a frame of the log. *)
Definition EntryOf (frames : list Logged) (i : nat) (e : SpoolEntry) : Prop :=
  ∃ f offset endOffset, frames !! i = Some (en_segmentId e, f) ∧ e = entryOf (en_segmentId e) offset (f.1, f.2, endOffset).

Abbreviation Places := (list (nat * Event)).

(** The frame was settled there. *)
Definition Settled (places : Places) (i : nat) (e : SpoolEntry) : Prop := ∃ event, (i, event) ∈ places ∧ about event = Some e.

(** It became a transaction, and the recording was not cleared since. *)
Definition StillRecorded (places : Places) (i : nat) (e : SpoolEntry) : Prop :=
  ∃ front back, places = front ++ (i, Persisted e) :: back ∧ Forall (λ p, p.2 ≠ Cleared) back.

(** No frame becomes a transaction again unless the recording was cleared in between. *)
Definition Once (places : Places) : Prop :=
  ∀ front i e mid e' back, places = front ++ (i, Persisted e) :: mid ++ (i, Persisted e') :: back → Exists (λ p, p.2 = Cleared) mid.

(** What is skipped as a repetition was settled before under the same identity. *)
Definition RepeatsKnown (places : Places) : Prop :=
  ∀ front i e back, places = front ++ (i, Repeated e) :: back →
    ∃ j e', Settled front j e' ∧ identityOf e' = identityOf e.

Lemma mid_snoc {A} (l front back : list A) x y :
  l ++ [x] = front ++ y :: back → (back = [] ∧ l = front ∧ x = y) ∨ ∃ back', back = back' ++ [x] ∧ l = front ++ y :: back'.
Proof.
  destruct back as [|z back _] using rev_ind; intros Heq.
  - apply app_inj_tail in Heq as [-> ->]. by left.
  - right. exists back. rewrite app_comm_cons, app_assoc in Heq. by apply app_inj_tail in Heq as [-> ->].
Qed.

Lemma still_snoc places x i e :
  StillRecorded (places ++ [x]) i e → x = (i, Persisted e) ∨ x.2 ≠ Cleared ∧ StillRecorded places i e.
Proof.
  intros (front & back & Heq & Hb). apply mid_snoc in Heq as [(-> & _ & ->)|(back' & -> & ->)]; [by left|].
  apply Forall_app in Hb as [Hb Hx]. apply Forall_cons in Hx as [Hx _]. right. split; [done|]. by exists front, back'.
Qed.

Lemma still_in places i e : StillRecorded places i e → (i, Persisted e) ∈ places.
Proof. intros (front & back & -> & _). apply elem_of_app. right. apply list_elem_of_here. Qed.

#[local] Instance cleared_dec (event : Event) : Decision (event = Cleared).
Proof. destruct event; first [by left|by right]. Defined.

Lemma once_snoc places x :
  Once places → (∀ i e e', x = (i, Persisted e') → ¬ StillRecorded places i e) → Once (places ++ [x]).
Proof.
  intros Ho Hx front i e mid e' back Heq. rewrite app_comm_cons, app_assoc in Heq.
  apply mid_snoc in Heq as [(-> & -> & ->)|(back' & -> & ->)].
  - destruct (decide (Forall (λ p : nat * Event, ¬ p.2 = Cleared) mid)) as [Hn|Hn].
    + exfalso. apply (Hx i e e' eq_refl). by exists front, mid.
    + apply not_Forall_Exists in Hn; [|intros p; apply _]. eapply Exists_impl; [exact Hn|]. intros p Hp. by apply dec_stable.
  - apply (Ho front i e mid e' back'). by rewrite <-app_assoc.
Qed.

Lemma settled_snoc places x i e : Settled places i e → Settled (places ++ [x]) i e.
Proof. intros (ev & Hin & Ha). exists ev. split; [|done]. apply elem_of_app. by left. Qed.

Lemma repeats_snoc places x :
  RepeatsKnown places →
  (∀ i e, x = (i, Repeated e) → ∃ j e', Settled places j e' ∧ identityOf e' = identityOf e) → RepeatsKnown (places ++ [x]).
Proof.
  intros Hr Hx front i e back Heq. apply mid_snoc in Heq as [(-> & -> & ->)|(back' & -> & ->)]; [by eapply Hx|].
  by eapply Hr.
Qed.

Lemma entryOf_identity frames i e e' : EntryOf frames i e → EntryOf frames i e' → identityOf e = identityOf e'.
Proof.
  intros (f & o & n & Hf & He) (f' & o' & n' & Hf' & He'). rewrite Hf in Hf'. injection Hf' as Hid ->. rewrite He, He'. unfold identityOf. cbn.
  by rewrite Hid.
Qed.

Lemma entryOf_grows frames extra i e : EntryOf frames i e → EntryOf (frames ++ extra) i e.
Proof. intros (f & o & n & Hf & He). exists f, o, n. split; [by apply lookup_app_l_Some|done]. Qed.

(** ** The invariant *)
Section recorder.
Context `{SpoolEnvironment} {Hok : SpoolEnvironmentOk} (process_generation : nat → chars).
Context (Hinj : ∀ m n, process_generation m = process_generation n → m = n).
Context {Session Fault : Type} `{DatagramRecording Session Fault} (Sound : Session → Prop) {Hrec : DatagramRecordingOk Sound}.
Abbreviation Represents := (Represents process_generation).
Implicit Types (r : @Recorder Session) (l : Log) (places : Places).

(** What [places] accounts for, from position [start] of the log on. *)
Record Accounted (start : nat) l places : Prop := {
  ac_entries : ∀ i e, Settled places i e → EntryOf (lg_frames l) i e;
  ac_order : StronglySorted le places.*1;
  ac_once : Once places;
  ac_repeats : RepeatsKnown places;
  ac_covers : ∀ i, (start ≤ i < lg_consumed l)%nat → ∃ e, Settled places i e;
}.

(** Everything settled is consumed. *)
Definition passed l places : Prop := ∀ i e, Settled places i e → (i < lg_consumed l)%nat.

(** Where the consumer and the reader are. *)
Definition consumerOk l places (consumer : ConsumerPc) (reader : option ReaderPc) : Prop :=
  match consumer with
  | Receives => is_Some reader
  | Left => True
  | Holds e => reader = Some (Delivered e)
  | Recorded e | Marked e => reader = Some (Delivered e) ∧ Settled places (lg_consumed l) e
  | Faulted => ∃ e, reader = Some (Delivered e)
  | Awaits e None =>
      match reader with
      | Some (AckCheck _ | AckPersist _ _) => Settled places (lg_consumed l) e
      | Some (AckCommit _ | RetireFiles _ | RetireDone _ _) => passed l places
      | _ => False
      end
  | Awaits e (Some true) => is_Some reader ∧ passed l places
  | Awaits e (Some false) => is_Some reader
  end.

Record RecorderOk (start : nat) r l places : Prop := {
  rk_represents : Represents (re_system r) l;
  rk_sound : Sound (re_session r);
  rk_accounted : Accounted start l places;
  rk_bound : Forall (λ p, (p.1 ≤ lg_consumed l)%nat) places;
  rk_key : ∀ e, StillRecorded places (lg_consumed l) e →
    uc_committedButUnacknowledged (re_coordination r) = Some (identityOf e) ∨
    re_consumer r = Recorded e ∧ visible e (re_coordination r) = true;
  rk_source : ∀ identity, uc_committedButUnacknowledged (re_coordination r) = Some identity →
    ∃ j e, Settled places j e ∧ identityOf e = identity;
  rk_consumer : consumerOk l places (re_consumer r) (readerOfSystem (re_system r));
  rk_acknowledging : ∀ pc, readerOfSystem (re_system r) = Some pc → acknowledging pc = true → ∃ e, re_consumer r = Awaits e None;
}.

(** A step: the recorder it leads to and what it adds to the account. *)
Definition StepOk (start : nat) l places (result : outcome unit (Recorder * list Event)) : Prop :=
  ∃ r' events l' added extra, result = Ok (r', events) ∧ events = added.*2 ∧
    lg_frames l' = lg_frames l ++ extra ∧ RecorderOk start r' l' (places ++ added).

Lemma stepOk_quiet start l places r' :
  RecorderOk start r' l places → StepOk start l places (Ok (r', [])).
Proof. intros HR. exists r', [], l, [], []. rewrite !app_nil_r. done. Qed.

(** The account of a longer log. *)
Lemma accounted_grows start l l' extra places :
  lg_frames l' = lg_frames l ++ extra → lg_consumed l' = lg_consumed l → Accounted start l places → Accounted start l' places.
Proof.
  intros Hf Hc [A1 A2 A3 A4 A5]. split; try done; [|by rewrite Hc].
  intros i e He. rewrite Hf. by apply entryOf_grows, A1.
Qed.

Lemma consumerOk_same l l' places consumer reader :
  lg_consumed l' = lg_consumed l → consumerOk l places consumer reader → consumerOk l' places consumer reader.
Proof. intros Hc. unfold consumerOk, passed. by rewrite Hc. Qed.

(** The queue moved and the position is the same. *)
Lemma moved_ok start r l places s' l' extra consumer' :
  RecorderOk start r l places → Represents s' l' → lg_frames l' = lg_frames l ++ extra → lg_consumed l' = lg_consumed l →
  consumerOk l places consumer' (readerOfSystem s') →
  (∀ e, re_consumer r = Recorded e → consumer' = Recorded e) →
  (∀ pc, readerOfSystem s' = Some pc → acknowledging pc = true → ∃ e, consumer' = Awaits e None) →
  RecorderOk start (set_consumer consumer' (set_system s' r)) l' places.
Proof.
  intros [K1 K2 K3 K4 K5 K6 K7 K8] HR Hf Hc Hcon Hsame Hack. split; cbn; try done.
  - by eapply accounted_grows.
  - by rewrite Hc.
  - rewrite Hc. intros e He. destruct (K5 e He) as [?|[Hr Hv]]; [by left|right]. split; [by apply Hsame|done].
  - by eapply consumerOk_same.
Qed.

(** An event at the present position. *)
Lemma accounted_add start l places event :
  Accounted start l places → Forall (λ p, (p.1 ≤ lg_consumed l)%nat) places →
  (∀ e, about event = Some e → EntryOf (lg_frames l) (lg_consumed l) e) →
  (∀ e e', event = Persisted e → ¬ StillRecorded places (lg_consumed l) e') →
  (∀ e, event = Repeated e → ∃ j e', Settled places j e' ∧ identityOf e' = identityOf e) →
  Accounted start l (places ++ [(lg_consumed l, event)]).
Proof.
  intros [A1 A2 A3 A4 A5] Hb Hentry Honce Hrep. split.
  - intros i e (ev & [Hin|Hin%list_elem_of_singleton]%elem_of_app & Ha); [apply A1; by exists ev|].
    injection Hin as -> ->. by apply Hentry.
  - rewrite fmap_app. apply StronglySorted_app. split_and!; [|done|by repeat constructor].
    intros x y (p & -> & Hp)%list_elem_of_fmap Hy%list_elem_of_singleton. subst y. rewrite Forall_forall in Hb. by apply Hb.
  - apply once_snoc; [done|]. intros i e e' [= <- ->]. by eapply Honce.
  - apply repeats_snoc; [done|]. intros i e [= <- ->]. by apply Hrep.
  - intros i Hi. destruct (A5 i Hi) as [e He]. exists e. by apply settled_snoc.
Qed.

Lemma delivered_entryOf s l e :
  Represents s l → readerOfSystem s = Some (Delivered e) → EntryOf (lg_frames l) (lg_consumed l) e.
Proof.
  intros HR Hr. unfold readerOfSystem in Hr. destruct (sy_process s) as [p|] eqn:Hp; [|done]. injection Hr as Hr.
  destruct (delivered_entry process_generation s l p e HR Hp Hr) as (id & f & offset & Hf & ->).
  exists f, offset, (offset + frameLength f). split; [exact Hf|done].
Qed.

Lemma here_settled l places e event :
  about event = Some e → Settled (places ++ [(lg_consumed l, event)]) (lg_consumed l) e.
Proof. intros Ha. exists event. split; [|done]. apply elem_of_app. right. apply list_elem_of_here. Qed.

(** ** The steps of the consumer *)
Lemma receive_ok start r l places : RecorderOk start r l places → RecorderOk start (receive r) l places.
Proof.
  intros HK. unfold receive. destruct (re_consumer r) eqn:Hc; try done.
  destruct (readerOf r) as [[| | | |e| | | |fault]|] eqn:Hr; try done;
    destruct HK as [K1 K2 K3 K4 K5 K6 K7 K8]; rewrite Hc in *; (split; cbn; try done);
    try (intros e' He'; destruct (K5 e' He') as [?|[? _]]; [by left|done]);
    intros pc Hpc Hack; change (readerOfSystem (re_system r)) with (readerOf r) in *; rewrite Hr in *; by injection Hpc as <-.
Qed.

(** The entry is settled: a transaction, hidden, or a repetition. *)
Lemma settle_ok start r r' l places e event :
  RecorderOk start r l places → re_consumer r = Holds e → about event = Some e →
  re_system r' = re_system r → re_coordination r' = re_coordination r → Sound (re_session r') → re_consumer r' = Recorded e →
  match event with
  | Persisted _ => visible e (re_coordination r) = true ∧ uc_committedButUnacknowledged (re_coordination r) ≠ Some (identityOf e)
  | Repeated _ => uc_committedButUnacknowledged (re_coordination r) = Some (identityOf e)
  | _ => True
  end →
  StepOk start l places (Ok (r', [event])).
Proof.
  intros [K1 K2 K3 K4 K5 K6 K7 K8] Hc Ha Hs Hco Hsound Hc' Hcase.
  rewrite Hc in K5, K7. cbn [consumerOk] in K7.
  pose proof (delivered_entryOf _ _ _ K1 K7) as Hentry.
  assert (Hkey : ∀ e', StillRecorded places (lg_consumed l) e' →
    uc_committedButUnacknowledged (re_coordination r) = Some (identityOf e)).
  { intros e' He'. destruct (K5 e' He') as [->|[? _]]; [|done]. f_equal.
    eapply entryOf_identity; [|exact Hentry]. apply (ac_entries _ _ _ K3). exists (Persisted e'). split; [by apply still_in|done]. }
  exists r', [event], l, [(lg_consumed l, event)], []. rewrite app_nil_r. split_and!; [done|done|done|].
  split; cbn; rewrite ?Hs, ?Hco, ?Hc'; try done.
  - apply accounted_add; try done.
    + intros e' Hae. rewrite Ha in Hae. by injection Hae as <-.
    + intros e1 e' -> Hst. destruct Hcase as [_ Hne]. by apply Hne, (Hkey e').
    + intros e1 ->. injection Ha as ->. by apply K6.
  - apply Forall_app. split; [done|]. by apply Forall_singleton.
  - intros e' [Heq|[_ Hst]]%still_snoc.
    + injection Heq as ->. injection Ha as ->. right. by destruct Hcase.
    + left. rewrite (Hkey e' Hst). f_equal. eapply entryOf_identity; [exact Hentry|].
      apply (ac_entries _ _ _ K3). exists (Persisted e'). split; [by apply still_in|done].
  - intros identity (j & e' & Hj & He')%K6. exists j, e'. split; [by apply settled_snoc|done].
  - split; [done|]. by apply here_settled.
  - intros pc Hpc Hack. rewrite K7 in Hpc. by injection Hpc as <-.
Qed.

Lemma persist_ok start r l places now resolve :
  RecorderOk start r l places → StepOk start l places (persistEntry now resolve r).
Proof.
  intros HK. unfold persistEntry. destruct (re_consumer r) as [|e| | | | |] eqn:Hc; try by apply stepOk_quiet.
  unfold transactionAlreadyCommitted. case_bool_decide as Hkey.
  - rewrite andb_false_r. eapply settle_ok; try done; [by destruct (visible e _)|apply HK|by destruct (visible e _)].
  - rewrite andb_true_r. destruct (visible e (re_coordination r)) eqn:Hv.
    2: { eapply settle_ok; try done; [apply HK]. }
    destruct (resolveProcessName resolve now (re_processNames r) (ue_processId (en_event e))) as [names name].
    pose proof (recordDatagram_runs name (en_event e) (re_session r) (rk_sound _ _ _ _ HK)) as Hr. unfold Runs in Hr.
    destruct (recordDatagram name (en_event e) (re_session r)) as [s [[]|err|]]; [| |done].
    + by eapply settle_ok.
    + apply stepOk_quiet. destruct HK as [K1 K2 K3 K4 K5 K6 K7 K8]. rewrite Hc in K5, K7. cbn [consumerOk] in K7.
      split; cbn; try done.
      * intros e' He'. destruct (K5 e' He') as [?|[? _]]; [by left|done].
      * by exists e.
      * intros pc Hpc Hack. rewrite K7 in Hpc. by injection Hpc as <-.
Qed.

Lemma still_settled places i e : StillRecorded places i e → Settled places i e.
Proof. intros He. exists (Persisted e). split; [by apply still_in|done]. Qed.

Lemma same_identity start r l places e e' :
  RecorderOk start r l places → Settled places (lg_consumed l) e → Settled places (lg_consumed l) e' → identityOf e = identityOf e'.
Proof. intros HK He He'. eapply entryOf_identity; eapply (ac_entries _ _ _ (rk_accounted _ _ _ _ HK)); done. Qed.

Lemma mark_ok start r l places : RecorderOk start r l places → RecorderOk start (markEntry r) l places.
Proof.
  intros HK. unfold markEntry. destruct (re_consumer r) as [| |e| | | |] eqn:Hc; try done.
  pose proof HK as [K1 K2 K3 K4 K5 K6 K7 K8]. rewrite Hc in K7. destruct K7 as [Hr Hset].
  assert (Hack : ∀ pc consumer, readerOfSystem (re_system r) = Some pc → acknowledging pc = true → ∃ e, consumer = Awaits e None).
  { intros pc consumer Hpc Hack. rewrite Hr in Hpc. by injection Hpc as <-. }
  destruct (visible e (re_coordination r)) eqn:Hv; (split; cbn; try done); try (intros; by eapply Hack).
  - intros e' He'. left. f_equal. eapply same_identity; [done..|]. by apply still_settled.
  - intros identity [= <-]. by exists (lg_consumed l), e.
  - intros e' He'. destruct (K5 e' He') as [?|[Hre Hve]]; [by left|]. rewrite Hc in Hre. injection Hre as ->. congruence.
Qed.

Lemma passed_unrecorded l places e : passed l places → ¬ StillRecorded places (lg_consumed l) e.
Proof. intros Hp He%still_settled%Hp. lia. Qed.

Lemma passed_cleared l places i : passed l places → passed l (places ++ [(i, Cleared)]).
Proof.
  intros Hp j e (ev & [Hin|Hin%list_elem_of_singleton]%elem_of_app & Ha); [apply (Hp j e); by exists ev|].
  injection Hin as -> ->. done.
Qed.

Lemma confirm_ok start r l places : RecorderOk start r l places → RecorderOk start (confirmEntry r) l places.
Proof.
  intros HK. unfold confirmEntry. destruct (re_consumer r) as [| | | |e [[]|]| |] eqn:Hc; try done;
    pose proof HK as [K1 K2 K3 K4 K5 K6 K7 K8]; rewrite Hc in K5, K7, K8.
  - destruct K7 as [Hr Hp]. split; cbn; try done.
    + intros e' He'. by apply passed_unrecorded in He'.
    + intros identity Hi. apply K6. unfold markSpoolAcknowledged in Hi. by case_bool_decide.
    + intros pc Hpc Hack. by destruct (K8 pc Hpc Hack).
  - split; cbn; try done.
    + intros e' He'. destruct (K5 e' He') as [?|[? _]]; [by left|done].
    + intros pc Hpc Hack. by destruct (K8 pc Hpc Hack).
Qed.

(** ** Steps of the queue *)
Lemma send_ok start r l places : RecorderOk start r l places →
  ∃ r' l' extra, sendAcknowledgement process_generation r = Ok r' ∧ lg_frames l' = lg_frames l ++ extra ∧ RecorderOk start r' l' places.
Proof using Hok Hinj.
  intros HK. unfold sendAcknowledgement. destruct (re_consumer r) as [| | |e| | |] eqn:Hc;
    try (by exists r, l, []; rewrite app_nil_r).
  pose proof HK as [K1 K2 K3 K4 K5 K6 K7 K8]. rewrite Hc in K7. destruct K7 as [Hr Hset].
  destruct (other_moves process_generation ConsumerAcknowledges (re_system r) l Hinj I I K1)
    as (s' & l' & extra & Hs & HR & Hcon & Hf & Hreader).
  rewrite Hs. cbn [mbind outcome_bind]. exists (set_consumer (Awaits e None) (set_system s' r)), l', extra. split_and!; [done|done|].
  rewrite Hr in Hreader. cbn [readerAfter] in Hreader. eapply moved_ok; try done.
  - by rewrite Hreader.
  - intros e'. by rewrite Hc.
  - intros. by eexists.
Qed.

Lemma quit_ok start r l places : RecorderOk start r l places →
  ∃ r' l' extra, quit process_generation r = Ok r' ∧ lg_frames l' = lg_frames l ++ extra ∧ RecorderOk start r' l' places.
Proof using Hok Hinj.
  intros HK. unfold quit. destruct (re_consumer r) eqn:Hc; try (by exists r, l, []; rewrite app_nil_r).
  pose proof HK as [K1 K2 K3 K4 K5 K6 K7 K8]. rewrite Hc in K7. destruct K7 as [e Hr].
  destruct (other_moves process_generation ConsumerQuits (re_system r) l Hinj I I K1)
    as (s' & l' & extra & Hs & HR & Hcon & Hf & Hreader).
  rewrite Hs. cbn [mbind outcome_bind]. exists (set_consumer Left (set_system s' r)), l', extra. split_and!; [done|done|].
  rewrite Hr in Hreader. cbn [readerAfter] in Hreader. eapply moved_ok; try done.
  - intros e'. by rewrite Hc.
  - intros pc Hpc Hack. rewrite Hreader in Hpc. by injection Hpc as <-.
Qed.

Lemma threads_ok start t r l places :
  match t with Append _ | CloseWriter | Weather _ => True | _ => False end → Printable t → RecorderOk start r l places →
  StepOk start l places (spoolMoves process_generation t r).
Proof using Hok Hinj.
  intros Ht Hp HK. pose proof HK as [K1 K2 K3 K4 K5 K6 K7 K8].
  assert (Ho : other t) by by destruct t.
  destruct (other_moves process_generation t (re_system r) l Hinj Ho Hp K1) as (s' & l' & extra & Hs & HR & Hcon & Hf & Hreader).
  unfold spoolMoves. rewrite Hs. cbn [mbind outcome_bind].
  exists (set_system s' r), [], l', [], extra. split_and!; [done|done|done|]. rewrite app_nil_r.
  assert (Hsame : readerOfSystem s' = readerOfSystem (re_system r)).
  { rewrite Hreader. destruct t; try done; by destruct (readerOfSystem (re_system r)) as [[]|]. }
  rewrite <-Hsame in K7, K8. change (set_system s' r) with (set_consumer (re_consumer r) (set_system s' r)). by eapply moved_ok.
Qed.

Lemma stop_ok start r l places : RecorderOk start r l places →
  ∃ r' l' extra, stopService process_generation r = Ok r' ∧ lg_frames l' = lg_frames l ++ extra ∧ RecorderOk start r' l' places.
Proof using Hok Hinj.
  intros HK. assert (Hsame : ∃ r' l' extra, Ok r = Ok r' :> outcome unit _ ∧ lg_frames l' = lg_frames l ++ extra ∧ RecorderOk start r' l' places)
    by (by exists r, l, []; rewrite app_nil_r).
  unfold stopService. destruct (re_consumer r) eqn:Hc; try done. destruct (sy_process (re_system r)) as [p|]; [|done].
  destruct (pr_reader p); try done. destruct (pr_writer p); [done|]. clear Hsame.
  pose proof HK as [K1 K2 K3 K4 K5 K6 K7 K8].
  destruct (other_moves process_generation ServiceEnds (re_system r) l Hinj I I K1) as (s' & l' & extra & Hs & HR & Hcon & Hf & Hreader).
  rewrite Hs. cbn [mbind outcome_bind]. exists (set_system s' r), l', extra. split_and!; [done|done|].
  change (set_system s' r) with (set_consumer (re_consumer r) (set_system s' r)). rewrite Hc. eapply moved_ok; try done.
  - intros e'. by rewrite Hc.
  - intros pc Hpc Hack. by rewrite Hreader in Hpc.
Qed.

(** The frame is consumed: it was settled. *)
Lemma advanced_ok start r l places s' l' consumer' e :
  RecorderOk start r l places → Settled places (lg_consumed l) e → Represents s' l' → lg_frames l' = lg_frames l →
  lg_consumed l' = S (lg_consumed l) → consumerOk l' places consumer' (readerOfSystem s') →
  (∀ pc, readerOfSystem s' = Some pc → acknowledging pc = true → ∃ e, consumer' = Awaits e None) →
  RecorderOk start (set_consumer consumer' (set_system s' r)) l' places.
Proof.
  intros [K1 K2 K3 K4 K5 K6 K7 K8] Hset HR Hf Hc Hcon Hack.
  assert (Hlt : ∀ i e, Settled places i e → (i ≤ lg_consumed l)%nat).
  { intros i e' (ev & Hin & _). rewrite Forall_forall in K4. exact (K4 _ Hin). }
  split; cbn; try done.
  - destruct K3 as [A1 A2 A3 A4 A5]. split; try done; [by rewrite Hf|]. intros i Hi. rewrite Hc in Hi.
    destruct (decide (i = lg_consumed l)) as [->|]; [by exists e|]. apply A5. lia.
  - eapply Forall_impl; [exact K4|]. cbn. intros p Hp. lia.
  - intros e' He'%still_settled%Hlt. lia.
Qed.

Lemma reader_ok start r l places : RecorderOk start r l places →
  ∃ r' l' extra, readerMoves process_generation r = Ok r' ∧ lg_frames l' = lg_frames l ++ extra ∧ RecorderOk start r' l' places.
Proof using Hok.
  intros HK. pose proof HK as [K1 K2 K3 K4 K5 K6 K7 K8]. unfold readerMoves.
  destruct (sy_process (re_system r)) as [p|] eqn:Hp.
  2: { cbn [UdpSpoolSteps.transition]. rewrite Hp. cbn [mbind outcome_bind]. unfold readerOf. cbn [set_system re_system]. rewrite Hp.
    exists r, l, []. rewrite app_nil_r. split_and!; [|done|done]. by destruct r. }
  destruct (reader_advances process_generation (re_system r) p l K1 Hp) as (s' & p' & l' & Hs & Hp' & _ & HR & Hf & Hgoes).
  rewrite Hs. cbn [mbind outcome_bind]. unfold readerOf. cbn [set_system re_system]. rewrite Hp'. cbn [fmap option_fmap option_map].
  eexists _, l', []. split; [done|]. split; [by rewrite app_nil_r|].
  assert (Hr : readerOfSystem (re_system r) = Some (pr_reader p)) by (unfold readerOfSystem; by rewrite Hp).
  assert (Hr' : readerOfSystem s' = Some (pr_reader p')) by (unfold readerOfSystem; by rewrite Hp').
  rewrite Hr in K7. specialize (K8 _ Hr). rewrite <-(app_nil_r (lg_frames l)) in Hf.
  assert (Hstay : ∀ consumer', lg_consumed l' = lg_consumed l → consumerOk l places consumer' (Some (pr_reader p')) →
    (∀ e, re_consumer r = Recorded e → consumer' = Recorded e) →
    (acknowledging (pr_reader p') = true → ∃ e, consumer' = Awaits e None) →
    RecorderOk start (set_consumer consumer' (set_system s' r)) l' places).
  { intros consumer' Hc Hcon Hsame Hack. eapply moved_ok; try done; [by rewrite Hr'|].
    intros pc Hpc. rewrite Hr' in Hpc. injection Hpc as <-. done. }
  assert (Hbystander : (∀ e, re_consumer r ≠ Awaits e None) → consumerOk l places (re_consumer r) (Some (pr_reader p')) →
    RecorderOk start (set_consumer (re_consumer r) (set_system s' r)) l' places).
  { intros Hne Hcon. destruct (goes_elsewhere _ _ _ _ Hgoes) as [Hk Hack].
    { destruct (acknowledging (pr_reader p)); [|done]. destruct (K8 eq_refl) as [e He]. by apply Hne in He. }
    apply Hstay; [done|done|done|]. by rewrite Hack. }
  rewrite app_nil_r in Hf. change (re_consumer (set_system s' r)) with (re_consumer r).
  destruct (re_consumer r) as [|e|e|e|e [[]|]| |] eqn:Hc; cbn [consumerOk] in K7; cbn [answered];
    try (apply Hbystander; [done|]; cbn [consumerOk]).
  - by eexists.
  - injection K7 as K7. rewrite K7 in Hgoes. destruct Hgoes as [_ ->]. done.
  - destruct K7 as [K7 Hset]. injection K7 as K7. rewrite K7 in Hgoes. by destruct Hgoes as [_ ->].
  - destruct K7 as [K7 Hset]. injection K7 as K7. rewrite K7 in Hgoes. by destruct Hgoes as [_ ->].
  - split; [by eexists|apply K7].
  - by eexists.
  - clear Hbystander. assert (Hended : (∃ fault, pr_reader p' = Ended fault) → lg_consumed l' = lg_consumed l →
      RecorderOk start (set_consumer (answered (pr_reader p') (Awaits e None)) (set_system s' r)) l' places).
    { intros [fault Hpc] Hk. rewrite Hpc in *. apply Hstay; [done|by eexists|by intros e'|done]. }
    assert (Hpassed : passed l places → lg_consumed l' = lg_consumed l → match pr_reader p' with
        Reading | Ended _ | RetireFiles _ | RetireDone _ _ => True | _ => False end →
      RecorderOk start (set_consumer (answered (pr_reader p') (Awaits e None)) (set_system s' r)) l' places).
    { intros Hpas Hk Hpc. destruct (pr_reader p'); try done; apply Hstay; try done; try by eexists. }
    destruct (pr_reader p) as [| |ret|id result|e'|a|a path|a|fault] eqn:Hpc; try done.
    + destruct Hgoes as [Hk Hgoes]. apply Hpassed; [done|done|by destruct (pr_reader p')].
    + destruct Hgoes as [Hk Hgoes]. apply Hpassed; [done|done|by destruct (pr_reader p')].
    + destruct Hgoes as [Hk Hgoes]. destruct (pr_reader p') eqn:Hpc'; try done; [|by apply Hended; [eexists|]].
      by apply Hstay; try done; eexists.
    + assert (Hadv : lg_consumed l' = S (lg_consumed l) → (match pr_reader p' with AckCommit _ | Ended _ => True | _ => False end) →
        RecorderOk start (set_consumer (answered (pr_reader p') (Awaits e None)) (set_system s' r)) l' places).
      { intros Hk Hpc'. eapply advanced_ok; try done; rewrite Hr'.
        - destruct (pr_reader p'); try done; [|by eexists]. cbn. intros i e' (ev & Hin & _).
          rewrite Forall_forall in K4. specialize (K4 _ Hin). cbn in K4. lia.
        - intros pc [= <-]. destruct (pr_reader p'); try done; intros _; by eexists. }
      cbn [ReaderGoes] in Hgoes. destruct (pr_reader p') eqn:Hpc'; try done; [by apply Hadv|].
      destruct Hgoes as [Hk|Hk]; [by apply Hended; [eexists|]|by apply Hadv].
    + destruct Hgoes as [Hk Hgoes]. apply Hpassed; [done|done|by destruct (pr_reader p')].
  - destruct K7 as [e K7]. injection K7 as K7. rewrite K7 in Hgoes. destruct Hgoes as [_ ->]. by exists e.
  - done.
Qed.

(** ** Clearing and starting *)
Lemma clear_ok start r l places : RecorderOk start r l places → StepOk start l places (clearRecording r).
Proof.
  intros HK. pose proof HK as [K1 K2 K3 K4 K5 K6 K7 K8]. unfold clearRecording.
  pose proof (runs_and _ _ _ _ _ _ (advance_runs (re_coordination r) (sy_disk (re_system r)))
    (advance_queue (re_coordination r) (sy_disk (re_system r)))) as Hadv. unfold Runs in Hadv.
  destruct (advanceAndPersist (re_coordination r, sy_disk (re_system r))) as [[c d] [next|e|]]; [| |done]; cbn [fst snd] in Hadv.
  - destruct Hadv as [(_ & -> & _) Hq]. cbn [re_session set_coordination set_system].
    pose proof (clearRecorded_runs (re_session r) K2) as Hs. unfold Runs in Hs.
    assert (Hend : ∀ s, Sound s → StepOk start l places (Ok (set_session s (set_coordination
        (set_epoch next (set_barrier (clearedBarrier (re_coordination r)) (sealedBarrier (re_coordination r)) (re_coordination r)))
        (set_system (set_disk d (re_system r)) r)), [Cleared]))).
    { intros s Hsound. eexists _, _, l, [(lg_consumed l, Cleared)], []. rewrite app_nil_r. split_and!; [done|done|done|].
      split; cbn; try done.
      - by apply represents_same.
      - by apply accounted_add.
      - apply Forall_app. split; [done|]. by apply Forall_singleton.
      - intros e [Heq|[Hne _]]%still_snoc; done.
      - intros identity (j & e & Hj & He)%K6. exists j, e. split; [by apply settled_snoc|done].
      - change (consumerOk l (places ++ [(lg_consumed l, Cleared)]) (re_consumer r) (readerOfSystem (re_system r))).
        destruct (re_consumer r) as [| | | |e [[]|]| |]; cbn [consumerOk] in *; try done.
        + destruct K7. split; [done|by apply settled_snoc].
        + destruct K7. split; [done|by apply settled_snoc].
        + destruct K7 as [? Hp]. split; [done|]. by apply passed_cleared.
        + destruct (readerOfSystem (re_system r)) as [[]|]; try done; first [by apply settled_snoc|by apply passed_cleared]. }
    destruct (clearRecorded (re_session r)) as [s [[]|e|]]; [by apply Hend|by apply Hend|done].
  - destruct Hadv as [[-> _] Hq]. apply stepOk_quiet. split; cbn; try done. by apply represents_same.
Qed.

Lemma startService_ok start r l places : RecorderOk start r l places →
  ∃ r' l' extra, startService process_generation r = Ok r' ∧ lg_frames l' = lg_frames l ++ extra ∧ RecorderOk start r' l' places.
Proof using Hok Hinj.
  intros HK. pose proof HK as [K1 K2 K3 K4 K5 K6 K7 K8]. unfold startService.
  destruct (sy_process (re_system r)) as [p|] eqn:Hp; [by exists r, l, []; rewrite app_nil_r|].
  assert (Hnone : readerOfSystem (re_system r) = None) by (unfold readerOfSystem; by rewrite Hp).
  rewrite Hnone in K7.
  assert (Hleft : re_consumer r = Left).
  { destruct (re_consumer r) as [| | | |e [[]|]| |]; cbn in K7; try done; naive_solver. }
  destruct (start_moves process_generation (re_system r) l Hinj Hp K1) as (s' & l' & extra & Hs & HR & Hc & Hf & Hreader).
  rewrite Hs. cbn [mbind outcome_bind]. destruct (sy_process s') as [p'|] eqn:Hp'.
  2: { exists (set_system s' r), l', extra. split_and!; [done|done|].
    change (set_system s' r) with (set_consumer (re_consumer r) (set_system s' r)). rewrite Hleft.
    eapply moved_ok; try done; [intros e; by rewrite Hleft|]. intros pc Hpc. unfold readerOfSystem in Hpc. by rewrite Hp' in Hpc. }
  destruct Hreader as [|Hreader]; [done|].
  pose proof (publish_queue (ks_processGenerations (pr_state p')) (re_coordination r) (sy_disk s')) as Hpub. unfold Runs in Hpub.
  destruct (publishGenerations _ _) as [[c d] [[]|e|]]; [| |done]; cbn [fst snd] in Hpub; destruct Hpub as [Hq Hkey].
  - eexists _, l', extra. split_and!; [done|done|]. split; cbn; try done.
    + by apply represents_same.
    + by eapply accounted_grows.
    + by rewrite Hc.
    + rewrite Hc, Hkey. intros e He. left. destruct (K5 e He) as [?|[Hre _]]; [done|by rewrite Hleft in Hre].
    + by rewrite Hkey.
    + intros pc Hpc. change (readerOfSystem s' = Some pc) in Hpc. rewrite Hreader in Hpc. by injection Hpc as <-.
  - destruct (other_moves process_generation ServiceEnds (set_disk d s') l' Hinj I I) as (s2 & l2 & extra2 & Hs2 & HR2 & Hc2 & Hf2 & Hreader2).
    { by apply represents_same. }
    rewrite Hs2. cbn [mbind outcome_bind]. eexists _, l2, (extra ++ extra2). split_and!; [done|by rewrite Hf2, Hf, app_assoc|].
    split; cbn; try done.
    + eapply accounted_grows; [exact Hf2|done|]. by eapply accounted_grows.
    + by rewrite Hc2, Hc.
    + rewrite Hc2, Hc, Hkey. intros e' He'. left. destruct (K5 e' He') as [?|[Hre _]]; [done|by rewrite Hleft in Hre].
    + by rewrite Hkey.
    + by rewrite Hleft.
    + intros pc Hpc. by rewrite Hreader2 in Hpc.
Qed.

(** ** Any run *)
(** Captured addresses are printed in full, and other tasks leave the session sound. *)
Definition allowedAction (a : @RecorderAction Session) : Prop :=
  match a with Capture captured => Printable (Append captured) | OtherTask f => ∀ s, Sound s → Sound (f s) | _ => True end.

Lemma quietly_ok start l places m :
  (∃ r' l' extra, m = Ok r' ∧ lg_frames l' = lg_frames l ++ extra ∧ RecorderOk start r' l' places) →
  StepOk start l places (quietly m).
Proof.
  intros (r' & l' & extra & -> & Hf & HK). exists r', [], l', [], extra. rewrite app_nil_r. by split_and!.
Qed.

Lemma recorderStep_ok start a r l places :
  allowedAction a → RecorderOk start r l places → StepOk start l places (recorderStep process_generation a r).
Proof using Hok Hinj Hrec.
  intros Ha HK. destruct a; cbn [recorderStep].
  - by apply stepOk_quiet, receive_ok.
  - by apply persist_ok.
  - by apply stepOk_quiet, mark_ok.
  - by apply quietly_ok, send_ok.
  - by apply stepOk_quiet, confirm_ok.
  - by apply quietly_ok, quit_ok.
  - by apply quietly_ok, reader_ok.
  - by apply clear_ok.
  - by apply quietly_ok, startService_ok.
  - by apply quietly_ok, stop_ok.
  - by apply threads_ok.
  - by apply threads_ok.
  - by apply threads_ok.
  - apply stepOk_quiet. destruct HK as [K1 K2 K3 K4 K5 K6 K7 K8]. split; try done. cbn. by apply Ha.
Qed.

Lemma recorderRun_ok start actions r l places :
  Forall allowedAction actions → RecorderOk start r l places → StepOk start l places (recorderRun process_generation actions r).
Proof using Hok Hinj Hrec.
  intros Ha. revert r l places. induction Ha as [|a actions Ha _ IH]; intros r l places HK; [by apply stepOk_quiet|].
  destruct (recorderStep_ok start a r l places Ha HK) as (r1 & events & l1 & added & extra & Hs & -> & Hf & HK1).
  destruct (IH r1 l1 _ HK1) as (r2 & later & l2 & added2 & extra2 & Hs2 & -> & Hf2 & HK2).
  cbn [recorderRun]. rewrite Hs. cbn [mbind outcome_bind]. rewrite Hs2. cbn [mbind outcome_bind].
  exists r2, (added.*2 ++ added2.*2), l2, (added ++ added2), (extra ++ extra2).
  split_and!; [done|by rewrite fmap_app|by rewrite Hf2, Hf, app_assoc|by rewrite app_assoc].
Qed.

(** A control process before its first service. *)
Record Fresh r l : Prop := {
  fr_represents : Represents (re_system r) l;
  fr_process : sy_process (re_system r) = None;
  fr_sound : Sound (re_session r);
  fr_consumer : re_consumer r = Left;
  fr_key : uc_committedButUnacknowledged (re_coordination r) = None;
}.

Lemma fresh_ok r l : Fresh r l → RecorderOk (lg_consumed l) r l [].
Proof.
  intros [F1 F2 F3 F4 F5]. split; try done.
  - split; try (by constructor); [by intros i e (ev & Hin%elem_of_nil & _)|by intros [|? ?]|by intros [|? ?]|].
    intros i Hi. lia.
  - by intros e ([|? ?] & back & ? & _).
  - by rewrite F5.
  - by rewrite F4.
  - unfold readerOfSystem. by rewrite F2.
Qed.

(** C4: In a control process, whatever the capture, writer, reader and consumer threads, other
    tasks, clears, failing disk operations and restarts of the service do, a run ends without
    panic, and its events account for the log: the consumer settles frames in the order of the
    log, each event is about the frame at its place, every frame that is consumed is settled, no
    frame becomes a transaction twice without a clear in between, and what is skipped as a
    repetition was settled before under the same identity. *)
Theorem recorder_accounts r l actions :
  Fresh r l → Forall allowedAction actions →
  ∃ r' events l' places, recorderRun process_generation actions r = Ok (r', events) ∧ events = places.*2 ∧
    Represents (re_system r') l' ∧ (∃ extra, lg_frames l' = lg_frames l ++ extra) ∧
    Accounted (lg_consumed l) l' places.
Proof using Hok Hinj Hrec.
  intros HF Ha. destruct (recorderRun_ok (lg_consumed l) actions r l [] Ha (fresh_ok r l HF))
    as (r' & events & l' & added & extra & Hs & -> & Hf & HK).
  exists r', added.*2, l', added. split_and!; [done|done|apply HK|by exists extra|apply HK].
Qed.
End recorder.
