(* ===== verification/UdpSpoolExamples.v ===== *)
(** * A concrete printer and parser for the UDP recording queue

    Stands for JSON and the listing of a directory where a theorem is applied to a
    concrete queue: values are printed field by field, lists behind their length. *)

From S2P Require Import Prelude NetAddress CaptureTypes Stateful Text CaptureModel BodyStore BodyStoreSpec BodyOwnership RecordingState RecordingBudget Recording RecordingInvariant RecordingWorld RecordingCleanup RecordingSteps RecordingTheorems RecordingExamples UdpSpoolModel UdpSpool UdpSpoolFrames UdpSpoolSteps UdpSpoolInvariant UdpSpoolReader UdpSpoolWriter UdpSpoolRecovery UdpSpoolTheorems UdpSpoolDrain UdpQueue UdpCoordination UdpPersist UdpConsumer UdpPersistTheorems UdpConsumerTheorems.

Class Codec (A : Type) := {
  print : A → list Z;
  parse : list Z → option (A * list Z);
  parse_print a rest : parse (print a ++ rest) = Some (a, rest)
}.

#[export] Instance Z_codec : Codec Z.
Proof.
  refine {| print z := [z]; parse l := match l with z :: l => Some (z, l) | [] => None end |}. done.
Defined.

#[export] Instance pair_codec {A B} `{Codec A, Codec B} : Codec (A * B).
Proof.
  refine {| print p := print p.1 ++ print p.2;
            parse l := '(a, l) ← parse l; '(b, l) ← parse l; Some ((a, b), l) |}.
  intros [a b] rest. cbn [fst snd]. rewrite <-app_assoc, parse_print. cbn. by rewrite parse_print.
Defined.

Fixpoint parse_list {A} `{Codec A} (n : nat) (l : list Z) : option (list A * list Z) :=
  match n with
  | O => Some ([], l)
  | S n => '(a, l) ← parse l; '(s, l) ← parse_list n l; Some (a :: s, l)
  end.

#[export] Instance list_codec {A} `{Codec A} : Codec (list A).
Proof.
  refine {| print s := len s :: (s ≫= print);
            parse l := match l with n :: l => parse_list (Z.to_nat n) l | [] => None end |}.
  intros s rest. cbn [app]. unfold len. rewrite Nat2Z.id.
  induction s as [|a s IH]; [done|]. cbn. rewrite <-app_assoc, parse_print. cbn. by rewrite IH.
Defined.

Definition iso_codec {A B} `{Codec B} (f : A → B) (g : B → A) (Hgf : ∀ a, g (f a) = a) : Codec A.
Proof.
  refine {| print a := print (f a); parse l := '(b, l) ← parse l; Some (g b, l) |}.
  intros a rest. rewrite parse_print. cbn. by rewrite Hgf.
Defined.

#[export] Instance address_codec : Codec SocketAddr.
Proof.
  refine (iso_codec
    (λ a, match a with SocketAddrV4 ip port => (4, (ip, (port, (0, 0)))) | SocketAddrV6 ip port f s => (6, (ip, (port, (f, s)))) end)
    (λ p, let '(v, (ip, (port, (f, s)))) := p in if v =? 4 then SocketAddrV4 ip port else SocketAddrV6 ip port f s) _).
  by intros [].
Defined.

#[export] Instance direction_codec : Codec UdpDatagramDirectionWire.
Proof.
  refine (iso_codec (λ d, match d with WireUp => 0 | WireDown => 1 end) (λ z, if z =? 0 then WireUp else WireDown) _).
  by intros [].
Defined.

#[export] Instance modification_codec : Codec UdpDatagramModification.
Proof.
  refine (iso_codec (λ m, (um_offsetBytes m, (um_originalBytes m, um_modifiedBytes m)))
    (λ p, let '(o, (a, b)) := p in {| um_offsetBytes := o; um_originalBytes := a; um_modifiedBytes := b |}) _).
  by intros [].
Defined.

#[export] Instance header_codec : Codec SpoolHeader.
Proof.
  refine (iso_codec
    (λ h, (hd_sequence h, (hd_recordingProcessGeneration h, (hd_recordingEpoch h, (hd_processId h, (hd_clientAddress h,
      (hd_targetAddress h, (hd_direction h, (hd_capturedAtMilliseconds h, hd_modifications h)))))))))
    (λ p, let '(s, (g, (e, (i, (c, (t, (d, (m, l)))))))) := p in
       {| hd_sequence := s; hd_recordingProcessGeneration := g; hd_recordingEpoch := e; hd_processId := i;
          hd_clientAddress := c; hd_targetAddress := t; hd_direction := d; hd_capturedAtMilliseconds := m;
          hd_modifications := l |}) _).
  by intros [].
Defined.

#[export] Instance cursor_codec : Codec PersistedCursor.
Proof.
  refine (iso_codec (λ c, (pc_recordingGeneration c, (pc_segmentId c, (pc_sequence c, pc_readOffset c))))
    (λ p, let '(g, (i, (s, o))) := p in
       {| pc_recordingGeneration := g; pc_segmentId := i; pc_sequence := s; pc_readOffset := o |}) _).
  by intros [].
Defined.

#[export] Instance epochs_codec : Codec PersistedRecordingEpochs.
Proof.
  refine (iso_codec (B := list (chars * Z) * list chars)
    (λ e, (map_to_list (pe_clearedEpochs e), elements (pe_sealedGenerations e)))
    (λ p, {| pe_clearedEpochs := list_to_map p.1; pe_sealedGenerations := list_to_set p.2 |}) _).
  intros [c s]. cbn. by rewrite list_to_map_to_list, list_to_set_elements_L.
Defined.

Definition parse_all {A} `{Codec A} (l : list Z) : option A :=
  match parse l with Some (a, []) => Some a | _ => None end.

Lemma parse_all_print {A} `{Codec A} (a : A) : parse_all (print a) = Some a.
Proof. unfold parse_all. rewrite <-(app_nil_r (print a)), parse_print. done. Qed.

Definition nameIn (directory : Directory) (e : path * list Z) : option chars :=
  if decide (e.1.1 = directory) then Some e.1.2 else None.

#[export] Instance codecEnvironment : SpoolEnvironment := {|
  header_json := print;
  parse_header := parse_all;
  cursor_json := print;
  parse_cursor := parse_all;
  epochs_json := print;
  parse_epochs := parse_all;
  read_dir files directory := omap (nameIn directory) (map_to_list files)
|}.

Lemma nameIn_elem directory (l : list (path * list Z)) name :
  name ∈ omap (nameIn directory) l ↔ ∃ content, ((directory, name), content) ∈ l.
Proof.
  rewrite list_elem_of_omap. split.
  - intros ([[d n] content] & Hin & Hn). unfold nameIn in Hn. cbn in Hn. case_decide; [|done].
    injection Hn as <-. subst d. by exists content.
  - intros [content Hin]. exists ((directory, name), content). split; [done|]. unfold nameIn. cbn. by rewrite decide_True.
Qed.

#[export] Instance codecEnvironmentOk : SpoolEnvironmentOk.
Proof.
  split.
  - intros h _ _. apply (parse_all_print h).
  - by intros [].
  - intros c. apply (parse_all_print c).
  - intros e. apply (parse_all_print e).
  - intros files directory name. cbn [read_dir codecEnvironment]. rewrite nameIn_elem. split.
    + intros [content Hin%elem_of_map_to_list]. by exists content.
    + intros [content Hc]. exists content. by apply elem_of_map_to_list.
  - intros files directory. cbn [read_dir codecEnvironment].
    pose proof (NoDup_fst_map_to_list files) as Hnd. induction (map_to_list files) as [|[[d n] content] l IH]; [constructor|].
    cbn in *. apply NoDup_cons in Hnd as [Hni Hnd]. unfold nameIn at 1. cbn. case_decide as Hd; [|by apply IH].
    subst d. apply NoDup_cons. split; [|by apply IH]. intros [content' Hin]%nameIn_elem. apply Hni.
    by apply (list_elem_of_fmap_2 fst _ ((directory, n), content')).
Qed.

(** * The UDP recording queue on concrete runs

    Two datagrams that go through the queue, a restart of the service in between and a
    torn frame: the theorems of the queue at concrete inputs. *)

Definition generationEx (n : nat) : chars := lit "process-" ++ [Z.of_nat n].

Lemma generationEx_inj m n : generationEx m = generationEx n → m = n.
Proof. unfold generationEx. intros Heq%app_inv_head. injection Heq. lia. Qed.

Definition datagramEx (payload : list Z) : CapturedUdpDatagram :=
  {| cu_event :=
       {| ue_processId := 42; ue_clientAddress := SocketAddrV4 2130706433 50000;
          ue_targetAddress := SocketAddrV4 134744072 53; ue_direction := Up; ue_payload := payload;
          ue_capturedAtMilliseconds := 7; ue_modifications := [] |};
     cu_recordingProcessGeneration := generationEx 0; cu_recordingEpoch := 0 |}.

Definition runEx (ts : list Transition) : outcome unit System := transitions generationEx ts (emptySystem []).

(** The system a run ends in. *)
Definition endEx (ts : list Transition) : System := default (emptySystem []) (match runEx ts with Ok s => Some s | _ => None end).

Lemma endEx_represents ts :
  Forall Printable ts → ∃ l, runEx ts = Ok (endEx ts) ∧ Represents generationEx (endEx ts) l.
Proof.
  intros Hts. destruct (transitions_refined generationEx ts (emptySystem []) _ generationEx_inj Hts
    (empty_represents generationEx [])) as (s & l & Hs & _ & HR).
  exists l. unfold endEx, runEx. rewrite Hs. done.
Qed.

(** The first datagram is handed over, confirmed and gone from the queue, the second one
    is handed over again after a restart of the service. *)
Definition deliverEx : list Transition :=
  [ServiceStarts; Append (datagramEx [1; 2; 3]); Append (datagramEx [4]); ReaderMoves; ConsumerAcknowledges;
   ReaderMoves; ReaderMoves; ReaderMoves; ReaderMoves; ServiceEnds; ServiceStarts; ReaderMoves].

Definition processEx (ts : list Transition) : option Process := sy_process (endEx ts).

Example deliverEx_second :
  (match pr_reader <$> processEx deliverEx with Some (Delivered e) => Some (en_sequence e, ue_payload (en_event e)) | _ => None end)
  = Some (2, [4]).
Proof. vm_compute. reflexivity. Qed.

Lemma processEx_field {A} (f : Process → A) ts p v :
  sy_process (endEx ts) = Some p → f <$> processEx ts = Some v → f p = v.
Proof. unfold processEx. intros ->. cbn. congruence. Qed.

Lemma spool_refines_log_witness :
  (∀ m n, generationEx m = generationEx n → m = n) ∧ Forall Printable deliverEx ∧
  ∃ s l, transitions generationEx deliverEx (emptySystem []) = Ok s ∧
    LogRun deliverEx {| lg_frames := []; lg_consumed := 0 |} l ∧ Represents generationEx s l.
Proof.
  split; [exact generationEx_inj|]. assert (Forall Printable deliverEx) as Hp by by repeat constructor.
  split; [exact Hp|]. exact (spool_refines_log generationEx [] deliverEx generationEx_inj Hp).
Defined.

Lemma delivered_is_next_witness :
  ∃ l p e, Represents generationEx (endEx deliverEx) l ∧ sy_process (endEx deliverEx) = Some p ∧ pr_reader p = Delivered e ∧
    ∃ f, lg_frames l !! lg_consumed l = Some f.
Proof.
  destruct (endEx_represents deliverEx) as (l & _ & HR); [by repeat constructor|].
  destruct (sy_process (endEx deliverEx)) as [p|] eqn:Hp; [|by vm_compute in Hp].
  assert (Hr : ∃ e, pr_reader p = Delivered e).
  { eexists. apply (processEx_field pr_reader deliverEx p _ Hp). vm_compute. reflexivity. }
  destruct Hr as [e Hr]. exists l, p, e. split; [exact HR|]. split; [reflexivity|]. split; [exact Hr|].
  destruct (delivered_is_next generationEx (endEx deliverEx) l p e HR Hp Hr) as (id & f & Hf & _). exists (id, f). exact Hf.
Defined.

Lemma append_outcome_witness :
  ∃ l p, Represents generationEx (endEx [ServiceStarts]) l ∧ sy_process (endEx [ServiceStarts]) = Some p ∧ pr_writer p = true ∧
    match appendCapturedEvent (datagramEx [1; 2; 3]) (spoolOf (endEx [ServiceStarts]) p) with
    | (sp, Ok _) => ks_pendingBytes (sp_state sp) ≤ maximumSpoolBytes
    | _ => False
    end.
Proof.
  destruct (endEx_represents [ServiceStarts]) as (l & _ & HR); [by repeat constructor|].
  destruct (sy_process (endEx [ServiceStarts])) as [p|] eqn:Hp; [|by vm_compute in Hp].
  assert (Hw : pr_writer p = true) by (apply (processEx_field pr_writer [ServiceStarts] p _ Hp); vm_compute; reflexivity).
  exists l, p. split; [exact HR|]. split; [reflexivity|]. split; [exact Hw|].
  pose proof (append_outcome generationEx (endEx [ServiceStarts]) l p (datagramEx [1; 2; 3]) HR Hp Hw ltac:(done)) as Ha.
  assert (Hok : (appendCapturedEvent (datagramEx [1; 2; 3]) (spoolOf (endEx [ServiceStarts]) p)).2 = Ok tt).
  { apply (processEx_field (λ p, (appendCapturedEvent (datagramEx [1; 2; 3]) (spoolOf (endEx [ServiceStarts]) p)).2)
      [ServiceStarts] p _ Hp). vm_compute. reflexivity. }
  destruct (appendCapturedEvent (datagramEx [1; 2; 3]) (spoolOf (endEx [ServiceStarts]) p)) as [sp r].
  cbn [snd] in Hok. subst r. apply Ha.
Defined.

Lemma pending_is_unread_witness :
  ∃ l p, Represents generationEx (endEx deliverEx) l ∧ sy_process (endEx deliverEx) = Some p ∧
    ks_pendingBytes (pr_state p) = sum_by loggedLength (drop (lg_consumed l) (lg_frames l)).
Proof.
  destruct (endEx_represents deliverEx) as (l & _ & HR); [by repeat constructor|].
  destruct (sy_process (endEx deliverEx)) as [p|] eqn:Hp; [|by vm_compute in Hp].
  exists l, p. split; [exact HR|]. split; [reflexivity|]. apply (pending_is_unread generationEx (endEx deliverEx) l p HR Hp).
  apply (processEx_field (λ p, committing (pr_reader p)) deliverEx p _ Hp). vm_compute. reflexivity.
Defined.

(** The writer is closed and both datagrams are confirmed. *)
Definition closedEx : list Transition :=
  [ServiceStarts; Append (datagramEx [1; 2; 3]); Append (datagramEx [4]); CloseWriter].

Lemma drain_finishes_witness :
  ∃ l p, Represents generationEx (endEx closedEx) l ∧ Stopping (endEx closedEx) p ∧
    ∃ rounds s' p', drainRounds generationEx rounds (endEx closedEx) = Ok s' ∧ sy_process s' = Some p' ∧ pr_reader p' = Ended None.
Proof.
  destruct (endEx_represents closedEx) as (l & _ & HR); [by repeat constructor|].
  destruct (sy_process (endEx closedEx)) as [p|] eqn:Hp; [|by vm_compute in Hp].
  assert (HS : Stopping (endEx closedEx) p).
  { split; [exact Hp| | | |vm_compute; reflexivity].
    - apply (processEx_field pr_writer closedEx p _ Hp). vm_compute. reflexivity.
    - apply (processEx_field (λ p, ks_closed (pr_state p)) closedEx p _ Hp). vm_compute. reflexivity.
    - apply (processEx_field (λ p, healthy (pr_reader p)) closedEx p _ Hp). vm_compute. reflexivity. }
  exists l, p. split; [exact HR|]. split; [exact HS|].
  destruct (drain_finishes generationEx (endEx closedEx) l p HR HS) as (rounds & s' & p' & l' & Hd & _ & Hp' & He & _).
  by exists rounds, s', p'.
Defined.

(** The disk refuses to write on inside the second frame. *)
Definition tornEx : list Transition :=
  [ServiceStarts; Append (datagramEx [1; 2; 3]); Weather [Granted; Granted; Refused 2]; Append (datagramEx [4]); Weather [];
   ServiceEnds].

Lemma torn_segment_refused_witness :
  ∃ l content e, Represents generationEx (endEx tornEx) l ∧ sy_process (endEx tornEx) = None ∧
    kd_files (sy_disk (endEx tornEx)) !! segmentPath 1 = Some content ∧ scanExistingFrames content = Err e ∧
    ∃ s', transition generationEx ServiceStarts (endEx tornEx) = Ok s' ∧ sy_process s' = None.
Proof.
  destruct (endEx_represents tornEx) as (l & _ & HR); [by repeat constructor|].
  destruct (kd_files (sy_disk (endEx tornEx)) !! segmentPath 1) as [content|] eqn:Hc; [|by vm_compute in Hc].
  assert (Hs : scanExistingFrames content = Err InvalidData).
  { assert (Hx : scanExistingFrames <$> kd_files (sy_disk (endEx tornEx)) !! segmentPath 1 = Some (Err InvalidData))
      by (vm_compute; reflexivity).
    rewrite Hc in Hx. change (Some (scanExistingFrames content) = Some (Err InvalidData)) in Hx. by injection Hx. }
  assert (Hp : sy_process (endEx tornEx) = None) by (vm_compute; reflexivity).
  exists l, content, InvalidData. split; [exact HR|]. split; [exact Hp|]. split; [reflexivity|]. split; [exact Hs|].
  assert (Hid : is_u64 1) by (split; vm_compute; discriminate).
  destruct (torn_segment_refused generationEx (endEx tornEx) l 1 content InvalidData generationEx_inj HR Hp Hid Hc Hs)
    as (s' & H1 & H2 & _).
  exists s'. split; [exact H1|exact H2].
Defined.

Lemma ended_is_drained_witness :
  ∃ s l p, Represents generationEx s l ∧ sy_process s = Some p ∧ pr_reader p = Ended None ∧
    pr_writer p = false ∧ lg_consumed l = length (lg_frames l).
Proof.
  set (ts := closedEx ++ flat_map (λ _, [ReaderMoves; ConsumerAcknowledges]) (seq 0 12)).
  destruct (endEx_represents ts) as (l & _ & HR); [by repeat constructor|].
  destruct (sy_process (endEx ts)) as [p|] eqn:Hp; [|by vm_compute in Hp].
  assert (Hr : pr_reader p = Ended None).
  { apply (processEx_field pr_reader ts p _ Hp). vm_compute. reflexivity. }
  exists (endEx ts), l, p. split; [exact HR|]. split; [exact Hp|]. split; [exact Hr|].
  exact (ended_is_drained generationEx (endEx ts) l p HR Hp Hr).
Defined.

(** * The capture queue and the clear barrier on concrete runs *)

(** Two datagrams are taken over; the disk refuses the second one, and the queue closes. *)
Definition overloadEx : list PipelineAction :=
  [Offer (datagramEx [1; 2; 3]); Offer (datagramEx [4]); WriterMoves; WriterMoves; Elsewhere ReaderMoves;
   Elsewhere (Weather [Refused 2]); WriterMoves; WriterMoves; Offer (datagramEx [5]); WriterMoves; WriterMoves; SinkCloses].

Definition overloadEnd : option Pipeline :=
  match pipelineRun generationEx overloadEx (newPipeline (endEx [ServiceStarts])) with Ok p => Some p | _ => None end.

Definition payloads (l : list CapturedUdpDatagram) : list (list Z) := (λ c, ue_payload (cu_event c)) <$> l.

Example overload_kept :
  (λ p, (payloads (pl_offered p), payloads (pl_written p), payloads (stillHeld p), snd <$> sinkFault (pl_queue p))) <$> overloadEnd
  = Some ([[1; 2; 3]; [4]; [5]], [[1; 2; 3]], [[4]; [5]], Some 2%nat).
Proof. vm_compute. reflexivity. Qed.

Lemma pipeline_loses_nothing_witness :
  ∃ l pr, Represents generationEx (endEx [ServiceStarts]) l ∧ sy_process (endEx [ServiceStarts]) = Some pr ∧
    pr_writer pr = true ∧ Forall actionOk overloadEx ∧
    ∃ p, pipelineRun generationEx overloadEx (newPipeline (endEx [ServiceStarts])) = Ok p ∧
      pl_offered p = pl_written p ++ stillHeld p.
Proof.
  destruct (endEx_represents [ServiceStarts]) as (l & _ & HR); [by repeat constructor|].
  destruct (sy_process (endEx [ServiceStarts])) as [pr|] eqn:Hp; [|by vm_compute in Hp].
  assert (Hw : pr_writer pr = true) by (apply (processEx_field pr_writer [ServiceStarts] pr _ Hp); vm_compute; reflexivity).
  assert (Ha : Forall actionOk overloadEx) by (repeat constructor).
  exists l, pr. split; [exact HR|]. split; [reflexivity|]. split; [exact Hw|]. split; [exact Ha|].
  destruct (pipeline_loses_nothing generationEx generationEx_inj l (endEx [ServiceStarts]) pr overloadEx HR Hp Hw Ha)
    as (p & Hrun & Hkept & _).
  exists p. split; [exact Hrun|exact Hkept].
Defined.

(** ** Clearing *)
Definition emptyDisk : SpoolDisk := {| kd_files := ∅; kd_answers := [] |}.

(** The queue still holds datagrams of an earlier process when the service begins. *)
Definition coordinationEx : UdpRecordingCoordination :=
  registerSpoolGenerations {[lit "earlier"]} (newCoordination (lit "current")).

Definition clearedEx : UdpRecordingCoordination * SpoolDisk := (advanceAndPersist (coordinationEx, emptyDisk)).1.

Definition afterClearEx : list CoordinationStep :=
  [ServiceBegins {[lit "earlier"]}; ControlProcessBegins (lit "next"); Clear; ServiceBegins {[lit "earlier"; lit "current"]}].

Lemma cleared_stays_cleared_witness :
  advanceAndPersist (coordinationEx, emptyDisk) = (clearedEx, Ok 1) ∧ capturedBefore coordinationEx (lit "earlier") 3 ∧
  Forall (keepsGeneration (lit "earlier")) afterClearEx ∧
  ∃ oc d2, coordinationSteps afterClearEx (Some clearedEx.1, clearedEx.2) = Ok (oc, d2) ∧ ∀ c2, oc = Some c2 → shouldPersist (lit "earlier") 3 c2 = false.
Proof.
  assert (Ha : advanceAndPersist (coordinationEx, emptyDisk) = (clearedEx, Ok 1)) by (vm_compute; reflexivity).
  assert (Hb : capturedBefore coordinationEx (lit "earlier") 3).
  { right. split; [intros He; vm_compute in He; discriminate He|]. unfold coordinationEx. set_solver. }
  assert (Hk : Forall (keepsGeneration (lit "earlier")) afterClearEx).
  { unfold afterClearEx. rewrite !Forall_cons. cbn [keepsGeneration].
    split_and!; [set_solver|intros He; vm_compute in He; discriminate He|done|set_solver|constructor]. }
  split; [exact Ha|]. split; [exact Hb|]. split; [exact Hk|].
  destruct (cleared_stays_cleared coordinationEx emptyDisk clearedEx.1 clearedEx.2 1 (lit "earlier") 3 afterClearEx Ha Hb Hk)
    as (oc & d2 & H1 & H2).
  exists oc, d2. split; [exact H1|exact H2].
Defined.

Lemma clear_barrier_witness :
  capturedBefore coordinationEx (lit "earlier") 3 ∧
  Runs advanceAndPersist (coordinationEx, emptyDisk)
    (λ next s, next = 1 ∧ shouldPersist (lit "earlier") 3 s.1 = false) (λ _ s, s.1 = coordinationEx).
Proof.
  assert (Hb : capturedBefore coordinationEx (lit "earlier") 3).
  { right. split; [intros He; vm_compute in He; discriminate He|]. unfold coordinationEx. set_solver. }
  split; [exact Hb|]. pose proof (proj1 (clear_barrier coordinationEx emptyDisk)) as Hr. unfold Runs in *.
  destruct (advanceAndPersist (coordinationEx, emptyDisk)) as [s [next|e|]] eqn:Ha; [|exact Hr|exact Hr].
  destruct Hr as (Hnext & _ & _ & _ & Hhidden & _). split; [|by apply Hhidden].
  assert (Hx : (advanceAndPersist (coordinationEx, emptyDisk)).2 = Ok 1) by (vm_compute; reflexivity).
  rewrite Ha in Hx. cbn in Hx. by injection Hx.
Defined.

(** A control process that clears before it started a service has no generation to seal:
    what an earlier process left in the queue stays visible. *)
Example clear_before_service_hides_nothing :
  let cleared := (advanceAndPersist (newCoordination (lit "current"), emptyDisk)).1 in
  shouldPersist (lit "earlier") 3 (publishGenerations {[lit "earlier"]} cleared).1.1 = true.
Proof. vm_compute. reflexivity. Qed.

(** * The consumer of the UDP recording queue on concrete runs *)

(** ** A recording that is the list of its datagrams *)
#[local] Instance listRecording : DatagramRecording (list UdpDatagramEvent) unit :=
  {| recordDatagram name event := modify (λ s, s ++ [event]); clearRecorded := modify (λ _, []) |}.

Definition recorderEx : @Recorder (list UdpDatagramEvent) :=
  {| re_system := emptySystem []; re_coordination := newCoordination (generationEx 0); re_session := [];
     re_consumer := Left; re_processNames := ∅ |}.

Definition noNames : Z → option string := λ _, None.

Abbreviation recordEx := (recorderRun generationEx).

(** What is recorded, what the consumer did, where the log is. *)
Definition payloadOf (event : Event) : option (list Z) := (λ e, ue_payload (en_event e)) <$> about event.

Definition settleEx : list (@RecorderAction (list UdpDatagramEvent)) := [ReaderStep; Receive; Persist 0 noNames; Mark; Acknowledge; ReaderStep; ReaderStep; ReaderStep].

Example two_datagrams_recorded :
  match recordEx ([StartService; Capture (datagramEx [1; 2; 3]); Capture (datagramEx [4])]
                  ++ settleEx ++ [Confirm] ++ settleEx ++ [Confirm]) recorderEx with
  | Ok (r, events) => Some (ue_payload <$> re_session r, payloadOf <$> events)
  | _ => None
  end = Some ([[1; 2; 3]; [4]], [Some [1; 2; 3]; Some [4]]).
Proof. vm_compute. reflexivity. Qed.

(** The removal of the segment is refused after its only frame was recorded and its cursor
    written; the next service removes it and starts another one, and the third service
    begins at the first number again. *)
Definition staleEx : list (@RecorderAction (list UdpDatagramEvent)) :=
  [StartService; Capture (datagramEx [1; 2; 3]); ReaderStep; Receive; Persist 0 noNames; Mark; StopCapture; Acknowledge;
   ReaderStep; ReaderStep; ReaderStep; Grants [Granted; Refused 0%nat]; ReaderStep; ReaderStep; Confirm; StopService; Grants [];
   StartService; StopCapture; ReaderStep; ReaderStep; ReaderStep; ReaderStep; ReaderStep; Receive; StopService;
   StartService; Capture (datagramEx [9])] ++ settleEx ++ [Confirm].

(** The second datagram has the identity of the first one and is skipped: the key of a
    committed transaction is kept when its acknowledgement fails. *)
Example stale_key_loses_datagram :
  match recordEx staleEx recorderEx with
  | Ok (r, [Persisted e1; Repeated e2]) =>
      Some (ue_payload <$> re_session r, ue_payload (en_event e2), bool_decide (identityOf e1 = identityOf e2))
  | _ => None
  end = Some ([[1; 2; 3]], [9], true).
Proof. vm_compute. reflexivity. Qed.

(** ** The recording session *)
Definition alone (i : nat) (s : RecordingSession) : RecordingSession := s.
Definition collectedEx (bytes : list Z) : vec Z := vec_of bytes.
Abbreviation persistEx := (persistUdpDatagram to_ascii_lowercase tight collectedEx alone None).
Abbreviation beginEx event := (beginTransaction to_ascii_lowercase (udpTransaction tight None event)).

Definition eventEx (payload : list Z) : UdpDatagramEvent := cu_event (datagramEx payload).

Lemma alone_others hs : Others Quiet hs alone.
Proof. intros i s Hw. by apply keeps_refl. Qed.

Lemma worldEx : World [] sessionEx.
Proof. exact (goodEx []). Qed.

Lemma datagram_recorded_whole_witness :
  World [] sessionEx ∧ Others Quiet [] alone ∧ (persistEx (eventEx [1; 2; 3]) sessionEx).2 = Ok tt ∧
  (beginEx (eventEx [1; 2; 3]) sessionEx = ((persistEx (eventEx [1; 2; 3]) sessionEx).1, Ok None) ∨
   RecordedAs (eventEx [1; 2; 3]) sessionEx (persistEx (eventEx [1; 2; 3]) sessionEx).1).
Proof.
  split; [exact worldEx|]. split; [exact (alone_others [])|].
  assert (Hok : (persistEx (eventEx [1; 2; 3]) sessionEx).2 = Ok tt) by (vm_compute; reflexivity). split; [exact Hok|].
  pose proof (datagram_recorded_whole to_ascii_lowercase tight collectedEx Quiet [] alone None (eventEx [1; 2; 3]) sessionEx
    worldEx (alone_others []) (λ _ _ _ H, H)) as Hr.
  unfold Runs in Hr. destruct (persistEx (eventEx [1; 2; 3]) sessionEx) as [s' [[]|e|]]; [|discriminate Hok|discriminate Hok].
  exact (proj2 Hr).
Defined.

(** Nothing is sent, but the session records. *)
Example empty_datagram_refused :
  (persistEx (eventEx []) sessionEx).2 = Err InvalidBodyLength ∧ (beginEx (eventEx []) sessionEx).2 = Ok (Some idEx).
Proof. split; vm_compute; reflexivity. Qed.

(** The begun transaction stays pending. *)
Example refused_datagram_stays_pending :
  isPending <$> st_transactions (ss_state (persistEx (eventEx []) sessionEx).1) !! idEx = Some true.
Proof. vm_compute. reflexivity. Qed.

(** A control process that records into a session. *)
Definition sessionRecorderEx : @Recorder RecordingSession :=
  {| re_system := emptySystem []; re_coordination := newCoordination (generationEx 0); re_session := sessionEx;
     re_consumer := Left; re_processNames := ∅ |}.

Definition sessionActions : list (@RecorderAction RecordingSession) :=
  [StartService; Capture (datagramEx [1; 2; 3]); ReaderStep; Receive; Persist 0 noNames; Mark; Acknowledge; ReaderStep;
   ClearRecording; OtherTask (λ s, s); ReaderStep; ReaderStep; Confirm].

Lemma recorder_accounts_witness :
  let recording := sessionRecording to_ascii_lowercase tight collectedEx drainEx alone in
  ∃ l, Fresh generationEx (World []) sessionRecorderEx l ∧ Forall (allowedAction (World [])) sessionActions ∧
  ∃ r' events l' places,
    recorderRun generationEx (H0 := recording) sessionActions sessionRecorderEx = Ok (r', events) ∧ events = places.*2 ∧
    Accounted (lg_consumed l) l' places.
Proof.
  intros recording.
  assert (HF : Fresh generationEx (World []) sessionRecorderEx {| lg_frames := []; lg_consumed := 0 |}).
  { split; [exact (empty_represents generationEx [])|reflexivity|exact worldEx|reflexivity|reflexivity]. }
  assert (Ha : Forall (allowedAction (World [])) sessionActions).
  { unfold sessionActions. rewrite !Forall_cons. cbn [allowedAction]. by split_and!. }
  exists {| lg_frames := []; lg_consumed := 0 |}. split; [exact HF|]. split; [exact Ha|].
  destruct (recorder_accounts generationEx generationEx_inj (World [])
    (Hrec := sessionRecording_ok to_ascii_lowercase tight collectedEx drainEx drainEx_perm alone Quiet [] (alone_others []))
    sessionRecorderEx _ sessionActions HF Ha) as (r' & events & l' & places & H1 & H2 & _ & _ & H3).
  exists r', events, l', places. split; [exact H1|]. split; [exact H2|exact H3].
Defined.
