(* ===== verification/SocksProjection.v ===== *)
(** * SOCKS sessions as transactions

    Model of [Server/Backend/src/socksTransactionProjection.rs], which turns the
    snapshots of SOCKS sessions into transactions of the recording, and of the loop of
    [controlApi/runtimeEventControl.rs] that feeds it: the forwarder of session events
    reads the shared buffers of the registry while the relays go on filling them, and
    while other tasks use the recording.  Both run between the calls of a projection;
    what they do there is a function of the [Moment]. *)

From S2P Require Import Prelude NetAddress Stateful Text CaptureModel UdpPersist WireDiff SessionCapture SessionRegistry.

(** What the projector needs of the recording. *)
Class TransactionStore (Session : Type) := {
  recordBegin : BeginTransaction → stateful Session CaptureError (option chars);
  recordProgress : chars → TransactionProgressUpdate → stateful Session CaptureError unit;
  recordBody : chars → MessageSide → BodyWrite → stateful Session CaptureError BodyHandleMeta;
  recordPackets : chars → MessageSide → vec StreamPacket → stateful Session CaptureError unit;
  recordCommit : chars → TransactionCompletion → stateful Session CaptureError unit;
  recordFail : chars → TransactionError → Z → stateful Session CaptureError unit
}.

(** ** Targets *)
(** [str::parse] for [SocketAddr], like [parse_ip]. *)
Definition read_port : reader Z := λ s,
  '(_, s) ← read_given_char 58 s; read_number 10 u16_max (len s) true s.
Definition read_scope_id : reader Z := λ s,
  '(_, s) ← read_given_char 37 s; read_number 10 u32_max (len s) true s.

Definition read_socket_addr : reader SocketAddr := λ s,
  match ('(ip, s) ← read_ipv4_addr s; '(port, s) ← read_port s; Some (SocketAddrV4 ip port, s)) with
  | Some a => Some a
  | None =>
      '(_, s) ← read_given_char 91 s;
      '(ip, s) ← read_ipv6_addr s;
      let '(scope, s) := default (0, s) (read_scope_id s) in
      '(_, s) ← read_given_char 93 s;
      '(port, s) ← read_port s;
      Some (SocketAddrV6 ip port 0 scope, s)
  end.
Definition parse_socket (s : chars) : option SocketAddr := parse_with read_socket_addr s.

Fixpoint rsplit_once (c : Z) (s : chars) : option (chars * chars) :=
  match s with
  | [] => None
  | x :: s =>
      match rsplit_once c s with
      | Some (before, after) => Some (x :: before, after)
      | None => if x =? c then Some ([], s) else None
      end
  end.

(** ** The projector *)
Record ActiveProjection := {
  ap_transactionId : option chars;
  ap_captureGeneration : Z;
  ap_requestSentAtMilliseconds : Z;
  ap_requestSentObserved : bool;
  ap_connectionObserved : bool;
  ap_responseObserved : bool;
  ap_capturedRequestBytes : Z;
  ap_capturedResponseBytes : Z;
  ap_lastCaptureFlushAtMilliseconds : Z
}.

Definition activeCaptureFlushIntervalMilliseconds : Z := 250.

Record SocksTransactionProjector := {
  pj_active : gmap chars ActiveProjection;
  pj_finalized : gset chars;
  pj_finalizedOrder : list chars;
  pj_historyLimit : Z;
  pj_minimumCaptureGeneration : Z
}.

Definition newProjector (historyLimit : Z) : SocksTransactionProjector :=
  {| pj_active := ∅; pj_finalized := ∅; pj_finalizedOrder := []; pj_historyLimit := Z.max historyLimit 1;
     pj_minimumCaptureGeneration := 0 |}.

Definition set_active (v : gmap chars ActiveProjection) (p : SocksTransactionProjector) : SocksTransactionProjector :=
  {| pj_active := v; pj_finalized := pj_finalized p; pj_finalizedOrder := pj_finalizedOrder p;
     pj_historyLimit := pj_historyLimit p; pj_minimumCaptureGeneration := pj_minimumCaptureGeneration p |}.
Definition set_finalized (finalized : gset chars) (order : list chars) (p : SocksTransactionProjector)
    : SocksTransactionProjector :=
  {| pj_active := pj_active p; pj_finalized := finalized; pj_finalizedOrder := order;
     pj_historyLimit := pj_historyLimit p; pj_minimumCaptureGeneration := pj_minimumCaptureGeneration p |}.
Definition set_minimumCaptureGeneration (v : Z) (p : SocksTransactionProjector) : SocksTransactionProjector :=
  {| pj_active := pj_active p; pj_finalized := pj_finalized p; pj_finalizedOrder := pj_finalizedOrder p;
     pj_historyLimit := pj_historyLimit p; pj_minimumCaptureGeneration := v |}.

(** The loop of [rememberFinalized] that keeps the history within its limit. *)
Fixpoint expireFinalized (historyLimit : Z) (order : list chars) (finalized : gset chars) : list chars * gset chars :=
  match order with
  | expiredSessionId :: rest =>
      if historyLimit <? len order then expireFinalized historyLimit rest (finalized ∖ {[expiredSessionId]})
      else (order, finalized)
  | [] => (order, finalized)
  end.

Definition rememberFinalized (sessionId : chars) (p : SocksTransactionProjector) : SocksTransactionProjector :=
  let p := set_active (delete sessionId (pj_active p)) p in
  if bool_decide (sessionId ∈ pj_finalized p) then p
  else
    let '(order, finalized) :=
      expireFinalized (pj_historyLimit p) (pj_finalizedOrder p ++ [sessionId]) ({[sessionId]} ∪ pj_finalized p) in
    set_finalized finalized order p.

(** ** What a snapshot says *)
Definition isTerminal (state : SessionState) : bool :=
  match state with Closed | Failed => true | _ => false end.

Definition isDiscardedTransaction (error : CaptureError) : bool :=
  match error with TransactionNotFound | TransactionFinished => true | _ => false end.

Definition terminalTimestamp (session : SessionSnapshot) : Z :=
  if sn_closedAtMilliseconds session =? 0 then sn_updatedAtMilliseconds session else sn_closedAtMilliseconds session.

Definition projectableTransport (session : SessionSnapshot) : bool :=
  match sn_applicationProtocol session with
  | SessionRegistry.Tcp | Tls | SessionRegistry.Udp => true
  | Undetermined => bool_decide (sn_state session = Failed)
  | _ => false
  end.

Definition transportReady (session : SessionSnapshot) : bool :=
  match sn_state session with Relaying | Closed => true | _ => false end
  || (0 <? sn_bytesUp session) || (0 <? sn_bytesDown session).
Definition responseReady (session : SessionSnapshot) : bool := 0 <? sn_bytesDown session.

Definition shouldFlushCapturedBodies (projection : ActiveProjection) (session : SessionSnapshot) : bool :=
  let requestAdvanced := ap_capturedRequestBytes projection <? sn_bytesUp session in
  let responseAdvanced := ap_capturedResponseBytes projection <? sn_bytesDown session in
  if negb requestAdvanced && negb responseAdvanced then false
  else
    let firstRequest := requestAdvanced && (ap_capturedRequestBytes projection =? 0) in
    let firstResponse := responseAdvanced && (ap_capturedResponseBytes projection =? 0) in
    firstRequest || firstResponse || isTerminal (sn_state session)
    || (activeCaptureFlushIntervalMilliseconds <=?
          saturating_sub (sn_updatedAtMilliseconds session) (ap_lastCaptureFlushAtMilliseconds projection)).

Definition activated (transactionId : option chars) (session : SessionSnapshot) : ActiveProjection :=
  {| ap_transactionId := transactionId; ap_captureGeneration := sn_captureGeneration session;
     ap_requestSentAtMilliseconds := sn_updatedAtMilliseconds session; ap_requestSentObserved := false;
     ap_connectionObserved := false; ap_responseObserved := false; ap_capturedRequestBytes := 0;
     ap_capturedResponseBytes := 0; ap_lastCaptureFlushAtMilliseconds := 0 |}.

Definition observed (session : SessionSnapshot) (a : ActiveProjection) : ActiveProjection :=
  {| ap_transactionId := ap_transactionId a; ap_captureGeneration := ap_captureGeneration a;
     ap_requestSentAtMilliseconds := ap_requestSentAtMilliseconds a; ap_requestSentObserved := true;
     ap_connectionObserved := ap_connectionObserved a || transportReady session;
     ap_responseObserved := ap_responseObserved a || responseReady session;
     ap_capturedRequestBytes := ap_capturedRequestBytes a; ap_capturedResponseBytes := ap_capturedResponseBytes a;
     ap_lastCaptureFlushAtMilliseconds := ap_lastCaptureFlushAtMilliseconds a |}.

Definition flushed (session : SessionSnapshot) (a : ActiveProjection) : ActiveProjection :=
  {| ap_transactionId := ap_transactionId a; ap_captureGeneration := ap_captureGeneration a;
     ap_requestSentAtMilliseconds := ap_requestSentAtMilliseconds a;
     ap_requestSentObserved := ap_requestSentObserved a; ap_connectionObserved := ap_connectionObserved a;
     ap_responseObserved := ap_responseObserved a; ap_capturedRequestBytes := sn_bytesUp session;
     ap_capturedResponseBytes := sn_bytesDown session;
     ap_lastCaptureFlushAtMilliseconds := sn_updatedAtMilliseconds session |}.

Definition progressOf (projection : ActiveProjection) (session : SessionSnapshot) : TransactionProgressUpdate :=
  let once (observed : bool) (at_ : Z) := if observed then None else Some at_ in
  {| pu_requestHeaderBytes := None; pu_requestBodyBytes := Some (sn_bytesUp session);
     pu_responseHeaderBytes := None; pu_responseBodyBytes := Some (sn_bytesDown session);
     pu_dnsEndAtMilliseconds := None;
     pu_connectEndAtMilliseconds :=
       if transportReady session then once (ap_connectionObserved projection) (sn_updatedAtMilliseconds session) else None;
     pu_tlsEndAtMilliseconds := None;
     pu_requestSentAtMilliseconds :=
       once (ap_requestSentObserved projection) (ap_requestSentAtMilliseconds projection);
     pu_responseStartAtMilliseconds :=
       if responseReady session then once (ap_responseObserved projection) (sn_updatedAtMilliseconds session) else None |}.

(** ** Bodies *)
Definition directionOf (side : MessageSide) : TrafficDirection := match side with Request => Up | Response => Down end.
Definition bytesOf (side : MessageSide) (session : SessionSnapshot) : Z :=
  match side with Request => sn_bytesUp session | Response => sn_bytesDown session end.
Definition capturedOf (side : MessageSide) (projection : ActiveProjection) : Z :=
  match side with
  | Request => ap_capturedRequestBytes projection
  | Response => ap_capturedResponseBytes projection
  end.

(** [Vec::truncate]; [usize] has the width of [u64]. *)
Definition truncate (bytes : list Z) (n : Z) : list Z := if n <? len bytes then slice bytes 0 n else bytes.

(** The [retain] of [storeCapturedBodies]: packets within the event's count and the body. *)
Fixpoint retainPackets (originalBytes bodyLength observedOriginalBytes : Z) (packets : list CapturedPacket)
    : list CapturedPacket :=
  match packets with
  | [] => []
  | packet :: packets =>
      let observedOriginalBytes := saturating_add observedOriginalBytes (cp_originalBytes packet) in
      let rest := retainPackets originalBytes bodyLength observedOriginalBytes packets in
      if (observedOriginalBytes <=? originalBytes)
         && from_option (λ end_, end_ <=? bodyLength) false
              (checked_add (cp_storedOffsetBytes packet) (cp_storedBytes packet))
      then packet :: rest else rest
  end.

Definition streamPacket (packet : CapturedPacket) : StreamPacket :=
  {| sp_sequence := cp_sequence packet; sp_capturedAtMilliseconds := cp_capturedAtMilliseconds packet;
     sp_storedOffsetBytes := cp_storedOffsetBytes packet; sp_storedBytes := cp_storedBytes packet;
     sp_originalBytes := cp_originalBytes packet;
     sp_truncated := cp_storedBytes packet <? cp_originalBytes packet;
     sp_action := match cp_modifications packet with [] => PacketForward | _ => PacketReplace end;
     sp_modifications :=
       (λ m, {| pm_offsetBytes := wm_offsetBytes m; pm_originalBytes := vec_of (wm_originalBytes m);
                pm_modifiedBytes := vec_of (wm_modifiedBytes m) |}) <$> cp_modifications packet |}.

Definition streamBody (bodyBytes : list Z) (originalBytes : Z) : BodyWrite :=
  {| bw_bytes := bodyBytes; bw_originalBytes := originalBytes; bw_contentType := tight binaryContentType;
     bw_encoding := tight binaryEncoding |}.

(** The replay is in the order of creation. *)
Definition createdBefore (a b : SessionSnapshot) : Prop :=
  sn_createdAtMilliseconds a ≤ sn_createdAtMilliseconds b.
#[export] Instance createdBefore_dec : RelDecision createdBefore.
Proof. intros a b. unfold createdBefore. apply _. Defined.

(** Where a projection lets other tasks go on. *)
Inductive Moment :=
| AfterBegin | AfterProgress
| BeforeBody (side : MessageSide) | AfterBody (side : MessageSide) | AfterPackets (side : MessageSide).

(** The call goes on after an error, which it answers. *)
Definition attempt {S E A} (m : stateful S E A) : stateful S E (option E) := λ s,
  match m s with
  | (s, Ok _) => (s, Ok None)
  | (s, Err e) => (s, Ok (Some e))
  | (s, Panic) => (s, Panic)
  end.

Section projection.
(** The capacity of a formatted string and of a collected vector. *)
Context (formatted : chars → string) (collected : list StreamPacket → vec StreamPacket).
Context (stale_order : gmap chars ActiveProjection → list (chars * ActiveProjection)).

Definition parseTargetAddress (targetAddress : chars) : option (string * Z) :=
  match parse_socket targetAddress with
  | Some address => Some (formatted (ip_to_string (sock_ip address)), sock_port address)
  | None =>
      '(host, portText) ← rsplit_once 58 targetAddress;
      port ← from_str_radix 10 u16_max portText;
      if is_empty host then None else Some (tight host, port)
  end.

Definition methodOf (command : chars) : option chars :=
  if bool_decide (command = lit "connect") then Some (lit "CONNECT")
  else if bool_decide (command = lit "bind") then Some (lit "BIND")
  else if bool_decide (command = lit "udpAssociate") then Some (lit "UDP ASSOCIATE") else None.

Definition schemeOf (protocol : SessionApplicationProtocol) : option chars :=
  match protocol with
  | Tls => Some (lit "https")
  | SessionRegistry.Udp => Some (lit "udp")
  | SessionRegistry.Tcp | Undetermined => Some (lit "tcp")
  | _ => None
  end.

Definition beginTransactionInput (session : SessionSnapshot) : option BeginTransaction :=
  method ← methodOf (sn_command session);
  '(host, port) ← parseTargetAddress (sn_targetAddress session);
  displayScheme ← schemeOf (sn_applicationProtocol session);
  let displayHost :=
    if contains_char 58 (text host) then lit "[" ++ text host ++ lit "]" else text host in
  Some
    {| bt_protocol := CaptureModel.Socks;
       bt_method := tight method;
       bt_location :=
         {| ol_protocol := tight (lit "socks"); ol_host := host; ol_port := port; ol_path := tight [];
            ol_query := tight [];
            ol_display := formatted (displayScheme ++ lit "://" ++ displayHost ++ lit ":" ++ decimal port) |};
       bt_clientAddress := tight (sn_clientAddress session);
       bt_clientProcessName := None;
       bt_clientProcessId := None;
       bt_contentType := tight [];
       bt_startAtMilliseconds := sn_createdAtMilliseconds session |}.

Definition advanceCaptureGeneration (minimumCaptureGeneration : Z) (p : SocksTransactionProjector)
    : SocksTransactionProjector :=
  if minimumCaptureGeneration <=? pj_minimumCaptureGeneration p then p
  else
    let p := set_minimumCaptureGeneration minimumCaptureGeneration p in
    let staleSessionIds :=
      fst <$> filter (λ '(_, projection), ap_captureGeneration projection < pj_minimumCaptureGeneration p)
                (stale_order (pj_active p)) in
    fold_left (λ p sessionId, rememberFinalized sessionId p) staleSessionIds p.

(** ** A projection *)
Context {Session : Type} `{TransactionStore Session}.

Record Projection := {
  wp_projector : SocksTransactionProjector;
  wp_session : Session;
  wp_registry : System
}.
Definition set_projector (v : SocksTransactionProjector) (w : Projection) : Projection :=
  {| wp_projector := v; wp_session := wp_session w; wp_registry := wp_registry w |}.
Definition set_session (v : Session) (w : Projection) : Projection :=
  {| wp_projector := wp_projector w; wp_session := v; wp_registry := wp_registry w |}.
Definition set_registry (v : System) (w : Projection) : Projection :=
  {| wp_projector := wp_projector w; wp_session := wp_session w; wp_registry := v |}.

Definition projecting (A : Type) : Type := stateful Projection CaptureError A.
Definition Surroundings : Type := Moment → Session * System → Session * System.

Definition on_session {A} (m : stateful Session CaptureError A) : projecting A := λ w,
  let '(s, a) := m (wp_session w) in (set_session s w, a).
Definition change_projector (f : SocksTransactionProjector → SocksTransactionProjector) : projecting unit :=
  modify (λ w, set_projector (f (wp_projector w)) w).
Definition change_active (sessionId : chars) (f : ActiveProjection → ActiveProjection) : projecting unit :=
  change_projector (λ p, set_active (alter f sessionId (pj_active p)) p).
Definition others (env : Surroundings) (m : Moment) : projecting unit :=
  modify (λ w, let '(s, r) := env m (wp_session w, wp_registry w) in
    {| wp_projector := wp_projector w; wp_session := s; wp_registry := r |}).

(** What a shared buffer of the snapshot holds at the moment. *)
Definition read_capture {A} (session : SessionSnapshot) (f : SessionCapture → A) : projecting A := λ w,
  match rg_captures (sy_registry (wp_registry w)) !! sn_capture session with
  | Some c => (w, Ok (f c))
  | None => (w, Panic)
  end.

(** One round of the loop of [storeCapturedBodies]. *)
Definition storeCapturedBody (env : Surroundings) (transactionId : chars) (session : SessionSnapshot)
    (side : MessageSide) (previousOriginalBytes : Z) : projecting unit :=
  let originalBytes := bytesOf side session in
  if (originalBytes =? 0) || (originalBytes =? previousOriginalBytes) then mret tt
  else
    packets ← read_capture session (λ c, forDirection (directionOf side) (sc_packets c));
    _ ← others env (BeforeBody side);
    bytes ← read_capture session (λ c, toVec (captured (directionOf side) c));
    let bodyBytes := truncate bytes originalBytes in
    let packets := retainPackets originalBytes (len bodyBytes) 0 packets in
    _ ← on_session (recordBody transactionId side (streamBody bodyBytes originalBytes));
    _ ← others env (AfterBody side);
    _ ← on_session (recordPackets transactionId side (collected (streamPacket <$> packets)));
    others env (AfterPackets side).

Definition storeCapturedBodies (env : Surroundings) (transactionId : chars) (session : SessionSnapshot)
    (capturedByteBaseline : Z * Z) : projecting unit :=
  _ ← storeCapturedBody env transactionId session Request capturedByteBaseline.1;
  storeCapturedBody env transactionId session Response capturedByteBaseline.2.

(** The part of [synchronize] between the progress and the end. *)
Definition flushBodies (env : Surroundings) (session : SessionSnapshot) (transactionId : option chars)
    : projecting unit :=
  p ← gets wp_projector;
  match pj_active p !! sn_sessionId session, transactionId with
  | Some projection, Some transactionId =>
      if shouldFlushCapturedBodies projection session then
        _ ← storeCapturedBodies env transactionId session
              (ap_capturedRequestBytes projection, ap_capturedResponseBytes projection);
        change_active (sn_sessionId session) (flushed session)
      else mret tt
  | _, _ => mret tt
  end.

Definition terminalCompletion (session : SessionSnapshot) : TransactionCompletion :=
  {| tc_statusCode := 0; tc_endAtMilliseconds := terminalTimestamp session; tc_contentType := tight [] |}.
Definition terminalError (session : SessionSnapshot) : TransactionError :=
  {| te_code := tight (lit "socksSessionFailed"); te_messageKey := tight (lit "error.socks.sessionFailed");
     te_params := [(tight (lit "command"), tight (sn_command session))] |}.

(** The part of [synchronize] that ends the transaction. *)
Definition endTransaction (session : SessionSnapshot) (transactionId : option chars) : projecting unit :=
  terminalResult ←
    match transactionId, sn_state session with
    | Some transactionId, Closed => attempt (on_session (recordCommit transactionId (terminalCompletion session)))
    | Some transactionId, Failed =>
        attempt (on_session (recordFail transactionId (terminalError session) (terminalTimestamp session)))
    | _, _ => mret None
    end;
  match terminalResult with
  | Some error =>
      if isDiscardedTransaction error then change_projector (rememberFinalized (sn_sessionId session)) else fail error
  | None => change_projector (rememberFinalized (sn_sessionId session))
  end.

Definition synchronize (env : Surroundings) (session : SessionSnapshot) : projecting unit :=
  p ← gets wp_projector;
  match pj_active p !! sn_sessionId session with
  | None => mret tt
  | Some projection =>
      let transactionId := ap_transactionId projection in
      progressResult ←
        match transactionId with
        | Some transactionId =>
            attempt (on_session (recordProgress transactionId (progressOf projection session)))
        | None => mret None
        end;
      match progressResult with
      | Some error =>
          if isDiscardedTransaction error then change_projector (rememberFinalized (sn_sessionId session)) else fail error
      | None =>
          _ ← others env AfterProgress;
          _ ← change_active (sn_sessionId session) (observed session);
          _ ← flushBodies env session transactionId;
          if negb (isTerminal (sn_state session)) then mret tt else endTransaction session transactionId
      end
  end.

Definition project (env : Surroundings) (session : SessionSnapshot) : projecting unit :=
  let sessionId := sn_sessionId session in
  let leave :=
    if isTerminal (sn_state session) then change_projector (rememberFinalized sessionId) else mret tt in
  p ← gets wp_projector;
  if sn_captureGeneration session <? pj_minimumCaptureGeneration p then
    change_projector (rememberFinalized sessionId)
  else if bool_decide (sessionId ∈ pj_finalized p) then mret tt
  else if negb (projectableTransport session) then leave
  else
    match pj_active p !! sessionId with
    | Some _ => synchronize env session
    | None =>
        match beginTransactionInput session with
        | None => leave
        | Some input =>
            transactionId ← on_session (recordBegin input);
            _ ← others env AfterBegin;
            _ ← change_projector (λ p, set_active (<[sessionId := activated transactionId session]> (pj_active p)) p);
            synchronize env session
        end
    end.

(** ** The forwarder of session events *)
Context (new_session_id : nat → chars)
  (iteration : gmap chars SessionSnapshot → list (chars * SessionSnapshot)).

(** What a projection meets: the other tasks, whether the server still runs, the clock. *)
Record Circumstances := {
  ci_others : Surroundings;
  ci_running : bool;
  ci_now : Z
}.

(** [releaseSocksCapturedBytes]. *)
Definition releaseSocksCapturedBytes (ci : Circumstances) (sessionId : chars) (s : System) : outcome unit System :=
  if ci_running ci then
    transition new_session_id iteration (Start (ReleaseCapturedBytes sessionId)) (ci_now ci) s
  else Ok s.

(** [projectSocksSession]; an error is written to the log only. *)
Definition projectSocksSession (ci : Circumstances) (session : SessionSnapshot) (w : Projection)
    : outcome unit Projection :=
  let generation := rg_captureGeneration (sy_registry (wp_registry w)) in
  let w := set_projector (advanceCaptureGeneration generation (wp_projector w)) w in
  match project (ci_others ci) session w with
  | (_, Panic) => Panic
  | (w, Err _) => Ok w
  | (w, Ok _) =>
      if isTerminal (sn_state session) then
        s ← releaseSocksCapturedBytes ci (sn_sessionId session) (wp_registry w); Ok (set_registry s w)
      else Ok w
  end.

Fixpoint projectEach (sessions : list (SessionSnapshot * Circumstances)) (w : Projection) : outcome unit Projection :=
  match sessions with
  | [] => Ok w
  | (session, ci) :: sessions => w ← projectSocksSession ci session w; projectEach sessions w
  end.

(** [projectSocksSessions]; [cis] is what each projection meets. *)
Definition projectSocksSessions (cis : nat → Circumstances) (sessions : list SessionSnapshot) (w : Projection)
    : outcome unit Projection :=
  projectEach (imap (λ i session, (session, cis i)) (merge_sort createdBefore sessions)) w.

(** What the receiver of the forwarder answers, in either loop; [Elsewhere] stands for what the other
    tasks do while it waits. *)
Inductive RuntimeEvent :=
| SessionEvent (snapshot : SessionSnapshot) (ci : Circumstances)
| Lagged (cis : nat → Circumstances) (running : bool)
| Elsewhere (env : Session * System → Session * System).

Definition currentSocksSessions (running : bool) (s : System) : list SessionSnapshot :=
  if running then snapshots iteration (sy_registry s) else [].

(** The loops of [forwardRuntimeEvents]; the public views they publish are not modelled. *)
Fixpoint forwardEvents (events : list RuntimeEvent) (w : Projection) : outcome unit Projection :=
  match events with
  | [] => Ok w
  | SessionEvent snapshot ci :: events =>
      w ← projectSocksSession ci snapshot w; forwardEvents events w
  | Lagged cis running :: events =>
      w ← projectSocksSessions cis (currentSocksSessions running (wp_registry w)) w;
      forwardEvents events w
  | Elsewhere env :: events =>
      let '(s, r) := env (wp_session w, wp_registry w) in
      forwardEvents events {| wp_projector := wp_projector w; wp_session := s; wp_registry := r |}
  end.

(** [forwardRuntimeEvents], until the channel is closed. *)
Definition forwardRuntimeEvents (historyLimit : Z) (cis : nat → Circumstances) (initialSessions : list SessionSnapshot)
    (events : list RuntimeEvent) (s : Session) (r : System) : outcome unit Projection :=
  w ← projectSocksSessions cis initialSessions
        {| wp_projector := newProjector historyLimit; wp_session := s; wp_registry := r |};
  forwardEvents events w.
End projection.
