(* ===== verification/SocksProjectionTheorems.v ===== *)
(** * One transaction for every session

    What a projection asks of the recording on behalf of a session follows the life of a
    transaction: it is begun once, touched while the session is active and ended once.
    The calls are observed by a recording that keeps a journal of them. *)

From S2P Require Import Prelude NetAddress Stateful Text CaptureModel UdpPersist WireDiff SessionCapture SessionRegistry SocksProjection.

(** ** A recording with a journal *)
Inductive StoreCall :=
| BeginRefused
| Began (transactionId : option chars)
| Touched (transactionId : chars)
| Ended (transactionId : chars).

Definition noted {Session A} (m : stateful Session CaptureError A) (note : outcome CaptureError A → StoreCall)
    : stateful (Session * list StoreCall) CaptureError A :=
  λ '(s, calls), let '(s, a) := m s in ((s, calls ++ [note a]), a).

Definition endOf (transactionId : chars) (a : outcome CaptureError unit) : StoreCall :=
  match a with Ok _ => Ended transactionId | _ => Touched transactionId end.

#[export] Instance journaled {Session} `{TransactionStore Session} : TransactionStore (Session * list StoreCall) :=
  {| recordBegin input := noted (recordBegin input) (λ a, match a with Ok t => Began t | _ => BeginRefused end);
     recordProgress id u := noted (recordProgress id u) (λ _, Touched id);
     recordBody id side body := noted (recordBody id side body) (λ _, Touched id);
     recordPackets id side packets := noted (recordPackets id side packets) (λ _, Touched id);
     recordCommit id completion := noted (recordCommit id completion) (endOf id);
     recordFail id error at_ := noted (recordFail id error at_) (endOf id) |}.

(** ** The life of a session in the recording *)
Inductive Life := Unseen | Projected (transactionId : option chars) | Over.

Definition lifeStep (l : Life) (call : StoreCall) : option Life :=
  match l, call with
  | Unseen, BeginRefused => Some Unseen
  | Unseen, Began transactionId => Some (Projected transactionId)
  | Projected (Some id), Touched id' => if bool_decide (id = id') then Some l else None
  | Projected (Some id), Ended id' => if bool_decide (id = id') then Some Over else None
  | _, _ => None
  end.

Fixpoint lives (l : Life) (calls : list StoreCall) : option Life :=
  match calls with
  | [] => Some l
  | call :: calls => l' ← lifeStep l call; lives l' calls
  end.

Lemma lives_app l calls calls' : lives l (calls ++ calls') = (l' ← lives l calls; lives l' calls').
Proof.
  revert l. induction calls as [|call calls IH]; intros l; [done|]. cbn. destruct (lifeStep l call); [apply IH|done].
Qed.

(** ** The projector *)
Section projector.
Context (limit : Z) (ids : gset chars).
Implicit Types (p : SocksTransactionProjector).

(** The history holds sessions of [ids] once each; a session in it is not active, and the
    active ones are not older than the watermark. *)
Record ProjectorInv p : Prop := {
  pi_limit : pj_historyLimit p = limit;
  pi_order : pj_finalized p = list_to_set (pj_finalizedOrder p);
  pi_nodup : NoDup (pj_finalizedOrder p);
  pi_bound : len (pj_finalizedOrder p) ≤ limit;
  pi_seen : pj_finalized p ⊆ ids;
  pi_active : dom (pj_active p) ⊆ ids;
  pi_apart : dom (pj_active p) ## pj_finalized p;
  pi_generation : ∀ id a, pj_active p !! id = Some a → pj_minimumCaptureGeneration p ≤ ap_captureGeneration a;
}.

Lemma new_projector_inv historyLimit :
  limit = Z.max historyLimit 1 → ProjectorInv (newProjector historyLimit).
Proof. intros ->. split; cbn; try set_solver; try done; [constructor|unfold len; cbn; lia]. Qed.

(** While [ids] fits into the history, nothing is dropped from it. *)
Hypothesis ids_fit : Z.of_nat (size ids) ≤ limit.

Lemma order_fits p id :
  ProjectorInv p → id ∈ ids → id ∉ pj_finalized p → len (pj_finalizedOrder p ++ [id]) ≤ limit.
Proof using ids_fit.
  intros Hp Hid Hnew. rewrite (pi_order _ Hp) in Hnew. rewrite elem_of_list_to_set in Hnew.
  etrans; [|exact ids_fit]. unfold len. apply inj_le.
  rewrite <-(size_list_to_set (C := gset chars)); [apply subseteq_size|].
  - intros x. rewrite elem_of_list_to_set, elem_of_app, list_elem_of_singleton. intros [Hx| ->]; [|done].
    apply (pi_seen _ Hp). rewrite (pi_order _ Hp). by apply elem_of_list_to_set.
  - apply NoDup_app. split_and!; [apply Hp|set_solver|apply NoDup_singleton].
Qed.

(** The session is moved from the active ones to the history. *)
Lemma remember_spec id p :
  ProjectorInv p → id ∈ ids →
  let p' := rememberFinalized id p in
  ProjectorInv p' ∧ pj_active p' = delete id (pj_active p) ∧ pj_finalized p' = {[id]} ∪ pj_finalized p ∧
  pj_minimumCaptureGeneration p' = pj_minimumCaptureGeneration p.
Proof using ids_fit.
  intros Hp Hid. cbv zeta. unfold rememberFinalized. cbv zeta. cbn [pj_finalized set_active].
  assert (Hactive : ∀ id' a, delete id (pj_active p) !! id' = Some a →
    pj_minimumCaptureGeneration p ≤ ap_captureGeneration a).
  { intros id' a [_ Ha]%lookup_delete_Some. by eapply (pi_generation _ Hp). }
  case_bool_decide as Hin.
  - split_and!; [|done|set_solver|done]. destruct Hp. split; cbn; try done; rewrite dom_delete_L; set_solver.
  - pose proof (order_fits _ _ Hp Hid Hin) as Hfits.
    assert (Hexpire : expireFinalized (pj_historyLimit p) (pj_finalizedOrder p ++ [id]) ({[id]} ∪ pj_finalized p) =
      (pj_finalizedOrder p ++ [id], {[id]} ∪ pj_finalized p)).
    { rewrite (pi_limit _ Hp). destruct (pj_finalizedOrder p ++ [id]) as [|x l] eqn:Hl; [by destruct (pj_finalizedOrder p)|].
      cbn [expireFinalized]. rewrite (proj2 (Z.ltb_ge _ _)); [done|exact Hfits]. }
    cbn [pj_historyLimit pj_finalizedOrder set_active]. rewrite Hexpire. split_and!; [|done|done|done].
    destruct Hp as [Hl Ho Hn Hb Hs Ha Hd Hg]. split; cbn; try done.
    + rewrite Ho, list_to_set_app_L. set_solver.
    + apply NoDup_app. split_and!; [done| |apply NoDup_singleton].
      intros x Hx ->%list_elem_of_singleton. apply Hin. rewrite Ho. by apply elem_of_list_to_set.
    + set_solver.
    + rewrite dom_delete_L. set_solver.
    + rewrite dom_delete_L. set_solver.
Qed.

(** ** What a projection leaves of the other sessions *)
(** The projector knows of the session what its life says. *)
Definition Knows (id : chars) (l : Life) p : Prop :=
  match pj_active p !! id with
  | Some a => l = Projected (ap_transactionId a)
  | None => id ∈ pj_finalized p ∨ l = Unseen
  end.

(** A session is only ever forgotten for good. *)
Definition Follows (id : chars) p p' : Prop :=
  ∀ id', id' ≠ id → pj_active p' !! id' = pj_active p !! id' ∧ (id' ∈ pj_finalized p' ↔ id' ∈ pj_finalized p).

Lemma knows_other id id' l p p' : Follows id p p' → id' ≠ id → Knows id' l p → Knows id' l p'.
Proof. intros Hf Hne. destruct (Hf _ Hne) as [Ha Hfi]. unfold Knows. rewrite Ha. destruct (pj_active p !! id'); [done|]. tauto. Qed.

Lemma remember_follows id p : ProjectorInv p → id ∈ ids → Follows id p (rememberFinalized id p).
Proof using ids_fit.
  intros Hp Hid id' Hne. destruct (remember_spec id p Hp Hid) as (_ & Ha & Hf & _). rewrite Ha, Hf.
  split; [by rewrite lookup_delete_ne|set_solver].
Qed.

Lemma remember_knows id l p : ProjectorInv p → id ∈ ids → Knows id l (rememberFinalized id p).
Proof using ids_fit.
  intros Hp Hid. destruct (remember_spec id p Hp Hid) as (_ & Ha & Hf & _). unfold Knows.
  rewrite Ha, lookup_delete_eq, Hf. left. set_solver.
Qed.

(** Forgetting sessions keeps what is known of any. *)
Lemma remember_any_knows id id' l p : ProjectorInv p → id ∈ ids → Knows id' l p → Knows id' l (rememberFinalized id p).
Proof using ids_fit.
  intros Hp Hid Hk. destruct (decide (id' = id)) as [->|Hne]; [by apply remember_knows|].
  eapply knows_other; [by apply remember_follows|done|done].
Qed.

(** A change of the entry of an active session that is not its transaction. *)
Lemma alter_inv id f p :
  (∀ a, ap_transactionId (f a) = ap_transactionId a ∧ ap_captureGeneration (f a) = ap_captureGeneration a) →
  ProjectorInv p →
  let p' := set_active (alter f id (pj_active p)) p in
  ProjectorInv p' ∧ Follows id p p' ∧ ∀ l, Knows id l p → Knows id l p'.
Proof.
  intros Hf Hp. cbv zeta. split_and!.
  - destruct Hp as [Hl Ho Hn Hb Hs Ha Hd Hg]. split; cbn; try done; [by rewrite dom_alter_L..|].
    intros id' a. rewrite lookup_alter_Some. intros [(<- & b & Hb' & ->)|[_ Ha']]; [|by eapply Hg].
    rewrite (proj2 (Hf b)). by eapply Hg.
  - intros id' Hne. cbn. by rewrite lookup_alter_ne.
  - intros l. unfold Knows. cbn. rewrite lookup_alter_eq. destruct (pj_active p !! id) as [a|]; [|done]. cbn.
    intros ->. by rewrite (proj1 (Hf a)).
Qed.

Lemma follows_refl id p : Follows id p p.
Proof. done. Qed.

Lemma follows_trans id p1 p2 p3 : Follows id p1 p2 → Follows id p2 p3 → Follows id p1 p3.
Proof. intros H1 H2 id' Hne. destruct (H1 _ Hne), (H2 _ Hne). split; [congruence|tauto]. Qed.
End projector.

(** ** The calls of a projection *)
Section calls.
Context (formatted : chars → string) (collected : list StreamPacket → vec StreamPacket).
Context {Session : Type} `{TransactionStore Session}.
Context (limit : Z) (ids : gset chars) (ids_fit : Z.of_nat (size ids) ≤ limit).
Abbreviation World := (Projection (Session := Session * list StoreCall)).
Abbreviation Inv w := (ProjectorInv limit ids (wp_projector w)).
Implicit Types (w : World) (env : Surroundings (Session := Session * list StoreCall)).

Definition journal w : list StoreCall := (wp_session w).2.

(** The other tasks do not write the journal. *)
Definition Silent env : Prop := ∀ m s r, (env m (s, r)).1.2 = s.2.

(** From [w] to [w'] the recording was called on behalf of session [id] only, within its
    life. *)
Record Advances (id : chars) w w' : Prop := {
  ad_inv : Inv w';
  ad_follows : Follows id (wp_projector w) (wp_projector w');
  ad_calls : ∃ calls, journal w' = journal w ++ calls ∧
    ∀ l, Knows id l (wp_projector w) → ∃ l', lives l calls = Some l' ∧ Knows id l' (wp_projector w');
}.

Lemma advances_refl id w : Inv w → Advances id w w.
Proof. intros Hw. split; [done..|]. exists []. rewrite app_nil_r. split; [done|]. intros l Hl. by exists l. Qed.

Lemma advances_trans id w1 w2 w3 : Advances id w1 w2 → Advances id w2 w3 → Advances id w1 w3.
Proof.
  intros [_ Hf1 (c1 & Hj1 & Hl1)] [Hi Hf2 (c2 & Hj2 & Hl2)]. split; [done|by eapply follows_trans|].
  exists (c1 ++ c2). split; [by rewrite Hj2, Hj1, app_assoc|]. intros l Hl.
  destruct (Hl1 l Hl) as (l2 & He2 & Hk2). destruct (Hl2 l2 Hk2) as (l3 & He3 & Hk3).
  exists l3. by rewrite lives_app, He2.
Qed.

(** The projector changes without a call. *)
Lemma advances_quiet id w w' :
  Inv w' → journal w' = journal w → Follows id (wp_projector w) (wp_projector w') →
  (∀ l, Knows id l (wp_projector w) → Knows id l (wp_projector w')) → Advances id w w'.
Proof.
  intros Hi Hj Hf Hk. split; [done..|]. exists []. rewrite app_nil_r. split; [done|]. intros l Hl. exists l. auto.
Qed.

(** One call, and the projector as it leaves it. *)
Lemma advances_call id w w' call :
  Inv w' → journal w' = journal w ++ [call] → Follows id (wp_projector w) (wp_projector w') →
  (∀ l, Knows id l (wp_projector w) → ∃ l', lifeStep l call = Some l' ∧ Knows id l' (wp_projector w')) →
  Advances id w w'.
Proof.
  intros Hi Hj Hf Hk. split; [done..|]. exists [call]. split; [done|]. intros l Hl.
  destruct (Hk l Hl) as (l' & Hs & Hl'). exists l'. cbn. by rewrite Hs.
Qed.

(** Session [id] is active with transaction [t]. *)
Definition Active (id : chars) (t : option chars) w : Prop :=
  ∃ a, pj_active (wp_projector w) !! id = Some a ∧ ap_transactionId a = t.

Record Steady (id : chars) (t : option chars) w0 w : Prop := {
  sd_advances : Advances id w0 w;
  sd_active : Active id t w;
}.

(** What is left when a call returns. *)
Definition Leads {A} (m : projecting A) w (P : A → World → Prop) (Q : World → Prop) : Prop :=
  match m w with (w', Ok a) => P a w' | (w', Err _) => Q w' | (_, Panic) => True end.

Lemma leads_bind {A B} (m : projecting A) (k : A → projecting B) w P Q :
  Leads m w (λ a w', Leads (k a) w' P Q) Q → Leads (m ≫= k) w P Q.
Proof. unfold Leads, mbind, stateful_bind. by destruct (m w) as [? []]. Qed.

Lemma leads_mono {A} (m : projecting A) w (P P' : A → World → Prop) (Q Q' : World → Prop) :
  (∀ a w', P a w' → P' a w') → (∀ w', Q w' → Q' w') → Leads m w P Q → Leads m w P' Q'.
Proof. unfold Leads. destruct (m w) as [? []]; auto. Qed.

Section session.
Context (id : chars) (id_in : id ∈ ids).

Lemma steady_inv t w0 w : Steady id t w0 w → Inv w.
Proof. intros [Ha _]. apply Ha. Qed.

(** A call for the transaction of an active session. *)
Lemma touch_leads {A} (m : stateful Session CaptureError A) tid w0 w :
  Steady id (Some tid) w0 w →
  Leads (on_session (noted m (λ _, Touched tid))) w
    (λ _ w', Steady id (Some tid) w0 w') (λ w', Steady id (Some tid) w0 w').
Proof.
  intros [Ha (a & Hact & Ht)]. unfold Leads, on_session, noted. destruct w as [p [s j] r]. cbn [wp_session].
  destruct (m s) as [s' x].
  assert (Steady id (Some tid) w0 (set_session (s', j ++ [Touched tid]) {| wp_projector := p; wp_session := (s, j); wp_registry := r |})).
  { split; [|by exists a]. eapply advances_trans; [exact Ha|]. eapply advances_call; [apply Ha|done|apply follows_refl|].
    intros l Hl. cbn in *. unfold Knows in Hl. rewrite Hact, Ht in Hl. subst l. exists (Projected (Some tid)).
    split; [cbn; by rewrite bool_decide_true|]. unfold Knows. by rewrite Hact, Ht. }
  by destruct x.
Qed.

Lemma others_leads env moment t w0 w :
  Silent env → Steady id t w0 w → Leads (others env moment) w (λ _ w', Steady id t w0 w') (λ _, False).
Proof.
  intros Hs [Ha Hact]. unfold Leads, others, modify. specialize (Hs moment (wp_session w) (wp_registry w)).
  destruct (env moment (wp_session w, wp_registry w)) as [s r]. cbn in Hs. split; [|done].
  eapply advances_trans; [exact Ha|]. apply advances_quiet; [apply Ha|done|apply follows_refl|done].
Qed.

Lemma read_leads {A} (session : SessionSnapshot) (f : SessionCapture → A) w : Leads (read_capture session f) w (λ _ w', w' = w) (λ _, False).
Proof. unfold Leads, read_capture. by destruct (rg_captures _ !! _). Qed.

Lemma change_active_leads f t w0 w :
  (∀ a, ap_transactionId (f a) = ap_transactionId a ∧ ap_captureGeneration (f a) = ap_captureGeneration a) →
  Steady id t w0 w → Leads (change_active id f) w (λ _ w', Steady id t w0 w') (λ _, False).
Proof.
  intros Hf [Ha (a & Hact & Ht)]. unfold Leads, change_active, change_projector, modify.
  destruct (alter_inv limit ids id f (wp_projector w) Hf (ad_inv _ _ _ Ha)) as (Hi & Hfo & Hk). split.
  - eapply advances_trans; [exact Ha|]. by apply advances_quiet.
  - exists (f a). cbn. rewrite lookup_alter_eq, Hact. split; [done|]. by rewrite (proj1 (Hf a)).
Qed.

(** ** The parts of a projection *)
Context (session : SessionSnapshot) (session_id : sn_sessionId session = id).
Context env (env_silent : Silent env).

Lemma storeCapturedBody_leads tid side previous w0 w :
  Steady id (Some tid) w0 w →
  Leads (storeCapturedBody collected env tid session side previous) w
    (λ _ w', Steady id (Some tid) w0 w') (λ w', Steady id (Some tid) w0 w').
Proof using env_silent.
  intros Hw. unfold storeCapturedBody. cbv zeta. case_if Hskip; [done|].
  apply leads_bind. eapply leads_mono, read_leads; [|done]. cbn beta. intros packets _ ->.
  apply leads_bind. eapply leads_mono, others_leads; [|done..]. cbn beta. intros _ w1 H1.
  apply leads_bind. eapply leads_mono, read_leads; [|done]. cbn beta. intros bytes _ ->.
  apply leads_bind. eapply leads_mono, touch_leads, H1; [|done]. cbn beta. intros _ w2 H2.
  apply leads_bind. eapply leads_mono, others_leads; [|done..]. cbn beta. intros _ w3 H3.
  apply leads_bind. eapply leads_mono, touch_leads, H3; [|done]. cbn beta. intros _ w4 H4.
  eapply leads_mono, others_leads; [|done..]. done.
Qed.

Lemma flushBodies_leads t w0 w :
  Steady id t w0 w →
  Leads (flushBodies collected env session t) w (λ _ w', Steady id t w0 w') (λ w', Steady id t w0 w').
Proof using env_silent session_id.
  intros Hw. unfold flushBodies. apply leads_bind. unfold Leads at 1, gets. rewrite session_id.
  destruct (pj_active _ !! id) as [projection|]; [|done]. destruct t as [tid|]; [|done]. case_if Hflush; [|done].
  apply leads_bind. unfold storeCapturedBodies. apply leads_bind.
  eapply leads_mono, storeCapturedBody_leads, Hw; [|done]. cbn beta. intros _ w1 H1.
  eapply leads_mono, storeCapturedBody_leads, H1; [|done]. cbn beta. intros _ w2 H2.
  eapply leads_mono, change_active_leads; [|done|done|exact H2]. done.
Qed.

Lemma remember_leads t w0 w :
  Steady id t w0 w →
  Leads (change_projector (rememberFinalized id)) w (λ _ w', Advances id w0 w') (λ _, False).
Proof using id_in ids_fit.
  intros [Ha _]. unfold Leads, change_projector, modify. pose proof (ad_inv _ _ _ Ha) as Hi.
  eapply advances_trans; [exact Ha|]. apply advances_quiet; [|done|by eapply remember_follows|].
  - by eapply remember_spec.
  - intros l _. by eapply remember_knows.
Qed.

(** The end of a transaction and the history that follows it are one step of its life. *)
Lemma ended_leads (m : stateful Session CaptureError unit) tid w0 w :
  Steady id (Some tid) w0 w →
  Leads
    (terminalResult ← attempt (on_session (noted m (endOf tid)));
     match terminalResult with
     | Some error => if isDiscardedTransaction error then change_projector (rememberFinalized id) else fail error
     | None => change_projector (rememberFinalized id)
     end) w (λ _ w', Advances id w0 w') (λ w', Advances id w0 w').
Proof using id_in ids_fit.
  intros Hw. pose proof (touch_leads m tid w0 w Hw) as Ht. destruct Hw as [Ha (a & Hact & Hid)].
  unfold Leads, mbind, stateful_bind, attempt, on_session, noted in *. destruct w as [p [s j] r]. cbn [wp_session] in *.
  destruct (m s) as [s' [[]|error|]]; cbn [endOf] in *; [| |done].
  - pose proof (ad_inv _ _ _ Ha) as Hi. cbn in Hact. eapply advances_trans; [exact Ha|].
    eapply (advances_call _ _ _ (Ended tid)); [by eapply remember_spec|done|by eapply remember_follows|].
    intros l Hl. unfold Knows in Hl. cbn in Hl. rewrite Hact, Hid in Hl. subst l. exists Over.
    split; [cbn; by rewrite bool_decide_true|by eapply remember_knows].
  - destruct (isDiscardedTransaction error); [|apply Ht].
    eapply (remember_leads (Some tid)), Ht.
Qed.

Lemma endTransaction_leads t w0 w :
  Steady id t w0 w →
  Leads (endTransaction session t) w (λ _ w', Advances id w0 w') (λ w', Advances id w0 w').
Proof using id_in ids_fit session_id.
  intros Hw. unfold endTransaction. rewrite session_id.
  assert (Hremember : Leads (change_projector (rememberFinalized id)) w
    (λ _ w', Advances id w0 w') (λ w', Advances id w0 w')).
  { eapply leads_mono, remember_leads, Hw; done. }
  destruct t as [tid|]; [|exact Hremember].
  destruct (sn_state session); try exact Hremember; by apply ended_leads.
Qed.

Lemma synchronize_leads w0 w :
  Advances id w0 w →
  Leads (synchronize collected env session) w (λ _ w', Advances id w0 w') (λ w', Advances id w0 w').
Proof using id_in ids_fit session_id env_silent.
  intros Ha. unfold synchronize. apply leads_bind. unfold Leads at 1, gets. rewrite session_id.
  destruct (pj_active _ !! id) as [projection|] eqn:Hact; [|done]. set (t := ap_transactionId projection).
  assert (Hw : Steady id t w0 w) by (split; [done|by exists projection]).
  apply leads_bind. eapply (leads_mono _ _ (λ _ w', Steady id t w0 w') _ (λ w', Steady id t w0 w'));
    [|by intros w' []|].
  2: { destruct t as [tid|]; [|done]. pose proof (touch_leads (recordProgress tid (progressOf projection session)) _ _ _ Hw) as Ht.
       unfold Leads, attempt in *. cbn [recordProgress journaled] in *.
       destruct (on_session _ w) as [w1 [[]|error|]]; exact Ht || done. }
  cbn beta. intros [error|] w1 H1.
  { destruct (isDiscardedTransaction error); [|apply H1]. eapply leads_mono, remember_leads, H1; done. }
  apply leads_bind. eapply leads_mono, others_leads; [|done..]. cbn beta. intros _ w2 H2.
  apply leads_bind. eapply leads_mono, change_active_leads; [|done|done|exact H2]. cbn beta. intros _ w3 H3.
  apply leads_bind. eapply leads_mono, flushBodies_leads, H3; [|by intros w' []]. cbn beta. intros _ w4 H4.
  case_if Hend; [apply H4|by eapply endTransaction_leads].
Qed.

(** A session that is not active becomes so with the answer of the recording. *)
Lemma begin_leads input w :
  Inv w → pj_active (wp_projector w) !! id = None → id ∉ pj_finalized (wp_projector w) →
  pj_minimumCaptureGeneration (wp_projector w) ≤ sn_captureGeneration session →
  Leads
    (transactionId ← on_session (recordBegin input);
     _ ← others env AfterBegin;
     _ ← change_projector (λ p, set_active (<[id := activated transactionId session]> (pj_active p)) p);
     synchronize collected env session) w
    (λ _ w', Advances id w w') (λ w', Advances id w w').
Proof using id_in ids_fit session_id env_silent.
  clear formatted. intros Hi Hnone Hnew Hgen. apply leads_bind. unfold Leads at 1, on_session. cbn [recordBegin journaled].
  unfold noted. destruct w as [p [s j] r]. cbn [wp_session wp_projector] in *.
  destruct (recordBegin input s) as [s' [t|error|]]; [| |done].
  2: { eapply (advances_call _ _ _ BeginRefused); [done|done|apply follows_refl|]. intros l Hl. exists l.
       split; [|done]. unfold Knows in Hl. cbn in Hl. rewrite Hnone in Hl. destruct Hl as [?| ->]; done. }
  set (w1 := set_session _ _).
  apply leads_bind. unfold Leads at 1, others, modify. pose proof (env_silent AfterBegin (wp_session w1) (wp_registry w1)) as Hsilent.
  destruct (env AfterBegin (wp_session w1, wp_registry w1)) as [s2 r2]. cbn in Hsilent.
  apply leads_bind. unfold Leads at 1, change_projector, modify.
  apply synchronize_leads. cbn [wp_projector set_projector]. destruct Hi as [Hl Ho Hn Hb Hs Ha Hd Hg]. split.
  - split; cbn; try done; [rewrite dom_insert_L; set_solver..|].
    intros id' a [[<- <-]|[_ Ha']]%lookup_insert_Some; [done|by eapply Hg].
  - intros id' Hne. cbn. by rewrite lookup_insert_ne.
  - exists [Began t]. split; [done|]. intros l Hl'. unfold Knows in Hl'. cbn in Hl'. rewrite Hnone in Hl'.
    destruct Hl' as [?| ->]; [done|]. exists (Projected t). split; [done|]. unfold Knows. cbn. by rewrite lookup_insert_eq.
Qed.

(** A projection keeps to the life of its session. *)
Lemma project_leads w :
  Inv w → Leads (project formatted collected env session) w (λ _ w', Advances id w w') (λ w', Advances id w w').
Proof using id_in ids_fit session_id env_silent.
  intros Hi. pose proof (advances_refl id w Hi) as Hrefl. unfold project. rewrite session_id. cbv zeta.
  assert (Hremember : Leads (change_projector (rememberFinalized id)) w (λ _ w', Advances id w w') (λ w', Advances id w w')).
  { unfold Leads, change_projector, modify. apply advances_quiet; [by eapply remember_spec|done|by eapply remember_follows|].
    intros l _. by eapply remember_knows. }
  apply leads_bind. unfold Leads at 1, gets.
  destruct (_ <? _) eqn:Hage; [exact Hremember|]. apply Z.ltb_ge in Hage.
  case_bool_decide as Hfin; [exact Hrefl|].
  assert (Hleave : Leads (if isTerminal (sn_state session) then change_projector (rememberFinalized id) else mret tt) w
    (λ _ w', Advances id w w') (λ w', Advances id w w')) by (case_if Hend; [exact Hremember|exact Hrefl]).
  destruct (negb _); [exact Hleave|]. destruct (pj_active _ !! id) as [projection|] eqn:Hact.
  - by apply synchronize_leads.
  - destruct (beginTransactionInput formatted session) as [input|]; [|exact Hleave]. by apply begin_leads.
Qed.
End session.

(** ** The forwarder *)
Context (stale_order : gmap chars ActiveProjection → list (chars * ActiveProjection))
  (stale_perm : ∀ m, stale_order m ≡ₚ map_to_list m).
Context (new_session_id : nat → chars)
  (iteration : gmap chars SessionSnapshot → list (chars * SessionSnapshot)).

Lemma forget_all stale p :
  ProjectorInv limit ids p → Forall (λ id, id ∈ ids) stale →
  let p' := fold_left (λ p id, rememberFinalized id p) stale p in
  ProjectorInv limit ids p' ∧ (∀ id l, Knows id l p → Knows id l p') ∧
  (∀ id a, pj_active p' !! id = Some a → pj_active p !! id = Some a ∧ id ∉ stale).
Proof using ids_fit.
  cbv zeta. revert p. induction stale as [|id stale IH]; intros p Hp Hall; cbn [fold_left].
  { split_and!; [done..|]. intros id a Ha. split; [done|apply not_elem_of_nil]. }
  apply Forall_cons in Hall as [Hid Hall]. destruct (remember_spec _ _ ids_fit id p Hp Hid) as (Hp1 & Ha1 & _).
  destruct (IH _ Hp1 Hall) as (Hi & Hk & Ha). split_and!; [done| |].
  - intros id' l Hl. by eapply Hk, remember_any_knows.
  - intros id' a [Hb Hnot]%Ha. rewrite Ha1 in Hb. apply lookup_delete_Some in Hb as [Hne Hb].
    split; [done|]. rewrite elem_of_cons. intros [->|]; done.
Qed.

Lemma remember_minimum g id p :
  rememberFinalized id (set_minimumCaptureGeneration g p) = set_minimumCaptureGeneration g (rememberFinalized id p).
Proof.
  unfold rememberFinalized. cbn. case_bool_decide; [done|]. by destruct (expireFinalized _ _ _).
Qed.

Lemma forget_minimum g stale p :
  fold_left (λ p id, rememberFinalized id p) stale (set_minimumCaptureGeneration g p) =
  set_minimumCaptureGeneration g (fold_left (λ p id, rememberFinalized id p) stale p).
Proof. revert p. induction stale as [|id stale IH]; intros p; [done|]. cbn. by rewrite remember_minimum, IH. Qed.

(** The watermark: older sessions go to the history, the others stay as they are. *)
Lemma advance_spec g p :
  ProjectorInv limit ids p →
  let p' := advanceCaptureGeneration stale_order g p in
  ProjectorInv limit ids p' ∧ (∀ id l, Knows id l p → Knows id l p') ∧
  pj_minimumCaptureGeneration p' = Z.max g (pj_minimumCaptureGeneration p).
Proof using ids_fit stale_perm.
  intros Hp. cbv zeta. unfold advanceCaptureGeneration. case_if Hg; [apply Z.leb_le in Hg; split_and!; [done..|lia]|].
  apply Z.leb_gt in Hg. cbv zeta. cbn [pj_active pj_minimumCaptureGeneration set_minimumCaptureGeneration].
  set (stale := fst <$> _). rewrite forget_minimum.
  assert (Hstale : ∀ id, id ∈ stale ↔ ∃ a, pj_active p !! id = Some a ∧ ap_captureGeneration a < g).
  { intros id. subst stale. rewrite list_elem_of_fmap. split.
    - intros ([id' a] & -> & [Hlt Hin]%list_elem_of_filter). rewrite stale_perm in Hin.
      apply elem_of_map_to_list in Hin. eauto.
    - intros (a & Ha & Hlt). exists (id, a). split; [done|]. apply list_elem_of_filter. split; [done|].
      rewrite stale_perm. by apply elem_of_map_to_list. }
  destruct (forget_all stale p Hp) as (Hi & Hk & Ha).
  { apply Forall_forall. intros id (a & Hact & _)%Hstale. apply (pi_active _ _ _ Hp). by eapply elem_of_dom_2. }
  split_and!.
  - destruct Hi as [Hl Ho Hn Hb Hs Hac Hd Hge]. split; cbn; try done.
    intros id a [Hact Hnot]%Ha. destruct (decide (ap_captureGeneration a < g)); [|lia].
    exfalso. apply Hnot, Hstale. eauto.
  - intros id l Hl. by apply Hk.
  - cbn. lia.
Qed.

(** One projection of the forwarder, with the calls it made for its session. *)
Inductive Move : World → list (chars * StoreCall) → World → Prop :=
| move_project ci session w w' calls :
    Silent (ci_others ci) → sn_sessionId session ∈ ids →
    projectSocksSession formatted collected stale_order new_session_id iteration ci session w = Ok w' →
    journal w' = journal w ++ calls →
    Move w ((sn_sessionId session,.) <$> calls) w'
| move_elsewhere w s r :
    s.2 = journal w → Move w [] {| wp_projector := wp_projector w; wp_session := s; wp_registry := r |}.

Inductive Moves : World → list (chars * StoreCall) → World → Prop :=
| moves_done w : Moves w [] w
| moves_more w1 w2 w3 log log' : Move w1 log w2 → Moves w2 log' w3 → Moves w1 (log ++ log') w3.

Definition callsFor (id : chars) (log : list (chars * StoreCall)) : list StoreCall :=
  snd <$> filter (λ entry, entry.1 = id) log.

Lemma callsFor_app id log log' : callsFor id (log ++ log') = callsFor id log ++ callsFor id log'.
Proof. unfold callsFor. by rewrite filter_app, fmap_app. Qed.

Lemma callsFor_own id calls : callsFor id ((id,.) <$> calls) = calls.
Proof.
  unfold callsFor. induction calls as [|call calls IH]; [done|]. cbn [fmap list_fmap].
  rewrite filter_cons_True by done. cbn [fmap list_fmap snd]. by rewrite IH.
Qed.

Lemma callsFor_other id id' calls : id' ≠ id → callsFor id ((id',.) <$> calls) = [].
Proof.
  intros Hne. unfold callsFor. induction calls as [|call calls IH]; [done|]. cbn [fmap list_fmap].
  by rewrite filter_cons_False by done.
Qed.

(** What one projection of the forwarder adds to the lives of the sessions. *)
Lemma project_advances ci session w w' :
  Silent (ci_others ci) → sn_sessionId session ∈ ids →
  projectSocksSession formatted collected stale_order new_session_id iteration ci session w = Ok w' → Inv w →
  Inv w' ∧ ∃ calls, journal w' = journal w ++ calls ∧
    ∀ id l, Knows id l (wp_projector w) →
      ∃ l', lives l (callsFor id ((sn_sessionId session,.) <$> calls)) = Some l' ∧ Knows id l' (wp_projector w').
Proof using ids_fit stale_perm.
  intros Hs Hid Heq Hi. unfold projectSocksSession in Heq. cbv zeta in Heq. set (wa := set_projector _ w) in Heq.
  destruct (advance_spec (rg_captureGeneration (sy_registry (wp_registry w))) (wp_projector w) Hi) as (Hia & Hka & _).
  change (advanceCaptureGeneration _ _ _) with (wp_projector wa) in Hia, Hka.
  pose proof (project_leads (sn_sessionId session) Hid session eq_refl (ci_others ci) Hs wa Hia) as Hp.
  assert (∃ w2, Advances (sn_sessionId session) wa w2 ∧ wp_projector w' = wp_projector w2 ∧ journal w' = journal w2)
    as (w2 & [Hi2 Hf2 (calls & Hj2 & Hl2)] & Hp2 & Hj1).
  { unfold Leads in Hp. destruct (project _ _ _ _ wa) as [w2 [[]|error|]]; [|injection Heq as <-; eauto|done].
    exists w2. split; [done|]. destruct (isTerminal (sn_state session)); [|injection Heq as <-; done].
    apply bind_Ok_inv in Heq as (s & _ & [= <-]). done. }
  rewrite Hp2. split; [done|]. exists calls. split; [by rewrite Hj1|]. intros id l Hl.
  destruct (decide (id = sn_sessionId session)) as [->|Hne]; [rewrite callsFor_own; auto|].
  rewrite callsFor_other by done. exists l. split; [done|]. eapply knows_other; [exact Hf2|done|auto].
Qed.

(** The life of every session goes on with each move. *)
Lemma move_lives w log w' :
  Move w log w' → Inv w →
  Inv w' ∧ ∀ id l, Knows id l (wp_projector w) → ∃ l', lives l (callsFor id log) = Some l' ∧ Knows id l' (wp_projector w').
Proof using ids_fit stale_perm.
  intros [ci session w0 w1 calls Hs Hid Heq Hj|w0 s r Hj] Hi.
  - destruct (project_advances _ _ _ _ Hs Hid Heq Hi) as (Hi1 & calls' & Hj' & Hl).
    assert (calls' = calls) as -> by (apply (app_inv_head (journal w0)); congruence). done.
  - split; [done|]. intros id l Hl. by exists l.
Qed.

Lemma moves_live w log w' :
  Moves w log w' → Inv w → ∀ id l, Knows id l (wp_projector w) → is_Some (lives l (callsFor id log)).
Proof using ids_fit stale_perm.
  induction 1 as [w|w1 w2 w3 log log' H1 _ IH]; intros Hi id l Hl; [by exists l|].
  destruct (move_lives _ _ _ H1 Hi) as [Hi2 Hk]. destruct (Hk id l Hl) as (l' & He & Hl').
  rewrite callsFor_app, lives_app, He. by apply IH.
Qed.

(** *** The loop of the forwarder *)
(** The other tasks do not write the journal, and the sessions the forwarder meets are
    in [ids]. *)
Fixpoint Served (events : list (RuntimeEvent (Session := Session * list StoreCall))) w : Prop :=
  match events with
  | [] => True
  | SessionEvent snapshot ci :: events =>
      Silent (ci_others ci) ∧ sn_sessionId snapshot ∈ ids ∧
      ∀ w', projectSocksSession formatted collected stale_order new_session_id iteration ci snapshot w = Ok w' →
        Served events w'
  | Lagged cis running :: events =>
      let current := currentSocksSessions iteration running (wp_registry w) in
      (∀ i, Silent (ci_others (cis i))) ∧ Forall (λ x, sn_sessionId x ∈ ids) current ∧
      ∀ w', projectSocksSessions formatted collected stale_order new_session_id iteration cis current w = Ok w' →
        Served events w'
  | Elsewhere env :: events =>
      let '(s, r) := env (wp_session w, wp_registry w) in
      s.2 = journal w ∧ Served events {| wp_projector := wp_projector w; wp_session := s; wp_registry := r |}
  end.

(** The moves that lead from [w] to [w'], and what they wrote. *)
Definition Led w w' : Prop := ∃ log, Moves w log w' ∧ journal w' = journal w ++ log.*2.

Lemma led_refl w : Led w w.
Proof. exists []. split; [constructor|]. by rewrite app_nil_r. Qed.

Lemma led_more w1 log w2 w3 : Move w1 log w2 → journal w2 = journal w1 ++ log.*2 → Led w2 w3 → Led w1 w3.
Proof.
  intros Hm Hj (log' & Hms & Hj'). exists (log ++ log'). split; [by eapply moves_more|]. by rewrite Hj', Hj, fmap_app, app_assoc.
Qed.

Lemma led_trans w1 w2 w3 : Led w1 w2 → Led w2 w3 → Led w1 w3.
Proof.
  intros (log & Hms & Hj) (log' & Hms' & Hj'). exists (log ++ log'). split; [|by rewrite Hj', Hj, fmap_app, app_assoc].
  clear Hj Hj'. induction Hms as [w|wa wb wc l1 l2 Hm _ IH]; [done|]. rewrite <-app_assoc. eapply moves_more; eauto.
Qed.

Lemma led_project ci session w w' :
  Silent (ci_others ci) → sn_sessionId session ∈ ids →
  projectSocksSession formatted collected stale_order new_session_id iteration ci session w = Ok w' → Inv w →
  Inv w' ∧ Led w w'.
Proof using ids_fit stale_perm.
  intros Hs Hid Heq Hi. destruct (project_advances _ _ _ _ Hs Hid Heq Hi) as (Hi' & calls & Hj & _). split; [done|].
  eapply led_more, led_refl; [by eapply move_project|]. rewrite Hj. f_equal. rewrite <-list_fmap_compose.
  symmetry. apply list_fmap_id.
Qed.

Lemma led_each sessions w w' :
  Forall (λ '(x, ci), Silent (ci_others ci) ∧ sn_sessionId x ∈ ids) sessions →
  projectEach formatted collected stale_order new_session_id iteration sessions w = Ok w' → Inv w → Inv w' ∧ Led w w'.
Proof using ids_fit stale_perm.
  intros Hall. revert w. induction Hall as [|[x ci] sessions [Hs Hid] _ IH]; intros w Heq Hi; cbn [projectEach] in Heq.
  { injection Heq as <-. split; [done|apply led_refl]. }
  apply bind_Ok_inv in Heq as (w1 & H1 & Heq). destruct (led_project _ _ _ _ Hs Hid H1 Hi) as [Hi1 Hl1].
  destruct (IH _ Heq Hi1) as [Hi2 Hl2]. split; [done|by eapply led_trans].
Qed.

Lemma led_all cis sessions w w' :
  (∀ i, Silent (ci_others (cis i))) → Forall (λ x, sn_sessionId x ∈ ids) sessions →
  projectSocksSessions formatted collected stale_order new_session_id iteration cis sessions w = Ok w' → Inv w →
  Inv w' ∧ Led w w'.
Proof using ids_fit stale_perm.
  intros Hq Hids. apply led_each, Forall_forall. intros [x ci] (i & y & [= -> ->] & Hy)%elem_of_lookup_imap.
  split; [apply Hq|]. rewrite Forall_forall in Hids. apply Hids. apply list_elem_of_lookup_2 in Hy.
  by rewrite merge_sort_Permutation in Hy.
Qed.

Lemma forward_led events w w' :
  Served events w →
  forwardEvents formatted collected stale_order new_session_id iteration events w = Ok w' → Inv w → Led w w'.
Proof using ids_fit stale_perm.
  revert w. induction events as [|[snapshot ci|cis running|env] events IH]; intros w Hs Heq Hi;
    cbn [forwardEvents] in Heq; cbn [Served] in Hs.
  - injection Heq as <-. apply led_refl.
  - destruct Hs as (Hq & Hid & Hs). apply bind_Ok_inv in Heq as (w1 & H1 & Heq).
    destruct (led_project _ _ _ _ Hq Hid H1 Hi) as [Hi1 Hl]. eapply led_trans; [exact Hl|]. eauto.
  - destruct Hs as (Hq & Hids & Hs). apply bind_Ok_inv in Heq as (w1 & H1 & Heq).
    destruct (led_all _ _ _ _ Hq Hids H1 Hi) as [Hi1 Hl]. eapply led_trans; [exact Hl|]. eauto.
  - destruct (env (wp_session w, wp_registry w)) as [s r]. destruct Hs as [Hj Hs].
    eapply led_more; [by eapply move_elsewhere|cbn; by rewrite app_nil_r|]. by apply IH.
Qed.

(** C13: As long as the sessions fit into the history, whatever events the forwarder gets in
    whatever order, repeated and late ones included, whatever the recording answers and
    whatever other tasks do: the calls of its recording belong to the projections in turn,
    and on behalf of each session at most one transaction is begun after refusals, only this
    transaction is touched, and nothing follows its end. *)
Theorem session_recorded_once historyLimit cis initialSessions events s r w' :
  limit = Z.max historyLimit 1 → (∀ i, Silent (ci_others (cis i))) →
  Forall (λ x, sn_sessionId x ∈ ids) initialSessions →
  let w := {| wp_projector := newProjector historyLimit; wp_session := s; wp_registry := r |} in
  (∀ w1, projectSocksSessions formatted collected stale_order new_session_id iteration cis initialSessions w = Ok w1 →
     Served events w1) →
  forwardRuntimeEvents formatted collected stale_order new_session_id iteration historyLimit cis initialSessions events
    s r = Ok w' →
  ∃ log, Moves w log w' ∧ journal w' = journal w ++ log.*2 ∧ ∀ id, is_Some (lives Unseen (callsFor id log)).
Proof using ids_fit stale_perm.
  intros Hlimit Hq Hids w Hs Heq. assert (Hi : Inv w) by by apply new_projector_inv.
  apply bind_Ok_inv in Heq as (w1 & H1 & Heq). destruct (led_all _ _ _ _ Hq Hids H1 Hi) as [Hi1 Hl].
  destruct (led_trans _ _ _ Hl (forward_led _ _ _ (Hs _ H1) Heq Hi1)) as (log & Hm & Hj). exists log. split_and!; [done..|].
  intros id. eapply moves_live; [exact Hm|done|by right].
Qed.
End calls.
