(* ===== verification/StreamTraces.v ===== *)
(** * The captured streams of SOCKS sessions

    The counts of a snapshot are boundaries between the packets of its captured streams.
    While the budget of the registry lasts, this holds of every snapshot anybody has, and
    the streams only grow while somebody has it; what a projection reads of them is then
    fixed by the snapshot, whenever it reads. *)

From S2P Require Import Prelude NetAddress Stateful Text CaptureModel UdpPersist WireDiff SessionCapture SessionRegistry SessionRegistryInvariant SessionRegistryTheorems SocksProjection.

(** ** What a snapshot counts *)
(** The stream of one side. *)
Definition streamOf (side : MessageSide) (c : SessionCapture) : list Z := toVec (captured (directionOf side) c).
Definition packetsOf (side : MessageSide) (c : SessionCapture) : list CapturedPacket :=
  forDirection (directionOf side) (sc_packets c).

(** The first [n] bytes of the stream are the first packets, each recorded in full. *)
Definition Boundary (side : MessageSide) (n : Z) (c : SessionCapture) (k : nat) : Prop :=
  n = sum_by cp_storedBytes (take k (packetsOf side c)) ∧
  Forall (λ p, cp_originalBytes p = cp_storedBytes p) (take k (packetsOf side c)).

(** The counts of the snapshot are such boundaries: nothing was lost to the budget. *)
Definition Traced (session : SessionSnapshot) (c : SessionCapture) : Prop :=
  ∀ side, ∃ k, Boundary side (bytesOf side session) c k.

(** Streams only grow. *)
Record Grows (c c' : SessionCapture) : Prop := {
  gr_ok : CaptureOk c';
  gr_stream : ∀ side, ∃ more, streamOf side c' = streamOf side c ++ more;
  gr_packets : ∀ side, ∃ more, packetsOf side c' = packetsOf side c ++ more;
}.

Lemma grows_refl c : CaptureOk c → Grows c c.
Proof. intros Hc. split; [done|..]; intros side; exists []; by rewrite app_nil_r. Qed.

Lemma grows_trans c1 c2 c3 : Grows c1 c2 → Grows c2 c3 → Grows c1 c3.
Proof.
  intros [_ Hs1 Hp1] [Hok Hs2 Hp2]. split; [done|..]; intros side.
  - destruct (Hs1 side) as [m1 Hm1], (Hs2 side) as [m2 Hm2]. exists (m1 ++ m2). by rewrite Hm2, Hm1, app_assoc.
  - destruct (Hp1 side) as [m1 Hm1], (Hp2 side) as [m2 Hm2]. exists (m1 ++ m2). by rewrite Hm2, Hm1, app_assoc.
Qed.

(** ** The packets of an event *)
Lemma tile_fails ps : fold_left tile ps None = None.
Proof. induction ps; by cbn. Qed.

(** A packet of a tiling, and the tiling after it. *)
Lemma tile_cons p ps offset sequence last :
  fold_left tile (p :: ps) (Some (offset, sequence)) = Some last →
  cp_storedOffsetBytes p = offset ∧ 0 < cp_storedBytes p ≤ cp_originalBytes p ∧
  fold_left tile ps (Some (offset + cp_storedBytes p, saturating_add sequence 1)) = Some last.
Proof.
  cbn [fold_left]. unfold tile at 2. cbn [mbind option_bind]. case_if Hp; [|by rewrite tile_fails].
  rewrite !andb_true_iff, Z.eqb_eq, Z.ltb_lt, Z.leb_le in Hp. intros Hl. split_and!; [tauto..|done].
Qed.

Lemma tile_offset ps offset sequence length sequence' :
  fold_left tile ps (Some (offset, sequence)) = Some (length, sequence') →
  length = offset + sum_by cp_storedBytes ps ∧ 0 ≤ sum_by cp_storedBytes ps.
Proof.
  revert offset sequence. induction ps as [|p ps IH]; intros offset sequence; [intros [= -> _]; unfold sum_by; cbn [foldr]; lia|].
  intros (_ & Hpos & Hl)%tile_cons. apply IH in Hl as [-> ?].
  change (sum_by cp_storedBytes (p :: ps)) with (cp_storedBytes p + sum_by cp_storedBytes ps). lia.
Qed.

(** Later packets are not within the body. *)
Lemma retain_none n observed ps offset sequence last :
  n ≤ offset → fold_left tile ps (Some (offset, sequence)) = Some last → retainPackets n n observed ps = [].
Proof.
  revert observed offset sequence. induction ps as [|p ps IH]; intros observed offset sequence Hn; [done|].
  intros (Hoff & Hpos & Hl)%tile_cons. cbn [retainPackets].
  rewrite (λ o, IH o (offset + cp_storedBytes p) _ ltac:(lia) Hl). unfold checked_add.
  case_if Hr; [|done]. exfalso. apply andb_true_iff in Hr as [_ Hr]. revert Hr.
  case_if Hmax; cbn; [|done]. intros ?%Z.leb_le. lia.
Qed.

(** The first packets are kept. *)
Lemma retain_front n ps k offset sequence length sequence' :
  0 ≤ offset → length ≤ usize_max →
  fold_left tile ps (Some (offset, sequence)) = Some (length, sequence') →
  n = offset + sum_by cp_storedBytes (take k ps) →
  Forall (λ p, cp_originalBytes p = cp_storedBytes p) (take k ps) →
  retainPackets n n offset ps = take k ps.
Proof.
  intros Ho Hmax. revert offset sequence Ho ps. induction k as [|k IH]; intros offset sequence Ho ps Hl Hn Hall.
  { rewrite take_0 in *. cbn in Hn. eapply retain_none, Hl. lia. }
  destruct ps as [|p ps]; [done|]. pose proof (tile_cons _ _ _ _ _ Hl) as (Hoff & Hpos & Hl').
  cbn [take] in Hn, Hall |- *. apply Forall_cons in Hall as [Horig Hall].
  change (sum_by cp_storedBytes (p :: ?l)) with (cp_storedBytes p + sum_by cp_storedBytes l) in Hn.
  assert (Hrest : 0 ≤ sum_by cp_storedBytes (take k ps)).
  { rewrite <-(take_drop k ps), fold_left_app in Hl'.
    destruct (fold_left tile (take k ps) _) as [[l' s']|] eqn:Ht; [|by rewrite tile_fails in Hl'].
    by apply tile_offset in Ht as [_ ?]. }
  assert (Hbound : n ≤ length).
  { rewrite <-(take_drop k ps), fold_left_app in Hl'.
    destruct (fold_left tile (take k ps) _) as [[l' s']|] eqn:Ht; [|by rewrite tile_fails in Hl'].
    apply tile_offset in Ht as [-> _]. apply tile_offset in Hl' as [-> ?]. lia. }
  assert (Hobs : saturating_add offset (cp_originalBytes p) = offset + cp_storedBytes p).
  { unfold saturating_add. rewrite Horig. unfold usize_max, u64_max in *. lia. }
  cbn [retainPackets]. rewrite Hobs, (IH (offset + cp_storedBytes p) _ ltac:(lia) ps Hl' ltac:(lia) Hall).
  unfold checked_add. rewrite Hoff. rewrite (proj2 (Z.leb_le (offset + _) usize_max)) by lia. cbn.
  by rewrite !(proj2 (Z.leb_le _ _)) by lia.
Qed.

(** All packets end within [bound], so the stream does. *)
Lemma tile_within bound ps offset sequence length sequence' :
  offset ≤ bound → fold_left tile ps (Some (offset, sequence)) = Some (length, sequence') →
  Forall (λ p, cp_storedOffsetBytes p + cp_storedBytes p ≤ bound) ps → length ≤ bound.
Proof.
  revert offset sequence. induction ps as [|p ps IH]; intros offset sequence Ho; [by intros [= <- _]|].
  intros (Hoff & _ & Hl)%tile_cons [Hp Hall]%Forall_cons. eapply IH, Hall; [|exact Hl]. lia.
Qed.

Section stream.
Context (side : MessageSide) (c : SessionCapture) (c_ok : CaptureOk c) (n : Z) (k : nat) (boundary : Boundary side n c k).

Lemma stream_length : cb_length (captured (directionOf side) c) = len (streamOf side c) ∧ len (streamOf side c) ≤ usize_max.
Proof using c_ok.
  destruct c_ok as [Hb Hr _]. pose proof (bk_length _ (Hb (directionOf side))) as Hl.
  pose proof (buffer_length_le _ (Hb (directionOf side))). pose proof (Hr (directionOf side)).
  unfold streamOf. lia.
Qed.

Lemma stream_tiled : ∃ sequence, fold_left tile (packetsOf side c) (Some (0, 1)) = Some (len (streamOf side c), sequence).
Proof using c_ok.
  destruct stream_length as [Hl _]. exists (nextSequence (directionOf side) (sc_packets c)).
  pose proof (cp_tiled _ c_ok (directionOf side)) as Ht. unfold Tiled in Ht. by rewrite Hl in Ht.
Qed.

Lemma front_tiled : ∃ sequence, fold_left tile (take k (packetsOf side c)) (Some (0, 1)) = Some (n, sequence).
Proof using c_ok boundary.
  destruct stream_tiled as [last Ht]. rewrite <-(take_drop k (packetsOf side c)), fold_left_app in Ht.
  destruct (fold_left tile (take k _) _) as [[l sequence]|] eqn:Hf; [|by rewrite tile_fails in Ht].
  exists sequence. destruct boundary as [-> _]. by apply tile_offset in Hf as [-> _].
Qed.

Lemma boundary_range : 0 ≤ n ≤ len (streamOf side c).
Proof using c_ok boundary.
  destruct stream_tiled as [last Ht], front_tiled as [sequence Hf].
  rewrite <-(take_drop k (packetsOf side c)), fold_left_app, Hf in Ht.
  apply tile_offset in Hf as [? ?]. apply tile_offset in Ht as [? ?]. lia.
Qed.

(** What is read of a stream that has grown. *)
Lemma truncate_stream c' : Grows c c' → truncate (streamOf side c') n = slice (streamOf side c) 0 n.
Proof using c_ok boundary.
  intros [_ Hs _]. destruct (Hs side) as [more ->]. pose proof boundary_range. unfold truncate. rewrite len_app.
  pose proof (len_nonneg more). case_if Hlt.
  - unfold slice. rewrite !drop_0, take_app_le; [done|]. unfold len in *. lia.
  - apply Z.ltb_ge in Hlt. assert (len more = 0) as Hz by lia. apply len_nil_inv in Hz as ->.
    rewrite app_nil_r. replace n with (len (streamOf side c)) by lia. by rewrite slice_full.
Qed.

(** The packets that are kept of those read, whatever was appended since the snapshot. *)
Lemma retain_stream c' : Grows c c' → retainPackets n n 0 (packetsOf side c') = take k (packetsOf side c).
Proof using c_ok boundary.
  intros Hg. destruct (gr_packets _ _ Hg side) as [more Hmore].
  destruct Hg as [Hok' _ _]. destruct front_tiled as [sequence Hf]. pose proof boundary_range as Hrange.
  assert (Hk : packetsOf side c' = take k (packetsOf side c) ++ (drop k (packetsOf side c) ++ more)).
  { by rewrite Hmore, app_assoc, take_drop. }
  assert (Htake : take (length (take k (packetsOf side c))) (packetsOf side c') = take k (packetsOf side c)).
  { by rewrite Hk, take_app_length. }
  destruct boundary as [Hn Hall]. rewrite <-Htake in Hn, Hall |- *.
  pose proof (cp_tiled _ Hok' (directionOf side)) as Ht. unfold Tiled in Ht. fold (packetsOf side c') in Ht.
  eapply retain_front; [done| |exact Ht|exact Hn|exact Hall].
  destruct Hok' as [Hb Hr _]. pose proof (buffer_length_le _ (Hb (directionOf side))). specialize (Hr (directionOf side)). lia.
Qed.
End stream.

Lemma traced_grows x c c' : Grows c c' → Traced x c → Traced x c'.
Proof.
  intros Hg Ht side. destruct (Ht side) as [k [Hn Hall]], (gr_packets _ _ Hg side) as [more Hmore].
  exists (k `min` length (packetsOf side c))%nat. unfold Boundary.
  rewrite Hmore, take_app_le, <-take_take, (take_ge (packetsOf side c)) by lia. done.
Qed.

(** ** Every snapshot is traced while the budget lasts *)
(** All packets of the capture are in full, and the snapshot counts all of them. *)
Definition FullyTraced (x : SessionSnapshot) (c : SessionCapture) : Prop :=
  ∀ side, Boundary side (bytesOf side x) c (length (packetsOf side c)).

(** The capture still takes payloads: it was not given up. *)
Definition Budgeted (c : SessionCapture) : Prop := ∀ direction, cb_budgeted (captured direction c) = true.

Lemma fully_traced x c : FullyTraced x c → Traced x c.
Proof. intros Hf side. eexists. apply Hf. Qed.

Lemma directionOf_surjective direction : ∃ side, directionOf side = direction.
Proof. destruct direction; [by exists Request|by exists Response]. Qed.

Lemma recorded_grows direction payload modifications now c c' b' n :
  CaptureOk c' → Recorded direction payload modifications now c c' b' n → Grows c c'.
Proof.
  intros Hok [_ Hb Hoth Hp _ _ _]. split; [done|..]; intros side.
  - unfold streamOf. destruct (decide (directionOf side = direction)) as [<-|Hne]; [eauto|].
    rewrite Hoth by done. exists []. by rewrite app_nil_r.
  - unfold packetsOf. rewrite Hp. unfold appendPacket. case_if Hz; [exists []; by rewrite app_nil_r|].
    unfold forDirection. cbn [ps_packets]. rewrite filter_app. eauto.
Qed.

(** A payload recorded in full. *)
Lemma recorded_traced direction payload modifications now x c c' b' :
  CaptureOk c' → payload ≠ [] → FullyTraced x c →
  Recorded direction payload modifications now c c' b' (len payload) →
  FullyTraced (counted direction (len payload) now x) c'.
Proof.
  intros Hok Hne Hf Hrec side. pose proof (recorded_grows _ _ _ _ _ _ _ _ Hok Hrec) as Hgrow.
  destruct Hrec as [_ _ _ Hp _ _ _]. destruct (Hf side) as [Hn Hall]. rewrite take_ge in Hn, Hall by done.
  assert (Hpos : len payload ≠ 0) by by intros ?%len_nil_inv. pose proof (len_nonneg payload).
  destruct (stream_length side c' Hok) as [_ Hmax]. unfold Boundary. rewrite (take_ge (packetsOf side c')) by done.
  assert (Hpackets : packetsOf side c' = packetsOf side c ++
    (if decide (direction = directionOf side) then
       [{| cp_direction := direction; cp_sequence := nextSequence direction (sc_packets c); cp_capturedAtMilliseconds := now;
           cp_storedOffsetBytes := cb_length (captured direction c); cp_storedBytes := len payload;
           cp_originalBytes := len payload; cp_modifications := modifications |}] else [])).
  { unfold packetsOf. rewrite Hp. unfold appendPacket. cbn [pw_storedBytes]. rewrite (proj2 (Z.eqb_neq _ _)) by done.
    unfold forDirection. cbn [ps_packets]. by rewrite filter_app. }
  rewrite Hpackets, sum_by_app, <-Hn. split; [|apply Forall_app; split; [done|case_decide; by repeat constructor]].
  destruct (stream_tiled side c' Hok) as [last Htile]. apply tile_offset in Htile as [Hlast _].
  rewrite Hpackets, sum_by_app, <-Hn in Hlast. unfold sum_by in Hlast |- *.
  case_decide as Hd; cbn [foldr cp_storedBytes] in *.
  - destruct side; subst direction; cbn in *; unfold saturating_add, usize_max in *; lia.
  - destruct side, direction; cbn in *; try done; lia.
Qed.

Section traces.
Context (new_session_id : nat → chars) {id_inj : Inj (=) (=) new_session_id}
  (iteration : gmap chars SessionSnapshot → list (chars * SessionSnapshot))
  (iteration_perm : ∀ m, iteration m ≡ₚ map_to_list m).

Abbreviation RegistryInv := (RegistryInv new_session_id).

(** The snapshots of the registry count everything, those of the [others] what was there. *)
Record TraceInv (r : Registry) (others : list SessionSnapshot) : Prop := {
  ti_sessions : ∀ id x c, rg_sessions r !! id = Some x → rg_captures r !! sn_capture x = Some c → Budgeted c →
    FullyTraced x c;
  ti_others : ∀ x c, x ∈ others → rg_captures r !! sn_capture x = Some c → Budgeted c → Traced x c;
}.

(** Captures that are there stay and grow. *)
Definition Growing (r r' : Registry) : Prop :=
  ∀ k c, rg_captures r !! k = Some c → ∃ c', rg_captures r' !! k = Some c' ∧ Grows c c' ∧
    (Budgeted c' → Budgeted c).

Definition Room (b : CapturedBytesBudget) : Prop := bu_usedBytes b < bu_maximumBytes b.

(** What a critical section leaves. *)
Record Traces (r : Registry) (others : list SessionSnapshot) (result : Registry * list Action) : Prop := {
  tr_inv : Room (rg_budget result.1) → TraceInv r others → TraceInv result.1 (shown result.2 ++ others);
  tr_growing : Growing r result.1;
}.

Lemma growing_same r r' others p :
  RegistryInv r others p → (∀ k c, rg_captures r !! k = Some c → rg_captures r' !! k = Some c) → Growing r r'.
Proof. intros Hi Hsame k c Hc. exists c. split_and!; [auto|apply grows_refl; by eapply (ri_captures _ _ _ _ Hi)|done]. Qed.

Lemma growing_trans r1 r2 r3 : Growing r1 r2 → Growing r2 r3 → Growing r1 r3.
Proof.
  intros H1 H2 k c Hc. destruct (H1 _ _ Hc) as (c2 & Hc2 & Hg2 & Hb2), (H2 _ _ Hc2) as (c3 & Hc3 & Hg3 & Hb3).
  exists c3. split_and!; [done|by eapply grows_trans|auto].
Qed.

(** The general step: sessions that keep their counts and capture, or have a new one. *)
Lemma trace_step r r' others p actions :
  RegistryInv r others p → Growing r r' →
  (∀ id x', rg_sessions r' !! id = Some x' →
     (∃ x, rg_sessions r !! id = Some x ∧ sn_capture x' = sn_capture x ∧
        (∀ side, bytesOf side x' = bytesOf side x) ∧ rg_captures r' !! sn_capture x = rg_captures r !! sn_capture x) ∨
     (∀ c, rg_captures r' !! sn_capture x' = Some c → Budgeted c → FullyTraced x' c)) →
  (∀ x, x ∈ shown actions → ∃ id, rg_sessions r' !! id = Some x) →
  Traces r others (r', actions).
Proof.
  intros Hi Hg Hsessions Hshown. split; [|done]. intros _ [Hs Ho].
  assert (Hs' : ∀ id x c, rg_sessions r' !! id = Some x → rg_captures r' !! sn_capture x = Some c → Budgeted c →
    FullyTraced x c).
  { intros id x' c Hx' Hc Hb. destruct (Hsessions _ _ Hx') as [(x & Hx & Hcap & Hn & Hsame)|]; [|by auto].
    intros side. rewrite Hn. rewrite Hcap, Hsame in Hc. by apply (Hs _ _ _ Hx Hc Hb). }
  split; [done|]. cbn [fst snd]. intros x c [Hx|Hx]%elem_of_app Hc Hb.
  - destruct (Hshown x Hx) as [id Hid]. eapply fully_traced, Hs'; done.
  - destruct (ri_others _ _ _ _ Hi x Hx) as [c0 Hc0]. destruct (Hg _ _ Hc0) as (c' & Hc' & Hgr & Hbud).
    assert (c' = c) as -> by congruence. eapply traced_grows; [exact Hgr|]. apply Ho; auto.
Qed.

(** Sessions may also go, as long as nothing else changes. *)
Lemma trace_subset r r' others p :
  RegistryInv r others p → rg_captures r' = rg_captures r →
  (∀ id x, rg_sessions r' !! id = Some x → rg_sessions r !! id = Some x) → Traces r others (r', []).
Proof.
  intros Hi Hc Hsub. eapply trace_step; [done| | |by intros ? ?%elem_of_nil].
  - eapply growing_same; [done|]. intros k c. by rewrite Hc.
  - intros id x Hx. left. exists x. rewrite Hc. auto.
Qed.

Lemma create_traces r others p clientAddress now :
  RegistryInv r others p → Traces r others (create new_session_id clientAddress now r).
Proof.
  intros Hi. unfold create. cbn -[lit]. set (x0 := {| sn_sessionId := _ |}).
  assert (Hfresh : ∀ k, is_Some (rg_captures r !! k) → rg_nextCapture r ≠ k).
  { intros k Hk <-. apply (ri_fresh _ _ _ _ Hi) in Hk. lia. }
  eapply trace_step; [done| | |].
  - eapply growing_same; [done|]. intros k c Hc. cbn. rewrite lookup_insert_ne; [done|]. apply Hfresh. by exists c.
  - cbn. intros id x [[<- <-]|[_ Hx]]%lookup_insert_Some.
    + right. intros c. rewrite lookup_insert_eq. intros [= <-] _ []; by split.
    + left. exists x. rewrite lookup_insert_ne; [done|]. apply Hfresh. by eapply (ri_sessions _ _ _ _ Hi).
  - cbn. intros x [->|[]%elem_of_nil]%elem_of_cons. exists (sn_sessionId x0). apply lookup_insert_eq.
Qed.

(** A session replaced by one that counts the same. *)
Lemma replaced_traces r others p id x x' actions :
  RegistryInv r others p → rg_sessions r !! id = Some x → sn_capture x' = sn_capture x →
  (∀ side, bytesOf side x' = bytesOf side x) → (∀ y, y ∈ shown actions → y = x') →
  Traces r others (set_sessions (<[id := x']> (rg_sessions r)) r, actions).
Proof.
  intros Hi Hx Hc Hn Hshown. eapply trace_step; [done|by eapply growing_same| |].
  - cbn. intros id' y [[<- <-]|[_ Hy]]%lookup_insert_Some; left; eauto.
  - intros y ->%Hshown. exists id. apply lookup_insert_eq.
Qed.

Lemma close_traces r others p id errorMessage now :
  RegistryInv r others p → Traces r others (close id errorMessage now r).
Proof.
  intros Hi. unfold close. destruct (rg_sessions r !! id) as [x|] eqn:Hx; [|by eapply trace_subset].
  eapply replaced_traces; [done..|by intros []|]. cbn. by intros y [->|[]%elem_of_nil]%elem_of_cons.
Qed.

Lemma release_traces r others p id :
  RegistryInv r others p → Traces r others (releaseCapturedBytes id r, []).
Proof.
  intros Hi. unfold releaseCapturedBytes. destruct (rg_sessions r !! id) as [x|] eqn:Hx; [|by eapply trace_subset].
  assert (Hfresh : ∀ k, is_Some (rg_captures r !! k) → rg_nextCapture r ≠ k).
  { intros k Hk <-. apply (ri_fresh _ _ _ _ Hi) in Hk. lia. }
  cbn [allocate]. eapply trace_step; [done| | |by intros ? ?%elem_of_nil].
  - eapply growing_same; [done|]. intros k c Hc. cbn. rewrite lookup_insert_ne; [done|]. apply Hfresh. by exists c.
  - cbn. intros id' y [[<- <-]|[_ Hy]]%lookup_insert_Some.
    + right. cbn. rewrite lookup_insert_eq. intros c [= <-] Hb. specialize (Hb Up). discriminate Hb.
    + left. exists y. rewrite lookup_insert_ne; [done|]. apply Hfresh. by eapply (ri_sessions _ _ _ _ Hi).
Qed.

Lemma release_budget id r : rg_budget (releaseCapturedBytes id r) = rg_budget r.
Proof. unfold releaseCapturedBytes. by destruct (rg_sessions r !! id). Qed.

Lemma releases_budget ids r : rg_budget (fold_left (λ r id, releaseCapturedBytes id r) ids r) = rg_budget r.
Proof. revert r. induction ids as [|id ids IH]; intros r; [done|]. cbn [fold_left]. by rewrite IH, release_budget. Qed.

Lemma releases_traces (ids : list chars) r others p :
  RegistryInv r others p →
  Traces r others (fold_left (λ r id, releaseCapturedBytes id r) ids r, []).
Proof.
  revert r. induction ids as [|id ids IH]; intros r Hi; cbn [fold_left]; [by eapply trace_subset|].
  destruct (release_after new_session_id r others p id Hi) as [Hi1 _].
  destruct (release_traces r others p id Hi) as [Ht1 Hg1]. destruct (IH _ Hi1) as [Ht2 Hg2].
  split; [|by eapply growing_trans]. intros Hroom Ht. apply Ht2, Ht1; [done| |done].
  revert Hroom. cbn [fst]. by rewrite releases_budget.
Qed.

(** The whole of a payload is recorded while the budget is not used up. *)
Lemma traffic_whole r others p id direction original payload now x c result c' b' :
  RegistryInv r others p → bu_maximumBytes (rg_budget r) ≤ usize_max → rg_captures r !! sn_capture x = Some c →
  TrafficResult r id direction original payload now x c result c' b' → Room b' → Budgeted c' →
  ∃ modifications, Recorded direction payload modifications now c c' b' (len payload).
Proof.
  intros Hi Hmax Hc [_ Hok Hmax' _ Hused (n & modifications & _ & Hrec)] Hroom Hb. unfold Room in Hroom.
  exists modifications. enough (n = len payload) as <- by done.
  assert (Hbud : cb_budgeted (captured direction c) = true) by by rewrite <-(rc_budgeted _ _ _ _ _ _ _ _ Hrec).
  destruct (rc_prefix _ _ _ _ _ _ _ _ Hrec Hbud) as [Hn|]; [|lia].
  pose proof (rc_count _ _ _ _ _ _ _ _ Hrec) as Hcount. pose proof (cp_buffers _ Hok) as Hbuf.
  pose proof (bk_length _ (Hbuf direction)) as Hl. rewrite (rc_bytes _ _ _ _ _ _ _ _ Hrec), len_app, len_slice in Hl by lia.
  pose proof (bk_length _ (cp_buffers _ (ri_captures _ _ _ _ Hi _ _ Hc) direction)) as Hl0.
  assert (Hc' : cb_length (captured direction c') ≤ captureBytes c').
  { pose proof (buffer_length_le _ (Hbuf Up)). pose proof (buffer_length_le _ (Hbuf Down)).
    unfold captureBytes, dropBytes. rewrite (Hb Up : cb_budgeted (sc_up c') = true), (Hb Down : cb_budgeted (sc_down c') = true).
    destruct direction; cbn in *; lia. }
  assert (captureBytes c ≤ bu_usedBytes (rg_budget r)).
  { rewrite (ri_used _ _ _ _ Hi). eapply total_lookup_le; [|exact Hc]. intros k d Hd.
    eapply captureBytes_nonneg, (ri_captures _ _ _ _ Hi); done. }
  lia.
Qed.

Lemma traffic_traces r others p id direction original payload now x c result c' b' :
  RegistryInv r others p → bu_maximumBytes (rg_budget r) ≤ usize_max → payload ≠ [] →
  rg_sessions r !! id = Some x → rg_captures r !! sn_capture x = Some c →
  TrafficResult r id direction original payload now x c result c' b' → Traces r others result.
Proof.
  intros Hi Hmax Hne Hx Hc Htr. pose proof Htr as [-> Hok _ _ _ (n & modifications & _ & Hrec)].
  assert (Hg : Growing r (set_captures (<[sn_capture x := c']> (rg_captures r)) b'
    (set_sessions (<[id := counted direction (len payload) now x]> (rg_sessions r)) r))).
  { intros k d Hd. cbn. destruct (decide (k = sn_capture x)) as [->|Hk].
    - rewrite lookup_insert_eq. assert (d = c) as -> by congruence. exists c'.
      split_and!; [done|by eapply recorded_grows|]. intros Hb e. by rewrite <-(rc_budgeted _ _ _ _ _ _ _ _ Hrec).
    - rewrite lookup_insert_ne by done. exists d. split_and!; [done| |done].
      apply grows_refl. by eapply (ri_captures _ _ _ _ Hi). }
  split; [|exact Hg]. cbn [fst]. intros Hroom Ht. pose proof Ht as [Hs _].
  eapply trace_step; [done|exact Hg| | |exact Hroom|exact Ht].
  - cbn. intros id' y [[<- <-]|[Hne' Hy]]%lookup_insert_Some.
    + right. cbn. rewrite lookup_insert_eq. intros d [= <-] Hb.
      destruct (traffic_whole _ _ _ _ _ _ _ _ _ _ _ _ _ Hi Hmax Hc Htr Hroom Hb) as [modifications' Hrec'].
      eapply recorded_traced; [done|done| |exact Hrec']. eapply Hs; [exact Hx|exact Hc|].
      intros e. by rewrite <-(rc_budgeted _ _ _ _ _ _ _ _ Hrec).
    + left. exists y. rewrite lookup_insert_ne; [done|]. intros Heq. by apply Hne', (ri_own _ _ _ _ Hi _ _ _ _ Hx Hy).
  - cbn. intros y [->|[]%elem_of_nil]%elem_of_cons. exists id. apply lookup_insert_eq.
Qed.

(** ** Critical sections and transitions *)
Lemma frame_traces r r' others p :
  RegistryInv r others p → rg_captures r' = rg_captures r → rg_sessions r' = rg_sessions r → Traces r others (r', []).
Proof. intros Hi Hc Hs. eapply trace_subset; [done..|]. by rewrite Hs. Qed.

Lemma act_traces action now r others p :
  RegistryInv r others p → Traces r others (act iteration action now r).
Proof using id_inj iteration_perm.
  intros Hi. destruct action; cbn [act]; try by eapply frame_traces.
  - eapply trace_subset; [done| |].
    + unfold pruneClosed. cbv zeta. by case_if Hc.
    + intros id x. rewrite (pruneClosed_unfold iteration iteration_perm). case_if Hc; [done|].
      intros Hx. eapply lookup_weaken; [exact Hx|apply removeAll_subseteq].
  - by eapply close_traces.
Qed.

Lemma call_traces c now r others p :
  RegistryInv r others p → bu_maximumBytes (rg_budget r) ≤ usize_max →
  Satisfies (call new_session_id iteration c now r) (Traces r others) (λ _, False).
Proof using id_inj iteration_perm.
  intros Hi Hmax. destruct c; cbn [call]; try (by apply satisfies_ret; eapply frame_traces).
  - by apply satisfies_ret; eapply create_traces.
  - unfold update. destruct (rg_sessions r !! sessionId) as [x|] eqn:Hx; apply satisfies_ret; [|by eapply frame_traces].
    eapply replaced_traces; [done..|by intros []|]. cbn. by intros y [->|[]%elem_of_nil]%elem_of_cons.
  - destruct (is_empty payload) eqn:Hne.
    { unfold addModifiedTraffic. rewrite Hne. apply satisfies_ret. by eapply frame_traces. }
    destruct (rg_sessions r !! sessionId) as [x|] eqn:Hx.
    + destruct (ri_sessions _ _ _ _ Hi _ _ Hx) as [c Hc].
      eapply satisfies_mono, (traffic_result new_session_id r others p sessionId direction originalPayload payload now x c); [|done..].
      intros result (c' & b' & Hr). eapply traffic_traces; try done. by intros ->.
    + unfold addModifiedTraffic. rewrite Hne. apply satisfies_bind.
      eapply satisfies_mono, derive_reversible; [|done]. cbn beta. intros modifications _. cbv zeta. rewrite Hx.
      apply satisfies_ret. by eapply frame_traces.
  - by apply satisfies_ret; eapply close_traces.
  - apply satisfies_ret. eapply trace_step; [done|by eapply growing_same| |].
    + intros id x Hx. left. by exists x.
    + cbn. intros x (a & Hx & (id & -> & _)%list_elem_of_fmap)%list_elem_of_bind. by apply elem_of_nil in Hx.
  - apply satisfies_ret. eapply trace_subset; [done..|]. cbn. intros id x Hx.
    eapply lookup_weaken; [exact Hx|apply removeAll_subseteq].
  - apply satisfies_ret. unfold clearCapturedBytes. set (r1 := set_captureGeneration _ r).
    assert (Hi1 : RegistryInv r1 others p) by by eapply inv_frame.
    destruct (releases_traces ((iteration (rg_sessions r1)).*1) r1 others p Hi1) as [Ht Hg].
    split; [|exact Hg]. intros Hroom [Hs Ho]. by apply Ht.
  - by apply satisfies_ret; eapply release_traces.
Qed.

Definition SystemTrace (s : System) : Prop := TraceInv (sy_registry s) (SessionRegistryTheorems.others s).

Lemma trace_fewer r others others' : TraceInv r others → (∀ x, x ∈ others' → x ∈ others) → TraceInv r others'.
Proof. intros [Hs Ho] Hsub. split; eauto. Qed.

Lemma collect_traces s : SystemTrace s → SystemTrace (collect s).
Proof.
  assert (Hsub : ∀ k c, rg_captures (sy_registry (collect s)) !! k = Some c → rg_captures (sy_registry s) !! k = Some c).
  { intros k c. rewrite collect_lookup. by case_decide. }
  intros [Hs Ho]. split; [intros id x c Hx Hc%Hsub|intros x c Hx Hc%Hsub]; eauto.
Qed.

(** What is referred to after a transition has only grown. *)
Definition HeldGrow (s s' : System) : Prop :=
  ∀ k c, rg_captures (sy_registry s) !! k = Some c → k ∈ held s' →
    ∃ c', rg_captures (sy_registry s') !! k = Some c' ∧ Grows c c'.

Lemma collect_grow s s1 : Growing (sy_registry s) (sy_registry s1) → HeldGrow s (collect s1).
Proof.
  intros Hg k c Hc Hk. destruct (Hg _ _ Hc) as (c' & Hc' & Hgr & _). exists c'. split; [|done].
  rewrite collect_kept; [done|exact Hk].
Qed.

(** A call does not free anything of the budget it takes. *)
Lemma call_room c now s r actions :
  callOk c → SystemInv new_session_id s → call new_session_id iteration c now (sy_registry s) = Ok (r, actions) →
  Room (rg_budget (sy_registry s)) →
  Room (rg_budget (sy_registry
    (collect {| sy_registry := r; sy_threads := sy_threads s ++ [actions]; sy_held := sy_held s |}))) →
  Room (rg_budget r).
Proof using id_inj iteration_perm.
  intros Hok Hi Hcall Hroom Hroom'.
  assert (Hcase : rg_budget r = rg_budget (sy_registry s) ∨ ∃ id direction original payload, c = Traffic id direction original payload).
  { destruct c as [client|id u|id direction original payload|id error|error|direction| | | |id|]; cbn [call] in Hcall; [..|]; try (right; by eauto); left.
    - by injection Hcall as <- _.
    - unfold update in Hcall. destruct (rg_sessions _ !! _); by injection Hcall as <- _.
    - unfold close in Hcall. destruct (rg_sessions _ !! _); by injection Hcall as <- _.
    - by injection Hcall as <- _.
    - by injection Hcall as <- _.
    - by injection Hcall as <- _.
    - by injection Hcall as <- _.
    - injection Hcall as <- _. unfold clearCapturedBytes. cbv zeta. by rewrite releases_budget.
    - injection Hcall as <- _. apply release_budget.
    - by injection Hcall as <- _. }
  destruct Hcase as [->|(id & direction & original & payload & ->)]; [done|]. cbn [call] in Hcall.
  destruct (is_empty payload) eqn:Hne.
  { unfold addModifiedTraffic in Hcall. rewrite Hne in Hcall. by injection Hcall as <- _. }
  destruct (rg_sessions (sy_registry s) !! id) as [x|] eqn:Hx.
  - pose proof (si_registry _ _ Hi) as Hr. destruct (ri_sessions _ _ _ _ Hr _ _ Hx) as [c Hc].
    pose proof (traffic_result new_session_id _ _ _ id direction original payload now x c Hr Hne Hx Hc) as Ht.
    rewrite Hcall in Ht. destruct Ht as (c' & b' & [Heq _ _ _ _ _]). injection Heq as Hr' _.
    destruct (traffic_collects_nothing new_session_id s id x (counted direction (len payload) now x) c' b' actions Hi Hx eq_refl)
      as [_ Hsame]. rewrite <-Hr' in Hsame. rewrite Hsame in Hroom'. by rewrite Hr'.
  - unfold addModifiedTraffic in Hcall. rewrite Hne in Hcall. apply bind_Ok_inv in Hcall as (modifications & _ & Hcall).
    cbv zeta in Hcall. rewrite Hx in Hcall. by injection Hcall as <- _.
Qed.

(** *** Steps while the budget lasts *)
Definition Roomy (s s' : System) : Prop := Good new_session_id iteration s s' ∧ Room (rg_budget (sy_registry s')).

Lemma transition_traces s s' :
  SystemInv new_session_id s → bu_maximumBytes (rg_budget (sy_registry s)) ≤ usize_max →
  Good new_session_id iteration s s' →
  HeldGrow s s' ∧
  (Room (rg_budget (sy_registry s)) → Room (rg_budget (sy_registry s')) → SystemTrace s → SystemTrace s').
Proof using id_inj iteration_perm.
  intros Hi Hmax (t & now & Hok & Hstep). pose proof (si_registry _ _ Hi) as Hr.
  destruct t as [c|i subscribed|id|i]; cbn [transition] in Hstep.
  - apply bind_Ok_inv in Hstep as ([r actions] & Hcall & [= <-]).
    pose proof (call_traces c now _ _ _ Hr Hmax) as Ht. rewrite Hcall in Ht. destruct Ht as [Ht Hg].
    split; [by apply collect_grow|]. intros Hroom Hroom' Htrace. apply collect_traces.
    eapply trace_fewer; [apply Ht; [by eapply call_room|exact Htrace]|]. cbn [fst snd].
    intros x Hx. apply others_elem in Hx as [Hx|(th & [Hth| ->%list_elem_of_singleton]%elem_of_app & Hx)];
      apply elem_of_app; [right; apply others_elem; by left|right; apply others_elem; eauto|by left].
  - destruct (sy_threads s !! i) as [[|action rest]|] eqn:Hth;
      [injection Hstep as <-| |injection Hstep as <-].
    1, 3: split; [|done]; intros k c Hc _; exists c; split; [done|]; apply grows_refl; by eapply (ri_captures _ _ _ _ Hr).
    pose proof (act_traces action now _ _ _ Hr) as Ht.
    assert (Hbudget : rg_budget (act iteration action now (sy_registry s)).1 = rg_budget (sy_registry s)).
    { destruct action; cbn [act fst]; try done; [unfold pruneClosed; cbv zeta; by case_if Hc|].
      unfold close. by destruct (rg_sessions _ !! _). }
    destruct (act iteration action now (sy_registry s)) as [r actions]. injection Hstep as <-. destruct Ht as [Ht Hg].
    split; [by apply collect_grow|]. intros Hroom _ Htrace. apply collect_traces.
    eapply trace_fewer; [apply Ht; [by rewrite Hbudget|exact Htrace]|]. cbn [fst snd].
    assert (Hold : ∀ y, y ∈ shown (action :: rest) → y ∈ SessionRegistryTheorems.others s).
    { intros y Hy. apply others_elem. right. exists (action :: rest). split; [by eapply list_elem_of_lookup_2|done]. }
    change (shown (action :: rest)) with (actionSnapshots action ++ shown rest) in Hold.
    intros x. rewrite others_elem. cbn. rewrite !elem_of_app. intros [[Hx|Hx]|(th & Hin & Hx)].
    + right. apply Hold, elem_of_app. left. destruct subscribed; [done|by apply elem_of_nil in Hx].
    + right. apply others_elem. by left.
    + apply list_elem_of_lookup in Hin as [j Hj]. apply list_lookup_insert_Some in Hj as [(-> & <- & _)|[_ Hj]].
      * rewrite shown_app, elem_of_app in Hx. destruct Hx; [by left|]. right. apply Hold, elem_of_app. by right.
      * right. apply others_elem. right. exists th. split; [by eapply list_elem_of_lookup_2|done].
  - injection Hstep as <-. split.
    + intros k c Hc _. exists c. split; [done|]. apply grows_refl. by eapply (ri_captures _ _ _ _ Hr).
    + intros _ _ [Hs Ho]. split; [done|]. cbn. intros x c [Hx|Hx]%elem_of_app.
      * apply elem_of_app in Hx as [Hx|Hx]; [|apply Ho, others_elem; by left].
        destruct (rg_sessions (sy_registry s) !! id) as [y|] eqn:Hy; [|by apply elem_of_nil in Hx].
        apply list_elem_of_singleton in Hx as ->. intros Hc Hb. eapply fully_traced, Hs; done.
      * apply Ho, elem_of_app. by right.
  - injection Hstep as <-. set (s1 := {| sy_registry := _ |}).
    split; [apply collect_grow; by eapply growing_same|]. intros _ _ Htrace. apply collect_traces.
    eapply trace_fewer; [exact Htrace|]. intros x. rewrite !others_elem. cbn. intros [Hx|?]; [|by right]. left.
    eapply elem_of_sublist; [exact Hx|]. apply sublist_delete.
Qed.

Lemma roomy_traces s s' :
  rtc Roomy s s' → SystemInv new_session_id s → bu_maximumBytes (rg_budget (sy_registry s)) ≤ usize_max →
  Room (rg_budget (sy_registry s)) → SystemTrace s → SystemInv new_session_id s' ∧ SystemTrace s'.
Proof using id_inj iteration_perm.
  induction 1 as [s|s s1 s2 [Hg Hroom1] _ IH]; intros Hi Hmax Hroom Ht; [done|].
  destruct (good_keeps _ _ iteration_perm _ _ Hg Hi) as [Hi1 Hc1]. destruct (transition_traces _ _ Hi Hmax Hg) as [_ Ht1].
  apply IH; auto. pose proof (cs_limits _ _ _ Hc1) as Hl. unfold limits in Hl. injection Hl as _ ->. done.
Qed.

(** C35: Whatever methods run concurrently on a new registry: as long as the budget is not used
    up, the counts of every snapshot that anybody has are boundaries between packets of its
    captured streams, each recorded in full, unless the session gave up its capture; and
    whatever else the registry does after that, the streams of a snapshot that is still held
    only grow. *)
Theorem snapshots_traced historyLimit maximumCapturedBytes s x c :
  0 ≤ historyLimit → 0 < maximumCapturedBytes ≤ usize_max →
  rtc Roomy (initial historyLimit maximumCapturedBytes) s →
  x ∈ live s → rg_captures (sy_registry s) !! sn_capture x = Some c → Budgeted c →
  Traced x c ∧
  ∀ s', rtc (λ s1 s2, Good new_session_id iteration s1 s2 ∧ x ∈ live s2) s s' →
    ∃ c', rg_captures (sy_registry s') !! sn_capture x = Some c' ∧ Grows c c'.
Proof using id_inj iteration_perm.
  intros Hh [Hpos Hmax] Hr Hx Hc Hb. assert (Hm : 0 ≤ maximumCapturedBytes) by lia.
  assert (Hinit : SystemTrace (initial historyLimit maximumCapturedBytes)).
  { split; cbn; [done|]. by intros y d ?%elem_of_nil. }
  destruct (roomy_traces _ _ Hr (initial_inv _ _ _ Hh Hm) Hmax Hpos Hinit) as [Hi [Hs Ho]]. split.
  - apply live_snapshot_elem in Hx as [[id Hid]|Hx]; [by eapply fully_traced, Hs|by apply Ho].
  - assert (Hl : bu_maximumBytes (rg_budget (sy_registry s)) ≤ usize_max).
    { assert (Hg : rtc (Good new_session_id iteration) (initial historyLimit maximumCapturedBytes) s).
      { eapply rtc_subrel, Hr. by intros ? ? []. }
      destruct (reachable_system_inv _ _ iteration_perm _ _ _ Hh Hm Hg) as [_ Hlim].
      unfold limits in Hlim. injection Hlim as _ ->. done. }
    pose proof (ri_captures _ _ _ _ (si_registry _ _ Hi) _ _ Hc) as Hok. clear Hr Hinit Hs Ho Hb Hx.
    intros s' Hrtc. revert c Hc Hok. induction Hrtc as [s|s s1 s2 [Hg Hx1] _ IH]; intros c Hc Hok; [exists c; split; [done|by apply grows_refl]|].
    destruct (good_keeps _ _ iteration_perm _ _ Hg Hi) as [Hi1 Hc1]. destruct (transition_traces _ _ Hi Hl Hg) as [Hgrow _].
    destruct (Hgrow _ _ Hc) as (c1 & Hcap1 & Hgr1); [apply held_elem; by exists x|].
    destruct (IH Hi1 ltac:(pose proof (cs_limits _ _ _ Hc1) as Hlim; unfold limits in Hlim; injection Hlim as _ ->; done) c1 Hcap1 (gr_ok _ _ Hgr1))
      as (c2 & Hcap2 & Hgr2).
    exists c2. split; [done|by eapply grows_trans].
Qed.
End traces.
