(* ===== verification/StreamRecording.v ===== *)
(** * A recorded session is recorded whole

    The projector over the recording session: what a closed or failed SOCKS session leaves
    is a finished transaction whose bodies are the captured streams up to the counts of the
    snapshot, although the relays go on filling the buffers while they are read. *)

From S2P Require Import Prelude NetAddress Stateful Text Location CaptureModel WireDiff SessionCapture SessionRegistry SessionRegistryInvariant MetadataBudget BodyStore BodyStoreSpec BodyOwnership RecordingState RecordingBudget Recording RecordingInvariant RecordingWorld RecordingCleanup RecordingReplace RecordingMethods RecordingStorage RecordingSpools RecordingSteps UdpPersist UdpPersistTheorems SocksProjection StreamTraces.

(** The error of an attempt is its answer. *)
Lemma runs_attempt {S E A} (m : stateful S E A) s P Q R :
  Runs m s P Q → Runs (attempt m) s (λ o s', match o with None => ∃ a, P a s' | Some e => Q e s' end) R.
Proof. unfold Runs, attempt. destruct (m s) as [? []]; eauto. Qed.

Lemma discarded_iff e : isDiscardedTransaction e = true ↔ e = TransactionNotFound ∨ e = TransactionFinished.
Proof. destruct e; cbn; naive_solver. Qed.

Lemma remember_inactive id p : pj_active (rememberFinalized id p) !! id = None.
Proof.
  unfold rememberFinalized. cbv zeta. case_bool_decide; [apply lookup_delete_eq|].
  destruct (expireFinalized _ _ _). apply lookup_delete_eq.
Qed.

(** ** The recording session as the projector sees it *)
Section recording.
Context `{Layout} `{Environment} {Hok : EnvironmentOk} (to_lowercase : chars → chars).
Context (formatted : chars → string) (collected : list StreamPacket → vec StreamPacket)
  (collected_items : ∀ l, items (collected l) = l).

#[local] Instance recordingStore : TransactionStore RecordingSession :=
  {| recordBegin := beginTransaction to_lowercase; recordProgress := updateProgress; recordBody := storeBody;
     recordPackets := storeStreamPackets; recordCommit := commit; recordFail := failTransaction |}.

(** *** Transactions *)
(** The transaction was begun, and if it is still there it is pending. *)
Definition Open (tid : chars) (s : RecordingSession) : Prop :=
  begun tid s ∧ ∀ r, st_transactions (ss_state s) !! tid = Some r → isPending r = true.

(** If the transaction is still there, the body of the side is [bytes], in full. *)
Definition BodyIs (tid : chars) (side : MessageSide) (bytes : list Z) (s : RecordingSession) : Prop :=
  begun tid s ∧ ∀ r, st_transactions (ss_state s) !! tid = Some r →
    ∃ b, record_body r side = Some b ∧ contentOf (ss_bodyStore s) b = Some bytes ∧ bm_truncated (bf_meta b) = false.

Lemma begun_mono tid s s' : (bs_uuids (ss_bodyStore s) ≤ bs_uuids (ss_bodyStore s'))%nat → begun tid s → begun tid s'.
Proof. intros Hle (n & Hn & ->). exists n. split; [lia|done]. Qed.

(** What is gone does not come back. *)
Lemma evolves_back scope s s' tid r' :
  Evolves scope s s' → begun tid s → st_transactions (ss_state s') !! tid = Some r' →
  ∃ r, st_transactions (ss_state s) !! tid = Some r.
Proof using Hok.
  intros He (n & Hn & ->) Hr'. destruct (ev_new _ _ _ He (new_v4 n)) as [|(m & Hm & Heq)]; [by eexists|done|].
  apply new_v4_inj in Heq. lia.
Qed.

Lemma open_keeps hs scope s s' tid : Keeps hs scope s s' → ¬ sc_finish scope tid → Open tid s → Open tid s'.
Proof using Hok.
  intros [_ He] Hno [Hb Hp]. split; [eapply begun_mono, Hb; apply He|]. intros r' Hr'.
  destruct (evolves_back _ _ _ _ _ He Hb Hr') as [r Hr].
  destruct (ev_pending _ _ _ He tid r Hr (Hp r Hr) Hno) as (r2 & Hr2 & ?). congruence.
Qed.

Lemma body_keeps hs scope s s' tid side bytes :
  Keeps hs scope s s' → ¬ sc_store scope tid side → BodyIs tid side bytes s → BodyIs tid side bytes s'.
Proof using Hok.
  intros Hk Hno [Hb Hbody]. pose proof Hk as [_ He]. split; [eapply begun_mono, Hb; apply He|]. intros r' Hr'.
  destruct (evolves_back _ _ _ _ _ He Hb Hr') as [r Hr]. destruct (Hbody r Hr) as (b & Hbr & Hc & Ht).
  destruct (body_kept _ _ _ _ _ _ _ _ _ Hk Hno Hr Hr' Hbr) as [Hb' Hc']. exists b. by rewrite Hc'.
Qed.

(** The scope of a projection: that of the other tasks and the bodies of a transaction. *)
Definition Also (scope : Scope) (tid : chars) (side : MessageSide) : Scope :=
  {| sc_finish := sc_finish scope; sc_store := λ id side', sc_store scope id side' ∨ (id = tid ∧ side' = side);
     sc_write := sc_write scope |}.

Lemma also_others hs scope tid side s s' : Keeps hs scope s s' → Keeps hs (Also scope tid side) s s'.
Proof. intros [Hw He]. split; [done|]. eapply evolves_mono, He; [done| |done]. by left. Qed.

Lemma also_storing hs scope tid side s s' : Keeps hs (Storing tid (eq side)) s s' → Keeps hs (Also scope tid side) s s'.
Proof.
  intros [Hw He]. split; [done|]. eapply evolves_mono, He; [by intros ? []| |by intros ? []].
  intros id side' [-> <-]. by right.
Qed.

(** A stored body whose packets are accepted is whole. *)
Lemma packets_whole hs scope tid side (c : SessionCapture) n k meta s1 s2 s3 :
  CaptureOk c → Boundary side n c k → 0 < n →
  bm_truncated meta = (bm_storedBytes meta <? n) → StoredAs tid side (slice (streamOf side c) 0 n) meta s1 →
  Keeps hs scope s1 s2 → ¬ sc_store scope tid side → World hs s2 → begun tid s2 →
  storeStreamPackets tid side (collected (streamPacket <$> take k (packetsOf side c))) s2 = (s3, Ok tt) →
  Keeps hs Quiet s2 s3 → BodyIs tid side (slice (streamOf side c) 0 n) s3.
Proof using Hok collected_items.
  intros Hc Hbd Hpos Htr (r & b & Hr & _ & Hb & Hm & Hct & Hrange & _) Hk Hno Hw Hbegun Hpackets Hk3.
  apply packets_within in Hpackets as (r2 & Hr2 & Hv). rewrite collected_items in Hv.
  destruct (body_kept _ _ _ _ _ _ _ _ _ Hk Hno Hr Hr2 Hb) as [Hb2 Hc2].
  rewrite Hb2 in Hv. cbn [from_option] in Hv.
  assert (Hwhole : n ≤ bm_storedBytes meta).
  { destruct (front_tiled side c Hc n k Hbd) as [sequence Ht]. eapply tile_within, Forall_impl; [| exact Ht | |].
    - lia.
    - apply Forall_fmap in Hv. exact Hv.
    - cbn beta. intros p Hp. unfold packetInvalid, streamPacket, compose in Hp. cbn in Hp.
      apply orb_false_iff in Hp as [_ Hp]. unfold checked_add in Hp. revert Hp. case_if Hmax; cbn; [|done].
      intros Hp%Z.ltb_ge. unfold bodyStoredBytes in Hp. rewrite Hm in Hp. exact Hp. }
  assert (Hlen : len (slice (streamOf side c) 0 n) = n).
  { pose proof (boundary_range side c Hc n k Hbd). rewrite len_slice; lia. }
  eapply (body_keeps hs Quiet), (conj Hbegun); [exact Hk3|by intros []|].
  intros r2' Hr2'. rewrite Hr2 in Hr2'. injection Hr2' as <-. exists b. split; [done|].
  rewrite Hlen in Hrange. assert (Heq : bm_storedBytes meta = n) by lia. split.
  - rewrite Hc2, Hct, Heq. f_equal. rewrite <-Hlen at 2. apply slice_full.
  - rewrite Hm. cbn. rewrite Htr, Heq. apply Z.ltb_irrefl.
Qed.

(** *** Projections *)
Section projection.
Context (hs : list Held) (scope : Scope) (session : SessionSnapshot) (c : SessionCapture).
Abbreviation World' := (Projection (Session := RecordingSession)).
Implicit Types (w : World') (tid : chars).

(** The buffers of the snapshot, as they were or grown. *)
Definition Captured w : Prop :=
  ∃ c', rg_captures (sy_registry (wp_registry w)) !! sn_capture session = Some c' ∧ Grows c c'.

(** The other tasks use the recording within [scope] and let the streams grow. *)
Definition Gentle (env : Surroundings) : Prop :=
  ∀ m s r, World hs s →
    Keeps hs scope s (env m (s, r)).1 ∧
    ∀ c1, rg_captures (sy_registry r) !! sn_capture session = Some c1 → CaptureOk c1 →
      ∃ c2, rg_captures (sy_registry (env m (s, r)).2) !! sn_capture session = Some c2 ∧ Grows c1 c2.

Lemma gentle_runs env m w (P : unit → World' → Prop) Q :
  Gentle env → World hs (wp_session w) → Captured w →
  (∀ w', wp_projector w' = wp_projector w → Keeps hs scope (wp_session w) (wp_session w') → Captured w' → P tt w') →
  Runs (others env m) w P Q.
Proof.
  intros Hg Hw (c1 & Hc1 & Hgr) HP. unfold others. apply runs_modify.
  destruct (Hg m (wp_session w) (wp_registry w) Hw) as [Hk Hc]. destruct (Hc c1 Hc1 (gr_ok _ _ Hgr)) as (c2 & Hc2 & Hgr2).
  destruct (env m (wp_session w, wp_registry w)) as [s r]. apply HP; [done|exact Hk|].
  exists c2. split; [exact Hc2|by eapply grows_trans].
Qed.

Lemma on_session_runs {A} (m : onSession A) w (P : A → RecordingSession → Prop) (Q : CaptureError → RecordingSession → Prop)
    (P' : A → World' → Prop) (Q' : CaptureError → World' → Prop) :
  Runs m (wp_session w) P Q →
  (∀ a s', m (wp_session w) = (s', Ok a) → P a s' → P' a (set_session s' w)) →
  (∀ e s', m (wp_session w) = (s', Err e) → Q e s' → Q' e (set_session s' w)) → Runs (on_session m) w P' Q'.
Proof. unfold Runs, on_session. destruct (m (wp_session w)) as [s' [a|e|]]; auto. Qed.

Lemma capture_read_runs {A} (f : SessionCapture → A) w (P : A → World' → Prop) Q :
  Captured w → (∀ c', Grows c c' → P (f c') w) → Runs (read_capture session f) w P Q.
Proof. intros (c' & Hc & Hg) HP. unfold Runs, read_capture. rewrite Hc. by apply HP. Qed.

(** What holds of a projection under way, relative to where its transaction stood. *)
Record Going tid w w' : Prop := {
  gg_world : World hs (wp_session w');
  gg_captured : Captured w';
  gg_open : Open tid (wp_session w');
  gg_projector : wp_projector w' = wp_projector w;
}.

Context (c_ok : CaptureOk c) (traced : Traced session c).
Context (env : Surroundings) (gentle : Gentle env).
Abbreviation counted side := (slice (streamOf side c) 0 (bytesOf side session)).

Lemma storeCapturedBody_runs tid side previous w :
  World hs (wp_session w) → Captured w → Open tid (wp_session w) →
  (∀ side, ¬ sc_store scope tid side) → ¬ sc_finish scope tid →
  Runs (storeCapturedBody collected env tid session side previous) w
    (λ _ w', Going tid w w' ∧
       (∀ side' bytes, side' ≠ side → BodyIs tid side' bytes (wp_session w) → BodyIs tid side' bytes (wp_session w')) ∧
       (if (bytesOf side session =? 0) || (bytesOf side session =? previous)
        then w' = w else BodyIs tid side (counted side) (wp_session w')))
    (λ _ w', World hs (wp_session w') ∧ Captured w' ∧ Open tid (wp_session w')).
Proof using Hok collected_items c_ok traced gentle.
  intros Hw Hc Ho Hno Hfin. unfold storeCapturedBody. cbv zeta. case_if Hskip.
  { apply runs_ret. split_and!; auto. by split. }
  apply orb_false_iff in Hskip as [Hpos%Z.eqb_neq _].
  destruct (traced side) as [k Hbd]. pose proof (boundary_range side c c_ok _ k Hbd) as Hrange.
  assert (Hfin' : ∀ side', ¬ sc_finish (Also scope tid side') tid) by done.
  apply runs_bind, capture_read_runs; [done|]. intros c1 Hg1. fold (packetsOf side c1).
  apply runs_bind, gentle_runs; [done..|]. intros w1 Hp1 Hk1 Hc1.
  apply runs_bind, capture_read_runs; [done|]. intros c2 Hg2. fold (streamOf side c2).
  rewrite (truncate_stream side c c_ok _ k Hbd c2 Hg2).
  assert (Hlen : len (counted side) = bytesOf side session) by (rewrite len_slice; lia).
  rewrite Hlen, (retain_stream side c c_ok _ k Hbd c1 Hg1).
  pose proof (kp_world _ _ _ _ Hk1) as Hw1.
  pose proof (open_keeps _ _ _ _ tid Hk1 Hfin Ho) as Ho1.
  apply runs_bind. eapply on_session_runs; [exact (storeBody_runs hs _ tid side _ Hw1)| |]; cbn beta.
  2: { intros e s2 _ Hk2. split_and!; [apply Hk2|done|]. eapply open_keeps, Ho1; [exact Hk2|by intros []]. }
  intros meta s2 _ (Hk2 & Htr & Hst). set (w2 := set_session s2 w1).
  pose proof (open_keeps _ _ _ _ tid Hk2 (λ H, H) Ho1) as Ho2.
  apply runs_bind, gentle_runs; [done|apply Hk2|done|]. intros w3 Hp3 Hk3 Hc3.
  pose proof (kp_world _ _ _ _ Hk3) as Hw3. pose proof (open_keeps _ _ _ _ tid Hk3 Hfin Ho2) as Ho3.
  apply runs_bind. eapply on_session_runs; [exact (storeStreamPackets_runs Quiet hs _ tid side _ Hw3)| |]; cbn beta.
  2: { intros e s4 _ Hk4. split_and!; [apply Hk4|done|]. eapply open_keeps, Ho3; [exact Hk4|by intros []]. }
  intros [] s4 Hpackets Hk4. set (w4 := set_session s4 w3).
  pose proof (open_keeps _ _ _ _ tid Hk4 (λ H, H) Ho3) as Ho4.
  assert (Hbody : BodyIs tid side (counted side) s4).
  { eapply (packets_whole hs scope tid side c _ k meta s2 (wp_session w3) s4); try done; [lia|apply Ho3]. }
  apply gentle_runs; [done|apply Hk4|done|]. intros w5 Hp5 Hk5 Hc5.
  pose proof (open_keeps _ _ _ _ tid Hk5 Hfin Ho4) as Ho5. split_and!.
  - split; [apply Hk5|done|done|]. transitivity (wp_projector w3); [exact Hp5|]. by transitivity (wp_projector w1).
  - intros side' bytes Hne Hb.
    assert (H2 : BodyIs tid side' bytes s2).
    { eapply body_keeps, body_keeps, Hb; [exact Hk2|by intros [_ ?]|exact Hk1|done]. }
    eapply body_keeps; [exact Hk5|done|]. eapply (body_keeps hs Quiet); [exact Hk4|by intros []|].
    eapply body_keeps, H2; [exact Hk3|done].
  - eapply body_keeps, Hbody; [exact Hk5|done].
Qed.

(** *** Active sessions *)
(** What the recording holds of an active session: its transaction is open, and each body
    is the stream up to the count of the last flush. *)
Definition Flushed (a : ActiveProjection) (s : RecordingSession) : Prop :=
  ∀ tid, ap_transactionId a = Some tid → Open tid s ∧
    ∀ side, 0 < capturedOf side a → BodyIs tid side (slice (streamOf side c) 0 (capturedOf side a)) s.

(** The snapshot is not older than the last flush. *)
Definition InOrder (a : ActiveProjection) : Prop := ∀ side, capturedOf side a ≤ bytesOf side session.

(** The other tasks neither store into the transaction nor end it. *)
Definition Spared (t : option chars) : Prop :=
  ∀ tid, t = Some tid → ¬ sc_finish scope tid ∧ ∀ side, ¬ sc_store scope tid side.

(** If the transaction is still there, it is ended, and its bodies are the streams up to the
    counts of the snapshot. *)
Definition Finished (tid : chars) (s : RecordingSession) : Prop :=
  (∀ r, st_transactions (ss_state s) !! tid = Some r → isPending r = false) ∧
  ∀ side, 0 < bytesOf side session → BodyIs tid side (counted side) s.

Abbreviation entry w := (pj_active (wp_projector w) !! sn_sessionId session).

Record Stage (a : ActiveProjection) w : Prop := {
  sg_world : World hs (wp_session w);
  sg_captured : Captured w;
  sg_active : entry w = Some a;
  sg_flushed : Flushed a (wp_session w);
}.

(** Where a projection leaves a session with transaction [t]. *)
Record Result (t : option chars) w : Prop := {
  rs_world : World hs (wp_session w);
  rs_captured : Captured w;
  rs_active a : entry w = Some a → ap_transactionId a = t ∧ Flushed a (wp_session w);
  rs_finished : isTerminal (sn_state session) = true → ∀ tid, t = Some tid → Finished tid (wp_session w);
}.

Lemma counted_nonneg side : 0 ≤ bytesOf side session.
Proof using c_ok traced. destruct (traced side) as [k Hbd]. pose proof (boundary_range side c c_ok _ k Hbd). lia. Qed.

Lemma storeCapturedBodies_runs tid a w :
  Stage a w → ap_transactionId a = Some tid → InOrder a → Spared (Some tid) →
  Runs (storeCapturedBodies collected env tid session (ap_capturedRequestBytes a, ap_capturedResponseBytes a)) w
    (λ _ w', Going tid w w' ∧ ∀ side, 0 < bytesOf side session → BodyIs tid side (counted side) (wp_session w'))
    (λ _ w', World hs (wp_session w')).
Proof using Hok collected_items c_ok traced gentle.
  intros [Hw Hc Hact Hfl] Ht Hord Hsp. destruct (Hsp tid eq_refl) as [Hfin Hno]. destruct (Hfl tid Ht) as [Ho Hbodies].
  unfold storeCapturedBodies. cbn [fst snd].
  assert (Hskip : ∀ side w', (bytesOf side session =? 0) || (bytesOf side session =? capturedOf side a) = true →
    (0 < capturedOf side a → BodyIs tid side (slice (streamOf side c) 0 (capturedOf side a)) (wp_session w')) →
    0 < bytesOf side session → BodyIs tid side (counted side) (wp_session w')).
  { intros side w' [?%Z.eqb_eq|Heq%Z.eqb_eq]%orb_true_iff Hb Hpos; [lia|]. rewrite Heq. apply Hb. lia. }
  apply runs_bind. eapply runs_mono, (storeCapturedBody_runs tid Request); [| |done..]; cbn beta; [|by intros _ w1 [? _]].
  intros _ w1 ([Hw1 Hc1 Ho1 Hp1] & Hother1 & Hthis1).
  eapply runs_mono, (storeCapturedBody_runs tid Response); [| |done..]; cbn beta; [|by intros _ w2 [? _]].
  intros _ w2 ([Hw2 Hc2 Ho2 Hp2] & Hother2 & Hthis2).
  split; [split; [done..|congruence]|]. intros [] Hpos.
  - apply Hother2; [done|]. revert Hthis1. case_if Hs; [intros ->|done]. apply (Hskip Request); [exact Hs|apply Hbodies|done].
  - revert Hthis2. case_if Hs; [intros ->|done]. apply (Hskip Response); [exact Hs| |done].
    intros Hcap. apply Hother1; [done|]. by apply Hbodies.
Qed.

(** Nothing is left to flush of a terminal snapshot that is not flushed. *)
Lemma settled_order a side :
  InOrder a → shouldFlushCapturedBodies a session = false → isTerminal (sn_state session) = true →
  capturedOf side a = bytesOf side session.
Proof.
  intros Hord Hflush Hend. unfold shouldFlushCapturedBodies in Hflush. cbv zeta in Hflush. rewrite Hend in Hflush.
  revert Hflush. case_if Hadv; [|by rewrite orb_true_r]. intros _.
  apply andb_true_iff in Hadv as [Hq%negb_true_iff%Z.ltb_ge Hr%negb_true_iff%Z.ltb_ge].
  specialize (Hord side). destruct side; cbn in *; lia.
Qed.

Lemma flushBodies_runs a w :
  Stage a w → InOrder a → Spared (ap_transactionId a) →
  Runs (flushBodies collected env session (ap_transactionId a)) w
    (λ _ w', ∃ a', Stage a' w' ∧ ap_transactionId a' = ap_transactionId a ∧
       (isTerminal (sn_state session) = true → ∀ tid side, ap_transactionId a = Some tid → 0 < bytesOf side session →
          BodyIs tid side (counted side) (wp_session w')))
    (λ _ w', World hs (wp_session w')).
Proof using Hok collected_items c_ok traced gentle.
  intros Hst Hord Hsp. pose proof Hst as [Hw Hc Hact Hfl]. unfold flushBodies. apply runs_bind, runs_gets. rewrite Hact.
  destruct (ap_transactionId a) as [tid|] eqn:Ht.
  2: { apply runs_ret. exists a. split_and!; [done|done|by intros]. }
  case_if Hflush.
  - apply runs_bind. eapply runs_mono, storeCapturedBodies_runs; [|by intros|done..]. cbn beta.
    intros _ w1 ([Hw1 Hc1 Ho1 Hp1] & Hbodies). apply runs_modify. exists (flushed session a).
    split_and!; [|by rewrite <-Ht|intros _ tid' side [= <-]; apply Hbodies]. split; [done|done| |].
    + cbn. rewrite lookup_alter_eq, Hp1, Hact. done.
    + intros tid'. cbn [ap_transactionId flushed]. rewrite Ht. intros [= <-]. split; [exact Ho1|]. intros side.
      assert (Heq : capturedOf side (flushed session a) = bytesOf side session) by by destruct side. rewrite Heq. apply Hbodies.
  - apply runs_ret. exists a. split_and!; [done|done|]. intros Hend tid' side [= <-] Hpos.
    destruct (Hfl tid Ht) as [_ Hbodies]. specialize (Hbodies side).
    rewrite (settled_order a side Hord Hflush Hend) in Hbodies. auto.
Qed.

(** The session leaves the active ones. *)
Lemma leaves_result t w :
  World hs (wp_session w) → Captured w → (∀ tid, t = Some tid → Finished tid (wp_session w)) →
  Result t (set_projector (rememberFinalized (sn_sessionId session) (wp_projector w)) w).
Proof. intros Hw Hc Hf. split; [done|exact Hc| |auto]. intros a. cbn. by rewrite remember_inactive. Qed.

(** What is gone counts as finished. *)
Lemma gone_finished tid s :
  Open tid s → (∀ r, st_transactions (ss_state s) !! tid = Some r → isPending r = false) → Finished tid s.
Proof.
  intros [Hb Hp] Hn. assert (Hgone : ∀ r, st_transactions (ss_state s) !! tid = Some r → False).
  { intros r Hr. specialize (Hp r Hr). specialize (Hn r Hr). congruence. }
  split; [done|]. intros side _. split; [done|]. intros r Hr. by apply Hgone in Hr.
Qed.

(** The call that ends the transaction, and the history. *)
Lemma ended_runs tid change final a w :
  Stage a w → ap_transactionId a = Some tid → RecordingMethods.Finishes final change → final ≠ CaptureModel.Pending →
  (∀ side, 0 < bytesOf side session → BodyIs tid side (counted side) (wp_session w)) →
  Runs
    (terminalResult ← attempt (on_session (finalize tid change));
     match terminalResult with
     | Some error =>
         if isDiscardedTransaction error then change_projector (rememberFinalized (sn_sessionId session)) else fail error
     | None => change_projector (rememberFinalized (sn_sessionId session))
     end) w (λ _ w', Result (Some tid) w') (λ _ w', World hs (wp_session w')).
Proof using Hok.
  intros [Hw Hc Hact Hfl] Ht Hfi Hnp Hbodies. destruct (Hfl tid Ht) as [Ho _].
  pose proof (runs_and _ _ _ _ _ _ (finalize_runs hs _ tid change final Hw Hfi) (finalize_discards hs _ tid change Hw)) as He.
  unfold Runs, mbind, stateful_bind, attempt, on_session in *.
  destruct (finalize tid change (wp_session w)) as [s' [[]|e|]]; [| |done].
  - destruct He as [(Hk & r & r' & _ & _ & Hr' & Hst) _]. apply leaves_result; [apply Hk|exact Hc|]. intros tid' [= <-]. split.
    + intros r2 Hr2. cbn in Hr2. rewrite Hr' in Hr2. injection Hr2 as <-. unfold isPending. apply bool_decide_false. congruence.
    + intros side Hpos. eapply (body_keeps hs (Finishing tid)); [exact Hk|by intros []|auto].
  - destruct He as [Hk Hd]. destruct (isDiscardedTransaction e) eqn:He; [|apply Hk].
    apply discarded_iff in He. destruct (Hd He) as [-> Hn]. apply leaves_result; [exact Hw|exact Hc|].
    intros tid' [= <-]. by apply gone_finished.
Qed.

Lemma endTransaction_runs a w :
  Stage a w → isTerminal (sn_state session) = true →
  (∀ tid side, ap_transactionId a = Some tid → 0 < bytesOf side session → BodyIs tid side (counted side) (wp_session w)) →
  Runs (endTransaction session (ap_transactionId a)) w
    (λ _ w', Result (ap_transactionId a) w') (λ _ w', World hs (wp_session w')).
Proof using Hok.
  intros Hst Hend Hbodies. pose proof Hst as [Hw Hc _ _]. unfold endTransaction.
  destruct (ap_transactionId a) as [tid|] eqn:Ht.
  2: { apply runs_bind, runs_ret, runs_modify, leaves_result; [done..|by intros]. }
  destruct (sn_state session) eqn:Hstate; try discriminate Hend.
  - eapply (ended_runs tid _ CaptureModel.Complete a); [done|done|by apply completed_finishes|done|eauto].
  - eapply (ended_runs tid _ CaptureModel.Failed a); [done|done|by apply failed_finishes|done|eauto].
Qed.

Lemma stage_result a w : Stage a w → isTerminal (sn_state session) = false → Result (ap_transactionId a) w.
Proof.
  intros [Hw Hc Hact Hfl] Hend. split; [done|done| |congruence]. intros a' Ha'. assert (a' = a) as -> by congruence. done.
Qed.

Lemma synchronize_runs a w :
  Stage a w → InOrder a → Spared (ap_transactionId a) →
  Runs (synchronize collected env session) w
    (λ _ w', Result (ap_transactionId a) w') (λ _ w', World hs (wp_session w')).
Proof using Hok collected_items c_ok traced gentle.
  intros Hst Hord Hsp. pose proof Hst as [Hw Hc Hact Hfl]. unfold synchronize. apply runs_bind, runs_gets. rewrite Hact.
  set (rest := λ progressResult, match progressResult with Some _ => _ | None => _ end).
  assert (Hrest : ∀ w1, Stage a w1 → Runs (rest None) w1
    (λ _ w', Result (ap_transactionId a) w') (λ _ w', World hs (wp_session w'))).
  { intros w1 [Hw1 Hc1 Hact1 Hfl1]. subst rest. cbn beta iota.
    apply runs_bind, gentle_runs; [done..|]. intros w2 Hp2 Hk2 Hc2. apply runs_bind, runs_modify.
    apply runs_bind. eapply runs_mono, (flushBodies_runs (observed session a)); [|by intros| |done|done]; cbn beta.
    - intros _ w3 (a3 & Hst3 & Ht3 & Hbodies). cbn [ap_transactionId observed] in Ht3, Hbodies. rewrite <-Ht3 in Hbodies |- *.
      case_if Hend; [apply runs_ret, stage_result; [done|by apply negb_true_iff]|].
      apply negb_false_iff in Hend. apply endTransaction_runs; auto.
    - split; [apply Hk2|done| |].
      + cbn. by rewrite lookup_alter_eq, Hp2, Hact1.
      + intros tid Ht. destruct (Hsp tid Ht) as [Hfin Hno]. destruct (Hfl1 tid Ht) as [Ho Hb].
        split; [by eapply open_keeps|]. intros side Hpos. eapply body_keeps; [exact Hk2|apply Hno|]. destruct side; by apply Hb. }
  destruct (ap_transactionId a) as [tid|] eqn:Ht; [|by apply runs_bind, runs_ret, Hrest].
  destruct (Hsp tid eq_refl) as [Hfin Hno]. destruct (Hfl tid Ht) as [Ho Hb].
  pose proof (runs_and _ _ _ _ _ _ (updateProgress_runs Quiet hs _ tid (progressOf a session) Hw)
    (progress_discards (wp_session w) tid (progressOf a session))) as He.
  unfold Runs at 1, mbind, stateful_bind, attempt, on_session. cbn [recordProgress recordingStore].
  unfold Runs in He. destruct (updateProgress tid (progressOf a session) (wp_session w)) as [s' [[]|e|]]; [| |done].
  - apply Hrest. destruct He as [Hk _]. split; [apply Hk|done|done|]. intros tid' Ht'. rewrite Ht in Ht'. injection Ht' as <-.
    split; [by eapply (open_keeps hs Quiet); [exact Hk|by intros []|]|].
    intros side Hpos. eapply (body_keeps hs Quiet); [exact Hk|by intros []|by apply Hb].
  - destruct He as [Hk Hd]. subst rest. cbn beta iota. destruct (isDiscardedTransaction e) eqn:He; [|apply Hk].
    apply discarded_iff in He. destruct (Hd He) as [-> Hn]. apply leaves_result; [exact Hw|exact Hc|].
    intros tid' [= <-]. by apply gone_finished.
Qed.

(** The transaction the projection is about: that of the active session, or the one the
    recording begins for it. *)
Definition Takes w (t : option chars) : Prop :=
  match entry w with
  | Some a => t = ap_transactionId a
  | None => ∃ input s, beginTransactionInput formatted session = Some input ∧
      beginTransaction to_lowercase input (wp_session w) = (s, Ok t)
  end.

(** C14: A session whose streams lost nothing to the capture budget, projected in order while
    the relays go on and other tasks use the recording without touching its transaction:
    nothing panics, the recording stays sound, and when the projection succeeds, the bodies
    on record are the captured streams up to the last flush, and after a closing or failing
    snapshot the transaction is finished with exactly the bytes the snapshot counts. *)
Theorem stream_recorded_whole w :
  World hs (wp_session w) → Captured w →
  pj_minimumCaptureGeneration (wp_projector w) ≤ sn_captureGeneration session →
  sn_sessionId session ∉ pj_finalized (wp_projector w) → projectableTransport session = true →
  (∀ a, entry w = Some a → Flushed a (wp_session w) ∧ InOrder a) →
  (∀ t, Takes w t → Spared t) →
  Runs (project formatted collected env session) w
    (λ _ w', World hs (wp_session w') ∧
       ((entry w = None ∧ beginTransactionInput formatted session = None ∧ wp_session w' = wp_session w) ∨
          ∃ t, Takes w t ∧ Result t w'))
    (λ _ w', World hs (wp_session w')).
Proof using Hok collected_items c_ok traced gentle.
  intros Hw Hc Hgen Hfin Htr Hact Hsp. unfold project. cbv zeta. apply runs_bind, runs_gets.
  rewrite (proj2 (Z.ltb_ge _ _)), bool_decide_false, Htr by done. cbn [negb].
  destruct (entry w) as [a|] eqn:Ha.
  - destruct (Hact a eq_refl) as [Hfl Hord]. eapply runs_mono, (synchronize_runs a); [| |by split|done|]; [|by intros|].
    + cbn beta. intros _ w' Hres. split; [apply Hres|]. right. exists (ap_transactionId a). unfold Takes. by rewrite Ha.
    + apply Hsp. unfold Takes. by rewrite Ha.
  - destruct (beginTransactionInput formatted session) as [input|] eqn:Hin.
    2: { case_if Hend; [apply runs_modify|apply runs_ret]; (split; [done|left; by split_and!]). }
    apply runs_bind. eapply on_session_runs; [exact (beginTransaction_runs to_lowercase hs _ input Hw)| |]; cbn beta.
    2: { intros e s' _ Hk. apply Hk. }
    intros t s' Hbegin [Hk Hnew]. assert (Htakes : Takes w t) by (unfold Takes; rewrite Ha; eauto).
    specialize (Hsp t Htakes). apply runs_bind, gentle_runs; [done|apply Hk|done|]. intros w2 Hp2 Hk2 Hc2.
    apply runs_bind, runs_modify. set (a := activated t session).
    eapply runs_mono, (synchronize_runs a); [|by intros| | |done].
    + cbn beta. intros _ w' Hres. split; [apply Hres|]. right. by exists t.
    + split; [apply Hk2|done| |].
      * cbn. apply lookup_insert_eq.
      * intros tid Ht. change (ap_transactionId a) with t in Ht. subst t. destruct (Hsp tid eq_refl) as [Hnf _].
        destruct Hnew as (r & Hr & Hp & _). split; [|by intros []; cbn; lia].
        eapply open_keeps; [exact Hk2|done|]. split.
        { destruct (w_ids _ _ (kp_world _ _ _ _ Hk) tid) as (n & Hn & ->); [by eexists|]. by exists n. }
        intros r2 Hr2. cbn in *. congruence.
    + intros side. pose proof (counted_nonneg side). by destruct side.
Qed.
End projection.
End recording.
