(* ===== verification/SocksProjectionExamples.v ===== *)
(** * SOCKS sessions on concrete inputs

    A relayed session that is recorded, the witnesses of the theorems on its projection,
    and a closed session that is recorded twice. *)

From S2P Require Import Prelude NetAddress Stateful Text WireDiff Location CaptureModel BodyStore BodyStoreSpec BodyOwnership RecordingState Recording RecordingInvariant RecordingWorld RecordingCleanup RecordingMethods RecordingSteps RecordingExamples SessionCapture SessionRegistry SessionRegistryInvariant SessionRegistryTheorems UdpPersist SocksProjection SocksProjectionTheorems StreamTraces StreamRecording.

(** ** A relayed session *)
Definition targetEx (id : nat) : SessionRegistry.Call :=
  Update (idsEx id) {| up_username := None; up_command := Some (lit "connect");
    up_targetAddress := Some (lit "10.0.0.9:80"); up_applicationProtocol := Some SessionRegistry.Tcp;
    up_state := Relaying |}.

Definition relayingEx : list Transition :=
  [Start (Create (lit "10.0.0.1:5000")); Start (targetEx 0);
   Start (Traffic (idsEx 0) Up (lit "ask") (lit "ask")); Start (Traffic (idsEx 0) Down (lit "answer") (lit "answer"));
   Hold (idsEx 0); Start (Traffic (idsEx 0) Up (lit " me") (lit " me")); Start (Close (idsEx 0) []); Hold (idsEx 0)].

Definition relayedSystem : System := reachedEx relayingEx startEx.
Definition openSnapshot : SessionSnapshot := nth 1 (sy_held relayedSystem) SessionRegistryTheorems.sessionEx.
Definition closedSnapshot : SessionSnapshot := nth 0 (sy_held relayedSystem) SessionRegistryTheorems.sessionEx.
Definition streamsEx : SessionCapture :=
  default capture_default (rg_captures (sy_registry relayedSystem) !! sn_capture closedSnapshot).

Example snapshotsEx :
  (λ x, (sn_state x, sn_bytesUp x, sn_bytesDown x)) <$> [openSnapshot; closedSnapshot] =
  [(Relaying, 3, 6); (Closed, 6, 6)].
Proof. by vm_compute. Qed.

(** The budget is never used up. *)
Fixpoint roomyEx (ts : list Transition) (now : Z) (s : System) : bool :=
  match ts with
  | [] => true
  | t :: ts =>
      match transition idsEx iterationEx t now s with
      | Ok s =>
          (bu_usedBytes (rg_budget (sy_registry s)) <? bu_maximumBytes (rg_budget (sy_registry s)))
          && roomyEx ts (now + 1) s
      | _ => false
      end
  end.

Lemma roomyEx_reachable ts now s :
  Forall transitionOk ts → roomyEx ts now s = true →
  ∃ s', runsEx ts now s = Ok s' ∧ rtc (Roomy idsEx iterationEx) s s'.
Proof.
  intros Hok. revert now s. induction Hok as [|t ts Ht _ IH]; cbn; intros now s; [exists s; split; [done|constructor]|].
  destruct (transition idsEx iterationEx t now s) as [s1| |] eqn:Heq; [|done..]. cbn.
  intros [Hroom%Z.ltb_lt Hr]%andb_true_iff. destruct (IH _ _ Hr) as (s' & Hs' & Hrtc). exists s'. split; [done|].
  eapply rtc_l, Hrtc. split; [by exists t, now|exact Hroom].
Qed.

Lemma relayed_roomy : rtc (Roomy idsEx iterationEx) startEx relayedSystem.
Proof.
  destruct (roomyEx_reachable relayingEx 1000 startEx) as (s' & Hs' & Hr).
  { unfold relayingEx. repeat constructor; cbn; done. }
  { by vm_compute. }
  unfold relayedSystem, reachedEx. by rewrite Hs'.
Qed.

Lemma closed_live : closedSnapshot ∈ live relayedSystem.
Proof.
  assert (Hx : sy_held relayedSystem !! 0%nat = Some closedSnapshot) by by vm_compute.
  unfold live. apply elem_of_app. right. apply elem_of_app. left. by eapply list_elem_of_lookup_2.
Qed.

Lemma streams_captured :
  rg_captures (sy_registry relayedSystem) !! sn_capture closedSnapshot = Some streamsEx.
Proof. by vm_compute. Qed.

Lemma snapshots_traced_witness :
  Traced closedSnapshot streamsEx ∧
  ∀ s', rtc (λ s1 s2, SessionRegistryTheorems.Good idsEx iterationEx s1 s2 ∧ closedSnapshot ∈ live s2) relayedSystem s' →
    ∃ c', rg_captures (sy_registry s') !! sn_capture closedSnapshot = Some c' ∧ Grows streamsEx c'.
Proof.
  refine (snapshots_traced idsEx iterationEx iterationEx_perm 1 10000 relayedSystem closedSnapshot streamsEx
    _ _ relayed_roomy closed_live streams_captured _); [lia|by vm_compute|by intros []; vm_compute].
Defined.

(** ** The session on record *)
Definition storeEx : TransactionStore RecordingSession := recordingStore to_ascii_lowercase.
#[local] Existing Instance storeEx.

Definition aloneEx {Session} : Circumstances (Session := Session) :=
  {| ci_others := λ _ w, w; ci_running := true; ci_now := 2000 |}.

Definition projectionEx : Projection (Session := RecordingSession) :=
  {| wp_projector := newProjector 1; wp_session := RecordingExamples.sessionEx; wp_registry := relayedSystem |}.

Lemma relayed_capture_ok : CaptureOk streamsEx.
Proof.
  assert (Hg : rtc (SessionRegistryTheorems.Good idsEx iterationEx) startEx relayedSystem).
  { eapply rtc_subrel, relayed_roomy. by intros ? ? []. }
  destruct (reachable_system_inv idsEx iterationEx iterationEx_perm 1 10000 _ ltac:(lia) ltac:(lia) Hg) as [Hi _].
  exact (ri_captures _ _ _ _ (si_registry _ _ Hi) _ _ streams_captured).
Qed.

Lemma streams_traced : Traced closedSnapshot streamsEx.
Proof.
  intros []; [exists 2%nat|exists 1%nat]; (split; [by vm_compute|]).
  - vm_compute. repeat constructor.
  - vm_compute. repeat constructor.
Qed.

Lemma stream_recorded_whole_witness :
  Runs (project tight vec_of (λ _ w, w) closedSnapshot) projectionEx
    (λ _ w', RecordingWorld.World [] (wp_session w') ∧
       ((pj_active (wp_projector projectionEx) !! sn_sessionId closedSnapshot = None ∧
         beginTransactionInput tight closedSnapshot = None ∧ wp_session w' = wp_session projectionEx) ∨
        ∃ t, Takes to_ascii_lowercase tight closedSnapshot projectionEx t ∧
          Result [] closedSnapshot streamsEx t w'))
    (λ _ w', RecordingWorld.World [] (wp_session w')).
Proof.
  refine (stream_recorded_whole to_ascii_lowercase tight vec_of (λ _, eq_refl) [] Quiet closedSnapshot streamsEx
    relayed_capture_ok streams_traced (λ _ w, w) _ projectionEx (goodEx []) _ _ _ _ _ _).
  - intros m s r Hs. split; [by apply keeps_refl|]. intros c1 Hc1 Hok. exists c1. split; [done|by apply grows_refl].
  - exists streamsEx. split; [exact streams_captured|apply grows_refl, relayed_capture_ok].
  - by vm_compute.
  - exact (not_elem_of_empty _).
  - by vm_compute.
  - intros a Ha. exfalso. by vm_compute in Ha.
  - intros t _ tid _. split; [by intros []|by intros side []].
Defined.

(** ** The forwarder *)
Abbreviation JournalEx := (RecordingSession * list StoreCall)%type.
Definition startJournal : JournalEx := (RecordingExamples.sessionEx, []).
Abbreviation forwardEx :=
  (forwardRuntimeEvents (Session := JournalEx) tight vec_of map_to_list idsEx iterationEx 1 (λ _, aloneEx)).

(** The relayed session, closed, and a late repetition of the first snapshot. *)
Definition eventsEx : list (RuntimeEvent (Session := JournalEx)) :=
  [SessionEvent openSnapshot aloneEx; SessionEvent closedSnapshot aloneEx; SessionEvent openSnapshot aloneEx].

Definition forwardedEx : outcome unit (Projection (Session := JournalEx)) :=
  forwardEx [] eventsEx startJournal relayedSystem.

Definition valueOf {E A} (m : outcome E A) : option A := match m with Ok a => Some a | _ => None end.

(** The journal without the ids. *)
Definition noteEx (call : StoreCall) : chars :=
  match call with
  | BeginRefused => lit "refused" | Began (Some _) => lit "began" | Began None => lit "ignored"
  | Touched _ => lit "touched" | Ended _ => lit "ended"
  end.

(** Six calls for the first snapshot, four for the closing one, none for the late one. *)
Example forwardedEx_calls :
  (λ w, noteEx <$> journal w) <$> valueOf forwardedEx =
  Some ([lit "began"; lit "touched"; lit "touched"; lit "touched"; lit "touched"; lit "touched"] ++
        [lit "touched"; lit "touched"; lit "touched"; lit "ended"]).
Proof. by vm_compute. Qed.

(** The transaction is complete, with the streams of the session as its bodies. *)
Example forwardedEx_record :
  (w ← valueOf forwardedEx;
   r ← st_transactions (ss_state (wp_session w).1) !! idEx;
   request ← record_body r Request; response ← record_body r Response;
   Some (ts_status (tr_summary r), contentOf (ss_bodyStore (wp_session w).1) request,
     contentOf (ss_bodyStore (wp_session w).1) response)) =
  Some (Complete, Some (lit "ask me"), Some (lit "answer")).
Proof. by vm_compute. Qed.

Definition sessionsSeen : gset chars := {[idsEx 0]}.

Lemma openSnapshot_seen : sn_sessionId openSnapshot ∈ sessionsSeen.
Proof. apply elem_of_singleton. by vm_compute. Qed.

Lemma closedSnapshot_seen : sn_sessionId closedSnapshot ∈ sessionsSeen.
Proof. apply elem_of_singleton. by vm_compute. Qed.

Lemma returned {E A} (m : outcome E A) (H : match m with Ok _ => True | _ => False end) : m = Ok (result m H).
Proof. destruct m as [a|e|]; [done|destruct H..]. Qed.

Definition finalEx : Projection (Session := JournalEx) := result forwardedEx I.

Lemma forwardedEx_returns : forwardEx [] eventsEx startJournal relayedSystem = Ok finalEx.
Proof. change (forwardedEx = Ok finalEx). apply returned. Qed.

Lemma alone_silent : Silent (ci_others (Session := JournalEx) aloneEx).
Proof. done. Qed.

Lemma session_recorded_once_witness :
  let w := {| wp_projector := newProjector 1; wp_session := startJournal; wp_registry := relayedSystem |} in
  ∃ log, Moves tight vec_of sessionsSeen map_to_list idsEx iterationEx w log finalEx ∧
    journal finalEx = journal w ++ log.*2 ∧
    ∀ id, is_Some (lives Unseen (callsFor id log)).
Proof.
  refine (session_recorded_once tight vec_of 1 sessionsSeen _ map_to_list (λ m, reflexivity _) idsEx iterationEx
    1 (λ _, aloneEx) [] eventsEx startJournal relayedSystem _ eq_refl (λ _, alone_silent) (List.Forall_nil _) _ forwardedEx_returns).
  - by vm_compute.
  - intros w1 _. cbn [Served eventsEx].
    split; [exact alone_silent|split; [exact openSnapshot_seen|intros w2 _]].
    split; [exact alone_silent|split; [exact closedSnapshot_seen|intros w3 _]].
    split; [exact alone_silent|split; [exact openSnapshot_seen|intros w4 _; exact I]].
Defined.

(** ** A session that is recorded twice *)
(** Two sessions of a registry that keeps one closed session.  The second closes last but
    its event is published first; the receiver then lags. *)
Definition racingEx : list Transition :=
  [Start (Create (lit "10.0.0.1:5000")); Start (targetEx 0); Start (Create (lit "10.0.0.2:5000")); Start (targetEx 1);
   Start (Close (idsEx 0) []); Start (Close (idsEx 1) [])].

(** The closings count, publish and prune, the second first. *)
Definition finishingEx : list Transition :=
  [Resume 5 true; Resume 5 true; Resume 5 true; Resume 4 true; Resume 4 true; Resume 4 true].
Definition racedSystem : System := reachedEx (racingEx ++ finishingEx) startEx.

Definition racedEvents : list (RuntimeEvent (Session := JournalEx)) :=
  ((λ snapshot, SessionEvent snapshot aloneEx) <$> reverse (sy_held racedSystem)) ++ [Lagged (λ _, aloneEx) true].

(** The history of the projector and that of the registry have the same limit, but the
    one forgets in the order of the projections and the other in that of the closings.  A
    replay then finds a closed session that the projector has forgotten. *)
Theorem closed_session_recorded_twice :
  sn_sessionId <$> reverse (sy_held racedSystem) = [idsEx 1; idsEx 0] ∧
  (sn_sessionId <$> currentSocksSessions iterationEx true racedSystem) = [idsEx 1] ∧
  (λ w, filter (λ note, note ≠ lit "touched") (noteEx <$> journal w)) <$>
    valueOf (forwardEx [] racedEvents startJournal racedSystem) =
    Some [lit "began"; lit "ended"; lit "began"; lit "ended"; lit "began"; lit "ended"].
Proof. split_and!; by vm_compute. Qed.
