(* ===== verification/MessageDraft.v ===== *)
(** * HTTP messages under edit

    Model of [Server/Backend/HttpProxy/src/tools/messageDraft.rs], the draft of a suspended
    message that goes to the control API and comes back, with what it uses of [pipeline.rs]
    (the message and its context) and [target.rs] (the target of a request).

    The types of the crates [http] and [base64] are parameters, with what the proofs use of
    their documentation in [HttpLaws].  The two throttle plans of the context, which nothing
    here reads or writes, are left out. *)

From S2P Require Import Prelude NetAddress Text Stateful Location Socks5Codec CaptureModel.

(** ** UTF-8 *)
Definition replacement : Z := 65533.
Definition continuation (b : Z) : bool := between 128 b 191.

(** The range of the second byte after a leading byte of three or four. *)
Definition secondOfThree (b0 b1 : Z) : bool :=
  if b0 =? 224 then between 160 b1 191 else if b0 =? 237 then between 128 b1 159 else continuation b1.
Definition secondOfFour (b0 b1 : Z) : bool :=
  if b0 =? 240 then between 144 b1 191 else if b0 =? 244 then between 128 b1 143 else continuation b1.

(** [String::from_utf8_lossy]: each maximal piece of an ill-formed sequence is one
    replacement character. *)
Fixpoint from_utf8_lossy (l : list Z) : chars :=
  match l with
  | [] => []
  | b0 :: l1 =>
      if between 0 b0 127 then b0 :: from_utf8_lossy l1
      else if between 194 b0 223 then
        match l1 with
        | b1 :: l2 =>
            if continuation b1 then (b0 - 192) * 64 + (b1 - 128) :: from_utf8_lossy l2
            else replacement :: from_utf8_lossy l1
        | [] => [replacement]
        end
      else if between 224 b0 239 then
        match l1 with
        | b1 :: l2 =>
            if secondOfThree b0 b1 then
              match l2 with
              | b2 :: l3 =>
                  if continuation b2
                  then (b0 - 224) * 4096 + (b1 - 128) * 64 + (b2 - 128) :: from_utf8_lossy l3
                  else replacement :: from_utf8_lossy l2
              | [] => [replacement]
              end
            else replacement :: from_utf8_lossy l1
        | [] => [replacement]
        end
      else if between 240 b0 244 then
        match l1 with
        | b1 :: l2 =>
            if secondOfFour b0 b1 then
              match l2 with
              | b2 :: l3 =>
                  if continuation b2 then
                    match l3 with
                    | b3 :: l4 =>
                        if continuation b3 then
                          (b0 - 240) * 262144 + (b1 - 128) * 4096 + (b2 - 128) * 64 + (b3 - 128)
                          :: from_utf8_lossy l4
                        else replacement :: from_utf8_lossy l3
                    | [] => [replacement]
                    end
                  else replacement :: from_utf8_lossy l2
              | [] => [replacement]
              end
            else replacement :: from_utf8_lossy l1
        | [] => [replacement]
        end
      else replacement :: from_utf8_lossy l1
  end.

(** ** The libraries *)
Class HttpCrate := {
  Method : Type;
  parseMethod : chars → option Method;
  methodText : Method → chars;
  Authority : Type;
  parseAuthority : chars → option Authority;
  authorityText : Authority → chars;
  authorityHost : Authority → chars;
  authorityPort : Authority → option Z;
  PathAndQuery : Type;
  pathAndQueryFromStatic : chars → PathAndQuery;
  Uri : Type;
  parseUri : chars → option Uri;
  uriText : Uri → chars;
  uriScheme : Uri → option chars;
  uriAuthority : Uri → option Authority;
  uriPath : Uri → chars;
  uriQuery : Uri → option chars;
  uriPathAndQuery : Uri → option PathAndQuery;
  buildUri : chars → Authority → PathAndQuery → option Uri;
  Version : Type;
  HTTP_11 : Version;
  StatusCode : Type;
  statusFromU16 : Z → option StatusCode;
  statusAsU16 : StatusCode → Z;
  BAD_GATEWAY : StatusCode;
  HeaderName : Type;
  HeaderName_eq_dec :: EqDecision HeaderName;
  parseHeaderName : chars → option HeaderName;
  headerNameFromStatic : chars → HeaderName;
  headerNameText : HeaderName → chars;
  CONTENT_ENCODING : HeaderName;
  CONTENT_LENGTH : HeaderName;
  CONTENT_TYPE : HeaderName;
  HOST : HeaderName;
  TRANSFER_ENCODING : HeaderName;
  HeaderValue : Type;
  headerValueFromStr : chars → option HeaderValue;
  headerValueFromStatic : chars → HeaderValue;
  headerValueBytes : HeaderValue → list Z;
  HeaderMap : Type;
  newHeaders : HeaderMap;
  headerEntries : HeaderMap → list (HeaderName * HeaderValue);
  appendHeader : HeaderName → HeaderValue → HeaderMap → HeaderMap;
  insertHeader : HeaderName → HeaderValue → HeaderMap → HeaderMap;
  removeHeader : HeaderName → HeaderMap → HeaderMap;
  containsHeader : HeaderName → HeaderMap → bool;
  base64Encode : list Z → chars;
  base64Decode : chars → option (list Z)
}.

(** ** Messages *)
Inductive RequestFailure :=
| InvalidRequest | LoopDetected | UnsupportedScheme | UpstreamUnavailable | UpstreamTimeout
| ClientDisconnected | UpgradeFailed | CancelledRequest | CaptureFailed | UpstreamProtocol
| DownstreamTlsHandshake | UpstreamTlsHandshake | PipelineBodyLimitExceeded.

Definition maximumEditableBodyBytes : Z := 8 * 1024 * 1024.
Definition maximumEditableBodyCharacters : Z := (maximumEditableBodyBytes + 2) / 3 * 4.
Definition maximumEditableHeaders : Z := 256.
Definition maximumEditableMethodCharacters : Z := 32.
Definition maximumEditableUrlCharacters : Z := 8192.

Record HeaderField := { hf_name : chars; hf_value : chars }.

Record EditableHttpMessage := {
  em_method : option chars;
  em_url : option chars;
  em_statusCode : option Z;
  em_reason : option chars;
  em_headers : list HeaderField;
  em_bodyBase64 : chars
}.

Inductive MessageDraftError :=
| TooManyHeaders | InvalidHeaderName | InvalidHeaderValue | InvalidBodyBase64 | BodyTooLarge
| InvalidRequestMethod | InvalidRequestUrl | InvalidResponseStatus | UnsupportedReason | MissingResponse.

Definition draftErrorCode (error : MessageDraftError) : chars :=
  lit (match error with
       | TooManyHeaders => "breakpointTooManyHeaders"
       | InvalidHeaderName => "breakpointInvalidHeaderName"
       | InvalidHeaderValue => "breakpointInvalidHeaderValue"
       | InvalidBodyBase64 => "breakpointInvalidBodyBase64"
       | BodyTooLarge => "breakpointBodyTooLarge"
       | InvalidRequestMethod => "breakpointInvalidRequestMethod"
       | InvalidRequestUrl => "breakpointInvalidRequestUrl"
       | InvalidResponseStatus => "breakpointInvalidResponseStatus"
       | UnsupportedReason => "breakpointUnsupportedReason"
       | MissingResponse => "breakpointMissingResponse"
       end)%string.

Abbreviation drafting := (outcome MessageDraftError) (only parsing).

Section messages.
Context `{HttpCrate}.

Record RequestDraft := {
  rq_method : Method;
  rq_uri : Uri;
  rq_version : Version;
  rq_headers : HeaderMap;
  rq_body : option (list Z)
}.

Record ResponseDraft := {
  rd_status : StatusCode;
  rd_version : Version;
  rd_headers : HeaderMap;
  rd_body : option (list Z)
}.

Record SyntheticResponse := {
  sr_status : StatusCode;
  sr_version : Version;
  sr_headers : HeaderMap;
  sr_body : list Z
}.

Definition newSynthetic (status : StatusCode) (body : list Z) : SyntheticResponse :=
  {| sr_status := status; sr_version := HTTP_11; sr_headers := newHeaders; sr_body := body |}.
Definition fromSynthetic (response : SyntheticResponse) : ResponseDraft :=
  {| rd_status := sr_status response; rd_version := sr_version response;
     rd_headers := sr_headers response; rd_body := Some (sr_body response) |}.

Record PipelineContext := {
  pc_transactionId : option chars;
  pc_recordingSessionId : option chars;
  pc_clientAddress : chars;
  pc_clientProcessName : option chars;
  pc_clientProcessId : option Z;
  pc_originalLocation : ResolvedLocation;
  pc_location : ResolvedLocation;
  pc_request : RequestDraft;
  pc_response : option ResponseDraft;
  pc_shortCircuit : bool;
  pc_blocked : bool;
  pc_suspended : bool;
  pc_flags : TransactionFlags;
  pc_appliedTools : list chars
}.

Definition newContext (clientAddress : chars) (location : ResolvedLocation) (request : RequestDraft) : PipelineContext :=
  {| pc_transactionId := None; pc_recordingSessionId := None; pc_clientAddress := clientAddress;
     pc_clientProcessName := None; pc_clientProcessId := None; pc_originalLocation := location;
     pc_location := location; pc_request := request; pc_response := None; pc_shortCircuit := false;
     pc_blocked := false; pc_suspended := false; pc_flags := TransactionFlags_default; pc_appliedTools := [] |}.

Definition set_request (v : RequestDraft) (c : PipelineContext) : PipelineContext :=
  {| pc_transactionId := pc_transactionId c; pc_recordingSessionId := pc_recordingSessionId c;
     pc_clientAddress := pc_clientAddress c; pc_clientProcessName := pc_clientProcessName c;
     pc_clientProcessId := pc_clientProcessId c; pc_originalLocation := pc_originalLocation c;
     pc_location := pc_location c; pc_request := v; pc_response := pc_response c;
     pc_shortCircuit := pc_shortCircuit c; pc_blocked := pc_blocked c; pc_suspended := pc_suspended c;
     pc_flags := pc_flags c; pc_appliedTools := pc_appliedTools c |}.
Definition set_response (v : option ResponseDraft) (c : PipelineContext) : PipelineContext :=
  {| pc_transactionId := pc_transactionId c; pc_recordingSessionId := pc_recordingSessionId c;
     pc_clientAddress := pc_clientAddress c; pc_clientProcessName := pc_clientProcessName c;
     pc_clientProcessId := pc_clientProcessId c; pc_originalLocation := pc_originalLocation c;
     pc_location := pc_location c; pc_request := pc_request c; pc_response := v;
     pc_shortCircuit := pc_shortCircuit c; pc_blocked := pc_blocked c; pc_suspended := pc_suspended c;
     pc_flags := pc_flags c; pc_appliedTools := pc_appliedTools c |}.
Definition set_location (v : ResolvedLocation) (c : PipelineContext) : PipelineContext :=
  {| pc_transactionId := pc_transactionId c; pc_recordingSessionId := pc_recordingSessionId c;
     pc_clientAddress := pc_clientAddress c; pc_clientProcessName := pc_clientProcessName c;
     pc_clientProcessId := pc_clientProcessId c; pc_originalLocation := pc_originalLocation c;
     pc_location := v; pc_request := pc_request c; pc_response := pc_response c;
     pc_shortCircuit := pc_shortCircuit c; pc_blocked := pc_blocked c; pc_suspended := pc_suspended c;
     pc_flags := pc_flags c; pc_appliedTools := pc_appliedTools c |}.
Definition set_suspended (suspended breakpointHit : bool) (c : PipelineContext) : PipelineContext :=
  let f := pc_flags c in
  {| pc_transactionId := pc_transactionId c; pc_recordingSessionId := pc_recordingSessionId c;
     pc_clientAddress := pc_clientAddress c; pc_clientProcessName := pc_clientProcessName c;
     pc_clientProcessId := pc_clientProcessId c; pc_originalLocation := pc_originalLocation c;
     pc_location := pc_location c; pc_request := pc_request c; pc_response := pc_response c;
     pc_shortCircuit := pc_shortCircuit c; pc_blocked := pc_blocked c; pc_suspended := suspended;
     pc_flags := {| tf_mappedLocal := tf_mappedLocal f; tf_mappedRemote := tf_mappedRemote f;
                    tf_rewritten := tf_rewritten f; tf_breakpointHit := breakpointHit;
                    tf_throttled := tf_throttled f; tf_mitmDecrypted := tf_mitmDecrypted f;
                    tf_bodyTruncated := tf_bodyTruncated f; tf_headersTruncated := tf_headersTruncated f;
                    tf_fromCache := tf_fromCache f |};
     pc_appliedTools := pc_appliedTools c |}.

Definition set_rq_headers (v : HeaderMap) (r : RequestDraft) : RequestDraft :=
  {| rq_method := rq_method r; rq_uri := rq_uri r; rq_version := rq_version r; rq_headers := v; rq_body := rq_body r |}.

(** ** Targets *)
Record HttpTarget := { ht_upstreamUri : Uri; ht_hostHeader : HeaderValue; ht_location : ResolvedLocation }.

Definition canonicalAuthority (host : chars) (port defaultPort : Z) : outcome RequestFailure Authority :=
  let authorityHost := if contains_char 58 host && negb (starts_with [91] host) then [91] ++ host ++ [93] else host in
  let value := if port =? defaultPort then authorityHost else authorityHost ++ [58] ++ decimal port in
  ok_or (parseAuthority value) InvalidRequest.

Definition canonicalHostHeader (host : chars) (port defaultPort : Z) : outcome RequestFailure HeaderValue :=
  authority ← canonicalAuthority host port defaultPort;
  ok_or (headerValueFromStr (authorityText authority)) InvalidRequest.

Definition parsePipelineTarget (request : RequestDraft) : outcome RequestFailure HttpTarget :=
  let requestedUri := rq_uri request in
  scheme ← ok_or (uriScheme requestedUri) InvalidRequest;
  defaultPort ← (if str_eqb scheme (lit "http") then Ok 80
                 else if str_eqb scheme (lit "https") then Ok 443 else Err UnsupportedScheme);
  authority ← ok_or (uriAuthority requestedUri) InvalidRequest;
  let host := authorityHost authority in
  _ ← check (negb (is_empty host)) InvalidRequest;
  let port := default defaultPort (authorityPort authority) in
  let path := uriPath requestedUri in
  _ ← check (starts_with [47] path) InvalidRequest;
  authority ← canonicalAuthority host port defaultPort;
  upstreamUri ← ok_or (buildUri scheme authority
    (default (pathAndQueryFromStatic [47]) (uriPathAndQuery requestedUri))) InvalidRequest;
  hostHeader ← canonicalHostHeader host port defaultPort;
  Ok {| ht_upstreamUri := upstreamUri; ht_hostHeader := hostHeader;
        ht_location := {| rl_protocol := scheme; rl_host := host; rl_port := port; rl_path := path;
                          rl_query := default [] (uriQuery requestedUri); rl_display := uriText upstreamUri |} |}.

(** ** Drafts *)
Definition contentMd5Name : HeaderName := headerNameFromStatic (lit "content-md5").

Definition headerFields (headers : HeaderMap) : list HeaderField :=
  (λ '(name, value), {| hf_name := headerNameText name; hf_value := from_utf8_lossy (headerValueBytes value) |})
  <$> headerEntries headers.
Definition encodeBody (body : option (list Z)) : chars := base64Encode (default [] body).

Definition editableRequest (context : PipelineContext) : EditableHttpMessage :=
  {| em_method := Some (methodText (rq_method (pc_request context)));
     em_url := Some (uriText (rq_uri (pc_request context))); em_statusCode := None; em_reason := None;
     em_headers := headerFields (rq_headers (pc_request context));
     em_bodyBase64 := encodeBody (rq_body (pc_request context)) |}.
Definition editableResponse (response : ResponseDraft) : EditableHttpMessage :=
  {| em_method := None; em_url := None; em_statusCode := Some (statusAsU16 (rd_status response));
     em_reason := None; em_headers := headerFields (rd_headers response);
     em_bodyBase64 := encodeBody (rd_body response) |}.

(** The loop of [headerMap]. *)
Fixpoint appendFields (fields : list HeaderField) (headers : HeaderMap) : drafting HeaderMap :=
  match fields with
  | [] => Ok headers
  | field :: fields =>
      name ← ok_or (parseHeaderName (hf_name field)) InvalidHeaderName;
      value ← ok_or (headerValueFromStr (hf_value field)) InvalidHeaderValue;
      appendFields fields (appendHeader name value headers)
  end.
Definition headerMap (fields : list HeaderField) : drafting HeaderMap :=
  _ ← check (len fields <=? maximumEditableHeaders) TooManyHeaders;
  appendFields fields newHeaders.

Definition decodeBody (encoded : chars) : drafting (list Z) :=
  _ ← check (str_len encoded <=? maximumEditableBodyCharacters) BodyTooLarge;
  body ← ok_or (base64Decode encoded) InvalidBodyBase64;
  _ ← check (len body <=? maximumEditableBodyBytes) BodyTooLarge;
  Ok body.

Definition parseAbsoluteUri (value : chars) : drafting Uri :=
  uri ← ok_or (parseUri value) InvalidRequestUrl;
  _ ← check (bool_decide (uriScheme uri = Some (lit "http") ∨ uriScheme uri = Some (lit "https"))
             && from_option (λ _, true) false (uriAuthority uri) && starts_with [47] (uriPath uri)) InvalidRequestUrl;
  Ok uri.

Definition nonEmpty (value : option chars) : bool := from_option (λ value, negb (is_empty value)) false value.

Definition validateSharedDraft (draft : EditableHttpMessage) : drafting unit :=
  _ ← headerMap (em_headers draft);
  _ ← decodeBody (em_bodyBase64 draft);
  Ok tt.

Definition validateRequestDraft (draft : EditableHttpMessage) : drafting unit :=
  _ ← check (negb (bool_decide (is_Some (em_statusCode draft)) || nonEmpty (em_reason draft))) InvalidRequestUrl;
  _ ← match em_method draft with
      | Some method =>
          _ ← check (str_len method <=? maximumEditableMethodCharacters) InvalidRequestMethod;
          _ ← ok_or (parseMethod method) InvalidRequestMethod;
          Ok tt
      | None => Ok tt
      end;
  _ ← match em_url draft with
      | Some url =>
          _ ← check (str_len url <=? maximumEditableUrlCharacters) InvalidRequestUrl;
          _ ← parseAbsoluteUri url;
          Ok tt
      | None => Ok tt
      end;
  validateSharedDraft draft.

Definition validateResponseDraft (draft : EditableHttpMessage) : drafting unit :=
  _ ← check (negb (bool_decide (is_Some (em_method draft)) || bool_decide (is_Some (em_url draft))))
        InvalidResponseStatus;
  _ ← match em_statusCode draft with
      | Some statusCode => _ ← ok_or (statusFromU16 statusCode) InvalidResponseStatus; Ok tt
      | None => Ok tt
      end;
  _ ← check (negb (nonEmpty (em_reason draft))) UnsupportedReason;
  validateSharedDraft draft.

Definition normalizeModifiedBodyHeaders (headers : HeaderMap) (bodyLength : Z) : drafting HeaderMap :=
  let headers := if containsHeader CONTENT_ENCODING headers
                 then insertHeader CONTENT_ENCODING (headerValueFromStatic (lit "identity")) headers else headers in
  let headers := removeHeader TRANSFER_ENCODING headers in
  let headers := removeHeader contentMd5Name headers in
  length ← expect (headerValueFromStr (decimal bodyLength));
  Ok (insertHeader CONTENT_LENGTH length headers).

(** The headers of a message with an edited body. *)
Definition framedHeaders (body : list Z) (old : option (list Z)) (headers : HeaderMap) : drafting HeaderMap :=
  let bodyChanged := negb (bool_decide (body = default [] old)) in
  if bodyChanged then normalizeModifiedBodyHeaders headers (len body) else Ok headers.

Definition applyResponseDraft (draft : EditableHttpMessage) : stateful ResponseDraft MessageDraftError unit :=
  _ ← lift (validateResponseDraft draft);
  headers ← lift (headerMap (em_headers draft));
  body ← lift (decodeBody (em_bodyBase64 draft));
  old ← gets rd_body;
  _ ← match em_statusCode draft with
      | Some statusCode =>
          status ← lift (ok_or (statusFromU16 statusCode) InvalidResponseStatus);
          modify (λ r, {| rd_status := status; rd_version := rd_version r; rd_headers := rd_headers r;
                          rd_body := rd_body r |})
      | None => mret tt
      end;
  _ ← modify (λ r, {| rd_status := rd_status r; rd_version := rd_version r; rd_headers := headers;
                      rd_body := rd_body r |});
  headers ← lift (framedHeaders body old headers);
  modify (λ r, {| rd_status := rd_status r; rd_version := rd_version r; rd_headers := headers;
                  rd_body := Some body |}).

Definition modifyRequest (f : RequestDraft → RequestDraft) : stateful PipelineContext MessageDraftError unit :=
  modify (λ c, set_request (f (pc_request c)) c).

Definition refreshRequestLocation : stateful PipelineContext MessageDraftError unit :=
  request ← gets pc_request;
  target ← lift (map_err (λ _, InvalidRequestUrl) (parsePipelineTarget request));
  _ ← modify (set_location (ht_location target));
  modifyRequest (λ r, set_rq_headers (insertHeader HOST (ht_hostHeader target) (rq_headers r)) r).

Definition applyRequestDraft (draft : EditableHttpMessage) : stateful PipelineContext MessageDraftError unit :=
  _ ← lift (validateRequestDraft draft);
  headers ← lift (headerMap (em_headers draft));
  body ← lift (decodeBody (em_bodyBase64 draft));
  old ← gets (λ c, rq_body (pc_request c));
  _ ← match em_method draft with
      | Some method =>
          method ← lift (ok_or (parseMethod method) InvalidRequestMethod);
          modifyRequest (λ r, {| rq_method := method; rq_uri := rq_uri r; rq_version := rq_version r;
                                 rq_headers := rq_headers r; rq_body := rq_body r |})
      | None => mret tt
      end;
  _ ← match em_url draft with
      | Some url =>
          uri ← lift (parseAbsoluteUri url);
          modifyRequest (λ r, {| rq_method := rq_method r; rq_uri := uri; rq_version := rq_version r;
                                 rq_headers := rq_headers r; rq_body := rq_body r |})
      | None => mret tt
      end;
  _ ← modifyRequest (set_rq_headers headers);
  headers ← lift (framedHeaders body old headers);
  _ ← modifyRequest (λ r, {| rq_method := rq_method r; rq_uri := rq_uri r; rq_version := rq_version r;
                             rq_headers := headers; rq_body := Some body |});
  refreshRequestLocation.
End messages.

(** ** What the code relies on *)
Section header_values.
Context `{HttpCrate}.

(** [HeaderMap::get_all]. *)
Definition headerValues (name : HeaderName) (headers : HeaderMap) : list HeaderValue :=
  (filter (λ entry, entry.1 = name) (headerEntries headers)).*2.
End header_values.

(** The characters [HeaderValue::from_str] is documented to accept (the last, 127, left out). *)
Definition visible (c : Z) : Prop := 32 ≤ c < 127.
#[export] Instance visible_dec c : Decision (visible c).
Proof. unfold visible. apply _. Defined.

(** Documented behaviour of the libraries: what is printed is read back, how a map of
    headers changes, and the size of encoded bodies. *)
Class HttpLaws `{HttpCrate} := {
  method_reads_back method : parseMethod (methodText method) = Some method;
  uri_reads_back uri : parseUri (uriText uri) = Some uri;
  status_reads_back status : statusFromU16 (statusAsU16 status) = Some status;
  name_reads_back name : parseHeaderName (headerNameText name) = Some name;
  value_reads_back value :
    Forall visible (headerValueBytes value) → headerValueFromStr (headerValueBytes value) = Some value;
  decimal_is_value n : 0 ≤ n → is_Some (headerValueFromStr (decimal n));
  values_new name : headerValues name newHeaders = [];
  values_append name k v headers :
    headerValues name (appendHeader k v headers)
    = headerValues name headers ++ (if decide (k = name) then [v] else []);
  values_insert name k v headers :
    headerValues name (insertHeader k v headers) = if decide (k = name) then [v] else headerValues name headers;
  values_remove name k headers :
    headerValues name (removeHeader k headers) = if decide (k = name) then [] else headerValues name headers;
  contains_values k headers : containsHeader k headers = negb (bool_decide (headerValues k headers = []));
  names_differ : NoDup [CONTENT_ENCODING; CONTENT_LENGTH; TRANSFER_ENCODING; contentMd5Name; HOST];
  body_reads_back body : bytes_ok body → base64Decode (base64Encode body) = Some body;
  encoded_length body : bytes_ok body → str_len (base64Encode body) = (len body + 2) / 3 * 4
}.

(** ** Visible text is read back *)
Lemma lossy_visible bytes : Forall visible bytes → from_utf8_lossy bytes = bytes.
Proof.
  induction 1 as [|b bytes Hb _ IH]; [done|]. cbn [from_utf8_lossy]. unfold visible in Hb.
  assert (between 0 b 127 = true) as -> by (unfold between; lia). by rewrite IH.
Qed.

(** ** Drafts that are applied *)
Section drafts.
Context `{Hlaws : HttpLaws}.

(** The values of a header the fields of a draft give. *)
Definition fieldValues (name : HeaderName) (fields : list HeaderField) : list HeaderValue :=
  omap (λ field, if decide (parseHeaderName (hf_name field) = Some name)
                 then headerValueFromStr (hf_value field) else None) fields.

(** The values of a header when a draft is applied: those of its fields, except that an
    edited body gets its length, loses what no longer describes it and is not encoded. *)
Definition reframedValues (name : HeaderName) (fields : list HeaderField) (body : list Z) (bodyChanged : bool)
    : list HeaderValue :=
  if bodyChanged then
    if decide (name = CONTENT_LENGTH) then option_list (headerValueFromStr (decimal (len body)))
    else if decide (name = TRANSFER_ENCODING ∨ name = contentMd5Name) then []
    else if decide (name = CONTENT_ENCODING) then
      match fieldValues name fields with [] => [] | _ => [headerValueFromStatic (lit "identity")] end
    else fieldValues name fields
  else fieldValues name fields.

Lemma append_fields_values fields headers :
  Satisfies (appendFields fields headers)
    (λ headers', ∀ name, headerValues name headers' = headerValues name headers ++ fieldValues name fields)
    (λ e, e = InvalidHeaderName ∨ e = InvalidHeaderValue).
Proof.
  revert headers. induction fields as [|field fields IH]; intros headers; cbn [appendFields].
  { intros name. by rewrite app_nil_r. }
  apply satisfies_bind, satisfies_ok_or; [intros name Hname|auto].
  apply satisfies_bind, satisfies_ok_or; [intros value Hvalue|auto].
  eapply satisfies_mono; [| |apply IH]; [|auto]. intros headers' Heq n. rewrite Heq, values_append, <-app_assoc.
  f_equal. cbn [fieldValues omap list_omap]. rewrite Hname. unfold fieldValues. cbn [omap].
  destruct (decide (name = n)) as [->|Hne].
  - rewrite decide_True by done. by rewrite Hvalue.
  - by rewrite decide_False by congruence.
Qed.

Lemma header_map_values fields :
  Satisfies (headerMap fields) (λ headers, ∀ name, headerValues name headers = fieldValues name fields) (λ _, True).
Proof.
  apply satisfies_bind, satisfies_check; [intros _|done].
  eapply satisfies_mono; [| |apply append_fields_values]; [|done].
  intros headers Heq name. by rewrite Heq, values_new.
Qed.

Lemma framed_values fields headers body old :
  (∀ name, headerValues name headers = fieldValues name fields) →
  Satisfies (framedHeaders body old headers)
    (λ headers', ∀ name, headerValues name headers'
                         = reframedValues name fields body (negb (bool_decide (body = default [] old))))
    (λ _, False).
Proof.
  intros Hvalues. unfold framedHeaders, reframedValues. case_bool_decide as Hbody; cbn [negb]; [done|].
  unfold normalizeModifiedBodyHeaders.
  destruct (decimal_is_value (len body)) as [length Hlength]; [apply len_nonneg|]. rewrite Hlength.
  cbn. intros name. rewrite values_insert, !values_remove.
  pose proof names_differ as Hd. rewrite !NoDup_cons in Hd. destruct Hd as (H1 & H2 & H3 & H4 & _).
  destruct (decide (CONTENT_LENGTH = name)) as [<-|Hcl]; [by rewrite decide_True|]. rewrite (decide_False (P:=name = _)) by done.
  destruct (decide (contentMd5Name = name)) as [<-|Hmd]; [by rewrite decide_True by auto|].
  destruct (decide (TRANSFER_ENCODING = name)) as [<-|Hte]; [by rewrite decide_True by auto|].
  rewrite (decide_False (P:=name = _ ∨ _)) by naive_solver.
  rewrite contains_values. destruct (decide (name = CONTENT_ENCODING)) as [->|Hce].
  - rewrite Hvalues. case_bool_decide as Hempty; cbn [negb].
    + by rewrite Hvalues, Hempty.
    + rewrite values_insert, decide_True by done. by destruct (fieldValues _ _).
  - case_match; [|done]. by rewrite values_insert, decide_False by done.
Qed.

(** What a message is after a draft was applied: its headers, and the body. *)
Definition AppliedDraft (draft : EditableHttpMessage) (old : option (list Z)) (headers : HeaderMap)
    (body : option (list Z)) (overridden : HeaderName → Prop) : Prop :=
  ∃ bytes, decodeBody (em_bodyBase64 draft) = Ok bytes ∧ body = Some bytes ∧
  ∀ name, ¬ overridden name → headerValues name headers
    = reframedValues name (em_headers draft) bytes (negb (bool_decide (bytes = default [] old))).

(** What validation establishes. *)
Definition SharedParts (draft : EditableHttpMessage) (headers : HeaderMap) (body : list Z) : Prop :=
  headerMap (em_headers draft) = Ok headers ∧ decodeBody (em_bodyBase64 draft) = Ok body.

Lemma validate_shared draft :
  Satisfies (validateSharedDraft draft) (λ _, ∃ headers body, SharedParts draft headers body) (λ _, True).
Proof.
  unfold validateSharedDraft, SharedParts.
  pose proof (header_map_values (em_headers draft)) as Hm.
  destruct (headerMap (em_headers draft)) as [headers|e|]; [|done|done]. cbn.
  unfold decodeBody. destruct (str_len _ <=? _); cbn; [|done]. destruct (base64Decode _) as [body|]; cbn; [|done].
  destruct (len body <=? _); cbn; [|done]. eauto.
Qed.

Lemma validate_response draft :
  Satisfies (validateResponseDraft draft)
    (λ _, (∃ headers body, SharedParts draft headers body) ∧
          (∀ code, em_statusCode draft = Some code → is_Some (statusFromU16 code)))
    (λ _, True).
Proof.
  unfold validateResponseDraft. apply satisfies_bind, satisfies_check; [intros _|done].
  apply satisfies_bind. destruct (em_statusCode draft) as [code|]; cbn.
  - destruct (statusFromU16 code) eqn:Hs; cbn; [|done]. destruct (negb _); cbn; [|done].
    eapply satisfies_mono; [| |apply validate_shared]; [|done]. intros ? Hparts. split; [done|]. intros ? [= <-]. by rewrite Hs.
  - destruct (negb _); cbn; [|done].
    eapply satisfies_mono; [| |apply validate_shared]; [|done]. done.
Qed.

Lemma validate_request draft :
  Satisfies (validateRequestDraft draft)
    (λ _, (∃ headers body, SharedParts draft headers body) ∧
          (∀ method, em_method draft = Some method → is_Some (parseMethod method)) ∧
          (∀ url, em_url draft = Some url → ∃ uri, parseAbsoluteUri url = Ok uri))
    (λ _, True).
Proof.
  unfold validateRequestDraft. apply satisfies_bind, satisfies_check; [intros _|done].
  apply satisfies_bind with (m := match em_method draft with Some _ => _ | None => _ end).
  assert (∀ Q, ((∀ method, em_method draft = Some method → is_Some (parseMethod method)) → Q tt) →
    Satisfies (match em_method draft with
      | Some method => _ ← check (str_len method <=? maximumEditableMethodCharacters) InvalidRequestMethod;
                       _ ← ok_or (parseMethod method) InvalidRequestMethod; Ok tt
      | None => Ok tt end) Q (λ _, True)) as Hmethod.
  { intros Q HQ. destruct (em_method draft) as [method|]; [|by apply HQ].
    destruct (_ <=? _); cbn; [|done]. destruct (parseMethod method) eqn:Hm; cbn; [|done].
    apply HQ. intros ? [= <-]. by rewrite Hm. }
  apply Hmethod. clear Hmethod. intros Hmethod. apply satisfies_bind.
  assert (∀ Q, ((∀ url, em_url draft = Some url → ∃ uri, parseAbsoluteUri url = Ok uri) → Q tt) →
    Satisfies (match em_url draft with
      | Some url => _ ← check (str_len url <=? maximumEditableUrlCharacters) InvalidRequestUrl;
                    _ ← parseAbsoluteUri url; Ok tt
      | None => Ok tt end) Q (λ _, True)) as Hurl.
  { intros Q HQ. destruct (em_url draft) as [url|]; [|by apply HQ].
    destruct (_ <=? _); cbn; [|done]. destruct (parseAbsoluteUri url) as [uri|e|] eqn:Hu; cbn; [|done|].
    - apply HQ. intros ? [= <-]. eauto.
    - revert Hu. unfold parseAbsoluteUri. destruct (parseUri url); cbn; [|done]. by destruct (check _ _) as [[]| |] eqn:Hc; destruct (_ && _ && _). }
  apply Hurl. intros Huri. eapply satisfies_mono; [| |apply validate_shared]; [|done]. done.
Qed.

Lemma apply_response draft response :
  match applyResponseDraft draft response with
  | (response', Ok _) =>
      validateResponseDraft draft = Ok tt ∧ rd_version response' = rd_version response ∧
      rd_status response' = default (rd_status response) (em_statusCode draft ≫= statusFromU16) ∧
      AppliedDraft draft (rd_body response) (rd_headers response') (rd_body response') (λ _, False)
  | (response', Err e) => response' = response ∧ validateResponseDraft draft = Err e
  | (_, Panic) => False
  end.
Proof.
  pose proof (validate_response draft) as Hv. unfold applyResponseDraft.
  destruct (validateResponseDraft draft) as [[]|e|] eqn:Hvalid; [|done|done].
  destruct Hv as [(headers & body & Hheaders & Hbody) Hstatus].
  pose proof (header_map_values (em_headers draft)) as Hvalues. rewrite Hheaders in Hvalues. cbn in Hvalues.
  pose proof (framed_values _ _ body (rd_body response) Hvalues) as Hframed.
  destruct (framedHeaders body (rd_body response) headers) as [framed|?|] eqn:Hf; [|done|done].
  unfold mbind, stateful_bind, lift, gets, modify, mret, stateful_ret. rewrite Hheaders, Hbody.
  destruct (em_statusCode draft) as [code|]; cbn.
  - destruct (Hstatus code eq_refl) as [status Hs]. rewrite Hs, Hf. cbn. repeat split; [done..|].
    exists body. split_and!; [done..|]. intros name _. apply Hframed.
  - rewrite Hf. cbn. repeat split; [done..|]. exists body. split_and!; [done..|]. intros name _. apply Hframed.
Qed.

Lemma target_of_uri request request' :
  rq_uri request = rq_uri request' → parsePipelineTarget request = parsePipelineTarget request'.
Proof. unfold parsePipelineTarget. by intros ->. Qed.

Lemma target_no_panic request : no_panic (parsePipelineTarget request).
Proof.
  unfold parsePipelineTarget, canonicalHostHeader, canonicalAuthority, no_panic.
  repeat first
    [ done
    | apply satisfies_bind
    | apply satisfies_check; [intros _|done]
    | apply satisfies_ok_or; [intros ? _|done]
    | case_match ].
Qed.

Lemma parse_absolute_uri url uri : parseAbsoluteUri url = Ok uri → parseUri url = Some uri.
Proof. unfold parseAbsoluteUri. destruct (parseUri url); cbn; [|done]. destruct (_ && _ && _); cbn; congruence. Qed.

(** The context of a request that a draft was applied to. *)
Definition AppliedRequest (draft : EditableHttpMessage) (context context' : PipelineContext) : Prop :=
  let request := pc_request context in
  let request' := pc_request context' in
  rq_method request' = default (rq_method request) (em_method draft ≫= parseMethod) ∧
  rq_uri request' = default (rq_uri request) (em_url draft ≫= parseUri) ∧
  rq_version request' = rq_version request ∧
  AppliedDraft draft (rq_body request) (rq_headers request') (rq_body request') (λ name, name = HOST) ∧
  ∃ target, parsePipelineTarget request' = Ok target ∧
    headerValues HOST (rq_headers request') = [ht_hostHeader target] ∧
    context' = set_location (ht_location target) (set_request request' context).

(** The context of a request that no longer has a target. *)
Definition Targetless (draft : EditableHttpMessage) (context context' : PipelineContext) : Prop :=
  rq_uri (pc_request context') = default (rq_uri (pc_request context)) (em_url draft ≫= parseUri) ∧
  ∃ failure, parsePipelineTarget (pc_request context') = Err failure.

(** The last steps of [applyRequestDraft]. *)
Lemma finish_request draft context headers body framed method uri :
  SharedParts draft headers body →
  framedHeaders body (rq_body (pc_request context)) headers = Ok framed →
  (∀ name, headerValues name framed = reframedValues name (em_headers draft) body
     (negb (bool_decide (body = default [] (rq_body (pc_request context)))))) →
  method = default (rq_method (pc_request context)) (em_method draft ≫= parseMethod) →
  uri = default (rq_uri (pc_request context)) (em_url draft ≫= parseUri) →
  match refreshRequestLocation
    (set_request {| rq_method := method; rq_uri := uri; rq_version := rq_version (pc_request context);
                    rq_headers := framed; rq_body := Some body |} context) with
  | (context', Ok _) => AppliedRequest draft context context'
  | (context', Err e) => e = InvalidRequestUrl ∧ Targetless draft context context'
  | (_, Panic) => False
  end.
Proof.
  intros [_ Hbody] _ Hvalues Hmethod Huri.
  unfold refreshRequestLocation, mbind, stateful_bind, gets, lift, modifyRequest, modify. cbn.
  set (request := {| rq_method := method |}).
  pose proof (target_no_panic request) as Hp.
  destruct (parsePipelineTarget request) as [target|failure|] eqn:Htarget; cbn in *; [|by unfold Targetless; eauto|done].
  unfold AppliedRequest. cbn. split_and!; [done..| |].
  - exists body. split_and!; [done..|]. intros name Hname. rewrite values_insert, decide_False by congruence. apply Hvalues.
  - exists target. split_and!; [|by rewrite values_insert, decide_True|done].
    rewrite <-Htarget. by apply target_of_uri.
Qed.

Lemma apply_request draft context :
  match applyRequestDraft draft context with
  | (context', Ok _) => validateRequestDraft draft = Ok tt ∧ AppliedRequest draft context context'
  | (context', Err e) =>
      validateRequestDraft draft = Err e ∧ context' = context ∨
      validateRequestDraft draft = Ok tt ∧ e = InvalidRequestUrl ∧ Targetless draft context context'
  | (_, Panic) => False
  end.
Proof.
  pose proof (validate_request draft) as Hv. unfold applyRequestDraft.
  destruct (validateRequestDraft draft) as [[]|e|] eqn:Hvalid; [|by left|done].
  destruct Hv as ((headers & body & Hparts) & Hmethod & Hurl). pose proof Hparts as [Hheaders Hbody].
  pose proof (header_map_values (em_headers draft)) as Hvalues. rewrite Hheaders in Hvalues. cbn in Hvalues.
  pose proof (framed_values _ _ body (rq_body (pc_request context)) Hvalues) as Hframed.
  destruct (framedHeaders body (rq_body (pc_request context)) headers) as [framed|?|] eqn:Hf; [|done|done].
  pose proof (λ method uri, finish_request draft context headers body framed method uri Hparts Hf Hframed) as Hfinish.
  unfold mbind, stateful_bind, lift, gets, modify, modifyRequest, mret, stateful_ret in *. rewrite Hheaders, Hbody.
  assert (∀ (r : PipelineContext * drafting unit), match r with
    | (context', Ok _) => AppliedRequest draft context context'
    | (context', Err e) => e = InvalidRequestUrl ∧ Targetless draft context context'
    | (_, Panic) => False end →
    match r with
    | (context', Ok _) => Ok () = @Ok MessageDraftError () () ∧ AppliedRequest draft context context'
    | (context', Err e) => Ok () = Err e ∧ context' = context ∨
        Ok () = @Ok MessageDraftError () () ∧ e = InvalidRequestUrl ∧ Targetless draft context context'
    | (_, Panic) => False end) as Hshape by (intros [? []]; naive_solver).
  destruct (em_method draft) as [method|] eqn:Hm;
    [destruct (Hmethod method eq_refl) as [method' Hm']; rewrite Hm'|];
    (destruct (em_url draft) as [url|] eqn:Hu;
       [destruct (Hurl url eq_refl) as [uri Hu']; rewrite Hu'; apply parse_absolute_uri in Hu'|]);
    cbn; rewrite Hf; cbn; apply Hshape, Hfinish; cbn; by rewrite ?Hm', ?Hu'.
Qed.

(** ** Drafts nobody edited *)
(** What the code hands over in a draft comes back: the values of the headers are visible
    text, and their number and the size of the body are within its limits. *)
Definition Transferable (headers : HeaderMap) (body : option (list Z)) : Prop :=
  len (headerEntries headers) ≤ maximumEditableHeaders ∧
  Forall (λ entry, Forall visible (headerValueBytes entry.2)) (headerEntries headers) ∧
  bytes_ok (default [] body) ∧ len (default [] body) ≤ maximumEditableBodyBytes.

Lemma field_values_back headers name :
  Forall (λ entry, Forall visible (headerValueBytes entry.2)) (headerEntries headers) →
  fieldValues name (headerFields headers) = headerValues name headers.
Proof.
  unfold fieldValues, headerFields, headerValues. induction 1 as [|[k v] entries Hv _ IH]; [done|].
  cbn [fmap list_fmap omap list_omap hf_name hf_value]. rewrite name_reads_back.
  rewrite lossy_visible, value_reads_back by done. cbn [fst snd] in *.
  destruct (decide (k = name)) as [->|Hne].
  - rewrite decide_True by done. rewrite filter_cons_True by done. cbn. f_equal. exact IH.
  - rewrite decide_False by congruence. rewrite filter_cons_False by done. exact IH.
Qed.

Lemma append_fields_back entries headers :
  Forall (λ entry, Forall visible (headerValueBytes entry.2)) entries →
  ∃ headers', appendFields ((λ '(name, value), {| hf_name := headerNameText name;
    hf_value := from_utf8_lossy (headerValueBytes value) |}) <$> entries) headers = Ok headers'.
Proof.
  intros Hv. revert headers. induction Hv as [|[k v] entries Hv _ IH]; intros headers; [by eexists|].
  cbn. rewrite name_reads_back, lossy_visible, value_reads_back by done. apply IH.
Qed.

Lemma encoded_limit n : 0 ≤ n → n ≤ maximumEditableBodyBytes → (n + 2) / 3 * 4 ≤ maximumEditableBodyCharacters.
Proof.
  intros H0 Hn. unfold maximumEditableBodyCharacters.
  apply Z.mul_le_mono_nonneg_r; [lia|]. apply Z.div_le_mono; lia.
Qed.

Lemma shared_parts_back headers body :
  Transferable headers body →
  ∃ headers', headerMap (headerFields headers) = Ok headers' ∧ decodeBody (encodeBody body) = Ok (default [] body).
Proof.
  intros (Hn & Hv & Hb & Hl). destruct (append_fields_back _ newHeaders Hv) as [headers' Hh].
  exists headers'. split.
  - unfold headerMap, headerFields. unfold len at 1. rewrite length_fmap. fold (len (headerEntries headers)).
    apply Z.leb_le in Hn. rewrite Hn. exact Hh.
  - unfold decodeBody, encodeBody. rewrite encoded_length by done.
    pose proof (encoded_limit _ (len_nonneg _) Hl) as Hc. apply Z.leb_le in Hc. rewrite Hc.
    cbn [check mbind outcome_bind]. rewrite body_reads_back by done. cbn [ok_or mbind outcome_bind].
    apply Z.leb_le in Hl. by rewrite Hl.
Qed.

Lemma reframed_same name headers body :
  Forall (λ entry, Forall visible (headerValueBytes entry.2)) (headerEntries headers) →
  reframedValues name (headerFields headers) (default [] body) (negb (bool_decide (default [] body = default [] body)))
  = headerValues name headers.
Proof. intros Hv. rewrite bool_decide_true by done. by apply field_values_back. Qed.

Lemma validate_unedited_response response :
  Transferable (rd_headers response) (rd_body response) → validateResponseDraft (editableResponse response) = Ok tt.
Proof.
  intros Ht. destruct (shared_parts_back _ _ Ht) as (headers' & Hh & Hb).
  unfold validateResponseDraft, validateSharedDraft, editableResponse. cbn. rewrite status_reads_back. cbn.
  by rewrite Hh, Hb.
Qed.

(** What a request needs for its URL to be accepted as text. *)
Lemma target_uri request target :
  parsePipelineTarget request = Ok target → parseAbsoluteUri (uriText (rq_uri request)) = Ok (rq_uri request).
Proof.
  unfold parsePipelineTarget, parseAbsoluteUri. rewrite uri_reads_back. cbn.
  destruct (uriScheme (rq_uri request)) as [scheme|]; cbn; [|done].
  unfold str_eqb. case_bool_decide as H1; [|case_bool_decide as H2; [|done]]; cbn;
    (destruct (uriAuthority _); cbn; [|done]); (destruct (negb _); cbn; [|done]);
    (destruct (starts_with [47] _); cbn; [|done]); intros _; rewrite bool_decide_true by (subst; auto); done.
Qed.

Lemma validate_unedited_request context target :
  Transferable (rq_headers (pc_request context)) (rq_body (pc_request context)) →
  str_len (methodText (rq_method (pc_request context))) ≤ maximumEditableMethodCharacters →
  str_len (uriText (rq_uri (pc_request context))) ≤ maximumEditableUrlCharacters →
  parsePipelineTarget (pc_request context) = Ok target →
  validateRequestDraft (editableRequest context) = Ok tt.
Proof.
  intros Ht Hm%Z.leb_le Hu%Z.leb_le Htarget. destruct (shared_parts_back _ _ Ht) as (headers' & Hh & Hb).
  unfold validateRequestDraft, validateSharedDraft, editableRequest. cbn -[str_len].
  rewrite Hm. cbn -[str_len]. rewrite method_reads_back. cbn -[str_len]. rewrite Hu. cbn.
  rewrite (target_uri _ _ Htarget). cbn. by rewrite Hh, Hb.
Qed.
End drafts.

(** ** Properties *)
Section properties.
Context `{Hlaws : HttpLaws}.

(** C29: Applying a draft never panics.  A refused response draft leaves the response as it
    was, and is refused by the validation; an accepted one always applies.  A request draft
    the validation accepts fails only if the request that results has no target.  What is
    applied has the method, URL and status of the draft, its body, and exactly its headers,
    except that an edited body gets its own length and encoding and a request the host and
    the location of its new target. *)
Theorem draft_applied (draft : EditableHttpMessage) :
  (∀ response,
     match applyResponseDraft draft response with
     | (response', Ok _) =>
         validateResponseDraft draft = Ok tt ∧ rd_version response' = rd_version response ∧
         rd_status response' = default (rd_status response) (em_statusCode draft ≫= statusFromU16) ∧
         AppliedDraft draft (rd_body response) (rd_headers response') (rd_body response') (λ _, False)
     | (response', Err e) => response' = response ∧ validateResponseDraft draft = Err e
     | (_, Panic) => False
     end) ∧
  (∀ context,
     match applyRequestDraft draft context with
     | (context', Ok _) => validateRequestDraft draft = Ok tt ∧ AppliedRequest draft context context'
     | (context', Err e) =>
         validateRequestDraft draft = Err e ∧ context' = context ∨
         validateRequestDraft draft = Ok tt ∧ e = InvalidRequestUrl ∧ Targetless draft context context'
     | (_, Panic) => False
     end).
Proof. split; [exact (apply_response draft)|exact (apply_request draft)]. Qed.

(** C28: A draft that nobody edited changes nothing when it is applied to the message it was
    made from, as long as the body of the message was read, its header values are visible
    ASCII text and it is within the limits of a draft: its status or its method and URL, its
    version, all its headers and its body stay; a request gets the host header and the
    location of its own target.  (A body that was not read becomes an empty one: see
    [unread_body_emptied].) *)
Theorem unedited_draft_changes_nothing :
  (∀ response : ResponseDraft,
     Transferable (rd_headers response) (rd_body response) → is_Some (rd_body response) →
     ∃ response', applyResponseDraft (editableResponse response) response = (response', Ok tt) ∧
       rd_status response' = rd_status response ∧ rd_version response' = rd_version response ∧
       rd_body response' = rd_body response ∧
       ∀ name, headerValues name (rd_headers response') = headerValues name (rd_headers response)) ∧
  (∀ (context : PipelineContext) (target : HttpTarget),
     Transferable (rq_headers (pc_request context)) (rq_body (pc_request context)) →
     is_Some (rq_body (pc_request context)) →
     str_len (methodText (rq_method (pc_request context))) ≤ maximumEditableMethodCharacters →
     str_len (uriText (rq_uri (pc_request context))) ≤ maximumEditableUrlCharacters →
     parsePipelineTarget (pc_request context) = Ok target →
     ∃ request', applyRequestDraft (editableRequest context) context
         = (set_location (ht_location target) (set_request request' context), Ok tt) ∧
       rq_method request' = rq_method (pc_request context) ∧ rq_uri request' = rq_uri (pc_request context) ∧
       rq_version request' = rq_version (pc_request context) ∧
       rq_body request' = rq_body (pc_request context) ∧
       headerValues HOST (rq_headers request') = [ht_hostHeader target] ∧
       ∀ name, name ≠ HOST → headerValues name (rq_headers request') = headerValues name (rq_headers (pc_request context))).
Proof.
  split.
  - intros response Ht [read Hread]. pose proof (apply_response (editableResponse response) response) as Ha.
    rewrite (validate_unedited_response _ Ht) in Ha. destruct (applyResponseDraft _ _) as [response' [[]|e|]]; [|naive_solver|done].
    destruct (shared_parts_back _ _ Ht) as (headers' & _ & Hb).
    destruct Ha as (_ & Hversion & Hstatus & bytes & Hbytes & Hbody & Hvalues).
    cbn in Hbytes. rewrite Hb in Hbytes. injection Hbytes as <-. cbn in Hstatus. rewrite status_reads_back in Hstatus.
    exists response'. split_and!; [done..|by rewrite Hbody, Hread|]. intros name. rewrite Hvalues by (intros []). apply reframed_same. apply Ht.
  - intros context target Ht [read Hread] Hm Hu Htarget.
    pose proof (apply_request (editableRequest context) context) as Ha.
    rewrite (validate_unedited_request _ _ Ht Hm Hu Htarget) in Ha.
    destruct (shared_parts_back _ _ Ht) as (headers' & _ & Hb).
    destruct (applyRequestDraft _ _) as [context' [[]|e|]]; [| |done].
    + destruct Ha as (_ & Hmethod & Huri & Hversion & (bytes & Hbytes & Hbody & Hvalues) & target' & Htarget' & Hhost & ->).
      cbn in *. rewrite Hb in Hbytes. injection Hbytes as <-. rewrite method_reads_back in Hmethod. rewrite uri_reads_back in Huri.
      rewrite (target_of_uri _ (pc_request context)), Htarget in Htarget' by done. injection Htarget' as <-.
      eexists. split_and!; [done..|by rewrite Hbody, Hread|done|]. intros name Hname. rewrite Hvalues by exact Hname. apply reframed_same. apply Ht.
    + exfalso. destruct Ha as [[? _]|(_ & _ & Huri & failure & Hf)]; [done|].
      cbn in Huri. rewrite uri_reads_back in Huri. by rewrite (target_of_uri _ _ Huri), Htarget in Hf.
Qed.
End properties.

(** ** A small library
    An implementation that satisfies the laws, to evaluate the definitions: texts stand for
    methods, names and URIs, and base64 is written with the sextets themselves. *)
Module Sample.
Fixpoint encode (body : list Z) : chars :=
  match body with
  | a :: b :: c :: body =>
      a / 4 :: (a mod 4) * 16 + b / 16 :: (b mod 16) * 4 + c / 64 :: c mod 64 :: encode body
  | [a; b] => [a / 4; (a mod 4) * 16 + b / 16; (b mod 16) * 4; 64]
  | [a] => [a / 4; (a mod 4) * 16; 64; 64]
  | [] => []
  end.
Fixpoint decode (encoded : chars) : option (list Z) :=
  match encoded with
  | [] => Some []
  | w :: x :: y :: z :: encoded =>
      if z =? 64 then Some (w * 4 + x / 16 :: (if y =? 64 then [] else [(x mod 16) * 16 + y / 4]))
      else
        body ← decode encoded;
        Some (w * 4 + x / 16 :: (x mod 16) * 16 + y / 4 :: (y mod 4) * 64 + z :: body)
  | _ => None
  end.

(** "scheme://authority/path?query". *)
Definition split_uri (uri : chars) : option (chars * chars * chars) :=
  '(scheme, rest) ← split_once 58 uri;
  rest ← strip_prefix [47; 47] rest;
  Some (match split_once 47 rest with
        | Some (authority, path) => (scheme, authority, 47 :: path)
        | None => (scheme, rest, [47])
        end).
Definition cut (c : Z) (s : chars) : chars := from_option fst s (split_once c s).

#[export] Instance sample_http : HttpCrate := {|
  Method := chars; parseMethod := Some; methodText := id;
  Authority := chars; parseAuthority := Some; authorityText := id; authorityHost := cut 58;
  authorityPort := λ a, '(_, port) ← split_once 58 a; from_str_radix 10 u16_max port;
  PathAndQuery := chars; pathAndQueryFromStatic := id;
  Uri := chars; parseUri := Some; uriText := id;
  uriScheme := λ u, (λ '(scheme, _, _), scheme) <$> split_uri u;
  uriAuthority := λ u, (λ '(_, authority, _), authority) <$> split_uri u;
  uriPath := λ u, from_option (λ '(_, _, path), cut 63 path) [] (split_uri u);
  uriQuery := λ u, '(_, _, path) ← split_uri u; '(_, query) ← split_once 63 path; Some query;
  uriPathAndQuery := λ u, (λ '(_, _, path), path) <$> split_uri u;
  buildUri := λ scheme authority path, Some (scheme ++ [58; 47; 47] ++ authority ++ path);
  Version := Z; HTTP_11 := 11; StatusCode := Z; statusFromU16 := Some; statusAsU16 := id; BAD_GATEWAY := 502;
  HeaderName := chars; parseHeaderName := Some; headerNameFromStatic := id; headerNameText := id;
  CONTENT_ENCODING := lit "content-encoding"; CONTENT_LENGTH := lit "content-length";
  CONTENT_TYPE := lit "content-type"; HOST := lit "host"; TRANSFER_ENCODING := lit "transfer-encoding";
  HeaderValue := list Z; headerValueFromStr := λ s, if forallb (λ c, between 32 c 126) s then Some s else None; headerValueFromStatic := id;
  headerValueBytes := id;
  HeaderMap := list (chars * list Z); newHeaders := []; headerEntries := id;
  appendHeader := λ k v headers, headers ++ [(k, v)];
  insertHeader := λ k v headers, filter (λ e, e.1 ≠ k) headers ++ [(k, v)];
  removeHeader := λ k headers, filter (λ e, e.1 ≠ k) headers;
  containsHeader := λ k headers, existsb (λ e, bool_decide (e.1 = k)) headers;
  base64Encode := encode; base64Decode := decode
|}.

Lemma body_induction (P : list Z → Prop) :
  P [] → (∀ a, P [a]) → (∀ a b, P [a; b]) → (∀ a b c body, P body → P (a :: b :: c :: body)) → ∀ body, P body.
Proof.
  intros H0 H1 H2 H3. fix IH 1. intros [|a [|b [|c body]]]; [done|apply H1|apply H2|apply H3, IH].
Qed.

Lemma decode_encode body : bytes_ok body → decode (encode body) = Some body.
Proof.
  unfold is_u8, u8_max. induction body as [|a|a b|a b c body IH] using body_induction; intros Hok;
    rewrite ?Forall_cons in Hok; [done|..]; cbn [encode decode].
  - rewrite Z.eqb_refl. do 2 f_equal. Z.div_mod_to_equations; lia.
  - rewrite Z.eqb_refl. destruct (Z.eqb_spec ((b mod 16) * 4) 64) as [He|_].
    + exfalso. Z.div_mod_to_equations; lia.
    + repeat f_equal; Z.div_mod_to_equations; lia.
  - destruct (Z.eqb_spec (c mod 64) 64) as [He|_].
    + exfalso. pose proof (Z.mod_pos_bound c 64). lia.
    + rewrite IH by apply Hok. cbn. repeat f_equal; Z.div_mod_to_equations; lia.
Qed.

Lemma sextet_len c : 0 ≤ c ≤ 64 → char_bytes c = 1.
Proof. intros Hc. unfold char_bytes. destruct (Z.ltb_spec c 128); [done|lia]. Qed.

Lemma encode_len body : bytes_ok body → str_len (encode body) = (len body + 2) / 3 * 4.
Proof.
  unfold is_u8, u8_max. induction body as [|a|a b|a b c body IH] using body_induction; intros Hok;
    rewrite ?Forall_cons in Hok; [done|..]; cbn [encode str_len].
  - rewrite !sextet_len by (Z.div_mod_to_equations; lia). done.
  - rewrite !sextet_len by (Z.div_mod_to_equations; lia). done.
  - rewrite !sextet_len by (Z.div_mod_to_equations; lia). rewrite IH by apply Hok. rewrite !len_cons.
    replace (len body + 1 + 1 + 1 + 2) with (1 * 3 + (len body + 2)) by lia. rewrite Z.div_add_l by lia. lia.
Qed.

(** Without the values of a name, and with those of another. *)
Lemma drop_values (name : chars) (headers : list (chars * list Z)) :
  filter (λ e, e.1 = name) (filter (λ e, e.1 ≠ name) headers) = [].
Proof.
  induction headers as [|[k v] headers IH]; [done|]. destruct (decide (k = name)) as [->|Hne].
  - rewrite (filter_cons_False _ (name, v)) by (cbn; auto). done.
  - rewrite (filter_cons_True _ (k, v)) by done. by rewrite filter_cons_False.
Qed.
Lemma keep_values (name k : chars) (headers : list (chars * list Z)) :
  k ≠ name → filter (λ e, e.1 = name) (filter (λ e, e.1 ≠ k) headers) = filter (λ e, e.1 = name) headers.
Proof. intros Hne. apply list_filter_filter_l. congruence. Qed.

Lemma decimal_visible n : 0 ≤ n → forallb (λ c, between 32 c 126) (decimal n) = true.
Proof.
  intros Hn. unfold decimal. assert (Hacc : forallb (λ c, between 32 c 126) [] = true) by done.
  revert n Hn Hacc. generalize ([] : chars). generalize 20%nat. intros fuel; induction fuel as [|fuel IH]; intros acc n Hn Hacc; [done|].
  cbn [decimal_digits]. assert (Hd : forallb (λ c, between 32 c 126) (48 + n mod 10 :: acc) = true).
  { cbn [forallb]. rewrite Hacc, andb_true_r. unfold between. pose proof (Z.mod_pos_bound n 10 eq_refl). apply andb_true_iff. rewrite !Z.leb_le. lia. }
  case_if Hten; [done|]. apply IH; [|done]. apply Z.div_pos; lia.
Qed.

#[export] Instance sample_laws : HttpLaws.
Proof.
  constructor; try done.
  - intros value Hv. cbn in *. assert (forallb (λ c, between 32 c 126) value = true) as ->; [|done].
    apply forallb_forall. intros c Hc%list_elem_of_In. rewrite Forall_forall in Hv. specialize (Hv c Hc).
    unfold visible in Hv. unfold between. lia.
  - intros n Hn. pose proof (decimal_visible n Hn) as Hv.
    change (is_Some (if forallb (λ c, between 32 c 126) (decimal n) then Some (decimal n) else None)).
    rewrite Hv. by eexists.
  - intros name k v headers. unfold headerValues. cbn. rewrite filter_app, fmap_app. f_equal.
    destruct (decide (k = name)) as [->|Hne]; [by rewrite filter_cons_True, decide_True by done|by rewrite filter_cons_False, decide_False by done].
  - intros name k v headers. unfold headerValues. cbn. rewrite filter_app, fmap_app.
    destruct (decide (k = name)) as [->|Hne].
    + by rewrite filter_cons_True, drop_values, decide_True by done.
    + by rewrite filter_cons_False, app_nil_r, keep_values, decide_False by done.
  - intros name k headers. unfold headerValues. cbn.
    destruct (decide (k = name)) as [->|Hne]; [by rewrite drop_values, decide_True|by rewrite keep_values, decide_False].
  - intros k headers. unfold headerValues. cbn. induction headers as [|[k' v] headers IH]; [done|]. cbn [existsb fst].
    destruct (decide (k' = k)) as [->|Hne].
    + rewrite filter_cons_True by done. rewrite (bool_decide_true (k = k)), (bool_decide_false (_ = [])) by done. done.
    + rewrite filter_cons_False by done. rewrite (bool_decide_false (k' = k)) by done. exact IH.
  - apply (bool_decide_unpack _). vm_compute. done.
  - apply decode_encode.
  - apply encode_len.
Qed.

(** The request of [messageDraftTests.rs], and the draft that edits it. *)
Definition request (uri : chars) (headers : list (chars * list Z)) (body : option (list Z)) : PipelineContext :=
  newContext (lit "127.0.0.1:8080")
    {| rl_protocol := lit "http"; rl_host := lit "source.test"; rl_port := 80; rl_path := lit "/old";
       rl_query := []; rl_display := lit "http://source.test/old" |}
    {| rq_method := lit "GET"; rq_uri := uri; rq_version := HTTP_11; rq_headers := headers; rq_body := body |}.
Definition context : PipelineContext := request (lit "http://source.test/old") [] (Some (lit "old")).
Definition edited : EditableHttpMessage :=
  {| em_method := Some (lit "POST"); em_url := Some (lit "http://target.test:8080/new?mode=edited");
     em_statusCode := None; em_reason := None;
     em_headers := [{| hf_name := lit "content-encoding"; hf_value := lit "gzip" |}];
     em_bodyBase64 := encode (lit "new-body") |}.
Definition response (headers : list (chars * list Z)) (body : option (list Z)) : ResponseDraft :=
  {| rd_status := 200; rd_version := HTTP_11; rd_headers := headers; rd_body := body |}.

Example request_draft_updates_target_and_framing :
  let '(context', result) := applyRequestDraft edited context in
  result = Ok tt ∧ rq_method (pc_request context') = lit "POST" ∧ rl_host (pc_location context') = lit "target.test" ∧
  rl_port (pc_location context') = 8080 ∧ rl_path (pc_location context') = lit "/new" ∧
  headerValues HOST (rq_headers (pc_request context')) = [lit "target.test:8080"] ∧
  headerValues CONTENT_ENCODING (rq_headers (pc_request context')) = [lit "identity"] ∧
  headerValues CONTENT_LENGTH (rq_headers (pc_request context')) = [lit "8"] ∧
  rq_body (pc_request context') = Some (lit "new-body").
Proof. vm_compute. split_and!; reflexivity. Qed.

Example response_draft_rejects_reason :
  let draft := {| em_method := None; em_url := None; em_statusCode := Some 201;
                  em_reason := Some (lit "Created by draft"); em_headers := []; em_bodyBase64 := encode (lit "new") |} in
  let '(response', result) := applyResponseDraft draft (response [] (Some (lit "old"))) in
  result = Err UnsupportedReason ∧ rd_status response' = 200.
Proof. vm_compute. split; reflexivity. Qed.

(** A header value that is not visible ASCII, here in Latin-1 and in UTF-8, leaves the message
    as text (the first with a replacement character) that the library is documented to
    refuse: the unedited draft cannot be applied. *)
Example latin1_header_refused :
  let named value := response [(lit "content-disposition", value)] (Some []) in
  let back value := applyResponseDraft (editableResponse (named value)) (named value) in
  hf_value <$> em_headers (editableResponse (named [233])) = [[65533]] ∧
  (back [233]).2 = Err InvalidHeaderValue ∧ (back [195; 169]).2 = Err InvalidHeaderValue.
Proof. vm_compute. split_and!; reflexivity. Qed.

(** Messages beyond the limits of a draft are suspended, and their own drafts refused. *)
Example long_messages_refused :
  let long := request (lit "http://source.test/" ++ replicate (Z.to_nat 8192) 97) [] None in
  let many := request (lit "http://source.test/") (replicate 257 (lit "x", [97])) None in
  (applyRequestDraft (editableRequest long) long).2 = Err InvalidRequestUrl ∧
  (applyRequestDraft (editableRequest many) many).2 = Err TooManyHeaders.
Proof. vm_compute. split; reflexivity. Qed.

(** A body that was not read comes back as an empty one. *)
Example unread_body_emptied :
  rq_body (pc_request (applyRequestDraft (editableRequest (request (lit "http://a/") [] None))
                         (request (lit "http://a/") [] None)).1) = Some [].
Proof. vm_compute. reflexivity. Qed.

Lemma edited_accepted : (applyRequestDraft edited context).2 = Ok tt.
Proof. vm_compute. reflexivity. Qed.

(** Messages with repeated headers and a body. *)
Definition repeatedFields : list (chars * list Z) :=
  [(lit "accept", lit "text/html"); (lit "x-tag", lit "a"); (lit "content-length", lit "3"); (lit "x-tag", lit "b")].
Definition wholeContext : PipelineContext := request (lit "http://source.test/old") repeatedFields (Some (lit "old")).

Lemma whole_target : ∃ target, parsePipelineTarget (pc_request wholeContext) = Ok target.
Proof.
  assert (match parsePipelineTarget (pc_request wholeContext) with Ok _ => true | _ => false end = true) as Hok
    by (vm_compute; reflexivity).
  destruct (parsePipelineTarget (pc_request wholeContext)) as [target| |]; [by exists target|done..].
Qed.
Lemma repeated_transferable : Transferable (repeatedFields : HeaderMap) (Some (lit "old")).
Proof.
  split; [vm_compute; discriminate|].
  split; [change (Forall (λ entry : chars * list Z, Forall visible entry.2) repeatedFields)|
          split; [unfold is_u8|vm_compute; discriminate]]; apply (bool_decide_unpack _); vm_compute; exact I.
Qed.
Lemma whole_texts :
  str_len (methodText (rq_method (pc_request wholeContext))) ≤ maximumEditableMethodCharacters ∧
  str_len (uriText (rq_uri (pc_request wholeContext))) ≤ maximumEditableUrlCharacters.
Proof. vm_compute. split; discriminate. Qed.

Lemma draft_applied_witness :
  ∃ context', applyRequestDraft edited context = (context', Ok tt) ∧ AppliedRequest edited context context'.
Proof.
  pose proof (proj2 (draft_applied edited) context) as Ha. pose proof edited_accepted as Hok.
  destruct (applyRequestDraft edited context) as [context' result]. cbn [snd] in Hok. subst result.
  exists context'. split; [reflexivity|exact (proj2 Ha)].
Defined.

(** A request and a response come back with both values of the repeated header. *)
Lemma unedited_draft_changes_nothing_witness :
  (∃ request' target, parsePipelineTarget (pc_request wholeContext) = Ok target ∧
    applyRequestDraft (editableRequest wholeContext) wholeContext
    = (set_location (ht_location target) (set_request request' wholeContext), Ok tt) ∧
    rq_body request' = Some (lit "old") ∧
    headerValues (lit "x-tag" : HeaderName) (rq_headers request') = [lit "a"; lit "b"]) ∧
  ∃ response', applyResponseDraft (editableResponse (response repeatedFields (Some (lit "old")))) (response repeatedFields (Some (lit "old")))
    = (response', Ok tt) ∧
    rd_body response' = Some (lit "old") ∧
    headerValues (lit "x-tag" : HeaderName) (rd_headers response') = [lit "a"; lit "b"].
Proof.
  split.
  - destruct whole_target as [target Htarget].
    destruct (proj2 unedited_draft_changes_nothing wholeContext target repeated_transferable (mk_is_Some _ _ eq_refl)
      (proj1 whole_texts) (proj2 whole_texts) Htarget) as (request' & Ha & _ & _ & _ & Hb & _ & Hv).
    exists request', target. split; [exact Htarget|]. split; [exact Ha|]. split; [exact Hb|].
    rewrite Hv by (intros He; apply (f_equal head) in He; vm_compute in He; discriminate He).
    vm_compute. reflexivity.
  - destruct (proj1 unedited_draft_changes_nothing (response repeatedFields (Some (lit "old"))) repeated_transferable
      (mk_is_Some _ _ eq_refl)) as (response' & Ha & _ & _ & Hb & Hv).
    exists response'. split; [exact Ha|]. split; [exact Hb|]. rewrite Hv. vm_compute. reflexivity.
Defined.
End Sample.
