(* ===== verification/Breakpoints.v ===== *)
(** * Breakpoints

    Model of [Server/Backend/HttpProxy/src/tools/breakpoints.rs]: requests and responses
    that match a rule are suspended until the control API continues or aborts them or a
    time has passed.

    The hooks of the pipeline and the calls of the control API run concurrently.  A step is
    what one of them does between two points where others can intervene: a critical section
    of the queue or of the configuration, a send on a channel, a notification, a poll.  The
    types of HTTP and [to_lowercase] are parameters; time passes when an event says so. *)

From S2P Require Import Prelude NetAddress Text Stateful Location CaptureModel MessageDraft.

Definition defaultSuspendTimeoutSeconds : Z := 120.
Definition defaultMaximumSuspended : Z := 32.
Definition maximumBreakpointRules : Z := 2000.
Definition maximumBreakpointIdentifierLength : Z := 128.

(** ** Configuration *)
Inductive BreakpointPhase := AtRequest | AtResponse.
Inductive BreakpointTimeoutAction := ContinueOnTimeout | AbortOnTimeout.

Record BreakpointRule := {
  br_id : chars;
  br_enabled : bool;
  br_location : LocationPattern;
  br_onRequest : bool;
  br_onResponse : bool
}.

Record BreakpointsConfiguration := {
  bc_enabled : bool;
  bc_rules : list BreakpointRule;
  bc_suspendTimeoutSeconds : Z;
  bc_maxSuspended : Z;
  bc_onTimeout : BreakpointTimeoutAction
}.

Definition BreakpointsConfiguration_default : BreakpointsConfiguration :=
  {| bc_enabled := false; bc_rules := []; bc_suspendTimeoutSeconds := defaultSuspendTimeoutSeconds;
     bc_maxSuspended := defaultMaximumSuspended; bc_onTimeout := ContinueOnTimeout |}.

Record SuspendedBreakpoint := {
  sb_breakpointId : chars;
  sb_transactionId : chars;
  sb_phase : BreakpointPhase;
  sb_suspendedAtMilliseconds : Z;
  sb_expiresAtMilliseconds : Z;
  sb_draft : EditableHttpMessage
}.

Inductive BreakpointError :=
| TooManyRules | InvalidRuleId | DuplicateRuleId | InvalidRuleLocation | InvalidSuspendTimeout
| InvalidMaximumSuspended | NotFound | ResolutionClosed | InvalidDraft (error : MessageDraftError).

Definition breakpointErrorCode (error : BreakpointError) : chars :=
  match error with
  | TooManyRules => lit "breakpointTooManyRules"
  | InvalidRuleId => lit "breakpointInvalidRuleId"
  | DuplicateRuleId => lit "breakpointDuplicateRuleId"
  | InvalidRuleLocation => lit "breakpointInvalidLocation"
  | InvalidSuspendTimeout => lit "breakpointInvalidSuspendTimeout"
  | InvalidMaximumSuspended => lit "breakpointInvalidMaximumSuspended"
  | NotFound => lit "breakpointNotFound"
  | ResolutionClosed => lit "breakpointResolutionClosed"
  | InvalidDraft error => draftErrorCode error
  end.

(** The loop of [validateConfiguration] over the rules. *)
Fixpoint validateRules (identifiers : list chars) (rules : list BreakpointRule) : outcome BreakpointError unit :=
  match rules with
  | [] => Ok tt
  | rule :: rules =>
      _ ← check (negb (is_empty (br_id rule) || (maximumBreakpointIdentifierLength <? str_len (br_id rule)))) InvalidRuleId;
      _ ← check (negb (bool_decide (br_id rule ∈ identifiers))) DuplicateRuleId;
      _ ← map_err (λ _, InvalidRuleLocation) (validateLocationPattern (br_location rule));
      validateRules (br_id rule :: identifiers) rules
  end.

Definition validateConfiguration (configuration : BreakpointsConfiguration) : outcome BreakpointError unit :=
  _ ← check (len (bc_rules configuration) <=? maximumBreakpointRules) TooManyRules;
  _ ← check ((1 <=? bc_suspendTimeoutSeconds configuration) && (bc_suspendTimeoutSeconds configuration <=? 3600))
        InvalidSuspendTimeout;
  _ ← check ((1 <=? bc_maxSuspended configuration) && (bc_maxSuspended configuration <=? 1024)) InvalidMaximumSuspended;
  validateRules [] (bc_rules configuration).

(** ** Channels
    [tokio::sync::oneshot]; the value stays after it was received. *)
Inductive BreakpointResolution := ContinueWith (draft : EditableHttpMessage) | AbortMessage.

Record Channel := {
  ch_value : option BreakpointResolution;
  ch_sender : bool;
  ch_receiver : bool
}.

Definition openChannel : Channel := {| ch_value := None; ch_sender := true; ch_receiver := true |}.
Definition dropSender (channel : Channel) : Channel :=
  {| ch_value := ch_value channel; ch_sender := false; ch_receiver := ch_receiver channel |}.
Definition dropReceiver (channel : Channel) : Channel :=
  {| ch_value := ch_value channel; ch_sender := ch_sender channel; ch_receiver := false |}.
(** [Sender::send], which consumes the sender. *)
Definition sendValue (resolution : BreakpointResolution) (channel : Channel) : Channel * bool :=
  if ch_receiver channel
  then ({| ch_value := Some resolution; ch_sender := false; ch_receiver := true |}, true)
  else (dropSender channel, false).
(** A poll of the receiver: [None] is pending. *)
Definition pollChannel (channel : Channel) : option (option BreakpointResolution) :=
  match ch_value channel with
  | Some resolution => Some (Some resolution)
  | None => if ch_sender channel then None else Some None
  end.

(** ** The tool *)
Record PendingBreakpoint := {
  pb_snapshot : SuspendedBreakpoint;
  pb_sender : Z;
  pb_ownership : Z
}.

(** [BreakpointsTool], and the allocations: channels by address, and the next address. *)
Record BreakpointsTool := {
  bt_configuration : BreakpointsConfiguration;
  bt_suspended : gmap chars PendingBreakpoint;
  bt_suspendedChanges : Z;
  bt_channels : gmap Z Channel;
  bt_next : Z
}.

Definition newTool (configuration : BreakpointsConfiguration) : outcome BreakpointError BreakpointsTool :=
  _ ← validateConfiguration configuration;
  Ok {| bt_configuration := configuration; bt_suspended := ∅; bt_suspendedChanges := 0; bt_channels := ∅; bt_next := 0 |}.

Definition set_configuration (v : BreakpointsConfiguration) (t : BreakpointsTool) : BreakpointsTool :=
  {| bt_configuration := v; bt_suspended := bt_suspended t; bt_suspendedChanges := bt_suspendedChanges t;
     bt_channels := bt_channels t; bt_next := bt_next t |}.
Definition set_suspendedEntries (v : gmap chars PendingBreakpoint) (t : BreakpointsTool) : BreakpointsTool :=
  {| bt_configuration := bt_configuration t; bt_suspended := v; bt_suspendedChanges := bt_suspendedChanges t;
     bt_channels := bt_channels t; bt_next := bt_next t |}.
Definition set_channels (v : gmap Z Channel) (t : BreakpointsTool) : BreakpointsTool :=
  {| bt_configuration := bt_configuration t; bt_suspended := bt_suspended t;
     bt_suspendedChanges := bt_suspendedChanges t; bt_channels := v; bt_next := bt_next t |}.
Definition updateChannel (id : Z) (f : Channel → Channel) (t : BreakpointsTool) : BreakpointsTool :=
  set_channels (alter f id (bt_channels t)) t.

Definition notifySuspendedChanges (t : BreakpointsTool) : BreakpointsTool :=
  {| bt_configuration := bt_configuration t; bt_suspended := bt_suspended t;
     bt_suspendedChanges := (bt_suspendedChanges t + 1) mod (u64_max + 1);
     bt_channels := bt_channels t; bt_next := bt_next t |}.

(** The order of the keys of a [BTreeMap<String, _>]. *)
Fixpoint chars_leb (s t : chars) : bool :=
  match s, t with
  | [], _ => true
  | _ :: _, [] => false
  | c :: s, d :: t => (c <? d) || ((c =? d) && chars_leb s t)
  end.
Definition entry_le (a b : chars * PendingBreakpoint) : Prop := chars_leb a.1 b.1 = true.
#[export] Instance entry_le_decision a b : Decision (entry_le a b).
Proof. unfold entry_le. apply _. Defined.
Definition suspendedEntries (t : BreakpointsTool) : list PendingBreakpoint :=
  (merge_sort entry_le (map_to_list (bt_suspended t))).*2.

Definition suspendedBreakpoints (t : BreakpointsTool) : list SuspendedBreakpoint :=
  pb_snapshot <$> suspendedEntries t.
Definition suspendedRevision (t : BreakpointsTool) : Z := bt_suspendedChanges t.

(** [suspended.remove]: the entry is the caller's. *)
Definition removeEntry (transactionId : chars) (t : BreakpointsTool) : option (PendingBreakpoint * BreakpointsTool) :=
  pending ← bt_suspended t !! transactionId;
  Some (pending, set_suspendedEntries (delete transactionId (bt_suspended t)) t).
(** An entry that goes out of scope. *)
Definition dropEntry (pending : PendingBreakpoint) (t : BreakpointsTool) : BreakpointsTool :=
  updateChannel (pb_sender pending) dropSender t.
(** [std::mem::take]. *)
Definition takeEntries (t : BreakpointsTool) : list PendingBreakpoint * BreakpointsTool :=
  (suspendedEntries t, set_suspendedEntries ∅ t).

Definition sendResolution (pending : PendingBreakpoint) (resolution : BreakpointResolution) (t : BreakpointsTool)
    : BreakpointsTool * bool :=
  match bt_channels t !! pb_sender pending with
  | Some channel =>
      let '(channel, delivered) := sendValue resolution channel in
      (set_channels (<[pb_sender pending := channel]> (bt_channels t)) t, delivered)
  | None => (t, false)
  end.

(** ** Suspending *)
Inductive ToolId :=
| BlockList | NoCaching | BlockCookies | MapRemote | MapLocal | Rewrite | Breakpoints | Throttling
| Mirror | AutoSave.
Inductive PipelineError :=
| DuplicateTool
| ToolFailed (toolId : ToolId) (code : chars)
| ResponseShortCircuit (toolId : ToolId).

Definition pipelineError (error : BreakpointError) : PipelineError :=
  ToolFailed Breakpoints (breakpointErrorCode error).

Inductive ToolPhase := RequestPhase | ResponsePhase.

Record ToolRegistration := {
  tr_id : ToolId;
  tr_phases : list ToolPhase;
  tr_enabled : bool;
  tr_requiresRequestBody : bool;
  tr_requiresResponseBody : bool
}.

(** [registration]: a body is asked for while an enabled rule wants the phase. *)
Definition registration (t : BreakpointsTool) : ToolRegistration :=
  let configuration := bt_configuration t in
  {| tr_id := Breakpoints; tr_phases := [RequestPhase; ResponsePhase]; tr_enabled := bc_enabled configuration;
     tr_requiresRequestBody :=
       bc_enabled configuration && existsb (λ rule, br_enabled rule && br_onRequest rule) (bc_rules configuration);
     tr_requiresResponseBody :=
       bc_enabled configuration && existsb (λ rule, br_enabled rule && br_onResponse rule) (bc_rules configuration) |}.

Section breakpoints.
Context `{HttpCrate} (to_lowercase : chars → chars).

Inductive PipelineDirective :=
| DirectiveContinue
| Applied
| ShortCircuit (response : SyntheticResponse)
| Blocked (response : SyntheticResponse).

(** [matchesLocations], the loop and the function; its error is the location error of the candidate or the rule. *)
Fixpoint anyLocation (locations : list LocationPattern) (location : ResolvedLocation) : locating bool :=
  match locations with
  | [] => Ok false
  | pattern :: locations =>
      matched ← locationMatches to_lowercase pattern location LocationMatchOptions_default;
      if (matched : bool) then Ok true else anyLocation locations location
  end.
Definition matchesLocations (locations : list LocationPattern) (location : ResolvedLocation) : locating bool :=
  match locations with [] => Ok true | _ => anyLocation locations location end.

Definition matchesPhase (phase : BreakpointPhase) (rule : BreakpointRule) : bool :=
  match phase with AtRequest => br_onRequest rule | AtResponse => br_onResponse rule end.

(** The loop of [matchingRule]. *)
Fixpoint firstMatching (phase : BreakpointPhase) (location : ResolvedLocation) (rules : list BreakpointRule)
    : outcome BreakpointError (option BreakpointRule) :=
  match rules with
  | [] => Ok None
  | rule :: rules =>
      if negb (br_enabled rule) || negb (matchesPhase phase rule) then firstMatching phase location rules
      else
        matched ← map_err (λ _, InvalidRuleLocation) (matchesLocations [br_location rule] location);
        if (matched : bool) then Ok (Some rule) else firstMatching phase location rules
  end.

Definition matchingRule (phase : BreakpointPhase) (location : ResolvedLocation) (t : BreakpointsTool)
    : outcome BreakpointError (option (BreakpointRule * BreakpointsConfiguration)) :=
  let configuration := bt_configuration t in
  if negb (bc_enabled configuration) then Ok None
  else
    rule ← firstMatching phase location (bc_rules configuration);
    Ok (match rule with Some rule => Some (rule, configuration) | None => None end).

Definition bodyTooLong (bodyLength : option Z) : bool :=
  from_option (λ length, maximumEditableBodyBytes <? length) false bodyLength.

(** [suspend] up to the lock of the queue. *)
Definition suspendMatch (context : PipelineContext) (phase : BreakpointPhase) (bodyLength : option Z)
    (t : BreakpointsTool) : outcome BreakpointError (option (chars * BreakpointRule * BreakpointsConfiguration)) :=
  match pc_transactionId context with
  | None => Ok None
  | Some transactionId =>
      if bodyTooLong bodyLength then Ok None
      else
        matched ← matchingRule phase (pc_location context) t;
        Ok (match matched with
            | Some (rule, configuration) => Some (transactionId, rule, configuration)
            | None => None
            end)
  end.

(** [PendingSuspension]: the lease refers to the queue by the transaction and the
    ownership. *)
Record Suspension := {
  su_snapshot : SuspendedBreakpoint;
  su_configuration : BreakpointsConfiguration;
  su_receiver : Z;
  su_ownership : Z
}.

(** [suspend] under the lock. *)
Definition suspendLocked (transactionId : chars) (phase : BreakpointPhase) (draft : EditableHttpMessage)
    (rule : BreakpointRule) (configuration : BreakpointsConfiguration) (now : Z) (t : BreakpointsTool)
    : option (Suspension * BreakpointsTool) :=
  if (bc_maxSuspended configuration <=? Z.of_nat (size (bt_suspended t)))
     || bool_decide (is_Some (bt_suspended t !! transactionId)) then None
  else
    let snapshot :=
      {| sb_breakpointId := br_id rule; sb_transactionId := transactionId; sb_phase := phase;
         sb_suspendedAtMilliseconds := now;
         sb_expiresAtMilliseconds :=
           saturating_add now (saturating_mul (bc_suspendTimeoutSeconds configuration) 1000);
         sb_draft := draft |} in
    let channel := bt_next t in
    let ownership := bt_next t + 1 in
    Some ({| su_snapshot := snapshot; su_configuration := configuration; su_receiver := channel;
             su_ownership := ownership |},
          {| bt_configuration := bt_configuration t;
             bt_suspended := <[transactionId := {| pb_snapshot := snapshot; pb_sender := channel;
                                                   pb_ownership := ownership |}]> (bt_suspended t);
             bt_suspendedChanges := bt_suspendedChanges t;
             bt_channels := <[channel := openChannel]> (bt_channels t);
             bt_next := bt_next t + 2 |}).

(** [SuspendedQueueLease::drop] under the lock: whether the entry was its own. *)
Definition dropLease (s : Suspension) (t : BreakpointsTool) : BreakpointsTool * bool :=
  let transactionId := sb_transactionId (su_snapshot s) in
  match bt_suspended t !! transactionId with
  | Some pending =>
      if pb_ownership pending =? su_ownership s
      then (dropEntry pending (set_suspendedEntries (delete transactionId (bt_suspended t)) t), true)
      else (t, false)
  | None => (t, false)
  end.

(** What a wait ends with when its time has passed and nobody took the entry. *)
Definition timeoutResolution (s : Suspension) : BreakpointResolution :=
  match bc_onTimeout (su_configuration s) with
  | ContinueOnTimeout => ContinueWith (sb_draft (su_snapshot s))
  | AbortOnTimeout => AbortMessage
  end.

Definition abortedResponse : outcome PipelineError SyntheticResponse :=
  let response := newSynthetic BAD_GATEWAY [] in
  let headers := insertHeader CONTENT_TYPE (headerValueFromStatic (lit "text/plain; charset=utf-8")) (sr_headers response) in
  length ← expect (headerValueFromStr (decimal 0));
  Ok {| sr_status := sr_status response; sr_version := sr_version response;
        sr_headers := insertHeader CONTENT_LENGTH length headers; sr_body := sr_body response |}.

(** ** Hooks *)
Inductive Stage :=
| Entered
| Matched (transactionId : chars) (draft : EditableHttpMessage) (rule : BreakpointRule)
    (configuration : BreakpointsConfiguration)
| Registered            (* in the queue; before the notification *)
| Waiting               (* in [timeout] *)
| Elapsed               (* before the lock that takes the entry *)
| TookOver              (* took it; before the notification *)
| Abandoned             (* somebody else took it: waits for the channel *)
| Leaving               (* before the lease is dropped *)
| Released              (* the lease removed the entry; before the notification *)
| Finished (result : outcome PipelineError PipelineDirective)
| Cancelled.

(** A hook of the pipeline and its variables.  [hk_resolution] is what the wait ended
    with, none when the task was cancelled. *)
Record Hook := {
  hk_phase : BreakpointPhase;
  hk_context : PipelineContext;
  hk_stage : Stage;
  hk_suspension : option Suspension;
  hk_resolution : option BreakpointResolution
}.

Definition set_stage (v : Stage) (h : Hook) : Hook :=
  {| hk_phase := hk_phase h; hk_context := hk_context h; hk_stage := v; hk_suspension := hk_suspension h;
     hk_resolution := hk_resolution h |}.
Definition set_context (v : PipelineContext) (h : Hook) : Hook :=
  {| hk_phase := hk_phase h; hk_context := v; hk_stage := hk_stage h; hk_suspension := hk_suspension h;
     hk_resolution := hk_resolution h |}.
Definition set_suspension (v : Suspension) (h : Hook) : Hook :=
  {| hk_phase := hk_phase h; hk_context := hk_context h; hk_stage := hk_stage h; hk_suspension := Some v;
     hk_resolution := hk_resolution h |}.
Definition set_resolution (v : BreakpointResolution) (h : Hook) : Hook :=
  {| hk_phase := hk_phase h; hk_context := hk_context h; hk_stage := hk_stage h; hk_suspension := hk_suspension h;
     hk_resolution := Some v |}.

(** The message of a phase: its body, and the draft of it. *)
Definition hookMessage (phase : BreakpointPhase) (context : PipelineContext)
    : option (option (list Z) * EditableHttpMessage) :=
  match phase with
  | AtRequest => Some (rq_body (pc_request context), editableRequest context)
  | AtResponse => (λ response, (rd_body response, editableResponse response)) <$> pc_response context
  end.

(** [onRequest] and [onResponse] up to the lock of the queue. *)
Definition enterHook (t : BreakpointsTool) (h : Hook) : Hook :=
  match hookMessage (hk_phase h) (hk_context h) with
  | None => set_stage (Finished (Ok DirectiveContinue)) h
  | Some (body, draft) =>
      let bodyLength := len <$> body in
      if bodyTooLong bodyLength then set_stage (Finished (Ok DirectiveContinue)) h
      else
        match suspendMatch (hk_context h) (hk_phase h) bodyLength t with
        | Ok None => set_stage (Finished (Ok DirectiveContinue)) h
        | Ok (Some (transactionId, rule, configuration)) => set_stage (Matched transactionId draft rule configuration) h
        | Err error => set_stage (Finished (Err (pipelineError error))) h
        | Panic => set_stage (Finished Panic) h
        end
  end.

Definition applied {S} (r : S * outcome MessageDraftError unit) : S * outcome PipelineError PipelineDirective :=
  (r.1, _ ← map_err (λ error, pipelineError (InvalidDraft error)) r.2; Ok Applied).

(** The end of [onRequest] and of [onResponse]. *)
Definition finishRequest (resolution : BreakpointResolution) (context : PipelineContext)
    : PipelineContext * outcome PipelineError PipelineDirective :=
  match resolution with
  | ContinueWith draft => applied (applyRequestDraft draft context)
  | AbortMessage => (context, response ← abortedResponse; Ok (ShortCircuit response))
  end.
Definition finishResponse (resolution : BreakpointResolution) (context : PipelineContext)
    : PipelineContext * outcome PipelineError PipelineDirective :=
  match resolution with
  | ContinueWith draft =>
      match pc_response context with
      | Some response =>
          let '(response, result) := applied (applyResponseDraft draft response) in
          (set_response (Some response) context, result)
      | None => (context, Panic)
      end
  | AbortMessage =>
      match abortedResponse with
      | Ok response => (set_response (Some (fromSynthetic response)) context, Ok Applied)
      | Err error => (context, Err error)
      | Panic => (context, Panic)
      end
  end.

(** The hook after its wait. *)
Definition concludeHook (h : Hook) : Hook :=
  match hk_resolution h with
  | None => set_stage Cancelled h
  | Some resolution =>
      let context := set_suspended false (tf_breakpointHit (pc_flags (hk_context h))) (hk_context h) in
      let '(context, result) :=
        match hk_phase h with
        | AtRequest => finishRequest resolution context
        | AtResponse => finishResponse resolution context
        end in
      set_stage (Finished result) (set_context context h)
  end.

(** One step of a hook that does not wait for its channel, or whose channel is ready. *)
Definition advanceHook (now : Z) (h : Hook) (t : BreakpointsTool) : option (Hook * BreakpointsTool) :=
  match hk_stage h, hk_suspension h with
  | Entered, _ => Some (enterHook t h, t)
  | Matched transactionId draft rule configuration, _ =>
      Some (match suspendLocked transactionId (hk_phase h) draft rule configuration now t with
            | Some (s, t) => (set_stage Registered (set_suspension s h), t)
            | None => (set_stage (Finished (Ok DirectiveContinue)) h, t)
            end)
  | Registered, _ =>
      Some (set_stage Waiting (set_context (set_suspended true true (hk_context h)) h), notifySuspendedChanges t)
  | Waiting, Some s | Abandoned, Some s =>
      channel ← bt_channels t !! su_receiver s;
      resolution ← pollChannel channel;
      Some (set_stage Leaving (set_resolution (default AbortMessage resolution) h),
            updateChannel (su_receiver s) dropReceiver t)
  | Elapsed, Some s =>
      Some (match removeEntry (sb_transactionId (su_snapshot s)) t with
            | Some (pending, t) => (set_stage TookOver h, dropEntry pending t)
            | None => (set_stage Abandoned h, t)
            end)
  | TookOver, Some s =>
      Some (set_stage Leaving (set_resolution (timeoutResolution s) h),
            updateChannel (su_receiver s) dropReceiver (notifySuspendedChanges t))
  | Leaving, Some s =>
      let '(t, owned) := dropLease s t in
      Some (if owned then (set_stage Released h, t) else (concludeHook h, t))
  | Released, _ => Some (concludeHook h, notifySuspendedChanges t)
  | _, _ => None
  end.

(** The delay of [timeout] has passed; the channel, polled before it, was pending. *)
Definition elapseHook (h : Hook) (t : BreakpointsTool) : option Hook :=
  match hk_stage h, hk_suspension h with
  | Waiting, Some s =>
      channel ← bt_channels t !! su_receiver s;
      match pollChannel channel with None => Some (set_stage Elapsed h) | Some _ => None end
  | _, _ => None
  end.

(** The task is dropped where it waits: first the receiver, then the lease. *)
Definition cancelHook (h : Hook) (t : BreakpointsTool) : option (Hook * BreakpointsTool) :=
  match hk_stage h, hk_suspension h with
  | Waiting, Some s | Abandoned, Some s =>
      Some (set_stage Leaving h, updateChannel (su_receiver s) dropReceiver t)
  | _, _ => None
  end.

(** ** Calls of the control API *)
Inductive ControlRequest :=
| ContinueBreakpoint (transactionId : chars) (draft : EditableHttpMessage)
| AbortBreakpoint (transactionId : chars)
| ReleaseAll
| ReplaceConfiguration (configuration : BreakpointsConfiguration).

Inductive Answer :=
| AnswerUnit (result : outcome BreakpointError unit)
| AnswerCount (count : Z).

Inductive CallStage :=
| Called
| Validated                        (* the draft is accepted; before the lock that takes the entry *)
| Sending (pending : PendingBreakpoint)
| Replaced                         (* the configuration is written; before [releaseAll] *)
| Releasing (pending : list PendingBreakpoint) (count : Z)
| Notifying (answer : Answer)
| Answered (answer : Answer).

(** A call; [cl_taken] are the entries it took from the queue. *)
Record Call := {
  cl_request : ControlRequest;
  cl_stage : CallStage;
  cl_taken : list PendingBreakpoint
}.

Definition resolutionOf (request : ControlRequest) : BreakpointResolution :=
  match request with ContinueBreakpoint _ draft => ContinueWith draft | _ => AbortMessage end.

Definition set_callStage (v : CallStage) (c : Call) : Call :=
  {| cl_request := cl_request c; cl_stage := v; cl_taken := cl_taken c |}.
Definition set_taken (v : list PendingBreakpoint) (c : Call) : Call :=
  {| cl_request := cl_request c; cl_stage := cl_stage c; cl_taken := v |}.

Definition validateDraft (phase : BreakpointPhase) (draft : EditableHttpMessage) : drafting unit :=
  match phase with AtRequest => validateRequestDraft draft | AtResponse => validateResponseDraft draft end.

(** The lock of [continueBreakpoint] and [abortBreakpoint] that takes the entry. *)
Definition takeEntry (transactionId : chars) (c : Call) (t : BreakpointsTool) : Call * BreakpointsTool :=
  match removeEntry transactionId t with
  | Some (pending, t) => (set_callStage (Sending pending) (set_taken [pending] c), t)
  | None => (set_callStage (Answered (AnswerUnit (Err NotFound))) c, t)
  end.

(** The first lock of [releaseAll]. *)
Definition takeAll (c : Call) (t : BreakpointsTool) : Call * BreakpointsTool :=
  let '(pending, t) := takeEntries t in
  (set_callStage (Releasing pending (len pending)) (set_taken pending c), t).

(** The answer of [releaseAll], and of [replaceConfiguration], which ignores the count. *)
Definition releaseAnswer (request : ControlRequest) (count : Z) : Answer :=
  match request with ReleaseAll => AnswerCount count | _ => AnswerUnit (Ok tt) end.

(** The first step of a call. *)
Definition startCall (c : Call) (t : BreakpointsTool) : Call * BreakpointsTool :=
  let answer result := (set_callStage (Answered (AnswerUnit result)) c, t) in
  match cl_request c with
  | ContinueBreakpoint transactionId draft =>
      match bt_suspended t !! transactionId with
      | None => answer (Err NotFound)
      | Some pending =>
          match map_err InvalidDraft (validateDraft (sb_phase (pb_snapshot pending)) draft) with
          | Ok _ => (set_callStage Validated c, t)
          | Err error => answer (Err error)
          | Panic => answer Panic
          end
      end
  | AbortBreakpoint transactionId => takeEntry transactionId c t
  | ReleaseAll => takeAll c t
  | ReplaceConfiguration configuration =>
      match validateConfiguration configuration with
      | Ok _ =>
          let t := set_configuration configuration t in
          if negb (bc_enabled configuration) then (set_callStage Replaced c, t)
          else (set_callStage (Answered (AnswerUnit (Ok tt))) c, t)
      | Err error => answer (Err error)
      | Panic => answer Panic
      end
  end.

Definition advanceCall (c : Call) (t : BreakpointsTool) : option (Call * BreakpointsTool) :=
  match cl_stage c with
  | Called => Some (startCall c t)
  | Validated =>
      match cl_request c with
      | ContinueBreakpoint transactionId _ => Some (takeEntry transactionId c t)
      | _ => None
      end
  | Sending pending =>
      let '(t, delivered) := sendResolution pending (resolutionOf (cl_request c)) t in
      Some (set_callStage (Notifying (AnswerUnit (if delivered then Ok tt else Err ResolutionClosed))) c, t)
  | Replaced => Some (takeAll c t)
  | Releasing (pending :: rest) count =>
      let '(t, _) := sendResolution pending AbortMessage t in
      Some (set_callStage (Releasing rest count) c, t)
  | Releasing [] count =>
      Some (set_callStage (Answered (releaseAnswer (cl_request c) count)) c,
            if 0 <? count then notifySuspendedChanges t else t)
  | Notifying answer => Some (set_callStage (Answered answer) c, notifySuspendedChanges t)
  | Answered _ => None
  end.

(** ** Interleavings *)
Record World := {
  w_tool : BreakpointsTool;
  w_hooks : gmap Z Hook;
  w_calls : gmap Z Call
}.

(** The hook has not returned. *)
Definition active (h : Hook) : bool :=
  match hk_stage h with Finished _ | Cancelled => false | _ => true end.

(** No hook of the transaction runs: the recording gives every transaction its own
    identity, and its request and its response pass the pipeline one after the other. *)
Definition transactionFree (context : PipelineContext) (w : World) : bool :=
  match pc_transactionId context with
  | None => true
  | Some transactionId =>
      forallb (λ '(_, h), negb (active h && bool_decide (pc_transactionId (hk_context h) = Some transactionId)))
        (map_to_list (w_hooks w))
  end.

Inductive Event :=
| NewHook (id : Z) (phase : BreakpointPhase) (context : PipelineContext)
| NewCall (id : Z) (request : ControlRequest)
| AdvanceHook (id now : Z)
| Elapse (id : Z)
| Cancel (id : Z)
| AdvanceCall (id : Z).

(** An event that no new hook and no new call is part of. *)
Definition internal (e : Event) : bool := match e with NewHook _ _ _ | NewCall _ _ => false | _ => true end.

Definition set_hook (id : Z) (h : Hook) (t : BreakpointsTool) (w : World) : World :=
  {| w_tool := t; w_hooks := <[id := h]> (w_hooks w); w_calls := w_calls w |}.
Definition set_call (id : Z) (c : Call) (t : BreakpointsTool) (w : World) : World :=
  {| w_tool := t; w_hooks := w_hooks w; w_calls := <[id := c]> (w_calls w) |}.

Definition step (w : World) (e : Event) : option World :=
  let t := w_tool w in
  match e with
  | NewHook id phase context =>
      if bool_decide (w_hooks w !! id = None) && transactionFree context w then
        Some (set_hook id {| hk_phase := phase; hk_context := context; hk_stage := Entered;
                             hk_suspension := None; hk_resolution := None |} t w)
      else None
  | NewCall id request =>
      if bool_decide (w_calls w !! id = None) then
        Some (set_call id {| cl_request := request; cl_stage := Called; cl_taken := [] |} t w)
      else None
  | AdvanceHook id now =>
      h ← w_hooks w !! id; '(h, t) ← advanceHook now h t; Some (set_hook id h t w)
  | Elapse id => h ← w_hooks w !! id; h ← elapseHook h t; Some (set_hook id h t w)
  | Cancel id => h ← w_hooks w !! id; '(h, t) ← cancelHook h t; Some (set_hook id h t w)
  | AdvanceCall id => c ← w_calls w !! id; '(c, t) ← advanceCall c t; Some (set_call id c t w)
  end.

Fixpoint run (w : World) (events : list Event) : option World :=
  match events with
  | [] => Some w
  | e :: events => w ← step w e; run w events
  end.

Definition initialWorld (t : BreakpointsTool) : World := {| w_tool := t; w_hooks := ∅; w_calls := ∅ |}.

(** The worlds a new tool reaches. *)
Definition Reachable (w : World) : Prop :=
  ∃ configuration t events, newTool configuration = Ok t ∧ run (initialWorld t) events = Some w.
End breakpoints.
