(* ===== verification/BreakpointInvariant.v ===== *)
(** * The invariant of the breakpoints

    What holds in every [World] of [Breakpoints]: every suspended message belongs to one
    hook, and every channel to whoever is to answer it.  A ghost map gives the status of
    each channel; the lemmas, one per kind of step, show how the steps move it. *)

From S2P Require Import Prelude NetAddress Text Stateful Location LocationTheorems CaptureModel MessageDraft Breakpoints.

(** ** The invariant *)

(** Who holds the sender of a channel, or what became of it. *)
Inductive Status :=
| Queued
| InFlight (call : Z)
| Delivered (call : Z) (resolution : BreakpointResolution)
| Closed (call : Z)
| Reclaimed.

(** A status and its channel. *)
Definition ChannelOk (status : Status) (channel : Channel) : Prop :=
  match status with
  | Queued | InFlight _ => ch_sender channel = true ∧ ch_value channel = None
  | Delivered _ r => ch_sender channel = false ∧ ch_value channel = Some r
  | Closed _ => ch_sender channel = false ∧ ch_value channel = None ∧ ch_receiver channel = false
  | Reclaimed => ch_sender channel = false ∧ ch_value channel = None
  end.

Definition validConfiguration (configuration : BreakpointsConfiguration) : Prop :=
  validateConfiguration configuration = Ok tt.

(** The entries a call holds, which it has still to answer. *)
Definition flight (c : Call) : list PendingBreakpoint :=
  match cl_stage c with Sending p => [p] | Releasing ps _ => ps | _ => [] end.

Section invariant.
Context `{Hlaws : HttpLaws} (to_lowercase : chars → chars).

Definition pendingOf (s : Suspension) : PendingBreakpoint :=
  {| pb_snapshot := su_snapshot s; pb_sender := su_receiver s; pb_ownership := su_ownership s |}.
Definition transactionOf (s : Suspension) : chars := sb_transactionId (su_snapshot s).

(** How a wait ended. *)
Definition Ended (h : Hook) (s : Suspension) (status : Status) (channel : Channel) : Prop :=
  match hk_resolution h with
  | None => ch_receiver channel = false
  | Some r => (∃ c, status = Delivered c r) ∨ status = Reclaimed ∧ r = timeoutResolution s
  end.

Definition StageOk (h : Hook) (s : Suspension) (status : Status) (channel : Channel) : Prop :=
  match hk_stage h with
  | Entered | Matched _ _ _ _ => False
  | Registered | Waiting | Elapsed =>
      hk_resolution h = None ∧ ch_receiver channel = true ∧ status ≠ Reclaimed
  | Abandoned => hk_resolution h = None ∧ ch_receiver channel = true ∧ status ≠ Reclaimed ∧ status ≠ Queued
  | TookOver => hk_resolution h = None ∧ status = Reclaimed
  | Leaving => Ended h s status channel
  | Released => Ended h s status channel ∧ status ≠ Queued
  | Finished _ => Ended h s status channel ∧ status ≠ Queued ∧ is_Some (hk_resolution h)
  | Cancelled => ch_receiver channel = false ∧ status ≠ Queued ∧ hk_resolution h = None
  end.

(** A hook and the channel of its suspension. *)
Definition HookOk (σ : gmap Z Status) (t : BreakpointsTool) (h : Hook) : Prop :=
  hk_stage h ≠ Finished Panic ∧
  match hk_suspension h with
  | None =>
      hk_resolution h = None ∧
      match hk_stage h with
      | Entered | Finished _ => True
      | Matched transactionId _ _ configuration =>
          validConfiguration configuration ∧ pc_transactionId (hk_context h) = Some transactionId ∧
          (hk_phase h = AtResponse → is_Some (pc_response (hk_context h)))
      | _ => False
      end
  | Some s =>
      su_ownership s = su_receiver s + 1 ∧ sb_phase (su_snapshot s) = hk_phase h ∧
      (active h = true →
        pc_transactionId (hk_context h) = Some (transactionOf s) ∧
        (hk_phase h = AtResponse → is_Some (pc_response (hk_context h)))) ∧
      ∃ status channel, σ !! su_receiver s = Some status ∧ bt_channels t !! su_receiver s = Some channel ∧
        StageOk h s status channel
  end.

(** What a call tells: whether what it took was delivered. *)
Definition AnswerOk (σ : gmap Z Status) (id : Z) (c : Call) (answer : Answer) : Prop :=
  answer ≠ AnswerUnit Panic ∧
  match cl_request c with
  | ContinueBreakpoint transactionId _ | AbortBreakpoint transactionId =>
      match answer with
      | AnswerUnit (Ok _) =>
          ∃ p, cl_taken c = [p] ∧ sb_transactionId (pb_snapshot p) = transactionId ∧
               σ !! pb_sender p = Some (Delivered id (resolutionOf (cl_request c)))
      | AnswerUnit (Err ResolutionClosed) =>
          ∃ p, cl_taken c = [p] ∧ sb_transactionId (pb_snapshot p) = transactionId ∧ σ !! pb_sender p = Some (Closed id)
      | AnswerUnit (Err _) => cl_taken c = []
      | _ => False
      end
  | _ => True
  end.

Definition CallOk (σ : gmap Z Status) (id : Z) (c : Call) : Prop :=
  NoDup (pb_sender <$> flight c) ∧
  (∀ p, p ∈ flight c → σ !! pb_sender p = Some (InFlight id)) ∧
  (∃ spent, cl_taken c = spent ++ flight c ∧
     ∀ p, p ∈ spent → σ !! pb_sender p = Some (Delivered id (resolutionOf (cl_request c)))
                      ∨ σ !! pb_sender p = Some (Closed id)) ∧
  match cl_stage c with
  | Called => cl_taken c = []
  | Replaced => cl_taken c = [] ∧ ∃ configuration, cl_request c = ReplaceConfiguration configuration
  | Validated => cl_taken c = [] ∧ ∃ transactionId draft, cl_request c = ContinueBreakpoint transactionId draft
  | Sending p =>
      cl_taken c = [p] ∧
      match cl_request c with
      | ContinueBreakpoint transactionId _ | AbortBreakpoint transactionId =>
          sb_transactionId (pb_snapshot p) = transactionId
      | _ => False
      end
  | Releasing _ _ =>
      match cl_request c with ReleaseAll | ReplaceConfiguration _ => True | _ => False end
  | Notifying answer | Answered answer => AnswerOk σ id c answer
  end.

Record Inv (σ : gmap Z Status) (w : World) : Prop := {
  inv_configuration : validConfiguration (bt_configuration (w_tool w));
  inv_size : (size (bt_suspended (w_tool w)) ≤ 1024)%nat;
  inv_fresh : ∀ id, bt_next (w_tool w) ≤ id → σ !! id = None;
  inv_channel : ∀ id status, σ !! id = Some status →
    ∃ channel, bt_channels (w_tool w) !! id = Some channel ∧ ChannelOk status channel;
  inv_hook : ∀ k h, w_hooks w !! k = Some h → HookOk σ (w_tool w) h;
  inv_receivers : ∀ k h s k' h' s', w_hooks w !! k = Some h → w_hooks w !! k' = Some h' →
    hk_suspension h = Some s → hk_suspension h' = Some s' → su_receiver s = su_receiver s' → k = k';
  inv_transactions : ∀ k h k' h' transactionId, w_hooks w !! k = Some h → w_hooks w !! k' = Some h' →
    active h = true → active h' = true → pc_transactionId (hk_context h) = Some transactionId →
    pc_transactionId (hk_context h') = Some transactionId → k = k';
  inv_queue : ∀ transactionId p, bt_suspended (w_tool w) !! transactionId = Some p →
    ∃ k h s, w_hooks w !! k = Some h ∧ hk_suspension h = Some s ∧ p = pendingOf s ∧
      transactionId = transactionOf s ∧ σ !! su_receiver s = Some Queued;
  inv_queued : ∀ k h s, w_hooks w !! k = Some h → hk_suspension h = Some s →
    σ !! su_receiver s = Some Queued → bt_suspended (w_tool w) !! transactionOf s = Some (pendingOf s);
  inv_call : ∀ id c, w_calls w !! id = Some c → CallOk σ id c;
  inv_taken : ∀ id c p, w_calls w !! id = Some c → p ∈ cl_taken c →
    ∃ k h s, w_hooks w !! k = Some h ∧ hk_suspension h = Some s ∧ p = pendingOf s;
  inv_holder : ∀ id status call, σ !! id = Some status →
    (status = InFlight call ∨ status = Closed call ∨ ∃ r, status = Delivered call r) →
    ∃ c p, w_calls w !! call = Some c ∧ p ∈ cl_taken c ∧ pb_sender p = id ∧
      (status = InFlight call → p ∈ flight c) ∧
      (∀ r, status = Delivered call r → r = resolutionOf (cl_request c))
}.

(** ** Preservation *)
(** How a status may move on without its hook. *)
Definition Moved (status status' : Status) : Prop :=
  (status = Queued ∧ ∃ c, status' = InFlight c) ∨
  (∃ c, status = InFlight c ∧ (status' = Closed c ∨ ∃ r, status' = Delivered c r)).

Lemma stage_moved h s status status' channel channel' :
  StageOk h s status channel → ch_receiver channel' = ch_receiver channel → Moved status status' →
  StageOk h s status' channel'.
Proof.
  unfold StageOk, Ended, Moved. intros Hs -> Hm.
  assert (status' ≠ Queued ∧ status' ≠ Reclaimed ∧ status ≠ Reclaimed ∧ ∀ c r, status ≠ Delivered c r) as (? & ? & ? & ?)
    by naive_solver.
  destruct (hk_stage h), (hk_resolution h); naive_solver.
Qed.

Lemma hook_same σ σ' t t' h :
  HookOk σ t h →
  (∀ s, hk_suspension h = Some s → σ' !! su_receiver s = σ !! su_receiver s ∧
    bt_channels t' !! su_receiver s = bt_channels t !! su_receiver s) →
  HookOk σ' t' h.
Proof.
  unfold HookOk. intros [Hp Hh] Hsame. split; [done|]. destruct (hk_suspension h) as [s|]; [|done].
  destruct (Hsame s eq_refl) as [Hσ Hc].
  destruct Hh as (? & ? & ? & status & channel & ? & ? & ?). split_and!; [done..|]. exists status, channel. by rewrite Hσ, Hc.
Qed.

(** A call keeps what it says while the statuses it speaks of stay. *)
Lemma answer_kept σ σ' id c answer :
  AnswerOk σ id c answer →
  (∀ i status, σ !! i = Some status → (status = Closed id ∨ ∃ r, status = Delivered id r) → σ' !! i = Some status) →
  AnswerOk σ' id c answer.
Proof.
  intros [Hp Ha] Hkeep. split; [done|].
  destruct (cl_request c); try done; destruct answer as [[|[]|]|]; try done;
    destruct Ha as (p & ? & ? & ?); exists p; split_and!; eauto.
Qed.
Lemma call_kept σ σ' id c :
  CallOk σ id c →
  (∀ i status, σ !! i = Some status → (status = InFlight id ∨ status = Closed id ∨ ∃ r, status = Delivered id r) →
     σ' !! i = Some status) →
  CallOk σ' id c.
Proof.
  intros (Hnd & Hfl & (spent & Hsp & Hspent) & Hst) Hkeep. split_and!; [done| | |].
  - intros p Hp. eauto.
  - exists spent. split; [done|]. intros p Hp. destruct (Hspent p Hp); [left|right]; eauto 6.
  - destruct (cl_stage c); try done; eapply answer_kept; [done|eauto|done|eauto].
Qed.

(** The queue holds at most one entry of a channel. *)
Lemma queue_sender σ w transactionId p transactionId' p' :
  Inv σ w → bt_suspended (w_tool w) !! transactionId = Some p → bt_suspended (w_tool w) !! transactionId' = Some p' →
  pb_sender p = pb_sender p' → transactionId = transactionId' ∧ p = p'.
Proof.
  intros Hinv Hp Hp' Heq.
  destruct (inv_queue _ _ Hinv _ _ Hp) as (k & h & s & Hk & Hs & -> & -> & _).
  destruct (inv_queue _ _ Hinv _ _ Hp') as (k' & h' & s' & Hk' & Hs' & -> & -> & _).
  pose proof (inv_receivers _ _ Hinv _ _ _ _ _ _ Hk Hk' Hs Hs' Heq) as <-. by simplify_eq.
Qed.

(** The hooks before and after one of them moved. *)
Lemma hooks_old (hooks : gmap Z Hook) k h h' :
  hooks !! k = Some h → hk_suspension h' = hk_suspension h →
  (active h' = true → active h = true ∧ pc_transactionId (hk_context h') = pc_transactionId (hk_context h)) →
  ∀ k0 h0, <[k:=h']> hooks !! k0 = Some h0 →
    ∃ h1, hooks !! k0 = Some h1 ∧ hk_suspension h0 = hk_suspension h1 ∧
      (active h0 = true → active h1 = true ∧ pc_transactionId (hk_context h0) = pc_transactionId (hk_context h1)).
Proof.
  intros Hk Hs Ha k0 h0. destruct (decide (k = k0)) as [<-|Hne].
  - rewrite lookup_insert_eq. intros [= <-]. eauto.
  - rewrite lookup_insert_ne by done. eauto 6.
Qed.
Lemma hooks_new (hooks : gmap Z Hook) k h h' :
  hooks !! k = Some h → hk_suspension h' = hk_suspension h →
  ∀ k0 h1 s, hooks !! k0 = Some h1 → hk_suspension h1 = Some s →
    ∃ h0, <[k:=h']> hooks !! k0 = Some h0 ∧ hk_suspension h0 = Some s.
Proof.
  intros Hk Hs k0 h1 s Hk0 Hs0. destruct (decide (k = k0)) as [<-|Hne].
  - rewrite lookup_insert_eq. exists h'. split; [done|]. congruence.
  - rewrite lookup_insert_ne by done. eauto.
Qed.

(** A hook moves while nothing of the queue changes; its receiver may go. *)
Lemma inv_hook_step σ w k h h' t' :
  Inv σ w → w_hooks w !! k = Some h → hk_suspension h' = hk_suspension h →
  (active h' = true → active h = true ∧ pc_transactionId (hk_context h') = pc_transactionId (hk_context h)) →
  bt_configuration t' = bt_configuration (w_tool w) → bt_suspended t' = bt_suspended (w_tool w) →
  bt_next t' = bt_next (w_tool w) →
  (bt_channels t' = bt_channels (w_tool w) ∨
   ∃ s, hk_suspension h = Some s ∧ bt_channels t' = alter dropReceiver (su_receiver s) (bt_channels (w_tool w))) →
  HookOk σ t' h' → Inv σ (set_hook k h' t' w).
Proof.
  intros Hinv Hk Hs' Ha Hconf Hsusp Hnext Hch Hok.
  pose proof (hooks_old _ _ _ _ Hk Hs' Ha) as Hold. pose proof (hooks_new _ _ _ _ Hk Hs') as Hnew.
  constructor; cbn.
  - rewrite Hconf. apply Hinv.
  - rewrite Hsusp. apply Hinv.
  - rewrite Hnext. apply Hinv.
  - intros id status Hid. destruct (inv_channel _ _ Hinv _ _ Hid) as (channel & Hc & Hcok).
    destruct Hch as [->|(s & Hs & ->)]; [eauto|].
    destruct (decide (su_receiver s = id)) as [<-|Hne].
    + exists (dropReceiver channel). rewrite lookup_alter_eq, Hc. split; [done|]. by destruct status; cbn; naive_solver.
    + exists channel. by rewrite lookup_alter_ne.
  - intros k0 h0. destruct (decide (k = k0)) as [<-|Hne].
    + rewrite lookup_insert_eq. by intros [= <-].
    + rewrite lookup_insert_ne by done. intros Hk0. eapply hook_same; [by apply (inv_hook _ _ Hinv _ _ Hk0)|].
      intros s Hs. split; [done|]. destruct Hch as [->|(s' & Hs'' & ->)]; [done|].
      apply lookup_alter_ne. intros Heq. apply Hne. by eapply (inv_receivers _ _ Hinv).
  - intros k1 h1 s1 k2 h2 s2 H1 H2 Hs1 Hs2. destruct (Hold _ _ H1) as (? & ? & ? & _), (Hold _ _ H2) as (? & ? & ? & _).
    eapply (inv_receivers _ _ Hinv); [done..| |]; congruence.
  - intros k1 h1 k2 h2 tid H1 H2 Ha1 Ha2 Ht1 Ht2.
    destruct (Hold _ _ H1) as (h3 & K1 & _ & E1), (Hold _ _ H2) as (h4 & K2 & _ & E2).
    destruct (E1 Ha1), (E2 Ha2).
    eapply (inv_transactions _ _ Hinv _ _ _ _ tid K1 K2); congruence.
  - rewrite Hsusp. intros tid p Hp. destruct (inv_queue _ _ Hinv _ _ Hp) as (k0 & h0 & s & Hk0 & Hs & ? & ? & ?).
    destruct (Hnew _ _ _ Hk0 Hs) as (h1 & ? & ?). eauto 10.
  - rewrite Hsusp. intros k0 h0 s Hk0 Hs Hσ. destruct (Hold _ _ Hk0) as (h1 & Hk1 & Heq & _).
    eapply (inv_queued _ _ Hinv); [done| |done]. congruence.
  - apply Hinv.
  - intros id c p Hc Hp. destruct (inv_taken _ _ Hinv _ _ _ Hc Hp) as (k0 & h0 & s & Hk0 & Hs & ?).
    destruct (Hnew _ _ _ Hk0 Hs) as (h1 & ? & ?). eauto 10.
  - apply Hinv.
Qed.

(** The entry of a hook leaves the queue, and its sender with it. *)
Lemma inv_reclaim σ w k h s h' :
  Inv σ w → w_hooks w !! k = Some h → hk_suspension h = Some s → hk_suspension h' = Some s →
  (active h' = true → active h = true ∧ pc_transactionId (hk_context h') = pc_transactionId (hk_context h)) →
  σ !! su_receiver s = Some Queued →
  let t' := dropEntry (pendingOf s)
    (set_suspendedEntries (delete (transactionOf s) (bt_suspended (w_tool w))) (w_tool w)) in
  HookOk (<[su_receiver s := Reclaimed]> σ) t' h' →
  Inv (<[su_receiver s := Reclaimed]> σ) (set_hook k h' t' w).
Proof.
  intros Hinv Hk Hs Hs' Ha Hσ t' Hok.
  pose proof (inv_queued _ _ Hinv _ _ _ Hk Hs Hσ) as Hentry.
  assert (∀ k0 h0 s0, w_hooks w !! k0 = Some h0 → hk_suspension h0 = Some s0 → su_receiver s0 = su_receiver s → k0 = k) as Honly.
  { intros k0 h0 s0 Hk0 Hs0 Heq. by eapply (inv_receivers _ _ Hinv). }
  assert (hk_suspension h' = hk_suspension h) as Hsame by congruence.
  pose proof (hooks_old _ _ _ _ Hk Hsame Ha) as Hold. pose proof (hooks_new _ _ _ _ Hk Hsame) as Hnew.
  constructor; cbn.
  - apply Hinv.
  - etrans; [apply map_subseteq_size, delete_subseteq|]. apply Hinv.
  - intros id Hid. rewrite lookup_insert_ne; [by apply (inv_fresh _ _ Hinv)|].
    intros <-. rewrite (inv_fresh _ _ Hinv) in Hσ by done. done.
  - intros id status. destruct (decide (su_receiver s = id)) as [<-|Hne].
    + rewrite lookup_insert_eq. intros [= <-]. destruct (inv_channel _ _ Hinv _ _ Hσ) as (channel & Hc & Hcok).
      exists (dropSender channel). rewrite lookup_alter_eq, Hc. split; [done|]. cbn in *. naive_solver.
    + rewrite lookup_insert_ne, lookup_alter_ne by done. apply (inv_channel _ _ Hinv).
  - intros k0 h0. destruct (decide (k = k0)) as [<-|Hne].
    + rewrite lookup_insert_eq. by intros [= <-].
    + rewrite lookup_insert_ne by done. intros Hk0. eapply hook_same; [by apply (inv_hook _ _ Hinv _ _ Hk0)|].
      intros s0 Hs0. assert (su_receiver s ≠ su_receiver s0) by (intros Heq; apply Hne; symmetry; by eapply Honly).
      cbn. by rewrite lookup_insert_ne, lookup_alter_ne.
  - intros k1 h1 s1 k2 h2 s2 H1 H2 Hs1 Hs2. destruct (Hold _ _ H1) as (? & ? & ? & _), (Hold _ _ H2) as (? & ? & ? & _).
    eapply (inv_receivers _ _ Hinv); [done..| |]; congruence.
  - intros k1 h1 k2 h2 tid H1 H2 Ha1 Ha2 Ht1 Ht2.
    destruct (Hold _ _ H1) as (h3 & K1 & _ & E1), (Hold _ _ H2) as (h4 & K2 & _ & E2).
    destruct (E1 Ha1), (E2 Ha2).
    eapply (inv_transactions _ _ Hinv _ _ _ _ tid K1 K2); congruence.
  - intros tid p [Hne Hp]%lookup_delete_Some. destruct (inv_queue _ _ Hinv _ _ Hp) as (k0 & h0 & s0 & Hk0 & Hs0 & ? & ? & ?).
    destruct (Hnew _ _ _ Hk0 Hs0) as (h1 & ? & ?). exists k0, h1, s0. split_and!; [done..|].
    rewrite lookup_insert_ne; [done|]. intros Heq. assert (k0 = k) as -> by (by eapply Honly). simplify_eq.
  - intros k0 h0 s0 Hk0 Hs0. destruct (decide (su_receiver s = su_receiver s0)) as [Heq|Hne].
    + rewrite Heq, lookup_insert_eq. done.
    + rewrite lookup_insert_ne by done. intros Hσ0. destruct (Hold _ _ Hk0) as (h1 & Hk1 & Heq & _).
      rewrite Heq in Hs0. pose proof (inv_queued _ _ Hinv _ _ _ Hk1 Hs0 Hσ0) as He.
      rewrite lookup_delete_ne; [done|]. intros Ht. rewrite <-Ht, Hentry in He. apply Hne. by injection He.
  - intros id c Hc. pose proof (inv_call _ _ Hinv _ _ Hc) as Hcall.
    eapply call_kept; [done|]. intros i st Hi Hst. rewrite lookup_insert_ne; [done|]. intros <-. naive_solver.
  - intros id c p Hc Hp. destruct (inv_taken _ _ Hinv _ _ _ Hc Hp) as (k0 & h0 & s0 & Hk0 & Hs0 & ?).
    destruct (Hnew _ _ _ Hk0 Hs0) as (h1 & ? & ?). eauto 10.
  - intros id status call. destruct (decide (su_receiver s = id)) as [<-|Hne].
    + rewrite lookup_insert_eq. intros [= <-]. naive_solver.
    + rewrite lookup_insert_ne by done. apply (inv_holder _ _ Hinv).
Qed.

(** A message enters the queue. *)
Lemma inv_register σ w k h transactionId draft rule configuration now s t' :
  Inv σ w → w_hooks w !! k = Some h → hk_suspension h = None → active h = true →
  validConfiguration configuration → pc_transactionId (hk_context h) = Some transactionId →
  suspendLocked transactionId (hk_phase h) draft rule configuration now (w_tool w) = Some (s, t') →
  let σ' := <[su_receiver s := Queued]> σ in
  HookOk σ' t' (set_stage Registered (set_suspension s h)) →
  Inv σ' (set_hook k (set_stage Registered (set_suspension s h)) t' w).
Proof.
  intros Hinv Hk Hnone Ha Hvalid Htid. unfold suspendLocked.
  destruct (_ || _) eqn:Hguard; [done|]. apply orb_false_iff in Hguard as [Hsize%Z.leb_gt Hfree%bool_decide_eq_false].
  intros [= <- <-]. cbn -[set_stage set_suspension]. set (s := {| su_snapshot := _ |}). intros Hok.
  assert (bt_suspended (w_tool w) !! transactionId = None) as Hempty by (by apply eq_None_not_Some).
  assert (σ !! bt_next (w_tool w) = None) as Hfresh by (by apply (inv_fresh _ _ Hinv)).
  assert (∀ id status, σ !! id = Some status → bt_next (w_tool w) ≠ id) as Hold by (intros id st Hid <-; congruence).
  assert (bc_maxSuspended configuration ≤ 1024) as Hmax.
  { unfold validConfiguration, validateConfiguration in Hvalid.
    apply bind_Ok_inv in Hvalid as (? & _ & Hvalid). apply bind_Ok_inv in Hvalid as (? & _ & Hvalid).
    apply bind_Ok_inv in Hvalid as (? & Hc%check_Ok_inv & _). apply andb_true_iff in Hc as [_ Hc%Z.leb_le]. lia. }
  assert (∀ k0 h0 s0, w_hooks w !! k0 = Some h0 → hk_suspension h0 = Some s0 → k0 ≠ k ∧ su_receiver s0 ≠ bt_next (w_tool w)) as Hother.
  { intros k0 h0 s0 Hk0 Hs0. split; [intros ->; congruence|].
    destruct (inv_hook _ _ Hinv _ _ Hk0) as [_ Hh]. rewrite Hs0 in Hh. destruct Hh as (_ & _ & _ & st & ? & Hst & _). naive_solver. }
  constructor; cbn -[set_stage set_suspension].
  - apply Hinv.
  - rewrite map_size_insert_None by done. lia.
  - intros id Hid. rewrite lookup_insert_ne by lia. apply (inv_fresh _ _ Hinv). lia.
  - intros id status. destruct (decide (bt_next (w_tool w) = id)) as [<-|Hne].
    + rewrite !lookup_insert_eq. intros [= <-]. by exists openChannel.
    + rewrite !lookup_insert_ne by done. apply (inv_channel _ _ Hinv).
  - intros k0 h0. destruct (decide (k = k0)) as [<-|Hne].
    + rewrite lookup_insert_eq. by intros [= <-].
    + rewrite lookup_insert_ne by done. intros Hk0. eapply hook_same; [by apply (inv_hook _ _ Hinv _ _ Hk0)|].
      intros s0 Hs0. destruct (Hother _ _ _ Hk0 Hs0). cbn. by rewrite !lookup_insert_ne.
  - intros k1 h1 s1 k2 h2 s2. rewrite !lookup_insert_Some. intros [[<- <-]|[? Hk1]] [[<- <-]|[? Hk2]] Hs1 Hs2 Heq; [done|..].
    + cbn in Hs1. injection Hs1 as <-. destruct (Hother _ _ _ Hk2 Hs2). naive_solver.
    + cbn in Hs2. injection Hs2 as <-. destruct (Hother _ _ _ Hk1 Hs1). naive_solver.
    + by eapply (inv_receivers _ _ Hinv).
  - intros k1 h1 k2 h2 tid. rewrite !lookup_insert_Some. intros [[<- <-]|[? Hk1]] [[<- <-]|[? Hk2]] Ha1 Ha2 Ht1 Ht2; [done|..].
    + by apply (inv_transactions _ _ Hinv k h k2 h2 tid).
    + by apply (inv_transactions _ _ Hinv k1 h1 k h tid).
    + by apply (inv_transactions _ _ Hinv k1 h1 k2 h2 tid).
  - intros tid p. rewrite lookup_insert_Some. intros [[<- <-]|[Hne Hp]].
    + exists k, (set_stage Registered (set_suspension s h)), s. by rewrite !lookup_insert_eq.
    + destruct (inv_queue _ _ Hinv _ _ Hp) as (k0 & h0 & s0 & Hk0 & Hs0 & ? & ? & ?).
      destruct (Hother _ _ _ Hk0 Hs0). exists k0, h0, s0. by rewrite !lookup_insert_ne.
  - intros k0 h0 s0. rewrite !lookup_insert_Some. intros [[<- <-]|[? Hk0]] Hs0 Hσ0.
    + cbn in Hs0. injection Hs0 as <-. by left.
    + destruct (Hother _ _ _ Hk0 Hs0). destruct Hσ0 as [[? _]|[_ Hσ0]]; [done|]. right.
      pose proof (inv_queued _ _ Hinv _ _ _ Hk0 Hs0 Hσ0). split; [|done]. congruence.
  - intros id c Hc. eapply call_kept; [by apply (inv_call _ _ Hinv)|]. intros i st Hi _. by rewrite lookup_insert_ne by eauto.
  - intros id c p Hc Hp. destruct (inv_taken _ _ Hinv _ _ _ Hc Hp) as (k0 & h0 & s0 & Hk0 & Hs0 & ?).
    destruct (Hother _ _ _ Hk0 Hs0). exists k0, h0, s0. by rewrite lookup_insert_ne.
  - intros id status call. destruct (decide (bt_next (w_tool w) = id)) as [<-|Hne].
    + rewrite lookup_insert_eq. intros [= <-]. naive_solver.
    + rewrite lookup_insert_ne by done. apply (inv_holder _ _ Hinv).
Qed.

Lemma inv_new_hook σ w k h :
  Inv σ w → w_hooks w !! k = None → hk_suspension h = None → HookOk σ (w_tool w) h →
  (∀ k0 h0 transactionId, w_hooks w !! k0 = Some h0 → active h0 = true →
     pc_transactionId (hk_context h0) = Some transactionId → pc_transactionId (hk_context h) ≠ Some transactionId) →
  Inv σ (set_hook k h (w_tool w) w).
Proof.
  intros Hinv Hk Hs Hok Hfree.
  assert (∀ k0 h0, w_hooks w !! k0 = Some h0 → k ≠ k0) as Hne by (intros k0 h0 Hk0 <-; congruence).
  constructor; cbn; try apply Hinv.
  - intros k0 h0. rewrite lookup_insert_Some. intros [[<- <-]|[? Hk0]]; [done|by apply (inv_hook _ _ Hinv _ _ Hk0)].
  - intros k1 h1 s1 k2 h2 s2. rewrite !lookup_insert_Some. intros [[<- <-]|[? Hk1]] [[<- <-]|[? Hk2]]; try congruence.
    intros. by eapply (inv_receivers _ _ Hinv k1 h1 s1 k2 h2 s2).
  - intros k1 h1 k2 h2 tid. rewrite !lookup_insert_Some. intros [[<- <-]|[? Hk1]] [[<- <-]|[? Hk2]]; try naive_solver.
    intros. by eapply (inv_transactions _ _ Hinv k1 h1 k2 h2 tid).
  - intros tid p Hp. destruct (inv_queue _ _ Hinv _ _ Hp) as (k0 & h0 & s0 & Hk0 & ?). exists k0, h0, s0.
    rewrite lookup_insert_ne by eauto. done.
  - intros k0 h0 s0. rewrite lookup_insert_Some. intros [[<- <-]|[? Hk0]]; [congruence|intros; by eapply (inv_queued _ _ Hinv)].
  - intros id c p Hc Hp. destruct (inv_taken _ _ Hinv _ _ _ Hc Hp) as (k0 & h0 & s0 & Hk0 & ?). exists k0, h0, s0.
    rewrite lookup_insert_ne by eauto. done.
Qed.

(** A call moves while nothing of the queue changes. *)
Lemma inv_call_step σ w id c c' t' :
  Inv σ w → (w_calls w !! id = Some c ∧ cl_taken c' = cl_taken c ∧ flight c' = flight c ∧ cl_request c' = cl_request c
             ∨ w_calls w !! id = None ∧ cl_taken c' = []) →
  validConfiguration (bt_configuration t') → bt_suspended t' = bt_suspended (w_tool w) →
  bt_next t' = bt_next (w_tool w) → bt_channels t' = bt_channels (w_tool w) →
  CallOk σ id c' → Inv σ (set_call id c' t' w).
Proof.
  intros Hinv Hold Hconf Hsusp Hnext Hch Hok. constructor; cbn; rewrite ?Hsusp, ?Hnext, ?Hch; try apply Hinv.
  - done.
  - intros k h Hk. eapply hook_same; [by apply (inv_hook _ _ Hinv _ _ Hk)|]. by rewrite Hch.
  - intros id0 c0. rewrite lookup_insert_Some. intros [[<- <-]|[? Hc]]; [done|by apply (inv_call _ _ Hinv)].
  - intros id0 c0 p. rewrite lookup_insert_Some. intros [[<- <-]|[? Hc]] Hp; [|by eapply (inv_taken _ _ Hinv)].
    destruct Hold as [(Hc & Ht & _)|[_ Ht]]; rewrite Ht in Hp; [by eapply (inv_taken _ _ Hinv)|by apply elem_of_nil in Hp].
  - intros i status call Hi Hcall. destruct (inv_holder _ _ Hinv _ _ _ Hi Hcall) as (c0 & p & Hc0 & Hp & Hs & Hf & Hd).
    destruct (decide (id = call)) as [<-|Hne].
    + exists c', p. rewrite lookup_insert_eq. destruct Hold as [(Hc & Ht & Hfl & Hr)|[Hc _]]; [|congruence].
      simplify_eq. rewrite Ht, Hfl, Hr. done.
    + exists c0, p. rewrite lookup_insert_ne by done. done.
Qed.

(** Marking the entries a call took. *)
Lemma mark_taken (σ : gmap Z Status) id (ps : list PendingBreakpoint) :
  ∃ σ' : gmap Z Status, ∀ i, σ' !! i = if decide (i ∈ pb_sender <$> ps) then Some (InFlight id) else σ !! i.
Proof.
  induction ps as [|p ps [σ' IH]]; [exists σ; done|].
  exists (<[pb_sender p := InFlight id]> σ'). intros i. destruct (decide (pb_sender p = i)) as [<-|Hne].
  - rewrite lookup_insert_eq, decide_True by (cbn; by left). done.
  - rewrite lookup_insert_ne, IH by done. cbn. destruct (decide (i ∈ pb_sender <$> ps)).
    + rewrite decide_True by (by right). done.
    + rewrite decide_False; [done|]. rewrite elem_of_cons. naive_solver.
Qed.

(** A call takes entries from the queue. *)
Lemma inv_take σ w id c c' ps suspended' :
  Inv σ w → w_calls w !! id = Some c → cl_taken c = [] → cl_request c' = cl_request c →
  cl_taken c' = ps → flight c' = ps →
  (∀ p, p ∈ ps ↔ ∃ transactionId, bt_suspended (w_tool w) !! transactionId = Some p ∧ suspended' !! transactionId = None) →
  suspended' ⊆ bt_suspended (w_tool w) → NoDup (pb_sender <$> ps) →
  (∀ σ', (∀ p, p ∈ ps → σ' !! pb_sender p = Some (InFlight id)) → CallOk σ' id c') →
  ∃ σ', Inv σ' (set_call id c' (set_suspendedEntries suspended' (w_tool w)) w).
Proof.
  intros Hinv Hc Hempty Hreq Htaken Hflight Hps Hsub Hnd Hok.
  destruct (mark_taken σ id ps) as [σ' Hσ']. exists σ'.
  assert (∀ p, p ∈ ps → σ !! pb_sender p = Some Queued) as Hqueued.
  { intros p (tid & Hp & _)%Hps. destruct (inv_queue _ _ Hinv _ _ Hp) as (k & h & s & _ & _ & -> & _ & ?). done. }
  assert (∀ i, i ∈ pb_sender <$> ps → σ !! i = Some Queued) as Hq.
  { intros i (p & -> & Hp)%list_elem_of_fmap. by apply Hqueued. }
  assert (∀ i status, σ !! i = Some status → status ≠ Queued → σ' !! i = Some status) as Hkeep.
  { intros i st Hi Hst. rewrite Hσ', decide_False; [done|]. intros Hin%Hq. congruence. }
  constructor; cbn.
  - apply Hinv.
  - etrans; [by apply map_subseteq_size|]. apply Hinv.
  - intros i Hi. rewrite Hσ', decide_False; [by apply (inv_fresh _ _ Hinv)|]. intros Hin%Hq.
    rewrite (inv_fresh _ _ Hinv) in Hin by done. done.
  - intros i st Hi. rewrite Hσ' in Hi. destruct (decide _) as [Hin|Hin]; [|by apply (inv_channel _ _ Hinv)].
    injection Hi as <-. destruct (inv_channel _ _ Hinv _ _ (Hq _ Hin)) as (channel & ? & ?). eauto.
  - intros k h Hk. destruct (inv_hook _ _ Hinv _ _ Hk) as [Hp Hh]. split; [done|].
    destruct (hk_suspension h) as [s|]; [|done]. destruct Hh as (? & ? & ? & st & channel & Hst & Hch & Hstage).
    split_and!; [done..|]. destruct (decide (su_receiver s ∈ pb_sender <$> ps)) as [Hin|Hin].
    + exists (InFlight id), channel. rewrite Hσ', decide_True by done. split_and!; [done..|].
      eapply stage_moved; [done..|]. left. split; [|eauto]. apply Hq in Hin. congruence.
    + exists st, channel. rewrite Hσ', decide_False by done. done.
  - apply Hinv.
  - apply Hinv.
  - intros tid p Hp. pose proof (lookup_weaken _ _ _ _ Hp Hsub) as Hold.
    destruct (inv_queue _ _ Hinv _ _ Hold) as (k & h & s & ? & ? & -> & ? & Hσ). exists k, h, s. split_and!; [done..|].
    rewrite Hσ', decide_False; [done|]. intros (p & Heq & (tid' & Hp' & Hnone)%Hps)%list_elem_of_fmap.
    destruct (queue_sender _ _ _ _ _ _ Hinv Hold Hp' Heq). congruence.
  - intros k h s Hk Hs Hσ. rewrite Hσ' in Hσ. destruct (decide _) as [|Hin]; [done|].
    pose proof (inv_queued _ _ Hinv _ _ _ Hk Hs Hσ) as Hold. destruct (suspended' !! transactionOf s) as [p|] eqn:Hp.
    + pose proof (lookup_weaken _ _ _ _ Hp Hsub). congruence.
    + exfalso. apply Hin. apply list_elem_of_fmap. exists (pendingOf s). split; [done|]. apply Hps. eauto.
  - intros id0 c0. rewrite lookup_insert_Some. intros [[<- <-]|[Hne Hc0]].
    + apply Hok. intros p Hp. rewrite Hσ', decide_True; [done|]. apply list_elem_of_fmap. eauto.
    + eapply call_kept; [by apply (inv_call _ _ Hinv)|]. intros i st Hi Hst. apply Hkeep; [done|]. naive_solver.
  - intros id0 c0 p. rewrite lookup_insert_Some. intros [[<- <-]|[Hne Hc0]]; [|intros; by eapply (inv_taken _ _ Hinv)].
    rewrite Htaken. intros (tid & Hp & _)%Hps. destruct (inv_queue _ _ Hinv _ _ Hp) as (k & h & s & ? & ? & ? & ? & ?).
    eauto 10.
  - intros i st call Hi Hst. rewrite Hσ' in Hi. destruct (decide _) as [Hin|Hin].
    + injection Hi as <-. assert (call = id) as -> by naive_solver. apply list_elem_of_fmap in Hin as (p & -> & Hp).
      exists c', p. rewrite lookup_insert_eq, Htaken, Hflight. split_and!; [done..|]. naive_solver.
    + destruct (inv_holder _ _ Hinv _ _ _ Hi Hst) as (c0 & p & Hc0 & Hp & ?). exists c0, p.
      rewrite lookup_insert_ne; [done|]. intros <-. rewrite Hc in Hc0. injection Hc0 as <-. rewrite Hempty in Hp. by apply elem_of_nil in Hp.
Qed.

(** A call answers an entry it took. *)
Lemma inv_send σ w id c c' p rest :
  Inv σ w → w_calls w !! id = Some c → flight c = p :: rest → flight c' = rest →
  cl_taken c' = cl_taken c → cl_request c' = cl_request c →
  let '(t', delivered) := sendResolution p (resolutionOf (cl_request c)) (w_tool w) in
  let status := if delivered then Delivered id (resolutionOf (cl_request c)) else Closed id in
  (CallOk (<[pb_sender p := status]> σ) id c') →
  Inv (<[pb_sender p := status]> σ) (set_call id c' t' w).
Proof.
  intros Hinv Hc Hf Hf' Ht Hr.
  destruct (inv_call _ _ Hinv _ _ Hc) as (Hnd & Hflight & _ & _).
  assert (σ !! pb_sender p = Some (InFlight id)) as Hσ by (apply Hflight; rewrite Hf; by left).
  destruct (inv_channel _ _ Hinv _ _ Hσ) as (channel & Hch & Hsender & Hvalue).
  unfold sendResolution. rewrite Hch. unfold sendValue.
  set (channel' := if ch_receiver channel
    then {| ch_value := Some (resolutionOf (cl_request c)); ch_sender := false; ch_receiver := true |} else dropSender channel).
  assert (∀ {A} (x : Channel * bool → A), x (if ch_receiver channel
    then ({| ch_value := Some (resolutionOf (cl_request c)); ch_sender := false; ch_receiver := true |}, true)
    else (dropSender channel, false)) = x (channel', ch_receiver channel)) as Hsplit.
  { intros A x. unfold channel'. by destruct (ch_receiver channel). }
  rewrite (Hsplit _ (λ x, let '(channel, delivered) := x in _)). clear Hsplit.
  set (status := if ch_receiver channel then _ else _). intros Hok.
  assert (Moved (InFlight id) status) as Hmoved.
  { right. exists id. unfold status. destruct (ch_receiver channel); eauto. }
  assert (ChannelOk status channel' ∧ ch_receiver channel' = ch_receiver channel) as [Hchok Hrecv].
  { unfold status, channel'. destruct (ch_receiver channel) eqn:?; cbn; naive_solver. }
  constructor; cbn.
  - apply Hinv.
  - apply Hinv.
  - intros i Hi. rewrite lookup_insert_ne; [by apply (inv_fresh _ _ Hinv)|]. intros <-.
    rewrite (inv_fresh _ _ Hinv) in Hσ by done. done.
  - intros i st. destruct (decide (pb_sender p = i)) as [<-|Hne].
    + rewrite !lookup_insert_eq. intros [= <-]. eauto.
    + rewrite !lookup_insert_ne by done. apply (inv_channel _ _ Hinv).
  - intros k h Hk. destruct (inv_hook _ _ Hinv _ _ Hk) as [Hp Hh]. split; [done|].
    destruct (hk_suspension h) as [s|]; [|done]. destruct Hh as (? & ? & ? & st & ch & Hst & Hch' & Hstage).
    split_and!; [done..|]. cbn. destruct (decide (pb_sender p = su_receiver s)) as [Heq|Hne].
    + rewrite <-Heq, !lookup_insert_eq. exists status, channel'. split_and!; [done..|].
      rewrite <-Heq in Hst, Hch'. simplify_eq. by eapply stage_moved.
    + rewrite !lookup_insert_ne by done. eauto.
  - apply Hinv.
  - apply Hinv.
  - intros tid q Hq. destruct (inv_queue _ _ Hinv _ _ Hq) as (k & h & s & ? & ? & ? & ? & Hs). exists k, h, s.
    split_and!; [done..|]. rewrite lookup_insert_ne; [done|]. intros Heq. congruence.
  - intros k h s Hk Hs Hq. apply (inv_queued _ _ Hinv _ _ _ Hk Hs). revert Hq. rewrite lookup_insert_Some.
    intros [[_ Hq]|[_ ?]]; [|done]. exfalso. unfold status in Hq. by destruct (ch_receiver channel).
  - intros id0 c0. rewrite lookup_insert_Some. intros [[<- <-]|[Hne Hc0]]; [done|].
    eapply call_kept; [by apply (inv_call _ _ Hinv)|]. intros i st Hi Hst. rewrite lookup_insert_ne; [done|].
    intros <-. naive_solver.
  - intros id0 c0 q. rewrite lookup_insert_Some. intros [[<- <-]|[Hne Hc0]]; [rewrite Ht|]; intros; by eapply (inv_taken _ _ Hinv).
  - intros i st call. destruct (decide (pb_sender p = i)) as [<-|Hne].
    + rewrite lookup_insert_eq. intros [= <-] Hst. exists c', p.
      assert (call = id) as -> by (unfold status in Hst; destruct (ch_receiver channel); naive_solver).
      rewrite lookup_insert_eq, Ht, Hr. split_and!; [done| |done| |].
      * destruct (inv_call _ _ Hinv _ _ Hc) as (_ & _ & (spent & -> & _) & _). rewrite Hf. set_solver.
      * unfold status. by destruct (ch_receiver channel).
      * unfold status. destruct (ch_receiver channel); naive_solver.
    + rewrite lookup_insert_ne by done. intros Hi Hst.
      destruct (inv_holder _ _ Hinv _ _ _ Hi Hst) as (c0 & q & Hc0 & Hq & Hs & Hfl & Hd).
      destruct (decide (id = call)) as [<-|Hcall]; [|exists c0, q; rewrite lookup_insert_ne by done; done].
      simplify_eq. exists c', q. rewrite lookup_insert_eq, Ht, Hr. split_and!; [done..| |done].
      intros Hin%Hfl. rewrite Hf in Hin. apply elem_of_cons in Hin as [->|?]; done.
Qed.

(** ** Hooks *)
Lemma any_location_total locations location : no_panic (anyLocation to_lowercase locations location).
Proof.
  induction locations as [|pattern locations IH]; [done|]. cbn.
  pose proof (location_matching_terminates to_lowercase pattern location LocationMatchOptions_default) as Hm.
  by destruct (locationMatches _ _ _ _) as [[]| |].
Qed.

Lemma suspend_match_total context phase bodyLength t : no_panic (suspendMatch to_lowercase context phase bodyLength t).
Proof.
  unfold suspendMatch. destruct (pc_transactionId context); [|done]. destruct (bodyTooLong _); [done|].
  unfold matchingRule. destruct (negb _); [done|].
  assert (no_panic (firstMatching to_lowercase phase (pc_location context) (bc_rules (bt_configuration t)))) as Hf.
  { induction (bc_rules (bt_configuration t)) as [|rule rules IH]; [done|]. cbn [firstMatching].
    destruct (_ || _); [done|]. pose proof (any_location_total [br_location rule] (pc_location context)) as Hm.
    unfold matchesLocations. by destruct (anyLocation _ _ _) as [[]| |]. }
  by destruct (firstMatching _ _ _ _) as [[]| |].
Qed.

Lemma suspend_match_some context phase bodyLength t transactionId rule configuration :
  suspendMatch to_lowercase context phase bodyLength t = Ok (Some (transactionId, rule, configuration)) →
  pc_transactionId context = Some transactionId ∧ configuration = bt_configuration t.
Proof.
  unfold suspendMatch, matchingRule. destruct (pc_transactionId context); [|done]. destruct (bodyTooLong _); [done|].
  destruct (negb _); [done|]. destruct (firstMatching _ _ _ _) as [[]| |]; cbn; [|done..]. by intros [= <- _ <-].
Qed.

Lemma enter_ok σ t h :
  validConfiguration (bt_configuration t) → hk_suspension h = None → hk_resolution h = None →
  HookOk σ t (enterHook to_lowercase t h) ∧ hk_suspension (enterHook to_lowercase t h) = None ∧
  hk_context (enterHook to_lowercase t h) = hk_context h.
Proof.
  intros Hvalid Hs Hr. unfold enterHook.
  destruct (hookMessage (hk_phase h) (hk_context h)) as [[body draft]|] eqn:Hm; [|by unfold HookOk; cbn; rewrite Hs].
  destruct (bodyTooLong _); [by unfold HookOk; cbn; rewrite Hs|].
  pose proof (suspend_match_total (hk_context h) (hk_phase h) (len <$> body) t) as Hp.
  destruct (suspendMatch _ _ _ _ _) as [[[[transactionId rule] configuration]|]|error|] eqn:Hmatch; [| | |done];
    unfold HookOk; cbn; rewrite ?Hs; try done.
  apply suspend_match_some in Hmatch as [Htid ->]. split_and!; try done.
  intros Hphase. rewrite Hphase in Hm. cbn in Hm. by destruct (pc_response (hk_context h)).
Qed.

Lemma aborted_ok : ∃ response, abortedResponse = Ok response.
Proof.
  unfold abortedResponse. destruct (decimal_is_value 0) as [length Hl]; [lia|]. rewrite Hl. by eexists.
Qed.

(** A hook returns without a panic. *)
Lemma conclude_ok σ t h s status channel :
  hk_suspension h = Some s → su_ownership s = su_receiver s + 1 → sb_phase (su_snapshot s) = hk_phase h →
  (hk_phase h = AtResponse → is_Some (pc_response (hk_context h))) →
  σ !! su_receiver s = Some status → bt_channels t !! su_receiver s = Some channel →
  Ended h s status channel → status ≠ Queued →
  HookOk σ t (concludeHook h) ∧ hk_suspension (concludeHook h) = Some s ∧ active (concludeHook h) = false.
Proof.
  intros Hs Ho Hphase Hresponse Hσ Hc Hended Hq. unfold concludeHook.
  destruct (hk_resolution h) as [resolution|] eqn:Hr.
  2: { split; [|done]. split; [done|]. cbn. rewrite Hs. split_and!; [done..|]. exists status, channel.
       unfold Ended in Hended. rewrite Hr in Hended. done. }
  set (context := set_suspended _ _ _).
  assert (∃ context' result, (match hk_phase h with
    | AtRequest => finishRequest resolution context | AtResponse => finishResponse resolution context end)
    = (context', result) ∧ result ≠ Panic) as (context' & result & -> & Hresult).
  { destruct aborted_ok as [response Haborted]. destruct (hk_phase h) eqn:Hp.
    - destruct resolution as [draft|]; cbn; [|rewrite Haborted; by repeat eexists].
      pose proof (apply_request draft context) as Ha. unfold applied.
      destruct (applyRequestDraft draft context) as [? [| |]]; [by repeat eexists..|done].
    - destruct (Hresponse eq_refl) as [old Hold].
      assert (pc_response context = Some old) as Hold' by done.
      destruct resolution as [draft|]; cbn; [|rewrite Haborted; by repeat eexists].
      rewrite Hold. pose proof (apply_response draft old) as Ha. unfold applied.
      destruct (applyResponseDraft draft old) as [? [| |]]; [by repeat eexists..|done]. }
  split; [|done]. split; [cbn; congruence|]. cbn. rewrite Hs. split_and!; [done..|]. exists status, channel.
  split; [done|]. split; [done|]. unfold StageOk. cbn. rewrite Hr. split; [|by split; [|eexists]].
  unfold Ended in *. cbn. rewrite Hr in *. done.
Qed.

(** The entry of a transaction is that of its hook. *)
Lemma entry_of_hook σ w k h s transactionId p :
  Inv σ w → w_hooks w !! k = Some h → hk_suspension h = Some s → active h = true →
  transactionId = transactionOf s → bt_suspended (w_tool w) !! transactionId = Some p →
  p = pendingOf s ∧ σ !! su_receiver s = Some Queued.
Proof.
  intros Hinv Hk Hs Ha -> Hp.
  destruct (inv_queue _ _ Hinv _ _ Hp) as (k' & h' & s' & Hk' & Hs' & -> & Htid & Hq).
  destruct (inv_hook _ _ Hinv _ _ Hk) as [_ Hh]. rewrite Hs in Hh. destruct Hh as (_ & _ & [Hc _]%(λ f, f Ha) & _).
  pose proof (inv_hook _ _ Hinv _ _ Hk') as [_ Hh']. rewrite Hs' in Hh'.
  destruct Hh' as (_ & _ & Hc' & st & ch & Hst & _ & Hstage). rewrite Hq in Hst. injection Hst as <-.
  assert (active h' = true) as Ha'.
  { unfold active, StageOk, Ended in *. destruct (hk_stage h'); naive_solver. }
  destruct (Hc' Ha') as [Hc'' _]. rewrite Htid in Hc.
  assert (k = k') as <- by (by eapply (inv_transactions _ _ Hinv _ _ _ _ _ Hk Hk' Ha Ha')). by simplify_eq.
Qed.

(** A hook in the queue or waiting: its suspension and channel. *)
Lemma hook_suspended σ t h s :
  HookOk σ t h → hk_suspension h = Some s →
  su_ownership s = su_receiver s + 1 ∧ sb_phase (su_snapshot s) = hk_phase h ∧
  (active h = true → pc_transactionId (hk_context h) = Some (transactionOf s) ∧
     (hk_phase h = AtResponse → is_Some (pc_response (hk_context h)))) ∧
  ∃ status channel, σ !! su_receiver s = Some status ∧ bt_channels t !! su_receiver s = Some channel ∧
    StageOk h s status channel.
Proof. intros [_ Hh] Hs. by rewrite Hs in Hh. Qed.

(** A hook that goes on with its suspension. *)
Lemma hook_moves σ t h s status channel :
  hk_stage h ≠ Finished Panic → hk_suspension h = Some s → su_ownership s = su_receiver s + 1 →
  sb_phase (su_snapshot s) = hk_phase h →
  (active h = true → pc_transactionId (hk_context h) = Some (transactionOf s) ∧
     (hk_phase h = AtResponse → is_Some (pc_response (hk_context h)))) →
  σ !! su_receiver s = Some status → bt_channels t !! su_receiver s = Some channel →
  StageOk h s status channel → HookOk σ t h.
Proof. intros ? Hs ? ? ? ? ? ?. split; [done|]. rewrite Hs. eauto 10. Qed.

(** [suspendLocked], when it suspends. *)
Lemma suspend_locked_some transactionId phase draft rule configuration now t s t' :
  suspendLocked transactionId phase draft rule configuration now t = Some (s, t') →
  su_ownership s = su_receiver s + 1 ∧ sb_phase (su_snapshot s) = phase ∧ transactionOf s = transactionId ∧
  bt_channels t' = <[su_receiver s := openChannel]> (bt_channels t).
Proof. unfold suspendLocked. destruct (_ || _); [done|]. by intros [= <- <-]. Qed.

(** The wait ends with what its channel carries. *)
Lemma poll_delivered status channel resolution :
  ChannelOk status channel → status ≠ Reclaimed → ch_receiver channel = true →
  pollChannel channel = Some resolution → ∃ c r, resolution = Some r ∧ status = Delivered c r.
Proof.
  unfold pollChannel. intros Hok Hre Hrecv. destruct status; cbn in Hok; destruct Hok as [Hs Hv].
  - by rewrite Hv, Hs.
  - by rewrite Hv, Hs.
  - rewrite Hv. intros [= <-]. eauto.
  - destruct Hv. congruence.
  - done.
Qed.

Lemma wait_inv σ w k h s channel resolution t' :
  Inv σ w → w_hooks w !! k = Some h → hk_suspension h = Some s → hk_stage h = Waiting ∨ hk_stage h = Abandoned →
  bt_channels (w_tool w) !! su_receiver s = Some channel → pollChannel channel = Some resolution →
  t' = updateChannel (su_receiver s) dropReceiver (w_tool w) →
  Inv σ (set_hook k (set_stage Leaving (set_resolution (default AbortMessage resolution) h)) t' w).
Proof.
  intros Hinv Hk Hs Hstage Hc Hpoll ->.
  destruct (hook_suspended _ _ _ _ (inv_hook _ _ Hinv _ _ Hk) Hs) as (Ho & Hp & Ha & status & ch & Hσ & Hc' & Hok).
  assert (active h = true) as Hact by (unfold active; destruct Hstage as [-> | ->]; done).
  rewrite Hc in Hc'. injection Hc' as <-.
  destruct (inv_channel _ _ Hinv _ _ Hσ) as (ch & Hc' & Hchok). rewrite Hc in Hc'. injection Hc' as <-.
  destruct (poll_delivered status channel resolution) as (c & r & -> & ->); [done| | |done|];
    [unfold StageOk in Hok; destruct Hstage as [E|E]; rewrite E in Hok; naive_solver..|].
  eapply inv_hook_step; [done..|done|done|done|done| |].
  - right. exists s. by split.
  - by apply (hook_moves _ _ _ s (Delivered c r) (dropReceiver channel)); try done; cbn;
      [auto|rewrite lookup_alter_eq, Hc|unfold StageOk, Ended; cbn; eauto].
Qed.

Lemma enter_inv σ w k h :
  Inv σ w → w_hooks w !! k = Some h → hk_stage h = Entered →
  Inv σ (set_hook k (enterHook to_lowercase (w_tool w) h) (w_tool w) w).
Proof.
  intros Hinv Hk Hstage. destruct (inv_hook _ _ Hinv _ _ Hk) as [_ Hh].
  destruct (hk_suspension h) as [s|] eqn:Hs.
  { destruct Hh as (_ & _ & _ & ? & ? & _ & _ & Hok). unfold StageOk in Hok. by rewrite Hstage in Hok. }
  destruct Hh as [Hr _].
  destruct (enter_ok σ (w_tool w) h (inv_configuration _ _ Hinv) Hs Hr) as (Hok & Hs' & Hc).
  eapply inv_hook_step; [done..|congruence| |done|done|done|by left|done].
  intros _. split; [by unfold active; rewrite Hstage|by rewrite Hc].
Qed.

Lemma matched_inv σ w k h transactionId draft rule configuration now :
  Inv σ w → w_hooks w !! k = Some h → hk_stage h = Matched transactionId draft rule configuration →
  ∃ σ', Inv σ'
    (match suspendLocked transactionId (hk_phase h) draft rule configuration now (w_tool w) with
     | Some (s, t) => set_hook k (set_stage Registered (set_suspension s h)) t w
     | None => set_hook k (set_stage (Finished (Ok DirectiveContinue)) h) (w_tool w) w
     end).
Proof.
  intros Hinv Hk Hstage. pose proof (inv_hook _ _ Hinv _ _ Hk) as [_ Hh].
  destruct (hk_suspension h) as [s|] eqn:Hs.
  { destruct Hh as (_ & _ & _ & ? & ? & _ & _ & Hok). unfold StageOk in Hok. by rewrite Hstage in Hok. }
  rewrite Hstage in Hh. destruct Hh as (Hr & Hvalid & Htid & Hresponse).
  destruct (suspendLocked _ _ _ _ _ _ _) as [[s t']|] eqn:Hl.
  - pose proof (suspend_locked_some _ _ _ _ _ _ _ _ _ Hl) as (Ho & Hp & Ht & Hc).
    eexists. eapply inv_register; [done..|by unfold active; rewrite Hstage|done|done|exact Hl|].
    apply (hook_moves _ _ _ s Queued openChannel); try done.
    + intros _. cbn. by rewrite Ht.
    + apply lookup_insert_eq.
    + rewrite Hc. apply lookup_insert_eq.
  - exists σ. eapply inv_hook_step; [done..| |done|done|done|by left|].
    + intros Ha. done.
    + split; [done|]. cbn. by rewrite Hs.
Qed.

Lemma elapsed_inv σ w k h s :
  Inv σ w → w_hooks w !! k = Some h → hk_suspension h = Some s → hk_stage h = Elapsed →
  ∃ σ', Inv σ'
    (match removeEntry (transactionOf s) (w_tool w) with
     | Some (pending, t) => set_hook k (set_stage TookOver h) (dropEntry pending t) w
     | None => set_hook k (set_stage Abandoned h) (w_tool w) w
     end).
Proof.
  intros Hinv Hk Hs Hstage.
  destruct (hook_suspended _ _ _ _ (inv_hook _ _ Hinv _ _ Hk) Hs) as (Ho & Hp & Ha & status & channel & Hσ & Hc & Hok).
  assert (active h = true) as Hact by (unfold active; by rewrite Hstage).
  unfold StageOk in Hok. rewrite Hstage in Hok. destruct Hok as (Hr & Hrecv & Hre).
  unfold removeEntry. destruct (bt_suspended (w_tool w) !! transactionOf s) as [p|] eqn:Hentry; cbn.
  - destruct (entry_of_hook _ _ _ _ _ _ _ Hinv Hk Hs Hact eq_refl Hentry) as [-> Hq].
    eexists. eapply inv_reclaim; [done..| |done|].
    { intros _. done. }
    apply (hook_moves _ _ _ s Reclaimed (dropSender channel)); try done.
    + intros _. by apply Ha.
    + apply lookup_insert_eq.
    + cbn. by rewrite lookup_alter_eq, Hc.
  - exists σ. eapply inv_hook_step; [done..| |done|done|done|by left|].
    { intros _. done. }
    apply (hook_moves _ _ _ s status channel); try done.
    + intros _. by apply Ha.
    + unfold StageOk. cbn. split_and!; [done..|]. intros ->. by rewrite (inv_queued _ _ Hinv _ _ _ Hk Hs Hσ) in Hentry.
Qed.

Lemma leaving_inv σ w k h s :
  Inv σ w → w_hooks w !! k = Some h → hk_suspension h = Some s → hk_stage h = Leaving →
  ∃ σ', Inv σ'
    (let '(t, owned) := dropLease s (w_tool w) in
     if owned then set_hook k (set_stage Released h) t w else set_hook k (concludeHook h) t w).
Proof.
  intros Hinv Hk Hs Hstage.
  destruct (hook_suspended _ _ _ _ (inv_hook _ _ Hinv _ _ Hk) Hs) as (Ho & Hp & Ha & status & channel & Hσ & Hc & Hok).
  assert (active h = true) as Hact by (unfold active; by rewrite Hstage).
  unfold StageOk in Hok. rewrite Hstage in Hok. unfold dropLease. fold (transactionOf s).
  destruct (bt_suspended (w_tool w) !! transactionOf s) as [p|] eqn:Hentry.
  - destruct (entry_of_hook _ _ _ _ _ _ _ Hinv Hk Hs Hact eq_refl Hentry) as [-> Hq].
    rewrite Hσ in Hq. injection Hq as ->. cbn [pb_ownership pendingOf]. rewrite Z.eqb_refl.
    eexists. eapply inv_reclaim; [done..| |done|].
    { intros _. done. }
    unfold Ended in Hok. apply (hook_moves _ _ _ s Reclaimed (dropSender channel)); try done.
    + intros _. by apply Ha.
    + apply lookup_insert_eq.
    + cbn. by rewrite lookup_alter_eq, Hc.
    + unfold StageOk, Ended. cbn. destruct (hk_resolution h); [|done]. by destruct Hok as [[? ?]|[? _]].
  - exists σ. assert (status ≠ Queued) as Hq.
    { intros ->. by rewrite (inv_queued _ _ Hinv _ _ _ Hk Hs Hσ) in Hentry. }
    destruct (conclude_ok σ (w_tool w) h s status channel) as (Hok' & Hs' & Ha'); try done; [by apply Ha|].
    eapply inv_hook_step; [done..|congruence|congruence|done|done|done|by left|done].
Qed.

Lemma registered_inv σ w k h s :
  Inv σ w → w_hooks w !! k = Some h → hk_suspension h = Some s → hk_stage h = Registered →
  Inv σ (set_hook k (set_stage Waiting (set_context (set_suspended true true (hk_context h)) h))
           (notifySuspendedChanges (w_tool w)) w).
Proof.
  intros Hinv Hk Hs Hstage.
  destruct (hook_suspended _ _ _ _ (inv_hook _ _ Hinv _ _ Hk) Hs) as (Ho & Hp & Ha & status & channel & Hσ & Hc & Hok).
  assert (active h = true) as Hact by (unfold active; by rewrite Hstage).
  unfold StageOk in Hok. rewrite Hstage in Hok.
  eapply inv_hook_step; [done..|done|done|done|by left|].
  apply (hook_moves _ _ _ s status channel); try done. intros _. by apply Ha.
Qed.

Lemma tookover_inv σ w k h s :
  Inv σ w → w_hooks w !! k = Some h → hk_suspension h = Some s → hk_stage h = TookOver →
  Inv σ (set_hook k (set_stage Leaving (set_resolution (timeoutResolution s) h))
           (updateChannel (su_receiver s) dropReceiver (notifySuspendedChanges (w_tool w))) w).
Proof.
  intros Hinv Hk Hs Hstage.
  destruct (hook_suspended _ _ _ _ (inv_hook _ _ Hinv _ _ Hk) Hs) as (Ho & Hp & Ha & status & channel & Hσ & Hc & Hok).
  assert (active h = true) as Hact by (unfold active; by rewrite Hstage).
  unfold StageOk in Hok. rewrite Hstage in Hok. destruct Hok as [Hr ->].
  eapply inv_hook_step; [done..|done|done|done| |].
  - right. by exists s.
  - apply (hook_moves _ _ _ s Reclaimed (dropReceiver channel)); try done.
    + intros _. by apply Ha.
    + cbn. by rewrite lookup_alter_eq, Hc.
    + unfold StageOk, Ended. cbn. auto.
Qed.

Lemma released_inv σ w k h s :
  Inv σ w → w_hooks w !! k = Some h → hk_suspension h = Some s → hk_stage h = Released →
  Inv σ (set_hook k (concludeHook h) (notifySuspendedChanges (w_tool w)) w).
Proof.
  intros Hinv Hk Hs Hstage.
  destruct (hook_suspended _ _ _ _ (inv_hook _ _ Hinv _ _ Hk) Hs) as (Ho & Hp & Ha & status & channel & Hσ & Hc & Hok).
  assert (active h = true) as Hact by (unfold active; by rewrite Hstage).
  unfold StageOk in Hok. rewrite Hstage in Hok. destruct Hok as [Hok Hq].
  destruct (conclude_ok σ (notifySuspendedChanges (w_tool w)) h s status channel) as (Hok' & Hs' & Ha'); try done; [by apply Ha|].
  eapply inv_hook_step; [done..|congruence|congruence|done|done|done|by left|done].
Qed.

Lemma advance_hook_inv σ w k h now h' t' :
  Inv σ w → w_hooks w !! k = Some h → advanceHook to_lowercase now h (w_tool w) = Some (h', t') →
  ∃ σ', Inv σ' (set_hook k h' t' w).
Proof.
  intros Hinv Hk. unfold advanceHook. destruct (hk_stage h) eqn:Hstage.
  - intros [= <- <-]. eauto using enter_inv.
  - intros [= Heq]. destruct (matched_inv _ _ _ _ _ _ _ _ now Hinv Hk Hstage) as [σ' Hi]. exists σ'.
    destruct (suspendLocked _ _ _ _ _ _ _) as [[? ?]|]; by simplify_eq.
  - pose proof (inv_hook _ _ Hinv _ _ Hk) as [_ Hh].
    destruct (hk_suspension h) as [s|] eqn:Hs; [|rewrite Hstage in Hh; by destruct Hh].
    intros [= <- <-]. eauto using registered_inv.
  - destruct (hk_suspension h) as [s|] eqn:Hs; [|done].
    destruct (bt_channels (w_tool w) !! su_receiver s) as [channel|] eqn:Hc; [|done]. cbn.
    destruct (pollChannel channel) as [resolution|] eqn:Hpoll; [|done]. cbn. intros [= <- <-].
    exists σ. eapply wait_inv; eauto.
  - destruct (hk_suspension h) as [s|] eqn:Hs; [|done]. intros [= Heq].
    destruct (elapsed_inv _ _ _ _ _ Hinv Hk Hs Hstage) as [σ' Hi]. exists σ'. unfold transactionOf in Hi.
    destruct (removeEntry _ _) as [[? ?]|]; by simplify_eq.
  - destruct (hk_suspension h) as [s|] eqn:Hs; [|done]. intros [= <- <-]. eauto using tookover_inv.
  - destruct (hk_suspension h) as [s|] eqn:Hs; [|done].
    destruct (bt_channels (w_tool w) !! su_receiver s) as [channel|] eqn:Hc; [|done]. cbn.
    destruct (pollChannel channel) as [resolution|] eqn:Hpoll; [|done]. cbn. intros [= <- <-].
    exists σ. eapply wait_inv; eauto.
  - destruct (hk_suspension h) as [s|] eqn:Hs; [|done].
    destruct (leaving_inv _ _ _ _ _ Hinv Hk Hs Hstage) as [σ' Hi]. intros Heq. exists σ'.
    destruct (dropLease _ _) as [? []]; by simplify_eq.
  - pose proof (inv_hook _ _ Hinv _ _ Hk) as [_ Hh].
    destruct (hk_suspension h) as [s|] eqn:Hs; [|rewrite Hstage in Hh; by destruct Hh].
    intros [= <- <-]. eauto using released_inv.
  - by destruct (hk_suspension h).
  - by destruct (hk_suspension h).
Qed.

Lemma elapse_inv σ w k h h' :
  Inv σ w → w_hooks w !! k = Some h → elapseHook h (w_tool w) = Some h' → Inv σ (set_hook k h' (w_tool w) w).
Proof.
  intros Hinv Hk. unfold elapseHook. destruct (hk_stage h) eqn:Hstage; try by destruct (hk_suspension h).
  destruct (hk_suspension h) as [s|] eqn:Hs; [|done].
  destruct (hook_suspended _ _ _ _ (inv_hook _ _ Hinv _ _ Hk) Hs) as (Ho & Hp & Ha & status & channel & Hσ & Hc & Hok).
  assert (active h = true) as Hact by (unfold active; by rewrite Hstage).
  rewrite Hc. cbn. destruct (pollChannel channel); [done|]. intros [= <-].
  unfold StageOk in Hok. rewrite Hstage in Hok.
  eapply inv_hook_step; [done..|done|done|done|by left|].
  apply (hook_moves _ _ _ s status channel); try done. intros _. by apply Ha.
Qed.

Lemma cancel_inv σ w k h h' t' :
  Inv σ w → w_hooks w !! k = Some h → cancelHook h (w_tool w) = Some (h', t') → Inv σ (set_hook k h' t' w).
Proof.
  intros Hinv Hk. unfold cancelHook.
  assert (∀ s, hk_suspension h = Some s → hk_stage h = Waiting ∨ hk_stage h = Abandoned →
    Inv σ (set_hook k (set_stage Leaving h) (updateChannel (su_receiver s) dropReceiver (w_tool w)) w)) as Hcancel.
  { intros s Hs Hstage.
    destruct (hook_suspended _ _ _ _ (inv_hook _ _ Hinv _ _ Hk) Hs) as (Ho & Hp & Ha & status & channel & Hσ & Hc & Hok).
    assert (active h = true) as Hact by (unfold active; destruct Hstage as [-> | ->]; done).
    assert (hk_resolution h = None) as Hr by (unfold StageOk in Hok; destruct Hstage as [E|E]; rewrite E in Hok; apply Hok).
    eapply inv_hook_step; [done..|done|done|done| |].
    - right. by exists s.
    - apply (hook_moves _ _ _ s status (dropReceiver channel)); try done.
      + intros _. by apply Ha.
      + cbn. by rewrite lookup_alter_eq, Hc.
      + unfold StageOk, Ended. cbn. by rewrite Hr. }
  destruct (hk_stage h) eqn:Hstage; try by destruct (hk_suspension h).
  - destruct (hk_suspension h) as [s|] eqn:Hs; [|done]. intros [= <- <-]. apply Hcancel; auto.
  - destruct (hk_suspension h) as [s|] eqn:Hs; [|done]. intros [= <- <-]. apply Hcancel; auto.
Qed.

(** ** Calls *)
Lemma entries_spec t p : p ∈ suspendedEntries t ↔ ∃ transactionId, bt_suspended t !! transactionId = Some p.
Proof.
  unfold suspendedEntries. rewrite list_elem_of_fmap. split.
  - intros ([tid q] & -> & Hin). rewrite merge_sort_Permutation in Hin. apply elem_of_map_to_list in Hin. eauto.
  - intros (tid & Hp). exists (tid, p). split; [done|]. rewrite merge_sort_Permutation. by apply elem_of_map_to_list.
Qed.

Lemma entries_nodup σ w : Inv σ w → NoDup (pb_sender <$> suspendedEntries (w_tool w)).
Proof.
  intros Hinv. unfold suspendedEntries. rewrite merge_sort_Permutation, <-list_fmap_compose.
  apply NoDup_fmap_2_strong; [|apply NoDup_map_to_list]. intros [tid p] [tid' p'] Hp Hp' Heq.
  apply elem_of_map_to_list in Hp, Hp'. cbn in Heq. by destruct (queue_sender _ _ _ _ _ _ Hinv Hp Hp' Heq) as [-> ->].
Qed.

(** A call that has not taken anything, in a stage that says nothing. *)
Lemma call_quiet σ id c stage :
  cl_taken c = [] →
  match stage with
  | Called => True
  | Replaced => ∃ configuration, cl_request c = ReplaceConfiguration configuration
  | Validated => ∃ transactionId draft, cl_request c = ContinueBreakpoint transactionId draft
  | Answered answer => AnswerOk σ id c answer
  | _ => False
  end → CallOk σ id (set_callStage stage c).
Proof.
  intros Ht Hstage. assert (flight (set_callStage stage c) = []) as Hf by (unfold flight; by destruct stage).
  unfold CallOk. rewrite Hf. split_and!; [constructor|intros p Hp; by apply elem_of_nil in Hp| |].
  - exists []. split; [done|]. intros p Hp. by apply elem_of_nil in Hp.
  - by destruct stage.
Qed.

Lemma answer_untaken σ id c transactionId error :
  cl_taken c = [] → error ≠ ResolutionClosed →
  match cl_request c with ContinueBreakpoint t _ | AbortBreakpoint t => t = transactionId | _ => False end →
  AnswerOk σ id c (AnswerUnit (Err error)).
Proof. intros Ht He Hr. split; [done|]. destruct (cl_request c); try done; by destruct error. Qed.

Lemma take_entry_inv σ w id c transactionId :
  Inv σ w → w_calls w !! id = Some c → cl_taken c = [] → flight c = [] →
  match cl_request c with ContinueBreakpoint t _ | AbortBreakpoint t => t = transactionId | _ => False end →
  ∃ σ', Inv σ' (let '(c', t') := takeEntry transactionId c (w_tool w) in set_call id c' t' w).
Proof.
  intros Hinv Hc Ht Hf Hr. unfold takeEntry, removeEntry.
  destruct (bt_suspended (w_tool w) !! transactionId) as [p|] eqn:Hp; cbn.
  - assert (sb_transactionId (pb_snapshot p) = transactionId) as Htid.
    { destruct (inv_queue _ _ Hinv _ _ Hp) as (? & ? & ? & _ & _ & -> & -> & _). done. }
    eapply (inv_take _ _ _ _ _ [p]); [done..| | | |].
    + intros q. rewrite list_elem_of_singleton. split.
      * intros ->. exists transactionId. by rewrite lookup_delete_eq.
      * intros (tid & Hq & Hnone). apply lookup_delete_None in Hnone as [<-|?]; congruence.
    + apply delete_subseteq.
    + apply NoDup_singleton.
    + intros σ' Hσ'. unfold CallOk. cbn. split_and!; [apply NoDup_singleton|done| |done|].
      * exists []. split; [done|]. intros q Hq. by apply elem_of_nil in Hq.
      * destruct (cl_request c); naive_solver.
  - exists σ. eapply inv_call_step; [done|left; by rewrite Hf|apply Hinv|done..|].
    apply call_quiet; [done|]. by eapply answer_untaken.
Qed.

Lemma take_all_inv σ w id c :
  Inv σ w → w_calls w !! id = Some c → cl_taken c = [] →
  match cl_request c with ReleaseAll | ReplaceConfiguration _ => True | _ => False end →
  ∃ σ', Inv σ' (let '(c', t') := takeAll c (w_tool w) in set_call id c' t' w).
Proof.
  intros Hinv Hc Ht Hr. unfold takeAll, takeEntries.
  eapply (inv_take _ _ _ _ _ (suspendedEntries (w_tool w))); [done..| | | |].
  - intros p. rewrite entries_spec. setoid_rewrite lookup_empty. naive_solver.
  - apply map_empty_subseteq.
  - by eapply entries_nodup.
  - intros σ' Hσ'. unfold CallOk. cbn. split_and!; [by eapply entries_nodup|done| |done].
    exists []. split; [done|]. intros q Hq. by apply elem_of_nil in Hq.
Qed.

Lemma validate_rules_total identifiers rules : no_panic (validateRules identifiers rules).
Proof.
  revert identifiers. induction rules as [|rule rules IH]; intros identifiers; [done|]. cbn [validateRules].
  destruct (negb (_ || _)); cbn; [|done]. destruct (negb (bool_decide _)); cbn; [|done].
  pose proof (validateLocationPattern_total (br_location rule)) as Hv.
  destruct (validateLocationPattern _) as [[]| |]; cbn; [|done..]. apply IH.
Qed.

Lemma validate_configuration_total configuration : no_panic (validateConfiguration configuration).
Proof.
  unfold validateConfiguration. repeat (apply satisfies_bind, satisfies_check; [intros _|done]).
  apply validate_rules_total.
Qed.

Lemma validate_draft_total phase draft : no_panic (validateDraft phase draft).
Proof.
  destruct phase; cbn.
  - eapply satisfies_mono; [| |apply validate_request]; done.
  - eapply satisfies_mono; [| |apply validate_response]; done.
Qed.

Lemma start_call_inv σ w id c :
  Inv σ w → w_calls w !! id = Some c → cl_stage c = Called →
  ∃ σ', Inv σ' (let '(c', t') := startCall c (w_tool w) in set_call id c' t' w).
Proof.
  intros Hinv Hc Hstage. pose proof (inv_call _ _ Hinv _ _ Hc) as (_ & _ & _ & Ht). rewrite Hstage in Ht.
  assert (flight c = []) as Hf by (unfold flight; by rewrite Hstage).
  assert (∀ stage t', bt_suspended t' = bt_suspended (w_tool w) → bt_next t' = bt_next (w_tool w) →
    bt_channels t' = bt_channels (w_tool w) → validConfiguration (bt_configuration t') →
    flight (set_callStage stage c) = [] → CallOk σ id (set_callStage stage c) →
    ∃ σ', Inv σ' (set_call id (set_callStage stage c) t' w)) as Hquiet.
  { intros stage t' ? ? ? ? Hf' Hok. exists σ. eapply inv_call_step; [done|left|done..].
    split_and!; [done..|by rewrite Hf, Hf'|done]. }
  unfold startCall. destruct (cl_request c) as [transactionId draft|transactionId| |configuration] eqn:Hr.
  - destruct (bt_suspended (w_tool w) !! transactionId) as [p|] eqn:Hp.
    + pose proof (validate_draft_total (sb_phase (pb_snapshot p)) draft) as Hv.
      destruct (validateDraft _ _) as [[]|e|]; cbn; [| |done]; (apply Hquiet; [done..|apply Hinv|done|]).
      * apply call_quiet; eauto.
      * apply call_quiet; [done|]. eapply answer_untaken; [done..|by rewrite Hr].
    + apply Hquiet; [done..|apply Hinv|done|]. apply call_quiet; [done|]. eapply answer_untaken; [done..|by rewrite Hr].
  - eapply take_entry_inv; [done..|by rewrite Hr].
  - eapply take_all_inv; [done..|by rewrite Hr].
  - pose proof (validate_configuration_total configuration) as Hv.
    destruct (validateConfiguration configuration) as [[]|e|] eqn:Hvalid; [| |done].
    + destruct (negb _); (apply Hquiet; [done..|]); (apply call_quiet; [done|]); [by eexists|].
      split; [done|]. by rewrite Hr.
    + apply Hquiet; [done..|apply Hinv|done|]. apply call_quiet; [done|]. split; [done|]. by rewrite Hr.
Qed.

(** The first entry a call holds is answered. *)
Lemma send_inv σ w id c c' p rest :
  Inv σ w → w_calls w !! id = Some c → flight c = p :: rest → flight c' = rest →
  cl_taken c' = cl_taken c → cl_request c' = cl_request c →
  let '(t', delivered) := sendResolution p (resolutionOf (cl_request c)) (w_tool w) in
  (∀ σ', σ' !! pb_sender p = Some (if delivered then Delivered id (resolutionOf (cl_request c)) else Closed id) →
     match cl_stage c' with
     | Releasing _ _ => match cl_request c with ReleaseAll | ReplaceConfiguration _ => True | _ => False end
     | Notifying answer => AnswerOk σ' id c' answer
     | _ => False
     end) →
  ∃ σ', Inv σ' (set_call id c' t' w).
Proof.
  intros Hinv Hc Hf Hf' Ht Hr. pose proof (inv_send σ w id c c' p rest Hinv Hc Hf Hf' Ht Hr) as Hsend.
  destruct (sendResolution _ _ _) as [t' delivered]. cbn in Hsend. intros Hstage. eexists. apply Hsend.
  destruct (inv_call _ _ Hinv _ _ Hc) as (Hnd & Hflight & (spent & Hsp & Hspent) & _).
  rewrite Hf in Hnd, Hflight, Hsp. cbn in Hnd. apply NoDup_cons in Hnd as [Hnot Hnd].
  assert (∀ q, q ∈ rest → pb_sender q ≠ pb_sender p) as Hrest.
  { intros q Hq Heq. apply Hnot. rewrite <-Heq. apply list_elem_of_fmap. eauto. }
  set (σ' := <[_ := _]> σ) in *. specialize (Hstage σ' (lookup_insert_eq _ _ _)).
  unfold CallOk. rewrite Hf', Ht, Hr. split_and!; [done| | |].
  - intros q Hq. unfold σ'. rewrite lookup_insert_ne by (intros Heq; by apply (Hrest q)). apply Hflight. by right.
  - exists (spent ++ [p]). split; [by rewrite <-app_assoc|]. intros q [Hq|Hq]%elem_of_app.
    + assert (pb_sender q ≠ pb_sender p) as Hne.
      { intros Heq. destruct (Hspent q Hq) as [Hs|Hs]; rewrite Heq, (Hflight p) in Hs by (by left); done. }
      unfold σ'. rewrite lookup_insert_ne by done. by apply Hspent.
    + apply list_elem_of_singleton in Hq as ->. unfold σ'. rewrite lookup_insert_eq. destruct delivered; auto.
  - by destruct (cl_stage c').
Qed.

(** A call that only tells its answer. *)
Lemma answered_inv σ w id c answer t' :
  Inv σ w → w_calls w !! id = Some c → flight c = [] → AnswerOk σ id c answer →
  t' = w_tool w ∨ t' = notifySuspendedChanges (w_tool w) →
  Inv σ (set_call id (set_callStage (Answered answer) c) t' w).
Proof.
  intros Hinv Hc Hf Hanswer Ht. pose proof (inv_call _ _ Hinv _ _ Hc) as (_ & _ & Hspent & _). rewrite Hf in Hspent.
  eapply inv_call_step; [done|left; by rewrite Hf| | | | |].
  - destruct Ht as [-> | ->]; apply Hinv.
  - by destruct Ht as [-> | ->].
  - by destruct Ht as [-> | ->].
  - by destruct Ht as [-> | ->].
  - unfold CallOk. cbn. split_and!; [constructor|intros p Hp; by apply elem_of_nil in Hp|done|done].
Qed.

Lemma advance_call_inv σ w id c c' t' :
  Inv σ w → w_calls w !! id = Some c → advanceCall c (w_tool w) = Some (c', t') →
  ∃ σ', Inv σ' (set_call id c' t' w).
Proof.
  intros Hinv Hc. pose proof (inv_call _ _ Hinv _ _ Hc) as (_ & _ & _ & Hstage). unfold advanceCall.
  destruct (cl_stage c) as [| |p| |[|p rest] count|answer|answer] eqn:Hst.
  - intros [= Heq]. pose proof (start_call_inv _ _ _ _ Hinv Hc Hst) as Hstart. by rewrite Heq in Hstart.
  - destruct Hstage as [Ht (tid & draft & Hr)]. rewrite Hr. intros [= Heq].
    pose proof (take_entry_inv σ w id c tid Hinv Hc Ht) as Htake. rewrite Heq in Htake. apply Htake.
    + unfold flight. by rewrite Hst.
    + by rewrite Hr.
  - destruct Hstage as [Ht Hr].
    assert (flight c = [p]) as Hf by (unfold flight; by rewrite Hst).
    pose proof (send_inv σ w id c) as Hsend.
    destruct (sendResolution p (resolutionOf (cl_request c)) (w_tool w)) as [t1 delivered] eqn:Hs. intros [= <- <-].
    specialize (Hsend (set_callStage (Notifying (AnswerUnit (if delivered then Ok tt else Err ResolutionClosed))) c) p []
      Hinv Hc Hf eq_refl eq_refl eq_refl). rewrite Hs in Hsend. apply Hsend.
    intros σ' Hσ'. cbn. split; [by destruct delivered|]. cbn. destruct (cl_request c); try done; destruct delivered; eauto.
  - destruct Hstage as [Ht [configuration Hr]]. intros Heq. apply (inj Some) in Heq.
    pose proof (take_all_inv σ w id c Hinv Hc Ht) as Htake. rewrite Heq in Htake. apply Htake. by rewrite Hr.
  - intros [= <- <-]. exists σ. apply answered_inv; try done.
    + unfold flight. by rewrite Hst.
    + unfold releaseAnswer. split; by destruct (cl_request c).
    + destruct (0 <? count); auto.
  - assert (flight c = p :: rest) as Hf by (unfold flight; by rewrite Hst).
    pose proof (send_inv σ w id c) as Hsend.
    assert (resolutionOf (cl_request c) = AbortMessage) as Hres by (by destruct (cl_request c)).
    destruct (sendResolution p AbortMessage (w_tool w)) as [t1 delivered] eqn:Hs. intros [= <- <-].
    specialize (Hsend (set_callStage (Releasing rest count) c) p rest Hinv Hc Hf eq_refl eq_refl eq_refl).
    rewrite Hres, Hs in Hsend. apply Hsend. intros σ' _. done.
  - intros [= <- <-]. exists σ. apply answered_inv; auto. unfold flight. by rewrite Hst.
  - done.
Qed.

(** ** Every step *)
Lemma transaction_free_spec context w k h transactionId :
  transactionFree context w = true → w_hooks w !! k = Some h → active h = true →
  pc_transactionId (hk_context h) = Some transactionId → pc_transactionId context ≠ Some transactionId.
Proof.
  unfold transactionFree. intros Hfree Hk Ha Ht Hc. rewrite Hc, forallb_forall in Hfree.
  specialize (Hfree (k, h)). rewrite <-list_elem_of_In, elem_of_map_to_list in Hfree. specialize (Hfree Hk).
  cbn in Hfree. rewrite Ha, bool_decide_true in Hfree by done. done.
Qed.

Lemma world_step_inv σ w e w' : Inv σ w → step to_lowercase w e = Some w' → ∃ σ', Inv σ' w'.
Proof.
  intros Hinv. destruct e as [id phase context|id request|id now|id|id|id]; cbn.
  - case_bool_decide as Hid; [|done]. destruct (transactionFree context w) eqn:Hfree; [|done]. cbn. intros [= <-].
    exists σ. apply inv_new_hook; [done..| |].
    + by split.
    + intros k0 h0 tid Hk0 Ha0 Ht0. cbn. by eapply transaction_free_spec.
  - case_bool_decide as Hid; [|done]. intros [= <-]. exists σ.
    set (c := {| cl_request := request |}).
    apply (inv_call_step σ w id c c); [done|by right|apply Hinv|done..|]. by apply (call_quiet σ id c Called).
  - destruct (w_hooks w !! id) as [h|] eqn:Hk; [|done]. cbn.
    destruct (advanceHook _ _ _ _) as [[h' t']|] eqn:Ha; [|done]. cbn. intros [= <-]. by eapply advance_hook_inv.
  - destruct (w_hooks w !! id) as [h|] eqn:Hk; [|done]. cbn.
    destruct (elapseHook _ _) as [h'|] eqn:Ha; [|done]. cbn. intros [= <-]. exists σ. by eapply elapse_inv.
  - destruct (w_hooks w !! id) as [h|] eqn:Hk; [|done]. cbn.
    destruct (cancelHook _ _) as [[h' t']|] eqn:Ha; [|done]. cbn. intros [= <-]. exists σ. by eapply cancel_inv.
  - destruct (w_calls w !! id) as [c|] eqn:Hk; [|done]. cbn.
    destruct (advanceCall _ _) as [[c' t']|] eqn:Ha; [|done]. cbn. intros [= <-]. by eapply advance_call_inv.
Qed.

Lemma opening_inv configuration t : newTool configuration = Ok t → Inv ∅ (initialWorld t).
Proof.
  unfold newTool. destruct (validateConfiguration configuration) as [[]| |] eqn:Hv; [|done..]. intros [= <-].
  constructor; cbn; [done|by rewrite map_size_empty; lia|intros; apply lookup_empty|..];
    intros; match goal with He : ∅ !! _ = Some _ |- _ => by rewrite lookup_empty in He end.
Qed.

Lemma run_inv σ w events w' : Inv σ w → run to_lowercase w events = Some w' → ∃ σ', Inv σ' w'.
Proof.
  revert σ w. induction events as [|e events IH]; intros σ w Hinv; cbn; [intros [= <-]; eauto|].
  destruct (step to_lowercase w e) as [w1|] eqn:Hstep; [|done]. cbn. intros Hrun.
  destruct (world_step_inv _ _ _ _ Hinv Hstep) as [σ1 Hinv1]. by eapply IH.
Qed.

Lemma world_inv w : Reachable to_lowercase w → ∃ σ, Inv σ w.
Proof.
  intros (configuration & t & events & Ht & Hrun). eapply run_inv; [|done]. by eapply opening_inv.
Qed.
End invariant.
