(* ===== verification/BreakpointTheorems.v ===== *)
(** * Breakpoints lose nobody

    The properties of [Breakpoints] that follow from its invariant: every suspended message
    has its hook, is answered once and by whom, and every wait ends; then runs on a concrete
    configuration, which instantiate them and show two races. *)

From S2P Require Import Prelude NetAddress Text Stateful Location LocationTheorems CaptureModel MessageDraft Breakpoints BreakpointInvariant.

Section theorems.
Context `{Hlaws : HttpLaws} (to_lowercase : chars → chars).

(** A hook waits to be answered. *)
Definition waits (h : Hook) : bool :=
  match hk_stage h with Registered | Waiting | Elapsed | Abandoned => true | _ => false end.
(** The task of a hook was cancelled while it waited. *)
Definition cancelled (h : Hook) : bool :=
  match hk_stage h with
  | Leaving | Released | Cancelled => bool_decide (hk_resolution h = None)
  | _ => false
  end.

Lemma holder_taken σ w id c p i status :
  Inv σ w → w_calls w !! id = Some c → p ∈ cl_taken c → σ !! pb_sender p = Some status → i = id →
  status = InFlight i ∨ status = Delivered i (resolutionOf (cl_request c)) ∨ status = Closed i.
Proof.
  intros Hinv Hc Hp Hσ ->. destruct (inv_call _ _ Hinv _ _ Hc) as (_ & Hf & (spent & Ht & Hs) & _).
  rewrite Ht in Hp. apply elem_of_app in Hp as [Hp|Hp].
  - destruct (Hs _ Hp); simplify_eq; auto.
  - rewrite (Hf _ Hp) in Hσ. injection Hσ as <-. auto.
Qed.
Lemma taken_status σ w id c p :
  Inv σ w → w_calls w !! id = Some c → p ∈ cl_taken c → is_Some (σ !! pb_sender p).
Proof.
  intros Hinv Hc Hp. destruct (inv_call _ _ Hinv _ _ Hc) as (_ & Hf & (spent & Ht & Hs) & _).
  rewrite Ht in Hp. apply elem_of_app in Hp as [Hp|Hp]; [destruct (Hs _ Hp)|pose proof (Hf _ Hp)]; eauto.
Qed.

(** An entry was taken by one call. *)
Lemma taken_by_one σ w id c p id' c' p' :
  Inv σ w → w_calls w !! id = Some c → p ∈ cl_taken c → w_calls w !! id' = Some c' → p' ∈ cl_taken c' →
  pb_sender p = pb_sender p' → id = id'.
Proof.
  intros Hinv Hc Hp Hc' Hp' Heq. destruct (taken_status _ _ _ _ _ Hinv Hc Hp) as [status Hσ].
  pose proof (holder_taken _ _ _ _ _ _ _ Hinv Hc Hp Hσ eq_refl) as H1. rewrite Heq in Hσ.
  pose proof (holder_taken _ _ _ _ _ _ _ Hinv Hc' Hp' Hσ eq_refl) as H2. naive_solver.
Qed.

(** An entry a call took from this channel is the entry of its hook. *)
Lemma taken_entry σ w k h s id c p :
  Inv σ w → w_hooks w !! k = Some h → hk_suspension h = Some s →
  w_calls w !! id = Some c → p ∈ cl_taken c → pb_sender p = su_receiver s → p = pendingOf s.
Proof.
  intros Hinv Hk Hs Hc Hp Heq. destruct (inv_taken _ _ Hinv _ _ _ Hc Hp) as (k' & h' & s' & Hk' & Hs' & ->).
  pose proof (inv_receivers _ _ Hinv _ _ _ _ _ _ Hk' Hk Hs' Hs Heq) as ->. by simplify_eq.
Qed.

Lemma queued_stage h s channel : StageOk h s Queued channel → active h = true ∧ hk_resolution h = None.
Proof. unfold StageOk, Ended, active. destruct (hk_stage h), (hk_resolution h); naive_solver. Qed.

Lemma delivered_stage h s c r channel :
  StageOk h s (Delivered c r) channel → hk_resolution h = Some r ∨ cancelled h = true ∨ waits h = true.
Proof.
  unfold StageOk, Ended, cancelled, waits. destruct (hk_stage h), (hk_resolution h); try naive_solver.
Qed.
Lemma closed_stage h s c channel :
  StageOk h s (Closed c) channel → ch_receiver channel = false → cancelled h = true.
Proof.
  unfold StageOk, Ended, cancelled. destruct (hk_stage h), (hk_resolution h); try naive_solver; intros; destruct_and?; congruence.
Qed.

(** What a hook that waits is answered by. *)
Lemma waiting_status σ w k h s :
  Inv σ w → w_hooks w !! k = Some h → hk_suspension h = Some s → waits h = true →
  ∃ status channel, σ !! su_receiver s = Some status ∧ bt_channels (w_tool w) !! su_receiver s = Some channel ∧
    ChannelOk status channel ∧ ch_receiver channel = true ∧ hk_resolution h = None ∧ status ≠ Reclaimed ∧
    (∀ c, status ≠ Closed c) ∧ (hk_stage h = Abandoned → status ≠ Queued).
Proof.
  intros Hinv Hk Hs Hw.
  destruct (hook_suspended _ _ _ _ (inv_hook _ _ Hinv _ _ Hk) Hs) as (_ & _ & _ & status & channel & Hσ & Hc & Hok).
  destruct (inv_channel _ _ Hinv _ _ Hσ) as (ch & Hc' & Hcok). rewrite Hc in Hc'. injection Hc' as <-.
  assert (hk_resolution h = None ∧ ch_receiver channel = true ∧ status ≠ Reclaimed ∧ (hk_stage h = Abandoned → status ≠ Queued))
    as (? & Hrecv & ? & ?).
  { unfold StageOk, waits in *. destruct (hk_stage h); naive_solver. }
  exists status, channel. split_and!; try done. intros c ->. cbn in Hcok. destruct Hcok as (_ & _ & ?). congruence.
Qed.

Lemma in_flight_entry σ w k h s call :
  Inv σ w → w_hooks w !! k = Some h → hk_suspension h = Some s → σ !! su_receiver s = Some (InFlight call) →
  ∃ c, w_calls w !! call = Some c ∧ pendingOf s ∈ flight c.
Proof.
  intros Hinv Hk Hs Hσ. destruct (inv_holder _ _ Hinv _ _ call Hσ) as (c & p & Hc & Hp & Heq & Hf & _); [by left|].
  exists c. split; [done|]. rewrite <-(taken_entry _ _ _ _ _ _ _ _ Hinv Hk Hs Hc Hp Heq). by apply Hf.
Qed.

(** C16: In every state the breakpoints reach, under any interleaving of hooks, control
    calls, timeouts and cancelled tasks, at most 1024 messages are suspended; every entry
    of the queue belongs to exactly one hook, which still runs, for the transaction and the
    phase the entry names; every hook that waits is in the queue, or a call holds its entry,
    or its answer is in its channel; and no hook and no call panics. *)
Theorem breakpoints_invariant (w : World) :
  Reachable to_lowercase w →
  (size (bt_suspended (w_tool w)) ≤ 1024)%nat ∧
  (∀ transactionId p, bt_suspended (w_tool w) !! transactionId = Some p →
     sb_transactionId (pb_snapshot p) = transactionId ∧
     ∃ k h s, w_hooks w !! k = Some h ∧ active h = true ∧ hk_suspension h = Some s ∧ p = pendingOf s ∧
       pc_transactionId (hk_context h) = Some transactionId ∧ sb_phase (pb_snapshot p) = hk_phase h ∧
       hk_resolution h = None ∧
       ∀ k' h' s', w_hooks w !! k' = Some h' → hk_suspension h' = Some s' → su_receiver s' = pb_sender p → k' = k) ∧
  (∀ k h s, w_hooks w !! k = Some h → hk_suspension h = Some s → waits h = true →
     bt_suspended (w_tool w) !! transactionOf s = Some (pendingOf s) ∨
     (∃ id c, w_calls w !! id = Some c ∧ pendingOf s ∈ flight c) ∨
     (∃ channel r, bt_channels (w_tool w) !! su_receiver s = Some channel ∧ ch_value channel = Some r)) ∧
  (∀ k h, w_hooks w !! k = Some h → hk_stage h ≠ Finished Panic) ∧
  (∀ id c, w_calls w !! id = Some c → cl_stage c ≠ Answered (AnswerUnit Panic)).
Proof.
  intros [σ Hinv]%world_inv. split_and!.
  - apply Hinv.
  - intros transactionId p Hp. destruct (inv_queue _ _ Hinv _ _ Hp) as (k & h & s & Hk & Hs & -> & -> & Hq).
    split; [done|]. exists k, h, s.
    destruct (hook_suspended _ _ _ _ (inv_hook _ _ Hinv _ _ Hk) Hs) as (_ & Hphase & Ha & status & channel & Hσ & _ & Hok).
    rewrite Hq in Hσ. injection Hσ as <-. destruct (queued_stage _ _ _ Hok) as [Hact Hr].
    split_and!; try done; [by apply Ha|]. intros k' h' s' Hk' Hs' Heq. by eapply (inv_receivers _ _ Hinv).
  - intros k h s Hk Hs Hw.
    destruct (waiting_status _ _ _ _ _ Hinv Hk Hs Hw) as (status & channel & Hσ & Hc & Hcok & _ & _ & Hre & Hcl & _).
    destruct status as [|call|call r|call|]; try naive_solver.
    + left. by eapply (inv_queued _ _ Hinv).
    + right; left. destruct (in_flight_entry _ _ _ _ _ _ Hinv Hk Hs Hσ) as (c & ? & ?). eauto.
  - intros k h Hk. apply (inv_hook _ _ Hinv _ _ Hk).
  - intros id c Hc Hstage. destruct (inv_call _ _ Hinv _ _ Hc) as (_ & _ & _ & Hst). rewrite Hstage in Hst. by destruct Hst.
Qed.

(** C15: Every suspended message is answered once.  What its hook goes on with is what the
    one call that took its entry carries (the draft of a continue, an abort of the others),
    or, if no call took it, what its own configuration says for a timeout.  A continue or an
    abort that answers with success took one entry, that of its transaction, and its answer
    is what the hook of it went on with or finds in its channel, unless its task was
    cancelled; one that answers that the wait had ended met a cancelled task; one with any
    other error took nothing. *)
Theorem breakpoint_answered_once (w : World) :
  Reachable to_lowercase w →
  (∀ k h s r, w_hooks w !! k = Some h → hk_suspension h = Some s → hk_resolution h = Some r →
     (∃ id c, w_calls w !! id = Some c ∧ pendingOf s ∈ cl_taken c ∧ r = resolutionOf (cl_request c) ∧
        ∀ id' c', w_calls w !! id' = Some c' → pendingOf s ∈ cl_taken c' → id' = id) ∨
     (r = timeoutResolution s ∧ ∀ id c, w_calls w !! id = Some c → pendingOf s ∉ cl_taken c)) ∧
  (∀ id c transactionId result, w_calls w !! id = Some c → cl_stage c = Answered (AnswerUnit result) →
     match cl_request c with
     | ContinueBreakpoint t _ | AbortBreakpoint t => t = transactionId
     | _ => False
     end →
     match result with
     | Ok _ =>
         ∃ k h s, w_hooks w !! k = Some h ∧ hk_suspension h = Some s ∧ cl_taken c = [pendingOf s] ∧
           transactionOf s = transactionId ∧
           (hk_resolution h = Some (resolutionOf (cl_request c)) ∨ cancelled h = true ∨
            waits h = true ∧ ∃ channel, bt_channels (w_tool w) !! su_receiver s = Some channel ∧
              ch_value channel = Some (resolutionOf (cl_request c)))
     | Err ResolutionClosed =>
         ∃ k h s, w_hooks w !! k = Some h ∧ hk_suspension h = Some s ∧ cl_taken c = [pendingOf s] ∧
           transactionOf s = transactionId ∧ cancelled h = true
     | Err _ => cl_taken c = []
     | Panic => False
     end).
Proof.
  intros [σ Hinv]%world_inv. split.
  - intros k h s r Hk Hs Hr.
    destruct (hook_suspended _ _ _ _ (inv_hook _ _ Hinv _ _ Hk) Hs) as (_ & _ & _ & status & channel & Hσ & _ & Hok).
    assert ((∃ c, status = Delivered c r) ∨ status = Reclaimed ∧ r = timeoutResolution s) as [[id ->]|[-> ->]].
    { unfold StageOk, Ended in Hok. rewrite Hr in Hok. destruct (hk_stage h); naive_solver. }
    + left. destruct (inv_holder _ _ Hinv _ _ id Hσ) as (c & p & Hc & Hp & Heq & _ & Hd); [eauto|].
      pose proof (taken_entry _ _ _ _ _ _ _ _ Hinv Hk Hs Hc Hp Heq) as ->.
      exists id, c. split_and!; [done..|by apply Hd|]. intros id' c' Hc' Hp'. by eapply (taken_by_one _ _ id' c' _ id c).
    + right. split; [done|]. intros id c Hc Hp.
      destruct (holder_taken _ _ _ _ _ _ _ Hinv Hc Hp Hσ eq_refl) as [|[|]]; done.
  - intros id c transactionId result Hc Hstage Hr.
    destruct (inv_call _ _ Hinv _ _ Hc) as (_ & _ & _ & Hst). rewrite Hstage in Hst. destruct Hst as [Hpanic Ha].
    assert (∀ p status, cl_taken c = [p] → sb_transactionId (pb_snapshot p) = transactionId → σ !! pb_sender p = Some status →
      ∃ k h s, w_hooks w !! k = Some h ∧ hk_suspension h = Some s ∧ cl_taken c = [pendingOf s] ∧
        transactionOf s = transactionId ∧ σ !! su_receiver s = Some status) as Hhook.
    { intros p status Ht Htid Hσ. destruct (inv_taken _ _ Hinv _ _ p Hc) as (k & h & s & Hk & Hs & ->); [rewrite Ht; by left|].
      eauto 10. }
    destruct result as [[]|error|]; [| |done].
    + assert (∃ p, cl_taken c = [p] ∧ sb_transactionId (pb_snapshot p) = transactionId ∧
        σ !! pb_sender p = Some (Delivered id (resolutionOf (cl_request c)))) as (p & Ht & Htid & Hσ)
        by (destruct (cl_request c); try done; subst; exact Ha).
      destruct (Hhook _ _ Ht Htid Hσ) as (k & h & s & Hk & Hs & Htaken & Htr & Hσ').
      exists k, h, s. split_and!; [done..|].
      destruct (hook_suspended _ _ _ _ (inv_hook _ _ Hinv _ _ Hk) Hs) as (_ & _ & _ & status & channel & Hσ'' & Hch & Hok).
      rewrite Hσ' in Hσ''. injection Hσ'' as <-.
      destruct (inv_channel _ _ Hinv _ _ Hσ') as (ch & Hch' & _ & Hv). rewrite Hch in Hch'. injection Hch' as <-.
      destruct (delivered_stage _ _ _ _ _ Hok) as [?|[?|?]]; eauto 7.
    + assert (error = ResolutionClosed ∨ error ≠ ResolutionClosed) as [-> |Hne] by (destruct error; auto).
      * assert (∃ p, cl_taken c = [p] ∧ sb_transactionId (pb_snapshot p) = transactionId ∧
          σ !! pb_sender p = Some (Closed id)) as (p & Ht & Htid & Hσ) by (destruct (cl_request c); try done; subst; exact Ha).
        destruct (Hhook _ _ Ht Htid Hσ) as (k & h & s & Hk & Hs & Htaken & Htr & Hσ').
        exists k, h, s. split_and!; [done..|].
        destruct (hook_suspended _ _ _ _ (inv_hook _ _ Hinv _ _ Hk) Hs) as (_ & _ & _ & status & channel & Hσ'' & Hch & Hok).
        rewrite Hσ' in Hσ''. injection Hσ'' as <-.
        destruct (inv_channel _ _ Hinv _ _ Hσ') as (ch & Hch' & _ & Hv & Hrecv). rewrite Hch in Hch'. injection Hch' as <-.
        by eapply closed_stage.
      * destruct (cl_request c); try done; by destruct error.
Qed.

(** ** Every wait ends *)
(** How many steps a hook and a call have left, and the entries of the queue. *)
Definition hookRank (h : Hook) : Z :=
  match hk_stage h with
  | Entered => 9 | Matched _ _ _ _ => 8 | Registered => 6 | Waiting => 5 | Elapsed => 4
  | TookOver | Abandoned => 3 | Leaving => 2 | Released => 1 | Finished _ | Cancelled => 0
  end.
Definition callRank (c : Call) : Z :=
  match cl_stage c with
  | Called => 6 | Validated | Replaced => 5 | Sending _ => 2 | Releasing ps _ => 2 + len ps
  | Notifying _ => 1 | Answered _ => 0
  end.
Definition measure (w : World) : Z :=
  Z.of_nat (size (bt_suspended (w_tool w))) + total hookRank (w_hooks w) + total callRank (w_calls w).

Lemma work_nonneg w : 0 ≤ measure w.
Proof.
  unfold measure. pose proof (total_nonneg hookRank (w_hooks w)) as Hh. pose proof (total_nonneg callRank (w_calls w)) as Hc.
  assert (0 ≤ total hookRank (w_hooks w)).
  { apply Hh. intros k h _. unfold hookRank. destruct (hk_stage h); lia. }
  assert (0 ≤ total callRank (w_calls w)); [|lia].
  apply Hc. intros k c _. unfold callRank. destruct (cl_stage c); try lia. pose proof (len_nonneg pending). lia.
Qed.

Lemma measure_hook w k h h' t' :
  w_hooks w !! k = Some h →
  Z.of_nat (size (bt_suspended t')) + hookRank h' < Z.of_nat (size (bt_suspended (w_tool w))) + hookRank h →
  measure (set_hook k h' t' w) < measure w.
Proof. intros Hk Hlt. unfold measure. cbn. rewrite total_insert, Hk. cbn. lia. Qed.

Lemma measure_call w k c c' t' :
  w_calls w !! k = Some c →
  Z.of_nat (size (bt_suspended t')) + callRank c' < Z.of_nat (size (bt_suspended (w_tool w))) + callRank c →
  measure (set_call k c' t' w) < measure w.
Proof. intros Hk Hlt. unfold measure. cbn. rewrite total_insert, Hk. cbn. lia. Qed.

Lemma conclude_rank h : hookRank (concludeHook h) = 0.
Proof. unfold concludeHook. destruct (hk_resolution h); [|done]. by destruct (match hk_phase h with AtRequest => _ | AtResponse => _ end). Qed.

Lemma enter_rank t h : hookRank (enterHook to_lowercase t h) ≤ 8.
Proof.
  unfold enterHook. destruct (hookMessage _ _) as [[body draft]|]; [|done]. destruct (bodyTooLong _); [done|].
  by destruct (suspendMatch _ _ _ _ _) as [[[[? ?] ?]|]| |].
Qed.

Lemma remove_size transactionId t p t' :
  removeEntry transactionId t = Some (p, t') → (size (bt_suspended t') ≤ size (bt_suspended t))%nat.
Proof.
  unfold removeEntry. destruct (bt_suspended t !! transactionId); [|done]. cbn. intros [= _ <-].
  apply map_subseteq_size, delete_subseteq.
Qed.

Lemma advance_hook_rank now h t h' t' :
  advanceHook to_lowercase now h t = Some (h', t') →
  Z.of_nat (size (bt_suspended t')) + hookRank h' < Z.of_nat (size (bt_suspended t)) + hookRank h.
Proof.
  unfold advanceHook. unfold hookRank at 2. destruct (hk_stage h) eqn:Hstage.
  - intros [= <- <-]. pose proof (enter_rank t h). lia.
  - destruct (suspendLocked _ _ _ _ _ _ _) as [[s t1]|] eqn:Hl; intros [= <- <-]; [|cbn; lia].
    revert Hl. unfold suspendLocked. destruct (_ || _) eqn:Hg; [done|]. apply orb_false_iff in Hg as [_ Hfree%bool_decide_eq_false].
    intros [= <- <-]. cbn. rewrite map_size_insert_None by (by apply eq_None_not_Some). lia.
  - intros [= <- <-]. cbn. lia.
  - destruct (hk_suspension h) as [s|]; [|done]. destruct (bt_channels t !! _); [|done]. cbn.
    destruct (pollChannel _); [|done]. cbn. intros [= <- <-]. cbn. lia.
  - destruct (hk_suspension h) as [s|]; [|done]. destruct (removeEntry _ _) as [[p t1]|] eqn:Hr; intros [= <- <-].
    + apply remove_size in Hr. cbn. lia.
    + cbn. lia.
  - destruct (hk_suspension h) as [s|]; [|done]. intros [= <- <-]. cbn. lia.
  - destruct (hk_suspension h) as [s|]; [|done]. destruct (bt_channels t !! _); [|done]. cbn.
    destruct (pollChannel _); [|done]. cbn. intros [= <- <-]. cbn. lia.
  - destruct (hk_suspension h) as [s|]; [|done]. unfold dropLease.
    destruct (bt_suspended t !! sb_transactionId (su_snapshot s)) as [p|]; [destruct (_ =? _)|]; intros [= <- <-].
    + pose proof (map_subseteq_size _ _ (delete_subseteq (bt_suspended t) (sb_transactionId (su_snapshot s)))). cbn. lia.
    + rewrite conclude_rank. lia.
    + rewrite conclude_rank. lia.
  - intros [= <- <-]. rewrite conclude_rank. cbn. lia.
  - by destruct (hk_suspension h).
  - by destruct (hk_suspension h).
Qed.

Lemma take_entry_rank transactionId c t c' t' :
  takeEntry transactionId c t = (c', t') →
  Z.of_nat (size (bt_suspended t')) + callRank c' ≤ Z.of_nat (size (bt_suspended t)) + 2.
Proof.
  unfold takeEntry. destruct (removeEntry _ _) as [[p t1]|] eqn:Hr; intros [= <- <-]; [apply remove_size in Hr|]; cbn; lia.
Qed.

Lemma take_all_rank c t c' t' :
  takeAll c t = (c', t') →
  Z.of_nat (size (bt_suspended t')) + callRank c' = Z.of_nat (size (bt_suspended t)) + 2.
Proof.
  unfold takeAll, takeEntries. intros [= <- <-]. cbn. rewrite map_size_empty. unfold callRank, len. cbn.
  unfold suspendedEntries. rewrite length_fmap, (Permutation_length (merge_sort_Permutation entry_le _)), length_map_to_list. lia.
Qed.

Lemma start_call_rank c t c' t' :
  startCall c t = (c', t') →
  Z.of_nat (size (bt_suspended t')) + callRank c' < Z.of_nat (size (bt_suspended t)) + 6.
Proof.
  unfold startCall. destruct (cl_request c).
  - destruct (bt_suspended t !! _); [|intros [= <- <-]; cbn; lia].
    destruct (map_err _ _); intros [= <- <-]; cbn; lia.
  - intros Hr%take_entry_rank. lia.
  - intros Hr%take_all_rank. lia.
  - destruct (validateConfiguration _); [destruct (negb _)|..]; intros [= <- <-]; cbn; lia.
Qed.

Lemma send_size p r t t' delivered : sendResolution p r t = (t', delivered) → bt_suspended t' = bt_suspended t.
Proof.
  unfold sendResolution. destruct (bt_channels t !! _); [|by intros [= <- <-]].
  destruct (sendValue _ _). by intros [= <- <-].
Qed.

Lemma advance_call_rank c t c' t' :
  advanceCall c t = Some (c', t') →
  Z.of_nat (size (bt_suspended t')) + callRank c' < Z.of_nat (size (bt_suspended t)) + callRank c.
Proof.
  unfold advanceCall. unfold callRank at 2. destruct (cl_stage c) as [| |p| |[|p rest] count|answer|answer].
  - intros Heq. apply (inj Some), start_call_rank in Heq. lia.
  - destruct (cl_request c); try done. intros Heq. apply (inj Some), take_entry_rank in Heq. lia.
  - destruct (sendResolution _ _ _) as [t1 d] eqn:Hs. intros [= <- <-]. apply send_size in Hs. rewrite Hs. cbn. lia.
  - intros Heq. apply (inj Some), take_all_rank in Heq. lia.
  - intros [= <- <-]. destruct (0 <? count); unfold callRank, len; cbn; lia.
  - destruct (sendResolution _ _ _) as [t1 d] eqn:Hs. intros [= <- <-]. apply send_size in Hs. rewrite Hs. unfold callRank. cbn.
    rewrite len_cons. lia.
  - intros [= <- <-]. cbn. lia.
  - done.
Qed.

Lemma step_decreases w e w' : step to_lowercase w e = Some w' → internal e = true → measure w' < measure w.
Proof.
  destruct e as [id phase context|id request|id now|id|id|id]; cbn; [done|done|..]; intros Hstep _; revert Hstep.
  - destruct (w_hooks w !! id) as [h|] eqn:Hk; [|done]. cbn.
    destruct (advanceHook _ _ _ _) as [[h' t']|] eqn:Ha; [|done]. cbn. intros [= <-].
    eapply measure_hook; [done|]. by eapply advance_hook_rank.
  - destruct (w_hooks w !! id) as [h|] eqn:Hk; [|done]. cbn.
    destruct (elapseHook _ _) as [h'|] eqn:Ha; [|done]. cbn. intros [= <-]. eapply measure_hook; [done|].
    unfold elapseHook in Ha. unfold hookRank at 2. destruct (hk_stage h), (hk_suspension h) as [s|]; try done.
    destruct (bt_channels _ !! _) as [ch|]; [|done]. cbn in Ha. destruct (pollChannel ch); [done|].
    injection Ha as <-. cbn. lia.
  - destruct (w_hooks w !! id) as [h|] eqn:Hk; [|done]. cbn.
    destruct (cancelHook _ _) as [[h' t']|] eqn:Ha; [|done]. cbn. intros [= <-]. eapply measure_hook; [done|].
    unfold cancelHook in Ha. unfold hookRank at 2. destruct (hk_stage h), (hk_suspension h) as [s|]; try done;
      injection Ha as <- <-; cbn; lia.
  - destruct (w_calls w !! id) as [c|] eqn:Hk; [|done]. cbn.
    destruct (advanceCall _ _) as [[c' t']|] eqn:Ha; [|done]. cbn. intros [= <-].
    eapply measure_call; [done|]. by eapply advance_call_rank.
Qed.

Lemma run_decreases w events w' :
  run to_lowercase w events = Some w' → Forall (λ e, internal e = true) events → len events + measure w' ≤ measure w.
Proof.
  revert w. induction events as [|e events IH]; intros w; cbn [run]; [intros [= <-] _; rewrite len_nil; lia|].
  destruct (step to_lowercase w e) as [w1|] eqn:Hstep; [|done]. cbn [mbind option_bind]. intros Hrun Hall.
  inversion_clear Hall as [|? ? He Hrest]. pose proof (step_decreases _ _ _ Hstep He). specialize (IH _ Hrun Hrest).
  rewrite len_cons. lia.
Qed.

(** A call that is not answered can go on. *)
Lemma call_progress σ w id c :
  Inv σ w → w_calls w !! id = Some c → (∀ answer, cl_stage c ≠ Answered answer) →
  is_Some (step to_lowercase w (AdvanceCall id)).
Proof.
  intros Hinv Hc Hne. cbn. rewrite Hc. cbn.
  destruct (inv_call _ _ Hinv _ _ Hc) as (_ & _ & _ & Hst).
  assert (is_Some (advanceCall c (w_tool w))) as [[c' t'] Ha]; [|rewrite Ha; by eexists].
  unfold advanceCall. destruct (cl_stage c) as [| |p| |[|p rest] count|answer|answer]; try by eexists.
  - destruct Hst as [_ (tid & draft & ->)]. by eexists.
  - destruct (sendResolution _ _ _). by eexists.
  - destruct (sendResolution _ _ _). by eexists.
  - by destruct (Hne answer).
Qed.

(** While a hook runs, somebody can go on. *)
Lemma hook_progress σ w k h :
  Inv σ w → w_hooks w !! k = Some h → active h = true →
  ∃ e, internal e = true ∧ is_Some (step to_lowercase w e).
Proof.
  intros Hinv Hk Ha. destruct (inv_hook _ _ Hinv _ _ Hk) as [_ Hh].
  assert (is_Some (advanceHook to_lowercase 0 h (w_tool w)) → ∃ e, internal e = true ∧ is_Some (step to_lowercase w e)) as Hadv.
  { intros [[h' t'] Hx]. exists (AdvanceHook k 0). split; [done|]. cbn. rewrite Hk. cbn. rewrite Hx. by eexists. }
  destruct (hk_suspension h) as [s|] eqn:Hs.
  2: { destruct Hh as [_ Hh]. apply Hadv. unfold advanceHook, active in *.
       destruct (hk_stage h); try done; by eexists. }
  destruct (waits h) eqn:Hw.
  - destruct (waiting_status _ _ _ _ _ Hinv Hk Hs Hw) as (status & channel & Hσ & Hc & Hcok & Hrecv & _ & Hre & Hcl & Hab).
    unfold waits in Hw. destruct (hk_stage h) eqn:Hstage; try done.
    + apply Hadv. unfold advanceHook. rewrite Hstage. by eexists.
    + destruct (pollChannel channel) as [r|] eqn:Hpoll.
      * apply Hadv. unfold advanceHook. rewrite Hstage, Hs, Hc. cbn. rewrite Hpoll. by eexists.
      * exists (Elapse k). split; [done|]. cbn. rewrite Hk. cbn. unfold elapseHook. rewrite Hstage, Hs, Hc. cbn.
        rewrite Hpoll. by eexists.
    + apply Hadv. unfold advanceHook. rewrite Hstage, Hs. by eexists.
    + destruct status as [|call|call r|call|]; try done; [by destruct (Hab eq_refl)| | |by destruct (Hcl call)].
      * destruct (in_flight_entry _ _ _ _ _ _ Hinv Hk Hs Hσ) as (c & Hc' & Hf). exists (AdvanceCall call). split; [done|].
        eapply call_progress; [done..|]. intros answer Hans. unfold flight in Hf. rewrite Hans in Hf. by apply elem_of_nil in Hf.
      * apply Hadv. unfold advanceHook. rewrite Hstage, Hs, Hc. cbn. unfold pollChannel. destruct Hcok as [_ ->]. by eexists.
  - apply Hadv. unfold waits, active, advanceHook in *. rewrite Hs. destruct (hk_stage h) eqn:Hstage; try done; try by eexists.
    destruct (dropLease s (w_tool w)) as [? []]; by eexists.
Qed.

(** C17: Once no new message and no new call arrives, whatever runs next, in whatever order
    (a time that passes is a step): only boundedly many steps are left, and while a hook has
    not returned or a call is not answered some step is possible.  So it ends with every
    hook returned, every call answered and no slot of the queue taken. *)
Theorem breakpoint_waits_end (w : World) :
  Reachable to_lowercase w →
  ∃ bound, ∀ events w',
    Forall (λ e, internal e = true) events → run to_lowercase w events = Some w' →
    len events ≤ bound ∧
    ((∃ e, internal e = true ∧ is_Some (step to_lowercase w' e)) ∨
     (∀ k h, w_hooks w' !! k = Some h → active h = false) ∧
     (∀ id c, w_calls w' !! id = Some c → ∃ answer, cl_stage c = Answered answer) ∧
     bt_suspended (w_tool w') = ∅).
Proof.
  intros [σ Hinv]%world_inv. exists (measure w). intros events w' Hall Hrun.
  pose proof (run_decreases _ _ _ Hrun Hall) as Hlen. pose proof (work_nonneg w'). split; [lia|].
  destruct (run_inv _ _ _ _ _ Hinv Hrun) as [σ' Hinv'].
  destruct (decide (map_Forall (λ _ h, active h = false) (w_hooks w'))) as [Hhooks|Hhooks].
  - assert (∀ c, Decision (∃ answer, cl_stage c = Answered answer)) as Hdec.
    { intros c. destruct (cl_stage c); try (right; by intros [? ?]). left. eauto. }
    destruct (decide (map_Forall (λ _ c, ∃ answer, cl_stage c = Answered answer) (w_calls w'))) as [Hcalls|Hcalls].
    + right. split_and!; [by intros k h Hk; apply (Hhooks k)|by intros id c Hc; apply (Hcalls id)|].
      apply map_empty. intros tid. destruct (bt_suspended (w_tool w') !! tid) as [p|] eqn:Hp; [|done].
      destruct (inv_queue _ _ Hinv' _ _ Hp) as (k & h & s & Hk & Hs & _ & _ & Hq).
      destruct (hook_suspended _ _ _ _ (inv_hook _ _ Hinv' _ _ Hk) Hs) as (_ & _ & _ & status & channel & Hσ & _ & Hok).
      rewrite Hq in Hσ. injection Hσ as <-. destruct (queued_stage _ _ _ Hok) as [Hact _]. by rewrite (Hhooks _ _ Hk) in Hact.
    + left. apply map_not_Forall in Hcalls as (id & c & Hc & Hne); [|done].
      exists (AdvanceCall id). split; [done|]. eapply call_progress; [done..|]. intros answer Ha. apply Hne. eauto.
  - left. apply map_not_Forall in Hhooks as (k & h & Hk & Ha); [|apply _].
    eapply hook_progress; [done..|]. by destruct (active h).
Qed.
End theorems.

(** ** Runs *)
Module Runs.
Import Sample.

Definition rule : BreakpointRule :=
  {| br_id := lit "rule-1"; br_enabled := true; br_location := LocationPattern_default;
     br_onRequest := true; br_onResponse := true |}.
Definition configuration (enabled : bool) : BreakpointsConfiguration :=
  {| bc_enabled := enabled; bc_rules := [rule]; bc_suspendTimeoutSeconds := 1; bc_maxSuspended := 4;
     bc_onTimeout := ContinueOnTimeout |}.
Definition tool : BreakpointsTool :=
  {| bt_configuration := configuration true; bt_suspended := ∅; bt_suspendedChanges := 0; bt_channels := ∅; bt_next := 0 |}.

(** The context of a transaction, with the response [before] it. *)
Definition bound (transactionId : chars) (before : option ResponseDraft) : PipelineContext :=
  let c := Sample.context in
  {| pc_transactionId := Some transactionId; pc_recordingSessionId := Some (lit "session-1");
     pc_clientAddress := pc_clientAddress c; pc_clientProcessName := None; pc_clientProcessId := None;
     pc_originalLocation := pc_originalLocation c; pc_location := pc_location c; pc_request := pc_request c;
     pc_response := before; pc_shortCircuit := false; pc_blocked := false; pc_suspended := false;
     pc_flags := pc_flags c; pc_appliedTools := [] |}.

(** A hook enters, is registered and waits. *)
Definition arrives (k now : Z) (phase : BreakpointPhase) (c : PipelineContext) : list Event :=
  [NewHook k phase c; AdvanceHook k now; AdvanceHook k now; AdvanceHook k now].
(** A call is made and goes on [n] steps. *)
Definition calls (k : Z) (n : nat) (r : ControlRequest) : list Event := NewCall k r :: replicate n (AdvanceCall k).

Definition answeredRun : list Event :=
  arrives 1 1000 AtRequest (bound (lit "t") None) ++ arrives 2 1500 AtRequest (bound (lit "u") None)
  ++ calls 7 4 (ContinueBreakpoint (lit "t") edited)
  ++ [Elapse 2; AdvanceHook 1 0; AdvanceHook 1 0; AdvanceHook 2 0; AdvanceHook 2 0; AdvanceHook 2 0].

(** The call reads the entry of the request, and takes that of the response. *)
Definition crossingRun : list Event :=
  arrives 1 1000 AtRequest (bound (lit "t") None)
  ++ calls 7 1 (ContinueBreakpoint (lit "t") edited)
  ++ [Elapse 1; AdvanceHook 1 0; AdvanceHook 1 0; AdvanceHook 1 0]
  ++ arrives 2 2500 AtResponse (bound (lit "t") (Some (response [] (Some (lit "old")))))
  ++ [AdvanceCall 7; AdvanceCall 7; AdvanceCall 7; AdvanceHook 2 0; AdvanceHook 2 0].

(** The tool is switched off between the rule that matches and the lock of the queue. *)
Definition disabledRun : list Event :=
  [NewHook 1 AtRequest (bound (lit "t") None); AdvanceHook 1 0]
  ++ calls 7 3 (ReplaceConfiguration (configuration false))
  ++ [AdvanceHook 1 1000; AdvanceHook 1 1000].

Definition after (events : list Event) : World := default (initialWorld tool) (run to_ascii_lowercase (initialWorld tool) events).

(** What a test sees of a world. *)
Inductive Sight := Running | Returned | Failed (code : chars) | Panicked.
Definition sight (h : Hook) : Sight :=
  match hk_stage h with
  | Finished (Ok _) | Cancelled => Returned
  | Finished (Err (ToolFailed _ code)) => Failed code
  | Finished (Err _) | Finished Panic => Panicked
  | _ => Running
  end.
Definition accepted (c : Call) : bool :=
  match cl_stage c with Answered (AnswerUnit (Ok _)) => true | _ => false end.
Definition seen (k : Z) (w : World) : option Sight := sight <$> w_hooks w !! k.
Definition acceptedCall (k : Z) (w : World) : bool := from_option accepted false (w_calls w !! k).
Definition ran (events : list Event) : bool :=
  match run to_ascii_lowercase (initialWorld tool) events with Some _ => true | None => false end.

Lemma tool_new : newTool (configuration true) = Ok tool.
Proof. vm_compute. reflexivity. Qed.

Lemma after_reachable events : ran events = true → Reachable to_ascii_lowercase (after events).
Proof.
  unfold ran, after. intros Hran. exists (configuration true), tool, events. split; [apply tool_new|].
  destruct (run _ _ _); [reflexivity|discriminate Hran].
Qed.

Lemma answered_ran : ran answeredRun = true.
Proof. vm_compute. reflexivity. Qed.
Lemma crossing_ran : ran crossingRun = true.
Proof. vm_compute. reflexivity. Qed.
Lemma disabled_ran : ran disabledRun = true.
Proof. vm_compute. reflexivity. Qed.

(** Both requests go on, one with the edited draft and one after its time. *)
Example answered_run_returns :
  seen 1 (after answeredRun) = Some Returned ∧ seen 2 (after answeredRun) = Some Returned ∧
  acceptedCall 7 (after answeredRun) = true ∧ suspendedBreakpoints (w_tool (after answeredRun)) = [].
Proof. vm_compute. split_and!; reflexivity. Qed.

(** [continueBreakpoint] validates the draft for the entry it reads and sends it to the
    entry it takes, which may be another one: a draft of the request, accepted with success,
    reaches the response of the transaction, whose hook fails. *)
Example continue_crosses_phases :
  Reachable to_ascii_lowercase (after crossingRun) ∧ acceptedCall 7 (after crossingRun) = true ∧
  seen 2 (after crossingRun) = Some (Failed (lit "breakpointInvalidResponseStatus")).
Proof. split; [apply after_reachable, crossing_ran|]. vm_compute. split; reflexivity. Qed.

(** Switching the tool off does not release a message whose rule has just matched: it is
    suspended after the call was answered. *)
Example switched_off_and_suspended :
  Reachable to_ascii_lowercase (after disabledRun) ∧ acceptedCall 7 (after disabledRun) = true ∧
  bc_enabled (bt_configuration (w_tool (after disabledRun))) = false ∧
  seen 1 (after disabledRun) = Some Running ∧
  sb_transactionId <$> suspendedBreakpoints (w_tool (after disabledRun)) = [lit "t"].
Proof. split; [apply after_reachable, disabled_ran|]. vm_compute. split_and!; reflexivity. Qed.

(** ** Instances of the properties *)
Definition waitingRun : list Event := arrives 1 1000 AtRequest (bound (lit "t") None).
Lemma waiting_ran : ran waitingRun = true.
Proof. vm_compute. reflexivity. Qed.
Lemma waiting_entry : ∃ p, bt_suspended (w_tool (after waitingRun)) !! lit "t" = Some p.
Proof.
  assert (bool_decide (is_Some (bt_suspended (w_tool (after waitingRun)) !! lit "t")) = true) as Hp
    by (vm_compute; reflexivity).
  by apply bool_decide_eq_true in Hp as [p Hp]; exists p.
Qed.
Lemma answered_call :
  ∃ c, w_calls (after answeredRun) !! 7 = Some c ∧ cl_stage c = Answered (AnswerUnit (Ok tt)) ∧
    cl_request c = ContinueBreakpoint (lit "t") edited.
Proof. eexists. split; [vm_compute; reflexivity|split; reflexivity]. Qed.

Lemma breakpoints_invariant_witness :
  ∃ w, Reachable to_ascii_lowercase w ∧
    ∃ k h, w_hooks w !! k = Some h ∧ active h = true ∧ pc_transactionId (hk_context h) = Some (lit "t").
Proof.
  exists (after waitingRun). pose proof (after_reachable _ waiting_ran) as Hr. split; [exact Hr|].
  destruct waiting_entry as [p Hp].
  destruct (proj1 (proj2 (breakpoints_invariant to_ascii_lowercase _ Hr)) _ p Hp)
    as (_ & k & h & s & Hk & Ha & _ & _ & Ht & _).
  exists k, h. split; [exact Hk|]. split; [exact Ha|exact Ht].
Defined.

Lemma breakpoint_answered_once_witness :
  ∃ w c, Reachable to_ascii_lowercase w ∧ w_calls w !! 7 = Some c ∧
    ∃ k h s, w_hooks w !! k = Some h ∧ hk_suspension h = Some s ∧ cl_taken c = [pendingOf s] ∧ transactionOf s = lit "t".
Proof.
  destruct answered_call as (c & Hc & Hstage & Hrequest).
  exists (after answeredRun), c. pose proof (after_reachable _ answered_ran) as Hr. split; [exact Hr|]. split; [exact Hc|].
  assert (match cl_request c with ContinueBreakpoint t _ | AbortBreakpoint t => t = lit "t" | _ => False end) as Ht
    by (rewrite Hrequest; reflexivity).
  destruct (proj2 (breakpoint_answered_once to_ascii_lowercase _ Hr) 7 c (lit "t") (Ok tt) Hc Hstage Ht)
    as (k & h & s & Hk & Hs & Htaken & Htr & _).
  exists k, h, s. split; [exact Hk|]. split; [exact Hs|]. split; [exact Htaken|exact Htr].
Defined.

Lemma breakpoint_waits_end_witness :
  ∃ w, Reachable to_ascii_lowercase w ∧ seen 1 w = Some Running ∧
    ∃ bound, ∀ events w', Forall (λ e, internal e = true) events → run to_ascii_lowercase w events = Some w' →
      len events ≤ bound.
Proof.
  exists (after waitingRun). pose proof (after_reachable _ waiting_ran) as Hr. split; [exact Hr|].
  split; [vm_compute; reflexivity|].
  destruct (breakpoint_waits_end to_ascii_lowercase _ Hr) as [n Hn].
  exists n. intros events w' Hall Hrun. exact (proj1 (Hn events w' Hall Hrun)).
Defined.
End Runs.
